(* ===== verification/_CoqProject ===== *)
-Q . S2P
Prelude.v
AddrMap.v
CommandAbi.v
Platform.v
Completion.v
SlotPool.v
Tiling.v
LmemAllocator.v
LmemTiling.v
StackRemap.v
HwInfo.v
Cache.v
MemoryCopy.v
KernelDispatch.v
KernelInv.v
Dispatch.v
Falloc.v
MovingAverage.v
CMem.v
CStr.v
Strtox.v
Printf.v
LibComm.v
Real.v
LvDriver.v
ToyDevice.v
Hal.v
HalSession.v
HalLife.v
HalConcur.v
Dma.v
WgInit.v
WgInitInv.v
WgInitSim.v
CacheCtrl.v
BitSolve.v
Rv64Const.v
Rv64Instr.v
Rv64Decode.v
Rv64Compressed.v
Rv64Csr.v
Rv64Core.v
Rv64Inv.v
Rv64Safe.v
Rv64Isa.v
Rv64Priv.v
Rv64User.v
Gdb.v
GdbSession.v
Heap.v
SimFifo.v
SimPacket.v
SimTag.v
SimData.v
SimStore.v
SimMemory.v
SimMshr.v
SimVictim.v
SimWrites.v
SimCache.v
SimLedger.v
SimLogic.v
SimStages.v
SimInput.v
SimConserve.v
SmEncoding.v
SmInstr.v
SmExec.v
SmSched.v
SmCore.v
SmInv.v
SmSafe.v
SmThread.v
SmDecode.v
SmLanes.v
SmSimt.v
SmFair.v
