(* ===== verification/Prelude.v ===== *)
(** * A verification library for the Formosa GPGPU firmware and its host interface

    ** The program

    Formosa is an open GPGPU platform. The host side (hal/) submits commands to the
    device; the command processor runs a firmware (fw/) that executes them on
    streaming multiprocessors (SMs), caches and DMA engines. This library models the
    host runtime, the firmware, and the hardware models (ilha/, lv/) that the
    firmware drives most closely:

    - the host writes 64-byte packets into a ring in device memory and rings a
      doorbell; every packet carries a completion token that names a slot of a
      completion pool (hal/include/formosa-hal/api.h, hal/src/hal);
    - the firmware has four tasks: cp_dispatch takes packets out of the ring and
      executes or starts them, cp_retire_sm takes finished work-groups back,
      cp_retire_cache retires cache operations, cp_memory_copy_task drives copies;
      they share kernel states, work-group buffers, the cache state and the copy
      state without locks;
    - a kernel packet becomes a grid of work-groups, each with a buffer, a stack,
      possibly a block of an SM's local memory and a stack-remap slot;
    - the firmware's C library (fw/nanolibc, fw/tinyprintf) supplies memory and
      string routines, number parsing and formatted output;
    - the host reaches the device through a transport, here a message link over a
      socket (hal/src/real/lv, libcomm/);
    - on the device side, the work-group initializer of an SM (ilha/src) puts the
      work-groups on the warps of its core, the cache controller sends maintenance
      commands to the banks, and the DMA engine (lv/src/lv/bindings/dma) moves the data
      of a copy;
    - the command processor that runs the firmware is an RV64 simulator
      (lv/src/lv/bindings/cp/rv64) with a stub for a debugger (cp/gdbstub.cc);
    - the SMs of the simulator reach memory through non-blocking caches
      (simtix/src/cache); their simplest core runs one instruction of one warp at a
      time (simtix/src/cores/atomic).

    ** Files

    Each file models one component; definitions keep the names of the source.

    - Prelude.v: machine-width integers ([wrap], [swrap], notations +%, -%, *% for
      64-bit arithmetic), boolean automation ([bprop], [bcase], [wsimpl]), array
      loops ([find_first], [for_range]), loops with fuel ([loop], [while]) and their
      rules, little-endian encodings.
    - AddrMap.v: constants of ilha/lua/addr_map.lua.
    - CommandAbi.v: tokens, slots, result codes, packets (api.h, command_packet.h).
    - Platform.v: register banks (fw/cp_defs.h, hal/src/hal/dma.h).
    - Completion.v: firmware status and completion pool (cp_status.c,
      cp_completion.h).
    - SlotPool.v: type classes for fixed pools of slots, instantiated by the kernel
      states, the work-group buffers and the stack-remap table.
    - Tiling.v: the theory of an address window tiled by live and free regions,
      shared by the two allocators.
    - LmemAllocator.v, LmemTiling.v: the per-SM local-memory allocator
      (cp_lmem_allocator.c) and its refinement of a contract.
    - StackRemap.v (cp_stack_remap.c), HwInfo.v (cp_hwinfo.c, cp_wgi_buffer.c and
      the initialisation of main.c).
    - Cache.v: cache operations (cp_cache.c) as a transition system.
    - MemoryCopy.v: the copy engine (cp_memory_copy.c) as a transition system.
    - KernelDispatch.v, KernelInv.v: launching and retiring kernels
      (cp_kernel_dispatch.c, cp_retire.c, cp_context.c); the first file has the
      definitions and the invariant, the second the proofs.
    - Dispatch.v: the command ring, the dispatch loop and the reboot (cp_dispatch.c,
      cp_reboot.c, and the ring side of hal/src/hal/hal.cc).
    - Falloc.v: the host's device-memory allocator (hal/src/common/falloc/falloc.c).
    - MovingAverage.v: wait-time averages (cp_moving_average.c).
    - CMem.v, CStr.v, Strtox.v, Printf.v: the C library (nanolibc/c/string.c,
      strings.c, ctype.c, strtox.c, stdlib.c, stdio.c, tinyprintf/tinyprintf.c);
      Heap.v: its heap (malloc.c) over the allocator of the runtime, a type class with
      its laws.
    - LibComm.v: messages and framing of the link (libcomm/libcomm.h).
    - Real.v: the transport interface as a type class (hal/src/real/real.h);
      LvDriver.v: its implementation over the link (lv-driver.cc, lv-config.cc);
      ToyDevice.v: a small transport for the examples.
    - Hal.v: the host runtime (hal/src/hal/hal.cc), against the interface;
      HalSession.v, HalLife.v: its theorems; HalConcur.v: its mutex sections
      interleaved by several callers.
    - Dma.v: the DMA engine (lv/src/lv/bindings/dma/dma.cc).
    - WgInit.v, WgInitInv.v, WgInitSim.v: the work-group initializer
      (ilha/src/wg_initializer.cc), its invariant, and the simulation by the SM of
      KernelDispatch.v.
    - CacheCtrl.v: the cache controller (ilha/src/cache_controller.cc), as a refinement
      of the controllers of Cache.v.
    - BitSolve.v: a decision procedure by reflection for equations of bit fields.
    - Rv64Const.v, Rv64Instr.v: encodings and decoder of the core (riscv.h, instr.h,
      instr.cc, util.h); Rv64Decode.v, Rv64Compressed.v: its theorems.
    - Rv64Csr.v: the control registers (csr.h); Rv64Core.v: the core (rv64.cc, rv64.h,
      Regfile.cc, trap.h) over a bus that is a type class.
    - Rv64Inv.v: the invariant of the core and the rules for its operations;
      Rv64Safe.v: steps and traps; Rv64Isa.v: values of the integer instructions;
      Rv64Priv.v: trap delivery and return; Rv64User.v: user mode.
    - Gdb.v, GdbSession.v: the debugger stub and the thread of the command processor
      (cp/gdbstub.cc, cp/command_processor.cc).
    - SimFifo.v: the queues of the cache (SystemC's tlm_fifo) and its errors;
      SimPacket.v: parameters, transactions and packets (param.h, mem_payload.h,
      packet.h); SimTag.v, SimData.v: the two arrays (tag_array.cc, data_array.cc);
      SimStore.v, SimMemory.v: the arrays in front of memory, atomic operations, and
      their transparency; SimMshr.v: the miss registers (mshr_file.cc); SimVictim.v,
      SimWrites.v: the victim buffer and the write buffer (victim_buffer.cc,
      write_buffer.cc); SimCache.v: the controller around them, with its stages, its
      sequencers and its pools (cache.cc, cache_command.cc, cache_hazard.cc);
      SimLedger.v, SimLogic.v, SimStages.v, SimInput.v: the accounts of its packets, a
      logic for its computations, and that every stage keeps the accounts;
      SimConserve.v: the reachable states.
    - SmEncoding.v, SmInstr.v, SmExec.v: encodings, decoder and execution of the SM's
      instructions (cores/encoding.h, exec_flag.h, instr_def.h, instr.cc, decode.h,
      instr_*.cc); SmSched.v: the warp schedulers behind a class with its laws
      (cores/sched); SmCore.v: the atomic core (base.h, warp_lane_state.h,
      atomic_core.cc).
    - SmInv.v, SmSafe.v: the simulation of the core by the core interface of WgInit.v,
      and the reachable states; SmThread.v: the threads of the core; SmDecode.v: the
      decoder; SmLanes.v, SmSimt.v: a warp as independent threads; SmFair.v: fairness
      of the schedulers and priority.

    ** How code becomes definitions

    A C function without side effects on shared state is a function; one that
    changes state takes the state and returns it. Integers are [Z] with the wrap of
    their width written out where the code can leave it. A panic is [None]. Code
    that runs concurrently (Cache.v, MemoryCopy.v, KernelDispatch.v, Dispatch.v) is
    a step function per task on a record of the shared state and the task's program
    counter, cut at every access of shared memory that another party can observe,
    and a step relation that interleaves the tasks, the host and the hardware in
    any order. This covers every schedule of the FreeRTOS kernel; the relation has
    no fairness, so progress is stated as a number of steps of one task. Histories
    (what was sent, retired, published) are ghost fields that no step reads.

    The hardware appears through its registers: an SM accepts a posted work-group
    and later posts a result; a cache controller runs what its registers say when
    START is set and then clears it; a DMA engine ends with one of its terminal
    statuses. These are constructors of the step relations, as the register
    comments of cp_defs.h and cp_cache.h describe them. For all three the library also
    has the models of the hardware itself: WgInitSim.v proves that the initializer
    behaves as the SM of the firmware model, CacheCtrl.v that the cache controller
    behaves as those of Cache.v, and Dma.v that a transfer copies and ends in a
    terminal status.

    The SystemC models (Dma.v, WgInit.v, CacheCtrl.v) have one action for what a thread
    does between two points where it can block, or for a clock edge; a run is any list
    of actions. The host runtime is a computation in a state monad over its static
    variables and a device of which only the interface is known, so its theorems hold
    for whatever the device answers.

    The core is a state monad with two more outcomes. [Trap] is a thrown
    [SimulationTrap], with the state it leaves, which [catch_trap] handles as [run_step]
    does; [Fail] is a [std::runtime_error], a failed assertion, or an access or a shift
    that C++ leaves undefined. The long switch of [exec_step] is cut into one definition
    per group of instructions. Registers hold [int64_t] values and signed arithmetic
    wraps. A control register is a number whose fields are bit ranges; two CSR numbers
    that the code maps to one member share its value. The bus delivers any bytes, so
    memory, devices and failed accesses are covered alike; the code ignores the status of
    a response. The SM's atomic core is a step from one wait of its thread to the next;
    the answer of memory is part of the event. The stub is a similar monad over the pieces of input a connection
    delivers and the exceptions nothing catches.

    ** What the theorems show

    - Kernels (KernelInv.v): a kernel of fewer than 2^32 work-groups is published when,
      and only when, its whole grid has been launched and taken back, with the first
      failure; exactly one completion per accepted packet; nothing is held when no
      kernel is in use. [grids_in_range] is the condition on the packets.
    - Commands (Dispatch.v): the ring is a FIFO queue; barriers and launches wait
      for everything before them; a reboot drains; a fault stops the loop.
    - Completions (Completion.v, CommandAbi.v): the first result for exactly the
      token wins; tokens die with their boot; packets and tokens round-trip.
    - Copies and caches (MemoryCopy.v, Cache.v): success means that the whole
      protocol ran in order; accepted copies touch only permitted memory; cache
      operations run once on every targeted controller before they complete.
    - Allocators (LmemTiling.v, Falloc.v): every history of calls refines the
      contract of an allocator over disjoint aligned blocks; the free list is a
      function of the live blocks. The requests are those [op_ok] and [fop_ok] describe:
      not empty, and not wrapping around.
    - Boot (HwInfo.v): a boot that does not panic establishes every invariant and
      private stacks.
    - C library: the word-wise memory routines equal their byte-wise definitions;
      the tokenizer, the number parser and the formatter meet their contracts;
      printing and parsing are inverse; the heap refines an allocator of disjoint
      aligned blocks with contents (Heap.v).
    - Host runtime (HalSession.v, HalLife.v, HalConcur.v): tokens are never shared,
      also across resets and concurrent releases; a submission stores the slot, the
      packet and the doorbell in that order; a launch it accepts passes the check of the
      firmware and is launched, but for group counts that are a multiple of 2^32; every
      call that polls ends by its deadlines; an initialisation that fails leaves no
      session.
    - Link (LibComm.v, LvDriver.v): messages arrive as sent however the socket splits
      transfers; scratchpad copies round-trip.
    - Hardware models (Dma.v, WgInitSim.v, CacheCtrl.v): a transfer of a quiet engine
      copies the requested bytes and ends, in beats inside one cache block; the initializer keeps to the
      core's command protocol, runs every warp of a work-group once, and refines the SM of
      the firmware model; a finished cache command was performed by every bank.
    - Core (Rv64Decode.v to Rv64User.v): the decoder returns an operation exactly for
      the words of the manual's table, compressed ones included but for the hints C.ADD
      x0; the integer instructions write the manual's values, where their shifts are
      defined; a step keeps the invariant of the state
      or ends the simulation for one of four causes; traps are precise, go to the level
      they are delegated to, and their return restores what they saved; user mode
      changes no control register of a higher level and leaves only through its
      vector, but for MRET and SRET.
    - Debugger (GdbSession.v): packets arrive whole however the connection cuts them,
      replies decode, every turn ends on an open connection, breakpoints stop the core.
    - Cache of the simulator (SimMemory.v, SimMshr.v, SimVictim.v, SimWrites.v): the
      arrays act on memory as if they were not there, for every access, refill, atomic
      operation and maintenance; the miss registers are a map of waiting requests and
      a queue of batches to replay; a reservation for a victim is used once and its
      packet released once; the write buffer is a bounded queue. In every state the
      whole cache can reach (SimConserve.v) a packet is in one place, a transaction of
      the core is answered once or held, and memory's responses find room.
    - Core of the SM (SmSafe.v to SmFair.v): under the commands the interface allows an
      assertion fails only over a response of memory that is an error or another lane's,
      and every warp is in one of the four states, which fits its lanes; the core implements the interface that WgInitSim.v relies on, so
      that the initializer and the core fit together; a step changes only the threads
      of the lanes that execute, and outside memory and CSRs gives each of them what it
      computes alone; the decoder finds exactly the instruction a word encodes; the
      threads of the highest priority run, and round robin passes over no ready warp.
    - Some theorems describe behaviour that the code has and does not mean to have: a
      32-bit tick ([copy_phase_timeout]), an unbounded wait
      ([oversized_local_memory_waits_forever]), an aliasing zero-size allocation
      ([falloc_zero_size_aliases]), a release that overlaps a reset
      ([release_reset_race]), a DMA transfer started after a bus error
      ([dma_restart_race]), a privilege level nobody checks ([mret_ignores_privilege]),
      and [wrapped_group_count_is_rejected], [recv_size_wraps],
      [dma_error_reported_early] and [empty_group_is_lost].

    ** Bounds and fuel

    The memory routines use the byte count plus one as fuel and the number
    conversions the word width plus one; both are shown to be enough. The string
    routines take their fuel as an argument and their lemmas ask for more than the
    length of the string. The formatter uses the length of the format plus one
    ([tfp_format_total]). The polling loops of Hal.v take fuel; [deadlines_met] gives the
    amount that is enough. The receiver of LibComm.v takes fuel, and
    [link_delivers_messages] asks for more than the number of messages. The loops of the
    stub take the size of their input plus one, and [thread_turn_ends] shows that it is
    never used up. The decoder and a step of the core do not loop; [run] takes the number
    of steps. Everything else recurses structurally.

    ** Not modelled

    The FreeRTOS kernel with its heap and port, assembly, logging and tracing, the
    stubs of the C library, sockets and threads below the link and the stub, the Lua
    platform description beyond its constants, and of the simulators the scalar and the
    pipelined SM core, disassembly and the bus models (simtix and the bridges of lv),
    with the statistics and the logs of the cache, and the counters of its deadlock
    watchdog, whose fatal report is an input of the model. SoftFloat,
    which the SM's floating-point instructions call, is a record of functions. The
    handshake of the core's memory port (TLM phases and events) is the bus class. *)

From Stdlib Require Export ZArith Lia Bool.
From stdpp Require Export base tactics numbers option list.
From stdpp Require Import options.

#[global] Open Scope Z_scope.

(** ** Machine-width integers

    A [w]-bit unsigned value is a [Z] in [0, 2^w); every C operation that can
    leave that range is written with its wrap-around. *)
Definition wrap (w x : Z) : Z := x mod 2 ^ w.

(** The two's-complement reading of the low [w] bits, for C's signed types. *)
Definition swrap (w x : Z) : Z :=
  let y := x mod 2 ^ w in if y <? 2 ^ (w - 1) then y else y - 2 ^ w.

Definition fits (w x : Z) : Prop := 0 <= x < 2 ^ w.

Declare Scope cint_scope.
Delimit Scope cint_scope with cint.
Abbreviation u8 := (wrap 8).
Abbreviation u16 := (wrap 16).
Abbreviation u32 := (wrap 32).
Abbreviation u64 := (wrap 64).
Abbreviation s32 := (swrap 32).
Abbreviation s64 := (swrap 64).
(** 64-bit unsigned arithmetic as the C code writes it. *)
Notation "x +% y" := (wrap 64 (x + y)) (at level 50, left associativity) : cint_scope.
Notation "x -% y" := (wrap 64 (x - y)) (at level 50, left associativity) : cint_scope.
Notation "x *% y" := (wrap 64 (x * y)) (at level 40, left associativity) : cint_scope.
#[global] Open Scope cint_scope.

Definition UINT64_MAX : Z := 2 ^ 64 - 1.
Definition UINT32_MAX : Z := 2 ^ 32 - 1.
Definition UINT16_MAX : Z := 2 ^ 16 - 1.
Definition INT64_MAX : Z := 2 ^ 63 - 1.

#[global] Instance fits_dec w x : Decision (fits w x).
Proof. unfold fits. apply _. Defined.

Create HintDb cint.

Lemma wrap_range w x : 0 <= w -> 0 <= wrap w x < 2 ^ w.
Proof. intros. unfold wrap. apply Z.mod_pos_bound. lia. Qed.

Lemma wrap_small w x : 0 <= x < 2 ^ w -> wrap w x = x.
Proof. apply Z.mod_small. Qed.

Lemma wrap_fits w x : 0 <= w -> fits w (wrap w x).
Proof. apply wrap_range. Qed.

Lemma wrap_idemp w x : wrap w (wrap w x) = wrap w x.
Proof. unfold wrap. apply Z.mod_mod_divide. apply Z.divide_refl. Qed.

Lemma fits_mono v w x : 0 <= v <= w -> fits v x -> fits w x.
Proof.
  unfold fits. intros Hvw Hx.
  assert (2 ^ v <= 2 ^ w) by (apply Z.pow_le_mono_r; lia). lia.
Qed.

#[export] Hint Resolve wrap_fits : cint.
#[export] Hint Extern 1 (_ <= _) => lia : cint.
#[export] Hint Extern 1 (fits _ _) => (unfold fits; lia) : cint.

(** [wsimpl] removes every wrap-around whose argument is provably in range. *)
Ltac wsimpl :=
  repeat match goal with
  | |- context [wrap ?w ?x] =>
      rewrite (wrap_small w x) by first [lia | (unfold fits in *; lia)]
  end.
Ltac wsimpl_in H :=
  repeat match type of H with
  | context [wrap ?w ?x] =>
      rewrite (wrap_small w x) in H by first [lia | (unfold fits in *; lia)]
  end.

(** Turn the code's boolean tests into propositions. *)
Ltac bprop :=
  repeat match goal with
  | H : (_ && _)%bool = true |- _ => apply andb_true_iff in H; destruct H
  | H : (_ || _)%bool = false |- _ => apply orb_false_iff in H; destruct H
  | H : negb _ = true |- _ => apply negb_true_iff in H
  | H : negb _ = false |- _ => apply negb_false_iff in H
  | H : (_ =? _) = true |- _ => apply Z.eqb_eq in H
  | H : (_ =? _) = false |- _ => apply Z.eqb_neq in H
  | H : (_ <? _) = true |- _ => apply Z.ltb_lt in H
  | H : (_ <? _) = false |- _ => apply Z.ltb_ge in H
  | H : (_ <=? _) = true |- _ => apply Z.leb_le in H
  | H : (_ <=? _) = false |- _ => apply Z.leb_gt in H
  | H : (_ =? _)%nat = true |- _ => apply Nat.eqb_eq in H
  | H : (_ =? _)%nat = false |- _ => apply Nat.eqb_neq in H
  | H : (_ <? _)%nat = true |- _ => apply Nat.ltb_lt in H
  | H : (_ <? _)%nat = false |- _ => apply Nat.ltb_ge in H
  | H : (_ <=? _)%nat = true |- _ => apply Nat.leb_le in H
  | H : (_ <=? _)%nat = false |- _ => apply Nat.leb_gt in H
  end.

(** The same with a case split on each failed conjunction. *)
Ltac bsplit :=
  bprop; repeat match goal with
  | H : (_ && _)%bool = false |- _ => apply andb_false_iff in H; destruct H; bprop
  end.

(** Case analysis on the boolean condition of an [if] of the goal. *)
Ltac bcase :=
  match goal with
  | |- context [if ?b then _ else _] =>
      lazymatch type of b with
      | bool => let E := fresh "E" in destruct b eqn:E; bprop
      end
  end.
(** The same on a hypothesis. *)
Ltac bcase_in H :=
  match type of H with
  | context [if ?b then _ else _] =>
      lazymatch type of b with
      | bool => let E := fresh "E" in destruct b eqn:E; bprop
      end
  end.

(** ** Bit masks *)

Lemma testbit_high x n i : 0 <= x < 2 ^ n -> n <= i -> Z.testbit x i = false.
Proof.
  intros Hx Hi. destruct (Z.eq_dec x 0) as [->|Hx0]; [apply Z.bits_0|].
  apply Z.bits_above_log2; [lia|]. assert (Z.log2 x < n); [|lia].
  apply Z.log2_lt_pow2; lia.
Qed.

(** Masking with [~(2^k - 1)] rounds down to a multiple of [2^k]. *)
Lemma land_lnot_ones x k :
  0 <= k -> Z.land x (Z.lnot (Z.ones k)) = x - x mod 2 ^ k.
Proof.
  intros Hk. rewrite <- Z.ldiff_land, Z.ldiff_ones_r by lia.
  rewrite Z.shiftl_mul_pow2, Z.shiftr_div_pow2 by lia.
  pose proof (Z.div_mod x (2 ^ k)). lia.
Qed.

(** A 64-bit word times a 64-bit complement mask, as [x & ~(a - 1)] computes. *)
Lemma land_mask64 x k :
  0 <= k <= 64 -> fits 64 x ->
  Z.land x (wrap 64 (Z.lnot (2 ^ k - 1))) = x - x mod 2 ^ k.
Proof.
  intros Hk Hx. rewrite <- land_lnot_ones by lia.
  replace (2 ^ k - 1) with (Z.ones k) by (rewrite Z.ones_equiv; lia).
  apply Z.bits_inj'. intros i Hi. rewrite !Z.land_spec. unfold wrap.
  destruct (Z.lt_ge_cases i 64).
  - rewrite Z.mod_pow2_bits_low by lia. reflexivity.
  - rewrite (testbit_high x 64 i) by (unfold fits in *; lia). reflexivity.
Qed.

(** [x & (x - 1) = 0] is the code's power-of-two test. *)
Lemma pow2_test x : 0 < x -> Z.land x (x - 1) = 0 -> exists k, 0 <= k /\ x = 2 ^ k.
Proof.
  intros Hx Hl. exists (Z.log2 x). pose proof (Z.log2_nonneg x) as Hn.
  pose proof (Z.log2_spec x Hx) as [Hlo Hhi]. rewrite Z.pow_succ_r in Hhi by lia.
  split; [lia|]. destruct (Z.eq_dec x (2 ^ Z.log2 x)) as [|Hne]; [done|exfalso].
  assert (Hl1 : Z.log2 (x - 1) = Z.log2 x).
  { apply Z.log2_unique; [lia|]. rewrite Z.pow_succ_r by lia. lia. }
  assert (Hb : Z.testbit (Z.land x (x - 1)) (Z.log2 x) = true).
  { rewrite Z.land_spec, Z.bit_log2 by lia. rewrite <- Hl1, Z.bit_log2; [done|].
    assert (2 ^ Z.log2 x < x) by lia. pose proof (Z.pow_pos_nonneg 2 (Z.log2 x)). lia. }
  rewrite Hl, Z.bits_0 in Hb. discriminate.
Qed.

Lemma pow2_test_complete k : 0 <= k -> Z.land (2 ^ k) (2 ^ k - 1) = 0.
Proof.
  intros Hk. replace (2 ^ k - 1) with (Z.ones k) by (rewrite Z.ones_equiv; lia).
  rewrite Z.land_ones by lia. apply Z.mod_same. lia.
Qed.

(** Masking with [2^k - 1] is the remainder. *)
Lemma land_low_mask x k : 0 <= k -> Z.land x (2 ^ k - 1) = x mod 2 ^ k.
Proof.
  intros Hk. replace (2 ^ k - 1) with (Z.ones k) by (rewrite Z.ones_equiv; lia).
  apply Z.land_ones. lia.
Qed.

(** Extracting an [n]-bit field at bit [k] with a shifted mask. *)
Lemma land_field x n k :
  0 <= n -> 0 <= k ->
  Z.shiftr (Z.land x (Z.shiftl (Z.ones n) k)) k = (x / 2 ^ k) mod 2 ^ n.
Proof.
  intros Hn Hk. rewrite Z.shiftr_land, Z.shiftr_shiftl_l, Z.sub_diag, Z.shiftl_0_r by lia.
  by rewrite Z.land_ones, Z.shiftr_div_pow2 by lia.
Qed.

(** Or-ing a field above bit [k] with one below it is addition. *)
Lemma lor_disjoint x y k :
  0 <= k -> 0 <= y < 2 ^ k -> Z.lor (x * 2 ^ k) y = x * 2 ^ k + y.
Proof.
  intros Hk Hy. rewrite <- Z.shiftl_mul_pow2 by lia.
  assert (Hl : Z.land (Z.shiftl x k) y = 0).
  { apply Z.bits_inj'. intros i Hi. rewrite Z.land_spec, Z.bits_0, Z.shiftl_spec by lia.
    destruct (Z.lt_ge_cases i k).
    - by rewrite Z.testbit_neg_r by lia.
    - rewrite (testbit_high y k) by lia. apply andb_false_r. }
  by rewrite Z.add_nocarry_lxor, Z.lxor_lor.
Qed.

(** ** Loops over array indices

    [find_first p n] is [for (i = 0; i < n; ++i) if (p i) return i;]. *)
Fixpoint find_from (p : nat -> bool) (i n : nat) : option nat :=
  match n with
  | O => None
  | S n' => if p i then Some i else find_from p (S i) n'
  end.
Definition find_first (p : nat -> bool) (n : nat) : option nat := find_from p 0 n.

(** [for_range f i n a] is [for (j = i; j < i + n; ++j) a = f(j, a);]. *)
Fixpoint for_range {A} (f : nat -> A -> A) (i n : nat) (a : A) : A :=
  match n with
  | O => a
  | S n' => for_range f (S i) n' (f i a)
  end.

Lemma find_from_Some p i n k :
  find_from p i n = Some k ->
  (i <= k < i + n)%nat /\ p k = true /\ forall j, (i <= j < k)%nat -> p j = false.
Proof.
  revert i. induction n as [|n IH]; intros i H; simpl in H; [done|].
  destruct (p i) eqn:Hp.
  - simplify_eq. split_and!; [lia|lia|done|]. intros; lia.
  - destruct (IH _ H) as (Hr & Hk & Hj). split_and!; [lia|lia|done|].
    intros j Hj'. destruct (decide (j = i)) as [->|]; [done|]. apply Hj. lia.
Qed.

Lemma find_from_None p i n :
  find_from p i n = None <-> forall j, (i <= j < i + n)%nat -> p j = false.
Proof.
  revert i. induction n as [|n IH]; intros i; simpl; [split; [intros; lia|done]|].
  destruct (p i) eqn:Hp.
  - split; [done|]. intros H. rewrite H in Hp by lia. done.
  - rewrite IH. split; intros H j Hj.
    + destruct (decide (j = i)) as [->|]; [done|]. apply H. lia.
    + apply H. lia.
Qed.

Lemma find_first_Some p n k :
  find_first p n = Some k ->
  (k < n)%nat /\ p k = true /\ forall j, (j < k)%nat -> p j = false.
Proof.
  intros H. apply find_from_Some in H as (? & ? & Hj). split_and!; [lia|done|].
  intros j ?. apply Hj. lia.
Qed.

Lemma find_first_None p n :
  find_first p n = None <-> forall j, (j < n)%nat -> p j = false.
Proof.
  unfold find_first. rewrite find_from_None. split; intros H j Hj; apply H; lia.
Qed.

Lemma find_first_ext p q n :
  (forall j, (j < n)%nat -> p j = q j) -> find_first p n = find_first q n.
Proof.
  unfold find_first. cut (forall i, (forall j, (i <= j < i + n)%nat -> p j = q j) ->
    find_from p i n = find_from q i n). { intros H Hj. apply H. intros. apply Hj. lia. }
  induction n as [|n IH]; intros i H; simpl; [done|].
  rewrite H by lia. rewrite IH; [done|]. intros. apply H. lia.
Qed.

(** The first index found is [k] as soon as [k] satisfies [p] and no earlier
    index does. *)
Lemma find_first_eq p n k :
  (k < n)%nat -> p k = true -> (forall j, (j < k)%nat -> p j = false) ->
  find_first p n = Some k.
Proof.
  intros Hk Hp Hj. destruct (find_first p n) as [k'|] eqn:E.
  - apply find_first_Some in E as (? & Hp' & Hj'). f_equal.
    destruct (decide (k' < k)%nat); [rewrite Hj in Hp' by lia; done|].
    destruct (decide (k < k')%nat); [rewrite Hj' in Hp by lia; done|]. lia.
  - rewrite find_first_None in E. rewrite E in Hp by lia. done.
Qed.

Lemma for_range_S {A} (f : nat -> A -> A) i n a :
  for_range f i (S n) a = f (i + n)%nat (for_range f i n a).
Proof.
  revert i a. induction n as [|n IH]; intros i a.
  - simpl. by rewrite Nat.add_0_r.
  - change (for_range f i (S (S n)) a) with (for_range f (S i) (S n) (f i a)).
    rewrite IH. simpl. f_equal. lia.
Qed.

(** Invariant rule for [for_range]. *)
Lemma for_range_ind {A} (P : nat -> A -> Prop) (f : nat -> A -> A) i n a :
  P i a ->
  (forall j b, (i <= j < i + n)%nat -> P j b -> P (S j) (f j b)) ->
  P (i + n)%nat (for_range f i n a).
Proof.
  intros H0 HS. revert i a H0 HS. induction n as [|n IH]; intros i a H0 HS; simpl.
  - by rewrite Nat.add_0_r.
  - replace (i + S n)%nat with (S i + n)%nat by lia. apply IH.
    + apply HS; [lia|done].
    + intros. apply HS; [lia|done].
Qed.

(** ** Loops with fuel

    [loop fuel step s] runs a loop whose body is [step]: [inl] goes round again,
    [inr] leaves it with a result. [None] means that the fuel ran out; [loop_rule]
    is the total-correctness rule, with a loop invariant and a variant. *)
Section loops.
Context {St R : Type}.

Fixpoint loop (fuel : nat) (step : St -> St + R) (s : St) : option R :=
  match fuel with
  | O => None
  | S f => match step s with inl s' => loop f step s' | inr r => Some r end
  end.

Lemma loop_rule (Inv : St -> Prop) (mu : St -> nat) (Q : R -> Prop) fuel step s :
  (forall s s', Inv s -> step s = inl s' -> Inv s' /\ (mu s' < mu s)%nat) ->
  (forall s r, Inv s -> step s = inr r -> Q r) ->
  Inv s -> (mu s < fuel)%nat -> exists r, loop fuel step s = Some r /\ Q r.
Proof.
  intros Hs Hq. revert s. induction fuel as [|f IH]; intros s Hi Hf; [lia|]. simpl.
  destruct (step s) as [s'|r] eqn:E.
  - destruct (Hs _ _ Hi E). apply IH; [done|lia].
  - eauto.
Qed.

(** More fuel does not change the answer. *)
Lemma loop_mono fuel fuel' step s r :
  loop fuel step s = Some r -> (fuel <= fuel')%nat -> loop fuel' step s = Some r.
Proof.
  revert fuel' s. induction fuel as [|f IH]; intros [|f'] s; simpl; [done..|lia|].
  intros H Hle. destruct (step s); [|done]. apply IH; [done|lia].
Qed.
End loops.

(** The same for a body that can itself run out of fuel. *)
Section oloops.
Context {St R : Type}.

Fixpoint oloop (fuel : nat) (step : St -> option (St + R)) (s : St) : option R :=
  match fuel with
  | O => None
  | S f =>
      match step s with
      | Some (inl s') => oloop f step s'
      | Some (inr r) => Some r
      | None => None
      end
  end.

Lemma oloop_rule (Inv : St -> Prop) (mu : St -> nat) (Q : R -> Prop) fuel step s :
  (forall s, Inv s ->
     (exists s', step s = Some (inl s') /\ Inv s' /\ (mu s' < mu s)%nat) \/
     (exists r, step s = Some (inr r) /\ Q r)) ->
  Inv s -> (mu s < fuel)%nat -> exists r, oloop fuel step s = Some r /\ Q r.
Proof.
  intros Hs. revert s. induction fuel as [|f IH]; intros s Hi Hf; [lia|]. simpl.
  destruct (Hs s Hi) as [(s' & -> & Hi' & Hmu)|(r & -> & Hq)]; [|eauto].
  apply IH; [done|lia].
Qed.

(** Partial correctness: whatever the fuel, a result satisfies [Q]. *)
Lemma oloop_inv (Inv : St -> Prop) (Q : R -> Prop) fuel step s r :
  (forall s s', Inv s -> step s = Some (inl s') -> Inv s') ->
  (forall s r, Inv s -> step s = Some (inr r) -> Q r) ->
  Inv s -> oloop fuel step s = Some r -> Q r.
Proof.
  intros Hs Hq. revert s. induction fuel as [|f IH]; intros s Hi; simpl; [done|].
  destruct (step s) as [[s'|r']|] eqn:E; [|intros [= <-]; eauto|done]. eauto.
Qed.
End oloops.

(** [while (cond) body]. *)
Definition while {St} (fuel : nat) (cond : St -> bool) (body : St -> St) : St -> option St :=
  loop fuel (fun s => if cond s then inl (body s) else inr s).

Lemma while_rule {St} (Inv : St -> Prop) (mu : St -> nat) fuel cond body (s : St) :
  (forall s, Inv s -> cond s = true -> Inv (body s) /\ (mu (body s) < mu s)%nat) ->
  Inv s -> (mu s < fuel)%nat ->
  exists s', while fuel cond body s = Some s' /\ Inv s' /\ cond s' = false.
Proof.
  intros Hb. apply (loop_rule Inv mu (fun s' => Inv s' /\ cond s' = false)).
  - intros s1 s2 Hi. destruct (cond s1) eqn:E; [|done]. intros [= <-]. auto.
  - intros s1 r Hi. destruct (cond s1) eqn:E; [done|]. intros [= <-]. auto.
Qed.

(** ** Arrays as lists *)

Lemma list_lookup_total_lt {A} (l : list A) (i : nat) :
  (i < length l)%nat -> exists x, l !! i = Some x.
Proof. intros H. destruct (lookup_lt_is_Some_2 l i H) as [x ?]. by exists x. Qed.

Lemma nth_lookup_lt {A} (l : list A) (i : nat) (d : A) :
  (i < length l)%nat -> l !! i = Some (nth i l d).
Proof.
  intros H. destruct (list_lookup_total_lt l i H) as [x Hx]. by rewrite (nth_lookup_Some _ _ _ _ Hx).
Qed.

Lemma nth_insert {A} (l : list A) i j x d :
  (i < length l)%nat -> nth j (<[i := x]> l) d = if decide (j = i) then x else nth j l d.
Proof.
  intros Hi. case_decide as E; [subst j|].
  - apply nth_lookup_Some. by apply list_lookup_insert_eq.
  - rewrite !nth_lookup. by rewrite list_lookup_insert_ne.
Qed.

(** Updating the first [n] entries of an array in turn. *)
Lemma for_range_map {A} (f : A -> A) (d : A) n (l : list A) :
  (n <= length l)%nat ->
  let r := for_range (fun i l => <[i := f (nth i l d)]> l) 0 n l in
  length r = length l /\
  forall j, nth j r d = if decide (j < n)%nat then f (nth j l d) else nth j l d.
Proof.
  intros Hn. pose (P := fun (i : nat) (r : list A) => length r = length l /\
    forall j, nth j r d = if decide (j < i)%nat then f (nth j l d) else nth j l d).
  change (P (0 + n)%nat (for_range (fun i l => <[i := f (nth i l d)]> l) 0 n l)).
  apply for_range_ind.
  - split; [done|]. intros j. by rewrite decide_False by lia.
  - intros i r Hi [Hlen Hr]. split; [by rewrite length_insert|]. intros j.
    rewrite nth_insert by lia. rewrite !Hr.
    repeat case_decide; subst; try lia; done.
Qed.

(** Number of elements that satisfy a boolean test. *)
Definition countb {A} (f : A -> bool) (l : list A) : nat := length (List.filter f l).

Lemma countb_app {A} (f : A -> bool) l k : countb f (l ++ k) = (countb f l + countb f k)%nat.
Proof. unfold countb. by rewrite List.filter_app, length_app. Qed.

Lemma countb_cons {A} (f : A -> bool) x l :
  countb f (x :: l) = ((if f x then 1 else 0) + countb f l)%nat.
Proof. unfold countb. simpl. by destruct (f x). Qed.

Lemma countb_le {A} (f : A -> bool) l : (countb f l <= length l)%nat.
Proof. unfold countb. apply List.filter_length_le. Qed.

Lemma countb_insert {A} (f : A -> bool) l i (x y : A) :
  l !! i = Some x ->
  (countb f (<[i:=y]> l) + (if f x then 1 else 0)
   = countb f l + (if f y then 1 else 0))%nat.
Proof.
  intros H. assert (Hlt := lookup_lt_Some _ _ _ H).
  rewrite (insert_take_drop l i y) by done.
  rewrite <- (take_drop_middle l i x H) at 3.
  rewrite !countb_app, !countb_cons. lia.
Qed.

(** If fewer elements satisfy [f] than the list holds, the scan for one that
    does not succeeds. *)
Lemma countb_lt_find {A} (f : A -> bool) (d : A) (l : list A) :
  (countb f l < length l)%nat ->
  exists i, find_first (fun i => negb (f (nth i l d))) (length l) = Some i.
Proof.
  intros H. destruct (find_first _ _) eqn:E; [by eexists|exfalso].
  rewrite find_first_None in E.
  assert (Hall : Forall (fun x => f x = true) l).
  { apply Forall_lookup. intros i x Hi. specialize (E i (lookup_lt_Some _ _ _ Hi)).
    apply negb_false_iff in E. by rewrite (nth_lookup_Some _ _ _ _ Hi) in E. }
  clear E. unfold countb in H. rewrite List.forallb_filter_id in H; [lia|].
  apply forallb_forall. intros x Hx. rewrite Forall_forall in Hall. apply Hall.
  by apply list_elem_of_In.
Qed.

(** ** Little-endian fields *)

Fixpoint le_bytes (n : nat) (z : Z) : list Z :=
  match n with
  | O => []
  | S n' => z mod 256 :: le_bytes n' (z / 256)
  end.
Fixpoint le_val (l : list Z) : Z :=
  match l with
  | [] => 0
  | b :: l' => b + 256 * le_val l'
  end.

Lemma length_le_bytes n z : length (le_bytes n z) = n.
Proof. revert z. induction n as [|n IH]; intros; simpl; [done|]. by rewrite IH. Qed.

Lemma le_val_bytes n z : le_val (le_bytes n z) = z mod 2 ^ (8 * Z.of_nat n).
Proof.
  revert z. induction n as [|n IH]; intros z; simpl le_bytes; simpl le_val.
  - by rewrite Z.mod_1_r.
  - rewrite IH. replace (8 * Z.of_nat (S n)) with (8 + 8 * Z.of_nat n) by lia.
    rewrite Z.pow_add_r by lia. change (2 ^ 8) with 256.
    rewrite (Z.rem_mul_r z 256) by lia. done.
Qed.

Lemma le_bytes_range n z : Forall (fun b => 0 <= b < 256) (le_bytes n z).
Proof.
  revert z. induction n as [|n IH]; intros; simpl; constructor; [|apply IH].
  apply Z.mod_pos_bound. lia.
Qed.

Lemma le_val_range l :
  Forall (fun b => 0 <= b < 256) l -> 0 <= le_val l < 2 ^ (8 * Z.of_nat (length l)).
Proof.
  induction 1 as [|b l Hb Hl IH]; simpl; [lia|].
  replace (8 * Z.of_nat (S (length l))) with (8 + 8 * Z.of_nat (length l)) by lia.
  rewrite Z.pow_add_r by lia. change (2 ^ 8) with 256. lia.
Qed.

Lemma le_bytes_val l :
  Forall (fun b => 0 <= b < 256) l -> le_bytes (length l) (le_val l) = l.
Proof.
  induction 1 as [|b l Hb Hl IH]; simpl; [done|]. f_equal.
  - rewrite (Z.mul_comm 256), Z.mod_add by lia. apply Z.mod_small. lia.
  - rewrite (Z.mul_comm 256), Z.div_add, (Z.div_small b) by lia. done.
Qed.

(** A struct with no padding is the concatenation of its fields; [decode_fields]
    cuts it again at the field widths. *)
Fixpoint encode_fields (fs : list (nat * Z)) : list Z :=
  match fs with
  | [] => []
  | (w, v) :: fs' => le_bytes w v ++ encode_fields fs'
  end.
Fixpoint decode_fields (ws : list nat) (l : list Z) : list Z :=
  match ws with
  | [] => []
  | w :: ws' => le_val (take w l) :: decode_fields ws' (drop w l)
  end.

Lemma decode_encode_fields fs :
  Forall (fun f => 0 <= f.2 < 2 ^ (8 * Z.of_nat f.1)) fs ->
  decode_fields (fs.*1) (encode_fields fs) = fs.*2.
Proof.
  induction 1 as [|[w v] fs Hv Hfs IH]; simpl; [done|].
  rewrite take_app_le by (rewrite length_le_bytes; lia).
  rewrite take_ge by (rewrite length_le_bytes; lia).
  rewrite le_val_bytes, Z.mod_small by done. f_equal.
  rewrite drop_app_ge by (rewrite length_le_bytes; lia).
  by rewrite length_le_bytes, Nat.sub_diag, drop_0.
Qed.

Lemma decode_encode_zip ws vs :
  Forall2 (fun w v => 0 <= v < 2 ^ (8 * Z.of_nat w)) ws vs ->
  decode_fields ws (encode_fields (zip ws vs)) = vs.
Proof.
  intros H. assert (length ws = length vs) by (eapply Forall2_length; eauto).
  assert (Hf : Forall (fun f => 0 <= f.2 < 2 ^ (8 * Z.of_nat f.1)) (zip ws vs)).
  { clear -H. induction H; simpl; constructor; done. }
  apply decode_encode_fields in Hf. by rewrite fst_zip, snd_zip in Hf by lia.
Qed.

Lemma encode_fields_app fs gs :
  encode_fields (fs ++ gs) = encode_fields fs ++ encode_fields gs.
Proof.
  induction fs as [|[w v] fs IH]; simpl; [done|]. by rewrite IH, app_assoc.
Qed.

Lemma length_encode_fields fs :
  length (encode_fields fs) = list_sum (fs.*1).
Proof.
  induction fs as [|[w v] fs IH]; simpl; [done|].
  by rewrite length_app, length_le_bytes, IH.
Qed.
