(* ===== verification/AddrMap.v ===== *)
(** * The platform address map (ilha/lua/addr_map.lua)

    The C header formosa_addr_map.h is printed from this Lua table by
    ilha/scripts/generate_header.lua, one [FSA_*] macro per field. The constants
    the firmware and the HAL use are taken from the table. *)

From S2P Require Import Prelude.

(** Command ring and completion pool (the Host MMIO aperture). *)
Definition FSA_CMD_RING_ENTRIES : Z := 64.
Definition FSA_CMD_PACKET_SIZE : Z := 64.
Definition FSA_CMD_RING_BASE : Z := 0x61000.
Definition FSA_COMPLETION_POOL_ENTRIES : Z := 64.
Definition FSA_COMPLETION_POOL_BASE : Z := 0x62000.
Definition FSA_CP_KERNEL_STATE_BUF_SIZE : Z := 4.

(** SM MMIO. *)
Definition FSA_SM_MMIO_BASE : Z := 0x70000.
Definition FSA_SM_MMIO_APERTURE : Z := 0x10000.
Definition FSA_SM_MMIO_STRIDE : Z := 0x1000.
Definition FSA_SM_MMIO_MAX_SMS : Z := FSA_SM_MMIO_APERTURE / FSA_SM_MMIO_STRIDE.
Definition FSA_SM_STACK_REMAP_MAX_ENTRIES : Z := 0x8.
Definition FSA_STACK_REMAP_VALID_BIT : Z := 0x1.
Definition FSA_STACK_REMAP_ADDRESS_MASK : Z := 0x0000FFFFFFFFFFFF.

(** SystemInfo. *)
Definition FSA_SYSTEM_INFO_BASE : Z := 0x60000.
Definition FSA_SYSTEM_INFO_OFF_ABI_VERSION : Z := 0x00.
Definition FSA_SYSTEM_INFO_OFF_LENGTH : Z := 0x08.
Definition FSA_SYSTEM_INFO_OFF_NUM_SM : Z := 0x10.
Definition FSA_SYSTEM_INFO_OFF_THREADS_PER_WARP : Z := 0x18.
Definition FSA_SYSTEM_INFO_OFF_WARPS_PER_CORE : Z := 0x20.
Definition FSA_SYSTEM_INFO_OFF_LOCAL_MEM_SIZE : Z := 0x28.
Definition FSA_SYSTEM_INFO_OFF_SHARED_CACHE_SIZE : Z := 0x30.
Definition FSA_SYSTEM_INFO_OFF_CACHE_BLOCK_SIZE : Z := 0x38.
Definition FSA_SYSTEM_INFO_OFF_GLOBAL_ALLOC_BASE : Z := 0x40.
Definition FSA_SYSTEM_INFO_ABI_VERSION : Z := 1.
Definition FSA_SYSTEM_INFO_LENGTH : Z := 0x48.

(** Memories. *)
Definition FSA_ONCHIP_GMEM_BASE : Z := 0x100000.
Definition FSA_ONCHIP_GMEM_SIZE : Z := 0x80000.
Definition FSA_LMEM_BASE : Z := 0x0.
Definition FSA_LMEM_SIZE : Z := 0xC000.
Definition FSA_GLOBAL_MEM_BASE : Z := 0x80000000.
Definition FSA_GLOBAL_MEM_SIZE : Z := 0x80000000.
Definition FSA_WGI_BUF_BASE : Z := 0x80000000.
Definition FSA_WGI_BUF_SIZE : Z := 0x100000.
Definition FSA_NONCACHE_ALLOC_BASE : Z := 0x80100000.
Definition FSA_NONCACHE_ALLOC_SIZE : Z := 0xEC0000.
Definition FSA_FIRMWARE_STAGING_BASE : Z := 0x80FC0000.
Definition FSA_FIRMWARE_STAGING_SIZE : Z := 0x40000.
Definition FSA_STACK_BASE : Z := 0x81000000.
Definition FSA_PER_THREAD_STACK_SIZE : Z := 0x800.
Definition FSA_CP_TCM_SIZE : Z := 0x40000.
Definition FSA_CLINT_BASE : Z := 0x50000.
Definition FSA_MMIO_BASE : Z := 0x60000.
Definition FSA_MMIO_SIZE : Z := 0x10000.
Definition FSA_CLINT_SIZE : Z := 0x10000.

(** Registers of the command processor, as offsets in the MMIO window. *)
Definition FSA_CP_OFF_FW_HOST_ADDR : Z := 0x108.
Definition FSA_CP_OFF_FW_SIZE : Z := 0x110.
Definition FSA_CP_OFF_CMD_RING_BASE : Z := 0x118.
Definition FSA_CP_OFF_CMD_RING_SIZE : Z := 0x128.
Definition FSA_CP_OFF_RD_PTR : Z := 0x130.
Definition FSA_CP_OFF_WR_PTR : Z := 0x138.
Definition FSA_CP_OFF_FW_STATUS : Z := 0x140.
Definition FSA_CP_OFF_FW_ABI_VERSION : Z := 0x148.
Definition FSA_CP_OFF_FW_BOOT_GENERATION : Z := 0x150.
Definition FSA_CP_OFF_FW_FAULT_CODE : Z := 0x158.
