(* ===== verification/CommandAbi.v ===== *)
(** * The command ABI shared by the HAL and the firmware

    hal/include/formosa-hal/api.h: completion tokens, completion slots and the
    result codes; hal/src/hal/command_packet.h: the four 64-byte command packets.

    A token packs a boot generation (16 bits), an allocation generation (32 bits)
    and a slot index (16 bits). A slot packs the token's upper 48 bits, its
    allocation tag, with a 16-bit result. *)

From S2P Require Import Prelude.

(** ** Completion tokens and slots (api.h) *)

Definition FSA_COMPLETION_SLOT_BYTES : Z := 8.
Definition FSA_COMPLETION_SLOT_COUNT : Z := 64.
Definition FSA_COMPLETION_BOOT_GENERATION_SHIFT : Z := 48.
Definition FSA_COMPLETION_ALLOC_GENERATION_SHIFT : Z := 16.
Definition FSA_COMPLETION_SLOT_INDEX_SHIFT : Z := 0.
Definition FSA_COMPLETION_BOOT_GENERATION_MASK : Z := 0x0000FFFF.
Definition FSA_COMPLETION_ALLOC_GENERATION_MASK : Z := 0x00000000FFFFFFFF.
Definition FSA_COMPLETION_SLOT_INDEX_MASK : Z := 0x000000000000FFFF.
Definition FSA_COMPLETION_ALLOC_TAG_MASK : Z := 0x0000FFFFFFFFFFFF.
Definition FSA_COMPLETION_TOKEN_BOOT_GENERATION_MASK : Z := 0xFFFF000000000000.
Definition FSA_COMPLETION_TOKEN_ALLOC_GENERATION_MASK : Z := 0x0000FFFFFFFF0000.
Definition FSA_COMPLETION_TOKEN_SLOT_INDEX_MASK : Z := 0x000000000000FFFF.
Definition FSA_COMPLETION_TOKEN_ALLOC_TAG_MASK : Z := 0xFFFFFFFFFFFF0000.
Definition FSA_COMPLETION_RESULT_PENDING : Z := 0x0000.
Definition FSA_COMPLETION_RESULT_SUCCESS : Z := 0x0001.
Definition FSA_COMPLETION_RESULT_COMMAND_FAILURE_MIN : Z := 0x0002.
Definition FSA_COMPLETION_RESULT_COMMAND_FAILURE_MAX : Z := 0xFFFE.
Definition FSA_COMPLETION_RESULT_FIRMWARE_REBOOT : Z := 0xFFFF.
Definition FSA_COMPLETION_RESULT_MASK : Z := 0x000000000000FFFF.
Definition FSA_COMPLETION_ALLOC_GENERATION_INITIAL : Z := 1.
Definition FSA_COMMAND_ABI_VERSION_V3 : Z := 3.

Definition fsa_completion_token_make
    (boot_generation alloc_generation slot_index : Z) : Z :=
  let alloc_generation :=
    if alloc_generation =? 0 then FSA_COMPLETION_ALLOC_GENERATION_INITIAL
    else alloc_generation in
  Z.lor
    (Z.lor
       (u64 (Z.shiftl (Z.land boot_generation FSA_COMPLETION_BOOT_GENERATION_MASK)
                      FSA_COMPLETION_BOOT_GENERATION_SHIFT))
       (u64 (Z.shiftl (Z.land alloc_generation FSA_COMPLETION_ALLOC_GENERATION_MASK)
                      FSA_COMPLETION_ALLOC_GENERATION_SHIFT)))
    (u64 (Z.shiftl (Z.land slot_index FSA_COMPLETION_SLOT_INDEX_MASK)
                   FSA_COMPLETION_SLOT_INDEX_SHIFT)).

Definition fsa_completion_token_boot_generation (token : Z) : Z :=
  u16 (Z.shiftr (Z.land token FSA_COMPLETION_TOKEN_BOOT_GENERATION_MASK)
                FSA_COMPLETION_BOOT_GENERATION_SHIFT).

Definition fsa_completion_token_alloc_generation (token : Z) : Z :=
  u32 (Z.shiftr (Z.land token FSA_COMPLETION_TOKEN_ALLOC_GENERATION_MASK)
                FSA_COMPLETION_ALLOC_GENERATION_SHIFT).

Definition fsa_completion_token_slot_index (token : Z) : Z :=
  u16 (Z.shiftr (Z.land token FSA_COMPLETION_TOKEN_SLOT_INDEX_MASK)
                FSA_COMPLETION_SLOT_INDEX_SHIFT).

Definition fsa_completion_token_alloc_tag (token : Z) : Z :=
  Z.shiftr (Z.land token FSA_COMPLETION_TOKEN_ALLOC_TAG_MASK)
           FSA_COMPLETION_ALLOC_GENERATION_SHIFT.

Definition fsa_completion_token_has_valid_slot (token : Z) : bool :=
  negb (token =? 0) &&
  negb (fsa_completion_token_alloc_generation token =? 0) &&
  (fsa_completion_token_slot_index token <? FSA_COMPLETION_SLOT_COUNT).

Definition fsa_completion_slot_encode (alloc_tag result : Z) : Z :=
  Z.lor (u64 (Z.shiftl (Z.land alloc_tag FSA_COMPLETION_ALLOC_TAG_MASK)
                       FSA_COMPLETION_ALLOC_GENERATION_SHIFT))
        result.

Definition fsa_completion_slot_alloc_tag (slot : Z) : Z :=
  Z.shiftr (Z.land slot FSA_COMPLETION_TOKEN_ALLOC_TAG_MASK)
           FSA_COMPLETION_ALLOC_GENERATION_SHIFT.

Definition fsa_completion_slot_result (slot : Z) : Z :=
  u16 (Z.land slot FSA_COMPLETION_RESULT_MASK).

Definition fsa_completion_next_alloc_generation (alloc_generation : Z) : Z :=
  if (alloc_generation =? 0) || (alloc_generation =? UINT32_MAX)
  then FSA_COMPLETION_ALLOC_GENERATION_INITIAL
  else u32 (alloc_generation + 1).

(** ** Enumerations (api.h) *)

Definition kFsaMemoryDomainHost : Z := 1.
Definition kFsaMemoryDomainDevice : Z := 2.

Definition kFsaMemoryCopyStatusInvalidDomainPair : Z := 2.
Definition kFsaMemoryCopyStatusInvalidAddress : Z := 3.
Definition kFsaMemoryCopyStatusInvalidRange : Z := 4.
Definition kFsaMemoryCopyStatusOverlap : Z := 5.
Definition kFsaMemoryCopyStatusDmaBusError : Z := 6.
Definition kFsaMemoryCopyStatusInternalError : Z := 7.
Definition kFsaMemoryCopyStatusNotReady : Z := 8.
Definition kFsaMemoryCopyStatusTimeout : Z := 9.

Definition kFsaKernelCompletionBadDimension : Z := 2.
Definition kFsaKernelCompletionException : Z := 3.
Definition kFsaKernelCompletionUnknownError : Z := 4.

Definition kFsaFirmwareFaultNone : Z := 0.
Definition kFsaFirmwareFaultMemoryCopyTimeout : Z := 1.

Inductive FsaFirmwareStatus :=
  | kFsaFirmwareStatusReset
  | kFsaFirmwareStatusBooting
  | kFsaFirmwareStatusReady
  | kFsaFirmwareStatusFault.

#[global] Instance FsaFirmwareStatus_eq_dec : EqDecision FsaFirmwareStatus.
Proof. solve_decision. Defined.

(** The value of each status in the FW_STATUS register. *)
Definition FsaFirmwareStatus_code (s : FsaFirmwareStatus) : Z :=
  match s with
  | kFsaFirmwareStatusReset => 0
  | kFsaFirmwareStatusBooting => 1
  | kFsaFirmwareStatusReady => 2
  | kFsaFirmwareStatusFault => 3
  end.

(** What the device writes at a launch's kernel_status. *)
Record FsaKernelStatus := mkKernelStatus {
  mcause : Z;
  mepc : Z;
  mtval : Z;
}.

#[global] Instance FsaKernelStatus_eq_dec : EqDecision FsaKernelStatus.
Proof. solve_decision. Defined.

Record FsaKernelDispatchPrintfMeta := mkPrintfMeta {
  pm_printf_buffer : Z;
  pm_printf_buffer_position : Z;
  pm_printf_buffer_capacity : Z;
  pm_reserved : Z;
}.

(** sizeof(FsaKernelDispatchPrintfMeta), as the ABI asserts it. *)
Definition sizeof_FsaKernelDispatchPrintfMeta : Z := 24.

(** ** Command packets (command_packet.h) *)

Definition FSA_COMMAND_PACKET_BYTES : nat := 64.
Definition FSA_COMPLETION_TOKEN_BYTES : nat := 8.
Definition FSA_COMPLETION_TOKEN_OFFSET : nat :=
  FSA_COMMAND_PACKET_BYTES - FSA_COMPLETION_TOKEN_BYTES.

Definition kKernelDispatchPacketHeader : Z := 1.
Definition kCacheFlushPacketHeader : Z := 2.
Definition kCacheInvalidatePacketHeader : Z := 3.
Definition kBarrierPacketHeader : Z := 4.
Definition kMemoryCopyPacketHeader : Z := 6.

Definition FSA_KERNEL_DISPATCH_DIM_MASK : Z := 0x3.
Definition FSA_KERNEL_DISPATCH_HAS_PRINTF_META : Z := Z.shiftl 1 2.
Definition FSA_KERNEL_DISPATCH_STACK_REMAP : Z := Z.shiftl 1 3.

Record KernelDispatchPacket := mkKernelDispatchPacket {
  kd_header : Z;
  dim_reserved0 : Z;
  local_size_x : Z;
  local_size_y : Z;
  local_size_z : Z;
  local_mem_size : Z;
  num_groups_x : Z;
  num_groups_y : Z;
  num_groups_z : Z;
  global_offset_x : Z;
  global_offset_y : Z;
  global_offset_z : Z;
  kernel_object : Z;
  kernarg_address : Z;
  kernel_trampoline : Z;
  kernel_status : Z;
  kd_completion_token : Z;
}.

Record CacheOperationPacket := mkCacheOperationPacket {
  co_header : Z;
  co_addr : Z;
  co_size : Z;
  co_completion_token : Z;
}.

Record MemoryCopyPacket := mkMemoryCopyPacket {
  mc_header : Z;
  mc_src_domain : Z;
  mc_dst_domain : Z;
  mc_src_addr : Z;
  mc_dst_addr : Z;
  mc_size : Z;
  mc_completion_token : Z;
}.

Record HeaderOnlyPacket := mkHeaderOnlyPacket {
  ho_header : Z;
  ho_completion_token : Z;
}.

(** Struct layouts: the field widths in bytes, reserved fields included. *)
Definition kd_layout : list nat :=
  [2; 2; 2; 2; 2; 2; 2; 2; 2; 2; 2; 2; 8; 8; 8; 8; 8]%nat.
Definition co_layout : list nat := [2; 6; 8; 8; 32; 8]%nat.
Definition mc_layout : list nat := [2; 1; 1; 4; 8; 8; 8; 24; 8]%nat.
Definition ho_layout : list nat := [2; 54; 8]%nat.

(** Writing a packet the HAL has zeroed first: reserved bytes are 0. *)
Definition kd_fields (p : KernelDispatchPacket) : list Z :=
  [kd_header p; dim_reserved0 p; local_size_x p; local_size_y p; local_size_z p;
   local_mem_size p; num_groups_x p; num_groups_y p; num_groups_z p;
   global_offset_x p; global_offset_y p; global_offset_z p;
   kernel_object p; kernarg_address p; kernel_trampoline p; kernel_status p;
   kd_completion_token p].
Definition co_fields (p : CacheOperationPacket) : list Z :=
  [co_header p; 0; co_addr p; co_size p; 0; co_completion_token p].
Definition mc_fields (p : MemoryCopyPacket) : list Z :=
  [mc_header p; mc_src_domain p; mc_dst_domain p; 0; mc_src_addr p;
   mc_dst_addr p; mc_size p; 0; mc_completion_token p].
Definition ho_fields (p : HeaderOnlyPacket) : list Z :=
  [ho_header p; 0; ho_completion_token p].

Definition kd_encode (p : KernelDispatchPacket) : list Z :=
  encode_fields (zip kd_layout (kd_fields p)).
Definition co_encode (p : CacheOperationPacket) : list Z :=
  encode_fields (zip co_layout (co_fields p)).
Definition mc_encode (p : MemoryCopyPacket) : list Z :=
  encode_fields (zip mc_layout (mc_fields p)).
Definition ho_encode (p : HeaderOnlyPacket) : list Z :=
  encode_fields (zip ho_layout (ho_fields p)).

(** Reading a field of the union through each of its members. *)
Definition kd_decode (raw : list Z) : KernelDispatchPacket :=
  let f := decode_fields kd_layout raw in
  mkKernelDispatchPacket
    (nth 0 f 0) (nth 1 f 0) (nth 2 f 0) (nth 3 f 0) (nth 4 f 0) (nth 5 f 0)
    (nth 6 f 0) (nth 7 f 0) (nth 8 f 0) (nth 9 f 0) (nth 10 f 0) (nth 11 f 0)
    (nth 12 f 0) (nth 13 f 0) (nth 14 f 0) (nth 15 f 0) (nth 16 f 0).
Definition co_decode (raw : list Z) : CacheOperationPacket :=
  let f := decode_fields co_layout raw in
  mkCacheOperationPacket (nth 0 f 0) (nth 2 f 0) (nth 3 f 0) (nth 5 f 0).
Definition mc_decode (raw : list Z) : MemoryCopyPacket :=
  let f := decode_fields mc_layout raw in
  mkMemoryCopyPacket (nth 0 f 0) (nth 1 f 0) (nth 2 f 0) (nth 4 f 0) (nth 5 f 0)
    (nth 6 f 0) (nth 8 f 0).
Definition ho_decode (raw : list Z) : HeaderOnlyPacket :=
  let f := decode_fields ho_layout raw in
  mkHeaderOnlyPacket (nth 0 f 0) (nth 2 f 0).

(** The header every dispatch switch reads, and the token in the last eight
    bytes of every packet (host_token_from_packet in cp_dispatch.c). *)
Definition packet_header (raw : list Z) : Z := le_val (take 2 raw).
Definition host_token_from_packet (raw : list Z) : Z :=
  le_val (take FSA_COMPLETION_TOKEN_BYTES (drop FSA_COMPLETION_TOKEN_OFFSET raw)).

(** ** Token and slot arithmetic *)

Section token_arith.
Context (t : Z) (Ht : fits 64 t).

Lemma token_boot_generation_div :
  fsa_completion_token_boot_generation t = t / 2 ^ 48.
Proof using Ht.
  unfold fsa_completion_token_boot_generation, FSA_COMPLETION_BOOT_GENERATION_SHIFT.
  change FSA_COMPLETION_TOKEN_BOOT_GENERATION_MASK with (Z.shiftl (Z.ones 16) 48).
  rewrite land_field by lia. unfold fits in Ht.
  assert (0 <= t / 2 ^ 48 < 2 ^ 16).
  { split; [apply Z.div_pos; lia|apply Z.div_lt_upper_bound; lia]. }
  rewrite Z.mod_small by lia. by apply wrap_small.
Qed.

Lemma token_alloc_generation_div :
  fsa_completion_token_alloc_generation t = (t / 2 ^ 16) mod 2 ^ 32.
Proof using Type.
  unfold fsa_completion_token_alloc_generation, FSA_COMPLETION_ALLOC_GENERATION_SHIFT.
  change FSA_COMPLETION_TOKEN_ALLOC_GENERATION_MASK with (Z.shiftl (Z.ones 32) 16).
  rewrite land_field by lia. apply wrap_idemp.
Qed.

Lemma token_slot_index_mod :
  fsa_completion_token_slot_index t = t mod 2 ^ 16.
Proof using Type.
  unfold fsa_completion_token_slot_index, FSA_COMPLETION_SLOT_INDEX_SHIFT.
  change FSA_COMPLETION_TOKEN_SLOT_INDEX_MASK with (Z.ones 16).
  rewrite Z.shiftr_0_r, Z.land_ones by lia. apply wrap_idemp.
Qed.

Lemma token_alloc_tag_div :
  fsa_completion_token_alloc_tag t = t / 2 ^ 16.
Proof using Ht.
  unfold fsa_completion_token_alloc_tag, FSA_COMPLETION_ALLOC_GENERATION_SHIFT.
  change FSA_COMPLETION_TOKEN_ALLOC_TAG_MASK with (Z.shiftl (Z.ones 48) 16).
  rewrite land_field by lia. unfold fits in Ht. apply Z.mod_small.
  split; [apply Z.div_pos; lia|apply Z.div_lt_upper_bound; lia].
Qed.

Lemma slot_alloc_tag_div :
  fsa_completion_slot_alloc_tag t = t / 2 ^ 16.
Proof using Ht. exact token_alloc_tag_div. Qed.

Lemma slot_result_mod :
  fsa_completion_slot_result t = t mod 2 ^ 16.
Proof using Type.
  unfold fsa_completion_slot_result.
  change FSA_COMPLETION_RESULT_MASK with (Z.ones 16).
  rewrite Z.land_ones by lia. apply wrap_idemp.
Qed.
End token_arith.

(** The generation a token carries for a requested one: 0 stands for 1. *)
Definition norm_gen (a : Z) : Z := if a =? 0 then 1 else a.

Lemma token_make_sum b a i :
  fits 64 b -> fits 32 a -> fits 16 i ->
  fsa_completion_token_make b a i
  = ((b mod 2 ^ 16) * 2 ^ 32 + norm_gen a) * 2 ^ 16 + i.
Proof.
  intros Hb Ha Hi. unfold fsa_completion_token_make, norm_gen.
  set (a' := if a =? 0 then _ else a).
  assert (Ha' : 0 <= a' < 2 ^ 32).
  { subst a'. unfold fits, FSA_COMPLETION_ALLOC_GENERATION_INITIAL in *. bcase; lia. }
  change FSA_COMPLETION_BOOT_GENERATION_MASK with (Z.ones 16).
  change FSA_COMPLETION_ALLOC_GENERATION_MASK with (Z.ones 32).
  change FSA_COMPLETION_SLOT_INDEX_MASK with (Z.ones 16).
  unfold FSA_COMPLETION_BOOT_GENERATION_SHIFT, FSA_COMPLETION_ALLOC_GENERATION_SHIFT,
    FSA_COMPLETION_SLOT_INDEX_SHIFT.
  rewrite !Z.land_ones, !Z.shiftl_mul_pow2 by lia.
  rewrite (Z.mod_small a'), (Z.mod_small i) by (unfold fits in *; lia).
  pose proof (Z.mod_pos_bound b (2 ^ 16)). unfold fits in *.
  rewrite !wrap_small by lia.
  replace ((b mod 2 ^ 16) * 2 ^ 48) with ((b mod 2 ^ 16) * 2 ^ 32 * 2 ^ 16) by lia.
  replace (i * 2 ^ 0) with i by lia.
  rewrite <- !Z.shiftl_mul_pow2 with (n := 16) by lia.
  rewrite <- Z.shiftl_lor, !Z.shiftl_mul_pow2 by lia.
  rewrite (lor_disjoint (b mod 2 ^ 16) a' 32) by lia.
  rewrite lor_disjoint by lia. done.
Qed.

Lemma norm_gen_range a : fits 32 a -> 0 < norm_gen a < 2 ^ 32.
Proof. unfold fits, norm_gen. intros. bcase; lia. Qed.

Lemma token_make_fits b a i :
  fits 64 b -> fits 32 a -> fits 16 i -> fits 64 (fsa_completion_token_make b a i).
Proof.
  intros Hb Ha Hi. rewrite token_make_sum by done.
  pose proof (Z.mod_pos_bound b (2 ^ 16)). pose proof (norm_gen_range a Ha).
  unfold fits in *. lia.
Qed.

Section token_make.
Context (b a i : Z) (Hb : fits 64 b) (Ha : fits 32 a) (Hi : fits 16 i).
Let tok := fsa_completion_token_make b a i.

Lemma token_make_slot_index : fsa_completion_token_slot_index tok = i.
Proof using Hb Ha Hi.
  rewrite token_slot_index_mod. unfold tok. rewrite token_make_sum by done.
  rewrite Z.add_comm, Z.mod_add by lia. apply Z.mod_small. exact Hi.
Qed.

Lemma token_make_alloc_tag :
  fsa_completion_token_alloc_tag tok = (b mod 2 ^ 16) * 2 ^ 32 + norm_gen a.
Proof using Hb Ha Hi.
  rewrite token_alloc_tag_div by (apply token_make_fits; done).
  unfold tok. rewrite token_make_sum by done.
  rewrite Z.div_add_l, (Z.div_small i) by (unfold fits in *; lia). lia.
Qed.

Lemma token_make_alloc_generation :
  fsa_completion_token_alloc_generation tok = norm_gen a.
Proof using Hb Ha Hi.
  rewrite token_alloc_generation_div, <- token_alloc_tag_div, token_make_alloc_tag
    by (apply token_make_fits; done).
  rewrite Z.add_comm, Z.mod_add by lia. apply Z.mod_small.
  pose proof (norm_gen_range a Ha). lia.
Qed.

Lemma token_make_boot_generation :
  fsa_completion_token_boot_generation tok = b mod 2 ^ 16.
Proof using Hb Ha Hi.
  rewrite token_boot_generation_div by (apply token_make_fits; done).
  change (2 ^ 48) with (2 ^ 16 * 2 ^ 32). rewrite <- Z.div_div by lia.
  rewrite <- token_alloc_tag_div by (apply token_make_fits; done).
  rewrite token_make_alloc_tag, Z.div_add_l by lia.
  pose proof (norm_gen_range a Ha). rewrite Z.div_small by lia. lia.
Qed.
End token_make.

Lemma slot_encode_sum tag r :
  fits 48 tag -> fits 16 r ->
  fsa_completion_slot_encode tag r = tag * 2 ^ 16 + r.
Proof.
  intros Htag Hr. unfold fsa_completion_slot_encode, FSA_COMPLETION_ALLOC_GENERATION_SHIFT.
  change FSA_COMPLETION_ALLOC_TAG_MASK with (Z.ones 48). unfold fits in *.
  rewrite Z.land_ones, Z.mod_small, Z.shiftl_mul_pow2, wrap_small by lia.
  by apply lor_disjoint.
Qed.

Lemma slot_encode_fits tag r :
  fits 48 tag -> fits 16 r -> fits 64 (fsa_completion_slot_encode tag r).
Proof. intros. rewrite slot_encode_sum by done. unfold fits in *. lia. Qed.

Lemma slot_encode_tag tag r :
  fits 48 tag -> fits 16 r ->
  fsa_completion_slot_alloc_tag (fsa_completion_slot_encode tag r) = tag.
Proof.
  intros. rewrite slot_alloc_tag_div by (apply slot_encode_fits; done).
  rewrite slot_encode_sum by done. unfold fits in *.
  rewrite Z.div_add_l, Z.div_small by lia. lia.
Qed.

Lemma slot_encode_result tag r :
  fits 48 tag -> fits 16 r ->
  fsa_completion_slot_result (fsa_completion_slot_encode tag r) = r.
Proof.
  intros. rewrite slot_result_mod, slot_encode_sum by done.
  rewrite Z.add_comm, Z.mod_add by lia. by apply Z.mod_small.
Qed.

Lemma token_alloc_tag_fits t : fits 64 t -> fits 48 (fsa_completion_token_alloc_tag t).
Proof.
  intros Ht. rewrite token_alloc_tag_div by done. unfold fits in *.
  split; [apply Z.div_pos; lia|apply Z.div_lt_upper_bound; lia].
Qed.

Lemma token_slot_index_fits t : fits 16 (fsa_completion_token_slot_index t).
Proof. unfold fsa_completion_token_slot_index. auto with cint. Qed.

(** A token is its tag and its index. *)
Lemma token_tag_index t :
  fits 64 t ->
  t = fsa_completion_token_alloc_tag t * 2 ^ 16 + fsa_completion_token_slot_index t.
Proof.
  intros. rewrite token_alloc_tag_div, token_slot_index_mod by done.
  pose proof (Z.div_mod t (2 ^ 16)). lia.
Qed.

Lemma has_valid_slot_index t :
  fsa_completion_token_has_valid_slot t = true ->
  0 <= fsa_completion_token_slot_index t < 64.
Proof.
  unfold fsa_completion_token_has_valid_slot, FSA_COMPLETION_SLOT_COUNT.
  intros. bprop. pose proof (token_slot_index_fits t). unfold fits in *. lia.
Qed.

#[export] Hint Resolve token_make_fits slot_encode_fits token_alloc_tag_fits
  token_slot_index_fits : cint.

(** ** Properties *)

(** Packing a completion token and reading its fields back returns the boot
    generation (its low 16 bits), the allocation generation (0 counts as 1) and
    the slot index, so distinct (generation, slot) pairs get distinct tokens; the
    token is valid exactly when its index is inside the 64-slot pool. *)
Theorem token_make_roundtrip b a i :
  fits 64 b -> fits 32 a -> fits 16 i ->
  let t := fsa_completion_token_make b a i in
  fits 64 t /\
  fsa_completion_token_boot_generation t = u16 b /\
  fsa_completion_token_alloc_generation t = (if a =? 0 then 1 else a) /\
  fsa_completion_token_slot_index t = i /\
  fsa_completion_token_has_valid_slot t = (i <? FSA_COMPLETION_SLOT_COUNT).
Proof.
  intros Hb Ha Hi t. pose proof (norm_gen_range a Ha).
  split_and!; [by apply token_make_fits|by apply token_make_boot_generation|
    by apply token_make_alloc_generation|by apply token_make_slot_index|].
  unfold fsa_completion_token_has_valid_slot, t.
  rewrite token_make_slot_index, token_make_alloc_generation by done.
  assert (fsa_completion_token_make b a i <> 0).
  { rewrite token_make_sum by done. pose proof (Z.mod_pos_bound b (2 ^ 16)).
    unfold fits in *. lia. }
  rewrite (proj2 (Z.eqb_neq _ _)) by done. rewrite (proj2 (Z.eqb_neq _ _)) by lia. done.
Qed.

Lemma token_make_roundtrip_witness :
  let t := fsa_completion_token_make 65539 0 63 in
  fits 64 t /\ fsa_completion_token_boot_generation t = u16 65539 /\
  fsa_completion_token_alloc_generation t = 1 /\
  fsa_completion_token_slot_index t = 63 /\
  fsa_completion_token_has_valid_slot t = true.
Proof.
  apply (token_make_roundtrip 65539 0 63); unfold fits; lia.
Defined.

(** Field ranges of the packets, by layout. *)
Definition in_layout (ws : list nat) (vs : list Z) : Prop :=
  Forall2 (fun w v => 0 <= v < 2 ^ (8 * Z.of_nat w)) ws vs.

Lemma packet_encode_facts ws vs h t :
  in_layout ws vs ->
  head ws = Some 2%nat -> head vs = Some h ->
  last ws = Some 8%nat -> last vs = Some t ->
  list_sum ws = 64%nat -> (1 < length ws)%nat ->
  length (encode_fields (zip ws vs)) = FSA_COMMAND_PACKET_BYTES /\
  packet_header (encode_fields (zip ws vs)) = h /\
  host_token_from_packet (encode_fields (zip ws vs)) = t.
Proof.
  intros Hl Hhw Hhv Hlw Hlv Hsum Hlen.
  assert (Hlen2 := Forall2_length _ _ _ Hl).
  split_and!.
  - rewrite length_encode_fields, fst_zip by lia. done.
  - destruct ws as [|w ws]; [done|]. destruct vs as [|v vs]; [done|].
    simpl in *. simplify_eq. unfold packet_header.
    rewrite take_app_le, take_ge by (rewrite ?length_le_bytes; lia).
    rewrite le_val_bytes. apply Forall2_cons in Hl as [Hv _]. by apply Z.mod_small.
  - apply last_Some in Hlw as [ws' ->]. apply last_Some in Hlv as [vs' ->].
    rewrite !length_app in Hlen2. simpl in Hlen2.
    apply Forall2_app_inv in Hl as [_ Ht]; [|lia]. apply Forall2_cons in Ht as [Ht _].
    rewrite zip_with_app by lia. rewrite encode_fields_app.
    rewrite list_sum_app in Hsum. simpl in Hsum.
    assert (length (encode_fields (zip ws' vs')) = 56%nat)
      by (rewrite length_encode_fields, fst_zip by lia; lia).
    unfold host_token_from_packet, FSA_COMPLETION_TOKEN_OFFSET.
    change (FSA_COMMAND_PACKET_BYTES - FSA_COMPLETION_TOKEN_BYTES)%nat with 56%nat.
    rewrite drop_app_ge by lia. replace (56 - _)%nat with 0%nat by lia.
    rewrite drop_0. cbn [zip zip_with encode_fields]. rewrite app_nil_r.
    rewrite take_ge by (rewrite length_le_bytes; unfold FSA_COMPLETION_TOKEN_BYTES; lia).
    rewrite le_val_bytes. by apply Z.mod_small.
Qed.

(** The four command packets are 64 bytes, decode to what was encoded, and
    whichever packet the HAL writes, the firmware's dispatch switch reads its
    header and finds its completion token in the last eight bytes. *)
Theorem packet_roundtrip kd co mc ho :
  in_layout kd_layout (kd_fields kd) -> in_layout co_layout (co_fields co) ->
  in_layout mc_layout (mc_fields mc) -> in_layout ho_layout (ho_fields ho) ->
  (length (kd_encode kd) = 64%nat /\ kd_decode (kd_encode kd) = kd /\
   packet_header (kd_encode kd) = kd_header kd /\
   host_token_from_packet (kd_encode kd) = kd_completion_token kd) /\
  (length (co_encode co) = 64%nat /\ co_decode (co_encode co) = co /\
   packet_header (co_encode co) = co_header co /\
   host_token_from_packet (co_encode co) = co_completion_token co) /\
  (length (mc_encode mc) = 64%nat /\ mc_decode (mc_encode mc) = mc /\
   packet_header (mc_encode mc) = mc_header mc /\
   host_token_from_packet (mc_encode mc) = mc_completion_token mc) /\
  (length (ho_encode ho) = 64%nat /\ ho_decode (ho_encode ho) = ho /\
   packet_header (ho_encode ho) = ho_header ho /\
   host_token_from_packet (ho_encode ho) = ho_completion_token ho).
Proof.
  intros Hkd Hco Hmc Hho.
  destruct (packet_encode_facts _ _ _ _ Hkd eq_refl eq_refl eq_refl eq_refl eq_refl
    ltac:(simpl; lia)) as (?&?&?).
  destruct (packet_encode_facts _ _ _ _ Hco eq_refl eq_refl eq_refl eq_refl eq_refl
    ltac:(simpl; lia)) as (?&?&?).
  destruct (packet_encode_facts _ _ _ _ Hmc eq_refl eq_refl eq_refl eq_refl eq_refl
    ltac:(simpl; lia)) as (?&?&?).
  destruct (packet_encode_facts _ _ _ _ Hho eq_refl eq_refl eq_refl eq_refl eq_refl
    ltac:(simpl; lia)) as (?&?&?).
  split_and!; try done.
  - unfold kd_decode, kd_encode. rewrite decode_encode_zip by done. by destruct kd.
  - unfold co_decode, co_encode. rewrite decode_encode_zip by done. by destruct co.
  - unfold mc_decode, mc_encode. rewrite decode_encode_zip by done. by destruct mc.
  - unfold ho_decode, ho_encode. rewrite decode_encode_zip by done. by destruct ho.
Qed.

Lemma packet_roundtrip_witness :
  host_token_from_packet
    (kd_encode (mkKernelDispatchPacket 1 3 8 4 2 1024 5 6 7 1 2 3 4096 8192 12288 16384 77))
  = 77.
Proof.
  refine (proj2 (proj2 (proj2 (proj1 (packet_roundtrip
    (mkKernelDispatchPacket 1 3 8 4 2 1024 5 6 7 1 2 3 4096 8192 12288 16384 77)
    (mkCacheOperationPacket 2 4096 64 5) (mkMemoryCopyPacket 6 1 2 4096 8192 16 9)
    (mkHeaderOnlyPacket 4 11) _ _ _ _)))));
    unfold in_layout; repeat constructor; simpl; lia.
Defined.
