(* ===== verification/Platform.v ===== *)
(** * The registers the firmware sees (fw/cp_defs.h, hal/src/hal/dma.h)

    The memory-mapped structs of the command processor, the SMs and the two DMA
    engines as records of register values, with one setter per register the
    firmware writes. The models address an SM's register bank by the SM's index;
    [sm_mmio_at] is the address of that bank. The reserved words of SystemInfo are
    left out. *)

From S2P Require Import Prelude AddrMap CommandAbi.

Definition CP_KERNEL_STATE_BUF_SIZE : nat := Z.to_nat FSA_CP_KERNEL_STATE_BUF_SIZE.
Definition CP_WGI_BUF_SIZE : Z := FSA_WGI_BUF_SIZE.
Definition STACK_BASE : Z := FSA_STACK_BASE.
Definition PER_THREAD_STACK_SIZE : Z := FSA_PER_THREAD_STACK_SIZE.
Definition SM_MMIO_BASE : Z := FSA_SM_MMIO_BASE.
Definition SM_MMIO_STRIDE : Z := FSA_SM_MMIO_STRIDE.

Inductive CacheOpMode := kCacheOpNop | kCacheOpFlush | kCacheOpInvalidate.
#[global] Instance CacheOpMode_eq_dec : EqDecision CacheOpMode.
Proof. solve_decision. Defined.
Definition CacheOpMode_code (m : CacheOpMode) : Z :=
  match m with kCacheOpNop => 0 | kCacheOpFlush => 1 | kCacheOpInvalidate => 2 end.

Record cp_mmio := mkCpMmio {
  CP_RESET : Z;
  CP_FW_HOST_ADDR : Z;
  CP_FW_SIZE : Z;
  CP_CMD_RING_BASE : Z;
  CP_CMD_SIZE : Z;
  CP_CMD_RING_SIZE : Z;
  CP_RD_PTR : Z;
  CP_WR_PTR : Z;
  FW_STATUS : Z;
  FW_ABI_VERSION : Z;
  FW_BOOT_GENERATION : Z;
  FW_FAULT_CODE : Z;
}.

Record system_info_mmio := mkSystemInfo {
  ABI_VERSION : Z;
  LENGTH_BYTES : Z;
  NUM_SM : Z;
  GLOBAL_ALLOC_BASE : Z;
}.

Record dma_mmio := mkDma {
  DMA_START : Z;
  DMA_ADDR0 : Z;
  DMA_ADDR1 : Z;
  DMA_SIZE : Z;
  DMA_STATUS : Z;
}.

(** One cache controller of an SM. *)
Record cache_control := mkCacheControl {
  CONTROL_START : Z;
  CONTROL_ADDR : Z;
  CONTROL_SIZE : Z;
  CONTROL_MODE : Z;
}.

Record sm_mmio := mkSmMmio {
  ENQ_VALID : Z;
  ENQ_KERNEL_PC : Z;
  ENQ_INFO_PTR : Z;
  ENQ_NUM_THREADS : Z;
  DEQ_VALID : Z;
  DEQ_STATUS : Z;
  DEQ_KERNEL_PC : Z;
  DEQ_INFO_PTR : Z;
  DEQ_MCAUSE : Z;
  DEQ_MEPC : Z;
  DEQ_MTVAL : Z;
  WG_RESIDENT_LIMIT : Z;
  ICACHE_CONTROL : cache_control;
  DCACHE_CONTROL : cache_control;
  THREADS_PER_CORE : Z;
  STACK_REMAP_ENTRY_COUNT : Z;
  STACK_REMAP_GROUP_SIZE : Z;
  STACK_REMAP_TABLE : list Z;
}.

(** DMA status codes, in the order lv/mmio/dma/dma.h numbers them. *)
Definition kDmaStatusIdle : Z := 0.
Definition kDmaStatusBusy : Z := 1.
Definition kDmaStatusDone : Z := 2.
Definition kDmaStatusBusError : Z := 3.
Definition kDmaStatusInvalidDescriptor : Z := 4.

Definition zero_cache_control : cache_control := mkCacheControl 0 0 0 0.
Definition zero_sm : sm_mmio :=
  mkSmMmio 0 0 0 0 0 0 0 0 0 0 0 0 zero_cache_control zero_cache_control 0 0 0 [].

Definition set_STACK_REMAP_TABLE (t : list Z) (s : sm_mmio) : sm_mmio :=
  mkSmMmio (ENQ_VALID s) (ENQ_KERNEL_PC s) (ENQ_INFO_PTR s) (ENQ_NUM_THREADS s)
    (DEQ_VALID s) (DEQ_STATUS s) (DEQ_KERNEL_PC s) (DEQ_INFO_PTR s) (DEQ_MCAUSE s)
    (DEQ_MEPC s) (DEQ_MTVAL s) (WG_RESIDENT_LIMIT s) (ICACHE_CONTROL s)
    (DCACHE_CONTROL s) (THREADS_PER_CORE s) (STACK_REMAP_ENTRY_COUNT s)
    (STACK_REMAP_GROUP_SIZE s) t.
Definition set_DEQ_VALID (v : Z) (s : sm_mmio) : sm_mmio :=
  mkSmMmio (ENQ_VALID s) (ENQ_KERNEL_PC s) (ENQ_INFO_PTR s) (ENQ_NUM_THREADS s)
    v (DEQ_STATUS s) (DEQ_KERNEL_PC s) (DEQ_INFO_PTR s) (DEQ_MCAUSE s)
    (DEQ_MEPC s) (DEQ_MTVAL s) (WG_RESIDENT_LIMIT s) (ICACHE_CONTROL s)
    (DCACHE_CONTROL s) (THREADS_PER_CORE s) (STACK_REMAP_ENTRY_COUNT s)
    (STACK_REMAP_GROUP_SIZE s) (STACK_REMAP_TABLE s).
(** The four enqueue stores of a launch, ENQ_VALID last. *)
Definition set_ENQ (pc info nthreads : Z) (s : sm_mmio) : sm_mmio :=
  mkSmMmio 1 pc info nthreads
    (DEQ_VALID s) (DEQ_STATUS s) (DEQ_KERNEL_PC s) (DEQ_INFO_PTR s) (DEQ_MCAUSE s)
    (DEQ_MEPC s) (DEQ_MTVAL s) (WG_RESIDENT_LIMIT s) (ICACHE_CONTROL s)
    (DCACHE_CONTROL s) (THREADS_PER_CORE s) (STACK_REMAP_ENTRY_COUNT s)
    (STACK_REMAP_GROUP_SIZE s) (STACK_REMAP_TABLE s).

Definition sm_mmio_at (sm_id : nat) : Z := SM_MMIO_BASE + Z.of_nat sm_id * SM_MMIO_STRIDE.

(** Register banks of distinct SMs do not overlap: 31 eight-byte registers fit
    in the stride. *)
Lemma sm_mmio_at_disjoint i j :
  (i < j)%nat -> sm_mmio_at i + 31 * 8 <= sm_mmio_at j.
Proof. unfold sm_mmio_at, SM_MMIO_STRIDE, FSA_SM_MMIO_STRIDE. lia. Qed.
