(* ===== verification/Completion.v ===== *)
(** * Firmware status and completion publication
      (fw/cp_status.c, fw/cp_status.h, fw/cp_completion.h)

    [cp_status.c] keeps the boot generation and the firmware status, mirrored in
    the CP registers. [cp_completion.h] decides whether a token names a slot that
    is still pending in this boot and publishes a result there. The completion
    pool is the array of 64 slot words at FSA_COMPLETION_POOL_BASE, a list here. *)

From S2P Require Import Prelude AddrMap CommandAbi Platform.

(** ** cp_status.c *)

Record fw_status_t := mkFwStatus {
  boot_generation : Z;
  status : FsaFirmwareStatus;
}.

Definition set_fw_regs (st abi gen fault : Z) (cp : cp_mmio) : cp_mmio :=
  mkCpMmio (CP_RESET cp) (CP_FW_HOST_ADDR cp) (CP_FW_SIZE cp) (CP_CMD_RING_BASE cp)
    (CP_CMD_SIZE cp) (CP_CMD_RING_SIZE cp) (CP_RD_PTR cp) (CP_WR_PTR cp) st abi gen fault.

Definition cp_firmware_status_booting (s : fw_status_t) (cp : cp_mmio) : fw_status_t * cp_mmio :=
  let previous_generation := FW_BOOT_GENERATION cp in
  let g := if previous_generation =? UINT64_MAX then 1 else previous_generation +% 1 in
  let g := if g =? 0 then 1 else g in
  (mkFwStatus g kFsaFirmwareStatusBooting,
   set_fw_regs (FsaFirmwareStatus_code kFsaFirmwareStatusBooting)
     FSA_COMMAND_ABI_VERSION_V3 g kFsaFirmwareFaultNone cp).

Definition cp_firmware_status_ready (s : fw_status_t) (cp : cp_mmio) : fw_status_t * cp_mmio :=
  (mkFwStatus (boot_generation s) kFsaFirmwareStatusReady,
   set_fw_regs (FsaFirmwareStatus_code kFsaFirmwareStatusReady)
     FSA_COMMAND_ABI_VERSION_V3 (boot_generation s) kFsaFirmwareFaultNone cp).

Definition cp_firmware_status_fault (code : Z) (s : fw_status_t) (cp : cp_mmio)
    : fw_status_t * cp_mmio :=
  (mkFwStatus (boot_generation s) kFsaFirmwareStatusFault,
   set_fw_regs (FsaFirmwareStatus_code kFsaFirmwareStatusFault) (FW_ABI_VERSION cp)
     (FW_BOOT_GENERATION cp) code cp).

Definition cp_firmware_status_reset (s : fw_status_t) (cp : cp_mmio) : fw_status_t * cp_mmio :=
  (mkFwStatus (boot_generation s) kFsaFirmwareStatusReset,
   set_fw_regs (FsaFirmwareStatus_code kFsaFirmwareStatusReset) (FW_ABI_VERSION cp)
     (FW_BOOT_GENERATION cp) (FW_FAULT_CODE cp) cp).

Definition cp_firmware_is_ready (s : fw_status_t) : bool :=
  bool_decide (status s = kFsaFirmwareStatusReady).
Definition cp_firmware_is_faulted (s : fw_status_t) : bool :=
  bool_decide (status s = kFsaFirmwareStatusFault).
Definition cp_firmware_boot_generation (s : fw_status_t) : Z := boot_generation s.

(** ** cp_completion.h *)

(** The slot word a token's index addresses. *)
Definition slot_of (pool : list Z) (token : Z) : Z :=
  nth (Z.to_nat (fsa_completion_token_slot_index token)) pool 0.

Definition cp_completion_is_pending (gen : Z) (pool : list Z) (token : Z) : bool :=
  if negb (fsa_completion_token_has_valid_slot token) then false else
  let slot := slot_of pool token in
  (fsa_completion_token_boot_generation token =? u16 gen) &&
  (fsa_completion_slot_alloc_tag slot =? fsa_completion_token_alloc_tag token) &&
  (fsa_completion_slot_result slot =? FSA_COMPLETION_RESULT_PENDING).

Definition cp_publish_completion (gen : Z) (pool : list Z) (token result : Z) : list Z :=
  if negb (cp_completion_is_pending gen pool token) then pool else
  <[Z.to_nat (fsa_completion_token_slot_index token) :=
      fsa_completion_slot_encode (fsa_completion_token_alloc_tag token) result]> pool.

(** A sequence of publications. *)
Definition publish_all (gen : Z) (pool : list Z) (reqs : list (Z * Z)) : list Z :=
  foldl (fun p r => cp_publish_completion gen p (fst r) (snd r)) pool reqs.

(** ** Lemmas *)

Lemma publish_all_cons gen pool t r reqs :
  publish_all gen pool ((t, r) :: reqs)
  = publish_all gen (cp_publish_completion gen pool t r) reqs.
Proof. done. Qed.

(** The pool holds 64 slot words. *)
Definition pool_ok (pool : list Z) : Prop :=
  length pool = Z.to_nat FSA_COMPLETION_SLOT_COUNT /\ Forall (fits 64) pool.

Lemma slot_word_split w :
  fits 64 w ->
  w = fsa_completion_slot_alloc_tag w * 2 ^ 16 + fsa_completion_slot_result w.
Proof.
  intros Hw. rewrite slot_alloc_tag_div, slot_result_mod by done.
  pose proof (Z.div_mod w (2 ^ 16)). lia.
Qed.

(** A pending slot whose tag is the token's tag is the token's initial word. *)
Lemma pending_slot_word gen pool t :
  pool_ok pool -> fits 64 t ->
  cp_completion_is_pending gen pool t = true ->
  slot_of pool t = fsa_completion_token_alloc_tag t * 2 ^ 16 /\
  (Z.to_nat (fsa_completion_token_slot_index t) < length pool)%nat /\
  fsa_completion_token_boot_generation t = u16 gen.
Proof.
  intros [Hlen Hall] Ht. unfold cp_completion_is_pending. bcase; [done|]. intros H. bprop.
  assert (Hi := has_valid_slot_index t ltac:(done)).
  assert (Hlt : (Z.to_nat (fsa_completion_token_slot_index t) < length pool)%nat).
  { rewrite Hlen. unfold FSA_COMPLETION_SLOT_COUNT. lia. }
  split_and!; auto. destruct (list_lookup_total_lt _ _ Hlt) as [w Hw].
  unfold slot_of in *. rewrite (nth_lookup_Some _ _ _ _ Hw) in *.
  rewrite Forall_lookup in Hall. specialize (Hall _ _ Hw).
  rewrite (slot_word_split w Hall) at 1. unfold FSA_COMPLETION_RESULT_PENDING in *. lia.
Qed.

Lemma publish_length gen pool t r :
  length (cp_publish_completion gen pool t r) = length pool.
Proof. unfold cp_publish_completion. bcase; [done|]. by rewrite length_insert. Qed.

Lemma publish_ok gen pool t r :
  pool_ok pool -> fits 64 t -> fits 16 r -> pool_ok (cp_publish_completion gen pool t r).
Proof.
  intros [Hlen Hall] Ht Hr. split; [by rewrite publish_length|].
  unfold cp_publish_completion. bcase; [done|]. apply Forall_insert; [done|].
  apply slot_encode_fits; [by apply token_alloc_tag_fits|done].
Qed.

(** Slots other than the token's keep their value. *)
Lemma publish_other gen pool t r k :
  k <> Z.to_nat (fsa_completion_token_slot_index t) ->
  cp_publish_completion gen pool t r !! k = pool !! k.
Proof.
  intros Hk. unfold cp_publish_completion. bcase; [done|]. by rewrite list_lookup_insert_ne.
Qed.

(** What a publication does to the slot of another token. *)
Lemma publish_pending_other gen pool t u r :
  pool_ok pool -> fits 64 t -> fits 64 u -> fits 16 r ->
  cp_completion_is_pending gen pool u = true -> t <> u ->
  cp_completion_is_pending gen (cp_publish_completion gen pool t r) u = true /\
  slot_of (cp_publish_completion gen pool t r) u = slot_of pool u.
Proof.
  intros Hp Ht Hu Hr Hpu Hne.
  assert (Hs : slot_of (cp_publish_completion gen pool t r) u = slot_of pool u).
  { destruct (cp_completion_is_pending gen pool t) eqn:Hpt;
      [|unfold cp_publish_completion; by rewrite Hpt].
    destruct (pending_slot_word _ _ _ Hp Ht Hpt) as (Hwt & _ & _).
    destruct (pending_slot_word _ _ _ Hp Hu Hpu) as (Hwu & Hlt & _).
    assert (Hidx : Z.to_nat (fsa_completion_token_slot_index u) <>
                   Z.to_nat (fsa_completion_token_slot_index t)).
    { intros E. apply Hne. pose proof (token_slot_index_fits t).
      pose proof (token_slot_index_fits u). unfold fits in *.
      unfold slot_of in Hwt, Hwu. rewrite E in Hwu. rewrite Hwu in Hwt.
      rewrite (token_tag_index t), (token_tag_index u) by done. lia. }
    unfold slot_of. destruct (list_lookup_total_lt _ _ Hlt) as [w Hw].
    rewrite (nth_lookup_Some _ _ 0 _ Hw). apply nth_lookup_Some. by rewrite publish_other. }
  split; [|done]. unfold cp_completion_is_pending in *. by rewrite Hs.
Qed.

(** A published token is no longer pending. *)
Lemma publish_not_pending gen pool t r :
  pool_ok pool -> fits 64 t -> fits 16 r -> r <> FSA_COMPLETION_RESULT_PENDING ->
  cp_completion_is_pending gen pool t = true ->
  slot_of (cp_publish_completion gen pool t r) t
  = fsa_completion_slot_encode (fsa_completion_token_alloc_tag t) r /\
  cp_completion_is_pending gen (cp_publish_completion gen pool t r) t = false.
Proof.
  intros Hp Ht Hr Hne Hpend.
  destruct (pending_slot_word _ _ _ Hp Ht Hpend) as (_ & Hlt & _).
  assert (Hs : slot_of (cp_publish_completion gen pool t r) t
    = fsa_completion_slot_encode (fsa_completion_token_alloc_tag t) r).
  { unfold slot_of, cp_publish_completion. rewrite Hpend. simpl.
    apply nth_lookup_Some. by apply list_lookup_insert_eq. }
  split; [done|]. unfold cp_completion_is_pending. bcase; [done|]. rewrite Hs.
  rewrite (slot_encode_result _ r) by auto with cint.
  rewrite (proj2 (Z.eqb_neq r _)) by done. apply andb_false_r.
Qed.

Lemma publish_stale gen pool t r :
  cp_completion_is_pending gen pool t = false -> cp_publish_completion gen pool t r = pool.
Proof. intros H. unfold cp_publish_completion. by rewrite H. Qed.

(** First request for a token in a list of publications. *)
Definition first_result (t : Z) (reqs : list (Z * Z)) : option Z :=
  snd <$> List.find (fun r => fst r =? t) reqs.

Definition req_ok (r : Z * Z) : Prop :=
  fits 64 (fst r) /\ fits 16 (snd r) /\ snd r <> FSA_COMPLETION_RESULT_PENDING.

Lemma publish_all_ok gen reqs pool :
  Forall req_ok reqs -> pool_ok pool -> pool_ok (publish_all gen pool reqs).
Proof.
  revert pool. induction reqs as [|[t r] reqs IH]; intros pool Hr Hp; [done|].
  apply Forall_cons in Hr as [(? & ? & ?) Hr]. rewrite publish_all_cons.
  apply IH; [done|]. by apply publish_ok.
Qed.

(** Once a slot is terminal (or its tag differs) nothing changes it. *)
Lemma publish_all_terminal gen reqs pool k w :
  Forall req_ok reqs -> pool_ok pool -> pool !! k = Some w ->
  fsa_completion_slot_result w <> FSA_COMPLETION_RESULT_PENDING ->
  publish_all gen pool reqs !! k = Some w.
Proof.
  revert pool. induction reqs as [|[t r] reqs IH]; intros pool Hr Hp Hk Hw; [done|].
  apply Forall_cons in Hr as [(? & ? & ?) Hr]. rewrite publish_all_cons.
  apply IH; auto; [by apply publish_ok|].
  destruct (decide (k = Z.to_nat (fsa_completion_token_slot_index t))) as [E|Hne];
    [|by rewrite publish_other].
  rewrite publish_stale; [done|]. unfold cp_completion_is_pending, slot_of.
  bcase; [done|]. rewrite <- E, (nth_lookup_Some _ _ 0 _ Hk).
  rewrite (proj2 (Z.eqb_neq (fsa_completion_slot_result w) _)) by done. apply andb_false_r.
Qed.

Lemma publish_all_pending gen reqs pool t :
  Forall req_ok reqs -> pool_ok pool -> fits 64 t ->
  cp_completion_is_pending gen pool t = true ->
  slot_of (publish_all gen pool reqs) t
  = fsa_completion_slot_encode (fsa_completion_token_alloc_tag t)
      (default FSA_COMPLETION_RESULT_PENDING (first_result t reqs)).
Proof.
  revert pool. induction reqs as [|[u r] reqs IH]; intros pool Hr Hp Ht Hpend.
  - unfold first_result. simpl. destruct (pending_slot_word _ _ _ Hp Ht Hpend) as (-> & _ & _).
    unfold FSA_COMPLETION_RESULT_PENDING. rewrite slot_encode_sum by auto with cint. lia.
  - apply Forall_cons in Hr as [(Hu & Hr16 & Hnp) Hr]. simpl in Hu, Hr16, Hnp.
    rewrite publish_all_cons. unfold first_result. simpl. bcase; simpl.
    + subst u. destruct (publish_not_pending _ _ _ _ Hp Ht Hr16 Hnp Hpend) as [Hs _].
      destruct (pending_slot_word _ _ _ Hp Ht Hpend) as (_ & Hlt & _).
      rewrite <- (publish_length gen pool t r) in Hlt.
      destruct (list_lookup_total_lt _ _ Hlt) as [w Hw].
      unfold slot_of in *. rewrite (nth_lookup_Some _ _ 0 _ Hw) in Hs. subst w.
      apply nth_lookup_Some. apply publish_all_terminal; auto; [by apply publish_ok|].
      rewrite slot_encode_result by auto with cint. done.
    + apply IH; auto; [by apply publish_ok|]. by apply publish_pending_other.
Qed.

(** ** Properties *)

(** C33. A completion is written once: over any sequence of terminal publications
    in one boot, the slot of a token that was pending at the start ends with the
    token's tag and the result of the first publication that named exactly that
    token, and stays pending when none did; a slot whose result is already
    terminal is not changed at all. Publications for other tokens, including
    stale tokens of the same slot from earlier allocations or boots, have no
    effect on it. *)
Theorem completion_first_result_wins gen pool reqs t :
  pool_ok pool -> Forall req_ok reqs -> fits 64 t ->
  (cp_completion_is_pending gen pool t = true ->
   slot_of (publish_all gen pool reqs) t
   = fsa_completion_slot_encode (fsa_completion_token_alloc_tag t)
       (default FSA_COMPLETION_RESULT_PENDING (first_result t reqs))) /\
  (forall k w, pool !! k = Some w ->
     fsa_completion_slot_result w <> FSA_COMPLETION_RESULT_PENDING ->
     publish_all gen pool reqs !! k = Some w).
Proof.
  intros Hp Hr Ht. split.
  - by apply publish_all_pending.
  - intros k w Hk Hw. by apply publish_all_terminal.
Qed.

Definition sample_pool : list Z :=
  fsa_completion_token_make 7 5 0 :: (2 ^ 16 + 1) :: replicate 62 0.
Lemma completion_first_result_wins_witness :
  let t := fsa_completion_token_make 7 5 0 in
  let stale := fsa_completion_token_make 7 4 0 in
  slot_of (publish_all 7 sample_pool [(stale, 9); (t, 3); (t, 1)]) t
  = fsa_completion_slot_encode (fsa_completion_token_alloc_tag t) 3.
Proof.
  intros t stale.
  refine (proj1 (completion_first_result_wins 7 sample_pool
    [(stale, 9); (t, 3); (t, 1)] t _ _ _) _).
  - split; [reflexivity|]. repeat constructor; vm_compute; congruence.
  - repeat constructor; vm_compute; congruence.
  - vm_compute. split; congruence.
  - vm_compute. reflexivity.
Defined.

(** *** Reboots *)

(** The generation published by the [k]-th boot after [cp]. *)
Fixpoint boots (k : nat) (s : fw_status_t) (cp : cp_mmio) : fw_status_t * cp_mmio :=
  match k with
  | O => (s, cp)
  | S k' => let '(s1, cp1) := boots k' s cp in cp_firmware_status_booting s1 cp1
  end.

(** The successor of a boot generation: 0 is skipped at the wrap-around. *)
Definition next_generation (g : Z) : Z := if g =? UINT64_MAX then 1 else g + 1.

Lemma booting_generation s cp :
  fits 64 (FW_BOOT_GENERATION cp) ->
  let '(s', cp') := cp_firmware_status_booting s cp in
  boot_generation s' = next_generation (FW_BOOT_GENERATION cp) /\
  FW_BOOT_GENERATION cp' = boot_generation s' /\ 1 <= boot_generation s' < 2 ^ 64.
Proof.
  intros Hg. unfold cp_firmware_status_booting, next_generation, UINT64_MAX, fits in *.
  cbn [boot_generation FW_BOOT_GENERATION set_fw_regs].
  destruct (Z.eqb_spec (FW_BOOT_GENERATION cp) (2 ^ 64 - 1)) as [Heq|Hne];
    [rewrite (proj2 (Z.eqb_neq 1 0)) by lia; lia|].
  rewrite wrap_small by lia. rewrite (proj2 (Z.eqb_neq (FW_BOOT_GENERATION cp + 1) 0)) by lia. lia.
Qed.

(** After [k] boots the generation is [g + k], or one more past the skipped 0. *)
Lemma boots_generation k s cp :
  fits 64 (FW_BOOT_GENERATION cp) -> Z.of_nat k < 2 ^ 63 ->
  let '(s', cp') := boots k s cp in
  fits 64 (FW_BOOT_GENERATION cp') /\ ((0 < k)%nat -> boot_generation s' = FW_BOOT_GENERATION cp') /\
  FW_BOOT_GENERATION cp'
  = (let g := FW_BOOT_GENERATION cp + Z.of_nat k in if g <? 2 ^ 64 then g else g - 2 ^ 64 + 1).
Proof.
  intros Hg. induction k as [|k IH]; intros Hk; cbn [boots].
  - split_and!; [done|lia|]. unfold fits in Hg. rewrite (proj2 (Z.ltb_lt _ _)) by lia. lia.
  - destruct (boots k s cp) as [s1 cp1]. destruct IH as (Hf & _ & Hgen); [lia|].
    pose proof (booting_generation s1 cp1 Hf) as Hb.
    destruct (cp_firmware_status_booting s1 cp1) as [s2 cp2]. destruct Hb as (Hb & Hb2 & Hr).
    split_and!; [unfold fits; lia|done|]. rewrite Hb2, Hb. clear Hb Hb2 Hr.
    unfold next_generation, UINT64_MAX, fits in *. cbv zeta in *.
    bcase_in Hgen; repeat bcase; lia.
Qed.

(** Tokens do not survive a reboot: a token of the current boot is not
    pending, so publishing it has no effect, in any of the next 65534 boots,
    whatever the completion pool holds then; every boot's generation is non-zero
    and mirrored in the register the next boot reads. *)
Theorem stale_token_after_reboot cp s k t pool :
  fits 64 (FW_BOOT_GENERATION cp) -> fits 64 t ->
  fsa_completion_token_boot_generation t = u16 (FW_BOOT_GENERATION cp) ->
  (0 < k)%nat -> Z.of_nat k < 65535 ->
  let '(s', cp') := boots k s cp in
  1 <= boot_generation s' < 2 ^ 64 /\ FW_BOOT_GENERATION cp' = boot_generation s' /\
  cp_completion_is_pending (cp_firmware_boot_generation s') pool t = false /\
  forall r, cp_publish_completion (cp_firmware_boot_generation s') pool t r = pool.
Proof.
  intros Hg Ht Htok Hk Hk2. pose proof (boots_generation k s cp Hg ltac:(lia)) as H.
  destruct (boots k s cp) as [s' cp']. destruct H as (Hf & Heq & Hgen). specialize (Heq Hk).
  assert (Hne : u16 (FW_BOOT_GENERATION cp) <> u16 (boot_generation s')).
  { rewrite Heq, Hgen. unfold wrap, fits in *. cbv zeta. bcase; intros Heq16.
    - pose proof (Z.div_mod (FW_BOOT_GENERATION cp) (2 ^ 16)).
      pose proof (Z.div_mod (FW_BOOT_GENERATION cp + Z.of_nat k) (2 ^ 16)). lia.
    - pose proof (Z.div_mod (FW_BOOT_GENERATION cp) (2 ^ 16)).
      pose proof (Z.div_mod (FW_BOOT_GENERATION cp + Z.of_nat k - 2 ^ 64 + 1) (2 ^ 16)). lia. }
  assert (Hp : cp_completion_is_pending (cp_firmware_boot_generation s') pool t = false).
  { unfold cp_completion_is_pending, cp_firmware_boot_generation. bcase; [done|].
    rewrite Htok, (proj2 (Z.eqb_neq _ _)) by done. done. }
  split_and!; auto; [|unfold fits in Hf; lia|intros r; by apply publish_stale].
  rewrite Heq, Hgen. unfold fits in Hg. cbv zeta. bcase; lia.
Qed.

Definition sample_cp (gen : Z) : cp_mmio := mkCpMmio 0 0 0 0 64 64 0 0 2 3 gen 0.
Lemma stale_token_after_reboot_witness :
  cp_completion_is_pending 1 [fsa_completion_token_make UINT64_MAX 1 0]
    (fsa_completion_token_make UINT64_MAX 1 0) = false.
Proof.
  pose proof (stale_token_after_reboot (sample_cp UINT64_MAX)
    (mkFwStatus UINT64_MAX kFsaFirmwareStatusReady) 1
    (fsa_completion_token_make UINT64_MAX 1 0)
    [fsa_completion_token_make UINT64_MAX 1 0]) as H.
  apply H; vm_compute; try split; congruence || lia || reflexivity.
Defined.
