(* ===== verification/SlotPool.v ===== *)
(** * Slot pools

    The firmware keeps several fixed arrays whose entries are handed out by a
    first-free scan and given back by index: the work-group buffers, the kernel
    states, the stack-remap table of an SM. [SlotPool] is what the dispatcher and
    the retire tasks rely on of such an array; the components give the instances,
    and what follows from the laws is proved here once, for all of them. *)

From S2P Require Import Prelude.

(** [S] is the state that holds the array, [A] what an allocation is given and
    [pool_arg] whether the state accepts it. *)
Class SlotPoolOps (S A : Type) := {
  pool_size : S -> nat;
  pool_used : S -> nat -> bool;
  pool_wf : S -> Prop;
  pool_arg : A -> S -> bool;
  pool_alloc : A -> S -> option (nat * S);
  pool_free : nat -> S -> S;
}.

Class SlotPool (S A : Type) `{SlotPoolOps S A} := {
  pool_alloc_law : forall a s, pool_wf s -> pool_arg a s = true ->
    match pool_alloc a s with
    | Some (i, s') =>
        (i < pool_size s)%nat /\ pool_used s i = false /\
        (forall j, (j < i)%nat -> pool_used s j = true) /\
        (forall j, pool_used s' j = if decide (j = i) then true else pool_used s j) /\
        pool_size s' = pool_size s /\ pool_wf s'
    | None => forall j, (j < pool_size s)%nat -> pool_used s j = true
    end;
  pool_free_law : forall i s, pool_wf s -> (i < pool_size s)%nat ->
    (forall j, pool_used (pool_free i s) j = if decide (j = i) then false else pool_used s j) /\
    pool_size (pool_free i s) = pool_size s /\ pool_wf (pool_free i s);
}.

(** Clients allocate and free slots they own. *)
Inductive pool_op (A : Type) := PAlloc (a : A) | PFree (i : nat).
Arguments PAlloc {A}.
Arguments PFree {A}.

Section pool.
Context {S A : Type} `{HP : SlotPool S A}.

Definition pool_step (op : pool_op A) (s : S) : S * option nat :=
  match op with
  | PAlloc a => match pool_alloc a s with Some (i, s') => (s', Some i) | None => (s, None) end
  | PFree i => (pool_free i s, None)
  end.

(** What the owners of the slots see: [own] lists the outstanding slots. *)
Inductive pool_spec (n : nat) : pool_op A -> option nat -> list nat -> list nat -> Prop :=
| pool_grant a i own :
    (i < n)%nat -> i ∉ own -> (forall j, (j < i)%nat -> j ∈ own) ->
    pool_spec n (PAlloc a) (Some i) own (i :: own)
| pool_full a own :
    length own = n -> pool_spec n (PAlloc a) None own own
| pool_give_back i own1 own2 :
    pool_spec n (PFree i) None (own1 ++ i :: own2) (own1 ++ own2).

Definition owns (s : S) (own : list nat) : Prop :=
  pool_wf s /\ NoDup own /\ Forall (fun i => (i < pool_size s)%nat) own /\
  forall j, (j < pool_size s)%nat -> (pool_used s j = true <-> j ∈ own).

Lemma owns_full s own :
  owns s own -> (forall j, (j < pool_size s)%nat -> pool_used s j = true) ->
  length own = pool_size s.
Proof using Type.
  intros (_ & Hnd & Hlt & Hown) Hall.
  assert (Hp : own ≡ₚ seq 0 (pool_size s)).
  { apply NoDup_Permutation; [done|apply NoDup_seq|]. intros j. rewrite elem_of_seq. split.
    - rewrite Forall_forall in Hlt. intros Hj. specialize (Hlt j Hj). lia.
    - intros Hj. apply Hown; [lia|]. apply Hall. lia. }
  by rewrite Hp, length_seq.
Qed.

Lemma pool_step_alloc s own a :
  owns s own -> pool_arg a s = true ->
  let '(s', r) := pool_step (PAlloc a) s in
  pool_size s' = pool_size s /\
  exists own', owns s' own' /\ pool_spec (pool_size s) (PAlloc a) r own own'.
Proof using HP.
  intros Ho Ha. assert (Hl := pool_alloc_law a s (proj1 Ho) Ha). simpl.
  destruct (pool_alloc a s) as [[i s']|].
  2: { split; [done|]. exists own. split; [done|]. apply pool_full. by apply owns_full. }
  destruct Ho as (Hwf & Hnd & Hlt & Hown).
  destruct Hl as (Hi & Hfree & Hbelow & Hused & Hsz & Hwf'). split; [done|].
  assert (Hni : i ∉ own) by (rewrite <- Hown by done; by rewrite Hfree).
  exists (i :: own). split.
  - split_and!; [done|by apply NoDup_cons|rewrite Hsz; by constructor|].
    intros j Hj. rewrite Hsz in Hj. rewrite Hused, elem_of_cons.
    case_decide; [naive_solver|]. rewrite Hown by done. naive_solver.
  - apply pool_grant; [done|done|]. intros j Hj. apply Hown; [lia|by apply Hbelow].
Qed.

Lemma pool_step_free s own1 i own2 :
  owns s (own1 ++ i :: own2) ->
  let '(s', r) := pool_step (PFree i) s in
  pool_size s' = pool_size s /\ owns s' (own1 ++ own2) /\
  pool_spec (pool_size s) (PFree i) r (own1 ++ i :: own2) (own1 ++ own2).
Proof using HP.
  intros (Hwf & Hnd & Hlt & Hown). simpl.
  assert (Hi : (i < pool_size s)%nat).
  { rewrite Forall_forall in Hlt. apply Hlt. apply elem_of_app. right. left. }
  destruct (pool_free_law i s Hwf Hi) as (Hused & Hsz & Hwf').
  assert (Hnd' := Hnd). rewrite <- Permutation_middle in Hnd'.
  apply NoDup_cons in Hnd' as [Hni Hnd'].
  split_and!; [done| |by constructor]. split_and!; [done|done| |].
  - rewrite Hsz. rewrite Forall_app, Forall_cons in *. tauto.
  - intros j Hj. rewrite Hsz in Hj. rewrite Hused. case_decide as E.
    + subst j. split; [done|]. intros Hin. by destruct Hni.
    + rewrite Hown by done. rewrite !elem_of_app, elem_of_cons. naive_solver.
Qed.
End pool.
