(* ===== verification/Tiling.v ===== *)
(** * Tilings of an address window

    The two allocators of the system, the per-SM local-memory allocator of the
    firmware and the host's device-memory allocator, keep the free and the
    allocated blocks of a window so that together they cover it without gaps, and
    merge free neighbours. [tiled] states this for blocks that are multiples of an
    alignment; allocation carves a free tile, release merges one with its free
    neighbours, and the free tiles are determined by the allocated ones. *)

From S2P Require Import Prelude.

(** A base and a size, as both allocators record a block. *)
Record region := mkRegion { rg_base : Z; rg_size : Z }.
#[global] Instance region_eq_dec : EqDecision region.
Proof. solve_decision. Defined.

Record tile := mkTile { t_free : bool; t_base : Z; t_size : Z }.

Section tiling.
Context {al : Z}.

(** [tiled lo hi pf ts]: [ts] covers [lo, hi) in order; [pf] says whether the
    tile before [lo] is free. *)
Fixpoint tiled (lo hi : Z) (pf : bool) (ts : list tile) : Prop :=
  match ts with
  | [] => lo = hi
  | t :: ts' =>
      t_base t = lo /\ 0 < t_size t /\ (al | t_size t) /\
      pf && t_free t = false /\ tiled (lo + t_size t) hi (t_free t) ts'
  end.

Fixpoint frees (ts : list tile) : list region :=
  match ts with
  | [] => []
  | t :: ts' => if t_free t then mkRegion (t_base t) (t_size t) :: frees ts' else frees ts'
  end.
Fixpoint acts (ts : list tile) : list (Z * Z) :=
  match ts with
  | [] => []
  | t :: ts' => if t_free t then acts ts' else (t_base t, t_size t) :: acts ts'
  end.
Fixpoint last_free (pf : bool) (ts : list tile) : bool :=
  match ts with
  | [] => pf
  | t :: ts' => last_free (t_free t) ts'
  end.

Lemma frees_app l k : frees (l ++ k) = frees l ++ frees k.
Proof. induction l as [|t l IH]; simpl; [done|]. destruct (t_free t); simpl; by rewrite IH. Qed.
Lemma acts_app l k : acts (l ++ k) = acts l ++ acts k.
Proof. induction l as [|t l IH]; simpl; [done|]. destruct (t_free t); simpl; by rewrite IH. Qed.
Lemma last_free_app pf l k : last_free pf (l ++ k) = last_free (last_free pf l) k.
Proof. revert pf. induction l as [|t l IH]; intros pf; simpl; [done|]. apply IH. Qed.

Lemma tiled_app lo hi pf l k :
  tiled lo hi pf (l ++ k) <->
  exists mid, tiled lo mid pf l /\ tiled mid hi (last_free pf l) k.
Proof.
  revert lo pf. induction l as [|t l IH]; intros lo pf; simpl.
  - split; [intros H; by exists lo|by intros (? & <- & ?)].
  - setoid_rewrite IH. split.
    + intros (? & ? & ? & ? & mid & ? & ?). exists mid. by split_and!.
    + intros (mid & (? & ? & ? & ? & ?) & ?). split_and!; try done. by exists mid.
Qed.

Lemma tiled_le lo hi pf ts : tiled lo hi pf ts -> lo <= hi.
Proof.
  revert lo pf. induction ts as [|t ts IH]; simpl; intros lo pf H; [lia|].
  destruct H as (? & ? & _ & _ & H). apply IH in H. lia.
Qed.

Lemma tiled_in lo hi pf ts t :
  tiled lo hi pf ts -> t ∈ ts ->
  lo <= t_base t /\ t_base t + t_size t <= hi /\ 0 < t_size t /\
  (al | t_size t) /\ (al | t_base t - lo).
Proof.
  revert lo pf. induction ts as [|u ts IH]; simpl; intros lo pf H Hin.
  - by apply not_elem_of_nil in Hin.
  - destruct H as (Hb & Hs & Hd & _ & H). pose proof (tiled_le _ _ _ _ H).
    apply elem_of_cons in Hin as [->|Hin].
    + split_and!; try lia; [done|]. rewrite Hb, Z.sub_diag. apply Z.divide_0_r.
    + destruct (IH _ _ H Hin) as (? & ? & ? & ? & Hd2). split_and!; try lia; [done|].
      replace (t_base t - lo) with (t_base t - (lo + t_size u) + t_size u) by lia.
      by apply Z.divide_add_r.
Qed.

Lemma elem_of_frees ts r : r ∈ frees ts <-> mkTile true (rg_base r) (rg_size r) ∈ ts.
Proof.
  induction ts as [|[f b s] ts IH]; simpl; [by rewrite !elem_of_nil|].
  destruct f, r as [rb rz]; simpl; rewrite !elem_of_cons, <- IH; simpl.
  - split; intros [H|H]; simplify_eq; auto.
  - split; [by right|]. intros [H|H]; [simplify_eq|done].
Qed.
Lemma elem_of_acts ts b s : (b, s) ∈ acts ts <-> mkTile false b s ∈ ts.
Proof.
  induction ts as [|[f b' s'] ts IH]; simpl; [by rewrite !elem_of_nil|].
  destruct f; simpl; rewrite !elem_of_cons, <- IH.
  - split; [by right|]. intros [H|H]; [simplify_eq|done].
  - split; intros [H|H]; simplify_eq; auto.
Qed.

(** Two free tiles are never adjacent, so there is an active tile between any
    two of them. *)
Lemma tiled_count lo hi pf ts :
  tiled lo hi pf ts ->
  (length (frees ts) + (if pf then 1 else 0) <= length (acts ts) + 1)%nat.
Proof.
  revert lo pf. induction ts as [|t ts IH]; simpl; intros lo pf H; [destruct pf; lia|].
  destruct H as (_ & _ & _ & Hpf & H). apply IH in H.
  destruct (t_free t), pf; simpl in *; try done; lia.
Qed.

Lemma frees_split ts k r :
  frees ts !! k = Some r ->
  exists l m, ts = l ++ mkTile true (rg_base r) (rg_size r) :: m /\ length (frees l) = k.
Proof.
  revert k. induction ts as [|[f b s] ts IH]; simpl; intros k H; [done|].
  destruct f; simpl in *.
  - destruct k as [|k]; simpl in H.
    + simplify_eq. by exists [], ts.
    + destruct (IH _ H) as (l & m & -> & <-). by exists (mkTile true b s :: l), m.
  - destruct (IH _ H) as (l & m & -> & <-). by exists (mkTile false b s :: l), m.
Qed.

Lemma acts_split ts b s :
  (b, s) ∈ acts ts -> exists l m, ts = l ++ mkTile false b s :: m.
Proof. rewrite elem_of_acts. intros H. by apply list_elem_of_split in H. Qed.

(** *** Allocation: the front of a free tile becomes active *)
Definition carve (b s r : Z) : list tile :=
  mkTile false b r :: (if s =? r then [] else [mkTile true (b + r) (s - r)]).

Lemma tiled_carve lo hi l b s r m :
  tiled lo hi false (l ++ mkTile true b s :: m) ->
  0 < r <= s -> (al | r) ->
  tiled lo hi false (l ++ carve b s r ++ m).
Proof.
  rewrite !tiled_app. intros (mid & Hl & Hm) Hr Hd. exists mid. split; [done|].
  destruct Hm as (Hb & Hs & Hds & Hpf & Hm). simpl in *. rewrite andb_true_r in Hpf.
  rewrite Hpf. unfold carve. bcase; simpl; split_and!; auto; try lia.
  - subst s. destruct m as [|t m]; [done|]. simpl in *. tauto.
  - by apply Z.divide_sub_r.
  - by replace (mid + r + (s - r)) with (mid + s) by lia.
Qed.

(** A block in the middle of a free tile becomes active. *)
Definition carve_at (b s x r : Z) : list tile :=
  (if b <? x then [mkTile true b (x - b)] else []) ++ mkTile false x r ::
  (if x + r <? b + s then [mkTile true (x + r) (b + s - (x + r))] else []).

Lemma tiled_carve_at lo hi l b s x r m :
  tiled lo hi false (l ++ mkTile true b s :: m) ->
  b <= x -> x + r <= b + s -> 0 < r -> (al | r) -> (al | x - b) ->
  tiled lo hi false (l ++ carve_at b s x r ++ m).
Proof.
  rewrite !tiled_app. intros (mid & Hl & Hm) Hx Hr Hpos Hd Hdx. exists mid. split; [done|].
  destruct Hm as (Hb & Hs & Hds & Hpf & Hm). simpl in *. rewrite andb_true_r in Hpf. rewrite Hpf. subst mid.
  assert (Hdr : (al | b + s - (x + r))).
  { replace (b + s - (x + r)) with (s - (x - b) - r) by lia. apply Z.divide_sub_r; [by apply Z.divide_sub_r|done]. }
  assert (Hw : forall e, e = b + s -> tiled e hi false m).
  { intros e ->. destruct m as [|t m]; simpl in *; [done|]. by destruct Hm as (? & ? & ? & _ & ?). }
  assert (Hk : forall e, e = b + s -> tiled e hi true m) by (by intros e ->).
  unfold carve_at. destruct (b <? x) eqn:Ex, (x + r <? b + s) eqn:Er; bprop; simpl;
    split_and!; auto; try lia; (apply Hw || apply Hk); lia.
Qed.

(** *** Release: an active tile merges with its free neighbours

    [coalesce f1 b s f2] is the free list after releasing [b, b + s) between the
    free regions [f1] below it and [f2] above it. *)
Definition merge_right (b s : Z) (f2 : list region) : Z * list region :=
  match f2 with
  | n :: f2' => if b + s =? rg_base n then (s + rg_size n, f2') else (s, f2)
  | [] => (s, f2)
  end.
Definition merge_left (f1 : list region) (b s : Z) (f2 : list region)
    : list region :=
  match last f1 with
  | Some p => if rg_base p + rg_size p =? b
              then removelast f1 ++ mkRegion (rg_base p) (rg_size p + s) :: f2
              else f1 ++ mkRegion b s :: f2
  | None => f1 ++ mkRegion b s :: f2
  end.
Definition coalesce (f1 : list region) (b s : Z) (f2 : list region)
    : list region :=
  let '(s', f2') := merge_right b s f2 in merge_left f1 b s' f2'.

Lemma tiled_merge_right b s hi m :
  tiled (b + s) hi false m -> 0 < s -> (al | s) ->
  exists s' m', merge_right b s (frees m) = (s', frees m') /\ 0 < s' /\ (al | s') /\ tiled (b + s') hi true m' /\ acts m' = acts m.
Proof.
  intros Hm Hs Hd. destruct m as [|[[] nb ns] m]; [by exists s, []| |];
    destruct Hm as (? & ? & ? & _ & Hm); simpl in *; subst nb.
  - exists (s + ns), m. rewrite Z.eqb_refl, Z.add_assoc.
    split_and!; auto; [lia|by apply Z.divide_add_r].
  - exists s, (mkTile false (b + s) ns :: m). split_and!; auto; [|by simpl]. simpl.
    unfold merge_right. destruct (frees m) as [|n fm] eqn:E; [done|].
    assert (Hn : n ∈ frees m) by (rewrite E; left).
    apply elem_of_frees, (tiled_in _ _ _ _ _ Hm) in Hn. simpl in Hn.
    by rewrite (proj2 (Z.eqb_neq _ _)) by lia.
Qed.

Lemma tiled_merge_left lo b s hi l m :
  tiled lo b false l -> tiled (b + s) hi true m -> 0 < s -> (al | s) ->
  exists ts, tiled lo hi false ts /\ acts ts = acts l ++ acts m /\ frees ts = merge_left (frees l) b s (frees m).
Proof.
  intros Hl Hm Hs Hd. destruct l as [|[f pb ps] l _] using rev_ind.
  { exists (mkTile true b s :: m). simpl in *. subst lo. by split_and!. }
  rewrite tiled_app in Hl. destruct Hl as (mid & Hl & ? & ? & ? & Hpf & Hend).
  simpl in *. subst pb b. rewrite frees_app, acts_app. destruct f; simpl.
  - rewrite andb_true_r in Hpf. exists (l ++ mkTile true mid (ps + s) :: m).
    rewrite tiled_app, acts_app, frees_app, app_nil_r. unfold merge_left.
    rewrite last_snoc, removelast_last. simpl. rewrite Z.eqb_refl. split_and!; auto.
    exists mid. split; [done|]. rewrite Hpf, Z.add_assoc. simpl.
    split_and!; auto; [lia|by apply Z.divide_add_r].
  - exists (l ++ mkTile false mid ps :: mkTile true (mid + ps) s :: m).
    rewrite tiled_app, acts_app, frees_app, app_nil_r, <- app_assoc. simpl. split_and!; auto.
    { exists mid. split; [done|]. simpl. by split_and!. }
    unfold merge_left. destruct (last (frees l)) as [p|] eqn:E; [|done].
    apply last_Some in E as [fl E].
    assert (Hp : p ∈ frees l) by (rewrite E; apply elem_of_app; right; by left).
    apply elem_of_frees, (tiled_in _ _ _ _ _ Hl) in Hp. simpl in Hp.
    by rewrite (proj2 (Z.eqb_neq _ _)) by lia.
Qed.

Lemma tiled_release lo hi l b s m :
  tiled lo hi false (l ++ mkTile false b s :: m) ->
  exists ts, tiled lo hi false ts /\ acts ts = acts l ++ acts m /\ frees ts = coalesce (frees l) b s (frees m).
Proof.
  rewrite tiled_app. intros (mid & Hl & Hb & Hs & Hd & _ & Hm). simpl in *. subst mid.
  destruct (tiled_merge_right _ _ _ _ Hm Hs Hd) as (s' & m' & Hmr & ? & ? & ? & <-).
  unfold coalesce. rewrite Hmr. by apply tiled_merge_left.
Qed.

(** Every interval that no active tile meets lies inside one free tile. *)
Lemma tiled_gap lo hi pf ts x r :
  tiled lo hi pf ts -> lo <= x -> x + r <= hi -> 0 < r ->
  (forall b s, (b, s) ∈ acts ts -> x + r <= b \/ b + s <= x) ->
  exists f, f ∈ frees ts /\ rg_base f <= x /\ x + r <= rg_base f + rg_size f.
Proof.
  revert lo pf. induction ts as [|[f b s] ts IH]; simpl; intros lo pf H Hlo Hhi Hr Hd; [lia|].
  destruct H as (-> & Hs & _ & _ & H). simpl in *.
  destruct (decide (lo + s <= x)) as [Hx|Hx].
  - destruct (IH _ _ H) as (g & Hg & ?); try lia.
    { intros b' s' Hin. apply Hd. destruct f; [done|]. by right. }
    exists g. split; [|done]. destruct f; [by right|done].
  - destruct f; [|destruct (Hd lo s); [left|lia|lia]].
    exists (mkRegion lo s). split; [left|]. simpl. split; [lia|].
    destruct ts as [|[g b' s'] ts]; simpl in H; [lia|]. destruct H as (-> & ? & _ & Hg & H).
    simpl in *. subst g. destruct (Hd (lo + s) s'); [left|lia|lia].
Qed.

(** A free tile ends where the next active tile starts. *)
Lemma tiled_free_head_le lo hi s v ts us :
  tiled (lo + s) hi true ts -> tiled (lo + v) hi true us -> 0 < s -> 0 < v ->
  (forall p, p ∈ acts ts -> p ∈ acts us) -> v <= s.
Proof.
  intros Ht Hu Hs Hv Hp. destruct ts as [|[h b' s'] ts]; simpl in Ht.
  { apply tiled_le in Hu. lia. }
  destruct Ht as (-> & ? & _ & Hh & _). simpl in *. subst h.
  assert (Hin : mkTile false (lo + s) s' ∈ us) by (apply elem_of_acts, Hp; left).
  apply (tiled_in _ _ _ _ _ Hu) in Hin. simpl in Hin. lia.
Qed.

(** The free list is determined by the active tiles. *)
Lemma tiled_unique lo hi pf ts us :
  tiled lo hi pf ts -> tiled lo hi pf us ->
  (forall p, p ∈ acts ts <-> p ∈ acts us) -> ts = us.
Proof.
  revert lo pf us. induction ts as [|[f b s] ts IH]; intros lo pf us Ht Hu Hp.
  { simpl in Ht. subst hi. destruct us as [|u us]; [done|]. destruct Hu as (_ & ? & _ & _ & H).
    apply tiled_le in H. lia. }
  destruct us as [|[g c v] us].
  { simpl in Hu. subst hi. destruct Ht as (_ & ? & _ & _ & H). simpl in *. apply tiled_le in H. lia. }
  destruct Ht as (? & Hs & _ & Hpf & Ht), Hu as (? & Hv & _ & Hpg & Hu). simpl in *. subst b c.
  assert (Hsv : f = g /\ s = v).
  { destruct f, g; simpl in *.
    - split; [done|]. apply Z.le_antisymm;
        [eapply (tiled_free_head_le lo hi v s)|eapply (tiled_free_head_le lo hi s v)];
        eauto; intros p; apply Hp.
    - exfalso. assert (Hin : (lo, v) ∈ acts ts) by (apply Hp; left).
      apply elem_of_acts, (tiled_in _ _ _ _ _ Ht) in Hin. simpl in Hin. lia.
    - exfalso. assert (Hin : (lo, s) ∈ acts us) by (apply Hp; left).
      apply elem_of_acts, (tiled_in _ _ _ _ _ Hu) in Hin. simpl in Hin. lia.
    - split; [done|]. assert (Hin : (lo, s) ∈ (lo, v) :: acts us) by (apply Hp; left).
      apply elem_of_cons in Hin as [?|Hin]; [by simplify_eq|].
      apply elem_of_acts, (tiled_in _ _ _ _ _ Hu) in Hin. simpl in Hin. lia. }
  destruct Hsv as [-> ->]. f_equal. eapply IH; eauto. intros p. specialize (Hp p).
  destruct g; simpl in Hp; [done|]. rewrite !elem_of_cons in Hp.
  assert (Hnt : (lo, v) ∉ acts ts).
  { destruct p. rewrite elem_of_acts. intros Hin. apply (tiled_in _ _ _ _ _ Ht) in Hin. simpl in Hin. lia. }
  assert (Hnu : (lo, v) ∉ acts us).
  { destruct p. rewrite elem_of_acts. intros Hin. apply (tiled_in _ _ _ _ _ Hu) in Hin. simpl in Hin. lia. }
  split; intros Hin; destruct (decide (p = (lo, v))) as [->|]; naive_solver.
Qed.

Lemma tiled_disjoint lo hi pf ts t u :
  tiled lo hi pf ts -> t ∈ ts -> u ∈ ts ->
  t = u \/ t_base t + t_size t <= t_base u \/ t_base u + t_size u <= t_base t.
Proof.
  revert lo pf. induction ts as [|v ts IH]; intros lo pf H Ht Hu.
  { by apply not_elem_of_nil in Ht. }
  destruct H as (Hb & _ & _ & _ & H). apply elem_of_cons in Ht, Hu.
  destruct Ht as [->|Ht], Hu as [->|Hu]; [by left| | |by eapply IH].
  - apply (tiled_in _ _ _ _ _ H) in Hu. lia.
  - apply (tiled_in _ _ _ _ _ H) in Ht. lia.
Qed.

Lemma acts_disjoint lo hi pf ts b s c v :
  tiled lo hi pf ts -> (b, s) ∈ acts ts -> (c, v) ∈ acts ts ->
  (b = c /\ s = v) \/ b + s <= c \/ c + v <= b.
Proof.
  rewrite !elem_of_acts. intros H Hb Hc.
  destruct (tiled_disjoint _ _ _ _ _ _ H Hb Hc); [left|right]; simpl in *; [naive_solver|lia].
Qed.

(** One allocated block against all the others. *)
Lemma acts_cons_disjoint lo hi ts b s L :
  tiled lo hi false ts -> acts ts ≡ₚ (b, s) :: L ->
  forall c v, (c, v) ∈ L -> b + s <= c \/ c + v <= b.
Proof.
  intros Ht Hp c v Hin. assert (Hbs : (b, s) ∈ acts ts) by (rewrite Hp; left).
  destruct (acts_split _ _ _ Hbs) as (l & m & E). rewrite E, acts_app in Hp. simpl in Hp.
  rewrite <- Permutation_middle in Hp. apply Permutation_cons_inv in Hp.
  rewrite <- Hp, elem_of_app, !elem_of_acts in Hin. rewrite E, tiled_app in Ht.
  destruct Ht as (mid & Hl & Hb & ? & _ & _ & Hm). simpl in *. subst mid.
  destruct Hin as [Hin|Hin].
  - apply (tiled_in _ _ _ _ _ Hl) in Hin. simpl in Hin. lia.
  - apply (tiled_in _ _ _ _ _ Hm) in Hin. simpl in Hin. lia.
Qed.

(** A placement that lies in no free tile meets an allocated one. *)
Lemma no_gap_no_place lo hi ts x req :
  tiled lo hi false ts -> 0 < req -> lo <= x -> x + req <= hi ->
  Forall (fun f => ~ (rg_base f <= x /\ x + req <= rg_base f + rg_size f)) (frees ts) ->
  exists b s, (b, s) ∈ acts ts /\ b < x + req /\ x < b + s.
Proof.
  intros Ht Hr Hlo Hhi Hall.
  destruct (decide (Exists (fun p => fst p < x + req /\ x < fst p + snd p) (acts ts))) as [Hex|Hno].
  { apply Exists_exists in Hex as ([b s] & Hin & ?). by exists b, s. }
  exfalso. destruct (tiled_gap _ _ _ _ x req Ht) as (f & Hf & ?); auto.
  { intros b s Hin. assert (Hn : ~ (b < x + req /\ x < b + s)); [|lia].
    intros ?. apply Hno, Exists_exists. by exists (b, s). }
  rewrite Forall_forall in Hall. by destruct (Hall f Hf).
Qed.
End tiling.
#[global] Arguments tiled al lo hi pf ts : clear implicits.
