(* ===== verification/LmemAllocator.v ===== *)
(** * Per-SM local-memory allocator: the code (fw/cp_lmem_allocator.c)

    Each SM has an allocator with two fixed arrays: free regions sorted by base,
    of which the first [free_count] are live, and active allocations, each with a
    valid flag. The arrays, the index loops that shift them and the 64-bit
    additions are kept as the C code has them; LmemTiling.v gives them their
    meaning. Counters and indices are [nat] (they stay below 10). A region
    pointer that [cp_lmem_allocator_deinit] sets to NULL is [None]. *)

From S2P Require Import Prelude AddrMap Tiling.

Definition FORMOSA_MAX_NUM_SM : nat := 16.
Definition FORMOSA_MAX_WG_RESIDENT_LIMIT : nat := 8.
Definition PER_SM_LOCAL_MEM_BASE : Z := FSA_LMEM_BASE.
Definition PER_SM_LOCAL_MEM_SIZE : Z := FSA_LMEM_SIZE.
Definition LMEM_ALLOC_ALIGNMENT : Z := 256.

Abbreviation lmem_region_t := region.
Record lmem_active_alloc_t := mkActive { al_base : Z; al_size : Z; al_valid : bool }.
Record lmem_allocator_t := mkAllocator {
  free_regions : option (list lmem_region_t);
  free_count : nat;
  free_capacity : nat;
  active_allocs : option (list lmem_active_alloc_t);
  active_count : nat;
  active_capacity : nat;
  usage_bytes : Z;
}.

Definition zero_region : lmem_region_t := mkRegion 0 0.
Definition zero_active : lmem_active_alloc_t := mkActive 0 0 false.
Definition zero_allocator : lmem_allocator_t := mkAllocator None 0 0 None 0 0 0.

(** Reads through the struct's pointers. *)
Definition regions (a : lmem_allocator_t) : list lmem_region_t := default [] (free_regions a).
Definition actives (a : lmem_allocator_t) : list lmem_active_alloc_t := default [] (active_allocs a).
Definition region_at (rs : list lmem_region_t) (i : nat) : lmem_region_t := nth i rs zero_region.
Definition active_at (al : list lmem_active_alloc_t) (i : nat) : lmem_active_alloc_t := nth i al zero_active.

Definition set_regions (rs : list lmem_region_t) (n : nat) (a : lmem_allocator_t) : lmem_allocator_t :=
  mkAllocator (Some rs) n (free_capacity a) (active_allocs a) (active_count a)
    (active_capacity a) (usage_bytes a).
Definition set_actives (al : list lmem_active_alloc_t) (n : nat) (usage : Z) (a : lmem_allocator_t) : lmem_allocator_t :=
  mkAllocator (free_regions a) (free_count a) (free_capacity a) (Some al) n
    (active_capacity a) usage.

Definition align_up_u64 (addr alignment : Z) : Z :=
  if alignment =? 0 then addr
  else Z.land (addr +% alignment -% 1) (u64 (Z.lnot (alignment -% 1))).

(** [while (idx < free_count && free_regions[idx].base < base) ++idx;] *)
Definition insert_point (rs : list lmem_region_t) (cnt : nat) (base : Z) : nat :=
  default cnt (find_first (fun i => negb (rg_base (region_at rs i) <? base)) cnt).

(** [for (i = idx; i < cnt - 1; ++i) rs[i] = rs[i + 1];] *)
Definition shift_left (rs : list lmem_region_t) (idx cnt : nat) : list lmem_region_t :=
  for_range (fun i rs => <[i := region_at rs (S i)]> rs) idx (cnt - 1 - idx) rs.

(** [for (i = cnt; i > idx; --i) rs[i] = rs[i - 1];] *)
Fixpoint shift_right (rs : list lmem_region_t) (idx cnt : nat) : list lmem_region_t :=
  match cnt with
  | O => rs
  | S i => if (idx <? cnt)%nat
           then shift_right (<[cnt := region_at rs i]> rs) idx i else rs
  end.

(** Drop region [idx]: shift the array left and clear the vacated entry. *)
Definition remove_region (rs : list lmem_region_t) (idx cnt : nat) : list lmem_region_t :=
  <[(cnt - 1)%nat := zero_region]> (shift_left rs idx cnt).

Definition free_region_insert_and_coalesce
    (a : lmem_allocator_t) (base size : Z) : lmem_allocator_t * Z :=
  let rs := regions a in
  let cnt := free_count a in
  let insert_idx := insert_point rs cnt base in
  let has_prev := (0 <? insert_idx)%nat in
  let has_next := (insert_idx <? cnt)%nat in
  let prev := region_at rs (insert_idx - 1) in
  let next := region_at rs insert_idx in
  if has_prev && (base <? rg_base prev +% rg_size prev) then (a, -1) else
  if has_next && (rg_base next <? base +% size) then (a, -1) else
  if has_prev && (rg_base prev +% rg_size prev =? base) then
    let prev1 := mkRegion (rg_base prev) (rg_size prev +% size) in
    let rs1 := <[(insert_idx - 1)%nat := prev1]> rs in
    if has_next && (rg_base prev1 +% rg_size prev1 =? rg_base next) then
      let prev2 := mkRegion (rg_base prev1) (rg_size prev1 +% rg_size next) in
      let rs2 := <[(insert_idx - 1)%nat := prev2]> rs1 in
      (set_regions (remove_region rs2 insert_idx cnt) (cnt - 1) a, 0)
    else (set_regions rs1 cnt a, 0)
  else if has_next && (base +% size =? rg_base next) then
    (set_regions (<[insert_idx := mkRegion base (rg_size next +% size)]> rs) cnt a, 0)
  else if (free_capacity a <=? cnt)%nat then (a, -1)
  else
    (set_regions (<[insert_idx := mkRegion base size]> (shift_right rs insert_idx cnt))
       (S cnt) a, 0).

(** One SM's part of [cp_lmem_allocator_init]. *)
Definition lmem_init_one (resident_limit : nat) : lmem_allocator_t :=
  mkAllocator
    (Some (<[0%nat := mkRegion PER_SM_LOCAL_MEM_BASE PER_SM_LOCAL_MEM_SIZE]>
             (replicate (S FORMOSA_MAX_WG_RESIDENT_LIMIT) zero_region)))
    1 (resident_limit + 1)
    (Some (replicate FORMOSA_MAX_WG_RESIDENT_LIMIT zero_active))
    0 resident_limit 0.

(** The loop of [cp_lmem_allocator_init] over the SMs from [i] on; a rejected
    limit returns -1 and leaves the SMs before it initialised. *)
Fixpoint lmem_init_from (limits : list Z) (i : nat) (gs : list lmem_allocator_t)
    : list lmem_allocator_t * Z :=
  match limits with
  | [] => (gs, 0)
  | resident_limit :: limits' =>
      if (resident_limit =? 0) ||
         (Z.of_nat FORMOSA_MAX_WG_RESIDENT_LIMIT <? resident_limit)
      then (gs, -1)
      else lmem_init_from limits' (S i)
             (<[i := lmem_init_one (Z.to_nat resident_limit)]> gs)
  end.
Definition cp_lmem_allocator_init (limits : list Z) (gs : list lmem_allocator_t)
    : list lmem_allocator_t * Z := lmem_init_from limits 0 gs.

Definition cp_lmem_allocator_deinit (num_sm : nat) (gs : list lmem_allocator_t)
    : list lmem_allocator_t :=
  for_range (fun i gs => <[i := zero_allocator]> gs) 0 num_sm gs.

(** The critical section of [cp_lmem_allocator_alloc]: [Some base] is [rc = 0]. *)
Definition lmem_alloc_critical (a : lmem_allocator_t) (req_size : Z)
    : lmem_allocator_t * option Z :=
  if (active_capacity a <=? active_count a)%nat then (a, None) else
  let rs := regions a in
  match find_first (fun i => req_size <=? rg_size (region_at rs i)) (free_count a) with
  | None => (a, None)
  | Some target_idx =>
      let region := region_at rs target_idx in
      let alloc_base := rg_base region in
      let a1 :=
        if rg_size region =? req_size
        then set_regions (remove_region rs target_idx (free_count a)) (free_count a - 1) a
        else set_regions
               (<[target_idx := mkRegion (rg_base region +% req_size)
                                         (rg_size region -% req_size)]> rs)
               (free_count a) a in
      match find_first (fun i => negb (al_valid (active_at (actives a1) i)))
                       (active_capacity a1) with
      | None => (fst (free_region_insert_and_coalesce a1 alloc_base req_size), None)
      | Some slot =>
          (set_actives (<[slot := mkActive alloc_base req_size true]> (actives a1))
             (S (active_count a1)) (usage_bytes a1 +% req_size) a1,
           Some alloc_base)
      end
  end.

(** [base_out] says whether the caller passed a non-NULL out pointer; the result
    is the new state, the return code and what is written through it. *)
Definition cp_lmem_allocator_alloc (num_sm : nat) (gs : list lmem_allocator_t)
    (sm_id : nat) (size : Z) (base_out : bool)
    : list lmem_allocator_t * Z * option Z :=
  if (num_sm <=? sm_id)%nat || (size =? 0) || negb base_out then (gs, -1, None) else
  let req_size := align_up_u64 size LMEM_ALLOC_ALIGNMENT in
  if PER_SM_LOCAL_MEM_SIZE <? req_size then (gs, -1, None) else
  match lmem_alloc_critical (nth sm_id gs zero_allocator) req_size with
  | (a, Some base) => (<[sm_id := a]> gs, 0, Some base)
  | (a, None) => (<[sm_id := a]> gs, -1, None)
  end.

(** The critical section of [cp_lmem_allocator_free]: the return code. *)
Definition lmem_free_critical (a : lmem_allocator_t) (base : Z) : lmem_allocator_t * Z :=
  match find_first (fun i => al_valid (active_at (actives a) i) &&
                             (al_base (active_at (actives a) i) =? base))
                   (active_capacity a) with
  | None => (a, -1)
  | Some slot =>
      let size := al_size (active_at (actives a) slot) in
      match free_region_insert_and_coalesce a base size with
      | (a1, rc) =>
          if rc =? 0 then
            (set_actives (<[slot := zero_active]> (actives a1)) (active_count a1 - 1)
               (usage_bytes a1 -% size) a1, 0)
          else (a1, -1)
      end
  end.

Definition cp_lmem_allocator_free (num_sm : nat) (gs : list lmem_allocator_t)
    (sm_id : nat) (base : Z) : list lmem_allocator_t * Z :=
  if (num_sm <=? sm_id)%nat then (gs, -1) else
  match lmem_free_critical (nth sm_id gs zero_allocator) base with
  | (a, rc) => (<[sm_id := a]> gs, rc)
  end.

(** ** The array loops as list operations *)

Lemma align_up_u64_spec size :
  0 <= size <= 2 ^ 64 - 256 ->
  align_up_u64 size LMEM_ALLOC_ALIGNMENT = (size + 255) / 256 * 256.
Proof.
  intros H. unfold align_up_u64, LMEM_ALLOC_ALIGNMENT. simpl (256 =? 0).
  cbv iota. replace (wrap 64 (256 - 1)) with (2 ^ 8 - 1) by reflexivity.
  replace (wrap 64 (size +% 256 - 1)) with (size + 255).
  - rewrite land_mask64 by (unfold fits; lia). change (2 ^ 8) with 256.
    pose proof (Z.div_mod (size + 255) 256). lia.
  - unfold wrap. rewrite Zminus_mod_idemp_l. rewrite Z.mod_small; lia.
Qed.

Lemma align_up_ge size : 0 < size -> size <= (size + 255) / 256 * 256.
Proof. intros. pose proof (Z.div_mod (size + 255) 256). pose proof (Z.mod_pos_bound (size + 255) 256). lia. Qed.

Lemma region_at_lookup rs i r : rs !! i = Some r -> region_at rs i = r.
Proof. intros. by apply nth_lookup_Some. Qed.

(** [arr_is rs n fl]: the first [n] entries of the array are the list [fl]. *)
Definition arr_is (rs : list lmem_region_t) (n : nat) (fl : list lmem_region_t) : Prop :=
  take n rs = fl /\ (n <= length rs)%nat.

Section arr.
Context (rs : list lmem_region_t) (n : nat) (fl : list lmem_region_t).
Context (Harr : arr_is rs n fl).

Lemma arr_length : length fl = n.
Proof using Harr. destruct Harr as [<- ?]. rewrite length_take. lia. Qed.

Lemma arr_lookup i : (i < n)%nat -> rs !! i = fl !! i.
Proof using Harr. intros. destruct Harr as [<- ?]. by rewrite lookup_take_lt. Qed.

Lemma arr_region_at i r : fl !! i = Some r -> region_at rs i = r.
Proof using Harr.
  intros H. apply region_at_lookup. rewrite arr_lookup; [done|].
  apply lookup_lt_Some in H. by rewrite arr_length in H.
Qed.

Lemma arr_set i x : arr_is (<[i:=x]> rs) n (<[i:=x]> fl).
Proof using Harr.
  destruct Harr as [<- ?]. split; [|by rewrite length_insert].
  destruct (decide (i < n)%nat).
  - by rewrite take_insert_lt.
  - rewrite take_insert_ge by lia. by rewrite list_insert_ge by (rewrite length_take; lia).
Qed.

Lemma shift_left_lookup i :
  (i < n)%nat ->
  length (shift_left rs i n) = length rs /\
  forall k, shift_left rs i n !! k
            = if decide (i <= k < n - 1)%nat then rs !! S k else rs !! k.
Proof using Harr.
  intros Hi. assert (Hn : (n <= length rs)%nat) by apply Harr. unfold shift_left.
  remember (n - 1 - i)%nat as m eqn:Hm. replace (n - 1)%nat with (i + m)%nat by lia.
  pose (P := fun (j : nat) (b : list lmem_region_t) => length b = length rs /\
    forall k, b !! k = if decide (i <= k < j)%nat then rs !! S k else rs !! k).
  match goal with |- length ?b = _ /\ _ => change (P (i + m)%nat b) end.
  apply for_range_ind.
  - split; [done|]. intros k. rewrite decide_False by lia. done.
  - intros j b Hj [Hlen Hb]. split; [by rewrite length_insert|]. intros k.
    destruct (list_lookup_total_lt rs (S j)) as [x Hx]; [lia|].
    assert (HSj : b !! S j = Some x) by (rewrite Hb, decide_False by lia; done).
    rewrite (region_at_lookup _ _ _ HSj). destruct (decide (k = j)) as [->|].
    + rewrite list_lookup_insert_eq by lia. by rewrite decide_True by lia.
    + rewrite list_lookup_insert_ne, Hb by done.
      destruct (decide (i <= k < j)%nat); [rewrite decide_True by lia|rewrite decide_False by lia]; done.
Qed.

Lemma arr_remove i :
  (i < n)%nat -> arr_is (remove_region rs i n) (n - 1) (delete i fl).
Proof using Harr.
  intros Hi. assert (Hn : (n <= length rs)%nat) by apply Harr.
  destruct (shift_left_lookup i Hi) as [Hlen Hl]. unfold remove_region. split.
  - apply list_eq. intros k. destruct (decide (k < n - 1)%nat).
    + rewrite lookup_take_lt, list_lookup_insert_ne, Hl by lia.
      destruct (decide (k < i)%nat).
      * rewrite decide_False by lia. rewrite list_lookup_delete_lt by lia. apply arr_lookup. lia.
      * rewrite decide_True by lia. rewrite list_lookup_delete_ge by lia. apply arr_lookup. lia.
    + rewrite lookup_take_ge by lia. symmetry. apply lookup_ge_None.
      rewrite length_delete by (apply lookup_lt_is_Some_2; rewrite arr_length; lia).
      rewrite arr_length. lia.
  - rewrite length_insert, Hlen. lia.
Qed.
End arr.

Lemma shift_right_lookup rs idx cnt :
  (idx <= cnt < length rs)%nat ->
  length (shift_right rs idx cnt) = length rs /\
  forall k, shift_right rs idx cnt !! k
            = if decide (idx < k <= cnt)%nat then rs !! pred k else rs !! k.
Proof.
  revert rs. induction cnt as [|cnt IH]; intros rs Hr; simpl.
  - split; [done|]. intros k. by rewrite decide_False by lia.
  - bcase; [|split; [done|]; intros k; by rewrite decide_False by lia].
    destruct (IH (<[S cnt := region_at rs cnt]> rs)) as [Hlen Hl].
    { rewrite length_insert. lia. }
    rewrite length_insert in Hlen. split; [done|]. intros k. rewrite Hl.
    destruct (list_lookup_total_lt rs cnt) as [x Hx]; [lia|].
    rewrite (region_at_lookup _ _ _ Hx).
    destruct (decide (idx < k <= cnt)%nat).
    + rewrite list_lookup_insert_ne by lia. by rewrite decide_True by lia.
    + destruct (decide (k = S cnt)) as [->|].
      * rewrite list_lookup_insert_eq by lia. by rewrite decide_True by lia.
      * rewrite list_lookup_insert_ne by lia. by rewrite decide_False by lia.
Qed.

Lemma arr_insert rs n fl i x :
  arr_is rs n fl -> (i <= n < length rs)%nat ->
  arr_is (<[i:=x]> (shift_right rs i n)) (S n) (take i fl ++ x :: drop i fl).
Proof.
  intros Harr Hi. destruct (shift_right_lookup rs i n Hi) as [Hlen Hl].
  assert (Hfl := arr_length _ _ _ Harr).
  split; [|rewrite length_insert, Hlen; lia].
  apply list_eq. intros k. destruct (decide (k < S n)%nat).
  - rewrite lookup_take_lt by lia. destruct (decide (k = i)) as [->|].
    + rewrite list_lookup_insert_eq by lia.
      rewrite lookup_app_r by (rewrite length_take; lia).
      rewrite length_take. replace (i - min i (length fl))%nat with 0%nat by lia. done.
    + rewrite list_lookup_insert_ne, Hl by done. destruct (decide (k < i)%nat).
      * rewrite decide_False by lia. rewrite lookup_app_l by (rewrite length_take; lia).
        rewrite lookup_take_lt by lia. apply (arr_lookup _ _ _ Harr). lia.
      * rewrite decide_True by lia. rewrite lookup_app_r by (rewrite length_take; lia).
        rewrite length_take. replace (k - min i (length fl))%nat with (S (k - i - 1)) by lia.
        simpl. rewrite lookup_drop. rewrite (arr_lookup _ _ _ Harr) by lia. f_equal. lia.
  - rewrite lookup_take_ge by lia. symmetry. apply lookup_ge_None.
    rewrite length_app, length_cons, length_take, length_drop. lia.
Qed.
