(* ===== verification/LmemTiling.v ===== *)
(** * Per-SM local-memory allocator: what it guarantees

    The live free regions and the active allocations of an SM are the tiles of
    the SM's local-memory window: contiguous, non-empty, a multiple of the
    alignment, and never two free tiles side by side. [tiled] states this, and
    every operation of LmemAllocator.v is shown to carry one tiling to another.
    From the tiling follow the promises the dispatcher and the retire task rely
    on: blocks never overlap, a free of a live block cannot fail, and the free
    list depends only on which blocks are live. *)

From S2P Require Import Prelude AddrMap Tiling LmemAllocator.

#[local] Notation tiled := (Tiling.tiled LMEM_ALLOC_ALIGNMENT).

(** ** The code's insertion computes [coalesce] *)

Lemma insert_middle_eq {A} (l k : list A) x y :
  <[length l := y]> (l ++ x :: k) = l ++ y :: k.
Proof. rewrite insert_app_r_alt, Nat.sub_diag by lia. done. Qed.

Lemma insert_point_split rs n f1 f2 b :
  arr_is rs n (f1 ++ f2) ->
  Forall (fun r => rg_base r < b) f1 -> Forall (fun r => b <= rg_base r) f2 ->
  insert_point rs n b = length f1.
Proof.
  intros Harr H1 H2. unfold insert_point. assert (Hn := arr_length _ _ _ Harr).
  rewrite length_app in Hn.
  assert (Hbelow : forall j, (j < length f1)%nat ->
    negb (rg_base (region_at rs j) <? b) = false).
  { intros j Hj. destruct (list_lookup_total_lt f1 j Hj) as [r Hr].
    rewrite (arr_region_at _ _ _ Harr j r) by (by rewrite lookup_app_l).
    rewrite Forall_lookup in H1. apply negb_false_iff, Z.ltb_lt. by eapply H1. }
  destruct f2 as [|r f2].
  - rewrite app_nil_r in *. simpl in Hn.
    destruct (find_first _ _) as [k|] eqn:E; simpl; [|lia].
    apply find_first_Some in E as (Hk & Hp & _). rewrite Hbelow in Hp by lia. done.
  - rewrite (find_first_eq _ _ (length f1)); [done|simpl in Hn; lia| |done].
    rewrite (arr_region_at _ _ _ Harr (length f1) r)
      by (rewrite lookup_app_r, Nat.sub_diag by lia; done).
    apply Forall_cons in H2 as [? _]. apply negb_true_iff, Z.ltb_ge. done.
Qed.

(** The four ways the insertion rewrites the array, as list operations. *)
Section arr_edit.
Context (rs : list lmem_region_t) (n : nat) (f1 f2 : list lmem_region_t).
Context (Harr : arr_is rs n (f1 ++ f2)).

Lemma arr_len_split : n = (length f1 + length f2)%nat.
Proof using Harr. by rewrite <- (arr_length _ _ _ Harr), length_app. Qed.

Lemma arr_prev_at p : last f1 = Some p ->
  (0 < length f1)%nat /\ region_at rs (length f1 - 1) = p.
Proof using Harr.
  intros [l ->]%last_Some. rewrite length_app, Nat.add_1_r. split; [lia|].
  eapply arr_region_at; [exact Harr|]. rewrite Nat.sub_succ, Nat.sub_0_r.
  rewrite <- app_assoc, lookup_app_r, Nat.sub_diag by lia. done.
Qed.

Lemma arr_next_at q k : f2 = q :: k ->
  (length f1 < n)%nat /\ region_at rs (length f1) = q.
Proof using Harr.
  pose proof arr_len_split. intros ->. simpl in *. split; [lia|].
  eapply arr_region_at; [exact Harr|]. rewrite lookup_app_r, Nat.sub_diag by lia. done.
Qed.

Lemma arr_upd_prev p x : last f1 = Some p ->
  arr_is (<[(length f1 - 1)%nat := x]> rs) n (removelast f1 ++ x :: f2).
Proof using Harr.
  intros [l ->]%last_Some. rewrite removelast_last, length_app, Nat.add_1_r.
  rewrite Nat.sub_succ, Nat.sub_0_r.
  assert (H := arr_set _ _ _ Harr (length l) x). rewrite <- app_assoc in H.
  simpl in H. by rewrite insert_middle_eq in H.
Qed.

Lemma arr_upd_next q k x : f2 = q :: k ->
  arr_is (<[length f1 := x]> rs) n (f1 ++ x :: k).
Proof using Harr.
  intros E. assert (H := arr_set _ _ _ Harr (length f1) x). rewrite E in H.
  by rewrite insert_middle_eq in H.
Qed.

Lemma arr_ins_mid x : (n < length rs)%nat ->
  arr_is (<[length f1 := x]> (shift_right rs (length f1) n)) (S n) (f1 ++ x :: f2).
Proof using Harr.
  pose proof arr_len_split. intros Hn.
  assert (H1 := arr_insert _ _ _ (length f1) x Harr ltac:(lia)).
  by rewrite take_app_length, drop_app_length in H1.
Qed.
End arr_edit.

Lemma arr_merge_both rs n f1 q k p x :
  arr_is rs n (f1 ++ q :: k) -> last f1 = Some p ->
  arr_is (remove_region (<[(length f1 - 1)%nat := x]> rs) (length f1) n) (n - 1)
    (removelast f1 ++ x :: k).
Proof.
  intros Harr Hp. assert (Hn := arr_len_split _ _ _ _ Harr). simpl in Hn.
  assert (H := arr_upd_prev _ _ _ _ Harr p x Hp).
  eapply arr_remove with (i := length f1) in H; [|lia].
  apply last_Some in Hp as [l ->]. rewrite removelast_last, length_app, Nat.add_1_r in *.
  replace (l ++ x :: q :: k) with ((l ++ [x]) ++ q :: k) in H by (by rewrite <- app_assoc).
  replace (S (length l)) with (length (l ++ [x])) in H by (rewrite length_app; simpl; lia).
  rewrite delete_middle in H. rewrite <- app_assoc in H.
  by rewrite length_app, Nat.add_1_r in H.
Qed.

Lemma length_remove_region rs i n :
  (i < n <= length rs)%nat -> length (remove_region rs i n) = length rs.
Proof.
  intros. unfold remove_region. rewrite length_insert.
  eapply (shift_left_lookup rs n (take n rs)); [|lia]. split; [done|lia].
Qed.

(** What [free_region_insert_and_coalesce] needs of the regions around the freed
    block: below it they end at or before [b], above it they start at or after
    [b + s], and nothing wraps. *)
Record insertable (f1 : list lmem_region_t) (b s : Z) (f2 : list lmem_region_t) : Prop := {
  ins_below : Forall (fun r => 0 <= rg_base r /\ 0 < rg_size r /\
                               rg_base r + rg_size r <= b) f1;
  ins_above : Forall (fun r => b + s <= rg_base r /\ 0 < rg_size r /\
                               rg_base r + rg_size r < 2 ^ 64) f2;
  ins_block : 0 <= b /\ 0 < s /\ b + s < 2 ^ 64;
}.

(** The tests the code makes, as facts about the neighbours. *)
Section insert_tests.
Context (rs : list lmem_region_t) (n : nat) (f1 f2 : list lmem_region_t) (b s : Z).
Context (Harr : arr_is rs n (f1 ++ f2)) (Hins : insertable f1 b s f2).
Let i := length f1.

Lemma insert_idx_eq : insert_point rs n b = i.
Proof using Harr Hins.
  destruct Hins as [Hb Ha Hblk]. apply (insert_point_split _ _ f1 f2); [done| |];
    (eapply Forall_impl; [eassumption|simpl; lia]).
Qed.

Lemma prev_end_test :
  (0 <? i)%nat && (b <? rg_base (region_at rs (i - 1)) +% rg_size (region_at rs (i - 1))) = false /\
  (0 <? i)%nat && (rg_base (region_at rs (i - 1)) +% rg_size (region_at rs (i - 1)) =? b)
  = match last f1 with Some p => rg_base p + rg_size p =? b | None => false end.
Proof using Harr Hins.
  destruct Hins as [Hb _ Hblk]. destruct (last f1) as [p|] eqn:Hl.
  - destruct (arr_prev_at _ _ _ _ Harr p Hl) as [H0 Hp]. fold i in H0, Hp. rewrite Hp.
    apply last_Some in Hl as [l El]. rewrite El, Forall_app, Forall_singleton in Hb.
    destruct Hb as [_ Hb]. wsimpl. rewrite (proj2 (Nat.ltb_lt _ _)) by lia.
    rewrite (proj2 (Z.ltb_ge _ _)) by lia. done.
  - apply last_None in Hl. subst i. by rewrite Hl.
Qed.

Lemma next_base_test :
  (i <? n)%nat && (rg_base (region_at rs i) <? b +% s) = false /\
  (i <? n)%nat && (b +% s =? rg_base (region_at rs i))
  = match f2 with q :: _ => b + s =? rg_base q | [] => false end.
Proof using Harr Hins.
  destruct Hins as [_ Ha Hblk]. destruct f2 as [|q k] eqn:E.
  - assert (Hn := arr_len_split _ _ _ _ Harr). simpl in Hn. fold i in Hn.
    rewrite (proj2 (Nat.ltb_ge i n)) by lia. done.
  - destruct (arr_next_at _ _ _ _ Harr q k eq_refl) as [Hlt Hq]. fold i in Hlt, Hq. rewrite Hq.
    apply Forall_cons in Ha as [Ha _]. wsimpl. rewrite (proj2 (Nat.ltb_lt i n)) by lia.
    rewrite (proj2 (Z.ltb_ge _ _)) by lia. done.
Qed.
End insert_tests.

(** The branches of the insertion that do not merge below. *)
Lemma insert_no_prev a f1 f2 b s :
  arr_is (regions a) (free_count a) (f1 ++ f2) -> insertable f1 b s f2 ->
  (let '(s', f2') := merge_right b s f2 in
   length (f1 ++ mkRegion b s' :: f2') <= free_capacity a <= length (regions a))%nat ->
  let i := length f1 in
  let next := region_at (regions a) i in
  exists rs n,
    (if (i <? free_count a)%nat && (b +% s =? rg_base next) then
       (set_regions (<[i := mkRegion b (rg_size next +% s)]> (regions a)) (free_count a) a, 0)
     else if (free_capacity a <=? free_count a)%nat then (a, -1)
     else (set_regions (<[i := mkRegion b s]> (shift_right (regions a) i (free_count a)))
             (S (free_count a)) a, 0)) = (set_regions rs n a, 0) /\
    arr_is rs n (let '(s', f2') := merge_right b s f2 in f1 ++ mkRegion b s' :: f2') /\
    length rs = length (regions a).
Proof.
  intros Harr Hins Hcap i next. subst i next.
  destruct (next_base_test _ _ _ _ _ _ Harr Hins) as [_ Hn2]. rewrite Hn2.
  assert (Hlen := arr_len_split _ _ _ _ Harr). assert (Hle := proj2 Harr).
  assert (Hnew : merge_right b s f2 = (s, f2) -> (free_count a < free_capacity a)%nat /\
    arr_is (<[length f1 := mkRegion b s]> (shift_right (regions a) (length f1) (free_count a)))
      (S (free_count a)) (f1 ++ mkRegion b s :: f2) /\
    length (<[length f1 := mkRegion b s]>
      (shift_right (regions a) (length f1) (free_count a))) = length (regions a)).
  { intros E. rewrite E in Hcap. rewrite length_app in Hcap. simpl in Hcap.
    split_and!; [lia|apply arr_ins_mid; [done|lia]|].
    rewrite length_insert. apply shift_right_lookup. lia. }
  destruct f2 as [|q k]; [|unfold merge_right in *; destruct (b + s =? rg_base q) eqn:Eq; bprop].
  1,3: destruct (Hnew eq_refl) as (? & ? & ?); rewrite (proj2 (Nat.leb_gt _ _)) by lia; eauto.
  destruct (arr_next_at _ _ _ _ Harr q k eq_refl) as [Hlt ->].
  destruct Hins as [_ Ha Hblk]. apply Forall_cons in Ha as [Ha _]. wsimpl.
  rewrite (Z.add_comm s). eexists _, _. split; [done|].
  split; [by eapply arr_upd_next|by rewrite length_insert].
Qed.

Lemma insert_coalesce_spec a f1 f2 b s :
  arr_is (regions a) (free_count a) (f1 ++ f2) -> insertable f1 b s f2 ->
  (length (coalesce f1 b s f2) <= free_capacity a <= length (regions a))%nat ->
  exists rs n, free_region_insert_and_coalesce a b s = (set_regions rs n a, 0) /\
    arr_is rs n (coalesce f1 b s f2) /\ length rs = length (regions a).
Proof.
  intros Harr Hins Hcap. unfold free_region_insert_and_coalesce.
  rewrite (insert_idx_eq _ _ _ _ _ _ Harr Hins).
  destruct (prev_end_test _ _ _ _ _ _ Harr Hins) as [Hp1 Hp2].
  destruct (next_base_test _ _ _ _ _ _ Harr Hins) as [Hn1 Hn2].
  assert (Hlen := arr_len_split _ _ _ _ Harr). assert (Hle := proj2 Harr).
  rewrite Hp1, Hn1, Hp2. unfold coalesce, merge_left in *.
  destruct (last f1) as [p|] eqn:Hl; [destruct (rg_base p + rg_size p =? b) eqn:Ep; bprop|].
  - (* merges below *)
    destruct (arr_prev_at _ _ _ _ Harr p Hl) as [Hpos Hpa]. rewrite Hpa.
    assert (Hsum : rg_base p +% (rg_size p +% s) = b +% s).
    { unfold wrap. rewrite Zplus_mod_idemp_r. f_equal. lia. }
    simpl rg_base. simpl rg_size. rewrite Hsum, Hn2.
    destruct Hins as [Hb Ha Hblk]. apply last_Some in Hl as Hl'. destruct Hl' as [l El].
    rewrite El, Forall_app, Forall_singleton in Hb. destruct Hb as [_ Hb]. wsimpl.
    destruct f2 as [|q k]; [|unfold merge_right in *; destruct (b + s =? rg_base q) eqn:Eq; bprop].
    + eexists _, _. split; [done|]. split; [by eapply arr_upd_prev|by rewrite length_insert].
    + apply Forall_cons in Ha as [Ha _].
      destruct (arr_next_at _ _ _ _ Harr q k eq_refl) as [Hlt ->]. wsimpl.
      eexists _, _. split; [done|]. rewrite list_insert_insert_eq.
      rewrite Z.add_assoc. split; [by eapply arr_merge_both|].
      rewrite length_remove_region by (rewrite length_insert; lia). by rewrite length_insert.
    + eexists _, _. split; [done|]. split; [by eapply arr_upd_prev|by rewrite length_insert].
  - apply (insert_no_prev a f1 f2 b s); auto. by destruct (merge_right b s f2).
  - apply (insert_no_prev a f1 f2 b s); auto. by destruct (merge_right b s f2).
Qed.

(** ** The live allocations of the active table *)

Definition entry (e : lmem_active_alloc_t) : Z * Z := (al_base e, al_size e).
Definition live (al : list lmem_active_alloc_t) : list (Z * Z) :=
  entry <$> List.filter al_valid al.
(** The allocations an allocator tracks: [(base, size)] pairs. *)
Definition live_allocs (a : lmem_allocator_t) : list (Z * Z) :=
  live (take (active_capacity a) (actives a)).
Definition live_bytes (l : list (Z * Z)) : Z := foldr (fun p acc => snd p + acc) 0 l.

Lemma length_live al : length (live al) = countb al_valid al.
Proof. unfold live, countb. by rewrite length_fmap. Qed.

Lemma live_middle l x k :
  live (l ++ x :: k) ≡ₚ (if al_valid x then [entry x] else []) ++ live (l ++ k).
Proof.
  unfold live. rewrite !List.filter_app, !fmap_app. simpl.
  destruct (al_valid x); simpl; [|done]. by rewrite <- Permutation_middle.
Qed.

Lemma live_insert al i x y :
  al !! i = Some x ->
  (if al_valid x then [entry x] else []) ++ live (<[i:=y]> al)
  ≡ₚ (if al_valid y then [entry y] else []) ++ live al.
Proof.
  intros H. assert (Hlt := lookup_lt_Some _ _ _ H).
  rewrite (insert_take_drop al i y) by done.
  rewrite <- (take_drop_middle al i x H) at 3. rewrite !live_middle.
  rewrite !app_assoc, (Permutation_app_comm (if al_valid x then _ else _)). done.
Qed.

Lemma live_bytes_perm l k : l ≡ₚ k -> live_bytes l = live_bytes k.
Proof. induction 1; simpl; lia. Qed.

Lemma live_bytes_app l k : live_bytes (l ++ k) = live_bytes l + live_bytes k.
Proof. induction l as [|p l IH]; simpl; lia. Qed.

Lemma tiled_bytes lo hi pf ts :
  tiled lo hi pf ts -> 0 <= live_bytes (acts ts) <= hi - lo.
Proof.
  revert lo pf. induction ts as [|t ts IH]; simpl; intros lo pf H; [lia|].
  destruct H as (_ & ? & _ & _ & H). apply IH in H. destruct (t_free t); simpl; lia.
Qed.

(** ** The invariant *)

Definition LMEM_END : Z := PER_SM_LOCAL_MEM_BASE + PER_SM_LOCAL_MEM_SIZE.

Record lmem_inv (a : lmem_allocator_t) (ts : list tile) : Prop := {
  inv_tiled : tiled PER_SM_LOCAL_MEM_BASE LMEM_END false ts;
  inv_free : arr_is (regions a) (free_count a) (frees ts);
  inv_rlen : length (regions a) = S FORMOSA_MAX_WG_RESIDENT_LIMIT;
  inv_alen : length (actives a) = FORMOSA_MAX_WG_RESIDENT_LIMIT;
  inv_cap : (1 <= active_capacity a <= FORMOSA_MAX_WG_RESIDENT_LIMIT)%nat;
  inv_fcap : free_capacity a = S (active_capacity a);
  inv_live : live_allocs a ≡ₚ acts ts;
  inv_count : active_count a = length (live_allocs a);
  inv_usage : usage_bytes a = live_bytes (live_allocs a);
}.
(** An allocator is well-formed when some tiling explains it. *)
Definition lmem_ok (a : lmem_allocator_t) : Prop := exists ts, lmem_inv a ts.

Lemma region_eta r : r = mkRegion (rg_base r) (rg_size r).
Proof. by destruct r. Qed.

Section with_inv.
Context (a : lmem_allocator_t) (ts : list tile) (Hinv : lmem_inv a ts).

Lemma live_take_length :
  length (take (active_capacity a) (actives a)) = active_capacity a.
Proof using Hinv. rewrite length_take, (inv_alen _ _ Hinv). pose proof (inv_cap _ _ Hinv). lia. Qed.

Lemma active_count_le : (active_count a <= active_capacity a)%nat.
Proof using Hinv.
  rewrite (inv_count _ _ Hinv). unfold live_allocs. rewrite length_live.
  rewrite <- live_take_length at 2. apply countb_le.
Qed.

Lemma active_at_take i :
  (i < active_capacity a)%nat ->
  take (active_capacity a) (actives a) !! i = Some (active_at (actives a) i).
Proof using Hinv.
  intros Hi. rewrite lookup_take_lt by done.
  destruct (list_lookup_total_lt (actives a) i) as [x Hx].
  { pose proof (inv_cap _ _ Hinv). rewrite (inv_alen _ _ Hinv). lia. }
  unfold active_at. by rewrite (nth_lookup_Some _ _ _ _ Hx).
Qed.

(** The resident limit leaves a slot of the active table free. *)
Lemma active_slot_exists :
  (active_count a < active_capacity a)%nat ->
  exists slot, find_first (fun i => negb (al_valid (active_at (actives a) i)))
                 (active_capacity a) = Some slot.
Proof using Hinv.
  intros Hlt. rewrite (inv_count _ _ Hinv) in Hlt. unfold live_allocs in Hlt.
  rewrite length_live in Hlt. rewrite <- live_take_length in Hlt at 2.
  destruct (countb_lt_find al_valid zero_active _ Hlt) as [i Hi]. exists i.
  rewrite live_take_length in Hi. rewrite <- Hi. apply find_first_ext. intros j Hj.
  do 2 f_equal. by rewrite (nth_lookup_Some _ _ zero_active _ (active_at_take j Hj)).
Qed.

(** The free region found is a free tile. *)
Lemma free_tile_at k :
  (k < free_count a)%nat ->
  exists l m, let r := region_at (regions a) k in
    ts = l ++ mkTile true (rg_base r) (rg_size r) :: m /\ length (frees l) = k.
Proof using Hinv.
  intros Hk. assert (Harr := inv_free _ _ Hinv).
  destruct (list_lookup_total_lt (frees ts) k) as [r Hr].
  { by rewrite (arr_length _ _ _ Harr). }
  rewrite (arr_region_at _ _ _ Harr k r Hr). by apply frees_split.
Qed.

(** Both ways of taking the front of region [k] leave the carved tiling. *)
Lemma carve_regions l b s m req :
  ts = l ++ mkTile true b s :: m -> 0 < req <= s ->
  region_at (regions a) (length (frees l)) = mkRegion b s ->
  exists rs n,
    (if s =? req
     then set_regions (remove_region (regions a) (length (frees l)) (free_count a))
            (free_count a - 1) a
     else set_regions (<[length (frees l) := mkRegion (b +% req) (s -% req)]> (regions a))
            (free_count a) a) = set_regions rs n a /\
    arr_is rs n (frees (l ++ carve b s req ++ m)) /\ length rs = length (regions a).
Proof using Hinv.
  intros Ets Hr Hreg. assert (Harr := inv_free _ _ Hinv). assert (Ht := inv_tiled _ _ Hinv).
  assert (Hb : mkTile true b s ∈ ts) by (rewrite Ets; apply elem_of_app; right; left).
  apply (tiled_in _ _ _ _ _ Ht) in Hb. simpl in Hb.
  unfold LMEM_END, PER_SM_LOCAL_MEM_BASE, PER_SM_LOCAL_MEM_SIZE, FSA_LMEM_BASE, FSA_LMEM_SIZE in Hb.
  rewrite Ets, frees_app in Harr. simpl in Harr. wsimpl. rewrite !frees_app.
  assert (Hn := arr_len_split _ _ _ _ Harr). simpl in Hn. assert (Hle := proj2 Harr).
  unfold carve. bcase; eexists _, _; (split; [done|]); simpl.
  - apply arr_remove with (i := length (frees l)) in Harr; [|lia].
    rewrite delete_middle in Harr. split; [done|]. apply length_remove_region. lia.
  - split; [by eapply arr_upd_next|by rewrite length_insert].
Qed.

Lemma record_active_inv a1 us slot base req :
  a1 = set_regions (regions a1) (free_count a1) a ->
  arr_is (regions a1) (free_count a1) (frees us) ->
  length (regions a1) = length (regions a) ->
  tiled PER_SM_LOCAL_MEM_BASE LMEM_END false us ->
  acts us ≡ₚ (base, req) :: acts ts ->
  (slot < active_capacity a)%nat -> al_valid (active_at (actives a) slot) = false ->
  let a2 := set_actives (<[slot := mkActive base req true]> (actives a1))
              (S (active_count a1)) (usage_bytes a1 +% req) a1 in
  lmem_inv a2 us /\ live_allocs a2 ≡ₚ (base, req) :: live_allocs a.
Proof using Hinv.
  intros Ea1 Harr Hlen Ht Hacts Hslot Hinvalid a2.
  assert (Hact : actives a1 = actives a) by (by rewrite Ea1).
  assert (Hcap : active_capacity a1 = active_capacity a) by (by rewrite Ea1).
  assert (Hlive : live_allocs a2 ≡ₚ (base, req) :: live_allocs a).
  { unfold live_allocs, a2. simpl. unfold actives. simpl. fold (actives a1).
    rewrite Hcap, Hact, take_insert_lt by done.
    pose proof (live_insert _ _ _ (mkActive base req true) (active_at_take slot Hslot)) as Hp.
    rewrite Hinvalid in Hp. simpl in Hp. exact Hp. }
  split; [|done]. assert (Hb := tiled_bytes _ _ _ _ Ht).
  assert (Hus : live_bytes (live_allocs a2) = req + live_bytes (live_allocs a)).
  { rewrite (live_bytes_perm _ _ Hlive). done. }
  assert (Hua : live_bytes (acts us) = live_bytes (live_allocs a2)).
  { apply live_bytes_perm. by rewrite Hacts, Hlive, (inv_live _ _ Hinv). }
  assert (Huse : usage_bytes a1 = usage_bytes a) by (by rewrite Ea1).
  assert (Hcnt : active_count a1 = active_count a) by (by rewrite Ea1).
  constructor; unfold a2; simpl; auto.
  - change (length (regions a1) = S FORMOSA_MAX_WG_RESIDENT_LIMIT).
    by rewrite Hlen, (inv_rlen _ _ Hinv).
  - unfold actives at 1. simpl. by rewrite length_insert, Hact, (inv_alen _ _ Hinv).
  - rewrite Hcap. apply Hinv.
  - rewrite Hcap, Ea1. simpl. apply Hinv.
  - fold a2. by rewrite Hlive, Hacts, (inv_live _ _ Hinv).
  - fold a2. by rewrite Hlive, Hcnt, (inv_count _ _ Hinv).
  - fold a2. rewrite Hus, Huse, (inv_usage _ _ Hinv), Z.add_comm. apply wrap_small.
    rewrite Hua, Hus in Hb. unfold LMEM_END, PER_SM_LOCAL_MEM_SIZE, FSA_LMEM_SIZE in Hb. lia.
Qed.

(** The critical section of the allocation: it carves a block out of the first
    free region that is large enough, or changes nothing. *)
Lemma alloc_critical_cases req :
  0 < req -> (LMEM_ALLOC_ALIGNMENT | req) ->
  match lmem_alloc_critical a req with
  | (a', Some base) => lmem_ok a' /\ live_allocs a' ≡ₚ (base, req) :: live_allocs a /\
      active_capacity a' = active_capacity a
  | (a', None) => a' = a /\ (active_count a = active_capacity a \/
                             Forall (fun r => rg_size r < req) (frees ts))
  end.
Proof using Hinv.
  intros Hr Hd. unfold lmem_alloc_critical. pose proof active_count_le as Hle. bcase.
  { split; [done|]. left. lia. }
  destruct (find_first _ (free_count a)) as [k|] eqn:Ek.
  2: { split; [done|]. right. rewrite find_first_None in Ek.
       assert (Harr := inv_free _ _ Hinv). apply Forall_lookup. intros j r Hj.
       assert (Hjn := lookup_lt_Some _ _ _ Hj). rewrite (arr_length _ _ _ Harr) in Hjn.
       specialize (Ek j Hjn). bprop. by rewrite (arr_region_at _ _ _ Harr _ _ Hj) in Ek. }
  apply find_first_Some in Ek as (Hk & Hsz & _). bprop.
  destruct (free_tile_at k Hk) as (l & m & Ets & Hlk). subst k.
  set (reg := region_at (regions a) (length (frees l))) in *.
  destruct (carve_regions l (rg_base reg) (rg_size reg) m req Ets) as (rs & n & -> & Harr & Hlen);
    [lia|apply region_eta|].
  destruct active_slot_exists as [slot Hslot]; [lia|].
  change (active_capacity (set_regions rs n a)) with (active_capacity a).
  change (actives (set_regions rs n a)) with (actives a) at 1. rewrite Hslot.
  apply find_first_Some in Hslot as (Hslot & Hfree & _). bprop.
  destruct (record_active_inv (set_regions rs n a)
    (l ++ carve (rg_base reg) (rg_size reg) req ++ m) slot (rg_base reg) req) as [Hi Hl]; auto.
  - apply tiled_carve; [|lia|done]. rewrite <- Ets. apply Hinv.
  - rewrite Ets, !acts_app. unfold carve. simpl. destruct (rg_size reg =? req); simpl;
      by rewrite <- Permutation_middle.
  - split; [by eexists|done].
Qed.

(** Where an active tile lies among the free ones. *)
Lemma active_insertable l b s m :
  ts = l ++ mkTile false b s :: m -> insertable (frees l) b s (frees m).
Proof using Hinv.
  intros E. assert (Ht := inv_tiled _ _ Hinv). rewrite E, tiled_app in Ht.
  destruct Ht as (mid & Hl & Hb & Hs & _ & _ & Hm). simpl in *. subst mid.
  assert (Hend := tiled_le _ _ _ _ Hm). assert (Hlo := tiled_le _ _ _ _ Hl).
  unfold LMEM_END, PER_SM_LOCAL_MEM_BASE, PER_SM_LOCAL_MEM_SIZE, FSA_LMEM_BASE, FSA_LMEM_SIZE in *.
  split; [| |lia]; apply Forall_forall; intros r Hr; apply elem_of_frees in Hr.
  - apply (tiled_in _ _ _ _ _ Hl) in Hr. simpl in Hr. lia.
  - apply (tiled_in _ _ _ _ _ Hm) in Hr. simpl in Hr. lia.
Qed.

(** Dropping the table entry of a released block. *)
Lemma drop_active_inv rs n us slot b s :
  arr_is rs n (frees us) -> length rs = length (regions a) ->
  tiled PER_SM_LOCAL_MEM_BASE LMEM_END false us -> acts ts ≡ₚ (b, s) :: acts us ->
  (slot < active_capacity a)%nat -> active_at (actives a) slot = mkActive b s true ->
  let a1 := set_regions rs n a in
  let a2 := set_actives (<[slot := zero_active]> (actives a1))
              (active_count a1 - 1) (usage_bytes a1 -% s) a1 in
  lmem_inv a2 us /\ live_allocs a ≡ₚ (b, s) :: live_allocs a2.
Proof using Hinv.
  intros Harr Hlen Ht Hacts Hslot Hat a1 a2.
  assert (Hlive : live_allocs a ≡ₚ (b, s) :: live_allocs a2).
  { change (live_allocs a2) with (live (take (active_capacity a) (<[slot:=zero_active]> (actives a)))).
    rewrite take_insert_lt by done.
    pose proof (live_insert _ _ _ zero_active (active_at_take slot Hslot)) as Hp.
    rewrite Hat in Hp. simpl in Hp. by rewrite <- Hp. }
  split; [|done]. assert (Hb := tiled_bytes _ _ _ _ Ht).
  assert (Hua : acts us ≡ₚ live_allocs a2).
  { apply (Permutation_cons_inv (a := (b, s))). by rewrite <- Hacts, <- Hlive, (inv_live _ _ Hinv). }
  assert (Hbytes : live_bytes (live_allocs a) = s + live_bytes (live_allocs a2)).
  { by rewrite (live_bytes_perm _ _ Hlive). }
  constructor; unfold a2; simpl; auto.
  - change (length rs = S FORMOSA_MAX_WG_RESIDENT_LIMIT). by rewrite Hlen, (inv_rlen _ _ Hinv).
  - unfold actives at 1. simpl. rewrite length_insert. apply Hinv.
  - apply Hinv.
  - apply Hinv.
  - by symmetry.
  - change (active_count a - 1 = length (live_allocs a2))%nat.
    rewrite (inv_count _ _ Hinv), Hlive. simpl. lia.
  - change (usage_bytes a -% s = live_bytes (live_allocs a2)).
    rewrite (inv_usage _ _ Hinv), Hbytes. rewrite (live_bytes_perm _ _ Hua) in Hb.
    unfold LMEM_END, PER_SM_LOCAL_MEM_SIZE, FSA_LMEM_SIZE in Hb.
    replace (s + live_bytes (live_allocs a2) - s) with (live_bytes (live_allocs a2)) by lia.
    apply wrap_small. lia.
Qed.

(** The critical section of the release: it succeeds exactly on the base of a
    live block, and otherwise changes nothing. *)
Lemma free_critical_cases base :
  match lmem_free_critical a base with
  | (a', rc) =>
      (rc = 0 /\ lmem_ok a' /\ active_capacity a' = active_capacity a /\
       exists size, live_allocs a ≡ₚ (base, size) :: live_allocs a') \/
      (rc = -1 /\ a' = a /\ base ∉ (live_allocs a).*1)
  end.
Proof using Hinv.
  unfold lmem_free_critical. destruct (find_first _ _) as [slot|] eqn:E.
  2: { right. split_and!; auto. rewrite find_first_None in E. intros Hin.
       apply list_elem_of_fmap in Hin as ([b s] & -> & Hin). unfold live_allocs, live in Hin.
       apply list_elem_of_fmap in Hin as (e & He & Hin). apply list_elem_of_In, filter_In in Hin.
       destruct Hin as [Hin Hv]. apply list_elem_of_In, list_elem_of_lookup_1 in Hin as [j Hj].
       assert (Hjl := lookup_lt_Some _ _ _ Hj). rewrite live_take_length in Hjl.
       rewrite (active_at_take j Hjl) in Hj. specialize (E j Hjl). injection Hj as Hj.
       rewrite Hj, Hv in E. simpl in E. bprop. unfold entry in He. simpl in E. congruence. }
  apply find_first_Some in E as (Hslot & Hv & _). bprop.
  set (e := active_at (actives a) slot) in *. set (size := al_size e).
  assert (He : e = mkActive base size true) by (destruct e; simpl in *; subst; done).
  assert (Hin : (base, size) ∈ acts ts).
  { rewrite <- (inv_live _ _ Hinv). unfold live_allocs, live. apply list_elem_of_fmap.
    exists e. split; [by rewrite He|]. apply list_elem_of_In, filter_In. split; [|done].
    apply list_elem_of_In, list_elem_of_lookup_2 with slot. by apply active_at_take. }
  destruct (acts_split _ _ _ Hin) as (l & m & Ets).
  assert (Ht := inv_tiled _ _ Hinv). rewrite Ets in Ht.
  destruct (tiled_release _ _ _ _ _ _ Ht) as (us & Hus & Hacts & Hfr).
  assert (Hperm : acts ts ≡ₚ (base, size) :: acts us).
  { rewrite Ets, acts_app, Hacts. simpl. by rewrite <- Permutation_middle. }
  destruct (insert_coalesce_spec a (frees l) (frees m) base size) as (rs & n & -> & Harr & Hlen).
  - assert (Hfree := inv_free _ _ Hinv). by rewrite Ets, frees_app in Hfree.
  - by apply active_insertable.
  - rewrite <- Hfr. pose proof (tiled_count _ _ _ _ Hus) as Hn. pose proof active_count_le as Hc.
    rewrite (inv_fcap _ _ Hinv), (inv_rlen _ _ Hinv).
    rewrite (inv_count _ _ Hinv), (inv_live _ _ Hinv), Hperm in Hc.
    pose proof (inv_cap _ _ Hinv). simpl in Hc, Hn. lia.
  - simpl. left. rewrite <- Hfr in Harr.
    destruct (drop_active_inv rs n us slot base size) as [Hi Hl]; auto.
    split_and!; auto; [by eexists|by exists size].
Qed.
End with_inv.

(** The promise to the clients, read off the tiling: live blocks lie inside the
    window, are aligned and pairwise disjoint. *)
Lemma live_block_in a b s :
  lmem_ok a -> (b, s) ∈ live_allocs a ->
  PER_SM_LOCAL_MEM_BASE <= b /\ b + s <= LMEM_END /\ 0 < s /\ (LMEM_ALLOC_ALIGNMENT | b).
Proof.
  intros [ts Hinv] Hin. rewrite (inv_live _ _ Hinv) in Hin.
  apply elem_of_acts, (tiled_in _ _ _ _ _ (inv_tiled _ _ Hinv)) in Hin as (? & ? & ? & ? & Hd).
  simpl in *. split_and!; auto. replace b with (b - PER_SM_LOCAL_MEM_BASE + PER_SM_LOCAL_MEM_BASE) by lia.
  apply Z.divide_add_r; [done|]. by exists (PER_SM_LOCAL_MEM_BASE / 256).
Qed.

(** Two live blocks at different places of the table are disjoint. *)
Lemma live_cons_disjoint a b s L :
  lmem_ok a -> live_allocs a ≡ₚ (b, s) :: L ->
  forall c v, (c, v) ∈ L -> b + s <= c \/ c + v <= b.
Proof.
  intros [ts Hinv] HL. apply (acts_cons_disjoint _ _ ts _ _ _ (inv_tiled _ _ Hinv)).
  by rewrite <- (inv_live _ _ Hinv).
Qed.

(** When no free region is large enough, every placement meets a live block. *)
Lemma no_region_no_place a ts req x :
  lmem_inv a ts -> 0 < req -> Forall (fun r => rg_size r < req) (frees ts) ->
  PER_SM_LOCAL_MEM_BASE <= x -> x + req <= LMEM_END ->
  exists b s, (b, s) ∈ live_allocs a /\ b < x + req /\ x < b + s.
Proof.
  intros Hinv Hr Hall Hlo Hhi. setoid_rewrite (inv_live _ _ Hinv).
  apply (no_gap_no_place _ _ _ _ _ (inv_tiled _ _ Hinv)); auto.
  eapply Forall_impl; [exact Hall|]. simpl. lia.
Qed.

(** A live block is released with its size, and its base is then unknown. *)
Lemma free_critical_live a ts base size L :
  lmem_inv a ts -> live_allocs a ≡ₚ (base, size) :: L ->
  exists a', lmem_free_critical a base = (a', 0) /\ lmem_ok a' /\ live_allocs a' ≡ₚ L /\
    usage_bytes a' = usage_bytes a - size /\ lmem_free_critical a' base = (a', -1).
Proof.
  intros Hinv HL. assert (Hok : lmem_ok a) by (by exists ts).
  assert (Hcrit := free_critical_cases _ _ Hinv base).
  assert (Hin : (base, size) ∈ live_allocs a) by (rewrite HL; left).
  destruct (lmem_free_critical a base) as [a' rc].
  destruct Hcrit as [(-> & [us Hinv'] & _ & size' & Hl)|(_ & _ & Hno)];
    [|by destruct Hno; apply list_elem_of_fmap; exists (base, size)].
  destruct (live_block_in _ _ _ Hok Hin) as (_ & _ & Hpos & _).
  assert (Hsz : size' = size).
  { rewrite Hl in Hin. apply elem_of_cons in Hin as [?|Hin]; [by simplify_eq|].
    assert (Hd := live_cons_disjoint _ _ _ _ Hok Hl _ _ Hin).
    assert (Hin' : (base, size') ∈ live_allocs a) by (rewrite Hl; left).
    destruct (live_block_in _ _ _ Hok Hin') as (_ & _ & ? & _). lia. }
  subst size'. assert (Hl' : live_allocs a' ≡ₚ L).
  { apply (Permutation_cons_inv (a := (base, size))). by rewrite <- Hl. }
  exists a'. split_and!; auto; [by exists us| |].
  - rewrite (inv_usage _ _ Hinv), (inv_usage _ _ Hinv'), (live_bytes_perm _ _ Hl). simpl. lia.
  - assert (Hcrit' := free_critical_cases _ _ Hinv' base).
    destruct (lmem_free_critical a' base) as [a'' rc].
    destruct Hcrit' as [(_ & _ & _ & v & Hv)|(-> & -> & _)]; [exfalso|done].
    assert (Hin2 : (base, v) ∈ live_allocs a') by (rewrite Hv; left).
    assert (Hin3 : (base, v) ∈ live_allocs a) by (rewrite Hl; by right).
    destruct (live_block_in _ _ _ Hok Hin3) as (_ & _ & ? & _).
    destruct (live_cons_disjoint _ _ _ _ Hok Hl _ _ Hin2); lia.
Qed.

(** ** All the SMs *)

Definition sm_at (gs : list lmem_allocator_t) (i : nat) : lmem_allocator_t := nth i gs zero_allocator.
Definition sm_live (gs : list lmem_allocator_t) (i : nat) : list (Z * Z) := live_allocs (sm_at gs i).
Definition lmem_all_ok (num_sm : nat) (gs : list lmem_allocator_t) : Prop :=
  (num_sm <= length gs)%nat /\ forall i, (i < num_sm)%nat -> lmem_ok (sm_at gs i).
(** The block size the code rounds a request to. *)
Definition rounded (size : Z) : Z := (size + 255) / 256 * 256.

Lemma sm_at_insert gs i a j :
  (i < length gs)%nat -> sm_at (<[i:=a]> gs) j = if decide (i = j) then a else sm_at gs j.
Proof.
  intros Hi. unfold sm_at. case_decide as Hij; [subst j|].
  - apply nth_lookup_Some. by apply list_lookup_insert_eq.
  - destruct (decide (j < length gs)%nat) as [Hj|Hj].
    + destruct (list_lookup_total_lt gs j Hj) as [x Hx].
      rewrite (nth_lookup_Some _ _ _ _ Hx). apply nth_lookup_Some. by rewrite list_lookup_insert_ne.
    + rewrite !nth_overflow; [done|lia|rewrite length_insert; lia].
Qed.

Lemma sm_insert_id gs i : (i < length gs)%nat -> <[i := sm_at gs i]> gs = gs.
Proof.
  intros Hi. destruct (list_lookup_total_lt gs i Hi) as [x Hx].
  apply list_insert_id. unfold sm_at. by rewrite (nth_lookup_Some _ _ _ _ Hx).
Qed.

Lemma lmem_all_ok_insert num_sm gs i a :
  lmem_all_ok num_sm gs -> (i < num_sm)%nat -> lmem_ok a -> lmem_all_ok num_sm (<[i:=a]> gs).
Proof.
  intros [Hn Hall] Hi Ha. split; [by rewrite length_insert|]. intros j Hj.
  rewrite sm_at_insert by lia. case_decide; [done|by apply Hall].
Qed.

Lemma rounded_pos size : 0 < size -> 0 < rounded size /\ (LMEM_ALLOC_ALIGNMENT | rounded size).
Proof.
  intros Hs. unfold rounded, LMEM_ALLOC_ALIGNMENT. split; [pose proof (align_up_ge size Hs); lia|].
  by exists ((size + 255) / 256).
Qed.

(** What an allocation or a release may do to the live blocks of the SMs, the
    contract of the allocator: [L] and [L'] give the live blocks of each SM. *)
Inductive lmem_op := OpAlloc (sm_id : nat) (size : Z) | OpFree (sm_id : nat) (base : Z).
Inductive lmem_answer := Granted (base : Z) | Freed | Refused.

Definition only_at (sm : nat) (L L' : nat -> list (Z * Z)) : Prop :=
  forall j, j <> sm -> L' j = L j.

Inductive lmem_spec (num_sm : nat) (limit : nat -> nat)
    : lmem_op -> lmem_answer -> (nat -> list (Z * Z)) -> (nat -> list (Z * Z)) -> Prop :=
| spec_grant sm size base L L' :
    (sm < num_sm)%nat -> (length (L sm) < limit sm)%nat ->
    PER_SM_LOCAL_MEM_BASE <= base -> base + rounded size <= LMEM_END ->
    (LMEM_ALLOC_ALIGNMENT | base) ->
    (forall b s, (b, s) ∈ L sm -> base + rounded size <= b \/ b + s <= base) ->
    L' sm ≡ₚ (base, rounded size) :: L sm -> only_at sm L L' ->
    lmem_spec num_sm limit (OpAlloc sm size) (Granted base) L L'
| spec_full sm size L :
    ((num_sm <= sm)%nat \/ (length (L sm) = limit sm)%nat \/
     forall x, PER_SM_LOCAL_MEM_BASE <= x -> x + rounded size <= LMEM_END ->
       exists b s, (b, s) ∈ L sm /\ b < x + rounded size /\ x < b + s) ->
    lmem_spec num_sm limit (OpAlloc sm size) Refused L L
| spec_free sm base size L L' :
    (sm < num_sm)%nat -> L sm ≡ₚ (base, size) :: L' sm -> only_at sm L L' ->
    lmem_spec num_sm limit (OpFree sm base) Freed L L'
| spec_bad_free sm base L :
    ((num_sm <= sm)%nat \/ base ∉ (L sm).*1) ->
    lmem_spec num_sm limit (OpFree sm base) Refused L L.

(** The code's side: one call, and a sequence of calls. *)
Definition lmem_call (num_sm : nat) (gs : list lmem_allocator_t) (op : lmem_op)
    : list lmem_allocator_t * lmem_answer :=
  match op with
  | OpAlloc sm size =>
      match cp_lmem_allocator_alloc num_sm gs sm size true with
      | (gs', rc, Some base) => (gs', if rc =? 0 then Granted base else Refused)
      | (gs', _, None) => (gs', Refused)
      end
  | OpFree sm base =>
      let '(gs', rc) := cp_lmem_allocator_free num_sm gs sm base in
      (gs', if rc =? 0 then Freed else Refused)
  end.
Fixpoint lmem_run (num_sm : nat) (gs : list lmem_allocator_t) (ops : list lmem_op)
    : list lmem_allocator_t * list lmem_answer :=
  match ops with
  | [] => (gs, [])
  | op :: ops' =>
      let '(gs1, r) := lmem_call num_sm gs op in
      let '(gs2, rs) := lmem_run num_sm gs1 ops' in (gs2, r :: rs)
  end.
(** Requests whose rounding does not wrap around. *)
Definition op_ok (op : lmem_op) : Prop :=
  match op with OpAlloc _ size => 0 < size <= 2 ^ 64 - 256 | OpFree _ _ => True end.

Inductive lmem_spec_run (num_sm : nat) (limit : nat -> nat)
    : list lmem_op -> list lmem_answer -> (nat -> list (Z * Z)) -> (nat -> list (Z * Z)) -> Prop :=
| spec_run_nil L : lmem_spec_run num_sm limit [] [] L L
| spec_run_cons op r ops rs L L1 L2 :
    lmem_spec num_sm limit op r L L1 -> lmem_spec_run num_sm limit ops rs L1 L2 ->
    lmem_spec_run num_sm limit (op :: ops) (r :: rs) L L2.

Definition caps_are (num_sm : nat) (limit : nat -> nat) (gs : list lmem_allocator_t) : Prop :=
  forall i, (i < num_sm)%nat -> active_capacity (sm_at gs i) = limit i.

Section calls.
Context (num_sm : nat) (limit : nat -> nat) (gs : list lmem_allocator_t).
Context (Hok : lmem_all_ok num_sm gs) (Hcaps : caps_are num_sm limit gs).

(** What a call leaves behind: the invariant and the step of the contract. *)
Definition call_refines (op : lmem_op) (res : list lmem_allocator_t * lmem_answer) : Prop :=
  lmem_all_ok num_sm (fst res) /\ caps_are num_sm limit (fst res) /\
  lmem_spec num_sm limit op (snd res) (sm_live gs) (sm_live (fst res)).

(** A call that changed one SM's allocator, or put back the one it read. *)
Lemma refines_update op r sm a :
  (sm < num_sm)%nat -> lmem_ok a -> active_capacity a = active_capacity (sm_at gs sm) ->
  (only_at sm (sm_live gs) (sm_live (<[sm:=a]> gs)) ->
   sm_live (<[sm:=a]> gs) sm = live_allocs a ->
   lmem_spec num_sm limit op r (sm_live gs) (sm_live (<[sm:=a]> gs))) ->
  call_refines op (<[sm:=a]> gs, r).
Proof using Hok Hcaps.
  intros Hsm Ha Hc Hs. assert (Hlt : (sm < length gs)%nat) by (destruct Hok; lia).
  split_and!; simpl; [by apply lmem_all_ok_insert| |].
  - intros i Hi. rewrite sm_at_insert by done. case_decide as E; [|by apply Hcaps].
    subst i. by rewrite Hc, Hcaps.
  - apply Hs.
    + intros j Hj. unfold sm_live. by rewrite sm_at_insert, decide_False by done.
    + unfold sm_live. by rewrite sm_at_insert, decide_True by done.
Qed.

Lemma refines_refused op sm :
  (sm < num_sm)%nat -> lmem_spec num_sm limit op Refused (sm_live gs) (sm_live gs) ->
  call_refines op (<[sm:=sm_at gs sm]> gs, Refused).
Proof using Hok Hcaps. intros Hsm Hs. rewrite sm_insert_id by (destruct Hok; lia). done. Qed.

Lemma alloc_refines sm size :
  0 < size <= 2 ^ 64 - 256 ->
  call_refines (OpAlloc sm size) (lmem_call num_sm gs (OpAlloc sm size)).
Proof using Hok Hcaps.
  intros Hsz. unfold lmem_call, cp_lmem_allocator_alloc. rewrite align_up_u64_spec by lia.
  fold (rounded size). destruct (rounded_pos size) as [Hr Hd]; [lia|].
  rewrite (proj2 (Z.eqb_neq size 0)) by lia. simpl (negb true). rewrite !orb_false_r. bcase.
  { split_and!; auto. apply spec_full. by left. }
  bcase.
  { split_and!; auto. apply spec_full. right; right. intros x Hx1 Hx2. exfalso.
    unfold LMEM_END in Hx2. lia. }
  fold (sm_at gs sm). destruct (proj2 Hok sm) as [ts Hinv]; [done|].
  assert (Hcrit := alloc_critical_cases _ _ Hinv (rounded size) Hr Hd).
  destruct (lmem_alloc_critical (sm_at gs sm) (rounded size)) as [a' [base|]].
  - destruct Hcrit as (Hok' & Hl & Hc). apply refines_update; auto. intros Honly Hsl.
    assert (Hin : (base, rounded size) ∈ live_allocs a') by (rewrite Hl; left).
    destruct (live_block_in _ _ _ Hok' Hin) as (? & ? & ? & ?).
    apply spec_grant; auto.
    + assert (Hcnt : length (live_allocs a') = S (length (sm_live gs sm))) by (by rewrite Hl).
      destruct Hok' as [ts' Hinv']. pose proof (active_count_le _ _ Hinv') as Hle.
      rewrite (inv_count _ _ Hinv'), Hcnt, Hc, Hcaps in Hle by done. lia.
    + by eapply live_cons_disjoint.
    + by rewrite Hsl.
  - destruct Hcrit as [-> Hwhy]. apply refines_refused; [done|]. apply spec_full. right.
    destruct Hwhy as [Hfull|Hall]; [left|right].
    + by rewrite <- Hcaps, <- Hfull, (inv_count _ _ Hinv).
    + intros. by eapply no_region_no_place.
Qed.

Lemma free_refines sm base :
  call_refines (OpFree sm base) (lmem_call num_sm gs (OpFree sm base)).
Proof using Hok Hcaps.
  unfold lmem_call, cp_lmem_allocator_free. bcase.
  { split_and!; auto. apply spec_bad_free. by left. }
  fold (sm_at gs sm). destruct (proj2 Hok sm) as [ts Hinv]; [done|].
  assert (Hcrit := free_critical_cases _ _ Hinv base).
  destruct (lmem_free_critical (sm_at gs sm) base) as [a' rc].
  destruct Hcrit as [(-> & Hok' & Hc & size & Hl)|(-> & -> & Hno)]; simpl.
  - apply refines_update; auto. intros Honly Hsl. eapply spec_free; eauto. by rewrite Hsl.
  - apply refines_refused; [done|]. apply spec_bad_free. by right.
Qed.
End calls.

Lemma call_refines_op num_sm limit gs op :
  lmem_all_ok num_sm gs -> caps_are num_sm limit gs -> op_ok op ->
  call_refines num_sm limit gs op (lmem_call num_sm gs op).
Proof. intros Hok Hc Hop. destruct op; [by apply alloc_refines|by apply free_refines]. Qed.

Lemma run_refines num_sm limit ops gs :
  lmem_all_ok num_sm gs -> caps_are num_sm limit gs -> Forall op_ok ops ->
  let '(gs', rs) := lmem_run num_sm gs ops in
  lmem_all_ok num_sm gs' /\ lmem_spec_run num_sm limit ops rs (sm_live gs) (sm_live gs').
Proof.
  revert gs. induction ops as [|op ops IH]; intros gs Hok Hc Hops; simpl; [by split; [|constructor]|].
  apply Forall_cons in Hops as [Hop Hops].
  destruct (call_refines_op num_sm limit gs op Hok Hc Hop) as (Hok1 & Hc1 & Hs).
  destruct (lmem_call num_sm gs op) as [gs1 r]. simpl in *.
  specialize (IH gs1 Hok1 Hc1 Hops). destruct (lmem_run num_sm gs1 ops) as [gs2 rs].
  destruct IH as [? ?]. split; [done|]. by eapply spec_run_cons.
Qed.

(** ** Initialisation *)

Definition limit_ok (r : Z) : Prop := 1 <= r <= Z.of_nat FORMOSA_MAX_WG_RESIDENT_LIMIT.

Lemma init_one_ok r : (1 <= r <= FORMOSA_MAX_WG_RESIDENT_LIMIT)%nat ->
  lmem_inv (lmem_init_one r) [mkTile true PER_SM_LOCAL_MEM_BASE PER_SM_LOCAL_MEM_SIZE] /\
  live_allocs (lmem_init_one r) = [].
Proof.
  intros Hr. assert (Hl : live_allocs (lmem_init_one r) = []).
  { change (live (take r (replicate FORMOSA_MAX_WG_RESIDENT_LIMIT zero_active)) = []).
    rewrite take_replicate. by induction (_ `min` _)%nat. }
  split; [|done]. constructor; rewrite ?Hl; simpl; auto; try done.
  - split_and!; auto; [done|by exists (PER_SM_LOCAL_MEM_SIZE / 256)].
  - split; [done|simpl; lia].
  - lia.
Qed.

Lemma lmem_init_from_spec limits i gs :
  Forall limit_ok limits -> (i + length limits <= length gs)%nat ->
  let '(gs', rc) := lmem_init_from limits i gs in
  rc = 0 /\ length gs' = length gs /\
  forall j, sm_at gs' j = match limits !! (j - i)%nat with
                          | Some r => if decide (i <= j)%nat then lmem_init_one (Z.to_nat r) else sm_at gs j
                          | None => sm_at gs j
                          end.
Proof.
  intros Hl. revert i gs. induction Hl as [|r limits Hr Hl IH]; intros i gs Hlen; simpl in *.
  - split_and!; auto.
  - unfold limit_ok in Hr. rewrite (proj2 (Z.eqb_neq r 0)) by lia.
    rewrite (proj2 (Z.ltb_ge _ _)) by lia. simpl.
    specialize (IH (S i) (<[i := lmem_init_one (Z.to_nat r)]> gs)).
    destruct (lmem_init_from limits (S i) _) as [gs' rc].
    destruct IH as (-> & Hlen' & Hj); [rewrite length_insert; lia|].
    rewrite length_insert in Hlen'. split_and!; auto. intros j. rewrite Hj.
    rewrite sm_at_insert by lia. destruct (decide (i = j)) as [<-|Hne].
    + rewrite Nat.sub_diag. replace (i - S i)%nat with 0%nat by lia. simpl.
      destruct (limits !! 0%nat); repeat case_decide; try lia; done.
    + destruct (decide (i < j)%nat) as [Hlt|Hge].
      * replace (j - i)%nat with (S (j - S i)) by lia. simpl.
        destruct (limits !! (j - S i)%nat); repeat case_decide; try lia; done.
      * replace (j - S i)%nat with 0%nat by lia. replace (j - i)%nat with 0%nat by lia. simpl.
        destruct (limits !! 0%nat); repeat case_decide; try lia; done.
Qed.

Lemma init_all_ok limits gs :
  Forall limit_ok limits -> (length limits <= length gs)%nat ->
  let '(gs', rc) := cp_lmem_allocator_init limits gs in
  rc = 0 /\ lmem_all_ok (length limits) gs' /\
  caps_are (length limits) (fun i => Z.to_nat (nth i limits 0)) gs' /\
  forall i, (i < length limits)%nat -> sm_live gs' i = [].
Proof.
  intros Hl Hlen. pose proof (lmem_init_from_spec limits 0 gs Hl Hlen) as H.
  unfold cp_lmem_allocator_init. destruct (lmem_init_from limits 0 gs) as [gs' rc].
  destruct H as (-> & Hlen' & Hat). split; [done|].
  assert (Hsm : forall i, (i < length limits)%nat ->
    exists r, limits !! i = Some r /\ limit_ok r /\ sm_at gs' i = lmem_init_one (Z.to_nat r)).
  { intros i Hi. destruct (list_lookup_total_lt limits i Hi) as [r Hr]. exists r.
    split_and!; auto; [by eapply Forall_lookup_1|]. rewrite Hat, Nat.sub_0_r, Hr.
    by rewrite decide_True by lia. }
  split; [split; [lia|]|split].
  - intros i Hi. destruct (Hsm i Hi) as (r & _ & Hr & ->). eexists. apply init_one_ok.
    unfold limit_ok in Hr. lia.
  - intros i Hi. destruct (Hsm i Hi) as (r & Hr & _ & ->). simpl.
    by rewrite (nth_lookup_Some _ _ _ _ Hr).
  - intros i Hi. destruct (Hsm i Hi) as (r & _ & Hr & Heq). unfold sm_live. rewrite Heq.
    apply init_one_ok. unfold limit_ok in Hr. lia.
Qed.

(** ** Properties *)

(** C32. Whatever sequence of allocations and releases the firmware issues after
    [cp_lmem_allocator_init] accepted the resident limits, with sizes that are not zero
    and do not wrap around when they are rounded ([op_ok]; the dispatch task asks for 16
    bits and skips zero), the answers are those of the contract [lmem_spec]: a granted block lies in the SM's window, is
    256-byte aligned, rounded up to 256 bytes and disjoint from every live block
    of that SM; a request is refused only for a bad SM, at the resident limit, or
    when every placement of the rounded size meets a live block; a release
    succeeds exactly on the base of a live block and frees that block. *)
Theorem lmem_run_refines_spec limits gs gs0 rc ops gs' rs :
  Forall limit_ok limits -> (length limits <= length gs)%nat -> Forall op_ok ops ->
  cp_lmem_allocator_init limits gs = (gs0, rc) ->
  lmem_run (length limits) gs0 ops = (gs', rs) ->
  rc = 0 /\ (forall i, (i < length limits)%nat -> sm_live gs0 i = []) /\
  lmem_spec_run (length limits) (fun i => Z.to_nat (nth i limits 0)) ops rs
    (sm_live gs0) (sm_live gs').
Proof.
  intros Hl Hlen Hops Hinit Hrun. assert (Hi := init_all_ok limits gs Hl Hlen).
  rewrite Hinit in Hi. destruct Hi as (-> & Hok & Hcaps & Hempty). split_and!; auto.
  assert (Hr := run_refines _ _ ops gs0 Hok Hcaps Hops). rewrite Hrun in Hr. apply Hr.
Qed.

Definition fresh_sms : list lmem_allocator_t := replicate FORMOSA_MAX_NUM_SM zero_allocator.
Definition sample_ops : list lmem_op :=
  [OpAlloc 0 1000; OpAlloc 0 1; OpFree 0 PER_SM_LOCAL_MEM_BASE; OpAlloc 1 300; OpAlloc 0 2000;
   OpFree 0 7; OpAlloc 0 1024].
Lemma lmem_run_refines_spec_witness :
  exists gs0 gs', cp_lmem_allocator_init [8; 4] fresh_sms = (gs0, 0) /\
    lmem_run 2 gs0 sample_ops =
      (gs', [Granted PER_SM_LOCAL_MEM_BASE; Granted (PER_SM_LOCAL_MEM_BASE + 1024); Freed;
             Granted PER_SM_LOCAL_MEM_BASE; Granted (PER_SM_LOCAL_MEM_BASE + 1280); Refused;
             Granted PER_SM_LOCAL_MEM_BASE]) /\
    lmem_spec_run 2 (fun i => Z.to_nat (nth i [8; 4] 0)) sample_ops
      (snd (lmem_run 2 gs0 sample_ops)) (sm_live gs0) (sm_live gs').
Proof.
  eexists _, _. split; [vm_compute; reflexivity|]. split; [vm_compute; reflexivity|].
  eapply (lmem_run_refines_spec [8; 4] fresh_sms _ 0 sample_ops).
  - repeat constructor; vm_compute; congruence.
  - vm_compute. lia.
  - repeat constructor; vm_compute; congruence.
  - vm_compute. reflexivity.
  - vm_compute. reflexivity.
Defined.

(** Releasing a live block never fails: under the invariant the free list
    has room for it, so the branches of [cp_lmem_allocator_free] and
    [free_region_insert_and_coalesce] marked as impossible are not taken; the
    block leaves the live set, the byte count drops by its size, and a second
    release of it is refused. *)
Theorem lmem_free_live_succeeds num_sm gs sm base size L :
  lmem_all_ok num_sm gs -> (sm < num_sm)%nat -> sm_live gs sm ≡ₚ (base, size) :: L ->
  exists gs', cp_lmem_allocator_free num_sm gs sm base = (gs', 0) /\
    lmem_all_ok num_sm gs' /\ sm_live gs' sm ≡ₚ L /\
    usage_bytes (sm_at gs' sm) = usage_bytes (sm_at gs sm) - size /\
    cp_lmem_allocator_free num_sm gs' sm base = (gs', -1).
Proof.
  intros Hok Hsm HL. unfold cp_lmem_allocator_free. rewrite (proj2 (Nat.leb_gt _ _)) by lia.
  fold (sm_at gs sm). destruct (proj2 Hok sm Hsm) as [ts Hinv].
  destruct (free_critical_live _ _ _ _ _ Hinv HL) as (a' & -> & Hok' & Hl & Hu & Hno).
  assert (Hlt : (sm < length gs)%nat) by (destruct Hok; lia).
  eexists. split; [done|]. unfold sm_live. fold (sm_at (<[sm:=a']> gs) sm).
  rewrite sm_at_insert, decide_True by done.
  split_and!; auto; [by apply lmem_all_ok_insert|].
  rewrite Hno. f_equal. apply list_insert_insert_eq.
Qed.

Lemma lmem_free_live_succeeds_witness :
  exists gs gs', lmem_run 1 (fst (cp_lmem_allocator_init [8] fresh_sms)) [OpAlloc 0 1000; OpAlloc 0 1]
      = (gs, [Granted PER_SM_LOCAL_MEM_BASE; Granted (PER_SM_LOCAL_MEM_BASE + 1024)]) /\
    cp_lmem_allocator_free 1 gs 0 PER_SM_LOCAL_MEM_BASE = (gs', 0) /\
    cp_lmem_allocator_free 1 gs' 0 PER_SM_LOCAL_MEM_BASE = (gs', -1).
Proof.
  eexists. destruct (lmem_free_live_succeeds 1
    (fst (lmem_run 1 (fst (cp_lmem_allocator_init [8] fresh_sms)) [OpAlloc 0 1000; OpAlloc 0 1]))
    0 PER_SM_LOCAL_MEM_BASE 1024 [(PER_SM_LOCAL_MEM_BASE + 1024, 256)]) as (gs' & H1 & _ & _ & _ & H2).
  - pose proof (init_all_ok [8] fresh_sms) as H.
    destruct (cp_lmem_allocator_init [8] fresh_sms) as [gs0 rc].
    destruct H as (_ & Hok & Hc & _); [repeat constructor; vm_compute; congruence|vm_compute; lia|].
    pose proof (run_refines 1 _ [OpAlloc 0 1000; OpAlloc 0 1] gs0 Hok Hc) as Hr.
    change (fst (gs0, rc)) with gs0. destruct (lmem_run 1 gs0 _) as [gs1 rs].
    apply Hr. repeat constructor; vm_compute; congruence.
  - lia.
  - vm_compute. reflexivity.
  - exists gs'. split; [vm_compute; reflexivity|]. by split.
Defined.


(** The free list depends only on which blocks are live: two well-formed
    allocators with the same live blocks have the same live free regions. In
    particular it is fully coalesced, and no history of allocations and releases
    leaves lasting fragmentation. *)
Theorem lmem_free_list_canonical a b :
  lmem_ok a -> lmem_ok b -> live_allocs a ≡ₚ live_allocs b ->
  take (free_count a) (regions a) = take (free_count b) (regions b).
Proof.
  intros [ts Ha] [us Hb] Hl.
  rewrite (proj1 (inv_free _ _ Ha)), (proj1 (inv_free _ _ Hb)). f_equal.
  eapply tiled_unique; [apply Ha|apply Hb|]. intros p.
  by rewrite <- (inv_live _ _ Ha), <- (inv_live _ _ Hb), Hl.
Qed.

Lemma lmem_free_list_canonical_witness :
  let a := sm_at (fst (lmem_run 1 [lmem_init_one 8]
                         [OpAlloc 0 64; OpAlloc 0 512; OpFree 0 PER_SM_LOCAL_MEM_BASE;
                          OpFree 0 (PER_SM_LOCAL_MEM_BASE + 256)])) 0 in
  live_allocs a = [] /\ regions a <> [] /\
  take (free_count a) (regions a) = take 1 (regions (lmem_init_one 8)).
Proof.
  intros a. split; [vm_compute; reflexivity|]. split; [vm_compute; congruence|].
  assert (H8 : (1 <= 8 <= FORMOSA_MAX_WG_RESIDENT_LIMIT)%nat) by (vm_compute; lia).
  destruct (init_one_ok 8 H8) as [Hi _].
  assert (Hok : lmem_all_ok 1 [lmem_init_one 8]).
  { split; [vm_compute; lia|]. intros [|i] H; [by eexists|lia]. }
  apply (lmem_free_list_canonical a (lmem_init_one 8)).
  - pose proof (run_refines 1 (fun i => active_capacity (sm_at [lmem_init_one 8] i))
      [OpAlloc 0 64; OpAlloc 0 512; OpFree 0 PER_SM_LOCAL_MEM_BASE;
       OpFree 0 (PER_SM_LOCAL_MEM_BASE + 256)] [lmem_init_one 8] Hok) as Hr.
    unfold a. destruct (lmem_run 1 _ _) as [gs rs]. apply Hr; [done| |lia].
    repeat constructor; vm_compute; congruence.
  - by eexists.
  - vm_compute. reflexivity.
Defined.

(** The rounding wraps around for sizes within 255 bytes of 2^64: the request
    then passes the size check and a zero-sized block is recorded. *)
Example lmem_alloc_size_wraps :
  let gs := fst (cp_lmem_allocator_init [8] fresh_sms) in
  let '(gs', rc, base) := cp_lmem_allocator_alloc 1 gs 0 (2 ^ 64 - 1) true in
  rc = 0 /\ base = Some PER_SM_LOCAL_MEM_BASE /\ sm_live gs' 0 = [(PER_SM_LOCAL_MEM_BASE, 0)].
Proof. vm_compute. auto. Qed.
