(* ===== verification/StackRemap.v ===== *)
(** * Stack-remap table of an SM (fw/cp_stack_remap.c, fw/cp_stack_remap.h)

    The functions take a register bank that may be NULL, an [option] here. The
    table is a slot pool: an entry is used when its valid bit is set. *)

From S2P Require Import Prelude AddrMap CommandAbi Platform SlotPool.

Definition kCpStackRemapOkay : Z := 0.
Definition kCpStackRemapFull : Z := 1.
Definition kCpStackRemapInvalid : Z := -1.

Definition stack_remap_entry_count_valid (entry_count : Z) : bool :=
  (0 <? entry_count) && (entry_count <=? FSA_SM_STACK_REMAP_MAX_ENTRIES).

Definition stack_base_is_aligned (stack_base threads_per_core : Z) : bool :=
  if UINT64_MAX / FSA_PER_THREAD_STACK_SIZE <? threads_per_core then false else
  let region_size := threads_per_core *% FSA_PER_THREAD_STACK_SIZE in
  negb (region_size =? 0) && (Z.land region_size (region_size -% 1) =? 0) &&
  (Z.land stack_base (u64 (Z.lnot FSA_STACK_REMAP_ADDRESS_MASK)) =? 0) &&
  (Z.land stack_base (region_size -% 1) =? 0).

Definition cp_stack_remap_validate_config (sm : option sm_mmio) : bool :=
  match sm with
  | None => false
  | Some sm =>
      let entry_count := STACK_REMAP_ENTRY_COUNT sm in
      let wg_resident_limit := WG_RESIDENT_LIMIT sm in
      let threads_per_core := THREADS_PER_CORE sm in
      let group_size := STACK_REMAP_GROUP_SIZE sm in
      stack_remap_entry_count_valid entry_count &&
      (wg_resident_limit <=? entry_count) && negb (group_size =? 0) &&
      (group_size <=? threads_per_core) && (threads_per_core mod group_size =? 0) &&
      stack_base_is_aligned FSA_STACK_BASE threads_per_core
  end.

Definition cp_stack_remap_reset (sm : option sm_mmio) : option sm_mmio :=
  match sm with
  | None => None
  | Some sm =>
      let entry_count := STACK_REMAP_ENTRY_COUNT sm in
      if negb (stack_remap_entry_count_valid entry_count) then Some sm else
      Some (set_STACK_REMAP_TABLE
              (for_range (fun i t => <[i := 0]> t) 0 (Z.to_nat entry_count)
                 (STACK_REMAP_TABLE sm)) sm)
  end.

(** [slot] says whether the out pointer is non-NULL; the result is the bank, the
    status and what is written to [*slot]. *)
Definition cp_stack_remap_configure (sm : option sm_mmio) (stack_base : Z) (slot : bool)
    : option sm_mmio * Z * option nat :=
  match sm with
  | None => (None, kCpStackRemapInvalid, None)
  | Some sm =>
      if negb slot then (Some sm, kCpStackRemapInvalid, None) else
      let entry_count := STACK_REMAP_ENTRY_COUNT sm in
      let threads_per_core := THREADS_PER_CORE sm in
      if negb (stack_remap_entry_count_valid entry_count) ||
         negb (stack_base_is_aligned stack_base threads_per_core)
      then (Some sm, kCpStackRemapInvalid, None)
      else
        match find_first (fun i => Z.land (nth i (STACK_REMAP_TABLE sm) 0)
                                     FSA_STACK_REMAP_VALID_BIT =? 0) (Z.to_nat entry_count) with
        | Some i =>
            (Some (set_STACK_REMAP_TABLE
                     (<[i := Z.lor stack_base FSA_STACK_REMAP_VALID_BIT]> (STACK_REMAP_TABLE sm))
                     sm),
             kCpStackRemapOkay, Some i)
        | None => (Some sm, kCpStackRemapFull, None)
        end
  end.

Definition cp_stack_remap_release (sm : option sm_mmio) (slot : Z) : option sm_mmio :=
  match sm with
  | None => None
  | Some sm =>
      let entry_count := STACK_REMAP_ENTRY_COUNT sm in
      if negb (stack_remap_entry_count_valid entry_count) || (slot <? 0) ||
         (entry_count <=? slot)
      then Some sm
      else Some (set_STACK_REMAP_TABLE (<[Z.to_nat slot := 0]> (STACK_REMAP_TABLE sm)) sm)
  end.

(** ** The alignment test *)

Lemma land_high_mask x : fits 64 x ->
  Z.land x (u64 (Z.lnot FSA_STACK_REMAP_ADDRESS_MASK)) = 0 <-> x < 2 ^ 48.
Proof.
  intros Hx. change FSA_STACK_REMAP_ADDRESS_MASK with (2 ^ 48 - 1).
  rewrite land_mask64 by (done || lia). unfold fits in Hx.
  pose proof (Z.div_mod x (2 ^ 48)). pose proof (Z.mod_pos_bound x (2 ^ 48)). split; intros.
  - lia.
  - rewrite Z.mod_small by lia. lia.
Qed.

(** The test accepts exactly the bases below 2^48 that are aligned to the SM's
    stack region, when that region's size is a power of two. *)
Lemma stack_base_is_aligned_spec b tpc :
  fits 64 b -> fits 64 tpc ->
  stack_base_is_aligned b tpc = true <->
  exists k, 0 <= k < 64 /\ tpc * FSA_PER_THREAD_STACK_SIZE = 2 ^ k /\ b < 2 ^ 48 /\ (2 ^ k | b).
Proof.
  intros Hb Ht. unfold stack_base_is_aligned, UINT64_MAX, FSA_PER_THREAD_STACK_SIZE, fits in *.
  change ((2 ^ 64 - 1) / 0x800) with (2 ^ 53 - 1). bcase.
  { split; [done|]. intros (k & Hk & Hp & _). exfalso.
    assert (2 ^ k < 2 ^ 64) by (apply Z.pow_lt_mono_r; lia). lia. }
  rewrite (wrap_small 64 (tpc * 0x800)) by lia. rewrite !andb_true_iff, negb_true_iff, Z.eqb_neq, !Z.eqb_eq.
  destruct (decide (tpc = 0)) as [->|Hne].
  { split; [intros; lia|]. intros (k & Hk & Hp & _). pose proof (Z.pow_pos_nonneg 2 k). lia. }
  rewrite (wrap_small 64 (tpc * 0x800 - 1)) by lia.
  rewrite land_high_mask by (unfold fits; lia). split.
  - intros (((_ & Hpow) & Hlo) & Hal). apply pow2_test in Hpow as (k & Hk & Hp); [|lia].
    exists k. rewrite Hp, land_low_mask in Hal by lia.
    assert (k < 64) by (apply (Z.pow_lt_mono_r_iff 2); lia).
    split_and!; auto; try lia. apply Z.mod_divide; [lia|done].
  - intros (k & Hk & Hp & Hlo & Hd). rewrite Hp, pow2_test_complete, land_low_mask by lia.
    split_and!; auto; [lia|]. by apply Z.mod_divide; [lia|].
Qed.

(** ** The table as a slot pool *)

Definition remap_valid (e : Z) : bool := negb (Z.land e FSA_STACK_REMAP_VALID_BIT =? 0).

(** A bank whose table has its eight words and a usable entry count. *)
Definition remap_wf (sm : sm_mmio) : Prop :=
  stack_remap_entry_count_valid (STACK_REMAP_ENTRY_COUNT sm) = true /\
  length (STACK_REMAP_TABLE sm) = Z.to_nat FSA_SM_STACK_REMAP_MAX_ENTRIES.

(** A stack base the bank accepts. *)
Definition aligned_for (sm : sm_mmio) (b : Z) : bool :=
  stack_base_is_aligned b (THREADS_PER_CORE sm).

Lemma remap_valid_lor b : remap_valid (Z.lor b FSA_STACK_REMAP_VALID_BIT) = true.
Proof.
  unfold remap_valid, FSA_STACK_REMAP_VALID_BIT. rewrite negb_true_iff, Z.eqb_neq.
  change 1 with (2 ^ 1 - 1) at 2. rewrite land_low_mask by lia. change (2 ^ 1) with 2.
  rewrite Zmod_odd, <- Z.bit0_odd, Z.lor_spec, orb_true_r. done.
Qed.

Lemma remap_count_pos sm : remap_wf sm ->
  (0 < Z.to_nat (STACK_REMAP_ENTRY_COUNT sm) <= length (STACK_REMAP_TABLE sm))%nat.
Proof.
  intros [Hc Hl]. unfold stack_remap_entry_count_valid in Hc. bprop.
  rewrite Hl. unfold FSA_SM_STACK_REMAP_MAX_ENTRIES in *. lia.
Qed.

#[global] Instance remap_ops : SlotPoolOps sm_mmio Z := {
  pool_size sm := Z.to_nat (STACK_REMAP_ENTRY_COUNT sm);
  pool_used sm i := remap_valid (nth i (STACK_REMAP_TABLE sm) 0);
  pool_wf := remap_wf;
  pool_arg b sm := aligned_for sm b;
  pool_alloc b sm :=
    match cp_stack_remap_configure (Some sm) b true with
    | (Some sm', _, Some i) => Some (i, sm')
    | _ => None
    end;
  pool_free i sm := default sm (cp_stack_remap_release (Some sm) (Z.of_nat i));
}.

#[global] Instance remap_pool : SlotPool sm_mmio Z.
Proof.
  split.
  - intros b sm Hwf Hb. simpl in *. unfold cp_stack_remap_configure. simpl.
    pose proof (remap_count_pos sm Hwf) as Hpos. unfold aligned_for in Hb.
    rewrite (proj1 Hwf), Hb. simpl. unfold remap_valid in *.
    destruct (find_first _ _) as [i|] eqn:E.
    + apply find_first_Some in E as (Hi & Hfree & Hbelow). simpl.
      split_and!; try done.
      * by rewrite Hfree.
      * intros j Hj. by rewrite Hbelow.
      * intros j. rewrite nth_insert by lia. case_decide; [|done]. apply remap_valid_lor.
      * by split; [apply Hwf|simpl; rewrite length_insert; apply Hwf].
    + rewrite find_first_None in E. intros j Hj. by rewrite E.
  - intros i sm Hwf Hi. simpl in *. unfold cp_stack_remap_release. simpl.
    pose proof (remap_count_pos sm Hwf) as Hpos. rewrite (proj1 Hwf). simpl.
    rewrite (proj2 (Z.ltb_ge _ _)), (proj2 (Z.leb_gt _ _)) by lia. simpl.
    split_and!; try done.
    + intros j. rewrite Nat2Z.id, nth_insert by lia. by case_decide.
    + by split; [apply Hwf|simpl; rewrite length_insert; apply Hwf].
Qed.
