(* ===== verification/HwInfo.v ===== *)
(** * Hardware description, work-group buffers and boot
      (fw/cp_hwinfo.c, fw/cp_wgi_buffer.c and .h, fw/main.c)

    [cp_hwinfo_init] reads SystemInfo and the SM banks, [cp_wgi_buf_init] sizes
    the work-group buffers, and [main] runs them in order before it starts the
    tasks. [cp_panic] does not return: a panic is [None]. *)

From S2P Require Import Prelude AddrMap CommandAbi Platform SlotPool StackRemap LmemAllocator LmemTiling.

Record hwinfo_t := mkHwinfo {
  g_num_sm : Z;
  g_global_alloc_base : Z;
  g_per_sm_threads : list Z;
  g_per_sm_wg_resident_limits : list Z;
}.
(** The zero-initialised globals. *)
Definition zero_hwinfo : hwinfo_t :=
  mkHwinfo 0 0 (replicate FORMOSA_MAX_NUM_SM 0) (replicate FORMOSA_MAX_NUM_SM 0).

Definition sm_bank (sms : list sm_mmio) (i : nat) : sm_mmio := nth i sms zero_sm.

Definition validate_sm_id (hw : hwinfo_t) (sm_id : nat) : option unit :=
  if g_num_sm hw <=? Z.of_nat sm_id then None else Some tt.
Definition cp_hwinfo_sm_wg_resident_limit (hw : hwinfo_t) (sm_id : nat) : option Z :=
  _ ← validate_sm_id hw sm_id; Some (nth sm_id (g_per_sm_wg_resident_limits hw) 0).
Definition cp_hwinfo_threads_per_core (hw : hwinfo_t) (sm_id : nat) : option Z :=
  _ ← validate_sm_id hw sm_id; Some (nth sm_id (g_per_sm_threads hw) 0).
Definition cp_hwinfo_global_alloc_base (hw : hwinfo_t) : Z := g_global_alloc_base hw.

(** The body of the loop of [cp_hwinfo_init] for SM [i]. *)
Definition hwinfo_read_sm (sms : list sm_mmio) (i : nat) (hw : hwinfo_t) : option hwinfo_t :=
  let sm := sm_bank sms i in
  let hw := mkHwinfo (g_num_sm hw) (g_global_alloc_base hw)
              (<[i := THREADS_PER_CORE sm]> (g_per_sm_threads hw))
              (<[i := WG_RESIDENT_LIMIT sm]> (g_per_sm_wg_resident_limits hw)) in
  if nth i (g_per_sm_threads hw) 0 =? 0 then None else
  if nth i (g_per_sm_wg_resident_limits hw) 0 =? 0 then None else
  if negb (cp_stack_remap_validate_config (Some sm)) then None else Some hw.

(** [for (i = 0; i < n; ++i)] with a body that may panic. *)
Definition for_range_opt {A} (f : nat -> A -> option A) (n : nat) (a : A) : option A :=
  for_range (fun i acc => a ← acc; f i a) 0 n (Some a).

Definition cp_hwinfo_init (system_info : system_info_mmio) (sms : list sm_mmio) (hw : hwinfo_t)
    : option hwinfo_t :=
  if negb (ABI_VERSION system_info =? FSA_SYSTEM_INFO_ABI_VERSION) ||
     (LENGTH_BYTES system_info <? FSA_SYSTEM_INFO_LENGTH) then None else
  let num_sm := NUM_SM system_info in
  if num_sm =? 0 then None else
  if Z.of_nat FORMOSA_MAX_NUM_SM <? num_sm then None else
  let base := GLOBAL_ALLOC_BASE system_info in
  if (base <=? FSA_STACK_BASE) || (FSA_GLOBAL_MEM_BASE + FSA_GLOBAL_MEM_SIZE <=? base)
  then None else
  for_range_opt (hwinfo_read_sm sms) (Z.to_nat num_sm)
    (mkHwinfo num_sm base (g_per_sm_threads hw) (g_per_sm_wg_resident_limits hw)).

(** ** Work-group buffers *)

Record WGInfo := mkWGInfo {
  dim : Z;
  wg_id : Z * Z * Z;
  local_size : Z * Z * Z;
  num_groups : Z * Z * Z;
  global_offset : Z * Z * Z;
  num_threads : Z;
  trampoline : Z;
  kargs : Z;
  stack_base : Z;
  stack_size : Z;
  local_memory_base : Z;
  local_memory_size : Z;
  printf_buffer : Z;
  printf_buffer_position : Z;
  printf_buffer_capacity : Z;
  reserved0 : Z;
}.
Definition zero_wginfo : WGInfo :=
  mkWGInfo 0 (0, 0, 0) (0, 0, 0) (0, 0, 0) (0, 0, 0) 0 0 0 0 0 0 0 0 0 0 0.

Record cp_wgi_buf := mkWgiBuf {
  wginfo : WGInfo;
  in_use : Z;
  wbid : Z;
  kid : Z;
  smid : Z;
  stack_remap_slot : Z;
  kernel_status_ptr : Z;
}.
Definition zero_wgi : cp_wgi_buf := mkWgiBuf zero_wginfo 0 0 0 0 0 0.
(** sizeof(struct cp_wgi_buf): 128 bytes of WGInfo, five ints, padding, a pointer. *)
Definition sizeof_cp_wgi_buf : Z := 160.

Definition wgi_set_use (use slot : Z) (b : cp_wgi_buf) : cp_wgi_buf :=
  mkWgiBuf (wginfo b) use (wbid b) (kid b) (smid b) slot (kernel_status_ptr b).

(** [wgi_buf] and [wgi_buf_len]: the array covers the whole buffer window. *)
Record wgi_state := mkWgi {
  wgi_buf : list cp_wgi_buf;
  wgi_buf_len : nat;
}.

Definition wgi_capacity : Z := CP_WGI_BUF_SIZE / sizeof_cp_wgi_buf.

(** The first loop of [cp_wgi_buf_init]: [inl] is the early [return -1], with the
    length reached so far. *)
Fixpoint wgi_sum_limits (limits : list Z) (len : Z) : Z + Z :=
  match limits with
  | [] => inr len
  | limit :: limits' =>
      if (limit =? 0) || (wgi_capacity - len <? limit) then inl len
      else wgi_sum_limits limits' (len + limit)
  end.

(** The limits and thread counts the loops read, for the SMs [0 .. num_sm - 1]. *)
Definition hw_limits (hw : hwinfo_t) : list Z :=
  take (Z.to_nat (g_num_sm hw)) (g_per_sm_wg_resident_limits hw).
Definition hw_threads (hw : hwinfo_t) : list Z :=
  take (Z.to_nat (g_num_sm hw)) (g_per_sm_threads hw).

Definition cp_wgi_buf_init (hw : hwinfo_t) (w : wgi_state) : wgi_state * Z :=
  if (g_num_sm hw =? 0) || (Z.of_nat FORMOSA_MAX_NUM_SM <? g_num_sm hw) then (w, -1) else
  match wgi_sum_limits (hw_limits hw) 0 with
  | inl len => (mkWgi (wgi_buf w) (Z.to_nat len), -1)
  | inr len =>
      let threads_per_slot :=
        (cp_hwinfo_global_alloc_base hw -% STACK_BASE) / PER_THREAD_STACK_SIZE / len in
      if existsb (fun t => threads_per_slot <? t) (hw_threads hw)
      then (mkWgi (wgi_buf w) (Z.to_nat len), -1)
      else (mkWgi (for_range (fun i b => <[i := wgi_set_use 0 (-1) (nth i b zero_wgi)]> b)
                     0 (Z.to_nat len) (wgi_buf w)) (Z.to_nat len), 0)
  end.

Definition cp_wgi_buf_alloc (w : wgi_state) : option (nat * wgi_state) :=
  match find_first (fun i => in_use (nth i (wgi_buf w) zero_wgi) =? 0) (wgi_buf_len w) with
  | Some i => Some (i, mkWgi (<[i := wgi_set_use 1 (-1) (nth i (wgi_buf w) zero_wgi)]> (wgi_buf w))
                         (wgi_buf_len w))
  | None => None
  end.

Definition cp_wgi_buf_free (id : nat) (w : wgi_state) : wgi_state :=
  mkWgi (<[id := wgi_set_use 0 (-1) (nth id (wgi_buf w) zero_wgi)]> (wgi_buf w)) (wgi_buf_len w).

(** ** main, up to the start of the scheduler *)

Record boot_state := mkBoot {
  b_hw : hwinfo_t;
  b_wgi : wgi_state;
  b_lmem : list lmem_allocator_t;
  b_sms : list sm_mmio;
}.

Definition main_init (system_info : system_info_mmio) (s : boot_state) : option boot_state :=
  hw ← cp_hwinfo_init system_info (b_sms s) (b_hw s);
  let '(w, rc) := cp_wgi_buf_init hw (b_wgi s) in
  if negb (rc =? 0) then None else
  let '(l, rc) := cp_lmem_allocator_init (hw_limits hw) (b_lmem s) in
  if negb (rc =? 0) then None else
  Some (mkBoot hw w l
          (for_range (fun i sms =>
             <[i := default zero_sm (cp_stack_remap_reset (Some (sm_bank sms i)))]> sms)
             0 (Z.to_nat (g_num_sm hw)) (b_sms s))).

(** Where the dispatcher places the stacks of buffer [wb] on SM [sm]: C's
    [STACK_BASE + wbid * threads_per_core * PER_THREAD_STACK_SIZE]. *)
Definition wg_stack_base (hw : hwinfo_t) (wb sm : nat) : option Z :=
  t ← cp_hwinfo_threads_per_core hw sm;
  Some (STACK_BASE +% (Z.of_nat wb *% t) *% PER_THREAD_STACK_SIZE).

(** ** Lemmas *)

Lemma for_range_opt_ind {A} (P : nat -> A -> Prop) (f : nat -> A -> option A) n a b :
  P 0%nat a -> (forall i x y, (i < n)%nat -> P i x -> f i x = Some y -> P (S i) y) ->
  for_range_opt f n a = Some b -> P n b.
Proof.
  intros H0 HS. unfold for_range_opt.
  pose (Q := fun (i : nat) (o : option A) => forall b, o = Some b -> P i b).
  cut (Q (0 + n)%nat (for_range (fun i acc => a ← acc; f i a) 0 n (Some a))).
  { intros HQ Hb. by apply HQ. }
  apply for_range_ind.
  - intros c Hc. by simplify_eq.
  - intros j o Hj Ho c Hc. destruct o as [x|]; [|done]. simpl in Hc.
    eapply HS; [lia| |exact Hc]. by apply Ho.
Qed.

(** The registers the boot code reads hold 64-bit values, in banks of their size. *)
Definition bank_ok (sm : sm_mmio) : Prop :=
  fits 64 (THREADS_PER_CORE sm) /\ fits 64 (WG_RESIDENT_LIMIT sm) /\
  fits 64 (STACK_REMAP_ENTRY_COUNT sm) /\ fits 64 (STACK_REMAP_GROUP_SIZE sm) /\
  length (STACK_REMAP_TABLE sm) = Z.to_nat FSA_SM_STACK_REMAP_MAX_ENTRIES.
Definition banks_ok (sms : list sm_mmio) : Prop :=
  length sms = FORMOSA_MAX_NUM_SM /\ Forall bank_ok sms.
Definition system_info_ok (si : system_info_mmio) : Prop :=
  fits 64 (NUM_SM si) /\ fits 64 (GLOBAL_ALLOC_BASE si).

Lemma sm_bank_lookup sms i : (i < length sms)%nat -> sms !! i = Some (sm_bank sms i).
Proof. apply nth_lookup_lt. Qed.

(** What a successful [cp_hwinfo_init] has checked about the first [n] SMs. *)
Definition hw_checked (sms : list sm_mmio) (n : nat) (hw : hwinfo_t) : Prop :=
  length (g_per_sm_threads hw) = FORMOSA_MAX_NUM_SM /\
  length (g_per_sm_wg_resident_limits hw) = FORMOSA_MAX_NUM_SM /\
  forall i, (i < n)%nat ->
    nth i (g_per_sm_threads hw) 0 = THREADS_PER_CORE (sm_bank sms i) /\
    nth i (g_per_sm_wg_resident_limits hw) 0 = WG_RESIDENT_LIMIT (sm_bank sms i) /\
    THREADS_PER_CORE (sm_bank sms i) <> 0 /\ WG_RESIDENT_LIMIT (sm_bank sms i) <> 0 /\
    cp_stack_remap_validate_config (Some (sm_bank sms i)) = true.

Lemma hwinfo_read_sm_checked sms i x y :
  (i < FORMOSA_MAX_NUM_SM)%nat -> hw_checked sms i x -> hwinfo_read_sm sms i x = Some y ->
  g_num_sm y = g_num_sm x /\ g_global_alloc_base y = g_global_alloc_base x /\ hw_checked sms (S i) y.
Proof.
  intros Hi (Hl1 & Hl2 & Hall) H. unfold hwinfo_read_sm in H.
  cbn [g_per_sm_threads g_per_sm_wg_resident_limits] in H.
  rewrite !nth_insert, !decide_True in H by lia.
  do 3 (bcase_in H; [done|]). injection H as <-.
  unfold hw_checked. cbn [g_per_sm_threads g_per_sm_wg_resident_limits]. rewrite !length_insert. split_and!; auto.
  intros j Hj. rewrite !nth_insert by lia. destruct (decide (j = i)) as [->|]; [by split_and!|].
  apply Hall. lia.
Qed.

Lemma cp_hwinfo_init_spec si sms hw0 hw :
  length (g_per_sm_threads hw0) = FORMOSA_MAX_NUM_SM ->
  length (g_per_sm_wg_resident_limits hw0) = FORMOSA_MAX_NUM_SM ->
  fits 64 (NUM_SM si) -> cp_hwinfo_init si sms hw0 = Some hw ->
  1 <= g_num_sm hw <= Z.of_nat FORMOSA_MAX_NUM_SM /\
  STACK_BASE < g_global_alloc_base hw < FSA_GLOBAL_MEM_BASE + FSA_GLOBAL_MEM_SIZE /\
  hw_checked sms (Z.to_nat (g_num_sm hw)) hw.
Proof.
  intros Hl1 Hl2 Hn. unfold cp_hwinfo_init. do 4 (bcase; [done|]). intros Hloop.
  unfold fits in Hn.
  pose (P := fun (i : nat) h => g_num_sm h = NUM_SM si /\
    g_global_alloc_base h = GLOBAL_ALLOC_BASE si /\ hw_checked sms i h).
  apply (for_range_opt_ind P) in Hloop.
  - destruct Hloop as (-> & -> & Hc). unfold STACK_BASE. split_and!; auto; lia.
  - split_and!; [done|done|]. split_and!; [done|done|]. intros j Hj. lia.
  - intros i x y Hi (Hx1 & Hx2 & Hx) Hy.
    destruct (hwinfo_read_sm_checked sms i x y) as (Hy1 & Hy2 & Hy3); auto; [lia|].
    split_and!; congruence || done.
Qed.

(** A bank that passed [cp_stack_remap_validate_config]. *)
Lemma validate_config_spec sm :
  bank_ok sm -> cp_stack_remap_validate_config (Some sm) = true ->
  remap_wf sm /\ WG_RESIDENT_LIMIT sm <= 8 /\
  exists k, 0 <= k < 64 /\ THREADS_PER_CORE sm * FSA_PER_THREAD_STACK_SIZE = 2 ^ k /\
            (2 ^ k | STACK_BASE).
Proof.
  intros (Ht & Hw & He & Hg & Hl) H. unfold cp_stack_remap_validate_config in H. bprop.
  match goal with H : stack_base_is_aligned _ _ = true |- _ =>
    apply stack_base_is_aligned_spec in H as (k & Hk & Hp & _ & Hd); auto end.
  2: { vm_compute. split; congruence. }
  split_and!; [by split| |by exists k].
  match goal with H : stack_remap_entry_count_valid _ = true |- _ =>
    unfold stack_remap_entry_count_valid, FSA_SM_STACK_REMAP_MAX_ENTRIES in H end. bprop. lia.
Qed.

Lemma hw_limits_nth hw i :
  length (g_per_sm_wg_resident_limits hw) = FORMOSA_MAX_NUM_SM ->
  (i < Z.to_nat (g_num_sm hw))%nat -> g_num_sm hw <= Z.of_nat FORMOSA_MAX_NUM_SM ->
  hw_limits hw !! i = Some (nth i (g_per_sm_wg_resident_limits hw) 0).
Proof.
  intros Hl Hi Hn. unfold hw_limits. rewrite lookup_take_lt by done.
  destruct (list_lookup_total_lt (g_per_sm_wg_resident_limits hw) i) as [x Hx]; [lia|].
  by rewrite (nth_lookup_Some _ _ _ _ Hx).
Qed.

Lemma wgi_sum_limits_spec limits len n :
  Forall (fun l => 0 <= l) limits -> 0 <= len <= wgi_capacity ->
  wgi_sum_limits limits len = inr n ->
  len + Z.of_nat (length limits) <= n <= wgi_capacity.
Proof.
  intros Hl. revert len. induction Hl as [|l limits Hl0 Hl IH]; intros len Hlen H; simpl in *.
  - injection H as <-. lia.
  - bcase_in H; [done|]. apply IH in H; lia.
Qed.

Lemma existsb_false_nth {A} (p : A -> bool) (l : list A) i x :
  existsb p l = false -> l !! i = Some x -> p x = false.
Proof.
  intros H Hx. destruct (p x) eqn:E; [|done]. exfalso.
  assert (existsb p l = true); [|congruence]. apply existsb_exists. exists x. split; [|done].
  apply list_elem_of_In. by eapply list_elem_of_lookup_2.
Qed.

Lemma cp_wgi_buf_init_spec hw w w' :
  1 <= g_num_sm hw <= Z.of_nat FORMOSA_MAX_NUM_SM ->
  length (g_per_sm_wg_resident_limits hw) = FORMOSA_MAX_NUM_SM ->
  Forall (fun l => 0 <= l) (hw_limits hw) -> Z.of_nat (length (wgi_buf w)) = wgi_capacity ->
  cp_wgi_buf_init hw w = (w', 0) ->
  (1 <= wgi_buf_len w' <= length (wgi_buf w'))%nat /\
  (forall j, (j < wgi_buf_len w')%nat -> in_use (nth j (wgi_buf w') zero_wgi) = 0) /\
  (forall t, t ∈ hw_threads hw ->
     t <= (g_global_alloc_base hw -% STACK_BASE) / PER_THREAD_STACK_SIZE / Z.of_nat (wgi_buf_len w')).
Proof.
  intros Hn Hll Hlim Hlen. unfold cp_wgi_buf_init. bcase; [by intros|].
  destruct (wgi_sum_limits (hw_limits hw) 0) as [len|len] eqn:Hsum; [by intros|].
  apply wgi_sum_limits_spec in Hsum; [|done|unfold wgi_capacity; vm_compute; split; congruence].
  unfold hw_limits in Hsum. rewrite length_take, Hll in Hsum.
  bcase; [by intros|]. intros Hw. injection Hw as <-.
  destruct (for_range_map (wgi_set_use 0 (-1)) zero_wgi (Z.to_nat len) (wgi_buf w)) as [Hl Hj]; [lia|].
  cbn [wgi_buf wgi_buf_len] in *. split_and!; [lia|lia| |].
  - intros j Hlt. rewrite Hj, decide_True by lia. done.
  - intros t Ht. apply list_elem_of_lookup_1 in Ht as [i Hi].
    match goal with H : existsb _ _ = false |- _ => apply (existsb_false_nth _ _ _ _ H) in Hi end.
    bprop. rewrite Z2Nat.id by lia. done.
Qed.

(** ** The work-group buffers as a slot pool *)

#[global] Instance wgi_ops : SlotPoolOps wgi_state unit := {
  pool_size := wgi_buf_len;
  pool_used w i := negb (in_use (nth i (wgi_buf w) zero_wgi) =? 0);
  pool_wf w := (wgi_buf_len w <= length (wgi_buf w))%nat;
  pool_arg _ _ := true;
  pool_alloc _ w := cp_wgi_buf_alloc w;
  pool_free := cp_wgi_buf_free;
}.

#[global] Instance wgi_pool : SlotPool wgi_state unit.
Proof.
  split.
  - intros [] w Hwf _. simpl in *. unfold cp_wgi_buf_alloc.
    destruct (find_first _ _) as [i|] eqn:E.
    + apply find_first_Some in E as (Hi & Hfree & Hbelow). simpl. rewrite Hfree.
      split_and!; auto; [intros j Hj; by rewrite Hbelow| |by rewrite length_insert].
      intros j. rewrite nth_insert by lia. by case_decide.
    + rewrite find_first_None in E. intros j Hj. by rewrite E.
  - intros i w Hwf Hi. simpl in *. split_and!; auto; [|by rewrite length_insert].
    intros j. rewrite nth_insert by lia. by case_decide.
Qed.

(** What boot leaves for the tasks. *)
Record boot_ok (s : boot_state) : Prop := {
  bo_num : 1 <= g_num_sm (b_hw s) <= Z.of_nat FORMOSA_MAX_NUM_SM;
  bo_lmem : lmem_all_ok (Z.to_nat (g_num_sm (b_hw s))) (b_lmem s);
  bo_lmem_empty : forall i, (i < Z.to_nat (g_num_sm (b_hw s)))%nat -> sm_live (b_lmem s) i = [];
  bo_wgi : owns (b_wgi s) [];
  bo_remap : forall i, (i < Z.to_nat (g_num_sm (b_hw s)))%nat -> owns (sm_bank (b_sms s) i) [];
}.

(** The zeroed globals and the banks a boot starts from. *)
Record boot_pre (s : boot_state) : Prop := {
  bp_threads : length (g_per_sm_threads (b_hw s)) = FORMOSA_MAX_NUM_SM;
  bp_limits : length (g_per_sm_wg_resident_limits (b_hw s)) = FORMOSA_MAX_NUM_SM;
  bp_wgi : Z.of_nat (length (wgi_buf (b_wgi s))) = wgi_capacity;
  bp_lmem : length (b_lmem s) = FORMOSA_MAX_NUM_SM;
  bp_banks : banks_ok (b_sms s);
}.

Section hw.
Context (si : system_info_mmio) (sms : list sm_mmio) (hw0 hw : hwinfo_t).
Context (Hbanks : banks_ok sms) (Hn : 1 <= g_num_sm hw <= Z.of_nat FORMOSA_MAX_NUM_SM).
Context (Hc : hw_checked sms (Z.to_nat (g_num_sm hw)) hw).

Lemma bank_at_ok i : (i < Z.to_nat (g_num_sm hw))%nat -> bank_ok (sm_bank sms i).
Proof using Hbanks Hn.
  intros Hi. destruct Hbanks as [Hlen Hall]. rewrite Forall_lookup in Hall.
  eapply Hall. apply sm_bank_lookup. lia.
Qed.

Lemma hw_limits_ok :
  length (hw_limits hw) = Z.to_nat (g_num_sm hw) /\ Forall limit_ok (hw_limits hw).
Proof using Hbanks Hn Hc.
  destruct Hc as (_ & Hl & Hall). split.
  - unfold hw_limits. rewrite length_take, Hl. lia.
  - apply Forall_lookup. intros i x Hx. assert (Hi := lookup_lt_Some _ _ _ Hx).
    unfold hw_limits in Hi. rewrite length_take in Hi.
    rewrite hw_limits_nth in Hx by lia. injection Hx as <-.
    destruct (Hall i) as (_ & -> & _ & Hne & Hv); [lia|].
    destruct (bank_at_ok i) as (_ & Hf & _); [lia|].
    apply validate_config_spec in Hv as (_ & Hle & _); [|apply bank_at_ok; lia].
    unfold limit_ok, FORMOSA_MAX_WG_RESIDENT_LIMIT, fits in *. lia.
Qed.
End hw.

Lemma remap_reset_owns sm :
  remap_wf sm -> owns (default zero_sm (cp_stack_remap_reset (Some sm))) [].
Proof.
  intros Hwf. pose proof (remap_count_pos sm Hwf) as Hpos. unfold cp_stack_remap_reset.
  rewrite (proj1 Hwf). simpl.
  destruct (for_range_map (fun _ => 0) 0 (Z.to_nat (STACK_REMAP_ENTRY_COUNT sm))
    (STACK_REMAP_TABLE sm)) as [Hl Hj]; [lia|].
  split_and!; [split; [apply Hwf|simpl; rewrite Hl; apply Hwf]|constructor|constructor|].
  intros j Hlt. simpl in *. rewrite Hj, decide_True by lia. by rewrite elem_of_nil.
Qed.

(** The pieces of a successful boot. *)
Lemma main_init_parts si s s' :
  system_info_ok si -> boot_pre s -> main_init si s = Some s' ->
  let hw := b_hw s' in
  1 <= g_num_sm hw <= Z.of_nat FORMOSA_MAX_NUM_SM /\
  STACK_BASE < g_global_alloc_base hw < FSA_GLOBAL_MEM_BASE + FSA_GLOBAL_MEM_SIZE /\
  hw_checked (b_sms s) (Z.to_nat (g_num_sm hw)) hw /\
  cp_wgi_buf_init hw (b_wgi s) = (b_wgi s', 0) /\
  cp_lmem_allocator_init (hw_limits hw) (b_lmem s) = (b_lmem s', 0) /\
  b_sms s' = for_range (fun i sms =>
    <[i := default zero_sm (cp_stack_remap_reset (Some (sm_bank sms i)))]> sms)
    0 (Z.to_nat (g_num_sm hw)) (b_sms s).
Proof.
  intros [Hns _] Hpre. unfold main_init.
  destruct (cp_hwinfo_init si (b_sms s) (b_hw s)) as [hw|] eqn:Hhw; [|done]. cbn [mbind option_bind].
  apply cp_hwinfo_init_spec in Hhw as (Hn & Hg & Hc); auto; [|apply Hpre|apply Hpre].
  destruct (cp_wgi_buf_init hw (b_wgi s)) as [w rc] eqn:Hw. bcase; [done|]. subst rc.
  destruct (cp_lmem_allocator_init (hw_limits hw) (b_lmem s)) as [l rcl] eqn:Hl.
  bcase; [done|]. subst rcl. intros H. injection H as <-. cbn [b_hw b_wgi b_lmem b_sms]. auto 10.
Qed.

(** The stack region of a buffer, without the wrap-arounds. *)
Lemma wg_stack_base_eq sms hw n wb sm :
  1 <= g_num_sm hw <= Z.of_nat FORMOSA_MAX_NUM_SM ->
  STACK_BASE < g_global_alloc_base hw < FSA_GLOBAL_MEM_BASE + FSA_GLOBAL_MEM_SIZE ->
  hw_checked sms (Z.to_nat (g_num_sm hw)) hw ->
  (forall t, t ∈ hw_threads hw ->
     t <= (g_global_alloc_base hw -% STACK_BASE) / PER_THREAD_STACK_SIZE / Z.of_nat n) ->
  (wb < n)%nat -> (sm < Z.to_nat (g_num_sm hw))%nat ->
  let tpc := THREADS_PER_CORE (sm_bank sms sm) in
  0 <= tpc ->
  wg_stack_base hw wb sm = Some (STACK_BASE + Z.of_nat wb * (tpc * PER_THREAD_STACK_SIZE)) /\
  STACK_BASE + (Z.of_nat wb + 1) * (tpc * PER_THREAD_STACK_SIZE) <= g_global_alloc_base hw.
Proof.
  intros Hn Hg (Hl & _ & Hall) Hthr Hwb Hsm tpc Htpc.
  destruct (Hall sm Hsm) as (Hnth & _). fold tpc in Hnth.
  assert (Hin : tpc ∈ hw_threads hw).
  { apply list_elem_of_lookup_2 with sm. unfold hw_threads. rewrite lookup_take_lt by done.
    destruct (list_lookup_total_lt (g_per_sm_threads hw) sm) as [x Hx]; [lia|].
    rewrite <- Hnth. by rewrite (nth_lookup_Some _ _ _ _ Hx). }
  specialize (Hthr _ Hin).
  unfold STACK_BASE, FSA_STACK_BASE, FSA_GLOBAL_MEM_BASE, FSA_GLOBAL_MEM_SIZE,
    PER_THREAD_STACK_SIZE, FSA_PER_THREAD_STACK_SIZE in *.
  rewrite wrap_small in Hthr by lia.
  assert (Hend : (Z.of_nat wb + 1) * (tpc * 0x800) <= g_global_alloc_base hw - 0x81000000).
  { set (G := g_global_alloc_base hw - 0x81000000) in *.
    assert (H1 : tpc * Z.of_nat n <= G / 0x800).
    { pose proof (Z.mul_div_le (G / 0x800) (Z.of_nat n)). nia. }
    pose proof (Z.mul_div_le G 0x800). nia. }
  assert (Hw : 0 <= Z.of_nat wb * tpc < 2 ^ 32) by nia.
  unfold wg_stack_base, cp_hwinfo_threads_per_core, validate_sm_id.
  rewrite (proj2 (Z.leb_gt _ _)) by lia. cbn [mbind option_bind]. rewrite Hnth.
  unfold STACK_BASE, FSA_STACK_BASE, PER_THREAD_STACK_SIZE, FSA_PER_THREAD_STACK_SIZE.
  rewrite (wrap_small 64 (Z.of_nat wb * tpc)) by lia.
  rewrite (wrap_small 64 (_ * 0x800)) by lia. rewrite wrap_small by lia. split; [f_equal; lia|lia].
Qed.

(** ** Properties *)

(** A boot that does not panic leaves every allocator ready: between 1 and 16
    SMs, each SM's local memory one free region with nothing live, every
    work-group buffer free, and every stack-remap table empty. In particular the
    local-memory initialisation cannot fail after the checks of [cp_hwinfo_init]. *)
Theorem main_init_establishes si s s' :
  system_info_ok si -> boot_pre s -> main_init si s = Some s' -> boot_ok s'.
Proof.
  intros Hsi Hpre Hm. destruct (main_init_parts _ _ _ Hsi Hpre Hm) as (Hn & _ & Hc & Hw & Hl & Hsms).
  destruct Hpre as [Hp1 Hp2 Hp3 Hp4 Hp5]. set (hw := b_hw s') in *.
  destruct (hw_limits_ok _ _ Hp5 Hn Hc) as [Hll Hlo].
  apply cp_wgi_buf_init_spec in Hw as (Hlen & Hfree & _); auto; [|apply Hc|].
  2: { eapply Forall_impl; [exact Hlo|]. unfold limit_ok. intros. lia. }
  pose proof (init_all_ok (hw_limits hw) (b_lmem s) Hlo) as Hli.
  rewrite Hl in Hli. destruct Hli as (_ & Hok & _ & Hempty); [lia|]. rewrite Hll in *.
  split; fold hw; auto.
  - split_and!; [simpl; lia|constructor|constructor|]. intros j Hj. simpl in *.
    rewrite Hfree by done. by rewrite elem_of_nil.
  - intros i Hi. destruct (for_range_map (fun b => default zero_sm (cp_stack_remap_reset (Some b)))
      zero_sm (Z.to_nat (g_num_sm hw)) (b_sms s)) as [_ Hj]; [destruct Hp5; lia|].
    rewrite Hsms. unfold sm_bank. rewrite Hj, decide_True by done. apply remap_reset_owns.
    destruct Hc as (_ & _ & Hall). apply validate_config_spec; [by eapply bank_at_ok|by apply Hall].
Qed.

(** The platform's default configuration: SMs of 16 warps of 4 threads. *)
Definition sample_bank : sm_mmio :=
  mkSmMmio 0 0 0 0 0 0 0 0 0 0 0 8 zero_cache_control zero_cache_control 64 8 64 (replicate 8 5).
Definition sample_info : system_info_mmio := mkSystemInfo 1 0x48 2 0x82000000.
Definition sample_boot : boot_state :=
  mkBoot zero_hwinfo (mkWgi (replicate (Z.to_nat wgi_capacity) zero_wgi) 0) fresh_sms
    (replicate 16 sample_bank).
Lemma sample_boot_pre : system_info_ok sample_info /\ boot_pre sample_boot.
Proof.
  split; [by split; vm_compute; split; congruence|].
  split; [reflexivity|reflexivity| |reflexivity|split; [reflexivity|]].
  { cbn [b_wgi sample_boot wgi_buf]. rewrite length_replicate. vm_compute. reflexivity. }
  apply Forall_replicate. unfold bank_ok, fits. simpl. split_and!; try lia. reflexivity.
Qed.

Lemma main_init_establishes_witness :
  exists s', main_init sample_info sample_boot = Some s' /\ wgi_buf_len (b_wgi s') = 16%nat /\ boot_ok s'.
Proof.
  destruct (main_init sample_info sample_boot) as [s'|] eqn:E.
  - exists s'. split; [reflexivity|]. split.
    + replace s' with (default sample_boot (main_init sample_info sample_boot)) by (rewrite E; reflexivity).
      vm_compute. reflexivity.
    + exact (main_init_establishes sample_info sample_boot s'
        (proj1 sample_boot_pre) (proj2 sample_boot_pre) E).
  - exfalso. assert (H : match main_init sample_info sample_boot with Some _ => true | None => false end = true)
      by (vm_compute; reflexivity). rewrite E in H. discriminate.
Defined.

(** C37. Stacks are private: after a successful boot, for every work-group buffer
    and every SM, the stack region the dispatcher gives to a work-group is
    computed without wrap-around, lies between STACK_BASE and the global
    allocations, and is accepted by the SM's stack-remap check, so the
    dispatcher's "Invalid stack remap configuration" panic is not reached; the
    regions of two buffers on SMs with the same thread count are disjoint. (On SMs with
    different thread counts they may overlap: the boot does not ask the counts to be the
    same.) *)
Theorem boot_stacks_private si s s' wb sm :
  system_info_ok si -> boot_pre s -> main_init si s = Some s' ->
  (wb < wgi_buf_len (b_wgi s'))%nat -> (sm < Z.to_nat (g_num_sm (b_hw s')))%nat ->
  let tpc := THREADS_PER_CORE (sm_bank (b_sms s) sm) in
  let size := tpc * PER_THREAD_STACK_SIZE in
  exists base, wg_stack_base (b_hw s') wb sm = Some base /\
    STACK_BASE <= base /\ base + size <= g_global_alloc_base (b_hw s') /\ 0 < size /\
    stack_base_is_aligned base tpc = true /\
    forall wb2 sm2 base2, (wb2 < wgi_buf_len (b_wgi s'))%nat -> wb2 <> wb ->
      (sm2 < Z.to_nat (g_num_sm (b_hw s')))%nat ->
      THREADS_PER_CORE (sm_bank (b_sms s) sm2) = tpc ->
      wg_stack_base (b_hw s') wb2 sm2 = Some base2 ->
      base + size <= base2 \/ base2 + size <= base.
Proof.
  intros Hsi Hpre Hm Hwb Hsm. cbv zeta.
  destruct (main_init_parts _ _ _ Hsi Hpre Hm) as (Hn & Hg & Hc & Hw & _ & _).
  assert (Hp5 := bp_banks _ Hpre). set (hw := b_hw s') in *.
  destruct (hw_limits_ok _ _ Hp5 Hn Hc) as [Hll Hlo].
  apply cp_wgi_buf_init_spec in Hw as (Hlen & _ & Hthr); auto; [|apply Hc| |apply Hpre].
  2: { eapply Forall_impl; [exact Hlo|]. unfold limit_ok. intros. lia. }
  assert (Hbank := bank_at_ok _ _ Hp5 Hn).
  assert (Hpos : forall i, (i < Z.to_nat (g_num_sm hw))%nat -> 0 <= THREADS_PER_CORE (sm_bank (b_sms s) i)).
  { intros i Hi. destruct (Hbank i Hi) as [Hf _]. apply Hf. }
  destruct (wg_stack_base_eq _ _ _ wb sm Hn Hg Hc Hthr Hwb Hsm (Hpos sm Hsm)) as [Heq Hend].
  set (tpc := THREADS_PER_CORE (sm_bank (b_sms s) sm)) in *.
  destruct (proj2 (proj2 Hc) sm Hsm) as (_ & _ & Hne & _ & Hv).
  apply validate_config_spec in Hv as (_ & _ & k & Hk & Hpow & Hdiv); [|by apply Hbank].
  fold tpc in Hne, Hpow. specialize (Hpos sm Hsm) as Htpc. fold tpc in Htpc.
  unfold PER_THREAD_STACK_SIZE in *. rewrite Hpow in *.
  assert (0 < 2 ^ k) by lia.
  unfold STACK_BASE, FSA_STACK_BASE, FSA_GLOBAL_MEM_BASE, FSA_GLOBAL_MEM_SIZE in *.
  eexists. split; [exact Heq|]. split_and!; [nia|lia|lia| |].
  - apply stack_base_is_aligned_spec; [unfold fits; nia|by apply Hbank|].
    exists k. split_and!; [lia|lia|done|nia|]. apply Z.divide_add_r; [done|].
    apply Z.divide_factor_r.
  - intros wb2 sm2 base2 Hwb2 Hne2 Hsm2 Htpc2 Hb2.
    destruct (wg_stack_base_eq _ _ _ wb2 sm2 Hn Hg Hc Hthr Hwb2 Hsm2 (Hpos sm2 Hsm2)) as [Heq2 _].
    rewrite Htpc2 in Heq2. fold tpc in Heq2.
    unfold STACK_BASE, FSA_STACK_BASE, PER_THREAD_STACK_SIZE in Heq2.
    rewrite Hpow, Hb2 in Heq2. injection Heq2 as ->. nia.
Qed.

Lemma boot_stacks_private_witness :
  exists s', main_init sample_info sample_boot = Some s' /\
    wg_stack_base (b_hw s') 3 1 = Some (STACK_BASE + 3 * 0x20000) /\
    stack_base_is_aligned (STACK_BASE + 3 * 0x20000) 64 = true.
Proof.
  destruct (main_init sample_info sample_boot) as [s'|] eqn:E.
  - exists s'. assert (Es : s' = default sample_boot (main_init sample_info sample_boot))
      by (rewrite E; reflexivity).
    destruct (boot_stacks_private sample_info sample_boot s' 3 1
      (proj1 sample_boot_pre) (proj2 sample_boot_pre) E) as (base & Hb & _ & _ & _ & Hal & _).
    + rewrite Es. vm_compute. lia.
    + rewrite Es. vm_compute. lia.
    + split; [reflexivity|].
      assert (Hb2 : wg_stack_base (b_hw s') 3 1 = Some (STACK_BASE + 3 * 0x20000))
        by (rewrite Es; vm_compute; reflexivity).
      split; [exact Hb2|]. rewrite Hb2 in Hb. injection Hb as <-. exact Hal.
  - exfalso. assert (H : match main_init sample_info sample_boot with Some _ => true | None => false end = true)
      by (vm_compute; reflexivity). rewrite E in H. discriminate.
Defined.
