(* ===== verification/Cache.v ===== *)
(** * Cache operations (fw/cp_cache.c, fw/cp_cache.h)

    One cache operation runs at a time on every SM. A task starts it, either with
    [cp_cache_operation_start] (the [cp_retire_cache] task retires it and publishes
    its token) or with [cp_cache_operation_start_and_wait] (the starter polls and
    retires it itself). The tasks are preemptive, so both are modelled one shared
    access at a time: a program counter per task, one step per load or store of
    [cache_state] or of an SM register, and a hardware step that finishes the
    operation of one cache controller. A store to START completes once the
    controller latched it (the non-posted stores cp_cache.h relies on), so a
    store is one step.

    Three history variables record what happened: [ran] the operations each cache
    controller has completed, [cur] the operation that is claimed and not yet
    retired, [retired] the operations retired so far. *)

From S2P Require Import Prelude AddrMap CommandAbi Platform Completion.

Record cp_cache_state := mkCacheState {
  pending : Z;
  started : Z;
  targets : Z;
  cs_completion_token : Z;
}.
Definition zero_cache_state : cp_cache_state := mkCacheState 0 0 0 0.

Definition kCacheTargetICache : Z := Z.shiftl 1 0.
Definition kCacheTargetDCache : Z := Z.shiftl 1 1.

Definition cp_cache_targets_for (mode : CacheOpMode) : Z :=
  Z.lor kCacheTargetDCache
    (if decide (mode = kCacheOpInvalidate) then kCacheTargetICache else 0).

Inductive cache_id := ICache | DCache.
#[global] Instance cache_id_eq_dec : EqDecision cache_id.
Proof. solve_decision. Defined.

Definition target_bit (c : cache_id) : Z :=
  match c with ICache => kCacheTargetICache | DCache => kCacheTargetDCache end.
(** [targets & bit], as a condition. *)
Definition targeted (ts : Z) (c : cache_id) : bool := negb (Z.land ts (target_bit c) =? 0).

(** The control registers of one cache of one SM. *)
Definition get_cc (sms : list sm_mmio) (i : nat) (c : cache_id) : cache_control :=
  match c with
  | ICache => ICACHE_CONTROL (nth i sms zero_sm)
  | DCache => DCACHE_CONTROL (nth i sms zero_sm)
  end.
Definition set_cc_bank (c : cache_id) (v : cache_control) (s : sm_mmio) : sm_mmio :=
  mkSmMmio (ENQ_VALID s) (ENQ_KERNEL_PC s) (ENQ_INFO_PTR s) (ENQ_NUM_THREADS s)
    (DEQ_VALID s) (DEQ_STATUS s) (DEQ_KERNEL_PC s) (DEQ_INFO_PTR s) (DEQ_MCAUSE s)
    (DEQ_MEPC s) (DEQ_MTVAL s) (WG_RESIDENT_LIMIT s)
    (match c with ICache => v | DCache => ICACHE_CONTROL s end)
    (match c with ICache => DCACHE_CONTROL s | DCache => v end)
    (THREADS_PER_CORE s) (STACK_REMAP_ENTRY_COUNT s) (STACK_REMAP_GROUP_SIZE s)
    (STACK_REMAP_TABLE s).
Definition set_cc (i : nat) (c : cache_id) (v : cache_control) (sms : list sm_mmio) : list sm_mmio :=
  <[i := set_cc_bank c v (nth i sms zero_sm)]> sms.

(** [sm_caches_busy]: the caches in [ts] of SM [i]. *)
Definition cc_busy (sms : list sm_mmio) (i : nat) (ts : Z) (c : cache_id) : bool :=
  targeted ts c && negb (CONTROL_START (get_cc sms i c) =? 0).
Definition sm_caches_busy (sms : list sm_mmio) (i : nat) (ts : Z) : bool :=
  cc_busy sms i ts ICache || cc_busy sms i ts DCache.

(** An operation a task asks for; [co_wait] selects the polling variant, which
    always passes token 0. *)
Record cache_op := mkCacheOp {
  cop_addr : Z;
  cop_size : Z;
  cop_mode : CacheOpMode;
  cop_targets : Z;
  cop_token : Z;
  cop_wait : bool;
}.

(** The four stores per cache, in program order. *)
Inductive cc_store := StAddr | StSize | StMode | StStart.
#[global] Instance cc_store_eq_dec : EqDecision cc_store.
Proof. solve_decision. Defined.

(** Program counter of the task that starts operations. *)
Inductive starter_pc :=
  | SIdle
  | SWaitFree (op : cache_op)                                (* CP_WAIT_UNTIL(pending == 0) *)
  | SClaimStarted (op : cache_op)
  | SClaimTargets (op : cache_op)
  | SClaimToken (op : cache_op)
  | SClaimPending (op : cache_op)
  | SStore (op : cache_op) (i : nat) (c : cache_id) (st : cc_store)
  | SMark (op : cache_op)                                    (* cache_state.started = 1 *)
  | SPoll (op : cache_op) (i : nat) (c : cache_id)           (* while (sm_caches_busy(..)) *)
  | SRelease (op : cache_op).                                (* cache_state.pending = 0 *)

(** Program counter of cp_retire_cache. *)
Inductive retire_pc :=
  | RPending
  | RStarted
  | RScan (i : nat) (c : cache_id)
  | RPublish
  | RClearToken
  | RClearPending.

Record cache_sys := mkCacheSys {
  cache_state : cp_cache_state;
  banks : list sm_mmio;
  pool : list Z;
  spc : starter_pc;
  rpc : retire_pc;
  ran : nat -> cache_id -> list (Z * Z * Z);
  cur : option cache_op;
  retired : list cache_op;
}.

(** ** cp_cache_handle_packet: validation of a host packet, [None] when the
    packet's token is failed instead of started. *)
Definition cache_range_invalid (p : CacheOperationPacket) : bool :=
  negb (co_size p =? 0) && ((co_addr p =? 0) || (UINT64_MAX - co_size p <? co_addr p)).
Definition cp_cache_handle_packet (p : CacheOperationPacket) (mode : CacheOpMode) : option cache_op :=
  if cache_range_invalid p then None else
  Some (mkCacheOp (co_addr p) (co_size p) mode (cp_cache_targets_for mode) (co_completion_token p) false).

Definition cp_cache_operation_pending (cs : cp_cache_state) : bool := negb (pending cs =? 0).

(** ** One step of the starting task *)

Section sys.
Context (num_sm : nat) (gen : Z).

Definition set_cs (cs : cp_cache_state) (pc : starter_pc) (s : cache_sys) : cache_sys :=
  mkCacheSys cs (banks s) (pool s) pc (rpc s) (ran s) (cur s) (retired s).
Definition goto (pc : starter_pc) (s : cache_sys) : cache_sys := set_cs (cache_state s) pc s.
Definition rgoto (pc : retire_pc) (s : cache_sys) : cache_sys :=
  mkCacheSys (cache_state s) (banks s) (pool s) (spc s) pc (ran s) (cur s) (retired s).

(** Where [start_on_every_sm] goes on SM [i]: the first store of a targeted
    cache, the next SM, or past the loop. *)
Definition after_stores (op : cache_op) : starter_pc :=
  if cop_wait op then (if (0 <? num_sm)%nat then SPoll op 0 ICache else SRelease op) else SMark op.
Definition next_sm (op : cache_op) (i : nat) : starter_pc :=
  if (i <? num_sm)%nat then SStore op i ICache StAddr else after_stores op.

Definition store_cc (op : cache_op) (st : cc_store) (v : cache_control) : cache_control :=
  match st with
  | StAddr => mkCacheControl (CONTROL_START v) (cop_addr op) (CONTROL_SIZE v) (CONTROL_MODE v)
  | StSize => mkCacheControl (CONTROL_START v) (CONTROL_ADDR v) (cop_size op) (CONTROL_MODE v)
  | StMode => mkCacheControl (CONTROL_START v) (CONTROL_ADDR v) (CONTROL_SIZE v)
                (CacheOpMode_code (cop_mode op))
  | StStart => mkCacheControl 1 (CONTROL_ADDR v) (CONTROL_SIZE v) (CONTROL_MODE v)
  end.
(** Program order after store [st] to cache [c] of SM [i]. *)
Definition after_cache (op : cache_op) (i : nat) (c : cache_id) : starter_pc :=
  match c with ICache => SStore op i DCache StAddr | DCache => next_sm op (S i) end.
Definition after_store (op : cache_op) (i : nat) (c : cache_id) (st : cc_store) : starter_pc :=
  match st with
  | StAddr => SStore op i c StSize
  | StSize => SStore op i c StMode
  | StMode => SStore op i c StStart
  | StStart => after_cache op i c
  end.
Definition after_poll (op : cache_op) (i : nat) (c : cache_id) : starter_pc :=
  match c with
  | ICache => SPoll op i DCache
  | DCache => if (S i <? num_sm)%nat then SPoll op (S i) ICache else SRelease op
  end.

Definition starter_step (s : cache_sys) : cache_sys :=
  let cs := cache_state s in
  match spc s with
  | SIdle => s
  | SWaitFree op => if pending cs =? 0 then goto (SClaimStarted op) s else s
  | SClaimStarted op =>
      set_cs (mkCacheState (pending cs) 0 (targets cs) (cs_completion_token cs)) (SClaimTargets op) s
  | SClaimTargets op =>
      set_cs (mkCacheState (pending cs) (started cs) (cop_targets op) (cs_completion_token cs))
        (SClaimToken op) s
  | SClaimToken op =>
      set_cs (mkCacheState (pending cs) (started cs) (targets cs)
                (if cop_wait op then 0 else cop_token op)) (SClaimPending op) s
  | SClaimPending op =>
      mkCacheSys (mkCacheState 1 (started cs) (targets cs) (cs_completion_token cs)) (banks s)
        (pool s) (next_sm op 0) (rpc s) (ran s) (Some op) (retired s)
  | SStore op i c st =>
      if targeted (cop_targets op) c then
        mkCacheSys cs (set_cc i c (store_cc op st (get_cc (banks s) i c)) (banks s)) (pool s)
          (after_store op i c st) (rpc s) (ran s) (cur s) (retired s)
      else goto (after_cache op i c) s
  | SMark op =>
      set_cs (mkCacheState (pending cs) 1 (targets cs) (cs_completion_token cs)) SIdle s
  | SPoll op i c =>
      (* a busy cache restarts the test of this SM *)
      if cc_busy (banks s) i (cop_targets op) c then goto (SPoll op i ICache) s
      else goto (after_poll op i c) s
  | SRelease op =>
      mkCacheSys (mkCacheState 0 (started cs) (targets cs) (cs_completion_token cs))
        (banks s) (pool s) SIdle (rpc s) (ran s) None (retired s ++ [op])
  end.

(** ** One step of cp_retire_cache *)
Definition after_scan (i : nat) (c : cache_id) : retire_pc :=
  match c with
  | ICache => RScan i DCache
  | DCache => if (S i <? num_sm)%nat then RScan (S i) ICache else RPublish
  end.
Definition retire_step (s : cache_sys) : cache_sys :=
  let cs := cache_state s in
  match rpc s with
  | RPending => if pending cs =? 0 then s else rgoto RStarted s
  | RStarted =>
      if started cs =? 0 then rgoto RPending s
      else rgoto (if (0 <? num_sm)%nat then RScan 0 ICache else RPublish) s
  | RScan i c =>
      if cc_busy (banks s) i (targets cs) c then rgoto RPending s else rgoto (after_scan i c) s
  | RPublish =>
      mkCacheSys cs (banks s)
        (if cs_completion_token cs =? 0 then pool s
         else cp_publish_completion gen (pool s) (cs_completion_token cs) FSA_COMPLETION_RESULT_SUCCESS)
        (spc s) RClearToken (ran s) (cur s) (retired s)
  | RClearToken =>
      mkCacheSys (mkCacheState (pending cs) (started cs) (targets cs) 0) (banks s) (pool s)
        (spc s) RClearPending (ran s) (cur s) (retired s)
  | RClearPending =>
      mkCacheSys (mkCacheState 0 (started cs) (targets cs) (cs_completion_token cs)) (banks s)
        (pool s) (spc s) RPending (ran s) None (retired s ++ option_list (cur s))
  end.

(** ** The cache controller finishes *)
Definition cc_args (v : cache_control) : Z * Z * Z := (CONTROL_ADDR v, CONTROL_SIZE v, CONTROL_MODE v).
Definition fupd_ran (r : nat -> cache_id -> list (Z * Z * Z)) (i : nat) (c : cache_id) (x : Z * Z * Z)
    : nat -> cache_id -> list (Z * Z * Z) :=
  fun j d => if decide (j = i /\ d = c) then r j d ++ [x] else r j d.
Definition hw_finish (i : nat) (c : cache_id) (s : cache_sys) : cache_sys :=
  let v := get_cc (banks s) i c in
  mkCacheSys (cache_state s)
    (set_cc i c (mkCacheControl 0 (CONTROL_ADDR v) (CONTROL_SIZE v) (CONTROL_MODE v)) (banks s))
    (pool s) (spc s) (rpc s) (fupd_ran (ran s) i c (cc_args v)) (cur s) (retired s).

(** The system: a task asks for an operation while the starter is idle, either
    task takes a step, or a busy cache of an SM finishes. *)
Inductive cache_step : cache_sys -> cache_sys -> Prop :=
| step_submit s op : spc s = SIdle -> cache_step s (goto (SWaitFree op) s)
| step_starter s : cache_step s (starter_step s)
| step_retire s : cache_step s (retire_step s)
| step_finish s i c : (i < num_sm)%nat -> CONTROL_START (get_cc (banks s) i c) <> 0 ->
    cache_step s (hw_finish i c s).

Inductive cache_reach (s0 : cache_sys) : cache_sys -> Prop :=
| reach_init : cache_reach s0 s0
| reach_step s s' : cache_reach s0 s -> cache_step s s' -> cache_reach s0 s'.

(** Boot: nothing pending, every cache idle. *)
Definition cache_init (s : cache_sys) : Prop :=
  cache_state s = zero_cache_state /\ spc s = SIdle /\ rpc s = RPending /\ cur s = None /\
  retired s = [] /\ (num_sm <= length (banks s))%nat /\
  (forall i c, (i < num_sm)%nat -> CONTROL_START (get_cc (banks s) i c) = 0 /\ ran s i c = []).

(** ** Invariant *)

Definition op_args (op : cache_op) : Z * Z * Z :=
  (cop_addr op, cop_size op, CacheOpMode_code (cop_mode op)).
(** The operations of a list that a cache takes part in, as it runs them. *)
Definition proj (c : cache_id) (ops : list cache_op) : list (Z * Z * Z) :=
  op_args <$> List.filter (fun op => targeted (cop_targets op) c) ops.

Definition cc_fresh (s : cache_sys) (i : nat) (c : cache_id) : Prop :=
  CONTROL_START (get_cc (banks s) i c) = 0 /\ ran s i c = proj c (retired s).
Definition cc_running (s : cache_sys) (op : cache_op) (i : nat) (c : cache_id) : Prop :=
  CONTROL_START (get_cc (banks s) i c) <> 0 /\
  cc_args (get_cc (banks s) i c) = op_args op /\ ran s i c = proj c (retired s).
Definition cc_done (s : cache_sys) (op : cache_op) (i : nat) (c : cache_id) : Prop :=
  CONTROL_START (get_cc (banks s) i c) = 0 /\ ran s i c = proj c (retired s) ++ [op_args op].

(** Whether the starter's position is past the START store of cache [c] of SM [i]. *)
Definition issued (pc : starter_pc) (i : nat) (c : cache_id) : bool :=
  match pc with
  | SStore _ j d _ => (i <? j)%nat || ((i =? j)%nat && bool_decide (c = ICache /\ d = DCache))
  | _ => true
  end.
Definition cc_inv (s : cache_sys) (op : cache_op) (i : nat) (c : cache_id) : Prop :=
  if targeted (cop_targets op) c && issued (spc s) i c
  then cc_done s op i c \/ cc_running s op i c
  else cc_fresh s i c.

(** The registers already written at a store position. *)
Definition stored (op : cache_op) (st : cc_store) (v : cache_control) : Prop :=
  match st with
  | StAddr => True
  | StSize => CONTROL_ADDR v = cop_addr op
  | StMode => CONTROL_ADDR v = cop_addr op /\ CONTROL_SIZE v = cop_size op
  | StStart => cc_args v = op_args op
  end.

(** Which positions the starter can be at while [op] is claimed. *)
Definition starter_ok (s : cache_sys) (op : cache_op) : Prop :=
  match spc s with
  | SStore op' i c st => op' = op /\ (i < num_sm)%nat /\ started (cache_state s) = 0 /\
      stored op st (get_cc (banks s) i c) /\ (st <> StAddr -> targeted (cop_targets op) c = true)
  | SMark op' => op' = op /\ started (cache_state s) = 0 /\ cop_wait op = false
  | SPoll op' i c => op' = op /\ (i < num_sm)%nat /\ started (cache_state s) = 0 /\ cop_wait op = true /\
      (forall j d, (j < i)%nat \/ (j = i /\ c = DCache /\ d = ICache) -> cc_busy (banks s) j (cop_targets op) d = false)
  | SRelease op' => op' = op /\ started (cache_state s) = 0 /\ cop_wait op = true /\
      (forall j d, (j < num_sm)%nat -> cc_busy (banks s) j (cop_targets op) d = false)
  | SIdle | SWaitFree _ => started (cache_state s) = 1 /\ cop_wait op = false
  | _ => False
  end.

(** What the retire task has established at its position. *)
Definition retire_ok (s : cache_sys) (op : cache_op) : Prop :=
  match rpc s with
  | RPending | RStarted => True
  | RScan i c => started (cache_state s) = 1 /\ (i < num_sm)%nat /\
      (forall j d, (j < i)%nat \/ (j = i /\ c = DCache /\ d = ICache) -> cc_busy (banks s) j (cop_targets op) d = false)
  | RPublish | RClearToken | RClearPending => started (cache_state s) = 1 /\
      (forall j d, (j < num_sm)%nat -> cc_busy (banks s) j (cop_targets op) d = false)
  end.

Definition claiming (pc : starter_pc) : Prop :=
  match pc with
  | SIdle | SWaitFree _ | SClaimStarted _ | SClaimTargets _ | SClaimToken _ | SClaimPending _ => True
  | _ => False
  end.
(** What the claim has written before it sets [pending]. *)
Definition claim_ok (s : cache_sys) : Prop :=
  let cs := cache_state s in
  match spc s with
  | SClaimTargets _ => started cs = 0
  | SClaimToken op => started cs = 0 /\ targets cs = cop_targets op
  | SClaimPending op => started cs = 0 /\ targets cs = cop_targets op /\
      cs_completion_token cs = (if cop_wait op then 0 else cop_token op)
  | _ => True
  end.

Record cache_inv (s : cache_sys) : Prop := {
  ci_len : (num_sm <= length (banks s))%nat;
  ci_cur : match cur s with
    | None => pending (cache_state s) = 0 /\ claiming (spc s) /\ claim_ok s /\
        (rpc s = RPending \/ (rpc s = RStarted /\ started (cache_state s) = 0)) /\
        forall i c, (i < num_sm)%nat -> cc_fresh s i c
    | Some op => pending (cache_state s) = 1 /\ targets (cache_state s) = cop_targets op /\
        (rpc s <> RClearPending ->
           cs_completion_token (cache_state s) = (if cop_wait op then 0 else cop_token op)) /\
        starter_ok s op /\ retire_ok s op /\
        forall i c, (i < num_sm)%nat -> cc_inv s op i c
    end;
}.

(** ** Preservation *)

Lemma get_set_cc sms i c v j d :
  (i < length sms)%nat ->
  get_cc (set_cc i c v sms) j d = if decide (j = i /\ d = c) then v else get_cc sms j d.
Proof using Type.
  intros Hi. unfold get_cc, set_cc. rewrite nth_insert by done.
  destruct (decide (j = i)) as [->|Hj].
  - destruct d, c; simpl; case_decide as Hd; try done; by destruct Hd.
  - rewrite decide_False by naive_solver. done.
Qed.

Lemma length_set_cc sms i c v : length (set_cc i c v sms) = length sms.
Proof using Type. apply length_insert. Qed.

Lemma proj_snoc c ops op :
  proj c (ops ++ [op]) = proj c ops ++ (if targeted (cop_targets op) c then [op_args op] else []).
Proof using Type.
  unfold proj. rewrite List.filter_app, fmap_app. simpl. by destruct (targeted _ _).
Qed.

(** A targeted cache that reads idle after its START store has run. *)
Lemma cc_inv_idle s op i c :
  cc_inv s op i c -> issued (spc s) i c = true -> cc_busy (banks s) i (cop_targets op) c = false ->
  ran s i c = proj c (retired s ++ [op]) /\ CONTROL_START (get_cc (banks s) i c) = 0.
Proof using Type.
  unfold cc_inv, cc_busy. intros H Hi Hb. rewrite Hi, andb_true_r in H. rewrite proj_snoc.
  destruct (targeted (cop_targets op) c); simpl in *.
  - bprop. destruct H as [[? ?]|(? & _)]; done.
  - destruct H as [H1 H2]. by rewrite app_nil_r.
Qed.

(** Moving a program counter where nothing else changes. *)
Lemma cc_inv_goto s s' op i c :
  cc_inv s op i c -> banks s' = banks s -> ran s' = ran s -> retired s' = retired s ->
  issued (spc s') i c = issued (spc s) i c -> cc_inv s' op i c.
Proof using Type.
  unfold cc_inv, cc_done, cc_running, cc_fresh. intros H -> -> -> ->. done.
Qed.

(** A cache that is not targeted is idle whatever the position. *)
Lemma cc_inv_untargeted s s' op i c :
  cc_inv s op i c -> targeted (cop_targets op) c = false ->
  banks s' = banks s -> ran s' = ran s -> retired s' = retired s -> cc_inv s' op i c.
Proof using Type.
  unfold cc_inv, cc_fresh. intros H Hc Hb Hr Hd. rewrite Hc in *. by rewrite Hb, Hr, Hd.
Qed.

Section steps.
Context (Hnum : (0 < num_sm)%nat) (s : cache_sys) (Hinv : cache_inv s).

(** The stores of the loop: what changes for each cache. *)
Lemma cc_inv_store op i c st pc' :
  spc s = SStore op i c st -> cur s = Some op -> (i < num_sm)%nat -> st <> StStart ->
  issued pc' = issued (spc s) ->
  let s' := mkCacheSys (cache_state s) (set_cc i c (store_cc op st (get_cc (banks s) i c)) (banks s))
              (pool s) pc' (rpc s) (ran s) (cur s) (retired s) in
  forall j d, (j < num_sm)%nat -> cc_inv s' op j d.
Proof using Hnum Hinv.
  intros Hpc Hcur Hi Hst Hiss s' j d Hj. destruct Hinv as [Hlen Hc]. rewrite Hcur in Hc.
  destruct Hc as (_ & _ & _ & _ & _ & Hall). specialize (Hall j d Hj).
  unfold cc_inv, cc_done, cc_running, cc_fresh in *. cbn [spc banks ran retired s'] in *.
  rewrite Hiss. rewrite get_set_cc by lia. case_decide as E; [|done]. destruct E as [-> ->].
  assert (Hni : issued (spc s) i c = false).
  { rewrite Hpc. simpl. rewrite Nat.ltb_irrefl, Nat.eqb_refl. destruct c; simpl; done. }
  rewrite Hni, andb_false_r in *. destruct Hall as [H0 ?]. split; [|done]. by destruct st.
Qed.

Lemma cc_inv_start op i c pc' :
  spc s = SStore op i c StStart -> cur s = Some op -> (i < num_sm)%nat ->
  targeted (cop_targets op) c = true -> cc_args (get_cc (banks s) i c) = op_args op ->
  (forall j d, (j < num_sm)%nat -> issued pc' j d = issued (spc s) j d || bool_decide (j = i /\ d = c)) ->
  let s' := mkCacheSys (cache_state s) (set_cc i c (store_cc op StStart (get_cc (banks s) i c)) (banks s))
              (pool s) pc' (rpc s) (ran s) (cur s) (retired s) in
  forall j d, (j < num_sm)%nat -> cc_inv s' op j d.
Proof using Hnum Hinv.
  intros Hpc Hcur Hi Ht Hargs Hiss s' j d Hj. destruct Hinv as [Hlen Hc]. rewrite Hcur in Hc.
  destruct Hc as (_ & _ & _ & _ & _ & Hall). specialize (Hall j d Hj).
  unfold cc_inv, cc_done, cc_running, cc_fresh in *. cbn [spc banks ran retired s'] in *.
  rewrite (Hiss j d Hj). rewrite get_set_cc by lia.
  destruct (decide (j = i /\ d = c)) as [[-> ->]|E].
  - assert (Hni : issued (spc s) i c = false).
    { rewrite Hpc. simpl. rewrite Nat.ltb_irrefl, Nat.eqb_refl. destruct c; simpl; done. }
    rewrite Hni, andb_false_r in Hall. rewrite bool_decide_true, orb_true_r, Ht by done. simpl.
    right. split_and!; [done|exact Hargs|apply Hall].
  - rewrite bool_decide_false, orb_false_r by done. done.
Qed.

(** Positions after the last store of a cache. *)
Lemma issued_after_cache op i c st j d :
  spc s = SStore op i c st -> (i < num_sm)%nat -> (j < num_sm)%nat ->
  issued (after_cache op i c) j d = issued (spc s) j d || bool_decide (j = i /\ d = c).
Proof using Hnum.
  intros Hpc Hi Hj. rewrite Hpc. unfold after_cache, next_sm, after_stores. destruct c; simpl.
  - destruct (Nat.ltb_spec j i), (Nat.eqb_spec j i), d; simpl; try lia; subst;
      rewrite ?(bool_decide_true (_ /\ _)), ?(bool_decide_false (_ /\ _)) by naive_solver; done.
  - destruct (Nat.ltb_spec (S i) num_sm); simpl.
    + destruct (Nat.ltb_spec j (S i)), (Nat.ltb_spec j i), (Nat.eqb_spec j i), (Nat.eqb_spec j (S i)), d;
        simpl; try lia; subst;
        rewrite ?(bool_decide_true (_ /\ _)), ?(bool_decide_false (_ /\ _)) by naive_solver; done.
    + assert (He : issued (if cop_wait op
          then if (0 <? num_sm)%nat then SPoll op 0 ICache else SRelease op else SMark op) j d = true)
        by (by repeat bcase). rewrite He.
      destruct (Nat.ltb_spec j i), (Nat.eqb_spec j i), d; simpl; try lia; subst;
        rewrite ?(bool_decide_true (_ /\ _)), ?(bool_decide_false (_ /\ _)) by naive_solver; done.
Qed.

Lemma starter_ok_after_cache op i c s' :
  spc s' = after_cache op i c -> (i < num_sm)%nat -> started (cache_state s') = 0 ->
  starter_ok s' op.
Proof using Hnum.
  intros Hpc Hi Hst. unfold starter_ok. rewrite Hpc. unfold after_cache, next_sm, after_stores.
  destruct c; simpl; [by split_and!|]. bcase; simpl.
  - split_and!; auto; done.
  - bcase; simpl; [|done]. rewrite (proj2 (Nat.ltb_lt _ _)) by done. simpl.
    split_and!; auto. intros j d [Hj|(_ & Hj & _)]; [lia|done].
Qed.

(** With [started] clear, the retire task has not begun to retire. *)
Lemma retire_ok_unstarted op s' :
  retire_ok s op -> started (cache_state s) = 0 -> rpc s' = rpc s ->
  retire_ok s' op /\ (rpc s' <> RClearPending) /\ (rpc s = RPending \/ rpc s = RStarted).
Proof using Type.
  unfold retire_ok. intros H H0 ->. destruct (rpc s); try (split_and!; auto; fail);
    destruct H as [H _]; rewrite H0 in H; done.
Qed.

Lemma stored_next op st i c v :
  stored op st v -> st <> StStart ->
  exists st', after_store op i c st = SStore op i c st' /\ stored op st' (store_cc op st v) /\ st' <> StAddr.
Proof using Type.
  intros H Hne. destruct st; [exists StSize|exists StMode|exists StStart|done]; simpl in *.
  - done.
  - by split_and!.
  - destruct H as [? ?]. split_and!; auto. unfold cc_args, op_args. simpl. congruence.
Qed.

Lemma inv_starter_store op i c st :
  spc s = SStore op i c st -> cache_inv (starter_step s).
Proof using Hnum Hinv.
  intros Hpc. assert (Hi := Hinv). destruct Hi as [Hlen Hc]. unfold starter_step. rewrite Hpc.
  destruct (cur s) as [op'|] eqn:Hcur; [|by destruct Hc as (_ & Hcl & _); rewrite Hpc in Hcl].
  destruct Hc as (Hp & Ht & Htok & Hs & Hr & Hall).
  assert (Hs' := Hs). unfold starter_ok in Hs'. rewrite Hpc in Hs'.
  destruct Hs' as (-> & Hii & Hst & Hstored & Htg).
  destruct (targeted (cop_targets op') c) eqn:Etg.
  - set (s' := mkCacheSys _ _ _ _ _ _ _ _).
    destruct (retire_ok_unstarted op' s' Hr Hst eq_refl) as (Hr' & Hnr & _).
    split; [cbn [banks s']; by rewrite length_set_cc|]. cbn [cur s']. rewrite ?Hcur.
    split_and!; auto.
    + destruct (decide (st = StStart)) as [->|Hne]; [by eapply (starter_ok_after_cache _ i c)|].
      unfold starter_ok. cbn [spc s' banks cache_state]. rewrite Hst.
      destruct (stored_next op' st i c _ Hstored Hne) as (st' & -> & Hnext & Hne').
      rewrite get_set_cc, decide_True by (done || lia). by split_and!.
    + destruct st; try (eapply (cc_inv_store op' i c); eauto; rewrite Hpc; done).
      eapply (cc_inv_start op' i c); eauto. intros j d Hj.
      apply (issued_after_cache _ i c StStart); done.
  - set (s' := goto _ _).
    destruct (retire_ok_unstarted op' s' Hr Hst eq_refl) as (Hr' & Hnr & _).
    split; [done|]. cbn [cur s' goto set_cs]. rewrite ?Hcur. split_and!; auto.
    + eapply (starter_ok_after_cache _ i c); done.
    + intros j d Hj. specialize (Hall j d Hj).
      destruct (decide (d = c)) as [->|Hd]; [by eapply cc_inv_untargeted|].
      eapply cc_inv_goto; eauto. cbn [spc s' goto set_cs].
      rewrite (issued_after_cache _ _ _ _ _ _ Hpc) by done.
      rewrite bool_decide_false by naive_solver. apply orb_false_r.
Qed.

(** The positions of a claim. *)
Lemma inv_starter_claim :
  claiming (spc s) -> cur s = None -> cache_inv (starter_step s).
Proof using Hnum Hinv.
  intros Hcl Hcur. assert (Hi := Hinv). destruct Hi as [Hlen Hc]. rewrite Hcur in Hc.
  destruct Hc as (Hp & _ & Hco & Hr & Hall). unfold starter_step, claim_ok in *.
  destruct (spc s) as [|op|op|op|op|op| | | |] eqn:Hpc; try done.
  - rewrite Hp. simpl. split; [done|]. simpl. rewrite ?Hcur. by split_and!.
  - split; [done|]. simpl. rewrite ?Hcur. split_and!; try done. simpl. destruct Hr as [?|[? _]]; auto.
  - split; [done|]. simpl. rewrite ?Hcur. split_and!; try done; simpl; auto.
  - split; [done|]. simpl. rewrite ?Hcur. destruct Hco as [? ?]. split_and!; try done; simpl; auto.
  - destruct Hco as (Hst & Htg & Htok). split; [done|]. simpl.
    unfold next_sm. rewrite (proj2 (Nat.ltb_lt _ _)) by done.
    split; [done|]. split; [done|]. split; [done|]. split; [by unfold starter_ok|]. split.
    + unfold retire_ok. simpl. destruct Hr as [->|[-> _]]; done.
    + intros i c Hii. unfold cc_inv. cbn [spc].
      assert (Hni : issued (SStore op 0 ICache StAddr) i c = false) by (by destruct i, c).
      rewrite Hni, andb_false_r. by apply Hall.
Qed.

Lemma inv_starter_rest op :
  cur s = Some op ->
  match spc s with SStore _ _ _ _ => False | _ => True end -> cache_inv (starter_step s).
Proof using Hnum Hinv.
  intros Hcur Hns. assert (Hi := Hinv). destruct Hi as [Hlen Hc]. rewrite Hcur in Hc.
  destruct Hc as (Hp & Ht & Htok & Hs & Hr & Hall). unfold starter_step.
  assert (Hs' := Hs). unfold starter_ok in Hs'.
  destruct (spc s) as [|op'|op'|op'|op'|op'|op' i c st|op'|op' i c|op'] eqn:Hpc; try done.
  - by rewrite Hp.
  - destruct Hs' as (-> & Hst & Hw).
    destruct (retire_ok_unstarted op s Hr Hst eq_refl) as (_ & Hnr & Hrp).
    split; [done|]. simpl. rewrite ?Hcur. do 3 (split; [done|]).
    split; [by unfold starter_ok|split].
    + unfold retire_ok. simpl. by destruct Hrp as [-> | ->].
    + intros i c Hii. eapply cc_inv_goto; [by apply Hall|done..|]. simpl. by rewrite Hpc.
  - destruct Hs' as (-> & Hii & Hst & Hw & Hb).
    assert (Hkeep : forall pc', issued pc' = issued (SPoll op i c) ->
      (forall s', spc s' = pc' -> cache_state s' = cache_state s -> banks s' = banks s -> starter_ok s' op) ->
      cache_inv (goto pc' s)).
    { intros pc' Hiss Hok. split; [done|]. simpl. rewrite ?Hcur. do 3 (split; [done|]).
      split; [by apply Hok|]. split; [done|]. intros j d Hj. eapply cc_inv_goto; [by apply Hall|done..|]. simpl. by rewrite Hiss, Hpc. }
    destruct (cc_busy (banks s) i (cop_targets op) c) eqn:Eb.
    + apply Hkeep; [done|]. intros s' E1 E2 E3. unfold starter_ok. rewrite E1, E2, E3.
      split_and!; auto. intros j d [Hj|(_ & Hj & _)]; [|done]. apply Hb. by left.
    + unfold after_poll. destruct c.
      * apply Hkeep; [done|]. intros s' E1 E2 E3. unfold starter_ok. rewrite E1, E2, E3.
        split_and!; auto. intros j d [Hj|(-> & _ & ->)]; [apply Hb; by left|done].
      * assert (Hdone : forall j d, (j < S i)%nat -> cc_busy (banks s) j (cop_targets op) d = false).
        { intros j d Hj. destruct (decide (j = i)) as [->|]; [|apply Hb; left; lia].
          destruct d; [|done]. apply Hb. by right. }
        destruct (Nat.ltb_spec (S i) num_sm); apply Hkeep; try done;
          intros s' E1 E2 E3; unfold starter_ok; rewrite E1, E2, E3.
        -- split_and!; auto. intros j d [Hj|(_ & Hj & _)]; [|done]. by apply Hdone.
        -- split_and!; auto. intros j d Hj. apply Hdone. lia.
  - destruct Hs' as (-> & Hst & Hw & Hb). split; [done|]. simpl.
    destruct (retire_ok_unstarted op s Hr Hst eq_refl) as (_ & _ & Hrp).
    split_and!; try done.
    + destruct Hrp; auto.
    + intros i c Hii. destruct (cc_inv_idle s op i c) as [Hran H0]; auto.
      * by rewrite Hpc.
      * by split.
Qed.

Lemma inv_starter : cache_inv (starter_step s).
Proof using Hnum Hinv.
  destruct (cur s) as [op|] eqn:Hcur.
  - destruct (spc s) as [| | | | | |op' i c st| | |] eqn:Hpc;
      try (apply (inv_starter_rest op); [done|by rewrite Hpc]).
    by eapply inv_starter_store.
  - apply inv_starter_claim; [|done]. destruct Hinv as [_ Hc]. rewrite Hcur in Hc. apply Hc.
Qed.

Lemma inv_submit op : spc s = SIdle -> cache_inv (goto (SWaitFree op) s).
Proof using Hnum Hinv.
  intros Hpc. destruct Hinv as [Hlen Hc]. split; [done|]. simpl.
  destruct (cur s) as [op'|] eqn:Hcur.
  - destruct Hc as (? & ? & ? & Hs & ? & Hall). do 3 (split; [done|]).
    unfold starter_ok in *. rewrite Hpc in Hs. split; [done|]. split; [done|].
    intros i c Hii. eapply cc_inv_goto; [by apply Hall|done..|]. simpl. by rewrite Hpc.
  - destruct Hc as (? & _ & _ & Hr & Hall). by split_and!.
Qed.

(** The retire task while it only reads. *)
Lemma inv_rgoto op pc :
  cur s = Some op -> rpc s <> RClearPending -> (forall s', rpc s' = pc -> cache_state s' = cache_state s ->
    banks s' = banks s -> retire_ok s' op) -> cache_inv (rgoto pc s).
Proof using Hnum Hinv.
  intros Hcur Hnr Hok. destruct Hinv as [Hlen Hc]. rewrite Hcur in Hc.
  destruct Hc as (Hp & Ht & Htok & Hs & _ & Hall). split; [done|]. simpl. rewrite Hcur.
  do 2 (split; [done|]). split; [intros _; by apply Htok|]. split; [done|]. split; [by apply Hok|].
  intros i c Hii. by eapply cc_inv_goto; [by apply Hall|..].
Qed.

Lemma inv_retire_scan op i c :
  cur s = Some op -> rpc s = RScan i c -> cache_inv (retire_step s).
Proof using Hnum Hinv.
  intros Hcur Hpc. assert (Hi := Hinv). destruct Hi as [Hlen Hc]. rewrite Hcur in Hc.
  destruct Hc as (Hp & Ht & Htok & Hs & Hr & Hall). unfold retire_step, retire_ok in *.
  rewrite Hpc in *. destruct Hr as (Hst & Hii & Hb). rewrite Ht.
  destruct (cc_busy (banks s) i (cop_targets op) c) eqn:Eb.
  { apply (inv_rgoto op); [done|by rewrite Hpc|]. intros s' E1 E2 E3. unfold retire_ok. by rewrite E1. }
  unfold after_scan. destruct c.
  - apply (inv_rgoto op); [done|by rewrite Hpc|]. intros s' E1 E2 E3. unfold retire_ok.
    rewrite E1, E2, E3. split_and!; auto. intros j d [Hj|(-> & _ & ->)]; [apply Hb; by left|done].
  - assert (Hdone : forall j d, (j < S i)%nat -> cc_busy (banks s) j (cop_targets op) d = false).
    { intros j d Hj. destruct (decide (j = i)) as [->|]; [|apply Hb; left; lia].
      destruct d; [|done]. apply Hb. by right. }
    destruct (Nat.ltb_spec (S i) num_sm); (apply (inv_rgoto op); [done|by rewrite Hpc|]);
      intros s' E1 E2 E3; unfold retire_ok; rewrite E1, E2, E3.
    + split_and!; auto. intros j d [Hj|(_ & Hj & _)]; [|done]. by apply Hdone.
    + split; [done|]. intros j d Hj. apply Hdone. lia.
Qed.

(** When retiring, the starter is not in the middle of an operation. *)
Lemma retiring_starter op :
  cur s = Some op -> started (cache_state s) = 1 ->
  cop_wait op = false /\ (forall i c, issued (spc s) i c = true) /\ claiming (spc s) /\ claim_ok s.
Proof using Hnum Hinv.
  intros Hcur Hst. destruct Hinv as [_ Hc]. rewrite Hcur in Hc.
  destruct Hc as (_ & _ & _ & Hs & _). unfold starter_ok, claim_ok in *. rewrite Hst in Hs.
  by destruct (spc s); destruct_and?; split_and!.
Qed.

Lemma inv_retire : cache_inv (retire_step s).
Proof using Hnum Hinv.
  assert (Hi := Hinv). destruct Hi as [Hlen Hc]. unfold retire_step.
  destruct (cur s) as [op|] eqn:Hcur.
  2: { destruct Hc as (Hp & Hcl & Hco & Hr & Hall). destruct Hr as [Hpc|[Hpc Hst]]; rewrite Hpc.
       - by rewrite Hp.
       - rewrite Hst. simpl. split; [done|]. simpl. rewrite Hcur. by split_and!; auto. }
  assert (Hc' := Hc). destruct Hc' as (Hp & Ht & Htok & Hs & Hr & Hall).
  unfold retire_ok in Hr. destruct (rpc s) as [| |i c| | |] eqn:Hpc.
  - rewrite Hp. simpl. apply (inv_rgoto op); [done|by rewrite Hpc|]. intros s' E1 E2 E3.
    unfold retire_ok. by rewrite E1.
  - assert (Hg : forall pc, (forall s', rpc s' = pc -> cache_state s' = cache_state s ->
      banks s' = banks s -> retire_ok s' op) -> cache_inv (rgoto pc s)).
    { intros pc. apply inv_rgoto; [done|by rewrite Hpc]. }
    destruct (started (cache_state s) =? 0) eqn:E0; bprop.
    { apply Hg. intros s' E1 _ _. unfold retire_ok. by rewrite E1. }
    rewrite (proj2 (Nat.ltb_lt _ _)) by done. apply Hg. intros s' E1 E2 E3.
    unfold retire_ok. rewrite E1, E2, E3.
    assert (started (cache_state s) = 1).
    { unfold starter_ok in Hs. by destruct (spc s); destruct_and?. }
    split_and!; auto. intros j d [Hj|(_ & Hj & _)]; [lia|done].
  - pose proof (inv_retire_scan op i c Hcur Hpc) as H. unfold retire_step in H. by rewrite Hpc in H.
  - split; [done|]. simpl. rewrite ?Hcur. do 2 (split; [done|]).
    split; [intros _; by apply Htok|]. split; [done|]. split; [done|].
    intros j d Hj. by eapply cc_inv_goto; [by apply Hall|..].
  - split; [done|]. simpl. rewrite ?Hcur. do 2 (split; [done|]).
    split; [done|]. split; [done|]. split; [done|].
    intros j d Hj. by eapply cc_inv_goto; [by apply Hall|..].
  - destruct Hr as [Hst Hb]. destruct (retiring_starter op Hcur Hst) as (_ & Hiss & Hcl & Hco).
    split; [done|]. simpl. split_and!; auto. intros j d Hj.
    destruct (cc_inv_idle s op j d) as [? ?]; auto. by split.
Qed.

Lemma inv_finish i c :
  (i < num_sm)%nat -> CONTROL_START (get_cc (banks s) i c) <> 0 -> cache_inv (hw_finish i c s).
Proof using Hnum Hinv.
  intros Hi H0. assert (Hi' := Hinv). destruct Hi' as [Hlen Hc].
  assert (Hlt : (i < length (banks s))%nat) by lia.
  destruct (cur s) as [op|] eqn:Hcur.
  2: { destruct Hc as (_ & _ & _ & _ & Hall). by destruct (Hall i c Hi) as [? _]. }
  destruct Hc as (Hp & Ht & Htok & Hs & Hr & Hall).
  assert (Hrun : targeted (cop_targets op) c = true /\ issued (spc s) i c = true /\ cc_running s op i c).
  { specialize (Hall i c Hi). unfold cc_inv in Hall.
    destruct (targeted (cop_targets op) c), (issued (spc s) i c); simpl in Hall;
      try (by destruct Hall as [? _]). destruct Hall as [[? _]|?]; done. }
  destruct Hrun as (Htg & Hiss & _ & Hargs & Hran).
  assert (Hbusy : forall j d, cc_busy (banks s) j (cop_targets op) d = false ->
    cc_busy (banks (hw_finish i c s)) j (cop_targets op) d = false).
  { intros j d. unfold cc_busy. cbn [banks hw_finish]. rewrite get_set_cc by done.
    case_decide; [|done]. intros _. apply andb_false_r. }
  split; [cbn [banks hw_finish]; by rewrite length_set_cc|]. cbn [cur hw_finish]. rewrite Hcur.
  do 3 (split; [done|]). split; [|split].
  - unfold starter_ok in *. cbn [spc cache_state banks hw_finish]. destruct (spc s) eqn:Hpc; auto.
    + destruct Hs as (-> & ? & ? & Hstored & ?). split_and!; auto.
      rewrite get_set_cc by done. case_decide as E; [|done]. destruct E as [-> ->].
      simpl in Hiss. rewrite Nat.ltb_irrefl, Nat.eqb_refl in Hiss. simpl in Hiss. bprop.
      apply bool_decide_eq_true in Hiss as [-> ?]. done.
    + destruct_and! Hs. split_and!; auto; intros; apply Hbusy; auto.
    + destruct_and! Hs. split_and!; auto; intros; apply Hbusy; auto.
  - unfold retire_ok in *. cbn [rpc cache_state hw_finish].
    destruct (rpc s); destruct_and?; split_and?; auto; intros; apply Hbusy; auto.
  - intros j d Hj. specialize (Hall j d Hj). unfold cc_inv, cc_done, cc_running, cc_fresh in *.
    cbn [spc banks ran retired hw_finish]. rewrite get_set_cc by done. unfold fupd_ran.
    case_decide as E; [|done]. destruct E as [-> ->]. rewrite Htg, Hiss. simpl. left.
    by rewrite Hran, Hargs.
Qed.
End steps.

Lemma cache_reach_inv s0 s :
  (0 < num_sm)%nat -> cache_init s0 -> cache_reach s0 s -> cache_inv s.
Proof using Type.
  intros Hnum (Hcs & Hspc & Hrpc & Hcur & Hret & Hlen & Hall) Hr.
  induction Hr as [|s s' Hr IH Hstep].
  - split; [done|]. rewrite Hcur, Hcs, Hspc, Hrpc. do 2 (split; [done|]).
    split; [unfold claim_ok; by rewrite Hspc|]. split; [by left|]. intros i c Hi. destruct (Hall i c Hi) as [? Hran]. split; [done|]. by rewrite Hran, Hret.
  - destruct Hstep; [by apply inv_submit|by apply inv_starter|by apply inv_retire|by apply inv_finish].
Qed.

(** The retire task run alone over idle caches. *)
Lemma scan_runs k i s :
  (i + S k = num_sm)%nat -> rpc s = RScan i ICache ->
  (forall j d, (j < num_sm)%nat -> cc_busy (banks s) j (targets (cache_state s)) d = false) ->
  Nat.iter (2 * S k) retire_step s = rgoto RPublish s.
Proof using Type.
  revert i s. induction k as [|k IH]; intros i s Hk Hpc Hb.
  - simpl. unfold retire_step at 2. rewrite Hpc, Hb by lia. simpl.
    unfold retire_step. simpl. rewrite Hb by lia.
    by rewrite (proj2 (Nat.ltb_ge _ _)) by lia.
  - replace (2 * S (S k))%nat with (2 * S k + 2)%nat by lia. rewrite Nat.iter_add. simpl (Nat.iter 2 _ _).
    assert (Hs : retire_step (retire_step s) = rgoto (RScan (S i) ICache) s).
    { unfold retire_step at 2. rewrite Hpc, Hb by lia. unfold retire_step. simpl. rewrite Hb by lia.
      by rewrite (proj2 (Nat.ltb_lt _ _)) by lia. }
    rewrite Hs, (IH (S i)); [done|lia|done|done].
Qed.
End sys.

(** ** Running a schedule *)

Inductive cache_act := ASubmit (op : cache_op) | AStarter | ARetire | AFinish (i : nat) (c : cache_id).
Definition cache_act_step (num_sm : nat) (gen : Z) (a : cache_act) (s : cache_sys) : cache_sys :=
  match a with
  | ASubmit op => match spc s with SIdle => goto (SWaitFree op) s | _ => s end
  | AStarter => starter_step num_sm s
  | ARetire => retire_step num_sm gen s
  | AFinish i c =>
      if (i <? num_sm)%nat && negb (CONTROL_START (get_cc (banks s) i c) =? 0) then hw_finish i c s else s
  end.
Definition cache_run (num_sm : nat) (gen : Z) (acts : list cache_act) (s : cache_sys) : cache_sys :=
  foldl (fun s a => cache_act_step num_sm gen a s) s acts.

Lemma cache_run_reach num_sm gen acts s0 s :
  cache_reach num_sm gen s0 s -> cache_reach num_sm gen s0 (cache_run num_sm gen acts s).
Proof.
  revert s. induction acts as [|a acts IH]; intros s H; simpl; [done|]. apply IH.
  destruct a as [op| | |i c]; simpl.
  - destruct (spc s) eqn:E; try done. eapply reach_step; [done|]. by constructor.
  - eapply reach_step; [done|]. constructor.
  - eapply reach_step; [done|]. constructor.
  - bcase; [|done]. eapply reach_step; [done|]. by constructor.
Qed.

(** ** Properties *)

(** C31. Cache operations are exact: in every interleaving of a starting task, the
    retire task and the cache controllers, each controller of each SM has run the
    operations retired so far that target it, each once, in order and with the
    address, size and mode asked for, and at most the current operation besides;
    when nothing is pending, exactly the retired ones, and the controller is idle. *)
Theorem cache_ops_exact num_sm gen s0 s i c :
  (0 < num_sm)%nat -> cache_init num_sm s0 -> cache_reach num_sm gen s0 s -> (i < num_sm)%nat ->
  (ran s i c = proj c (retired s) \/
   exists op, cur s = Some op /\ targeted (cop_targets op) c = true /\
     ran s i c = proj c (retired s ++ [op])) /\
  (pending (cache_state s) = 0 ->
   ran s i c = proj c (retired s) /\ CONTROL_START (get_cc (banks s) i c) = 0).
Proof.
  intros Hnum H0 Hr Hi. destruct (cache_reach_inv _ _ _ _ Hnum H0 Hr) as [_ Hc].
  destruct (cur s) as [op|].
  - destruct Hc as (Hp & _ & _ & _ & _ & Hall). split; [|by rewrite Hp].
    specialize (Hall i c Hi). unfold cc_inv in Hall.
    destruct (targeted (cop_targets op) c) eqn:Et; simpl in Hall; [|left; apply Hall].
    destruct (issued (spc s) i c); [|left; apply Hall].
    destruct Hall as [[_ Hran]|(_ & _ & Hran)]; [|by left].
    right. exists op. split_and!; auto. by rewrite proj_snoc, Et.
  - destruct Hc as (_ & _ & _ & _ & Hall). destruct (Hall i c Hi) as [? ?]. auto.
Qed.

(** Two SMs; a host invalidate with token for slot 3, run to the end of its stores
    and finished on every cache. *)
Definition sample_token : Z := fsa_completion_token_make 1 1 3.
Definition sample_cop : cache_op :=
  mkCacheOp 4096 64 kCacheOpInvalidate (cp_cache_targets_for kCacheOpInvalidate) sample_token false.
Definition sample_sys : cache_sys :=
  mkCacheSys zero_cache_state [zero_sm; zero_sm]
    [0; 0; 0; sample_token - 3] SIdle RPending (fun _ _ => []) None [].
Definition sample_acts : list cache_act :=
  ASubmit sample_cop :: replicate 14 AStarter ++ [AFinish 0 ICache; ARetire; ARetire] ++
  replicate 8 AStarter ++ [ARetire; AFinish 0 DCache; AFinish 1 ICache; AFinish 1 DCache; ARetire].
Lemma sample_sys_init : cache_init 2 sample_sys.
Proof. split_and!; try done; try (vm_compute; lia). intros [|[|i]] [] Hi; done || lia. Qed.
Lemma sample_reach : cache_reach 2 1 sample_sys (cache_run 2 1 sample_acts sample_sys).
Proof. apply cache_run_reach, reach_init. Qed.

Lemma cache_ops_exact_witness :
  ran (cache_run 2 1 sample_acts sample_sys) 1 DCache = [(4096, 64, 2)] /\
  (ran (cache_run 2 1 sample_acts sample_sys) 1 DCache
   = proj DCache (retired (cache_run 2 1 sample_acts sample_sys)) \/
   exists op, cur (cache_run 2 1 sample_acts sample_sys) = Some op /\
     targeted (cop_targets op) DCache = true /\
     ran (cache_run 2 1 sample_acts sample_sys) 1 DCache
     = proj DCache (retired (cache_run 2 1 sample_acts sample_sys) ++ [op])).
Proof.
  split; [vm_compute; reflexivity|].
  apply (cache_ops_exact 2 1 sample_sys (cache_run 2 1 sample_acts sample_sys) 1 DCache);
    [lia|exact sample_sys_init|exact sample_reach|lia].
Defined.

(** A host's completion for a cache command is never early: the only step that
    writes the completion pool is the retire task's, it publishes success for the
    token of the current operation, and at that point every targeted cache of
    every SM has finished this operation. The polling variant, used before a
    kernel launch, publishes nothing. *)
Theorem cache_publish_after_done num_sm gen s0 s s' :
  (0 < num_sm)%nat -> cache_init num_sm s0 -> cache_reach num_sm gen s0 s ->
  cache_step num_sm gen s s' -> pool s' <> pool s ->
  exists op, cur s = Some op /\ cop_wait op = false /\ cop_token op <> 0 /\
    pool s' = cp_publish_completion gen (pool s) (cop_token op) FSA_COMPLETION_RESULT_SUCCESS /\
    forall i c, (i < num_sm)%nat ->
      CONTROL_START (get_cc (banks s) i c) = 0 /\ ran s i c = proj c (retired s ++ [op]).
Proof.
  intros Hnum H0 Hr Hstep Hne. pose proof (cache_reach_inv _ _ _ _ Hnum H0 Hr) as Hinv.
  destruct Hstep as [s op Hpc|s|s|s i c Hi Hs]; try done.
  { exfalso. apply Hne. unfold starter_step, goto, set_cs. destruct (spc s); simpl; repeat case_match; done. }
  unfold retire_step in *. destruct (rpc s) as [| |i c| | |] eqn:Hpc;
    try (exfalso; apply Hne; repeat case_match; done).
  destruct (cur s) as [op|] eqn:Hcur.
  2: { destruct Hinv as [_ Hc]. rewrite Hcur in Hc.
       destruct Hc as (_ & _ & _ & [H|[H _]] & _); by rewrite Hpc in H. }
  assert (Hc := ci_cur _ _ Hinv). rewrite Hcur in Hc.
  destruct Hc as (_ & _ & Htok & _ & Hro & Hall). unfold retire_ok in Hro. rewrite Hpc in Hro.
  destruct Hro as [Hst Hb].
  destruct (retiring_starter num_sm Hnum s Hinv op Hcur Hst) as (Hw & Hiss & _).
  simpl in *. rewrite Hw, Hpc in Htok. rewrite Htok in * by done.
  destruct (cop_token op =? 0) eqn:E0; [done|]. bprop. exists op. split_and!; auto.
  intros i c Hi. destruct (cc_inv_idle s op i c) as [? ?]; auto.
Qed.

Lemma cache_publish_after_done_witness :
  let s := cache_run 2 1 (sample_acts ++ replicate 4 ARetire) sample_sys in
  exists op, cur s = Some op /\ cop_wait op = false /\ cop_token op <> 0 /\
    pool (retire_step 2 1 s)
    = cp_publish_completion 1 (pool s) (cop_token op) FSA_COMPLETION_RESULT_SUCCESS /\
    forall i c, (i < 2)%nat ->
      CONTROL_START (get_cc (banks s) i c) = 0 /\ ran s i c = proj c (retired s ++ [op]).
Proof.
  intros s. apply (cache_publish_after_done 2 1 sample_sys s (retire_step 2 1 s)).
  - lia.
  - exact sample_sys_init.
  - apply cache_run_reach, reach_init.
  - apply step_retire.
  - vm_compute. congruence.
Defined.

(** A finished operation is retired: once an operation is marked started and
    every cache reads idle, 2 * num_sm + 5 steps of the retire task from the top
    of its loop clear [pending] and publish the token (when it has one). *)
Theorem cache_retire_progress num_sm gen s op :
  (0 < num_sm)%nat -> cache_inv num_sm s -> cur s = Some op -> rpc s = RPending ->
  started (cache_state s) = 1 ->
  (forall i c, (i < num_sm)%nat -> CONTROL_START (get_cc (banks s) i c) = 0) ->
  let s' := Nat.iter (2 * num_sm + 5) (retire_step num_sm gen) s in
  pending (cache_state s') = 0 /\ cur s' = None /\ retired s' = retired s ++ [op] /\
  pool s' = (if cop_token op =? 0 then pool s
             else cp_publish_completion gen (pool s) (cop_token op) FSA_COMPLETION_RESULT_SUCCESS).
Proof.
  intros Hnum Hinv Hcur Hpc Hst H0. cbv zeta. destruct num_sm as [|k]; [lia|].
  assert (Hc := ci_cur _ _ Hinv). rewrite Hcur in Hc. destruct Hc as (Hp & Ht & Htok & _).
  destruct (retiring_starter (S k) Hnum s Hinv op Hcur Hst) as (Hw & _).
  replace (2 * S k + 5)%nat with (3 + (2 * S k + 2))%nat by lia. rewrite !Nat.iter_add.
  assert (E2 : Nat.iter 2 (retire_step (S k) gen) s = rgoto (RScan 0 ICache) s).
  { simpl. unfold retire_step at 2. rewrite Hpc, Hp. unfold retire_step. simpl. by rewrite Hst. }
  rewrite E2, (scan_runs (S k) gen k 0); [|lia|done|].
  2: { intros j d Hj. unfold cc_busy. simpl. rewrite H0 by done. apply andb_false_r. }
  simpl. rewrite Hpc, Hw in Htok. rewrite Hcur, Htok by done. done.
Qed.

Lemma cache_retire_progress_witness :
  let s1 := cache_run 2 1 (ASubmit sample_cop :: replicate 23 AStarter ++
              [AFinish 0 ICache; AFinish 0 DCache; AFinish 1 ICache; AFinish 1 DCache]) sample_sys in
  pending (cache_state (Nat.iter 9 (retire_step 2 1) s1)) = 0.
Proof.
  intros s1. apply (cache_retire_progress 2 1 s1 sample_cop).
  - lia.
  - apply (cache_reach_inv 2 1 sample_sys); [lia|exact sample_sys_init|].
    apply cache_run_reach, reach_init.
  - vm_compute. reflexivity.
  - vm_compute. reflexivity.
  - vm_compute. reflexivity.
  - intros [|[|i]] [] Hi; try lia; vm_compute; reflexivity.
Defined.
