(* ===== verification/MemoryCopy.v ===== *)
(** * Memory copies (fw/cp_memory_copy.c, struct cp_memory_copy_state)

    [cp_memory_copy_submit] validates a packet and arms the copy;
    [cp_memory_copy_task] drives it through its phases: wait for preceding work,
    flush the device ranges, run the DMA engine, invalidate the destination. One
    iteration of the task's loop is one step. The state also holds what the task
    reads of the rest of the firmware and of the hardware: the firmware status and
    CP registers, the completion pool, both DMA engines, the tick counter, whether
    a kernel is active and who occupies the caches. [log] is a history variable:
    what the current copy has done so far. *)

From S2P Require Import Prelude AddrMap CommandAbi Platform Completion.

(** ** State *)

Inductive cp_memory_copy_phase :=
  | kMemoryCopyPhaseIdle
  | kMemoryCopyPhaseWaitPredecessor
  | kMemoryCopyPhaseFlushSource
  | kMemoryCopyPhaseFlushDestination
  | kMemoryCopyPhaseWaitDma
  | kMemoryCopyPhaseInvalidateDestination
  | kMemoryCopyPhaseDrainDma.
#[global] Instance cp_memory_copy_phase_eq_dec : EqDecision cp_memory_copy_phase.
Proof. solve_decision. Defined.

Record cp_memory_copy_state := mkMemoryCopyState {
  active : Z;
  phase : cp_memory_copy_phase;
  src_domain : Z;
  dst_domain : Z;
  src_addr : Z;
  dst_addr : Z;
  size : Z;
  mcs_completion_token : Z;
  phase_started_tick : Z;      (* uint32_t *)
}.
Definition zero_memory_copy_state : cp_memory_copy_state :=
  mkMemoryCopyState 0 kMemoryCopyPhaseIdle 0 0 0 0 0 0 0.

(** Who has a cache operation pending: nobody, an earlier command, this copy. *)
Inductive cache_user := CacheFree | CacheOther | CacheCopy.

Inductive mc_event :=
  | EvCacheStart (mode : CacheOpMode) (addr size : Z)
  | EvCacheDone
  | EvHostDma (addr0 addr1 size : Z)
  | EvDeviceDma (addr0 addr1 size : Z)
  | EvDmaEnd (status : Z)
  | EvFault (code : Z)
  | EvPublish (result : Z).

Record mc_sys := mkMcSys {
  m_state : cp_memory_copy_state;
  m_fw : fw_status_t;
  m_cp : cp_mmio;
  m_pool : list Z;
  m_host : dma_mmio;
  m_dev : dma_mmio;
  m_tick : Z;                  (* xTaskGetTickCount(), 64 bits on RV64 *)
  m_kernel : bool;
  m_cache : cache_user;
  m_galloc : Z;                (* cp_hwinfo_global_alloc_base() *)
  m_log : list mc_event;
}.

(** pdMS_TO_TICKS(5000) at 1000 ticks per second. *)
Definition CP_MEMORY_COPY_TIMEOUT_TICKS : Z := 5000.

(** ** Range checks *)

Definition range_in_window (address size base window_size : Z) : bool :=
  if (size =? 0) || (address <? base) then false else
  (address -% base <=? window_size) && (size <=? window_size -% (address -% base)).

Definition valid_memory_range (galloc address size : Z) : bool :=
  range_in_window address size FSA_ONCHIP_GMEM_BASE FSA_ONCHIP_GMEM_SIZE ||
  range_in_window address size FSA_NONCACHE_ALLOC_BASE FSA_NONCACHE_ALLOC_SIZE ||
  range_in_window address size galloc
    ((FSA_GLOBAL_MEM_BASE +% FSA_GLOBAL_MEM_SIZE) -% galloc).

Definition ranges_overlap (src dst size : Z) : bool :=
  if size =? 0 then false else
  if (UINT64_MAX - size <? src) || (UINT64_MAX - size <? dst) then true else
  let src_end := src +% size in
  let dst_end := dst +% size in
  negb ((src_end <=? dst) || (dst_end <=? src)).

Definition valid_memory_copy_domain_pair (src_domain dst_domain : Z) : bool :=
  ((src_domain =? kFsaMemoryDomainHost) && (dst_domain =? kFsaMemoryDomainDevice)) ||
  ((src_domain =? kFsaMemoryDomainDevice) &&
   ((dst_domain =? kFsaMemoryDomainHost) || (dst_domain =? kFsaMemoryDomainDevice))).

(** ** Setters *)

Definition set_mcs (st : cp_memory_copy_state) (s : mc_sys) : mc_sys :=
  mkMcSys st (m_fw s) (m_cp s) (m_pool s) (m_host s) (m_dev s) (m_tick s) (m_kernel s)
    (m_cache s) (m_galloc s) (m_log s).
Definition with_phase (p : cp_memory_copy_phase) (a : Z) (tick : Z) (st : cp_memory_copy_state)
    : cp_memory_copy_state :=
  mkMemoryCopyState a p (src_domain st) (dst_domain st) (src_addr st) (dst_addr st) (size st)
    (mcs_completion_token st) tick.
(** Write [phase] and [active]. *)
Definition set_phase (p : cp_memory_copy_phase) (a : Z) (s : mc_sys) : mc_sys :=
  set_mcs (with_phase p a (phase_started_tick (m_state s)) (m_state s)) s.
Definition note (e : mc_event) (s : mc_sys) : mc_sys :=
  mkMcSys (m_state s) (m_fw s) (m_cp s) (m_pool s) (m_host s) (m_dev s) (m_tick s) (m_kernel s)
    (m_cache s) (m_galloc s) (m_log s ++ [e]).

(** [cp_publish_completion] on the system. *)
Definition publish (token result : Z) (s : mc_sys) : mc_sys :=
  mkMcSys (m_state s) (m_fw s) (m_cp s)
    (cp_publish_completion (cp_firmware_boot_generation (m_fw s)) (m_pool s) token result)
    (m_host s) (m_dev s) (m_tick s) (m_kernel s) (m_cache s) (m_galloc s) (m_log s).

Definition complete_memory_copy (status : Z) (s : mc_sys) : mc_sys :=
  set_phase kMemoryCopyPhaseIdle 0
    (note (EvPublish (u16 status)) (publish (mcs_completion_token (m_state s)) (u16 status) s)).

Definition fail_memory_copy (status : Z) (s : mc_sys) : mc_sys :=
  let s := note (EvPublish (u16 status)) (publish (mcs_completion_token (m_state s)) (u16 status) s) in
  if decide (phase (m_state s) = kMemoryCopyPhaseWaitDma)
  then set_phase kMemoryCopyPhaseDrainDma (active (m_state s)) s
  else set_phase kMemoryCopyPhaseIdle 0 s.

Definition phase_timed_out (s : mc_sys) : bool :=
  if decide (phase (m_state s) = kMemoryCopyPhaseWaitPredecessor \/
             phase (m_state s) = kMemoryCopyPhaseDrainDma)
  then false
  else CP_MEMORY_COPY_TIMEOUT_TICKS <=? (m_tick s -% phase_started_tick (m_state s)).

Definition enter_phase (p : cp_memory_copy_phase) (s : mc_sys) : mc_sys :=
  set_mcs (with_phase p (active (m_state s)) (u32 (m_tick s)) (m_state s)) s.

Definition cp_cache_busy (s : mc_sys) : bool :=
  match m_cache s with CacheFree => false | _ => true end.
Definition cp_has_active_kernel_or_cache (s : mc_sys) : bool :=
  if cp_cache_busy s then true else m_kernel s.

(** [start_cache_operation]: the result is whether the operation started. With
    no operation pending the start itself does not wait. *)
Definition start_cache_operation (address sz : Z) (mode : CacheOpMode) (s : mc_sys) : mc_sys * bool :=
  if cp_cache_busy s then (s, false) else
  (note (EvCacheStart mode address sz)
     (mkMcSys (m_state s) (m_fw s) (m_cp s) (m_pool s) (m_host s) (m_dev s) (m_tick s) (m_kernel s)
        CacheCopy (m_galloc s) (m_log s)), true).

Definition uses_device_source (s : mc_sys) : bool := src_domain (m_state s) =? kFsaMemoryDomainDevice.
Definition uses_device_destination (s : mc_sys) : bool := dst_domain (m_state s) =? kFsaMemoryDomainDevice.

(** Storing START = 1 makes an engine with a non-zero size busy. *)
Definition dma_started (a0 a1 sz : Z) : dma_mmio := mkDma 1 a0 a1 sz kDmaStatusBusy.

Definition start_device_dma (s : mc_sys) : mc_sys :=
  let st := m_state s in
  note (EvDeviceDma (src_addr st) (dst_addr st) (s64 (size st)))
    (mkMcSys st (m_fw s) (m_cp s) (m_pool s) (m_host s)
       (dma_started (src_addr st) (dst_addr st) (s64 (size st)))
       (m_tick s) (m_kernel s) (m_cache s) (m_galloc s) (m_log s)).

Definition start_host_dma (s : mc_sys) : mc_sys :=
  let st := m_state s in
  let host_to_device := src_domain st =? kFsaMemoryDomainHost in
  let host_addr := if host_to_device then src_addr st else dst_addr st in
  let device_addr := if host_to_device then dst_addr st else src_addr st in
  let sz := if host_to_device then s64 (size st) else - s64 (size st) in
  note (EvHostDma host_addr device_addr sz)
    (mkMcSys st (m_fw s) (m_cp s) (m_pool s) (dma_started host_addr device_addr sz)
       (m_dev s) (m_tick s) (m_kernel s) (m_cache s) (m_galloc s) (m_log s)).

Definition cp_memory_copy_is_active (s : mc_sys) : bool := negb (active (m_state s) =? 0).

Definition dma_terminal (status : Z) : bool :=
  (status =? kDmaStatusIdle) || (status =? kDmaStatusDone) || (status =? kDmaStatusBusError) ||
  (status =? kDmaStatusInvalidDescriptor).
Definition cp_memory_copy_dma_is_idle (s : mc_sys) : bool :=
  dma_terminal (DMA_STATUS (m_host s)) && dma_terminal (DMA_STATUS (m_dev s)).

(** ** cp_memory_copy_submit

    [copy_verdict] is the validation: [None] accepts, [Some r] is the result it
    publishes instead. *)
Definition copy_verdict (s : mc_sys) (p : MemoryCopyPacket) : option Z :=
  if cp_memory_copy_is_active s then Some kFsaMemoryCopyStatusInternalError else
  if negb (cp_firmware_is_ready (m_fw s)) ||
     negb (fsa_completion_token_boot_generation (mc_completion_token p)
           =? u16 (cp_firmware_boot_generation (m_fw s)))
  then Some kFsaMemoryCopyStatusNotReady else
  if negb (valid_memory_copy_domain_pair (mc_src_domain p) (mc_dst_domain p))
  then Some kFsaMemoryCopyStatusInvalidDomainPair else
  let src_is_device := mc_src_domain p =? kFsaMemoryDomainDevice in
  let dst_is_device := mc_dst_domain p =? kFsaMemoryDomainDevice in
  let size_is_zero := mc_size p =? 0 in
  let host_address_valid :=
    size_is_zero ||
    negb ((if mc_src_domain p =? kFsaMemoryDomainHost then mc_src_addr p else mc_dst_addr p) =? 0) in
  let device_address_valid :=
    size_is_zero ||
    ((negb src_is_device || valid_memory_range (m_galloc s) (mc_src_addr p) (mc_size p)) &&
     (negb dst_is_device || valid_memory_range (m_galloc s) (mc_dst_addr p) (mc_size p))) in
  let size_valid := mc_size p <=? INT64_MAX in
  let address_valid := host_address_valid && device_address_valid && size_valid in
  let overlap := src_is_device && dst_is_device &&
                 ranges_overlap (mc_src_addr p) (mc_dst_addr p) (mc_size p) in
  if negb address_valid || overlap then
    Some (if negb address_valid
          then (if negb host_address_valid then kFsaMemoryCopyStatusInvalidAddress
                else kFsaMemoryCopyStatusInvalidRange)
          else kFsaMemoryCopyStatusOverlap)
  else None.

Definition cp_memory_copy_submit (packet : option MemoryCopyPacket) (s : mc_sys) : mc_sys :=
  match packet with
  | None => s
  | Some p =>
      match copy_verdict s p with
      | Some r => publish (mc_completion_token p) r s
      | None =>
          let st := m_state s in
          let st := mkMemoryCopyState (active st) (phase st) (mc_src_domain p) (mc_dst_domain p)
                      (mc_src_addr p) (mc_dst_addr p) (mc_size p) (mc_completion_token p)
                      (phase_started_tick st) in
          let s := enter_phase kMemoryCopyPhaseWaitPredecessor (set_mcs st s) in
          let s := set_mcs (with_phase (phase (m_state s)) 1 (phase_started_tick (m_state s)) (m_state s)) s in
          (* the history starts over *)
          mkMcSys (m_state s) (m_fw s) (m_cp s) (m_pool s) (m_host s) (m_dev s) (m_tick s)
            (m_kernel s) (m_cache s) (m_galloc s) []
      end
  end.

(** ** One iteration of cp_memory_copy_task *)

Definition fault (code : Z) (s : mc_sys) : mc_sys :=
  let '(fw, cp) := cp_firmware_status_fault code (m_fw s) (m_cp s) in
  note (EvFault code)
    (mkMcSys (m_state s) fw cp (m_pool s) (m_host s) (m_dev s) (m_tick s) (m_kernel s) (m_cache s)
       (m_galloc s) (m_log s)).

(** Start a cache operation and enter [p] when it started. *)
Definition start_then (address sz : Z) (mode : CacheOpMode) (p : cp_memory_copy_phase) (s : mc_sys)
    : mc_sys :=
  let '(s1, ok) := start_cache_operation address sz mode s in
  if ok then enter_phase p s1 else s1.

Definition task_wait_predecessor (s : mc_sys) : mc_sys :=
  if cp_has_active_kernel_or_cache s then s else
  if size (m_state s) =? 0 then complete_memory_copy FSA_COMPLETION_RESULT_SUCCESS s else
  if uses_device_source s then
    start_then (src_addr (m_state s)) (size (m_state s)) kCacheOpFlush kMemoryCopyPhaseFlushSource s
  else if uses_device_destination s then
    start_then (dst_addr (m_state s)) (size (m_state s)) kCacheOpFlush kMemoryCopyPhaseFlushDestination s
  else enter_phase kMemoryCopyPhaseWaitDma (start_host_dma s).

Definition task_flush_source (s : mc_sys) : mc_sys :=
  if cp_cache_busy s then s else
  if uses_device_destination s then
    start_then (dst_addr (m_state s)) (size (m_state s)) kCacheOpFlush kMemoryCopyPhaseFlushDestination s
  else enter_phase kMemoryCopyPhaseWaitDma (start_host_dma s).

Definition task_flush_destination (s : mc_sys) : mc_sys :=
  if cp_cache_busy s then s else
  enter_phase kMemoryCopyPhaseWaitDma
    (if uses_device_source s && uses_device_destination s then start_device_dma s
     else start_host_dma s).

Definition transfer_status (s : mc_sys) : Z :=
  if uses_device_source s && uses_device_destination s
  then DMA_STATUS (m_dev s) else DMA_STATUS (m_host s).

Definition task_wait_dma (s : mc_sys) : mc_sys :=
  if transfer_status s =? kDmaStatusDone then
    if negb (uses_device_destination s) then complete_memory_copy FSA_COMPLETION_RESULT_SUCCESS s
    else start_then (dst_addr (m_state s)) (size (m_state s)) kCacheOpInvalidate
           kMemoryCopyPhaseInvalidateDestination s
  else if transfer_status s =? kDmaStatusBusError
  then complete_memory_copy kFsaMemoryCopyStatusDmaBusError s
  else if transfer_status s =? kDmaStatusInvalidDescriptor
  then complete_memory_copy kFsaMemoryCopyStatusInvalidRange s
  else s.

Definition cp_memory_copy_task (s : mc_sys) : mc_sys :=
  if negb (cp_memory_copy_is_active s) then s else
  if phase_timed_out s then
    fail_memory_copy kFsaMemoryCopyStatusTimeout (fault kFsaFirmwareFaultMemoryCopyTimeout s)
  else
  match phase (m_state s) with
  | kMemoryCopyPhaseWaitPredecessor => task_wait_predecessor s
  | kMemoryCopyPhaseFlushSource => task_flush_source s
  | kMemoryCopyPhaseFlushDestination => task_flush_destination s
  | kMemoryCopyPhaseWaitDma => task_wait_dma s
  | kMemoryCopyPhaseInvalidateDestination =>
      if cp_cache_busy s then s else complete_memory_copy FSA_COMPLETION_RESULT_SUCCESS s
  | kMemoryCopyPhaseDrainDma =>
      if cp_memory_copy_dma_is_idle s then set_phase kMemoryCopyPhaseIdle 0 s else s
  | kMemoryCopyPhaseIdle => set_phase (phase (m_state s)) 0 s
  end.

(** ** The system

    The dispatch task submits, the copy task iterates, time passes, kernels start
    and finish, caches become free (and, while no copy is active, busy for other
    commands), a busy DMA engine ends. Hardware events belong to the history of
    the copy only while it is active. *)
Definition note_env (e : mc_event) (s : mc_sys) : mc_sys :=
  if cp_memory_copy_is_active s then note e s else s.
Definition set_cache (u : cache_user) (s : mc_sys) : mc_sys :=
  mkMcSys (m_state s) (m_fw s) (m_cp s) (m_pool s) (m_host s) (m_dev s) (m_tick s) (m_kernel s)
    u (m_galloc s) (m_log s).
(** The address registers have moved by then; the firmware does not read them. *)
Definition dma_ended (st a0 a1 : Z) : dma_mmio := mkDma 0 a0 a1 0 st.
Definition set_host (d : dma_mmio) (s : mc_sys) : mc_sys :=
  mkMcSys (m_state s) (m_fw s) (m_cp s) (m_pool s) d (m_dev s) (m_tick s) (m_kernel s)
    (m_cache s) (m_galloc s) (m_log s).
Definition set_dev (d : dma_mmio) (s : mc_sys) : mc_sys :=
  mkMcSys (m_state s) (m_fw s) (m_cp s) (m_pool s) (m_host s) d (m_tick s) (m_kernel s)
    (m_cache s) (m_galloc s) (m_log s).

Definition dma_end_status (st : Z) : Prop :=
  st = kDmaStatusDone \/ st = kDmaStatusBusError \/ st = kDmaStatusInvalidDescriptor.

Inductive mc_step : mc_sys -> mc_sys -> Prop :=
| mc_submit s p : mc_step s (cp_memory_copy_submit p s)
| mc_task s : mc_step s (cp_memory_copy_task s)
| mc_tick s t : m_tick s <= t -> t < 2 ^ 64 ->
    mc_step s (mkMcSys (m_state s) (m_fw s) (m_cp s) (m_pool s) (m_host s) (m_dev s) t (m_kernel s)
                 (m_cache s) (m_galloc s) (m_log s))
| mc_kernel s b :
    mc_step s (mkMcSys (m_state s) (m_fw s) (m_cp s) (m_pool s) (m_host s) (m_dev s) (m_tick s) b
                 (m_cache s) (m_galloc s) (m_log s))
| mc_cache_other_done s : m_cache s = CacheOther -> mc_step s (set_cache CacheFree s)
| mc_cache_copy_done s : m_cache s = CacheCopy ->
    mc_step s (note_env EvCacheDone (set_cache CacheFree s))
| mc_cache_other s : m_cache s = CacheFree -> cp_memory_copy_is_active s = false ->
    mc_step s (set_cache CacheOther s)
| mc_host_end s st a0 a1 : DMA_STATUS (m_host s) = kDmaStatusBusy -> dma_end_status st ->
    mc_step s (note_env (EvDmaEnd st) (set_host (dma_ended st a0 a1) s))
| mc_dev_end s st a0 a1 : DMA_STATUS (m_dev s) = kDmaStatusBusy -> dma_end_status st ->
    mc_step s (note_env (EvDmaEnd st) (set_dev (dma_ended st a0 a1) s)).

Inductive mc_reach (s0 : mc_sys) : mc_sys -> Prop :=
| mc_reach_init : mc_reach s0 s0
| mc_reach_step s s' : mc_reach s0 s -> mc_step s s' -> mc_reach s0 s'.

(** After boot: idle engines, nothing active. *)
Definition mc_init (s : mc_sys) : Prop :=
  m_state s = zero_memory_copy_state /\ m_log s = [] /\
  DMA_STATUS (m_host s) = kDmaStatusIdle /\ DMA_STATUS (m_dev s) = kDmaStatusIdle /\
  m_cache s <> CacheCopy.

(** ** What a successful copy has done *)

Definition dev_src (st : cp_memory_copy_state) : bool := src_domain st =? kFsaMemoryDomainDevice.
Definition dev_dst (st : cp_memory_copy_state) : bool := dst_domain st =? kFsaMemoryDomainDevice.
Definition plan_flush_src (st : cp_memory_copy_state) : list mc_event :=
  if dev_src st then [EvCacheStart kCacheOpFlush (src_addr st) (size st); EvCacheDone] else [].
Definition plan_flush_dst (st : cp_memory_copy_state) : list mc_event :=
  if dev_dst st then [EvCacheStart kCacheOpFlush (dst_addr st) (size st); EvCacheDone] else [].
Definition plan_dma_start (st : cp_memory_copy_state) : mc_event :=
  if dev_src st && dev_dst st then EvDeviceDma (src_addr st) (dst_addr st) (s64 (size st))
  else if dev_src st then EvHostDma (dst_addr st) (src_addr st) (- s64 (size st))
  else EvHostDma (src_addr st) (dst_addr st) (s64 (size st)).
Definition plan_upto_dma (st : cp_memory_copy_state) : list mc_event :=
  plan_flush_src st ++ plan_flush_dst st ++ [plan_dma_start st].
Definition plan_invalidate (st : cp_memory_copy_state) : list mc_event :=
  if dev_dst st then [EvCacheStart kCacheOpInvalidate (dst_addr st) (size st); EvCacheDone] else [].
(** Flush the device ranges, each flush finished before the next step; transfer;
    invalidate a device destination; publish. *)
Definition copy_plan (st : cp_memory_copy_state) : list mc_event :=
  if size st =? 0 then [EvPublish FSA_COMPLETION_RESULT_SUCCESS] else
  plan_upto_dma st ++ [EvDmaEnd kDmaStatusDone] ++ plan_invalidate st ++
  [EvPublish FSA_COMPLETION_RESULT_SUCCESS].

Definition is_publish (e : mc_event) : bool := match e with EvPublish _ => true | _ => false end.
Definition publishes (l : list mc_event) : nat := countb is_publish l.

(** ** Invariant *)

Definition success : mc_event := EvPublish FSA_COMPLETION_RESULT_SUCCESS.

(** The engine the copy uses, and the other one. *)
Definition used_status (s : mc_sys) : Z := transfer_status s.
Definition unused_status (s : mc_sys) : Z :=
  if uses_device_source s && uses_device_destination s
  then DMA_STATUS (m_host s) else DMA_STATUS (m_dev s).
Definition engines_quiet (s : mc_sys) : Prop :=
  DMA_STATUS (m_host s) <> kDmaStatusBusy /\ DMA_STATUS (m_dev s) <> kDmaStatusBusy.

(** Cache operation of the copy: running, or finished and noted. *)
Definition cache_phase (s : mc_sys) (pre : list mc_event) (start : mc_event) : Prop :=
  (m_cache s = CacheCopy /\ m_log s = pre ++ [start]) \/
  (m_cache s = CacheFree /\ m_log s = pre ++ [start; EvCacheDone]).

Definition phase_ok (s : mc_sys) : Prop :=
  let st := m_state s in
  match phase st with
  | kMemoryCopyPhaseIdle => False
  | kMemoryCopyPhaseWaitPredecessor => m_log s = [] /\ m_cache s <> CacheCopy /\ engines_quiet s
  | kMemoryCopyPhaseFlushSource => size st <> 0 /\ dev_src st = true /\ engines_quiet s /\
      cache_phase s [] (EvCacheStart kCacheOpFlush (src_addr st) (size st))
  | kMemoryCopyPhaseFlushDestination => size st <> 0 /\ dev_dst st = true /\ engines_quiet s /\
      cache_phase s (plan_flush_src st) (EvCacheStart kCacheOpFlush (dst_addr st) (size st))
  | kMemoryCopyPhaseWaitDma => size st <> 0 /\ m_cache s = CacheFree /\
      unused_status s <> kDmaStatusBusy /\
      ((used_status s = kDmaStatusBusy /\ m_log s = (plan_upto_dma st)) \/
       (dma_end_status (used_status s) /\
        m_log s = plan_upto_dma st ++ [EvDmaEnd (used_status s)]))
  | kMemoryCopyPhaseInvalidateDestination => size st <> 0 /\ dev_dst st = true /\ engines_quiet s /\
      cache_phase s (plan_upto_dma st ++ [EvDmaEnd kDmaStatusDone])
        (EvCacheStart kCacheOpInvalidate (dst_addr st) (size st))
  | kMemoryCopyPhaseDrainDma => (success ∉ m_log s) /\ publishes (m_log s) = 1%nat /\
      status (m_fw s) = kFsaFirmwareStatusFault
  end.

Record mc_inv (s : mc_sys) : Prop := {
  mi_active : active (m_state s) = 0 \/ active (m_state s) = 1;
  mi_on : active (m_state s) = 1 ->
    valid_memory_copy_domain_pair (src_domain (m_state s)) (dst_domain (m_state s)) = true /\
    phase_ok s;
  mi_off : active (m_state s) = 0 ->
    engines_quiet s /\
    (m_cache s = CacheCopy -> status (m_fw s) = kFsaFirmwareStatusFault) /\
    (m_log s = [] \/ (publishes (m_log s) = 1%nat /\
                      (success ∈ m_log s -> m_log s = copy_plan (m_state s))));
}.

(** ** Preservation *)

Lemma publishes_app l k : publishes (l ++ k) = (publishes l + publishes k)%nat.
Proof. apply countb_app. Qed.

Lemma publishes_0_success l : publishes l = 0%nat -> success ∉ l.
Proof.
  intros H Hin. apply list_elem_of_split in Hin as (l1 & l2 & ->).
  rewrite publishes_app in H. unfold publishes in H. rewrite countb_cons in H. simpl in H. lia.
Qed.

Lemma plan_upto_dma_publishes st : publishes (plan_upto_dma st) = 0%nat.
Proof.
  unfold plan_upto_dma, plan_flush_src, plan_flush_dst, plan_dma_start.
  destruct (dev_src st), (dev_dst st); done.
Qed.

Lemma flush_src_publishes st : publishes (plan_flush_src st) = 0%nat.
Proof. unfold plan_flush_src. by destruct (dev_src st). Qed.

Lemma cache_phase_publishes s pre e :
  cache_phase s pre e -> publishes pre = 0%nat -> is_publish e = false ->
  publishes (m_log s) = 0%nat.
Proof.
  intros [[_ ->]|[_ ->]] Hp He; rewrite publishes_app, Hp; unfold publishes;
    rewrite !countb_cons, He; done.
Qed.

(** A phase other than the drain has published nothing. *)
Lemma phase_publishes s :
  phase_ok s -> phase (m_state s) <> kMemoryCopyPhaseDrainDma -> publishes (m_log s) = 0%nat.
Proof.
  unfold phase_ok. destruct (phase (m_state s)) eqn:Hp; intros H Hd; try done.
  - destruct H as (-> & _). done.
  - destruct H as (_ & _ & _ & H). by eapply cache_phase_publishes.
  - destruct H as (_ & _ & _ & H). eapply cache_phase_publishes; [done|apply flush_src_publishes|done].
  - destruct H as (_ & _ & _ & [[_ ->]|[_ ->]]); rewrite ?publishes_app, plan_upto_dma_publishes; done.
  - destruct H as (_ & _ & _ & H). eapply cache_phase_publishes; [done| |done].
    by rewrite publishes_app, plan_upto_dma_publishes.
Qed.

Lemma phase_quiet s :
  phase_ok s -> phase (m_state s) <> kMemoryCopyPhaseWaitDma ->
  phase (m_state s) <> kMemoryCopyPhaseDrainDma -> engines_quiet s.
Proof. unfold phase_ok. destruct (phase (m_state s)); intros H Hw Hd; try done; apply H. Qed.

(** Completing a copy. *)
Lemma inv_complete r s :
  mc_inv s -> active (m_state s) = 1 -> phase (m_state s) <> kMemoryCopyPhaseDrainDma ->
  engines_quiet s -> m_cache s <> CacheCopy ->
  (u16 r = FSA_COMPLETION_RESULT_SUCCESS -> m_log s ++ [success] = copy_plan (m_state s)) ->
  mc_inv (complete_memory_copy r s).
Proof.
  intros Hinv Ha Hd Hq Hc Hs. destruct (mi_on _ Hinv Ha) as [_ Hph].
  apply phase_publishes in Hph; [|done]. split; simpl; [by left|done|]. intros _.
  split; [done|]. split; [by intros|]. right. split.
  - rewrite publishes_app, Hph. done.
  - intros Hin. apply elem_of_app in Hin as [Hin|Hin]; [by apply publishes_0_success in Hin|].
    apply list_elem_of_singleton in Hin. unfold success in Hin. injection Hin as Hr.
    rewrite <- Hr. apply Hs. done.
Qed.

(** The timeout path. *)
Lemma inv_timeout s :
  mc_inv s -> active (m_state s) = 1 -> phase_timed_out s = true ->
  mc_inv (fail_memory_copy kFsaMemoryCopyStatusTimeout (fault kFsaFirmwareFaultMemoryCopyTimeout s)).
Proof.
  intros Hinv Ha Ht. unfold phase_timed_out in Ht. case_decide as Hd; [done|].
  destruct (mi_on _ Hinv Ha) as [Hdom Hph].
  assert (Hp0 := phase_publishes _ Hph ltac:(naive_solver)).
  set (l := m_log s ++ [EvFault kFsaFirmwareFaultMemoryCopyTimeout] ++
            [EvPublish (u16 kFsaMemoryCopyStatusTimeout)]).
  assert (Hl : publishes l = 1%nat).
  { unfold l. rewrite !publishes_app, Hp0. done. }
  assert (Hns : success ∉ l).
  { unfold l. rewrite !elem_of_app, !list_elem_of_singleton. intros [H|[H|H]]; try done.
    by apply publishes_0_success in H. }
  assert (Hlog : (m_log s ++ [EvFault kFsaFirmwareFaultMemoryCopyTimeout]) ++
    [EvPublish (u16 kFsaMemoryCopyStatusTimeout)] = l) by (unfold l; by rewrite <- app_assoc).
  unfold fail_memory_copy. cbv zeta. case_decide as Hw.
  - split; simpl; [by right| |by rewrite Ha]. intros _. split; [done|]. unfold phase_ok. simpl. rewrite Hlog. by split_and!.
  - split; simpl; [by left|done|]. intros _. rewrite Hlog. split.
    + apply (phase_quiet s); auto.
    + split; [done|]. right. by split.
Qed.

Lemma enter_phase_inv p s :
  valid_memory_copy_domain_pair (src_domain (m_state s)) (dst_domain (m_state s)) = true ->
  active (m_state s) = 1 -> phase_ok (enter_phase p s) -> mc_inv (enter_phase p s).
Proof. intros Hd Ha Hp. split; simpl; [by right|done|by rewrite Ha]. Qed.

(** A successful start of a cache operation. *)
Lemma start_then_inv a z m p s pre :
  valid_memory_copy_domain_pair (src_domain (m_state s)) (dst_domain (m_state s)) = true ->
  active (m_state s) = 1 -> m_cache s = CacheFree -> engines_quiet s -> m_log s = pre ->
  (forall s', m_state s' = with_phase p 1 (u32 (m_tick s)) (m_state s) -> engines_quiet s' ->
     cache_phase s' pre (EvCacheStart m a z) -> phase_ok s') ->
  mc_inv (start_then a z m p s).
Proof.
  intros Hd Ha Hc Hq Hl Hok. unfold start_then, start_cache_operation, cp_cache_busy. rewrite Hc.
  apply enter_phase_inv; [done|done|]. apply Hok; simpl.
  - by rewrite <- Ha.
  - done.
  - left. simpl. by rewrite Hl.
Qed.

(** A start of the DMA engine. *)
Lemma start_dma_inv s (dev : bool) :
  valid_memory_copy_domain_pair (src_domain (m_state s)) (dst_domain (m_state s)) = true ->
  active (m_state s) = 1 -> m_cache s = CacheFree -> engines_quiet s -> size (m_state s) <> 0 ->
  dev = uses_device_source s && uses_device_destination s ->
  m_log s = plan_flush_src (m_state s) ++ plan_flush_dst (m_state s) ->
  mc_inv (enter_phase kMemoryCopyPhaseWaitDma (if dev then start_device_dma s else start_host_dma s)).
Proof.
  intros Hd Ha Hc [Hq1 Hq2] Hz Hdev Hl. apply enter_phase_inv; [by destruct dev|by destruct dev|].
  unfold phase_ok, used_status, unused_status, transfer_status, uses_device_source,
    uses_device_destination, plan_upto_dma, plan_dma_start, dev_src, dev_dst in *.
  destruct dev; cbn [m_state m_cache m_log m_host m_dev phase size enter_phase with_phase set_mcs
    start_device_dma start_host_dma note src_domain dst_domain src_addr dst_addr].
  - rewrite <- Hdev. simpl. split_and!; auto. left. split; [done|]. rewrite Hl.
    by rewrite app_assoc.
  - rewrite <- Hdev. simpl. split_and!; auto. left. split; [done|]. rewrite Hl, <- app_assoc.
    do 3 f_equal. unfold valid_memory_copy_domain_pair, kFsaMemoryDomainHost,
      kFsaMemoryDomainDevice in *. unfold plan_flush_src, plan_flush_dst, dev_src, dev_dst,
      kFsaMemoryDomainDevice in *.
    destruct (Z.eqb_spec (src_domain (m_state s)) 2) as [E|E].
    + rewrite E. done.
    + destruct (Z.eqb_spec (src_domain (m_state s)) 1) as [E1|E1]; [done|]. simpl in Hd. done.
Qed.

Lemma not_busy_free s : cp_cache_busy s = false -> m_cache s = CacheFree.
Proof. unfold cp_cache_busy. by destruct (m_cache s). Qed.

Section task.
Context (s : mc_sys) (Hinv : mc_inv s) (Ha : active (m_state s) = 1).
Context (Hd : valid_memory_copy_domain_pair (src_domain (m_state s)) (dst_domain (m_state s)) = true).
Context (Hph : phase_ok s).

Lemma inv_task_wait_predecessor :
  phase (m_state s) = kMemoryCopyPhaseWaitPredecessor -> mc_inv (task_wait_predecessor s).
Proof using All.
  intros Hp. assert (H := Hph). unfold phase_ok in H. rewrite Hp in H.
  destruct H as (Hl & Hc & Hq). unfold task_wait_predecessor, cp_has_active_kernel_or_cache.
  destruct (cp_cache_busy s) eqn:Eb; [done|]. apply not_busy_free in Eb. bcase; [done|]. bcase.
  { apply inv_complete; auto; [by rewrite Hp|]. intros _. unfold copy_plan.
    rewrite Hl, (proj2 (Z.eqb_eq _ _)) by done. done. }
  unfold uses_device_source, uses_device_destination. fold (dev_src (m_state s)).
  fold (dev_dst (m_state s)). destruct (dev_src (m_state s)) eqn:Es.
  { eapply start_then_inv; eauto. intros s' Es' Hq' Hcp. unfold phase_ok. rewrite Es'. simpl.
    split_and!; auto. }
  destruct (dev_dst (m_state s)) eqn:Et.
  { eapply start_then_inv; eauto. intros s' Es' Hq' Hcp. unfold phase_ok. rewrite Es'. simpl.
    split_and!; auto. unfold plan_flush_src. change (dev_src (with_phase _ _ _ _)) with (dev_src (m_state s)).
    by rewrite Es. }
  exfalso. unfold valid_memory_copy_domain_pair, dev_src, dev_dst in *. rewrite Es, Et in Hd.
  by rewrite andb_false_r in Hd.
Qed.

Lemma inv_task_flush_source :
  phase (m_state s) = kMemoryCopyPhaseFlushSource -> mc_inv (task_flush_source s).
Proof using All.
  intros Hp. assert (H := Hph). unfold phase_ok in H. rewrite Hp in H.
  destruct H as (Hz & Hs & Hq & Hcp). unfold task_flush_source.
  destruct (cp_cache_busy s) eqn:Eb; [done|]. apply not_busy_free in Eb.
  destruct Hcp as [[Hc _]|[_ Hl]]; [by rewrite Eb in Hc|]. simpl in Hl.
  assert (Hfs : plan_flush_src (m_state s) = m_log s) by (unfold plan_flush_src; by rewrite Hs, Hl).
  unfold uses_device_destination. fold (dev_dst (m_state s)). destruct (dev_dst (m_state s)) eqn:Et.
  - eapply start_then_inv; eauto. intros s' Es' Hq' Hcp. unfold phase_ok. rewrite Es'. simpl.
    split_and!; auto. change (plan_flush_src (with_phase _ _ _ _)) with (plan_flush_src (m_state s)).
    by rewrite Hfs, Hl.
  - apply (start_dma_inv s false); auto.
    + unfold uses_device_source, uses_device_destination. fold (dev_dst (m_state s)).
      by rewrite Et, andb_false_r.
    + unfold plan_flush_dst. by rewrite Et, app_nil_r, Hfs.
Qed.

Lemma inv_task_flush_destination :
  phase (m_state s) = kMemoryCopyPhaseFlushDestination -> mc_inv (task_flush_destination s).
Proof using All.
  intros Hp. assert (H := Hph). unfold phase_ok in H. rewrite Hp in H.
  destruct H as (Hz & Ht & Hq & Hcp). unfold task_flush_destination.
  destruct (cp_cache_busy s) eqn:Eb; [done|]. apply not_busy_free in Eb.
  destruct Hcp as [[Hc _]|[_ Hl]]; [by rewrite Eb in Hc|].
  apply start_dma_inv; auto. rewrite Hl. unfold plan_flush_dst. by rewrite Ht.
Qed.

Lemma inv_task_wait_dma :
  phase (m_state s) = kMemoryCopyPhaseWaitDma -> mc_inv (task_wait_dma s).
Proof using All.
  intros Hp. assert (H := Hph). unfold phase_ok in H. rewrite Hp in H.
  destruct H as (Hz & Hc & Hun & Hst). unfold used_status in Hst. unfold task_wait_dma.
  destruct Hst as [[Hb _]|[Hend Hl]]; [by rewrite Hb|].
  assert (Hq : engines_quiet s).
  { assert (Hnb : transfer_status s <> kDmaStatusBusy).
    { destruct Hend as [->|[->| ->]]; done. }
    unfold engines_quiet, unused_status, transfer_status in *.
    by destruct (uses_device_source s && uses_device_destination s). }
  destruct Hend as [E|[E|E]]; rewrite E in *; simpl.
  - unfold uses_device_destination. fold (dev_dst (m_state s)).
    destruct (dev_dst (m_state s)) eqn:Et; simpl.
    + eapply start_then_inv; eauto. intros s' Es' Hq' Hcp. unfold phase_ok. rewrite Es'. simpl.
      split_and!; auto.
    + apply inv_complete; auto; [by rewrite Hp|by rewrite Hc|]. intros _. unfold copy_plan.
      rewrite (proj2 (Z.eqb_neq _ _)) by done. unfold plan_invalidate. rewrite Et, Hl.
      by rewrite <- app_assoc.
  - apply inv_complete; auto; [by rewrite Hp|by rewrite Hc|done].
  - apply inv_complete; auto; [by rewrite Hp|by rewrite Hc|done].
Qed.
End task.

Lemma inv_mc_task s : mc_inv s -> mc_inv (cp_memory_copy_task s).
Proof.
  intros Hinv. unfold cp_memory_copy_task, cp_memory_copy_is_active.
  destruct (mi_active _ Hinv) as [Ha|Ha]; rewrite Ha; simpl; [done|].
  destruct (phase_timed_out s) eqn:Et; [by apply inv_timeout|].
  destruct (mi_on _ Hinv Ha) as [Hd Hph]. assert (H := Hph). unfold phase_ok in H.
  destruct (phase (m_state s)) eqn:Hp; [done| | | | | |].
  - by apply inv_task_wait_predecessor.
  - by apply inv_task_flush_source.
  - by apply inv_task_flush_destination.
  - by apply inv_task_wait_dma.
  - destruct H as (Hz & Ht & Hq & Hcp).
    destruct (cp_cache_busy s) eqn:Eb; [done|]. apply not_busy_free in Eb.
    destruct Hcp as [[Hc _]|[_ Hl]]; [by rewrite Eb in Hc|].
    apply inv_complete; auto; [by rewrite Hp|by rewrite Eb|]. intros _. unfold copy_plan.
    rewrite (proj2 (Z.eqb_neq _ _)) by done. unfold plan_invalidate. rewrite Ht, Hl.
    by rewrite <- !app_assoc.
  - destruct H as (Hns & Hpub & Hf). bcase; [|done].
    match goal with H : cp_memory_copy_dma_is_idle s = true |- _ => rename H into Hi end.
    unfold cp_memory_copy_dma_is_idle in Hi. bprop.
    split; simpl; [by left|done|]. intros _. split; [|split; [done|right; by split]].
    split; intros Hb; simpl in Hb;
      match goal with H : dma_terminal (DMA_STATUS ?d) = true, H' : DMA_STATUS ?d = _ |- _ =>
        rewrite H' in H; done end.
Qed.

Lemma copy_verdict_ready s p :
  copy_verdict s p = None ->
  active (m_state s) = 0 /\ status (m_fw s) = kFsaFirmwareStatusReady /\
  valid_memory_copy_domain_pair (mc_src_domain p) (mc_dst_domain p) = true.
Proof.
  unfold copy_verdict, cp_memory_copy_is_active, cp_firmware_is_ready.
  do 3 (bcase; [done|]). intros _. split_and!; auto.
  match goal with H : bool_decide _ = true |- _ => by apply bool_decide_eq_true in H end.
Qed.

Lemma inv_mc_submit p s : mc_inv s -> mc_inv (cp_memory_copy_submit p s).
Proof.
  intros Hinv. destruct p as [p|]; [|done]. simpl. destruct (copy_verdict s p) as [r|] eqn:Ev.
  - destruct Hinv as [H1 H2 H3]. by split.
  - apply copy_verdict_ready in Ev as (Ha & Hr & Hd). destruct (mi_off _ Hinv Ha) as (Hq & Hc & _).
    split; simpl; [by right| |done]. intros _. split; [done|]. unfold phase_ok. simpl.
    split_and!; auto. intros E. specialize (Hc E). congruence.
Qed.

Lemma cache_phase_done s pre e :
  cache_phase s pre e -> m_cache s = CacheCopy ->
  cache_phase (note EvCacheDone (set_cache CacheFree s)) pre e.
Proof.
  intros [[_ Hl]|[Hc _]] Hcc; [|by rewrite Hcc in Hc]. right. split; [done|]. simpl.
  by rewrite Hl, <- app_assoc.
Qed.

Lemma inv_cache_copy_done s :
  mc_inv s -> m_cache s = CacheCopy -> mc_inv (note_env EvCacheDone (set_cache CacheFree s)).
Proof.
  intros Hinv Hc. unfold note_env, cp_memory_copy_is_active. simpl.
  destruct (mi_active _ Hinv) as [Ha|Ha]; rewrite Ha; simpl.
  { destruct Hinv as [H1 H2 H3]. split; [done|by simpl; rewrite Ha|]. intros _. simpl.
    destruct (H3 Ha) as (? & ? & ?). by split_and!. }
  destruct (mi_on _ Hinv Ha) as [Hd Hph].
  split; [by right| |by simpl; rewrite Ha]. intros _. split; [done|].
  unfold phase_ok in *. cbn [m_state set_cache note]. destruct (phase (m_state s)).
  - done.
  - by destruct Hph as (_ & ? & _).
  - destruct Hph as (? & ? & ? & Hcp). split_and!; auto. by apply cache_phase_done.
  - destruct Hph as (? & ? & ? & Hcp). split_and!; auto. by apply cache_phase_done.
  - destruct Hph as (_ & ? & _). congruence.
  - destruct Hph as (? & ? & ? & Hcp). split_and!; auto. by apply cache_phase_done.
  - destruct Hph as (Hns & Hp & ?). simpl. split_and!; auto.
    + rewrite elem_of_app, list_elem_of_singleton. naive_solver.
    + rewrite publishes_app, Hp. done.
Qed.

(** The end of a transfer: [dev] says which engine. *)
Lemma inv_dma_end s (dev : bool) st a0 a1 :
  mc_inv s -> DMA_STATUS (if dev then m_dev s else m_host s) = kDmaStatusBusy ->
  dma_end_status st ->
  mc_inv (note_env (EvDmaEnd st)
            (if dev then set_dev (dma_ended st a0 a1) s else set_host (dma_ended st a0 a1) s)).
Proof.
  intros Hinv Hb Hst. set (s1 := if dev then _ else _).
  assert (Hs1 : m_state s1 = m_state s /\ m_cache s1 = m_cache s /\ m_log s1 = m_log s /\ m_fw s1 = m_fw s)
    by (by destruct dev). destruct Hs1 as (Es & Ec & El & Ef).
  unfold note_env, cp_memory_copy_is_active. rewrite Es.
  assert (Hnq : ~ engines_quiet s) by (intros [? ?]; by destruct dev).
  destruct (mi_active _ Hinv) as [Ha|Ha]; rewrite Ha; simpl.
  { by destruct (mi_off _ Hinv Ha) as [? _]. }
  destruct (mi_on _ Hinv Ha) as [Hd Hph].
  split; simpl; rewrite Es; [by right| |by rewrite Ha]. intros _. split; [done|].
  unfold phase_ok in *. simpl. rewrite Es. destruct (phase (m_state s));
    try done; try (by (exfalso; apply Hnq; apply Hph)).
  - destruct Hph as (Hz & Hc & Hun & Hcase).
    unfold used_status, unused_status, transfer_status, uses_device_source, uses_device_destination in *.
    simpl. rewrite Es, Ec, El.
    destruct ((src_domain (m_state s) =? kFsaMemoryDomainDevice) &&
              (dst_domain (m_state s) =? kFsaMemoryDomainDevice)), dev; simpl in *; try done;
      (destruct Hcase as [[_ Hl]|[He _]];
        [split_and!; auto; right; split; [done|by rewrite Hl]|];
        rewrite Hb in He; by destruct He as [?|[?|?]]).
  - destruct Hph as (Hns & Hp & ?). rewrite El, Ef. split_and!; auto.
    + rewrite elem_of_app, list_elem_of_singleton. naive_solver.
    + rewrite publishes_app, Hp. done.
Qed.

Lemma mc_reach_inv s0 s : mc_init s0 -> mc_reach s0 s -> mc_inv s.
Proof.
  intros (H1 & H2 & H3 & H4 & H5) Hr. induction Hr as [|s s' Hr IH Hstep].
  - split; rewrite H1; [by left|done|]. intros _. unfold engines_quiet. rewrite H3, H4.
    split_and!; auto; done.
  - destruct Hstep as [s p|s|s t _ _|s b|s Hc|s Hc|s Hc Hna|s st Hb Hst|s st Hb Hst].
    + by apply inv_mc_submit.
    + by apply inv_mc_task.
    + by destruct IH.
    + by destruct IH.
    + destruct IH as [I1 I2 I3]. split; [done| |].
      * intros Ha. destruct (I2 Ha) as [Hd Hph]. split; [done|]. unfold phase_ok, cache_phase in *.
        cbn [m_state set_cache]. destruct (phase (m_state s)); simpl in *; naive_solver congruence.
      * intros Ha. destruct (I3 Ha) as (? & ? & ?). by split_and!.
    + by apply inv_cache_copy_done.
    + destruct IH as [I1 I2 I3]. unfold cp_memory_copy_is_active in Hna. bprop.
      split; [done|by simpl; rewrite Hna|]. intros Ha. destruct (I3 Ha) as (? & ? & ?). by split_and!.
    + by apply (inv_dma_end s false).
    + by apply (inv_dma_end s true).
Qed.

(** ** Range lemmas *)

Lemma range_in_window_spec a z b w :
  fits 64 a -> fits 64 z -> fits 64 b -> fits 64 w -> b + w <= 2 ^ 64 ->
  range_in_window a z b w = true <-> 0 < z /\ b <= a /\ a + z <= b + w.
Proof.
  unfold fits, range_in_window. intros Ha Hz Hb Hw Hbw. bcase.
  - match goal with H : (_ || _)%bool = true |- _ => apply orb_true_iff in H as [H|H] end; bprop;
      split; [done|lia|done|lia].
  - rewrite (wrap_small 64 (a - b)) by lia. rewrite andb_true_iff, !Z.leb_le. split.
    + intros [H1 H2]. rewrite wrap_small in H2 by lia. lia.
    + intros (H1 & H2 & H3). rewrite wrap_small by lia. lia.
Qed.

(** The areas of device memory a copy may touch. *)
Definition copyable (galloc x : Z) : Prop :=
  FSA_ONCHIP_GMEM_BASE <= x < FSA_ONCHIP_GMEM_BASE + FSA_ONCHIP_GMEM_SIZE \/
  FSA_NONCACHE_ALLOC_BASE <= x < FSA_NONCACHE_ALLOC_BASE + FSA_NONCACHE_ALLOC_SIZE \/
  galloc <= x < FSA_GLOBAL_MEM_BASE + FSA_GLOBAL_MEM_SIZE.

Lemma valid_memory_range_spec g a z :
  STACK_BASE < g < FSA_GLOBAL_MEM_BASE + FSA_GLOBAL_MEM_SIZE -> fits 64 a -> fits 64 z ->
  valid_memory_range g a z = true ->
  a + z <= 2 ^ 32 /\ forall x, a <= x < a + z -> copyable g x.
Proof.
  unfold valid_memory_range, copyable, STACK_BASE, FSA_STACK_BASE, FSA_ONCHIP_GMEM_BASE,
    FSA_ONCHIP_GMEM_SIZE, FSA_NONCACHE_ALLOC_BASE, FSA_NONCACHE_ALLOC_SIZE, FSA_GLOBAL_MEM_BASE,
    FSA_GLOBAL_MEM_SIZE. intros Hg Ha Hz H.
  rewrite (wrap_small 64 (_ + _)) in H by lia. rewrite (wrap_small 64 (_ - g)) in H by lia.
  apply orb_true_iff in H as [H|H]; [apply orb_true_iff in H as [H|H]|];
    (apply range_in_window_spec in H; [|done|done|unfold fits; lia|unfold fits; lia|lia]); split; intros; lia.
Qed.

Lemma ranges_overlap_spec a b z :
  fits 64 a -> fits 64 b -> a + z < 2 ^ 64 -> b + z < 2 ^ 64 -> 0 < z ->
  ranges_overlap a b z = false <-> a + z <= b \/ b + z <= a.
Proof.
  unfold fits, ranges_overlap, UINT64_MAX. intros Ha Hb Hae Hbe Hz.
  rewrite (proj2 (Z.eqb_neq _ _)), (proj2 (Z.ltb_ge (2 ^ 64 - 1 - z) a)),
    (proj2 (Z.ltb_ge (2 ^ 64 - 1 - z) b)) by lia. simpl.
  rewrite !wrap_small by lia. rewrite negb_false_iff, orb_true_iff, !Z.leb_le. done.
Qed.

Lemma copy_verdict_parts s p :
  copy_verdict s p = None ->
  (mc_src_domain p, mc_dst_domain p) ∈ [(1, 2); (2, 1); (2, 2)] /\
  (0 < mc_size p ->
   mc_size p <= INT64_MAX /\
   ((mc_src_domain p =? kFsaMemoryDomainDevice) = true ->
      valid_memory_range (m_galloc s) (mc_src_addr p) (mc_size p) = true) /\
   ((mc_dst_domain p =? kFsaMemoryDomainDevice) = true ->
      valid_memory_range (m_galloc s) (mc_dst_addr p) (mc_size p) = true) /\
   (if mc_src_domain p =? kFsaMemoryDomainHost then mc_src_addr p else mc_dst_addr p) <> 0 /\
   ((mc_src_domain p =? kFsaMemoryDomainDevice) = true ->
    (mc_dst_domain p =? kFsaMemoryDomainDevice) = true ->
      ranges_overlap (mc_src_addr p) (mc_dst_addr p) (mc_size p) = false)).
Proof.
  intros Hv. assert (Hd := copy_verdict_ready _ _ Hv). destruct Hd as (_ & _ & Hd). split.
  { unfold valid_memory_copy_domain_pair, kFsaMemoryDomainHost, kFsaMemoryDomainDevice in Hd.
    rewrite !elem_of_cons. apply orb_true_iff in Hd as [Hd|Hd]; bprop.
    - left. congruence.
    - match goal with H : (_ || _)%bool = true |- _ => apply orb_true_iff in H as [H|H] end; bprop.
      + right; left. congruence.
      + right; right; left. congruence. }
  intros Hpos. unfold copy_verdict in Hv. do 3 (bcase_in Hv; [done|]).
  rewrite (proj2 (Z.eqb_neq (mc_size p) 0)) in Hv by lia. cbn [orb] in Hv.
  match type of Hv with (if ?c then _ else _) = _ => destruct c eqn:Hc; [done|] end.
  apply orb_false_iff in Hc as [Hok Hov]. apply negb_false_iff in Hok.
  apply andb_true_iff in Hok as [Hok Hmax]. apply andb_true_iff in Hok as [Hh Hdv].
  apply andb_true_iff in Hdv as [Hsrc Hdst]. apply Z.leb_le in Hmax.
  apply negb_true_iff, Z.eqb_neq in Hh. split_and!; auto.
  - intros Ed. by rewrite Ed in Hsrc.
  - intros Ed. by rewrite Ed in Hdst.
  - intros Ed Ed2. by rewrite Ed, Ed2 in Hov.
Qed.

(** ** Running a schedule *)

Inductive mc_act := MSubmit (p : MemoryCopyPacket) | MTask | MCacheDone | MHostEnd (st a0 a1 : Z)
  | MDevEnd (st a0 a1 : Z).
Definition end_status_b (st : Z) : bool :=
  (st =? kDmaStatusDone) || (st =? kDmaStatusBusError) || (st =? kDmaStatusInvalidDescriptor).
Definition mc_act_step (a : mc_act) (s : mc_sys) : mc_sys :=
  match a with
  | MSubmit p => cp_memory_copy_submit (Some p) s
  | MTask => cp_memory_copy_task s
  | MCacheDone =>
      match m_cache s with
      | CacheFree => s
      | CacheOther => set_cache CacheFree s
      | CacheCopy => note_env EvCacheDone (set_cache CacheFree s)
      end
  | MHostEnd st a0 a1 =>
      if (DMA_STATUS (m_host s) =? kDmaStatusBusy) && end_status_b st
      then note_env (EvDmaEnd st) (set_host (dma_ended st a0 a1) s) else s
  | MDevEnd st a0 a1 =>
      if (DMA_STATUS (m_dev s) =? kDmaStatusBusy) && end_status_b st
      then note_env (EvDmaEnd st) (set_dev (dma_ended st a0 a1) s) else s
  end.
Definition mc_run (acts : list mc_act) (s : mc_sys) : mc_sys := foldl (fun s a => mc_act_step a s) s acts.

Lemma end_status_b_spec st : end_status_b st = true -> dma_end_status st.
Proof.
  unfold end_status_b, dma_end_status. intros H. apply orb_true_iff in H as [H|H];
    [apply orb_true_iff in H as [H|H]|]; bprop; auto.
Qed.

Lemma mc_run_reach acts s0 s : mc_reach s0 s -> mc_reach s0 (mc_run acts s).
Proof.
  revert s. induction acts as [|a acts IH]; intros s H; [done|]. simpl. apply IH.
  assert (Hstep : forall s', mc_step s s' -> mc_reach s0 s') by (intros; by eapply mc_reach_step).
  destruct a as [p| | |st a0 a1|st a0 a1]; cbn [mc_act_step].
  - apply Hstep. apply mc_submit.
  - apply Hstep. apply mc_task.
  - destruct (m_cache s) eqn:E; [done| |]; apply Hstep; by constructor.
  - bcase; [|done]. apply Hstep. constructor; [done|by apply end_status_b_spec].
  - bcase; [|done]. apply Hstep. constructor; [done|by apply end_status_b_spec].
Qed.

(** ** Properties *)

(** C30. Success means the whole protocol ran: in every interleaving of the
    dispatcher, the copy task, the caches, the DMA engines and the clock, once a
    copy has published success its history is exactly the plan of its direction:
    a device source is flushed, a device destination is flushed, each flush done
    before the next step, then the right DMA engine transfers with the packet's
    addresses and size and ends with Done, then a device destination is
    invalidated, then success is published, and the copy is no longer active. *)
Theorem copy_success_means_plan s0 s :
  mc_init s0 -> mc_reach s0 s -> success ∈ m_log s ->
  m_log s = copy_plan (m_state s) /\ active (m_state s) = 0.
Proof.
  intros H0 Hr Hs. assert (Hinv := mc_reach_inv _ _ H0 Hr).
  destruct (mi_active _ Hinv) as [Ha|Ha].
  - destruct (mi_off _ Hinv Ha) as (_ & _ & [Hl|[_ Hp]]); [|by split; [apply Hp|]].
    rewrite Hl in Hs. by apply not_elem_of_nil in Hs.
  - exfalso. destruct (mi_on _ Hinv Ha) as [_ Hph].
    destruct (decide (phase (m_state s) = kMemoryCopyPhaseDrainDma)) as [E|E].
    + unfold phase_ok in Hph. rewrite E in Hph. by destruct Hph.
    + apply phase_publishes in Hph; [|done]. by apply publishes_0_success in Hph.
Qed.

Definition sample_mc : mc_sys :=
  mkMcSys zero_memory_copy_state (mkFwStatus 1 kFsaFirmwareStatusReady) (sample_cp 1)
    [fsa_completion_token_make 1 1 0] (mkDma 0 0 0 0 0) (mkDma 0 0 0 0 0) 10 false CacheOther
    0x82000000 [].
Definition sample_copy : MemoryCopyPacket :=
  mkMemoryCopyPacket 6 2 2 0x90000000 0xA0000000 4096 (fsa_completion_token_make 1 1 0).
(** A device-to-device copy that runs to its end. *)
Definition sample_copy_acts : list mc_act :=
  [MSubmit sample_copy; MTask; MCacheDone; MTask; MTask; MCacheDone; MTask; MCacheDone; MTask;
   MTask; MDevEnd 2 0 0; MTask; MTask; MCacheDone; MTask].
Lemma sample_mc_init : mc_init sample_mc.
Proof. by split_and!. Qed.

Lemma copy_success_means_plan_witness :
  let s := mc_run sample_copy_acts sample_mc in
  m_log s = copy_plan (m_state s) /\ active (m_state s) = 0 /\ (length (m_log s) = 9)%nat.
Proof.
  intros s. destruct (copy_success_means_plan sample_mc s) as [H1 H2].
  - exact sample_mc_init.
  - apply mc_run_reach, mc_reach_init.
  - apply list_elem_of_In. vm_compute. tauto.
  - split; [exact H1|]. split; [exact H2|]. vm_compute. reflexivity.
Defined.

(** A copy publishes one result, no earlier than it leaves its working phases,
    and a DMA engine is busy only for an active copy: when a copy times out during
    its transfer the firmware faults and the copy stays active until the engines
    are idle, so neither a reboot nor a later copy finds a transfer running. *)
Theorem copy_publishes_once s0 s :
  mc_init s0 -> mc_reach s0 s ->
  (publishes (m_log s) <= 1)%nat /\
  (active (m_state s) = 1 -> phase (m_state s) <> kMemoryCopyPhaseDrainDma ->
   publishes (m_log s) = 0%nat) /\
  (active (m_state s) = 1 -> phase (m_state s) = kMemoryCopyPhaseDrainDma ->
   status (m_fw s) = kFsaFirmwareStatusFault) /\
  (active (m_state s) = 0 ->
   DMA_STATUS (m_host s) <> kDmaStatusBusy /\ DMA_STATUS (m_dev s) <> kDmaStatusBusy).
Proof.
  intros H0 Hr. assert (Hinv := mc_reach_inv _ _ H0 Hr).
  destruct (mi_active _ Hinv) as [Ha|Ha].
  - rewrite Ha. destruct (mi_off _ Hinv Ha) as ([? ?] & _ & Hl). split_and!; try done.
    destruct Hl as [->|[-> _]]; [unfold publishes, countb; simpl; lia|lia].
  - rewrite Ha. destruct (mi_on _ Hinv Ha) as [_ Hph].
    destruct (decide (phase (m_state s) = kMemoryCopyPhaseDrainDma)) as [E|E].
    + assert (Hd := Hph). unfold phase_ok in Hd. rewrite E in Hd. destruct Hd as (_ & Hp & Hf).
      rewrite Hp. split_and!; [lia|naive_solver|done|lia].
    + apply phase_publishes in Hph; [|done]. rewrite Hph. split_and!; [lia|done|naive_solver|lia].
Qed.

Lemma copy_publishes_once_witness :
  let s := mc_run (take 10 sample_copy_acts) sample_mc in
  phase (m_state s) = kMemoryCopyPhaseWaitDma /\ publishes (m_log s) = 0%nat.
Proof.
  intros s. split; [vm_compute; reflexivity|].
  apply (copy_publishes_once sample_mc s).
  - exact sample_mc_init.
  - apply mc_run_reach, mc_reach_init.
  - vm_compute. reflexivity.
  - vm_compute. congruence.
Defined.

(** C16. An accepted copy is safe. Where the global allocations begin above the stacks and
    inside the global memory, a copy that the checks accept is host-to-device, device-to-host or
    device-to-device; a non-empty copy touches only on-chip memory, the non-cached
    heap and the global heap, hence never the work-group buffers, the firmware
    staging area or the work-group stacks; its host address is not null; its size
    fits the DMA's signed size; and source and destination of a device-to-device
    copy are disjoint. *)
Theorem copy_accepted_safe s p :
  STACK_BASE < m_galloc s < FSA_GLOBAL_MEM_BASE + FSA_GLOBAL_MEM_SIZE ->
  fits 64 (mc_src_addr p) -> fits 64 (mc_dst_addr p) -> fits 64 (mc_size p) ->
  copy_verdict s p = None ->
  let dev d := d =? kFsaMemoryDomainDevice in
  let reserved x := (FSA_WGI_BUF_BASE <= x < FSA_WGI_BUF_BASE + FSA_WGI_BUF_SIZE) \/
                    (FSA_FIRMWARE_STAGING_BASE <= x < FSA_FIRMWARE_STAGING_BASE + FSA_FIRMWARE_STAGING_SIZE) \/
                    (STACK_BASE <= x < m_galloc s) in
  (mc_src_domain p, mc_dst_domain p) ∈ [(1, 2); (2, 1); (2, 2)] /\
  (0 < mc_size p -> s64 (mc_size p) = mc_size p /\
   (dev (mc_src_domain p) = true -> forall x, mc_src_addr p <= x < mc_src_addr p + mc_size p ->
      copyable (m_galloc s) x /\ ~ reserved x) /\
   (dev (mc_dst_domain p) = true -> forall x, mc_dst_addr p <= x < mc_dst_addr p + mc_size p ->
      copyable (m_galloc s) x /\ ~ reserved x) /\
   (mc_src_domain p = 1 -> mc_src_addr p <> 0) /\ (mc_dst_domain p = 1 -> mc_dst_addr p <> 0) /\
   (dev (mc_src_domain p) = true -> dev (mc_dst_domain p) = true ->
      mc_src_addr p + mc_size p <= mc_dst_addr p \/ mc_dst_addr p + mc_size p <= mc_src_addr p)).
Proof.
  intros Hg Hsa Hda Hsz Hv. cbv zeta. apply copy_verdict_parts in Hv as (Hdom & Hrest).
  split; [done|]. intros Hpos. specialize (Hrest Hpos).
  destruct Hrest as (Hmax & Hs & Hd & Hhost & Hov).
  assert (Hres : forall a, (forall x, a <= x < a + mc_size p -> copyable (m_galloc s) x) ->
    forall x, a <= x < a + mc_size p -> copyable (m_galloc s) x /\
      ~ ((FSA_WGI_BUF_BASE <= x < FSA_WGI_BUF_BASE + FSA_WGI_BUF_SIZE) \/
         (FSA_FIRMWARE_STAGING_BASE <= x < FSA_FIRMWARE_STAGING_BASE + FSA_FIRMWARE_STAGING_SIZE) \/
         (STACK_BASE <= x < m_galloc s))).
  { intros a Ha x Hx. specialize (Ha x Hx). split; [done|].
    unfold copyable, STACK_BASE, FSA_STACK_BASE, FSA_ONCHIP_GMEM_BASE, FSA_ONCHIP_GMEM_SIZE,
      FSA_NONCACHE_ALLOC_BASE, FSA_NONCACHE_ALLOC_SIZE, FSA_GLOBAL_MEM_BASE, FSA_GLOBAL_MEM_SIZE,
      FSA_WGI_BUF_BASE, FSA_WGI_BUF_SIZE, FSA_FIRMWARE_STAGING_BASE, FSA_FIRMWARE_STAGING_SIZE in *.
    lia. }
  split_and!.
  - unfold swrap, INT64_MAX in *. cbv zeta. rewrite Z.mod_small by lia.
    by rewrite (proj2 (Z.ltb_lt _ _)) by lia.
  - intros Hdev. apply Hres. apply (valid_memory_range_spec _ _ _ Hg Hsa Hsz). auto.
  - intros Hdev. apply Hres. apply (valid_memory_range_spec _ _ _ Hg Hda Hsz). auto.
  - intros E. rewrite E in Hhost. exact Hhost.
  - intros E Hz0. assert (E2 : mc_src_domain p <> 1).
    { rewrite E in Hdom. intros E1. rewrite E1 in Hdom. apply list_elem_of_In in Hdom.
      simpl in Hdom. intuition congruence. }
    rewrite (proj2 (Z.eqb_neq _ _)) in Hhost by done. done.
  - intros Es Ed. specialize (Hov Es Ed).
    destruct (valid_memory_range_spec _ _ _ Hg Hsa Hsz (Hs Es)) as [He1 _].
    destruct (valid_memory_range_spec _ _ _ Hg Hda Hsz (Hd Ed)) as [He2 _].
    apply ranges_overlap_spec in Hov; auto; lia.
Qed.

Lemma copy_accepted_safe_witness :
  copyable 0x82000000 0x90000000 /\
  0x90000000 + 4096 <= 0xA0000000.
Proof.
  destruct (copy_accepted_safe sample_mc sample_copy) as [_ H].
  - vm_compute. split; reflexivity.
  - vm_compute. split; congruence.
  - vm_compute. split; congruence.
  - vm_compute. split; congruence.
  - vm_compute. reflexivity.
  - destruct H as (_ & Hs & _ & _ & _ & Hd); [vm_compute; reflexivity|].
    split; [|lia]. apply (Hs eq_refl). simpl. lia.
Defined.

(** The phase timeout is 5000 ticks as long as the tick count fits 32 bits:
    a working phase entered at tick [t0] times out at tick [t] exactly when
    [t - t0 >= 5000]. From tick 2^32 on (49.7 days at 1 kHz) the 32-bit
    [phase_started_tick] drops the high bits of the 64-bit tick count and every
    working phase times out at once, which faults the firmware. *)
Theorem copy_phase_timeout s p t :
  p <> kMemoryCopyPhaseWaitPredecessor -> p <> kMemoryCopyPhaseDrainDma ->
  0 <= m_tick s -> m_tick s <= t < 2 ^ 64 ->
  let s1 := enter_phase p s in
  let s2 := mkMcSys (m_state s1) (m_fw s1) (m_cp s1) (m_pool s1) (m_host s1) (m_dev s1) t
              (m_kernel s1) (m_cache s1) (m_galloc s1) (m_log s1) in
  (m_tick s < 2 ^ 32 -> phase_timed_out s2 = (5000 <=? t - m_tick s)) /\
  (2 ^ 32 <= m_tick s -> phase_timed_out s2 = true).
Proof.
  intros Hp1 Hp2 H0 Ht. cbv zeta. unfold phase_timed_out, CP_MEMORY_COPY_TIMEOUT_TICKS. simpl.
  rewrite decide_False by naive_solver. split; intros Hm.
  - rewrite (wrap_small 32) by lia. by rewrite (wrap_small 64) by lia.
  - pose proof (wrap_range 32 (m_tick s) ltac:(lia)).
    rewrite (wrap_small 64) by lia. apply Z.leb_le.
    pose proof (Z.div_mod (m_tick s) (2 ^ 32)). unfold wrap in *.
    pose proof (Z.div_le_mono (2 ^ 32) (m_tick s) (2 ^ 32)). rewrite Z.div_same in * by lia. lia.
Qed.

Lemma copy_phase_timeout_witness :
  let s := mkMcSys zero_memory_copy_state (mkFwStatus 1 kFsaFirmwareStatusReady) (sample_cp 1) []
             (mkDma 0 0 0 0 0) (mkDma 0 0 0 0 0) (2 ^ 32 + 7) false CacheFree 0 [] in
  phase_timed_out (enter_phase kMemoryCopyPhaseWaitDma s) = true.
Proof.
  intros s. apply (copy_phase_timeout s kMemoryCopyPhaseWaitDma (2 ^ 32 + 7)); simpl; try lia; congruence.
Defined.
