(* ===== verification/KernelDispatch.v ===== *)
(** * Kernel dispatch and work-group retirement
      (fw/cp_kernel_dispatch.c, fw/cp_retire.c, fw/cp_context.c and .h)

    The dispatch task launches the work-groups of a kernel one after the other and
    the retire task takes finished ones back, both preemptively. Each task is a
    program counter with its local variables; a step is one call of an allocator,
    one register access, or a group of accesses to memory the other task does not
    look at then (a work-group buffer the dispatcher holds, a kernel state no
    work-group refers to yet). The SMs are an environment: an SM accepts the
    work-group on its enqueue registers, and posts a resident work-group on its
    dequeue registers with any status.

    [k_ids], [k_rets] and [k_pkt] are history variables: per kernel state, the
    work-group ids launched and the results retired since the kernel was accepted,
    and the packet it was accepted from. *)

From S2P Require Import Prelude AddrMap CommandAbi Platform Completion SlotPool StackRemap LmemAllocator LmemTiling HwInfo.

(** ** Kernel states (cp_context.c) *)

Record cp_kernel_state := mkKernelState {
  ks_completion_token : Z;
  ks_in_use : Z;
  wg_left : Z;               (* uint32_t *)
  ks_result : Z;
  ks_status : FsaKernelStatus;
}.
Definition zero_kernel_status : FsaKernelStatus := mkKernelStatus 0 0 0.
Definition zero_kstate : cp_kernel_state := mkKernelState 0 0 0 0 zero_kernel_status.
Definition kernel_state_buf_size : nat := CP_KERNEL_STATE_BUF_SIZE.

Definition kstate (ks : list cp_kernel_state) (i : nat) : cp_kernel_state := nth i ks zero_kstate.
Definition cp_kernel_state_buf_alloc (ks : list cp_kernel_state) : option nat :=
  find_first (fun i => ks_in_use (kstate ks i) =? 0) kernel_state_buf_size.
Definition cp_kernel_state_buf_free (id : nat) (ks : list cp_kernel_state) : list cp_kernel_state :=
  let k := kstate ks id in
  <[id := mkKernelState (ks_completion_token k) 0 (wg_left k) (ks_result k) (ks_status k)]> ks.

(** ** Packets *)

Definition valid_kernel_dispatch_packet (p : KernelDispatchPacket) : bool :=
  let flags := dim_reserved0 p in
  let allowed_flags := Z.lor (Z.lor FSA_KERNEL_DISPATCH_DIM_MASK FSA_KERNEL_DISPATCH_HAS_PRINTF_META)
                         FSA_KERNEL_DISPATCH_STACK_REMAP in
  let dim := Z.land flags FSA_KERNEL_DISPATCH_DIM_MASK in
  if (dim <? 1) || (3 <? dim) || negb (Z.land flags (Z.lnot allowed_flags) =? 0) then false else
  negb (local_size_x p =? 0) && negb (local_size_y p =? 0) && negb (local_size_z p =? 0) &&
  negb (num_groups_x p =? 0) && negb (num_groups_y p =? 0) && negb (num_groups_z p =? 0).

Definition update_id (num_x num_y num_z : Z) (id : Z * Z * Z) : bool * (Z * Z * Z) :=
  let '(x, y, z) := id in
  let z := z + 1 in
  if z <? num_z then (true, (x, y, z)) else
  let z := 0 in
  let y := y + 1 in
  if y <? num_y then (true, (x, y, z)) else
  let y := 0 in
  let x := x + 1 in
  if x <? num_x then (true, (x, y, z)) else (false, (x, y, z)).

(** The work-group info common to a launch; [meta] reads the printf metadata at
    the start of the argument buffer. *)
Definition launch_wginfo (meta : Z -> FsaKernelDispatchPrintfMeta) (p : KernelDispatchPacket) : WGInfo :=
  let has_meta := negb (Z.land (dim_reserved0 p) FSA_KERNEL_DISPATCH_HAS_PRINTF_META =? 0) in
  let m := meta (kernarg_address p) in
  mkWGInfo (Z.land (dim_reserved0 p) FSA_KERNEL_DISPATCH_DIM_MASK) (0, 0, 0)
    (local_size_x p, local_size_y p, local_size_z p)
    (num_groups_x p, num_groups_y p, num_groups_z p)
    (global_offset_x p, global_offset_y p, global_offset_z p)
    (u32 (u32 (local_size_x p * local_size_y p) * local_size_z p))
    (kernel_trampoline p)
    (if has_meta then kernarg_address p +% sizeof_FsaKernelDispatchPrintfMeta else kernarg_address p)
    0 PER_THREAD_STACK_SIZE 0 (local_mem_size p)
    (if has_meta then pm_printf_buffer m else 0)
    (if has_meta then pm_printf_buffer_position m else 0)
    (if has_meta then pm_printf_buffer_capacity m else 0) 0.

Definition to_kernel_completion_result (deq_status : Z) : Z :=
  if deq_status =? 0 then FSA_COMPLETION_RESULT_SUCCESS
  else if deq_status =? 1 then kFsaKernelCompletionException
  else if deq_status =? 2 then kFsaKernelCompletionBadDimension
  else kFsaKernelCompletionUnknownError.

(** ** Addresses of work-group buffers *)

Definition CP_WGI_BUF_BASE : Z := FSA_WGI_BUF_BASE.
Definition wgi_addr (i : nat) : Z := CP_WGI_BUF_BASE + Z.of_nat i * sizeof_cp_wgi_buf.
(** The buffer a pointer refers to. *)
Definition wgi_index (addr : Z) : nat := Z.to_nat ((addr - CP_WGI_BUF_BASE) / sizeof_cp_wgi_buf).

Lemma wgi_index_addr i : wgi_index (wgi_addr i) = i.
Proof.
  unfold wgi_index, wgi_addr. replace (_ + _ - _) with (Z.of_nat i * sizeof_cp_wgi_buf) by lia.
  rewrite Z.div_mul by done. lia.
Qed.
Lemma wgi_addr_inj i j : wgi_addr i = wgi_addr j -> i = j.
Proof. intros H. by rewrite <- (wgi_index_addr i), H, wgi_index_addr. Qed.
Lemma wgi_addr_not_null i : wgi_addr i <> 0.
Proof. unfold wgi_addr, CP_WGI_BUF_BASE, FSA_WGI_BUF_BASE, sizeof_cp_wgi_buf. lia. Qed.

(** ** The two tasks *)

(** An SM: its registers and the work-groups it is running. *)
Record sm_unit := mkUnit {
  su_regs : sm_mmio;
  su_resident : list Z;
}.
Definition zero_unit : sm_unit := mkUnit zero_sm [].

(** Locals of [handle_kernel_dispatch_packet] inside its loop. *)
Record dlocal := mkDlocal {
  d_packet : KernelDispatchPacket;
  d_kid : nat;
  d_id : Z * Z * Z;
  d_wbid : nat;
  d_sm : nat;
  d_base : Z;
}.

Inductive dispatch_pc :=
  | DIdle
  | DInvalidate (p : KernelDispatchPacket)     (* cp_cache_operation_start_and_wait *)
  | DKalloc (p : KernelDispatchPacket)         (* CP_WAIT_UNTIL(cp_kernel_state_buf_alloc() >= 0) *)
  | DWgi (l : dlocal)                          (* CP_WAIT_UNTIL(cp_wgi_buf_alloc() >= 0) *)
  | DSm (l : dlocal) (i : nat)                 (* sm_alloc at iteration i *)
  | DPlace (l : dlocal)                        (* smid, local memory and stack of the buffer *)
  | DRemap (l : dlocal)                        (* wait_for_stack_remap_slot *)
  | DEnqueue (l : dlocal)                      (* the ENQ stores, then update_id *)
  | DPanic (l : dlocal).                      (* cp_panic, which does not return *)

(** Locals of [cp_retire_sm] for one dequeue; [r_drop] when the work-group is
    ignored after its resources are freed. *)
Record rlocal := mkRlocal {
  r_buf : nat;          (* the buffer DEQ_INFO_PTR refers to *)
  r_kid : nat;
  r_wbid : nat;
  r_kstatus_ptr : Z;
  r_result : Z;
  r_kstatus : FsaKernelStatus;
  r_drop : bool;
}.

Inductive retire_pc :=
  | RScan (i : nat)
  | RRead (sm : nat)
  | RFreeLmem (l : rlocal)
  | RFreeRemap (l : rlocal)
  | RFreeWgi (l : rlocal)
  | RCount (l : rlocal)
  | RPublish (l : rlocal)
  | RFreeKernel (l : rlocal).

Record kd_sys := mkKd {
  k_ks : list cp_kernel_state;
  k_wgi : wgi_state;
  k_lmem : list lmem_allocator_t;
  k_sms : list sm_unit;
  k_prev : nat;                               (* sm_alloc's static prev_sm_id *)
  k_pool : list Z;
  k_mem : list (Z * FsaKernelStatus);         (* kernel_status blocks written, in order *)
  k_dpc : dispatch_pc;
  k_rpc : retire_pc;
  k_ids : nat -> list (Z * Z * Z);
  k_rets : nat -> list (Z * FsaKernelStatus);
  k_pkt : nat -> KernelDispatchPacket;
}.

Definition set_dpc (d : dispatch_pc) (s : kd_sys) : kd_sys :=
  mkKd (k_ks s) (k_wgi s) (k_lmem s) (k_sms s) (k_prev s) (k_pool s) (k_mem s) d (k_rpc s) (k_ids s) (k_rets s) (k_pkt s).
Definition set_rpc (r : retire_pc) (s : kd_sys) : kd_sys :=
  mkKd (k_ks s) (k_wgi s) (k_lmem s) (k_sms s) (k_prev s) (k_pool s) (k_mem s) (k_dpc s) r (k_ids s) (k_rets s) (k_pkt s).
Definition set_ks (ks : list cp_kernel_state) (s : kd_sys) : kd_sys :=
  mkKd ks (k_wgi s) (k_lmem s) (k_sms s) (k_prev s) (k_pool s) (k_mem s) (k_dpc s) (k_rpc s) (k_ids s) (k_rets s) (k_pkt s).
Definition set_wgi (w : wgi_state) (s : kd_sys) : kd_sys :=
  mkKd (k_ks s) w (k_lmem s) (k_sms s) (k_prev s) (k_pool s) (k_mem s) (k_dpc s) (k_rpc s) (k_ids s) (k_rets s) (k_pkt s).
Definition set_lmem (l : list lmem_allocator_t) (s : kd_sys) : kd_sys :=
  mkKd (k_ks s) (k_wgi s) l (k_sms s) (k_prev s) (k_pool s) (k_mem s) (k_dpc s) (k_rpc s) (k_ids s) (k_rets s) (k_pkt s).
Definition set_sms (u : list sm_unit) (s : kd_sys) : kd_sys :=
  mkKd (k_ks s) (k_wgi s) (k_lmem s) u (k_prev s) (k_pool s) (k_mem s) (k_dpc s) (k_rpc s) (k_ids s) (k_rets s) (k_pkt s).
Definition set_prev (n : nat) (s : kd_sys) : kd_sys :=
  mkKd (k_ks s) (k_wgi s) (k_lmem s) (k_sms s) n (k_pool s) (k_mem s) (k_dpc s) (k_rpc s) (k_ids s) (k_rets s) (k_pkt s).
Definition set_pool (p : list Z) (s : kd_sys) : kd_sys :=
  mkKd (k_ks s) (k_wgi s) (k_lmem s) (k_sms s) (k_prev s) p (k_mem s) (k_dpc s) (k_rpc s) (k_ids s) (k_rets s) (k_pkt s).
Definition set_mem (m : list (Z * FsaKernelStatus)) (s : kd_sys) : kd_sys :=
  mkKd (k_ks s) (k_wgi s) (k_lmem s) (k_sms s) (k_prev s) (k_pool s) m (k_dpc s) (k_rpc s) (k_ids s) (k_rets s) (k_pkt s).
Definition set_hist (ids : nat -> list (Z * Z * Z)) (rets : nat -> list (Z * FsaKernelStatus))
    (pkt : nat -> KernelDispatchPacket) (s : kd_sys) : kd_sys :=
  mkKd (k_ks s) (k_wgi s) (k_lmem s) (k_sms s) (k_prev s) (k_pool s) (k_mem s) (k_dpc s) (k_rpc s) ids rets pkt.

Definition fupd {A} (f : nat -> A) (k : nat) (v : A) : nat -> A := fun j => if decide (j = k) then v else f j.

Definition unit_at (u : list sm_unit) (i : nat) : sm_unit := nth i u zero_unit.
Definition set_regs (i : nat) (r : sm_mmio) (u : list sm_unit) : list sm_unit :=
  <[i := mkUnit r (su_resident (unit_at u i))]> u.
Definition buf_at (w : wgi_state) (i : nat) : cp_wgi_buf := nth i (wgi_buf w) zero_wgi.
Definition set_buf (i : nat) (b : cp_wgi_buf) (w : wgi_state) : wgi_state :=
  mkWgi (<[i := b]> (wgi_buf w)) (wgi_buf_len w).

(** [g_num_sm], as a bound of SM indices. *)
Definition sm_count (hw : hwinfo_t) : nat := Z.to_nat (g_num_sm hw).

Section tasks.
Context (hw : hwinfo_t) (gen : Z) (meta : Z -> FsaKernelDispatchPrintfMeta).
#[local] Notation num_sm := (sm_count hw).

(** [signal_kernel_failure] *)
Definition signal_kernel_failure (p : KernelDispatchPacket) (result : Z) (s : kd_sys) : kd_sys :=
  let s := if kernel_status p =? 0 then s
           else set_mem (k_mem s ++ [(kernel_status p, zero_kernel_status)]) s in
  set_pool (cp_publish_completion gen (k_pool s) (kd_completion_token p) result) s.

Definition group_count (p : KernelDispatchPacket) : Z :=
  num_groups_x p * num_groups_y p * num_groups_z p.

(** The stores that set up kernel state [kid]; [num_x * num_y * num_z] is an int
    product stored in a uint32_t, taken modulo 2^32. *)
Definition kernel_setup (p : KernelDispatchPacket) (kid : nat) (s : kd_sys) : kd_sys :=
  let s := set_ks (<[kid := mkKernelState (kd_completion_token p) 1 (u32 (group_count p))
                              FSA_COMPLETION_RESULT_SUCCESS zero_kernel_status]> (k_ks s)) s in
  let s := set_hist (fupd (k_ids s) kid []) (fupd (k_rets s) kid []) (fupd (k_pkt s) kid p) s in
  if wg_left (kstate (k_ks s) kid) =? 0 then
    let s := signal_kernel_failure p kFsaKernelCompletionBadDimension s in
    set_dpc DIdle (set_ks (cp_kernel_state_buf_free kid (k_ks s)) s)
  else set_dpc (DWgi (mkDlocal p kid (0, 0, 0) 0 0 0)) s.

(** Filling the buffer the dispatcher has just taken. *)
Definition fill_buf (l : dlocal) (b : cp_wgi_buf) : cp_wgi_buf :=
  let p := d_packet l in
  let w := launch_wginfo meta p in
  mkWgiBuf (mkWGInfo (dim w) (d_id l) (local_size w) (num_groups w) (global_offset w) (num_threads w)
              (trampoline w) (kargs w) (stack_base w) (stack_size w) (local_memory_base w)
              (local_memory_size w) (printf_buffer w) (printf_buffer_position w)
              (printf_buffer_capacity w) (reserved0 w))
    (in_use b) (Z.of_nat (d_wbid l)) (Z.of_nat (d_kid l)) (smid b) (stack_remap_slot b) (kernel_status p).

Definition place_buf (l : dlocal) (stack : Z) (b : cp_wgi_buf) : cp_wgi_buf :=
  let w := wginfo b in
  mkWgiBuf (mkWGInfo (dim w) (wg_id w) (local_size w) (num_groups w) (global_offset w) (num_threads w)
              (trampoline w) (kargs w) stack (stack_size w) (d_base l) (local_memory_size w)
              (printf_buffer w) (printf_buffer_position w) (printf_buffer_capacity w) (reserved0 w))
    (in_use b) (wbid b) (kid b) (Z.of_nat (d_sm l)) (stack_remap_slot b) (kernel_status_ptr b).

(** One iteration of the loop of [sm_alloc]; past the last one the wait yields and
    starts over. *)
Definition sm_alloc_step (l : dlocal) (i : nat) (s : kd_sys) : kd_sys :=
  if (num_sm <=? i)%nat then set_dpc (DSm l 0) s else
  let sm_id := ((k_prev s + i) mod num_sm)%nat in
  if negb (ENQ_VALID (su_regs (unit_at (k_sms s) sm_id)) =? 0) then set_dpc (DSm l (S i)) s else
  let local_mem_size := local_memory_size (launch_wginfo meta (d_packet l)) in
  if local_mem_size =? 0 then
    set_dpc (DPlace (mkDlocal (d_packet l) (d_kid l) (d_id l) (d_wbid l) sm_id 0))
      (set_prev ((sm_id + 1) mod num_sm) s)
  else
    match cp_lmem_allocator_alloc num_sm (k_lmem s) sm_id local_mem_size true with
    | (lm, rc, out) =>
        if negb (rc =? 0) then set_dpc (DSm l (S i)) (set_lmem lm s)
        else set_dpc (DPlace (mkDlocal (d_packet l) (d_kid l) (d_id l) (d_wbid l) sm_id (default 0 out)))
               (set_prev ((sm_id + 1) mod num_sm) (set_lmem lm s))
    end.

Definition wants_remap (p : KernelDispatchPacket) : bool :=
  negb (Z.land (dim_reserved0 p) FSA_KERNEL_DISPATCH_STACK_REMAP =? 0).

(** One step of the dispatch task inside [handle_kernel_dispatch_packet]. *)
Definition dispatch_step (s : kd_sys) : kd_sys :=
  match k_dpc s with
  | DIdle | DPanic _ => s
  | DInvalidate p => set_dpc (DKalloc p) s
  | DKalloc p =>
      match cp_kernel_state_buf_alloc (k_ks s) with
      | Some kid => kernel_setup p kid s
      | None => s
      end
  | DWgi l =>
      match cp_wgi_buf_alloc (k_wgi s) with
      | Some (wb, w) =>
          let l := mkDlocal (d_packet l) (d_kid l) (d_id l) wb 0 0 in
          set_dpc (DSm l 0) (set_wgi (set_buf wb (fill_buf l (buf_at w wb)) w) s)
      | None => s
      end
  | DSm l i => sm_alloc_step l i s
  | DPlace l =>
      match wg_stack_base hw (d_wbid l) (d_sm l) with
      | Some stack =>
          let w := set_buf (d_wbid l) (place_buf l stack (buf_at (k_wgi s) (d_wbid l))) (k_wgi s) in
          set_dpc (if wants_remap (d_packet l) then DRemap l else DEnqueue l) (set_wgi w s)
      | None => set_dpc (DPanic l) s
      end
  | DRemap l =>
      let b := buf_at (k_wgi s) (d_wbid l) in
      let regs := su_regs (unit_at (k_sms s) (d_sm l)) in
      match cp_stack_remap_configure (Some regs) (stack_base (wginfo b)) true with
      | (r, st, out) =>
          if st =? kCpStackRemapFull then s
          else if negb (st =? kCpStackRemapOkay) then set_dpc (DPanic l) s
          else
            let b' := mkWgiBuf (wginfo b) (in_use b) (wbid b) (kid b) (smid b)
                        (Z.of_nat (default 0%nat out)) (kernel_status_ptr b) in
            set_dpc (DEnqueue l)
              (set_wgi (set_buf (d_wbid l) b' (k_wgi s))
                 (set_sms (set_regs (d_sm l) (default regs r) (k_sms s)) s))
      end
  | DEnqueue l =>
      let p := d_packet l in
      let regs := su_regs (unit_at (k_sms s) (d_sm l)) in
      let regs' := set_ENQ (kernel_object p) (wgi_addr (d_wbid l))
                     (num_threads (launch_wginfo meta p)) regs in
      let s := set_sms (set_regs (d_sm l) regs' (k_sms s)) s in
      let s := set_hist (fupd (k_ids s) (d_kid l) (k_ids s (d_kid l) ++ [d_id l])) (k_rets s) (k_pkt s) s in
      match update_id (num_groups_x p) (num_groups_y p) (num_groups_z p) (d_id l) with
      | (true, id) => set_dpc (DWgi (mkDlocal p (d_kid l) id 0 0 0)) s
      | (false, _) => set_dpc DIdle s
      end
  end.

(** [handle_kernel_dispatch_packet] is called. *)
Definition dispatch_packet (p : KernelDispatchPacket) (s : kd_sys) : kd_sys :=
  if negb (valid_kernel_dispatch_packet p)
  then signal_kernel_failure p kFsaKernelCompletionBadDimension s
  else set_dpc (if 1 <? g_num_sm hw then DInvalidate p else DKalloc p) s.

(** ** The retire task *)

Definition clear_deq (sm : nat) (s : kd_sys) : kd_sys :=
  set_sms (set_regs sm (set_DEQ_VALID 0 (su_regs (unit_at (k_sms s) sm))) (k_sms s)) s.

(** From the dequeue registers of SM [sm] to the point where the resources are
    freed, through the guards of the loop body. *)
Definition retire_read (sm : nat) (s : kd_sys) : kd_sys :=
  let regs := su_regs (unit_at (k_sms s) sm) in
  let s' := clear_deq sm s in
  if DEQ_INFO_PTR regs =? 0 then set_rpc (RScan 0) s' else
  let j := wgi_index (DEQ_INFO_PTR regs) in
  let b := buf_at (k_wgi s) j in
  if (wbid b <? 0) || (Z.of_nat (wgi_buf_len (k_wgi s)) <=? wbid b) then set_rpc (RScan 0) s' else
  let loc kid drop := mkRlocal j kid (Z.to_nat (wbid b)) (kernel_status_ptr b)
      (to_kernel_completion_result (DEQ_STATUS regs))
      (mkKernelStatus (DEQ_MCAUSE regs) (DEQ_MEPC regs) (DEQ_MTVAL regs)) drop in
  if (kid b <? 0) || (Z.of_nat kernel_state_buf_size <=? kid b)
  then set_rpc (RFreeLmem (loc 0%nat true)) s' else
  let kidn := Z.to_nat (kid b) in
  if in_use (buf_at (k_wgi s) (Z.to_nat (wbid b))) =? 0 then set_rpc (RScan 0) s' else
  if ks_in_use (kstate (k_ks s) kidn) =? 0 then set_rpc (RFreeLmem (loc kidn true)) s'
  else set_rpc (RFreeLmem (loc kidn false)) s'.

Definition free_wg_local_memory (b : cp_wgi_buf) (lm : list lmem_allocator_t) : list lmem_allocator_t :=
  if (smid b <? 0) || (g_num_sm hw <=? smid b) then lm else
  if local_memory_size (wginfo b) =? 0 then lm else
  fst (cp_lmem_allocator_free num_sm lm (Z.to_nat (smid b)) (local_memory_base (wginfo b))).

Definition free_wg_stack_remap (b : cp_wgi_buf) (u : list sm_unit) : list sm_unit :=
  if (smid b <? 0) || (g_num_sm hw <=? smid b) then u else
  let i := Z.to_nat (smid b) in
  let regs := su_regs (unit_at u i) in
  set_regs i (default regs (cp_stack_remap_release (Some regs) (stack_remap_slot b))) u.

(** The decrement and the bookkeeping of the first failure. *)
Definition retire_count (l : rlocal) (s : kd_sys) : kd_sys :=
  let k := kstate (k_ks s) (r_kid l) in
  if wg_left k =? 0 then set_rpc (RScan 0) s else
  let first := negb (r_result l =? FSA_COMPLETION_RESULT_SUCCESS) &&
               (ks_result k =? FSA_COMPLETION_RESULT_SUCCESS) in
  let k' := mkKernelState (ks_completion_token k) (ks_in_use k) (wg_left k - 1)
              (if first then r_result l else ks_result k)
              (if first then r_kstatus l else ks_status k) in
  let s := set_ks (<[r_kid l := k']> (k_ks s)) s in
  let s := set_hist (k_ids s)
             (fupd (k_rets s) (r_kid l) (k_rets s (r_kid l) ++ [(r_result l, r_kstatus l)])) (k_pkt s) s in
  set_rpc (if wg_left k' =? 0 then RPublish l else RScan 0) s.

Definition retire_step (s : kd_sys) : kd_sys :=
  match k_rpc s with
  | RScan i =>
      if (num_sm <=? i)%nat then set_rpc (RScan 0) s
      else if DEQ_VALID (su_regs (unit_at (k_sms s) i)) =? 0 then set_rpc (RScan (S i)) s
      else set_rpc (RRead i) s
  | RRead sm => retire_read sm s
  | RFreeLmem l =>
      set_rpc (RFreeRemap l)
        (set_lmem (free_wg_local_memory (buf_at (k_wgi s) (r_buf l)) (k_lmem s)) s)
  | RFreeRemap l =>
      set_rpc (RFreeWgi l)
        (set_sms (free_wg_stack_remap (buf_at (k_wgi s) (r_buf l)) (k_sms s)) s)
  | RFreeWgi l =>
      set_rpc (if r_drop l then RScan 0 else RCount l)
        (set_wgi (cp_wgi_buf_free (r_wbid l) (k_wgi s)) s)
  | RCount l => retire_count l s
  | RPublish l =>
      let k := kstate (k_ks s) (r_kid l) in
      let s := if r_kstatus_ptr l =? 0 then s
               else set_mem (k_mem s ++ [(r_kstatus_ptr l, ks_status k)]) s in
      set_rpc (RFreeKernel l)
        (set_pool (cp_publish_completion gen (k_pool s) (ks_completion_token k) (ks_result k)) s)
  | RFreeKernel l =>
      set_rpc (RScan 0) (set_ks (cp_kernel_state_buf_free (r_kid l) (k_ks s)) s)
  end.

(** ** The SMs *)

(** SM [i] takes the work-group on its enqueue registers. *)
Definition sm_accept (i : nat) (s : kd_sys) : kd_sys :=
  let u := unit_at (k_sms s) i in
  let r := su_regs u in
  set_sms (<[i := mkUnit (mkSmMmio 0 (ENQ_KERNEL_PC r) (ENQ_INFO_PTR r) (ENQ_NUM_THREADS r)
      (DEQ_VALID r) (DEQ_STATUS r) (DEQ_KERNEL_PC r) (DEQ_INFO_PTR r) (DEQ_MCAUSE r) (DEQ_MEPC r)
      (DEQ_MTVAL r) (WG_RESIDENT_LIMIT r) (ICACHE_CONTROL r) (DCACHE_CONTROL r) (THREADS_PER_CORE r)
      (STACK_REMAP_ENTRY_COUNT r) (STACK_REMAP_GROUP_SIZE r) (STACK_REMAP_TABLE r))
    (ENQ_INFO_PTR r :: su_resident u)]> (k_sms s)) s.
(** SM [i] posts its [n]-th resident work-group as finished. *)
Definition sm_post (i n : nat) (st : Z) (ks : FsaKernelStatus) (s : kd_sys) : kd_sys :=
  let u := unit_at (k_sms s) i in
  let r := su_regs u in
  set_sms (<[i := mkUnit (mkSmMmio (ENQ_VALID r) (ENQ_KERNEL_PC r) (ENQ_INFO_PTR r) (ENQ_NUM_THREADS r)
      1 st (DEQ_KERNEL_PC r) (nth n (su_resident u) 0) (mcause ks) (mepc ks)
      (mtval ks) (WG_RESIDENT_LIMIT r) (ICACHE_CONTROL r) (DCACHE_CONTROL r) (THREADS_PER_CORE r)
      (STACK_REMAP_ENTRY_COUNT r) (STACK_REMAP_GROUP_SIZE r) (STACK_REMAP_TABLE r))
    (delete n (su_resident u))]> (k_sms s)) s.

(** The grid of a packet is three fields of 16 bits. *)
Definition packet_typed (p : KernelDispatchPacket) : Prop :=
  0 <= num_groups_x p < 2 ^ 16 /\ 0 <= num_groups_y p < 2 ^ 16 /\ 0 <= num_groups_z p < 2 ^ 16.
(** A grid whose work-groups fit the 32-bit count. *)
Definition grid_in_range (p : KernelDispatchPacket) : bool := group_count p <? 2 ^ 32.
Definition packet_ok (p : KernelDispatchPacket) : Prop := packet_typed p /\ group_count p < 2 ^ 32.

(** What is observed: a packet handed to the dispatch task; and of kernel state [k], a
    packet accepted for it, its completion published. *)
Inductive kd_event :=
  | EvReceive (p : KernelDispatchPacket)
  | EvAccept (k : nat) (p : KernelDispatchPacket)
  | EvPublish (k : nat) (token result : Z).
Definition dispatch_events (s : kd_sys) : list kd_event :=
  match k_dpc s with
  | DKalloc p => match cp_kernel_state_buf_alloc (k_ks s) with Some k => [EvAccept k p] | None => [] end
  | _ => []
  end.
Definition retire_events (s : kd_sys) : list kd_event :=
  match k_rpc s with
  | RPublish l =>
      let k := kstate (k_ks s) (r_kid l) in [EvPublish (r_kid l) (ks_completion_token k) (ks_result k)]
  | _ => []
  end.

Inductive kd_step : kd_sys -> list kd_event -> kd_sys -> Prop :=
| kd_packet s p : k_dpc s = DIdle -> packet_typed p -> kd_step s [EvReceive p] (dispatch_packet p s)
| kd_dispatch s : kd_step s (dispatch_events s) (dispatch_step s)
| kd_retire s : kd_step s (retire_events s) (retire_step s)
| kd_accept s i : (i < num_sm)%nat -> ENQ_VALID (su_regs (unit_at (k_sms s) i)) <> 0 ->
    kd_step s [] (sm_accept i s)
| kd_post s i n st ks : (i < num_sm)%nat -> DEQ_VALID (su_regs (unit_at (k_sms s) i)) = 0 ->
    (n < length (su_resident (unit_at (k_sms s) i)))%nat -> kd_step s [] (sm_post i n st ks s).

(** After boot: no kernel, no work-group buffer handed out, idle SMs. *)
Definition kd_init (s : kd_sys) : Prop :=
  length (k_ks s) = kernel_state_buf_size /\ Forall (fun k => ks_in_use k = 0) (k_ks s) /\
  owns (k_wgi s) [] /\ length (k_sms s) = num_sm /\
  Forall (fun u => ENQ_VALID (su_regs u) = 0 /\ su_resident u = [] /\ DEQ_VALID (su_regs u) = 0) (k_sms s) /\
  k_dpc s = DIdle /\ k_rpc s = RScan 0.

(** An execution with what is observed of it, oldest first. *)
Inductive kd_exec : list kd_event -> kd_sys -> Prop :=
| kd_exec_init s : kd_init s -> kd_exec [] s
| kd_exec_step tr s evs s' : kd_exec tr s -> kd_step s evs s' -> kd_exec (tr ++ evs) s'.

(** No packet so far had a grid of 2^32 work-groups or more. *)
Definition grids_in_range (tr : list kd_event) : bool :=
  forallb (fun e => match e with EvReceive p => grid_in_range p | _ => true end) tr.

(** ** The enumeration of work-group ids *)

Definition id_of (p : KernelDispatchPacket) (n : nat) : Z * Z * Z :=
  let n := Z.of_nat n in
  (n / num_groups_z p / num_groups_y p, (n / num_groups_z p) mod num_groups_y p, n mod num_groups_z p).
Definition all_ids (p : KernelDispatchPacket) : list (Z * Z * Z) :=
  id_of p <$> seq 0 (Z.to_nat (group_count p)).

(** ** Invariant *)

Definition slots_of (u : sm_unit) : list Z :=
  (if ENQ_VALID (su_regs u) =? 0 then [] else [ENQ_INFO_PTR (su_regs u)]) ++ su_resident u ++
  (if DEQ_VALID (su_regs u) =? 0 then [] else [DEQ_INFO_PTR (su_regs u)]).
(** The work-groups the SMs hold. *)
Definition flight (s : kd_sys) : list Z := flat_map slots_of (k_sms s).

Definition d_cur (s : kd_sys) : option dlocal :=
  match k_dpc s with
  | DWgi l | DSm l _ | DPlace l | DRemap l | DEnqueue l | DPanic l => Some l
  | _ => None
  end.
Definition held_d (s : kd_sys) : list nat :=
  match k_dpc s with DSm l _ | DPlace l | DRemap l | DEnqueue l | DPanic l => [d_wbid l] | _ => [] end.
Definition held_r (s : kd_sys) : list nat :=
  match k_rpc s with RFreeLmem l | RFreeRemap l | RFreeWgi l => [r_buf l] | _ => [] end.
(** A work-group taken back and not yet counted. *)
Definition r_has (s : kd_sys) (k : nat) : Z :=
  match k_rpc s with
  | RFreeLmem l | RFreeRemap l | RFreeWgi l | RCount l => if decide (r_kid l = k) then 1 else 0
  | _ => 0
  end.
Definition r_publishing (s : kd_sys) (k : nat) : bool :=
  match k_rpc s with RPublish l | RFreeKernel l => bool_decide (r_kid l = k) | _ => false end.

(** Buffer [j] holds a work-group of kernel [k]. *)
Definition buf_of (s : kd_sys) (j k : nat) : Prop :=
  let b := buf_at (k_wgi s) j in
  wbid b = Z.of_nat j /\ kid b = Z.of_nat k /\ kernel_status_ptr b = kernel_status (k_pkt s k).
(** The dispatcher is launching kernel [k]. *)
Definition d_on (s : kd_sys) (k : nat) : bool :=
  match d_cur s with Some l => bool_decide (d_kid l = k) | None => false end.
Definition cnt (w : wgi_state) (fl : list nat) (k : nat) : Z :=
  Z.of_nat (countb (fun j => kid (buf_at w j) =? Z.of_nat k) fl).
Definition rem_d (s : kd_sys) (k : nat) : Z :=
  match d_cur s with
  | Some l => if decide (d_kid l = k) then group_count (d_packet l) - Z.of_nat (length (k_ids s k)) else 0
  | None => 0
  end.

(** The first failure in retirement order, or success. *)
Fixpoint first_failure (rets : list (Z * FsaKernelStatus)) : Z * FsaKernelStatus :=
  match rets with
  | [] => (FSA_COMPLETION_RESULT_SUCCESS, zero_kernel_status)
  | r :: rets' => if fst r =? FSA_COMPLETION_RESULT_SUCCESS then first_failure rets' else r
  end.

Definition kernel_active (s : kd_sys) (fl : list nat) (k : nat) : Prop :=
  let ks := kstate (k_ks s) k in
  let p := k_pkt s k in
  packet_ok p /\ 0 < group_count p /\ ks_completion_token ks = kd_completion_token p /\
  k_ids s k = id_of p <$> seq 0 (length (k_ids s k)) /\
  Z.of_nat (length (k_ids s k)) + rem_d s k = group_count p /\
  wg_left ks = rem_d s k + cnt (k_wgi s) fl k + r_has s k /\
  Z.of_nat (length (k_rets s k)) + wg_left ks = group_count p /\
  (ks_result ks, ks_status ks) = first_failure (k_rets s k) /\
  (r_publishing s k = (wg_left ks =? 0)).
Definition kernel_free (s : kd_sys) (fl : list nat) (k : nat) : Prop :=
  cnt (k_wgi s) fl k = 0 /\ r_has s k = 0 /\ r_publishing s k = false /\ d_on s k = false.
Definition kernel_inv (s : kd_sys) (fl : list nat) (k : nat) : Prop :=
  if ks_in_use (kstate (k_ks s) k) =? 0 then kernel_free s fl k else kernel_active s fl k.

(** The dispatcher's locals. *)
Definition dlocal_ok (s : kd_sys) (l : dlocal) : Prop :=
  (d_kid l < kernel_state_buf_size)%nat /\ d_packet l = k_pkt s (d_kid l) /\
  d_id l = id_of (d_packet l) (length (k_ids s (d_kid l))) /\
  Z.of_nat (length (k_ids s (d_kid l))) < group_count (d_packet l).
Definition dispatch_ok (s : kd_sys) : Prop :=
  match k_dpc s with
  | DIdle => True
  | DInvalidate p | DKalloc p => packet_ok p /\ valid_kernel_dispatch_packet p = true
  | DWgi l | DPanic l => dlocal_ok s l
  | DSm l _ => dlocal_ok s l /\ buf_of s (d_wbid l) (d_kid l)
  | DPlace l | DRemap l | DEnqueue l =>
      dlocal_ok s l /\ buf_of s (d_wbid l) (d_kid l) /\ (d_sm l < num_sm)%nat /\
      ENQ_VALID (su_regs (unit_at (k_sms s) (d_sm l))) = 0
  end.
(** The retire task's locals. *)
Definition rlocal_ok (s : kd_sys) (l : rlocal) : Prop :=
  (r_kid l < kernel_state_buf_size)%nat /\ r_kstatus_ptr l = kernel_status (k_pkt s (r_kid l)).
Definition retire_ok (s : kd_sys) : Prop :=
  match k_rpc s with
  | RScan _ => True
  | RRead sm => (sm < num_sm)%nat /\ DEQ_VALID (su_regs (unit_at (k_sms s) sm)) <> 0
  | RFreeLmem l | RFreeRemap l | RFreeWgi l =>
      r_drop l = false /\ r_wbid l = r_buf l /\ rlocal_ok s l
  | RCount l | RPublish l | RFreeKernel l => rlocal_ok s l
  end.

(** [fl] lists the buffers the SMs hold. *)
Record kd_inv_at (s : kd_sys) (fl : list nat) : Prop := {
  kv_ks : length (k_ks s) = kernel_state_buf_size;
  kv_sms : length (k_sms s) = num_sm;
  kv_own : owns (k_wgi s) (held_d s ++ held_r s ++ fl);
  kv_flight : flight s ≡ₚ wgi_addr <$> fl;
  kv_bufs : forall j, j ∈ fl -> exists k, (k < kernel_state_buf_size)%nat /\ buf_of s j k;
  kv_dispatch : dispatch_ok s;
  kv_retire : retire_ok s;
  kv_kernels : forall k, (k < kernel_state_buf_size)%nat -> kernel_inv s fl k;
}.
Definition kd_inv (s : kd_sys) : Prop := exists fl, kd_inv_at s fl.
End tasks.
