(* ===== verification/KernelInv.v ===== *)
(** * Kernels complete exactly once, with every work-group accounted for

    The invariant of KernelDispatch.v holds after every interleaving of the
    dispatch task, the retire task and the SMs, and gives the properties of kernel
    completion. *)

From stdpp Require Import relations.
From S2P Require Import Prelude AddrMap CommandAbi Platform Completion SlotPool StackRemap LmemAllocator LmemTiling HwInfo KernelDispatch.

(** ** Work-group ids *)

Lemma group_count_bounds p :
  packet_ok p -> valid_kernel_dispatch_packet p = true ->
  0 < num_groups_x p /\ 0 < num_groups_y p /\ 0 < num_groups_z p /\ 0 < group_count p < 2 ^ 32.
Proof.
  intros ((Hx & Hy & Hz) & Hc) Hv. unfold valid_kernel_dispatch_packet in Hv.
  destruct (_ || _); [done|]. bprop. unfold group_count in *. split_and!; lia.
Qed.

(** Mixed-radix successor: [update_id] takes the [n]-th id to the next one and says
    whether there is one. *)
Lemma update_id_spec p n :
  0 < num_groups_x p -> 0 < num_groups_y p -> 0 < num_groups_z p ->
  Z.of_nat n < group_count p ->
  match update_id (num_groups_x p) (num_groups_y p) (num_groups_z p) (id_of p n) with
  | (true, id) => Z.of_nat (S n) < group_count p /\ id = id_of p (S n)
  | (false, _) => Z.of_nat (S n) = group_count p
  end.
Proof.
  intros Hx Hy Hz Hn. unfold id_of, update_id, group_count in *.
  set (X := num_groups_x p) in *. set (Y := num_groups_y p) in *. set (Z0 := num_groups_z p) in *.
  replace (Z.of_nat (S n)) with (Z.of_nat n + 1) by lia.
  set (m := Z.of_nat n) in *. assert (0 <= m) by lia.
  pose proof (Z.div_mod m Z0 ltac:(lia)) as Ez. pose proof (Z.mod_pos_bound m Z0 ltac:(lia)) as Bz.
  set (q := m / Z0) in *. set (z := m mod Z0) in *.
  pose proof (Z.div_mod q Y ltac:(lia)) as Ey. pose proof (Z.mod_pos_bound q Y ltac:(lia)) as By.
  set (x := q / Y) in *. set (y := q mod Y) in *.
  assert (0 <= q) by (apply Z.div_pos; lia). assert (0 <= x) by (apply Z.div_pos; lia).
  assert (Hmod : forall a b r, 0 < b -> 0 <= r < b -> (b * a + r) / b = a /\ (b * a + r) mod b = r).
  { intros a b r Hb Hr. rewrite Z.mul_comm, Z.div_add_l, Z.div_small, (Z.add_comm _ r), Z.mod_add, Z.mod_small by lia. lia. }
  bcase.
  { destruct (Hmod q Z0 (z + 1)) as [E1 E2]; [lia|lia|].
    replace (m + 1) with (Z0 * q + (z + 1)) by lia. rewrite E1, E2. split; [|done].
    assert (q < X * Y); [|nia]. destruct (Z.lt_ge_cases q (X * Y)); [done|]. nia. }
  destruct (Hmod (q + 1) Z0 0) as [E1 E2]; [lia|lia|].
  assert (Em : m + 1 = Z0 * (q + 1) + 0) by lia. rewrite Em, E1, E2.
  assert (Hq : q < X * Y) by (destruct (Z.lt_ge_cases q (X * Y)); [done|nia]).
  bcase.
  { destruct (Hmod x Y (y + 1)) as [F1 F2]; [lia|lia|].
    replace (q + 1) with (Y * x + (y + 1)) by lia. rewrite F1, F2. split; [|done].
    assert (x < X); [|nia]. destruct (Z.lt_ge_cases x X); [done|]. nia. }
  destruct (Hmod (x + 1) Y 0) as [F1 F2]; [lia|lia|].
  assert (Eq : q + 1 = Y * (x + 1) + 0) by lia. rewrite Eq, F1, F2.
  assert (Hx' : x < X) by (destruct (Z.lt_ge_cases x X); [done|nia]).
  bcase; [split; [nia|done]|]. assert (x + 1 = X) by lia. nia.
Qed.

(** The ids are all distinct and are exactly those inside the grid. *)
Lemma id_of_inj p m n :
  0 < num_groups_y p -> 0 < num_groups_z p -> id_of p m = id_of p n -> m = n.
Proof.
  intros Hy Hz H. unfold id_of in H. injection H as H1 H2 H3.
  assert (Hq : Z.of_nat m / num_groups_z p = Z.of_nat n / num_groups_z p).
  { rewrite (Z.div_mod (Z.of_nat m / num_groups_z p) (num_groups_y p)) by lia.
    rewrite H1, H2. symmetry. apply Z.div_mod. lia. }
  apply Nat2Z.inj. rewrite (Z.div_mod (Z.of_nat m) (num_groups_z p)) by lia.
  rewrite Hq, H3. symmetry. apply Z.div_mod. lia.
Qed.

Lemma id_of_surj p x y z :
  0 <= x < num_groups_x p -> 0 <= y < num_groups_y p -> 0 <= z < num_groups_z p ->
  exists n, Z.of_nat n < group_count p /\ id_of p n = (x, y, z).
Proof.
  intros Hx Hy Hz. exists (Z.to_nat (z + num_groups_z p * (y + num_groups_y p * x))).
  assert (Hq : 0 <= y + num_groups_y p * x < num_groups_x p * num_groups_y p) by nia.
  unfold id_of, group_count. rewrite Z2Nat.id by nia. split; [nia|].
  rewrite (Z.mul_comm (num_groups_z p)), Z.div_add, Z.mod_add, (Z.div_small z), (Z.mod_small z), Z.add_0_l by lia.
  rewrite (Z.mul_comm (num_groups_y p)), Z.div_add, Z.mod_add, (Z.div_small y), (Z.mod_small y), Z.add_0_l by lia.
  done.
Qed.

Lemma all_ids_grid p :
  0 < num_groups_x p -> 0 < num_groups_y p -> 0 < num_groups_z p ->
  NoDup (all_ids p) /\
  forall x y z, (x, y, z) ∈ all_ids p <->
    0 <= x < num_groups_x p /\ 0 <= y < num_groups_y p /\ 0 <= z < num_groups_z p.
Proof.
  intros Hx Hy Hz. unfold all_ids. split.
  - apply NoDup_fmap_2_strong; [|apply NoDup_seq]. intros m n _ _. by apply id_of_inj.
  - intros x y z. rewrite list_elem_of_fmap. split.
    + intros (n & Hid & Hn). apply elem_of_seq in Hn. unfold id_of in Hid. injection Hid as -> -> ->.
      assert (0 <= Z.of_nat n < group_count p) as Hb by lia. unfold group_count in Hb.
      split_and!; try apply Z.mod_pos_bound; try lia.
      * repeat apply Z.div_pos; lia.
      * apply Z.div_lt_upper_bound; [lia|]. apply Z.div_lt_upper_bound; [lia|]. nia.
    + intros (? & ? & ?). destruct (id_of_surj p x y z) as (n & Hn & Hid); try lia.
      exists n. split; [done|]. apply elem_of_seq. lia.
Qed.

(** ** The work-groups the SMs hold *)

Lemma flat_map_insert_split {A B} (f : A -> list B) (l : list A) i x :
  l !! i = Some x -> exists rest, flat_map f l ≡ₚ f x ++ rest /\
    forall y, flat_map f (<[i := y]> l) ≡ₚ f y ++ rest.
Proof.
  intros H. exists (flat_map f (take i l) ++ flat_map f (drop (S i) l)).
  assert (Hsw : forall y, flat_map f (take i l ++ y :: drop (S i) l) ≡ₚ
    f y ++ flat_map f (take i l) ++ flat_map f (drop (S i) l)).
  { intros y. rewrite flat_map_app. cbn [flat_map]. by rewrite !app_assoc, (Permutation_app_comm (f y)). }
  split.
  - rewrite <- (take_drop_middle l i x H) at 1. apply Hsw.
  - intros y. rewrite insert_take_drop by (by eapply lookup_lt_Some). apply Hsw.
Qed.

Lemma unit_at_lookup (u : list sm_unit) i : (i < length u)%nat -> u !! i = Some (unit_at u i).
Proof. apply nth_lookup_lt. Qed.

Lemma unit_at_insert (u : list sm_unit) i j x :
  (i < length u)%nat -> unit_at (<[i := x]> u) j = if decide (j = i) then x else unit_at u j.
Proof. apply nth_insert. Qed.

(** An update of SM [i] that keeps what it holds keeps what all hold. *)
Lemma flight_same (u : list sm_unit) i x :
  (i < length u)%nat -> slots_of x ≡ₚ slots_of (unit_at u i) ->
  flat_map slots_of (<[i := x]> u) ≡ₚ flat_map slots_of u.
Proof.
  intros Hi Hx. destruct (flat_map_insert_split slots_of u i _ (unit_at_lookup u i Hi)) as (r & H1 & H2).
  by rewrite H1, H2, Hx.
Qed.

(** ** Counting work-groups of a kernel *)

Lemma countb_ext {A} (f g : A -> bool) l :
  (forall x, x ∈ l -> f x = g x) -> countb f l = countb g l.
Proof.
  induction l as [|x l IH]; intros H; [done|]. rewrite !countb_cons, H, IH; [done| |left].
  intros y Hy. apply H. by right.
Qed.

Lemma cnt_ext w w' fl k :
  (forall j, j ∈ fl -> kid (buf_at w' j) = kid (buf_at w j)) -> cnt w' fl k = cnt w fl k.
Proof. intros H. unfold cnt. f_equal. apply countb_ext. intros j Hj. by rewrite H. Qed.

Lemma cnt_cons w j fl k :
  cnt w (j :: fl) k = (if kid (buf_at w j) =? Z.of_nat k then 1 else 0) + cnt w fl k.
Proof. unfold cnt. rewrite countb_cons. destruct (_ =? _); lia. Qed.

Lemma cnt_middle w l1 j l2 k :
  cnt w (l1 ++ j :: l2) k = (if kid (buf_at w j) =? Z.of_nat k then 1 else 0) + cnt w (l1 ++ l2) k.
Proof. unfold cnt. rewrite !countb_app, countb_cons. destruct (_ =? _); lia. Qed.

Lemma cnt_nonneg w fl k : 0 <= cnt w fl k.
Proof. unfold cnt. lia. Qed.

Lemma cnt_pos w fl j k : j ∈ fl -> kid (buf_at w j) = Z.of_nat k -> 0 < cnt w fl k.
Proof.
  intros Hj Hk. apply list_elem_of_split in Hj as (l1 & l2 & ->).
  rewrite cnt_middle, Hk, Z.eqb_refl. pose proof (cnt_nonneg w (l1 ++ l2) k). lia.
Qed.

Lemma r_has_nonneg s k : 0 <= r_has s k.
Proof. unfold r_has. destruct (k_rpc s); try case_decide; lia. Qed.

(** A step that moves the kernel's work-groups between the SMs and the retire task
    and leaves the rest of the kernel alone keeps its invariant. *)
Lemma kernel_inv_ext s s' fl fl' k :
  kstate (k_ks s') k = kstate (k_ks s) k -> k_pkt s' k = k_pkt s k ->
  k_ids s' k = k_ids s k -> k_rets s' k = k_rets s k ->
  rem_d s' k = rem_d s k -> d_on s' k = d_on s k -> r_publishing s' k = r_publishing s k ->
  cnt (k_wgi s') fl' k + r_has s' k = cnt (k_wgi s) fl k + r_has s k ->
  kernel_inv s fl k -> kernel_inv s' fl' k.
Proof.
  intros E1 E2 E3 E4 E5 E6 E7 E8. unfold kernel_inv. rewrite E1.
  pose proof (cnt_nonneg (k_wgi s) fl k). pose proof (cnt_nonneg (k_wgi s') fl' k).
  pose proof (r_has_nonneg s k). pose proof (r_has_nonneg s' k).
  destruct (_ =? 0).
  - unfold kernel_free. rewrite E6, E7. intros (? & ? & ? & ?). split_and!; auto; lia.
  - unfold kernel_active. rewrite E1, E2, E3, E4, E5, E7.
    intros (? & ? & ? & ? & ? & ? & ? & ? & ?). split_and!; auto; lia.
Qed.

Section inv.
Context (hw : hwinfo_t) (gen : Z) (meta : Z -> FsaKernelDispatchPrintfMeta).
#[local] Notation num_sm := (sm_count hw).
#[local] Notation inv := (kd_inv_at hw).

(** ** Steps that leave the invariant's view of the state alone *)

Lemma inv_set_lmem s fl l : inv s fl -> inv (set_lmem l s) fl.
Proof. intros []. by constructor. Qed.
Lemma inv_set_prev s fl n : inv s fl -> inv (set_prev n s) fl.
Proof. intros []. by constructor. Qed.
Lemma inv_set_pool s fl n : inv s fl -> inv (set_pool n s) fl.
Proof. intros []. by constructor. Qed.
Lemma inv_set_mem s fl n : inv s fl -> inv (set_mem n s) fl.
Proof. intros []. by constructor. Qed.

(** The dispatcher moves on with the same kernel, id and buffer. *)
Lemma inv_set_dpc s fl d :
  inv s fl -> held_d (set_dpc d s) = held_d s ->
  (forall k, d_on (set_dpc d s) k = d_on s k) -> (forall k, rem_d (set_dpc d s) k = rem_d s k) ->
  dispatch_ok hw (set_dpc d s) -> inv (set_dpc d s) fl.
Proof.
  intros [Hks Hsms Hown Hfl Hb Hd Hr Hk] Hh Hon Hrem Hd'. constructor; try done.
  - by rewrite Hh.
  - intros k Hlt. by apply (kernel_inv_ext s _ fl fl); [..|apply Hk].
Qed.

Lemma inv_set_rpc s fl r :
  inv s fl -> held_r (set_rpc r s) = held_r s ->
  (forall k, r_has (set_rpc r s) k = r_has s k) ->
  (forall k, r_publishing (set_rpc r s) k = r_publishing s k) ->
  retire_ok hw (set_rpc r s) -> inv (set_rpc r s) fl.
Proof.
  intros [Hks Hsms Hown Hfl Hb Hd Hr Hk] Hh Hhas Hpub Hr'. constructor; try done.
  - by rewrite Hh.
  - intros k Hlt. apply (kernel_inv_ext s _ fl fl); try done; [|by apply Hk].
    by rewrite Hhas.
Qed.

(** An SM's registers change and it keeps its work-groups; a free enqueue side
    stays free, a posted work-group stays posted. *)
Lemma inv_set_unit s fl i u :
  inv s fl -> (i < num_sm)%nat ->
  slots_of u ≡ₚ slots_of (unit_at (k_sms s) i) ->
  (ENQ_VALID (su_regs (unit_at (k_sms s) i)) = 0 -> ENQ_VALID (su_regs u) = 0) ->
  (DEQ_VALID (su_regs (unit_at (k_sms s) i)) <> 0 -> DEQ_VALID (su_regs u) <> 0) ->
  inv (set_sms (<[i := u]> (k_sms s)) s) fl.
Proof.
  intros [Hks Hsms Hown Hfl Hb Hd Hr Hk] Hi Hsl Henq Hdeq.
  constructor; try done; cbn [k_sms set_sms].
  - by rewrite length_insert.
  - unfold flight. cbn [k_sms set_sms]. by rewrite flight_same by (done || lia).
  - unfold dispatch_ok in *. cbn [k_dpc k_sms set_sms]. rewrite <- Hsms in Hi.
    destruct (k_dpc s); try done;
      destruct Hd as (? & ? & ? & ?); split_and!; try done; rewrite unit_at_insert by done;
      case_decide; subst; auto.
  - unfold retire_ok in *. cbn [k_rpc k_sms set_sms]. destruct (k_rpc s); try done.
    destruct Hr. split; [done|]. rewrite unit_at_insert by lia. case_decide; subst; auto.
Qed.

Lemma inv_set_regs s fl i r :
  inv s fl -> (i < num_sm)%nat ->
  let r0 := su_regs (unit_at (k_sms s) i) in
  ENQ_VALID r = ENQ_VALID r0 -> ENQ_INFO_PTR r = ENQ_INFO_PTR r0 ->
  DEQ_VALID r = DEQ_VALID r0 -> DEQ_INFO_PTR r = DEQ_INFO_PTR r0 ->
  inv (set_sms (set_regs i r (k_sms s)) s) fl.
Proof.
  intros Hinv Hi r0 E1 E2 E3 E4. unfold set_regs. apply inv_set_unit; try done.
  - unfold slots_of. cbn [su_regs su_resident]. by rewrite E1, E2, E3, E4.
  - cbn [su_regs]. by rewrite E1.
  - cbn [su_regs]. by rewrite E3.
Qed.

(** ** Work-group buffers *)

Lemma buf_at_set w i b j :
  (i < length (wgi_buf w))%nat -> buf_at (set_buf i b w) j = if decide (j = i) then b else buf_at w j.
Proof. apply nth_insert. Qed.

Lemma owns_set_buf w i b own :
  (i < length (wgi_buf w))%nat -> in_use b = in_use (buf_at w i) ->
  owns w own -> owns (set_buf i b w) own.
Proof.
  intros Hi Hb (Hwf & Hnd & Hlt & Hown). split_and!; auto.
  - simpl in *. by rewrite length_insert.
  - intros j Hj. rewrite <- Hown by done. simpl. rewrite nth_insert by done.
    case_decide as E; [|done]. subst j. by rewrite Hb.
Qed.

(** A buffer is filled in further, keeping its owner and its kernel. *)
Lemma inv_set_buf s fl i b :
  inv s fl -> (i < length (wgi_buf (k_wgi s)))%nat ->
  in_use b = in_use (buf_at (k_wgi s) i) -> wbid b = wbid (buf_at (k_wgi s) i) ->
  kid b = kid (buf_at (k_wgi s) i) -> kernel_status_ptr b = kernel_status_ptr (buf_at (k_wgi s) i) ->
  inv (set_wgi (set_buf i b (k_wgi s)) s) fl.
Proof.
  intros [Hks Hsms Hown Hfl Hb Hd Hr Hk] Hi E1 E2 E3 E4.
  assert (Hbuf : forall j k, buf_of s j k -> buf_of (set_wgi (set_buf i b (k_wgi s)) s) j k).
  { intros j k (? & ? & ?). unfold buf_of. cbn [k_wgi set_wgi k_pkt].
    rewrite buf_at_set by done. case_decide; [subst j|by split_and!]. rewrite E2, E3, E4. by split_and!. }
  constructor; try done.
  - by apply owns_set_buf.
  - intros j Hj. destruct (Hb j Hj) as (k & ? & ?). exists k. auto.
  - unfold dispatch_ok in *. cbn [k_dpc set_wgi k_sms] in *. destruct (k_dpc s); try done;
      naive_solver.
  - intros k Hlt. apply (kernel_inv_ext s _ fl fl); try done; [|by apply Hk].
    f_equal. apply cnt_ext. intros j _. cbn [k_wgi set_wgi]. rewrite buf_at_set by done.
    case_decide; subst; done.
Qed.

Lemma held_d_lt s fl l :
  inv s fl -> held_d s = [d_wbid l] -> (d_wbid l < length (wgi_buf (k_wgi s)))%nat.
Proof.
  intros [_ _ (Hwf & _ & Hlt & _) _ _ _ _ _] Hh. rewrite Hh in Hlt. simpl in *.
  apply Forall_cons in Hlt as [? _]. lia.
Qed.

Lemma owns_perm (w : wgi_state) own own' : own ≡ₚ own' -> owns w own -> owns w own'.
Proof.
  intros Hp (Hwf & Hnd & Hlt & Hown). split_and!; auto.
  - by rewrite <- Hp.
  - by rewrite <- Hp.
  - intros j Hj. rewrite Hown by done. by rewrite Hp.
Qed.

(** ** The dispatch task *)

Lemma inv_signal_failure s fl p result : inv s fl -> inv (signal_kernel_failure gen p result s) fl.
Proof. intros. unfold signal_kernel_failure. apply inv_set_pool. bcase; [done|by apply inv_set_mem]. Qed.

Lemma inv_packet s fl p :
  inv s fl -> k_dpc s = DIdle -> packet_ok p -> inv (dispatch_packet hw gen p s) fl.
Proof.
  intros Hinv Hpc Hp. unfold dispatch_packet. destruct (valid_kernel_dispatch_packet p) eqn:Hv; simpl.
  2: by apply inv_signal_failure.
  apply inv_set_dpc; unfold held_d, d_on, rem_d, d_cur; rewrite ?Hpc; cbn [k_dpc set_dpc];
    try done; by bcase.
Qed.

Lemma kstate_insert ks i x j :
  (i < length ks)%nat -> kstate (<[i := x]> ks) j = if decide (j = i) then x else kstate ks j.
Proof. apply nth_insert. Qed.

Lemma alloc_kernel_free s fl kid :
  inv s fl -> cp_kernel_state_buf_alloc (k_ks s) = Some kid ->
  (kid < kernel_state_buf_size)%nat /\ kernel_free s fl kid.
Proof.
  intros [_ _ _ _ _ _ _ Hk] H. apply find_first_Some in H as (Hlt & Hu & _).
  split; [done|]. specialize (Hk kid Hlt). unfold kernel_inv in Hk. by rewrite Hu in Hk.
Qed.

(** A packet is recorded for a kernel state nothing refers to. *)
Lemma retire_ok_fresh s fl kid pkt ks ids rets :
  kernel_free s fl kid -> retire_ok hw s ->
  retire_ok hw (set_hist ids rets (fupd (k_pkt s) kid pkt) (set_ks ks s)).
Proof.
  intros (_ & Hr & Hp & _) H. unfold retire_ok, rlocal_ok, r_has, r_publishing in *.
  cbn [k_rpc k_sms k_pkt set_hist set_ks]. unfold fupd.
  destruct (k_rpc s); try done; try case_decide; try done;
    rewrite decide_False; auto; intros E; by rewrite bool_decide_true in Hp.
Qed.

Lemma kernel_setup_eq p kid s :
  packet_ok p -> valid_kernel_dispatch_packet p = true -> (kid < length (k_ks s))%nat ->
  kernel_setup gen p kid s =
  set_dpc (DWgi (mkDlocal p kid (0, 0, 0) 0 0 0))
    (set_hist (fupd (k_ids s) kid []) (fupd (k_rets s) kid []) (fupd (k_pkt s) kid p)
       (set_ks (<[kid := mkKernelState (kd_completion_token p) 1 (group_count p)
                           FSA_COMPLETION_RESULT_SUCCESS zero_kernel_status]> (k_ks s)) s)).
Proof.
  intros Hp Hv Hk. destruct (group_count_bounds p Hp Hv) as (_ & _ & _ & Hc).
  unfold kernel_setup. cbn [k_ks set_hist set_ks]. rewrite wrap_small by lia.
  rewrite kstate_insert, decide_True by done. cbn [wg_left].
  by rewrite (proj2 (Z.eqb_neq _ _)) by lia.
Qed.

Lemma inv_kernel_setup s fl p kid :
  inv s fl -> k_dpc s = DKalloc p -> cp_kernel_state_buf_alloc (k_ks s) = Some kid ->
  inv (kernel_setup gen p kid s) fl.
Proof.
  intros Hinv Hpc Ha. destruct (alloc_kernel_free s fl kid Hinv Ha) as [Hlt Hfree].
  destruct Hinv as [Hks Hsms Hown Hfl Hb Hd Hr Hk].
  unfold dispatch_ok in Hd. rewrite Hpc in Hd. destruct Hd as [Hp Hv].
  destruct (group_count_bounds p Hp Hv) as (_ & _ & _ & Hc).
  rewrite kernel_setup_eq by (done || lia).
  assert (Hd0 : d_cur s = None) by (unfold d_cur; by rewrite Hpc).
  constructor; try done.
  - cbn [k_ks set_dpc set_hist set_ks]. by rewrite length_insert.
  - unfold held_d in *. rewrite Hpc in Hown. done.
  - intros j Hj. destruct (Hb j Hj) as (k & Hlt' & H1 & H2 & H3). exists k. split; [done|].
    unfold buf_of. cbn [k_wgi k_pkt set_dpc set_hist set_ks]. unfold fupd. rewrite decide_False; [done|].
    intros ->. destruct Hfree as (Hc0 & _). pose proof (cnt_pos _ _ _ _ Hj H2). lia.
  - unfold dispatch_ok, dlocal_ok, fupd. cbn. rewrite !decide_True by done. simpl.
    split_and!; try done; try lia; unfold id_of; by rewrite !Zdiv_0_l, !Zmod_0_l.
  - by apply (retire_ok_fresh s fl).
  - intros k Hlt'. destruct (decide (k = kid)) as [->|Hne].
    + unfold kernel_inv. cbn [k_ks set_dpc set_hist set_ks].
      rewrite kstate_insert, decide_True by lia. simpl.
      unfold kernel_active. cbn [k_ks set_dpc set_hist set_ks k_pkt k_ids k_rets k_wgi].
      rewrite kstate_insert, decide_True by lia. unfold fupd, rem_d. cbn.
      rewrite !decide_True by done. cbn. destruct Hfree as (Hc0 & Hh & Hp0 & _).
      change (r_has _ kid) with (r_has s kid). change (r_publishing _ kid) with (r_publishing s kid).
      rewrite Hh, Hp0, Hc0. split_and!; try done; lia.
    + apply (kernel_inv_ext s _ fl fl); try done; try (by apply Hk);
        cbn [k_ks set_dpc set_hist set_ks k_pkt k_ids k_rets k_wgi]; unfold fupd;
        rewrite ?decide_False by done; try done.
      * by rewrite kstate_insert, decide_False by (done || lia).
      * unfold rem_d. rewrite Hd0. cbn. by rewrite decide_False by done.
      * unfold d_on. rewrite Hd0. cbn. by rewrite bool_decide_false.
Qed.

Lemma inv_wgi_alloc s fl l wb w :
  inv s fl -> k_dpc s = DWgi l -> cp_wgi_buf_alloc (k_wgi s) = Some (wb, w) ->
  let l := mkDlocal (d_packet l) (d_kid l) (d_id l) wb 0 0 in
  inv (set_dpc (DSm l 0) (set_wgi (set_buf wb (fill_buf meta l (buf_at w wb)) w) s)) fl.
Proof.
  intros [Hks Hsms Hown Hfl Hb Hd Hr Hk] Hpc Ha l'.
  unfold dispatch_ok in Hd. rewrite Hpc in Hd.
  unfold held_d in Hown. rewrite Hpc in Hown. simpl in Hown.
  pose proof (pool_step_alloc (k_wgi s) _ tt Hown eq_refl) as Hp. simpl in Hp. rewrite Ha in Hp.
  destruct Hp as (Hlen & own' & Hown' & Hspec). inversion Hspec as [? ? ? Hlt Hni _| |]; subst.
  unfold cp_wgi_buf_alloc in Ha. destruct (find_first _ _) as [i|] eqn:Ef; [|done].
  injection Ha as -> <-.
  assert (Hwb : (wb < length (wgi_buf (k_wgi s)))%nat) by (destruct Hown as [Hwf _]; simpl in *; lia).
  assert (Hother : forall j b, j <> wb -> buf_at (set_buf wb b (mkWgi (<[wb:=wgi_set_use 1 (-1)
    (nth wb (wgi_buf (k_wgi s)) zero_wgi)]> (wgi_buf (k_wgi s))) (wgi_buf_len (k_wgi s)))) j
    = buf_at (k_wgi s) j).
  { intros j b Hj. rewrite buf_at_set by (simpl; by rewrite length_insert). rewrite decide_False by done.
    unfold buf_at. simpl. by rewrite nth_insert, decide_False. }
  constructor; try done.
  - apply owns_set_buf; [simpl; by rewrite length_insert|done|]. exact Hown'.
  - intros j Hj. destruct (Hb j Hj) as (k & Hlt' & H1). exists k. split; [done|].
    unfold buf_of. cbn [k_wgi k_pkt set_dpc set_wgi]. rewrite Hother; [done|].
    intros ->. apply Hni. apply elem_of_app. by right.
  - unfold dispatch_ok. cbn [k_dpc set_dpc]. split; [done|]. destruct Hd as (_ & Hpk & _).
    unfold buf_of. cbn [k_wgi k_pkt set_dpc set_wgi]. rewrite buf_at_set by (simpl; by rewrite length_insert).
    rewrite decide_True by done. simpl. by rewrite Hpk.
  - intros k Hlt'. apply (kernel_inv_ext s _ fl fl); try done; try (by apply Hk).
    + unfold rem_d, d_cur. cbn [k_dpc set_dpc]. by rewrite Hpc.
    + unfold d_on, d_cur. cbn [k_dpc set_dpc]. by rewrite Hpc.
    + f_equal. apply cnt_ext. intros j Hj. cbn [k_wgi set_dpc set_wgi]. rewrite Hother; [done|].
      intros ->. apply Hni. apply elem_of_app. by right.
Qed.

(** What an enqueue leaves behind, for both answers of [update_id]. *)
Definition after_enqueue (l : dlocal) (s' : kd_sys) : Prop :=
  held_d s' = [] /\ dispatch_ok hw s' /\
  (forall k, rem_d s' k = if decide (k = d_kid l)
     then group_count (d_packet l) - Z.of_nat (length (k_ids s' k)) else 0) /\
  (forall k, k <> d_kid l -> d_on s' k = false).

Lemma active_of_dispatch s fl l :
  inv s fl -> d_cur s = Some l -> (d_kid l < kernel_state_buf_size)%nat ->
  kernel_active s fl (d_kid l) /\ (ks_in_use (kstate (k_ks s) (d_kid l)) =? 0) = false.
Proof.
  intros [_ _ _ _ _ _ _ Hk] Hd Hlt. specialize (Hk _ Hlt). unfold kernel_inv in Hk.
  destruct (_ =? 0); [|done]. destruct Hk as (_ & _ & _ & Hon). unfold d_on in Hon.
  rewrite Hd, bool_decide_true in Hon by done. done.
Qed.

Lemma after_enqueue_step l s0 s :
  (d_kid l < kernel_state_buf_size)%nat -> d_packet l = k_pkt s (d_kid l) ->
  packet_ok (d_packet l) -> 0 < group_count (d_packet l) ->
  d_id l = id_of (d_packet l) (length (k_ids s0 (d_kid l))) ->
  Z.of_nat (length (k_ids s0 (d_kid l))) < group_count (d_packet l) ->
  k_ids s (d_kid l) = k_ids s0 (d_kid l) ++ [d_id l] ->
  let p := d_packet l in
  after_enqueue l
    (match update_id (num_groups_x p) (num_groups_y p) (num_groups_z p) (d_id l) with
     | (true, id) => set_dpc (DWgi (mkDlocal p (d_kid l) id 0 0 0)) s
     | (false, _) => set_dpc DIdle s
     end).
Proof.
  intros Hlt Hpk Hp Hpos Hid Hn Hids p.
  assert (0 < num_groups_x p /\ 0 < num_groups_y p /\ 0 < num_groups_z p) as (Hx & Hy & Hz).
  { destruct Hp as ((? & ? & ?) & ?). subst p. unfold group_count in *. split_and!; nia. }
  pose proof (update_id_spec p _ Hx Hy Hz Hn) as Hu. subst p. rewrite <- Hid in Hu.
  assert (Hlen : length (k_ids s (d_kid l)) = S (length (k_ids s0 (d_kid l)))).
  { rewrite Hids, length_app. simpl. lia. }
  destruct (update_id _ _ _ _) as [[] id]; cbv zeta; unfold after_enqueue, rem_d, d_on, d_cur, held_d;
    cbn [k_dpc set_dpc k_ids]; split_and!; try done.
  - unfold dispatch_ok, dlocal_ok. cbn. rewrite Hlen. destruct Hu as [? ->]. by split_and!.
  - intros k. cbn. case_decide as E; [subst k; by rewrite decide_True|by rewrite decide_False].
  - intros k Hk. cbn. by apply bool_decide_false.
  - intros k. case_decide as E; [|done]. subst k. rewrite Hlen. lia.
Qed.

Lemma inv_enqueue s fl l :
  inv s fl -> k_dpc s = DEnqueue l -> inv (dispatch_step hw gen meta s) (d_wbid l :: fl).
Proof.
  intros Hinv Hpc. pose proof Hinv as [Hks Hsms Hown Hfl Hb Hd Hr Hk].
  unfold dispatch_step. rewrite Hpc. cbv zeta.
  unfold dispatch_ok in Hd. rewrite Hpc in Hd. destruct Hd as ((Hlt & Hpk & Hid & Hn) & Hbuf & Hsm & Henq).
  assert (Hdc : d_cur s = Some l) by (unfold d_cur; by rewrite Hpc).
  destruct (active_of_dispatch s fl l Hinv Hdc Hlt) as [Hact Huse].
  pose proof Hact as (Hp & Hpos & Htok & Hids & Hsum & Hleft & Hrets & Hff & Hpub).
  rewrite <- Hpk in Hp, Hpos, Hsum, Htok, Hids, Hrets.
  set (regs' := set_ENQ _ _ _ _).
  set (s1 := set_hist _ _ _ _).
  pose proof (after_enqueue_step l s s1 Hlt Hpk Hp Hpos Hid Hn) as Hafter. cbv zeta in Hafter.
  set (s' := match update_id _ _ _ _ with (true, _) => _ | (false, _) => _ end) in *.
  destruct Hafter as (Hheld & Hdok & Hrem & Hon).
  { subst s1. cbn. unfold fupd. by rewrite decide_True. }
  assert (Hsame : k_ks s' = k_ks s1 /\ k_wgi s' = k_wgi s1 /\ k_sms s' = k_sms s1 /\
    k_rpc s' = k_rpc s1 /\ k_ids s' = k_ids s1 /\ k_rets s' = k_rets s1 /\ k_pkt s' = k_pkt s1).
  { subst s'. destruct (update_id _ _ _ _) as [[] ?]; by split_and!. }
  clearbody s'. destruct Hsame as (E1 & E2 & E3 & E4 & E5 & E6 & E7). subst s1. cbn in E1, E2, E3, E4, E5, E6, E7.
  assert (Hhr : held_r s' = held_r s) by (unfold held_r; by rewrite E4).
  constructor.
  - by rewrite E1.
  - rewrite E3. unfold set_regs. by rewrite length_insert.
  - rewrite E2, Hheld, Hhr. unfold held_d in Hown. rewrite Hpc in Hown. revert Hown.
    apply owns_perm. simpl. by rewrite <- Permutation_middle.
  - unfold flight. rewrite E3. unfold set_regs.
    destruct (flat_map_insert_split slots_of (k_sms s) (d_sm l) _ (unit_at_lookup (k_sms s) (d_sm l) ltac:(lia))) as (r & H1 & H2).
    rewrite H2. unfold flight in Hfl. rewrite H1 in Hfl. simpl. rewrite <- Hfl.
    unfold slots_of. rewrite Henq. subst regs'. simpl. done.
  - intros j Hj. assert (Hbj : exists k, (k < kernel_state_buf_size)%nat /\ buf_of s j k).
    { apply elem_of_cons in Hj as [->|Hj]; [by eexists|by apply Hb]. }
    destruct Hbj as (k & ? & ?). exists k. unfold buf_of. by rewrite E2, E7.
  - done.
  - unfold retire_ok, rlocal_ok in *. rewrite E4, E7, E3. destruct (k_rpc s); try done.
    destruct Hr. split; [done|]. unfold set_regs. rewrite unit_at_insert by lia. case_decide; [subst sm|done].
    by subst regs'.
  - intros k Hlt'. destruct Hbuf as (_ & Hkid & _).
    assert (Hhas : r_has s' k = r_has s k) by (unfold r_has; by rewrite E4).
    assert (Hpb : r_publishing s' k = r_publishing s k) by (unfold r_publishing; by rewrite E4).
    specialize (Hrem k).
    destruct (decide (k = d_kid l)) as [->|Hne].
    + unfold kernel_inv. rewrite E1, Huse. unfold kernel_active.
      rewrite E1, E7, E6, E2, Hhas, Hpb, Hrem, E5, cnt_cons, Hkid, Z.eqb_refl. rewrite <- Hpk.
      unfold fupd. rewrite decide_True by done. rewrite length_app. simpl.
      unfold rem_d in Hleft, Hsum. rewrite Hdc, decide_True in Hleft, Hsum by done.
      split_and!; try done; try lia.
      rewrite Nat.add_comm. cbn [Nat.add]. rewrite seq_S, fmap_app. simpl. by rewrite <- Hids, <- Hid.
    + apply (kernel_inv_ext s _ fl); try (by apply Hk); try done; try (by rewrite ?E1, ?E7, ?E6).
      * rewrite E5. unfold fupd. by rewrite decide_False.
      * rewrite Hrem. unfold rem_d. by rewrite Hdc, decide_False.
      * rewrite Hon by done. unfold d_on. rewrite Hdc. by rewrite bool_decide_false.
      * rewrite E2, Hhas, cnt_cons, Hkid. rewrite (proj2 (Z.eqb_neq _ _)) by lia. done.
Qed.

Lemma inv_sm_alloc s fl l i :
  inv s fl -> k_dpc s = DSm l i -> inv (sm_alloc_step hw meta l i s) fl.
Proof.
  intros Hinv Hpc. pose proof (kv_dispatch _ _ _ Hinv) as Hd. unfold dispatch_ok in Hd. rewrite Hpc in Hd.
  assert (Hmove : forall s0 i', (s0 = s \/ exists lm, s0 = set_lmem lm s) -> inv (set_dpc (DSm l i') s0) fl).
  { intros s0 i' Hs0. apply inv_set_dpc.
    1: by destruct Hs0 as [->|[lm ->]]; [|apply inv_set_lmem].
    all: destruct Hs0 as [->|[lm ->]]; unfold held_d, d_on, rem_d, d_cur, dispatch_ok;
      cbn [k_dpc set_dpc set_lmem k_ids k_pkt]; rewrite ?Hpc; done. }
  assert (Hplace : forall s0 sm base n, (s0 = s \/ exists lm, s0 = set_lmem lm s) -> (sm < num_sm)%nat ->
    ENQ_VALID (su_regs (unit_at (k_sms s) sm)) = 0 ->
    inv (set_dpc (DPlace (mkDlocal (d_packet l) (d_kid l) (d_id l) (d_wbid l) sm base))
          (set_prev n s0)) fl).
  { intros s0 sm base n Hs0 Hsm He. apply inv_set_dpc.
    1: apply inv_set_prev; by destruct Hs0 as [->|[lm ->]]; [|apply inv_set_lmem].
    all: destruct Hs0 as [->|[lm ->]]; unfold held_d, d_on, rem_d, d_cur, dispatch_ok;
      cbn [k_dpc set_dpc set_lmem set_prev k_ids k_pkt]; rewrite ?Hpc; try done.
    all: destruct Hd; by split_and!. }
  unfold sm_alloc_step. bcase; [by apply Hmove; left|]. cbv zeta.
  assert (Hsm : (((k_prev s + i) mod num_sm) < num_sm)%nat) by (apply Nat.mod_upper_bound; lia).
  bcase; [by apply Hmove; left|]. bcase; [by apply Hplace; [left|..]|].
  destruct (cp_lmem_allocator_alloc _ _ _ _ _) as [[lm rc] out].
  bcase; [apply Hmove; right; by eexists|]. apply Hplace; [right; by eexists|done..].
Qed.

Lemma configure_regs sm b r st out :
  cp_stack_remap_configure (Some sm) b true = (r, st, out) ->
  ENQ_VALID (default sm r) = ENQ_VALID sm /\ ENQ_INFO_PTR (default sm r) = ENQ_INFO_PTR sm /\
  DEQ_VALID (default sm r) = DEQ_VALID sm /\ DEQ_INFO_PTR (default sm r) = DEQ_INFO_PTR sm.
Proof.
  unfold cp_stack_remap_configure. simpl. destruct (_ || _); [intros [= <- _ _]; done|].
  destruct (find_first _ _); intros [= <- _ _]; done.
Qed.

Lemma release_regs sm slot :
  let sm' := default sm (cp_stack_remap_release (Some sm) slot) in
  ENQ_VALID sm' = ENQ_VALID sm /\ ENQ_INFO_PTR sm' = ENQ_INFO_PTR sm /\
  DEQ_VALID sm' = DEQ_VALID sm /\ DEQ_INFO_PTR sm' = DEQ_INFO_PTR sm.
Proof. unfold cp_stack_remap_release. by destruct (_ || _). Qed.

(** Moving the program counter past the placement of the buffer. *)
Lemma inv_placed s fl l d :
  inv s fl -> k_dpc s = DPlace l \/ k_dpc s = DRemap l ->
  d = DRemap l \/ d = DEnqueue l \/ d = DPanic l -> inv (set_dpc d s) fl.
Proof.
  intros Hinv Hpc Hd. pose proof (kv_dispatch _ _ _ Hinv) as Hok. unfold dispatch_ok in Hok.
  apply inv_set_dpc; unfold held_d, d_on, rem_d, d_cur, dispatch_ok; try done;
    destruct Hpc as [Hpc|Hpc]; rewrite Hpc in Hok; rewrite ?Hpc; destruct Hd as [->|[->| ->]]; try done; apply Hok.
Qed.

Lemma inv_place s fl l :
  inv s fl -> k_dpc s = DPlace l -> inv (dispatch_step hw gen meta s) fl.
Proof.
  intros Hinv Hpc. unfold dispatch_step. rewrite Hpc.
  destruct (wg_stack_base hw (d_wbid l) (d_sm l)) as [stack|].
  2: by eapply inv_placed; [|left|auto].
  apply inv_placed with (l := l); [|by left|bcase; auto].
  assert (Hlt : (d_wbid l < length (wgi_buf (k_wgi s)))%nat).
  { eapply held_d_lt; [done|]. unfold held_d. by rewrite Hpc. }
  by apply inv_set_buf.
Qed.

Lemma inv_remap s fl l :
  inv s fl -> k_dpc s = DRemap l -> inv (dispatch_step hw gen meta s) fl.
Proof.
  intros Hinv Hpc. unfold dispatch_step. rewrite Hpc.
  destruct (cp_stack_remap_configure _ _ _) as [[r st] out] eqn:Hc.
  bcase; [done|]. bcase; [by eapply inv_placed; [|right|auto]|].
  apply configure_regs in Hc as (? & ? & ? & ?).
  apply inv_placed with (l := l); [|by right|auto].
  assert (Hlt : (d_wbid l < length (wgi_buf (k_wgi s)))%nat).
  { eapply held_d_lt; [done|]. unfold held_d. by rewrite Hpc. }
  pose proof (kv_dispatch _ _ _ Hinv) as Hok. unfold dispatch_ok in Hok. rewrite Hpc in Hok.
  apply (inv_set_buf (set_sms _ s)); try done. apply inv_set_regs; [done|apply Hok|done..].
Qed.

Lemma inv_dispatch s fl : inv s fl -> kd_inv hw (dispatch_step hw gen meta s).
Proof.
  intros Hinv. destruct (k_dpc s) eqn:Hpc; unfold kd_inv.
  - exists fl. unfold dispatch_step. by rewrite Hpc.
  - exists fl. pose proof (kv_dispatch _ _ _ Hinv) as Hok. unfold dispatch_ok in Hok. rewrite Hpc in Hok.
    unfold dispatch_step. rewrite Hpc. apply inv_set_dpc; unfold held_d, d_on, rem_d, d_cur; by rewrite ?Hpc.
  - exists fl. unfold dispatch_step. rewrite Hpc. destruct (cp_kernel_state_buf_alloc _) eqn:Ha; [|done].
    by apply inv_kernel_setup.
  - exists fl. unfold dispatch_step. rewrite Hpc. destruct (cp_wgi_buf_alloc _) as [[wb w]|] eqn:Ha; [|done].
    by apply inv_wgi_alloc.
  - exists fl. unfold dispatch_step. rewrite Hpc. by apply inv_sm_alloc.
  - exists fl. by eapply inv_place.
  - exists fl. by eapply inv_remap.
  - exists (d_wbid l :: fl). by apply inv_enqueue.
  - exists fl. unfold dispatch_step. by rewrite Hpc.
Qed.

(** ** The retire task *)

(** A work-group on the dequeue registers is one the SMs hold. *)
Lemma posted_in_flight s fl sm :
  inv s fl -> (sm < num_sm)%nat -> DEQ_VALID (su_regs (unit_at (k_sms s) sm)) <> 0 ->
  exists j k l1 l2, fl = l1 ++ j :: l2 /\ DEQ_INFO_PTR (su_regs (unit_at (k_sms s) sm)) = wgi_addr j /\
    (k < kernel_state_buf_size)%nat /\ buf_of s j k /\
    flight (clear_deq sm s) ≡ₚ wgi_addr <$> (l1 ++ l2).
Proof.
  intros [Hks Hsms Hown Hfl Hb Hd Hr Hk] Hsm Hv.
  destruct (flat_map_insert_split slots_of (k_sms s) sm _ (unit_at_lookup (k_sms s) sm ltac:(lia))) as (r & H1 & H2).
  assert (Hs : slots_of (unit_at (k_sms s) sm) ≡ₚ DEQ_INFO_PTR (su_regs (unit_at (k_sms s) sm)) ::
    slots_of (mkUnit (set_DEQ_VALID 0 (su_regs (unit_at (k_sms s) sm))) (su_resident (unit_at (k_sms s) sm)))).
  { unfold slots_of. simpl. rewrite (proj2 (Z.eqb_neq _ _) Hv), app_nil_r.
    by rewrite app_assoc, (Permutation_app_comm _ [_]). }
  unfold flight in Hfl. rewrite H1, Hs in Hfl.
  assert (Hin : DEQ_INFO_PTR (su_regs (unit_at (k_sms s) sm)) ∈ wgi_addr <$> fl).
  { rewrite <- Hfl. left. }
  apply list_elem_of_fmap in Hin as (j & Ej & Hj). destruct (Hb j Hj) as (k & Hk' & Hbuf).
  apply list_elem_of_split in Hj as (l1 & l2 & ->). exists j, k, l1, l2. split_and!; try done.
  unfold flight, clear_deq, set_regs. cbn [k_sms set_sms]. rewrite H2.
  apply (Permutation_cons_inv (a := wgi_addr j)). rewrite <- Ej at 1.
  rewrite fmap_app in Hfl |- *. rewrite fmap_cons in Hfl. rewrite <- Permutation_middle in Hfl.
  exact Hfl.
Qed.

Lemma retire_read_eq s fl sm :
  inv s fl -> k_rpc s = RRead sm ->
  exists j k l1 l2 l, fl = l1 ++ j :: l2 /\ buf_of s j k /\ (k < kernel_state_buf_size)%nat /\
    flight (clear_deq sm s) ≡ₚ wgi_addr <$> (l1 ++ l2) /\
    retire_read sm s = set_rpc (RFreeLmem l) (clear_deq sm s) /\
    r_buf l = j /\ r_kid l = k /\ r_wbid l = j /\ r_drop l = false /\
    r_kstatus_ptr l = kernel_status (k_pkt s k) /\
    let regs := su_regs (unit_at (k_sms s) sm) in
    DEQ_INFO_PTR regs = wgi_addr j /\
    r_result l = to_kernel_completion_result (DEQ_STATUS regs) /\
    r_kstatus l = mkKernelStatus (DEQ_MCAUSE regs) (DEQ_MEPC regs) (DEQ_MTVAL regs).
Proof.
  intros Hinv Hpc. pose proof (kv_retire _ _ _ Hinv) as Hr. unfold retire_ok in Hr. rewrite Hpc in Hr.
  destruct Hr as [Hsm Hv].
  destruct (posted_in_flight s fl sm Hinv Hsm Hv) as (j & k & l1 & l2 & -> & Ea & Hlt & Hbuf & Hf).
  pose proof Hbuf as (Hw & Hkid & Hst).
  pose proof (kv_own _ _ _ Hinv) as (_ & _ & Hall & Hown).
  assert (Hj : j ∈ held_d s ++ held_r s ++ l1 ++ j :: l2).
  { rewrite !elem_of_app, elem_of_cons. auto. }
  assert (Hjlt : (j < wgi_buf_len (k_wgi s))%nat) by (rewrite Forall_forall in Hall; by apply Hall).
  assert (Hju : in_use (buf_at (k_wgi s) j) =? 0 = false).
  { apply Hown in Hj; [|done]. simpl in Hj. by apply negb_true_iff in Hj. }
  assert (Hku : ks_in_use (kstate (k_ks s) k) =? 0 = false).
  { pose proof (kv_kernels _ _ _ Hinv k Hlt) as Hk. unfold kernel_inv in Hk.
    destruct (ks_in_use (kstate (k_ks s) k) =? 0); [|reflexivity]. destruct Hk as (Hc & _).
    rewrite cnt_middle, Hkid, Z.eqb_refl in Hc. pose proof (cnt_nonneg (k_wgi s) (l1 ++ l2) k). lia. }
  set (regs := su_regs (unit_at (k_sms s) sm)) in *.
  exists j, k, l1, l2, (mkRlocal j k j (kernel_status (k_pkt s k))
    (to_kernel_completion_result (DEQ_STATUS regs))
    (mkKernelStatus (DEQ_MCAUSE regs) (DEQ_MEPC regs) (DEQ_MTVAL regs)) false).
  split_and!; try done. unfold retire_read. fold regs.
  rewrite Ea, (proj2 (Z.eqb_neq _ _)) by apply wgi_addr_not_null.
  rewrite wgi_index_addr, Hw, Hkid, !Nat2Z.id, Hju, Hku, Hst.
  rewrite !(proj2 (Z.ltb_ge _ _)) by lia. by rewrite !(proj2 (Z.leb_gt _ _)) by lia.
Qed.

Lemma inv_retire_read s fl sm :
  inv s fl -> k_rpc s = RRead sm -> kd_inv hw (retire_read sm s).
Proof.
  intros Hinv Hpc. destruct (retire_read_eq s fl sm Hinv Hpc)
    as (j & k & l1 & l2 & l & -> & Hbuf & Hlt & Hf & -> & E1 & E2 & E3 & E4 & E5 & _).
  destruct Hinv as [Hks Hsms Hown Hfl Hb Hd Hr Hk]. unfold retire_ok in Hr. rewrite Hpc in Hr.
  destruct Hr as [Hsm Hv]. exists (l1 ++ l2). constructor; try done.
  - unfold clear_deq, set_regs. cbn [k_sms set_rpc set_sms]. by rewrite length_insert.
  - unfold held_r in *. rewrite Hpc in Hown. cbn [k_rpc set_rpc]. rewrite E1. revert Hown.
    apply owns_perm. cbn [app]. by rewrite <- Permutation_middle.
  - intros i Hi. apply Hb. rewrite elem_of_app, elem_of_cons. apply elem_of_app in Hi. tauto.
  - unfold dispatch_ok in *. cbn [k_dpc k_sms set_rpc clear_deq set_sms].
    destruct (k_dpc s); try done; destruct Hd as (? & ? & ? & ?); split_and!; try done;
      unfold set_regs; rewrite unit_at_insert by lia; case_decide; subst; done.
  - unfold retire_ok, rlocal_ok. cbn [k_rpc set_rpc k_pkt clear_deq set_sms]. rewrite E1, E2, E3. done.
  - intros i Hi. apply (kernel_inv_ext s _ (l1 ++ j :: l2)); try done; try (by apply Hk).
    + unfold r_publishing. by rewrite Hpc.
    + destruct Hbuf as (_ & Hkid & _). cbn [k_wgi set_rpc clear_deq set_sms].
      rewrite cnt_middle, Hkid. unfold r_has. cbn [k_rpc set_rpc]. rewrite Hpc, E2.
      case_decide as E; [subst i; rewrite Z.eqb_refl|rewrite (proj2 (Z.eqb_neq _ _)) by lia]; lia.
Qed.

Lemma inv_free_wgi s fl l :
  inv s fl -> k_rpc s = RFreeWgi l -> inv (retire_step hw gen s) fl.
Proof.
  intros [Hks Hsms Hown Hfl Hb Hd Hr Hk] Hpc. unfold retire_step. rewrite Hpc.
  unfold retire_ok in Hr. rewrite Hpc in Hr. destruct Hr as (-> & -> & Hl).
  unfold held_r in Hown. rewrite Hpc in Hown. simpl in Hown.
  destruct (pool_step_free (k_wgi s) _ _ _ Hown) as (_ & Hown' & _).
  assert (Hlt : (r_buf l < length (wgi_buf (k_wgi s)))%nat).
  { destruct Hown as (Hwf & _ & Hall & _). rewrite Forall_app, Forall_cons in Hall. simpl in *. lia. }
  assert (Hsame : forall j, let b := buf_at (cp_wgi_buf_free (r_buf l) (k_wgi s)) j in
    wbid b = wbid (buf_at (k_wgi s) j) /\ kid b = kid (buf_at (k_wgi s) j) /\
    kernel_status_ptr b = kernel_status_ptr (buf_at (k_wgi s) j)).
  { intros j b. subst b. unfold buf_at, cp_wgi_buf_free. simpl. rewrite nth_insert by done.
    case_decide; subst; done. }
  assert (Hbuf : forall j k, buf_of s j k -> buf_of (set_rpc (RCount l)
    (set_wgi (cp_wgi_buf_free (r_buf l) (k_wgi s)) s)) j k).
  { intros j k (? & ? & ?). destruct (Hsame j) as (F1 & F2 & F3). unfold buf_of. cbn [k_wgi set_rpc set_wgi k_pkt].
    by rewrite F1, F2, F3. }
  constructor; try done.
  - intros j Hj. destruct (Hb j Hj) as (k & ? & ?). exists k. auto.
  - unfold dispatch_ok in *. cbn [k_dpc k_sms set_rpc set_wgi]. destruct (k_dpc s); naive_solver.
  - intros k Hlt'. apply (kernel_inv_ext s _ fl); try done; try (by apply Hk).
    + unfold r_publishing. by rewrite Hpc.
    + unfold r_has. rewrite Hpc. cbn [k_rpc set_rpc]. f_equal. apply cnt_ext. intros j _. apply Hsame.
Qed.

Lemma first_failure_snoc rets r :
  first_failure (rets ++ [r]) =
  if negb (fst r =? FSA_COMPLETION_RESULT_SUCCESS) &&
     (fst (first_failure rets) =? FSA_COMPLETION_RESULT_SUCCESS)
  then r else first_failure rets.
Proof.
  induction rets as [|[a st] rets IH]; simpl.
  - by destruct (fst r =? _).
  - destruct (a =? FSA_COMPLETION_RESULT_SUCCESS) eqn:E; [done|]. simpl. by rewrite E, andb_false_r.
Qed.

(** A kernel state the retire task works on is in use. *)
Lemma retired_active s fl l :
  inv s fl -> (0 < r_has s (r_kid l)) \/ r_publishing s (r_kid l) = true ->
  (r_kid l < kernel_state_buf_size)%nat ->
  kernel_active s fl (r_kid l) /\ (ks_in_use (kstate (k_ks s) (r_kid l)) =? 0) = false.
Proof.
  intros Hinv Hh Hlt. pose proof (kv_kernels _ _ _ Hinv _ Hlt) as Hk. unfold kernel_inv in Hk.
  destruct (ks_in_use (kstate (k_ks s) (r_kid l)) =? 0); [|by split].
  destruct Hk as (_ & H1 & H2 & _). destruct Hh; [lia|congruence].
Qed.

(** While the dispatcher launches a kernel, work-groups of it remain. *)
Lemma rem_d_cases s k :
  dispatch_ok hw s ->
  d_on s k = false /\ rem_d s k = 0 \/ d_on s k = true /\ 0 < rem_d s k.
Proof.
  intros Hd. unfold d_on, rem_d. destruct (d_cur s) as [l|] eqn:Hdc; [|by left].
  case_decide as E; [right|left; by rewrite bool_decide_false]. rewrite bool_decide_true by done.
  subst k. unfold d_cur, dispatch_ok, dlocal_ok in *. destruct (k_dpc s); simplify_eq; intuition lia.
Qed.

Lemma inv_retire_count s fl l :
  inv s fl -> k_rpc s = RCount l -> inv (retire_count l s) fl.
Proof.
  intros Hinv Hpc. pose proof (kv_retire _ _ _ Hinv) as Hr. unfold retire_ok in Hr. rewrite Hpc in Hr.
  assert (Hhas : forall k, r_has s k = if decide (r_kid l = k) then 1 else 0).
  { intros k. unfold r_has. by rewrite Hpc. }
  destruct Hr as [Hlt Hptr].
  destruct (retired_active s fl l Hinv) as [Hact Huse]; [left; by rewrite Hhas, decide_True|done|].
  destruct Hinv as [Hks Hsms Hown Hfl Hb Hd _ Hk].
  destruct Hact as (Hp & Hpos & Htok & Hids & Hsum & Hleft & Hrets & Hff & Hpub).
  rewrite Hhas, decide_True in Hleft by done. pose proof (cnt_nonneg (k_wgi s) fl (r_kid l)).
  pose proof (rem_d_cases s (r_kid l) Hd) as Hrem.
  unfold retire_count. rewrite (proj2 (Z.eqb_neq _ _)) by lia. cbv zeta. cbn [wg_left].
  assert (Hpc' : forall b : bool, held_r (set_rpc (if b then RPublish l else RScan 0) s) = []).
  { by intros []. }
  constructor; try done.
  - cbn [k_ks set_rpc set_hist set_ks]. by rewrite length_insert.
  - unfold held_r in Hown. rewrite Hpc in Hown. unfold held_r. cbn [k_rpc set_rpc]. by bcase.
  - unfold retire_ok. cbn [k_rpc set_rpc]. by bcase.
  - intros k Hlt'. destruct (decide (k = r_kid l)) as [->|Hne].
    + unfold kernel_inv. cbn [k_ks set_rpc set_hist set_ks]. rewrite kstate_insert, decide_True by lia.
      cbn [ks_in_use]. rewrite Huse. unfold kernel_active. cbn [k_ks set_rpc set_hist set_ks].
      rewrite kstate_insert, decide_True by lia.
      cbn [k_pkt k_ids k_rets k_wgi set_rpc set_hist set_ks wg_left ks_result ks_status ks_completion_token].
      unfold fupd. rewrite decide_True by done. rewrite length_app, first_failure_snoc. cbn [length fst].
      rewrite <- Hff. cbn [fst].
      change (rem_d _ (r_kid l)) with (rem_d s (r_kid l)).
      assert (Hh0 : forall b : bool, r_has (set_rpc (if b then RPublish l else RScan 0) s) (r_kid l) = 0)
        by (by intros []).
      assert (Hp0 : forall b : bool, r_publishing (set_rpc (if b then RPublish l else RScan 0) s) (r_kid l) = b).
      { intros []; [|done]. unfold r_publishing. cbn. by apply bool_decide_true. }
      split_and!; try done; try lia.
      * rewrite Hleft. match goal with |- context [r_has ?x ?k] =>
          replace (r_has x k) with 0 by (symmetry; apply Hh0) end. lia.
      * by bcase.
      * apply Hp0.
    + apply (kernel_inv_ext s _ fl); try done; try (by apply Hk);
        cbn [k_pkt k_ids k_rets k_wgi k_ks set_rpc set_hist set_ks].
      * by rewrite kstate_insert, decide_False by (done || lia).
      * unfold fupd. by rewrite decide_False.
      * unfold r_publishing. cbn [k_rpc set_rpc]. rewrite Hpc. bcase; [|done]. by rewrite bool_decide_false.
      * rewrite Hhas, decide_False by done. unfold r_has. cbn [k_rpc set_rpc]. by bcase.
Qed.

Lemma inv_free_kernel s fl l :
  inv s fl -> k_rpc s = RFreeKernel l -> inv (retire_step hw gen s) fl.
Proof.
  intros Hinv Hpc. pose proof (kv_retire _ _ _ Hinv) as Hr. unfold retire_ok in Hr. rewrite Hpc in Hr.
  destruct Hr as [Hlt Hptr].
  assert (Hpub : forall k, r_publishing s k = bool_decide (r_kid l = k)).
  { intros k. unfold r_publishing. by rewrite Hpc. }
  destruct (retired_active s fl l Hinv) as [Hact Huse]; [right; by rewrite Hpub, bool_decide_true|done|].
  destruct Hinv as [Hks Hsms Hown Hfl Hb Hd _ Hk].
  destruct Hact as (Hp & Hpos & Htok & Hids & Hsum & Hleft & Hrets & Hff & Hp0).
  rewrite Hpub, bool_decide_true in Hp0 by done. symmetry in Hp0. bprop.
  pose proof (cnt_nonneg (k_wgi s) fl (r_kid l)). pose proof (r_has_nonneg s (r_kid l)).
  assert (Hon : d_on s (r_kid l) = false /\ rem_d s (r_kid l) = 0).
  { destruct (rem_d_cases s (r_kid l) Hd) as [|[_ ?]]; [done|lia]. }
  unfold retire_step. rewrite Hpc.
  constructor; try done.
  - cbn [k_ks set_rpc set_ks]. unfold cp_kernel_state_buf_free. by rewrite length_insert.
  - unfold held_r in *. by rewrite Hpc in Hown.
  - intros k Hlt'. destruct (decide (k = r_kid l)) as [->|Hne].
    + unfold kernel_inv. cbn [k_ks set_rpc set_ks]. unfold cp_kernel_state_buf_free.
      rewrite kstate_insert, decide_True by lia. cbn. unfold kernel_free.
      cbn [k_wgi set_rpc set_ks]. split_and!; try done; [lia|]. apply Hon.
    + apply (kernel_inv_ext s _ fl); try done; try (by apply Hk).
      * cbn [k_ks set_rpc set_ks]. unfold cp_kernel_state_buf_free.
        by rewrite kstate_insert, decide_False by (done || lia).
      * rewrite Hpub. by rewrite bool_decide_false.
      * unfold r_has. by rewrite Hpc.
Qed.

Ltac rpc_frame Hpc :=
  unfold held_r, r_has, r_publishing, retire_ok;
  cbn [k_rpc set_rpc set_lmem set_sms set_pool set_mem]; rewrite ?Hpc; done.

Lemma inv_retire_task s fl : inv s fl -> kd_inv hw (retire_step hw gen s).
Proof.
  intros Hinv. pose proof (kv_retire _ _ _ Hinv) as Hr. unfold retire_ok in Hr.
  destruct (k_rpc s) as [i|sm|l|l|l|l|l|l] eqn:Hpc.
  - exists fl. unfold retire_step. rewrite Hpc. repeat bcase; apply inv_set_rpc; rpc_frame Hpc.
  - unfold retire_step. rewrite Hpc. by eapply inv_retire_read.
  - exists fl. unfold retire_step. rewrite Hpc.
    apply inv_set_rpc; [by apply inv_set_lmem|rpc_frame Hpc..].
  - exists fl. unfold retire_step. rewrite Hpc.
    apply inv_set_rpc; [|rpc_frame Hpc..].
    unfold free_wg_stack_remap. bcase; [by destruct Hinv; constructor|].
    destruct (release_regs (su_regs (unit_at (k_sms s) (Z.to_nat (smid (buf_at (k_wgi s) (r_buf l))))))
      (stack_remap_slot (buf_at (k_wgi s) (r_buf l)))) as (? & ? & ? & ?).
    apply inv_set_regs; try done. unfold sm_count. lia.
  - exists fl. by eapply inv_free_wgi.
  - exists fl. unfold retire_step. rewrite Hpc. by apply inv_retire_count.
  - exists fl. unfold retire_step. rewrite Hpc. apply inv_set_rpc.
    1: apply inv_set_pool; bcase; [done|by apply inv_set_mem].
    all: bcase; rpc_frame Hpc.
  - exists fl. by eapply inv_free_kernel.
Qed.

(** ** The SMs *)

Lemma inv_accept s fl i :
  inv s fl -> (i < num_sm)%nat -> ENQ_VALID (su_regs (unit_at (k_sms s) i)) <> 0 -> inv (sm_accept i s) fl.
Proof.
  intros Hinv Hi He. apply inv_set_unit; try done. unfold slots_of. simpl.
  by rewrite (proj2 (Z.eqb_neq _ _) He).
Qed.

Lemma inv_post s fl i n st ks :
  inv s fl -> (i < num_sm)%nat -> DEQ_VALID (su_regs (unit_at (k_sms s) i)) = 0 ->
  (n < length (su_resident (unit_at (k_sms s) i)))%nat -> inv (sm_post i n st ks s) fl.
Proof.
  intros Hinv Hi Hd Hn. apply inv_set_unit; try done. unfold slots_of. simpl. rewrite Hd. simpl.
  apply Permutation_app_head. rewrite app_nil_r.
  destruct (list_lookup_total_lt _ _ Hn) as [x Hx]. rewrite (nth_lookup_Some _ _ _ _ Hx).
  rewrite (delete_Permutation _ _ _ Hx) at 2. by rewrite (Permutation_app_comm _ [x]).
Qed.

Lemma inv_step s evs s' :
  kd_inv hw s -> grids_in_range evs = true -> kd_step hw gen meta s evs s' -> kd_inv hw s'.
Proof.
  intros [fl Hinv] Hg Hs. destruct Hs.
  - exists fl. apply inv_packet; try done. cbn in Hg. unfold grid_in_range in Hg. bprop. by split.
  - by eapply inv_dispatch.
  - by eapply inv_retire_task.
  - exists fl. by apply inv_accept.
  - exists fl. by apply inv_post.
Qed.

Lemma inv_init s : kd_init hw s -> inv s [].
Proof.
  intros (Hks & Hfree & Hown & Hsms & Hidle & Hd & Hr). constructor; try done.
  - unfold held_d, held_r. by rewrite Hd, Hr.
  - unfold flight. replace (flat_map slots_of (k_sms s)) with (@nil Z); [done|].
    clear -Hidle. induction Hidle as [|u us (H1 & H2 & H3) _ IH]; [done|]. simpl.
    unfold slots_of at 1. by rewrite H1, H2, H3, <- IH.
  - intros j Hj. by apply elem_of_nil in Hj.
  - unfold dispatch_ok. by rewrite Hd.
  - unfold retire_ok. by rewrite Hr.
  - intros k Hk. unfold kernel_inv. destruct (list_lookup_total_lt (k_ks s) k) as [x Hx]; [lia|].
    unfold kstate. rewrite (nth_lookup_Some _ _ _ _ Hx). rewrite (Forall_lookup_1 _ _ _ _ Hfree Hx). simpl.
    unfold kernel_free, r_has, r_publishing, d_on, d_cur. by rewrite Hd, Hr.
Qed.

Lemma grids_in_range_app tr evs :
  grids_in_range (tr ++ evs) = true -> grids_in_range tr = true /\ grids_in_range evs = true.
Proof. unfold grids_in_range. rewrite forallb_app. apply andb_prop. Qed.

Lemma exec_inv tr s : kd_exec hw gen meta tr s -> grids_in_range tr = true -> kd_inv hw s.
Proof.
  induction 1 as [s Hi|tr s evs s' _ IH Hs]; [exists []; by apply inv_init|].
  intros [? ?]%grids_in_range_app. eapply inv_step; eauto.
Qed.

(** A kernel is at its publication, or just after it, exactly when all its results are in. *)
Lemma publishing_iff s fl k :
  inv s fl -> (k < kernel_state_buf_size)%nat -> ks_in_use (kstate (k_ks s) k) <> 0 ->
  r_publishing s k = true <-> Z.of_nat (length (k_rets s k)) = group_count (k_pkt s k).
Proof.
  intros Hinv Hk Hu. pose proof (kv_kernels _ _ _ Hinv k Hk) as Hi. unfold kernel_inv in Hi.
  rewrite (proj2 (Z.eqb_neq _ _) Hu) in Hi. destruct Hi as (_ & _ & _ & _ & _ & _ & Hret & _ & ->).
  rewrite Z.eqb_eq. lia.
Qed.

(** The state of a kernel whose completion is about to be published. *)
Lemma publish_done s fl l :
  inv s fl -> k_rpc s = RPublish l ->
  let p := k_pkt s (r_kid l) in
  kernel_active s fl (r_kid l) /\ cnt (k_wgi s) fl (r_kid l) = 0 /\
  k_ids s (r_kid l) = all_ids p /\ Z.of_nat (length (k_rets s (r_kid l))) = group_count p /\
  r_kstatus_ptr l = kernel_status p.
Proof.
  intros Hinv Hpc p. pose proof (kv_retire _ _ _ Hinv) as Hr. unfold retire_ok in Hr. rewrite Hpc in Hr.
  destruct Hr as [Hlt Hptr].
  assert (Hpub : r_publishing s (r_kid l) = true).
  { unfold r_publishing. rewrite Hpc. by apply bool_decide_true. }
  destruct (retired_active s fl l Hinv (or_intror Hpub) Hlt) as [Hact _]. split; [done|].
  pose proof Hact as (_ & _ & _ & Hids & Hsum & Hleft & Hrets & _ & Hp0).
  rewrite Hpub in Hp0. symmetry in Hp0. bprop.
  pose proof (cnt_nonneg (k_wgi s) fl (r_kid l)). pose proof (r_has_nonneg s (r_kid l)).
  destruct (rem_d_cases s (r_kid l) (kv_dispatch _ _ _ Hinv)) as [[_ ?]|[_ ?]]; [|lia].
  subst p. split_and!; try done; try lia. rewrite Hids. unfold all_ids. do 2 f_equal. lia.
Qed.

(** ** Accepted packets and published completions *)

Definition is_accept (k : nat) (e : kd_event) : bool :=
  match e with EvAccept j _ => bool_decide (j = k) | _ => false end.
Definition is_publish (k : nat) (e : kd_event) : bool :=
  match e with EvPublish j _ _ => bool_decide (j = k) | _ => false end.

(** Kernel state [k] owes a completion. *)
Definition owed (s : kd_sys) (k : nat) : bool :=
  negb (ks_in_use (kstate (k_ks s) k) =? 0) &&
  negb (match k_rpc s with RFreeKernel l => bool_decide (r_kid l = k) | _ => false end).
Definition owed_n (s : kd_sys) (k : nat) : nat := if owed s k then 1 else 0.

Lemma sm_alloc_frame l i s :
  k_ks (sm_alloc_step hw meta l i s) = k_ks s /\ k_rpc (sm_alloc_step hw meta l i s) = k_rpc s.
Proof.
  unfold sm_alloc_step. bcase; [done|]. bcase; [done|]. bcase; [done|].
  destruct (cp_lmem_allocator_alloc _ _ _ _ _) as [[lm rc] out]. by bcase.
Qed.

Lemma dispatch_frame s :
  (forall p, k_dpc s <> DKalloc p) ->
  k_ks (dispatch_step hw gen meta s) = k_ks s /\ k_rpc (dispatch_step hw gen meta s) = k_rpc s.
Proof.
  intros Hne. unfold dispatch_step. destruct (k_dpc s) as [|p|p|l|l i|l|l|l|l] eqn:Hpc; try done.
  - by destruct (Hne p).
  - by destruct (cp_wgi_buf_alloc _) as [[]|].
  - apply sm_alloc_frame.
  - by destruct (wg_stack_base _ _ _).
  - destruct (cp_stack_remap_configure _ _ _) as [[]]. by repeat bcase.
  - by destruct (update_id _ _ _ _) as [[] ?].
Qed.

Lemma dispatch_owed s fl k :
  inv s fl -> (k < kernel_state_buf_size)%nat ->
  owed_n (dispatch_step hw gen meta s) k = (owed_n s k + countb (is_accept k) (dispatch_events s))%nat /\
  countb (is_publish k) (dispatch_events s) = 0%nat.
Proof.
  intros Hinv Hk. assert (Hother : (forall p, k_dpc s <> DKalloc p) \/ exists p, k_dpc s = DKalloc p).
  { destruct (k_dpc s) eqn:E; try (by left); right; by eexists. }
  destruct Hother as [Hne|[p Hpc]].
  { unfold owed_n, owed. destruct (dispatch_frame s Hne) as [-> ->]. unfold dispatch_events.
    destruct (k_dpc s) eqn:Hpc; cbn; try (split; [lia|done]). by destruct (Hne p). }
  pose proof (kv_dispatch _ _ _ Hinv) as Hd. unfold dispatch_ok in Hd. rewrite Hpc in Hd. destruct Hd as [Hp Hv].
  unfold dispatch_step, dispatch_events. rewrite Hpc.
  destruct (cp_kernel_state_buf_alloc (k_ks s)) as [kid|] eqn:Ha; [|cbn; split; [lia|done]].
  destruct (alloc_kernel_free s fl kid Hinv Ha) as [Hlt (_ & _ & Hfree & _)].
  apply find_first_Some in Ha as (_ & Hu & _). pose proof (kv_ks _ _ _ Hinv).
  rewrite kernel_setup_eq by (done || lia). rewrite countb_cons. cbn [is_accept is_publish countb].
  split; [|done]. unfold owed_n, owed. cbn [k_ks k_rpc set_dpc set_hist set_ks].
  rewrite kstate_insert by lia. destruct (decide (k = kid)) as [->|Hne].
  - rewrite Hu, bool_decide_true by done. cbn.
    unfold r_publishing in Hfree. destruct (k_rpc s); cbn; try done. by rewrite Hfree.
  - rewrite (bool_decide_false (kid = k)) by done. cbn. lia.
Qed.

Lemma retire_owed s fl k :
  inv s fl -> (k < kernel_state_buf_size)%nat ->
  owed_n s k = (owed_n (retire_step hw gen s) k + countb (is_publish k) (retire_events s))%nat /\
  countb (is_accept k) (retire_events s) = 0%nat.
Proof.
  intros Hinv Hk. pose proof (kv_ks _ _ _ Hinv) as Hlen.
  pose proof (kv_retire _ _ _ Hinv) as Hr. unfold retire_ok in Hr.
  unfold owed_n, retire_events, retire_step. destruct (k_rpc s) as [i|sm|l|l|l|l|l|l] eqn:Hpc.
  - split; [|done]. rewrite Nat.add_0_r. unfold owed. rewrite Hpc.
    destruct (num_sm <=? i)%nat; [done|]. by destruct (DEQ_VALID (su_regs (unit_at (k_sms s) i)) =? 0).
  - destruct (retire_read_eq s fl sm Hinv Hpc) as (j & k' & l1 & l2 & l & _ & _ & _ & _ & -> & _).
    unfold owed. rewrite Hpc. split; [by rewrite Nat.add_0_r|done].
  - unfold owed. rewrite Hpc. split; [by rewrite Nat.add_0_r|done].
  - unfold owed. rewrite Hpc. split; [by rewrite Nat.add_0_r|done].
  - destruct Hr as (-> & _). unfold owed. rewrite Hpc. split; [by rewrite Nat.add_0_r|done].
  - split; [|done]. rewrite Nat.add_0_r. unfold retire_count, owed.
    destruct (wg_left (kstate (k_ks s) (r_kid l)) =? 0); [by rewrite Hpc|].
    cbn [k_ks k_rpc set_rpc set_hist set_ks]. rewrite kstate_insert by (destruct Hr; lia). rewrite Hpc.
    case_decide; [subst k; cbn [ks_in_use]|]; by destruct (wg_left _ =? 0).
  - split; [|done]. rewrite countb_cons. cbn [is_publish countb].
    assert (Hks : forall x : bool, k_ks (if x then s else set_mem
      (k_mem s ++ [(r_kstatus_ptr l, ks_status (kstate (k_ks s) (r_kid l)))]) s) = k_ks s) by (by intros []).
    unfold owed. cbn [k_ks k_rpc set_rpc set_pool]. rewrite Hks, Hpc.
    case_bool_decide as E; [|cbn; lia]. subst k.
    destruct (retired_active s fl l Hinv) as [_ ->]; [|done|cbn; lia].
    right. unfold r_publishing. rewrite Hpc. by apply bool_decide_true.
  - cbn. split; [|done]. unfold owed. cbn [k_ks k_rpc set_rpc set_ks]. rewrite Hpc.
    unfold cp_kernel_state_buf_free. rewrite kstate_insert by (destruct Hr; lia).
    case_decide as E; [subst k; rewrite bool_decide_true by done|rewrite bool_decide_false by done]; cbn.
    + rewrite andb_false_r. lia.
    + rewrite andb_true_r. lia.
Qed.

Lemma exec_owed tr s k :
  kd_exec hw gen meta tr s -> grids_in_range tr = true -> (k < kernel_state_buf_size)%nat ->
  countb (is_accept k) tr = (countb (is_publish k) tr + owed_n s k)%nat.
Proof.
  intros He Hg Hk. revert Hg. induction He as [s Hi|tr s evs s' He IH Hs].
  - intros _. destruct Hi as (Hlen & Hfree & _). unfold owed_n, owed, kstate.
    destruct (list_lookup_total_lt (k_ks s) k) as [x Hx]; [lia|].
    rewrite (nth_lookup_Some _ _ _ _ Hx), (Forall_lookup_1 _ _ _ _ Hfree Hx). done.
  - intros [Hg Hge]%grids_in_range_app. specialize (IH Hg).
    rewrite !countb_app. destruct (exec_inv _ _ He Hg) as [fl Hinv]. destruct Hs.
    + rewrite IH. cbn [countb List.filter length]. rewrite !Nat.add_0_r. f_equal.
      unfold dispatch_packet, signal_kernel_failure. destruct (valid_kernel_dispatch_packet p); [done|].
      by destruct (kernel_status p =? 0).
    + destruct (dispatch_owed s fl k Hinv Hk) as [E1 E2]. lia.
    + destruct (retire_owed s fl k Hinv Hk) as [E1 E2]. lia.
    + rewrite IH. cbn [countb List.filter length]. by rewrite !Nat.add_0_r.
    + rewrite IH. cbn [countb List.filter length]. by rewrite !Nat.add_0_r.
Qed.
End inv.

(** ** Running a schedule *)

Inductive kd_act :=
  | APacket (p : KernelDispatchPacket)
  | ADispatch
  | ARetire
  | AAccept (i : nat)
  | APost (i n : nat) (st : Z) (ks : FsaKernelStatus).

Definition kd_do (hw : hwinfo_t) (gen : Z) (meta : Z -> FsaKernelDispatchPrintfMeta)
    (a : kd_act) (x : list kd_event * kd_sys) : list kd_event * kd_sys :=
  let '(tr, s) := x in
  match a with
  | APacket p => match k_dpc s with DIdle => (tr ++ [EvReceive p], dispatch_packet hw gen p s) | _ => x end
  | ADispatch => (tr ++ dispatch_events s, dispatch_step hw gen meta s)
  | ARetire => (tr ++ retire_events s, retire_step hw gen s)
  | AAccept i =>
      if (i <? sm_count hw)%nat && negb (ENQ_VALID (su_regs (unit_at (k_sms s) i)) =? 0)
      then (tr, sm_accept i s) else x
  | APost i n st ks =>
      if (i <? sm_count hw)%nat && (DEQ_VALID (su_regs (unit_at (k_sms s) i)) =? 0) &&
         (n <? length (su_resident (unit_at (k_sms s) i)))%nat
      then (tr, sm_post i n st ks s) else x
  end.
Definition kd_run hw gen meta (acts : list kd_act) (s : kd_sys) : list kd_event * kd_sys :=
  fold_left (fun x a => kd_do hw gen meta a x) acts ([], s).

Definition act_ok (a : kd_act) : Prop := match a with APacket p => packet_typed p | _ => True end.

Lemma kd_do_exec hw gen meta a tr s :
  act_ok a -> kd_exec hw gen meta tr s ->
  kd_exec hw gen meta (kd_do hw gen meta a (tr, s)).1 (kd_do hw gen meta a (tr, s)).2.
Proof.
  intros Ha He. unfold kd_do. destruct a; cbn [fst snd].
  - destruct (k_dpc s) eqn:Hpc; try done. eapply kd_exec_step; [done|]. by constructor.
  - eapply kd_exec_step; [done|]. constructor.
  - eapply kd_exec_step; [done|]. constructor.
  - bcase; [|done]. rewrite <- (app_nil_r tr). eapply kd_exec_step; [done|]. by constructor.
  - bcase; [|done]. rewrite <- (app_nil_r tr). eapply kd_exec_step; [done|]. by constructor.
Qed.

Lemma kd_run_exec hw gen meta acts s :
  Forall act_ok acts -> kd_init hw s ->
  kd_exec hw gen meta (kd_run hw gen meta acts s).1 (kd_run hw gen meta acts s).2.
Proof.
  intros Hok Hi. unfold kd_run.
  assert (He : kd_exec hw gen meta (([], s) : list kd_event * kd_sys).1 (([], s) : list kd_event * kd_sys).2)
    by (by constructor).
  revert He. generalize (([], s) : list kd_event * kd_sys) as x.
  induction Hok as [|a acts Ha _ IH]; intros [tr s1] He; [done|]. simpl. by apply IH, kd_do_exec.
Qed.

(** A board with one SM and one work-group buffer, and a kernel of two work-groups
    of which the second faults. *)
Definition sample_hw : hwinfo_t := mkHwinfo 1 0xA0000000 [32] [4].
Definition sample_meta (_ : Z) : FsaKernelDispatchPrintfMeta := mkPrintfMeta 0 0 0 0.
Definition sample_kd : kd_sys :=
  mkKd (replicate kernel_state_buf_size zero_kstate) (mkWgi [zero_wgi] 1)
    (fst (cp_lmem_allocator_init [4] fresh_sms)) [zero_unit] 0
    [fsa_completion_slot_encode (fsa_completion_token_alloc_tag (fsa_completion_token_make 1 5 0))
       FSA_COMPLETION_RESULT_PENDING]
    [] DIdle (RScan 0) (fun _ => []) (fun _ => [])
    (fun _ => mkKernelDispatchPacket 0 0 0 0 0 0 0 0 0 0 0 0 0 0 0 0 0).
Definition sample_packet (nx ny nz lmem : Z) : KernelDispatchPacket :=
  mkKernelDispatchPacket kKernelDispatchPacketHeader 1 4 1 1 lmem nx ny nz 0 0 0 0x1000 0x2000 0x3000 0x4000
    (fsa_completion_token_make 1 5 0).
Definition sample_fault : FsaKernelStatus := mkKernelStatus 7 0x1004 0x10.
(** One work-group launched, run to its end and taken back. *)
Definition one_group (st : Z) : list kd_act :=
  [ADispatch; ADispatch; ADispatch; ADispatch; AAccept 0; APost 0 0 st sample_fault] ++ replicate 6 ARetire.
Definition sample_acts : list kd_act :=
  [APacket (sample_packet 2 1 1 0x100); ADispatch] ++ one_group 0 ++ one_group 1.

Lemma sample_kd_init : kd_init sample_hw sample_kd.
Proof.
  unfold kd_init. split_and!; try done.
  - apply Forall_replicate. done.
  - unfold owns. simpl. split_and!; [lia|constructor|constructor|].
    intros j Hj. assert (j = 0%nat) as -> by lia. simpl. split; [done|]. intros H. by apply elem_of_nil in H.
  - repeat constructor.
Qed.

Lemma sample_acts_ok : Forall act_ok sample_acts.
Proof. repeat constructor; vm_compute; congruence. Qed.

(** ** Properties *)

(** C1. A kernel completes with all its work-groups and not earlier. Take any
    interleaving of the dispatch task, the retire task and the SMs in which no packet
    asks for 2^32 work-groups or more. A kernel in use is at its publication, or just
    past it, exactly when as many results have been taken back as its grid has points.
    When the retire task reaches the publication of a kernel, the ids of the launched
    work-groups are exactly the points of the packet's grid, each once; no SM holds a
    work-group of the kernel; and what is published is the packet's token with the first
    failure in retirement order (success if there is none), with that failure's trap
    registers stored in the packet's status block when it has one. (The hypothesis is
    needed: [wg_left] has 32 bits, and cp_kernel_dispatch.c:157 lets the product wrap.) *)
Theorem kernel_completion_exact hw gen meta tr s :
  kd_exec hw gen meta tr s -> grids_in_range tr = true ->
  (forall k, (k < kernel_state_buf_size)%nat -> ks_in_use (kstate (k_ks s) k) <> 0 ->
     (exists l, r_kid l = k /\ (k_rpc s = RPublish l \/ k_rpc s = RFreeKernel l)) <->
     Z.of_nat (length (k_rets s k)) = group_count (k_pkt s k)) /\
  (forall l, k_rpc s = RPublish l ->
     let k := r_kid l in
     let p := k_pkt s k in
     let failure := first_failure (k_rets s k) in
     let s' := retire_step hw gen s in
     NoDup (k_ids s k) /\
     (forall x y z, (x, y, z) ∈ k_ids s k <->
        0 <= x < num_groups_x p /\ 0 <= y < num_groups_y p /\ 0 <= z < num_groups_z p) /\
     Z.of_nat (length (k_rets s k)) = group_count p /\
     (forall a, a ∈ flight s -> kid (buf_at (k_wgi s) (wgi_index a)) <> Z.of_nat k) /\
     k_pool s' = cp_publish_completion gen (k_pool s) (kd_completion_token p) (fst failure) /\
     k_mem s' = (if kernel_status p =? 0 then k_mem s else k_mem s ++ [(kernel_status p, snd failure)])).
Proof.
  intros He Hg. destruct (exec_inv _ _ _ _ _ He Hg) as [fl Hinv]. split.
  { intros k Hk Hu. rewrite <- (publishing_iff _ _ _ _ Hinv Hk Hu). unfold r_publishing. split.
    - intros (l & <- & [-> | ->]); by apply bool_decide_true.
    - destruct (k_rpc s) as [| | | | | |l|l]; try done; intros ?%bool_decide_eq_true; exists l; auto. }
  intros l Hpc k p failure s'.
  destruct (publish_done hw gen meta s fl l Hinv Hpc) as (Hact & Hcnt & Hids & Hrets & Hptr).
  destruct Hact as (((Hx & Hy & Hz) & _) & Hpos & Htok & _ & _ & _ & _ & Hff & _).
  fold k in Hids, Hrets, Htok, Hff, Hpos, Hcnt, Hx, Hy, Hz, Hptr. fold p in Hids, Hrets, Htok, Hpos, Hx, Hy, Hz, Hptr.
  destruct (all_ids_grid p) as [Hnd Hgrid]; try (unfold group_count in Hpos; nia).
  rewrite Hids. split_and!; try done.
  - intros a Ha Hk. rewrite (kv_flight _ _ _ Hinv) in Ha. apply list_elem_of_fmap in Ha as (j & -> & Hj).
    rewrite wgi_index_addr in Hk. pose proof (cnt_pos _ _ _ _ Hj Hk). lia.
  - subst s'. unfold retire_step. rewrite Hpc. fold k. subst failure. rewrite <- Hff, Htok. cbn.
    by destruct (r_kstatus_ptr l =? 0).
  - subst s'. unfold retire_step. rewrite Hpc. fold k. subst failure. rewrite <- Hff. cbn. rewrite Hptr.
    by destruct (kernel_status p =? 0).
Qed.

Lemma kernel_completion_exact_witness :
  let x := kd_run sample_hw 1 sample_meta sample_acts sample_kd in
  NoDup (k_ids x.2 0%nat) /\ Z.of_nat (length (k_rets x.2 0%nat)) = 2 /\
  k_mem (retire_step sample_hw 1 x.2) = [(0x4000, sample_fault)].
Proof.
  intros x. destruct (kernel_completion_exact sample_hw 1 sample_meta x.1 x.2) as [_ H].
  - apply kd_run_exec; [apply sample_acts_ok|apply sample_kd_init].
  - vm_compute. reflexivity.
  - destruct (H (mkRlocal 0 0 0 0x4000 kFsaKernelCompletionException sample_fault false))
      as (H1 & _ & H2 & _ & _ & H3).
    + vm_compute. reflexivity.
    + split_and!; [exact H1|exact H2|]. vm_compute. reflexivity.
Defined.

(** A kernel state owes exactly one completion per accepted packet: on every
    execution, packets accepted for a kernel state and completions published for
    it alternate, the difference being one from the acceptance until the
    publication and zero otherwise; a state that is not in use owes nothing. *)
Theorem kernel_completes_once hw gen meta tr s k :
  kd_exec hw gen meta tr s -> grids_in_range tr = true -> (k < kernel_state_buf_size)%nat ->
  countb (is_accept k) tr = (countb (is_publish k) tr + owed_n s k)%nat /\
  (ks_in_use (kstate (k_ks s) k) = 0 -> countb (is_accept k) tr = countb (is_publish k) tr).
Proof.
  intros He Hg Hk. pose proof (exec_owed _ _ _ _ _ _ He Hg Hk) as H. split; [done|].
  intros Hu. unfold owed_n, owed in H. rewrite Hu in H. simpl in H. lia.
Qed.

Lemma kernel_completes_once_witness :
  let x := kd_run sample_hw 1 sample_meta (sample_acts ++ [ARetire; ARetire]) sample_kd in
  countb (is_accept 0) x.1 = 1%nat /\ countb (is_publish 0) x.1 = 1%nat.
Proof.
  intros x. destruct (kernel_completes_once sample_hw 1 sample_meta x.1 x.2 0) as [_ H].
  - apply kd_run_exec; [|apply sample_kd_init]. apply Forall_app_2; [apply sample_acts_ok|repeat constructor].
  - vm_compute. reflexivity.
  - vm_compute. lia.
  - assert (E : countb (is_accept 0) x.1 = 1%nat) by (vm_compute; reflexivity).
    split; [exact E|]. rewrite <- H; [exact E|]. vm_compute. reflexivity.
Defined.

(** The completion pool is written for two reasons only: a packet rejected
    before it is accepted, with BadDimension for its token, or the publication of a
    kernel by the retire task. *)
Theorem kernel_pool_writes hw gen meta tr s evs s' :
  kd_exec hw gen meta tr s -> grids_in_range tr = true -> kd_step hw gen meta s evs s' -> k_pool s' <> k_pool s ->
  (exists p, k_dpc s = DIdle /\ valid_kernel_dispatch_packet p = false /\
     k_pool s' = cp_publish_completion gen (k_pool s) (kd_completion_token p) kFsaKernelCompletionBadDimension) \/
  (exists l, k_rpc s = RPublish l /\ s' = retire_step hw gen s).
Proof.
  intros He Hg Hs Hne. destruct (exec_inv _ _ _ _ _ He Hg) as [fl Hinv]. destruct Hs as [s p Hpc Hp|s|s| |]; try done.
  - left. exists p. unfold dispatch_packet in *. destruct (valid_kernel_dispatch_packet p); [done|].
    split_and!; try done. unfold signal_kernel_failure. cbn. by destruct (kernel_status p =? 0).
  - destruct Hne. pose proof (kv_dispatch _ _ _ Hinv) as Hd. unfold dispatch_ok in Hd. unfold dispatch_step.
    destruct (k_dpc s) as [|p|p|l|l i|l|l|l|l] eqn:Hpc; try done.
    + destruct (cp_kernel_state_buf_alloc _) as [kid|] eqn:Ha; [|done].
      apply find_first_Some in Ha as (? & _). pose proof (kv_ks _ _ _ Hinv).
      by rewrite kernel_setup_eq by (lia || apply Hd).
    + by destruct (cp_wgi_buf_alloc _) as [[]|].
    + unfold sm_alloc_step. bcase; [done|]. bcase; [done|]. bcase; [done|].
      destruct (cp_lmem_allocator_alloc _ _ _ _ _) as [[lm rc] out]. by bcase.
    + by destruct (wg_stack_base _ _ _).
    + destruct (cp_stack_remap_configure _ _ _) as [[]]. by repeat bcase.
    + by destruct (update_id _ _ _ _) as [[] ?].
  - destruct (k_rpc s) as [i|sm|l|l|l|l|l|l] eqn:Hpc.
    7: right; by exists l.
    all: destruct Hne; unfold retire_step; rewrite Hpc; try done.
    + by repeat bcase.
    + destruct (retire_read_eq hw s fl sm Hinv Hpc) as (j & k' & l1 & l2 & l & _ & _ & _ & _ & -> & _). done.
    + unfold retire_count. by bcase.
Qed.

Lemma kernel_pool_writes_witness :
  let s := (kd_run sample_hw 1 sample_meta sample_acts sample_kd).2 in
  (exists l, k_rpc s = RPublish l) /\ k_pool (retire_step sample_hw 1 s) <> k_pool s.
Proof.
  intros s. assert (Hne : k_pool (retire_step sample_hw 1 s) <> k_pool s) by (vm_compute; congruence).
  split; [|exact Hne].
  destruct (kernel_pool_writes sample_hw 1 sample_meta
    (kd_run sample_hw 1 sample_meta sample_acts sample_kd).1 s (retire_events s)
    (retire_step sample_hw 1 s)) as [(p & _ & Hv & Hp)|(l & Hl & _)].
  - apply kd_run_exec; [apply sample_acts_ok|apply sample_kd_init].
  - vm_compute. reflexivity.
  - apply kd_retire.
  - exact Hne.
  - eexists. vm_compute. reflexivity.
  - exists l. exact Hl.
Defined.

(** When no kernel state is in use, nothing is left behind: if the dispatcher is
    idle and the retire task is scanning, every work-group buffer is free and the
    SMs hold no work-group, so that each further launch finds the buffers of boot. *)
Theorem kernels_done_nothing_held hw gen meta tr s :
  kd_exec hw gen meta tr s -> grids_in_range tr = true -> k_dpc s = DIdle -> (exists i, k_rpc s = RScan i) ->
  (forall k, (k < kernel_state_buf_size)%nat -> ks_in_use (kstate (k_ks s) k) = 0) ->
  flight s = [] /\ forall j, (j < wgi_buf_len (k_wgi s))%nat -> in_use (buf_at (k_wgi s) j) = 0.
Proof.
  intros He Hg Hd [i Hr] Hfree. destruct (exec_inv _ _ _ _ _ He Hg) as [fl Hinv].
  assert (Hfl : fl = []).
  { destruct fl as [|j fl]; [done|]. exfalso.
    destruct (kv_bufs _ _ _ Hinv j) as (k & Hk & _ & Hkid & _); [left|].
    pose proof (kv_kernels _ _ _ Hinv k Hk) as Hi. unfold kernel_inv in Hi. rewrite Hfree in Hi by done.
    destruct Hi as (Hc & _). rewrite cnt_cons, Hkid, Z.eqb_refl in Hc.
    pose proof (cnt_nonneg (k_wgi s) fl k). lia. }
  subst fl. split.
  - apply Permutation_nil. symmetry. apply (kv_flight _ _ _ Hinv).
  - intros j Hj. destruct (kv_own _ _ _ Hinv) as (_ & _ & _ & Hown).
    unfold held_d, held_r in Hown. rewrite Hd, Hr in Hown. specialize (Hown j Hj). simpl in Hown.
    destruct (in_use (nth j (wgi_buf (k_wgi s)) zero_wgi) =? 0) eqn:E; bprop; [done|].
    exfalso. apply (not_elem_of_nil j). by apply Hown.
Qed.

Lemma kernels_done_nothing_held_witness :
  let s := (kd_run sample_hw 1 sample_meta (sample_acts ++ [ARetire; ARetire]) sample_kd).2 in
  flight s = [] /\ in_use (buf_at (k_wgi s) 0) = 0.
Proof.
  intros s. destruct (kernels_done_nothing_held sample_hw 1 sample_meta
    (kd_run sample_hw 1 sample_meta (sample_acts ++ [ARetire; ARetire]) sample_kd).1 s) as [H1 H2].
  - apply kd_run_exec; [|apply sample_kd_init]. apply Forall_app_2; [apply sample_acts_ok|repeat constructor].
  - vm_compute. reflexivity.
  - vm_compute. reflexivity.
  - exists 0%nat. vm_compute. reflexivity.
  - intros k Hk. assert (E : forallb (fun k => ks_in_use (kstate (k_ks s) k) =? 0) (seq 0 kernel_state_buf_size) = true)
      by (vm_compute; reflexivity).
    rewrite forallb_forall in E. apply Z.eqb_eq, E. apply in_seq. lia.
  - split; [exact H1|]. apply H2. vm_compute. lia.
Defined.

Lemma retire_exec hw gen meta tr s :
  kd_exec hw gen meta tr s -> kd_exec hw gen meta (tr ++ retire_events s) (retire_step hw gen s).
Proof. intros. eapply kd_exec_step; [done|apply kd_retire]. Qed.
Lemma retire_in_range tr s : grids_in_range tr = true -> grids_in_range (tr ++ retire_events s) = true.
Proof.
  intros H. unfold grids_in_range in *. rewrite forallb_app, H. unfold retire_events. by destruct (k_rpc s).
Qed.

Lemma free_remap_deq hw b u i :
  length u = sm_count hw ->
  DEQ_VALID (su_regs (unit_at (free_wg_stack_remap hw b u) i)) = DEQ_VALID (su_regs (unit_at u i)).
Proof.
  intros Hl. unfold free_wg_stack_remap. bcase; [done|]. unfold set_regs.
  rewrite unit_at_insert by (rewrite Hl; unfold sm_count; lia). case_decide as E; [subst i|done].
  apply (release_regs (su_regs (unit_at u (Z.to_nat (smid b)))) (stack_remap_slot b)).
Qed.

(** The retire task makes progress: from the top of its scan at an SM that has a
    work-group posted, six of its steps free the SM's dequeue register and the
    work-group's buffer and add its result and trap registers to its kernel, and
    the task is back at the scan or at the publication of that kernel. *)
Theorem retire_takes_back hw gen meta tr s i :
  kd_exec hw gen meta tr s -> grids_in_range tr = true -> k_rpc s = RScan i -> (i < sm_count hw)%nat ->
  let regs := su_regs (unit_at (k_sms s) i) in
  DEQ_VALID regs <> 0 ->
  exists j k, let s' := Nat.iter 6 (retire_step hw gen) s in
  DEQ_INFO_PTR regs = wgi_addr j /\ kid (buf_at (k_wgi s) j) = Z.of_nat k /\
  DEQ_VALID (su_regs (unit_at (k_sms s') i)) = 0 /\ in_use (buf_at (k_wgi s') j) = 0 /\
  k_rets s' k = k_rets s k ++ [(to_kernel_completion_result (DEQ_STATUS regs),
                                mkKernelStatus (DEQ_MCAUSE regs) (DEQ_MEPC regs) (DEQ_MTVAL regs))] /\
  (k_rpc s' = RScan 0 \/ exists l, k_rpc s' = RPublish l /\ r_kid l = k).
Proof.
  intros He Hg Hpc Hi regs Hv. set (f := retire_step hw gen).
  assert (E1 : f s = set_rpc (RRead i) s).
  { unfold f, retire_step. rewrite Hpc, (proj2 (Nat.leb_gt _ _)) by done.
    fold regs. by rewrite (proj2 (Z.eqb_neq _ _)). }
  pose proof (retire_exec _ _ _ _ _ He) as He1. fold f in He1. rewrite E1 in He1.
  destruct (exec_inv _ _ _ _ _ He1) as [fl Hinv1]; [by apply retire_in_range|].
  destruct (retire_read_eq hw _ fl i Hinv1 eq_refl)
    as (j & k & l1 & l2 & l & -> & (_ & Hkid & _) & Hk & _ & E2 & Fb & Fk & Fw & Fd & _ & Fa & Fr & Fs).
  set (s2 := set_rpc (RFreeLmem l) (clear_deq i (set_rpc (RRead i) s))) in *.
  change (retire_read i (set_rpc (RRead i) s)) with (f (set_rpc (RRead i) s)) in E2.
  set (s5 := f (f (f s2))).
  assert (Hs5 : kd_inv hw s5).
  { eapply exec_inv; [|by do 5 apply retire_in_range].
    do 3 apply retire_exec. fold f. rewrite <- E2. apply retire_exec. exact He1. }
  destruct Hs5 as [fl5 Hinv5].
  assert (Hrpc5 : k_rpc s5 = RCount l).
  { unfold s5, f, retire_step. cbn. by rewrite Fd. }
  assert (Hlen : length (k_sms s) = sm_count hw) by apply (kv_sms _ _ _ Hinv1).
  pose proof (retired_active hw s5 fl5 l Hinv5) as Hact. destruct Hact as [Hact _].
  { left. unfold r_has. rewrite Hrpc5, decide_True by done. lia. }
  { by rewrite Fk. }
  assert (Hleft : wg_left (kstate (k_ks s5) (r_kid l)) <> 0).
  { destruct Hact as (_ & _ & _ & _ & _ & _ & _ & _ & Hp). unfold r_publishing in Hp. rewrite Hrpc5 in Hp.
    symmetry in Hp. by bprop. }
  exists j, k. replace (Nat.iter 6 f s) with (retire_count l s5).
  2: { cbn [Nat.iter nat_rect]. rewrite E1, E2. fold s5. unfold f, retire_step at 1. by rewrite Hrpc5. }
  unfold retire_count. rewrite (proj2 (Z.eqb_neq _ _) Hleft). cbv zeta. cbn [k_sms k_wgi k_rets k_rpc set_rpc set_hist set_ks].
  split_and!; try done.
  - assert (Hd : DEQ_VALID (su_regs (unit_at (k_sms s2) i)) = 0).
    { unfold s2, clear_deq, set_regs. cbn [k_sms set_rpc set_sms]. rewrite unit_at_insert, decide_True by lia. done. }
    rewrite <- Hd. apply free_remap_deq. unfold s2, clear_deq, set_regs. cbn [k_sms set_rpc set_sms]. by rewrite length_insert.
  - change (k_wgi s5) with (cp_wgi_buf_free (r_wbid l) (k_wgi s)). rewrite Fw.
    unfold buf_at, cp_wgi_buf_free. cbn. rewrite nth_insert, decide_True; [done|done|].
    destruct (kv_own _ _ _ Hinv1) as (Hwf & _ & Hall & _). rewrite Forall_forall in Hall.
    assert (Hj : (j < wgi_buf_len (k_wgi s))%nat).
    { apply (Hall j). rewrite !elem_of_app, elem_of_cons. auto. }
    cbn in Hwf. lia.
  - unfold fupd. rewrite Fk, decide_True by done. by rewrite Fr, Fs.
  - destruct (_ =? 0); [right; by exists l|by left].
Qed.

Lemma retire_takes_back_witness :
  let s := (kd_run sample_hw 1 sample_meta (take 8 sample_acts) sample_kd).2 in
  DEQ_VALID (su_regs (unit_at (k_sms s) 0)) = 1 /\
  exists j k, kid (buf_at (k_wgi s) j) = Z.of_nat k /\
    in_use (buf_at (k_wgi (Nat.iter 6 (retire_step sample_hw 1) s)) j) = 0.
Proof.
  intros s. split; [vm_compute; reflexivity|].
  destruct (retire_takes_back sample_hw 1 sample_meta
    (kd_run sample_hw 1 sample_meta (take 8 sample_acts) sample_kd).1 s 0)
    as (j & k & _ & H2 & _ & H4 & _).
  - apply kd_run_exec; [apply Forall_take, sample_acts_ok|apply sample_kd_init].
  - vm_compute. reflexivity.
  - vm_compute. reflexivity.
  - vm_compute. lia.
  - vm_compute. congruence.
  - exists j, k. split; [exact H2|exact H4].
Defined.

(** Any number of steps, whatever they publish. *)
Definition kd_steps hw gen meta : relation kd_sys := rtc (fun s s' => exists evs, kd_step hw gen meta s evs s').

Lemma oversized_alloc_fails num_sm lm sm size :
  FSA_LMEM_SIZE < size < 2 ^ 16 -> cp_lmem_allocator_alloc num_sm lm sm size true = (lm, -1, None).
Proof.
  intros Hs. unfold FSA_LMEM_SIZE in Hs. unfold cp_lmem_allocator_alloc. bcase; [done|].
  rewrite align_up_u64_spec by lia. rewrite (proj2 (Z.ltb_lt _ _)); [done|].
  unfold PER_SM_LOCAL_MEM_SIZE, FSA_LMEM_SIZE.
  pose proof (Z.div_mod (size + 255) 256 ltac:(lia)). pose proof (Z.mod_pos_bound (size + 255) 256 ltac:(lia)). lia.
Qed.

Lemma oversized_step hw gen meta s evs s' l i :
  FSA_LMEM_SIZE < local_mem_size (d_packet l) < 2 ^ 16 ->
  kd_step hw gen meta s evs s' -> k_dpc s = DSm l i -> exists i', k_dpc s' = DSm l i'.
Proof.
  intros Hsz Hs Hpc. destruct Hs as [s p Hd _|s|s|s j _ _|s j n st ks _ _ _]; [congruence| | |by exists i..].
  - unfold dispatch_step. rewrite Hpc. unfold sm_alloc_step. bcase; [by eexists|]. cbv zeta.
    bcase; [by eexists|]. cbn [local_memory_size launch_wginfo].
    rewrite (proj2 (Z.eqb_neq _ _)) by (unfold FSA_LMEM_SIZE in *; lia).
    rewrite oversized_alloc_fails by done. by eexists.
  - exists i. rewrite <- Hpc. clear. unfold retire_step. destruct (k_rpc s); try done.
    + by repeat bcase.
    + unfold retire_read. by repeat (bcase; [done|]).
    + unfold retire_count. by bcase.
    + cbn. by destruct (r_kstatus_ptr l =? 0).
Qed.

(** A packet that asks for more local memory than an SM has is never launched and
    never answered: once the dispatch task waits for an SM for it, no step of any
    task or SM moves it out of that wait. valid_kernel_dispatch_packet does not
    look at the size, and the packet format carries up to 65535 bytes while an SM
    has 49152. *)
Theorem oversized_local_memory_waits_forever hw gen meta s s' l i :
  FSA_LMEM_SIZE < local_mem_size (d_packet l) < 2 ^ 16 -> k_dpc s = DSm l i ->
  kd_steps hw gen meta s s' -> exists i', k_dpc s' = DSm l i'.
Proof.
  intros Hsz Hpc Hr. revert i Hpc. induction Hr as [s|s s1 s2 [evs Hs] _ IH]; intros i Hpc; [by exists i|].
  destruct (oversized_step hw gen meta s evs s1 l i Hsz Hs Hpc) as [i' Hi']. by eapply IH.
Qed.

Lemma oversized_local_memory_waits_forever_witness :
  let p := sample_packet 1 1 1 0xC001 in
  let s := (kd_run sample_hw 1 sample_meta [APacket p; ADispatch; ADispatch] sample_kd).2 in
  valid_kernel_dispatch_packet p = true /\
  exists i', k_dpc (dispatch_step sample_hw 1 sample_meta s) = DSm (mkDlocal p 0 (0, 0, 0) 0 0 0) i'.
Proof.
  intros p s. split; [vm_compute; reflexivity|].
  apply (oversized_local_memory_waits_forever sample_hw 1 sample_meta s _ _ 0).
  - vm_compute. split; reflexivity.
  - vm_compute. reflexivity.
  - apply rtc_once. exists (dispatch_events s). apply kd_dispatch.
Defined.

(** The 32-bit work-group count wraps around: a valid packet whose grid has a
    multiple of 2^32 work-groups (4096 x 4096 x 256, say) is answered with
    BadDimension by the zero test on the wrapped count, launches nothing and gives
    its kernel state back. *)
Theorem wrapped_group_count_is_rejected hw gen meta s p kid :
  k_dpc s = DKalloc p -> cp_kernel_state_buf_alloc (k_ks s) = Some kid ->
  length (k_ks s) = kernel_state_buf_size -> (2 ^ 32 | group_count p) ->
  let s' := dispatch_step hw gen meta s in
  k_dpc s' = DIdle /\ ks_in_use (kstate (k_ks s') kid) = 0 /\ k_sms s' = k_sms s /\ k_wgi s' = k_wgi s /\
  k_pool s' = cp_publish_completion gen (k_pool s) (kd_completion_token p) kFsaKernelCompletionBadDimension.
Proof.
  intros Hpc Ha Hlen Hdiv s'. subst s'. unfold dispatch_step. rewrite Hpc, Ha.
  apply find_first_Some in Ha as (Hk & _). unfold kernel_setup. cbn [k_ks set_hist set_ks].
  rewrite kstate_insert, decide_True by (done || lia). cbn [wg_left].
  replace (wrap 32 (group_count p)) with 0.
  2: { symmetry. unfold wrap. by apply Z.mod_divide. }
  cbn [Z.eqb]. unfold signal_kernel_failure.
  destruct (kernel_status p =? 0); cbn [k_dpc k_ks k_sms k_wgi k_pool set_dpc set_ks set_pool set_mem set_hist];
    split_and!; try done; unfold cp_kernel_state_buf_free;
    by rewrite kstate_insert, decide_True by (rewrite ?length_insert; done || lia).
Qed.

Lemma wrapped_group_count_is_rejected_witness :
  let p := sample_packet 4096 4096 256 0 in
  let s := (kd_run sample_hw 1 sample_meta [APacket p] sample_kd).2 in
  valid_kernel_dispatch_packet p = true /\ group_count p = 2 ^ 32 /\
  fsa_completion_slot_result (slot_of (k_pool (dispatch_step sample_hw 1 sample_meta s)) (kd_completion_token p))
    = kFsaKernelCompletionBadDimension.
Proof.
  intros p s. split; [vm_compute; reflexivity|]. split; [vm_compute; reflexivity|].
  destruct (wrapped_group_count_is_rejected sample_hw 1 sample_meta s p 0) as (_ & _ & _ & _ & H).
  - vm_compute. reflexivity.
  - vm_compute. reflexivity.
  - vm_compute. reflexivity.
  - exists 1. vm_compute. reflexivity.
  - rewrite H. vm_compute. reflexivity.
Defined.
