(* ===== verification/Dispatch.v ===== *)
(** * Command ring and dispatch loop
      (fw/cp_dispatch.c, fw/cp_reboot.c, the ring of hal/src/hal/hal.cc)

    The host writes 64-byte packets into a ring and rings the doorbell; the
    dispatch task polls it, takes one packet at a time, checks its token and hands
    it to a handler, and performs a reboot when the host asks for one. The handlers
    and the tasks behind them are in Cache.v, MemoryCopy.v and KernelDispatch.v;
    here they are an environment that is relied on for what those files show: work
    starts when the dispatch task starts it, except the cache operations of a
    running memory copy.

    [ds_sent], [ds_fetched] and [ds_handled] are history variables: packets whose
    doorbell was rung, packets taken from the ring, packets given to a handler. *)

From S2P Require Import Prelude AddrMap CommandAbi Platform Completion.

(** Where the dispatch task is in [cp_dispatch]. *)
Inductive disp_pc :=
  | PStart
  | PTop
  | PFaulted
  | PPoll                      (* CP_RD_PTR == CP_WR_PTR *)
  | PPollCopy                  (* || cp_memory_copy_is_active() *)
  | PPollLaunch                (* || host_launch_packet_is_blocked(...) *)
  | PPollYield
  | PFetch                     (* the critical section *)
  | PCheck (cmd : list Z)
  | PKernel (cmd : list Z)
  | PCache (cmd : list Z) (mode : CacheOpMode)
  | PCopy (cmd : list Z)
  | PBarrier (token : Z)       (* cp_has_active_kernel_or_cache() *)
  | PBarrierCopy (token : Z)   (* || cp_memory_copy_is_active() *)
  | PBarrierYield (token : Z)
  | PReboot                    (* the drain loop of cp_reboot_perform *)
  | PRom.

(** The host inside [submit_command], which holds [command_mtx]. *)
Inductive host_pc := HIdle | HReserved (cmd : list Z) | HWritten (cmd : list Z).

Record ds := mkDs {
  ds_cp : cp_mmio;
  ds_ring : list (list Z);
  ds_fw : fw_status_t;
  ds_pool : list Z;
  reboot_requested : Z;
  msip : Z;
  kernel_busy : bool;          (* a kernel state is in use *)
  cache_busy : bool;           (* cp_cache_operation_pending() *)
  copy_busy : bool;            (* cp_memory_copy_is_active() *)
  dma_idle : bool;             (* cp_memory_copy_dma_is_idle() *)
  ds_pc : disp_pc;
  host_rd_ptr : Z;
  host_wr_ptr : Z;
  hal_available : bool;        (* fsa_hal_is_available() *)
  ds_host : host_pc;
  ds_sent : list (list Z);
  ds_fetched : list (list Z);
  ds_handled : list (list Z);
}.

Definition set_pc (p : disp_pc) (s : ds) : ds :=
  mkDs (ds_cp s) (ds_ring s) (ds_fw s) (ds_pool s) (reboot_requested s) (msip s) (kernel_busy s) (cache_busy s)
    (copy_busy s) (dma_idle s) p (host_rd_ptr s) (host_wr_ptr s) (hal_available s) (ds_host s)
    (ds_sent s) (ds_fetched s) (ds_handled s).
Definition set_cp (cp : cp_mmio) (fw : fw_status_t) (s : ds) : ds :=
  mkDs cp (ds_ring s) fw (ds_pool s) (reboot_requested s) (msip s) (kernel_busy s) (cache_busy s)
    (copy_busy s) (dma_idle s) (ds_pc s) (host_rd_ptr s) (host_wr_ptr s) (hal_available s) (ds_host s)
    (ds_sent s) (ds_fetched s) (ds_handled s).
Definition set_dpool (p : list Z) (s : ds) : ds :=
  mkDs (ds_cp s) (ds_ring s) (ds_fw s) p (reboot_requested s) (msip s) (kernel_busy s) (cache_busy s)
    (copy_busy s) (dma_idle s) (ds_pc s) (host_rd_ptr s) (host_wr_ptr s) (hal_available s) (ds_host s)
    (ds_sent s) (ds_fetched s) (ds_handled s).
Definition set_irq (r m : Z) (s : ds) : ds :=
  mkDs (ds_cp s) (ds_ring s) (ds_fw s) (ds_pool s) r m (kernel_busy s) (cache_busy s)
    (copy_busy s) (dma_idle s) (ds_pc s) (host_rd_ptr s) (host_wr_ptr s) (hal_available s) (ds_host s)
    (ds_sent s) (ds_fetched s) (ds_handled s).
Definition set_busy (k c m d : bool) (s : ds) : ds :=
  mkDs (ds_cp s) (ds_ring s) (ds_fw s) (ds_pool s) (reboot_requested s) (msip s) k c
    m d (ds_pc s) (host_rd_ptr s) (host_wr_ptr s) (hal_available s) (ds_host s)
    (ds_sent s) (ds_fetched s) (ds_handled s).
Definition set_host (ring : list (list Z)) (rd wr : Z) (av : bool) (h : host_pc) (s : ds) : ds :=
  mkDs (ds_cp s) ring (ds_fw s) (ds_pool s) (reboot_requested s) (msip s) (kernel_busy s) (cache_busy s)
    (copy_busy s) (dma_idle s) (ds_pc s) rd wr av h
    (ds_sent s) (ds_fetched s) (ds_handled s).
Definition set_hists (sent fetched handled : list (list Z)) (s : ds) : ds :=
  mkDs (ds_cp s) (ds_ring s) (ds_fw s) (ds_pool s) (reboot_requested s) (msip s) (kernel_busy s) (cache_busy s)
    (copy_busy s) (dma_idle s) (ds_pc s) (host_rd_ptr s) (host_wr_ptr s) (hal_available s) (ds_host s)
    sent fetched handled.

Definition set_RD_WR (rd wr : Z) (cp : cp_mmio) : cp_mmio :=
  mkCpMmio (CP_RESET cp) (CP_FW_HOST_ADDR cp) (CP_FW_SIZE cp) (CP_CMD_RING_BASE cp)
    (CP_CMD_SIZE cp) (CP_CMD_RING_SIZE cp) rd wr (FW_STATUS cp) (FW_ABI_VERSION cp)
    (FW_BOOT_GENERATION cp) (FW_FAULT_CODE cp).
Definition set_FW_IMAGE (addr size : Z) (cp : cp_mmio) : cp_mmio :=
  mkCpMmio (CP_RESET cp) addr size (CP_CMD_RING_BASE cp)
    (CP_CMD_SIZE cp) (CP_CMD_RING_SIZE cp) (CP_RD_PTR cp) (CP_WR_PTR cp) (FW_STATUS cp) (FW_ABI_VERSION cp)
    (FW_BOOT_GENERATION cp) (FW_FAULT_CODE cp).

Definition gen_of (s : ds) : Z := boot_generation (ds_fw s).
Definition publish (token result : Z) (s : ds) : ds :=
  set_dpool (cp_publish_completion (gen_of s) (ds_pool s) token result) s.

Definition fail_host_token_if_present (cmd : list Z) (s : ds) : ds :=
  let token := host_token_from_packet cmd in
  if negb (token =? 0) then publish token FSA_COMPLETION_RESULT_COMMAND_FAILURE_MIN s else s.

Definition cp_has_active_kernel_or_cache (s : ds) : bool :=
  if cache_busy s then true else kernel_busy s.

Definition host_launch_packet_is_blocked (cmd : list Z) (s : ds) : bool :=
  (packet_header cmd =? kKernelDispatchPacketHeader) && cp_has_active_kernel_or_cache s.

Definition cp_reboot_is_requested (s : ds) : bool := negb (reboot_requested s =? 0).
Definition cp_reboot_request_from_isr (s : ds) : ds := set_irq 1 (msip s) s.

(** The machine software interrupt of the host, and nothing else. *)
Definition MSI_MCAUSE : Z := Z.lor (Z.shiftl 1 63) 3.
Definition application_interrupt_handler (mcause : Z) (s : ds) : ds :=
  if negb (mcause =? MSI_MCAUSE) then s
  else cp_reboot_request_from_isr (set_irq (reboot_requested s) 0 s).

(** The stores of [cp_reboot_perform] once the drain loop ends. *)
Definition reboot_stores (s : ds) : ds :=
  let cp := set_FW_IMAGE 0 0 (set_RD_WR 0 0 (ds_cp s)) in
  let '(fw, cp) := cp_firmware_status_reset (ds_fw s) cp in
  set_pc PRom (set_cp cp fw s).

(** A loop that yields, unless a reboot is requested. *)
Definition or_reboot (p : disp_pc) (s : ds) : ds :=
  set_pc (if cp_reboot_is_requested s then PReboot else p) s.

Definition ring_at (s : ds) (i : Z) : list Z := nth (Z.to_nat i) (ds_ring s) [].

(** The critical section: copy the packet out and advance the read pointer. *)
Definition fetch (s : ds) : ds :=
  let rd := CP_RD_PTR (ds_cp s) in
  let cmd := ring_at s rd in
  let cp := set_RD_WR ((rd + 1) mod CP_CMD_RING_SIZE (ds_cp s)) (CP_WR_PTR (ds_cp s)) (ds_cp s) in
  set_pc (PCheck cmd) (set_hists (ds_sent s) (ds_fetched s ++ [cmd]) (ds_handled s) (set_cp cp (ds_fw s) s)).

(** The token test and the switch on the header. *)
Definition route (cmd : list Z) (s : ds) : ds :=
  if negb (cp_completion_is_pending (gen_of s) (ds_pool s) (host_token_from_packet cmd)) then set_pc PTop s else
  let s := set_hists (ds_sent s) (ds_fetched s) (ds_handled s ++ [cmd]) s in
  let h := packet_header cmd in
  if h =? kKernelDispatchPacketHeader then set_pc (PKernel cmd) s
  else if h =? kCacheFlushPacketHeader then set_pc (PCache cmd kCacheOpFlush) s
  else if h =? kCacheInvalidatePacketHeader then set_pc (PCache cmd kCacheOpInvalidate) s
  else if h =? kMemoryCopyPacketHeader then set_pc (PCopy cmd) s
  else if h =? kBarrierPacketHeader then set_pc (PBarrier (host_token_from_packet cmd)) s
  else set_pc PTop (fail_host_token_if_present cmd s).

(** One step of the dispatch task; inside a handler it stays where it is. *)
Definition cp_dispatch (s : ds) : ds :=
  match ds_pc s with
  | PStart =>
      let '(fw, cp) := cp_firmware_status_ready (ds_fw s) (ds_cp s) in set_pc PTop (set_cp cp fw s)
  | PTop => or_reboot (if cp_firmware_is_faulted (ds_fw s) then PFaulted else PPoll) s
  | PFaulted => or_reboot PTop s
  | PPoll => set_pc (if CP_RD_PTR (ds_cp s) =? CP_WR_PTR (ds_cp s) then PPollYield else PPollCopy) s
  | PPollCopy => set_pc (if copy_busy s then PPollYield else PPollLaunch) s
  | PPollLaunch =>
      set_pc (if host_launch_packet_is_blocked (ring_at s (CP_RD_PTR (ds_cp s))) s then PPollYield else PFetch) s
  | PPollYield => or_reboot PPoll s
  | PFetch => if cp_reboot_is_requested s then set_pc PReboot s else fetch s
  | PCheck cmd => route cmd s
  | PKernel _ | PCache _ _ | PCopy _ => s
  | PBarrier token => set_pc (if cp_has_active_kernel_or_cache s then PBarrierYield token else PBarrierCopy token) s
  | PBarrierCopy token =>
      if copy_busy s then set_pc (PBarrierYield token) s
      else set_pc PTop (if negb (token =? 0) then publish token FSA_COMPLETION_RESULT_SUCCESS s else s)
  | PBarrierYield token => or_reboot (PBarrier token) s
  | PReboot =>
      if cp_has_active_kernel_or_cache s || copy_busy s || negb (dma_idle s) then s else reboot_stores s
  | PRom => s
  end.

(** ** The host side of the ring *)

(** [sync_rd_ptr], then the capacity test of [reserve_command_slot]. *)
Definition reserve_command_slot (cmd : list Z) (s : ds) : ds :=
  let rd := CP_RD_PTR (ds_cp s) in
  if (host_wr_ptr s + 1) mod CP_CMD_RING_SIZE (ds_cp s) =? rd
  then set_host (ds_ring s) rd (host_wr_ptr s) (hal_available s) HIdle s
  else set_host (ds_ring s) rd (host_wr_ptr s) (hal_available s) (HReserved cmd) s.
(** The two halves of [send_cmd]: the packet, then the write pointer. *)
Definition send_cmd_packet (cmd : list Z) (s : ds) : ds :=
  set_host (<[Z.to_nat (host_wr_ptr s) := cmd]> (ds_ring s)) (host_rd_ptr s) (host_wr_ptr s)
    (hal_available s) (HWritten cmd) s.
(** [delivered] when the store reached the device, [okay] when the transport said
    so; otherwise the session has failed. *)
Definition send_cmd_doorbell (cmd : list Z) (delivered okay : bool) (s : ds) : ds :=
  let next := (host_wr_ptr s + 1) mod CP_CMD_RING_SIZE (ds_cp s) in
  let s := if delivered
           then set_hists (ds_sent s ++ [cmd]) (ds_fetched s) (ds_handled s)
                  (set_cp (set_RD_WR (CP_RD_PTR (ds_cp s)) next (ds_cp s)) (ds_fw s) s)
           else s in
  if okay then set_host (ds_ring s) (host_rd_ptr s) next (hal_available s) HIdle s
  else set_host (ds_ring s) (host_rd_ptr s) (host_wr_ptr s) false HIdle s.
(** [fsa_hal_reset] up to the software interrupt. *)
Definition host_reset (s : ds) : ds :=
  set_irq (reboot_requested s) 1 (set_host (ds_ring s) 0 0 false HIdle s).

(** ** Executions *)

(** What the other tasks may do to the flags: kernels and copies only end, a cache
    operation starts only for an active copy, and a copy that ends while a cache
    operation is pending has faulted the firmware. *)
Definition worker_ok (s : ds) (k c m : bool) (fault : bool) : Prop :=
  (k = true -> kernel_busy s = true) /\ (m = true -> copy_busy s = true) /\
  (c = true -> cache_busy s = true \/ copy_busy s = true) /\
  (copy_busy s = true -> m = false -> c = true ->
     fault = true \/ cp_firmware_is_faulted (ds_fw s) = true) /\
  (fault = true -> copy_busy s = true).

Definition worker (k c m d fault : bool) (reqs : list (Z * Z)) (s : ds) : ds :=
  let s := set_dpool (publish_all (gen_of s) (ds_pool s) reqs) (set_busy k c m d s) in
  if fault then
    let '(fw, cp) := cp_firmware_status_fault kFsaFirmwareFaultMemoryCopyTimeout (ds_fw s) (ds_cp s) in
    set_cp cp fw s
  else s.

(** A handler returns, with its work started or refused. *)
Definition handler_return (k c m : bool) (reqs : list (Z * Z)) (s : ds) : ds :=
  set_pc PTop (set_dpool (publish_all (gen_of s) (ds_pool s) reqs) (set_busy k c m (dma_idle s) s)).

Inductive ds_step : ds -> ds -> Prop :=
| st_dispatch s : ds_step s (cp_dispatch s)
| st_kernel s cmd k reqs : ds_pc s = PKernel cmd ->
    ds_step s (handler_return (kernel_busy s || k) (cache_busy s) (copy_busy s) reqs s)
| st_cache s cmd mode c reqs : ds_pc s = PCache cmd mode ->
    ds_step s (handler_return (kernel_busy s) (cache_busy s || c) (copy_busy s) reqs s)
| st_copy s cmd m reqs : ds_pc s = PCopy cmd ->
    ds_step s (handler_return (kernel_busy s) (cache_busy s) (copy_busy s || m) reqs s)
| st_worker s k c m d fault reqs : worker_ok s k c m fault ->
    ds_step s (worker k c m d fault reqs s)
| st_reserve s cmd : hal_available s = true -> ds_host s = HIdle -> ds_step s (reserve_command_slot cmd s)
| st_cancel s cmd : ds_host s = HReserved cmd ->
    ds_step s (set_host (ds_ring s) (host_rd_ptr s) (host_wr_ptr s) (hal_available s) HIdle s)
| st_packet s cmd : ds_host s = HReserved cmd -> ds_step s (send_cmd_packet cmd s)
| st_doorbell s cmd delivered okay : ds_host s = HWritten cmd -> (okay = true -> delivered = true) ->
    ds_step s (send_cmd_doorbell cmd delivered okay s)
| st_reset s : ds_host s = HIdle -> ds_step s (host_reset s)
| st_irq s mcause : (mcause = MSI_MCAUSE -> msip s <> 0) -> ds_step s (application_interrupt_handler mcause s).

(** Boot: an empty ring, no work, and the host at the same pointers. *)
Definition ds_init (s : ds) : Prop :=
  (1 <= length (ds_ring s))%nat /\ CP_CMD_RING_SIZE (ds_cp s) = Z.of_nat (length (ds_ring s)) /\
  CP_RD_PTR (ds_cp s) = 0 /\ CP_WR_PTR (ds_cp s) = 0 /\ host_rd_ptr s = 0 /\ host_wr_ptr s = 0 /\
  ds_pc s = PStart /\ ds_host s = HIdle /\ reboot_requested s = 0 /\ msip s = 0 /\
  kernel_busy s = false /\ cache_busy s = false /\ copy_busy s = false /\
  ds_sent s = [] /\ ds_fetched s = [] /\ ds_handled s = [].

Inductive ds_reach (s0 : ds) : ds -> Prop :=
| ds_reach_init : ds_reach s0 s0
| ds_reach_step s s' : ds_reach s0 s -> ds_step s s' -> ds_reach s0 s'.

(** ** The ring is a queue *)

Definition sent_n (s : ds) : Z := Z.of_nat (length (ds_sent s)).
Definition fetched_n (s : ds) : Z := Z.of_nat (length (ds_fetched s)).
Definition ring_n (s : ds) : Z := Z.of_nat (length (ds_ring s)).

(** What holds of the host's pointers while the session lives; [c] is how far the
    host has seen the dispatch task read. *)
Definition host_inv (s : ds) : Prop :=
  hal_available s = true \/ ds_host s <> HIdle ->
  host_wr_ptr s = sent_n s mod ring_n s /\
  exists c, 0 <= c <= fetched_n s /\ host_rd_ptr s = c mod ring_n s /\ sent_n s < c + ring_n s /\
    match ds_host s with
    | HIdle => True
    | HReserved _ => sent_n s + 1 < c + ring_n s
    | HWritten cmd => sent_n s + 1 < c + ring_n s /\
        ds_ring s !! Z.to_nat (sent_n s mod ring_n s) = Some cmd
    end.

(** Between the poll and the fetch the ring is not empty; a packet about to be
    checked has been given to no handler. *)
Definition poll_inv (s : ds) : Prop :=
  match ds_pc s with
  | PPollCopy | PPollLaunch | PFetch => fetched_n s < sent_n s
  | PCheck cmd => exists f, ds_fetched s = f ++ [cmd] /\ sublist (ds_handled s) f
  | _ => True
  end.

Record ring_inv (s : ds) : Prop := {
  ri_size : 1 <= ring_n s /\ CP_CMD_RING_SIZE (ds_cp s) = ring_n s;
  ri_ptrs : CP_RD_PTR (ds_cp s) = fetched_n s mod ring_n s /\ CP_WR_PTR (ds_cp s) = sent_n s mod ring_n s;
  ri_count : fetched_n s <= sent_n s < fetched_n s + ring_n s;
  ri_prefix : ds_fetched s = take (length (ds_fetched s)) (ds_sent s);
  ri_content : forall i, (length (ds_fetched s) <= i < length (ds_sent s))%nat ->
    ds_ring s !! Z.to_nat (Z.of_nat i mod ring_n s) = ds_sent s !! i;
  ri_handled : sublist (ds_handled s) (ds_fetched s);
  ri_host : host_inv s;
  ri_poll : poll_inv s;
}.

(** [n] is a positive size and the counters differ by less than it. *)
Lemma mod_eq_near n a b : 0 < n -> a <= b < a + n -> a mod n = b mod n -> a = b.
Proof.
  intros Hn Hab H. destruct (Z.eq_dec a b); [done|exfalso].
  assert (Hd : (b - a) mod n = 0) by (rewrite Zminus_mod, H, Z.sub_diag; by apply Zmod_0_l).
  rewrite Z.mod_small in Hd by lia. lia.
Qed.

Lemma mod_succ a n : 0 < n -> (a mod n + 1) mod n = (a + 1) mod n.
Proof. intros. by rewrite Zplus_mod_idemp_l. Qed.

(** The part of the state the ring invariant looks at, the program counter apart. *)
Definition ring_view (s : ds) :=
  (CP_RD_PTR (ds_cp s), CP_WR_PTR (ds_cp s), CP_CMD_RING_SIZE (ds_cp s), ds_ring s,
   (ds_sent s, ds_fetched s, ds_handled s), (host_rd_ptr s, host_wr_ptr s, hal_available s, ds_host s)).

Lemma ring_frame s s' : ring_view s' = ring_view s -> poll_inv s' -> ring_inv s -> ring_inv s'.
Proof.
  intros Hv Hp [H1 H2 H3 H4 H5 H6 H7 _]. unfold ring_view in Hv. injection Hv as E1 E2 E3 E4 E5 E6 E7 E8 E9 E10 E11.
  constructor; unfold host_inv, sent_n, fetched_n, ring_n in *; rewrite ?E1, ?E2, ?E3, ?E4, ?E5, ?E6, ?E7, ?E8, ?E9, ?E10, ?E11; done.
Qed.

Lemma ring_fetch s : ring_inv s -> ds_pc s = PFetch -> ring_inv (fetch s).
Proof.
  intros [[Hn Hsz] [Hrd Hwr] Hc Hp Hcont Hsub Hh Hpoll] Hpc. unfold poll_inv in Hpoll. rewrite Hpc in Hpoll.
  unfold sent_n, fetched_n, ring_n in *.
  assert (Hcmd : ds_sent s !! length (ds_fetched s) = Some (ring_at s (CP_RD_PTR (ds_cp s)))).
  { rewrite Hrd, <- Hcont by lia. apply nth_lookup_lt.
    pose proof (Z.mod_pos_bound (Z.of_nat (length (ds_fetched s))) (Z.of_nat (length (ds_ring s)))). lia. }
  constructor; unfold fetch, host_inv, poll_inv, sent_n, fetched_n, ring_n;
    cbn [ds_cp ds_ring ds_sent ds_fetched ds_handled ds_host ds_pc hal_available host_wr_ptr host_rd_ptr
         set_pc set_hists set_cp CP_RD_PTR CP_WR_PTR CP_CMD_RING_SIZE set_RD_WR];
    rewrite ?length_app; cbn [length]; try done.
  - split; [|done]. rewrite Hrd, Hsz, mod_succ by lia. f_equal. lia.
  - lia.
  - rewrite Nat.add_1_r. rewrite (take_S_r _ _ _ Hcmd). by rewrite <- Hp.
  - intros i Hi. apply Hcont. lia.
  - by apply sublist_inserts_r.
  - intros Ha. destruct (Hh Ha) as (E & c & Hc1 & Hc2 & Hc3 & Hm). split; [done|].
    unfold sent_n, fetched_n, ring_n in *. exists c. split_and!; try done; lia.
  - by eexists.
Qed.

Ltac cbn_ds :=
  cbn [ds_cp ds_ring ds_sent ds_fetched ds_handled ds_host ds_pc hal_available host_wr_ptr host_rd_ptr
       set_pc set_hists set_cp set_host CP_RD_PTR CP_WR_PTR CP_CMD_RING_SIZE set_RD_WR].

Lemma ring_reserve s cmd : ring_inv s -> hal_available s = true -> ring_inv (reserve_command_slot cmd s).
Proof.
  intros [[Hn Hsz] [Hrd Hwr] Hc Hp Hcont Hsub Hh Hpoll] Ha.
  destruct (Hh (or_introl Ha)) as (Hhw & _). unfold reserve_command_slot. bcase.
  - constructor; try done. intros _. unfold host_inv, sent_n, fetched_n, ring_n in *. cbn_ds. split; [done|]. exists (Z.of_nat (length (ds_fetched s))).
    split_and!; try done; lia.
  - assert (sent_n s + 1 <> fetched_n s + ring_n s).
    { intros E'. rewrite Hhw, Hsz, mod_succ, E', Hrd in E by lia. destruct E.
      rewrite <- (Z.mul_1_l (ring_n s)) at 1. by rewrite Z.mod_add by lia. }
    constructor; try done. intros _. unfold host_inv, sent_n, fetched_n, ring_n in *. cbn_ds. split; [done|]. exists (Z.of_nat (length (ds_fetched s))).
    split_and!; try done; lia.
Qed.

(** The slot the host writes holds no packet that is still queued. *)
Lemma ring_packet s cmd : ring_inv s -> ds_host s = HReserved cmd -> ring_inv (send_cmd_packet cmd s).
Proof.
  intros [[Hn Hsz] [Hrd Hwr] Hc Hp Hcont Hsub Hh Hpoll] Hpc.
  destruct (Hh ltac:(right; by rewrite Hpc)) as (Hhw & c & Hc1 & Hc2 & Hc3 & Hm). rewrite Hpc in Hm.
  assert (Hlen : ring_n (send_cmd_packet cmd s) = ring_n s).
  { unfold ring_n. cbn. by rewrite length_insert. }
  assert (Hlt : (Z.to_nat (host_wr_ptr s) < length (ds_ring s))%nat).
  { rewrite Hhw. pose proof (Z.mod_pos_bound (sent_n s) (ring_n s)). unfold ring_n in *. lia. }
  constructor; try (rewrite Hlen; done); try done.
  - intros i Hi. rewrite Hlen. cbn in Hi |- *. rewrite list_lookup_insert_ne; [by apply Hcont|].
    rewrite Hhw. intros E. apply Z2Nat.inj in E; try (apply Z.mod_pos_bound; lia).
    symmetry in E. apply mod_eq_near in E; unfold sent_n, fetched_n in *; lia.
  - intros _. rewrite Hlen. cbn [host_wr_ptr send_cmd_packet set_host host_rd_ptr ds_host]. split; [done|].
    exists c. change (fetched_n (send_cmd_packet cmd s)) with (fetched_n s).
    change (sent_n (send_cmd_packet cmd s)) with (sent_n s). split_and!; try done; try lia.
    change (<[Z.to_nat (host_wr_ptr s) := cmd]> (ds_ring s) !! Z.to_nat (sent_n s mod ring_n s) = Some cmd).
    rewrite <- Hhw. by apply list_lookup_insert_eq.
Qed.

Lemma ring_doorbell s cmd delivered okay :
  ring_inv s -> ds_host s = HWritten cmd -> (okay = true -> delivered = true) ->
  ring_inv (send_cmd_doorbell cmd delivered okay s).
Proof.
  intros Hinv Hpc Hok. pose proof Hinv as [[Hn Hsz] [Hrd Hwr] Hc Hp Hcont Hsub Hh Hpoll].
  destruct (Hh ltac:(right; by rewrite Hpc)) as (Hhw & c & Hc1 & Hc2 & Hc3 & Hm). rewrite Hpc in Hm.
  destruct Hm as [Hroom Hslot].
  unfold send_cmd_doorbell. destruct delivered.
  2: { destruct okay; [by discriminate Hok|]. constructor; try done. intros [Ha|Ha]; [discriminate Ha|]. by destruct Ha. }
  assert (Hall : forall rd wr av, (av = true -> wr = (sent_n s + 1) mod ring_n s /\
      exists c, 0 <= c <= fetched_n s /\ rd = c mod ring_n s /\ sent_n s + 1 < c + ring_n s) ->
    ring_inv (set_host (ds_ring s) rd wr av HIdle (set_hists (ds_sent s ++ [cmd]) (ds_fetched s) (ds_handled s)
      (set_cp (set_RD_WR (CP_RD_PTR (ds_cp s)) ((host_wr_ptr s + 1) mod CP_CMD_RING_SIZE (ds_cp s)) (ds_cp s))
         (ds_fw s) s)))).
  { intros rd wr av Hav. constructor; unfold host_inv, poll_inv, sent_n, fetched_n, ring_n in *; cbn -[Z.of_nat];
      rewrite ?length_app; cbn [length].
    - done.
    - split; [done|]. rewrite Hhw, Hsz, mod_succ by lia. f_equal. lia.
    - lia.
    - rewrite take_app_le by lia. done.
    - intros i Hi. destruct (decide (i = length (ds_sent s))) as [->|].
      + by rewrite Hslot, list_lookup_middle.
      + rewrite lookup_app_l by lia. apply Hcont. lia.
    - done.
    - intros [Ha|Ha]; [|by destruct Ha]. destruct (Hav Ha) as (E & c' & ? & ? & ?). split; [rewrite E; f_equal; lia|].
      exists c'. split_and!; try done; lia.
    - destruct (ds_pc s); lia || done. }
  destruct okay; cbn [host_rd_ptr host_wr_ptr hal_available ds_ring set_hists set_cp].
  - apply Hall. intros _. split; [by rewrite Hhw, Hsz, mod_succ by lia|]. exists c. split_and!; try done; lia.
  - apply Hall. done.
Qed.

Lemma ring_route s cmd : ring_inv s -> ds_pc s = PCheck cmd -> ring_inv (route cmd s).
Proof.
  intros Hinv Hpc. pose proof (ri_poll _ Hinv) as Hp. unfold poll_inv in Hp. rewrite Hpc in Hp.
  destruct Hp as (f & Hf & Hs). unfold route. bcase; [by apply (ring_frame s)|]. cbv zeta.
  set (s1 := set_hists _ _ _ s).
  assert (H1 : forall p, (p = PTop \/ (exists c, p = PKernel c) \/ (exists c m, p = PCache c m) \/ (exists c, p = PCopy c) \/
    exists t, p = PBarrier t) -> ring_inv (set_pc p s1)).
  { intros p Hp. destruct Hinv. constructor; try done.
    - cbn. rewrite Hf. by apply sublist_app.
    - destruct Hp as [->|[[? ->]|[(? & ? & ->)|[[? ->]|[? ->]]]]]; done. }
  repeat (bcase; [apply H1; naive_solver|]).
  unfold fail_host_token_if_present. bcase; [|by apply H1; left].
  eapply (ring_frame (set_pc PTop s1)); [done|done|]. apply H1. by left.
Qed.

Definition ring_ok (s : ds) : Prop := ds_pc s = PRom \/ ring_inv s.

Lemma ring_dispatch s : ring_inv s -> ring_ok (cp_dispatch s).
Proof.
  intros Hinv. pose proof (ri_poll _ Hinv) as Hp. unfold poll_inv in Hp.
  unfold cp_dispatch. destruct (ds_pc s) eqn:Hpc; try (right; done).
  - right. by apply (ring_frame s).
  - right. apply (ring_frame s); [done| |done]. unfold poll_inv, or_reboot. cbn. by repeat bcase.
  - right. apply (ring_frame s); [done| |done]. unfold poll_inv, or_reboot. cbn. by repeat bcase.
  - right. apply (ring_frame s); [by bcase| |done]. unfold poll_inv. cbn.
    destruct (CP_RD_PTR (ds_cp s) =? CP_WR_PTR (ds_cp s)) eqn:E; [done|]. bprop.
    destruct (ri_ptrs _ Hinv) as [Er Ew]. pose proof (ri_count _ Hinv). 
    change (fetched_n s < sent_n s). destruct (Z.eq_dec (fetched_n s) (sent_n s)) as [E'|]; [|lia].
    rewrite Er, Ew, E' in E. done.
  - right. apply (ring_frame s); [done| |done]. unfold poll_inv. cbn. by bcase.
  - right. apply (ring_frame s); [done| |done]. unfold poll_inv. cbn. by bcase.
  - right. apply (ring_frame s); [done| |done]. unfold poll_inv, or_reboot. cbn. by repeat bcase.
  - right. bcase; [by apply (ring_frame s)|by apply ring_fetch].
  - right. by apply ring_route.
  - right. apply (ring_frame s); [done| |done]. unfold poll_inv. cbn. by bcase.
  - right. bcase; [by apply (ring_frame s)|]. bcase; by apply (ring_frame s).
  - right. apply (ring_frame s); [done| |done]. unfold poll_inv, or_reboot. cbn. by repeat bcase.
  - bcase; [by right|by left].
Qed.

Lemma rom_stays s s' : ds_pc s = PRom -> ds_step s s' -> ds_pc s' = PRom.
Proof.
  intros Hrom Hs. destruct Hs; try congruence; try done.
  - unfold cp_dispatch. by rewrite Hrom.
  - by destruct fault.
  - unfold reserve_command_slot. by bcase.
  - unfold send_cmd_doorbell. by destruct delivered, okay.
  - unfold application_interrupt_handler. by bcase.
Qed.

Lemma ring_step s s' : ring_ok s -> ds_step s s' -> ring_ok s'.
Proof.
  intros [Hrom|Hinv] Hs; [left; by eapply rom_stays|].
  pose proof (ri_poll _ Hinv) as Hp. unfold poll_inv in Hp.
  destruct Hs; try (right; by apply (ring_frame s)).
  - by apply ring_dispatch.
  - right. destruct fault; by apply (ring_frame s).
  - right. by apply ring_reserve.
  - right. destruct Hinv as [? ? ? ? ? ? Hh ?]. constructor; try done. intros Ha.
    destruct (Hh ltac:(right; by rewrite H)) as (E & c & ? & ? & ? & ?). split; [done|]. by exists c.
  - right. by apply ring_packet.
  - right. by apply ring_doorbell.
  - right. destruct Hinv. constructor; try done. intros [Ha|Ha]; [done|by destruct Ha].
  - right. unfold application_interrupt_handler. bcase; [done|]. by apply (ring_frame s).
Qed.

Lemma ring_init s : ds_init s -> ring_inv s.
Proof.
  intros (H1 & H2 & H3 & H4 & H5 & H6 & H7 & H8 & H9 & _ & H10 & H11 & H12 & H13 & H14 & H15).
  constructor; unfold host_inv, poll_inv, sent_n, fetched_n, ring_n; rewrite ?H7, ?H8, ?H13, ?H14, ?H15; cbn [length]; try done.
  - lia.
  - lia.
  - intros i Hi. lia.
  - intros _. rewrite H6, H5. change (Z.of_nat 0) with 0. rewrite Zmod_0_l. split; [done|].
    exists 0. rewrite Zmod_0_l. split_and!; try done; lia.
Qed.

(** ** Commands are started one at a time *)

Definition alone (s : ds) : Prop :=
  kernel_busy s = false /\ cache_busy s = false /\ copy_busy s = false.
(** The packet at the head of the queue. *)
Definition head_packet (s : ds) : list Z := nth (length (ds_fetched s)) (ds_sent s) [].
Definition launch_alone (cmd : list Z) (s : ds) : Prop :=
  copy_busy s = false /\ (packet_header cmd = kKernelDispatchPacketHeader -> alone s).

Definition excl_inv (s : ds) : Prop :=
  match ds_pc s with
  | PPollLaunch | PCache _ _ | PCopy _ | PBarrier _ | PBarrierYield _ => copy_busy s = false
  | PFetch => launch_alone (head_packet s) s
  | PCheck cmd => launch_alone cmd s
  | PKernel _ | PBarrierCopy _ => alone s
  | _ => True
  end.

(** A reboot is only under way for a host that has stopped submitting. *)
Definition reboot_inv (s : ds) : Prop :=
  (reboot_requested s <> 0 \/ msip s <> 0 -> hal_available s = false /\ ds_host s = HIdle) /\
  match ds_pc s with
  | PReboot => reboot_requested s <> 0
  | PRom => reboot_requested s <> 0 /\ alone s /\ CP_RD_PTR (ds_cp s) = 0 /\ CP_WR_PTR (ds_cp s) = 0 /\
      CP_FW_SIZE (ds_cp s) = 0 /\ CP_FW_HOST_ADDR (ds_cp s) = 0 /\
      FW_STATUS (ds_cp s) = FsaFirmwareStatus_code kFsaFirmwareStatusReset
  | _ => True
  end.

Lemma head_is_ring s :
  ring_inv s -> fetched_n s < sent_n s -> head_packet s = ring_at s (CP_RD_PTR (ds_cp s)).
Proof.
  intros [[Hn _] [Hrd _] Hc _ Hcont _ _ _] Hlt. unfold head_packet, ring_at.
  assert (Hl : (length (ds_fetched s) < length (ds_sent s))%nat) by (unfold fetched_n, sent_n in *; lia).
  apply nth_lookup_Some. rewrite Hrd. unfold fetched_n. rewrite <- Hcont by lia.
  apply nth_lookup_lt. pose proof (Z.mod_pos_bound (Z.of_nat (length (ds_fetched s))) (ring_n s)).
  unfold ring_n in *. lia.
Qed.

Lemma not_active_alone s :
  cp_has_active_kernel_or_cache s = false -> copy_busy s = false -> alone s.
Proof.
  unfold cp_has_active_kernel_or_cache, alone. destruct (cache_busy s); [done|]. by intros -> ->.
Qed.

Lemma excl_dispatch s : ring_inv s -> excl_inv s -> excl_inv (cp_dispatch s).
Proof.
  intros Hr Hx. pose proof (ri_poll _ Hr) as Hp. unfold poll_inv in Hp. unfold excl_inv in Hx.
  unfold cp_dispatch. destruct (ds_pc s) eqn:Hpc; unfold excl_inv; rewrite ?Hpc; try done;
    try (unfold or_reboot; cbn; by repeat bcase).
  - cbn. bcase; [done|]. change (launch_alone (head_packet s) s). rewrite (head_is_ring s) by done.
    split; [done|]. intros Hh. unfold host_launch_packet_is_blocked in E. rewrite Hh, Z.eqb_refl in E.
    by apply not_active_alone.
  - bcase; [done|]. cbn. rewrite <- (head_is_ring s) by done. exact Hx.
  - unfold route. bcase; [done|]. cbv zeta. destruct Hx as [Hc Hl]. repeat (bcase; [cbn; auto|]). done.
  - cbn. destruct (cp_has_active_kernel_or_cache s) eqn:E; [done|]. by apply not_active_alone.
  - bcase; [|done]. by destruct Hx as (_ & _ & ?).
  - bcase; [by rewrite Hpc|done].
Qed.

Lemma worker_quiet s k c m fault :
  worker_ok s k c m fault -> copy_busy s = false ->
  m = false /\ (c = true -> cache_busy s = true) /\ (k = true -> kernel_busy s = true) /\ fault = false.
Proof.
  intros (H1 & H2 & H3 & _ & H5) Hc. rewrite Hc in *.
  split_and!; try done; [destruct m; auto; by discriminate H2| |destruct fault; auto; by discriminate H5].
  intros E. destruct (H3 E); [done|discriminate].
Qed.

Lemma alone_worker s k c m fault :
  worker_ok s k c m fault -> alone s -> k = false /\ c = false /\ m = false.
Proof.
  intros Hw (H1 & H2 & H3). destruct (worker_quiet _ _ _ _ _ Hw H3) as (Hm & Hc & Hk & _). rewrite H1, H2 in *.
  destruct k, c, m; auto; intuition congruence.
Qed.

Lemma excl_worker s k c m d fault reqs :
  worker_ok s k c m fault -> excl_inv s -> excl_inv (worker k c m d fault reqs s).
Proof.
  intros Hw Hx.
  assert (Hpc : ds_pc (worker k c m d fault reqs s) = ds_pc s) by (by destruct fault).
  assert (Hm : copy_busy s = false -> copy_busy (worker k c m d fault reqs s) = false).
  { intros Hc. destruct (worker_quiet _ _ _ _ _ Hw Hc) as (-> & _ & _ & ->). done. }
  assert (Ha : alone s -> alone (worker k c m d fault reqs s)).
  { intros Hal. destruct (alone_worker _ _ _ _ _ Hw Hal) as (-> & -> & ->). by destruct fault. }
  assert (Hh : head_packet (worker k c m d fault reqs s) = head_packet s) by (by destruct fault).
  unfold excl_inv in *. rewrite Hpc, ?Hh. unfold launch_alone in *. destruct (ds_pc s); intuition.
Qed.

Lemma excl_step s s' : ring_inv s -> excl_inv s -> ds_step s s' -> excl_inv s'.
Proof.
  intros Hr Hx Hs. pose proof (ri_poll _ Hr) as Hp. unfold poll_inv in Hp.
  destruct Hs; try done.
  - by apply excl_dispatch.
  - by apply excl_worker.
  - unfold reserve_command_slot. by bcase.
  - unfold send_cmd_doorbell. destruct delivered; [|by destruct okay].
    assert (Hhead : fetched_n s < sent_n s -> nth (length (ds_fetched s)) (ds_sent s ++ [cmd]) [] = head_packet s).
    { intros. unfold fetched_n, sent_n in *. apply app_nth1. lia. }
    unfold excl_inv in *. destruct okay; cbn; destruct (ds_pc s); try done;
      change (launch_alone (nth (length (ds_fetched s)) (ds_sent s ++ [cmd]) []) s); by rewrite Hhead.
  - unfold application_interrupt_handler. by bcase.
Qed.

Lemma reboot_step s s' : reboot_inv s -> ds_step s s' -> reboot_inv s'.
Proof.
  intros [Hreq Hpc] Hs. destruct Hs as [s|s cmd k reqs E|s cmd mode c reqs E|s cmd m reqs E|s k c m d fault reqs Hw|
    s cmd Ha Hh|s cmd Hh|s cmd Hh|s cmd delivered okay Hh Hok|s Hh|s mcause Hm].
  - unfold cp_dispatch, or_reboot. destruct (ds_pc s) eqn:E; try (by split);
      try (by split; [exact Hreq|rewrite E]);
      try (split; [exact Hreq|]; unfold cp_reboot_is_requested; cbn [ds_pc set_pc]; repeat bcase; done).
    + unfold cp_reboot_is_requested. bcase; by split.
    + unfold route, fail_host_token_if_present. repeat (bcase; [by split|]). by split.
    + unfold publish. repeat bcase; by split.
    + bcase; [split; [exact Hreq|by rewrite E]|]. bprop. split; [exact Hreq|]. cbn.
      split_and!; try done. by apply not_active_alone.
  - by split.
  - by split.
  - by split.
  - assert (Hv : forall x, x = worker k c m d fault reqs s -> reboot_requested x = reboot_requested s /\
      msip x = msip s /\ hal_available x = hal_available s /\ ds_host x = ds_host s /\ ds_pc x = ds_pc s)
      by (intros x ->; by destruct fault).
    destruct (Hv _ eq_refl) as (E1 & E2 & E3 & E4 & E5). unfold reboot_inv.
    rewrite E1, E2, E3, E4, E5. split; [done|].
    destruct (ds_pc s); try done. destruct Hpc as (? & Hal & ?). split; [done|].
    destruct (alone_worker _ _ _ _ _ Hw Hal) as (-> & -> & ->).
    destruct (worker_quiet _ _ _ _ _ Hw) as (_ & _ & _ & ->); [apply Hal|]. by split.
  - unfold reserve_command_slot. bcase; (split; [|done]); cbn; intros [H|H];
      (destruct Hreq as [Hav _]; [auto|congruence]).
  - split; [|done]. cbn. intros [H|H]; (destruct Hreq as [Hav Hi]; [auto|congruence]).
  - split; [|done]. cbn. intros [H|H]; (destruct Hreq as [Hav Hi]; [auto|congruence]).
  - assert (Hno : reboot_requested s = 0 /\ msip s = 0).
    { destruct (Z.eq_dec (reboot_requested s) 0); [|destruct Hreq; [auto|congruence]].
      destruct (Z.eq_dec (msip s) 0); [done|destruct Hreq; [auto|congruence]]. }
    destruct Hno as [H1 H2]. unfold send_cmd_doorbell. split.
    + destruct delivered, okay; cbn; rewrite H1, H2; intros [?|?]; done.
    + destruct (ds_pc s) eqn:E; try (destruct delivered, okay; cbn; by rewrite E).
      by destruct Hpc as [Hn _].
  - split; [|done]. cbn. auto.
  - unfold application_interrupt_handler. bcase; [by split|]. split.
    + cbn. intros _. apply Hreq. right. by apply Hm.
    + cbn. destruct (ds_pc s); try done. by destruct Hpc.
Qed.

Lemma reach_inv s0 s :
  ds_init s0 -> ds_reach s0 s -> reboot_inv s /\ (ds_pc s = PRom \/ ring_inv s /\ excl_inv s).
Proof.
  intros Hi Hr. induction Hr as [|s s' Hr [IHr IH] Hs].
  - pose proof (ring_init _ Hi). destruct Hi as (_ & _ & _ & _ & _ & _ & Hpc & Hh & Hrq & Hm & _).
    split; [|right; split; [done|unfold excl_inv; by rewrite Hpc]].
    split; [|by rewrite Hpc]. intros [?|?]; congruence.
  - split; [by eapply reboot_step|]. destruct IH as [Hrom|[Hri Hx]]; [left; by eapply rom_stays|].
    destruct (ring_step s s' (or_intror Hri) Hs) as [|Hri']; [by left|].
    right. split; [done|exact (excl_step s s' Hri Hx Hs)].
Qed.

(** ** Running a schedule *)

Inductive ds_act :=
  | GDispatch
  | GSubmit (cmd : list Z)                     (* reserve, packet, doorbell *)
  | GKernel (k : bool)
  | GWorker (k c m : bool)
  | GReset.

(** One action; the guards of [ds_step] hold where it changes the state. *)
Definition ds_do (a : ds_act) (s : ds) : ds :=
  match a with
  | GDispatch => cp_dispatch s
  | GSubmit cmd =>
      match hal_available s, ds_host s with
      | true, HIdle =>
          let s1 := reserve_command_slot cmd s in
          match ds_host s1 with
          | HReserved _ => send_cmd_doorbell cmd true true (send_cmd_packet cmd s1)
          | _ => s1
          end
      | _, _ => s
      end
  | GKernel k =>
      match ds_pc s with
      | PKernel _ => handler_return (kernel_busy s || k) (cache_busy s) (copy_busy s) [] s
      | _ => s
      end
  | GWorker k c m =>
      worker (k && kernel_busy s) (c && cache_busy s && negb (copy_busy s && negb m)) (m && copy_busy s)
        (dma_idle s) false [] s
  | GReset => match ds_host s with HIdle => application_interrupt_handler MSI_MCAUSE (host_reset s) | _ => s end
  end.
Definition ds_run (acts : list ds_act) (s : ds) : ds := fold_left (fun s a => ds_do a s) acts s.

Lemma ds_do_reach s0 s a : ds_reach s0 s -> ds_reach s0 (ds_do a s).
Proof.
  intros Hr. destruct a as [|cmd|k|k c m|]; cbn [ds_do].
  - eapply ds_reach_step; [done|constructor].
  - destruct (hal_available s) eqn:Ha; [|done]. destruct (ds_host s) eqn:Hh; try done.
    assert (H1 : ds_reach s0 (reserve_command_slot cmd s)) by (eapply ds_reach_step; [done|by constructor]).
    assert (Hc : ds_host (reserve_command_slot cmd s) = HIdle \/ ds_host (reserve_command_slot cmd s) = HReserved cmd).
    { unfold reserve_command_slot. bcase; auto. }
    destruct Hc as [E|E]; rewrite E; [done|].
    eapply ds_reach_step; [eapply ds_reach_step; [exact H1|by apply st_packet]|]. by apply st_doorbell.
  - destruct (ds_pc s) eqn:E; try done. eapply ds_reach_step; [done|by eapply st_kernel].
  - eapply ds_reach_step; [done|]. constructor. unfold worker_ok.
    destruct (kernel_busy s), (cache_busy s), (copy_busy s), k, c, m; cbn; intuition congruence.
  - destruct (ds_host s) eqn:E; try done.
    eapply ds_reach_step; [eapply ds_reach_step; [done|by apply st_reset]|]. by apply st_irq.
Qed.

Lemma ds_run_reach s0 acts : ds_reach s0 (ds_run acts s0).
Proof.
  unfold ds_run. assert (H : ds_reach s0 s0) by constructor. revert H. generalize s0 at 2 4 as s.
  induction acts as [|a acts IH]; intros s Hr; [done|]. simpl. by apply IH, ds_do_reach.
Qed.

Definition sample_cmd (header slot : Z) : list Z :=
  ho_encode (mkHeaderOnlyPacket header (fsa_completion_token_make 1 5 slot)).
Definition sample_ds : ds :=
  mkDs (mkCpMmio 0 0 0 0 64 4 0 0 1 3 1 0) (replicate 4 []) (mkFwStatus 1 kFsaFirmwareStatusBooting)
    (map (fun i => fsa_completion_slot_encode
           (fsa_completion_token_alloc_tag (fsa_completion_token_make 1 5 (Z.of_nat i)))
           FSA_COMPLETION_RESULT_PENDING) (seq 0 64))
    0 0 false false false true PStart 0 0 true HIdle [] [] [].

Lemma sample_ds_init : ds_init sample_ds.
Proof. vm_compute. split_and!; try done; lia. Qed.

(** ** Properties *)

(** C2. The ring is a FIFO queue between the host and the firmware: until the
    firmware jumps to the ROM, in every interleaving of submissions (failed
    doorbells included) and the dispatch loop, the packets taken out are a prefix
    of the packets whose doorbell was rung, in order, none lost, duplicated or
    overwritten; the packets not yet taken out are fewer than the ring's size and lie in
    the ring from the read pointer on, and the handlers get a subsequence of what
    was taken out, each packet at most once. *)
Theorem ring_is_fifo s0 s :
  ds_init s0 -> ds_reach s0 s -> ds_pc s <> PRom ->
  exists queue, ds_sent s = ds_fetched s ++ queue /\ (length queue < length (ds_ring s))%nat /\
    (forall i cmd, queue !! i = Some cmd ->
       ds_ring s !! Z.to_nat ((CP_RD_PTR (ds_cp s) + Z.of_nat i) mod CP_CMD_RING_SIZE (ds_cp s)) = Some cmd) /\
    (queue = [] <-> CP_RD_PTR (ds_cp s) = CP_WR_PTR (ds_cp s)) /\
    sublist (ds_handled s) (ds_fetched s).
Proof.
  intros Hi Hr Hpc. destruct (reach_inv _ _ Hi Hr) as [_ [?|[Hinv _]]]; [done|].
  destruct Hinv as [[Hn Hsz] [Hrd Hwr] Hc Hp Hcont Hsub _ _]. unfold sent_n, fetched_n, ring_n in *.
  exists (drop (length (ds_fetched s)) (ds_sent s)). split_and!.
  - rewrite Hp at 1. by rewrite take_drop.
  - rewrite length_drop. lia.
  - intros i cmd Hq. rewrite lookup_drop in Hq. pose proof (lookup_lt_Some _ _ _ Hq).
    rewrite Hrd, Hsz, Zplus_mod_idemp_l. rewrite <- Nat2Z.inj_add, Hcont by lia. done.
  - rewrite Hrd, Hwr. split.
    + intros Hq. f_equal. apply (f_equal length) in Hq. rewrite length_drop in Hq. cbn in Hq. lia.
    + intros E. apply mod_eq_near in E; [|lia|lia]. apply drop_ge. lia.
  - done.
Qed.

Lemma ring_is_fifo_witness :
  let s := ds_run [GDispatch; GSubmit (sample_cmd 9 1); GSubmit (sample_cmd 4 2); GSubmit (sample_cmd 4 3);
                   GSubmit (sample_cmd 4 4); GDispatch; GDispatch; GDispatch; GDispatch; GDispatch] sample_ds in
  exists queue, ds_sent s = ds_fetched s ++ queue /\ (length queue < 4)%nat /\
    length (ds_fetched s) = 1%nat /\ length queue = 2%nat.
Proof.
  intros s. destruct (ring_is_fifo sample_ds s) as (q & H1 & H2 & _).
  - exact sample_ds_init.
  - apply ds_run_reach.
  - vm_compute. congruence.
  - exists q. assert (Ef : length (ds_fetched s) = 1%nat) by (vm_compute; reflexivity).
    assert (Es : length (ds_sent s) = 3%nat) by (vm_compute; reflexivity).
    split; [exact H1|]. split; [exact H2|]. split; [exact Ef|].
    apply (f_equal length) in H1. rewrite length_app in H1. lia.
Defined.

(** C34. Commands are ordered as the host relies on: a kernel is handed to the launch
    code, and a barrier answered with success, only at a point where no kernel is
    running, no cache operation is pending and no memory copy is active; a copy or
    a cache command starts with no copy active. *)
Theorem commands_ordered s0 s :
  ds_init s0 -> ds_reach s0 s ->
  (forall cmd, ds_pc s = PKernel cmd -> alone s) /\
  (forall token, ds_pc s = PBarrierCopy token -> alone s /\
     cp_dispatch s = set_pc PTop (if negb (token =? 0) then publish token FSA_COMPLETION_RESULT_SUCCESS s else s)) /\
  (forall cmd, ds_pc s = PCopy cmd -> copy_busy s = false) /\
  (forall cmd mode, ds_pc s = PCache cmd mode -> copy_busy s = false).
Proof.
  intros Hi Hr. destruct (reach_inv _ _ Hi Hr) as [_ [Hrom|[_ Hx]]].
  - by split_and!; intros; rewrite Hrom in *.
  - unfold excl_inv in Hx. split_and!.
    + intros cmd E. by rewrite E in Hx.
    + intros token E. rewrite E in Hx. split; [done|]. unfold cp_dispatch. rewrite E.
      destruct Hx as (_ & _ & ->). done.
    + intros cmd E. by rewrite E in Hx.
    + intros cmd mode E. by rewrite E in Hx.
Qed.

Lemma commands_ordered_witness :
  let s := ds_run ([GDispatch; GSubmit (sample_cmd 1 1); GSubmit (sample_cmd 4 2)] ++ replicate 6 GDispatch ++
                   [GKernel true] ++ replicate 9 GDispatch ++ [GWorker false false false] ++ replicate 2 GDispatch)
             sample_ds in
  ds_pc s = PBarrierCopy (fsa_completion_token_make 1 5 2) /\ alone s.
Proof.
  intros s. assert (E : ds_pc s = PBarrierCopy (fsa_completion_token_make 1 5 2)) by (vm_compute; reflexivity).
  split; [exact E|]. destruct (commands_ordered sample_ds s) as (_ & H & _).
  - exact sample_ds_init.
  - apply ds_run_reach.
  - destruct (H _ E) as [Ha _]. exact Ha.
Defined.

(** A reboot drains first: when the firmware jumps to the ROM, no kernel, cache
    operation or copy is active, the ring pointers and the image registers are
    zero, the status register reads Reset, and the host has stopped submitting. *)
Theorem reboot_drains s0 s :
  ds_init s0 -> ds_reach s0 s -> ds_pc s = PRom ->
  alone s /\ CP_RD_PTR (ds_cp s) = 0 /\ CP_WR_PTR (ds_cp s) = 0 /\ CP_FW_SIZE (ds_cp s) = 0 /\
  CP_FW_HOST_ADDR (ds_cp s) = 0 /\ FW_STATUS (ds_cp s) = FsaFirmwareStatus_code kFsaFirmwareStatusReset /\
  hal_available s = false /\ ds_host s = HIdle.
Proof.
  intros Hi Hr E. destruct (reach_inv _ _ Hi Hr) as [[Hq Hpc] _]. rewrite E in Hpc.
  destruct Hpc as (Hrq & H). destruct (Hq (or_introl Hrq)) as [Ha Hh]. intuition.
Qed.

Lemma reboot_drains_witness :
  let s := ds_run [GDispatch; GSubmit (sample_cmd 1 1); GDispatch; GReset; GDispatch; GDispatch; GDispatch;
                   GDispatch; GDispatch] sample_ds in
  ds_pc s = PRom /\ CP_WR_PTR (ds_cp s) = 0.
Proof.
  intros s. assert (E : ds_pc s = PRom) by (vm_compute; reflexivity). split; [exact E|].
  apply (reboot_drains sample_ds s); [exact sample_ds_init|apply ds_run_reach|exact E].
Defined.

(** The loop makes progress: from the top of the loop, with the firmware not
    faulted, no reboot requested, a packet in the ring and nothing running, five
    steps of the dispatch task take the packet out; with a pending token and an
    unknown header, one more answers it with the smallest failure code. *)
Theorem dispatch_progress s :
  ds_pc s = PTop -> reboot_requested s = 0 -> cp_firmware_is_faulted (ds_fw s) = false ->
  CP_RD_PTR (ds_cp s) <> CP_WR_PTR (ds_cp s) -> alone s ->
  let cmd := ring_at s (CP_RD_PTR (ds_cp s)) in
  let s5 := Nat.iter 5 cp_dispatch s in
  ds_pc s5 = PCheck cmd /\ ds_fetched s5 = ds_fetched s ++ [cmd] /\
  CP_RD_PTR (ds_cp s5) = (CP_RD_PTR (ds_cp s) + 1) mod CP_CMD_RING_SIZE (ds_cp s) /\
  (cp_completion_is_pending (gen_of s) (ds_pool s) (host_token_from_packet cmd) = true ->
   host_token_from_packet cmd <> 0 ->
   packet_header cmd ∉ [kKernelDispatchPacketHeader; kCacheFlushPacketHeader; kCacheInvalidatePacketHeader;
                        kMemoryCopyPacketHeader; kBarrierPacketHeader] ->
   ds_pc (cp_dispatch s5) = PTop /\
   ds_pool (cp_dispatch s5) = cp_publish_completion (gen_of s) (ds_pool s) (host_token_from_packet cmd)
     FSA_COMPLETION_RESULT_COMMAND_FAILURE_MIN).
Proof.
  intros Hpc Hrq Hf Hne (Hk & Hc & Hm) cmd s5.
  assert (E : s5 = fetch s).
  { subst s5. cbn [Nat.iter nat_rect]. unfold cp_dispatch at 5. rewrite Hpc.
    unfold or_reboot, cp_reboot_is_requested. rewrite Hrq, Hf. cbn [negb Z.eqb].
    unfold cp_dispatch at 4. cbn [ds_pc set_pc ds_cp]. rewrite (proj2 (Z.eqb_neq _ _) Hne).
    unfold cp_dispatch at 3. cbn [ds_pc set_pc copy_busy]. rewrite Hm.
    unfold cp_dispatch at 2. cbn [ds_pc set_pc]. unfold host_launch_packet_is_blocked, cp_has_active_kernel_or_cache.
    cbn [cache_busy kernel_busy set_pc]. rewrite Hk, Hc, andb_false_r.
    unfold cp_dispatch at 1. cbn [ds_pc set_pc]. unfold cp_reboot_is_requested. cbn [reboot_requested set_pc].
    by rewrite Hrq. }
  rewrite E. split_and!; try done. intros Hp Ht Hh. unfold cp_dispatch. cbn [fetch ds_pc set_pc].
  unfold route. fold cmd. change (gen_of (fetch s)) with (gen_of s). change (ds_pool (fetch s)) with (ds_pool s).
  rewrite Hp. cbn [negb]. cbv zeta.
  rewrite !not_elem_of_cons in Hh. destruct Hh as (? & ? & ? & ? & ? & _).
  rewrite !(proj2 (Z.eqb_neq _ _)) by done. unfold fail_host_token_if_present. fold cmd.
  rewrite (proj2 (Z.eqb_neq _ _) Ht). done.
Qed.

Lemma dispatch_progress_witness :
  let s := ds_run [GDispatch; GSubmit (sample_cmd 9 1)] sample_ds in
  let cmd := ring_at s (CP_RD_PTR (ds_cp s)) in
  host_token_from_packet cmd = fsa_completion_token_make 1 5 1 /\
  ds_pool (cp_dispatch (Nat.iter 5 cp_dispatch s)) =
    cp_publish_completion (gen_of s) (ds_pool s) (host_token_from_packet cmd)
      FSA_COMPLETION_RESULT_COMMAND_FAILURE_MIN.
Proof.
  intros s cmd. split; [vm_compute; reflexivity|]. destruct (dispatch_progress s) as (_ & _ & _ & H).
  - vm_compute. reflexivity.
  - vm_compute. reflexivity.
  - vm_compute. reflexivity.
  - vm_compute. congruence.
  - vm_compute. auto.
  - apply H.
    + vm_compute. reflexivity.
    + vm_compute. congruence.
    + intros Hin. apply list_elem_of_In in Hin. vm_compute in Hin. intuition congruence.
Defined.

(** The dispatch task is not working on a command. *)
Definition between_commands (p : disp_pc) : Prop :=
  match p with PTop | PFaulted | PReboot | PRom => True | _ => False end.

(** A faulted firmware takes no further command from the top of its loop: once the
    status is Fault and the dispatch task is back at the top, no step of anyone
    takes a packet out of the ring or hands one to a handler; the task only watches
    for a reboot. *)
Theorem fault_stops_dispatch s s' :
  ds_step s s' -> cp_firmware_is_faulted (ds_fw s) = true -> between_commands (ds_pc s) ->
  ds_fetched s' = ds_fetched s /\ ds_handled s' = ds_handled s /\ between_commands (ds_pc s') /\
  (ds_pc s' <> PRom -> cp_firmware_is_faulted (ds_fw s') = true).
Proof.
  intros Hs Hf Hpc. destruct Hs as [s|s cmd k reqs E|s cmd mode c reqs E|s cmd m reqs E|s k c m d fault reqs Hw|
    s cmd Ha Hh|s cmd Hh|s cmd Hh|s cmd delivered okay Hh Hok|s Hh|s mcause Hm]; try done; try (by rewrite E in Hpc).
  - unfold cp_dispatch, or_reboot. destruct (ds_pc s) eqn:E; try done.
    + rewrite Hf. split_and!; try done. cbn. by bcase.
    + split_and!; try done. cbn. by bcase.
    + bcase; [by rewrite E|]. by split_and!.
    + by rewrite E.
  - by destruct fault.
  - unfold reserve_command_slot. by bcase.
  - unfold send_cmd_doorbell. by destruct delivered, okay.
  - unfold application_interrupt_handler. by bcase.
Qed.

Lemma fault_stops_dispatch_witness :
  let s := ds_run [GDispatch; GSubmit (sample_cmd 1 1)] sample_ds in
  let f := worker false false false true true [] s in
  cp_firmware_is_faulted (ds_fw f) = true /\ ds_fetched (cp_dispatch f) = ds_fetched f.
Proof.
  intros s f. split; [vm_compute; reflexivity|].
  apply (fault_stops_dispatch f (cp_dispatch f)).
  - constructor.
  - vm_compute. reflexivity.
  - vm_compute. exact I.
Defined.
