(* ===== verification/Falloc.v ===== *)
(** * Device-memory allocator of the host (hal/src/common/falloc/falloc.c)

    [fsa_malloc], [fsa_addr_malloc] and [fsa_free] hand out device memory from two
    contexts of this allocator. A context keeps the free blocks in a linked list
    sorted by address and the allocated blocks in another, newest first; every
    node is on one list only, so a list of nodes is a Rocq list of blocks. The host
    functions [malloc] and [fopen] may fail: their outcome is an argument of the
    definitions. The JSON log is not modelled beyond whether its file is open. *)

From S2P Require Import Prelude Tiling.

(** A block: [dptr] and [size]. *)
Abbreviation Block := region.
Abbreviation dptr := rg_base.
Abbreviation bsize := rg_size.

Record FallocCtx := mkFalloc {
  free_list : list Block;
  allocated_list : list Block;
  alignment : Z;
  logf : bool;
}.
Definition FALLOC_CTX_INITIALIZER : FallocCtx := mkFalloc [] [] 1 false.

Definition SIZE_MAX : Z := UINT64_MAX.

(** [None] is the return value 1. *)
Definition align_size (ctx : FallocCtx) (n : Z) : option Z :=
  if SIZE_MAX -% (alignment ctx -% 1) <? n then None
  else Some (Z.land ((n +% alignment ctx) -% 1) (u64 (Z.lnot (alignment ctx -% 1)))).

Definition falloc_init_impl (ctx : FallocCtx) (start size align : Z) (log malloc_ok fopen_ok : bool)
    : FallocCtx * Z :=
  if (size =? 0) || (align =? 0) || negb (Z.land align (align -% 1) =? 0) then (ctx, 1) else
  if negb malloc_ok then (ctx, 1) else
  let ctx := mkFalloc [mkRegion start size] (allocated_list ctx) align (logf ctx) in
  if negb log then (ctx, 0) else
  if negb fopen_ok then (mkFalloc [] (allocated_list ctx) align false, 1)
  else (mkFalloc (free_list ctx) (allocated_list ctx) align true, 0).

(** The scans: the nodes before the first one that satisfies [p], that node, and
    the nodes after it. *)
Fixpoint find_block (p : Block -> bool) (l : list Block) : option (list Block * Block * list Block) :=
  match l with
  | [] => None
  | b :: l' =>
      if p b then Some ([], b, l')
      else match find_block p l' with Some (pre, x, post) => Some (b :: pre, x, post) | None => None end
  end.

(** [has_ptr]: the out pointer is not NULL; the answer carries what is stored there. *)
Definition falloc_malloc_impl (ctx : FallocCtx) (has_ptr : bool) (size : Z) (malloc_ok : bool)
    : FallocCtx * Z * option Z :=
  if negb has_ptr then (ctx, 1, None) else
  match align_size ctx size with
  | None => (ctx, 1, None)
  | Some size =>
      match find_block (fun b => size <=? bsize b) (free_list ctx) with
      | None => (ctx, 1, None)
      | Some (pre, b, post) =>
          if size <? bsize b then
            if negb malloc_ok then (ctx, 1, None) else
            let remainder := mkRegion (dptr b +% size) (bsize b -% size) in
            (mkFalloc (pre ++ remainder :: post) (mkRegion (dptr b) size :: allocated_list ctx)
               (alignment ctx) (logf ctx), 0, Some (dptr b))
          else
            (mkFalloc (pre ++ post) (b :: allocated_list ctx) (alignment ctx) (logf ctx), 0, Some (dptr b))
      end
  end.

Definition falloc_addr_malloc_impl (ctx : FallocCtx) (addr size : Z) (right_ok left_ok : bool)
    : FallocCtx * Z :=
  match align_size ctx size with
  | None => (ctx, 1)
  | Some size =>
      match find_block (fun b => (dptr b <=? addr) && (addr <? dptr b +% bsize b) &&
                                 (addr +% size <=? dptr b +% bsize b)) (free_list ctx) with
      | None => (ctx, 1)
      | Some (pre, b, post) =>
          let need_right := addr +% size <? dptr b +% bsize b in
          let need_left := dptr b <? addr in
          if need_right && negb right_ok then (ctx, 1) else
          if need_left && negb left_ok then (ctx, 1) else
          let right := if need_right
                       then [mkRegion (addr +% size) ((dptr b +% bsize b) -% (addr +% size))] else [] in
          let left := if need_left then [mkRegion (dptr b) (addr -% dptr b)] else [] in
          let taken := mkRegion (if need_left then addr else dptr b) size in
          (mkFalloc (pre ++ left ++ right ++ post) (taken :: allocated_list ctx) (alignment ctx) (logf ctx), 0)
      end
  end.

(** The nodes up to the insertion point, and the rest. *)
Fixpoint insertion_point (ptr : Z) (l : list Block) : list Block * list Block :=
  match l with
  | [] => ([], [])
  | b :: l' => if ptr <? dptr b then ([], l)
               else let '(f1, f2) := insertion_point ptr l' in (b :: f1, f2)
  end.

(** The released node [a] goes between [f1] and [f2], merged with its neighbours. *)
Definition link_and_merge (f1 : list Block) (a : Block) (f2 : list Block) : list Block :=
  let '(f1, a) :=
    match last f1 with
    | Some insert =>
        if dptr insert +% bsize insert =? dptr a
        then (removelast f1, mkRegion (dptr insert) (bsize insert +% bsize a))
        else (f1, a)
    | None => (f1, a)
    end in
  match f2 with
  | next :: f2' =>
      if dptr a +% bsize a =? dptr next
      then f1 ++ mkRegion (dptr a) (bsize a +% bsize next) :: f2'
      else f1 ++ a :: f2
  | [] => f1 ++ [a]
  end.

Definition falloc_free_impl (ctx : FallocCtx) (ptr : Z) : FallocCtx * Z :=
  match find_block (fun b => ptr =? dptr b) (allocated_list ctx) with
  | None => (ctx, 1)
  | Some (pre, a, post) =>
      let '(f1, f2) := insertion_point ptr (free_list ctx) in
      (mkFalloc (link_and_merge f1 a f2) (pre ++ post) (alignment ctx) (logf ctx), 0)
  end.

Definition falloc_clean_impl (ctx : FallocCtx) : FallocCtx := FALLOC_CTX_INITIALIZER.

(** ** The two contexts and their entry points *)

Record falloc_state := mkFallocState { cache_ctx : FallocCtx; noncache_ctx : FallocCtx }.
Definition falloc_boot : falloc_state := mkFallocState FALLOC_CTX_INITIALIZER FALLOC_CTX_INITIALIZER.
Definition set_cache (s : falloc_state) (c : FallocCtx) : falloc_state := mkFallocState c (noncache_ctx s).
Definition set_noncache (s : falloc_state) (c : FallocCtx) : falloc_state := mkFallocState (cache_ctx s) c.

Definition falloc_init (s : falloc_state) (start size align : Z) (log malloc_ok fopen_ok : bool) :=
  let '(c, rc) := falloc_init_impl (cache_ctx s) start size align log malloc_ok fopen_ok in (set_cache s c, rc).
Definition falloc_malloc (s : falloc_state) (has_ptr : bool) (size : Z) (ok : bool) :=
  let '(c, rc, p) := falloc_malloc_impl (cache_ctx s) has_ptr size ok in (set_cache s c, rc, p).
Definition falloc_addr_malloc (s : falloc_state) (addr size : Z) (right_ok left_ok : bool) :=
  let '(c, rc) := falloc_addr_malloc_impl (cache_ctx s) addr size right_ok left_ok in (set_cache s c, rc).
Definition falloc_free (s : falloc_state) (ptr : Z) :=
  let '(c, rc) := falloc_free_impl (cache_ctx s) ptr in (set_cache s c, rc).
Definition falloc_clean (s : falloc_state) : falloc_state := set_cache s (falloc_clean_impl (cache_ctx s)).
Definition falloc_noncache_init (s : falloc_state) (start size align : Z) (log malloc_ok fopen_ok : bool) :=
  let '(c, rc) := falloc_init_impl (noncache_ctx s) start size align log malloc_ok fopen_ok in (set_noncache s c, rc).
Definition falloc_noncache_malloc (s : falloc_state) (has_ptr : bool) (size : Z) (ok : bool) :=
  let '(c, rc, p) := falloc_malloc_impl (noncache_ctx s) has_ptr size ok in (set_noncache s c, rc, p).
Definition falloc_noncache_free (s : falloc_state) (ptr : Z) :=
  let '(c, rc) := falloc_free_impl (noncache_ctx s) ptr in (set_noncache s c, rc).
Definition falloc_noncache_clean (s : falloc_state) : falloc_state :=
  set_noncache s (falloc_clean_impl (noncache_ctx s)).

(** ** Lemmas *)

Lemma find_block_Some p l pre b post :
  find_block p l = Some (pre, b, post) -> l = pre ++ b :: post /\ p b = true /\ Forall (fun x => p x = false) pre.
Proof.
  revert pre. induction l as [|x l IH]; intros pre H; simpl in H; [done|].
  destruct (p x) eqn:E; [simplify_eq; by split_and!|].
  destruct (find_block p l) as [[[pre' b'] post']|]; [|done]. injection H as <- <- <-.
  destruct (IH pre' eq_refl) as (-> & ? & ?). split_and!; auto.
Qed.

Lemma find_block_None p l : find_block p l = None <-> Forall (fun x => p x = false) l.
Proof.
  induction l as [|x l IH]; simpl; [by split|]. destruct (p x) eqn:E.
  - split; [done|]. intros H. apply Forall_cons in H as [? _]. congruence.
  - destruct (find_block p l) as [[[]]|]; rewrite Forall_cons; split; try done.
    + intros [_ H]. by apply IH in H.
    + intros _. split; [done|by apply IH].
Qed.

Lemma insertion_point_split ptr f1 f2 :
  Forall (fun b => dptr b <= ptr) f1 -> Forall (fun b => ptr < dptr b) f2 ->
  insertion_point ptr (f1 ++ f2) = (f1, f2).
Proof.
  intros H1 H2. induction H1 as [|b f1 Hb _ IH]; simpl.
  - destruct H2 as [|b f2 Hb _]; simpl; [done|]. by rewrite (proj2 (Z.ltb_lt _ _)).
  - rewrite (proj2 (Z.ltb_ge _ _)) by done. by rewrite IH.
Qed.

(** Inside a window below 2^64, [link_and_merge] is the merge of the tiling. *)
Lemma link_and_merge_coalesce f1 b s f2 :
  0 <= b -> 0 < s -> b + s < 2 ^ 64 ->
  Forall (fun r => 0 <= dptr r /\ 0 < bsize r /\ dptr r + bsize r <= b) f1 ->
  Forall (fun r => b + s <= dptr r /\ 0 < bsize r /\ dptr r + bsize r < 2 ^ 64) f2 ->
  link_and_merge f1 (mkRegion b s) f2 = coalesce f1 b s f2.
Proof.
  intros Hb Hs Hbs H1 H2. unfold link_and_merge, coalesce, merge_left, merge_right. cbn [rg_base rg_size].
  assert (Hlast : forall p, last f1 = Some p -> 0 <= dptr p /\ 0 < bsize p /\ dptr p + bsize p <= b).
  { intros p Hp. apply last_Some in Hp as [l ->]. apply Forall_app in H1 as [_ H1]. by apply Forall_cons in H1 as [? _]. }
  destruct (last f1) as [p|]; [specialize (Hlast p eq_refl); wsimpl; destruct (dptr p + bsize p =? b) eqn:E; bprop|];
    destruct f2 as [|n f2]; cbn [rg_base rg_size]; try done;
    apply Forall_cons in H2 as [Hn _]; wsimpl; try done.
  - replace (dptr p + (bsize p + s)) with (b + s) by lia. bcase; [|done]. do 3 f_equal. lia.
  - by bcase.
  - by bcase.
Qed.

(** ** The invariant *)

Definition pairs (l : list Block) : list (Z * Z) := (fun b => (dptr b, bsize b)) <$> l.

(** [2^k] is the alignment; the window [start, start + len) is a multiple of it and
    ends below 2^64. *)
Record arena := mkArena { ar_k : Z; ar_start : Z; ar_len : Z }.
Definition arena_ok (r : arena) : Prop :=
  0 <= ar_k r < 64 /\ 0 <= ar_start r /\ 0 < ar_len r /\ ar_start r + ar_len r < 2 ^ 64 /\
  (2 ^ ar_k r | ar_start r) /\ (2 ^ ar_k r | ar_len r).

Record falloc_inv (r : arena) (ctx : FallocCtx) (ts : list tile) : Prop := {
  fi_tiled : tiled (2 ^ ar_k r) (ar_start r) (ar_start r + ar_len r) false ts;
  fi_free : free_list ctx = frees ts;
  fi_alloc : pairs (allocated_list ctx) ≡ₚ acts ts;
  fi_align : alignment ctx = 2 ^ ar_k r;
}.
Definition falloc_ok (r : arena) (ctx : FallocCtx) : Prop := exists ts, falloc_inv r ctx ts.

Definition rounded (r : arena) (size : Z) : Z := (size + 2 ^ ar_k r - 1) / 2 ^ ar_k r * 2 ^ ar_k r.

Lemma align_size_spec r ctx ts size :
  arena_ok r -> falloc_inv r ctx ts -> 0 <= size < 2 ^ 64 ->
  match align_size ctx size with
  | Some n => n = rounded r size /\ size <= n < 2 ^ 64
  | None => 2 ^ 64 <= rounded r size
  end.
Proof.
  intros (Hk & _) Hinv Hs. unfold align_size, rounded. rewrite (fi_align _ _ _ Hinv).
  assert (Hp : 0 < 2 ^ ar_k r) by (apply Z.pow_pos_nonneg; lia).
  assert (Hp2 : 2 ^ ar_k r < 2 ^ 64) by (apply Z.pow_lt_mono_r; lia).
  assert (H64 : (2 ^ ar_k r | 2 ^ 64)).
  { exists (2 ^ (64 - ar_k r)). rewrite <- Z.pow_add_r by lia. f_equal. lia. }
  set (a := 2 ^ ar_k r) in *. unfold SIZE_MAX, UINT64_MAX. wsimpl.
  pose proof (Z.div_mod (size + a - 1) a) as Hdm. pose proof (Z.mod_pos_bound (size + a - 1) a) as Hm.
  bcase.
  - destruct H64 as [q Hq]. assert (q <= (size + a - 1) / a); [|nia].
    apply Z.div_le_lower_bound; lia.
  - replace (wrap 64 (size +% a - 1)) with (size + a - 1).
    2: { destruct (Z.eq_dec (size + a) (2 ^ 64)) as [E'|].
         - rewrite E'. unfold wrap. rewrite Z_mod_same_full. vm_compute. reflexivity.
         - by rewrite !(wrap_small 64) by (rewrite ?wrap_small; lia). }
    unfold a. rewrite land_mask64 by (unfold fits; fold a; lia). fold a. split; lia.
Qed.

Lemma rounded_size_pos r size : arena_ok r -> 0 < size -> 0 < rounded r size /\ (2 ^ ar_k r | rounded r size).
Proof.
  intros (Hk & _) Hs. unfold rounded. assert (0 < 2 ^ ar_k r) by (apply Z.pow_pos_nonneg; lia).
  split; [|apply Z.divide_factor_r]. assert (1 <= (size + 2 ^ ar_k r - 1) / 2 ^ ar_k r); [|nia].
  apply Z.div_le_lower_bound; lia.
Qed.

Lemma pairs_middle l b k : pairs (l ++ b :: k) ≡ₚ (dptr b, bsize b) :: pairs (l ++ k).
Proof. unfold pairs. rewrite !fmap_app, fmap_cons. by rewrite <- Permutation_middle. Qed.

(** A free block found by a scan is a free tile. *)
Lemma free_block_tile r ctx ts pre b post :
  falloc_inv r ctx ts -> free_list ctx = pre ++ b :: post ->
  exists l m, ts = l ++ mkTile true (dptr b) (bsize b) :: m /\ frees l = pre /\ frees m = post.
Proof.
  intros Hinv E. rewrite (fi_free _ _ _ Hinv) in E.
  assert (Hl : frees ts !! length pre = Some b) by (rewrite E; by apply list_lookup_middle).
  apply frees_split in Hl as (l & m & -> & Hlen). exists l, m. split; [done|].
  rewrite frees_app in E. simpl in E. apply app_inj_1 in E as [E1 E2]; [|done]. by injection E2.
Qed.

Lemma tile_in_window r l f b s m :
  arena_ok r -> tiled (2 ^ ar_k r) (ar_start r) (ar_start r + ar_len r) false (l ++ mkTile f b s :: m) ->
  0 <= b /\ 0 < s /\ b + s < 2 ^ 64 /\ ar_start r <= b /\ b + s <= ar_start r + ar_len r /\
  (2 ^ ar_k r | s) /\ (2 ^ ar_k r | b).
Proof.
  intros (_ & ? & ? & ? & Hd & _) Ht.
  assert (Hin : mkTile f b s ∈ l ++ mkTile f b s :: m) by (apply elem_of_app; right; left).
  apply (tiled_in _ _ _ _ _ Ht) in Hin as (? & ? & ? & ? & Hdb). simpl in *.
  split_and!; try lia; [done|]. replace b with (b - ar_start r + ar_start r) by lia. by apply Z.divide_add_r.
Qed.

(** *** malloc *)

Lemma malloc_cases r ctx ts size ok :
  arena_ok r -> falloc_inv r ctx ts -> 0 < size < 2 ^ 64 ->
  match falloc_malloc_impl ctx true size ok with
  | (ctx', rc, Some base) => rc = 0 /\ falloc_ok r ctx' /\
      pairs (allocated_list ctx') = (base, rounded r size) :: pairs (allocated_list ctx)
  | (ctx', rc, None) => rc = 1 /\ ctx' = ctx /\ (ok = true -> Forall (fun b => bsize b < rounded r size) (frees ts))
  end.
Proof.
  intros Hr Hinv Hs. unfold falloc_malloc_impl. cbn [negb].
  pose proof (align_size_spec r ctx ts size Hr Hinv ltac:(lia)) as Ha.
  destruct (rounded_size_pos r size Hr ltac:(lia)) as [Hpos Hdiv].
  assert (Hall : 2 ^ 64 <= rounded r size -> Forall (fun b => bsize b < rounded r size) (frees ts)).
  { intros Hbig. apply Forall_forall. intros b Hb. apply elem_of_frees, (tiled_in _ _ _ _ _ (fi_tiled _ _ _ Hinv)) in Hb.
    simpl in Hb. destruct Hr as (_ & ? & _ & ? & _). lia. }
  destruct (align_size ctx size) as [n|]; [|by split_and!; auto]. destruct Ha as [-> Hlt]. set (n := rounded r size) in *.
  destruct (find_block _ _) as [[[pre b] post]|] eqn:E.
  2: { split_and!; auto. intros _. apply find_block_None in E. rewrite (fi_free _ _ _ Hinv) in E.
       eapply Forall_impl; [exact E|]. intros b Hb. simpl in Hb. by bprop. }
  apply find_block_Some in E as (E & Hfit & _). bprop.
  destruct (free_block_tile r ctx ts pre b post Hinv E) as (l & m & -> & <- & <-).
  pose proof (tile_in_window r l true (dptr b) (bsize b) m Hr (fi_tiled _ _ _ Hinv)) as (? & ? & ? & _).
  pose proof (tiled_carve _ _ _ _ _ n _ (fi_tiled _ _ _ Hinv) ltac:(lia) Hdiv) as Ht'.
  pose proof (fi_alloc _ _ _ Hinv) as Hal. rewrite acts_app in Hal. simpl in Hal.
  destruct (n <? bsize b) eqn:Ecmp; bprop.
  - destruct ok; cbn [negb]; [|by split_and!]. wsimpl. split_and!; [done| |done].
    eexists. constructor; [exact Ht'|..]; cbn [free_list allocated_list alignment].
    + unfold carve. rewrite (proj2 (Z.eqb_neq _ _)) by lia. by rewrite frees_app.
    + unfold carve. rewrite (proj2 (Z.eqb_neq _ _)) by lia. rewrite acts_app. simpl.
      rewrite <- Permutation_middle. by constructor.
    + apply (fi_align _ _ _ Hinv).
  - assert (bsize b = n) as Eb by lia. split_and!; [done| |cbn; by rewrite Eb].
    eexists. constructor; [exact Ht'|..]; cbn [free_list allocated_list alignment].
    + unfold carve. rewrite (proj2 (Z.eqb_eq _ _)) by lia. by rewrite frees_app.
    + unfold carve. rewrite (proj2 (Z.eqb_eq _ _)) by lia. rewrite acts_app. simpl. rewrite Eb.
      rewrite <- Permutation_middle. by constructor.
    + apply (fi_align _ _ _ Hinv).
Qed.

(** *** addr_malloc *)

Lemma addr_malloc_cases r ctx ts addr size right_ok left_ok :
  arena_ok r -> falloc_inv r ctx ts -> 0 < size < 2 ^ 64 ->
  (2 ^ ar_k r | addr) -> 0 <= addr -> addr + rounded r size < 2 ^ 64 ->
  match falloc_addr_malloc_impl ctx addr size right_ok left_ok with
  | (ctx', rc) =>
      (rc = 0 /\ falloc_ok r ctx' /\
       pairs (allocated_list ctx') = (addr, rounded r size) :: pairs (allocated_list ctx) /\
       exists b, b ∈ frees ts /\ dptr b <= addr /\ addr + rounded r size <= dptr b + bsize b) \/
      (rc = 1 /\ ctx' = ctx /\ (right_ok = true -> left_ok = true ->
         Forall (fun b => ~ (dptr b <= addr /\ addr + rounded r size <= dptr b + bsize b)) (frees ts)))
  end.
Proof.
  intros Hr Hinv Hs Hda Ha0 Hfit. unfold falloc_addr_malloc_impl.
  pose proof (align_size_spec r ctx ts size Hr Hinv ltac:(lia)) as Ha.
  destruct (rounded_size_pos r size Hr ltac:(lia)) as [Hpos Hdiv].
  destruct (align_size ctx size) as [n|]; [|lia]. destruct Ha as [-> Hlt]. set (n := rounded r size) in *. clearbody n.
  assert (Hwin : forall b, b ∈ frees ts -> 0 <= dptr b /\ 0 < bsize b /\ dptr b + bsize b < 2 ^ 64).
  { intros b Hb. apply elem_of_frees, (tiled_in _ _ _ _ _ (fi_tiled _ _ _ Hinv)) in Hb. simpl in Hb.
    destruct Hr as (_ & ? & _ & ? & _). lia. }
  destruct (find_block _ _) as [[[pre b] post]|] eqn:E.
  2: { right. split_and!; auto. intros _ _. apply find_block_None in E. rewrite (fi_free _ _ _ Hinv) in E.
       rewrite Forall_forall in E |- *. intros b Hb [H1 H2]. specialize (E b Hb). simpl in E.
       destruct (Hwin b Hb) as (? & ? & ?). wsimpl_in E. rewrite (proj2 (Z.leb_le _ _)) in E by lia.
       rewrite (proj2 (Z.ltb_lt _ _)), (proj2 (Z.leb_le _ _)) in E by lia. done. }
  apply find_block_Some in E as (E & Hp & _). bprop.
  assert (Hbin : b ∈ frees ts) by (rewrite <- (fi_free _ _ _ Hinv), E; apply elem_of_app; right; left).
  destruct (Hwin b Hbin) as (? & ? & ?). wsimpl. repeat match goal with H : context [wrap _ _] |- _ => progress wsimpl_in H end.
  destruct (free_block_tile r ctx ts pre b post Hinv E) as (l & m & -> & <- & <-).
  pose proof (tile_in_window r l true (dptr b) (bsize b) m Hr (fi_tiled _ _ _ Hinv)) as (_ & _ & _ & _ & _ & _ & Hdb).
  pose proof (tiled_carve_at _ _ _ _ _ addr n _ (fi_tiled _ _ _ Hinv) ltac:(lia) ltac:(lia) ltac:(lia) Hdiv
    ltac:(by apply Z.divide_sub_r)) as Ht'.
  pose proof (fi_alloc _ _ _ Hinv) as Hal. rewrite acts_app in Hal. simpl in Hal.
  assert (Htaken : (if dptr b <? addr then addr else dptr b) = addr) by (bcase; lia). rewrite Htaken.
  destruct ((addr + n <? dptr b + bsize b) && negb right_ok) eqn:Eno1.
  { right. bprop. split_and!; auto. intros ->. done. }
  destruct ((dptr b <? addr) && negb left_ok) eqn:Eno2.
  { right. bprop. split_and!; auto. intros _ ->. done. }
  left. split_and!; [done| |done|exists b; split_and!; [done|lia|lia]].
  eexists. constructor; [exact Ht'|..]; cbn [free_list allocated_list alignment].
  - unfold carve_at. rewrite !frees_app. cbn [frees t_free]. wsimpl.
    destruct (dptr b <? addr) eqn:El, (addr + n <? dptr b + bsize b) eqn:Er; bprop; simpl; wsimpl; done.
  - unfold carve_at. rewrite !acts_app. destruct (dptr b <? addr), (addr + n <? dptr b + bsize b); simpl;
      rewrite <- Permutation_middle; by constructor.
  - apply (fi_align _ _ _ Hinv).
Qed.

(** *** free *)

Lemma free_cases r ctx ts ptr :
  arena_ok r -> falloc_inv r ctx ts ->
  match falloc_free_impl ctx ptr with
  | (ctx', rc) =>
      (rc = 0 /\ falloc_ok r ctx' /\
       exists size, pairs (allocated_list ctx) ≡ₚ (ptr, size) :: pairs (allocated_list ctx')) \/
      (rc = 1 /\ ctx' = ctx /\ ptr ∉ (pairs (allocated_list ctx)).*1)
  end.
Proof.
  intros Hr Hinv. unfold falloc_free_impl.
  destruct (find_block _ _) as [[[pre a] post]|] eqn:E.
  2: { right. split_and!; auto. apply find_block_None in E. rewrite Forall_forall in E.
       intros Hin. apply list_elem_of_fmap in Hin as ([b s] & -> & Hin). unfold pairs in Hin.
       apply list_elem_of_fmap in Hin as (x & Ex & Hx). injection Ex as -> ->. specialize (E x Hx). simpl in E.
       bprop. done. }
  apply find_block_Some in E as (E & Hp & _). bprop. subst ptr.
  assert (Hpairs : pairs (allocated_list ctx) ≡ₚ (dptr a, bsize a) :: pairs (pre ++ post)) by (rewrite E; apply pairs_middle).
  assert (Hact : (dptr a, bsize a) ∈ acts ts).
  { rewrite <- (fi_alloc _ _ _ Hinv), Hpairs. left. }
  destruct (acts_split _ _ _ Hact) as (l & m & ->).
  pose proof (fi_tiled _ _ _ Hinv) as Ht.
  pose proof (tile_in_window r l false (dptr a) (bsize a) m Hr Ht) as (? & ? & Hend & _).
  destruct (tiled_release _ _ _ _ _ _ Ht) as (us & Hus & Hacts & Hfr).
  assert (Hsplit : tiled (2 ^ ar_k r) (ar_start r) (dptr a) false l /\
    tiled (2 ^ ar_k r) (dptr a + bsize a) (ar_start r + ar_len r) false m).
  { rewrite tiled_app in Ht. destruct Ht as (mid & Hl & Hb & _ & _ & _ & Hm). simpl in *. by subst mid. }
  destruct Hsplit as [Hl Hm]. destruct Hr as (_ & Hst & _ & Hlim & _).
  assert (H1 : Forall (fun x => 0 <= dptr x /\ 0 < bsize x /\ dptr x + bsize x <= dptr a) (frees l)).
  { apply Forall_forall. intros x Hx. apply elem_of_frees, (tiled_in _ _ _ _ _ Hl) in Hx. simpl in Hx. lia. }
  assert (H2 : Forall (fun x => dptr a + bsize a <= dptr x /\ 0 < bsize x /\ dptr x + bsize x < 2 ^ 64) (frees m)).
  { apply Forall_forall. intros x Hx. apply elem_of_frees, (tiled_in _ _ _ _ _ Hm) in Hx. simpl in Hx. lia. }
  rewrite (fi_free _ _ _ Hinv), frees_app. cbn [frees t_free].
  rewrite insertion_point_split.
  2: { eapply Forall_impl; [exact H1|]. simpl. lia. }
  2: { eapply Forall_impl; [exact H2|]. simpl. lia. }
  left. split_and!; [done| |by exists (bsize a)].
  exists us. constructor; cbn [free_list allocated_list alignment]; [done|..].
  - rewrite Hfr. destruct a as [b s]. by apply link_and_merge_coalesce.
  - apply (Permutation_cons_inv (a := (dptr a, bsize a))). rewrite <- Hpairs, (fi_alloc _ _ _ Hinv), Hacts, acts_app.
    simpl. by rewrite <- Permutation_middle.
  - apply (fi_align _ _ _ Hinv).
Qed.

(** ** The contract *)

Inductive falloc_op :=
  | FMalloc (size : Z) (ok : bool)
  | FAddr (addr size : Z) (right_ok left_ok : bool)
  | FFree (ptr : Z).
Inductive falloc_answer := FGranted (base : Z) | FDone | FRefused.

Definition falloc_call (ctx : FallocCtx) (op : falloc_op) : FallocCtx * falloc_answer :=
  match op with
  | FMalloc size ok =>
      match falloc_malloc_impl ctx true size ok with
      | (ctx', rc, Some base) => (ctx', if rc =? 0 then FGranted base else FRefused)
      | (ctx', _, None) => (ctx', FRefused)
      end
  | FAddr addr size right_ok left_ok =>
      let '(ctx', rc) := falloc_addr_malloc_impl ctx addr size right_ok left_ok in
      (ctx', if rc =? 0 then FDone else FRefused)
  | FFree ptr =>
      let '(ctx', rc) := falloc_free_impl ctx ptr in (ctx', if rc =? 0 then FDone else FRefused)
  end.
Fixpoint falloc_run (ctx : FallocCtx) (ops : list falloc_op) : FallocCtx * list falloc_answer :=
  match ops with
  | [] => (ctx, [])
  | op :: ops' =>
      let '(ctx1, a) := falloc_call ctx op in
      let '(ctx2, rest) := falloc_run ctx1 ops' in (ctx2, a :: rest)
  end.

(** Requests of a positive size; a fixed-address request is aligned and does not
    reach past the end of the address space. *)
Definition fop_ok (r : arena) (op : falloc_op) : Prop :=
  match op with
  | FMalloc size _ => 0 < size < 2 ^ 64
  | FAddr addr size _ _ =>
      0 < size < 2 ^ 64 /\ (2 ^ ar_k r | addr) /\ 0 <= addr /\ addr + rounded r size < 2 ^ 64
  | FFree _ => True
  end.

Definition inside (r : arena) (base size : Z) : Prop :=
  ar_start r <= base /\ base + size <= ar_start r + ar_len r.
Definition clear_of (L : list (Z * Z)) (base size : Z) : Prop :=
  forall b s, (b, s) ∈ L -> base + size <= b \/ b + s <= base.

(** What the callers see; [L] lists the live blocks. *)
Inductive falloc_spec (r : arena) : falloc_op -> falloc_answer -> list (Z * Z) -> list (Z * Z) -> Prop :=
| fs_grant size ok base L L' :
    inside r base (rounded r size) -> (2 ^ ar_k r | base) -> clear_of L base (rounded r size) ->
    L' ≡ₚ (base, rounded r size) :: L -> falloc_spec r (FMalloc size ok) (FGranted base) L L'
| fs_full size ok L :
    (ok = true -> forall x, inside r x (rounded r size) -> ~ clear_of L x (rounded r size)) ->
    falloc_spec r (FMalloc size ok) FRefused L L
| fs_addr_grant addr size right_ok left_ok L L' :
    inside r addr (rounded r size) -> clear_of L addr (rounded r size) ->
    L' ≡ₚ (addr, rounded r size) :: L -> falloc_spec r (FAddr addr size right_ok left_ok) FDone L L'
| fs_addr_busy addr size right_ok left_ok L :
    (right_ok = true -> left_ok = true -> inside r addr (rounded r size) -> ~ clear_of L addr (rounded r size)) ->
    falloc_spec r (FAddr addr size right_ok left_ok) FRefused L L
| fs_free ptr size L L' : L ≡ₚ (ptr, size) :: L' -> falloc_spec r (FFree ptr) FDone L L'
| fs_bad_free ptr L : ptr ∉ L.*1 -> falloc_spec r (FFree ptr) FRefused L L.

Inductive falloc_spec_run (r : arena) : list falloc_op -> list falloc_answer -> list (Z * Z) -> list (Z * Z) -> Prop :=
| fsr_nil L : falloc_spec_run r [] [] L L
| fsr_cons op a ops rest L L1 L2 :
    falloc_spec r op a L L1 -> falloc_spec_run r ops rest L1 L2 -> falloc_spec_run r (op :: ops) (a :: rest) L L2.

Definition live (ctx : FallocCtx) : list (Z * Z) := pairs (allocated_list ctx).

Lemma live_member r ctx b s L :
  arena_ok r -> falloc_ok r ctx -> live ctx ≡ₚ (b, s) :: L ->
  inside r b s /\ (2 ^ ar_k r | b) /\ clear_of L b s.
Proof.
  intros Hr [ts Hinv] HL.
  assert (Hp : acts ts ≡ₚ (b, s) :: L) by (by rewrite <- (fi_alloc _ _ _ Hinv)).
  assert (Hin : (b, s) ∈ acts ts) by (rewrite Hp; left).
  destruct (acts_split _ _ _ Hin) as (l & m & ->).
  pose proof (tile_in_window r _ _ _ _ _ Hr (fi_tiled _ _ _ Hinv)) as (_ & _ & _ & ? & ? & _ & ?).
  split_and!; try done. intros c v. apply (acts_cons_disjoint _ _ _ _ _ _ (fi_tiled _ _ _ Hinv) Hp).
Qed.

Lemma falloc_call_refines r ctx op :
  arena_ok r -> falloc_ok r ctx -> fop_ok r op ->
  let '(ctx', a) := falloc_call ctx op in falloc_ok r ctx' /\ falloc_spec r op a (live ctx) (live ctx').
Proof.
  intros Hr Hok Hop. pose proof Hok as [ts Hinv]. destruct op as [size ok|addr size ro lo|ptr]; simpl in Hop |- *.
  - pose proof (malloc_cases r ctx ts size ok Hr Hinv Hop) as Hc.
    destruct (rounded_size_pos r size Hr ltac:(lia)) as [Hpos _].
    destruct (falloc_malloc_impl ctx true size ok) as [[ctx' rc] [base|]].
    + destruct Hc as (-> & Hok' & HL). split; [done|]. simpl.
      destruct (live_member r ctx' base (rounded r size) (live ctx) Hr Hok') as (? & ? & ?); [unfold live; by rewrite HL|].
      constructor; auto. unfold live. by rewrite HL.
    + destruct Hc as (_ & -> & Hno). split; [done|]. constructor. intros Hk x [Hx1 Hx2] Hclear.
      destruct (no_gap_no_place _ _ _ x (rounded r size) (fi_tiled _ _ _ Hinv)) as (b & s & Hbs & ?); auto.
      { eapply Forall_impl; [exact (Hno Hk)|]. simpl. lia. }
      rewrite <- (fi_alloc _ _ _ Hinv) in Hbs. destruct (Hclear b s Hbs); lia.
  - destruct Hop as (Hs & Hd & Ha & Hend).
    pose proof (addr_malloc_cases r ctx ts addr size ro lo Hr Hinv Hs Hd Ha Hend) as Hc.
    destruct (rounded_size_pos r size Hr ltac:(lia)) as [Hpos _].
    destruct (falloc_addr_malloc_impl ctx addr size ro lo) as [ctx' rc].
    destruct Hc as [(-> & Hok' & HL & _)|(-> & -> & Hno)]; (split; [done|]); simpl.
    + destruct (live_member r ctx' addr (rounded r size) (live ctx) Hr Hok') as (? & ? & ?); [unfold live; by rewrite HL|].
      constructor; auto. unfold live. by rewrite HL.
    + constructor. intros H1 H2 [Hx1 Hx2] Hclear.
      destruct (no_gap_no_place _ _ _ addr (rounded r size) (fi_tiled _ _ _ Hinv)) as (b & s & Hbs & ?); auto.
      rewrite <- (fi_alloc _ _ _ Hinv) in Hbs. destruct (Hclear b s Hbs); lia.
  - pose proof (free_cases r ctx ts ptr Hr Hinv) as Hc.
    destruct (falloc_free_impl ctx ptr) as [ctx' rc].
    destruct Hc as [(-> & Hok' & size & HL)|(-> & -> & Hno)]; (split; [done|]); simpl; by econstructor.
Qed.

Lemma falloc_run_ok r ops ctx :
  arena_ok r -> falloc_ok r ctx -> Forall (fop_ok r) ops ->
  let '(ctx', answers) := falloc_run ctx ops in
  falloc_ok r ctx' /\ falloc_spec_run r ops answers (live ctx) (live ctx').
Proof.
  intros Hr Hok Hops. revert ctx Hok. induction Hops as [|op ops Hop _ IH]; intros ctx Hok; simpl.
  { split; [done|constructor]. }
  pose proof (falloc_call_refines r ctx op Hr Hok Hop) as Hc. destruct (falloc_call ctx op) as [ctx1 a].
  destruct Hc as [Hok1 Hs]. specialize (IH ctx1 Hok1). destruct (falloc_run ctx1 ops) as [ctx2 rest].
  destruct IH as [Hok2 Hr2]. split; [done|]. by econstructor.
Qed.

Lemma falloc_init_ok r ctx :
  arena_ok r -> allocated_list ctx = [] ->
  exists ctx', falloc_init_impl ctx (ar_start r) (ar_len r) (2 ^ ar_k r) false true true = (ctx', 0) /\
    falloc_ok r ctx' /\ live ctx' = [].
Proof.
  intros (Hk & Hs & Hl & Hend & Hds & Hdl) Ha. unfold falloc_init_impl.
  assert (Hp : 0 < 2 ^ ar_k r) by (apply Z.pow_pos_nonneg; lia).
  assert (Hp2 : 2 ^ ar_k r < 2 ^ 64) by (apply Z.pow_lt_mono_r; lia).
  rewrite !(proj2 (Z.eqb_neq _ _)) by lia. wsimpl. rewrite pow2_test_complete by lia. cbn.
  eexists. split; [done|]. unfold live. cbn. rewrite Ha. split; [|done].
  exists [mkTile true (ar_start r) (ar_len r)]. constructor; cbn; [|done|done|done].
  by split_and!.
Qed.

(** ** Properties *)

(** C36. The device-memory allocator keeps its contract: after an initialisation with
    a power-of-two alignment and a window that is a multiple of it, every sequence
    of releases, of allocations of a positive size, and of fixed-address allocations of
    a positive size at an aligned address whose rounded end does not wrap around
    ([fop_ok]) answers as the contract allows. Outside these requests it does not:
    see [falloc_zero_size_aliases] and [falloc_addr_malloc_wraps]. A granted block lies in the window, is aligned, has the rounded size and
    overlaps no live block; a refusal for lack of room means that every placement
    overlaps a live block; exactly the bases of live blocks can be released. *)
Theorem falloc_run_refines_spec r ctx0 ctx ops ctx' answers :
  arena_ok r -> allocated_list ctx0 = [] ->
  falloc_init_impl ctx0 (ar_start r) (ar_len r) (2 ^ ar_k r) false true true = (ctx, 0) ->
  Forall (fop_ok r) ops -> falloc_run ctx ops = (ctx', answers) ->
  falloc_spec_run r ops answers [] (live ctx').
Proof.
  intros Hr Ha Hi Hops Hrun. destruct (falloc_init_ok r ctx0 Hr Ha) as (c & Hc & Hok & HL).
  rewrite Hc in Hi. injection Hi as ->. pose proof (falloc_run_ok r ops ctx Hr Hok Hops) as H.
  rewrite Hrun, HL in H. apply H.
Qed.

Definition sample_arena : arena := mkArena 6 0xC0000000 0x1000.
Definition sample_fops : list falloc_op :=
  [FMalloc 100 true; FMalloc 64 true; FAddr 0xC0000400 256 true true; FMalloc 0x2000 true;
   FFree 0xC0000000; FMalloc 1 false; FFree 0xC0000000].
Lemma sample_arena_ok : arena_ok sample_arena.
Proof. vm_compute. split_and!; try congruence; [exists 0x3000000|exists 64]; reflexivity. Qed.

Lemma falloc_run_refines_spec_witness :
  let ctx := mkFalloc [mkRegion 0xC0000000 0x1000] [] 64 false in
  let '(ctx', answers) := falloc_run ctx sample_fops in
  answers = [FGranted 0xC0000000; FGranted 0xC0000080; FDone; FRefused; FDone; FRefused; FRefused] /\
  falloc_spec_run sample_arena sample_fops answers [] (live ctx').
Proof.
  intros ctx. destruct (falloc_run ctx sample_fops) as [ctx' answers] eqn:E.
  split.
  - assert (H : snd (falloc_run ctx sample_fops) = answers) by (rewrite E; reflexivity).
    rewrite <- H. vm_compute. reflexivity.
  - apply (falloc_run_refines_spec sample_arena FALLOC_CTX_INITIALIZER ctx sample_fops ctx' answers).
    + exact sample_arena_ok.
    + reflexivity.
    + vm_compute. reflexivity.
    + repeat constructor; vm_compute; try congruence; exists 0x3000010; reflexivity.
    + exact E.
Defined.

(** No fragmentation survives: the free list is determined by the live blocks
    (as sets), and once every block has been released it is the whole window again,
    whatever the order of the calls. *)
Theorem falloc_free_list_canonical r c1 c2 :
  arena_ok r -> falloc_ok r c1 -> falloc_ok r c2 ->
  ((forall p, p ∈ live c1 <-> p ∈ live c2) -> free_list c1 = free_list c2) /\
  (live c1 = [] -> free_list c1 = [mkRegion (ar_start r) (ar_len r)]).
Proof.
  intros (Hk & Hs & Hl & Hend & Hds & Hdl) [t1 H1] [t2 H2]. split.
  - intros Hp. rewrite (fi_free _ _ _ H1), (fi_free _ _ _ H2). f_equal.
    apply (tiled_unique _ _ _ _ _ (fi_tiled _ _ _ H1) (fi_tiled _ _ _ H2)).
    intros p. unfold live in Hp. by rewrite <- (fi_alloc _ _ _ H1), <- (fi_alloc _ _ _ H2).
  - intros He. rewrite (fi_free _ _ _ H1).
    assert (Ht : t1 = [mkTile true (ar_start r) (ar_len r)]).
    { apply (tiled_unique _ _ _ _ _ (fi_tiled _ _ _ H1)); [by split_and!|].
      intros p. rewrite <- (fi_alloc _ _ _ H1). unfold live in He. by rewrite He. }
    by rewrite Ht.
Qed.

Lemma falloc_free_list_canonical_witness :
  let ctx := mkFalloc [mkRegion 0xC0000000 0x1000] [] 64 false in
  let c1 := fst (falloc_run ctx [FMalloc 100 true; FMalloc 64 true; FFree 0xC0000000; FFree 0xC0000080]) in
  live c1 = [] /\ free_list c1 = [mkRegion 0xC0000000 0x1000].
Proof.
  intros ctx c1. assert (E : live c1 = []) by (vm_compute; reflexivity). split; [exact E|].
  assert (Hok : falloc_ok sample_arena c1).
  { assert (H0 : falloc_ok sample_arena ctx).
    { destruct (falloc_init_ok sample_arena FALLOC_CTX_INITIALIZER sample_arena_ok eq_refl) as (c & Hc & Hok & _).
      vm_compute in Hc. injection Hc as <-. exact Hok. }
    pose proof (falloc_run_ok sample_arena [FMalloc 100 true; FMalloc 64 true; FFree 0xC0000000; FFree 0xC0000080]
      ctx sample_arena_ok H0) as Hr. destruct (falloc_run ctx _) as [c a] eqn:Er in Hr.
    assert (Hc1 : c1 = c) by (unfold c1; rewrite Er; reflexivity). rewrite Hc1. apply Hr.
    repeat constructor; vm_compute; congruence. }
  destruct (falloc_free_list_canonical sample_arena c1 c1 sample_arena_ok Hok Hok) as [_ H]. exact (H E).
Defined.

(** A request of size zero breaks the contract: malloc hands out an empty block at
    the start of the first free block, the next allocation gets the same address, and
    releasing that address once makes the second allocation's memory free while the
    empty block is still listed. *)
Theorem falloc_zero_size_aliases r ctx b post size ctx1 rc1 p1 ctx2 rc2 p2 :
  arena_ok r -> falloc_ok r ctx -> free_list ctx = b :: post ->
  0 < size -> rounded r size <= bsize b ->
  falloc_malloc_impl ctx true 0 true = (ctx1, rc1, p1) ->
  falloc_malloc_impl ctx1 true size true = (ctx2, rc2, p2) ->
  rc1 = 0 /\ rc2 = 0 /\ p1 = Some (dptr b) /\ p2 = Some (dptr b) /\
  exists ctx3, falloc_free_impl ctx2 (dptr b) = (ctx3, 0) /\
    allocated_list ctx3 = mkRegion (dptr b) 0 :: allocated_list ctx.
Proof.
  intros Hr [ts Hinv] Hfree Hsz Hfit H1 H2.
  assert (Hb : b ∈ frees ts) by (rewrite <- (fi_free _ _ _ Hinv), Hfree; left).
  apply elem_of_frees, (tiled_in _ _ _ _ _ (fi_tiled _ _ _ Hinv)) in Hb. simpl in Hb.
  destruct (rounded_size_pos r size Hr Hsz) as [Hpos _].
  assert (Hwin : 0 <= dptr b /\ dptr b + bsize b < 2 ^ 64) by (destruct Hr as (_ & ? & _ & ? & _); lia).
  assert (H0 : align_size ctx 0 = Some 0).
  { pose proof (align_size_spec r ctx ts 0 Hr Hinv ltac:(lia)) as Ha.
    assert (E0 : rounded r 0 = 0).
    { unfold rounded. destruct Hr as (Hk & _). assert (0 < 2 ^ ar_k r) by (apply Z.pow_pos_nonneg; lia).
      rewrite Z.div_small by lia. lia. }
    rewrite E0 in Ha. destruct (align_size ctx 0) as [n|]; [|lia]. f_equal. lia. }
  unfold falloc_malloc_impl in H1. cbn [negb] in H1. rewrite H0, Hfree in H1. cbn [find_block] in H1.
  rewrite (proj2 (Z.leb_le _ _)), (proj2 (Z.ltb_lt _ _)) in H1 by lia. wsimpl_in H1.
  rewrite Z.add_0_r, Z.sub_0_r in H1. injection H1 as <- <- <-.
  assert (Hn : align_size ctx size = Some (rounded r size)).
  { assert (Hsz2 : size < 2 ^ 64).
    { unfold rounded in *. destruct Hr as (Hk & _). assert (0 < 2 ^ ar_k r) by (apply Z.pow_pos_nonneg; lia).
      pose proof (Z.div_mod (size + 2 ^ ar_k r - 1) (2 ^ ar_k r)).
      pose proof (Z.mod_pos_bound (size + 2 ^ ar_k r - 1) (2 ^ ar_k r)). lia. }
    pose proof (align_size_spec r ctx ts size Hr Hinv ltac:(lia)) as Ha.
    destruct (align_size ctx size); [|lia]. f_equal. lia. }
  unfold falloc_malloc_impl in H2. cbn [negb] in H2.
  change (align_size (mkFalloc _ _ (alignment ctx) _) size) with (align_size ctx size) in H2. rewrite Hn in H2.
  cbn [find_block free_list app rg_size rg_base] in H2. rewrite (proj2 (Z.leb_le _ _)) in H2 by lia.
  assert (H3 : exists fl n, ctx2 = mkFalloc fl (mkRegion (dptr b) n :: mkRegion (dptr b) 0 :: allocated_list ctx)
    (alignment ctx) (logf ctx) /\ rc2 = 0 /\ p2 = Some (dptr b)).
  { cbn [negb rg_base rg_size allocated_list alignment logf] in H2.
    bcase_in H2; injection H2 as <- <- <-; by eexists _, _. }
  destruct H3 as (fl & n & -> & -> & ->). split_and!; try done.
  unfold falloc_free_impl. cbn [allocated_list find_block rg_base]. rewrite Z.eqb_refl.
  destruct (insertion_point _ _) as [f1 f2]. by eexists.
Qed.

Lemma falloc_zero_size_aliases_witness :
  let ctx := mkFalloc [mkRegion 0xC0000000 0x1000] [] 64 false in
  let '(c1, _, p1) := falloc_malloc_impl ctx true 0 true in
  let '(c2, _, p2) := falloc_malloc_impl c1 true 64 true in
  p1 = p2 /\ p2 = Some 0xC0000000.
Proof.
  intros ctx. destruct (falloc_malloc_impl ctx true 0 true) as [[c1 r1] p1] eqn:E1.
  destruct (falloc_malloc_impl c1 true 64 true) as [[c2 r2] p2] eqn:E2.
  destruct (falloc_zero_size_aliases sample_arena ctx (mkRegion 0xC0000000 0x1000) [] 64 c1 r1 p1 c2 r2 p2)
    as (_ & _ & H1 & H2 & _).
  - exact sample_arena_ok.
  - destruct (falloc_init_ok sample_arena FALLOC_CTX_INITIALIZER sample_arena_ok eq_refl) as (c & Hc & Hok & _).
    vm_compute in Hc. injection Hc as <-. exact Hok.
  - reflexivity.
  - lia.
  - vm_compute. congruence.
  - exact E1.
  - exact E2.
  - rewrite H1, H2. split; reflexivity.
Defined.

(** A fixed-address request whose end wraps around passes the range test: the block
    "granted" reaches past the window and the free list gets a block below it. *)
Example falloc_addr_malloc_wraps :
  let ctx := mkFalloc [mkRegion 0xC0000000 0x1000] [] 64 false in
  falloc_addr_malloc_impl ctx 0xC0000800 (2 ^ 64 - 0x1000) true true =
    (mkFalloc [mkRegion 0xC0000000 0x800; mkRegion 0xBFFFF800 0x1800]
       [mkRegion 0xC0000800 (2 ^ 64 - 0x1000)] 64 false, 0).
Proof. vm_compute. reflexivity. Qed.
