(* ===== verification/MovingAverage.v ===== *)
(** * Waiting times (fw/cp_moving_average.c, fw/cp_moving_average.h)

    The firmware keeps, per kind of wait, a running average of how long the wait
    took, and delays the waiting task by it. The tick counter of FreeRTOS is an
    argument of the operations that read it. *)

From S2P Require Import Prelude.

Inductive cp_ma_kind :=
  | CMD_FETCH | KERNEL_STATE_BUF_ALLOC | WGI_BUF_ALLOC | SM_ALLOC | SM_RETIRE | CACHE_START | CACHE_RETIRE.
Definition cp_ma_kind_index (k : cp_ma_kind) : nat :=
  match k with
  | CMD_FETCH => 0 | KERNEL_STATE_BUF_ALLOC => 1 | WGI_BUF_ALLOC => 2 | SM_ALLOC => 3
  | SM_RETIRE => 4 | CACHE_START => 5 | CACHE_RETIRE => 6
  end.
Definition NUM_CP_MA_KIND : nat := 7.

Record cp_ma := mkMa { tickstamp : Z; ma_avg : Z; ma_count : Z; ma_id : Z }.
Definition zero_ma : cp_ma := mkMa 0 0 0 0.

Definition cp_ma_init (buf : list cp_ma) : list cp_ma :=
  for_range (fun i b => let m := nth i b zero_ma in
    <[i := mkMa (tickstamp m) (ma_avg m) (ma_count m) (Z.of_nat i)]> b) 0 NUM_CP_MA_KIND buf.

(** The index of the entry, or NULL for a number that is no kind. *)
Definition cp_get_ma_by_kind (kind : nat) : option nat :=
  if (kind <? NUM_CP_MA_KIND)%nat then Some kind else None.

Definition cp_ma_start (tick : Z) (m : cp_ma) : cp_ma := mkMa tick (ma_avg m) (ma_count m) (ma_id m).

(** [None] when the count wraps to zero and the division traps. *)
Definition cp_ma_end (tick : Z) (m : cp_ma) : option cp_ma :=
  let elapsed := tick -% tickstamp m in
  let count := ma_count m +% 1 in
  if count =? 0 then None
  else Some (mkMa (tickstamp m) (((ma_avg m *% (count -% 1)) +% elapsed) / count) count (ma_id m)).

Definition cp_ma_get_tick (m : cp_ma) : Z := ma_avg m.

(** [CP_MA_WAIT_WHILE]: each round gives the condition and the busy condition as
    they are read, and the tick if the wait starts then; [done_tick] is the tick
    when the condition is seen false. The result is the entry and the delays. *)
Fixpoint ma_wait_rounds (rounds : list (bool * Z)) (ever_busy : bool) (m : cp_ma) : bool * cp_ma * list Z :=
  match rounds with
  | [] => (ever_busy, m, [])
  | (busy, tick) :: rest =>
      let '(e, m) := if negb ever_busy && busy then (true, cp_ma_start tick m) else (ever_busy, m) in
      let '(e', m', delays) := ma_wait_rounds rest e m in (e', m', cp_ma_get_tick m :: delays)
  end.
Definition CP_MA_WAIT_WHILE (rounds : list (bool * Z)) (done_tick : Z) (m : cp_ma) : option cp_ma * list Z :=
  let '(ever_busy, m, delays) := ma_wait_rounds rounds false m in
  (if ever_busy then cp_ma_end done_tick m else Some m, delays).

(** Samples taken one after the other. *)
Fixpoint ma_samples (ticks : list (Z * Z)) (m : cp_ma) : option cp_ma :=
  match ticks with
  | [] => Some m
  | (t0, t1) :: rest => m' ← cp_ma_end t1 (cp_ma_start t0 m); ma_samples rest m'
  end.
Definition elapsed (p : Z * Z) : Z := p.2 - p.1.
Definition total (l : list (Z * Z)) : Z := foldr (fun p acc => elapsed p + acc) 0 l.

Lemma ma_end_step m t0 t1 D :
  0 <= t0 <= t1 -> t1 < 2 ^ 64 -> 0 <= ma_avg m <= D -> t1 - t0 <= D -> 0 <= ma_count m ->
  D * (ma_count m + 1) < 2 ^ 64 -> ma_count m + 1 < 2 ^ 64 ->
  exists m', cp_ma_end t1 (cp_ma_start t0 m) = Some m' /\ ma_count m' = ma_count m + 1 /\
    0 <= ma_avg m' <= D /\
    ma_count m' * ma_avg m' <= ma_count m * ma_avg m + (t1 - t0) < ma_count m' * ma_avg m' + ma_count m'.
Proof.
  intros Ht Ht1 Ha Hd Hc HD Hc1. unfold cp_ma_end, cp_ma_start. cbn [tickstamp ma_avg ma_count].
  rewrite (wrap_small 64 (ma_count m + 1)) by lia. rewrite (wrap_small 64 (t1 - t0)) by lia.
  rewrite (wrap_small 64 (ma_count m + 1 - 1)) by lia. replace (ma_count m + 1 - 1) with (ma_count m) by lia.
  rewrite (proj2 (Z.eqb_neq _ _)) by lia. rewrite (wrap_small 64 (ma_avg m * ma_count m)) by nia.
  rewrite (wrap_small 64 (ma_avg m * ma_count m + (t1 - t0))) by nia.
  eexists. split; [done|]. cbn [ma_count ma_avg].
  set (n := ma_count m + 1) in *. set (x := ma_avg m * ma_count m + (t1 - t0)) in *.
  pose proof (Z.div_mod x n ltac:(lia)). pose proof (Z.mod_pos_bound x n ltac:(lia)).
  split; [done|]. split; [|nia]. split; [apply Z.div_pos; nia|].
  apply Z.div_le_upper_bound; nia.
Qed.

(** What [n] samples of at most [D] ticks leave. *)
Definition ma_bound (D : Z) (l : list (Z * Z)) (m : cp_ma) : Prop :=
  ma_count m = Z.of_nat (length l) /\ 0 <= ma_avg m <= D /\
  ma_count m * ma_avg m <= total l /\
  2 * total l <= 2 * ma_count m * ma_avg m + ma_count m * (ma_count m - 1).

Definition sample_ok (D : Z) (p : Z * Z) : Prop := 0 <= p.1 <= p.2 /\ p.2 < 2 ^ 64 /\ elapsed p <= D.

Lemma total_app l k : total (l ++ k) = total l + total k.
Proof. induction l as [|p l IH]; simpl; [lia|]. unfold total in *. simpl. lia. Qed.

Lemma ma_samples_bound D l k m :
  0 <= D -> ma_bound D k m -> Forall (sample_ok D) l ->
  D * Z.of_nat (length k + length l) < 2 ^ 64 -> Z.of_nat (length k + length l) < 2 ^ 64 ->
  exists m', ma_samples l m = Some m' /\ ma_bound D (k ++ l) m'.
Proof.
  intros HD Hm Hl. revert k m Hm. induction Hl as [|[t0 t1] l (Ht & Ht1 & He) _ IH]; intros k m Hm HDn Hn.
  { exists m. rewrite app_nil_r. by split. }
  destruct Hm as (Hc & Ha & Hlo & Hhi). unfold elapsed in He. cbn [fst snd length] in *.
  assert (HD1 : D * (ma_count m + 1) <= D * Z.of_nat (length k + S (length l))) by (apply Z.mul_le_mono_nonneg_l; lia).
  destruct (ma_end_step m t0 t1 D) as (m1 & E1 & Ec & Ha1 & Hb); try lia.
  cbn [ma_samples]. rewrite E1. cbn [mbind option_bind].
  destruct (IH (k ++ [(t0, t1)]) m1) as (m' & Em & Hm').
  - unfold ma_bound. rewrite length_app, total_app. replace (total [(t0, t1)]) with (t1 - t0) by (unfold total, elapsed; cbn; lia).
    rewrite Ec in *. cbn [length]. split_and!; lia.
  - rewrite length_app. cbn [length]. by replace (length k + 1 + length l)%nat with (length k + S (length l))%nat by lia.
  - rewrite length_app. cbn [length]. lia.
  - exists m'. split; [done|]. by rewrite <- app_assoc in Hm'.
Qed.

(** The running average is a lower estimate of the mean wait and never drifts far
    from it: after [n] waits of at most [D] ticks each (with [n * D] below 2^64), the
    stored average is between 0 and [D], at most the true mean, and less than it by
    at most [(n - 1) / 2] ticks of accumulated rounding; the division never traps. *)
Theorem moving_average_bounds D l m :
  0 <= D -> ma_count m = 0 -> ma_avg m = 0 -> Forall (sample_ok D) l ->
  D * Z.of_nat (length l) < 2 ^ 64 -> Z.of_nat (length l) < 2 ^ 64 ->
  exists m', ma_samples l m = Some m' /\
    let n := Z.of_nat (length l) in
    ma_count m' = n /\ 0 <= cp_ma_get_tick m' <= D /\
    n * cp_ma_get_tick m' <= total l /\ 2 * total l <= 2 * n * cp_ma_get_tick m' + n * (n - 1).
Proof.
  intros HD Hc Ha Hl HDn Hn. destruct (ma_samples_bound D l [] m) as (m' & E & Hm'); try done.
  - unfold ma_bound, total. cbn. rewrite Hc, Ha. lia.
  - exists m'. split; [done|]. destruct Hm' as (Hc' & ? & ? & ?). unfold cp_ma_get_tick. cbn [app] in *.
    rewrite <- Hc'. split_and!; done || lia.
Qed.

Lemma moving_average_bounds_witness :
  exists m', ma_samples [(10, 13); (20, 21); (30, 34)] zero_ma = Some m' /\ cp_ma_get_tick m' = 2 /\
    3 * cp_ma_get_tick m' <= 8.
Proof.
  destruct (moving_average_bounds 4 [(10, 13); (20, 21); (30, 34)] zero_ma) as (m' & E & _ & _ & H & _).
  - lia.
  - reflexivity.
  - reflexivity.
  - repeat (apply Forall_cons; split; [unfold sample_ok, elapsed; cbn; lia|]). constructor.
  - cbn. lia.
  - cbn. lia.
  - exists m'. split; [exact E|]. split; [|exact H].
    assert (E2 : cp_ma_get_tick <$> ma_samples [(10, 13); (20, 21); (30, 34)] zero_ma = Some 2) by (vm_compute; reflexivity).
    rewrite E in E2. cbn in E2. injection E2. auto.
Defined.
