(* ===== verification/CMem.v ===== *)
(** * The memory routines of the firmware's C library (fw/nanolibc/c/string.c)

    [memcpy], [memmove], [memset] and [memcmp] as the source writes them: a byte
    loop up to a word boundary, a loop of four words, a loop of single words and a
    byte loop for the rest. Memory is a function from addresses to bytes; a word
    access reads or writes eight of them in little-endian order. Pointers are
    addresses that do not wrap around, which C requires of pointer arithmetic.

    The theorems say that the word loops compute what the byte-wise definition of
    each routine does: [memmove] is a simultaneous copy for every overlap,
    [memset] fills exactly the block, and [memcmp] is the lexicographic comparison
    of the two byte strings. The fuel of every loop is the byte count. *)

From S2P Require Import Prelude.

Definition mem := Z -> Z.

Definition mem_ok (m : mem) : Prop := forall a, 0 <= m a < 256.

(** The [n] bytes from [p]. *)
Definition bytes (m : mem) (p : Z) (n : nat) : list Z :=
  (fun i => m (p + Z.of_nat i)) <$> seq 0 n.
Definition store_bytes (m : mem) (p : Z) (l : list Z) : mem := fun a =>
  if (p <=? a) && (a <? p + Z.of_nat (length l)) then nth (Z.to_nat (a - p)) l 0 else m a.

Definition MEM_WORD_SIZE : Z := 8.
Definition MEM_WORD_MASK : Z := MEM_WORD_SIZE - 1.
Definition load_word (m : mem) (p : Z) : Z := le_val (bytes m p 8).
Definition store_word (m : mem) (p w : Z) : mem := store_bytes m p (le_bytes 8 w).
Definition store_byte (m : mem) (p b : Z) : mem := store_bytes m p [b].

(** The rounds of the doubling loop are bounded by the word width. *)
Definition repeat_byte (c : Z) : option Z :=
  p ← while 8 (fun '(word, shift) => shift <? 8 * MEM_WORD_SIZE)
        (fun '(word, shift) => (Z.lor word (u64 (Z.shiftl word shift)), u64 (Z.shiftl shift 1)))
        (c, 8);
  Some p.1.

(** Registers of a copy: memory, [d], [s] and [n]. *)
Definition copy_regs : Type := mem * Z * Z * Z.

Definition same_alignment (d s : Z) : bool := Z.land (Z.lxor d s) MEM_WORD_MASK =? 0.
Definition misaligned (p n : Z) : bool := negb (Z.land p MEM_WORD_MASK =? 0) && (0 <? n).

Definition copy_byte : copy_regs -> copy_regs := fun '(m, d, s, n) =>
  (store_byte m d (m s), d + 1, s + 1, n - 1).
(** [((mem_word_t* )d)[i] = ((const mem_word_t* )s)[i]] *)
Definition copy_word_at (i d s : Z) (m : mem) : mem :=
  store_word m (d + MEM_WORD_SIZE * i) (load_word m (s + MEM_WORD_SIZE * i)).

Definition memcpy (m : mem) (dstpp srcpp n : Z) : option (mem * Z) :=
  let fuel := S (Z.to_nat n) in
  if (n =? 0) || (dstpp =? srcpp) then Some (m, dstpp) else
  st ← (if same_alignment dstpp srcpp then
          st ← while fuel (fun '(m, d, s, n) => misaligned d n) copy_byte (m, dstpp, srcpp, n);
          st ← while fuel (fun '(m, d, s, n) => 4 * MEM_WORD_SIZE <=? n)
                 (fun '(m, d, s, n) =>
                    let m := copy_word_at 0 d s m in
                    let m := copy_word_at 1 d s m in
                    let m := copy_word_at 2 d s m in
                    let m := copy_word_at 3 d s m in
                    (m, d + 4 * MEM_WORD_SIZE, s + 4 * MEM_WORD_SIZE, n - 4 * MEM_WORD_SIZE)) st;
          while fuel (fun '(m, d, s, n) => MEM_WORD_SIZE <=? n)
            (fun '(m, d, s, n) =>
               (copy_word_at 0 d s m, d + MEM_WORD_SIZE, s + MEM_WORD_SIZE, n - MEM_WORD_SIZE)) st
        else Some (m, dstpp, srcpp, n));
  st ← while fuel (fun '(m, d, s, n) => 0 <? n) copy_byte st;
  Some (st.1.1.1, dstpp).

Definition copy_byte_down : copy_regs -> copy_regs := fun '(m, d, s, n) =>
  (store_byte m (d - 1) (m (s - 1)), d - 1, s - 1, n - 1).

Definition memmove (m : mem) (dstpp srcpp n : Z) : option (mem * Z) :=
  let fuel := S (Z.to_nat n) in
  if (n =? 0) || (dstpp =? srcpp) then Some (m, dstpp) else
  if (dstpp <? srcpp) || (srcpp + n <=? dstpp) then memcpy m dstpp srcpp n else
  let d := dstpp + n in
  let s := srcpp + n in
  st ← (if same_alignment d s then
          st ← while fuel (fun '(m, d, s, n) => misaligned d n) copy_byte_down (m, d, s, n);
          st ← while fuel (fun '(m, d, s, n) => 4 * MEM_WORD_SIZE <=? n)
                 (fun '(m, d, s, n) =>
                    let d := d - 4 * MEM_WORD_SIZE in
                    let s := s - 4 * MEM_WORD_SIZE in
                    let m := copy_word_at 3 d s m in
                    let m := copy_word_at 2 d s m in
                    let m := copy_word_at 1 d s m in
                    let m := copy_word_at 0 d s m in
                    (m, d, s, n - 4 * MEM_WORD_SIZE)) st;
          while fuel (fun '(m, d, s, n) => MEM_WORD_SIZE <=? n)
            (fun '(m, d, s, n) =>
               let d := d - MEM_WORD_SIZE in
               let s := s - MEM_WORD_SIZE in
               (copy_word_at 0 d s m, d, s, n - MEM_WORD_SIZE)) st
        else Some (m, d, s, n));
  st ← while fuel (fun '(m, d, s, n) => 0 <? n) copy_byte_down st;
  Some (st.1.1.1, dstpp).

(** Registers of a fill: memory, [d] and [n]. *)
Definition memset (m : mem) (dstpp c n : Z) : option (mem * Z) :=
  let fuel := S (Z.to_nat n) in
  let set_byte := fun '(m, d, n) => (store_byte m d (u8 c), d + 1, n - 1) in
  if n =? 0 then Some (m, dstpp) else
  st ← while fuel (fun '(m, d, n) => misaligned d n) set_byte (m, dstpp, n);
  st ← (if MEM_WORD_SIZE <=? st.2 then
          word ← repeat_byte (u8 c);
          st ← while fuel (fun '(m, d, n) => 4 * MEM_WORD_SIZE <=? n)
                 (fun '(m, d, n) =>
                    let m := store_word m d word in
                    let m := store_word m (d + MEM_WORD_SIZE) word in
                    let m := store_word m (d + MEM_WORD_SIZE * 2) word in
                    let m := store_word m (d + MEM_WORD_SIZE * 3) word in
                    (m, d + 4 * MEM_WORD_SIZE, n - 4 * MEM_WORD_SIZE)) st;
          while fuel (fun '(m, d, n) => MEM_WORD_SIZE <=? n)
            (fun '(m, d, n) => (store_word m d word, d + MEM_WORD_SIZE, n - MEM_WORD_SIZE)) st
        else Some st);
  st ← while fuel (fun '(m, d, n) => 0 <? n) set_byte st;
  Some (st.1.1, dstpp).

(** A comparison loop leaves with the registers [s1], [s2], [n], or returns from
    [memcmp] with the difference of two bytes. *)
Definition cmp_bytes (fuel : nat) (m : mem) (cond : Z * Z * Z -> bool) :
    Z * Z * Z -> option (Z * Z * Z + Z) :=
  loop fuel (fun '(s1, s2, n) =>
    if cond (s1, s2, n) then
      if negb (m s1 =? m s2) then inr (inr (m s1 - m s2)) else inl (s1 + 1, s2 + 1, n - 1)
    else inr (inl (s1, s2, n))).
Definition cmp_words (fuel : nat) (m : mem) : Z * Z * Z -> option (Z * Z * Z) :=
  loop fuel (fun '(s1, s2, n) =>
    if MEM_WORD_SIZE <=? n then
      if negb (load_word m s1 =? load_word m s2) then inr (s1, s2, n)
      else inl (s1 + MEM_WORD_SIZE, s2 + MEM_WORD_SIZE, n - MEM_WORD_SIZE)
    else inr (s1, s2, n)).

Definition memcmp (m : mem) (p1 p2 n : Z) : option Z :=
  let fuel := S (Z.to_nat n) in
  if (n =? 0) || (p1 =? p2) then Some 0 else
  a ← (if same_alignment p1 p2 then
         a ← cmp_bytes fuel m (fun '(s1, s2, n) => misaligned s1 n) (p1, p2, n);
         match a with inr r => Some (inr r) | inl st => inl <$> cmp_words fuel m st end
       else Some (inl (p1, p2, n)));
  match a with
  | inr r => Some r
  | inl st =>
      b ← cmp_bytes fuel m (fun '(s1, s2, n) => 0 <? n) st;
      Some (match b with inr r => r | inl _ => 0 end)
  end.

(** [n--] makes the counter of [memchr] the number of bytes left. *)
Definition memchr (m : mem) (spp c n : Z) : option (option Z) :=
  loop (S (Z.to_nat n)) (fun '(s, n) =>
    if n =? 0 then inr None else if m s =? u8 c then inr (Some s) else inl (s + 1, n - 1)) (spp, n).

(** ** Blocks of bytes *)

Lemma length_bytes m p n : length (bytes m p n) = n.
Proof. unfold bytes. by rewrite length_fmap, length_seq. Qed.

Lemma bytes_nth m p n i : (i < n)%nat -> nth i (bytes m p n) 0 = m (p + Z.of_nat i).
Proof.
  intros Hi. unfold bytes. apply nth_lookup_Some. rewrite list_lookup_fmap, lookup_seq_lt by done.
  done.
Qed.

Lemma bytes_S m p n : bytes m p (S n) = m p :: bytes m (p + 1) n.
Proof.
  unfold bytes. simpl. f_equal; [f_equal; lia|]. rewrite <- (fmap_S_seq 0 n), <- list_fmap_compose.
  apply list_fmap_ext. intros i x Hx. simpl. f_equal. lia.
Qed.

Lemma bytes_app m p a b : bytes m p (a + b) = bytes m p a ++ bytes m (p + Z.of_nat a) b.
Proof.
  revert p. induction a as [|a IH]; intros p; cbn [Nat.add].
  - by rewrite Z.add_0_r.
  - rewrite !bytes_S, IH. replace (p + 1 + Z.of_nat a) with (p + Z.of_nat (S a)) by lia. done.
Qed.

Lemma bytes_range m p n : mem_ok m -> Forall (fun b => 0 <= b < 256) (bytes m p n).
Proof. intros Hm. unfold bytes. apply Forall_fmap, Forall_true. intros. apply Hm. Qed.

Lemma store_bytes_at m p l a :
  p <= a < p + Z.of_nat (length l) -> store_bytes m p l a = nth (Z.to_nat (a - p)) l 0.
Proof.
  intros Ha. unfold store_bytes. by rewrite (proj2 (Z.leb_le _ _)), (proj2 (Z.ltb_lt _ _)) by lia.
Qed.

Lemma store_bytes_out m p l a :
  ~ p <= a < p + Z.of_nat (length l) -> store_bytes m p l a = m a.
Proof. intros Ha. unfold store_bytes. bcase; [lia|done]. Qed.

(** The block of [j] bytes at [d] holds what [m] has at [s]. *)
Definition block_copied (m : mem) (d s j : Z) (m' : mem) : Prop :=
  forall a, m' a = if (d <=? a) && (a <? d + j) then m (s + (a - d)) else m a.

Lemma copy_byte_block m d s : block_copied m d s 1 (store_byte m d (m s)).
Proof.
  intros a. unfold store_byte, store_bytes. simpl length. change (Z.of_nat 1) with 1.
  bcase; [|done]. replace a with d by lia. rewrite Z.sub_diag, Z.add_0_r. done.
Qed.

Lemma copy_word_block m d s :
  mem_ok m -> block_copied m d s MEM_WORD_SIZE (store_word m d (load_word m s)).
Proof.
  intros Hm a. unfold store_word, load_word, MEM_WORD_SIZE.
  pose proof (le_bytes_val _ (bytes_range m s 8 Hm)) as E. rewrite length_bytes in E.
  rewrite E. unfold store_bytes. rewrite length_bytes. change (Z.of_nat 8) with 8.
  bcase; [|done]. rewrite bytes_nth by lia. f_equal. lia.
Qed.

(** ** Copying upwards *)

(** After [k] bytes the copy has moved [k] bytes and touched nothing else. *)
Record up_inv (m0 : mem) (d0 s0 n0 : Z) (st : copy_regs) : Prop := {
  up_n : 0 <= st.2 <= n0;
  up_d : st.1.1.2 = d0 + (n0 - st.2);
  up_s : st.1.2 = s0 + (n0 - st.2);
  up_m : block_copied m0 d0 s0 (n0 - st.2) st.1.1.1;
}.

Section copying.
Context (m0 : mem) (d0 s0 n0 : Z).
Hypothesis Hok : mem_ok m0.

Lemma block_copied_ok j m : block_copied m0 d0 s0 j m -> mem_ok m.
Proof. intros H a. rewrite H. case_match; apply Hok. Qed.

Lemma up_step m d s n j m' :
  d0 <= s0 \/ s0 + n0 <= d0 ->
  up_inv m0 d0 s0 n0 (m, d, s, n) -> 0 <= j <= n -> block_copied m d s j m' ->
  up_inv m0 d0 s0 n0 (m', d + j, s + j, n - j).
Proof.
  intros Hsafe [Hn Hd Hs Hm] Hj Hb. simpl in *. constructor; simpl; [lia..|].
  intros a. rewrite Hb, !Hm. repeat bcase; try lia; try done; f_equal; lia.
Qed.

Lemma up_byte m d s n :
  d0 <= s0 \/ s0 + n0 <= d0 ->
  up_inv m0 d0 s0 n0 (m, d, s, n) -> 1 <= n -> up_inv m0 d0 s0 n0 (copy_byte (m, d, s, n)).
Proof. intros. eapply up_step; eauto using copy_byte_block. lia. Qed.

Lemma up_word m d s n :
  d0 <= s0 \/ s0 + n0 <= d0 ->
  up_inv m0 d0 s0 n0 (m, d, s, n) -> 8 <= n ->
  up_inv m0 d0 s0 n0 (store_word m d (load_word m s), d + 8, s + 8, n - 8).
Proof.
  intros Hsafe H Hn. eapply up_step; eauto; [lia|]. apply copy_word_block.
  destruct H. eapply block_copied_ok; eauto.
Qed.
End copying.

(** A loop that counts bytes down keeps an invariant its body keeps. *)
Section counted_loops.
Context {St : Type} (cnt : St -> Z) (Inv : St -> Prop) (n0 : Z) (fuel : nat).
Hypothesis Hfuel : (Z.to_nat n0 < fuel)%nat.
Hypothesis Hrange : forall st, Inv st -> 0 <= cnt st <= n0.

Definition keeps (k : Z) (body : St -> St) : Prop :=
  forall st, Inv st -> k <= cnt st -> Inv (body st) /\ cnt (body st) < cnt st.

Lemma counted_while k body cond st :
  keeps k body -> (forall st, cond st = true -> k <= cnt st) -> Inv st ->
  exists st', while fuel cond body st = Some st' /\ Inv st' /\ cond st' = false.
Proof.
  intros Hb Hc Hi. apply (while_rule _ (fun st => Z.to_nat (cnt st))); [|done|].
  - intros s Hs Hcs. destruct (Hb s Hs (Hc s Hcs)) as [H1 H2]. split; [done|].
    pose proof (Hrange _ H1). pose proof (Hrange _ Hs). lia.
  - pose proof (Hrange _ Hi). lia.
Qed.
End counted_loops.

(** The four loops of a copy, up or down: an invariant that a byte step, four
    word steps and one word step keep holds at the end, with nothing left. *)
Section copy_loops.
Context (Inv : copy_regs -> Prop) (n0 : Z) (fuel : nat).
Hypothesis Hfuel : (Z.to_nat n0 < fuel)%nat.
Hypothesis Hrange : forall st, Inv st -> 0 <= st.2 <= n0.

Lemma copy_phases (al : bool) (dst : Z) byte quad word st :
  keeps snd Inv 1 byte -> keeps snd Inv 32 quad -> keeps snd Inv 8 word -> Inv st ->
  exists st',
    (st ← (if al then
             st ← while fuel (fun '(m, d, s, n) => misaligned d n) byte st;
             st ← while fuel (fun '(m, d, s, n) => 4 * MEM_WORD_SIZE <=? n) quad st;
             while fuel (fun '(m, d, s, n) => MEM_WORD_SIZE <=? n) word st
           else Some st);
     st ← while fuel (fun '(m, d, s, n) => 0 <? n) byte st;
     Some (st.1.1.1, dst)) = Some (st'.1.1.1, dst) /\ Inv st' /\ st'.2 = 0.
Proof.
  intros Hb Hq Hw Hi.
  assert (Hend : forall st, Inv st -> exists st',
    (st ← while fuel (fun '(m, d, s, n) => 0 <? n) byte st; Some (st.1.1.1, dst))
      = Some (st'.1.1.1, dst) /\ Inv st' /\ st'.2 = 0).
  { intros st1 H1. edestruct (counted_while snd Inv n0 fuel Hfuel Hrange 1 byte) as ([[[m d] s] n] & -> & H2 & Hc); [done| |done|].
    - intros [[[m d] s] n] Hc. bprop. simpl. lia.
    - bprop. exists (m, d, s, n). split_and!; [done..|]. pose proof (Hrange _ H2). simpl in *. lia. }
  destruct al; [|by apply Hend].
  edestruct (counted_while snd Inv n0 fuel Hfuel Hrange 1 byte) as (st1 & -> & H1 & _); [done| |exact Hi|].
  { intros [[[m d] s] n] Hc. unfold misaligned in Hc. bprop. simpl. lia. }
  cbn [mbind option_bind].
  edestruct (counted_while snd Inv n0 fuel Hfuel Hrange 32 quad) as (st2 & -> & H2 & _); [done| |exact H1|].
  { intros [[[m d] s] n] Hc. unfold MEM_WORD_SIZE in Hc. bprop. simpl. lia. }
  cbn [mbind option_bind].
  edestruct (counted_while snd Inv n0 fuel Hfuel Hrange 8 word) as (st3 & -> & H3 & _); [done| |exact H2|].
  { intros [[[m d] s] n] Hc. unfold MEM_WORD_SIZE in Hc. bprop. simpl. lia. }
  cbn [mbind option_bind]. by apply Hend.
Qed.
End copy_loops.

Lemma memcpy_copies m d s n :
  mem_ok m -> 0 <= n -> d <= s \/ s + n <= d ->
  exists m', memcpy m d s n = Some (m', d) /\ block_copied m d s n m'.
Proof.
  intros Hok Hn Hsafe. unfold memcpy. destruct ((n =? 0) || (d =? s)) eqn:E0.
  { exists m. split; [done|]. intros a. apply orb_true_iff in E0. bcase; [|done].
    destruct E0; bprop; [lia|f_equal; lia]. }
  edestruct (copy_phases (up_inv m d s n) n (S (Z.to_nat n)))
    as ([[[m' d'] s'] n'] & -> & [? ? ? Hm] & Hz).
  - lia.
  - by intros st [? _ _ _].
  - intros [[[m1 d1] s1] n1] H1 Hc. simpl in Hc. split; [|simpl; lia]. by apply up_byte.
  - intros [[[m1 d1] s1] n1] H1 Hc. simpl in Hc. unfold MEM_WORD_SIZE. split; [|simpl; lia].
    unfold copy_word_at, MEM_WORD_SIZE. rewrite !Z.mul_0_r, !Z.add_0_r.
    do 4 (apply up_word in H1; [|done|done|lia]).
    rewrite <- !Z.add_assoc, <- !Z.sub_add_distr in H1. apply H1.
  - intros [[[m1 d1] s1] n1] H1 Hc. simpl in Hc. unfold MEM_WORD_SIZE. split; [|simpl; lia].
    unfold copy_word_at, MEM_WORD_SIZE. rewrite !Z.mul_0_r, !Z.add_0_r. by apply up_word.
  - constructor; simpl; [lia..|]. intros a. bcase; [lia|done].
  - simpl in *. exists m'. split; [done|]. replace (n - n') with n in Hm by lia. done.
Qed.

(** ** Copying downwards *)

(** The last [n0 - n] bytes have been moved. *)
Record down_inv (m0 : mem) (d0 s0 n0 : Z) (st : copy_regs) : Prop := {
  dn_n : 0 <= st.2 <= n0;
  dn_d : st.1.1.2 = d0 + st.2;
  dn_s : st.1.2 = s0 + st.2;
  dn_m : block_copied m0 (d0 + st.2) (s0 + st.2) (n0 - st.2) st.1.1.1;
}.

Section copying_down.
Context (m0 : mem) (d0 s0 n0 : Z).
Hypothesis Hok : mem_ok m0.
Hypothesis Hsafe : s0 <= d0.

Lemma down_step m d s n j m' :
  down_inv m0 d0 s0 n0 (m, d, s, n) -> 0 <= j <= n -> block_copied m (d - j) (s - j) j m' ->
  down_inv m0 d0 s0 n0 (m', d - j, s - j, n - j).
Proof.
  intros [Hn Hd Hs Hm] Hj Hb. simpl in *. constructor; simpl; [lia..|].
  intros a. rewrite Hb, !Hm. repeat bcase; try lia; try done; f_equal; lia.
Qed.

Lemma down_byte m d s n :
  down_inv m0 d0 s0 n0 (m, d, s, n) -> 1 <= n -> down_inv m0 d0 s0 n0 (copy_byte_down (m, d, s, n)).
Proof. intros. eapply down_step; eauto using copy_byte_block. lia. Qed.

Lemma down_word m d s n :
  down_inv m0 d0 s0 n0 (m, d, s, n) -> 8 <= n ->
  down_inv m0 d0 s0 n0 (store_word m (d - 8) (load_word m (s - 8)), d - 8, s - 8, n - 8).
Proof.
  intros H Hn. eapply down_step; eauto; [lia|]. apply copy_word_block.
  destruct H. eapply block_copied_ok; eauto.
Qed.
End copying_down.

(** [memmove(d, s, n)] terminates, returns [d], and leaves memory as if the
    [n] source bytes had been read before any byte was written: whatever the
    overlap and the alignment of the two blocks, byte [i] of the destination is
    the old byte [i] of the source and no byte outside the destination changes. *)
Theorem memmove_simultaneous m d s n :
  mem_ok m -> 0 <= n ->
  exists m', memmove m d s n = Some (m', d) /\ block_copied m d s n m'.
Proof.
  intros Hok Hn. unfold memmove. destruct ((n =? 0) || (d =? s)) eqn:E0.
  { exists m. split; [done|]. intros a. apply orb_true_iff in E0. bcase; [|done].
    destruct E0; bprop; [lia|f_equal; lia]. }
  destruct ((d <? s) || (s + n <=? d)) eqn:E1.
  { apply memcpy_copies; [done..|]. apply orb_true_iff in E1. destruct E1; bprop; lia. }
  assert (Hsafe : s <= d) by (bprop; lia). clear E0 E1.
  edestruct (copy_phases (down_inv m d s n) n (S (Z.to_nat n)))
    as ([[[m' d'] s'] n'] & -> & [? ? ? Hm] & Hz).
  - lia.
  - by intros st [? _ _ _].
  - intros [[[m1 d1] s1] n1] H1 Hc. simpl in Hc. split; [|simpl; lia]. by apply down_byte.
  - intros [[[m1 d1] s1] n1] H1 Hc. simpl in Hc. unfold MEM_WORD_SIZE. split; [|simpl; lia].
    unfold copy_word_at, MEM_WORD_SIZE.
    do 4 (apply down_word in H1; [|done|done|lia]).
    assert (Q3 : forall x, x - 4 * 8 + 8 * 3 = x - 8) by lia.
    assert (Q2 : forall x, x - 4 * 8 + 8 * 2 = x - 8 - 8) by lia.
    assert (Q1 : forall x, x - 4 * 8 + 8 * 1 = x - 8 - 8 - 8) by lia.
    assert (Q0 : forall x, x - 4 * 8 + 8 * 0 = x - 8 - 8 - 8 - 8) by lia.
    assert (Q : forall x, x - 4 * 8 = x - 8 - 8 - 8 - 8) by lia.
    rewrite !Q3, !Q2, !Q1, !Q0, !Q. exact H1.
  - intros [[[m1 d1] s1] n1] H1 Hc. simpl in Hc. unfold MEM_WORD_SIZE. split; [|simpl; lia].
    unfold copy_word_at, MEM_WORD_SIZE. rewrite !Z.mul_0_r, !Z.add_0_r. by apply down_word.
  - constructor; simpl; [lia..|]. intros a. bcase; [lia|done].
  - simpl in *. subst n'. exists m'. split; [done|]. by rewrite !Z.add_0_r, Z.sub_0_r in Hm.
Qed.

(** ** Filling *)

Definition block_filled (m : mem) (d c n : Z) (m' : mem) : Prop :=
  forall a, m' a = if (d <=? a) && (a <? d + n) then c else m a.

(** Doubling the byte up to a word gives eight copies of it. *)
Lemma repeat_byte_spec c :
  0 <= c < 256 -> exists w, repeat_byte c = Some w /\ le_bytes 8 w = replicate 8 c.
Proof.
  intros Hc. pose (ok := fun i => match repeat_byte (Z.of_nat i) with
    | Some w => bool_decide (le_bytes 8 w = replicate 8 (Z.of_nat i)) | None => false end).
  assert (Hall : forallb ok (seq 0 256) = true) by (vm_compute; reflexivity).
  rewrite forallb_forall in Hall. specialize (Hall (Z.to_nat c)). unfold ok in Hall.
  rewrite Z2Nat.id in Hall by lia. destruct (repeat_byte c) as [w|].
  - exists w. split; [done|]. eapply bool_decide_eq_true, Hall. apply in_seq. lia.
  - discriminate Hall. apply in_seq. lia.
Qed.

Record fill_inv (m0 : mem) (d0 c n0 : Z) (st : mem * Z * Z) : Prop := {
  fi_n : 0 <= st.2 <= n0;
  fi_d : st.1.2 = d0 + (n0 - st.2);
  fi_m : block_filled m0 d0 c (n0 - st.2) st.1.1;
}.

Lemma fill_step m0 d0 c n0 m d n (k : nat) :
  fill_inv m0 d0 c n0 (m, d, n) -> Z.of_nat k <= n ->
  fill_inv m0 d0 c n0 (store_bytes m d (replicate k c), d + Z.of_nat k, n - Z.of_nat k).
Proof.
  intros [Hn Hd Hm] Hk. simpl in *. constructor; simpl; [lia..|]. intros a.
  unfold store_bytes. rewrite length_replicate, Hm.
  repeat bcase; try lia; try done. apply nth_lookup_Some, lookup_replicate_2. lia.
Qed.

Section filling.
Context (m : mem) (d c n : Z).
Let fuel := S (Z.to_nat n).
Let set_byte : mem * Z * Z -> mem * Z * Z :=
  fun '(m, d, n) => (store_byte m d c, d + 1, n - 1).

Lemma fill_range st : fill_inv m d c n st -> 0 <= st.2 <= n.
Proof. by intros [? _ _]. Qed.

Lemma fill_byte : keeps snd (fill_inv m d c n) 1 set_byte.
Proof.
  intros [[m1 d1] n1] H1 Hc. simpl in Hc. split; [|simpl; lia].
  apply (fill_step _ _ _ _ _ _ _ 1) in H1; [exact H1|lia].
Qed.

Lemma fill_word w m1 d1 n1 :
  le_bytes 8 w = replicate 8 c -> fill_inv m d c n (m1, d1, n1) -> 8 <= n1 ->
  fill_inv m d c n (store_word m1 d1 w, d1 + 8, n1 - 8).
Proof. intros Hw H2 Hc. unfold store_word. rewrite Hw. by apply (fill_step _ _ _ _ _ _ _ 8). Qed.

Lemma fill_while k body cond st :
  keeps snd (fill_inv m d c n) k body -> (forall st, cond st = true -> k <= st.2) ->
  fill_inv m d c n st ->
  exists st', while fuel cond body st = Some st' /\ fill_inv m d c n st' /\ cond st' = false.
Proof. apply (counted_while snd _ n); [unfold fuel; lia|apply fill_range]. Qed.

Lemma fill_tail st :
  fill_inv m d c n st -> exists m',
    (st ← while fuel (fun '(m, d, n) => 0 <? n) set_byte st; Some (st.1.1, d)) = Some (m', d)
    /\ block_filled m d c n m'.
Proof.
  intros Hi. edestruct (fill_while 1) as ([[m' d'] n'] & -> & H1 & Hc); [exact fill_byte| |exact Hi|].
  - intros [[? ?] ?] ?. bprop. simpl. lia.
  - bprop. exists m'. split; [done|]. destruct H1 as [? _ Hm]. simpl in *.
    by replace (n - n') with n in Hm by lia.
Qed.
End filling.

(** [memset(d, c, n)] terminates, returns [d], sets each of the [n] bytes from
    [d] to [(unsigned char)c] and changes no other byte. *)
Theorem memset_fills m d c n :
  0 <= n -> exists m', memset m d c n = Some (m', d) /\ block_filled m d (u8 c) n m'.
Proof.
  intros Hn. unfold memset. destruct (n =? 0) eqn:E0.
  { bprop. exists m. split; [done|]. intros a. bcase; [lia|done]. }
  assert (I0 : fill_inv m d (u8 c) n (m, d, n)).
  { constructor; simpl; [lia..|]. intros a. bcase; [lia|done]. }
  edestruct (fill_while m d (u8 c) n 1) as (st1 & -> & H1 & _); [apply fill_byte| |exact I0|].
  { intros [[? ?] ?] Hc. unfold misaligned in Hc. bprop. simpl. lia. }
  cbn [mbind option_bind]. destruct (MEM_WORD_SIZE <=? st1.2); [|by apply fill_tail].
  destruct (repeat_byte_spec (u8 c)) as (w & -> & Hw); [apply (wrap_range 8); lia|].
  cbn [mbind option_bind].
  edestruct (fill_while m d (u8 c) n 32) as (st2 & -> & H2 & _); [| |exact H1|].
  { intros [[m1 d1] n1] H2 Hc. simpl in Hc. unfold MEM_WORD_SIZE. split; [|simpl; lia].
    do 4 (apply (fill_word _ _ _ _ w) in H2; [|done|lia]).
    rewrite <- !Z.add_assoc, <- !Z.sub_add_distr in H2. exact H2. }
  { intros [[? ?] ?] Hc. unfold MEM_WORD_SIZE in Hc. bprop. simpl. lia. }
  cbn [mbind option_bind].
  edestruct (fill_while m d (u8 c) n 8) as (st3 & -> & H3 & _); [| |exact H2|].
  { intros [[m1 d1] n1] H3 Hc. simpl in Hc. unfold MEM_WORD_SIZE. split; [|simpl; lia].
    by apply fill_word. }
  { intros [[? ?] ?] Hc. unfold MEM_WORD_SIZE in Hc. bprop. simpl. lia. }
  cbn [mbind option_bind]. by apply fill_tail.
Qed.

(** ** Comparing *)

(** The byte-wise definition: the difference of the first two bytes that differ. *)
Fixpoint byte_cmp (l1 l2 : list Z) : Z :=
  match l1, l2 with
  | b1 :: l1', b2 :: l2' => if b1 =? b2 then byte_cmp l1' l2' else b1 - b2
  | _, _ => 0
  end.

Lemma byte_cmp_app l k1 k2 : byte_cmp (l ++ k1) (l ++ k2) = byte_cmp k1 k2.
Proof. induction l as [|b l IH]; simpl; [done|]. by rewrite Z.eqb_refl. Qed.

Lemma byte_cmp_refl l : byte_cmp l l = 0.
Proof. induction l as [|b l IH]; simpl; [done|]. by rewrite Z.eqb_refl. Qed.

Lemma load_word_inj m p q :
  mem_ok m -> load_word m p = load_word m q -> bytes m p 8 = bytes m q 8.
Proof.
  intros Hm E. pose proof (le_bytes_val _ (bytes_range m p 8 Hm)) as Hp.
  pose proof (le_bytes_val _ (bytes_range m q 8 Hm)) as Hq. rewrite !length_bytes in *.
  unfold load_word in E. congruence.
Qed.

Section comparing.
Context (m : mem) (r : Z) (n0 : Z).
Hypothesis Hok : mem_ok m.
Let fuel := S (Z.to_nat n0).

(** What is left to compare decides the answer. *)
Definition cmp_inv (st : Z * Z * Z) : Prop :=
  0 <= st.2 <= n0 /\ byte_cmp (bytes m st.1.1 (Z.to_nat st.2)) (bytes m st.1.2 (Z.to_nat st.2)) = r.

Lemma cmp_advance s1 s2 n (k : nat) :
  cmp_inv (s1, s2, n) -> Z.of_nat k <= n -> bytes m s1 k = bytes m s2 k ->
  cmp_inv (s1 + Z.of_nat k, s2 + Z.of_nat k, n - Z.of_nat k).
Proof.
  intros [Hn Hr] Hk E. simpl in *. split; simpl; [lia|].
  replace (Z.to_nat n) with (k + Z.to_nat (n - Z.of_nat k))%nat in Hr by lia.
  rewrite !bytes_app, E, byte_cmp_app in Hr. done.
Qed.

Lemma cmp_differs s1 s2 n : cmp_inv (s1, s2, n) -> 1 <= n -> m s1 <> m s2 -> m s1 - m s2 = r.
Proof.
  intros [Hn Hr] H1 Hne. simpl in *. replace (Z.to_nat n) with (S (Z.to_nat (n - 1))) in Hr by lia.
  rewrite !bytes_S in Hr. simpl in Hr. bcase_in Hr; [done|]. done.
Qed.

Lemma cmp_bytes_ok cond st :
  (forall st, cond st = true -> 1 <= st.2) -> cmp_inv st ->
  exists a, cmp_bytes fuel m cond st = Some a /\
    match a with inl st' => cmp_inv st' /\ cond st' = false | inr x => x = r end.
Proof.
  intros Hc Hi. apply (loop_rule cmp_inv (fun st => Z.to_nat st.2)).
  - intros [[s1 s2] n] s' H E. destruct (cond _) eqn:Ec; [|done]. apply Hc in Ec. simpl in Ec.
    destruct (negb _) eqn:En; [done|]. injection E as <-. bprop. split; [|simpl; lia].
    apply (cmp_advance _ _ _ 1) in H; [exact H|lia|]. rewrite !bytes_S. by f_equal.
  - intros [[s1 s2] n] s' H E. destruct (cond _) eqn:Ec; [|by injection E as <-].
    apply Hc in Ec. destruct (negb _) eqn:En; [|done]. injection E as <-. bprop.
    by eapply cmp_differs.
  - done.
  - destruct st as [[? ?] ?], Hi as [? _]. unfold fuel. simpl in *. lia.
Qed.

Lemma cmp_words_ok st :
  cmp_inv st -> exists st', cmp_words fuel m st = Some st' /\ cmp_inv st'.
Proof.
  intros Hi. apply (loop_rule cmp_inv (fun st => Z.to_nat st.2)).
  - intros [[s1 s2] n] s' H E. destruct (MEM_WORD_SIZE <=? n) eqn:Ec; [|done].
    destruct (negb _) eqn:En; [done|]. injection E as <-. bprop. unfold MEM_WORD_SIZE in *.
    split; [|simpl; lia]. by apply (cmp_advance _ _ _ 8); [..|apply load_word_inj].
  - intros [[s1 s2] n] s' H E. repeat bcase_in E; by simplify_eq.
  - done.
  - destruct st as [[? ?] ?], Hi as [? _]. unfold fuel. simpl in *. lia.
Qed.
End comparing.

(** [memcmp(p1, p2, n)] terminates and returns the difference of the first two
    bytes in which the blocks differ, zero when the [n] bytes are the same: the
    word loop never changes the answer of the byte-wise comparison. *)
Theorem memcmp_lexicographic m p1 p2 n :
  mem_ok m -> 0 <= n ->
  memcmp m p1 p2 n = Some (byte_cmp (bytes m p1 (Z.to_nat n)) (bytes m p2 (Z.to_nat n))).
Proof.
  intros Hok Hn. unfold memcmp. destruct ((n =? 0) || (p1 =? p2)) eqn:E0.
  { apply orb_true_iff in E0. f_equal. destruct E0; bprop; subst; [done|]. by rewrite byte_cmp_refl. }
  set (r := byte_cmp _ _). assert (I0 : cmp_inv m r n (p1, p2, n)) by (split; simpl; [lia|done]).
  assert (Hend : forall st, cmp_inv m r n st ->
    (b ← cmp_bytes (S (Z.to_nat n)) m (fun '(s1, s2, n) => 0 <? n) st;
     Some (match b with inr r => r | inl _ => 0 end)) = Some r).
  { intros st Hi. edestruct (cmp_bytes_ok m r n) as (a & -> & Ha); [|exact Hi|].
    - intros [[? ?] ?] ?. bprop. simpl. lia.
    - destruct a as [[[s1 s2] k]|x]; simpl; [|by subst]. destruct Ha as [[Hk Hr] Hc]. bprop. simpl in *.
      replace (Z.to_nat k) with 0%nat in Hr by lia. by rewrite <- Hr. }
  destruct (same_alignment p1 p2); [|by apply Hend].
  edestruct (cmp_bytes_ok m r n) as (a & -> & Ha); [|exact I0|].
  { intros [[? ?] ?] Hc. unfold misaligned in Hc. bprop. simpl. lia. }
  cbn [mbind option_bind]. destruct a as [st|x]; simpl; [|by subst]. destruct Ha as [Ha _].
  destruct (cmp_words_ok m r n Hok st Ha) as (st' & -> & Ha'). cbn [fmap option_fmap option_map]. by apply Hend.
Qed.

(** ** Witnesses *)

(** A small memory: address [a] holds [a mod 251]. *)
Definition sample_mem : mem := fun a => a mod 251.

Lemma sample_mem_ok : mem_ok sample_mem.
Proof. intros a. unfold sample_mem. pose proof (Z.mod_pos_bound a 251). lia. Qed.

(** An overlapping move of 45 bytes by 8, which takes the downward word loops. *)
Lemma memmove_simultaneous_witness :
  exists m', memmove sample_mem 1011 1003 45 = Some (m', 1011) /\
    bytes m' 1011 45 = bytes sample_mem 1003 45 /\ m' 1010 = sample_mem 1010.
Proof.
  destruct (memmove_simultaneous sample_mem 1011 1003 45 sample_mem_ok) as (m' & E & H); [lia|].
  exists m'. split; [exact E|]. split.
  - unfold bytes. apply list_fmap_ext. intros i x Hx. apply lookup_seq in Hx as [-> Hi].
    rewrite H. replace ((1011 <=? _) && _) with true; [f_equal; lia|].
    symmetry. apply andb_true_intro. split; [apply Z.leb_le|apply Z.ltb_lt]; lia.
  - rewrite H. reflexivity.
Defined.

Lemma memset_fills_witness :
  exists m', memset sample_mem 1003 0x1AA 45 = Some (m', 1003) /\ m' 1020 = 0xAA /\ m' 1048 = sample_mem 1048.
Proof.
  destruct (memset_fills sample_mem 1003 0x1AA 45) as (m' & E & H); [lia|].
  exists m'. split; [exact E|]. rewrite !H. split; reflexivity.
Defined.

Lemma memcmp_lexicographic_witness :
  memcmp sample_mem 1000 (1000 + 251 * 8) 40 = Some 0 /\ memcmp sample_mem 1000 1008 40 = Some 243.
Proof.
  split; (rewrite memcmp_lexicographic; [vm_compute; reflexivity|apply sample_mem_ok|lia]).
Defined.

(** The loops run: the same move evaluated. *)
Example memmove_runs :
  (fun r => bytes r.1 1011 12) <$> memmove sample_mem 1011 1003 45 = Some (bytes sample_mem 1003 12).
Proof. vm_compute. reflexivity. Qed.
