(* ===== verification/CStr.v ===== *)
(** * Strings and character classes of the firmware's C library
      (fw/nanolibc/c/string.c, strings.c, ctype.c and include/ctype.h)

    The string routines run on the memory of CMem.v. A loop over a string ends at
    its terminator, so its fuel is an argument; the lemmas ask for more fuel than
    the string has characters and conclude that the routine returns. [char] is
    unsigned, as on the command processor's RISC-V target, and a null pointer is
    [None].

    [cstr m p l] says that [p] points to the string [l]. The lemmas give the answer
    of each routine on the strings its arguments point to; [strtok_r_splits] is the
    contract of the tokenizer, and [strstr_misses] and [strchr_terminator] record
    two departures from the C standard. *)

From S2P Require Import Prelude CMem.

(** ** Character classes *)

Definition NNLC_ISALNUM : Z := 0x1.
Definition NNLC_ISALPHA : Z := 0x2.
Definition NNLC_ISASCII : Z := 0x4.
Definition NNLC_ISBLANK : Z := 0x8.
Definition NNLC_ISCNTRL : Z := 0x10.
Definition NNLC_ISDIGIT : Z := 0x20.
Definition NNLC_ISGRAPH : Z := 0x40.
Definition NNLC_ISLOWER : Z := 0x80.
Definition NNLC_ISPRINT : Z := 0x100.
Definition NNLC_ISPUNCT : Z := 0x200.
Definition NNLC_ISSPACE : Z := 0x400.
Definition NNLC_ISUPPER : Z := 0x800.
Definition NNLC_ISXDIGIT : Z := 0x1000.

(** The kinds of entries of the table, each the disjunction the source writes. *)
Definition flags (l : list Z) : Z := foldr Z.lor 0 l.
Definition ct_cntrl : Z := flags [NNLC_ISASCII; NNLC_ISCNTRL].
Definition ct_tab : Z := flags [NNLC_ISASCII; NNLC_ISBLANK; NNLC_ISCNTRL; NNLC_ISSPACE].
Definition ct_cntrl_space : Z := flags [NNLC_ISASCII; NNLC_ISCNTRL; NNLC_ISSPACE].
Definition ct_blank : Z := flags [NNLC_ISASCII; NNLC_ISBLANK; NNLC_ISPRINT; NNLC_ISSPACE].
Definition ct_punct : Z := flags [NNLC_ISASCII; NNLC_ISGRAPH; NNLC_ISPRINT; NNLC_ISPUNCT].
Definition ct_digit : Z :=
  flags [NNLC_ISALNUM; NNLC_ISASCII; NNLC_ISDIGIT; NNLC_ISGRAPH; NNLC_ISPRINT; NNLC_ISXDIGIT].
Definition ct_upper_hex : Z :=
  flags [NNLC_ISALNUM; NNLC_ISALPHA; NNLC_ISASCII; NNLC_ISGRAPH; NNLC_ISPRINT; NNLC_ISUPPER; NNLC_ISXDIGIT].
Definition ct_upper : Z :=
  flags [NNLC_ISALNUM; NNLC_ISALPHA; NNLC_ISASCII; NNLC_ISGRAPH; NNLC_ISPRINT; NNLC_ISUPPER].
Definition ct_lower_hex : Z :=
  flags [NNLC_ISALNUM; NNLC_ISALPHA; NNLC_ISASCII; NNLC_ISGRAPH; NNLC_ISLOWER; NNLC_ISPRINT; NNLC_ISXDIGIT].
Definition ct_lower : Z :=
  flags [NNLC_ISALNUM; NNLC_ISALPHA; NNLC_ISASCII; NNLC_ISGRAPH; NNLC_ISLOWER; NNLC_ISPRINT].

(** The runs of equal entries of the table, in order; the rest of it is zero. *)
Definition nnlc_ctype_runs : list (nat * Z) :=
  [ (9%nat, ct_cntrl); (1%nat, ct_tab); (4%nat, ct_cntrl_space); (18%nat, ct_cntrl);
    (1%nat, ct_blank); (15%nat, ct_punct); (10%nat, ct_digit); (7%nat, ct_punct);
    (6%nat, ct_upper_hex); (20%nat, ct_upper); (6%nat, ct_punct);
    (6%nat, ct_lower_hex); (20%nat, ct_lower); (4%nat, ct_punct); (1%nat, ct_cntrl);
    (128%nat, 0) ].
Definition nnlc_ctype_table : list Z :=
  flat_map (fun r => replicate r.1 r.2) nnlc_ctype_runs.

Definition ctype_test (flag c : Z) : bool :=
  negb (Z.land (nth (Z.to_nat (Z.land 0xff (u8 c))) nnlc_ctype_table 0) flag =? 0).
Definition isalnum : Z -> bool := ctype_test NNLC_ISALNUM.
Definition isalpha : Z -> bool := ctype_test NNLC_ISALPHA.
Definition isascii : Z -> bool := ctype_test NNLC_ISASCII.
Definition isblank : Z -> bool := ctype_test NNLC_ISBLANK.
Definition iscntrl : Z -> bool := ctype_test NNLC_ISCNTRL.
Definition isdigit : Z -> bool := ctype_test NNLC_ISDIGIT.
Definition isgraph : Z -> bool := ctype_test NNLC_ISGRAPH.
Definition islower : Z -> bool := ctype_test NNLC_ISLOWER.
Definition isprint : Z -> bool := ctype_test NNLC_ISPRINT.
Definition ispunct : Z -> bool := ctype_test NNLC_ISPUNCT.
Definition isspace : Z -> bool := ctype_test NNLC_ISSPACE.
Definition isupper : Z -> bool := ctype_test NNLC_ISUPPER.
Definition isxdigit : Z -> bool := ctype_test NNLC_ISXDIGIT.
Definition tolower (c : Z) : Z := if isupper c then c - 65 + 97 else c.
Definition toupper (c : Z) : Z := if islower c then c - 97 + 65 else c.
Definition toascii (c : Z) : Z := Z.land c 0x7f.

(** ** String routines *)

Definition rawmemchr (fuel : nat) (m : mem) (spp c : Z) : option Z :=
  loop fuel (fun s => if negb (m s =? u8 c) then inl (s + 1) else inr s) spp.

Definition strcmp (fuel : nat) (m : mem) (p1 p2 : Z) : option Z :=
  loop fuel (fun '(s1, s2) =>
    let c1 := m s1 in let c2 := m s2 in
    if (c1 =? 0) || negb (c1 =? c2) then inr (c1 - c2) else inl (s1 + 1, s2 + 1)) (p1, p2).

Definition strncmp (m : mem) (p1 p2 n : Z) : option Z :=
  loop (S (Z.to_nat n)) (fun '(s1, s2, n) =>
    if 0 <? n then
      let c1 := m s1 in let c2 := m s2 in
      if (c1 =? 0) || negb (c1 =? c2) then inr (c1 - c2) else inl (s1 + 1, s2 + 1, n - 1)
    else inr 0) (p1, p2, n).

Definition strcpy (fuel : nat) (m : mem) (dest src : Z) : option (mem * Z) :=
  loop fuel (fun '(m, d, s) =>
    if negb (m s =? 0) then inl (store_byte m d (m s), d + 1, s + 1)
    else inr (store_byte m d 0, dest)) (m, dest, src).

Definition strncpy (m : mem) (dest src n : Z) : option (mem * Z) :=
  let fuel := S (Z.to_nat n) in
  st ← while fuel (fun '(m, i) => (i <? n) && negb (m (src + i) =? 0))
         (fun '(m, i) => (store_byte m (dest + i) (m (src + i)), i + 1)) (m, 0);
  st ← while fuel (fun '(m, i) => i <? n) (fun '(m, i) => (store_byte m (dest + i) 0, i + 1)) st;
  Some (st.1, dest).

Definition strlen (fuel : nat) (m : mem) (s : Z) : option Z :=
  loop fuel (fun '(s, i) => if negb (m s =? 0) then inl (s + 1, i + 1) else inr i) (s, 0).

Definition strchr (fuel : nat) (m : mem) (s i : Z) : option (option Z) :=
  loop fuel (fun s => if negb (m s =? 0) then if m s =? i then inr (Some s) else inl (s + 1)
                      else inr None) s.

Definition strrchr (fuel : nat) (m : mem) (s i : Z) : option (option Z) :=
  loop fuel (fun '(s, last) =>
    if negb (m s =? 0) then inl (s + 1, if m s =? i then Some s else last) else inr last) (s, None).

Definition strstr (fuel : nat) (m : mem) (haystack needle : Z) : option (option Z) :=
  if m needle =? 0 then Some (Some haystack) else
  loop fuel (fun '(h, n, found) =>
    if negb (m h =? 0) then
      let '(n, found) :=
        if bool_decide (is_Some found) && negb (m h =? m n) then (needle, None) else (n, found) in
      if m h =? m n then
        let found := match found with None => Some h | Some _ => found end in
        if m (n + 1) =? 0 then inr found else inl (h + 1, n + 1, found)
      else inl (h + 1, n, found)
    else inr None) (haystack, needle, None).

(** The inner scan of [strspn]: the position in [accept] of the character, or of
    the terminator. *)
Definition scan_accept (fuel : nat) (m : mem) (c accept : Z) : option Z :=
  loop fuel (fun a => if negb (m a =? 0) then if c =? m a then inr a else inl (a + 1) else inr a)
    accept.

(** One fuel bounds both loops; running out inside ends the outer loop with
    [None]. *)
Definition strspn (fuel : nat) (m : mem) (s accept : Z) : option Z :=
  r ← loop fuel (fun '(p, count) =>
        if negb (m p =? 0) then
          match scan_accept fuel m (m p) accept with
          | None => inr None
          | Some a => if m a =? 0 then inr (Some count) else inl (p + 1, count + 1)
          end
        else inr (Some count)) (s, 0);
  r.

Definition strpbrk (fuel : nat) (m : mem) (s accept : Z) : option (option Z) :=
  r ← loop fuel (fun s =>
        if negb (m s =? 0) then
          match loop fuel (fun a => if negb (m a =? 0)
                                    then if m a =? m s then inr true else inl (a + 1)
                                    else inr false) accept with
          | None => inr None
          | Some true => inr (Some (Some s))
          | Some false => inl (s + 1)
          end
        else inr (Some None)) s;
  r.

(** The answer is the memory, the new value of [*saveptr] and the token. *)
Definition strtok_r (fuel : nat) (m : mem) (s : option Z) (delim saveptr : Z)
    : option (mem * Z * option Z) :=
  let s := match s with None => saveptr | Some s => s end in
  k ← strspn fuel m s delim;
  let s := s + k in
  if m s =? 0 then Some (m, s, None) else
  let token := s in
  e ← strpbrk fuel m token delim;
  match e with
  | None => save ← rawmemchr fuel m token 0; Some (m, save, Some token)
  | Some s => Some (store_byte m s 0, s + 1, Some token)
  end.

(** [strtok] keeps [*saveptr] in a static variable, threaded here. *)
Definition strtok (fuel : nat) (m : mem) (global_saveptr : Z) (s : option Z) (delim : Z) :=
  strtok_r fuel m s delim global_saveptr.

(** [unsigned int] arithmetic, read back as [int]. *)
Definition strcasecmp (fuel : nat) (m : mem) (p1 p2 : Z) : option Z :=
  loop fuel (fun '(s1, s2) =>
    let c1 := u32 (tolower (m s1)) in let c2 := u32 (tolower (m s2)) in
    if (c1 =? 0) || negb (c1 =? c2) then inr (s32 (u32 (c1 - c2))) else inl (s1 + 1, s2 + 1)) (p1, p2).

Definition strncasecmp (m : mem) (p1 p2 n : Z) : option Z :=
  loop (S (Z.to_nat n)) (fun '(s1, s2, n) =>
    if 0 <? n then
      let c1 := u8 (tolower (m s1)) in let c2 := u8 (tolower (m s2)) in
      if (c1 =? 0) || negb (c1 =? c2) then inr (c1 - c2) else inl (s1 + 1, s2 + 1, n - 1)
    else inr 0) (p1, p2, n).

(** ** Strings in memory *)

Fixpoint cstr (m : mem) (p : Z) (l : list Z) : Prop :=
  match l with
  | [] => m p = 0
  | c :: l' => m p = c /\ 0 < c < 256 /\ cstr m (p + 1) l'
  end.

Lemma cstr_app m p l k :
  cstr m p (l ++ k) <->
  bytes m p (length l) = l /\ Forall (fun c => 0 < c < 256) l /\ cstr m (p + Z.of_nat (length l)) k.
Proof.
  revert p. induction l as [|c l IH]; intros p.
  - simpl app. simpl length. rewrite Z.add_0_r. split; [by intros; split_and!|by intros (_ & _ & ?)].
  - simpl app. cbn [cstr length]. rewrite bytes_S, IH, Forall_cons.
    replace (p + 1 + Z.of_nat (length l)) with (p + Z.of_nat (S (length l))) by lia.
    split; [intros (-> & ? & -> & ? & ?); split_and!; auto; lia|].
    intros ([= -> ->] & [? ?] & ?). auto.
Qed.

Lemma cstr_end m p l : cstr m p l -> m (p + Z.of_nat (length l)) = 0.
Proof. rewrite <- (app_nil_r l) at 1. rewrite cstr_app. tauto. Qed.

(** A string is determined by its bytes. *)
Lemma cstr_ext m m' p l :
  (forall a, p <= a <= p + Z.of_nat (length l) -> m' a = m a) -> cstr m p l -> cstr m' p l.
Proof.
  revert p. induction l as [|c l IH]; intros p H; cbn [cstr length] in *.
  - intros E. rewrite H; [done|lia].
  - intros (Hc & ? & Hl). split_and!; [rewrite H; [done|lia]|lia|lia|].
    apply IH; [|done]. intros. apply H. lia.
Qed.

Lemma strlen_length m s l fuel :
  cstr m s l -> (length l < fuel)%nat -> strlen fuel m s = Some (Z.of_nat (length l)).
Proof.
  unfold strlen. intros H Hf.
  enough (Hg : forall i, loop fuel (fun '(s, i) => if negb (m s =? 0) then inl (s + 1, i + 1) else inr i)
    (s, i) = Some (i + Z.of_nat (length l))) by (rewrite Hg; done).
  revert s fuel H Hf. induction l as [|c l IH]; intros s [|f] H Hf i; simpl in *; try lia.
  - rewrite H. simpl. f_equal. lia.
  - destruct H as (Hc & ? & Hl). rewrite (proj2 (Z.eqb_neq _ _)) by lia. simpl.
    rewrite (IH (s + 1)) by (done || lia). f_equal. lia.
Qed.

(** Both comparisons look at the strings with their terminators. *)
Lemma strcmp_byte_cmp m p1 p2 l1 l2 fuel :
  cstr m p1 l1 -> cstr m p2 l2 -> (length l1 < fuel)%nat ->
  strcmp fuel m p1 p2 = Some (byte_cmp (l1 ++ [0]) (l2 ++ [0])).
Proof.
  unfold strcmp. revert p1 p2 l2 fuel.
  induction l1 as [|c l IH]; intros p1 p2 [|d k] [|f] H1 H2 Hf; simpl in *; try lia.
  - rewrite H1, H2. done.
  - rewrite H1. simpl. destruct H2 as (-> & ? & _). by destruct d; [lia|..].
  - destruct H1 as (-> & ? & _). rewrite H2, (proj2 (Z.eqb_neq c 0)) by lia. done.
  - destruct H1 as (-> & ? & H1), H2 as (-> & ? & H2). rewrite (proj2 (Z.eqb_neq c 0)) by lia.
    destruct (c =? d) eqn:E; simpl; [|done]. by apply IH; [..|lia].
Qed.

Lemma rawmemchr_end m s l fuel :
  cstr m s l -> (length l < fuel)%nat -> rawmemchr fuel m s 0 = Some (s + Z.of_nat (length l)).
Proof.
  unfold rawmemchr. revert s fuel. induction l as [|c l IH]; intros s [|f] H Hf; simpl in *; try lia.
  - rewrite H. simpl. f_equal. lia.
  - destruct H as (Hc & ? & Hl). change (u8 0) with 0 in *. rewrite (proj2 (Z.eqb_neq _ _)) by lia.
    simpl. rewrite IH by (done || lia). f_equal. lia.
Qed.

(** ** Tokens *)

Definition one_of (ds : list Z) (c : Z) : bool := existsb (Z.eqb c) ds.

Lemma scan_accept_spec m accept ds c fuel :
  cstr m accept ds -> c <> 0 -> (length ds < fuel)%nat ->
  exists a, scan_accept fuel m c accept = Some a /\ (m a =? 0) = negb (one_of ds c).
Proof.
  unfold scan_accept. revert accept fuel.
  induction ds as [|d ds IH]; intros accept [|f] H Hc Hf; simpl in *; try lia.
  - rewrite H. simpl. eexists. split; [done|]. by rewrite H.
  - destruct H as (Hd & ? & Hl). rewrite (proj2 (Z.eqb_neq (m accept) 0)) by lia. simpl.
    rewrite Hd. destruct (c =? d) eqn:E; simpl.
    + eexists. split; [done|]. apply Z.eqb_neq. lia.
    + apply IH; [done..|lia].
Qed.

(** [strspn] counts the leading characters of the set. *)
Lemma strspn_spec m s accept ds lead l1 fuel :
  cstr m s (lead ++ l1) -> cstr m accept ds ->
  Forall (fun c => one_of ds c = true) lead ->
  (match l1 with [] => True | c :: _ => one_of ds c = false end) ->
  (length lead + length ds < fuel)%nat ->
  strspn fuel m s accept = Some (Z.of_nat (length lead)).
Proof.
  intros Hs Ha Hlead Hl1 Hf. unfold strspn.
  assert (Hacc : (length ds < fuel)%nat) by lia.
  enough (Hg : forall f s i, cstr m s (lead ++ l1) -> (length lead < f)%nat ->
    loop f (fun '(p, count) => if negb (m p =? 0) then
          match scan_accept fuel m (m p) accept with
          | None => inr None
          | Some a => if m a =? 0 then inr (Some count) else inl (p + 1, count + 1)
          end else inr (Some count)) (s, i) = Some (Some (i + Z.of_nat (length lead)))).
  { rewrite Hg by (done || lia). done. }
  clear Hs s Hf. induction lead as [|c lead IH]; intros [|f] s i Hs Hout; simpl in *; try lia.
  - destruct l1 as [|c l1]; simpl in Hs.
    + rewrite Hs. simpl. do 2 f_equal. lia.
    + destruct Hs as (Hc & ? & _). rewrite (proj2 (Z.eqb_neq _ _)) by lia. simpl.
      destruct (scan_accept_spec m accept ds (m s) fuel) as (a & -> & ->); [done|lia|done|].
      rewrite Hc, Hl1. simpl. do 2 f_equal. lia.
  - destruct Hs as (Hc & ? & Hs). apply Forall_cons in Hlead as [Hc1 Hlead].
    rewrite (proj2 (Z.eqb_neq _ _)) by lia. simpl.
    destruct (scan_accept_spec m accept ds (m s) fuel) as (a & -> & ->); [done|lia|done|].
    rewrite Hc, Hc1. simpl. rewrite IH by (done || lia). do 2 f_equal. lia.
Qed.

Lemma accept_loop_spec m accept ds c fuel :
  cstr m accept ds -> c <> 0 -> (length ds < fuel)%nat ->
  loop fuel (fun a => if negb (m a =? 0) then if m a =? c then inr true else inl (a + 1)
                      else inr false) accept = Some (one_of ds c).
Proof.
  revert accept fuel. induction ds as [|d ds IH]; intros accept [|f] H Hc Hf; simpl in *; try lia.
  - by rewrite H.
  - destruct H as (Hd & ? & Hl). rewrite (proj2 (Z.eqb_neq (m accept) 0)) by lia. simpl.
    rewrite Hd, (Z.eqb_sym d c). destruct (c =? d); simpl; [done|]. apply IH; [done..|lia].
Qed.

(** [strpbrk] finds the first character of the set. *)
Lemma strpbrk_spec m s accept ds tok l1 fuel :
  cstr m s (tok ++ l1) -> cstr m accept ds ->
  Forall (fun c => one_of ds c = false) tok ->
  (match l1 with [] => True | c :: _ => one_of ds c = true end) ->
  (length tok + length ds < fuel)%nat ->
  strpbrk fuel m s accept
  = Some (match l1 with [] => None | _ :: _ => Some (s + Z.of_nat (length tok)) end).
Proof.
  intros Hs Ha Htok Hl1 Hf. unfold strpbrk. assert (Hacc : (length ds < fuel)%nat) by lia.
  enough (Hg : forall f s, cstr m s (tok ++ l1) -> (length tok < f)%nat ->
    loop f (fun s => if negb (m s =? 0) then
        match loop fuel (fun a => if negb (m a =? 0) then if m a =? m s then inr true else inl (a + 1)
                                  else inr false) accept with
        | None => inr None
        | Some true => inr (Some (Some s))
        | Some false => inl (s + 1)
        end else inr (Some None)) s
    = Some (Some (match l1 with [] => None | _ :: _ => Some (s + Z.of_nat (length tok)) end))).
  { rewrite Hg by (done || lia). done. }
  clear Hs s Hf. induction tok as [|c tok IH]; intros [|f] s Hs Hout; simpl in *; try lia.
  - destruct l1 as [|c l1]; simpl in Hs; [by rewrite Hs|].
    destruct Hs as (Hc & ? & _). rewrite (proj2 (Z.eqb_neq _ _)) by lia. simpl.
    rewrite (accept_loop_spec m accept ds) by (done || lia). rewrite Hc, Hl1.
    do 3 f_equal. lia.
  - destruct Hs as (Hc & ? & Hs). apply Forall_cons in Htok as [Hc1 Htok].
    rewrite (proj2 (Z.eqb_neq _ _)) by lia. simpl.
    rewrite (accept_loop_spec m accept ds) by (done || lia). rewrite Hc, Hc1.
    rewrite IH by (done || lia). destruct l1; [done|]. do 3 f_equal. lia.
Qed.

(** The longest prefix on which a test holds, and the rest. *)
Fixpoint span (p : Z -> bool) (l : list Z) : list Z * list Z :=
  match l with
  | [] => ([], [])
  | c :: l' => if p c then let '(a, b) := span p l' in (c :: a, b) else ([], l)
  end.

Lemma span_spec p l :
  l = (span p l).1 ++ (span p l).2 /\ Forall (fun c => p c = true) (span p l).1 /\
  match (span p l).2 with [] => True | c :: _ => p c = false end.
Proof.
  induction l as [|c l (IH1 & IH2 & IH3)]; simpl; [done|].
  destruct (p c) eqn:E; simpl; [|by auto].
  destruct (span p l) as [a b]. simpl in *. subst l. auto.
Qed.

(** The tokens of a string: its maximal runs of characters that are no
    delimiters. *)
Fixpoint tokens (ds : list Z) (cur : list Z) (l : list Z) : list (list Z) :=
  let flush := match cur with [] => [] | _ => [cur] end in
  match l with
  | [] => flush
  | c :: l' => if one_of ds c then flush ++ tokens ds [] l' else tokens ds (cur ++ [c]) l'
  end.

Lemma tokens_lead ds lead l :
  Forall (fun c => one_of ds c = true) lead -> tokens ds [] (lead ++ l) = tokens ds [] l.
Proof. induction 1 as [|c lead Hc _ IH]; simpl; [done|]. by rewrite Hc. Qed.

Lemma tokens_run ds cur tok l :
  Forall (fun c => one_of ds c = false) tok -> tokens ds cur (tok ++ l) = tokens ds (cur ++ tok) l.
Proof.
  intros H. revert cur. induction H as [|c tok Hc _ IH]; intros cur; simpl; [by rewrite app_nil_r|].
  rewrite Hc, IH, <- app_assoc. done.
Qed.

(** One call of [strtok_r] on a string [lead ++ tok ++ rest]. *)
Lemma strtok_r_step m s o sp delim ds lead tok rest fuel :
  default sp o = s ->
  cstr m s (lead ++ tok ++ rest) -> cstr m delim ds ->
  Forall (fun c => one_of ds c = true) lead -> Forall (fun c => one_of ds c = false) tok ->
  (match rest with [] => True | c :: _ => one_of ds c = true end) ->
  (length lead + length tok + length rest + length ds < fuel)%nat ->
  let t := s + Z.of_nat (length lead) in
  let e := t + Z.of_nat (length tok) in
  tok <> [] ->
  strtok_r fuel m o delim sp
  = Some (match rest with [] => (m, e, Some t) | _ :: _ => (store_byte m e 0, e + 1, Some t) end).
Proof.
  intros Ho Hs Hd Hlead Htok Hrest Hf t e Hne. unfold strtok_r.
  replace (match o with None => sp | Some s => s end) with s by (by destruct o).
  assert (Hhd : match tok ++ rest with [] => True | c :: _ => one_of ds c = false end).
  { destruct tok as [|c tok]; [done|]. by apply Forall_cons in Htok as [? _]. }
  rewrite (strspn_spec m s delim ds lead (tok ++ rest)) by (done || lia). cbn [mbind option_bind].
  apply cstr_app in Hs as (_ & _ & Hs). fold t in Hs |- *.
  assert (Hm : m t <> 0).
  { destruct tok as [|c tok]; [done|]. simpl in Hs. lia. }
  rewrite (proj2 (Z.eqb_neq _ _) Hm).
  rewrite (strpbrk_spec m t delim ds tok rest) by (done || lia). cbn [mbind option_bind].
  destruct rest as [|c rest]; [|done]. rewrite app_nil_r in Hs.
  rewrite (rawmemchr_end m t tok) by (done || lia). done.
Qed.

(** A string of delimiters has no token. *)
Lemma strtok_r_none m s o sp delim ds lead fuel :
  default sp o = s -> cstr m s lead -> cstr m delim ds ->
  Forall (fun c => one_of ds c = true) lead -> (length lead + length ds < fuel)%nat ->
  strtok_r fuel m o delim sp = Some (m, s + Z.of_nat (length lead), None).
Proof.
  intros Ho Hs Hd Hlead Hf. unfold strtok_r.
  replace (match o with None => sp | Some s => s end) with s by (by destruct o).
  rewrite (strspn_spec m s delim ds lead []) by (rewrite ?app_nil_r; done || lia).
  cbn [mbind option_bind]. by rewrite (cstr_end _ _ _ Hs).
Qed.

(** The loop of a client: [for (t = strtok_r(s, d, &p); t; t = strtok_r(NULL, d, &p))],
    with the tokens it sees. *)
Fixpoint strtok_all (k fuel : nat) (m : mem) (s : option Z) (delim saveptr : Z)
    : option (mem * list Z) :=
  match k with
  | O => None
  | S k' =>
      a ← strtok_r fuel m s delim saveptr;
      match a with
      | (m', _, None) => Some (m', [])
      | (m', save, Some t) => r ← strtok_all k' fuel m' None delim save; Some (r.1, t :: r.2)
      end
  end.

Lemma strtok_all_spec k m s o sp delim ds l fuel :
  default sp o = s -> (length l < k)%nat ->
  cstr m s l -> cstr m delim ds ->
  delim + Z.of_nat (length ds) < s \/ s + Z.of_nat (length l) < delim ->
  (length l + length ds < fuel)%nat ->
  exists m' ptrs, strtok_all k fuel m o delim sp = Some (m', ptrs) /\
    Forall2 (cstr m') ptrs (tokens ds [] l) /\
    forall a, a < s \/ s + Z.of_nat (length l) <= a -> m' a = m a.
Proof.
  revert m s o sp l. induction k as [|k IH]; intros m s o sp l Ho Hk Hs Hd Hsep Hf; [lia|].
  destruct (span_spec (one_of ds) l) as (El & Hlead & Hhd).
  set (lead := (span (one_of ds) l).1) in *. set (l1 := (span (one_of ds) l).2) in *. clearbody lead l1.
  destruct (span_spec (fun c => negb (one_of ds c)) l1) as (El1 & Htok & Hrest).
  set (tok := (span _ l1).1) in *. set (rest := (span _ l1).2) in *. clearbody tok rest. subst l l1.
  assert (Htok' : Forall (fun c => one_of ds c = false) tok).
  { eapply Forall_impl; [exact Htok|]. intros c Hc. by apply negb_true_iff. }
  rewrite !length_app in Hk, Hsep, Hf. rewrite !length_app. rewrite tokens_lead, tokens_run by done.
  destruct (decide (tok = [])) as [->|Hne].
  - destruct rest as [|c rest].
    2:{ simpl in Hhd, Hrest. apply negb_false_iff in Hrest. congruence. }
    simpl in *. rewrite app_nil_r in Hs. rewrite (strtok_r_none m s o sp delim ds lead) by (done || lia).
    simpl. exists m, []. split_and!; [done|constructor|done].
  - cbn [strtok_all]. erewrite strtok_r_step;
      [|exact Ho|exact Hs|exact Hd|exact Hlead|exact Htok'| |lia|done].
    2:{ destruct rest; [done|]. by apply negb_false_iff in Hrest. }
    cbn [mbind option_bind]. remember (s + Z.of_nat (length lead)) as t eqn:Et.
    pose proof Hs as Hs'. apply cstr_app in Hs' as (_ & _ & Ht). rewrite <- Et in Ht.
    pose proof Ht as Ht'. apply cstr_app in Ht' as (Hbt & Hrt & Hr). destruct rest as [|c rest].
    + destruct (IH m (t + Z.of_nat (length tok)) None (t + Z.of_nat (length tok)) [])
        as (m' & ptrs & E & Hp & Hfr); [done| |exact Hr|exact Hd|simpl; lia|simpl; lia|].
      { destruct tok; [done|]. simpl in *. lia. }
      rewrite E. cbn [mbind option_bind]. eexists m', _. split_and!; [done| |intros a Ha; apply Hfr; simpl; lia].
      simpl. destruct tok as [|b tok]; [done|]. constructor; [|exact Hp].
      rewrite app_nil_r in Ht. eapply cstr_ext; [|exact Ht]. intros a Ha. apply Hfr; simpl in *. lia.
    + remember (t + Z.of_nat (length tok)) as e eqn:Ee. set (m1 := store_byte m e 0).
      assert (Hm1 : forall a, a <> e -> m1 a = m a).
      { intros a Ha. apply store_bytes_out. simpl length. lia. }
      assert (Hm1e : m1 e = 0).
      { unfold m1, store_byte. rewrite store_bytes_at by (simpl; lia). by rewrite Z.sub_diag. }
      cbn [cstr] in Hr. destruct Hr as (_ & _ & Hr). simpl in Hk, Hf, Hsep, Hrest.
      destruct (IH m1 (e + 1) None (e + 1) rest) as (m' & ptrs & E & Hp & Hfr); [done|lia| | |lia|lia|].
      { eapply cstr_ext; [|exact Hr]. intros a Ha. apply Hm1. lia. }
      { eapply cstr_ext; [|exact Hd]. intros a Ha. apply Hm1. lia. }
      rewrite E. cbn [mbind option_bind]. eexists m', _. split_and!; [done| |].
      * cbn [tokens app]. apply negb_false_iff in Hrest. rewrite Hrest.
        destruct tok as [|b tok]; [done|]. cbn [app]. constructor; [|exact Hp].
        eapply (cstr_ext m1). { intros a Ha. apply Hfr. lia. }
        rewrite <- (app_nil_r (b :: tok)). apply cstr_app. split_and!; [|done|by rewrite <- Ee].
        rewrite <- Hbt at 2. apply list_fmap_ext. intros i x Hx. apply lookup_seq in Hx as [-> Hi].
        apply Hm1. lia.
      * intros a Ha. simpl in Ha. rewrite Hfr by lia. apply Hm1. lia.
Qed.

(** Tokenizing: for a string and a disjoint delimiter string in memory, the
    calls [strtok_r(s, delim, &p)], [strtok_r(NULL, delim, &p)], ... terminate and
    return, in order, one pointer to each maximal run of non-delimiter characters
    of the string and then NULL; at the end every pointer still refers to its
    token, now terminated in place, and no byte outside the string has changed. *)
Theorem strtok_r_splits m s delim ds l sp fuel :
  cstr m s l -> cstr m delim ds ->
  delim + Z.of_nat (length ds) < s \/ s + Z.of_nat (length l) < delim ->
  (length l + length ds < fuel)%nat ->
  exists m' ptrs, strtok_all (S (length l)) fuel m (Some s) delim sp = Some (m', ptrs) /\
    Forall2 (cstr m') ptrs (tokens ds [] l) /\
    forall a, a < s \/ s + Z.of_nat (length l) <= a -> m' a = m a.
Proof. intros. apply strtok_all_spec; auto. Qed.

(** ** Evaluated examples *)

(** The string [l] at [p], terminated; everything else keeps its value. *)
Definition with_string (p : Z) (l : list Z) (m : mem) : mem := store_bytes m p (l ++ [0]).

(** ["  ab c"] split at blanks gives ["ab"] and ["c"]. *)
Lemma strtok_r_splits_witness :
  exists m' ptrs,
    strtok_all 7 20 (with_string 100 [32; 32; 97; 98; 32; 99] (with_string 200 [32] (fun _ => 0)))
      (Some 100) 200 0 = Some (m', ptrs) /\
    Forall2 (cstr m') ptrs [[97; 98]; [99]].
Proof.
  edestruct (strtok_r_splits
    (with_string 100 [32; 32; 97; 98; 32; 99] (with_string 200 [32] (fun _ => 0)))
    100 200 [32] [32; 32; 97; 98; 32; 99] 0 20) as (m' & ptrs & E & H & _).
  - vm_compute. intuition congruence.
  - vm_compute. intuition congruence.
  - simpl. lia.
  - simpl. lia.
  - exists m', ptrs. split; [exact E|exact H].
Defined.

(** [strstr] restarts the needle but not the haystack after a partial match: it
    does not find ["aab"] in ["aaab"]. *)
Example strstr_misses :
  strstr 20 (with_string 100 [97; 97; 97; 98] (with_string 200 [97; 97; 98] (fun _ => 0))) 100 200
  = Some None.
Proof. vm_compute. reflexivity. Qed.

(** [strchr] does not find the terminator. *)
Example strchr_terminator : strchr 20 (with_string 100 [97] (fun _ => 0)) 100 0 = Some None.
Proof. vm_compute. reflexivity. Qed.

(** The classification table is ASCII's, for every [unsigned char]. *)
Lemma ctype_ascii c :
  0 <= c < 256 ->
  isdigit c = (48 <=? c) && (c <=? 57) /\
  isupper c = (65 <=? c) && (c <=? 90) /\
  islower c = (97 <=? c) && (c <=? 122) /\
  isspace c = (c =? 32) || ((9 <=? c) && (c <=? 13)) /\
  isalpha c = isupper c || islower c /\ isalnum c = isalpha c || isdigit c.
Proof.
  intros Hc. pose (ok := fun i => let c := Z.of_nat i in
    bool_decide (isdigit c = (48 <=? c) && (c <=? 57) /\
      isupper c = (65 <=? c) && (c <=? 90) /\
      islower c = (97 <=? c) && (c <=? 122) /\
      isspace c = (c =? 32) || ((9 <=? c) && (c <=? 13)) /\
      isalpha c = isupper c || islower c /\ isalnum c = isalpha c || isdigit c)).
  assert (Hall : forallb ok (seq 0 256) = true) by (vm_compute; reflexivity).
  rewrite forallb_forall in Hall. specialize (Hall (Z.to_nat c)). unfold ok in Hall.
  rewrite Z2Nat.id in Hall by lia. eapply bool_decide_eq_true, Hall. apply in_seq. lia.
Qed.
