(* ===== verification/Strtox.v ===== *)
(** * Number parsing of the firmware's C library
      (fw/nanolibc/c/strtox.c and stdlib.c)

    strtox.c is a template that stdlib.c includes once per function; its macros are
    the arguments [unsigned], [intmin] and [intmax] of [strtox]. [long] and [long
    long] are 64 bits wide. The answer is the returned value and what is stored at
    [endptr], [None] when the function returns before it stores anything.

    [strtol_value] and [strtoul_value] give the meaning of the two instances on
    every well-formed numeral: white space, an optional sign, an optional radix
    prefix and digits, with saturation at the limits of the type. *)

From S2P Require Import Prelude CMem CStr.

Definition LONG_MAX : Z := 9223372036854775807.
Definition LONG_MIN : Z := - LONG_MAX - 1.
Definition ULONG_MAX : Z := 18446744073709551615.

(** [!strncmp(s, "0x", 2) || !strncmp(s, "0X", 2)] *)
Definition has_0x (m : mem) (s : Z) : bool :=
  (m s =? 48) && ((m (s + 1) =? 120) || (m (s + 1) =? 88)).

(** Radix, end pointer and position after the prefix. *)
Definition strtox_prefix (m : mem) (nptr s base : Z) : Z * Z * Z :=
  if (base =? 0) && has_0x m s then (16, s + 1, s + 2)
  else if base =? 16 then if has_0x m s then (16, s + 1, s + 2) else (base, nptr, s)
  else if (base =? 0) && (m s =? 48) then (8, nptr, s)
  else if base =? 0 then (10, nptr, s)
  else (base, nptr, s).

(** The largest characters allowed as digits: decimal, lower and upper case. *)
Definition strtox_tops (base : Z) : Z * Z * Z :=
  if base <=? 10 then (48 + base - 1, 0, 0) else (48 + 9, 97 + (base - 10) - 1, 65 + (base - 10) - 1).

Definition strtox_digit (base c : Z) : option Z :=
  let '(dtop, ltop, utop) := strtox_tops base in
  if (48 <=? c) && (c <=? dtop) then Some (c - 48)
  else if (97 <=? c) && (c <=? ltop) then Some (10 + (c - 97))
  else if (65 <=? c) && (c <=? utop) then Some (10 + (c - 65))
  else None.

(** The digit loop on [s], [endc], [absval] and [overflow]. *)
Definition strtox_digits (fuel : nat) (m : mem) (base max_unshifted_absval max_last_digit : Z) :
    Z * Z * Z * bool -> option (Z * Z * bool) :=
  loop (St := Z * Z * Z * bool) (R := Z * Z * bool) fuel (fun '(s, endc, absval, overflow) =>
    if negb (m s =? 0) then
      match strtox_digit base (m s) with
      | None => inr (endc, absval, overflow)
      | Some digit =>
          let '(absval, overflow) :=
            if overflow then (absval, overflow)
            else if max_unshifted_absval <? absval then (absval, true)
            else if (absval =? max_unshifted_absval) && (max_last_digit <? digit) then (absval, true)
            else (absval *% base +% digit, false) in
          inl (s + 1, s + 1, absval, overflow)
      end
    else inr (endc, absval, overflow)).

Definition strtox (unsigned : bool) (intmin intmax : Z) (fuel : nat) (m : mem) (nptr base : Z)
    : option (Z * option Z) :=
  if negb ((base =? 0) || ((2 <=? base) && (base <=? 36))) then Some (0, None) else
  s ← while fuel (fun s => negb (m s =? 0) && isspace (m s)) (fun s => s + 1) nptr;
  let '(positive, s) :=
    if m s =? 43 then (true, s + 1) else if m s =? 45 then (false, s + 1) else (true, s) in
  let '(base, endc, s) := strtox_prefix m nptr s base in
  let limit := if unsigned then intmax else if positive then intmax else u64 (- u64 intmin) in
  let max_last_digit := u32 (limit mod base) in
  let max_unshifted_absval := limit / base in
  r ← strtox_digits fuel m base max_unshifted_absval max_last_digit (s, endc, 0, false);
  let '(endc, absval, overflow) := (r : Z * Z * bool) in
  let absval :=
    if overflow then
      if negb unsigned && negb positive then u64 intmin else u64 intmax
    else if negb positive then u64 (- absval) else absval in
  Some (if unsigned then absval else s64 absval, Some endc).

Definition strtol := strtox false LONG_MIN LONG_MAX.
Definition strtoll := strtox false LONG_MIN LONG_MAX.
Definition strtoul := strtox true 0 ULONG_MAX.
Definition strtoull := strtox true 0 ULONG_MAX.
Definition atol (fuel : nat) (m : mem) (nptr : Z) : option Z := fst <$> strtol fuel m nptr 10.

(** ** Meaning of a numeral *)

(** The value of a digit string. *)
Definition numeral (base : Z) (ds : list Z) : Z := foldl (fun v d => v * base + d) 0 ds.

Lemma numeral_snoc base ds d : numeral base (ds ++ [d]) = numeral base ds * base + d.
Proof. unfold numeral. by rewrite foldl_app. Qed.

Lemma strtox_digit_range base c d : 2 <= base <= 36 -> strtox_digit base c = Some d -> 0 <= d < base.
Proof.
  intros Hb. unfold strtox_digit, strtox_tops. destruct (base <=? 10) eqn:E; bprop; intros H;
    repeat bcase_in H; simplify_eq; lia.
Qed.

(** The registers of the loop after the digits [ds]: the value so far, or an
    overflow that the value justifies. *)
Definition digits_inv (limit base : Z) (ds : list Z) (absval : Z) (overflow : bool) : Prop :=
  if overflow then limit < numeral base ds else absval = numeral base ds /\ 0 <= absval <= limit.

Lemma digits_step limit base ds d absval overflow :
  2 <= base <= 36 -> 0 <= limit < 2 ^ 64 -> 0 <= d < base ->
  digits_inv limit base ds absval overflow ->
  let '(absval', overflow') :=
    if overflow then (absval, overflow)
    else if limit / base <? absval then (absval, true)
    else if (absval =? limit / base) && (u32 (limit mod base) <? d) then (absval, true)
    else (absval *% base +% d, false) in
  digits_inv limit base (ds ++ [d]) absval' overflow'.
Proof.
  intros Hb Hl Hd. pose proof (Z.div_mod limit base) as Hdm.
  pose proof (Z.mod_pos_bound limit base) as Hm. wsimpl. unfold digits_inv.
  destruct overflow; [rewrite numeral_snoc; nia|]. intros [-> Hv].
  destruct (limit / base <? numeral base ds) eqn:E1; bprop; [rewrite numeral_snoc; nia|].
  destruct ((numeral base ds =? limit / base) && (limit mod base <? d)) eqn:E2; bprop.
  { rewrite numeral_snoc. nia. }
  assert (Hle : numeral base ds * base + d <= limit).
  { apply andb_false_iff in E2. destruct E2; bprop; nia. }
  assert (0 <= numeral base ds * base) by nia.
  rewrite (wrap_small 64 (numeral base ds * base)), wrap_small, numeral_snoc by lia. split; lia.
Qed.

Lemma strtox_digits_spec fuel m s endc base limit body ds rest absval overflow done :
  2 <= base <= 36 -> 0 <= limit < 2 ^ 64 ->
  cstr m s (body ++ rest) -> Forall2 (fun c d => strtox_digit base c = Some d) body ds ->
  (match rest with [] => True | c :: _ => strtox_digit base c = None end) ->
  (length body < fuel)%nat ->
  digits_inv limit base done absval overflow ->
  exists absval' overflow',
    strtox_digits fuel m base (limit / base) (u32 (limit mod base)) (s, endc, absval, overflow)
      = Some (match body with [] => endc | _ => s + Z.of_nat (length body) end, absval', overflow') /\
    digits_inv limit base (done ++ ds) absval' overflow'.
Proof.
  intros Hb Hl Hs Hds Hrest. unfold strtox_digits.
  revert fuel s endc absval overflow done Hs.
  induction Hds as [|c d body ds Hc Hds IH]; intros [|f] s endc absval overflow done Hs Hf Hi;
    cbn [app length] in *; try lia; cbn [loop].
  - rewrite app_nil_r. exists absval, overflow. split; [|done].
    destruct rest as [|c rest]; simpl in Hs; [by rewrite Hs|].
    destruct Hs as (-> & ? & _). rewrite (proj2 (Z.eqb_neq c 0)) by lia. simpl. by rewrite Hrest.
  - destruct Hs as (Hms & ? & Hs). rewrite Hms, (proj2 (Z.eqb_neq c 0)) by lia. simpl negb. rewrite Hc.
    pose proof (digits_step limit base done d absval overflow Hb Hl
      (strtox_digit_range _ _ _ Hb Hc) Hi) as Hi'.
    destruct (if overflow then _ else _) as [a' o']. cbv iota beta.
    destruct (IH f (s + 1) (s + 1) a' o' (done ++ [d]) Hs) as (a2 & o2 & E & Hi2); [lia|done|].
    exists a2, o2. rewrite <- app_assoc in Hi2. split; [|done]. rewrite E. do 3 f_equal.
    destruct body; simpl; lia.
Qed.

(** ** Numerals *)

(** The radix prefixes: [radix base pre l b] says that with the argument [base] the
    prefix [pre] in front of [l] selects radix [b]. *)
Definition no_0x (l : list Z) : Prop :=
  match l with 48 :: x :: _ => x <> 120 /\ x <> 88 | _ => True end.
Inductive radix (base : Z) : list Z -> list Z -> Z -> Prop :=
| radix_0x x l : base = 0 \/ base = 16 -> x = 120 \/ x = 88 -> radix base [48; x] l 16
| radix_16 l : base = 16 -> no_0x l -> radix base [] l 16
| radix_octal l : base = 0 -> no_0x (48 :: l) -> radix base [] (48 :: l) 8
| radix_decimal c l : base = 0 -> c <> 48 -> radix base [] (c :: l) 10
| radix_given l : 2 <= base <= 36 -> base <> 16 -> radix base [] l base.

Inductive sign : list Z -> bool -> Prop :=
| sign_none : sign [] true
| sign_plus : sign [43] true
| sign_minus : sign [45] false.

Lemma has_0x_no m s l : cstr m s l -> no_0x l -> has_0x m s = false.
Proof.
  intros Hs Hn. unfold has_0x. destruct l as [|c l]; cbn [cstr] in Hs; [by rewrite Hs|].
  destruct Hs as (-> & Hc & Hs). destruct (decide (c = 48)) as [->|]; [|by rewrite (proj2 (Z.eqb_neq c 48))].
  simpl andb. destruct l as [|x l]; cbn [cstr] in Hs; [by rewrite Hs|]. destruct Hs as (-> & _ & _).
  simpl in Hn. destruct Hn. by rewrite (proj2 (Z.eqb_neq x 120)), (proj2 (Z.eqb_neq x 88)).
Qed.

Lemma strtox_prefix_spec m nptr s base pre l b :
  cstr m s (pre ++ l) -> radix base pre l b ->
  strtox_prefix m nptr s base
  = (b, match pre with [] => nptr | _ => s + 1 end, s + Z.of_nat (length pre)) /\ 2 <= b <= 36.
Proof.
  intros Hs Hr. unfold strtox_prefix. destruct Hr as [x l Hb Hx|l Hb Hn|l Hb Hn|c l Hb Hc|l Hb Hne];
    cbn [app length] in *; rewrite ?Z.add_0_r.
  - cbn [cstr] in Hs. destruct Hs as (H0 & _ & H1 & _). unfold has_0x. rewrite H0, H1.
    destruct Hb as [Hb|Hb], Hx as [Hx|Hx]; rewrite Hb, Hx; split; (done || lia).
  - rewrite (has_0x_no m s l), Hb by done. split; (done || lia).
  - rewrite (has_0x_no m s (48 :: l)), Hb by done. cbn [cstr] in Hs. destruct Hs as (-> & _).
    split; (done || lia).
  - cbn [cstr] in Hs. destruct Hs as (Hms & _). unfold has_0x. rewrite Hms, Hb.
    rewrite (proj2 (Z.eqb_neq c 48)) by done. split; (done || lia).
  - rewrite (proj2 (Z.eqb_neq base 0)), (proj2 (Z.eqb_neq base 16)) by lia. split; (done || lia).
Qed.

Lemma skip_spaces m s sp l fuel :
  cstr m s (sp ++ l) -> Forall (fun c => isspace c = true) sp ->
  (match l with [] => True | c :: _ => isspace c = false end) -> (length sp < fuel)%nat ->
  while fuel (fun s => negb (m s =? 0) && isspace (m s)) (fun s => s + 1) s
  = Some (s + Z.of_nat (length sp)).
Proof.
  unfold while. intros Hs Hsp Hl. revert fuel s Hs.
  induction Hsp as [|c sp Hc Hsp IH]; intros [|f] s Hs Hf; cbn [app length] in *; try lia; cbn [loop].
  - rewrite Z.add_0_r. destruct l as [|c l]; cbn [cstr] in Hs; [by rewrite Hs|].
    destruct Hs as (-> & ? & _). rewrite (proj2 (Z.eqb_neq c 0)), Hl by lia. done.
  - destruct Hs as (Hm & ? & Hs). rewrite Hm, (proj2 (Z.eqb_neq c 0)), Hc by lia. cbn [negb andb].
    rewrite IH by (done || lia). f_equal. lia.
Qed.

(** A numeral in memory at [p]: blanks, sign, radix prefix, digits with values
    [ds], and a rest that does not go on with a digit. *)
Record numeral_at (m : mem) (p base : Z) (positive : bool) (b : Z) (ds : list Z) (e : Z) : Prop := {
  na_format : exists sp sg pre body rest,
    cstr m p (sp ++ sg ++ pre ++ body ++ rest) /\
    Forall (fun c => isspace c = true) sp /\ sign sg positive /\ radix base pre (body ++ rest) b /\
    Forall2 (fun c d => strtox_digit b c = Some d) body ds /\ body <> [] /\
    (match rest with [] => True | c :: _ => strtox_digit b c = None end) /\
    e = p + Z.of_nat (length sp + length sg + length pre + length body);
}.

(** Neither a sign, nor a prefix, nor a digit is white space, and no digit is a
    sign. *)
Lemma digit_not_space b c d :
  2 <= b <= 36 -> 0 <= c < 256 -> strtox_digit b c = Some d ->
  isspace c = false /\ c <> 43 /\ c <> 45.
Proof.
  intros Hb Hc Hd. destruct (ctype_ascii c Hc) as (_ & _ & _ & -> & _).
  unfold strtox_digit, strtox_tops in Hd. destruct (b <=? 10) eqn:E; bprop;
    repeat bcase_in Hd; simplify_eq; (split; [apply orb_false_iff; split;
      [|apply andb_false_iff]; rewrite ?Z.eqb_neq, ?Z.leb_gt; lia|lia]).
Qed.

(** The character after the sign. *)
Lemma numeral_head m s base pre body rest b ds :
  2 <= b <= 36 -> cstr m s (pre ++ body ++ rest) -> radix base pre (body ++ rest) b ->
  Forall2 (fun c d => strtox_digit b c = Some d) body ds -> body <> [] ->
  exists x l, pre ++ body ++ rest = x :: l /\ isspace x = false /\ x <> 43 /\ x <> 45.
Proof.
  intros Hb Hs Hr Hds Hne. destruct pre as [|x pre].
  - destruct body as [|c body]; [done|]. apply Forall2_cons_inv_l in Hds as (d & ds' & Hd & _ & ->).
    cbn [app cstr] in Hs. destruct Hs as (_ & Hc & _). eexists _, _. split; [done|].
    eapply digit_not_space; [done|lia|done].
  - assert (x = 48) as -> by (by inversion Hr). eexists _, _. by split.
Qed.

Lemma sign_spec m s sg positive l x l' :
  cstr m s (sg ++ l) -> sign sg positive ->
  l = x :: l' -> isspace x = false /\ x <> 43 /\ x <> 45 ->
  (if m s =? 43 then (true, s + 1) else if m s =? 45 then (false, s + 1) else (true, s))
  = (positive, s + Z.of_nat (length sg)) /\
  match sg ++ l with [] => True | c :: _ => isspace c = false end.
Proof.
  intros Hs Hsg -> (? & ? & ?). destruct Hsg; cbn [app length cstr] in *; destruct Hs as (-> & _ & _);
    [|done..]. rewrite (proj2 (Z.eqb_neq x 43)), (proj2 (Z.eqb_neq x 45)), Z.add_0_r by done. done.
Qed.

Lemma strtox_value unsigned intmin intmax fuel m p base positive b ds e :
  numeral_at m p base positive b ds e -> (Z.to_nat (e - p) < fuel)%nat ->
  0 <= intmax < 2 ^ 64 -> (unsigned = false -> - 2 ^ 63 <= intmin < 0) ->
  let limit := if unsigned then intmax else if positive then intmax else - intmin in
  let v := numeral b ds in
  exists absval,
    strtox unsigned intmin intmax fuel m p base
      = Some (if unsigned then absval else s64 absval, Some e) /\
    absval = if limit <? v then if negb unsigned && negb positive then u64 intmin else intmax
             else if positive then v else u64 (- v).
Proof.
  intros [(sp & sg & pre & body & rest & Hs & Hsp & Hsg & Hr & Hds & Hne & Hrest & He)] Hf Hmax Hmin limit v.
  assert (Hbase : (base =? 0) || ((2 <=? base) && (base <=? 36)) = true).
  { clear -Hr. destruct Hr as [x l [Hb|Hb] Hx|l Hb Hn|l Hb Hn|c l Hb Hc|l Hb Hn]; try by rewrite Hb.
    apply orb_true_iff. right. apply andb_true_intro. split; apply Z.leb_le; lia. }
  pose proof Hs as Hs0. apply cstr_app in Hs0 as (_ & _ & Hs0).
  remember (p + Z.of_nat (length sp)) as s0 eqn:E0.
  pose proof Hs0 as Hs1. apply cstr_app in Hs1 as (Hb1 & _ & Hs1).
  destruct (strtox_prefix_spec m p _ base pre (body ++ rest) b Hs1 Hr) as [Hpre Hb].
  pose proof Hs1 as Hs2. apply cstr_app in Hs2 as (_ & _ & Hs2).
  destruct (numeral_head m _ base pre body rest b ds Hb Hs1 Hr Hds Hne) as (x & l & El & Hx).
  destruct (sign_spec m s0 sg positive (pre ++ body ++ rest) x l Hs0 Hsg El Hx) as [Hsign Hnosp].
  unfold strtox. rewrite Hbase. cbn [negb].
  rewrite (skip_spaces m p sp (sg ++ pre ++ body ++ rest)) by (done || lia).
  cbn [mbind option_bind]. rewrite <- E0, Hsign, Hpre.
  set (limit' := if unsigned then intmax else if positive then intmax else u64 (- u64 intmin)).
  assert (Elim : limit' = limit).
  { unfold limit', limit. destruct unsigned, positive; [done..|]. specialize (Hmin eq_refl).
    unfold wrap. rewrite Zminus_mod_idemp_r with (a := 0). rewrite Z.mod_small; lia. }
  assert (Hlim : 0 <= limit < 2 ^ 64).
  { unfold limit. destruct unsigned, positive; try lia; specialize (Hmin eq_refl); lia. }
  rewrite Elim. edestruct (strtox_digits_spec fuel m) as (a & o & -> & Hi);
    [exact Hb|exact Hlim|exact Hs2|exact Hds|exact Hrest|lia|exact (conj eq_refl (conj (Z.le_refl 0) (proj1 Hlim)) : digits_inv limit b [] 0 false)|].
  cbn [mbind option_bind]. eexists. split.
  { do 3 f_equal. destruct body; [done|]. subst e. lia. }
  rewrite app_nil_l in Hi. unfold digits_inv in Hi. fold v in Hi. destruct o.
  - rewrite (proj2 (Z.ltb_lt _ _)) by done. destruct unsigned, positive; simpl; wsimpl; done.
  - destruct Hi as [-> Hv]. fold v in Hv |- *. rewrite (proj2 (Z.ltb_ge _ _)) by lia. by destruct positive.
Qed.

Lemma numeral_nonneg b ds : 0 <= b -> Forall (fun d => 0 <= d) ds -> 0 <= numeral b ds.
Proof.
  intros Hb. induction ds as [|d ds IH] using rev_ind; [done|].
  rewrite Forall_app, Forall_singleton, numeral_snoc. intros [? ?]. specialize (IH ltac:(done)). nia.
Qed.

Lemma numeral_at_nonneg m p base positive b ds e :
  numeral_at m p base positive b ds e -> 0 <= numeral b ds.
Proof.
  intros [(sp & sg & pre & body & rest & Hs & _ & _ & Hr & Hds & _)].
  assert (Hb : 2 <= b <= 36). { do 2 (apply cstr_app in Hs as (_ & _ & Hs)). eapply (strtox_prefix_spec m 0); eauto. }
  apply numeral_nonneg; [lia|]. clear -Hb Hds. induction Hds; constructor; [|done].
  eapply strtox_digit_range; [|done]. done.
Qed.

Lemma strtoul_value fuel m p base positive b ds e :
  numeral_at m p base positive b ds e -> (Z.to_nat (e - p) < fuel)%nat ->
  strtoul fuel m p base
  = Some (if ULONG_MAX <? numeral b ds then ULONG_MAX
          else if positive then numeral b ds else u64 (- numeral b ds), Some e).
Proof.
  intros H Hf. destruct (strtox_value true 0 ULONG_MAX fuel m p base positive b ds e)
    as (a & E & Ha); [done..| |]; [unfold ULONG_MAX; lia|]. unfold strtoul. rewrite E, Ha. done.
Qed.

(** [strtol] on a well-formed numeral (white space, optional sign, radix prefix
    as the [base] argument allows, digits of that radix) returns the value of the
    numeral, saturated at [LONG_MIN] and [LONG_MAX], and stores the position after
    the last digit in [*endptr]; no intermediate product overflows unnoticed. *)
Theorem strtol_value fuel m p base positive b ds e :
  numeral_at m p base positive b ds e -> (Z.to_nat (e - p) < fuel)%nat ->
  let v := if positive then numeral b ds else - numeral b ds in
  strtol fuel m p base = Some (Z.max LONG_MIN (Z.min LONG_MAX v), Some e).
Proof.
  intros H Hf v. pose proof (numeral_at_nonneg _ _ _ _ _ _ _ H) as Hv.
  destruct (strtox_value false LONG_MIN LONG_MAX fuel m p base positive b ds e)
    as (a & E & Ha); [done..| | |]; [unfold LONG_MAX; lia|unfold LONG_MIN, LONG_MAX; lia|].
  unfold strtol. rewrite E. do 2 f_equal. rewrite Ha. unfold v, LONG_MIN, LONG_MAX in *. clear E Ha v H.
  assert (Hs : forall x, 0 <= x < 2 ^ 63 -> s64 x = x).
  { intros x Hx. unfold swrap. rewrite Z.mod_small by lia. rewrite (proj2 (Z.ltb_lt _ _)); lia. }
  assert (Hn : forall x, 0 < x <= 2 ^ 63 -> s64 (u64 (- x)) = - x).
  { intros x Hx. unfold swrap, wrap. rewrite Z.mod_mod by lia.
    replace ((- x) mod 2 ^ 64) with (2 ^ 64 - x) by (apply (Z.mod_unique_pos _ _ (-1)); lia).
    rewrite (proj2 (Z.ltb_ge _ _)); lia. }
  destruct positive; simpl negb; cbn [andb]; bcase.
  - rewrite Hs; lia.
  - rewrite Hs; lia.
  - change (- (9223372036854775807) - 1) with (- 2 ^ 63). rewrite Hn; lia.
  - destruct (decide (numeral b ds = 0)) as [->|]; [done|]. rewrite Hn; lia.
Qed.

(** ["  -0x1f;"] is -31 in automatic radix. *)
Lemma strtol_value_witness :
  strtol 20 (with_string 100 [32; 32; 45; 48; 120; 49; 102; 59] (fun _ => 0)) 100 0
  = Some (-31, Some 107).
Proof.
  rewrite (strtol_value 20 _ 100 0 false 16 [1; 15] 107); [reflexivity| |simpl; lia].
  constructor. exists [32; 32], [45], [48; 120], [49; 102], [59].
  split_and!; try reflexivity; try (repeat constructor; fail).
  vm_compute. intuition congruence.
Defined.
