(* ===== verification/Printf.v ===== *)
(** * Formatted output of the firmware
      (fw/tinyprintf/tinyprintf.c and the printf family of fw/nanolibc/c/stdio.c)

    A format string is the list of its characters; reading past its end gives the
    terminator. The variable arguments are a list of [arg]s: an integer, read with
    the width the conversion asks for, or a string without its terminator. The
    output callback is a parameter [putf] on a state type, as in the source, and
    stdio.c's callbacks are instances. [struct param] starts with arbitrary
    contents [p0], since the source does not initialise [uc] and [base].

    The number buffer of the source has 23 bytes; [utoa_spec] shows that every
    conversion stays below that. [tfp_format_total] shows that the fuel, one more
    than the length of the format, is enough. *)

From S2P Require Import Prelude CMem CStr Strtox.

Record param := mkParam {
  lz : bool;
  alt : bool;
  uc : bool;
  align_left : bool;
  width : Z;
  psign : Z;
  pbase : Z;
  bf : list Z;
}.

(** ** Numbers to digits *)

(** The second loop of a conversion, on [n], [num], [d] and the characters
    written. *)
Definition digit_left : Z * Z * Z * list Z -> bool := fun '(_, _, d, _) => negb (d =? 0).
Definition emit_digit (base : Z) (uc : bool) : Z * Z * Z * list Z -> Z * Z * Z * list Z :=
  fun '(n, num, d, bf) =>
    let dgt := num / d in
    let num := num mod d in
    let d := d / base in
    if negb (n =? 0) || (0 <? dgt) || (d =? 0) then
      (n + 1, num, d, bf ++ [u8 (dgt + (if dgt <? 10 then 48 else (if uc then 65 else 97) - 10))])
    else (n, num, d, bf).

(** [ulli2a], [uli2a] and [ui2a] differ in the width of [num]: 64, 64 and 32 bits.
    The division loop runs at most once per bit. *)
Definition utoa (w num base : Z) (uc : bool) : option (list Z) :=
  let fuel := S (Z.to_nat w) in
  d ← while fuel (fun d => base <=? num / d) (fun d => wrap w (d * base)) 1;
  r ← while fuel digit_left (emit_digit base uc) (0, num, d, []);
  Some r.2.

Definition set_bf (l : list Z) (p : param) : param :=
  mkParam (lz p) (alt p) (uc p) (align_left p) (width p) (psign p) (pbase p) l.
Definition set_sign (c : Z) (p : param) : param :=
  mkParam (lz p) (alt p) (uc p) (align_left p) (width p) c (pbase p) (bf p).

Definition ulli2a (num : Z) (p : param) : option param :=
  l ← utoa 64 num (pbase p) (uc p); Some (set_bf l p).
Definition uli2a (num : Z) (p : param) : option param :=
  l ← utoa 64 num (pbase p) (uc p); Some (set_bf l p).
Definition ui2a (num : Z) (p : param) : option param :=
  l ← utoa 32 num (pbase p) (uc p); Some (set_bf l p).
(** Negation wraps at the width, which makes the most negative value come out
    right once it is read as unsigned. *)
Definition lli2a (num : Z) (p : param) : option param :=
  if num <? 0 then ulli2a (u64 (s64 (- num))) (set_sign 45 p) else ulli2a (u64 num) p.
Definition li2a (num : Z) (p : param) : option param :=
  if num <? 0 then uli2a (u64 (s64 (- num))) (set_sign 45 p) else uli2a (u64 num) p.
Definition i2a (num : Z) (p : param) : option param :=
  if num <? 0 then ui2a (u32 (s32 (- num))) (set_sign 45 p) else ui2a (u32 num) p.

Definition a2d (ch : Z) : Z :=
  if (48 <=? ch) && (ch <=? 57) then ch - 48
  else if (97 <=? ch) && (ch <=? 102) then ch - 97 + 10
  else if (65 <=? ch) && (ch <=? 70) then ch - 65 + 10
  else -1.

(** [ch = *p++] on the characters that are left. *)
Definition next (l : list Z) : Z * list Z := match l with [] => (0, []) | c :: l' => (c, l') end.

(** The character after the number, the rest of the source and the number. *)
Fixpoint a2u (base num ch : Z) (src : list Z) : Z * list Z * Z :=
  if (0 <=? a2d ch) && negb (base <? a2d ch) then
    match src with
    | [] => (0, [], u32 (num * base + a2d ch))
    | c :: src' => a2u base (u32 (num * base + a2d ch)) c src'
    end
  else (ch, src, num).

(** ** Fields *)

Section format.
Context {P : Type} (putf : P -> Z -> P).

Definition put_n (n c : Z) (o : P) : P := foldl putf o (replicate (Z.to_nat n) c).
Definition put_all (l : list Z) (o : P) : P := foldl putf o l.

(** [while ( *bf++ && n > 0) n--] *)
Fixpoint shrink (bf : list Z) (n : Z) : Z :=
  match bf with [] => n | _ :: bf' => if 0 <? n then shrink bf' (n - 1) else n end.

(** The number of filling characters. *)
Definition fill_count (p : param) : Z :=
  let n := shrink (bf p) (s32 (width p)) in
  let n := if negb (psign p =? 0) then s32 (n - 1) else n in
  if alt p && (pbase p =? 16) then s32 (n - 2) else if alt p && (pbase p =? 8) then s32 (n - 1) else n.

Definition putchw (p : param) (o : P) : P :=
  let n := fill_count p in
  let o := if negb (lz p) && negb (align_left p) then put_n n 32 o else o in
  let o := if negb (psign p =? 0) then putf o (psign p) else o in
  let o := if alt p && (pbase p =? 16) then putf (putf o 48) (if uc p then 88 else 120)
           else if alt p && (pbase p =? 8) then putf o 48 else o in
  let o := if lz p then put_n n 48 o else o in
  let o := put_all (bf p) o in
  if negb (lz p) && align_left p then put_n n 32 o else o.

(** ** Format specifications *)

(** The flag loop, with the character it stops at. *)
Fixpoint parse_flags (fmt : list Z) (p : param) : Z * list Z * param :=
  match fmt with
  | [] => (0, [], p)
  | ch :: fmt' =>
      if ch =? 45 then parse_flags fmt' (mkParam (lz p) (alt p) (uc p) true (width p) (psign p) (pbase p) (bf p))
      else if ch =? 48 then
        parse_flags fmt' (mkParam true (alt p) (uc p) (align_left p) (width p) (psign p) (pbase p) (bf p))
      else if ch =? 35 then
        parse_flags fmt' (mkParam (lz p) true (uc p) (align_left p) (width p) (psign p) (pbase p) (bf p))
      else (ch, fmt', p)
  end.

(** [do ch = *(fmt++); while (ch is a digit)] *)
Fixpoint skip_digits (fmt : list Z) : Z * list Z :=
  match fmt with
  | [] => (0, [])
  | ch :: fmt' => if (48 <=? ch) && (ch <=? 57) then skip_digits fmt' else (ch, fmt')
  end.

(** Everything between the [%] and the conversion character: the parameters, the
    length modifier (0, 1 for long, 2 for long long) and the conversion. *)
Definition parse_spec (fmt : list Z) (p : param) : param * Z * Z * list Z :=
  let p := mkParam false false (uc p) false 0 0 (pbase p) (bf p) in
  let '(ch, fmt, p) := parse_flags fmt p in
  let '(ch, fmt, p) :=
    if (48 <=? ch) && (ch <=? 57) then
      let '(ch, fmt, w) := a2u 10 0 ch fmt in
      (ch, fmt, mkParam (lz p) (alt p) (uc p) (align_left p) w (psign p) (pbase p) (bf p))
    else (ch, fmt, p) in
  let '(ch, fmt, p) :=
    if ch =? 46 then
      let '(ch, fmt) := skip_digits fmt in
      (ch, fmt, mkParam true (alt p) (uc p) (align_left p) (width p) (psign p) (pbase p) (bf p))
    else (ch, fmt, p) in
  if ch =? 122 then let '(ch, fmt) := next fmt in (p, 1, ch, fmt)
  else if ch =? 108 then
    let '(ch, fmt) := next fmt in
    if ch =? 108 then let '(ch, fmt) := next fmt in (p, 2, ch, fmt) else (p, 1, ch, fmt)
  else (p, 0, ch, fmt).

Inductive arg := AInt (v : Z) | AStr (s : list Z).
Definition va_int (va : list arg) : option (Z * list arg) :=
  match va with AInt v :: va' => Some (v, va') | _ => None end.
Definition va_str (va : list arg) : option (list Z * list arg) :=
  match va with AStr s :: va' => Some (s, va') | _ => None end.

(** How a call ends: with the output state, at an argument of the wrong kind
    (undefined in C), or out of fuel. *)
Inductive fmt_result := FmtDone (o : P) | FmtBadArg | FmtNoFuel.

Definition with_base (b : Z) (p : param) : param :=
  mkParam (lz p) (alt p) (uc p) (align_left p) (width p) (psign p) b (bf p).

(** One conversion: the parameters it leaves, the output and the arguments left.
    [None] stands for a bad argument. *)
Definition convert (p : param) (lng ch : Z) (o : P) (va : list arg) : option (param * P * list arg) :=
  let number (to : Z -> param -> option param) (read : Z -> Z) (p : param) :=
    v ← va_int va;
    p ← to (read v.1) p;
    Some (p, putchw p o, v.2) in
  if ch =? 117 then
    let p := with_base 10 p in
    if lng =? 2 then number ulli2a u64 p else if lng =? 1 then number uli2a u64 p else number ui2a u32 p
  else if (ch =? 100) || (ch =? 105) then
    let p := with_base 10 p in
    if lng =? 2 then number lli2a s64 p else if lng =? 1 then number li2a s64 p else number i2a s32 p
  else if (ch =? 112) || (ch =? 120) || (ch =? 88) then
    let alt' := if ch =? 112 then true else alt p in
    let lng := if ch =? 112 then 1 else lng in
    let p := mkParam (lz p) alt' (ch =? 88) (align_left p) (width p) (psign p) 16 (bf p) in
    if lng =? 2 then number ulli2a u64 p else if lng =? 1 then number uli2a u64 p else number ui2a u32 p
  else if ch =? 111 then number ui2a u32 (with_base 8 p)
  else if ch =? 99 then v ← va_int va; Some (p, putf o (u8 (s32 v.1)), v.2)
  else if ch =? 115 then
    v ← va_str va; Some (p, putchw (set_bf v.1 p) o, v.2)
  else if ch =? 37 then Some (p, putf o ch, va)
  else Some (p, o, va).

Fixpoint format_from (fuel : nat) (p : param) (fmt : list Z) (va : list arg) (o : P) : fmt_result :=
  match fuel with
  | O => FmtNoFuel
  | S f =>
      match fmt with
      | [] => FmtDone o
      | ch :: fmt =>
          if negb (ch =? 37) then format_from f p fmt va (putf o ch) else
          let '(p, lng, ch, fmt) := parse_spec fmt p in
          if ch =? 0 then FmtDone o else
          match convert p lng ch o va with
          | None => FmtBadArg
          | Some (p, o, va) => format_from f p fmt va o
          end
      end
  end.

Definition tfp_format (p0 : param) (o : P) (fmt : list Z) (va : list arg) : fmt_result :=
  format_from (S (length fmt)) p0 fmt va o.
End format.
Arguments fmt_result : clear implicits.

(** ** The digits of a number *)

Definition digit_char (uc : bool) (d : Z) : Z :=
  if d <? 10 then d + 48 else d + (if uc then 65 else 97) - 10.

Lemma numeral_cons b d ds : numeral b (d :: ds) = d * b ^ Z.of_nat (length ds) + numeral b ds.
Proof.
  unfold numeral. simpl. change (0 * b + d) with d.
  enough (H : forall v, foldl (fun v d => v * b + d) v ds
    = v * b ^ Z.of_nat (length ds) + foldl (fun v d => v * b + d) 0 ds) by apply H.
  induction ds as [|x ds IH] using rev_ind; intros v; [simpl; lia|].
  rewrite !foldl_app, length_app. cbn [foldl length]. rewrite IH.
  replace (Z.of_nat (length ds + 1)) with (Z.of_nat (length ds) + 1) by lia.
  rewrite Z.pow_add_r, Z.pow_1_r by lia. lia.
Qed.

(** The emitting loop from [d = base^k]. *)
Lemma emit_digits base (uc : bool) (k : nat) n num bf fuel :
  2 <= base <= 16 -> 0 <= n -> 0 <= num < base ^ Z.of_nat (S k) ->
  n <> 0 \/ base ^ Z.of_nat k <= num \/ k = 0%nat -> (S k < fuel)%nat ->
  exists ds r,
    while fuel digit_left (emit_digit base uc) (n, num, base ^ Z.of_nat k, bf)
    = Some (r, bf ++ (digit_char uc <$> ds)) /\
    length ds = S k /\ Forall (fun d => 0 <= d < base) ds /\ numeral base ds = num.
Proof.
  intros Hb. revert n num bf fuel.
  induction k as [|k IH]; intros n num bf [|fuel] Hn Hnum Hfirst Hf; try lia.
  - rewrite Z.pow_1_r in Hnum. unfold while. cbn [loop digit_left emit_digit]. change (base ^ Z.of_nat 0) with 1.
    rewrite Z.div_1_r, Z.mod_1_r, (Z.div_small 1 base) by lia. cbn [Z.eqb negb orb]. rewrite orb_true_r.
    destruct fuel as [|fuel]; [lia|]. cbn [loop digit_left Z.eqb negb]. exists [num], (n + 1, 0, 0).
    split_and!; [|done|by repeat constructor; lia|done]. do 4 f_equal. cbn [fmap list_fmap]. f_equal.
    unfold digit_char. destruct (num <? 10) eqn:E, uc; bprop; rewrite wrap_small by lia; lia.
  - set (D := base ^ Z.of_nat (S k)) in *.
    assert (HD : D = base * base ^ Z.of_nat k).
    { unfold D. replace (Z.of_nat (S k)) with (Z.of_nat k + 1) by lia. rewrite Z.pow_add_r, Z.pow_1_r by lia. lia. }
    assert (Hpos : 0 < base ^ Z.of_nat k) by lia.
    assert (HSS : base ^ Z.of_nat (S (S k)) = base * D).
    { replace (Z.of_nat (S (S k))) with (1 + Z.of_nat (S k)) by lia. rewrite Z.pow_add_r by lia. unfold D. lia. }
    pose proof (Z.div_mod num D ltac:(lia)) as Hdm. pose proof (Z.mod_pos_bound num D ltac:(lia)) as Hmod.
    assert (Hdgt : 0 <= num / D < base) by nia.
    unfold while in *. cbn [loop digit_left emit_digit]. rewrite (proj2 (Z.eqb_neq D 0)) by lia. cbn [negb].
    assert (HDk : D / base = base ^ Z.of_nat k) by (rewrite HD, Z.mul_comm; apply Z.div_mul; lia).
    rewrite HDk. rewrite (proj2 (Z.eqb_neq (base ^ Z.of_nat k) 0)) by lia. rewrite orb_false_r.
    replace (negb (n =? 0) || (0 <? num / D)) with true.
    2:{ symmetry. apply orb_true_iff. destruct Hfirst as [H|[H|H]]; [left|right|lia].
        - by apply negb_true_iff, Z.eqb_neq.
        - apply Z.ltb_lt. nia. }
    destruct (IH (n + 1) (num mod D) (bf ++ [u8 (num / D + (if num / D <? 10 then 48 else (if uc then 65 else 97) - 10))]) fuel)
      as (ds & r & E & Hlen & Hall & Hval); [lia|done|lia|lia|].
    rewrite E. exists (num / D :: ds), r. split_and!.
    + rewrite <- app_assoc. do 3 f_equal. cbn [fmap list_fmap app]. f_equal. unfold digit_char.
      destruct (num / D <? 10) eqn:E10, uc; bprop; rewrite wrap_small by lia; lia.
    + simpl. lia.
    + by constructor.
    + rewrite numeral_cons, Hval, Hlen. fold D. lia.
Qed.

(** [utoa] writes the canonical numeral: at most [w] digits, no leading zero. *)
Lemma utoa_spec w num base (uc : bool) :
  0 < w -> 2 <= base <= 16 -> 0 <= num < 2 ^ w ->
  exists ds, utoa w num base uc = Some (digit_char uc <$> ds) /\
    ds <> [] /\ Forall (fun d => 0 <= d < base) ds /\ numeral base ds = num /\
    (length ds = 1%nat \/ base ^ Z.of_nat (length ds - 1) <= num).
Proof.
  intros Hw Hb Hnum. unfold utoa.
  destruct (while_rule (fun d => exists k : nat, d = base ^ Z.of_nat k /\ (k = 0%nat \/ d <= num))
    (fun d => Z.to_nat (w - Z.log2 d)) (S (Z.to_nat w))
    (fun d => base <=? num / d) (fun d => wrap w (d * base)) 1) as (d & -> & (k & -> & Hk) & Hc).
  - intros d (k & -> & Hk) Hc. bprop.
    assert (Hpos : 0 < base ^ Z.of_nat k) by lia.
    pose proof (Z.mul_div_le num (base ^ Z.of_nat k) Hpos) as Hle.
    assert (Hnext : base ^ Z.of_nat k * base <= num) by nia.
    rewrite wrap_small by nia. split.
    + exists (S k). replace (Z.of_nat (S k)) with (Z.of_nat k + 1) by lia.
      rewrite Z.pow_add_r, Z.pow_1_r by lia. split; [done|lia].
    + assert (Z.log2 (base ^ Z.of_nat k) + 1 <= Z.log2 (base ^ Z.of_nat k * base)).
      { rewrite Z.add_1_r, <- Z.log2_double by lia. apply Z.log2_le_mono. nia. }
      assert (Z.log2 (base ^ Z.of_nat k * base) < w) by (apply Z.log2_lt_pow2; nia).
      pose proof (Z.log2_nonneg (base ^ Z.of_nat k)). lia.
  - by exists 0%nat; auto.
  - simpl. lia.
  - bprop. cbn [mbind option_bind].
    assert (Hpos : 0 < base ^ Z.of_nat k) by lia.
    assert (Hlt : num < base ^ Z.of_nat (S k)).
    { replace (Z.of_nat (S k)) with (Z.of_nat k + 1) by lia. rewrite Z.pow_add_r, Z.pow_1_r by lia.
      pose proof (Z.mul_succ_div_gt num (base ^ Z.of_nat k) Hpos). nia. }
    assert (Hkw : (k < Z.to_nat w)%nat).
    { destruct Hk as [->|Hk]; [lia|]. assert (2 ^ Z.of_nat k <= base ^ Z.of_nat k) by (apply Z.pow_le_mono_l; lia).
      assert (Z.of_nat k < w); [|lia]. apply (Z.pow_lt_mono_r_iff 2); lia. }
    destruct (emit_digits base uc k 0 num [] (S (Z.to_nat w))) as (ds & r & E & Hlen & Hall & Hval);
      [done|lia|lia|tauto|lia|].
    rewrite E. cbn [mbind option_bind]. exists ds. split_and!; [done| |done|done|].
    + by destruct ds.
    + destruct Hk as [->|Hk]; [by left|right]. rewrite Hlen. by replace (S k - 1)%nat with k by lia.
Qed.

(** ** Output callbacks

    The formatter only ever passes its output state to the callback: mapping the
    state commutes with it. *)
Definition fmt_map {P Q} (h : P -> Q) (r : fmt_result P) : fmt_result Q :=
  match r with FmtDone o => FmtDone (h o) | FmtBadArg => FmtBadArg | FmtNoFuel => FmtNoFuel end.

Section output_map.
Context {P Q : Type} (putf : P -> Z -> P) (putg : Q -> Z -> Q) (h : P -> Q).
Hypothesis Hh : forall o c, h (putf o c) = putg (h o) c.

Lemma put_all_map l o : h (put_all putf l o) = put_all putg l (h o).
Proof. unfold put_all. revert o. induction l as [|c l IH]; intros o; simpl; [done|]. by rewrite IH, Hh. Qed.

Lemma putchw_map p o : h (putchw putf p o) = putchw putg p (h o).
Proof.
  unfold putchw, put_n. fold (put_all putf) (put_all putg).
  change (foldl putf) with (fun o l => put_all putf l o). change (foldl putg) with (fun o l => put_all putg l o).
  cbv beta. repeat first [rewrite put_all_map | rewrite Hh | case_match]; done.
Qed.

Lemma convert_map p lng ch o va :
  convert putg p lng ch (h o) va
  = (fun r => (r.1.1, h r.1.2, r.2)) <$> convert putf p lng ch o va.
Proof.
  assert (Hn : forall (to : Z -> param -> option param) (read : Z -> Z) (p : param),
    (v ← va_int va; p' ← to (read v.1) p; Some (p', putchw putg p' (h o), v.2))
    = (fun r : param * P * list arg => (r.1.1, h r.1.2, r.2)) <$>
      (v ← va_int va; p' ← to (read v.1) p; Some (p', putchw putf p' o, v.2))).
  { intros to read p'. destruct (va_int va) as [[v va']|]; [|done]. cbn [mbind option_bind fst snd].
    destruct (to (read v) p') as [p2|]; [|done]. simpl. by rewrite putchw_map. }
  unfold convert. repeat bcase; try apply Hn.
  - destruct (va_int va) as [[v va']|]; [|done]. simpl. by rewrite Hh.
  - destruct (va_str va) as [[v va']|]; [|done]. simpl. by rewrite putchw_map.
  - simpl. by rewrite Hh.
  - done.
Qed.

Lemma format_map fuel p fmt va o :
  format_from putg fuel p fmt va (h o) = fmt_map h (format_from putf fuel p fmt va o).
Proof.
  revert p fmt va o. induction fuel as [|f IH]; intros p [|ch fmt] va o; simpl; [done..|].
  destruct (negb (ch =? 37)); [by rewrite <- Hh|].
  destruct (parse_spec fmt p) as [[[p' lng] ch'] fmt']. destruct (ch' =? 0); [done|].
  rewrite convert_map. destruct (convert putf p' lng ch' o va) as [[[p2 o2] va2]|]; [|done].
  simpl. apply IH.
Qed.
End output_map.

(** The characters a call prints, and any callback run on them. *)
Definition snoc (l : list Z) (c : Z) : list Z := l ++ [c].
Definition rendered (p0 : param) (fmt : list Z) (va : list arg) : fmt_result (list Z) :=
  tfp_format snoc p0 [] fmt va.

Lemma format_foldl {P} (putf : P -> Z -> P) p0 o fmt va :
  tfp_format putf p0 o fmt va = fmt_map (foldl putf o) (rendered p0 fmt va).
Proof.
  unfold rendered, tfp_format. rewrite <- (format_map snoc putf (foldl putf o)); [done|].
  intros l c. unfold snoc. by rewrite foldl_app.
Qed.

(** ** Termination *)

Lemma parse_flags_length fmt p : (length (parse_flags fmt p).1.2 <= length fmt)%nat.
Proof.
  revert p. induction fmt as [|c fmt IH]; intros p; simpl; [done|].
  repeat case_match; simpl; try (rewrite IH; lia). lia.
Qed.

Lemma a2u_length base num ch src : (length (a2u base num ch src).1.2 <= length src)%nat.
Proof.
  revert num ch. induction src as [|c src IH]; intros num ch; simpl; case_match; simpl; try lia.
  rewrite IH. lia.
Qed.

Lemma skip_digits_length fmt : (length (skip_digits fmt).2 <= length fmt)%nat.
Proof. induction fmt as [|c fmt IH]; simpl; [done|]. case_match; simpl; lia. Qed.

Lemma next_length l : (length (next l).2 <= length l)%nat.
Proof. destruct l; simpl; lia. Qed.

Lemma parse_spec_length fmt p : (length (parse_spec fmt p).2 <= length fmt)%nat.
Proof.
  unfold parse_spec. set (p1 := mkParam _ _ _ _ _ _ _ _).
  pose proof (parse_flags_length fmt p1) as H1. destruct (parse_flags fmt p1) as [[ch f1] p2]. simpl in H1.
  destruct (if (48 <=? ch) && (ch <=? 57) then _ else _) as [[ch2 f2] p3] eqn:E2.
  assert (H2 : (length f2 <= length f1)%nat).
  { destruct ((48 <=? ch) && (ch <=? 57)); [|by simplify_eq].
    pose proof (a2u_length 10 0 ch f1) as H2. destruct (a2u 10 0 ch f1) as [[? ?] ?]. by simplify_eq. }
  destruct (if ch2 =? 46 then _ else _) as [[ch3 f3] p4] eqn:E3.
  assert (H3 : (length f3 <= length f2)%nat).
  { destruct (ch2 =? 46); [|by simplify_eq].
    pose proof (skip_digits_length f2) as H3. destruct (skip_digits f2) as [? ?]. by simplify_eq. }
  pose proof (next_length f3) as H4. repeat case_match; simplify_eq; simpl in *; try lia.
  all: match goal with H : next ?l = (_, ?l') |- _ => pose proof (next_length l); rewrite H in *; simpl in * end.
  all: lia.
Qed.

(** The fuel of [tfp_format] never runs out. *)
Lemma tfp_format_total {P} (putf : P -> Z -> P) p0 o fmt va : tfp_format putf p0 o fmt va <> FmtNoFuel.
Proof.
  unfold tfp_format. assert (Hf : (length fmt < S (length fmt))%nat) by lia. revert Hf.
  generalize (S (length fmt)) as fuel. intros fuel. revert p0 fmt va o.
  induction fuel as [|f IH]; intros p0 [|ch fmt] va o Hf; simpl in *; try lia; [done|].
  case_match; [apply IH; lia|]. pose proof (parse_spec_length fmt p0) as Hl.
  destruct (parse_spec fmt p0) as [[[p lng] ch'] fmt']. simpl in Hl. case_match; [done|].
  destruct (convert putf p lng ch' o va) as [[[p2 o2] va2]|]; [|done]. apply IH. lia.
Qed.

(** ** stdio.c: buffered output to a stream *)

(** [struct _vprintf_putcf_data] with the calls of [stream->write] so far; the
    number of buffered characters is the length of [vp_buff]. *)
Record vprintf_data := mkVp {
  vp_buff : list Z;
  vp_calls : list (list Z);
  vp_total : Z;
  vp_aborted : bool;
}.

Definition buff_capacity : Z := 64.

Section vfprintf.
(** What the [i]-th call of [stream->write] returns; it is read as an [int]. *)
Context (write : nat -> list Z -> Z).

(** [n = write(buff, nbuffered); if (n > 0) total_written += n; nbuffered = 0] *)
Definition vp_flush (d : vprintf_data) : vprintf_data :=
  let n := s32 (write (length (vp_calls d)) (vp_buff d)) in
  mkVp [] (vp_calls d ++ [vp_buff d]) (if 0 <? n then vp_total d +% n else vp_total d) (vp_aborted d).

Definition _vprintf_putcf (d : vprintf_data) (c : Z) : vprintf_data :=
  if vp_aborted d then d
  else if buff_capacity <=? Z.of_nat (length (vp_buff d)) then
    mkVp (vp_buff d) (vp_calls d) (vp_total d) true
  else
    let d := mkVp (vp_buff d ++ [c]) (vp_calls d) (vp_total d) (vp_aborted d) in
    if buff_capacity <=? Z.of_nat (length (vp_buff d)) then vp_flush d else d.

(** [valid] is [_is_valid_FILE(stream) && stream->write]. *)
Definition vfprintf (valid : bool) (p0 : param) (fmt : list Z) (va : list arg)
    : fmt_result (Z * vprintf_data) :=
  let d0 := mkVp [] [] 0 false in
  if negb valid then FmtDone (-1, d0) else
  match tfp_format _vprintf_putcf p0 d0 fmt va with
  | FmtDone d =>
      let d := if 0 <? Z.of_nat (length (vp_buff d)) then vp_flush d else d in
      FmtDone (s32 (vp_total d), d)
  | FmtBadArg => FmtBadArg
  | FmtNoFuel => FmtNoFuel
  end.

(** The positive results of the calls, added up. *)
Definition written (calls : list (list Z)) : Z :=
  foldr Z.add 0 (imap (fun i c => Z.max 0 (s32 (write i c))) calls).

Lemma written_snoc calls c : written (calls ++ [c]) = written calls + Z.max 0 (s32 (write (length calls) c)).
Proof.
  unfold written. rewrite imap_app, foldr_app. simpl. rewrite Nat.add_0_r, Z.add_0_r.
  induction (imap _ calls) as [|x l IH]; simpl; lia.
Qed.

Record vp_inv (out : list Z) (d : vprintf_data) : Prop := {
  vi_out : concat (vp_calls d) ++ vp_buff d = out;
  vi_buff : Z.of_nat (length (vp_buff d)) < buff_capacity;
  vi_calls : Forall (fun c => c <> [] /\ Z.of_nat (length c) <= buff_capacity) (vp_calls d);
  vi_total : vp_total d = u64 (written (vp_calls d));
  vi_ok : vp_aborted d = false;
}.

Lemma vp_flush_ok out d :
  concat (vp_calls d) ++ vp_buff d = out -> vp_buff d <> [] ->
  Z.of_nat (length (vp_buff d)) <= buff_capacity ->
  Forall (fun c => c <> [] /\ Z.of_nat (length c) <= buff_capacity) (vp_calls d) ->
  vp_total d = u64 (written (vp_calls d)) -> vp_aborted d = false ->
  vp_inv out (vp_flush d).
Proof.
  intros Ho Hne Hb Hc Ht Ha. constructor; simpl.
  - by rewrite concat_app, app_nil_r; simpl; rewrite app_nil_r.
  - done.
  - apply Forall_app. split; [done|]. by repeat constructor.
  - rewrite written_snoc. set (n := s32 _). destruct (0 <? n) eqn:E; bprop.
    + rewrite Ht, Z.max_r by lia. unfold wrap. by rewrite Zplus_mod_idemp_l.
    + by rewrite Ht, Z.max_l, Z.add_0_r by lia.
  - done.
Qed.

Lemma vp_putcf_ok out d c : vp_inv out d -> vp_inv (out ++ [c]) (_vprintf_putcf d c).
Proof.
  intros [Ho Hb Hc Ht Ha]. unfold _vprintf_putcf. rewrite Ha, (proj2 (Z.leb_gt _ _)) by done. simpl.
  rewrite length_app. simpl length. destruct (buff_capacity <=? _) eqn:E; bprop.
  - apply vp_flush_ok; simpl; [by rewrite app_assoc, Ho|by destruct (vp_buff d)| |done..].
    rewrite length_app. simpl. lia.
  - constructor; simpl; [by rewrite app_assoc, Ho| |done..]. rewrite length_app. simpl. lia.
Qed.
End vfprintf.

(** Stream output: the calls of the stream's write function that [vfprintf]
    makes carry, in order and without loss or duplication, exactly the characters
    the format renders; no call is empty or longer than the 64-byte buffer, the
    buffer sanity check never aborts, and the return value is the sum of what the
    successful calls reported. *)
Theorem vfprintf_stream write p0 fmt va out :
  rendered p0 fmt va = FmtDone out ->
  exists d, vfprintf write true p0 fmt va = FmtDone (s32 (u64 (written write (vp_calls d))), d) /\
    concat (vp_calls d) = out /\ vp_aborted d = false /\
    Forall (fun c => c <> [] /\ Z.of_nat (length c) <= buff_capacity) (vp_calls d).
Proof.
  intros Hr. unfold vfprintf. cbn [negb]. rewrite format_foldl, Hr. cbn [fmt_map].
  assert (Hi : vp_inv write out (foldl (_vprintf_putcf write) (mkVp [] [] 0 false) out)).
  { clear Hr. induction out as [|c out IH] using rev_ind; [by constructor|].
    rewrite foldl_app. simpl. by apply vp_putcf_ok. }
  set (d := foldl _ _ _) in *. clearbody d. destruct Hi as [Ho Hb Hc Ht Ha].
  destruct (0 <? Z.of_nat (length (vp_buff d))) eqn:E; bprop.
  - destruct (vp_flush_ok write out d) as [Ho' _ Hc' Ht' Ha']; [done| |lia|done..|].
    { intros Hn. rewrite Hn in E. done. }
    eexists. rewrite Ht'. split_and!; [done| |done..]. by rewrite app_nil_r in Ho'.
  - destruct (vp_buff d) eqn:Eb; [|done]. rewrite app_nil_r in Ho. exists d. rewrite Ht. by split_and!.
Qed.

(** ** stdio.c: output to a buffer *)

Definition _vsnprintf_putcf (dest dest_capacity : Z) : mem * Z -> Z -> mem * Z :=
  fun '(m, dest_used) c =>
    (if dest_used <? dest_capacity then store_byte m (dest + dest_used) c else m, dest_used +% 1).

Definition vsnprintf (m : mem) (str size : Z) (p0 : param) (fmt : list Z) (va : list arg)
    : fmt_result (mem * Z) :=
  match tfp_format (_vsnprintf_putcf str size) p0 (m, 0) fmt va with
  | FmtDone (m, dest_used) =>
      let m := if dest_used <? size then store_byte m (str + dest_used) 0
               else if 0 <? size then store_byte m (str + (size - 1)) 0 else m in
      FmtDone (m, s32 dest_used)
  | FmtBadArg => FmtBadArg
  | FmtNoFuel => FmtNoFuel
  end.

(** Memory with the first [n] characters of [l] at [p]. *)
Definition prefix_stored (m : mem) (p : Z) (l : list Z) (n : Z) (m' : mem) : Prop :=
  forall a, m' a = if (p <=? a) && (a <? p + n) then nth (Z.to_nat (a - p)) l 0 else m a.

Lemma vsn_prefix m str size out :
  0 <= size -> Z.of_nat (length out) < 2 ^ 64 ->
  exists m', foldl (_vsnprintf_putcf str size) (m, 0) out = (m', Z.of_nat (length out)) /\
    prefix_stored m str out (Z.min size (Z.of_nat (length out))) m'.
Proof.
  intros Hs. induction out as [|c out IH] using rev_ind; intros Hlen.
  - exists m. split; [done|]. intros a. bcase; [|done]. simpl in *. lia.
  - rewrite length_app in Hlen. simpl in Hlen. destruct IH as (m1 & E & H1); [lia|].
    rewrite foldl_app, E. cbn [foldl _vsnprintf_putcf]. rewrite length_app. cbn [length].
    rewrite wrap_small by lia. eexists. split; [f_equal; lia|]. intros a.
    destruct (Z.of_nat (length out) <? size) eqn:Eo; bprop.
    + unfold store_byte, store_bytes. cbn [length]. change (Z.of_nat 1) with 1. rewrite H1.
      repeat bcase; try done; bsplit; try lia;
        first [rewrite app_nth1 by lia; done
              |replace (Z.to_nat (a - (str + Z.of_nat (length out)))) with 0%nat by lia;
               replace (Z.to_nat (a - str)) with (length out + 0)%nat by lia; by rewrite app_nth2_plus].
    + rewrite H1. repeat bcase; try done; bsplit; try lia. rewrite app_nth1 by lia. done.
Qed.

(** [vsnprintf(str, size, ...)] writes the first [size - 1] characters the
    format renders followed by a terminator, or all of them when they fit, changes
    no byte outside [str, str + size), writes nothing when [size] is zero, and
    returns the length of the whole output. *)
Theorem vsnprintf_bounded m str size p0 fmt va out :
  rendered p0 fmt va = FmtDone out -> fits 64 size -> Z.of_nat (length out) < 2 ^ 64 ->
  let n := Z.max 0 (Z.min (size - 1) (Z.of_nat (length out))) in
  exists m', vsnprintf m str size p0 fmt va = FmtDone (m', s32 (Z.of_nat (length out))) /\
    forall a, m' a =
      if (str <=? a) && (a <? str + n) then nth (Z.to_nat (a - str)) out 0
      else if (a =? str + n) && (0 <? size) then 0
      else m a.
Proof.
  intros Hr Hs Hlen n. unfold vsnprintf. rewrite format_foldl, Hr. cbn [fmt_map]. unfold fits in Hs.
  destruct (vsn_prefix m str size out) as (m1 & -> & H1); [lia..|].
  eexists. split; [done|]. intros a. unfold n. clear n Hr.
  destruct (Z.of_nat (length out) <? size) eqn:E; bprop; [|destruct (0 <? size) eqn:E0; bprop];
    unfold store_byte, store_bytes; cbn [length]; change (Z.of_nat 1) with 1; rewrite ?H1;
    repeat bcase; try done; bsplit; try lia; try done.
  all: match goal with |- nth (Z.to_nat ?x) [0] 0 = 0 => replace (Z.to_nat x) with 0%nat by lia; done | _ => idtac end.
Qed.

(** ** Printing and parsing back *)

(** Every conversion leaves room for the terminator in the 23-byte buffer. *)
Lemma utoa_fits_buffer w num base (uc : bool) :
  (w = 64 /\ 10 <= base <= 16) \/ (w = 32 /\ 8 <= base <= 16) -> 0 <= num < 2 ^ w ->
  exists l, utoa w num base uc = Some l /\ Z.of_nat (length l) < 23.
Proof.
  intros Hwb Hn. destruct (utoa_spec w num base uc) as (ds & E & _ & _ & _ & Hlen); [lia..|].
  exists (digit_char uc <$> ds). split; [done|]. rewrite length_fmap.
  destruct Hlen as [->|Hlen]; [lia|]. apply Z.nle_gt. intros Hlong.
  assert (Hp : base ^ 21 <= base ^ Z.of_nat (length ds - 1)) by (apply Z.pow_le_mono_r; lia).
  assert (8 ^ 21 <= base ^ 21) by (apply Z.pow_le_mono_l; lia).
  destruct Hwb as [[-> Hb]|[-> Hb]]; [|lia].
  assert (10 ^ 21 <= base ^ 21) by (apply Z.pow_le_mono_l; lia). lia.
Qed.

Lemma digit_char_parses base (uc : bool) d :
  2 <= base <= 16 -> 0 <= d < base -> strtox_digit base (digit_char uc d) = Some d.
Proof.
  intros Hb Hd. unfold strtox_digit, strtox_tops, digit_char.
  destruct (base <=? 10) eqn:E, (d <? 10) eqn:E2, uc; bprop; try lia; repeat bcase; bsplit; try lia; f_equal; lia.
Qed.

Lemma digit_char_range (uc : bool) d : 0 <= d < 16 -> 48 <= digit_char uc d <= 102.
Proof. intros Hd. unfold digit_char. destruct (d <? 10) eqn:E, uc; bprop; lia. Qed.

(** A printed numeral, with or without a minus sign, is a numeral to strtox.c. *)
Lemma printed_numeral m p base (uc neg : bool) ds :
  base = 10 \/ base = 16 -> Forall (fun d => 0 <= d < base) ds -> ds <> [] ->
  let l := (if neg then [45] else []) ++ (digit_char uc <$> ds) in
  cstr m p l -> numeral_at m p base (negb neg) base ds (p + Z.of_nat (length l)).
Proof.
  intros Hb Hds Hne l Hs. constructor.
  exists [], (if neg then [45] else []), [], (digit_char uc <$> ds), [].
  cbn [app]. rewrite app_nil_r. split_and!; [done|constructor|destruct neg; constructor| | | |done|].
  - destruct Hb as [->| ->]; [by apply radix_given|]. apply radix_16; [done|]. clear -Hds.
    destruct ds as [|d0 [|d ds]]; simpl; [done|by repeat case_match|].
    apply Forall_cons in Hds as [_ Hds]. apply Forall_cons in Hds as [Hd _].
    assert (digit_char uc d <> 120 /\ digit_char uc d <> 88).
    { unfold digit_char. destruct (d <? 10) eqn:E, uc; bprop; lia. }
    by repeat case_match.
  - clear -Hb Hds. induction Hds; simpl; constructor; [|done]. apply digit_char_parses; [|done].
    destruct Hb; lia.
  - by destruct ds.
  - unfold l. rewrite length_app. simpl. lia.
Qed.

(** A field without flags or width is its sign and its buffer. *)
Lemma putchw_plain p l :
  lz p = false -> alt p = false -> align_left p = false -> width p = 0 ->
  putchw snoc p l = l ++ (if psign p =? 0 then [] else [psign p]) ++ bf p.
Proof.
  intros Hl Ha Hal Hw. assert (Hf : fill_count p <= 0).
  { unfold fill_count. rewrite Hw, Ha. cbn [andb]. assert (E : shrink (bf p) (s32 0) = 0) by (by destruct (bf p)).
    rewrite E. by destruct (negb _). }
  assert (Hsn : forall l o, foldl snoc o l = o ++ l).
  { clear. induction l as [|c l IH]; intros o; simpl; [by rewrite app_nil_r|].
    rewrite IH. unfold snoc. by rewrite <- app_assoc. }
  unfold putchw, put_all, put_n. rewrite Hl, Ha, Hal. cbn [negb andb].
  replace (Z.to_nat (fill_count p)) with 0%nat by lia. cbn [replicate foldl]. rewrite Hsn.
  destruct (psign p =? 0); simpl; [done|]. unfold snoc. by rewrite <- app_assoc.
Qed.

Lemma rendered_unsigned p0 n :
  0 <= n < 2 ^ 64 -> exists ds, rendered p0 [37; 108; 117] [AInt n] = FmtDone (digit_char (uc p0) <$> ds) /\
    ds <> [] /\ Forall (fun d => 0 <= d < 10) ds /\ numeral 10 ds = n.
Proof.
  intros Hn. destruct (utoa_spec 64 n 10 (uc p0)) as (ds & E & Hne & Hds & Hv & _); [lia..|].
  exists ds. split_and!; [|done..]. unfold rendered, tfp_format. cbn -[utoa putchw wrap].
  rewrite wrap_small by lia. unfold uli2a. cbn -[utoa putchw]. rewrite E. cbn -[putchw].
  by rewrite putchw_plain.
Qed.

Lemma rendered_hex p0 n :
  0 <= n < 2 ^ 64 -> exists ds, rendered p0 [37; 108; 120] [AInt n] = FmtDone (digit_char false <$> ds) /\
    ds <> [] /\ Forall (fun d => 0 <= d < 16) ds /\ numeral 16 ds = n.
Proof.
  intros Hn. destruct (utoa_spec 64 n 16 false) as (ds & E & Hne & Hds & Hv & _); [lia..|].
  exists ds. split_and!; [|done..]. unfold rendered, tfp_format. cbn -[utoa putchw wrap].
  rewrite wrap_small by lia. unfold uli2a. cbn -[utoa putchw]. rewrite E. cbn -[putchw].
  by rewrite putchw_plain.
Qed.

Lemma s64_small n : - 2 ^ 63 <= n < 2 ^ 63 -> s64 n = n.
Proof.
  intros Hn. unfold swrap. destruct (Z.lt_ge_cases n 0).
  - replace (n mod 2 ^ 64) with (n + 2 ^ 64) by (apply (Z.mod_unique_pos _ _ (-1)); lia).
    rewrite (proj2 (Z.ltb_ge _ _)) by lia. lia.
  - rewrite Z.mod_small by lia. by rewrite (proj2 (Z.ltb_lt _ _)) by lia.
Qed.

(** Also for the most negative number, whose negation wraps. *)
Lemma u64_s64_neg n : - 2 ^ 63 <= n < 0 -> u64 (s64 (- n)) = - n.
Proof.
  intros Hn. unfold swrap, wrap. rewrite (Z.mod_small (- n)) by lia.
  bcase; [by rewrite Z.mod_small by lia|].
  symmetry. apply (Z.mod_unique_pos _ _ (-1)); lia.
Qed.

Lemma rendered_signed p0 n :
  - 2 ^ 63 <= n < 2 ^ 63 ->
  exists ds, rendered p0 [37; 108; 100] [AInt n]
    = FmtDone ((if n <? 0 then [45] else []) ++ (digit_char (uc p0) <$> ds)) /\
    ds <> [] /\ Forall (fun d => 0 <= d < 10) ds /\ numeral 10 ds = Z.abs n.
Proof.
  intros Hn. destruct (utoa_spec 64 (Z.abs n) 10 (uc p0)) as (ds & E & Hne & Hds & Hv & _); [lia..|].
  exists ds. split_and!; [|done..]. unfold rendered, tfp_format. cbn -[utoa putchw wrap swrap].
  rewrite s64_small by lia. unfold li2a, uli2a. destruct (n <? 0) eqn:Es; bprop.
  - rewrite u64_s64_neg by lia. replace (- n) with (Z.abs n) by lia.
    cbn -[utoa putchw]. rewrite E. cbn -[putchw]. by rewrite putchw_plain.
  - rewrite wrap_small by lia. replace n with (Z.abs n) at 1 by lia.
    cbn -[utoa putchw]. rewrite E. cbn -[putchw]. by rewrite putchw_plain.
Qed.

(** Printing and parsing are inverse: what [%ld] prints for a [long], [%lu] or
    [%lx] for an [unsigned long], read back with [strtol] in radix 10, [strtoul] in
    radix 10 or 16, is the number again, with the end pointer after the last
    character; this includes the most negative [long]. *)
Theorem printf_strtol_roundtrip p0 n :
  fits 64 n ->
  exists ld lu lx,
    rendered p0 [37; 108; 100] [AInt (s64 n)] = FmtDone ld /\
    rendered p0 [37; 108; 117] [AInt n] = FmtDone lu /\
    rendered p0 [37; 108; 120] [AInt n] = FmtDone lx /\
    forall m p fuel,
      (cstr m p ld -> (length ld < fuel)%nat ->
       strtol fuel m p 10 = Some (s64 n, Some (p + Z.of_nat (length ld)))) /\
      (cstr m p lu -> (length lu < fuel)%nat ->
       strtoul fuel m p 10 = Some (n, Some (p + Z.of_nat (length lu)))) /\
      (cstr m p lx -> (length lx < fuel)%nat ->
       strtoul fuel m p 16 = Some (n, Some (p + Z.of_nat (length lx)))).
Proof.
  unfold fits. intros Hn.
  assert (Hs : - 2 ^ 63 <= s64 n < 2 ^ 63).
  { unfold swrap. rewrite Z.mod_small by lia. bcase; lia. }
  destruct (rendered_signed p0 (s64 n) Hs) as (ds1 & E1 & Hne1 & Hd1 & Hv1).
  destruct (rendered_unsigned p0 n Hn) as (ds2 & E2 & Hne2 & Hd2 & Hv2).
  destruct (rendered_hex p0 n Hn) as (ds3 & E3 & Hne3 & Hd3 & Hv3).
  eexists _, _, _. split_and!; [exact E1|exact E2|exact E3|]. intros m p fuel.
  split_and!; intros Hc Hf.
  - destruct (strtox_value false LONG_MIN LONG_MAX fuel m p 10 (negb (s64 n <? 0)) 10 ds1
      (p + Z.of_nat (length ((if s64 n <? 0 then [45] else []) ++ (digit_char (uc p0) <$> ds1)))))
      as (a & Ea & Ha); [apply (printed_numeral _ _ _ (uc p0)); auto|lia|unfold LONG_MAX; lia|
        unfold LONG_MIN, LONG_MAX; lia|].
    unfold strtol. rewrite Ea. do 2 f_equal. rewrite Ha, Hv1. clear -Hs. unfold LONG_MIN, LONG_MAX.
    destruct (s64 n <? 0) eqn:E; bprop; cbn [negb andb]; rewrite (proj2 (Z.ltb_ge _ _)) by lia.
    + replace (- Z.abs (s64 n)) with (s64 n) by lia. rewrite <- (s64_small (s64 n)) at 2 by lia.
      unfold swrap at 1 3. unfold wrap. by rewrite Z.mod_mod.
    + rewrite s64_small; lia.
  - rewrite (strtoul_value fuel m p 10 true 10 ds2 (p + Z.of_nat (length (digit_char (uc p0) <$> ds2)))).
    + rewrite Hv2, (proj2 (Z.ltb_ge _ _)) by (unfold ULONG_MAX; lia). done.
    + apply (printed_numeral _ _ 10 (uc p0) false ds2); auto.
    + lia.
  - rewrite (strtoul_value fuel m p 16 true 16 ds3 (p + Z.of_nat (length (digit_char false <$> ds3)))).
    + rewrite Hv3, (proj2 (Z.ltb_ge _ _)) by (unfold ULONG_MAX; lia). done.
    + apply (printed_numeral _ _ 16 false false ds3); auto.
    + lia.
Qed.

(** ** Witnesses *)

Definition zero_param : param := mkParam false false false false 0 0 0 [].

Lemma printf_strtol_roundtrip_witness :
  exists lx, rendered zero_param [37; 108; 120] [AInt 0xBEEF] = FmtDone lx /\
    strtoul 10 (with_string 100 [98; 101; 101; 102] (fun _ => 0)) 100 16 = Some (0xBEEF, Some 104).
Proof.
  destruct (printf_strtol_roundtrip zero_param 0xBEEF) as (ld & lu & lx & _ & _ & E & H).
  { unfold fits. lia. }
  exists lx. split; [exact E|]. specialize (H (with_string 100 [98; 101; 101; 102] (fun _ => 0)) 100 10%nat).
  assert (El : lx = [98; 101; 101; 102]) by (vm_compute in E; congruence). subst lx.
  apply H; [vm_compute; intuition congruence|simpl; lia].
Defined.

(** ["[%5d|%-3s]"] with 42 and "x". *)
Definition sample_format : list Z := [91; 37; 53; 100; 124; 37; 45; 51; 115; 93].
Definition sample_args : list arg := [AInt 42; AStr [120]].

Lemma vfprintf_stream_witness :
  exists d, vfprintf (fun _ c => Z.of_nat (length c)) true zero_param sample_format sample_args
    = FmtDone (11, d) /\ concat (vp_calls d) = [91; 32; 32; 32; 52; 50; 124; 120; 32; 32; 93].
Proof.
  destruct (vfprintf_stream (fun _ c => Z.of_nat (length c)) zero_param sample_format sample_args
    [91; 32; 32; 32; 52; 50; 124; 120; 32; 32; 93]) as (d & E & Hc & _); [vm_compute; reflexivity|].
  exists d. split; [|exact Hc].
  assert (L : exists d', vfprintf (fun _ c => Z.of_nat (length c)) true zero_param sample_format sample_args
    = FmtDone (11, d')) by (eexists; vm_compute; reflexivity).
  destruct L as (d' & L). rewrite L in E |- *. injection E as _ ->. reflexivity.
Defined.

(** A seven-byte buffer holds six characters and the terminator. *)
Lemma vsnprintf_bounded_witness :
  exists m', vsnprintf sample_mem 1000 7 zero_param sample_format sample_args = FmtDone (m', 11) /\
    m' 1005 = 50 /\ m' 1006 = 0 /\ m' 1007 = sample_mem 1007.
Proof.
  destruct (vsnprintf_bounded sample_mem 1000 7 zero_param sample_format sample_args
    [91; 32; 32; 32; 52; 50; 124; 120; 32; 32; 93]) as (m' & E & H);
    [vm_compute; reflexivity|unfold fits; lia|simpl; lia|].
  exists m'. split; [exact E|]. rewrite !H. vm_compute. auto.
Defined.

(** The width parser accepts the digit [a] in a decimal width, since it compares
    with [>] where [>=] is meant: ["%1ad"] pads to 20 columns. *)
Example width_accepts_hex_digit :
  (fun r => match r with FmtDone l => length l | _ => 0%nat end)
    (rendered zero_param [37; 49; 97; 100] [AInt 7]) = 20%nat.
Proof. vm_compute. reflexivity. Qed.
