(* ===== verification/LibComm.v ===== *)
(** * The message link between the HAL and the simulator (libcomm/libcomm.h)

    [Msg] is a request or a response. [Serialize] writes its 28-byte header in
    little-endian order followed by the payload of the messages that carry one;
    [Transceiver::Recv] cuts the byte stream of a socket into messages again and
    hands them to the handler.

    A socket is the bytes that arrive, the bytes that were sent and a schedule of
    what the next system calls do: transfer at most so many bytes, be interrupted,
    or fail. When the schedule is used up, every call transfers all it can. A
    message's [data] is what can be read from its data pointer. Opening sockets,
    threads and the SIGUSR1 event are not modelled. *)

From S2P Require Import Prelude.

(** ** Messages *)

Definition Cmd_Get : Z := 0.
Definition Cmd_Put : Z := 1.
Definition Cmd_Probe : Z := 2.
Definition Cmd_Terminate : Z := 3.
Definition Cmd_AccessAckData : Z := 4.
Definition Cmd_AccessAck : Z := 5.
Definition Cmd_ProbeAck : Z := 6.
Definition Cmd_TerminateAck : Z := 7.
Definition Cmd_Wait : Z := 8.
Definition Cmd_WaitAck : Z := 9.

Definition Status_Okay : Z := 0.
Definition Status_AddrErr : Z := 1.
Definition Status_CmdErr : Z := 2.
Definition Status_GenericErr : Z := 3.

Record Msg := mkMsg {
  m_cmd : Z;
  m_id : Z;
  m_addr : Z;
  m_size : Z;
  m_status : Z;
  m_data : list Z;
}.

Definition is_request (m : Msg) : bool :=
  (m_cmd m =? Cmd_Get) || (m_cmd m =? Cmd_Put) || (m_cmd m =? Cmd_Probe) ||
  (m_cmd m =? Cmd_Terminate) || (m_cmd m =? Cmd_Wait).
Definition is_response (m : Msg) : bool :=
  (m_cmd m =? Cmd_AccessAckData) || (m_cmd m =? Cmd_AccessAck) || (m_cmd m =? Cmd_ProbeAck) ||
  (m_cmd m =? Cmd_TerminateAck) || (m_cmd m =? Cmd_WaitAck).
Definition has_data (m : Msg) : bool := (m_cmd m =? Cmd_Put) || (m_cmd m =? Cmd_AccessAckData).

(** [operator==]; [memcmp] of the payloads. *)
Definition msg_eqb (a b : Msg) : bool :=
  if negb (m_cmd a =? m_cmd b) || negb (m_id a =? m_id b) || negb (m_addr a =? m_addr b) ||
     negb (m_size a =? m_size b) || negb (m_status a =? m_status b) then false
  else bool_decide (take (Z.to_nat (m_size a)) (m_data a) = take (Z.to_nat (m_size a)) (m_data b)).

(** [Msg::Build(cmd)] and the builder's setters; the arguments are converted to
    the field's type. *)
Definition Build (cmd : Z) : Msg := mkMsg cmd 0 0 0 Status_Okay [].
Definition with_id (i : Z) (m : Msg) : Msg :=
  mkMsg (m_cmd m) (u32 i) (m_addr m) (m_size m) (m_status m) (m_data m).
Definition with_addr (a : Z) (m : Msg) : Msg :=
  mkMsg (m_cmd m) (m_id m) (u64 a) (m_size m) (m_status m) (m_data m).
Definition with_size (n : Z) (m : Msg) : Msg :=
  mkMsg (m_cmd m) (m_id m) (m_addr m) (u64 n) (m_status m) (m_data m).
Definition with_status (s : Z) (m : Msg) : Msg :=
  mkMsg (m_cmd m) (m_id m) (m_addr m) (m_size m) (u32 s) (m_data m).
Definition with_data (d : list Z) (m : Msg) : Msg :=
  mkMsg (m_cmd m) (m_id m) (m_addr m) (m_size m) (m_status m) d.
Definition with_cmd (c : Z) (m : Msg) : Msg :=
  mkMsg c (m_id m) (m_addr m) (m_size m) (m_status m) (m_data m).

Definition Respond (m : Msg) : Msg :=
  if m_cmd m =? Cmd_Get then with_cmd Cmd_AccessAckData m else
  if m_cmd m =? Cmd_Put then with_cmd Cmd_AccessAck m else
  if m_cmd m =? Cmd_Probe then with_cmd Cmd_ProbeAck m else
  if m_cmd m =? Cmd_Terminate then with_cmd Cmd_TerminateAck m else
  if m_cmd m =? Cmd_Wait then with_cmd Cmd_WaitAck m else m.

(** ** Frames *)

Definition kHeaderSize : Z := 4 + 4 + 8 + 8 + 4.

(** The bytes appended for a value of [n] bytes. *)
Fixpoint AppendValue (n : nat) (val : Z) : list Z :=
  match n with
  | O => []
  | S n' => Z.land val 0xff :: AppendValue n' (Z.shiftr val 8)
  end.

(** The value of the [n] bytes at [p], and what follows them. *)
Definition ExtractValue (n : nat) (p : list Z) : Z * list Z :=
  (for_range (fun i tmp => Z.lor tmp (wrap (8 * Z.of_nat n)
     (Z.shiftl (nth i p 0) (8 * Z.of_nat i)))) 0 n 0, drop n p).

Definition Serialize (m : Msg) : list Z :=
  let data_size := (if has_data m then 1 else 0) *% m_size m in
  AppendValue 4 (m_cmd m) ++ AppendValue 4 (m_id m) ++ AppendValue 8 (m_addr m) ++
  AppendValue 8 (m_size m) ++ AppendValue 4 (m_status m) ++
  take (Z.to_nat data_size) (m_data m).

Definition Deserialize (frame : list Z) : Msg :=
  let '(cmd, curr) := ExtractValue 4 frame in
  let '(id, curr) := ExtractValue 4 curr in
  let '(addr, curr) := ExtractValue 8 curr in
  let '(size, curr) := ExtractValue 8 curr in
  let '(status, curr) := ExtractValue 4 curr in
  mkMsg cmd id addr size status (if size =? 0 then [] else curr).

(** ** Sockets *)

Inductive syscall := SData (n : nat) | SRetry | SFail.
Record sock := mkSock { inp : list Z; out : list Z; sched : list syscall }.

(** The results of send(2) and recv(2): bytes, EINTR or EAGAIN, another error. *)
Inductive sysret := RBytes (bs : list Z) | RRetry | RError.

Definition sys_recv (k : sock) (n : nat) : sysret * sock :=
  match sched k with
  | [] => (RBytes (take n (inp k)), mkSock (drop n (inp k)) (out k) [])
  | SData c :: r =>
      let c := Nat.min n (Nat.max 1 c) in
      (RBytes (take c (inp k)), mkSock (drop c (inp k)) (out k) r)
  | SRetry :: r => (RRetry, mkSock (inp k) (out k) r)
  | SFail :: r => (RError, mkSock (inp k) (out k) r)
  end.

Definition sys_send (k : sock) (bs : list Z) : sysret * sock :=
  match sched k with
  | [] => (RBytes bs, mkSock (inp k) (out k ++ bs) [])
  | SData c :: r => (RBytes (take c bs), mkSock (inp k) (out k ++ take c bs) r)
  | SRetry :: r => (RRetry, mkSock (inp k) (out k) r)
  | SFail :: r => (RError, mkSock (inp k) (out k) r)
  end.

Definition Send (k : sock) (buf : list Z) : option (Z * sock) :=
  let len := length buf in
  loop (S (len + length (sched k)))
    (fun '(total, k) =>
       if (total <? len)%nat then
         match sys_send k (drop total buf) with
         | (RBytes [], k) => inr (-1, k)
         | (RRetry, k) => inl (total, k)
         | (RError, k) => inr (-1, k)
         | (RBytes bs, k) => inl ((total + length bs)%nat, k)
         end
       else inr (0, k)) (0%nat, k).

(** Also returns the bytes stored at [buf]. *)
Definition Recv (k : sock) (len : nat) : option (Z * list Z * sock) :=
  loop (S (len + length (sched k)))
    (fun '(got, k) =>
       if (length got <? len)%nat then
         match sys_recv k (len - length got) with
         | (RBytes [], k) => inr (-1, got, k)
         | (RRetry, k) => inl (got, k)
         | (RError, k) => inr (-1, got, k)
         | (RBytes bs, k) => inl (got ++ bs, k)
         end
       else inr (0, got, k)) ([], k).

Definition Transceiver_Send (k : sock) (m : Msg) : option (Z * sock) := Send k (Serialize m).

(** [memcpy] of [bs] to [buf + o]. *)
Definition write_at (buf : list Z) (o : nat) (bs : list Z) : list Z :=
  take o buf ++ bs ++ drop (o + length bs) buf.

(** How the receiving thread ends: the connection is down, or a receive of the
    given length would run past the end of the buffer. *)
Inductive recv_end := Closed | Overrun (capacity : nat) (len : Z).

(** One round of [Transceiver::Recv]: the buffer, the socket and the messages
    given to the handler. *)
Definition recv_step : list Z * sock * list Msg -> option ((list Z * sock * list Msg) + (recv_end * list Msg)) :=
  fun '(buf, k, done) =>
  '(rc, bs, k) ← Recv k (Z.to_nat kHeaderSize);
  let buf := write_at buf 0 bs in
  if rc <? 0 then Some (inr (Closed, done)) else
  let msg := Deserialize buf in
  if has_data msg then
    let need := kHeaderSize +% m_size msg in
    let buf := if Z.of_nat (length buf) <? need
               then buf ++ replicate (Z.to_nat need - length buf) 0 else buf in
    if Z.of_nat (length buf) <? kHeaderSize + m_size msg
    then Some (inr (Overrun (length buf) (m_size msg), done)) else
    '(rc, bs, k) ← Recv k (Z.to_nat (m_size msg));
    let buf := write_at buf (Z.to_nat kHeaderSize) bs in
    if rc <? 0 then Some (inr (Closed, done)) else
    Some (inl (buf, k, done ++ [Deserialize buf]))
  else Some (inl (buf, k, done ++ [msg])).

Definition Transceiver_Recv (fuel : nat) (k : sock) : option (recv_end * list Msg) :=
  oloop fuel recv_step (replicate (Z.to_nat kHeaderSize) 0, k, []).

(** ** Field encodings *)

Lemma AppendValue_le n v : AppendValue n v = le_bytes n v.
Proof.
  revert v. induction n as [|n IH]; intros v; simpl; [done|].
  change 0xff with (2 ^ 8 - 1). rewrite land_low_mask, Z.shiftr_div_pow2 by lia.
  by rewrite IH.
Qed.

Lemma length_AppendValue n v : length (AppendValue n v) = n.
Proof. rewrite AppendValue_le. apply length_le_bytes. Qed.

Lemma le_val_app l k : le_val (l ++ k) = le_val l + 2 ^ (8 * Z.of_nat (length l)) * le_val k.
Proof.
  induction l as [|b l IH]; [simpl; lia|]. cbn [app le_val length]. rewrite IH.
  replace (8 * Z.of_nat (S (length l))) with (8 + 8 * Z.of_nat (length l)) by lia.
  rewrite Z.pow_add_r by lia. lia.
Qed.

Definition byte_list (l : list Z) : Prop := Forall (fun b => 0 <= b < 256) l.

Lemma byte_shift_fits b i n :
  0 <= b < 256 -> (i < n)%nat -> 0 <= b * 2 ^ (8 * Z.of_nat i) < 2 ^ (8 * Z.of_nat n).
Proof.
  intros Hb Hi. assert (2 ^ (8 + 8 * Z.of_nat i) <= 2 ^ (8 * Z.of_nat n))
    by (apply Z.pow_le_mono_r; lia).
  rewrite Z.pow_add_r in * by lia. nia.
Qed.

Lemma ExtractValue_le n p :
  byte_list p -> (n <= length p)%nat -> ExtractValue n p = (le_val (take n p), drop n p).
Proof.
  intros Hp Hn. unfold ExtractValue. f_equal. set (f := fun (i : nat) (t : Z) => _).
  pose (P := fun i t => t = le_val (take i p)).
  change (P (0 + n)%nat (for_range f 0 n 0)). apply for_range_ind; [done|].
  intros i t Hi ->. unfold P, f. destruct (list_lookup_total_lt p i) as [b Hb]; [lia|].
  rewrite (take_S_r _ _ _ Hb), le_val_app, (nth_lookup_Some _ _ _ _ Hb). simpl le_val.
  rewrite Z.mul_0_r, Z.add_0_r, length_take_le by lia.
  assert (Hbr : 0 <= b < 256) by (by eapply (proj1 (Forall_lookup _ _) Hp)).
  pose proof (le_val_range (take i p) (Forall_take _ _ _ Hp)) as Hr.
  rewrite length_take_le in Hr by lia.
  rewrite Z.shiftl_mul_pow2, wrap_small by (try apply byte_shift_fits; lia).
  rewrite Z.lor_comm, lor_disjoint by lia. lia.
Qed.

Lemma Extract_Append n v rest :
  fits (8 * Z.of_nat n) v -> byte_list rest -> ExtractValue n (AppendValue n v ++ rest) = (v, rest).
Proof.
  intros Hv Hr. rewrite ExtractValue_le.
  - rewrite take_app_length' by (symmetry; apply length_AppendValue).
    rewrite drop_app_length' by (symmetry; apply length_AppendValue).
    rewrite AppendValue_le, le_val_bytes, Z.mod_small by done. done.
  - apply Forall_app. split; [rewrite AppendValue_le; apply le_bytes_range|done].
  - rewrite length_app, length_AppendValue. lia.
Qed.

(** What the C types give: field widths, and a payload of [size] bytes. *)
Record header_ok (m : Msg) : Prop := {
  ok_cmd : fits 32 (m_cmd m);
  ok_id : fits 32 (m_id m);
  ok_addr : fits 64 (m_addr m);
  ok_size : fits 64 (m_size m);
  ok_status : fits 32 (m_status m);
}.
Record msg_ok (m : Msg) : Prop := {
  ok_header : header_ok m;
  ok_bytes : byte_list (m_data m);
  ok_data : has_data m = true -> m_size m <= Z.of_nat (length (m_data m));
}.

Definition frame_header (m : Msg) : list Z :=
  AppendValue 4 (m_cmd m) ++ AppendValue 4 (m_id m) ++ AppendValue 8 (m_addr m) ++
  AppendValue 8 (m_size m) ++ AppendValue 4 (m_status m).
Definition payload (m : Msg) : list Z :=
  if has_data m then take (Z.to_nat (m_size m)) (m_data m) else [].

Lemma Serialize_split m : msg_ok m -> Serialize m = frame_header m ++ payload m.
Proof.
  intros Hm. pose proof (ok_size m (ok_header m Hm)). unfold Serialize, frame_header, payload.
  destruct (has_data m).
  - rewrite Z.mul_1_l, wrap_small by done. by rewrite <- !app_assoc.
  - rewrite Z.mul_0_l. change (Z.to_nat (wrap 64 0)) with 0%nat.
    rewrite take_0, !app_nil_r, <- ?app_assoc. done.
Qed.

Lemma length_frame_header m : length (frame_header m) = Z.to_nat kHeaderSize.
Proof. unfold frame_header. by rewrite !length_app, !length_AppendValue. Qed.

Lemma frame_header_bytes m : byte_list (frame_header m).
Proof.
  unfold frame_header, byte_list. rewrite !AppendValue_le, !Forall_app.
  split_and!; apply le_bytes_range.
Qed.

Lemma Deserialize_header m rest :
  header_ok m -> byte_list rest ->
  Deserialize (frame_header m ++ rest)
  = mkMsg (m_cmd m) (m_id m) (m_addr m) (m_size m) (m_status m) (if m_size m =? 0 then [] else rest).
Proof.
  intros [] Hr. unfold Deserialize, frame_header. rewrite <- !app_assoc.
  assert (Hb : forall n v l, byte_list l -> byte_list (AppendValue n v ++ l)).
  { intros. apply Forall_app. split; [rewrite AppendValue_le; apply le_bytes_range|done]. }
  rewrite !Extract_Append by auto 10. done.
Qed.

Lemma length_payload m :
  msg_ok m -> has_data m = true -> length (payload m) = Z.to_nat (m_size m).
Proof.
  intros Hm Hd. unfold payload. rewrite Hd. apply length_take_le.
  pose proof (ok_data m Hm Hd). pose proof (ok_size m (ok_header m Hm)). unfold fits in *. lia.
Qed.

Lemma payload_bytes m : msg_ok m -> byte_list (payload m).
Proof.
  intros Hm. unfold payload. destruct (has_data m); [|constructor].
  apply Forall_take, Hm.
Qed.

(** ** The socket loops *)

Definition no_fail (l : list syscall) : Prop := SFail ∉ l.

Lemma no_fail_cons c l : no_fail (c :: l) -> no_fail l.
Proof. unfold no_fail. rewrite not_elem_of_cons. tauto. Qed.

Lemma take_min_length {A} (l : list A) n : take (Nat.min n (length l)) l = take n l.
Proof.
  destruct (decide (n <= length l)%nat); [by rewrite Nat.min_l by lia|].
  by rewrite Nat.min_r, !take_ge by lia.
Qed.
Lemma drop_min_length {A} (l : list A) n : drop (Nat.min n (length l)) l = drop n l.
Proof.
  destruct (decide (n <= length l)%nat); [by rewrite Nat.min_l by lia|].
  by rewrite Nat.min_r, !drop_ge by lia.
Qed.
Lemma take_drop_app {A} (l : list A) n m : take n l ++ take m (drop n l) = take (n + m) l.
Proof. by rewrite take_take_drop. Qed.

(** One call of recv(2): the bytes it returns are the next ones of the stream. *)
Lemma sys_recv_next k n r k' :
  (0 < n)%nat -> sys_recv k n = (r, k') ->
  out k' = out k /\ (no_fail (sched k) -> no_fail (sched k')) /\
  match r with
  | RBytes bs => bs = take (length bs) (inp k) /\ (length bs <= n)%nat /\
      inp k' = drop (length bs) (inp k) /\ (length (sched k') <= length (sched k))%nat /\
      (bs = [] -> inp k = [])
  | RRetry => inp k' = inp k /\ (length (sched k') < length (sched k))%nat
  | RError => inp k' = inp k /\ ~ no_fail (sched k)
  end.
Proof.
  intros Hn. unfold sys_recv. destruct (sched k) as [|[c| |] rest] eqn:E; intros [= <- <-]; simpl.
  - rewrite length_take, take_min_length, drop_min_length. split_and!; auto; [lia|].
    destruct (inp k); [done|]. destruct n; [lia|done].
  - rewrite length_take, take_min_length, drop_min_length.
    split_and!; eauto using no_fail_cons; [lia|].
    destruct (inp k); [done|]. destruct (Nat.min n (Nat.max 1 c)) eqn:?; [lia|done].
  - split_and!; eauto using no_fail_cons.
  - split_and!; eauto using no_fail_cons. unfold no_fail. rewrite not_elem_of_cons. naive_solver.
Qed.

(** [Recv] always ends: with the next [len] bytes of the stream, or with an error;
    without failing calls an error means that the stream is too short. *)
Lemma Recv_spec k len :
  exists rc bs k', Recv k len = Some (rc, bs, k') /\ out k' = out k /\
    bs = take (length bs) (inp k) /\ (length bs <= len)%nat /\
    inp k' = drop (length bs) (inp k) /\
    (no_fail (sched k) -> no_fail (sched k')) /\
    ((rc = 0 /\ length bs = len) \/
     (rc = -1 /\ (no_fail (sched k) -> (length (inp k) < len)%nat))).
Proof.
  set (Inv := fun '(got, k') => out k' = out k /\ got = take (length got) (inp k) /\
    (length got <= len)%nat /\ inp k' = drop (length got) (inp k) /\
    (no_fail (sched k) -> no_fail (sched k'))).
  set (Q := fun '(rc, bs, k') => out k' = out k /\ bs = take (length bs) (inp k) /\
    (length bs <= len)%nat /\ inp k' = drop (length bs) (inp k) /\
    (no_fail (sched k) -> no_fail (sched k')) /\
    ((rc = 0 /\ length bs = len) \/
     (rc = -1 /\ (no_fail (sched k) -> (length (inp k) < len)%nat)))).
  destruct (loop_rule Inv (fun '(got, k') => (len - length got) + length (sched k'))%nat Q
    (S (len + length (sched k)))
    (fun '(got, k) =>
       if (length got <? len)%nat then
         match sys_recv k (len - length got) with
         | (RBytes [], k) => inr (-1, got, k)
         | (RRetry, k) => inl (got, k)
         | (RError, k) => inr (-1, got, k)
         | (RBytes bs, k) => inl (got ++ bs, k)
         end
       else inr (0, got, k)) ([], k)) as [[[rc bs] k'] [Hl HQ]].
  - intros [got k1] s' (Ho & Hg & Hle & Hin & Hnf). bcase; [|done].
    destruct (sys_recv k1 _) as [r k2] eqn:Er.
    apply sys_recv_next in Er as (Ho2 & Hnf2 & Hr); [|lia].
    destruct r as [[|b bs]| |]; [done| |intros [= <-]|done].
    + intros [= <-]. destruct Hr as (Hbs & Hlb & Hk2 & Hsl & _). rewrite Hin in *.
      simpl. rewrite length_app. simpl in *. rewrite drop_drop in Hk2.
      split_and!; auto; try congruence; try lia.
      rewrite Hg at 1. rewrite Hbs at 1. apply take_drop_app.
    + destruct Hr as [Hi Hs]. simpl. split; [|lia]. split_and!; auto; congruence.
  - intros [got k1] [[rc bs] k2] (Ho & Hg & Hle & Hin & Hnf). bcase.
    + destruct (sys_recv k1 _) as [r k3] eqn:Er.
      apply sys_recv_next in Er as (Ho2 & Hnf2 & Hr); [|lia].
      destruct r as [[|b l]| |]; try done; intros [= <- <- <-].
      * destruct Hr as (_ & _ & Hk2 & _ & He). specialize (He eq_refl). simpl in Hk2.
        rewrite drop_0 in Hk2. unfold Q. split_and!; auto; try congruence.
        right. split; [done|]. intros _. rewrite Hin in He.
        apply (f_equal length) in He. rewrite length_drop in He. simpl in He. lia.
      * destruct Hr as [Hi Hf]. unfold Q. split_and!; auto; try congruence.
        right. split; [done|]. intros HH. exfalso. auto.
    + intros [= <- <- <-]. unfold Q. split_and!; auto. left. split; [done|lia].
  - unfold Inv. rewrite take_0, drop_0. simpl. split_and!; auto with lia.
  - simpl. lia.
  - exists rc, bs, k'. split; [exact Hl|exact HQ].
Qed.

(** The handler sees the header of [m] and, behind its data pointer, the payload. *)
Definition received (m m' : Msg) : Prop :=
  m_cmd m' = m_cmd m /\ m_id m' = m_id m /\ m_addr m' = m_addr m /\ m_size m' = m_size m /\
  m_status m' = m_status m /\
  (has_data m = true -> take (Z.to_nat (m_size m)) (m_data m') = payload m).

Lemma write_at_app a b bs :
  (length bs <= length b)%nat -> write_at (a ++ b) (length a) bs = a ++ bs ++ drop (length bs) b.
Proof.
  intros H. unfold write_at. rewrite take_app_length, drop_app_ge by lia.
  do 3 f_equal. lia.
Qed.

(** A successful [Recv] returns exactly the next piece of a cut stream. *)
Lemma Recv_piece k piece rest n :
  inp k = take n (piece ++ rest) ->
  exists rc bs k', Recv k (length piece) = Some (rc, bs, k') /\
    (no_fail (sched k) -> no_fail (sched k')) /\ (length bs <= length piece)%nat /\
    ((rc = 0 /\ bs = piece /\ inp k' = take (n - length piece) rest) \/
     (rc = -1 /\ (no_fail (sched k) -> (n < length piece)%nat))).
Proof.
  intros Hi. destruct (Recv_spec k (length piece)) as (rc & bs & k' & Hr & _ & Hbs & Hlb & Hk & Hnf & Hc).
  exists rc, bs, k'. split_and!; [done..|]. destruct Hc as [[-> Hl]|[-> Hs]].
  - left. split; [done|]. rewrite Hbs, Hk, Hi, Hl.
    assert (Hn : (length piece <= n)%nat).
    { apply (f_equal length) in Hbs. rewrite length_take, Hi, length_take in Hbs. lia. }
    rewrite take_take, Nat.min_l by lia. rewrite take_app_length. split; [done|].
    rewrite skipn_firstn_comm, drop_app_length. done.
  - right. split; [done|]. intros H. specialize (Hs H). rewrite Hi, length_take, length_app in Hs. lia.
Qed.

Section receive.
Context (m : Msg) (Hm : msg_ok m) (Hsz : m_size m < 2 ^ 63).

(** The second half of a round, after the header. *)
Lemma recv_step_data k k1 done rest n d :
  byte_list d -> (no_fail (sched k) -> no_fail (sched k1)) -> has_data m = true ->
  inp k1 = take (n - Z.to_nat kHeaderSize) (payload m ++ rest) ->
  let buf := frame_header m ++ d in
  let need := kHeaderSize + m_size m in
  let buf := if Z.of_nat (length buf) <? need
             then buf ++ replicate (Z.to_nat need - length buf) 0 else buf in
  let r := if Z.of_nat (length buf) <? need then Some (inr (Overrun (length buf) (m_size m), done)) else
    '(rc, bs, k) ← Recv k1 (Z.to_nat (m_size m));
    let buf := write_at buf (Z.to_nat kHeaderSize) bs in
    if rc <? 0 then Some (inr (Closed, done)) else Some (inl (buf, k, done ++ [Deserialize buf])) in
  (exists buf' k' m', r = Some (inl (buf', k', done ++ [m'])) /\
     received m m' /\ byte_list buf' /\ (Z.to_nat kHeaderSize <= length buf')%nat /\
     inp k' = take (n - length (frame_header m ++ payload m)) rest /\
     (no_fail (sched k) -> no_fail (sched k'))) \/
  (r = Some (inr (Closed, done)) /\
   (no_fail (sched k) -> (n < length (frame_header m ++ payload m))%nat)).
Proof using Hm Hsz.
  intros Hbd Hnf1 Hd Hk1 buf0 need buf r.
  assert (Hz : 0 <= m_size m < 2 ^ 63) by (split; [apply (ok_size m (ok_header m Hm))|done]).
  assert (Hbuf : exists d', buf = frame_header m ++ d' /\ byte_list d' /\ m_size m <= Z.of_nat (length d')).
  { subst buf. bcase.
    - exists (d ++ replicate (Z.to_nat need - length buf0) 0). unfold buf0 in *.
      rewrite length_app, length_frame_header in *. rewrite <- app_assoc. split_and!; [done| |].
      + apply Forall_app. split; [done|]. apply Forall_replicate. lia.
      + rewrite length_app, length_replicate. unfold need, kHeaderSize in *. lia.
    - exists d. unfold buf0 in *. rewrite length_app, length_frame_header in E.
      unfold need, kHeaderSize in *. split_and!; [done|done|lia]. }
  destruct Hbuf as (d' & Hbe & Hbd' & Hld). subst r. rewrite Hbe. clear buf Hbe buf0.
  rewrite length_app, length_frame_header.
  replace (_ <? need) with false by (unfold need; symmetry; apply Z.ltb_ge; unfold kHeaderSize in *; lia).
  assert (Hlp := length_payload m Hm Hd). rewrite <- Hlp.
  destruct (Recv_piece k1 _ _ _ Hk1) as (rc & bs & k' & Hr & Hnf2 & Hlb & Hc).
  rewrite Hr. cbn [mbind option_bind]. rewrite length_app, length_frame_header.
  destruct Hc as [(-> & -> & Hk2)|[-> Hs]].
  - left. change (0 <? 0) with false. cbv iota. replace (write_at (frame_header m ++ d') (Z.to_nat kHeaderSize) (payload m))
      with (frame_header m ++ payload m ++ drop (length (payload m)) d')
      by (rewrite <- (length_frame_header m), write_at_app by lia; done).
    assert (Hbb : byte_list (payload m ++ drop (length (payload m)) d')).
    { apply Forall_app. split; [by apply payload_bytes|by apply Forall_drop]. }
    eexists _, k', _. split; [reflexivity|]. split_and!; auto.
    + rewrite Deserialize_header by (done || apply Hm). split_and!; try done. intros _. cbn [m_data].
      rewrite <- Hlp. bcase; [|apply take_app_length].
      rewrite take_nil. symmetry. apply length_zero_iff_nil. lia.
    + apply Forall_app. split; [apply frame_header_bytes|done].
    + rewrite length_app, length_frame_header. lia.
    + rewrite Hk2. f_equal. lia.
  - right. split; [done|]. intros H. specialize (Hs (Hnf1 H)). lia.
Qed.

Lemma recv_step_msg buf k done rest n :
  byte_list buf -> (Z.to_nat kHeaderSize <= length buf)%nat ->
  inp k = take n (Serialize m ++ rest) ->
  (exists buf' k' m', recv_step (buf, k, done) = Some (inl (buf', k', done ++ [m'])) /\
     received m m' /\ byte_list buf' /\ (Z.to_nat kHeaderSize <= length buf')%nat /\
     inp k' = take (n - length (Serialize m)) rest /\ (no_fail (sched k) -> no_fail (sched k'))) \/
  (recv_step (buf, k, done) = Some (inr (Closed, done)) /\
   (no_fail (sched k) -> (n < length (Serialize m))%nat)).
Proof using Hm Hsz.
  intros Hb Hl Hi. rewrite Serialize_split in * by done. rewrite <- app_assoc in Hi.
  destruct (Recv_piece k _ _ n Hi) as (rc & bs & k1 & Hr & Hnf1 & Hlb & Hc).
  rewrite length_frame_header in *. unfold recv_step. rewrite Hr. cbn [mbind option_bind].
  destruct Hc as [(-> & -> & Hk1)|[-> Hs]].
  2:{ right. split; [done|]. intros H. specialize (Hs H). rewrite length_app, length_frame_header. lia. }
  change (0 <? 0) with false. cbv iota.
  replace (write_at buf 0 (frame_header m)) with (frame_header m ++ drop (Z.to_nat kHeaderSize) buf)
    by (unfold write_at; by rewrite take_0, length_frame_header).
  assert (Hbd : byte_list (drop (Z.to_nat kHeaderSize) buf)) by (by apply Forall_drop).
  set (d := drop _ buf) in *. rewrite Deserialize_header by (done || apply Hm).
  change (has_data (mkMsg (m_cmd m) _ _ _ _ _)) with (has_data m). cbn [m_size].
  assert (Hz : 0 <= m_size m < 2 ^ 63) by (split; [apply (ok_size m (ok_header m Hm))|done]).
  destruct (has_data m) eqn:Hd.
  - rewrite (wrap_small 64 (kHeaderSize + m_size m)) by (unfold kHeaderSize; lia).
    exact (recv_step_data k k1 done rest n d Hbd Hnf1 Hd Hk1).
  - left. eexists _, k1, _. split; [reflexivity|]. unfold payload in Hk1. rewrite Hd in *.
    split_and!; try done.
    + unfold received. rewrite Hd. done.
    + apply Forall_app. split; [apply frame_header_bytes|done].
    + rewrite length_app, length_frame_header. lia.
    + rewrite length_app, length_frame_header. unfold payload. rewrite Hd. simpl length.
      rewrite Nat.add_0_r. done.
Qed.
End receive.

(** ** Sending *)

(** [Send] always ends; it appends a prefix of the buffer, all of it if it
    succeeds, and it succeeds unless a call fails or transfers nothing. *)
Definition progress (l : list syscall) : Prop := SFail ∉ l /\ SData 0 ∉ l.

Lemma progress_cons c l : progress (c :: l) -> progress l.
Proof. unfold progress. rewrite !not_elem_of_cons. tauto. Qed.

Lemma sys_send_next k bs r k' :
  bs <> [] -> sys_send k bs = (r, k') ->
  inp k' = inp k /\ (progress (sched k) -> progress (sched k')) /\
  match r with
  | RBytes l => l = take (length l) bs /\ out k' = out k ++ l /\
      (length (sched k') <= length (sched k))%nat /\ (l = [] -> ~ progress (sched k))
  | RRetry => out k' = out k /\ (length (sched k') < length (sched k))%nat
  | RError => out k' = out k /\ ~ progress (sched k)
  end.
Proof.
  intros Hne. unfold sys_send. destruct (sched k) as [|[c| |] rest] eqn:E; intros [= <- <-]; simpl.
  - rewrite firstn_all. split_and!; auto; congruence.
  - rewrite length_take, take_min_length. split_and!; eauto using progress_cons.
    destruct c, bs; try done. intros _ [_ H]. rewrite not_elem_of_cons in H. tauto.
  - split_and!; eauto using progress_cons.
  - split_and!; eauto using progress_cons. intros [H _]. rewrite not_elem_of_cons in H. tauto.
Qed.

Lemma Send_spec k buf :
  exists rc k' sent, Send k buf = Some (rc, k') /\ inp k' = inp k /\ out k' = out k ++ sent /\
    sent `prefix_of` buf /\ (progress (sched k) -> progress (sched k')) /\
    ((rc = 0 /\ sent = buf) \/ (rc = -1 /\ ~ progress (sched k))).
Proof.
  set (Inv := fun '(total, k') => inp k' = inp k /\ (total <= length buf)%nat /\
    out k' = out k ++ take total buf /\ (progress (sched k) -> progress (sched k'))).
  set (Q := fun '(rc, k') => inp k' = inp k /\
    exists sent, out k' = out k ++ sent /\ sent `prefix_of` buf /\
    (progress (sched k) -> progress (sched k')) /\
    ((rc = 0 /\ sent = buf) \/ (rc = -1 /\ ~ progress (sched k)))).
  assert (exists r, Send k buf = Some r /\ Q r) as [[rc k'] [Hs (Hi & sent & HQ)]].
  { unfold Send. apply (loop_rule Inv (fun '(t, k') => (length buf - t) + length (sched k'))%nat).
    - intros [t k1] s' (Hi & Ht & Ho & Hp). bcase; [|done].
      destruct (sys_send k1 _) as [r k2] eqn:Es. apply sys_send_next in Es as (Hi2 & Hp2 & Hr).
      2:{ intros H%(f_equal length). rewrite length_drop in H. simpl in H. lia. }
      destruct r as [[|b l]| |]; [done| |intros [= <-]|done].
      + intros [= <-]. destruct Hr as (Hl & Ho2 & Hsl & _).
        assert ((S (length l)) <= length buf - t)%nat.
        { apply (f_equal length) in Hl. rewrite length_take, length_drop in Hl. cbn [length] in Hl. lia. }
        simpl in *. split; [|lia]. split_and!; [congruence|lia| |auto].
        rewrite Ho2, Ho, <- app_assoc, Hl. f_equal. apply take_drop_app.
      + destruct Hr. simpl. split; [|lia]. split_and!; auto; congruence.
    - intros [t k1] [rc k2] (Hi & Ht & Ho & Hp). bcase.
      + destruct (sys_send k1 _) as [r k3] eqn:Es. apply sys_send_next in Es as (Hi2 & Hp2 & Hr).
        2:{ intros H%(f_equal length). rewrite length_drop in H. simpl in H. lia. }
        assert (Hpre : take t buf `prefix_of` buf) by apply prefix_take.
        destruct r as [[|b l]| |]; try done; intros [= <- <-]; (split; [congruence|]); exists (take t buf).
        * destruct Hr as (_ & Ho2 & _ & Hn). rewrite app_nil_r in Ho2.
          split_and!; auto; [congruence|]. right. split; [done|]. intros HH. by apply Hn; auto.
        * destruct Hr as [Ho2 Hn]. split_and!; auto; [congruence|].
          right. split; [done|]. intros HH. by apply Hn; auto.
      + intros [= <- <-]. split; [done|]. exists buf. rewrite take_ge in Ho by lia. split_and!; auto.
    - simpl. rewrite app_nil_r. split_and!; auto. lia.
    - simpl. lia. }
  exists rc, k', sent. split_and!; try apply HQ; done.
Qed.

(** Sending messages one after the other until one fails. *)
Fixpoint send_all (k : sock) (ms : list Msg) : option sock :=
  match ms with
  | [] => Some k
  | m :: ms =>
      '(rc, k) ← Transceiver_Send k m;
      if rc <? 0 then Some k else send_all k ms
  end.

Definition wire (ms : list Msg) : list Z := concat (Serialize <$> ms).

Lemma send_all_spec ms k :
  exists k' n, send_all k ms = Some k' /\ out k' = out k ++ take n (wire ms) /\
    (progress (sched k) -> (length (wire ms) <= n)%nat).
Proof.
  revert k. induction ms as [|m ms IH]; intros k; cbn [send_all].
  - exists k, 0%nat. rewrite app_nil_r. split_and!; auto.
  - unfold Transceiver_Send. destruct (Send_spec k (Serialize m)) as (rc & k1 & sent & -> & _ & Ho & Hpre & Hp & Hc).
    cbn [mbind option_bind]. change (wire (m :: ms)) with (Serialize m ++ wire ms).
    destruct Hc as [[-> ->]|[-> Hn]].
    + change (0 <? 0) with false. cbv iota. destruct (IH k1) as (k' & n & -> & Ho' & Hn).
      exists k', (length (Serialize m) + n)%nat. split_and!; [done| |].
      * rewrite Ho', Ho, <- app_assoc. f_equal. by rewrite take_app_add.
      * intros H. rewrite length_app. specialize (Hn (Hp H)). lia.
    + change (-1 <? 0) with true. cbv iota. exists k1, (length sent). split_and!; [done| |done].
      rewrite Ho. f_equal. destruct Hpre as [l ->]. rewrite <- app_assoc. by rewrite take_app_length.
Qed.

(** ** Properties *)

(** What the receiving thread does with a cut of the wire. *)
Lemma recv_wire fuel ms buf k done n :
  Forall msg_ok ms -> Forall (fun m => m_size m < 2 ^ 63) ms ->
  byte_list buf -> (Z.to_nat kHeaderSize <= length buf)%nat ->
  inp k = take n (wire ms) -> (length ms < fuel)%nat ->
  exists pre l, oloop fuel recv_step (buf, k, done) = Some (Closed, done ++ l) /\
    pre `prefix_of` ms /\ Forall2 received pre l /\
    (no_fail (sched k) -> (length (wire ms) <= n)%nat -> pre = ms).
Proof.
  intros Hok. revert fuel buf k done n. induction Hok as [|m ms Hm Hms IH];
    intros fuel buf k done n Hsz Hb Hl Hi Hf; (destruct fuel as [|fuel]; [simpl in Hf; lia|]); cbn [oloop].
  - destruct (Recv_spec k (Z.to_nat kHeaderSize)) as (rc & bs & k1 & Hr & _ & Hbs & _ & _ & _ & Hc).
    unfold recv_step. rewrite Hr. cbn [mbind option_bind]. change (wire []) with (@nil Z) in Hi. rewrite take_nil in Hi.
    rewrite Hi, take_nil in Hbs. subst bs. destruct Hc as [[_ H]|[-> _]]; [done|].
    exists [], []. rewrite app_nil_r. done.
  - apply Forall_cons in Hsz as [Hz Hsz]. change (wire (m :: ms)) with (Serialize m ++ wire ms) in *.
    destruct (recv_step_msg m Hm Hz buf k done _ n Hb Hl Hi)
      as [(buf' & k' & m' & -> & Hrec & Hb' & Hl' & Hk' & Hnf)|[-> Hn]].
    + destruct (IH fuel buf' k' (done ++ [m']) _ Hsz Hb' Hl' Hk') as (pre & l & -> & Hpre & Hall & Hend);
        [simpl in Hf; lia|].
      exists (m :: pre), (m' :: l). rewrite <- app_assoc. split_and!; [done| |by constructor|].
      * by apply prefix_cons.
      * intros H Hle. rewrite length_app in Hle. f_equal. apply Hend; [auto|lia].
    + exists [], []. rewrite app_nil_r. split_and!; [done|apply prefix_nil|constructor|].
      intros H Hle. specialize (Hn H). rewrite length_app in Hle. lia.
Qed.

(** C29. The message link delivers what was sent. However the two sockets split,
    interrupt or fail the transfers, the receiving thread hands a prefix of the
    messages sent to the handler, in order, each with its header and payload intact;
    when no call fails it delivers all of them. *)
Theorem link_delivers_messages ms k k' sched_r fuel :
  Forall msg_ok ms -> Forall (fun m => m_size m < 2 ^ 63) ms -> (length ms < fuel)%nat ->
  out k = [] -> send_all k ms = Some k' ->
  exists pre l, Transceiver_Recv fuel (mkSock (out k') [] sched_r) = Some (Closed, l) /\
    pre `prefix_of` ms /\ Forall2 received pre l /\
    (progress (sched k) -> no_fail sched_r -> pre = ms).
Proof.
  intros Hok Hsz Hf Ho Hs. destruct (send_all_spec ms k) as (k2 & n & Hs2 & Ho2 & Hn).
  rewrite Hs in Hs2. simplify_eq. rewrite Ho in Ho2. simpl in Ho2.
  destruct (recv_wire fuel ms (replicate (Z.to_nat kHeaderSize) 0) (mkSock (out k2) [] sched_r) [] n
    Hok Hsz) as (pre & l & Hr & Hpre & Hall & Hend); try done.
  - apply Forall_replicate. lia.
  - exists pre, l. split_and!; auto.
Qed.

Definition sample_msgs : list Msg :=
  [mkMsg Cmd_Put 7 0x62000 3 Status_Okay [10; 20; 30];
   mkMsg Cmd_Get 8 0x61000 64 Status_Okay [];
   mkMsg Cmd_AccessAckData 8 0x61000 2 Status_Okay [255; 1]].

Lemma link_delivers_messages_witness :
  exists k', send_all (mkSock [] [] [SRetry; SData 5; SData 1]) sample_msgs = Some k' /\
  exists pre l, Transceiver_Recv 5 (mkSock (out k') [] [SData 2; SRetry; SData 100]) = Some (Closed, l) /\
    pre `prefix_of` sample_msgs /\ Forall2 received pre l.
Proof.
  destruct (send_all (mkSock [] [] [SRetry; SData 5; SData 1]) sample_msgs) as [k'|] eqn:E;
    [|vm_compute in E; discriminate].
  exists k'. split; [done|].
  destruct (link_delivers_messages sample_msgs (mkSock [] [] [SRetry; SData 5; SData 1]) k'
    [SData 2; SRetry; SData 100] 5) as (pre & l & H1 & H2 & H3 & _).
  - repeat constructor; simpl; unfold fits, byte_list; try lia; try done; repeat constructor; lia.
  - repeat constructor; simpl; lia.
  - simpl. lia.
  - done.
  - exact E.
  - exists pre, l. done.
Defined.

(** The receiving thread trusts the size field of a header: when header size
    plus payload size wraps around, the buffer is not grown, and receiving the
    payload writes past its end. *)
Theorem recv_size_wraps m rest sched_r :
  header_ok m -> has_data m = true -> 2 ^ 64 - kHeaderSize <= m_size m -> no_fail sched_r ->
  Transceiver_Recv 1 (mkSock (frame_header m ++ rest) [] sched_r)
  = Some (Overrun (Z.to_nat kHeaderSize) (m_size m), []).
Proof.
  intros Hm Hd Hz Hnf. unfold Transceiver_Recv. cbn [oloop]. unfold recv_step.
  destruct (Recv_piece (mkSock (frame_header m ++ rest) [] sched_r) (frame_header m) rest
    (length (frame_header m ++ rest))) as (rc & bs & k1 & Hr & _ & _ & Hc);
    [by rewrite firstn_all|].
  rewrite length_frame_header in Hr. rewrite Hr. cbn [mbind option_bind].
  destruct Hc as [(-> & -> & _)|[_ H]]; [|specialize (H Hnf); rewrite length_app in H; lia].
  change (0 <? 0) with false. cbv iota.
  replace (write_at (replicate (Z.to_nat kHeaderSize) 0) 0 (frame_header m)) with (frame_header m ++ [])
    by (unfold write_at; by rewrite take_0, drop_ge
          by (rewrite length_replicate, length_frame_header; done)).
  rewrite Deserialize_header by (done || constructor).
  change (has_data (mkMsg (m_cmd m) _ _ _ _ _)) with (has_data m). rewrite Hd. cbn [m_size].
  pose proof (ok_size m Hm) as Hs. unfold fits in Hs. rewrite app_nil_r.
  assert (Hw : kHeaderSize +% m_size m = kHeaderSize + m_size m - 2 ^ 64).
  { unfold wrap. symmetry. apply (Z.mod_unique _ _ 1); unfold kHeaderSize in *; lia. }
  rewrite Hw, length_frame_header.
  rewrite (proj2 (Z.ltb_ge _ (kHeaderSize + m_size m - 2 ^ 64))) by (unfold kHeaderSize in *; lia).
  rewrite length_frame_header, (proj2 (Z.ltb_lt _ _)) by (unfold kHeaderSize in *; lia). done.
Qed.

Lemma recv_size_wraps_witness :
  let m := mkMsg Cmd_AccessAckData 3 0 (2 ^ 64 - 4) 0 [] in
  Transceiver_Recv 1 (mkSock (frame_header m ++ [1; 2]) [] [SData 3])
  = Some (Overrun 28 (2 ^ 64 - 4), []).
Proof.
  apply (recv_size_wraps (mkMsg Cmd_AccessAckData 3 0 (2 ^ 64 - 4) 0 []) [1; 2] [SData 3]);
    [split; simpl; unfold fits, Cmd_AccessAckData; lia|done|unfold kHeaderSize; simpl; lia|].
  unfold no_fail. rewrite not_elem_of_cons. split; [done|]. apply not_elem_of_nil.
Defined.
