(* ===== verification/Real.v ===== *)
(** * The transport interface of the HAL (hal/src/real/real.h)

    What hal.cc asks of a device: register reads and writes, the reset doorbell,
    copies to and from the scratchpad, the device clock, and the configuration
    snapshot. [Transport] is that interface; LvDriver.v implements it over the
    message link, and Hal.v is written against it. [dev] is everything behind the
    interface, so a call can return anything the device has become by then. *)

From S2P Require Import Prelude.

Record ConfigurationSnapshot := mkConfig {
  num_cores : Z;
  threads_per_warp : Z;
  warps_per_core : Z;
  local_mem_size : Z;
  shared_cache_size : Z;
  cache_line_size : Z;
  global_mem_base : Z;
  global_mem_alloc_base : Z;
  global_mem_size : Z;
  global_mem_noncache_alloc_base : Z;
  global_mem_noncache_alloc_size : Z;
  fsa_mmio_base : Z;
  clint_base : Z;
}.

(** Every call returns its status first; the value of a read is meaningful only
    with status 0. [fsa_real_mmio] is two functions: with [rd_ptr] it reads, without
    it writes. The scratchpad copies loop, so they carry the option of
    running out of fuel. *)
Class Transport := {
  dev : Type;
  fsa_real_init : dev -> Z * dev;
  fsa_real_mmio_read : dev -> Z -> Z * Z * dev;
  fsa_real_mmio_write : dev -> Z -> Z -> Z * dev;
  fsa_real_cp_reset : dev -> Z * dev;
  fsa_real_copy_to_scratchpad : dev -> Z -> list Z -> option (Z * dev);
  fsa_real_copy_from_scratchpad : dev -> Z -> Z -> option (Z * list Z * dev);
  fsa_real_poll_backoff : dev -> Z * Z * dev;
  fsa_real_time_ns : dev -> Z * Z * dev;
  fsa_real_abort : dev -> dev;
  fsa_real_cleanup : dev -> dev;
  load_configuration_snapshot : dev -> Z * dev;
  configuration_snapshot : dev -> option ConfigurationSnapshot;
  reset_configuration_snapshot : dev -> dev;
}.
