(* ===== verification/LvDriver.v ===== *)
(** * The simulator transport of the HAL
      (hal/src/real/lv/lv-driver.cc, hal/src/real/lv/lv-config.cc)

    The driver turns every access of the device into a request on the message link
    (LibComm.v) and waits for the response with the request's identifier; the
    receiver thread stores the responses and serves the device's accesses to host
    memory. [Link] is the other end of the connection: what it answers, and what
    the receiver thread gets while a caller waits, is up to it. One caller is
    followed; responses to the others pass through the same table.

    The copies to and from the scratchpad are cut at cache lines. *)

From S2P Require Import Prelude AddrMap CMem LibComm Real.
From stdpp Require Import gmap.
#[local] Open Scope Z_scope.
#[local] Open Scope cint_scope.

(** ** The other end *)

Class Link := {
  peer : Type;
  peer_connect : peer -> bool * peer;
  peer_alive : peer -> bool;
  peer_send : peer -> Msg -> Z * peer;       (* Transceiver::Send *)
  peer_deliver : peer -> list Msg * peer;    (* received within the five seconds of a wait *)
  peer_close : peer -> peer;
}.

Record StoredResponse := mkResponse { r_status : Z; r_time_ns : Z; r_data : list Z }.

Section driver.
Context {L : Link}.

(** The client, the link, the snapshot of lv-config.cc and host memory. *)
Record drv := mkDrv {
  connected : bool;                          (* client.transceiver *)
  msg_id : Z;
  response : gmap Z StoredResponse;
  link : peer;
  snapshot : option ConfigurationSnapshot;
  host_mem : mem;
}.

Definition set_link (p : peer) (d : drv) : drv :=
  mkDrv (connected d) (msg_id d) (response d) p (snapshot d) (host_mem d).
Definition set_response (r : gmap Z StoredResponse) (d : drv) : drv :=
  mkDrv (connected d) (msg_id d) r (link d) (snapshot d) (host_mem d).
Definition set_host_mem (m : mem) (d : drv) : drv :=
  mkDrv (connected d) (msg_id d) (response d) (link d) (snapshot d) m.
Definition set_snapshot (c : option ConfigurationSnapshot) (d : drv) : drv :=
  mkDrv (connected d) (msg_id d) (response d) (link d) c (host_mem d).

Definition alive (d : drv) : bool := connected d && peer_alive (link d).

(** [client.msg_id++], converted to the caller's [uint32_t]. *)
Definition take_id (d : drv) : Z * drv :=
  (u32 (msg_id d),
   mkDrv (connected d) (msg_id d +% 1) (response d) (link d) (snapshot d) (host_mem d)).

Definition send (m : Msg) (d : drv) : Z * drv :=
  let '(rc, p) := peer_send (link d) m in (rc, set_link p d).

(** ** The receiver thread *)

Definition store_response (m : Msg) (d : drv) : drv :=
  let data := if has_data m && (0 <? m_size m) then take (Z.to_nat (m_size m)) (m_data m) else [] in
  let resp := mkResponse (m_status m) (if m_cmd m =? Cmd_WaitAck then m_addr m else 0) data in
  (* emplace keeps an entry that is already there *)
  match response d !! m_id m with
  | Some _ => d
  | None => set_response (<[m_id m := resp]> (response d)) d
  end.

Definition sync_handler (m : Msg) (d : drv) : drv :=
  let d :=
    if is_request m then
      if m_cmd m =? Cmd_Get then
        snd (send (with_data (bytes (host_mem d) (m_addr m) (Z.to_nat (m_size m))) (Respond m)) d)
      else if m_cmd m =? Cmd_Put then
        let d := set_host_mem (store_bytes (host_mem d) (m_addr m)
                   (take (Z.to_nat (m_size m)) (m_data m))) d in
        snd (send (Respond m) d)
      else d
    else d in
  if is_response m then store_response m d else d.

Definition handle_all (ms : list Msg) (d : drv) : drv := foldl (fun d m => sync_handler m d) d ms.

(** [client.cv.wait_for] and the removal of the response. *)
Definition await (id : Z) (d : drv) : option StoredResponse * drv :=
  let '(ms, p) := peer_deliver (link d) in
  let d := handle_all ms (set_link p d) in
  match response d !! id with
  | None => (None, d)
  | Some r => (Some r, set_response (delete id (response d)) d)
  end.

(** ** Requests *)

Definition fsa_real_put (d : drv) (dev_addr : Z) (data : list Z) : Z * drv :=
  if negb (alive d) then (-1, d) else
  let size := Z.of_nat (length data) in
  if size =? 0 then (0, d) else
  let '(id, d) := take_id d in
  let msg := with_data data (with_size size (with_addr dev_addr (with_id id (Build Cmd_Put)))) in
  let '(rc, d) := send msg d in
  if negb (rc =? 0) then (rc, d) else
  match await id d with
  | (None, d) => (-1, d)
  | (Some r, d) => if negb (r_status r =? Status_Okay) then (-1, d) else (0, d)
  end.

Definition fsa_real_get (d : drv) (dev_addr size : Z) : Z * list Z * drv :=
  if negb (alive d) then (-1, [], d) else
  if size =? 0 then (0, [], d) else
  let '(id, d) := take_id d in
  let msg := with_size size (with_addr dev_addr (with_id id (Build Cmd_Get))) in
  let '(rc, d) := send msg d in
  if negb (rc =? 0) then (rc, [], d) else
  match await id d with
  | (None, d) => (-1, [], d)
  | (Some r, d) =>
      if negb (r_status r =? Status_Okay) then (-1, [], d) else
      if negb (Z.of_nat (length (r_data r)) =? size) then (-1, [], d) else
      (0, r_data r, d)
  end.

Definition wait_device_time (d : drv) (duration_ns : Z) : Z * Z * drv :=
  if negb (alive d) then (-1, 0, d) else
  let '(id, d) := take_id d in
  let '(rc, d) := send (with_addr duration_ns (with_id id (Build Cmd_Wait))) d in
  if negb (rc =? 0) then (-1, 0, d) else
  match await id d with
  | (None, d) => (-1, 0, d)
  | (Some r, d) => (if r_status r =? Status_Okay then 0 else -1, r_time_ns r, d)
  end.

Definition lv_time_ns (d : drv) : Z * Z * drv := wait_device_time d 0.
Definition lv_poll_backoff (d : drv) : Z * Z * drv := wait_device_time d 1000.

Definition lv_mmio_write (d : drv) (offset wr_val : Z) : Z * drv :=
  match snapshot d with
  | None => (-1, d)
  | Some config => fsa_real_put d (fsa_mmio_base config +% offset) (le_bytes 8 wr_val)
  end.
Definition lv_mmio_read (d : drv) (offset : Z) : Z * Z * drv :=
  match snapshot d with
  | None => (-1, 0, d)
  | Some config =>
      let '(rc, bs, d) := fsa_real_get d (fsa_mmio_base config +% offset) 8 in (rc, le_val bs, d)
  end.

Definition FSA_CLINT_MSIP_OFFSET : Z := 0.
Definition lv_cp_reset (d : drv) : Z * drv :=
  match snapshot d with
  | None => (-1, d)
  | Some config => fsa_real_put d (clint_base config +% FSA_CLINT_MSIP_OFFSET) (le_bytes 4 1)
  end.

(** ** Scratchpad copies *)

(** Where the piece that starts at [begin_addr] ends. *)
Definition piece_end (block_size begin_addr limit : Z) : Z :=
  Z.min ((begin_addr / block_size + 1) *% block_size) limit.

Definition lv_copy_to_scratchpad (d : drv) (dev_addr : Z) (data : list Z) : option (Z * drv) :=
  match snapshot d with
  | None => Some (-1, d)
  | Some config =>
      let block_size := cache_line_size config in
      if block_size =? 0 then Some (-1, d) else
      let limit := dev_addr +% Z.of_nat (length data) in
      loop (S (length data)) (fun '(begin_addr, d) =>
        if begin_addr <? limit then
          let end_addr := piece_end block_size begin_addr limit in
          let piece := take (Z.to_nat (end_addr -% begin_addr)) (drop (Z.to_nat (begin_addr - dev_addr)) data) in
          let '(status, d) := fsa_real_put d begin_addr piece in
          if negb (status =? 0) then inr (status, d) else inl (end_addr, d)
        else inr (0, d)) (dev_addr, d)
  end.

(** Also returns the bytes stored at [host_ptr]. *)
Definition lv_copy_from_scratchpad (d : drv) (dev_addr size : Z) : option (Z * list Z * drv) :=
  match snapshot d with
  | None => Some (-1, [], d)
  | Some config =>
      let block_size := cache_line_size config in
      if block_size =? 0 then Some (-1, [], d) else
      let limit := dev_addr +% size in
      loop (S (Z.to_nat size)) (fun '(begin_addr, got, d) =>
        if begin_addr <? limit then
          let end_addr := piece_end block_size begin_addr limit in
          let '(status, bs, d) := fsa_real_get d begin_addr (end_addr -% begin_addr) in
          if negb (status =? 0) then inr (status, got, d) else inl (end_addr, got ++ bs, d)
        else inr (0, got, d)) (dev_addr, [], d)
  end.

(** ** Connection *)

(** Five attempts to connect. *)
Fixpoint connect_retry (retries : nat) (d : drv) : drv :=
  match retries with
  | O => d
  | S n =>
      let '(ok, p) := peer_connect (link d) in
      let d := mkDrv ok (msg_id d) (response d) p (snapshot d) (host_mem d) in
      if ok then d else connect_retry n d
  end.
Definition lv_init (d : drv) : Z * drv :=
  let d := connect_retry 5 d in
  if negb (connected d) then (-1, d) else (0, d).

Definition lv_abort (d : drv) : drv :=
  mkDrv false 0 ∅ (peer_close (link d)) (snapshot d) (host_mem d).
Definition lv_cleanup (d : drv) : drv :=
  let d := if connected d then snd (send (with_id 0 (Build Cmd_Terminate)) d) else d in
  lv_abort d.

(** ** lv-config.cc *)

Definition read_capability (d : drv) (offset : Z) : Z * Z * drv :=
  let '(rc, bs, d) := fsa_real_get d (FSA_SYSTEM_INFO_BASE + offset) 8 in (rc, le_val bs, d).

(** Reads in turn, up to the first that fails. *)
Fixpoint read_capabilities (d : drv) (offsets : list Z) : option (list Z) * drv :=
  match offsets with
  | [] => (Some [], d)
  | o :: os =>
      let '(rc, v, d) := read_capability d o in
      if negb (rc =? 0) then (None, d) else
      let '(vs, d) := read_capabilities d os in
      ((fun l => v :: l) <$> vs, d)
  end.

Definition lv_load_configuration_snapshot (d : drv) : Z * drv :=
  match read_capabilities d [FSA_SYSTEM_INFO_OFF_ABI_VERSION; FSA_SYSTEM_INFO_OFF_LENGTH] with
  | (Some [version; length], d) =>
      if negb (version =? FSA_SYSTEM_INFO_ABI_VERSION) || (length <? FSA_SYSTEM_INFO_LENGTH)
      then (-1, set_snapshot None d) else
      match read_capabilities d
        [FSA_SYSTEM_INFO_OFF_NUM_SM; FSA_SYSTEM_INFO_OFF_THREADS_PER_WARP;
         FSA_SYSTEM_INFO_OFF_WARPS_PER_CORE; FSA_SYSTEM_INFO_OFF_LOCAL_MEM_SIZE;
         FSA_SYSTEM_INFO_OFF_SHARED_CACHE_SIZE; FSA_SYSTEM_INFO_OFF_CACHE_BLOCK_SIZE;
         FSA_SYSTEM_INFO_OFF_GLOBAL_ALLOC_BASE] with
      | (Some [sms; tpw; wpc; lmem; cache; line; alloc], d) =>
          (0, set_snapshot (Some (mkConfig sms tpw wpc lmem cache line
                 FSA_GLOBAL_MEM_BASE alloc FSA_GLOBAL_MEM_SIZE
                 FSA_NONCACHE_ALLOC_BASE FSA_NONCACHE_ALLOC_SIZE FSA_MMIO_BASE FSA_CLINT_BASE)) d)
      | (_, d) => (-1, set_snapshot None d)
      end
  | (_, d) => (-1, set_snapshot None d)
  end.

End driver.
Arguments drv : clear implicits.

#[global] Instance lv_transport {L : Link} : Transport := {|
  dev := drv L;
  fsa_real_init := lv_init;
  fsa_real_mmio_read := lv_mmio_read;
  fsa_real_mmio_write := lv_mmio_write;
  fsa_real_cp_reset := lv_cp_reset;
  fsa_real_copy_to_scratchpad := lv_copy_to_scratchpad;
  fsa_real_copy_from_scratchpad := lv_copy_from_scratchpad;
  fsa_real_poll_backoff := lv_poll_backoff;
  fsa_real_time_ns := lv_time_ns;
  fsa_real_abort := lv_abort;
  fsa_real_cleanup := lv_cleanup;
  load_configuration_snapshot := lv_load_configuration_snapshot;
  configuration_snapshot := snapshot;
  reset_configuration_snapshot := set_snapshot None;
|}.

(** ** Scratchpad copies are cut at cache lines *)

(** [ps] cuts [data], placed at [addr], into non-empty pieces inside one line each,
    every piece but the last up to the end of its line. *)
Inductive cut_at_lines (line : Z) : Z -> list Z -> list (Z * list Z) -> Prop :=
  | cut_nil addr : cut_at_lines line addr [] []
  | cut_cons addr p rest ps :
      p <> [] ->
      addr / line = (addr + Z.of_nat (length p) - 1) / line ->
      rest = [] \/ (line | addr + Z.of_nat (length p)) ->
      cut_at_lines line (addr + Z.of_nat (length p)) rest ps ->
      cut_at_lines line addr (p ++ rest) ((addr, p) :: ps).

Section pieces.
Context {L : Link} (line addr : Z) (data : list Z).
Context (Hline : 0 < line) (Haddr : 0 <= addr) (Hend : addr + Z.of_nat (length data) + line <= 2 ^ 64).
Let limit := addr + Z.of_nat (length data).

Lemma limit_eq : addr +% Z.of_nat (length data) = limit.
Proof using Hline Haddr Hend. apply wrap_small. unfold limit. lia. Qed.

(** The end of a piece: inside the line, past the start, and either the limit or a
    line boundary. *)
Lemma piece_end_spec b :
  addr <= b < limit ->
  let e := piece_end line b limit in
  b < e <= limit /\ b / line = (e - 1) / line /\ (e = limit \/ (line | e)).
Proof using Hline Haddr Hend.
  intros Hb e. subst e. unfold piece_end. pose proof (Z.div_mod b line ltac:(lia)) as Hd.
  pose proof (Z.mod_pos_bound b line ltac:(lia)) as Hm.
  assert (0 <= b / line) by (apply Z.div_pos; lia).
  rewrite wrap_small by (unfold limit in *; nia).
  set (e := (b / line + 1) * line).
  assert (He : e = line * (b / line) + line) by (unfold e; ring).
  split; [lia|]. split.
  - clearbody e. generalize dependent (b / line). intros q **.
    apply (Z.div_unique_pos _ _ _ (Z.min e limit - 1 - line * q)); [|ring].
    generalize dependent (line * q). intros. lia.
  - destruct (Z.min_spec e limit) as [[_ ->]|[_ ->]]; [right; by exists (b / line + 1)|by left].
Qed.

Fixpoint put_all (d : drv L) (ps : list (Z * list Z)) : Z * drv L :=
  match ps with
  | [] => (0, d)
  | (a, p) :: ps =>
      let '(status, d) := fsa_real_put d a p in
      if negb (status =? 0) then (status, d) else put_all d ps
  end.
Fixpoint get_all (d : drv L) (ps : list (Z * list Z)) : Z * list Z * drv L :=
  match ps with
  | [] => (0, [], d)
  | (a, p) :: ps =>
      let '(status, bs, d) := fsa_real_get d a (Z.of_nat (length p)) in
      if negb (status =? 0) then (status, [], d) else
      let '(status, rest, d) := get_all d ps in (status, bs ++ rest, d)
  end.

(** One piece of the data from offset [b - addr]. *)
Lemma piece_length b :
  addr <= b < limit ->
  let e := piece_end line b limit in
  let p := take (Z.to_nat (e -% b)) (drop (Z.to_nat (b - addr)) data) in
  Z.of_nat (length p) = e - b /\ e -% b = e - b /\
  drop (Z.to_nat (b - addr)) data = p ++ drop (Z.to_nat (e - addr)) data.
Proof using Hline Haddr Hend.
  intros Hb e p. destruct (piece_end_spec b Hb) as (He & _). fold e in He. unfold limit in *.
  assert (Hw : e -% b = e - b) by (apply wrap_small; lia).
  subst p. rewrite Hw. split_and!; [|done|].
  - rewrite length_take, length_drop. lia.
  - replace (Z.to_nat (e - addr)) with (Z.to_nat (b - addr) + Z.to_nat (e - b))%nat by lia.
    by rewrite <- drop_drop, take_drop.
Qed.

Lemma cut_exists b :
  addr <= b <= limit -> exists ps, cut_at_lines line b (drop (Z.to_nat (b - addr)) data) ps /\
  (forall n d, (Z.to_nat (limit - b) < n)%nat ->
     loop n (fun '(begin_addr, d) =>
        if begin_addr <? limit then
          let end_addr := piece_end line begin_addr limit in
          let piece := take (Z.to_nat (end_addr -% begin_addr)) (drop (Z.to_nat (begin_addr - addr)) data) in
          let '(status, d) := fsa_real_put d begin_addr piece in
          if negb (status =? 0) then inr (status, d) else inl (end_addr, d)
        else inr (0, d)) (b, d) = Some (put_all d ps)) /\
  (forall n d got, (Z.to_nat (limit - b) < n)%nat ->
     loop n (fun '(begin_addr, got, d) =>
        if begin_addr <? limit then
          let end_addr := piece_end line begin_addr limit in
          let '(status, bs, d) := fsa_real_get d begin_addr (end_addr -% begin_addr) in
          if negb (status =? 0) then inr (status, got, d) else inl (end_addr, got ++ bs, d)
        else inr (0, got, d)) (b, got, d)
     = Some (let '(status, bs, d) := get_all d ps in (status, got ++ bs, d))).
Proof using Hline Haddr Hend.
  remember (Z.to_nat (limit - b)) as k eqn:Hk. revert b Hk.
  induction k as [k IH] using lt_wf_ind. intros b Hk Hb.
  destruct (Z.lt_ge_cases b limit) as [Hlt|Hge].
  - destruct (piece_end_spec b ltac:(lia)) as (He & Hdiv & Hlast).
    destruct (piece_length b ltac:(lia)) as (Hlp & Hw & Hsplit).
    set (e := piece_end line b limit) in *.
    set (p := take (Z.to_nat (e -% b)) (drop (Z.to_nat (b - addr)) data)) in *.
    destruct (IH (Z.to_nat (limit - e)) ltac:(lia) e eq_refl ltac:(lia)) as (ps & Hcut & Hput & Hget).
    assert (Hlb : (b <? limit) = true) by (apply Z.ltb_lt; lia).
    exists ((b, p) :: ps). split_and!.
    + rewrite Hsplit. replace e with (b + Z.of_nat (length p)) in Hcut, Hdiv, Hlast |- * by lia.
      constructor; [|done| |done].
      * intros Hn. rewrite Hn in Hlp. simpl in Hlp. lia.
      * destruct Hlast as [Hl|Hl]; [left|by right]. apply drop_ge. unfold limit in *. lia.
    + intros [|n] d Hn; [lia|]. cbn [loop put_all]. rewrite Hlb. fold e. cbv zeta. fold p.
      destruct (fsa_real_put d b p) as [st d']. destruct (negb (st =? 0)); [done|].
      apply Hput. lia.
    + intros [|n] d got Hn; [lia|]. cbn [loop get_all]. rewrite Hlb. fold e. cbv zeta.
      rewrite Hw, Hlp. destruct (fsa_real_get d b (e - b)) as [[st bs] d'].
      destruct (negb (st =? 0)); [by rewrite app_nil_r|].
      rewrite Hget by lia. destruct (get_all d' ps) as [[st' bs'] d'']. by rewrite app_assoc.
  - assert (b = limit) as -> by lia.
    assert (Hlb : (limit <? limit) = false) by (apply Z.ltb_ge; lia).
    exists []. split_and!.
    + rewrite drop_ge by (unfold limit; lia). constructor.
    + intros [|n] d Hn; [lia|]. cbn [loop]. by rewrite Hlb.
    + intros [|n] d got Hn; [lia|]. cbn [loop get_all]. rewrite Hlb. by rewrite app_nil_r.
Qed.
End pieces.

(** A copy to or from the scratchpad is cut at cache lines: the loop ends, sends
    the pieces of a fixed cut of the range in address order, each inside one line
    and as long as the line allows, and stops at the first piece that fails; what a
    copy from the device returns is the pieces put together. *)
Theorem scratchpad_copies_by_line {L : Link} (d : drv L) config addr data :
  snapshot d = Some config -> 0 < cache_line_size config -> 0 <= addr ->
  addr + Z.of_nat (length data) + cache_line_size config <= 2 ^ 64 ->
  exists ps, cut_at_lines (cache_line_size config) addr data ps /\
    lv_copy_to_scratchpad d addr data = Some (put_all d ps) /\
    lv_copy_from_scratchpad d addr (Z.of_nat (length data)) = Some (get_all d ps).
Proof.
  intros Hs Hline Ha Hend.
  destruct (cut_exists (L := L) _ addr data Hline Ha Hend addr ltac:(lia)) as (ps & Hcut & Hput & Hget).
  rewrite Z.sub_diag, drop_0 in Hcut. exists ps. split; [done|].
  unfold lv_copy_to_scratchpad, lv_copy_from_scratchpad. rewrite Hs.
  rewrite (proj2 (Z.eqb_neq _ _)) by lia.
  rewrite (limit_eq (cache_line_size config) addr data Hline Ha Hend).
  rewrite Hput, Hget by lia. split; [done|]. by destruct (get_all d ps) as [[? ?] ?].
Qed.

(** ** A device that keeps what it is sent *)

(** What a device that is memory promises: it stays connected, it answers every
    access with its acknowledgement and nothing else, it stores what is put and
    returns what it stores. *)
Class MemoryLink (L : Link) := {
  peer_mem : peer -> mem;
  peer_answers p m : peer_alive p = true -> m_cmd m = Cmd_Put \/ m_cmd m = Cmd_Get ->
    exists p1 p2 resp, peer_send p m = (0, p1) /\ peer_deliver p1 = ([resp], p2) /\
      peer_alive p2 = true /\ m_cmd resp = m_cmd (Respond m) /\ m_id resp = m_id m /\
      m_size resp = m_size m /\ m_status resp = Status_Okay /\
      (m_cmd m = Cmd_Put ->
         peer_mem p2 = store_bytes (peer_mem p) (m_addr m) (take (Z.to_nat (m_size m)) (m_data m))) /\
      (m_cmd m = Cmd_Get -> peer_mem p2 = peer_mem p /\
         m_data resp = bytes (peer_mem p) (m_addr m) (Z.to_nat (m_size m)));
}.

Section memory_link.
Context {L : Link} {ML : MemoryLink L}.

(** Connected, with no response waiting. *)
Definition idle (d : drv L) : Prop := alive d = true /\ response d = ∅.

Lemma await_single d1 p resp :
  peer_deliver (link d1) = ([resp], p) -> response d1 = ∅ ->
  is_request resp = false -> is_response resp = true -> connected d1 = true -> peer_alive p = true ->
  exists d2, await (m_id resp) d1
    = (Some (mkResponse (m_status resp) (if m_cmd resp =? Cmd_WaitAck then m_addr resp else 0)
        (if has_data resp && (0 <? m_size resp) then take (Z.to_nat (m_size resp)) (m_data resp) else [])),
       d2) /\
    idle d2 /\ link d2 = p /\ snapshot d2 = snapshot d1.
Proof.
  intros Hd Hr Hq Hp Hc Ha. unfold await. rewrite Hd. cbn [handle_all foldl].
  unfold sync_handler. rewrite Hq, Hp. unfold store_response. cbn [response set_link].
  rewrite Hr, lookup_empty. cbn [response set_response]. rewrite lookup_insert_eq.
  eexists. split; [reflexivity|]. split; [|done]. split.
  - unfold alive, set_response, set_link. simpl. rewrite Hc. exact Ha.
  - simpl. by rewrite delete_insert_id by apply lookup_empty.
Qed.

Lemma put_stores d a p :
  idle d -> fits 64 a -> fits 64 (Z.of_nat (length p)) ->
  exists d', fsa_real_put d a p = (0, d') /\ idle d' /\ snapshot d' = snapshot d /\
    (forall x, peer_mem (link d') x = store_bytes (peer_mem (link d)) a p x).
Proof.
  intros [Hal Hr] Ha Hl. unfold fsa_real_put. rewrite Hal. cbn [negb]. bcase.
  { exists d. split_and!; try done. intros x. destruct p; [|simpl in *; lia].
    unfold store_bytes. simpl. bcase; [lia|done]. }
  unfold take_id, send. cbv beta iota zeta. set (m := with_data p _).
  unfold alive in Hal. apply andb_true_iff in Hal as [Hc Hal].
  destruct (peer_answers (link d) m Hal ltac:(by left))
    as (p1 & p2 & resp & Hs & Hdl & Hal2 & Hcmd & Hid & Hsz & Hst & Hput & _).
  cbn [link]. rewrite Hs. change (negb (0 =? 0)) with false. cbv iota.
  set (d1 := set_link p1 _).
  destruct (await_single d1 p2 resp) as (d2 & Haw & Hidle & Hlk & Hsn); try done.
  { unfold is_request. by rewrite Hcmd. } { unfold is_response. by rewrite Hcmd. }
  rewrite Hid in Haw. change (m_id m) with (u32 (u32 (msg_id d))) in Haw. rewrite wrap_idemp in Haw.
  rewrite Haw. cbn [r_status]. rewrite Hst. change (negb (Status_Okay =? Status_Okay)) with false. cbv iota.
  exists d2. split_and!; try apply Hidle; [done|done|]. intros x. rewrite Hlk, Hput by done.
  change (m_addr m) with (u64 a). change (m_size m) with (u64 (Z.of_nat (length p))).
  rewrite !wrap_small by done. rewrite Nat2Z.id. change (m_data m) with p. by rewrite firstn_all.
Qed.

Lemma get_loads d a n :
  idle d -> fits 64 a -> fits 64 (Z.of_nat n) ->
  exists d', fsa_real_get d a (Z.of_nat n) = (0, bytes (peer_mem (link d)) a n, d') /\
    idle d' /\ snapshot d' = snapshot d /\ peer_mem (link d') = peer_mem (link d).
Proof.
  intros [Hal Hr] Ha Hl. unfold fsa_real_get. rewrite Hal. cbn [negb]. bcase.
  { exists d. split_and!; try done. by destruct n. }
  unfold take_id, send. cbv beta iota zeta. set (m := with_size _ _).
  unfold alive in Hal. apply andb_true_iff in Hal as [Hc Hal].
  destruct (peer_answers (link d) m Hal ltac:(by right))
    as (p1 & p2 & resp & Hs & Hdl & Hal2 & Hcmd & Hid & Hsz & Hst & _ & Hget).
  destruct (Hget eq_refl) as [Hm2 Hdata]. change (m_addr m) with (u64 a) in Hdata.
  change (m_size m) with (u64 (Z.of_nat n)) in Hdata, Hsz.
  rewrite (wrap_small _ _ Ha), (wrap_small _ _ Hl), Nat2Z.id in Hdata. rewrite (wrap_small _ _ Hl) in Hsz.
  cbn [link]. rewrite Hs. change (negb (0 =? 0)) with false. cbv iota.
  set (d1 := set_link p1 _).
  destruct (await_single d1 p2 resp) as (d2 & Haw & Hidle & Hlk & Hsn); try done.
  { unfold is_request. by rewrite Hcmd. } { unfold is_response. by rewrite Hcmd. }
  rewrite Hid in Haw. change (m_id m) with (u32 (u32 (msg_id d))) in Haw. rewrite wrap_idemp in Haw.
  rewrite Haw. cbn [r_status r_data]. rewrite Hst. change (negb (Status_Okay =? Status_Okay)) with false. cbv iota.
  replace (has_data resp) with true by (unfold has_data; by rewrite Hcmd).
  rewrite Hsz, Hdata. rewrite (proj2 (Z.ltb_lt _ _)) by lia. cbn [andb].
  rewrite Nat2Z.id, take_ge by (by rewrite length_bytes). rewrite length_bytes, Z.eqb_refl. cbn [negb].
  exists d2. split_and!; try apply Hidle; try done. by rewrite Hlk.
Qed.

Lemma store_bytes_app m a p q x :
  store_bytes (store_bytes m a p) (a + Z.of_nat (length p)) q x = store_bytes m a (p ++ q) x.
Proof.
  unfold store_bytes. rewrite length_app, Nat2Z.inj_add, Z.add_assoc.
  set (b := a + Z.of_nat (length p)).
  destruct (Z.leb_spec a x), (Z.leb_spec b x), (Z.ltb_spec x b), (Z.ltb_spec x (b + Z.of_nat (length q)));
    cbn [andb]; try (unfold b in *; lia); try done.
  - rewrite app_nth2 by (unfold b in *; lia). f_equal. unfold b. lia.
  - rewrite app_nth1 by (unfold b in *; lia). done.
Qed.

Lemma store_bytes_ext m m' a l : (forall x, m x = m' x) -> forall x, store_bytes m a l x = store_bytes m' a l x.
Proof. intros H x. unfold store_bytes. by rewrite H. Qed.

Lemma put_all_stores line a data ps d :
  cut_at_lines line a data ps -> idle d -> 0 <= a -> a + Z.of_nat (length data) < 2 ^ 64 ->
  exists d', put_all d ps = (0, d') /\ idle d' /\ snapshot d' = snapshot d /\
    (forall x, peer_mem (link d') x = store_bytes (peer_mem (link d)) a data x).
Proof.
  intros Hcut. revert d. induction Hcut as [a|a p rest ps Hne _ _ _ IH]; intros d Hd Ha Hl; simpl.
  - exists d. split_and!; try done. intros x. unfold store_bytes. simpl. bcase; [lia|done].
  - rewrite length_app in Hl.
    destruct (put_stores d a p Hd) as (d1 & -> & Hd1 & Hs1 & Hm1); [unfold fits; lia..|].
    cbn [negb Z.eqb]. destruct (IH d1 Hd1) as (d2 & -> & Hd2 & Hs2 & Hm2); [lia..|].
    exists d2. split_and!; try done; [congruence|]. intros x.
    rewrite Hm2, <- store_bytes_app. by apply store_bytes_ext.
Qed.

Lemma get_all_loads line a data ps d :
  cut_at_lines line a data ps -> idle d -> 0 <= a -> a + Z.of_nat (length data) < 2 ^ 64 ->
  exists d', get_all d ps = (0, bytes (peer_mem (link d)) a (length data), d') /\ idle d'.
Proof.
  intros Hcut. revert d. induction Hcut as [a|a p rest ps Hne _ _ _ IH]; intros d Hd Ha Hl; simpl.
  - by exists d.
  - rewrite length_app in *.
    destruct (get_loads d a (length p) Hd) as (d1 & -> & Hd1 & _ & Hm1); [unfold fits; lia..|].
    cbn [negb Z.eqb]. destruct (IH d1 Hd1) as (d2 & -> & Hd2); [lia..|].
    exists d2. rewrite bytes_app, Hm1. done.
Qed.

Lemma bytes_stored (m m' : mem) a data :
  (forall x, m' x = store_bytes m a data x) -> bytes m' a (length data) = data.
Proof.
  intros H. apply (nth_ext _ _ 0 0); [apply length_bytes|]. intros i Hi. rewrite length_bytes in Hi.
  rewrite bytes_nth, H by done. unfold store_bytes.
  rewrite (proj2 (Z.leb_le _ _)), (proj2 (Z.ltb_lt _ _)) by lia. cbn [andb]. f_equal. lia.
Qed.
End memory_link.

(** Over a device that is memory, a copy to the scratchpad succeeds, changes
    exactly the range, whatever its alignment to cache lines, and copying the range
    back returns the same bytes. *)
Theorem scratchpad_roundtrip {L : Link} {ML : MemoryLink L} (d : drv L) config addr data :
  idle d -> snapshot d = Some config -> 0 < cache_line_size config -> 0 <= addr ->
  addr + Z.of_nat (length data) + cache_line_size config <= 2 ^ 64 ->
  exists d1 d2, lv_copy_to_scratchpad d addr data = Some (0, d1) /\
    (forall x, peer_mem (link d1) x = store_bytes (peer_mem (link d)) addr data x) /\
    lv_copy_from_scratchpad d1 addr (Z.of_nat (length data)) = Some (0, data, d2).
Proof.
  intros Hd Hs Hline Ha Hend.
  destruct (cut_exists (L := L) _ addr data Hline Ha Hend addr ltac:(lia)) as (ps & Hcut & Hput & Hget).
  rewrite Z.sub_diag, drop_0 in Hcut.
  destruct (put_all_stores _ _ _ _ d Hcut Hd Ha) as (d1 & Hp & Hd1 & Hs1 & Hm1); [lia|].
  destruct (get_all_loads _ _ _ _ d1 Hcut Hd1 Ha) as (d2 & Hg & Hd2); [lia|].
  exists d1, d2. unfold lv_copy_to_scratchpad, lv_copy_from_scratchpad. rewrite Hs1, Hs.
  rewrite (proj2 (Z.eqb_neq _ _)) by lia.
  rewrite (limit_eq (cache_line_size config) addr data Hline Ha Hend).
  rewrite Hput, Hget, Hp, Hg by lia. split_and!; [done|done|].
  by rewrite (bytes_stored _ _ _ _ Hm1).
Qed.

(** A memory that answers at once. *)
#[global] Instance mem_link : Link := {|
  peer := mem * list Msg;
  peer_connect := fun p => (true, p);
  peer_alive := fun _ => true;
  peer_send := fun p m =>
    (0, if m_cmd m =? Cmd_Put then
          (store_bytes (fst p) (m_addr m) (take (Z.to_nat (m_size m)) (m_data m)), [with_status Status_Okay (Respond m)])
        else (fst p, [with_data (bytes (fst p) (m_addr m) (Z.to_nat (m_size m)))
                        (with_status Status_Okay (Respond m))]));
  peer_deliver := fun p => (snd p, (fst p, []));
  peer_close := fun p => p;
|}.

#[global, refine] Instance mem_link_memory : MemoryLink mem_link := {| peer_mem := fst |}.
Proof.
  intros [m q] msg _ Hc. cbn. destruct Hc as [Hc|Hc]; rewrite Hc;
    eexists _, _, _; (split; [reflexivity|]); (split; [reflexivity|]); unfold Respond; rewrite Hc;
    split_and!; done.
Defined.

Definition sample_config : ConfigurationSnapshot :=
  mkConfig 4 32 8 0xC000 0x4000 64 FSA_GLOBAL_MEM_BASE 0x82000000 FSA_GLOBAL_MEM_SIZE
    FSA_NONCACHE_ALLOC_BASE FSA_NONCACHE_ALLOC_SIZE FSA_MMIO_BASE FSA_CLINT_BASE.
Definition sample_drv : drv mem_link :=
  mkDrv true 7 ∅ (fun _ => 0, []) (Some sample_config) (fun _ => 0).

Lemma scratchpad_copies_by_line_witness :
  exists ps, cut_at_lines 64 0x62038 (seqZ 0 20) ps /\
    lv_copy_to_scratchpad sample_drv 0x62038 (seqZ 0 20) = Some (put_all sample_drv ps) /\
    lv_copy_from_scratchpad sample_drv 0x62038 20 = Some (get_all sample_drv ps).
Proof.
  apply (scratchpad_copies_by_line sample_drv sample_config 0x62038 (seqZ 0 20));
    [done|simpl; lia|lia|simpl; lia].
Defined.

Lemma scratchpad_roundtrip_witness :
  exists d1 d2, lv_copy_to_scratchpad sample_drv 0x62038 (seqZ 0 20) = Some (0, d1) /\
    (forall x, peer_mem (link d1) x = store_bytes (peer_mem (link sample_drv)) 0x62038 (seqZ 0 20) x) /\
    lv_copy_from_scratchpad d1 0x62038 20 = Some (0, seqZ 0 20, d2).
Proof.
  apply (scratchpad_roundtrip sample_drv sample_config 0x62038 (seqZ 0 20));
    [done|done|simpl; lia|lia|simpl; lia].
Defined.
