(* ===== verification/ToyDevice.v ===== *)
(** * A device for the examples of the host runtime

    A transport that answers at once: registers, memory, a clock that advances by a
    microsecond per back-off, and firmware that boots as soon as an image size is
    written. It stands for no code of the repository; the theorems about Hal.v are
    about every transport, and this one shows that their hypotheses can hold. *)

From S2P Require Import Prelude AddrMap CMem Real CommandAbi.

Record toy := mkToy {
  t_regs : Z -> Z;
  t_mem : mem;
  t_clock : Z;
  t_config : option ConfigurationSnapshot;
}.

Definition set_reg (o v : Z) (r : Z -> Z) : Z -> Z := fun x => if x =? o then v else r x.

(** Writing the image size boots the firmware; other registers are stored. *)
Definition toy_write (d : toy) (o v : Z) : toy :=
  if o =? FSA_CP_OFF_FW_SIZE then
    let r := set_reg FSA_CP_OFF_FW_SIZE 0
      (set_reg FSA_CP_OFF_FW_STATUS (FsaFirmwareStatus_code kFsaFirmwareStatusReady)
      (set_reg FSA_CP_OFF_FW_ABI_VERSION FSA_COMMAND_ABI_VERSION_V3
      (set_reg FSA_CP_OFF_FW_BOOT_GENERATION (t_regs d FSA_CP_OFF_FW_BOOT_GENERATION + 1)
      (set_reg FSA_CP_OFF_RD_PTR 0 (set_reg FSA_CP_OFF_WR_PTR 0 (t_regs d)))))) in
    mkToy r (t_mem d) (t_clock d) (t_config d)
  else mkToy (set_reg o v (t_regs d)) (t_mem d) (t_clock d) (t_config d).

(** The clock does not reach 2^64: the back-off fails first. *)
Definition toy_backoff (d : toy) : Z * Z * toy :=
  if (0 <=? t_clock d) && (t_clock d + 1000 <? 2 ^ 64) then
    (0, t_clock d + 1000, mkToy (t_regs d) (t_mem d) (t_clock d + 1000) (t_config d))
  else (-1, 0, d).

Definition toy_time (d : toy) : Z * Z * toy :=
  if (0 <=? t_clock d) && (t_clock d <? 2 ^ 64) then (0, t_clock d, d) else (-1, 0, d).

Definition toy_configuration : ConfigurationSnapshot :=
  mkConfig 4 32 8 0xC000 0x4000 64 FSA_GLOBAL_MEM_BASE 0x82000000 FSA_GLOBAL_MEM_SIZE
    FSA_NONCACHE_ALLOC_BASE FSA_NONCACHE_ALLOC_SIZE FSA_MMIO_BASE FSA_CLINT_BASE.

#[global] Instance toy_transport : Transport := {|
  dev := toy;
  fsa_real_init := fun d => (0, d);
  fsa_real_mmio_read := fun d o => (0, t_regs d o, d);
  fsa_real_mmio_write := fun d o v => (0, toy_write d o v);
  fsa_real_cp_reset := fun d =>
    (0, mkToy (set_reg FSA_CP_OFF_FW_STATUS 0 (t_regs d)) (t_mem d) (t_clock d) (t_config d));
  fsa_real_copy_to_scratchpad := fun d a l =>
    Some (0, mkToy (t_regs d) (store_bytes (t_mem d) a l) (t_clock d) (t_config d));
  fsa_real_copy_from_scratchpad := fun d a n => Some (0, bytes (t_mem d) a (Z.to_nat n), d);
  fsa_real_poll_backoff := toy_backoff;
  fsa_real_time_ns := toy_time;
  fsa_real_abort := fun d => d;
  fsa_real_cleanup := fun d => d;
  load_configuration_snapshot := fun d =>
    (0, mkToy (t_regs d) (t_mem d) (t_clock d) (Some toy_configuration));
  configuration_snapshot := t_config;
  reset_configuration_snapshot := fun d => mkToy (t_regs d) (t_mem d) (t_clock d) None;
|}.

Definition toy_start : toy :=
  mkToy (set_reg FSA_CP_OFF_CMD_RING_SIZE 64 (set_reg FSA_CP_OFF_CMD_RING_BASE FSA_CMD_RING_BASE (fun _ => 0)))
    (fun _ => 0) 5000 None.
