(* ===== verification/Hal.v ===== *)
(** * The host side of the runtime (hal/src/hal/hal.cc)

    The HAL owns the completion slots, the write end of the command ring and the
    device-memory allocators, and it talks to the device through the transport
    interface (Real.v). It submits commands, polls, waits for and releases their
    completions, and brings the firmware up again after a failure.

    The static variables of hal.cc are the record [hal]. A function of hal.cc is a
    computation in the monad [M]: it reads and changes the [hal], uses the device,
    and can run out of the fuel of its polling loops ([None]). [log] is a history of
    what was written to the device; no definition reads it. Out parameters are
    results; a null out pointer is a [false] argument. The mutex sections of
    [fsa_poll_completion] and [fsa_release_completion] are separate definitions, so
    that HalConcur.v can interleave them. The two parameters of the section are the
    firmware image (a generated file) and whether the host can allocate a ring of
    the size the device asks for ([std::vector::resize] throws otherwise). *)

From S2P Require Import Prelude AddrMap Real CommandAbi Falloc.

(** ** Types of api.h and hal.h *)

Inductive FsaCommandSubmitStatus :=
  | kFsaCommandSubmitAccepted
  | kFsaCommandSubmitWouldBlock
  | kFsaCommandSubmitInvalidArgument
  | kFsaCommandSubmitTransportError.
Inductive FsaCompletionPollStatus :=
  | kFsaCompletionPollTerminal
  | kFsaCompletionPollPending
  | kFsaCompletionPollInvalidToken
  | kFsaCompletionPollTransportError.
Inductive FsaCompletionWaitStatus :=
  | kFsaCompletionWaitSuccess
  | kFsaCompletionWaitTimeout
  | kFsaCompletionWaitInvalidToken
  | kFsaCompletionWaitTransportError.
Inductive FsaCompletionReleaseStatus :=
  | kFsaCompletionReleaseAccepted
  | kFsaCompletionReleaseInvalidToken
  | kFsaCompletionReleaseTransportError
  | kFsaCompletionReleasePending.
Inductive FirmwareReadyResult :=
  | kFirmwareReadyResultSuccess
  | kFirmwareReadyResultTimeout
  | kFirmwareReadyResultTransportError
  | kFirmwareReadyResultFault.
Inductive ReserveCommandStatus := Ready | WouldBlock | ReservePreWpFailure | Unavailable.
Inductive SendCmdStatus := Ok | PreWpFailure | WpAttemptedFailure.

Record FsaMemoryRange := mkRange { range_address : Z; range_size : Z }.
Record FsaMemoryRegion := mkMemRegion { region_domain : Z; region_range : FsaMemoryRange }.

Record FsaKernelLaunchInfo := mkLaunchInfo {
  li_struct_size : Z;
  li_dimensions : Z;
  li_local_size : list Z;
  li_num_groups : list Z;
  li_global_offset : list Z;
  li_local_mem_size : Z;
  li_has_printf_meta : Z;
  li_enable_stack_remap : Z;
  li_kernel_entry : Z;
  li_kernarg_address : Z;
  li_kernel_trampoline : Z;
  li_kernel_status : Z;
}.
Record FsaMemoryCopyInfo := mkCopyInfo {
  ci_struct_size : Z;
  ci_source : FsaMemoryRegion;
  ci_destination : FsaMemoryRegion;
}.
(** The sizes of the two structs in the C ABI of a 64-bit host. *)
Definition sizeof_FsaKernelLaunchInfo : Z := 104.
Definition sizeof_FsaMemoryCopyInfo : Z := 56.

Record FsaDeviceDescription := mkDescription {
  dd_num_cores : Z;
  dd_max_threads_per_work_group : Z;
  dd_local_mem_size_per_core : Z;
  dd_cache_size : Z;
  dd_cache_line_size : Z;
  dd_global_mem_size : Z;
  dd_max_allocation_size : Z;
  dd_threads_per_warp : Z;
}.

(** ** Pure helpers *)

Definition checked_add (lhs rhs : Z) : option Z :=
  if UINT64_MAX - rhs <? lhs then None else Some (lhs + rhs).
Definition checked_mul (lhs rhs : Z) : option Z :=
  if negb (rhs =? 0) && (UINT64_MAX / rhs <? lhs) then None else Some (lhs *% rhs).
Definition is_power_of_two (value : Z) : bool :=
  negb (value =? 0) && (Z.land value (value -% 1) =? 0).

Definition derive_device_description (c : ConfigurationSnapshot) : option FsaDeviceDescription :=
  if (num_cores c =? 0) || (FSA_SM_MMIO_MAX_SMS <? num_cores c) ||
     (threads_per_warp c =? 0) || (warps_per_core c =? 0) ||
     (Real.local_mem_size c =? 0) || (shared_cache_size c =? 0) ||
     (cache_line_size c =? 0) || (global_mem_size c =? 0) ||
     (global_mem_noncache_alloc_size c =? 0) ||
     negb (is_power_of_two (cache_line_size c)) ||
     (shared_cache_size c <? cache_line_size c) ||
     negb (shared_cache_size c mod cache_line_size c =? 0) then None else
  threads_per_core ← checked_mul (threads_per_warp c) (warps_per_core c);
  global_mem_end ← checked_add (global_mem_base c) (global_mem_size c);
  noncache_end ← checked_add (global_mem_noncache_alloc_base c) (global_mem_noncache_alloc_size c);
  fsa_mmio_end ← checked_add (fsa_mmio_base c) FSA_MMIO_SIZE;
  clint_end ← checked_add (clint_base c) FSA_CLINT_SIZE;
  let stack_end := global_mem_alloc_base c in
  if (stack_end <=? FSA_STACK_BASE) || negb (stack_end mod cache_line_size c =? 0) ||
     (global_mem_end <=? global_mem_alloc_base c) ||
     (global_mem_noncache_alloc_base c <? global_mem_base c) ||
     (global_mem_end <? noncache_end) ||
     (global_mem_alloc_base c <? noncache_end) ||
     (FSA_STACK_BASE <? global_mem_base c) ||
     ((global_mem_noncache_alloc_base c <? stack_end) && (FSA_STACK_BASE <? noncache_end))
  then None else
  Some (mkDescription (num_cores c) threads_per_core (Real.local_mem_size c) (shared_cache_size c)
    (cache_line_size c) (global_mem_size c) (global_mem_end -% global_mem_alloc_base c)
    (threads_per_warp c)).

Definition firmware_rebooted (generation token : Z) : bool :=
  negb (u16 generation =? fsa_completion_token_boot_generation token).

Definition valid_memory_domain (domain : Z) : bool :=
  (domain =? kFsaMemoryDomainHost) || (domain =? kFsaMemoryDomainDevice).

(** [&array[i]] of a launch info. *)
Definition at3 (l : list Z) (i : nat) : Z := nth i l 0.

Definition kernel_geometry_fits_packet (dimensions : Z) (local_size num_groups global_offset : list Z)
    (local_mem_size : Z) : bool :=
  if UINT16_MAX <? local_mem_size then false else
  for_range (fun i ok => ok &&
    negb ((at3 local_size i =? 0) || (UINT16_MAX <? at3 local_size i)) &&
    negb ((at3 num_groups i =? 0) || (UINT16_MAX <? at3 num_groups i)) &&
    negb (UINT16_MAX <? at3 global_offset i)) 0 (Z.to_nat dimensions) true.

(** ** The state *)

Record CompletionSlotMetadata := mkSlot { in_use : bool; token : Z }.
Definition free_slot : CompletionSlotMetadata := mkSlot false 0.

Record hal := mkHal {
  host_cmd_ring : list (list Z);
  host_rd_ptr : Z;
  host_wr_ptr : Z;
  dev_cmd_ring_base : Z;
  next_alloc_generation : Z;
  runtime_boot_generation : Z;
  boot_generation_before_reset : Z;
  firmware_ready : bool;
  transport_failed : bool;
  firmware_reboot_failed : bool;
  noncache_alloc_ready : bool;
  active_configuration : option ConfigurationSnapshot;
  completion_slots : list CompletionSlotMetadata;
  stale_completion_tokens : list Z;
  heap : falloc_state;
}.

Definition set_ring (host_cmd_ring0 : list (list Z)) (h : hal) : hal :=
  mkHal host_cmd_ring0 (host_rd_ptr h) (host_wr_ptr h) (dev_cmd_ring_base h)
    (next_alloc_generation h) (runtime_boot_generation h) (boot_generation_before_reset h)
    (firmware_ready h) (transport_failed h) (firmware_reboot_failed h) (noncache_alloc_ready h)
    (active_configuration h) (completion_slots h) (stale_completion_tokens h) (heap h).
Definition set_ptrs (host_rd_ptr0 : Z) (host_wr_ptr0 : Z) (h : hal) : hal :=
  mkHal (host_cmd_ring h) host_rd_ptr0 host_wr_ptr0 (dev_cmd_ring_base h) (next_alloc_generation h)
    (runtime_boot_generation h) (boot_generation_before_reset h) (firmware_ready h)
    (transport_failed h) (firmware_reboot_failed h) (noncache_alloc_ready h)
    (active_configuration h) (completion_slots h) (stale_completion_tokens h) (heap h).
Definition set_base (dev_cmd_ring_base0 : Z) (h : hal) : hal :=
  mkHal (host_cmd_ring h) (host_rd_ptr h) (host_wr_ptr h) dev_cmd_ring_base0
    (next_alloc_generation h) (runtime_boot_generation h) (boot_generation_before_reset h)
    (firmware_ready h) (transport_failed h) (firmware_reboot_failed h) (noncache_alloc_ready h)
    (active_configuration h) (completion_slots h) (stale_completion_tokens h) (heap h).
Definition set_next_alloc (next_alloc_generation0 : Z) (h : hal) : hal :=
  mkHal (host_cmd_ring h) (host_rd_ptr h) (host_wr_ptr h) (dev_cmd_ring_base h)
    next_alloc_generation0 (runtime_boot_generation h) (boot_generation_before_reset h)
    (firmware_ready h) (transport_failed h) (firmware_reboot_failed h) (noncache_alloc_ready h)
    (active_configuration h) (completion_slots h) (stale_completion_tokens h) (heap h).
Definition set_boot_gens (runtime_boot_generation0 : Z) (boot_generation_before_reset0 : Z) (h : hal) : hal :=
  mkHal (host_cmd_ring h) (host_rd_ptr h) (host_wr_ptr h) (dev_cmd_ring_base h)
    (next_alloc_generation h) runtime_boot_generation0 boot_generation_before_reset0
    (firmware_ready h) (transport_failed h) (firmware_reboot_failed h) (noncache_alloc_ready h)
    (active_configuration h) (completion_slots h) (stale_completion_tokens h) (heap h).
Definition set_flags (firmware_ready0 : bool) (transport_failed0 : bool) (firmware_reboot_failed0 : bool) (h : hal) : hal :=
  mkHal (host_cmd_ring h) (host_rd_ptr h) (host_wr_ptr h) (dev_cmd_ring_base h)
    (next_alloc_generation h) (runtime_boot_generation h) (boot_generation_before_reset h)
    firmware_ready0 transport_failed0 firmware_reboot_failed0 (noncache_alloc_ready h)
    (active_configuration h) (completion_slots h) (stale_completion_tokens h) (heap h).
Definition set_noncache_ready (noncache_alloc_ready0 : bool) (h : hal) : hal :=
  mkHal (host_cmd_ring h) (host_rd_ptr h) (host_wr_ptr h) (dev_cmd_ring_base h)
    (next_alloc_generation h) (runtime_boot_generation h) (boot_generation_before_reset h)
    (firmware_ready h) (transport_failed h) (firmware_reboot_failed h) noncache_alloc_ready0
    (active_configuration h) (completion_slots h) (stale_completion_tokens h) (heap h).
Definition set_config (active_configuration0 : option ConfigurationSnapshot) (h : hal) : hal :=
  mkHal (host_cmd_ring h) (host_rd_ptr h) (host_wr_ptr h) (dev_cmd_ring_base h)
    (next_alloc_generation h) (runtime_boot_generation h) (boot_generation_before_reset h)
    (firmware_ready h) (transport_failed h) (firmware_reboot_failed h) (noncache_alloc_ready h)
    active_configuration0 (completion_slots h) (stale_completion_tokens h) (heap h).
Definition set_slots (completion_slots0 : list CompletionSlotMetadata) (h : hal) : hal :=
  mkHal (host_cmd_ring h) (host_rd_ptr h) (host_wr_ptr h) (dev_cmd_ring_base h)
    (next_alloc_generation h) (runtime_boot_generation h) (boot_generation_before_reset h)
    (firmware_ready h) (transport_failed h) (firmware_reboot_failed h) (noncache_alloc_ready h)
    (active_configuration h) completion_slots0 (stale_completion_tokens h) (heap h).
Definition set_stale (stale_completion_tokens0 : list Z) (h : hal) : hal :=
  mkHal (host_cmd_ring h) (host_rd_ptr h) (host_wr_ptr h) (dev_cmd_ring_base h)
    (next_alloc_generation h) (runtime_boot_generation h) (boot_generation_before_reset h)
    (firmware_ready h) (transport_failed h) (firmware_reboot_failed h) (noncache_alloc_ready h)
    (active_configuration h) (completion_slots h) stale_completion_tokens0 (heap h).
Definition set_heap (heap0 : falloc_state) (h : hal) : hal :=
  mkHal (host_cmd_ring h) (host_rd_ptr h) (host_wr_ptr h) (dev_cmd_ring_base h)
    (next_alloc_generation h) (runtime_boot_generation h) (boot_generation_before_reset h)
    (firmware_ready h) (transport_failed h) (firmware_reboot_failed h) (noncache_alloc_ready h)
    (active_configuration h) (completion_slots h) (stale_completion_tokens h) heap0.

(** The static initialisers. *)
Definition hal_start : hal :=
  mkHal [] 0 0 0 FSA_COMPLETION_ALLOC_GENERATION_INITIAL 0 0 false false false false None [] [] falloc_boot.

Definition firmware_session_failed (h : hal) : bool := transport_failed h || firmware_reboot_failed h.
Definition fsa_hal_is_available (h : hal) : bool :=
  bool_decide (is_Some (active_configuration h)) && firmware_ready h && negb (firmware_session_failed h).

Definition slot_at (h : hal) (i : nat) : CompletionSlotMetadata := nth i (completion_slots h) free_slot.
Definition free_slot_at (i : nat) (h : hal) : hal := set_slots (<[i := free_slot]> (completion_slots h)) h.

Definition find_completion_slot (h : hal) (tok : Z) : option nat :=
  if (tok =? 0) || negb (fsa_completion_token_has_valid_slot tok) then None else
  let slot_index := Z.to_nat (fsa_completion_token_slot_index tok) in
  if (length (completion_slots h) <=? slot_index)%nat then None else
  let metadata := slot_at h slot_index in
  if in_use metadata && (token metadata =? tok) then Some slot_index else None.

(** [std::find(...) != end] and [erase]. *)
Definition is_stale (tok : Z) (h : hal) : bool := bool_decide (tok ∈ stale_completion_tokens h).
Fixpoint erase_first (tok : Z) (l : list Z) : list Z :=
  match l with
  | [] => []
  | t :: l' => if t =? tok then l' else t :: erase_first tok l'
  end.

(** The scan of [allocate_completion_slot] from index [i], [n] slots to go. *)
Fixpoint allocate_from (i n : nat) (h : hal) : option nat * hal :=
  match n with
  | O => (None, h)
  | S n' =>
      if in_use (slot_at h i) then allocate_from (S i) n' h else
      let tok := fsa_completion_token_make (runtime_boot_generation h) (next_alloc_generation h)
                   (u16 (Z.of_nat i)) in
      let next := fsa_completion_next_alloc_generation (next_alloc_generation h) in
      if is_stale tok h then allocate_from (S i) n' (set_next_alloc next (free_slot_at i h))
      else (Some i, set_next_alloc next (set_slots (<[i := mkSlot true tok]> (completion_slots h)) h))
  end.
Definition allocate_completion_slot (h : hal) : option nat * hal :=
  allocate_from 0 (length (completion_slots h)) h.

(** [memcpy(pkt->raw + FSA_COMPLETION_TOKEN_OFFSET, &tok, 8)] *)
Definition put_token (tok : Z) (raw : list Z) : list Z :=
  take FSA_COMPLETION_TOKEN_OFFSET raw ++ le_bytes FSA_COMPLETION_TOKEN_BYTES tok.

(** The [reinterpret_cast] of a slot's address. *)
Definition slot_address (i : nat) : Z := FSA_COMPLETION_POOL_BASE + Z.of_nat i * FSA_COMPLETION_SLOT_BYTES.

(** The mutex section of [fsa_poll_completion]: the slot, or the answer. *)
Definition poll_lookup (h : hal) (tok : Z) : nat + (FsaCompletionPollStatus * option Z) :=
  match find_completion_slot h tok with
  | Some i => inl i
  | None =>
      if negb (is_stale tok h) then inr (kFsaCompletionPollInvalidToken, None)
      else inr (kFsaCompletionPollTerminal, Some FSA_COMPLETION_RESULT_FIRMWARE_REBOOT)
  end.

(** The three mutex sections of [fsa_release_completion]. *)
Definition release_lookup (h : hal) (tok : Z) : option FsaCompletionReleaseStatus * hal :=
  if is_stale tok h
  then (Some kFsaCompletionReleaseAccepted, set_stale (erase_first tok (stale_completion_tokens h)) h) else
  match find_completion_slot h tok with
  | None => (Some kFsaCompletionReleaseInvalidToken, h)
  | Some _ => (None, h)
  end.
Definition release_rebooted (h : hal) (tok : Z) : FsaCompletionReleaseStatus * hal :=
  (kFsaCompletionReleaseAccepted,
   match find_completion_slot h tok with Some i => free_slot_at i h | None => h end).
Definition release_commit (h : hal) (tok : Z) : FsaCompletionReleaseStatus * hal :=
  if firmware_reboot_failed h then (kFsaCompletionReleaseTransportError, h) else
  match find_completion_slot h tok with
  | None => (kFsaCompletionReleaseInvalidToken, h)
  | Some i => (kFsaCompletionReleaseAccepted, free_slot_at i h)
  end.

(** What [fsa_hal_reset] does once the firmware is ready again. *)
Definition reset_completions (h : hal) : hal :=
  let stale := stale_completion_tokens h ++ (token <$> filter (fun m => in_use m = true) (completion_slots h)) in
  let h := set_stale stale h in
  let h := set_slots ((fun _ => free_slot) <$> completion_slots h) h in
  let h := set_ptrs 0 0 h in
  let h := set_next_alloc FSA_COMPLETION_ALLOC_GENERATION_INITIAL h in
  set_flags true (transport_failed h) (firmware_reboot_failed h) h.

Definition fsa_hal_check_occupancy (h : hal) (group_size local_mem_per_group : Z) : Z * option Z :=
  match active_configuration h with
  | None => (-1, None)
  | Some config =>
      if negb (fsa_hal_is_available h) then (-1, None) else
      if group_size =? 0 then (-1, None) else
      let threads_per_core := threads_per_warp config *% warps_per_core config in
      if threads_per_core <? group_size then (-1, None) else
      let warps_per_group := group_size / threads_per_warp config +%
        (if negb (group_size mod threads_per_warp config =? 0) then 1 else 0) in
      let groups_by_threads := warps_per_core config / warps_per_group in
      if groups_by_threads =? 0 then (-1, None) else
      if negb (local_mem_per_group =? 0) && (Real.local_mem_size config <? local_mem_per_group)
      then (-1, None) else
      let groups_by_local_mem :=
        if negb (local_mem_per_group =? 0) then Real.local_mem_size config / local_mem_per_group
        else groups_by_threads in
      if Z.min groups_by_threads groups_by_local_mem =? 0 then (-1, None) else
      (0, Some (Real.local_mem_size config / groups_by_threads))
  end.

(** The packets. *)
Definition zero_packet : list Z := replicate FSA_COMMAND_PACKET_BYTES 0.

Definition kernel_packet (info : FsaKernelLaunchInfo) : KernelDispatchPacket :=
  let dim := li_dimensions info in
  let flags := u16 dim in
  let flags := if negb (li_has_printf_meta info =? 0)
               then Z.lor flags FSA_KERNEL_DISPATCH_HAS_PRINTF_META else flags in
  let flags := if negb (li_enable_stack_remap info =? 0)
               then Z.lor flags FSA_KERNEL_DISPATCH_STACK_REMAP else flags in
  mkKernelDispatchPacket kKernelDispatchPacketHeader flags
    (u16 (at3 (li_local_size info) 0))
    (if 1 <? dim then u16 (at3 (li_local_size info) 1) else 1)
    (if 2 <? dim then u16 (at3 (li_local_size info) 2) else 1)
    (u16 (li_local_mem_size info))
    (u16 (at3 (li_num_groups info) 0))
    (if 1 <? dim then u16 (at3 (li_num_groups info) 1) else 1)
    (if 2 <? dim then u16 (at3 (li_num_groups info) 2) else 1)
    (u16 (at3 (li_global_offset info) 0))
    (if 1 <? dim then u16 (at3 (li_global_offset info) 1) else 0)
    (if 2 <? dim then u16 (at3 (li_global_offset info) 2) else 0)
    (li_kernel_entry info) (li_kernarg_address info) (li_kernel_trampoline info)
    (li_kernel_status info) 0.
Definition cache_packet (header addr size : Z) : CacheOperationPacket :=
  mkCacheOperationPacket header addr size 0.
(** [cmd.src_domain] is one byte wide. *)
Definition copy_packet (src_domain src_addr dst_domain dst_addr size : Z) : MemoryCopyPacket :=
  mkMemoryCopyPacket kMemoryCopyPacketHeader (u8 src_domain) (u8 dst_domain) src_addr dst_addr size 0.
Definition barrier_packet : HeaderOnlyPacket := mkHeaderOnlyPacket kBarrierPacketHeader 0.

(** ** Computations *)

(** What the HAL wrote to the device, with the status of the write. *)
Inductive event :=
  | EvScratch (addr : Z) (data : list Z) (rc : Z)
  | EvMmio (offset value rc : Z)
  | EvCpReset (rc : Z).

Section hal.
Context {T : Transport} (gpufw_elf gpufw_elf_len : Z) (host_alloc : Z -> bool).

Record sys := mkSys { hs : hal; ds : dev; log : list event }.

Definition M (A : Type) : Type := sys -> option (A * sys).
#[global] Instance M_ret : MRet M := fun A a s => Some (a, s).
#[global] Instance M_bind : MBind M := fun A B f m s =>
  match m s with Some (a, s') => f a s' | None => None end.

Definition gets {A} (f : hal -> A) : M A := fun s => Some (f (hs s), s).
Definition modify (f : hal -> hal) : M unit := fun s => Some (tt, mkSys (f (hs s)) (ds s) (log s)).
(** A section that answers and changes the state. *)
Definition section {A} (f : hal -> A * hal) : M A := fun s =>
  let '(a, h) := f (hs s) in Some (a, mkSys h (ds s) (log s)).
Definition on_dev {A} (f : dev -> A * dev) : M A := fun s =>
  let '(a, d) := f (ds s) in Some (a, mkSys (hs s) d (log s)).
Definition record_event (e : event) : M unit := fun s => Some (tt, mkSys (hs s) (ds s) (log s ++ [e])).

(** [while (true)] with early returns. *)
Fixpoint mloop {S R} (fuel : nat) (body : S -> M (S + R)) (x : S) : M R :=
  match fuel with
  | O => fun _ => None
  | Datatypes.S f =>
      r ← body x;
      match r with inl x' => mloop f body x' | inr r => mret r end
  end.

Definition mark_transport_failure (status : Z) : M unit :=
  if negb (status =? 0)
  then modify (fun h => set_flags false true (firmware_reboot_failed h) h) else mret tt.

Definition copy_to_scratchpad (addr : Z) (data : list Z) : M Z := fun s =>
  match fsa_real_copy_to_scratchpad (ds s) addr data with
  | Some (rc, d) => Some (rc, mkSys (hs s) d (log s ++ [EvScratch addr data rc]))
  | None => None
  end.
Definition read_scratchpad (addr size : Z) : M (Z * list Z) := fun s =>
  match fsa_real_copy_from_scratchpad (ds s) addr size with
  | Some (rc, bs, d) => Some ((rc, bs), mkSys (hs s) d (log s))
  | None => None
  end.
Definition copy_from_scratchpad (addr size : Z) : M (Z * list Z) :=
  r ← read_scratchpad addr size;
  _ ← mark_transport_failure (fst r);
  mret r.

(** The out parameters are 64 bits wide. *)
Definition word_out (r : Z * Z * dev) : Z * Z * dev := let '(rc, v, d) := r in (rc, u64 v, d).
Definition real_mmio_read (offset : Z) (latch_transport_failure : bool) : M (Z * Z) :=
  r ← on_dev (fun d => word_out (fsa_real_mmio_read d offset));
  _ ← (if latch_transport_failure then mark_transport_failure (fst r) else mret tt);
  mret r.
Definition real_mmio_write (offset wr_val : Z) : M Z :=
  rc ← on_dev (fun d => fsa_real_mmio_write d offset wr_val);
  _ ← record_event (EvMmio offset wr_val rc);
  _ ← mark_transport_failure rc;
  mret rc.
Definition real_cp_reset : M Z :=
  rc ← on_dev fsa_real_cp_reset;
  _ ← record_event (EvCpReset rc);
  _ ← mark_transport_failure rc;
  _ ← (if rc =? 0 then modify (set_ptrs 0 0) else mret tt);
  mret rc.
Definition real_time_ns : M (Z * Z) := on_dev (fun d => word_out (fsa_real_time_ns d)).
Definition real_poll_backoff : M (Z * Z) := on_dev (fun d => word_out (fsa_real_poll_backoff d)).

Definition reset_runtime_state : M unit :=
  _ ← modify (fun h => mkHal [] 0 0 0 FSA_COMPLETION_ALLOC_GENERATION_INITIAL 0 0
                         false false false false None [] [] (heap h));
  on_dev (fun d => (tt, reset_configuration_snapshot d)).

Definition clean_heap : M unit :=
  modify (fun h => set_heap (falloc_noncache_clean (falloc_clean (heap h))) h).

Definition rollback_initialization : M unit :=
  _ ← reset_runtime_state;
  _ ← on_dev (fun d => (tt, fsa_real_abort d));
  clean_heap.

(** The boot generation, unless the session has failed. *)
Definition read_firmware_snapshot : M (option Z) :=
  '(rc, generation) ← real_mmio_read FSA_CP_OFF_FW_BOOT_GENERATION true;
  if negb (rc =? 0) then mret None else
  failed ← gets firmware_session_failed;
  mret (if (failed : bool) then None else Some generation).

Definition sync_rd_ptr : M Z :=
  '(rc, cmd_rd_ptr) ← real_mmio_read FSA_CP_OFF_RD_PTR false;
  if negb (rc =? 0) then mret (-1) else
  _ ← modify (fun h => set_ptrs (u32 cmd_rd_ptr) (host_wr_ptr h) h);
  mret 0.

Definition ring_size (h : hal) : Z := Z.of_nat (length (host_cmd_ring h)).
Definition set_packet (pkt : list Z) (h : hal) : hal :=
  set_ring (<[Z.to_nat (host_wr_ptr h) := pkt]> (host_cmd_ring h)) h.
Definition next_wr_ptr (h : hal) : Z := u32 (u32 (host_wr_ptr h + 1) mod ring_size h).

(** On [Ready] the entry at the write pointer is zeroed. *)
Definition reserve_command_slot : M ReserveCommandStatus :=
  available ← gets fsa_hal_is_available;
  if negb available then mret Unavailable else
  rc ← sync_rd_ptr;
  if negb (rc =? 0) then mret ReservePreWpFailure else
  full ← gets (fun h => u32 (host_wr_ptr h + 1) mod ring_size h =? host_rd_ptr h);
  if (full : bool) then mret WouldBlock else
  _ ← modify (set_packet zero_packet);
  mret Ready.

Definition send_cmd (cmd : list Z) : M SendCmdStatus :=
  h ← gets id;
  rc ← copy_to_scratchpad (dev_cmd_ring_base h +% host_wr_ptr h *% 64) cmd;
  if negb (rc =? 0) then mret PreWpFailure else
  let next := next_wr_ptr h in
  rc ← real_mmio_write FSA_CP_OFF_WR_PTR next;
  if negb (rc =? 0) then mret WpAttemptedFailure else
  _ ← modify (fun h => set_ptrs (host_rd_ptr h) next h);
  mret Ok.

(** [fill] is what the lambda writes over the zeroed packet. The second result is
    [*completion]. *)
Definition submit_command (has_ptr : bool) (fill : list Z) : M (FsaCommandSubmitStatus * Z) :=
  if negb has_ptr then mret (kFsaCommandSubmitInvalidArgument, 0) else
  available ← gets fsa_hal_is_available;
  if negb available then mret (kFsaCommandSubmitTransportError, 0) else
  reserve_status ← reserve_command_slot;
  match reserve_status with
  | WouldBlock => mret (kFsaCommandSubmitWouldBlock, 0)
  | ReservePreWpFailure | Unavailable => mret (kFsaCommandSubmitTransportError, 0)
  | Ready =>
      _ ← modify (set_packet (put_token 0 fill));
      slot_index ← section allocate_completion_slot;
      match slot_index with
      | None => mret (kFsaCommandSubmitWouldBlock, 0)
      | Some i =>
          tok ← gets (fun h => token (slot_at h i));
          let slot := fsa_completion_slot_encode (fsa_completion_token_alloc_tag tok)
                        FSA_COMPLETION_RESULT_PENDING in
          rc ← copy_to_scratchpad (slot_address i) (le_bytes 8 slot);
          if negb (rc =? 0) then
            _ ← modify (free_slot_at i);
            mret (kFsaCommandSubmitTransportError, 0)
          else
          let pkt := put_token tok fill in
          _ ← modify (set_packet pkt);
          rc ← send_cmd pkt;
          match rc with
          | PreWpFailure =>
              _ ← modify (free_slot_at i);
              mret (kFsaCommandSubmitTransportError, 0)
          | WpAttemptedFailure => mret (kFsaCommandSubmitTransportError, tok)
          | Ok => mret (kFsaCommandSubmitAccepted, tok)
          end
      end
  end.

(** ** Commands *)

Definition fsa_cmd_start_kernel (info : option FsaKernelLaunchInfo) (has_ptr : bool)
    : M (FsaCommandSubmitStatus * Z) :=
  if negb has_ptr then mret (kFsaCommandSubmitInvalidArgument, 0) else
  match info with
  | None => mret (kFsaCommandSubmitInvalidArgument, 0)
  | Some info =>
      if negb (li_struct_size info =? sizeof_FsaKernelLaunchInfo) ||
         (li_dimensions info <? 1) || (3 <? li_dimensions info) ||
         negb (kernel_geometry_fits_packet (li_dimensions info) (li_local_size info)
                 (li_num_groups info) (li_global_offset info) (li_local_mem_size info))
      then mret (kFsaCommandSubmitInvalidArgument, 0)
      else submit_command has_ptr (kd_encode (kernel_packet info))
  end.

Definition send_cache_operation_cmd (header dev_addr size : Z) (has_ptr : bool)
    : M (FsaCommandSubmitStatus * Z) :=
  submit_command has_ptr (co_encode (cache_packet header dev_addr size)).
Definition fsa_cmd_cache_flush (range : option FsaMemoryRange) (has_ptr : bool) :=
  match range with
  | None => mret (kFsaCommandSubmitInvalidArgument, 0)
  | Some r =>
      if negb has_ptr then mret (kFsaCommandSubmitInvalidArgument, 0)
      else send_cache_operation_cmd kCacheFlushPacketHeader (range_address r) (range_size r) has_ptr
  end.
Definition fsa_cmd_cache_invalidate (range : option FsaMemoryRange) (has_ptr : bool) :=
  match range with
  | None => mret (kFsaCommandSubmitInvalidArgument, 0)
  | Some r =>
      if negb has_ptr then mret (kFsaCommandSubmitInvalidArgument, 0)
      else send_cache_operation_cmd kCacheInvalidatePacketHeader (range_address r) (range_size r) has_ptr
  end.

Definition send_memory_copy_cmd (src_domain src_addr dst_domain dst_addr size : Z) (has_ptr : bool) :=
  submit_command has_ptr (mc_encode (copy_packet src_domain src_addr dst_domain dst_addr size)).
Definition fsa_cmd_memory_copy (info : option FsaMemoryCopyInfo) (has_ptr : bool)
    : M (FsaCommandSubmitStatus * Z) :=
  match info with
  | None => mret (kFsaCommandSubmitInvalidArgument, 0)
  | Some info =>
      let src := ci_source info in
      let dst := ci_destination info in
      if negb has_ptr || negb (ci_struct_size info =? sizeof_FsaMemoryCopyInfo) ||
         negb (valid_memory_domain (region_domain src)) ||
         negb (valid_memory_domain (region_domain dst)) ||
         negb (range_size (region_range src) =? range_size (region_range dst))
      then mret (kFsaCommandSubmitInvalidArgument, 0)
      else send_memory_copy_cmd (region_domain src) (range_address (region_range src))
             (region_domain dst) (range_address (region_range dst)) (range_size (region_range src)) has_ptr
  end.

Definition fsa_cmd_barrier (has_ptr : bool) : M (FsaCommandSubmitStatus * Z) :=
  submit_command has_ptr (ho_encode barrier_packet).

(** ** Completions *)

(** [fsa_poll_completion] once the slot is known. *)
Definition poll_read (tok : Z) (slot_index : nat) : M (FsaCompletionPollStatus * option Z) :=
  firmware ← read_firmware_snapshot;
  match firmware with
  | None => mret (kFsaCompletionPollTransportError, None)
  | Some generation =>
      if firmware_rebooted generation tok
      then mret (kFsaCompletionPollTerminal, Some FSA_COMPLETION_RESULT_FIRMWARE_REBOOT) else
      '(rc, bs) ← copy_from_scratchpad (slot_address slot_index) FSA_COMPLETION_SLOT_BYTES;
      failed ← gets transport_failed;
      if negb (rc =? 0) || failed then mret (kFsaCompletionPollTransportError, None) else
      let slot := u64 (le_val bs) in
      if negb (fsa_completion_slot_alloc_tag slot =? fsa_completion_token_alloc_tag tok)
      then mret (kFsaCompletionPollInvalidToken, None) else
      let slot_result := fsa_completion_slot_result slot in
      if slot_result =? FSA_COMPLETION_RESULT_PENDING
      then mret (kFsaCompletionPollPending, Some slot_result)
      else mret (kFsaCompletionPollTerminal, Some slot_result)
  end.

(** The status and what was stored in [*result]. *)
Definition fsa_poll_completion (tok : Z) : M (FsaCompletionPollStatus * option Z) :=
  failed ← gets firmware_session_failed;
  if (failed : bool) then mret (kFsaCompletionPollTransportError, None) else
  found ← gets (fun h => poll_lookup h tok);
  match found with
  | inr answer => mret answer
  | inl slot_index => poll_read tok slot_index
  end.

(** The device reads of a release: [inl true] is a reboot, [inl false] a terminal
    slot. *)
Definition release_read (tok : Z) : M (bool + FsaCompletionReleaseStatus) :=
  firmware ← read_firmware_snapshot;
  match firmware with
  | None => mret (inr kFsaCompletionReleaseTransportError)
  | Some generation =>
      if firmware_rebooted generation tok then mret (inl true) else
      let slot_index := Z.to_nat (fsa_completion_token_slot_index tok) in
      '(rc, bs) ← copy_from_scratchpad (slot_address slot_index) FSA_COMPLETION_SLOT_BYTES;
      failed ← gets transport_failed;
      if negb (rc =? 0) || failed then mret (inr kFsaCompletionReleaseTransportError) else
      let slot := u64 (le_val bs) in
      if negb (fsa_completion_slot_alloc_tag slot =? fsa_completion_token_alloc_tag tok)
      then mret (inr kFsaCompletionReleaseInvalidToken) else
      if fsa_completion_slot_result slot =? FSA_COMPLETION_RESULT_PENDING
      then mret (inr kFsaCompletionReleasePending)
      else mret (inl false)
  end.

Definition fsa_release_completion (tok : Z) : M FsaCompletionReleaseStatus :=
  failed ← gets firmware_session_failed;
  if (failed : bool) then mret kFsaCompletionReleaseTransportError else
  answer ← section (fun h => release_lookup h tok);
  match answer with
  | Some status => mret status
  | None =>
      r ← release_read tok;
      match r with
      | inr status => mret status
      | inl true => section (fun h => release_rebooted h tok)
      | inl false => section (fun h => release_commit h tok)
      end
  end.

(** [elapsed >= limit] in milliseconds; limit 0 is no limit. *)
Definition timed_out (limit now_ns start_ns : Z) : bool :=
  (0 <? limit) && (limit <=? (now_ns -% start_ns) / 1000000).

(** One round of the loop of [fsa_wait_completion]; the state is [*result]. *)
Definition wait_round (tok timeout_ms start_ns : Z) (result : option Z)
    : M (option Z + FsaCompletionWaitStatus * option Z) :=
  '(status, r) ← fsa_poll_completion tok;
  let result := match r with Some v => Some v | None => result end in
  match status with
  | kFsaCompletionPollTerminal =>
      release_status ← fsa_release_completion tok;
      match release_status with
      | kFsaCompletionReleaseAccepted => mret (inr (kFsaCompletionWaitSuccess, result))
      | kFsaCompletionReleaseTransportError => mret (inr (kFsaCompletionWaitTransportError, result))
      | _ => mret (inr (kFsaCompletionWaitInvalidToken, result))
      end
  | kFsaCompletionPollInvalidToken => mret (inr (kFsaCompletionWaitInvalidToken, result))
  | kFsaCompletionPollTransportError => mret (inr (kFsaCompletionWaitTransportError, result))
  | kFsaCompletionPollPending =>
      '(rc, now_ns) ← real_poll_backoff;
      if negb (rc =? 0) then
        _ ← mark_transport_failure (-1);
        mret (inr (kFsaCompletionWaitTransportError, result))
      else if timed_out timeout_ms now_ns start_ns
      then mret (inr (kFsaCompletionWaitTimeout, result))
      else mret (inl result)
  end.

Definition fsa_wait_completion (fuel : nat) (tok timeout_ms : Z)
    : M (FsaCompletionWaitStatus * option Z) :=
  '(rc, start_ns) ← real_time_ns;
  if negb (rc =? 0) then
    _ ← mark_transport_failure (-1);
    mret (kFsaCompletionWaitTransportError, None)
  else mloop fuel (wait_round tok timeout_ms start_ns) None.

Definition wait_for_copy_completion (fuel : nat) (completion : Z) : M Z :=
  r ← fsa_wait_completion fuel completion 0;
  mret (match r with
        | (kFsaCompletionWaitSuccess, Some result) =>
            if result =? FSA_COMPLETION_RESULT_SUCCESS then 0 else -1
        | _ => -1
        end).

Definition copy_and_wait (fuel : nat) (src dst : FsaMemoryRegion) : M Z :=
  available ← gets fsa_hal_is_available;
  if negb available then mret (-1) else
  r ← fsa_cmd_memory_copy (Some (mkCopyInfo sizeof_FsaMemoryCopyInfo src dst)) true;
  match r with
  | (kFsaCommandSubmitAccepted, completion) => wait_for_copy_completion fuel completion
  | _ => mret (-1)
  end.
Definition fsa_copy_to_dev (fuel : nat) (dev_addr host_ptr size : Z) : M Z :=
  copy_and_wait fuel (mkMemRegion kFsaMemoryDomainHost (mkRange host_ptr size))
    (mkMemRegion kFsaMemoryDomainDevice (mkRange dev_addr size)).
Definition fsa_copy_from_dev (fuel : nat) (dev_addr host_ptr size : Z) : M Z :=
  copy_and_wait fuel (mkMemRegion kFsaMemoryDomainDevice (mkRange dev_addr size))
    (mkMemRegion kFsaMemoryDomainHost (mkRange host_ptr size)).

(** ** Device memory *)

(** The last arguments are the outcomes of the host's [malloc]. *)
Definition fsa_addr_malloc (dev_addr size : Z) (right_ok left_ok : bool) : M Z :=
  section (fun h => let '(s, rc) := falloc_addr_malloc (heap h) dev_addr size right_ok left_ok in
                    (rc, set_heap s h)).
Definition fsa_malloc (has_ptr : bool) (size : Z) (ok : bool) : M (Z * option Z) :=
  section (fun h => let '(s, rc, p) := falloc_malloc (heap h) has_ptr size ok in
                    ((rc, p), set_heap s h)).
(** The second result is [*dev_addr], 0 for the null pointer. *)
Definition fsa_malloc_noncache (size : Z) (ok : bool) : M (Z * Z) :=
  section (fun h =>
    if negb (noncache_alloc_ready h) then ((-1, 0), h) else
    let '(s, rc, p) := falloc_noncache_malloc (heap h) true size ok in
    ((rc, if rc =? 0 then default 0 p else 0), set_heap s h)).
Definition fsa_free (dev_addr : Z) : M Z :=
  section (fun h =>
    let '(s, rc) := falloc_free (heap h) dev_addr in
    if negb (rc =? 0) && noncache_alloc_ready h then
      let '(s, rc) := falloc_noncache_free s dev_addr in (rc, set_heap s h)
    else (rc, set_heap s h)).

(** ** Bringing the firmware up *)

Definition code := FsaFirmwareStatus_code.

Definition ensure_rom_reset_state (fuel : nat) (deadline_ms : Z) : M Z :=
  '(rc, start_ns) ← real_time_ns;
  if negb (rc =? 0) then mret rc else
  mloop fuel (fun msip_sent : bool =>
    '(rc, status) ← real_mmio_read FSA_CP_OFF_FW_STATUS true;
    if negb (rc =? 0) then mret (inr rc) else
    if status =? code kFsaFirmwareStatusReset then mret (inr 0) else
    let ring := negb msip_sent && ((status =? code kFsaFirmwareStatusReady) ||
                                   (status =? code kFsaFirmwareStatusFault)) in
    rc ← (if ring then real_cp_reset else mret 0);
    if negb (rc =? 0) then mret (inr rc) else
    '(rc, now_ns) ← real_poll_backoff;
    if negb (rc =? 0) then mret (inr rc) else
    if timed_out deadline_ms now_ns start_ns then mret (inr (-1)) else mret (inl (msip_sent || ring)))
    false.

Definition upload_firmware (fuel : nat) (fw_ptr fw_size : Z) : M Z :=
  if (fw_ptr =? 0) || (fw_size =? 0) || (FSA_CP_TCM_SIZE <? fw_size) then mret (-1) else
  _ ← modify (set_ptrs 0 0);
  rc ← real_mmio_write FSA_CP_OFF_FW_HOST_ADDR fw_ptr;
  if negb (rc =? 0) then mret rc else
  rc ← real_mmio_write FSA_CP_OFF_FW_SIZE fw_size;
  if negb (rc =? 0) then mret rc else
  '(rc, start_ns) ← real_time_ns;
  if negb (rc =? 0) then mret rc else
  mloop fuel (fun _ : unit =>
    '(rc, remaining) ← real_mmio_read FSA_CP_OFF_FW_SIZE true;
    if negb (rc =? 0) then mret (inr rc) else
    if remaining =? 0 then mret (inr 0) else
    '(rc, status) ← real_mmio_read FSA_CP_OFF_FW_STATUS true;
    if negb (rc =? 0) then mret (inr rc) else
    '(rc, fault) ← real_mmio_read FSA_CP_OFF_FW_FAULT_CODE true;
    if negb (rc =? 0) then mret (inr rc) else
    if status =? code kFsaFirmwareStatusFault then mret (inr (-1)) else
    '(rc, now_ns) ← real_poll_backoff;
    if negb (rc =? 0) then mret (inr rc) else
    if timed_out 5000 now_ns start_ns then mret (inr (-1)) else mret (inl tt)) tt.

(** The four registers of a handshake, up to the first read that fails. *)
Fixpoint read_registers (offsets : list Z) : M (option (list Z)) :=
  match offsets with
  | [] => mret (Some [])
  | o :: os =>
      '(rc, v) ← real_mmio_read o true;
      if negb (rc =? 0) then mret None else
      vs ← read_registers os;
      mret ((fun l => v :: l) <$> vs)
  end.

Definition ready_round (timeout start_ns : Z) (_ : unit) : M (unit + FirmwareReadyResult) :=
  regs ← read_registers [FSA_CP_OFF_FW_STATUS; FSA_CP_OFF_FW_ABI_VERSION;
                         FSA_CP_OFF_FW_BOOT_GENERATION; FSA_CP_OFF_FW_FAULT_CODE];
  match regs with
  | Some [status; abi; generation; fault] =>
      failed ← gets transport_failed;
      if (failed : bool) then mret (inr kFirmwareReadyResultTransportError) else
      if status =? code kFsaFirmwareStatusFault then mret (inr kFirmwareReadyResultFault) else
      if (status =? code kFsaFirmwareStatusReady) &&
         (negb (abi =? FSA_COMMAND_ABI_VERSION_V3) || negb (fault =? kFsaFirmwareFaultNone))
      then mret (inr kFirmwareReadyResultFault) else
      before ← gets boot_generation_before_reset;
      if (status =? code kFsaFirmwareStatusReady) &&
         (negb (generation =? 0) && negb (generation =? before)) then
        _ ← modify (set_boot_gens generation generation);
        mret (inr kFirmwareReadyResultSuccess)
      else
      '(rc, now_ns) ← real_poll_backoff;
      if negb (rc =? 0) then mret (inr kFirmwareReadyResultTransportError) else
      if timed_out timeout now_ns start_ns then mret (inr kFirmwareReadyResultTimeout) else mret (inl tt)
  | _ => mret (inr kFirmwareReadyResultTransportError)
  end.

Definition wait_for_firmware_ready (fuel : nat) (timeout : Z) (reset_start_ns : option Z)
    : M FirmwareReadyResult :=
  failed ← gets transport_failed;
  if (failed : bool) then mret kFirmwareReadyResultTransportError else
  '(rc, start_ns) ← (match reset_start_ns with Some t => mret (0, t) | None => real_time_ns end);
  if negb (rc =? 0) then mret kFirmwareReadyResultTransportError else
  mloop fuel (ready_round timeout start_ns) tt.

Definition is_ready (r : FirmwareReadyResult) : bool :=
  match r with kFirmwareReadyResultSuccess => true | _ => false end.

Definition roll_back (rc : Z) : M (Z * option FsaDeviceDescription) :=
  _ ← rollback_initialization; mret (rc, None).

Definition init_heaps (c : ConfigurationSnapshot) (size : Z) (ok1 ok2 : bool) (h : hal) : bool * hal :=
  let '(s, rc) := falloc_init (heap h) (global_mem_alloc_base c) size (cache_line_size c) false ok1 true in
  if negb (rc =? 0) then (false, set_heap s h) else
  let '(s, rc) := falloc_noncache_init s (global_mem_noncache_alloc_base c)
                    (global_mem_noncache_alloc_size c) (cache_line_size c) false ok2 true in
  (rc =? 0, set_heap s h).

(** The last three steps of an initialisation or a reset; [inl] gives the time the
    reset began. *)
Definition boot_firmware (fuel : nat) (timeout : Z) (reset_start_ns : option Z) : M bool :=
  rc ← ensure_rom_reset_state fuel timeout;
  if negb (rc =? 0) then mret false else
  rc ← upload_firmware fuel gpufw_elf gpufw_elf_len;
  if negb (rc =? 0) then mret false else
  r ← wait_for_firmware_ready fuel timeout reset_start_ns;
  mret (is_ready r).

(** The status and [*description]; [ok1] and [ok2] are the host's [malloc]. *)
Definition fsa_hal_init (fuel : nat) (has_ptr ok1 ok2 : bool) : M (Z * option FsaDeviceDescription) :=
  if negb has_ptr then mret (-1, None) else
  available ← gets fsa_hal_is_available;
  if (available : bool) then mret (-1, None) else
  _ ← rollback_initialization;
  _ ← modify (set_flags false false false);
  init_status ← on_dev fsa_real_init;
  _ ← mark_transport_failure init_status;
  if negb (init_status =? 0) then roll_back init_status else
  rc ← on_dev load_configuration_snapshot;
  if negb (rc =? 0) then roll_back (-1) else
  snapshot ← (fun s => Some (configuration_snapshot (ds s), s));
  match (snapshot, snapshot ≫= derive_device_description) with
  | (Some config, Some local_description) =>
      _ ← modify (set_config (Some config));
      '(rc, generation) ← real_mmio_read FSA_CP_OFF_FW_BOOT_GENERATION true;
      if negb (rc =? 0) then roll_back (-1) else
      _ ← modify (fun h => set_boot_gens (runtime_boot_generation h) generation h);
      '(rc, dev_cmd_ring_size) ← real_mmio_read FSA_CP_OFF_CMD_RING_SIZE true;
      if negb (rc =? 0) || (dev_cmd_ring_size =? 0) then roll_back (-1) else
      if negb (host_alloc dev_cmd_ring_size) then roll_back (-1) else
      _ ← modify (fun h =>
            let h := set_ring (replicate (Z.to_nat dev_cmd_ring_size) zero_packet) h in
            let h := set_ptrs 0 0 h in
            let h := set_next_alloc FSA_COMPLETION_ALLOC_GENERATION_INITIAL h in
            let h := set_slots (replicate (Z.to_nat FSA_COMPLETION_POOL_ENTRIES) free_slot) h in
            let h := set_stale [] h in
            set_boot_gens 0 (boot_generation_before_reset h) h);
      '(rc, base) ← real_mmio_read FSA_CP_OFF_CMD_RING_BASE true;
      if negb (rc =? 0) then roll_back (-1) else
      _ ← modify (set_base base);
      ok ← section (init_heaps config (dd_max_allocation_size local_description) ok1 ok2);
      if negb ok then roll_back (-1) else
      _ ← modify (set_noncache_ready true);
      up ← boot_firmware fuel 5000 None;
      if negb up then roll_back (-1) else
      _ ← modify (fun h => set_flags true (transport_failed h) (firmware_reboot_failed h) h);
      mret (0, Some local_description)
  | _ => roll_back (-1)
  end.

Definition fsa_hal_reset (fuel : nat) (timeout : Z) : M Z :=
  refused ← gets (fun h => bool_decide (active_configuration h = None) || firmware_reboot_failed h);
  if (refused : bool) then mret (-1) else
  _ ← modify (fun h => set_boot_gens (runtime_boot_generation h) (runtime_boot_generation h)
                         (set_flags false false (firmware_reboot_failed h) h));
  '(rc, start_ns) ← real_time_ns;
  up ← (if negb (rc =? 0) then mret false else boot_firmware fuel timeout (Some start_ns));
  if negb up then
    _ ← modify (fun h => set_flags (firmware_ready h) (transport_failed h) true h);
    mret (-1)
  else
  _ ← modify reset_completions;
  mret 0.

Definition fsa_hal_cleanup : M Z :=
  _ ← reset_runtime_state;
  _ ← on_dev (fun d => (tt, fsa_real_cleanup d));
  _ ← clean_heap;
  mret 0.

Definition fsa_hal_time_ns (has_ptr : bool) : M (Z * Z) :=
  available ← gets fsa_hal_is_available;
  if negb has_ptr || negb available then mret (-1, 0) else real_time_ns.

End hal.
