(* ===== verification/HalSession.v ===== *)
(** * Completion tokens of the host runtime

    Theorems about Hal.v: which tokens the host owns and how each call changes
    them, what a submission writes to the device and in which order, what a reset
    does to the tokens of the old boot, and the termination of the waiting loop. *)

From S2P Require Import Prelude AddrMap Real ToyDevice CommandAbi Platform Completion Falloc HwInfo Hal KernelDispatch.

(** ** Owned tokens *)

(** The tokens of the slots in use, and those a reset kept for their owners. *)
Definition live (slots : list CompletionSlotMetadata) : list Z :=
  token <$> filter (fun m => in_use m = true) slots.
Definition owned (h : hal) : list Z := live (completion_slots h) ++ stale_completion_tokens h.

Definition token_ok (i : nat) (t : Z) : Prop :=
  fits 64 t /\ fsa_completion_token_has_valid_slot t = true /\
  fsa_completion_token_slot_index t = Z.of_nat i.

Record pool_inv (h : hal) : Prop := {
  pi_slots i m : completion_slots h !! i = Some m -> in_use m = true ->
    token_ok i (token m) /\ token m ∉ stale_completion_tokens h;
  pi_stale : NoDup (stale_completion_tokens h);
  pi_len : (length (completion_slots h) <= Z.to_nat FSA_COMPLETION_POOL_ENTRIES)%nat;
  pi_boot : fits 64 (runtime_boot_generation h);
  pi_alloc : fits 32 (next_alloc_generation h);
}.

Lemma live_app l k : live (l ++ k) = live l ++ live k.
Proof. unfold live. by rewrite filter_app, fmap_app. Qed.

Lemma live_cons m l : live (m :: l) = (if in_use m then [token m] else []) ++ live l.
Proof.
  unfold live. rewrite filter_cons. case_decide as E; [by rewrite E|].
  by rewrite (not_true_is_false _ E).
Qed.

Lemma live_slot_insert slots i m m' :
  slots !! i = Some m ->
  (if in_use m then [token m] else []) ++ live (<[i := m']> slots)
  ≡ₚ (if in_use m' then [token m'] else []) ++ live slots.
Proof.
  intros H. rewrite <- (take_drop_middle slots i m H) at 2.
  rewrite (insert_take_drop slots i m') by (by eapply lookup_lt_Some).
  rewrite !live_app, !live_cons. solve_Permutation.
Qed.

Lemma elem_of_live t slots :
  t ∈ live slots <-> exists i m, slots !! i = Some m /\ in_use m = true /\ token m = t.
Proof.
  unfold live. rewrite list_elem_of_fmap. split.
  - intros (m & -> & Hm). apply list_elem_of_filter in Hm as [Hu Hm].
    apply list_elem_of_lookup in Hm as [i Hi]. eauto.
  - intros (i & m & Hi & Hu & <-). exists m. split; [done|]. apply list_elem_of_filter.
    split; [done|]. by eapply list_elem_of_lookup_2.
Qed.

Lemma live_NoDup slots :
  (forall i m, slots !! i = Some m -> in_use m = true -> fsa_completion_token_slot_index (token m) = Z.of_nat i) ->
  NoDup (live slots).
Proof.
  induction slots as [|m slots IH] using rev_ind; intros H; [constructor|].
  rewrite live_app, live_cons, app_nil_r. apply NoDup_app. split_and!.
  - apply IH. intros i m' Hi. apply H. by apply lookup_app_l_Some.
  - destruct (in_use m) eqn:E; [|intros; apply not_elem_of_nil].
    intros t (i & m' & Hi & Hu & <-)%elem_of_live. rewrite list_elem_of_singleton. intros Ht.
    assert (Hi' := lookup_lt_Some _ _ _ Hi).
    assert (H1 := H i m' (lookup_app_l_Some _ _ _ _ Hi) Hu).
    assert (H2 := H (length slots) m ltac:(by rewrite lookup_app_r, Nat.sub_diag by lia) E).
    rewrite Ht in H1. lia.
  - destruct (in_use m); [apply NoDup_singleton|constructor].
Qed.

Lemma owned_NoDup h : pool_inv h -> NoDup (owned h).
Proof.
  intros Hi. apply NoDup_app. split_and!; [| |apply Hi].
  - apply live_NoDup. intros i m Hm Hu. by apply (pi_slots _ Hi).
  - intros t (i & m & Hm & Hu & <-)%elem_of_live. by eapply (pi_slots _ Hi).
Qed.

(** ** The pool under each mutex section *)

Lemma next_alloc_fits g : fits 32 g -> fits 32 (fsa_completion_next_alloc_generation g).
Proof. intros. unfold fsa_completion_next_alloc_generation, fits in *. bcase; [done|]. apply wrap_range. lia. Qed.

(** Freeing a slot. *)
Lemma free_slot_inv h i : pool_inv h -> pool_inv (free_slot_at i h).
Proof.
  intros []. constructor; try done; cbn.
  - intros j m. rewrite list_lookup_insert_Some. intros [(_ & <- & _)|[_ Hj]]; [done|eauto].
  - by rewrite length_insert.
Qed.

Lemma free_slot_owned h i m :
  completion_slots h !! i = Some m ->
  owned h ≡ₚ (if in_use m then [token m] else []) ++ owned (free_slot_at i h).
Proof.
  intros H. unfold owned. cbn. rewrite app_assoc. f_equiv.
  rewrite (live_slot_insert _ _ _ free_slot H). done.
Qed.

Lemma find_slot_Some h t i :
  find_completion_slot h t = Some i ->
  completion_slots h !! i = Some (mkSlot true t) /\ i = Z.to_nat (fsa_completion_token_slot_index t).
Proof.
  unfold find_completion_slot. repeat bcase; try done. intros [= <-]. split; [|done].
  unfold slot_at in *.
  rewrite (nth_lookup_lt _ _ free_slot) by lia. destruct (nth _ _ _); simpl in *. by subst.
Qed.

(** Exactly the live tokens are found. *)
Lemma find_slot_live h t :
  pool_inv h -> is_Some (find_completion_slot h t) <-> t ∈ live (completion_slots h).
Proof.
  intros Hi. rewrite elem_of_live. split.
  - intros [i H]. apply find_slot_Some in H as [H _]. by exists i, (mkSlot true t).
  - intros (i & m & Hm & Hu & <-). destruct (pi_slots _ Hi _ _ Hm Hu) as [(Hf & Hv & Hx) _].
    unfold find_completion_slot. rewrite Hv, Hx, Nat2Z.id.
    rewrite (proj2 (Z.eqb_neq _ _)) by (intros H0; unfold fsa_completion_token_has_valid_slot in Hv; rewrite H0 in Hv; done).
    pose proof (lookup_lt_Some _ _ _ Hm). rewrite (proj2 (Nat.leb_gt _ _)) by lia. cbn [orb negb].
    unfold slot_at. rewrite (nth_lookup_Some _ _ _ _ Hm), Hu, Z.eqb_refl. by eexists.
Qed.

(** What the completion pool is made of, and the rest of the state. *)
Definition pool_of (h : hal) :=
  (completion_slots h, stale_completion_tokens h, next_alloc_generation h, runtime_boot_generation h).
Definition rest_of (h : hal) :=
  (host_cmd_ring h, host_rd_ptr h, host_wr_ptr h, dev_cmd_ring_base h, boot_generation_before_reset h,
   (firmware_ready h, transport_failed h, firmware_reboot_failed h, noncache_alloc_ready h),
   active_configuration h, heap h).

Lemma pool_inv_ext h h' : pool_of h = pool_of h' -> pool_inv h -> pool_inv h'.
Proof.
  unfold pool_of. intros [= H1 H2 H3 H4] []. constructor; rewrite <- ?H1, <- ?H2, <- ?H3, <- ?H4; done.
Qed.
Lemma owned_ext h h' : pool_of h = pool_of h' -> owned h = owned h'.
Proof. unfold pool_of, owned. by intros [= -> -> _ _]. Qed.

Section take_slot.
Context (h : hal) (i : nat) (Hi : pool_inv h) (Hlt : (i < length (completion_slots h))%nat).
Context (Hfree : in_use (slot_at h i) = false).
Let t := fsa_completion_token_make (runtime_boot_generation h) (next_alloc_generation h) (u16 (Z.of_nat i)).

Lemma slot_lookup : completion_slots h !! i = Some (slot_at h i).
Proof using Hlt. unfold slot_at. by apply nth_lookup_lt. Qed.

Lemma slot_bound : 0 <= Z.of_nat i < 64.
Proof using Hi Hlt. pose proof (pi_len _ Hi). unfold FSA_COMPLETION_POOL_ENTRIES in *. lia. Qed.

Lemma new_token_ok : token_ok i t.
Proof using Hi Hlt.
  pose proof slot_bound. destruct Hi as [_ _ _ Hb Ha]. unfold token_ok, t. rewrite wrap_small by lia.
  assert (Hx : fits 16 (Z.of_nat i)) by (unfold fits; lia).
  split_and!; [by apply token_make_fits| |by apply token_make_slot_index].
  unfold fsa_completion_token_has_valid_slot, FSA_COMPLETION_SLOT_COUNT.
  rewrite token_make_slot_index, token_make_alloc_generation by done.
  pose proof (norm_gen_range _ Ha). pose proof (Z.mod_pos_bound (runtime_boot_generation h) (2 ^ 16)).
  rewrite !(proj2 (Z.eqb_neq _ _)); [|lia|rewrite token_make_sum by done; lia].
  rewrite (proj2 (Z.ltb_lt _ _)) by lia. done.
Qed.

Lemma new_token_boot : fsa_completion_token_boot_generation t = u16 (runtime_boot_generation h).
Proof using Hi Hlt.
  pose proof slot_bound. destruct Hi. unfold t. rewrite (wrap_small 16 (Z.of_nat i)) by lia.
  apply token_make_boot_generation; [done|done|unfold fits; lia].
Qed.

Lemma new_token_not_live : t ∉ live (completion_slots h).
Proof using Hi Hlt Hfree.
  intros (j & m & Hj & Hu & Ht)%elem_of_live. destruct new_token_ok as (_ & _ & Hx).
  destruct (pi_slots _ Hi _ _ Hj Hu) as [(_ & _ & Hx') _]. rewrite Ht, Hx in Hx'.
  assert (j = i) as -> by lia. rewrite slot_lookup in Hj. congruence.
Qed.

Lemma take_slot_spec :
  t ∉ stale_completion_tokens h ->
  let h' := set_next_alloc (fsa_completion_next_alloc_generation (next_alloc_generation h))
              (set_slots (<[i := mkSlot true t]> (completion_slots h)) h) in
  pool_inv h' /\ t ∉ owned h /\ owned h' ≡ₚ t :: owned h.
Proof using Hi Hlt Hfree.
  intros Hst h'. split_and!.
  - destruct Hi. constructor; cbn; [|done| |done|by apply next_alloc_fits].
    + intros j m. rewrite list_lookup_insert_Some. intros [(<- & <- & _)|[_ Hj]]; [|eauto].
      intros _. split; [apply new_token_ok|done].
    + by rewrite length_insert.
  - unfold owned. rewrite elem_of_app. intros [H|H]; [by apply new_token_not_live|done].
  - unfold owned. cbn. rewrite app_comm_cons. f_equiv.
    pose proof (live_slot_insert _ _ _ (mkSlot true t) slot_lookup) as HP. by rewrite Hfree in HP.
Qed.
End take_slot.

Lemma allocate_from_spec n i h r h' :
  pool_inv h -> (i + n = length (completion_slots h))%nat -> allocate_from i n h = (r, h') ->
  pool_inv h' /\ rest_of h' = rest_of h /\ stale_completion_tokens h' = stale_completion_tokens h /\
  runtime_boot_generation h' = runtime_boot_generation h /\
  match r with
  | None => owned h' ≡ₚ owned h
  | Some k =>
      completion_slots h' !! k = Some (mkSlot true (token (slot_at h' k))) /\
      token_ok k (token (slot_at h' k)) /\ token (slot_at h' k) ∉ owned h /\
      fsa_completion_token_boot_generation (token (slot_at h' k)) = u16 (runtime_boot_generation h) /\
      owned h' ≡ₚ token (slot_at h' k) :: owned h
  end.
Proof.
  revert i h. induction n as [|n IH]; intros i h Hi Hn; simpl; [by intros [= <- <-]|].
  destruct (in_use (slot_at h i)) eqn:Hu; [apply IH; [done|lia]|].
  assert (Hlt : (i < length (completion_slots h))%nat) by lia.
  set (t := fsa_completion_token_make _ _ _). destruct (is_stale t h) eqn:Hs.
  - set (h1 := set_next_alloc _ _). intros H.
    assert (Hi1 : pool_inv h1).
    { assert (Hf := free_slot_inv h i Hi). destruct Hf. constructor; try done. by apply next_alloc_fits. }
    assert (Ho1 : owned h1 ≡ₚ owned h).
    { rewrite (free_slot_owned h i _ (slot_lookup h i Hlt)), Hu. done. }
    destruct (IH (S i) h1 Hi1) as (H1 & H2 & H3 & H4 & H5); [cbn; rewrite length_insert; lia|done|].
    split_and!; try done. destruct r as [k|].
    + destruct H5 as (Ha & Hb & Hc & Hd & He). rewrite Ho1 in Hc, He. done.
    + by rewrite H5.
  - intros [= <- <-]. apply bool_decide_eq_false in Hs.
    destruct (take_slot_spec h i Hi Hlt Hu Hs) as (H1 & H2 & H3). fold t in H1, H2, H3.
    assert (Hsl : <[i := mkSlot true t]> (completion_slots h) !! i = Some (mkSlot true t))
      by (by apply list_lookup_insert_eq).
    assert (Hat : slot_at (set_next_alloc (fsa_completion_next_alloc_generation (next_alloc_generation h))
      (set_slots (<[i := mkSlot true t]> (completion_slots h)) h)) i = mkSlot true t).
    { unfold slot_at. cbn. by apply nth_lookup_Some. }
    rewrite Hat. cbn [token completion_slots set_next_alloc set_slots].
    split_and!; try done; [by apply new_token_ok|by apply new_token_boot].
Qed.

Lemma erase_first_perm t l : t ∈ l -> l ≡ₚ t :: erase_first t l.
Proof.
  induction l as [|u l IH]; intros H; [by apply not_elem_of_nil in H|]. simpl.
  destruct (Z.eqb_spec u t) as [->|Hne]; [done|]. apply elem_of_cons in H as [->|H]; [done|].
  rewrite (IH H) at 1. apply perm_swap.
Qed.

(** A section that takes [t] away from the owned tokens, and nothing else. *)
Definition takes_away (t : Z) (h h' : hal) : Prop :=
  pool_inv h' /\ rest_of h' = rest_of h /\ owned h ≡ₚ t :: owned h'.

Lemma free_found h t i :
  pool_inv h -> find_completion_slot h t = Some i -> takes_away t h (free_slot_at i h).
Proof.
  intros Hi H. apply find_slot_Some in H as [H _]. split_and!; [by apply free_slot_inv|done|].
  by rewrite (free_slot_owned h i _ H).
Qed.

Lemma not_found h t : pool_inv h -> find_completion_slot h t = None -> t ∉ live (completion_slots h).
Proof. intros Hi H Hin. apply find_slot_live in Hin; [|done]. rewrite H in Hin. by destruct Hin. Qed.

Lemma release_lookup_spec h t r h' :
  pool_inv h -> release_lookup h t = (r, h') ->
  match r with
  | Some kFsaCompletionReleaseAccepted => takes_away t h h'
  | Some kFsaCompletionReleaseInvalidToken => h' = h /\ t ∉ owned h
  | Some _ => False
  | None => h' = h /\ t ∈ live (completion_slots h)
  end.
Proof.
  intros Hi. unfold release_lookup. destruct (is_stale t h) eqn:Hs.
  - intros [= <- <-]. apply bool_decide_eq_true in Hs. apply erase_first_perm in Hs.
    assert (Hnd := pi_stale _ Hi). rewrite Hs in Hnd. apply NoDup_cons in Hnd as [Hnin Hnd].
    split_and!; [|done|].
    + destruct Hi. constructor; try done. intros i m Hm Hu. destruct (pi_slots0 i m Hm Hu) as [Hok Hns].
      split; [done|]. rewrite Hs in Hns. cbn. rewrite elem_of_cons in Hns. tauto.
    + unfold owned. cbn. rewrite Hs at 1. by rewrite Permutation_middle.
  - apply bool_decide_eq_false in Hs. destruct (find_completion_slot h t) eqn:Hf; intros [= <- <-]; split; try done.
    + apply find_slot_live; [done|]. by rewrite Hf.
    + unfold owned. rewrite elem_of_app. intros [H|H]; [|done]. by eapply not_found.
Qed.

Lemma release_rebooted_spec h t r h' :
  pool_inv h -> release_rebooted h t = (r, h') ->
  r = kFsaCompletionReleaseAccepted /\
  (takes_away t h h' \/ (h' = h /\ t ∉ live (completion_slots h))).
Proof.
  intros Hi. unfold release_rebooted. destruct (find_completion_slot h t) eqn:Hf; intros [= <- <-];
    (split; [done|]); [left; by apply free_found|right; split; [done|by apply not_found]].
Qed.

Lemma release_commit_spec h t r h' :
  pool_inv h -> release_commit h t = (r, h') ->
  match r with
  | kFsaCompletionReleaseAccepted => takes_away t h h'
  | kFsaCompletionReleaseInvalidToken => h' = h /\ t ∉ live (completion_slots h)
  | kFsaCompletionReleaseTransportError => h' = h /\ firmware_reboot_failed h = true
  | kFsaCompletionReleasePending => False
  end.
Proof.
  intros Hi. unfold release_commit. destruct (firmware_reboot_failed h) eqn:E; [by intros [= <- <-]|].
  destruct (find_completion_slot h t) eqn:Hf; intros [= <- <-]; [by apply free_found|].
  split; [done|by apply not_found].
Qed.

Lemma live_all_free (l : list CompletionSlotMetadata) : live ((fun _ => free_slot) <$> l) = [].
Proof. by induction l as [|m l IH]. Qed.

(** A reset moves every live token to the stale ones. *)
Lemma reset_completions_spec h :
  pool_inv h ->
  pool_inv (reset_completions h) /\ live (completion_slots (reset_completions h)) = [] /\
  owned (reset_completions h) ≡ₚ owned h.
Proof.
  intros Hi. assert (Hnd := owned_NoDup h Hi). unfold owned in *.
  change (completion_slots (reset_completions h)) with ((fun _ => free_slot) <$> completion_slots h).
  change (stale_completion_tokens (reset_completions h))
    with (stale_completion_tokens h ++ live (completion_slots h)).
  rewrite live_all_free. split_and!; [|done|simpl; by rewrite Permutation_app_comm].
  destruct Hi. constructor; try done; cbn.
  - intros i m. rewrite list_lookup_fmap_Some. intros (? & -> & _). done.
  - rewrite Permutation_app_comm. exact Hnd.
  - by rewrite length_fmap.
Qed.

(** ** Computations that keep the pool *)

Section sessions.
Context {T : Transport}.

Lemma bind_Some {A B} (m : M A) (f : A -> M B) s r :
  mbind f m s = Some r -> exists a s1, m s = Some (a, s1) /\ f a s1 = Some r.
Proof. unfold mbind, M_bind. destruct (m s) as [[a s1]|] eqn:E; [eauto|done]. Qed.

(** [m] changes the state only along [R]. *)
Definition along (R : hal -> hal -> Prop) {A} (m : M A) : Prop :=
  forall s a s', m s = Some (a, s') -> R (hs s) (hs s').

Section along.
Context (R : hal -> hal -> Prop) `{!PreOrder R}.

Lemma along_ret {A} (a : A) : along R (mret a).
Proof using Type*. intros s b s' [= <- <-]. reflexivity. Qed.
Lemma along_bind {A B} (m : M A) (f : A -> M B) :
  along R m -> (forall a, along R (f a)) -> along R (mbind f m).
Proof using Type*.
  intros Hm Hf s b s' (a & s1 & H1 & H2)%bind_Some. etrans; [by eapply Hm|by eapply Hf].
Qed.
Lemma along_gets {A} (f : hal -> A) : along R (gets f).
Proof using Type*. intros s a s' [= <- <-]. reflexivity. Qed.
Lemma along_modify f : (forall h, R h (f h)) -> along R (modify f).
Proof using Type*. intros H s a s' [= <- <-]. apply H. Qed.
Lemma along_section {A} (f : hal -> A * hal) : (forall h, R h (snd (f h))) -> along R (section f).
Proof using Type*.
  intros H s a s'. unfold section. specialize (H (hs s)). destruct (f (hs s)). by intros [= <- <-].
Qed.
Lemma along_on_dev {A} (f : dev -> A * dev) : along R (on_dev f).
Proof using Type*. intros s a s'. unfold on_dev. destruct (f (ds s)). intros [= <- <-]. reflexivity. Qed.
Lemma along_event e : along R (record_event e).
Proof using Type*. intros s a s' [= <- <-]. reflexivity. Qed.
Lemma along_to a l : along R (copy_to_scratchpad a l).
Proof using Type*.
  intros s r s'. unfold copy_to_scratchpad. destruct (fsa_real_copy_to_scratchpad _ _ _) as [[? ?]|]; [|done].
  intros [= <- <-]. reflexivity.
Qed.
Lemma along_from a n : along R (read_scratchpad a n).
Proof using Type*.
  intros s r s'. unfold read_scratchpad. destruct (fsa_real_copy_from_scratchpad _ _ _) as [[[? ?] ?]|]; [|done].
  intros [= <- <-]. reflexivity.
Qed.
Lemma along_mloop {S Q} fuel (body : S -> M (S + Q)) x :
  (forall x, along R (body x)) -> along R (mloop fuel body x).
Proof using Type*.
  intros Hb. revert x. induction fuel as [|f IH]; intros x; simpl; [by intros s a s'|].
  apply along_bind; [done|]. intros [x'|r]; [apply IH|apply along_ret].
Qed.
Lemma along_if {A} (b : bool) (m1 m2 : M A) : along R m1 -> along R m2 -> along R (if b then m1 else m2).
Proof using Type*. by destruct b. Qed.

(** What a computation returns. *)
Definition yields {A} (m : M A) (P : A -> Prop) : Prop := forall s a s', m s = Some (a, s') -> P a.

Lemma along_bind_yields {A B} (m : M A) (P : A -> Prop) (f : A -> M B) :
  yields m P -> along R m -> (forall a, P a -> along R (f a)) -> along R (mbind f m).
Proof using Type*.
  intros Hy Hm Hf s b s' (a & s1 & H1 & H2)%bind_Some. etrans; [by eapply Hm|].
  eapply Hf; [by eapply Hy|done].
Qed.
End along.

Lemma yields_read o l : yields (real_mmio_read o l) (fun r => fits 64 (snd r)).
Proof.
  intros s a s' (r & s1 & H1 & H2)%bind_Some. apply bind_Some in H2 as (u & s2 & H2 & H3).
  injection H3 as <- <-. unfold on_dev, word_out in H1.
  destruct (fsa_real_mmio_read (ds s) o) as [[rc v] d]. injection H1 as <- <-. simpl. apply wrap_fits. lia.
Qed.

Lemma yields_registers os :
  yields (read_registers os) (fun o => match o with Some l => Forall (fits 64) l | None => True end).
Proof.
  induction os as [|o os IH]; intros s a s'; simpl; [intros [= <- <-]; constructor|].
  intros ([rc v] & s1 & H1 & H2)%bind_Some. apply yields_read in H1. simpl in H1.
  destruct (negb (rc =? 0)); [by injection H2 as <- <-|].
  apply bind_Some in H2 as (vs & s2 & H2 & H3). apply IH in H2. injection H3 as <- <-.
  destruct vs; simpl; [by constructor|done].
Qed.
End sessions.

(** One step of a proof of [along]. *)
Ltac along_step :=
  lazymatch goal with
  | |- along _ (mbind _ _) => apply along_bind; [apply _| |intro]
  | |- along _ (mret _) => apply along_ret; apply _
  | |- along _ (gets _) => apply along_gets; apply _
  | |- along _ (on_dev _) => apply along_on_dev; apply _
  | |- along _ (record_event _) => apply along_event; apply _
  | |- along _ (copy_to_scratchpad _ _) => apply along_to; apply _
  | |- along _ (read_scratchpad _ _) => apply along_from; apply _
  | |- along _ (mloop _ _ _) => apply along_mloop; [apply _|intro]
  | |- along _ (modify _) => apply along_modify; [apply _|intro]
  | |- along _ (section _) => apply along_section; [apply _|intro]
  | |- along _ (match ?x with _ => _ end) => destruct x
  | |- along _ (let '(_, _) := ?x in _) => destruct x
  end.

Create HintDb along.
Ltac along := repeat first [progress eauto 2 with along nocore | along_step].

(** A relation that does not see a transport failure, the ring pointers or a new
    boot generation. The calls that only talk to the device are along every such
    relation. *)
Class Quiet (R : hal -> hal -> Prop) := {
  quiet_preorder :: PreOrder R;
  quiet_flags h : R h (set_flags false true (firmware_reboot_failed h) h);
  quiet_ptrs rd wr h : R h (set_ptrs rd wr h);
  quiet_boot g h : fits 64 g -> R h (set_boot_gens g g h);
}.
#[export] Hint Extern 0 (Quiet _) => apply _ : along.

Section quiet.
Context {T : Transport} (R : hal -> hal -> Prop) `{!Quiet R}.

Lemma mark_quiet rc : along R (mark_transport_failure rc).
Proof. unfold mark_transport_failure. along. apply quiet_flags. Qed.
Hint Resolve mark_quiet : along.
Lemma read_quiet o l : along R (real_mmio_read o l).
Proof. unfold real_mmio_read. along. Qed.
Lemma write_quiet o v : along R (real_mmio_write o v).
Proof. unfold real_mmio_write. along. Qed.
Lemma cp_reset_quiet : along R real_cp_reset.
Proof. unfold real_cp_reset. along. apply quiet_ptrs. Qed.
Lemma copy_from_quiet a n : along R (copy_from_scratchpad a n).
Proof. unfold copy_from_scratchpad. along. Qed.
Hint Resolve read_quiet write_quiet cp_reset_quiet copy_from_quiet : along.
Lemma snapshot_quiet : along R read_firmware_snapshot.
Proof. unfold read_firmware_snapshot. along. Qed.
Hint Resolve snapshot_quiet : along.
Lemma poll_quiet t : along R (fsa_poll_completion t).
Proof. unfold fsa_poll_completion, poll_read. along. Qed.
Lemma release_read_quiet t : along R (release_read t).
Proof. unfold release_read. along. Qed.
Lemma ready_quiet fuel timeout start : along R (wait_for_firmware_ready fuel timeout start).
Proof.
  unfold wait_for_firmware_ready, real_time_ns. along. unfold ready_round.
  eapply along_bind_yields; [apply _|apply yields_registers| |].
  - generalize [FSA_CP_OFF_FW_STATUS; FSA_CP_OFF_FW_ABI_VERSION; FSA_CP_OFF_FW_BOOT_GENERATION;
      FSA_CP_OFF_FW_FAULT_CODE]. induction l as [|o os IH]; simpl; along.
  - intros regs Hregs. unfold real_poll_backoff. along. apply quiet_boot.
    rewrite !Forall_cons in Hregs. tauto.
Qed.
Hint Resolve ready_quiet : along.
Lemma boot_quiet fw fwlen fuel timeout start : along R (boot_firmware fw fwlen fuel timeout start).
Proof.
  unfold boot_firmware, ensure_rom_reset_state, upload_firmware, real_time_ns, real_poll_backoff.
  along. apply quiet_ptrs.
Qed.
End quiet.
#[export] Hint Resolve mark_quiet read_quiet write_quiet cp_reset_quiet copy_from_quiet snapshot_quiet
  poll_quiet release_read_quiet ready_quiet boot_quiet : along.

(** ** Calls keep the pool consistent *)

Definition keeps_inv (h h' : hal) : Prop := pool_inv h -> pool_inv h'.
#[global] Instance keeps_inv_preorder : PreOrder keeps_inv.
Proof. split; unfold keeps_inv; [by intros h|]. intros x y z; tauto. Qed.

Lemma same_pool_keeps h h' : pool_of h = pool_of h' -> keeps_inv h h'.
Proof. intros H Hi. by eapply pool_inv_ext. Qed.

#[global] Instance keeps_inv_quiet : Quiet keeps_inv.
Proof.
  split; [apply _|intros; by apply same_pool_keeps..|]. intros g h Hg []. by constructor.
Qed.

Section calls.
Context {T : Transport} (fw fwlen : Z) (alloc : Z -> bool).

Lemma reserve_keeps : along keeps_inv reserve_command_slot.
Proof. unfold reserve_command_slot, sync_rd_ptr. along; by apply same_pool_keeps. Qed.
Lemma send_keeps cmd : along keeps_inv (send_cmd cmd).
Proof. unfold send_cmd. along; by apply same_pool_keeps. Qed.
Hint Resolve reserve_keeps send_keeps : along.

Lemma allocate_keeps : along keeps_inv (section allocate_completion_slot).
Proof.
  apply along_section; [apply _|]. intros h Hi.
  destruct (allocate_completion_slot h) as [r h'] eqn:E.
  by destruct (allocate_from_spec _ 0 h r h' Hi eq_refl E).
Qed.
Hint Resolve allocate_keeps : along.

Lemma submit_keeps p fill : along keeps_inv (submit_command p fill).
Proof.
  unfold submit_command. along; try (by apply same_pool_keeps); intros Hi; by apply free_slot_inv.
Qed.
Hint Resolve submit_keeps : along.

Lemma release_keeps t : along keeps_inv (fsa_release_completion t).
Proof.
  unfold fsa_release_completion. along; intros Hi.
  - destruct (release_lookup h t) as [r h'] eqn:E. apply release_lookup_spec in E; [|done]. simpl.
    destruct r as [[]|]; try done; try (by destruct E as [-> _]); apply E.
  - destruct (release_rebooted h t) as [r h'] eqn:E. apply release_rebooted_spec in E; [|done]. simpl.
    destruct E as [_ [E|[-> _]]]; [apply E|done].
  - destruct (release_commit h t) as [r h'] eqn:E. apply release_commit_spec in E; [|done]. simpl.
    destruct r; try done; try (by destruct E as [-> _]); apply E.
Qed.
Hint Resolve release_keeps : along.
Lemma wait_keeps fuel t timeout : along keeps_inv (fsa_wait_completion fuel t timeout).
Proof. unfold fsa_wait_completion, real_time_ns, wait_round, real_poll_backoff. along. Qed.
Hint Resolve wait_keeps : along.

Lemma empty_pool_inv h :
  completion_slots h = [] -> stale_completion_tokens h = [] -> runtime_boot_generation h = 0 ->
  next_alloc_generation h = 1 -> pool_inv h.
Proof.
  intros E1 E2 E3 E4. constructor; rewrite ?E1, ?E2, ?E3, ?E4; try done; try constructor; simpl; lia.
Qed.

Lemma reset_state_keeps : along keeps_inv reset_runtime_state.
Proof. unfold reset_runtime_state. along. intros _. by apply empty_pool_inv. Qed.
Lemma clean_heap_keeps : along keeps_inv clean_heap.
Proof. unfold clean_heap. along. by apply same_pool_keeps. Qed.
Hint Resolve reset_state_keeps clean_heap_keeps : along.
Lemma rollback_keeps : along keeps_inv rollback_initialization.
Proof. unfold rollback_initialization. along. Qed.
Hint Resolve rollback_keeps : along.

Lemma init_keeps fuel p ok1 ok2 : along keeps_inv (fsa_hal_init fw fwlen alloc fuel p ok1 ok2).
Proof.
  unfold fsa_hal_init, roll_back. along; try (by apply same_pool_keeps).
  - intros ? ? ? [= <- <-]. done.
  - intros _. constructor; cbn.
    + intros ? ?. rewrite lookup_replicate. by intros [-> _].
    + constructor.
    + by rewrite length_replicate.
    + unfold fits. lia.
    + unfold fits, FSA_COMPLETION_ALLOC_GENERATION_INITIAL. lia.
  - unfold init_heaps. destruct (falloc_init _ _ _ _ _ _ _) as [? rc]. destruct (negb (rc =? 0)).
    + by apply same_pool_keeps.
    + destruct (falloc_noncache_init _ _ _ _ _ _ _). by apply same_pool_keeps.
Qed.

Lemma reset_keeps fuel timeout : along keeps_inv (fsa_hal_reset fw fwlen fuel timeout).
Proof.
  unfold fsa_hal_reset, real_time_ns. along; try (by apply same_pool_keeps).
  intros Hi. by apply reset_completions_spec.
Qed.

Lemma cleanup_keeps : along keeps_inv fsa_hal_cleanup.
Proof. unfold fsa_hal_cleanup. along. Qed.
Hint Resolve init_keeps reset_keeps cleanup_keeps : along.

(** A call of the HAL, with the outcomes of the host's allocations. *)
Inductive call :=
  | CallInit (has_ptr ok1 ok2 : bool)
  | CallReset (timeout : Z)
  | CallCleanup
  | CallKernel (info : option FsaKernelLaunchInfo) (has_ptr : bool)
  | CallFlush (range : option FsaMemoryRange) (has_ptr : bool)
  | CallInvalidate (range : option FsaMemoryRange) (has_ptr : bool)
  | CallCopy (info : option FsaMemoryCopyInfo) (has_ptr : bool)
  | CallBarrier (has_ptr : bool)
  | CallPoll (t : Z)
  | CallWait (t timeout : Z)
  | CallRelease (t : Z)
  | CallCopyTo (dev_addr host_ptr size : Z)
  | CallCopyFrom (dev_addr host_ptr size : Z)
  | CallMalloc (has_ptr : bool) (size : Z) (ok : bool)
  | CallMallocNoncache (size : Z) (ok : bool)
  | CallAddrMalloc (dev_addr size : Z) (ok1 ok2 : bool)
  | CallFree (dev_addr : Z).

Definition discard {A} (m : M A) : M unit := _ ← m; mret tt.

Definition run_call (fuel : nat) (c : call) : M unit :=
  match c with
  | CallInit p ok1 ok2 => discard (fsa_hal_init fw fwlen alloc fuel p ok1 ok2)
  | CallReset timeout => discard (fsa_hal_reset fw fwlen fuel timeout)
  | CallCleanup => discard fsa_hal_cleanup
  | CallKernel info p => discard (fsa_cmd_start_kernel info p)
  | CallFlush r p => discard (fsa_cmd_cache_flush r p)
  | CallInvalidate r p => discard (fsa_cmd_cache_invalidate r p)
  | CallCopy info p => discard (fsa_cmd_memory_copy info p)
  | CallBarrier p => discard (fsa_cmd_barrier p)
  | CallPoll t => discard (fsa_poll_completion t)
  | CallWait t timeout => discard (fsa_wait_completion fuel t timeout)
  | CallRelease t => discard (fsa_release_completion t)
  | CallCopyTo a p n => discard (fsa_copy_to_dev fuel a p n)
  | CallCopyFrom a p n => discard (fsa_copy_from_dev fuel a p n)
  | CallMalloc p n ok => discard (fsa_malloc p n ok)
  | CallMallocNoncache n ok => discard (fsa_malloc_noncache n ok)
  | CallAddrMalloc a n ok1 ok2 => discard (fsa_addr_malloc a n ok1 ok2)
  | CallFree a => discard (fsa_free a)
  end.
Fixpoint run_calls (fuel : nat) (cs : list call) : M unit :=
  match cs with
  | [] => mret tt
  | c :: cs => _ ← run_call fuel c; run_calls fuel cs
  end.

Lemma heap_keeps h s : keeps_inv h (set_heap s h).
Proof. by apply same_pool_keeps. Qed.

Lemma call_keeps fuel c : along keeps_inv (run_call fuel c).
Proof.
  destruct c; unfold run_call, discard; along;
    unfold fsa_cmd_start_kernel, fsa_cmd_cache_flush, fsa_cmd_cache_invalidate, fsa_cmd_memory_copy,
      fsa_cmd_barrier, send_cache_operation_cmd, send_memory_copy_cmd, fsa_copy_to_dev, fsa_copy_from_dev,
      copy_and_wait, fsa_cmd_memory_copy, send_memory_copy_cmd, wait_for_copy_completion, fsa_malloc,
      fsa_malloc_noncache, fsa_addr_malloc, fsa_free; along; simpl;
    repeat case_match; try apply heap_keeps; done.
Qed.

Lemma calls_keep fuel cs : along keeps_inv (run_calls fuel cs).
Proof.
  induction cs as [|c cs IH]; simpl; [along|]. apply along_bind; [apply _|apply call_keeps|by intro].
Qed.
End calls.

(** ** Submissions *)

(** Split an equation [(x ← m; f x) s = Some r]. *)
Ltac minv H :=
  let a := fresh "a" in let s := fresh "s" in let H1 := fresh H in
  apply bind_Some in H as (a & s & H1 & H).

Tactic Notation "mstep" hyp(H) "as" ident(H1) :=
  let a := fresh "a" in let s := fresh "s" in apply bind_Some in H as (a & s & H1 & H).

(** Name the two parts of a pair that [H] goes on with. *)
Tactic Notation "mpair" hyp(H) "as" ident(x) ident(y) :=
  match type of H with (let '(_, _) := ?p in _) _ = _ => destruct p as [x y] end.

Section submission.
Context {T : Transport}.

Lemma gets_inv {A} (f : hal -> A) s a s' : gets f s = Some (a, s') -> a = f (hs s) /\ s' = s.
Proof. unfold gets. intros. by simplify_eq. Qed.

Lemma modify_inv f s u s' : modify f s = Some (u, s') -> s' = mkSys (f (hs s)) (ds s) (log s).
Proof. unfold modify. intros. by simplify_eq. Qed.
Lemma ret_inv {A} (a b : A) s s' : (mret a : M A) s = Some (b, s') -> b = a /\ s' = s.
Proof. unfold mret, M_ret. intros. by simplify_eq. Qed.

(** What the submission path does not touch. *)
Definition ring_of (h : hal) := (pool_of h, host_wr_ptr h, dev_cmd_ring_base h, length (host_cmd_ring h)).

Lemma ring_pool h h' : ring_of h = ring_of h' -> pool_of h = pool_of h'.
Proof. unfold ring_of. congruence. Qed.

Lemma mark_inv rc s u s' :
  mark_transport_failure rc s = Some (u, s') ->
  log s' = log s /\ ring_of (hs s') = ring_of (hs s) /\ (rc = 0 -> s' = s).
Proof.
  unfold mark_transport_failure. destruct (negb (rc =? 0)) eqn:E; intros [= <- <-]; [|done].
  split_and!; [done|done|]. intros ->. done.
Qed.

Lemma read_inv o l s r s' :
  real_mmio_read o l s = Some (r, s') -> log s' = log s /\ ring_of (hs s') = ring_of (hs s).
Proof.
  intros H. minv H. minv H. injection H as <- <-. unfold on_dev in H0.
  destruct (word_out _) as [r d]. injection H0 as <- <-. destruct l.
  - apply mark_inv in H1 as (-> & -> & _). done.
  - by injection H1 as <- <-.
Qed.

Lemma write_inv o v s rc s' :
  real_mmio_write o v s = Some (rc, s') ->
  log s' = log s ++ [EvMmio o v rc] /\ ring_of (hs s') = ring_of (hs s).
Proof.
  intros H. minv H. minv H. minv H. injection H as <- <-. unfold on_dev in H0.
  destruct (fsa_real_mmio_write _ _ _). injection H0 as <- <-. injection H1 as <- <-.
  apply mark_inv in H2 as (-> & -> & _). done.
Qed.

Lemma to_inv a l s rc s' :
  copy_to_scratchpad a l s = Some (rc, s') -> log s' = log s ++ [EvScratch a l rc] /\ hs s' = hs s.
Proof.
  unfold copy_to_scratchpad. destruct (fsa_real_copy_to_scratchpad _ _ _) as [[? ?]|]; [|done].
  by intros [= <- <-].
Qed.

Lemma reserve_inv s r s' :
  reserve_command_slot s = Some (r, s') -> log s' = log s /\ ring_of (hs s') = ring_of (hs s).
Proof.
  intros H. minv H. apply gets_inv in H0 as [-> ->]. bcase_in H; [by injection H as <- <-|].
  minv H. unfold sync_rd_ptr in H0. minv H0. apply read_inv in H1 as [Hl Hr]. destruct a0 as [rc v].
  destruct (negb (rc =? 0)) eqn:E0.
  - injection H0 as <- <-. cbn in H. injection H as <- <-. done.
  - minv H0. injection H0 as <- <-. injection H1 as <- <-. cbn [negb Z.eqb] in H.
    minv H. apply gets_inv in H0 as [-> ->]. bcase_in H; [by injection H as <- <-|].
    minv H. injection H0 as <- <-. injection H as <- <-. cbn [hs log].
    split; [done|]. rewrite <- Hr. unfold ring_of, set_packet, set_ring, set_ptrs. cbn. by rewrite length_insert.
Qed.

Definition packet_address (h : hal) : Z := dev_cmd_ring_base h +% host_wr_ptr h *% 64.

Lemma send_inv cmd s r s' :
  send_cmd cmd s = Some (r, s') ->
  pool_of (hs s') = pool_of (hs s) /\
  let pkt rc := EvScratch (packet_address (hs s)) cmd rc in
  let bell rc := EvMmio FSA_CP_OFF_WR_PTR (next_wr_ptr (hs s)) rc in
  match r with
  | Ok => log s' = log s ++ [pkt 0; bell 0] /\ host_wr_ptr (hs s') = next_wr_ptr (hs s)
  | PreWpFailure => exists rc, rc <> 0 /\ log s' = log s ++ [pkt rc]
  | WpAttemptedFailure => exists rc, rc <> 0 /\ log s' = log s ++ [pkt 0; bell rc]
  end.
Proof.
  intros H. minv H. apply gets_inv in H0 as [-> ->]. minv H. apply to_inv in H0 as [Hl Hh].
  destruct (negb (a =? 0)) eqn:E; bprop.
  { injection H as <- <-. rewrite Hh. split; [done|]. by exists a. }
  subst a. minv H. apply write_inv in H0 as [Hl2 Hr2]. unfold id in *.
  rewrite Hl, <- app_assoc in Hl2. rewrite Hh in Hr2. apply ring_pool in Hr2 as Hp.
  destruct (negb (a =? 0)) eqn:E; bprop.
  - injection H as <- <-. split; [done|]. exists a. done.
  - subst a. minv H. injection H0 as <- <-. injection H as <- <-. done.
Qed.

(** The events of a submission for slot [i] and token [t]. *)
Definition ev_slot (i : nat) (t rc : Z) : event :=
  EvScratch (slot_address i)
    (le_bytes 8 (fsa_completion_slot_encode (fsa_completion_token_alloc_tag t) FSA_COMPLETION_RESULT_PENDING)) rc.
Definition ev_packet (h : hal) (fill : list Z) (t rc : Z) : event :=
  EvScratch (packet_address h) (put_token t fill) rc.
Definition ev_bell (h : hal) (rc : Z) : event := EvMmio FSA_CP_OFF_WR_PTR (next_wr_ptr h) rc.

(** A token that is new to the host and names slot [i] of this boot. *)
Definition fresh_token (h : hal) (i : nat) (t : Z) : Prop :=
  token_ok i t /\ t ∉ owned h /\ fsa_completion_token_boot_generation t = u16 (runtime_boot_generation h).

(** From the allocation of slot [i] on; [h] is the state before the submission. *)
Lemma submit_tail h fill i t st tok s s' :
  pool_inv (hs s) -> completion_slots (hs s) !! i = Some (mkSlot true t) ->
  token (slot_at (hs s) i) = t -> fresh_token h i t -> owned (hs s) ≡ₚ t :: owned h ->
  (tok0 ← gets (fun h => token (slot_at h i));
   let slot := fsa_completion_slot_encode (fsa_completion_token_alloc_tag tok0)
                 FSA_COMPLETION_RESULT_PENDING in
   rc ← copy_to_scratchpad (slot_address i) (le_bytes 8 slot);
   if negb (rc =? 0) then
     _ ← modify (free_slot_at i); mret (kFsaCommandSubmitTransportError, 0)
   else
   let pkt := put_token tok0 fill in
   _ ← modify (set_packet pkt);
   rc ← send_cmd pkt;
   match rc with
   | PreWpFailure => _ ← modify (free_slot_at i); mret (kFsaCommandSubmitTransportError, 0)
   | WpAttemptedFailure => mret (kFsaCommandSubmitTransportError, tok0)
   | Ok => mret (kFsaCommandSubmitAccepted, tok0)
   end) s = Some ((st, tok), s') ->
  match st with
  | kFsaCommandSubmitAccepted => exists i, fresh_token h i tok /\
      owned (hs s') ≡ₚ tok :: owned h /\ host_wr_ptr (hs s') = next_wr_ptr (hs s) /\
      log s' = log s ++ [ev_slot i tok 0; ev_packet (hs s) fill tok 0; ev_bell (hs s) 0]
  | kFsaCommandSubmitTransportError =>
      (tok = 0 /\ owned (hs s') ≡ₚ owned h /\
       exists es, log s' = log s ++ es /\ (length es <= 2)%nat /\
         Forall (fun e => match e with EvScratch _ _ _ => True | _ => False end) es) \/
      (exists i rc, fresh_token h i tok /\ owned (hs s') ≡ₚ tok :: owned h /\ rc <> 0 /\
         log s' = log s ++ [ev_slot i tok 0; ev_packet (hs s) fill tok 0; ev_bell (hs s) rc])
  | _ => False
  end.
Proof.
  intros Hi Hsl Ht Hf Ho H. minv H. apply gets_inv in H0 as [-> ->]. rewrite Ht in H. cbv zeta in H.
  assert (Hfree : forall h', pool_of h' = pool_of (hs s) -> owned (free_slot_at i h') ≡ₚ owned h).
  { intros h' Hp. assert (Hs' : completion_slots h' !! i = Some (mkSlot true t))
      by (unfold pool_of in Hp; congruence).
    pose proof (free_slot_owned h' i _ Hs') as HP. rewrite (owned_ext _ _ Hp), Ho in HP.
    symmetry. by apply (Permutation_cons_inv (a := t)). }
  minv H. apply to_inv in H0 as [Hl0 Hh0]. destruct (negb (a =? 0)) eqn:E; bprop.
  { minv H. injection H0 as <- <-. injection H as <- <- <-. left. cbn [hs log].
    split_and!; [done|apply Hfree; by rewrite Hh0|]. eexists. split; [exact Hl0|].
    split; [simpl; lia|]. by repeat constructor. }
  subst a. minv H. injection H0 as <- <-. minv H. apply send_inv in H0 as [Hp Hcase]. cbn [hs log] in *.
  change (pool_of (set_packet _ (hs s0))) with (pool_of (hs s0)) in Hp.
  rewrite Hl0, Hh0 in *.
  assert (Hnext : next_wr_ptr (set_packet (put_token t fill) (hs s)) = next_wr_ptr (hs s)).
  { unfold next_wr_ptr, ring_size, set_packet, set_ring. cbn. by rewrite length_insert. }
  rewrite Hnext in Hcase.
  destruct a.
  - injection H as <- <- <-. exists i. destruct Hcase as [Hl Hw]. rewrite <- app_assoc in Hl.
    split_and!; try done. by rewrite (owned_ext _ _ Hp).
  - minv H. injection H0 as <- <-. injection H as <- <- <-. left. cbn [hs log].
    destruct Hcase as (rc & Hrc & Hl). rewrite <- app_assoc in Hl.
    split_and!; [done|by apply Hfree|]. eexists. split; [exact Hl|].
    split; [simpl; lia|]. by repeat constructor.
  - injection H as <- <- <-. right. destruct Hcase as (rc & Hrc & Hl). rewrite <- app_assoc in Hl.
    exists i, rc. split_and!; try done. by rewrite (owned_ext _ _ Hp).
Qed.

Lemma submit_inv fill s st tok s' :
  pool_inv (hs s) -> submit_command true fill s = Some ((st, tok), s') ->
  match st with
  | kFsaCommandSubmitAccepted => exists i, fresh_token (hs s) i tok /\
      owned (hs s') ≡ₚ tok :: owned (hs s) /\ host_wr_ptr (hs s') = next_wr_ptr (hs s) /\
      log s' = log s ++ [ev_slot i tok 0; ev_packet (hs s) fill tok 0; ev_bell (hs s) 0]
  | kFsaCommandSubmitTransportError =>
      (tok = 0 /\ owned (hs s') ≡ₚ owned (hs s) /\
       exists es, log s' = log s ++ es /\ (length es <= 2)%nat /\
         Forall (fun e => match e with EvScratch _ _ _ => True | _ => False end) es) \/
      (exists i rc, fresh_token (hs s) i tok /\ owned (hs s') ≡ₚ tok :: owned (hs s) /\ rc <> 0 /\
         log s' = log s ++ [ev_slot i tok 0; ev_packet (hs s) fill tok 0; ev_bell (hs s) rc])
  | kFsaCommandSubmitWouldBlock => tok = 0 /\ owned (hs s') ≡ₚ owned (hs s) /\ log s' = log s
  | kFsaCommandSubmitInvalidArgument => False
  end.
Proof.
  intros Hi H. unfold submit_command in H. cbn [negb] in H. minv H. apply gets_inv in H0 as [-> ->].
  assert (Herr : tok = 0 -> owned (hs s') ≡ₚ owned (hs s) -> log s' = log s ->
    (tok = 0 /\ owned (hs s') ≡ₚ owned (hs s) /\ exists es, log s' = log s ++ es /\ (length es <= 2)%nat /\
      Forall (fun e => match e with EvScratch _ _ _ => True | _ => False end) es)).
  { intros ? ? Hl. split_and!; try done. exists []. rewrite app_nil_r, Hl. split_and!; [done|simpl; lia|constructor]. }
  bcase_in H; [injection H as <- <- <-; left; by apply Herr|].
  minv H. apply reserve_inv in H0 as [Hl0 Hr0]. assert (Ho0 : owned (hs s0) = owned (hs s)).
  { by apply owned_ext, ring_pool. }
  destruct a; try (injection H as <- <- <-; rewrite Ho0; done);
    try (injection H as <- <- <-; left; apply Herr; by rewrite ?Ho0).
  minv H. injection H0 as <- <-. minv H. unfold section in H0. cbn [hs ds log] in H0.
  set (h0 := set_packet (put_token 0 fill) (hs s0)) in *.
  assert (Hi0 : pool_inv h0).
  { apply (pool_inv_ext (hs s)); [|done]. symmetry. exact (ring_pool _ _ Hr0). }
  destruct (allocate_completion_slot h0) as [r h1] eqn:Ea. injection H0 as <- <-.
  apply allocate_from_spec in Ea as (Hi1 & Hrest & Hst & Hb & Hcase); [|done|done].
  change (owned h0) with (owned (hs s0)) in Hcase. rewrite Ho0 in Hcase.
  destruct r as [i|].
  2:{ injection H as <- <- <-. cbn [hs log]. done. }
  destruct Hcase as (Hsl & Htok & Hfr & Hbt & Ho1). set (t := token (slot_at h1 i)) in *.
  assert (Hfresh : fresh_token (hs s) i t).
  { split_and!; try done. rewrite Hbt. f_equal. apply ring_pool in Hr0. unfold pool_of in Hr0.
    change (runtime_boot_generation h0) with (runtime_boot_generation (hs s0)). congruence. }
  assert (Hring : packet_address h1 = packet_address (hs s) /\ next_wr_ptr h1 = next_wr_ptr (hs s)).
  { assert (ring_size h1 = ring_size (hs s) /\ host_wr_ptr h1 = host_wr_ptr (hs s) /\
      dev_cmd_ring_base h1 = dev_cmd_ring_base (hs s)) as (E1 & E2 & E3).
    { unfold rest_of in Hrest. unfold ring_of in Hr0. unfold h0, set_packet, set_ring in Hrest.
      cbn in Hrest. unfold ring_size. injection Hr0 as ? ? ? ? ? ? Hlen.
      injection Hrest as Hring ? ? ? ?. rewrite Hring, length_insert. split_and!; congruence. }
    unfold packet_address, next_wr_ptr. by rewrite E1, E2, E3. }
  eapply submit_tail in H; eauto. cbn [log] in H. rewrite Hl0 in H.
  destruct Hring as [E1 E2]. unfold ev_packet, ev_bell in *. cbn [hs] in H. rewrite E1, E2 in H.
  destruct st; try done.
Qed.
End submission.

(** ** What the device finds after a submission *)

Lemma put_token_facts t fill :
  length fill = FSA_COMMAND_PACKET_BYTES -> fits 64 t ->
  length (put_token t fill) = FSA_COMMAND_PACKET_BYTES /\
  packet_header (put_token t fill) = packet_header fill /\
  host_token_from_packet (put_token t fill) = t.
Proof.
  intros Hl Ht. unfold put_token.
  assert (H56 : length (take FSA_COMPLETION_TOKEN_OFFSET fill) = 56%nat)
    by (rewrite length_take, Hl; done).
  split_and!.
  - by rewrite length_app, H56, length_le_bytes.
  - unfold packet_header. by rewrite take_app_le, take_take by (rewrite H56; lia).
  - unfold host_token_from_packet. rewrite drop_app_ge by (rewrite H56; done).
    rewrite H56. change (drop (FSA_COMPLETION_TOKEN_OFFSET - 56) ?l) with l.
    rewrite take_ge by (by rewrite length_le_bytes). rewrite le_val_bytes. by apply Z.mod_small.
Qed.

(** The pending slot word and its token. *)
Lemma slot_word_pending boot pool i t :
  pool_ok pool -> token_ok i t -> fsa_completion_token_boot_generation t = u16 boot ->
  cp_completion_is_pending boot
    (<[i := fsa_completion_slot_encode (fsa_completion_token_alloc_tag t) FSA_COMPLETION_RESULT_PENDING]> pool) t
  = true.
Proof.
  intros [Hlen _] (Hf & Hv & Hx) Hb. unfold cp_completion_is_pending, slot_of. rewrite Hv, Hb, Hx, Nat2Z.id.
  pose proof (has_valid_slot_index t Hv). cbn [negb].
  rewrite nth_insert by (rewrite Hlen; unfold FSA_COMPLETION_SLOT_COUNT; lia).
  rewrite decide_True by done.
  assert (Htag := token_alloc_tag_fits t Hf). assert (fits 16 FSA_COMPLETION_RESULT_PENDING) by done.
  rewrite slot_encode_tag, slot_encode_result, !Z.eqb_refl by done. done.
Qed.

(** ** A session on the toy device *)

Definition state_after {A} (r : option (A * sys)) : sys :=
  match r with Some (_, s) => s | None => mkSys hal_start toy_start [] end.
Definition toy_ready : sys :=
  state_after (fsa_hal_init 0x1000 0x800 (fun _ => true) 10 true true true (mkSys hal_start toy_start [])).

Lemma toy_ready_available : fsa_hal_is_available (hs toy_ready) = true.
Proof. vm_compute. reflexivity. Qed.

Lemma start_inv : pool_inv hal_start.
Proof. by apply empty_pool_inv. Qed.

Lemma state_after_inv {A} (m : M A) s :
  along keeps_inv m -> pool_inv (hs s) -> pool_inv (hs (state_after (m s))).
Proof.
  intros Hm Hi. destruct (m s) as [[a s']|] eqn:E; simpl; [|apply start_inv].
  by eapply Hm.
Qed.

Lemma toy_ready_inv : pool_inv (hs toy_ready).
Proof. apply state_after_inv; [apply init_keeps|apply start_inv]. Qed.

(** C4. Submission protocol. An accepted command makes exactly three writes, in this
    order: the completion slot, set to pending under a token the host does not own
    yet; the packet, with that token, at the ring entry of the write pointer; the
    doorbell. So when the firmware sees the packet its token is pending in the
    current boot. A refused command owns nothing and never rings the doorbell; only
    a doorbell write that fails leaves the token owned with the error. *)
Theorem submit_protocol {T : Transport} fill s st tok s' :
  pool_inv (hs s) -> length fill = FSA_COMMAND_PACKET_BYTES ->
  submit_command true fill s = Some ((st, tok), s') ->
  match st with
  | kFsaCommandSubmitAccepted => exists i, fresh_token (hs s) i tok /\
      owned (hs s') ≡ₚ tok :: owned (hs s) /\ host_wr_ptr (hs s') = next_wr_ptr (hs s) /\
      log s' = log s ++ [ev_slot i tok 0; ev_packet (hs s) fill tok 0; ev_bell (hs s) 0] /\
      packet_header (put_token tok fill) = packet_header fill /\
      host_token_from_packet (put_token tok fill) = tok /\
      forall pool, pool_ok pool ->
        cp_completion_is_pending (runtime_boot_generation (hs s))
          (<[i := fsa_completion_slot_encode (fsa_completion_token_alloc_tag tok)
                    FSA_COMPLETION_RESULT_PENDING]> pool) tok = true
  | kFsaCommandSubmitTransportError =>
      (tok = 0 /\ owned (hs s') ≡ₚ owned (hs s) /\
       exists es, log s' = log s ++ es /\ (length es <= 2)%nat /\
         Forall (fun e => match e with EvScratch _ _ _ => True | _ => False end) es) \/
      (exists i rc, fresh_token (hs s) i tok /\ owned (hs s') ≡ₚ tok :: owned (hs s) /\ rc <> 0 /\
         log s' = log s ++ [ev_slot i tok 0; ev_packet (hs s) fill tok 0; ev_bell (hs s) rc])
  | kFsaCommandSubmitWouldBlock => tok = 0 /\ owned (hs s') ≡ₚ owned (hs s) /\ log s' = log s
  | kFsaCommandSubmitInvalidArgument => False
  end.
Proof.
  intros Hi Hl H. apply submit_inv in H; [|done]. destruct st; try done.
  destruct H as (i & Hf & H1 & H2 & H3). exists i. destruct Hf as (Hok & Hn & Hb).
  destruct (put_token_facts tok fill Hl) as (_ & ? & ?); [apply Hok|].
  split_and!; try done. intros pool Hp. by apply slot_word_pending.
Qed.

Lemma for_range_and (f : nat -> bool) n :
  for_range (fun i ok => ok && f i) 0 n true = true -> forall i, (i < n)%nat -> f i = true.
Proof.
  induction n as [|n IH]; intros H i Hi; [lia|]. rewrite for_range_S in H. bprop.
  destruct (decide (i = n)) as [->|]; [done|]. apply IH; [done|lia].
Qed.

Lemma at3_fits w l i : 0 <= w -> Forall (fits w) l -> fits w (at3 l i).
Proof.
  intros Hw H. unfold at3. destruct (nth_lookup_or_length l i 0) as [Hx|Hx].
  - by apply (proj1 (Forall_lookup _ _) H) in Hx.
  - rewrite nth_overflow by lia. unfold fits. split; [lia|]. by apply Z.pow_pos_nonneg.
Qed.

Lemma geometry_bounds dims ls ng off lm :
  kernel_geometry_fits_packet dims ls ng off lm = true ->
  lm <= UINT16_MAX /\ forall i, (i < Z.to_nat dims)%nat ->
    (at3 ls i <> 0 /\ at3 ls i <= UINT16_MAX) /\ (at3 ng i <> 0 /\ at3 ng i <= UINT16_MAX) /\
    at3 off i <= UINT16_MAX.
Proof.
  unfold kernel_geometry_fits_packet. bcase; [done|]. intros H. split; [lia|]. intros i Hi.
  set (f := fun i => negb ((at3 ls i =? 0) || (UINT16_MAX <? at3 ls i)) &&
    negb ((at3 ng i =? 0) || (UINT16_MAX <? at3 ng i)) && negb (UINT16_MAX <? at3 off i)).
  assert (Hf : f i = true).
  { apply (for_range_and f (Z.to_nat dims)); [|done]. etrans; [|exact H]. clear.
    assert (Hg : forall n k b, for_range (fun i ok => ok && f i) k n b
      = for_range (fun i ok => ok && negb ((at3 ls i =? 0) || (UINT16_MAX <? at3 ls i)) &&
          negb ((at3 ng i =? 0) || (UINT16_MAX <? at3 ng i)) && negb (UINT16_MAX <? at3 off i)) k n b).
    { induction n as [|n IH]; intros k b; simpl; [done|]. rewrite IH. f_equal. unfold f.
      by rewrite !andb_assoc. }
    apply Hg. }
  unfold f in Hf. bprop. done.
Qed.

Definition with_token (t : Z) (p : KernelDispatchPacket) : KernelDispatchPacket :=
  mkKernelDispatchPacket (kd_header p) (dim_reserved0 p) (local_size_x p) (local_size_y p) (local_size_z p)
    (local_mem_size p) (num_groups_x p) (num_groups_y p) (num_groups_z p) (global_offset_x p)
    (global_offset_y p) (global_offset_z p) (kernel_object p) (kernarg_address p) (kernel_trampoline p)
    (kernel_status p) t.

Lemma put_token_kd t p : put_token t (kd_encode p) = kd_encode (with_token t p).
Proof. reflexivity. Qed.

Lemma kd_decode_put_token t p :
  in_layout kd_layout (kd_fields (with_token t p)) -> kd_decode (put_token t (kd_encode p)) = with_token t p.
Proof.
  intros H. rewrite put_token_kd. unfold kd_decode, kd_encode. by rewrite decode_encode_zip.
Qed.

(** The flag word of a launch. *)
Definition launch_flags (dim : Z) (meta remap : bool) : Z :=
  let f := u16 dim in
  let f := if meta then Z.lor f FSA_KERNEL_DISPATCH_HAS_PRINTF_META else f in
  if remap then Z.lor f FSA_KERNEL_DISPATCH_STACK_REMAP else f.

Lemma launch_flags_ok dim meta remap :
  1 <= dim <= 3 ->
  let f := launch_flags dim meta remap in
  fits 16 f /\ Z.land f FSA_KERNEL_DISPATCH_DIM_MASK = dim /\
  Z.land f (Z.lnot (Z.lor (Z.lor FSA_KERNEL_DISPATCH_DIM_MASK FSA_KERNEL_DISPATCH_HAS_PRINTF_META)
                      FSA_KERNEL_DISPATCH_STACK_REMAP)) = 0.
Proof.
  intros H. assert (dim = 1 \/ dim = 2 \/ dim = 3) as [->|[->| ->]] by lia;
    destruct meta, remap; vm_compute; done.
Qed.

Lemma kernel_packet_flags info :
  dim_reserved0 (kernel_packet info)
  = launch_flags (li_dimensions info) (negb (li_has_printf_meta info =? 0))
      (negb (li_enable_stack_remap info =? 0)).
Proof. done. Qed.

Lemma kernel_packet_layout info t :
  1 <= li_dimensions info <= 3 -> fits 64 t ->
  fits 64 (li_kernel_entry info) -> fits 64 (li_kernarg_address info) ->
  fits 64 (li_kernel_trampoline info) -> fits 64 (li_kernel_status info) ->
  in_layout kd_layout (kd_fields (with_token t (kernel_packet info))).
Proof.
  intros Hd Ht H1 H2 H3 H4. unfold in_layout, kd_layout, kd_fields, with_token.
  rewrite kernel_packet_flags.
  assert (Hw : forall x, fits 16 (u16 x)) by (intros; apply wrap_fits; lia).
  assert (Hif : forall (b : bool) x y, fits 16 y -> fits 16 (if b then u16 x else y))
    by (intros []; auto).
  repeat (apply Forall2_cons_2; [|]); try apply Forall2_nil_2; try done;
    try (apply Hw); try (apply Hif; done). by apply launch_flags_ok.
Qed.

(** The firmware's answer to a valid packet, once it has a kernel state for it. *)
Lemma kernel_setup_answer gen p kid kd :
  (kid < length (k_ks kd))%nat ->
  let kd' := kernel_setup gen p kid kd in
  if group_count p mod 2 ^ 32 =? 0
  then k_dpc kd' = DIdle /\
       k_pool kd' = cp_publish_completion gen (k_pool kd) (kd_completion_token p) kFsaKernelCompletionBadDimension
  else k_dpc kd' = DWgi (mkDlocal p kid (0, 0, 0) 0 0 0) /\ k_pool kd' = k_pool kd.
Proof.
  intros Hk kd'. subst kd'. unfold kernel_setup. cbn [k_ks set_hist set_ks].
  unfold kstate. rewrite nth_insert, decide_True by done. cbn [wg_left]. unfold wrap.
  destruct (group_count p mod 2 ^ 32 =? 0); [|done].
  unfold signal_kernel_failure. by destruct (kernel_status p =? 0).
Qed.

(** The packet of an accepted launch, as the firmware reads it. *)
Lemma launch_packet_geometry {T : Transport} info s tok s' :
  Forall (fits 32) (li_local_size info) -> Forall (fits 32) (li_num_groups info) ->
  Forall (fits 64) (li_global_offset info) -> fits 32 (li_local_mem_size info) ->
  fits 64 (li_kernel_entry info) -> fits 64 (li_kernarg_address info) ->
  fits 64 (li_kernel_trampoline info) -> fits 64 (li_kernel_status info) ->
  pool_inv (hs s) ->
  fsa_cmd_start_kernel (Some info) true s = Some ((kFsaCommandSubmitAccepted, tok), s') ->
  let p := kd_decode (put_token tok (kd_encode (kernel_packet info))) in
  valid_kernel_dispatch_packet p = true /\ kd_completion_token p = tok /\
  Z.land (dim_reserved0 p) FSA_KERNEL_DISPATCH_DIM_MASK = li_dimensions info /\
  local_mem_size p = li_local_mem_size info /\
  (forall i, (i < Z.to_nat (li_dimensions info))%nat ->
     nth i [local_size_x p; local_size_y p; local_size_z p] 0 = at3 (li_local_size info) i /\
     nth i [num_groups_x p; num_groups_y p; num_groups_z p] 0 = at3 (li_num_groups info) i /\
     nth i [global_offset_x p; global_offset_y p; global_offset_z p] 0 = at3 (li_global_offset info) i) /\
  (forall i, (Z.to_nat (li_dimensions info) <= i < 3)%nat ->
     nth i [local_size_x p; local_size_y p; local_size_z p] 0 = 1 /\
     nth i [num_groups_x p; num_groups_y p; num_groups_z p] 0 = 1) /\
  kernel_object p = li_kernel_entry info /\ kernarg_address p = li_kernarg_address info /\
  kernel_trampoline p = li_kernel_trampoline info /\ kernel_status p = li_kernel_status info.
Proof.
  intros Hls Hng Hoff Hlm He Hk Ht Hs Hi H. cbn [fsa_cmd_start_kernel negb] in H.
  destruct (_ || _) eqn:Eg in H; [done|]. bprop. apply submit_inv in H as (i & (Hok & _) & _); [|done].
  destruct (geometry_bounds _ _ _ _ _ ltac:(eassumption)) as [Hm Hgeo].
  set (dim := li_dimensions info) in *. assert (Hdim : 1 <= dim <= 3) by lia.
  destruct (launch_flags_ok dim (negb (li_has_printf_meta info =? 0))
    (negb (li_enable_stack_remap info =? 0)) Hdim) as (Hf1 & Hf2 & Hf3).
  pose proof (fun i => at3_fits 32 _ i ltac:(lia) Hls) as Hlsf.
  pose proof (fun i => at3_fits 32 _ i ltac:(lia) Hng) as Hngf.
  pose proof (fun i => at3_fits 64 _ i ltac:(lia) Hoff) as Hoff'.
  intros p. assert (Hp : p = with_token tok (kernel_packet info)).
  { apply kd_decode_put_token, kernel_packet_layout; try done. apply Hok. }
  rewrite Hp. clear p Hp. unfold with_token, valid_kernel_dispatch_packet. rewrite kernel_packet_flags.
  cbn [kd_completion_token dim_reserved0]. fold dim. set (fl := launch_flags _ _ _) in *.
  rewrite Hf2, Hf3. rewrite (proj2 (Z.ltb_ge dim 1)), (proj2 (Z.ltb_ge 3 dim)) by lia. cbn [orb negb Z.eqb].
  assert (Hn : forall i, (i < Z.to_nat dim)%nat -> u16 (at3 (li_local_size info) i) = at3 (li_local_size info) i /\
    u16 (at3 (li_num_groups info) i) = at3 (li_num_groups info) i /\
    u16 (at3 (li_global_offset info) i) = at3 (li_global_offset info) i).
  { intros j Hj. specialize (Hgeo j Hj). specialize (Hlsf j). specialize (Hngf j). specialize (Hoff' j).
    unfold UINT16_MAX, fits in *. rewrite !wrap_small by lia. done. }
  assert (Hnz : forall i, (i < Z.to_nat dim)%nat ->
    (u16 (at3 (li_local_size info) i) =? 0) = false /\ (u16 (at3 (li_num_groups info) i) =? 0) = false).
  { intros j Hj. destruct (Hn j Hj) as (-> & -> & _). destruct (Hgeo j Hj) as ((? & _) & (? & _) & _).
    split; by apply Z.eqb_neq. }
  split_and!; try done.
  - cbn. fold dim. clear Hf1 Hf2 Hf3. subst fl.
    assert (dim = 1 \/ dim = 2 \/ dim = 3) as [E|[E|E]] by lia; rewrite E in *; cbn;
      pose proof (Hnz 0%nat ltac:(cbn; lia)) as [-> ->]; try done;
      pose proof (Hnz 1%nat ltac:(cbn; lia)) as [-> ->]; try done;
      pose proof (Hnz 2%nat ltac:(cbn; lia)) as [-> ->]; done.
  - cbn. apply wrap_small. unfold fits, UINT16_MAX in *. lia.
  - intros j Hj. destruct (Hn j Hj) as (H5 & H6 & H7). cbn. fold dim.
    destruct j as [|[|[|j]]]; [|rewrite (proj2 (Z.ltb_lt 1 dim)) by lia
                               |rewrite (proj2 (Z.ltb_lt 2 dim)) by lia|lia]; done.
  - intros j Hj. cbn. fold dim.
    destruct j as [|[|[|j]]]; [lia|rewrite (proj2 (Z.ltb_ge 1 dim)) by lia
                               |rewrite (proj2 (Z.ltb_ge 2 dim)) by lia|lia]; done.
Qed.

(** C5. What the firmware makes of a launch that the HAL accepts. The packet decodes to
    the geometry of the launch without truncation, unused dimensions are one group and
    one item, and it passes the firmware's check of packets, so the dispatch task goes on
    to take a kernel state for it. With that state it starts launching the first
    work-group, unless the number of work-groups is a multiple of 2^32: neither side
    bounds the product, and the firmware answers such a launch with BadDimension. *)
Theorem launch_packet_valid {T : Transport} info s tok s' :
  Forall (fits 32) (li_local_size info) -> Forall (fits 32) (li_num_groups info) ->
  Forall (fits 64) (li_global_offset info) -> fits 32 (li_local_mem_size info) ->
  fits 64 (li_kernel_entry info) -> fits 64 (li_kernarg_address info) ->
  fits 64 (li_kernel_trampoline info) -> fits 64 (li_kernel_status info) ->
  pool_inv (hs s) ->
  fsa_cmd_start_kernel (Some info) true s = Some ((kFsaCommandSubmitAccepted, tok), s') ->
  let p := kd_decode (put_token tok (kd_encode (kernel_packet info))) in
  valid_kernel_dispatch_packet p = true /\ kd_completion_token p = tok /\
  Z.land (dim_reserved0 p) FSA_KERNEL_DISPATCH_DIM_MASK = li_dimensions info /\
  local_mem_size p = li_local_mem_size info /\
  (forall i, (i < Z.to_nat (li_dimensions info))%nat ->
     nth i [local_size_x p; local_size_y p; local_size_z p] 0 = at3 (li_local_size info) i /\
     nth i [num_groups_x p; num_groups_y p; num_groups_z p] 0 = at3 (li_num_groups info) i /\
     nth i [global_offset_x p; global_offset_y p; global_offset_z p] 0 = at3 (li_global_offset info) i) /\
  (forall i, (Z.to_nat (li_dimensions info) <= i < 3)%nat ->
     nth i [local_size_x p; local_size_y p; local_size_z p] 0 = 1 /\
     nth i [num_groups_x p; num_groups_y p; num_groups_z p] 0 = 1) /\
  kernel_object p = li_kernel_entry info /\ kernarg_address p = li_kernarg_address info /\
  kernel_trampoline p = li_kernel_trampoline info /\ kernel_status p = li_kernel_status info /\
  (forall hw gen kd, dispatch_packet hw gen p kd =
     set_dpc (if 1 <? g_num_sm hw then DInvalidate p else DKalloc p) kd) /\
  (forall gen kd kid, (kid < length (k_ks kd))%nat ->
     let kd' := kernel_setup gen p kid kd in
     if group_count p mod 2 ^ 32 =? 0
     then k_dpc kd' = DIdle /\
          k_pool kd' = cp_publish_completion gen (k_pool kd) tok kFsaKernelCompletionBadDimension
     else k_dpc kd' = DWgi (mkDlocal p kid (0, 0, 0) 0 0 0) /\ k_pool kd' = k_pool kd).
Proof.
  intros. destruct (launch_packet_geometry info s tok s') as (Hv & Ht & Hg); try done. fold p in Hv, Ht, Hg.
  split_and!; try apply Hg; try done.
  - intros hw gen kd. unfold dispatch_packet. rewrite Hv. done.
  - intros gen kd kid Hk. rewrite <- Ht. by apply kernel_setup_answer.
Qed.

Definition sample_launch : FsaKernelLaunchInfo :=
  mkLaunchInfo 104 2 [8; 4; 0] [16; 3; 0] [0; 5; 0] 1024 1 0 0x82000000 0x82001000 0x82002000 0x82003000.

Lemma launch_packet_valid_witness :
  exists tok s', fsa_cmd_start_kernel (Some sample_launch) true toy_ready
    = Some ((kFsaCommandSubmitAccepted, tok), s') /\
  let p := kd_decode (put_token tok (kd_encode (kernel_packet sample_launch))) in
  valid_kernel_dispatch_packet p = true /\ kd_completion_token p = tok.
Proof.
  assert (Hst : (fun r => fst (fst r)) <$> fsa_cmd_start_kernel (Some sample_launch) true toy_ready
    = Some kFsaCommandSubmitAccepted) by (vm_compute; reflexivity).
  destruct (fsa_cmd_start_kernel (Some sample_launch) true toy_ready) as [[[st tok] s']|] eqn:E; [|done].
  injection Hst as ->. exists tok, s'. split; [reflexivity|].
  destruct (launch_packet_valid sample_launch toy_ready tok s') as (H1 & H2 & _);
    [repeat constructor; simpl; lia..|split; simpl; lia|split; simpl; lia|split; simpl; lia|
     split; simpl; lia|split; simpl; lia|apply toy_ready_inv|exact E|].
  split; [exact H1|exact H2].
Defined.

Lemma submit_protocol_witness :
  exists tok s', submit_command true (ho_encode barrier_packet) toy_ready
    = Some ((kFsaCommandSubmitAccepted, tok), s') /\
  owned (hs s') ≡ₚ tok :: owned (hs toy_ready) /\ host_token_from_packet (put_token tok (ho_encode barrier_packet)) = tok.
Proof.
  assert (Hst : (fun r => fst (fst r)) <$> submit_command true (ho_encode barrier_packet) toy_ready
    = Some kFsaCommandSubmitAccepted) by (vm_compute; reflexivity).
  destruct (submit_command true (ho_encode barrier_packet) toy_ready) as [[[st tok] s']|] eqn:E; [|done].
  injection Hst as ->. exists tok, s'. split; [reflexivity|].
  destruct (submit_protocol (ho_encode barrier_packet) toy_ready _ tok s' toy_ready_inv eq_refl E)
    as (i & _ & H1 & _ & _ & _ & H2 & _). split; [exact H1|exact H2].
Defined.

(** C3. Completion tokens are unique. Whatever calls the host makes and whatever
    the device answers, the tokens the host owns are pairwise distinct: those of the
    slots in use, which name their own slot, and those a reset left to their owners,
    none of which is handed out again while its owner keeps it. *)
Theorem tokens_unique {T : Transport} fw fwlen alloc fuel cs (d : dev) log s' :
  run_calls fw fwlen alloc fuel cs (mkSys hal_start d log) = Some (tt, s') ->
  NoDup (owned (hs s')) /\
  (forall i m, completion_slots (hs s') !! i = Some m -> in_use m = true ->
     fsa_completion_token_slot_index (token m) = Z.of_nat i /\ find_completion_slot (hs s') (token m) = Some i).
Proof.
  intros H. apply calls_keep in H. assert (Hi : pool_inv (hs s')) by (apply H; by apply empty_pool_inv).
  split; [by apply owned_NoDup|]. intros i m Hm Hu.
  destruct (pi_slots _ Hi _ _ Hm Hu) as [(_ & _ & Hx) _]. split; [done|].
  destruct (proj2 (find_slot_live (hs s') (token m) Hi)) as [j Hj]; [apply elem_of_live; eauto|].
  rewrite Hj. apply find_slot_Some in Hj as [_ ->]. by rewrite Hx, Nat2Z.id.
Qed.

Lemma tokens_unique_witness :
  exists s', run_calls 0x1000 0x800 (fun _ => true) 10
    [CallInit true true true; CallBarrier true; CallKernel (Some sample_launch) true; CallReset 100;
     CallBarrier true] (mkSys hal_start toy_start []) = Some (tt, s') /\
  length (owned (hs s')) = 3%nat /\ NoDup (owned (hs s')).
Proof.
  assert (Hl : (fun r => length (owned (hs (snd r)))) <$> run_calls 0x1000 0x800 (fun _ => true) 10
    [CallInit true true true; CallBarrier true; CallKernel (Some sample_launch) true; CallReset 100;
     CallBarrier true] (mkSys hal_start toy_start []) = Some 3%nat) by (vm_compute; reflexivity).
  destruct (run_calls _ _ _ _ _ _) as [[[] s']|] eqn:E; [|done]. injection Hl as Hl.
  exists s'. split; [reflexivity|]. split; [exact Hl|]. exact (proj1 (tokens_unique _ _ _ _ _ _ _ _ E)).
Defined.
