(* ===== verification/HalLife.v ===== *)
(** * Lifetimes in the host runtime

    More theorems about Hal.v: a release gives up exactly one token, a reset hands
    every token over to its owner as rebooted, the polling loops end by their
    deadlines, an initialised session has sound allocators, and the occupancy check
    decides whether a work-group fits. *)

From S2P Require Import Prelude AddrMap Real ToyDevice CommandAbi Falloc Hal HalSession.

(** ** Releases *)

(** The slots and stale tokens, and what decides whether the session is up. *)
Definition keeps_slots (h h' : hal) : Prop :=
  completion_slots h' = completion_slots h /\ stale_completion_tokens h' = stale_completion_tokens h /\
  firmware_reboot_failed h' = firmware_reboot_failed h /\ active_configuration h' = active_configuration h.
#[global] Instance keeps_slots_preorder : PreOrder keeps_slots.
Proof. split; unfold keeps_slots; [done|]. intros x y z; naive_solver congruence. Qed.

#[global] Instance keeps_slots_quiet : Quiet keeps_slots.
Proof. by split; [apply _|..]. Qed.

Lemma keeps_slots_owned h h' : keeps_slots h h' -> owned h' = owned h.
Proof. unfold owned. by intros (-> & -> & _). Qed.

Section lives.
Context {T : Transport} (fw fwlen : Z) (alloc : Z -> bool).

(** The device reads alone never accept a release. *)
Lemma release_read_not_accepted t s s' :
  release_read t s = Some (inr kFsaCompletionReleaseAccepted, s') -> False.
Proof.
  intros H. unfold release_read in H. minv H. destruct a as [g|]; [|done].
  destruct (firmware_rebooted g t); [done|]. minv H. destruct a as [rc bs]. minv H.
  destruct (negb (rc =? 0) || a); [done|]. destruct (negb _); [done|]. by destruct (_ =? _).
Qed.

Lemma release_inv t s st s' :
  pool_inv (hs s) -> fsa_release_completion t s = Some (st, s') ->
  match st with
  | kFsaCompletionReleaseAccepted => owned (hs s) ≡ₚ t :: owned (hs s')
  | _ => owned (hs s') = owned (hs s)
  end.
Proof.
  intros Hi H. unfold fsa_release_completion in H. minv H. apply gets_inv in H0 as [-> ->].
  bcase_in H; [by injection H as <- <-|]. minv H. unfold section in H0.
  destruct (release_lookup (hs s) t) as [r h1] eqn:El. injection H0 as <- <-.
  apply release_lookup_spec in El; [|done]. destruct r as [st0|].
  { injection H as <- <-. cbn [hs]. destruct st0; try done; [apply El|by destruct El as [-> _]]. }
  destruct El as [-> Hlive]. minv H. rename H0 into H1. assert (H0 := release_read_quiet keeps_slots _ _ _ _ H1).
  cbn [hs] in H0.
  assert (Hi1 : pool_inv (hs s0)) by (by eapply (release_read_quiet keeps_inv); [exact H1|]).
  rewrite <- (keeps_slots_owned _ _ H0). assert (Hlive1 : t ∈ live (completion_slots (hs s0))).
  { destruct H0 as [-> _]. exact Hlive. }
  destruct a as [[]|st0].
  - unfold section in H. destruct (release_rebooted (hs s0) t) as [r h2] eqn:El. injection H as <- <-.
    apply release_rebooted_spec in El as [-> [El|[_ El]]]; [apply El|done|done].
  - unfold section in H. destruct (release_commit (hs s0) t) as [r h2] eqn:El. injection H as <- <-.
    apply release_commit_spec in El; [|done]. cbn [hs].
    destruct r; [apply El|by destruct El|by destruct El as [-> _]|done].
  - injection H as <- <-. destruct st0; try done.
    exfalso. by eapply release_read_not_accepted.
Qed.

(** ** Resets *)

Lemma ready_round_success timeout start s s' :
  ready_round timeout start tt s = Some (inr kFirmwareReadyResultSuccess, s') ->
  transport_failed (hs s') = false.
Proof.
  intros H. unfold ready_round in H. minv H. destruct a as [[|? [|? [|? [|? [|]]]]]|]; try done.
  mstep H as Hg. apply gets_inv in Hg as [-> ->]. destruct (transport_failed (hs s0)) eqn:Et; [done|].
  repeat (bcase_in H; [done|]). mstep H as Hg. apply gets_inv in Hg as [-> ->]. bcase_in H.
  - mstep H as Hm. apply modify_inv in Hm as ->. by apply ret_inv in H as [_ ->].
  - mstep H as Hb. destruct a as [rc v]. destruct (negb (rc =? 0)); [done|]. by destruct (timed_out _ _ _).
Qed.

Lemma mloop_last {S R} (body : S -> M (S + R)) fuel x s r s' :
  mloop fuel body x s = Some (r, s') -> exists x1 s1, body x1 s1 = Some (inr r, s').
Proof.
  revert x s. induction fuel as [|f IH]; intros x s H; [done|]. simpl in H. minv H.
  destruct a as [x'|r']; [by eapply IH|]. injection H as -> ->. eauto.
Qed.

Lemma boot_success fuel timeout start s s' :
  boot_firmware fw fwlen fuel timeout start s = Some (true, s') -> transport_failed (hs s') = false.
Proof.
  intros H. unfold boot_firmware in H. mstep H as He. bcase_in H; [done|]. mstep H as Hu.
  bcase_in H; [done|]. mstep H as Hw. apply ret_inv in H as [Hr ->]. destruct a1; try done.
  unfold wait_for_firmware_ready in Hw. mstep Hw as Hg. apply gets_inv in Hg as [-> ->].
  bcase_in Hw; [done|]. mstep Hw as Ht. destruct a1 as [rc v]. bcase_in Hw; [done|].
  apply mloop_last in Hw as ([] & s5 & Hl). by apply ready_round_success in Hl.
Qed.

Lemma reset_inv fuel timeout s rc s' :
  pool_inv (hs s) -> fsa_hal_reset fw fwlen fuel timeout s = Some (rc, s') ->
  owned (hs s') ≡ₚ owned (hs s) /\
  (rc = 0 -> fsa_hal_is_available (hs s') = true /\ live (completion_slots (hs s')) = []) /\
  (rc <> 0 -> active_configuration (hs s) <> None ->
     firmware_reboot_failed (hs s') = true).
Proof.
  intros Hi H. unfold fsa_hal_reset in H. mstep H as Hg. apply gets_inv in Hg as [-> ->].
  destruct (bool_decide (active_configuration (hs s) = None) || firmware_reboot_failed (hs s)) eqn:Er.
  { apply ret_inv in H as [-> ->]. split_and!; [done|done|]. intros _ Hc.
    by rewrite bool_decide_eq_false_2 in Er by done. }
  apply orb_false_iff in Er as [Hc Hrf]. apply bool_decide_eq_false in Hc.
  mstep H as Hm. apply modify_inv in Hm as ->. mstep H as Ht. destruct a0 as [rc0 t0].
  unfold real_time_ns, on_dev in Ht. destruct (word_out _) as [r0 d0]. injection Ht as -> <-.
  mstep H as Hb. cbn [hs ds log] in Hb. set (h1 := set_boot_gens _ _ _) in *.
  assert (Hk : keeps_slots h1 (hs s0)).
  { destruct (negb (rc0 =? 0)); [by apply ret_inv in Hb as [_ ->]|].
    by apply (boot_quiet keeps_slots) in Hb. }
  assert (Hp : pool_inv (hs s0)).
  { assert (pool_inv h1) by (by apply (pool_inv_ext (hs s))).
    destruct (negb (rc0 =? 0)); [by apply ret_inv in Hb as [_ ->]|]. by eapply (boot_quiet keeps_inv); [exact Hb|]. }
  assert (Ho : owned (hs s0) = owned (hs s)) by (by rewrite (keeps_slots_owned _ _ Hk)).
  destruct Hk as (E1 & E2 & E3 & E4). bcase_in H.
  - mstep H as Hm. apply modify_inv in Hm as ->. apply ret_inv in H as [-> ->]. cbn [hs].
    split_and!; [by rewrite <- Ho|done|done].
  - mstep H as Hm. apply modify_inv in Hm as ->. apply ret_inv in H as [-> ->]. cbn [hs].
    destruct (reset_completions_spec (hs s0) Hp) as (_ & Hl & Ho2). rewrite Ho2, Ho.
    split_and!; [done| |done]. intros _. split; [|done].
    unfold fsa_hal_is_available, firmware_session_failed. cbn. rewrite E3, E4. cbn.
    rewrite bool_decide_eq_true_2; [|destruct (active_configuration (hs s)); [by eexists|done]].
    destruct (negb (rc0 =? 0)); [by apply ret_inv in Hb as [Hb _]; subst|].
    subst a0. apply boot_success in Hb. rewrite Hb. cbn. by rewrite Hrf.
Qed.

(** A stale token polls as rebooted and is released at once, without the device. *)
Lemma stale_poll t s :
  firmware_session_failed (hs s) = false -> pool_inv (hs s) -> t ∈ stale_completion_tokens (hs s) ->
  fsa_poll_completion t s
  = Some ((kFsaCompletionPollTerminal, Some FSA_COMPLETION_RESULT_FIRMWARE_REBOOT), s).
Proof.
  intros Hf Hi Ht. unfold fsa_poll_completion, mbind, M_bind, gets. rewrite Hf. unfold poll_lookup.
  destruct (find_completion_slot (hs s) t) as [i|] eqn:E.
  { exfalso. apply find_slot_Some in E as [E _]. by apply (pi_slots _ Hi) in E as [_ E]. }
  unfold is_stale. by rewrite bool_decide_eq_true_2.
Qed.

Lemma stale_release t s :
  firmware_session_failed (hs s) = false -> t ∈ stale_completion_tokens (hs s) ->
  fsa_release_completion t s
  = Some (kFsaCompletionReleaseAccepted,
          mkSys (set_stale (erase_first t (stale_completion_tokens (hs s))) (hs s)) (ds s) (log s)).
Proof.
  intros Hf Ht. unfold fsa_release_completion, mbind, M_bind, gets, section. rewrite Hf.
  unfold release_lookup, is_stale. by rewrite bool_decide_eq_true_2.
Qed.

(** A failed session refuses everything. *)
Lemma failed_refuses s :
  firmware_session_failed (hs s) = true ->
  (forall fill, submit_command true fill s = Some ((kFsaCommandSubmitTransportError, 0), s)) /\
  (forall t, fsa_poll_completion t s = Some ((kFsaCompletionPollTransportError, None), s)) /\
  (forall t, fsa_release_completion t s = Some (kFsaCompletionReleaseTransportError, s)).
Proof.
  intros Hf. assert (Ha : fsa_hal_is_available (hs s) = false).
  { unfold fsa_hal_is_available. rewrite Hf. apply andb_false_r. }
  split_and!; intros.
  - unfold submit_command, mbind, M_bind, gets. cbn [negb]. by rewrite Ha.
  - unfold fsa_poll_completion, mbind, M_bind, gets. by rewrite Hf.
  - unfold fsa_release_completion, mbind, M_bind, gets. by rewrite Hf.
Qed.

End lives.

(** A release gives up exactly one token: an accepted release takes the token out
    of the owned ones and nothing else, any other answer changes no ownership. *)
Theorem release_gives_up_one {T : Transport} t s st s' :
  pool_inv (hs s) -> fsa_release_completion t s = Some (st, s') ->
  match st with
  | kFsaCompletionReleaseAccepted => owned (hs s) ≡ₚ t :: owned (hs s') /\ t ∉ owned (hs s')
  | _ => owned (hs s') = owned (hs s)
  end.
Proof.
  intros Hi H. apply release_inv in H; [|done]. destruct st; try done.
  split; [done|]. pose proof (owned_NoDup _ Hi) as Hn. rewrite H in Hn. by apply NoDup_cons in Hn as [? _].
Qed.

(** A reset hands the tokens over. A successful reset makes the session available
    and loses no token: each one owned before polls as terminated by the reboot and
    can be released, without asking the device. After a failed reset every
    submission, poll and release reports a transport error. *)
Theorem reset_hands_over_tokens {T : Transport} fw fwlen fuel timeout s rc s' :
  pool_inv (hs s) -> active_configuration (hs s) <> None ->
  fsa_hal_reset fw fwlen fuel timeout s = Some (rc, s') ->
  owned (hs s') ≡ₚ owned (hs s) /\
  if rc =? 0 then
    fsa_hal_is_available (hs s') = true /\
    forall t, t ∈ owned (hs s) ->
      fsa_poll_completion t s'
        = Some ((kFsaCompletionPollTerminal, Some FSA_COMPLETION_RESULT_FIRMWARE_REBOOT), s') /\
      exists s'', fsa_release_completion t s' = Some (kFsaCompletionReleaseAccepted, s'')
  else
    (forall fill, submit_command true fill s' = Some ((kFsaCommandSubmitTransportError, 0), s')) /\
    (forall t, fsa_poll_completion t s' = Some ((kFsaCompletionPollTransportError, None), s')) /\
    (forall t, fsa_release_completion t s' = Some (kFsaCompletionReleaseTransportError, s')).
Proof.
  intros Hi Hc H. assert (Hi' : pool_inv (hs s')) by (by eapply reset_keeps; [exact H|]).
  apply reset_inv in H as (Ho & H0 & H1); [|done]. split; [done|]. bcase.
  - destruct (H0 E) as [Ha Hl]. split; [done|]. intros t Ht. rewrite <- Ho in Ht.
    unfold owned in Ht. rewrite Hl in Ht.
    assert (Hf : firmware_session_failed (hs s') = false).
    { unfold fsa_hal_is_available in Ha. bprop. done. }
    split; [by apply stale_poll|]. eexists. by apply stale_release.
  - apply failed_refuses. unfold firmware_session_failed. rewrite H1 by done. apply orb_true_r.
Qed.

(** ** Deadlines *)

(** What the waiting loops rely on of the transport's clock: it never goes back, a
    back-off advances it by at least a microsecond, it stays below 2^64, and the
    scratchpad copies end. *)
Class DeviceClock (T : Transport) := {
  clock : dev -> Z;
  clock_time d rc v d' : fsa_real_time_ns d = (rc, v, d') ->
    clock d <= clock d' /\ (rc = 0 -> v = clock d' /\ fits 64 v);
  clock_backoff d rc v d' : fsa_real_poll_backoff d = (rc, v, d') ->
    clock d <= clock d' /\ (rc = 0 -> clock d + 1000 <= clock d' /\ v = clock d' /\ fits 64 v);
  clock_read d o rc v d' : fsa_real_mmio_read d o = (rc, v, d') -> clock d <= clock d';
  clock_write d o w rc d' : fsa_real_mmio_write d o w = (rc, d') -> clock d <= clock d';
  clock_cp_reset d rc d' : fsa_real_cp_reset d = (rc, d') -> clock d <= clock d';
  clock_from d a n : exists rc bs d',
    fsa_real_copy_from_scratchpad d a n = Some (rc, bs, d') /\ clock d <= clock d';
}.

Section deadlines.
Context {T : Transport} {DC : DeviceClock T}.

Definition now (s : sys) : Z := clock (ds s).

(** [m] returns, and time has not gone back. *)
Definition ends {A} (m : M A) : Prop :=
  forall s, exists a s', m s = Some (a, s') /\ now s <= now s'.

Lemma ends_ret {A} (a : A) : ends (mret a).
Proof. intros s. eexists _, _. split; [done|lia]. Qed.
Lemma ends_bind {A B} (m : M A) (f : A -> M B) : ends m -> (forall a, ends (f a)) -> ends (mbind f m).
Proof.
  intros Hm Hf s. destruct (Hm s) as (a & s1 & H1 & L1). destruct (Hf a s1) as (b & s2 & H2 & L2).
  exists b, s2. unfold mbind, M_bind. rewrite H1. split; [done|lia].
Qed.
Lemma ends_gets {A} (f : hal -> A) : ends (gets f).
Proof. intros s. eexists _, _. split; [done|lia]. Qed.
Lemma ends_modify f : ends (modify f).
Proof. intros s. eexists _, _. split; [done|]. unfold now. simpl. lia. Qed.
Lemma ends_section {A} (f : hal -> A * hal) : ends (section f).
Proof. intros s. unfold section. destruct (f (hs s)). eexists _, _. split; [done|]. unfold now. simpl. lia. Qed.
Lemma ends_event e : ends (record_event e).
Proof. intros s. eexists _, _. split; [done|]. unfold now. simpl. lia. Qed.
Lemma ends_on_dev {A} (f : dev -> A * dev) :
  (forall d a d', f d = (a, d') -> clock d <= clock d') -> ends (on_dev f).
Proof.
  intros H s. unfold on_dev. destruct (f (ds s)) as [a d'] eqn:E. eexists _, _. split; [done|].
  by apply H in E.
Qed.
Lemma ends_word_out (f : dev -> Z * Z * dev) :
  (forall d rc v d', f d = (rc, v, d') -> clock d <= clock d') -> ends (on_dev (fun d => word_out (f d))).
Proof.
  intros H. apply ends_on_dev. intros d a d'. unfold word_out. destruct (f d) as [[rc v] d1] eqn:E.
  intros [= <- <-]. by eapply H.
Qed.
Lemma ends_from a n : ends (read_scratchpad a n).
Proof.
  intros s. unfold read_scratchpad. destruct (clock_from (ds s) a n) as (rc & bs & d' & -> & L).
  eexists _, _. split; [done|exact L].
Qed.
Lemma ends_time : ends real_time_ns.
Proof. apply ends_word_out. intros. by eapply clock_time. Qed.
Lemma ends_backoff : ends real_poll_backoff.
Proof. apply ends_word_out. intros. by eapply clock_backoff. Qed.
End deadlines.

Create HintDb ends.
Ltac ends_step :=
  lazymatch goal with
  | |- ends (mbind _ _) => apply ends_bind; [|intro]
  | |- ends (mret _) => apply ends_ret
  | |- ends (gets _) => apply ends_gets
  | |- ends (modify _) => apply ends_modify
  | |- ends (section _) => apply ends_section
  | |- ends (record_event _) => apply ends_event
  | |- ends (read_scratchpad _ _) => apply ends_from
  | |- ends real_time_ns => apply ends_time
  | |- ends real_poll_backoff => apply ends_backoff
  | |- ends (match ?x with _ => _ end) => destruct x
  end.
Ltac ends := repeat first [progress eauto 2 with ends nocore | ends_step].

Section deadlines2.
Context {T : Transport} {DC : DeviceClock T}.

Lemma ends_mark rc : ends (mark_transport_failure rc).
Proof. unfold mark_transport_failure. ends. Qed.
Hint Resolve ends_mark : ends.
Lemma ends_read o l : ends (real_mmio_read o l).
Proof. unfold real_mmio_read. ends. apply ends_word_out. intros. by eapply clock_read. Qed.
Lemma ends_write o v : ends (real_mmio_write o v).
Proof. unfold real_mmio_write. ends. apply ends_on_dev. intros. by eapply clock_write. Qed.
Lemma ends_cp_reset : ends real_cp_reset.
Proof. unfold real_cp_reset. ends. apply ends_on_dev. intros. by eapply clock_cp_reset. Qed.
Lemma ends_copy_from a n : ends (copy_from_scratchpad a n).
Proof. unfold copy_from_scratchpad. ends. Qed.
Hint Resolve ends_read ends_write ends_cp_reset ends_copy_from : ends.
Lemma ends_snapshot : ends read_firmware_snapshot.
Proof. unfold read_firmware_snapshot. ends. Qed.
Hint Resolve ends_snapshot : ends.
Lemma ends_poll t : ends (fsa_poll_completion t).
Proof. unfold fsa_poll_completion, poll_read. ends. Qed.
Lemma ends_release t : ends (fsa_release_completion t).
Proof. unfold fsa_release_completion, release_read. ends. Qed.
Hint Resolve ends_poll ends_release : ends.
Lemma ends_registers os : ends (read_registers os).
Proof. induction os; simpl; ends. Qed.
Hint Resolve ends_registers : ends.





End deadlines2.
#[export] Hint Resolve ends_mark ends_read ends_write ends_cp_reset ends_copy_from ends_snapshot
  ends_poll ends_release ends_registers : ends.


Section terminate.
Context {T : Transport} {DC : DeviceClock T}.








End terminate.



#[global, refine] Instance toy_clock : DeviceClock toy_transport := {| clock := t_clock |}.
Proof.
  - intros d rc v d'. cbn. unfold toy_time. bcase; intros [= <- <- <-]; (split; [lia|]); [|done].
    intros _. unfold fits. done.
  - intros d rc v d'. cbn. unfold toy_backoff. bcase; intros [= <- <- <-]; cbn; (split; [lia|]); [|done].
    intros _. unfold fits. split_and!; [lia|done|lia|lia].
  - intros d o rc v d'. cbn. intros [= <- <- <-]. lia.
  - intros d o w rc d'. cbn. intros [= <- <-]. unfold toy_write. by destruct (_ =? _).
  - intros d rc d'. cbn. intros [= <- <-]. done.
  - intros d a n. cbn. eexists _, _, _. split; [done|lia].
Qed.


(** ** Initialisation *)

(** What boot does not touch. *)
Definition keeps_session (h h' : hal) : Prop :=
  heap h' = heap h /\ active_configuration h' = active_configuration h /\
  completion_slots h' = completion_slots h /\ stale_completion_tokens h' = stale_completion_tokens h /\
  firmware_reboot_failed h' = firmware_reboot_failed h /\ noncache_alloc_ready h' = noncache_alloc_ready h.
#[global] Instance keeps_session_quiet : Quiet keeps_session.
Proof.
  split; try done. split; unfold keeps_session; [done|]. intros x y z; naive_solver congruence.
Qed.

(** A configuration whose windows consist of whole cache lines, all in 64 bits. *)
Record config_ok (c : ConfigurationSnapshot) : Prop := {
  co_line : fits 64 (cache_line_size c);
  co_base : fits 64 (global_mem_base c);
  co_size : fits 64 (global_mem_size c);
  co_alloc : fits 64 (global_mem_alloc_base c);
  co_nc_base : fits 64 (global_mem_noncache_alloc_base c);
  co_nc_size : fits 64 (global_mem_noncache_alloc_size c);
  co_end : (cache_line_size c | global_mem_base c + global_mem_size c);
  co_nc_start : (cache_line_size c | global_mem_noncache_alloc_base c);
  co_nc_len : (cache_line_size c | global_mem_noncache_alloc_size c);
}.

Definition cache_arena (c : ConfigurationSnapshot) : arena :=
  mkArena (Z.log2 (cache_line_size c)) (global_mem_alloc_base c)
    (global_mem_base c + global_mem_size c - global_mem_alloc_base c).
Definition noncache_arena (c : ConfigurationSnapshot) : arena :=
  mkArena (Z.log2 (cache_line_size c)) (global_mem_noncache_alloc_base c)
    (global_mem_noncache_alloc_size c).

(** The windows an accepted configuration gives to the allocators are sound, and
    they overlap neither each other nor the stacks. *)
Record windows_ok (c : ConfigurationSnapshot) : Prop := {
  wo_line : cache_line_size c = 2 ^ Z.log2 (cache_line_size c);
  wo_cache : arena_ok (cache_arena c);
  wo_noncache : arena_ok (noncache_arena c);
  wo_disjoint : ar_start (noncache_arena c) + ar_len (noncache_arena c) <= ar_start (cache_arena c);
  wo_stacks : FSA_STACK_BASE < ar_start (cache_arena c) /\
    (ar_start (noncache_arena c) + ar_len (noncache_arena c) <= FSA_STACK_BASE \/
     ar_start (cache_arena c) <= ar_start (noncache_arena c));
}.

Lemma checked_add_Some l r x : checked_add l r = Some x -> x = l + r /\ l + r <= UINT64_MAX.
Proof. unfold checked_add. bcase; [done|]. intros [= <-]. lia. Qed.

Lemma power_of_two_log v : fits 64 v -> is_power_of_two v = true -> v = 2 ^ Z.log2 v /\ 0 <= Z.log2 v < 64.
Proof.
  unfold is_power_of_two, fits. intros Hv H. bprop. rewrite wrap_small in * by lia.
  destruct (pow2_test v) as (k & Hk & ->); [lia|done|]. rewrite Z.log2_pow2 by done.
  split; [done|]. split; [done|]. apply (Z.pow_lt_mono_r_iff 2); lia.
Qed.

Lemma derive_windows c desc :
  config_ok c -> derive_device_description c = Some desc ->
  windows_ok c /\ dd_max_allocation_size desc = ar_len (cache_arena c).
Proof.
  intros Hc H. unfold derive_device_description in H. bcase_in H; [done|].
  repeat match goal with H : is_power_of_two _ = true |- _ =>
    apply power_of_two_log in H as [Hlog Hk]; [|apply Hc] end.
  destruct (checked_mul _ _) as [tpc|]; [|done]. cbn [mbind option_bind] in H.
  destruct (checked_add (global_mem_base c) _) as [ge|] eqn:E1; [|done]. cbn [mbind option_bind] in H.
  destruct (checked_add (global_mem_noncache_alloc_base c) _) as [ne|] eqn:E2; [|done]. cbn [mbind option_bind] in H.
  destruct (checked_add (fsa_mmio_base c) _) as [me|]; [|done]. cbn [mbind option_bind] in H.
  destruct (checked_add (clint_base c) _) as [ce|]; [|done]. cbn [mbind option_bind] in H.
  apply checked_add_Some in E1 as [-> L1], E2 as [-> L2].
  destruct (_ || _) eqn:Eb in H; [done|]. injection H as <-. bprop.
  destruct Hc. unfold fits, UINT64_MAX in *.
  assert (Hal : (cache_line_size c | global_mem_alloc_base c)) by (by apply Z.mod_divide; [lia|]).
  cbn [dd_max_allocation_size]. rewrite wrap_small by lia. split; [|done].
  constructor; unfold arena_ok, cache_arena, noncache_arena; cbn [ar_k ar_start ar_len]; rewrite <- ?Hlog; [done|..].
  - split_and!; try lia; [done|]. by apply Z.divide_sub_r.
  - split_and!; try lia; done.
  - lia.
  - split; [lia|]. match goal with H : _ && _ = false |- _ => apply andb_false_iff in H as [H|H] end; bprop; lia.
Qed.

Lemma init_heap_ok c size ok r ctx ctx' rc :
  arena_ok r -> ar_start r = c -> ar_len r = size -> allocated_list ctx = [] ->
  falloc_init_impl ctx c size (2 ^ ar_k r) false ok true = (ctx', rc) -> rc = 0 ->
  falloc_ok r ctx'.
Proof.
  intros Hr <- <- Ha H ->. destruct ok.
  - destruct (falloc_init_ok r ctx Hr Ha) as (c' & Hc & Hok & _). rewrite Hc in H. by injection H as <-.
  - unfold falloc_init_impl in H. cbn [negb] in H. by repeat case_match; simplify_eq.
Qed.

Lemma init_heaps_ok c desc ok1 ok2 h h' :
  config_ok c -> derive_device_description c = Some desc ->
  allocated_list (cache_ctx (heap h)) = [] -> allocated_list (noncache_ctx (heap h)) = [] ->
  init_heaps c (dd_max_allocation_size desc) ok1 ok2 h = (true, h') ->
  falloc_ok (cache_arena c) (cache_ctx (heap h')) /\ falloc_ok (noncache_arena c) (noncache_ctx (heap h')).
Proof.
  intros Hc Hd Ha1 Ha2 H. destruct (derive_windows c desc Hc Hd) as [[Hline Hw1 Hw2 _ _] Hsz].
  unfold init_heaps, falloc_init, falloc_noncache_init in H. rewrite Hsz, Hline in H.
  destruct (falloc_init_impl (cache_ctx (heap h)) _ _ _ _ _ _) as [c1 rc1] eqn:E1.
  destruct (negb (rc1 =? 0)) eqn:Er1; [done|]. bprop.
  destruct (falloc_init_impl (noncache_ctx _) _ _ _ _ _ _) as [c2 rc2] eqn:E2.
  injection H as Er2 <-. bprop. cbn.
  split; [exact (init_heap_ok _ _ ok1 (cache_arena c) _ _ _ Hw1 eq_refl eq_refl Ha1 E1 Er1)|].
  exact (init_heap_ok _ _ ok2 (noncache_arena c) _ _ _ Hw2 eq_refl eq_refl Ha2 E2 Er2).
Qed.

Lemma init_heaps_frame c size ok1 ok2 h r h' :
  init_heaps c size ok1 ok2 h = (r, h') -> exists hp, h' = set_heap hp h.
Proof.
  unfold init_heaps. destruct (falloc_init _ _ _ _ _ _ _) as [s1 rc1]. destruct (negb (rc1 =? 0)).
  { intros [= <- <-]. by exists s1. }
  destruct (falloc_noncache_init _ _ _ _ _ _ _) as [s2 rc2]. intros [= <- <-]. by exists s2.
Qed.

Section init.
Context {T : Transport} (fw fwlen : Z) (alloc : Z -> bool).

Lemma roll_back_None rc s r s' : roll_back rc s = Some (r, s') -> snd r = None.
Proof. intros H. unfold roll_back in H. mstep H as Hr. by apply ret_inv in H as [-> _]. Qed.

Lemma clean_heap_inv s u s' :
  rollback_initialization s = Some (u, s') -> heap (hs s') = falloc_boot /\ log s' = log s.
Proof.
  intros H. unfold rollback_initialization in H. mstep H as H1. mstep H as H2.
  apply modify_inv in H as ->. unfold reset_runtime_state in H1. mstep H1 as H3.
  apply modify_inv in H3 as ->. unfold on_dev in *. by injection H1 as _ <-; injection H2 as _ <-.
Qed.

(** A rolled back initialisation leaves the state of a HAL that was never initialised. *)
Lemma roll_back_start rc s r s' : roll_back rc s = Some (r, s') -> r = (rc, None) /\ hs s' = hal_start.
Proof.
  intros H. unfold roll_back in H. mstep H as Hr. apply ret_inv in H as [-> ->]. split; [done|].
  pose proof (clean_heap_inv _ _ _ Hr) as [Hh _]. unfold rollback_initialization, reset_runtime_state in Hr.
  mstep Hr as H1. mstep H1 as H3. mstep Hr as H2. apply modify_inv in H3 as ->, Hr as ->. unfold on_dev in *.
  injection H1 as _ <-. injection H2 as _ <-. cbn [hs heap] in *. unfold set_heap in *. cbn in *. by rewrite Hh.
Qed.

(** An initialisation succeeds with a description, or fails and leaves no session. *)
Lemma init_answers fuel has_ptr ok1 ok2 s rc desc s' :
  fsa_hal_init fw fwlen alloc fuel has_ptr ok1 ok2 s = Some ((rc, desc), s') ->
  has_ptr = true /\ rc = 0 /\ is_Some desc \/
  desc = None /\ rc <> 0 /\
    ((has_ptr = false \/ fsa_hal_is_available (hs s) = true) /\ s' = s \/ hs s' = hal_start).
Proof.
  intros H. unfold fsa_hal_init in H.
  destruct has_ptr; cbn [negb] in H; [|apply ret_inv in H as [[= -> ->] ->]; right; split_and!; auto].
  mstep H as Hg. apply gets_inv in Hg as [-> ->]. bcase_in H; [apply ret_inv in H as [[= -> ->] ->]; right; split_and!; auto|].
  assert (Hroll : forall rc0 s0, roll_back rc0 s0 = Some ((rc, desc), s') -> rc0 <> 0 ->
    rc = 0 /\ is_Some desc \/ desc = None /\ rc <> 0 /\ hs s' = hal_start).
  { intros rc0 s0 Hr Hne. apply roll_back_start in Hr as [[= -> ->] ?]. auto. }
  enough (rc = 0 /\ is_Some desc \/ desc = None /\ rc <> 0 /\ hs s' = hal_start) by tauto.
  mstep H as Hr. mstep H as Hm. mstep H as Hi. mstep H as Hmk. bcase_in H; [by apply (Hroll _ _ H)|].
  mstep H as Hl. bcase_in H; [by apply (Hroll _ _ H)|]. mstep H as Hs. injection Hs as <- <-.
  destruct (configuration_snapshot _) as [c|]; cbn [mbind option_bind] in H; [|by apply (Hroll _ _ H)].
  destruct (derive_device_description c) as [ld|]; [|by apply (Hroll _ _ H)].
  mstep H as Hm1. mstep H as Hg1. mpair H as rc3 g3. bcase_in H; [by apply (Hroll _ _ H)|].
  mstep H as Hm2. mstep H as Hg2. mpair H as rc4 g4. bcase_in H; [by apply (Hroll _ _ H)|].
  bcase_in H; [by apply (Hroll _ _ H)|].
  mstep H as Hm3. mstep H as Hg3. mpair H as rc5 g5. bcase_in H; [by apply (Hroll _ _ H)|].
  mstep H as Hm4. mstep H as Hih. bcase_in H; [by apply (Hroll _ _ H)|].
  mstep H as Hm5. mstep H as Hb. bcase_in H; [by apply (Hroll _ _ H)|].
  mstep H as Hm6. apply ret_inv in H as [[= -> ->] _]. eauto.
Qed.

Lemma init_inv fuel ok1 ok2 s desc s' :
  fsa_hal_init fw fwlen alloc fuel true ok1 ok2 s = Some ((0, Some desc), s') ->
  exists c h0 h1, active_configuration (hs s') = Some c /\ derive_device_description c = Some desc /\
    fsa_hal_is_available (hs s') = true /\ owned (hs s') = [] /\
    length (completion_slots (hs s')) = Z.to_nat FSA_COMPLETION_POOL_ENTRIES /\
    heap h0 = falloc_boot /\ init_heaps c (dd_max_allocation_size desc) ok1 ok2 h0 = (true, h1) /\
    heap (hs s') = heap h1.
Proof.
  intros H. unfold fsa_hal_init in H. cbn [negb] in H. mstep H as Hg. apply gets_inv in Hg as [-> ->].
  bcase_in H; [by apply ret_inv in H as [H _]|]. mstep H as Hr. apply clean_heap_inv in Hr as [Hh0 _].
  mstep H as Hm. apply modify_inv in Hm as ->. mstep H as Hi. unfold on_dev in Hi.
  destruct (fsa_real_init _) as [rc1 d1]. injection Hi as <- <-. cbn [hs ds log] in H.
  mstep H as Hmk. unfold mark_transport_failure in Hmk. bcase_in H; [by apply roll_back_None in H|].
  subst rc1. apply ret_inv in Hmk as [_ ->]. mstep H as Hl. unfold on_dev in Hl.
  destruct (load_configuration_snapshot _) as [rc2 d2]. injection Hl as <- <-. cbn [hs ds log] in H.
  bcase_in H; [by apply roll_back_None in H|]. mstep H as Hs. injection Hs as <- <-. cbn [hs ds log] in H.
  destruct (configuration_snapshot d2) as [c|]; [|by apply roll_back_None in H]. cbn [mbind option_bind] in H.
  destruct (derive_device_description c) as [ld|] eqn:Ed; [|by apply roll_back_None in H].
  mstep H as Hm. apply modify_inv in Hm as ->. mstep H as Hg1. mpair H as rc3 g3.
  apply (read_quiet keeps_session) in Hg1. cbn [hs] in Hg1.
  bcase_in H; [by apply roll_back_None in H|]. mstep H as Hm. apply modify_inv in Hm as ->.
  mstep H as Hg2. mpair H as rc4 g4. apply (read_quiet keeps_session) in Hg2. cbn [hs] in Hg2.
  bcase_in H; [by apply roll_back_None in H|]. bcase_in H; [by apply roll_back_None in H|].
  mstep H as Hm. apply modify_inv in Hm as ->. mstep H as Hg3. mpair H as rc5 g5.
  apply (read_quiet keeps_session) in Hg3. cbn [hs] in Hg3.
  bcase_in H; [by apply roll_back_None in H|]. mstep H as Hm. apply modify_inv in Hm as ->.
  mstep H as Hih. unfold section in Hih. cbn [hs ds log] in Hih.
  destruct (init_heaps _ _ _ _ _) as [ok h5] eqn:Eh in Hih. injection Hih as <- <-.
  bcase_in H; [by apply roll_back_None in H|]. subst ok. mstep H as Hm. apply modify_inv in Hm as ->.
  mstep H as Hb. bcase_in H; [by apply roll_back_None in H|]. subst.
  assert (Hf := boot_success _ _ _ _ _ _ _ Hb). apply (boot_quiet keeps_session) in Hb.
  mstep H as Hm. apply modify_inv in Hm as ->. apply ret_inv in H as [[= ->] ->]. cbn [hs] in *.
  destruct (init_heaps_frame _ _ _ _ _ _ _ Eh) as [hp ->].
  destruct Hg1 as (A1 & A2 & _ & _ & A5 & _), Hg2 as (B1 & B2 & _ & _ & B5 & _),
    Hg3 as (C1 & C2 & C3 & C4 & C5 & _), Hb as (D1 & D2 & D3 & D4 & D5 & _).
  cbn in A1, A2, A5, B1, B2, B5, C1, C2, C3, C4, C5, D1, D2, D3, D4, D5.
  exists c, (set_base g5 (hs s3)), (set_heap hp (set_base g5 (hs s3))). cbn.
  split_and!; try congruence.
  - unfold fsa_hal_is_available, firmware_session_failed. cbn.
    rewrite Hf, D5, C5, B5, A5, D2, C2, B2, A2. done.
  - unfold owned. cbn. by rewrite D3, D4, C3, C4.
  - by rewrite D3, C3, length_replicate.
Qed.
End init.

(** C39. What an initialisation leaves. A session that initialises is sound: it is
    available, it owns no token and its pool has its 64 slots; and if the windows of the
    device are whole cache lines, both allocators satisfy their contract on windows that
    overlap neither each other nor the stacks. An initialisation that fails answers a
    nonzero status; it changes nothing if it was refused (no place for the description,
    or a session there already), and otherwise leaves the state of a HAL that was never
    initialised, which has no session. *)
Theorem init_establishes_session {T : Transport} fw fwlen alloc fuel has_ptr ok1 ok2 s rc desc s' :
  fsa_hal_init fw fwlen alloc fuel has_ptr ok1 ok2 s = Some ((rc, desc), s') ->
  match desc with
  | Some d =>
      rc = 0 /\ fsa_hal_is_available (hs s') = true /\ owned (hs s') = [] /\
      length (completion_slots (hs s')) = Z.to_nat FSA_COMPLETION_POOL_ENTRIES /\
      exists c, active_configuration (hs s') = Some c /\ derive_device_description c = Some d /\
        (config_ok c -> windows_ok c /\
           falloc_ok (cache_arena c) (cache_ctx (heap (hs s'))) /\
           falloc_ok (noncache_arena c) (noncache_ctx (heap (hs s'))))
  | None =>
      rc <> 0 /\
      ((has_ptr = false \/ fsa_hal_is_available (hs s) = true) /\ s' = s \/
       hs s' = hal_start /\ fsa_hal_is_available (hs s') = false)
  end.
Proof.
  intros H. destruct (init_answers _ _ _ _ _ _ _ _ _ _ _ H) as [(-> & -> & [d ->])|(-> & Hrc & Hs)].
  - apply init_inv in H as (c & h0 & h1 & Hc & Hd & Ha & Ho & Hl & Hb & Hi & Hh).
    split_and!; try done. exists c. split_and!; try done. intros Hok.
    split; [by eapply derive_windows|]. rewrite Hh. eapply init_heaps_ok; eauto; by rewrite Hb.
  - split; [done|]. destruct Hs as [Hs|Hs]; auto. right. by rewrite Hs.
Qed.

Lemma toy_configuration_ok : config_ok toy_configuration.
Proof.
  split; cbn; try (vm_compute; done); apply Z.mod_divide; vm_compute; done.
Qed.

Lemma init_establishes_session_witness :
  exists desc s', fsa_hal_init 0x1000 0x800 (fun _ => true) 10 true true true (mkSys hal_start toy_start [])
    = Some ((0, Some desc), s') /\
  fsa_hal_is_available (hs s') = true /\ owned (hs s') = [].
Proof.
  assert (Hst : (fun r => (fst (fst r), bool_decide (is_Some (snd (fst r))))) <$>
      fsa_hal_init 0x1000 0x800 (fun _ => true) 10 true true true (mkSys hal_start toy_start [])
    = Some (0, true)) by (vm_compute; reflexivity).
  destruct (fsa_hal_init _ _ _ _ _ _ _ _) as [[[rc [desc|]] s']|] eqn:E; [|done|done].
  injection Hst as ->. exists desc, s'. split; [reflexivity|].
  destruct (init_establishes_session _ _ _ _ _ _ _ _ _ _ _ E) as (_ & H1 & H2 & _). split; [exact H1|exact H2].
Defined.

(** ** Occupancy *)

Lemma derive_geometry c desc :
  fits 64 (threads_per_warp c) -> fits 64 (warps_per_core c) -> fits 64 (Real.local_mem_size c) ->
  derive_device_description c = Some desc ->
  0 < threads_per_warp c /\ 0 < warps_per_core c /\ 0 < Real.local_mem_size c /\
  threads_per_warp c * warps_per_core c < 2 ^ 64.
Proof.
  unfold fits. intros H1 H2 H3 H. unfold derive_device_description in H. bcase_in H; [done|].
  destruct (checked_mul _ _) as [tpc|] eqn:E; [|done]. unfold checked_mul in E.
  bcase_in E; [done|]. split_and!; try lia.
  match goal with H : _ && _ = false |- _ => apply andb_false_iff in H as [Hz|Hz] end; bprop; [lia|].
  unfold UINT64_MAX in *.
  pose proof (Z.mul_div_le (2 ^ 64 - 1) (warps_per_core c) ltac:(lia)). nia.
Qed.

(** The code's rounded-up quotient. *)
Lemma ceil_div g w : 0 < w -> 0 <= g ->
  g / w + (if negb (g mod w =? 0) then 1 else 0) = (g + w - 1) / w.
Proof.
  intros Hw Hg. pose proof (Z.div_mod g w ltac:(lia)). pose proof (Z.mod_pos_bound g w Hw).
  destruct (Z.eqb_spec (g mod w) 0); cbn [negb].
  - apply (Z.div_unique_pos _ _ _ (w - 1)); lia.
  - apply (Z.div_unique_pos _ _ _ (g mod w - 1)); lia.
Qed.

(** The occupancy check decides exactly whether a work-group of [g] threads and
    [l] bytes of local memory fits a core: its warps, rounded up, fit the core's
    warps and its memory the local memory. The size it reports is the largest that
    lets as many work-groups share the local memory as the warps allow. *)
Theorem occupancy_decides h c desc g l :
  fsa_hal_is_available h = true -> active_configuration h = Some c ->
  derive_device_description c = Some desc ->
  fits 64 (threads_per_warp c) -> fits 64 (warps_per_core c) -> fits 64 (Real.local_mem_size c) ->
  fits 64 g -> fits 64 l ->
  let warps := (g + threads_per_warp c - 1) / threads_per_warp c in
  let groups := warps_per_core c / warps in
  (fst (fsa_hal_check_occupancy h g l) = 0 <-> 0 < g /\ warps <= warps_per_core c /\ l <= Real.local_mem_size c) /\
  (fst (fsa_hal_check_occupancy h g l) = 0 -> exists m, snd (fsa_hal_check_occupancy h g l) = Some m /\
     groups * m <= Real.local_mem_size c < groups * (m + 1)).
Proof.
  intros Ha Hc Hd H1 H2 H3 Hg Hl warps groups.
  destruct (derive_geometry c desc H1 H2 H3 Hd) as (Ht & Hw & Hm & Hov).
  unfold fsa_hal_check_occupancy. rewrite Hc, Ha. cbn [negb]. unfold fits in *.
  rewrite (wrap_small 64 (threads_per_warp c * warps_per_core c)) by nia.
  assert (Hceil := ceil_div g (threads_per_warp c) Ht ltac:(lia)). fold warps in Hceil.
  assert (Hwl : g <= warps * threads_per_warp c).
  { pose proof (Z.div_mod (g + threads_per_warp c - 1) (threads_per_warp c) ltac:(lia)) as Hdm.
    pose proof (Z.mod_pos_bound (g + threads_per_warp c - 1) (threads_per_warp c) ltac:(lia)).
    fold warps in Hdm. lia. }
  bcase; [simpl; lia|]. assert (1 <= warps) by nia.
  assert (warps <= g).
  { unfold warps. assert ((g + threads_per_warp c - 1) / threads_per_warp c < g + 1); [|lia].
    apply Z.div_lt_upper_bound; nia. }
  bcase; [simpl; nia|]. rewrite (wrap_small 64 (g / _ + _)), Hceil by lia. fold groups.
  assert (Hgr : groups = 0 <-> ~ warps <= warps_per_core c).
  { unfold groups. rewrite Z.div_small_iff by lia. lia. }
  bcase; [simpl; lia|].
  assert (0 < groups) by (assert (0 <= groups) by (apply Z.div_pos; lia); lia).
  destruct (Z.eqb_spec l 0) as [->|Hl0]; cbn [negb andb].
  - rewrite Z.min_id, (proj2 (Z.eqb_neq _ _)) by lia. simpl. split; [lia|]. intros _.
    eexists. split; [done|]. pose proof (Z.mul_div_le (Real.local_mem_size c) groups ltac:(lia)).
    pose proof (Z.mul_succ_div_gt (Real.local_mem_size c) groups ltac:(lia)). lia.
  - bcase; [simpl; lia|]. assert (0 < Real.local_mem_size c / l) by (apply Z.div_str_pos; lia).
    rewrite (proj2 (Z.eqb_neq _ _)) by lia. simpl. split; [lia|]. intros _.
    eexists. split; [done|]. pose proof (Z.mul_div_le (Real.local_mem_size c) groups ltac:(lia)).
    pose proof (Z.mul_succ_div_gt (Real.local_mem_size c) groups ltac:(lia)). lia.
Qed.

Lemma occupancy_decides_witness :
  fst (fsa_hal_check_occupancy (hs toy_ready) 100 4096) = 0.
Proof.
  destruct (derive_device_description toy_configuration) as [desc|] eqn:Ed; [|vm_compute in Ed; discriminate].
  apply (occupancy_decides (hs toy_ready) toy_configuration desc 100 4096 toy_ready_available);
    [vm_compute; reflexivity|exact Ed|split; cbn; lia..|].
  cbn [threads_per_warp warps_per_core Real.local_mem_size toy_configuration].
  split_and!; [lia|vm_compute; congruence|lia].
Defined.

(** Two commands on the toy device, and what becomes of them. *)
Definition toy_two : sys :=
  state_after (run_calls 0x1000 0x800 (fun _ => true) 10 [CallBarrier true; CallBarrier true] toy_ready).
Lemma toy_two_inv : pool_inv (hs toy_two).
Proof. apply state_after_inv; [apply calls_keep|apply toy_ready_inv]. Qed.

Lemma release_gives_up_one_witness :
  exists s1 s', fsa_hal_reset 0x1000 0x800 10 100 toy_two = Some (0, s1) /\
    fsa_release_completion (nth 0 (owned (hs toy_two)) 0) s1 = Some (kFsaCompletionReleaseAccepted, s') /\
    nth 0 (owned (hs toy_two)) 0 ∉ owned (hs s').
Proof.
  assert (Hst : (fun r => fst r) <$> fsa_hal_reset 0x1000 0x800 10 100 toy_two = Some 0)
    by (vm_compute; reflexivity).
  destruct (fsa_hal_reset 0x1000 0x800 10 100 toy_two) as [[rc s1]|] eqn:E1; [|done]. injection Hst as ->.
  assert (Hs1 : state_after (fsa_hal_reset 0x1000 0x800 10 100 toy_two) = s1) by (by rewrite E1).
  assert (Hst : (fun r => fst r) <$>
      fsa_release_completion (nth 0 (owned (hs toy_two)) 0)
        (state_after (fsa_hal_reset 0x1000 0x800 10 100 toy_two)) = Some kFsaCompletionReleaseAccepted)
    by (vm_compute; reflexivity).
  rewrite Hs1 in Hst.
  destruct (fsa_release_completion (nth 0 (owned (hs toy_two)) 0) s1) as [[st s']|] eqn:E2; [|done].
  injection Hst as ->. exists s1, s'. split; [reflexivity|]. split; [exact E2|].
  assert (Hi : pool_inv (hs s1)) by (eapply reset_keeps; [exact E1|apply toy_two_inv]).
  exact (proj2 (release_gives_up_one _ _ _ _ Hi E2)).
Defined.

Lemma reset_hands_over_tokens_witness :
  exists s1, fsa_hal_reset 0x1000 0x800 10 100 toy_two = Some (0, s1) /\
    fsa_poll_completion (nth 1 (owned (hs toy_two)) 0) s1
    = Some ((kFsaCompletionPollTerminal, Some FSA_COMPLETION_RESULT_FIRMWARE_REBOOT), s1).
Proof.
  assert (Hst : (fun r => fst r) <$> fsa_hal_reset 0x1000 0x800 10 100 toy_two = Some 0)
    by (vm_compute; reflexivity).
  destruct (fsa_hal_reset 0x1000 0x800 10 100 toy_two) as [[rc s1]|] eqn:E1; [|done]. injection Hst as ->.
  exists s1. split; [reflexivity|].
  destruct (reset_hands_over_tokens _ _ _ _ _ _ _ toy_two_inv ltac:(vm_compute; congruence) E1) as [_ [_ H]].
  apply H. apply list_elem_of_lookup_2 with 1%nat. vm_compute. reflexivity.
Defined.
