(* ===== verification/HalConcur.v ===== *)
(** * Concurrent callers of the host runtime

    hal.cc serialises the completion pool with one mutex, but a release looks its
    token up in one mutex section, reads the device without the mutex, and frees the
    slot in another. Here any number of threads release tokens at the same time as
    commands are submitted and the firmware is reset, with their mutex sections in
    any order. What a release reads from the device is left open.

    [issued], [taken] and [accepted] are histories: the tokens handed out, the tokens
    a release took out of the pool, and the tokens of the releases that answered
    Accepted. [reboots] counts the releases that saw another boot generation. *)

From S2P Require Import Prelude AddrMap CommandAbi Real ToyDevice Falloc Hal HalSession.

(** Where a releasing thread is. *)
Inductive rel_pc :=
  | RIdle
  | RRead (t : Z)          (* looked up, reading the device *)
  | RReboot (t : Z)        (* the boot generation differs *)
  | RCommit (t : Z).       (* the slot is terminal *)

Record cst := mkCst {
  c_hal : hal;
  c_threads : list rel_pc;
  c_issued : list Z;
  c_taken : list Z;
  c_accepted : list Z;
  c_reboots : nat;
}.

Definition with_hal (h : hal) (c : cst) : cst :=
  mkCst h (c_threads c) (c_issued c) (c_taken c) (c_accepted c) (c_reboots c).
Definition with_pc (k : nat) (p : rel_pc) (c : cst) : cst :=
  mkCst (c_hal c) (<[k := p]> (c_threads c)) (c_issued c) (c_taken c) (c_accepted c) (c_reboots c).
Definition with_issued (t : Z) (c : cst) : cst :=
  mkCst (c_hal c) (c_threads c) (t :: c_issued c) (c_taken c) (c_accepted c) (c_reboots c).
(** A release of [t] answers Accepted; [took] tells whether it took the token. *)
Definition accept (t : Z) (took : bool) (c : cst) : cst :=
  mkCst (c_hal c) (c_threads c) (c_issued c) (if took then t :: c_taken c else c_taken c)
    (t :: c_accepted c) (c_reboots c).
Definition count_reboot (c : cst) : cst :=
  mkCst (c_hal c) (c_threads c) (c_issued c) (c_taken c) (c_accepted c) (S (c_reboots c)).

Definition accepted_if (st : FsaCompletionReleaseStatus) (t : Z) (took : bool) (c : cst) : cst :=
  match st with kFsaCompletionReleaseAccepted => accept t took c | _ => c end.
Definition holds (h : hal) (t : Z) : bool := bool_decide (t ∈ live (completion_slots h)).

Inductive cstep : cst -> cst -> Prop :=
  (* first mutex section of a release *)
  | c_lookup_done c k t st h' :
      c_threads c !! k = Some RIdle -> firmware_session_failed (c_hal c) = false ->
      release_lookup (c_hal c) t = (Some st, h') ->
      cstep c (accepted_if st t true (with_hal h' c))
  | c_lookup_found c k t h' :
      c_threads c !! k = Some RIdle -> firmware_session_failed (c_hal c) = false ->
      release_lookup (c_hal c) t = (None, h') ->
      cstep c (with_pc k (RRead t) (with_hal h' c))
  (* the device reads, with any outcome *)
  | c_read_reboot c k t : c_threads c !! k = Some (RRead t) -> cstep c (with_pc k (RReboot t) (count_reboot c))
  | c_read_terminal c k t : c_threads c !! k = Some (RRead t) -> cstep c (with_pc k (RCommit t) c)
  | c_read_answer c k t : c_threads c !! k = Some (RRead t) -> cstep c (with_pc k RIdle c)
  (* the other two mutex sections *)
  | c_reboot c k t st h' :
      c_threads c !! k = Some (RReboot t) -> release_rebooted (c_hal c) t = (st, h') ->
      cstep c (with_pc k RIdle (accepted_if st t (holds (c_hal c) t) (with_hal h' c)))
  | c_commit c k t st h' :
      c_threads c !! k = Some (RCommit t) -> release_commit (c_hal c) t = (st, h') ->
      cstep c (with_pc k RIdle (accepted_if st t true (with_hal h' c)))
  (* a submission holds the mutex throughout: no slot, a slot kept, a slot given back *)
  | c_submit_full c h' :
      allocate_completion_slot (c_hal c) = (None, h') -> cstep c (with_hal h' c)
  | c_submit_kept c i h' :
      allocate_completion_slot (c_hal c) = (Some i, h') ->
      cstep c (with_issued (token (slot_at h' i)) (with_hal h' c))
  | c_submit_failed c i h' :
      allocate_completion_slot (c_hal c) = (Some i, h') -> cstep c (with_hal (free_slot_at i h') c)
  (* a reset holds it too *)
  | c_reset c g :
      fits 64 g -> cstep c (with_hal (reset_completions (set_boot_gens g g (c_hal c))) c)
  (* a failure is latched, or a reset clears it again *)
  | c_flags c a b d : cstep c (with_hal (set_flags a b d (c_hal c)) c).

Inductive csteps : cst -> cst -> Prop :=
  | csteps_refl c : csteps c c
  | csteps_step c1 c2 c3 : csteps c1 c2 -> cstep c2 c3 -> csteps c1 c3.

Lemma csteps_front c1 c2 c3 : cstep c1 c2 -> csteps c2 c3 -> csteps c1 c3.
Proof.
  intros H. induction 1 as [|c2 c c3 _ IH Hs].
  - eapply csteps_step; [apply csteps_refl|done].
  - eapply csteps_step; [by apply IH|done].
Qed.

(** ** Conservation *)

Record conserved (c : cst) : Prop := {
  cv_inv : pool_inv (c_hal c);
  cv_issued : c_issued c ≡ₚ owned (c_hal c) ++ c_taken c;
  cv_taken : c_taken c ⊆+ c_accepted c;
  cv_exact : c_reboots c = 0%nat -> c_taken c = c_accepted c;
  cv_reboot k t : c_threads c !! k = Some (RReboot t) -> (0 < c_reboots c)%nat;
}.

Lemma conserved_same c h :
  conserved c -> pool_inv h -> owned h ≡ₚ owned (c_hal c) -> conserved (with_hal h c).
Proof. intros [] Hi Ho. constructor; cbn; try done. by rewrite Ho. Qed.

Lemma conserved_take c t h :
  conserved c -> takes_away t (c_hal c) h -> conserved (accept t true (with_hal h c)).
Proof.
  intros [] (Hi & _ & Ho). constructor; cbn; try done.
  - rewrite cv_issued0, Ho. by rewrite <- Permutation_middle.
  - by apply submseteq_skip.
  - intros H. f_equal. auto.
Qed.

Lemma conserved_pc c k p :
  conserved c -> (forall t, p = RReboot t -> (0 < c_reboots c)%nat) -> conserved (with_pc k p c).
Proof.
  intros [] Hp. constructor; cbn; try done. intros j t. rewrite list_lookup_insert_Some.
  intros [(_ & -> & _)|[_ Hj]]; eauto.
Qed.

Lemma cstep_conserved c c' : conserved c -> cstep c c' -> conserved c'.
Proof.
  intros Hc Hs. pose proof (cv_inv _ Hc) as Hi. destruct Hs.
  - apply release_lookup_spec in H1; [|done]. destruct st; cbn; try done; [by apply conserved_take|].
    destruct H1 as [-> _]. by apply conserved_same.
  - apply release_lookup_spec in H1 as [-> _]; [|done]. apply conserved_pc; [|done]. by apply conserved_same.
  - apply conserved_pc; [|cbn; lia]. destruct Hc. constructor; cbn; try done. lia.
  - by apply conserved_pc.
  - by apply conserved_pc.
  - apply conserved_pc; [|done]. pose proof (cv_reboot _ Hc _ _ H) as Hr.
    unfold release_rebooted in H0. injection H0 as <- <-. unfold holds. cbn.
    destruct (find_completion_slot (c_hal c) t) as [i|] eqn:Ef.
    + rewrite bool_decide_eq_true_2 by (apply find_slot_live; [done|by rewrite Ef]).
      apply conserved_take; [done|by apply free_found].
    + rewrite bool_decide_eq_false_2 by (by apply not_found). destruct Hc. constructor; cbn; try done.
      * by apply submseteq_cons.
      * lia.
  - apply conserved_pc; [|done]. apply release_commit_spec in H0; [|done].
    destruct st; cbn; try done; [by apply conserved_take|..]; destruct H0 as [-> _]; by apply conserved_same.
  - apply allocate_from_spec in H as (Hi' & _ & _ & _ & Ho); [|done|done]. by apply conserved_same.
  - apply allocate_from_spec in H as (Hi' & _ & _ & _ & _ & _ & _ & _ & Ho); [|done|done].
    destruct Hc. constructor; cbn; try done. by rewrite cv_issued0, Ho.
  - apply allocate_from_spec in H as (Hi' & _ & _ & _ & Hs & _ & _ & _ & Ho); [|done|done].
    apply conserved_same; [done|by apply free_slot_inv|].
    pose proof (free_slot_owned h' i _ Hs) as HP. cbn in HP. rewrite Ho in HP.
    symmetry. by apply Permutation_cons_inv in HP.
  - set (h := set_boot_gens g g (c_hal c)). assert (Hh : pool_inv h) by (destruct Hi; by constructor).
    destruct (reset_completions_spec h Hh) as (H1 & _ & H2). apply conserved_same; [done|done|]. exact H2.
  - apply conserved_same; [done| |done]. by apply (pool_inv_ext (c_hal c)).
Qed.

Lemma csteps_conserved c c' : csteps c c' -> conserved c -> conserved c'.
Proof. induction 1 as [|c1 c2 c3 _ IH Hs]; [done|]. intros H. apply (cstep_conserved c2); auto. Qed.

(** [n] threads about to call the HAL. *)
Definition cst_start (h : hal) (n : nat) : cst := mkCst h (replicate n RIdle) (owned h) [] [] 0.

Lemma start_conserved h n : pool_inv h -> conserved (cst_start h n).
Proof.
  intros Hi. constructor; cbn; try done; [by rewrite app_nil_r|].
  intros k t H. apply lookup_replicate in H as [H _]. done.
Qed.

(** Concurrent releases conserve tokens. However the mutex sections of releases,
    submissions and resets interleave, every token handed out is either still owned
    or was taken by exactly one release that answered Accepted; and as long as no
    release sees a reboot, every Accepted answer took its token, so a token is
    released at most once per time it was handed out. *)
Theorem releases_conserve_tokens h n c :
  pool_inv h -> csteps (cst_start h n) c ->
  NoDup (owned (c_hal c)) /\ c_issued c ≡ₚ owned (c_hal c) ++ c_taken c /\ c_taken c ⊆+ c_accepted c /\
  (c_reboots c = 0%nat -> c_issued c ≡ₚ owned (c_hal c) ++ c_accepted c).
Proof.
  intros Hi Hc. apply csteps_conserved in Hc; [|by apply start_conserved]. destruct Hc.
  split_and!; [by apply owned_NoDup|done|done|]. intros H. by rewrite <- cv_exact0.
Qed.

(** One issued token, as the host holds it after a first boot. *)
Definition one_token : Z := fsa_completion_token_make 1 1 0.
Definition one_slot : hal :=
  mkHal [] 0 0 0 2 1 1 true false false true None (mkSlot true one_token :: replicate 63 free_slot) [] falloc_boot.

Lemma one_slot_inv : pool_inv one_slot.
Proof.
  constructor; cbn.
  - intros [|i] m; cbn.
    + intros [= <-] _. split; [by vm_compute|]. apply not_elem_of_nil.
    + intros H. change (replicate 63 free_slot !! i = Some m) in H.
      apply lookup_replicate in H as [-> _]. done.
  - constructor.
  - done.
  - unfold fits. lia.
  - unfold fits. lia.
Qed.

(** A release that overlaps a reset is accepted without releasing anything: the
    token stays in the list of stale tokens, from which only another release would
    remove it, and that one is accepted too. *)
Theorem release_reset_race :
  exists c1 c2, csteps (cst_start one_slot 2) c1 /\ csteps c1 c2 /\
    c_issued c2 = [one_token] /\
    c_accepted c1 = [one_token] /\ owned (c_hal c1) = [one_token] /\ c_threads c1 = [RIdle; RIdle] /\
    c_accepted c2 = [one_token; one_token] /\ owned (c_hal c2) = [].
Proof.
  eexists _, _. split; [|split].
  - eapply csteps_front. { eapply (c_lookup_found _ 0 one_token); vm_compute; reflexivity. }
    eapply csteps_front. { apply (c_read_reboot _ 0 one_token). vm_compute. reflexivity. }
    eapply csteps_front. { apply (c_reset _ 2). unfold fits. lia. }
    eapply csteps_front. { eapply (c_reboot _ 0 one_token); vm_compute; reflexivity. }
    apply csteps_refl.
  - eapply csteps_front. { eapply (c_lookup_done _ 1 one_token); vm_compute; reflexivity. }
    apply csteps_refl.
  - vm_compute. done.
Qed.

Lemma releases_conserve_tokens_witness :
  exists c, csteps (cst_start one_slot 2) c /\ c_accepted c = [one_token] /\ owned (c_hal c) = [] /\
    c_issued c ≡ₚ owned (c_hal c) ++ c_accepted c.
Proof.
  assert (exists c, csteps (cst_start one_slot 2) c /\ c_accepted c = [one_token] /\ owned (c_hal c) = [] /\
    c_reboots c = 0%nat) as (c & Hc & Ha & Ho & Hr).
  { eexists. split; [|split].
    - eapply csteps_front. { eapply (c_lookup_found _ 0 one_token); vm_compute; reflexivity. }
      eapply csteps_front. { eapply (c_lookup_found _ 1 one_token); vm_compute; reflexivity. }
      eapply csteps_front. { apply (c_read_terminal _ 0 one_token). vm_compute. reflexivity. }
      eapply csteps_front. { apply (c_read_terminal _ 1 one_token). vm_compute. reflexivity. }
      eapply csteps_front. { eapply (c_commit _ 1 one_token); vm_compute; reflexivity. }
      eapply csteps_front. { eapply (c_commit _ 0 one_token); vm_compute; reflexivity. }
      apply csteps_refl.
    - vm_compute. reflexivity.
    - vm_compute. done. }
  exists c. destruct (releases_conserve_tokens one_slot 2 c one_slot_inv Hc) as (_ & _ & _ & H).
  split; [exact Hc|]. split; [exact Ha|]. split; [exact Ho|]. exact (H Hr).
Defined.
