(* ===== verification/Dma.v ===== *)
(** * The dual-port DMA engine (lv/src/lv/bindings/dma/dma.cc)

    Three SystemC threads share the registers of the engine: [mmio_proc] answers
    register accesses, [read_proc] reads the source in beats of at most eight bytes
    and queues them, [write_proc] takes beats out of the queue and writes them. A
    thread gives up control only where it blocks, so the model has one action for
    what a thread does between two blocking points, and a program counter for the
    point where it waits. A run is a list of actions: every interleaving and every
    sequence of bus answers is one.

    The queue is an [sc_fifo]: what is written in a delta cycle becomes readable with
    the update that ends it. [start_event_] is notified at once, which wakes only a
    thread that is already waiting. A payload is its data bytes; [data_map_] and the
    payload pool only hold their storage.

    The memories behind the two ports are given by [conn], which memory a port is
    wired to: two different ones for the Host DMA, the same one for the Device DMA. *)

From S2P Require Import Prelude Platform CMem.

Definition LV_DMA_OFF_START : Z := 0x00.
Definition LV_DMA_OFF_ADDR0 : Z := 0x08.
Definition LV_DMA_OFF_ADDR1 : Z := 0x10.
Definition LV_DMA_OFF_SIZE : Z := 0x18.
Definition LV_DMA_OFF_STATUS : Z := 0x20.
Definition LV_DMA_REGISTER_BYTES : Z := 8.

Definition INT64_MIN : Z := - 2 ^ 63.

(** ** State *)

(** A port: [false] is port 0, [true] is port 1. *)
Inductive read_pc :=
  | RWait                                        (* wait(start_event_) *)
  | RWoken                                       (* notified *)
  | RResp (port : bool) (addr chunk pkt_left write_cursor : Z)
                                                 (* read_master_->resp_port->read() *)
  | RPush (data : list Z) (pkt_left write_cursor : Z)
                                                 (* trans_fifo_.write(trans) *)
  | RPushNull.                                   (* trans_fifo_.write(nullptr) *)

Inductive write_pc :=
  | WWait                                        (* trans_fifo_.read() *)
  | WResp (port : bool) (addr : Z) (data : list Z).
                                                 (* write_master_->resp_port->read() *)

Record DMA := mkDMA {
  start_ : Z;
  addr0_ : Z;
  addr1_ : Z;
  size_ : Z;                                     (* int64_t *)
  status_ : Z;
  is_processing_ : bool;
  transfer_failed_ : bool;
  read_master_ : bool;                           (* read_ptr_ is its address register *)
  write_master_ : bool;
  trans_fifo_ : list (option (list Z));          (* readable; None is nullptr *)
  trans_new : list (option (list Z));            (* written in this delta cycle *)
  rd : read_pc;
  wr : write_pc;
}.

Definition set_regs (s a0 a1 n st : Z) (d : DMA) : DMA :=
  mkDMA s a0 a1 n st (is_processing_ d) (transfer_failed_ d) (read_master_ d) (write_master_ d)
    (trans_fifo_ d) (trans_new d) (rd d) (wr d).
Definition set_start (s : Z) (d : DMA) : DMA := set_regs s (addr0_ d) (addr1_ d) (size_ d) (status_ d) d.
Definition set_addr (port : bool) (a : Z) (d : DMA) : DMA :=
  if port then set_regs (start_ d) (addr0_ d) a (size_ d) (status_ d) d
  else set_regs (start_ d) a (addr1_ d) (size_ d) (status_ d) d.
Definition set_size (n : Z) (d : DMA) : DMA := set_regs (start_ d) (addr0_ d) (addr1_ d) n (status_ d) d.
Definition set_status (st : Z) (d : DMA) : DMA := set_regs (start_ d) (addr0_ d) (addr1_ d) (size_ d) st d.
Definition set_flags (p f : bool) (d : DMA) : DMA :=
  mkDMA (start_ d) (addr0_ d) (addr1_ d) (size_ d) (status_ d) p f (read_master_ d) (write_master_ d)
    (trans_fifo_ d) (trans_new d) (rd d) (wr d).
Definition set_masters (r w : bool) (d : DMA) : DMA :=
  mkDMA (start_ d) (addr0_ d) (addr1_ d) (size_ d) (status_ d) (is_processing_ d) (transfer_failed_ d)
    r w (trans_fifo_ d) (trans_new d) (rd d) (wr d).
Definition set_fifo (q n : list (option (list Z))) (d : DMA) : DMA :=
  mkDMA (start_ d) (addr0_ d) (addr1_ d) (size_ d) (status_ d) (is_processing_ d) (transfer_failed_ d)
    (read_master_ d) (write_master_ d) q n (rd d) (wr d).
Definition set_rd (r : read_pc) (d : DMA) : DMA :=
  mkDMA (start_ d) (addr0_ d) (addr1_ d) (size_ d) (status_ d) (is_processing_ d) (transfer_failed_ d)
    (read_master_ d) (write_master_ d) (trans_fifo_ d) (trans_new d) r (wr d).
Definition set_wr (w : write_pc) (d : DMA) : DMA :=
  mkDMA (start_ d) (addr0_ d) (addr1_ d) (size_ d) (status_ d) (is_processing_ d) (transfer_failed_ d)
    (read_master_ d) (write_master_ d) (trans_fifo_ d) (trans_new d) (rd d) w.

Definition dma_reset : DMA :=
  mkDMA 0 0 0 0 kDmaStatusIdle false false false false [] [] RWait WWait.

Definition addr_reg (port : bool) (d : DMA) : Z := if port then addr1_ d else addr0_ d.
(** [*read_ptr_] and [*write_ptr_] *)
Definition read_ptr (d : DMA) : Z := addr_reg (read_master_ d) d.
Definition write_ptr (d : DMA) : Z := addr_reg (write_master_ d) d.

(** ** Register accesses *)

Inductive tlm_command := TLM_READ_COMMAND | TLM_WRITE_COMMAND | TLM_IGNORE_COMMAND.
Inductive tlm_response :=
  | TLM_OK_RESPONSE | TLM_BURST_ERROR_RESPONSE | TLM_ADDRESS_ERROR_RESPONSE | TLM_COMMAND_ERROR_RESPONSE.

(** A payload: command, address, data length, and the data unless its pointer is
    null. *)
Record access := mkAccess { a_cmd : tlm_command; a_addr : Z; a_len : Z; a_data : option Z }.

Definition notify_start (d : DMA) : DMA :=
  match rd d with RWait => set_rd RWoken d | _ => d end.

Definition start_transfer (d : DMA) : bool * DMA :=
  if size_ d =? 0 then (true, set_status kDmaStatusDone (set_start 0 d)) else
  if size_ d =? INT64_MIN then (false, set_status kDmaStatusInvalidDescriptor (set_start 0 d)) else
  let d := if 0 <? size_ d then set_masters false true d
           else set_size (- size_ d) (set_masters true false d) in
  let d := set_flags (is_processing_ d) false d in
  let d := set_status kDmaStatusBusy d in
  let d := set_flags true (transfer_failed_ d) d in
  (true, notify_start d).

(** One round of [mmio_proc]: the response, the data read, the engine. An illegal
    command is reported as an error, which ends the simulation ([None]). *)
Definition mmio_proc (t : access) (d : DMA) : option (tlm_response * option Z * DMA) :=
  match a_data t with
  | None => Some (TLM_BURST_ERROR_RESPONSE, None, d)
  | Some v =>
      if negb (a_len t =? LV_DMA_REGISTER_BYTES) then Some (TLM_BURST_ERROR_RESPONSE, None, d) else
      match a_cmd t with
      | TLM_READ_COMMAND =>
          if a_addr t =? LV_DMA_OFF_START then Some (TLM_OK_RESPONSE, Some (start_ d), d) else
          if a_addr t =? LV_DMA_OFF_ADDR0 then Some (TLM_OK_RESPONSE, Some (addr0_ d), d) else
          if a_addr t =? LV_DMA_OFF_ADDR1 then Some (TLM_OK_RESPONSE, Some (addr1_ d), d) else
          if a_addr t =? LV_DMA_OFF_SIZE then Some (TLM_OK_RESPONSE, Some (u64 (size_ d)), d) else
          if a_addr t =? LV_DMA_OFF_STATUS then Some (TLM_OK_RESPONSE, Some (status_ d), d) else
          Some (TLM_ADDRESS_ERROR_RESPONSE, None, d)
      | TLM_WRITE_COMMAND =>
          if is_processing_ d then Some (TLM_COMMAND_ERROR_RESPONSE, None, d) else
          if a_addr t =? LV_DMA_OFF_START then
            let s := if v =? 0 then 0 else 1 in
            let d := set_start s d in
            if negb (s =? 0) then
              let '(ok, d) := start_transfer d in
              Some (if ok then TLM_OK_RESPONSE else TLM_COMMAND_ERROR_RESPONSE, None, d)
            else Some (TLM_OK_RESPONSE, None, d)
          else
          if a_addr t =? LV_DMA_OFF_ADDR0 then Some (TLM_OK_RESPONSE, None, set_addr false v d) else
          if a_addr t =? LV_DMA_OFF_ADDR1 then Some (TLM_OK_RESPONSE, None, set_addr true v d) else
          if a_addr t =? LV_DMA_OFF_SIZE then Some (TLM_OK_RESPONSE, None, set_size (s64 v) d) else
          if a_addr t =? LV_DMA_OFF_STATUS then Some (TLM_COMMAND_ERROR_RESPONSE, None, d) else
          Some (TLM_ADDRESS_ERROR_RESPONSE, None, d)
      | TLM_IGNORE_COMMAND => None
      end
  end.

Definition finish_transfer (terminal_status : Z) (d : DMA) : DMA :=
  set_flags false (transfer_failed_ d) (set_regs 0 (addr0_ d) (addr1_ d) 0 terminal_status d).

(** Only what is readable is drained. *)
Definition drain_pending_transactions (d : DMA) : DMA := set_fifo [] (trans_new d) d.

Definition next_chunk (read_addr write_addr remaining : Z) : Z :=
  let read_room := 64 - read_addr mod 64 in
  let write_room := 64 - write_addr mod 64 in
  Z.min (Z.min remaining 8) (Z.min read_room write_room).

(** ** The reading thread *)

(** The head of its loop, up to the request. *)
Definition read_loop (pkt_left write_cursor : Z) (d : DMA) : DMA :=
  if negb (0 <? pkt_left) then set_rd RWait d else
  if transfer_failed_ d then set_rd RWait d else
  let chunk := next_chunk (read_ptr d) write_cursor pkt_left in
  set_rd (RResp (read_master_ d) (read_ptr d) chunk pkt_left write_cursor) d.

Definition read_woken (d : DMA) : DMA := read_loop (size_ d) (write_ptr d) d.

(** A response with its data, or a failed one. *)
Definition read_response (pkt_left write_cursor : Z) (data : option (list Z)) (d : DMA) : DMA :=
  match data with
  | None => set_rd RPushNull (set_status kDmaStatusBusError (set_flags (is_processing_ d) true d))
  | Some bs => if transfer_failed_ d then set_rd RWait d else set_rd (RPush bs pkt_left write_cursor) d
  end.

Definition read_pushed (data : list Z) (pkt_left write_cursor : Z) (d : DMA) : DMA :=
  let chunk := Z.of_nat (length data) in
  let d := set_fifo (trans_fifo_ d) (trans_new d ++ [Some data]) d in
  let d := set_addr (read_master_ d) (read_ptr d +% chunk) d in
  read_loop (pkt_left - chunk) (write_cursor +% chunk) d.

Definition read_pushed_null (d : DMA) : DMA :=
  set_rd RWait (set_fifo (trans_fifo_ d) (trans_new d ++ [None]) d).

(** ** The writing thread *)

Definition write_popped (item : option (list Z)) (d : DMA) : DMA :=
  match item with
  | None => finish_transfer kDmaStatusBusError d
  | Some data =>
      if transfer_failed_ d then d else set_wr (WResp (write_master_ d) (write_ptr d) data) d
  end.

Definition write_response (data : list Z) (success : bool) (d : DMA) : DMA :=
  let d := set_wr WWait d in
  let chunk := Z.of_nat (length data) in
  if negb success then
    finish_transfer kDmaStatusBusError
      (drain_pending_transactions (set_flags (is_processing_ d) true d))
  else
    let d := set_addr (write_master_ d) (write_ptr d +% chunk) d in
    let d := set_size (size_ d - chunk) d in
    if size_ d <=? 0 then finish_transfer kDmaStatusDone d else d.

(** ** Runs *)

Section engine.
Context (fifo_size : nat) (conn : bool -> bool).

(** The engine and the memories. *)
Record dma_sys := mkDmaSys { eng : DMA; mems : bool -> mem }.

Inductive action :=
  | AMmio (t : access)
  | AWake
  | AReadResp (ok : bool)
  | APush
  | APop
  | AWriteResp (ok : bool)
  | AUpdate.

Definition write_mem (port : bool) (addr : Z) (data : list Z) (m : bool -> mem) : bool -> mem :=
  fun i => if Bool.eqb i (conn port) then store_bytes (m i) addr data else m i.

Definition fifo_full (d : DMA) : bool :=
  (fifo_size <=? length (trans_fifo_ d) + length (trans_new d))%nat.

(** [None]: the action is not possible in this state. *)
Definition exec (a : action) (s : dma_sys) : option dma_sys :=
  let d := eng s in
  match a with
  | AMmio t => '(_, _, d') ← mmio_proc t d; Some (mkDmaSys d' (mems s))
  | AWake => match rd d with RWoken => Some (mkDmaSys (read_woken d) (mems s)) | _ => None end
  | AReadResp ok =>
      match rd d with
      | RResp port addr chunk pkt_left write_cursor =>
          let data := if ok then Some (bytes (mems s (conn port)) addr (Z.to_nat chunk)) else None in
          Some (mkDmaSys (read_response pkt_left write_cursor data d) (mems s))
      | _ => None
      end
  | APush =>
      if fifo_full d then None else
      match rd d with
      | RPush data pkt_left write_cursor =>
          Some (mkDmaSys (read_pushed data pkt_left write_cursor d) (mems s))
      | RPushNull => Some (mkDmaSys (read_pushed_null d) (mems s))
      | _ => None
      end
  | APop =>
      match wr d, trans_fifo_ d with
      | WWait, item :: q => Some (mkDmaSys (write_popped item (set_fifo q (trans_new d) d)) (mems s))
      | _, _ => None
      end
  | AWriteResp ok =>
      match wr d with
      | WResp port addr data =>
          Some (mkDmaSys (write_response data ok d) (if ok then write_mem port addr data (mems s) else mems s))
      | WWait => None
      end
  | AUpdate =>
      match trans_new d with
      | [] => None
      | new => Some (mkDmaSys (set_fifo (trans_fifo_ d ++ new) [] d) (mems s))
      end
  end.

Fixpoint run (acts : list action) (s : dma_sys) : option dma_sys :=
  match acts with
  | [] => Some s
  | a :: acts => s' ← exec a s; run acts s'
  end.

(** A run that stops where the engine accepts register writes again. *)
Fixpoint run_busy (acts : list action) (s : dma_sys) : option dma_sys :=
  match acts with
  | [] => Some s
  | a :: acts => if is_processing_ (eng s) then s' ← exec a s; run_busy acts s' else Some s
  end.

Definition wr_reg (offset v : Z) : action := AMmio (mkAccess TLM_WRITE_COMMAND offset 8 (Some v)).

(** How the firmware starts a transfer (cp_memory_copy.c, start_host_dma). *)
Definition program (a0 a1 n : Z) : list action :=
  [wr_reg LV_DMA_OFF_ADDR0 a0; wr_reg LV_DMA_OFF_ADDR1 a1; wr_reg LV_DMA_OFF_SIZE (u64 n);
   wr_reg LV_DMA_OFF_START 1].

(** No transfer and nothing left over from one. *)
Definition quiescent (d : DMA) : Prop :=
  is_processing_ d = false /\ rd d = RWait /\ wr d = WWait /\ trans_fifo_ d = [] /\ trans_new d = [].

End engine.

Arguments dma_sys : clear implicits.

(** ** One transfer

    [rp] is the port that is read, [s0] and [w0] the two addresses, [n] the number of
    bytes, [m0] the memories at the start. *)
Section transfer.
Context (fifo_size : nat) (conn : bool -> bool).
Context (rp : bool) (s0 w0 n : Z) (m0 : bool -> mem).

Record transfer_ok : Prop := {
  t_size : 0 < n < 2 ^ 63;
  t_src : 0 <= s0 /\ s0 + n <= 2 ^ 64;
  t_dst : 0 <= w0 /\ w0 + n <= 2 ^ 64;
  t_disjoint : conn rp = conn (negb rp) -> s0 + n <= w0 \/ w0 + n <= s0;
}.

(** The memories after the first [k] bytes. *)
Definition copied (k : Z) (m : bool -> mem) : Prop := forall i a,
  m i a = if Bool.eqb i (conn (negb rp)) && ((w0 <=? a) && (a <? w0 + k))
          then m0 (conn rp) (s0 + (a - w0)) else m0 i a.

Definition in_block (addr len : Z) : Prop := 0 < len <= 8 /\ addr mod 64 + len <= 64.

(** [data] is the beat at offset [o]. *)
Definition beat_ok (o : Z) (data : list Z) : Prop :=
  data = bytes (m0 (conn rp)) (s0 + o) (length data) /\
  in_block (s0 + o) (Z.of_nat (length data)) /\ in_block (w0 + o) (Z.of_nat (length data)).

(** The beats of [q] are those from offset [o] up to [o']. *)
Inductive placed : Z -> list (option (list Z)) -> Z -> Prop :=
| placed_nil o : placed o [] o
| placed_cons o data q o' : beat_ok o data -> placed (o + Z.of_nat (length data)) q o' ->
    placed o (Some data :: q) o'.

Definition sent (w : write_pc) : list (option (list Z)) :=
  match w with WResp _ _ data => [Some data] | WWait => [] end.
Definition outgoing (d : DMA) : list (option (list Z)) := sent (wr d) ++ trans_fifo_ d ++ trans_new d.

(** The state of the reading thread when [r] bytes are queued. *)
Definition reading (r : Z) (pc : read_pc) : Prop :=
  match pc with
  | RWait => r = n
  | RWoken => r = 0
  | RResp port addr chunk pkt_left write_cursor =>
      r < n /\ port = rp /\ addr = s0 + r /\ pkt_left = n - r /\ write_cursor = w0 + r /\
      chunk = next_chunk addr write_cursor pkt_left
  | RPush data pkt_left write_cursor =>
      beat_ok r data /\ r + Z.of_nat (length data) <= n /\ pkt_left = n - r /\ write_cursor = w0 + r
  | RPushNull => False
  end.

Record busy_at (k : Z) (s : dma_sys) : Prop := {
  b_k : 0 <= k < n;
  b_proc : is_processing_ (eng s) = true;
  b_masters : read_master_ (eng s) = rp /\ write_master_ (eng s) = negb rp;
  b_size : size_ (eng s) = n - k;
  b_wptr : addr_reg (negb rp) (eng s) = w0 + k;
  b_mems : copied k (mems s);
  b_wr : forall p a data, wr (eng s) = WResp p a data ->
           p = negb rp /\ a = w0 + k /\ beat_ok k data;
}.

Definition normal (s : dma_sys) : Prop := exists k r,
  busy_at k s /\ transfer_failed_ (eng s) = false /\ status_ (eng s) = kDmaStatusBusy /\
  start_ (eng s) = 1 /\ placed k (outgoing (eng s)) r /\ r <= n /\
  addr_reg rp (eng s) = u64 (s0 + r) /\ reading r (rd (eng s)).

(** A read has failed; the queue is thrown away until the null pointer comes out. *)
Definition failing (s : dma_sys) : Prop := exists k q,
  busy_at k s /\ transfer_failed_ (eng s) = true /\ status_ (eng s) = kDmaStatusBusError /\
  (forall p a data, wr (eng s) = WResp p a data -> k + Z.of_nat (length data) < n) /\
  ((rd (eng s) = RPushNull /\ trans_fifo_ (eng s) ++ trans_new (eng s) = map Some q) \/
   (rd (eng s) = RWait /\ trans_fifo_ (eng s) ++ trans_new (eng s) = map Some q ++ [None])).

Definition done (s : dma_sys) : Prop :=
  quiescent (eng s) /\ status_ (eng s) = kDmaStatusDone /\ copied n (mems s) /\
  start_ (eng s) = 0 /\ size_ (eng s) = 0 /\
  addr_reg rp (eng s) = u64 (s0 + n) /\ addr_reg (negb rp) (eng s) = u64 (w0 + n).
Definition errored (s : dma_sys) : Prop :=
  is_processing_ (eng s) = false /\ status_ (eng s) = kDmaStatusBusError /\
  start_ (eng s) = 0 /\ size_ (eng s) = 0 /\ exists k, 0 <= k < n /\ copied k (mems s).

Context (Hok : transfer_ok).

Lemma placed_le o q o' : placed o q o' -> o <= o' /\ (q = [] \/ o < o').
Proof.
  induction 1 as [|o data q o' Hb _ [IH _]]; [split; [lia|by left]|].
  destruct Hb as (_ & [[] _] & _). split; [lia|right; lia].
Qed.

Lemma placed_snoc o q o' data :
  placed o q o' -> beat_ok o' data -> placed o (q ++ [Some data]) (o' + Z.of_nat (length data)).
Proof. induction 1; intros Hb; simpl; constructor; auto. constructor. Qed.

Lemma placed_cons_inv o x q o' : placed o (x :: q) o' ->
  exists data, x = Some data /\ beat_ok o data /\ placed (o + Z.of_nat (length data)) q o'.
Proof. inversion 1; subst. eauto. Qed.

Lemma placed_some o q o' : placed o q o' -> exists l, q = map Some l.
Proof. induction 1 as [|o data q o' _ _ [l ->]]; [by exists []|by exists (data :: l)]. Qed.

Lemma next_chunk_ok ra wa left : 0 < left ->
  in_block ra (next_chunk ra wa left) /\ in_block wa (next_chunk ra wa left) /\
  next_chunk ra wa left <= left.
Proof.
  intros Hl. unfold in_block, next_chunk.
  pose proof (Z.mod_pos_bound ra 64 ltac:(lia)). pose proof (Z.mod_pos_bound wa 64 ltac:(lia)). lia.
Qed.

(** A beat read while the first [k] bytes are written is a beat of the original. *)
Lemma read_beat k m r : copied k m -> 0 <= k <= n -> 0 <= r < n ->
  let data := bytes (m (conn rp)) (s0 + r) (Z.to_nat (next_chunk (s0 + r) (w0 + r) (n - r))) in
  beat_ok r data /\ r + Z.of_nat (length data) <= n.
Proof.
  intros Hc Hk Hr. cbv zeta.
  destruct (next_chunk_ok (s0 + r) (w0 + r) (n - r) ltac:(lia)) as (H1 & H2 & H3).
  set (c := next_chunk _ _ _) in *. destruct H1 as [Hc0 H1]. destruct H2 as [_ H2].
  unfold beat_ok. rewrite length_bytes, Z2Nat.id by lia. split; [|lia].
  split; [|by unfold in_block]. unfold bytes. apply map_ext_in. intros i Hi. apply in_seq in Hi.
  rewrite Hc. destruct (Bool.eqb_spec (conn rp) (conn (negb rp))) as [He|]; [|done]. simpl.
  destruct (t_disjoint Hok He); bcase; try done; lia.
Qed.

(** Writing the beat at [k] copies the bytes up to its end. *)
Lemma write_beat k m data : copied k m -> 0 <= k -> beat_ok k data ->
  copied (k + Z.of_nat (length data)) (write_mem conn (negb rp) (w0 + k) data m).
Proof.
  intros Hc Hk (Hd & _ & _) i a. unfold write_mem.
  destruct (Bool.eqb_spec i (conn (negb rp))) as [->|Hi]; simpl.
  2: { rewrite Hc. by destruct (Bool.eqb_spec i (conn (negb rp))). }
  unfold store_bytes. rewrite Hc, Bool.eqb_reflx. simpl.
  repeat bcase; bsplit; try lia; try done.
  rewrite Hd, bytes_nth by lia. f_equal. lia.
Qed.

(** ** The actions of a busy engine *)

Lemma mmio_busy t d r : is_processing_ d = true -> mmio_proc t d = Some r -> snd r = d.
Proof.
  intros Hp. unfold mmio_proc. rewrite Hp. intros H.
  repeat (case_match; simplify_eq; try done).
Qed.

Lemma step_wake s s' : normal s -> exec fifo_size conn AWake s = Some s' -> normal s'.
Proof.
  intros (k & r & B & Hf & Hs & Ht & Hp & Hr & Ha & Hrd) He. cbn in He.
  destruct (rd (eng s)) eqn:Erd; simplify_eq. cbn in Hrd. subst r.
  destruct (placed_le _ _ _ Hp) as [Hk Hq]. destruct B as [Hk' Hpr [Hm1 Hm2] Hsz Hw Hc Hwr].
  assert (k = 0) as -> by lia. destruct Hok as [? [] [] ?].
  unfold read_woken, read_loop, read_ptr, write_ptr. rewrite Hm1, Hm2, Hw, Ha, Hf, Hsz, !Z.add_0_r, Z.sub_0_r.
  replace (0 <? n) with true by (symmetry; apply Z.ltb_lt; lia). cbn. rewrite (wrap_small 64 s0) by lia.
  exists 0, 0. split; [by constructor|]. cbn. rewrite !Z.add_0_r, Z.sub_0_r.
  repeat split; try done; try lia. by rewrite Z.add_0_r in Ha.
Qed.

Lemma step_read s s' ok : normal s -> exec fifo_size conn (AReadResp ok) s = Some s' ->
  (ok = true /\ normal s') \/ (ok = false /\ failing s').
Proof.
  intros (k & r & B & Hf & Hs & Ht & Hp & Hr & Ha & Hrd) He. cbn in He.
  destruct (rd (eng s)) as [| |port addr chunk pl wc| |] eqn:Erd; simplify_eq. cbn in Hrd.
  destruct Hrd as (Hrn & -> & -> & -> & -> & ->).
  pose proof (placed_le _ _ _ Hp) as [Hk _]. pose proof (b_k _ _ B) as Hk'.
  destruct ok; cbn; rewrite ?Hf; [left|right]; (split; [done|]).
  - exists k, r. destruct B as [? ? [] ? ? Hc ?].
    split; [by constructor|]. repeat (split; [done|]). cbn.
    destruct (read_beat k (mems s) r Hc ltac:(lia) ltac:(lia)) as [Hb Hl]. by split; [|split].
  - destruct (placed_some _ _ _ Hp) as [l Hl]. unfold outgoing in Hl.
    destruct (wr (eng s)) as [|p a data] eqn:Ew; cbn in Hl.
    + exists k, l. destruct B; split; [constructor; cbn; try done; by rewrite Ew|]. cbn.
      repeat split; [by rewrite Ew|by left].
    + destruct l as [|data' l]; [done|]. injection Hl as <- Hl. exists k, l.
      unfold outgoing in Hp. rewrite Ew in Hp. cbn in Hp. apply placed_cons_inv in Hp as (? & [= <-] & Hb & Hp).
      apply placed_le in Hp as [Hp _].
      destruct B; split; [by constructor|]. cbn. repeat split; [|by left].
      intros ??? E. rewrite Ew in E. injection E as <- <- <-. lia.
Qed.

Lemma set_addr_other p a d : addr_reg (negb p) (set_addr p a d) = addr_reg (negb p) d.
Proof. by destruct p. Qed.
Lemma set_addr_same p a d : addr_reg p (set_addr p a d) = a.
Proof. by destruct p. Qed.
(** The other fields of [set_addr]. *)
Lemma set_addr_eta p a d : set_addr p a d =
  set_regs (start_ d) (if p then addr0_ d else a) (if p then a else addr1_ d) (size_ d) (status_ d) d.
Proof. by destruct p. Qed.

Lemma step_push s s' : normal s -> exec fifo_size conn APush s = Some s' -> normal s'.
Proof.
  intros (k & r & B & Hf & Hs & Ht & Hp & Hr & Ha & Hrd) He. cbn in He.
  destruct (fifo_full fifo_size (eng s)); [done|].
  destruct (rd (eng s)) as [| | |data pl wc|] eqn:Erd; simplify_eq; cbn in Hrd; [|done].
  destruct Hrd as (Hb & Hl & -> & ->). unfold read_pushed, read_ptr.
  pose proof (placed_le _ _ _ Hp) as [Hk _]. pose proof (b_k _ _ B) as Hk'.
  destruct B as [_ Hpr [Hm1 Hm2] Hsz Hw Hc Hwr]. cbn [read_master_ set_fifo]. rewrite Hm1.
  set (len := Z.of_nat (length data)) in *. destruct Hok as [? [] [] ?].
  assert (Hlen : 0 < len) by (destruct Hb as (_ & [[] _] & _); lia).
  change (addr_reg rp (set_fifo _ _ _)) with (addr_reg rp (eng s)). rewrite Ha.
  replace (u64 (s0 + r) +% len) with (u64 (s0 + (r + len)))
    by (unfold wrap; rewrite Zplus_mod_idemp_l; f_equal; lia).
  set (d := set_addr _ _ _).
  assert (Hd : exists pc, read_loop (n - r - len) ((w0 + r) +% len) d = set_rd pc d /\ reading (r + len) pc).
  { unfold read_loop. destruct (0 <? n - r - len) eqn:E; bprop; cbn [negb].
    2: { exists RWait. split; [done|cbn; lia]. }
    exists (RResp rp (s0 + (r + len)) (next_chunk (s0 + (r + len)) (w0 + (r + len)) (n - (r + len)))
              (n - (r + len)) (w0 + (r + len))).
    assert (transfer_failed_ d = false) as -> by (unfold d; rewrite set_addr_eta; done).
    assert (read_master_ d = rp) as Hrm by (unfold d; rewrite set_addr_eta; done).
    assert (read_ptr d = s0 + (r + len)) as ->.
    { unfold read_ptr. rewrite Hrm. unfold d. rewrite set_addr_same. wsimpl. lia. }
    rewrite Hrm. wsimpl. replace (w0 + r + len) with (w0 + (r + len)) by lia.
    replace (n - r - len) with (n - (r + len)) by lia. split; [done|]. cbn. repeat split; lia. }
  destruct Hd as (pc & -> & Hpc). exists k, (r + len).
  split; [|unfold d; rewrite set_addr_eta; cbn; repeat (split; [done|])].
  - constructor; cbn; try done; try (unfold d; rewrite set_addr_eta; done).
    rewrite <- Hw. unfold d. by destruct rp.
  - split; [|split; [lia|split; [|done]]].
    + unfold outgoing. cbn. rewrite app_assoc, app_assoc. rewrite <- (app_assoc (sent _)).
      by apply placed_snoc.
    + destruct rp; done.
Qed.

Lemma step_pop s s' : normal s -> exec fifo_size conn APop s = Some s' -> normal s'.
Proof.
  intros (k & r & B & Hf & Hs & Ht & Hp & Hr & Ha & Hrd) He. cbn in He.
  destruct (wr (eng s)) eqn:Ew; [|done]. destruct (trans_fifo_ (eng s)) as [|x q] eqn:Eq; [done|].
  simplify_eq. unfold outgoing in Hp. rewrite Ew, Eq in Hp. cbn in Hp.
  pose proof Hp as Hp'. apply placed_cons_inv in Hp' as (data & -> & Hb & _). cbn. rewrite Hf.
  exists k, r. split; [|done].
  destruct B as [? ? [Hm1 Hm2] ? Hw ? ?]. constructor; cbn; try done.
  intros ??? [= <- <- <-]. split; [done|split; [|done]]. rewrite <- Hw, <- Hm2. done.
Qed.

Lemma step_update s s' : normal s -> exec fifo_size conn AUpdate s = Some s' -> normal s'.
Proof.
  intros (k & r & B & Hf & Hs & Ht & Hp & Hr & Ha & Hrd) He. cbn in He.
  destruct (trans_new (eng s)) as [|x q] eqn:Eq; [done|]. simplify_eq.
  exists k, r. split; [by destruct B|]. cbn. repeat (split; [done|]).
  unfold outgoing in *. cbn in *. rewrite app_nil_r. by rewrite Eq in Hp.
Qed.

(** The response to the beat at [k]. *)
Lemma busy_write_ok s k p a data : busy_at k s -> wr (eng s) = WResp p a data ->
  copied (k + Z.of_nat (length data)) (write_mem conn p a data (mems s)) /\
  exists d, d = set_size (n - (k + Z.of_nat (length data)))
                  (set_addr (negb rp) (u64 (w0 + (k + Z.of_nat (length data)))) (set_wr WWait (eng s))) /\
    write_response data true (eng s) =
    if n <=? k + Z.of_nat (length data) then finish_transfer kDmaStatusDone d else d.
Proof.
  intros B Ew. pose proof (b_wr _ _ B _ _ _ Ew) as (-> & -> & Hb).
  destruct B as [Hk _ [Hm1 Hm2] Hsz Hw Hc _]. split; [apply write_beat; try done; lia|].
  eexists; split; [done|]. unfold write_response, write_ptr. cbn [negb write_master_ set_wr].
  rewrite Hm2. change (addr_reg (negb rp) (set_wr WWait (eng s))) with (addr_reg (negb rp) (eng s)).
  rewrite Hw, <- Z.add_assoc. cbn [size_ set_size set_regs].
  replace (size_ (set_addr _ _ _)) with (n - k) by (rewrite set_addr_eta; done).
  replace (n - k - _) with (n - (k + Z.of_nat (length data))) by lia.
  bcase; bcase; try done; cbn in *; lia.
Qed.

(** A further write of the same transfer. *)
Lemma busy_write_next s k p a data : busy_at k s -> wr (eng s) = WResp p a data ->
  k + Z.of_nat (length data) < n ->
  busy_at (k + Z.of_nat (length data))
    (mkDmaSys (write_response data true (eng s)) (write_mem conn p a data (mems s))).
Proof.
  intros B Ew Hl. destruct (busy_write_ok _ _ _ _ _ B Ew) as (Hc & d & Hd & ->).
  replace (n <=? _) with false by (symmetry; apply Z.leb_gt; lia). subst d.
  pose proof (b_wr _ _ B _ _ _ Ew) as (_ & _ & _ & [[] _] & _). destruct Hok as [? ? [] ?].
  destruct B as [Hk ? [Hm1 Hm2] Hsz Hw _ _]. rewrite set_addr_eta.
  constructor; cbn; try done; [lia|]. wsimpl. by destruct rp.
Qed.

Lemma step_write_ok s s' : normal s -> exec fifo_size conn (AWriteResp true) s = Some s' ->
  normal s' \/ done s'.
Proof.
  intros (k & r & B & Hf & Hs & Ht & Hp & Hr & Ha & Hrd) He. cbn [exec] in He.
  destruct (wr (eng s)) as [|p a data] eqn:Ew; [done|]. injection He as <-.
  unfold outgoing in Hp. rewrite Ew in Hp. cbn in Hp.
  apply placed_cons_inv in Hp as (? & [= <-] & Hb & Hp).
  destruct (placed_le _ _ _ Hp) as [Hle Hq]. destruct (decide (k + Z.of_nat (length data) < n)) as [Hl|Hl].
  - left. exists (k + Z.of_nat (length data)), r. split; [by apply busy_write_next|].
    cbn [eng]. destruct (busy_write_ok _ _ _ _ _ B Ew) as (_ & d & -> & ->).
    replace (n <=? _) with false by (symmetry; apply Z.leb_gt; lia). rewrite set_addr_eta. cbn.
    repeat (split; [done|]). by destruct rp.
  - right. destruct (busy_write_ok _ _ _ _ _ B Ew) as (Hc & d & -> & ->).
    replace (n <=? _) with true by (symmetry; apply Z.leb_le; lia).
    assert (k + Z.of_nat (length data) = n) as Hn by lia. assert (r = n) as -> by lia.
    destruct Hq as [Hq|Hq]; [|lia]. apply app_nil in Hq as [Hq1 Hq2]. rewrite Hn in *.
    assert (rd (eng s) = RWait) as Hrw.
    { destruct (rd (eng s)); cbn in Hrd; try done; [pose proof (b_k _ _ B); lia|lia|].
      destruct Hrd as ((_ & [[] _] & _) & ? & _). lia. }
    rewrite set_addr_eta. unfold done, quiescent, finish_transfer. cbn. repeat split; try done.
    all: destruct rp; done.
Qed.

Lemma step_write_fail s s' k : busy_at k s -> exec fifo_size conn (AWriteResp false) s = Some s' -> errored s'.
Proof.
  intros B He. cbn in He. destruct (wr (eng s)) as [|p a data] eqn:Ew; [done|]. simplify_eq.
  repeat split; try done. exists k. by destruct B.
Qed.

Lemma step_mmio s s' t : is_processing_ (eng s) = true -> exec fifo_size conn (AMmio t) s = Some s' -> s' = s.
Proof.
  intros Hp He. cbn [exec] in He. destruct (mmio_proc t (eng s)) as [[[]]|] eqn:E; [|done].
  apply mmio_busy in E; [|done]. simplify_eq/=. by destruct s.
Qed.

Definition bad (a : action) : Prop := a = AReadResp false \/ a = AWriteResp false.

Lemma step_normal a s s' : normal s -> exec fifo_size conn a s = Some s' ->
  normal s' \/ done s' \/ (bad a /\ (failing s' \/ errored s')).
Proof.
  intros Hn He. destruct a as [t| |ok| | |[]|].
  - left. rewrite (step_mmio _ _ _ ltac:(destruct Hn as (? & ? & [] & _); done) He). done.
  - left. by eapply step_wake.
  - destruct (step_read _ _ _ Hn He) as [[-> ?]|[-> ?]]; [by left|].
    right; right. split; [by left|by left].
  - left. by eapply step_push.
  - left. by eapply step_pop.
  - destruct (step_write_ok _ _ Hn He); auto.
  - right; right. split; [by right|right]. destruct Hn as (k & r & B & _). by eapply step_write_fail.
  - left. by eapply step_update.
Qed.

Lemma failing_push s s' : failing s -> exec fifo_size conn APush s = Some s' -> failing s'.
Proof.
  intros (k & q & B & Hf & Hs & Hw & Hq) He. cbn in He. destruct (fifo_full fifo_size (eng s)); [done|].
  destruct Hq as [[Hr Hq]|[Hr Hq]]; rewrite Hr in He; [|done]. simplify_eq.
  exists k, q. split; [by destruct B|]. repeat (split; [done|]). right. split; [done|]. cbn.
  by rewrite app_assoc, Hq.
Qed.

Lemma failing_update s s' : failing s -> exec fifo_size conn AUpdate s = Some s' -> failing s'.
Proof.
  intros (k & q & B & Hf & Hs & Hw & Hq) He. cbn in He.
  destruct (trans_new (eng s)) as [|x nq] eqn:Eq; [done|]. simplify_eq.
  exists k, q. split; [by destruct B|]. repeat (split; [done|]). cbn. by rewrite app_nil_r.
Qed.

Lemma failing_pop s s' : failing s -> exec fifo_size conn APop s = Some s' -> failing s' \/ errored s'.
Proof.
  intros (k & q & B & Hf & Hs & Hw & Hq) He. cbn in He.
  destruct (wr (eng s)) eqn:Ew; [|done]. destruct (trans_fifo_ (eng s)) as [|x fq] eqn:Eq; [done|].
  simplify_eq. destruct x as [data|].
  - left. cbn. rewrite Hf. destruct q as [|data' q].
    { exfalso. by destruct Hq as [[_ Hq]|[_ Hq]]. }
    exists k, q. split; [by destruct B|]. repeat (split; [done|]). cbn. rewrite Ew. split; [done|].
    destruct Hq as [[Hr [= _ Hq]]|[Hr [= _ Hq]]]; [by left|by right].
  - right. repeat split; try done. exists k. by destruct B.
Qed.

Lemma failing_write_ok s s' : failing s -> exec fifo_size conn (AWriteResp true) s = Some s' -> failing s'.
Proof.
  intros (k & q & B & Hf & Hs & Hw & Hq) He. cbn [exec] in He.
  destruct (wr (eng s)) as [|p a data] eqn:Ew; [done|]. injection He as <-.
  specialize (Hw _ _ _ eq_refl). exists (k + Z.of_nat (length data)), q.
  split; [by apply busy_write_next|]. cbn [eng].
  destruct (busy_write_ok _ _ _ _ _ B Ew) as (_ & d & -> & ->).
  replace (n <=? _) with false by (symmetry; apply Z.leb_gt; lia). rewrite set_addr_eta. by cbn.
Qed.

Lemma step_failing a s s' : failing s -> exec fifo_size conn a s = Some s' -> failing s' \/ errored s'.
Proof.
  intros Hn He. destruct a as [t| |ok| | |[]|].
  - left. rewrite (step_mmio _ _ _ ltac:(destruct Hn as (? & ? & [] & _); done) He). done.
  - destruct Hn as (k & q & B & Hf & Hs & Hw & [[Hr _]|[Hr _]]); cbn in He; by rewrite Hr in He.
  - destruct Hn as (k & q & B & Hf & Hs & Hw & [[Hr _]|[Hr _]]); cbn in He; by rewrite Hr in He.
  - left. by eapply failing_push.
  - by eapply failing_pop.
  - left. by eapply failing_write_ok.
  - right. destruct Hn as (k & r & B & _). by eapply step_write_fail.
  - left. by eapply failing_update.
Qed.

(** Where a run of a transfer can be. *)
Definition transfer_state (failed : Prop) (s : dma_sys) : Prop :=
  normal s \/ done s \/ (failed /\ (failing s \/ errored s)).

Lemma transfer_idle P s : transfer_state P s -> is_processing_ (eng s) = false ->
  done s \/ (P /\ errored s).
Proof.
  intros [Hn|[Hd|[HP [Hf|He]]]] Hp; [|by left| |by right].
  - destruct Hn as (k & r & B & _). by rewrite (b_proc _ _ B) in Hp.
  - destruct Hf as (k & r & B & _). by rewrite (b_proc _ _ B) in Hp.
Qed.

Lemma run_busy_state (P : Prop) acts s s' :
  transfer_state P s -> run_busy fifo_size conn acts s = Some s' ->
  transfer_state (P \/ exists a, a ∈ acts /\ bad a) s'.
Proof.
  revert P s. induction acts as [|a acts IH]; intros P s Hs Hr; cbn [run_busy] in Hr.
  { simplify_eq. destruct Hs as [|[|[]]]; [by left|by right; left|by right; right; auto]. }
  destruct (is_processing_ (eng s)) eqn:Hp.
  2: { simplify_eq. destruct Hs as [|[|[]]]; [by left|by right; left|by right; right; auto]. }
  destruct (exec fifo_size conn a s) as [s1|] eqn:He; [|done]. cbn in Hr.
  assert (Hs1 : transfer_state (P \/ bad a) s1).
  { destruct Hs as [Hn|[Hd|[HP [Hf|He']]]].
    - destruct (step_normal _ _ _ Hn He) as [|[|[]]]; [by left|by right; left|by right; right; auto].
    - by destruct Hd as [[Hd _] _]; rewrite Hd in Hp.
    - right; right. split; [by left|]. by eapply step_failing.
    - by destruct He' as [Hd _]; rewrite Hd in Hp. }
  destruct (IH _ _ Hs1 Hr) as [|[|[[[|]|(b & Hb & Hb')] ?]]]; [by left|by right; left|..]; right; right;
    (split; [|done]); [by left|right; exists a; split; [left|done]|right; exists b; split; [by right|done]].
Qed.

(** ** Progress *)

Definition internal (a : action) : bool := match a with AMmio _ => false | _ => true end.
Definition with_answer (b : bool) (a : action) : action :=
  match a with AReadResp _ => AReadResp b | AWriteResp _ => AWriteResp b | a => a end.

(** Some internal action is possible, whatever the bus answers. *)
Definition can_move (s : dma_sys) : Prop :=
  exists a, internal a = true /\ forall b, is_Some (exec fifo_size conn (with_answer b a) s).

Lemma outgoing_moves s : outgoing (eng s) <> [] -> can_move s.
Proof.
  intros Ho. unfold outgoing in Ho.
  destruct (wr (eng s)) as [|p a data] eqn:Ew.
  2: { exists (AWriteResp true). split; [done|]. intros b. cbn [with_answer exec]. by rewrite Ew. }
  destruct (trans_fifo_ (eng s)) as [|x q] eqn:Eq.
  2: { exists APop. split; [done|]. intros b. cbn [with_answer exec]. by rewrite Ew, Eq. }
  exists AUpdate. split; [done|]. intros b. cbn [with_answer exec].
  by destruct (trans_new (eng s)).
Qed.

Lemma push_moves s : (0 < fifo_size)%nat ->
  (exists data pl wc, rd (eng s) = RPush data pl wc) \/ rd (eng s) = RPushNull -> can_move s.
Proof.
  intros Hz Hr. destruct (fifo_full fifo_size (eng s)) eqn:E.
  - apply outgoing_moves. unfold fifo_full in E. bprop. intros H. apply app_nil in H as [_ H].
    apply app_nil in H as [H1 H2]. rewrite H1, H2 in E. cbn in E. lia.
  - exists APush. split; [done|]. intros b. cbn [with_answer exec]. rewrite E.
    destruct Hr as [(data & pl & wc & ->)| ->]; done.
Qed.

Lemma normal_moves s : (0 < fifo_size)%nat -> normal s -> can_move s.
Proof.
  intros Hz (k & r & B & Hf & Hs & Ht & Hp & Hr & Ha & Hrd).
  destruct (rd (eng s)) eqn:Erd.
  - apply outgoing_moves. intros Ho. rewrite Ho in Hp. inversion Hp; subst. cbn in Hrd.
    pose proof (b_k _ _ B). lia.
  - exists AWake. split; [done|]. intros b. cbn [with_answer exec]. by rewrite Erd.
  - exists (AReadResp true). split; [done|]. intros b. cbn [with_answer exec]. by rewrite Erd.
  - apply push_moves; [done|]. left. eauto.
  - done.
Qed.

Lemma failing_moves s : (0 < fifo_size)%nat -> failing s -> can_move s.
Proof.
  intros Hz (k & q & B & Hf & Hs & Hw & [[Hr Hq]|[Hr Hq]]).
  - apply push_moves; auto.
  - apply outgoing_moves. unfold outgoing. rewrite Hq. by destruct (sent _), q.
Qed.

(** The work left: every action of the engine makes it smaller. *)
Definition work (d : DMA) : Z :=
  match rd d with
  | RWait => 0
  | RWoken => 6 * size_ d + 1
  | RResp _ _ _ pkt_left _ => 6 * pkt_left
  | RPush _ pkt_left _ => 6 * pkt_left - 1
  | RPushNull => 4
  end + 3 * Z.of_nat (length (trans_new d)) + 2 * Z.of_nat (length (trans_fifo_ d)) +
  Z.of_nat (length (sent (wr d))).

Lemma work_nonneg s : normal s \/ failing s -> 0 <= work (eng s).
Proof.
  unfold work. intros [(k & r & B & Hf & Hs & Ht & Hp & Hr & Ha & Hrd)|(k & q & B & Hf & Hs & Hw & Hq)].
  - pose proof (b_size _ _ B). pose proof (b_k _ _ B). apply placed_le in Hp as [? _].
    destruct (rd (eng s)); cbn in Hrd; try lia.
    destruct Hrd as ((_ & [[] _] & _) & ? & -> & _). lia.
  - destruct Hq as [[-> _]|[-> _]]; lia.
Qed.

Lemma work_read_loop pl wc d :
  work (read_loop pl wc d) <=
  Z.max 0 (6 * pl) + 3 * Z.of_nat (length (trans_new d)) + 2 * Z.of_nat (length (trans_fifo_ d)) +
  Z.of_nat (length (sent (wr d))).
Proof. unfold read_loop, work. repeat bcase; cbn; lia. Qed.

Lemma write_popped_work x q d : rd d <> RWoken -> wr d = WWait -> trans_fifo_ d = x :: q ->
  work (write_popped x (set_fifo q (trans_new d) d)) < work d.
Proof.
  intros Hr Ew Eq. unfold work. rewrite Ew, Eq. cbn.
  destruct x; cbn; [bcase|]; cbn; rewrite ?Ew; cbn; destruct (rd d); cbn; try lia; done.
Qed.

Lemma write_response_work data b p a d : rd d <> RWoken -> wr d = WResp p a data ->
  work (write_response data b d) < work d.
Proof.
  intros Hr Ew. unfold work, write_response. rewrite Ew.
  destruct b; cbn; [rewrite set_addr_eta; cbn; bcase|]; cbn; destruct (rd d); cbn; try lia; done.
Qed.

Lemma outgoing_not_woken s : normal s \/ failing s -> outgoing (eng s) <> [] -> rd (eng s) <> RWoken.
Proof.
  intros [(k & r & B & Hf & Hs & Ht & Hp & Hr & Ha & Hrd)|(k & q & B & Hf & Hs & Hw & Hq)] Ho Er.
  - rewrite Er in Hrd. cbn in Hrd. subst r. apply placed_le in Hp as [? [?|?]]; [done|].
    pose proof (b_k _ _ B). lia.
  - rewrite Er in Hq. by destruct Hq as [[]|[]].
Qed.

Lemma work_decreases a s s' : internal a = true -> normal s \/ failing s ->
  exec fifo_size conn a s = Some s' -> work (eng s') < work (eng s).
Proof.
  intros Hi Hn He. pose proof (outgoing_not_woken s Hn) as Hnw. unfold outgoing in Hnw.
  destruct a as [t| |ok| | |ok|]; cbn [exec] in He; [done|..].
  - destruct (rd (eng s)) eqn:Er; try done. injection He as <-. cbn [eng].
    pose proof (work_read_loop (size_ (eng s)) (write_ptr (eng s)) (eng s)) as H.
    unfold read_woken. unfold work at 2. rewrite Er. destruct Hn as [Hn|(k & q & B & _)].
    + destruct Hn as (k & r & B & _). pose proof (b_size _ _ B). pose proof (b_k _ _ B). lia.
    + pose proof (b_size _ _ B). pose proof (b_k _ _ B). lia.
  - destruct (rd (eng s)) as [| |port addr chunk pl wc| |] eqn:Er; try done. injection He as <-. cbn [eng].
    assert (0 < pl).
    { destruct Hn as [(k & r & B & Hf & Hs & Ht & Hp & Hr & Ha & Hrd)|(k & q & B & Hf & Hs & Hw & Hq)].
      - rewrite Er in Hrd. destruct Hrd as (? & _ & _ & -> & _). lia.
      - rewrite Er in Hq. by destruct Hq as [[]|[]]. }
    unfold work. rewrite Er. destruct ok; cbn; [bcase|]; cbn; lia.
  - destruct (fifo_full fifo_size (eng s)); [done|].
    destruct (rd (eng s)) as [| | |data pl wc|] eqn:Er; try done; injection He as <-; cbn [eng].
    + assert (0 < Z.of_nat (length data) <= pl).
      { destruct Hn as [(k & r & B & Hf & Hs & Ht & Hp & Hr & Ha & Hrd)|(k & q & B & Hf & Hs & Hw & Hq)].
        - rewrite Er in Hrd. destruct Hrd as ((_ & [[] _] & _) & ? & -> & _). lia.
        - rewrite Er in Hq. by destruct Hq as [[]|[]]. }
      unfold read_pushed. eapply Z.le_lt_trans; [apply work_read_loop|].
      rewrite set_addr_eta. unfold work. rewrite Er. cbn. rewrite length_app. cbn. lia.
    + unfold work. rewrite Er. cbn. rewrite length_app. cbn. lia.
  - destruct (wr (eng s)) eqn:Ew; [|done]. destruct (trans_fifo_ (eng s)) as [|x q] eqn:Eq; [done|].
    injection He as <-. cbn [eng]. by apply write_popped_work; [apply Hnw|..].
  - destruct (wr (eng s)) as [|p a data] eqn:Ew; [done|]. injection He as <-. cbn [eng].
    eapply write_response_work; [by apply Hnw|done].
  - destruct (trans_new (eng s)) as [|x q] eqn:Eq; [done|]. injection He as <-. cbn [eng].
    unfold work. cbn. rewrite Eq, length_app. cbn. lia.
Qed.

Lemma run_busy_work P acts s s' : transfer_state P s ->
  run_busy fifo_size conn acts s = Some s' -> is_processing_ (eng s') = true ->
  Z.of_nat (countb internal acts) + work (eng s') <= work (eng s).
Proof.
  revert P s. induction acts as [|a acts IH]; intros P s Hs Hr Hp'; cbn [run_busy] in Hr.
  { simplify_eq. unfold countb. cbn. lia. }
  destruct (is_processing_ (eng s)) eqn:Hp; [|simplify_eq; congruence].
  destruct (exec fifo_size conn a s) as [s1|] eqn:He; [|done]. cbn in Hr.
  assert (Hn : normal s \/ failing s).
  { destruct Hs as [|[Hd|[_ [|Hd]]]]; [by left| |by right|].
    - by destruct Hd as [[Hd _] _]; rewrite Hd in Hp.
    - by destruct Hd as [Hd _]; rewrite Hd in Hp. }
  assert (Hs1 : transfer_state True s1).
  { destruct Hn as [Hn|Hn]; [destruct (step_normal _ _ _ Hn He) as [|[|[]]]|right; right; split; [done|]].
    - by left. - by right; left. - by right; right. - by eapply step_failing. }
  specialize (IH _ _ Hs1 Hr Hp'). rewrite countb_cons. destruct (internal a) eqn:Ei.
  - pose proof (work_decreases _ _ _ Ei Hn He). lia.
  - destruct a; try done. rewrite (step_mmio _ _ _ Hp He) in IH. lia.
Qed.

End transfer.

(** ** Properties *)

(** The port read, the two addresses and the length that a descriptor asks for. *)
Definition reads_port (n : Z) : bool := n <? 0.
Definition source (a0 a1 n : Z) : Z := if reads_port n then a1 else a0.
Definition destination (a0 a1 n : Z) : Z := if reads_port n then a0 else a1.
Definition descriptor_ok (conn : bool -> bool) (a0 a1 n : Z) : Prop :=
  transfer_ok conn (reads_port n) (source a0 a1 n) (destination a0 a1 n) (Z.abs n).

Lemma write_reg_addr0 fifo_size conn v d m : is_processing_ d = false ->
  exec fifo_size conn (wr_reg LV_DMA_OFF_ADDR0 v) (mkDmaSys d m) = Some (mkDmaSys (set_addr false v d) m).
Proof. intros Hp. cbn [exec wr_reg eng mems]. unfold mmio_proc. cbn [a_data a_len a_cmd]. by rewrite Hp. Qed.
Lemma write_reg_addr1 fifo_size conn v d m : is_processing_ d = false ->
  exec fifo_size conn (wr_reg LV_DMA_OFF_ADDR1 v) (mkDmaSys d m) = Some (mkDmaSys (set_addr true v d) m).
Proof. intros Hp. cbn [exec wr_reg eng mems]. unfold mmio_proc. cbn [a_data a_len a_cmd]. by rewrite Hp. Qed.
Lemma write_reg_size fifo_size conn v d m : is_processing_ d = false ->
  exec fifo_size conn (wr_reg LV_DMA_OFF_SIZE v) (mkDmaSys d m) = Some (mkDmaSys (set_size (s64 v) d) m).
Proof. intros Hp. cbn [exec wr_reg eng mems]. unfold mmio_proc. cbn [a_data a_len a_cmd]. by rewrite Hp. Qed.
Lemma write_reg_start fifo_size conn d m : is_processing_ d = false ->
  exec fifo_size conn (wr_reg LV_DMA_OFF_START 1) (mkDmaSys d m) =
  Some (mkDmaSys (snd (start_transfer (set_start 1 d))) m).
Proof.
  intros Hp. cbn [exec wr_reg eng mems]. unfold mmio_proc. cbn [a_data a_len a_cmd]. rewrite Hp.
  cbn [negb Z.eqb LV_DMA_REGISTER_BYTES LV_DMA_OFF_START a_addr Pos.eqb].
  by destruct (start_transfer (set_start 1 d)).
Qed.

Lemma s64_u64 n : - 2 ^ 63 < n < 2 ^ 63 -> s64 (u64 n) = n.
Proof.
  intros Hn. unfold swrap, wrap. destruct (Z_lt_ge_dec n 0).
  - rewrite <- (Z_mod_plus_full n 1 (2 ^ 64)), (Z.mod_small (n + _)) by lia.
    rewrite Z.mod_small by lia. bcase; lia.
  - rewrite (Z.mod_small n) by lia. rewrite Z.mod_small by lia. bcase; lia.
Qed.

(** The engine after the four writes. *)
Definition started (a0 a1 n : Z) : DMA :=
  mkDMA 1 a0 a1 (Z.abs n) kDmaStatusBusy true false (reads_port n) (negb (reads_port n)) [] [] RWoken WWait.

Lemma program_run fifo_size conn d m a0 a1 n :
  quiescent d -> 0 < Z.abs n < 2 ^ 63 ->
  run fifo_size conn (program a0 a1 n) (mkDmaSys d m) = Some (mkDmaSys (started a0 a1 n) m).
Proof.
  intros (Hp & Hr & Hw & Hq & Hn) Hsz. unfold program. cbn [run].
  rewrite write_reg_addr0 by done. cbn [mbind option_bind]. rewrite write_reg_addr1 by done.
  cbn [mbind option_bind]. rewrite write_reg_size by done. cbn [mbind option_bind].
  rewrite write_reg_start by done. cbn [mbind option_bind]. rewrite s64_u64 by lia.
  destruct d as [st x0 x1 sz stat pr tf rm wm q nq r_pc w_pc]. cbn in Hp, Hr, Hw, Hq, Hn. subst.
  do 2 f_equal. unfold start_transfer, started, reads_port. cbn [size_ set_start set_regs set_size set_addr].
  replace (n =? 0) with false by (symmetry; apply Z.eqb_neq; lia).
  replace (n =? INT64_MIN) with false by (symmetry; apply Z.eqb_neq; unfold INT64_MIN; lia).
  destruct (0 <? n) eqn:E; bprop.
  - replace (n <? 0) with false by (symmetry; apply Z.ltb_ge; lia). by rewrite Z.abs_eq by lia.
  - replace (n <? 0) with true by (symmetry; apply Z.ltb_lt; lia). by rewrite Z.abs_neq by lia.
Qed.

Lemma copied_none conn rp s0 w0 m : copied conn rp s0 w0 m 0 m.
Proof. intros i a. bcase; [bsplit; lia|done]. Qed.

Lemma program_starts fifo_size conn d m a0 a1 n :
  quiescent d -> descriptor_ok conn a0 a1 n ->
  exists s1, run fifo_size conn (program a0 a1 n) (mkDmaSys d m) = Some s1 /\
    normal conn (reads_port n) (source a0 a1 n) (destination a0 a1 n) (Z.abs n) m s1 /\
    work (eng s1) = 6 * Z.abs n + 1.
Proof.
  intros Hq Hok. destruct (Hok) as [Hsz Hsrc Hdst _]. exists (mkDmaSys (started a0 a1 n) m).
  split; [by apply program_run|]. unfold started, work. cbn [eng rd size_ trans_new trans_fifo_ wr sent length].
  split; [|lia]. exists 0, 0. unfold outgoing. cbn [eng rd size_ trans_new trans_fifo_ wr sent app status_ start_
    transfer_failed_ reading]. rewrite !Z.add_0_r. rewrite (wrap_small 64) by lia.
  split; [|repeat split; try done; try lia; constructor].
  constructor; cbn [eng is_processing_ read_master_ write_master_ size_ mems wr]; try done; try lia.
  - rewrite Z.add_0_r. unfold destination, addr_reg. by destruct (reads_port n).
  - apply copied_none.
Qed.

(** C28. A transfer of a quiet engine copies. Program an engine that has no transaction
    outstanding ([quiescent]) with any descriptor whose two regions do not overlap (SIZE
    negative for the other direction) and let its threads, the bus and further register
    accesses run in any order: where the engine is idle again, either the status is Done, the destination holds what the
    source held when the transfer began, nothing else has changed, the registers
    are as documented and the engine is quiet again; or some bus access failed, the
    status is BusError and the destination holds a prefix. (An engine that reports
    BusError need not be quiet: [dma_restart_race] shows what a transfer then does.) *)
Theorem dma_copies fifo_size conn d m a0 a1 n acts s2 :
  quiescent d -> descriptor_ok conn a0 a1 n ->
  (s1 ← run fifo_size conn (program a0 a1 n) (mkDmaSys d m); run_busy fifo_size conn acts s1) = Some s2 ->
  is_processing_ (eng s2) = false ->
  done conn (reads_port n) (source a0 a1 n) (destination a0 a1 n) (Z.abs n) m s2 \/
  ((exists a, a ∈ acts /\ bad a) /\
   errored conn (reads_port n) (source a0 a1 n) (destination a0 a1 n) (Z.abs n) m s2).
Proof.
  intros Hq Hok Hr Hi. destruct (program_starts fifo_size conn d m a0 a1 n Hq Hok) as (s1 & H1 & Hn & _).
  rewrite H1 in Hr. cbn in Hr.
  pose proof (run_busy_state _ _ _ _ _ _ _ Hok False _ _ _ (or_introl Hn) Hr) as Hs.
  destruct (transfer_idle _ _ _ _ _ _ _ _ Hs Hi) as [|[[[]|] ?]]; auto.
Qed.

(** The Host DMA with eight bytes from each memory to the other. *)
Definition sample_mems : bool -> mem := fun p a => if p then 0 else a mod 256.
Definition sample_beat : list action :=
  [AWake; AReadResp true; APush; AUpdate; APop; AWriteResp true].

Lemma sample_descriptor : descriptor_ok id 0x100 0x200 8.
Proof. constructor; cbn; lia. Qed.

Lemma dma_copies_witness :
  exists s2, (s1 ← run 16 id (program 0x100 0x200 8) (mkDmaSys dma_reset sample_mems);
              run_busy 16 id sample_beat s1) = Some s2 /\
  (done id (reads_port 8) (source 0x100 0x200 8) (destination 0x100 0x200 8) (Z.abs 8) sample_mems s2 \/
   ((exists a, a ∈ sample_beat /\ bad a) /\
    errored id (reads_port 8) (source 0x100 0x200 8) (destination 0x100 0x200 8) (Z.abs 8) sample_mems s2)).
Proof.
  eexists; split; [vm_compute; reflexivity|].
  eapply (dma_copies 16 id dma_reset sample_mems 0x100 0x200 8 sample_beat);
    [done|exact sample_descriptor|vm_compute; reflexivity|reflexivity].
Defined.

(** A transfer ends. Programming a quiet engine is never refused; from then on
    its threads make at most [6 * |n| + 1] moves while it is busy, and as long as it
    is busy one of them can move, whatever the bus answers. *)
Theorem dma_terminates fifo_size conn d m a0 a1 n :
  (0 < fifo_size)%nat -> quiescent d -> descriptor_ok conn a0 a1 n ->
  exists s1, run fifo_size conn (program a0 a1 n) (mkDmaSys d m) = Some s1 /\
  forall acts s2, run_busy fifo_size conn acts s1 = Some s2 -> is_processing_ (eng s2) = true ->
    Z.of_nat (countb internal acts) <= 6 * Z.abs n + 1 /\ can_move fifo_size conn s2.
Proof.
  intros Hz Hq Hok. destruct (program_starts fifo_size conn d m a0 a1 n Hq Hok) as (s1 & H1 & Hn & Hw).
  exists s1. split; [done|]. intros acts s2 Hr Hp.
  pose proof (run_busy_state _ _ _ _ _ _ _ Hok False _ _ _ (or_introl Hn) Hr) as Hs.
  pose proof (run_busy_work _ _ _ _ _ _ _ Hok False _ _ _ (or_introl Hn) Hr Hp) as Hwk.
  assert (Hb : normal conn (reads_port n) (source a0 a1 n) (destination a0 a1 n) (Z.abs n) m s2 \/
               failing conn (reads_port n) (source a0 a1 n) (destination a0 a1 n) (Z.abs n) m s2).
  { destruct Hs as [|[Hd|[_ [|Hd]]]]; [by left| |by right|].
    - by destruct Hd as [[Hd _] _]; rewrite Hd in Hp.
    - by destruct Hd as [Hd _]; rewrite Hd in Hp. }
  pose proof (work_nonneg _ _ _ _ _ _ _ Hb). split; [lia|].
  destruct Hb; [by eapply normal_moves|by eapply failing_moves].
Qed.

Lemma dma_terminates_witness :
  exists s1, run 16 id (program 0x100 0x200 8) (mkDmaSys dma_reset sample_mems) = Some s1 /\
  forall acts s2, run_busy 16 id acts s1 = Some s2 -> is_processing_ (eng s2) = true ->
    Z.of_nat (countb internal acts) <= 6 * Z.abs 8 + 1 /\ can_move 16 id s2.
Proof. apply dma_terminates; [lia|done|exact sample_descriptor]. Defined.

(** Every access of a transfer is one beat inside one cache block: at any moment
    an outstanding read goes to the source port, an outstanding write to the
    destination port, each within its region, at most eight bytes long and without
    crossing a 64-byte boundary. *)
Theorem dma_beats_in_block fifo_size conn d m a0 a1 n acts s1 s2 :
  quiescent d -> descriptor_ok conn a0 a1 n ->
  run fifo_size conn (program a0 a1 n) (mkDmaSys d m) = Some s1 ->
  run_busy fifo_size conn acts s1 = Some s2 -> is_processing_ (eng s2) = true ->
  (forall port addr chunk pl wc, rd (eng s2) = RResp port addr chunk pl wc ->
     port = reads_port n /\ in_block addr chunk /\
     source a0 a1 n <= addr /\ addr + chunk <= source a0 a1 n + Z.abs n) /\
  (forall port addr data, wr (eng s2) = WResp port addr data ->
     port = negb (reads_port n) /\ in_block addr (Z.of_nat (length data)) /\
     destination a0 a1 n <= addr /\ addr + Z.of_nat (length data) <= destination a0 a1 n + Z.abs n).
Proof.
  intros Hq Hok H1 Hr Hp. destruct (program_starts fifo_size conn d m a0 a1 n Hq Hok) as (s1' & H1' & Hn & _).
  rewrite H1 in H1'. injection H1' as <-.
  pose proof (run_busy_state _ _ _ _ _ _ _ Hok False _ _ _ (or_introl Hn) Hr) as Hs.
  destruct Hs as [(k & r & B & Hf & Hs & Ht & Hpl & Hrn & Ha & Hrd)|[Hd|[_ [(k & q & B & Hf & Hs & Hw & Hqq)|Hd]]]].
  - pose proof (b_k _ _ _ _ _ _ _ _ B). pose proof (placed_le _ _ _ _ _ _ _ _ Hpl) as [Hkr _]. split.
    + intros port addr chunk pl wc Er. rewrite Er in Hrd. destruct Hrd as (? & -> & -> & -> & -> & ->).
      destruct (next_chunk_ok (source a0 a1 n + r) (destination a0 a1 n + r) (Z.abs n - r) ltac:(lia))
        as (Hb & _ & ?). split; [done|split; [exact Hb|lia]].
    + intros port addr data Ew. destruct (b_wr _ _ _ _ _ _ _ _ B _ _ _ Ew) as (-> & -> & Hb).
      unfold outgoing in Hpl. rewrite Ew in Hpl. cbn in Hpl.
      apply placed_cons_inv in Hpl as (? & [= <-] & _ & Hpl). apply placed_le in Hpl as [? _].
      destruct Hb as (_ & _ & Hb). split; [done|split; [exact Hb|lia]].
  - by destruct Hd as [[Hd _] _]; rewrite Hd in Hp.
  - split.
    + intros port addr chunk pl wc Er. rewrite Er in Hqq. by destruct Hqq as [[]|[]].
    + intros port addr data Ew. destruct (b_wr _ _ _ _ _ _ _ _ B _ _ _ Ew) as (-> & -> & Hb).
      pose proof (b_k _ _ _ _ _ _ _ _ B). specialize (Hw _ _ _ Ew).
      destruct Hb as (_ & _ & Hb). split; [done|split; [exact Hb|lia]].
  - by destruct Hd as [Hd _]; rewrite Hd in Hp.
Qed.

Lemma dma_beats_in_block_witness :
  exists s1 s2, rd (eng s2) = RResp false 0x100 8 8 0x200 /\
  run 16 id (program 0x100 0x200 8) (mkDmaSys dma_reset sample_mems) = Some s1 /\
  run_busy 16 id [AWake] s1 = Some s2 /\ in_block 0x100 8.
Proof.
  do 2 eexists. split; [|split; [vm_compute; reflexivity|split; [vm_compute; reflexivity|]]]; [reflexivity|].
  eapply (dma_beats_in_block 16 id dma_reset sample_mems 0x100 0x200 8 [AWake]);
    [done|exact sample_descriptor|vm_compute; reflexivity|vm_compute; reflexivity|reflexivity|reflexivity].
Defined.

Lemma some_and {A} (o : option A) (P : A -> Prop) :
  match o with Some x => P x | None => False end -> exists x, o = Some x /\ P x.
Proof. destruct o; [eauto|done]. Qed.

(** The first transfer of sixteen bytes fails at its first write while its second
    read is outstanding. *)
Definition first_fails : list action :=
  program 0x100 0x200 16 ++ [AWake; AReadResp true; APush; AUpdate; APop; AWriteResp false].
(** The second transfer of eight bytes meets the answer to that read. *)
Definition second_runs : list action :=
  program 0x400 0x800 8 ++ [AReadResp true; APush; AUpdate; APop; AWriteResp true].

(** A transfer started after a bus error can copy the wrong bytes. A failed write
    ends a transfer while a read of it may still be outstanding; the engine then
    reports BusError and accepts the next descriptor, whose START clears
    [transfer_failed_] and whose notification the reading thread misses. The answer
    to the old read is queued as data of the new transfer, which ends with status
    Done although not one byte of its source was read. *)
Theorem dma_restart_race :
  let s0 := mkDmaSys dma_reset sample_mems in
  (exists s1, run 16 id first_fails s0 = Some s1 /\
     is_processing_ (eng s1) = false /\ status_ (eng s1) = kDmaStatusBusError) /\
  (exists s2, run 16 id (first_fails ++ program 0x400 0x800 8) s0 = Some s2 /\
     is_processing_ (eng s2) = true /\ status_ (eng s2) = kDmaStatusBusy) /\
  (exists s3, run 16 id (first_fails ++ second_runs) s0 = Some s3 /\
     is_processing_ (eng s3) = false /\ status_ (eng s3) = kDmaStatusDone /\
     bytes (sample_mems false) 0x400 8 = [0; 1; 2; 3; 4; 5; 6; 7] /\
     bytes (mems s3 true) 0x800 8 = [8; 9; 10; 11; 12; 13; 14; 15]).
Proof. cbv zeta. repeat split; apply some_and; vm_compute; auto. Qed.

(** The engine reports a read error before it is idle: STATUS is BusError, which
    the firmware takes for an engine at rest, while a write of the transfer is still
    outstanding and every register write is refused. *)
Theorem dma_error_reported_early :
  exists s, run 16 id (program 0x100 0x200 16 ++
      [AWake; AReadResp true; APush; AUpdate; APop; AReadResp false]) (mkDmaSys dma_reset sample_mems) = Some s /\
    mmio_proc (mkAccess TLM_READ_COMMAND LV_DMA_OFF_STATUS 8 (Some 0)) (eng s) =
      Some (TLM_OK_RESPONSE, Some kDmaStatusBusError, eng s) /\
    forall offset v, mmio_proc (mkAccess TLM_WRITE_COMMAND offset 8 (Some v)) (eng s) =
      Some (TLM_COMMAND_ERROR_RESPONSE, None, eng s).
Proof. apply some_and. vm_compute. auto. Qed.
