(* ===== verification/WgInit.v ===== *)
(** * The work-group initializer of a streaming multiprocessor
      (ilha/src/wg_initializer.cc and .h, ilha/include/ilha/warp_ctrl.h)

    The initializer is the hardware behind the SM registers the firmware programs: it
    queues the work-groups written to the ENQ registers, gives each one the idle warps
    of the core, resumes barriers, ends the warps that exit or trap, and posts a
    finished work-group on the DEQ registers.

    Its SystemC threads give up control only where they block; an action is what one
    thread does between two such points. [ProcessThread] can block in the middle of a
    pass, when the dequeue queue is full, so a pass is three actions. An [sc_fifo]
    makes readable with an update what was written before it. The core is the most
    general one the interface [WarpCtrl] describes: a warp is in exactly one of four
    states, a running warp may reach a barrier or trap at any time, a warp whose Abort
    or Release was accepted no longer executes and becomes idle at any time, and the
    core may refuse any command. What the core answers to the commands of a pass is
    part of the action.

    A mask is the list of its set bits. [processing_wg_ids_] holds [None]
    for -1. Traces, log output and the Lua hooks are left out. [hist] is a history
    variable: the commands the core accepted, and what was retired. *)

From S2P Require Import Prelude.

(** ** The core (warp_ctrl.h) *)

Inductive warp_state := WarpIdle | WarpActive | WarpBarrier | WarpException.
#[global] Instance warp_state_eq : EqDecision warp_state.
Proof. solve_decision. Defined.

Record warp := mkWarp {
  w_state : warp_state;
  w_stopping : bool;            (* Abort or Release accepted, not idle yet *)
  w_mcause : Z;
  w_mepc : Z;
  w_mtval : Z;
  w_barrier_pc : Z;
}.
Definition idle_warp : warp := mkWarp WarpIdle false 0 0 0 0.
Abbreviation core := (list warp).
Definition warp_at (c : core) (i : nat) : warp := nth i c idle_warp.

Inductive WarpCtrlCommand :=
  | Activate (cwm : list nat) (pc wg_info cwid_base : Z)
  | Resume (cwm : list nat)
  | Release (cwm : list nat)
  | Abort_ (cwm : list nat).

Definition set_w_state (st : warp_state) (w : warp) : warp :=
  mkWarp st (w_stopping w) (w_mcause w) (w_mepc w) (w_mtval w) (w_barrier_pc w).
Definition stop_warp (w : warp) : warp :=
  mkWarp (w_state w) true (w_mcause w) (w_mepc w) (w_mtval w) (w_barrier_pc w).
Definition drain_warp (w : warp) : warp :=
  if w_stopping w then mkWarp WarpIdle false (w_mcause w) (w_mepc w) (w_mtval w) (w_barrier_pc w) else w.

(** [f] on the warps of a mask. *)
Definition on_warps (f : warp -> warp) (cwm : list nat) (c : core) : core :=
  imap (fun i w => if bool_decide (i ∈ cwm) then f w else w) c.

(** An accepted command is applied at once. *)
Definition core_apply (cmd : WarpCtrlCommand) (c : core) : core :=
  match cmd with
  | Activate cwm _ _ _ => on_warps (set_w_state WarpActive) cwm c
  | Resume cwm => on_warps (set_w_state WarpActive) cwm c
  | Release cwm | Abort_ cwm => on_warps stop_warp cwm c
  end.

(** What warp_ctrl.h says of the warps a command may name: at least one, none of them
    twice, none that is stopping, and all in a state the command applies to. *)
Definition command_allowed (cmd : WarpCtrlCommand) (c : core) : bool :=
  let all (cwm : list nat) (ok : warp_state -> bool) :=
    negb (bool_decide (cwm = [])) && bool_decide (NoDup cwm) &&
    forallb (fun i => (i <? length c)%nat && negb (w_stopping (warp_at c i)) && ok (w_state (warp_at c i))) cwm in
  let at_ st x := bool_decide (x = st) in
  match cmd with
  | Activate cwm _ _ _ => all cwm (at_ WarpIdle)
  | Resume cwm => all cwm (at_ WarpBarrier)
  | Release cwm => all cwm (at_ WarpException)
  | Abort_ cwm => all cwm (fun x => at_ WarpActive x || at_ WarpBarrier x)
  end.

(** What a core does by itself. *)
Inductive core_move :=
  | MoveBarrier (i : nat) (pc : Z)
  | MoveTrap (i : nat) (mcause mepc mtval : Z)
  | MoveStopped (i : nat).
Definition core_step (m : core_move) (c : core) : core :=
  match m with
  | MoveBarrier i pc =>
      alter (fun w => if bool_decide (w_state w = WarpActive) && negb (w_stopping w)
                      then mkWarp WarpBarrier false (w_mcause w) (w_mepc w) (w_mtval w) pc else w) i c
  | MoveTrap i mcause mepc mtval =>
      alter (fun w => if bool_decide (w_state w = WarpActive) && negb (w_stopping w)
                      then mkWarp WarpException false mcause mepc mtval (w_barrier_pc w) else w) i c
  | MoveStopped i => alter drain_warp i c
  end.

(** ** Queues (sc_fifo) *)

Record sc_fifo (A : Type) := mkFifo { readable : list A; written : list A }.
Arguments mkFifo {A}. Arguments readable {A}. Arguments written {A}.
Definition fifo_empty {A} : sc_fifo A := mkFifo [] [].
Definition fifo_items {A} (f : sc_fifo A) : list A := readable f ++ written f.
Definition fifo_write {A} (x : A) (f : sc_fifo A) : sc_fifo A := mkFifo (readable f) (written f ++ [x]).
Definition fifo_update {A} (f : sc_fifo A) : sc_fifo A := mkFifo (readable f ++ written f) [].
Definition fifo_full {A} (size : nat) (f : sc_fifo A) : bool := (size <=? length (fifo_items f))%nat.

(** ** State *)

Record WGDispatchInfo := mkDispatchInfo { di_kernel_pc : Z; di_info_ptr : Z; di_group_size : Z }.

Definition kWGOkay : Z := 0.
Definition kWGException : Z := 1.

Record WGDequeueInfo := mkDequeueInfo {
  qi_kernel_pc : Z;
  qi_info_ptr : Z;
  qi_status : Z;
  qi_mcause : Z;                (* uint32_t *)
  qi_mepc : Z;
  qi_mtval : Z;
}.
Definition no_dequeue_info : WGDequeueInfo := mkDequeueInfo 0 0 kWGOkay 0 0 0.

Record ProcessingWGInfo := mkWG {
  busy : bool;
  wg_kernel_pc : Z;
  wg_info_ptr : Z;
  wg_group_size : Z;
  warp_count : Z;
  activated_warps : Z;
  completed_warps : Z;
  barrier_divergence_reported : bool;
  aborting : bool;
  completion_info : WGDequeueInfo;
}.
Definition vacant_wg : ProcessingWGInfo := mkWG false 0 0 0 0 0 0 false false no_dequeue_info.

Definition set_counts (activated completed : Z) (p : ProcessingWGInfo) : ProcessingWGInfo :=
  mkWG (busy p) (wg_kernel_pc p) (wg_info_ptr p) (wg_group_size p) (warp_count p) activated completed
    (barrier_divergence_reported p) (aborting p) (completion_info p).
Definition set_completion (ab : bool) (q : WGDequeueInfo) (p : ProcessingWGInfo) : ProcessingWGInfo :=
  mkWG (busy p) (wg_kernel_pc p) (wg_info_ptr p) (wg_group_size p) (warp_count p) (activated_warps p)
    (completed_warps p) (barrier_divergence_reported p) ab q.
Definition set_divergence (p : ProcessingWGInfo) : ProcessingWGInfo :=
  mkWG (busy p) (wg_kernel_pc p) (wg_info_ptr p) (wg_group_size p) (warp_count p) (activated_warps p)
    (completed_warps p) true (aborting p) (completion_info p).
Definition set_vacant (p : ProcessingWGInfo) : ProcessingWGInfo :=
  mkWG false (wg_kernel_pc p) (wg_info_ptr p) (wg_group_size p) (warp_count p) (activated_warps p)
    (completed_warps p) (barrier_divergence_reported p) (aborting p) (completion_info p).

(** The words of [struct CSR]. *)
Record CSR := mkCsr {
  enq_valid : Z;
  enq_kernel_pc : Z;
  enq_info_ptr : Z;
  enq_wg_size : Z;
  deq_valid : Z;
  deq_status : Z;
  deq_kernel_pc : Z;
  deq_info_ptr : Z;
  deq_mcause : Z;
  deq_mepc : Z;
  deq_mtval : Z;
  wg_resident_limit : Z;
}.
Definition csr_words (c : CSR) : list Z :=
  [enq_valid c; enq_kernel_pc c; enq_info_ptr c; enq_wg_size c; deq_valid c; deq_status c;
   deq_kernel_pc c; deq_info_ptr c; deq_mcause c; deq_mepc c; deq_mtval c; wg_resident_limit c].
Definition set_enq_valid (v : Z) (c : CSR) : CSR :=
  mkCsr v (enq_kernel_pc c) (enq_info_ptr c) (enq_wg_size c) (deq_valid c) (deq_status c)
    (deq_kernel_pc c) (deq_info_ptr c) (deq_mcause c) (deq_mepc c) (deq_mtval c) (wg_resident_limit c).
(** A write of word [i], [i <= 4]. *)
Definition csr_write (i : nat) (v : Z) (c : CSR) : CSR :=
  let w j old := if (i =? j)%nat then v else old in
  mkCsr (w 0%nat (enq_valid c)) (w 1%nat (enq_kernel_pc c)) (w 2%nat (enq_info_ptr c))
    (w 3%nat (enq_wg_size c)) (w 4%nat (deq_valid c)) (deq_status c) (deq_kernel_pc c) (deq_info_ptr c)
    (deq_mcause c) (deq_mepc c) (deq_mtval c) (wg_resident_limit c).
Definition csr_post (q : WGDequeueInfo) (c : CSR) : CSR :=
  mkCsr (enq_valid c) (enq_kernel_pc c) (enq_info_ptr c) (enq_wg_size c) 1 (qi_status q)
    (qi_kernel_pc q) (qi_info_ptr q) (qi_mcause q) (qi_mepc q) (qi_mtval q) (wg_resident_limit c).

Inductive enqueue_pc := EnqWait | EnqWrite (info : WGDispatchInfo).
Inductive dequeue_pc := DeqRead | DeqWait.
Inductive process_pc := PassWait | PassRetire (retire_infos : list (nat * WGDequeueInfo)).

(** A command the core accepted and whether the interface allows it for these warps;
    a work-group retired: its slot, its result and the warp numbers it had run. *)
Inductive wg_event :=
  | EvCommand (cmd : WarpCtrlCommand) (allowed : bool)
  | EvRetire (wg : ProcessingWGInfo) (info : WGDequeueInfo) (cwids : list Z).

(** The state of [ProcessThread], with the core. *)
Record processing := mkProcessing {
  processing_wg_info_ : list ProcessingWGInfo;
  processing_wg_count_ : Z;
  processing_wg_ids_ : list (option nat);
  processing_wg_order_ : list nat;
  pending_termination_mask_ : list bool;
  core_ : core;
  cwids_ : list (list Z);                      (* history: the warp numbers each slot has activated *)
  hist : list wg_event;
}.
Record wgi := mkWgi {
  csr_ : CSR;
  dispatch_fifo_ : sc_fifo WGDispatchInfo;
  dequeue_fifo_ : sc_fifo WGDequeueInfo;
  process_pending_ : bool;
  enqueue_event_ : bool;                       (* notified for the next delta cycle *)
  dequeue_event_ : bool;
  e_pc : enqueue_pc;
  d_pc : dequeue_pc;
  p_pc : process_pc;
  wgs : processing;
}.

Definition set_infos (processing_wg_info_0 : list ProcessingWGInfo) (p : processing) : processing :=
  mkProcessing processing_wg_info_0 (processing_wg_count_ p) (processing_wg_ids_ p)
    (processing_wg_order_ p) (pending_termination_mask_ p) (core_ p) (cwids_ p) (hist p).
Definition set_ids (processing_wg_ids_0 : list (option nat)) (p : processing) : processing :=
  mkProcessing (processing_wg_info_ p) (processing_wg_count_ p) processing_wg_ids_0
    (processing_wg_order_ p) (pending_termination_mask_ p) (core_ p) (cwids_ p) (hist p).
Definition set_pending (pending_termination_mask_0 : list bool) (p : processing) : processing :=
  mkProcessing (processing_wg_info_ p) (processing_wg_count_ p) (processing_wg_ids_ p)
    (processing_wg_order_ p) pending_termination_mask_0 (core_ p) (cwids_ p) (hist p).
Definition set_core (core_0 : core) (p : processing) : processing :=
  mkProcessing (processing_wg_info_ p) (processing_wg_count_ p) (processing_wg_ids_ p)
    (processing_wg_order_ p) (pending_termination_mask_ p) core_0 (cwids_ p) (hist p).
Definition set_slots_used (processing_wg_count_0 : Z) (processing_wg_order_0 : list nat) (p : processing) : processing :=
  mkProcessing (processing_wg_info_ p) processing_wg_count_0 (processing_wg_ids_ p)
    processing_wg_order_0 (pending_termination_mask_ p) (core_ p) (cwids_ p) (hist p).
Definition set_cwids (cwids_0 : list (list Z)) (p : processing) : processing :=
  mkProcessing (processing_wg_info_ p) (processing_wg_count_ p) (processing_wg_ids_ p)
    (processing_wg_order_ p) (pending_termination_mask_ p) (core_ p) cwids_0 (hist p).
Definition set_hist (hist0 : list wg_event) (p : processing) : processing :=
  mkProcessing (processing_wg_info_ p) (processing_wg_count_ p) (processing_wg_ids_ p)
    (processing_wg_order_ p) (pending_termination_mask_ p) (core_ p) (cwids_ p) hist0.
Definition set_csr (csr_0 : CSR) (s : wgi) : wgi :=
  mkWgi csr_0 (dispatch_fifo_ s) (dequeue_fifo_ s) (process_pending_ s) (enqueue_event_ s)
    (dequeue_event_ s) (e_pc s) (d_pc s) (p_pc s) (wgs s).
Definition set_dispatch (dispatch_fifo_0 : sc_fifo WGDispatchInfo) (s : wgi) : wgi :=
  mkWgi (csr_ s) dispatch_fifo_0 (dequeue_fifo_ s) (process_pending_ s) (enqueue_event_ s)
    (dequeue_event_ s) (e_pc s) (d_pc s) (p_pc s) (wgs s).
Definition set_dequeue (dequeue_fifo_0 : sc_fifo WGDequeueInfo) (s : wgi) : wgi :=
  mkWgi (csr_ s) (dispatch_fifo_ s) dequeue_fifo_0 (process_pending_ s) (enqueue_event_ s)
    (dequeue_event_ s) (e_pc s) (d_pc s) (p_pc s) (wgs s).
Definition set_process_pending (process_pending_0 : bool) (s : wgi) : wgi :=
  mkWgi (csr_ s) (dispatch_fifo_ s) (dequeue_fifo_ s) process_pending_0 (enqueue_event_ s)
    (dequeue_event_ s) (e_pc s) (d_pc s) (p_pc s) (wgs s).
Definition set_events (enqueue_event_0 : bool) (dequeue_event_0 : bool) (s : wgi) : wgi :=
  mkWgi (csr_ s) (dispatch_fifo_ s) (dequeue_fifo_ s) (process_pending_ s) enqueue_event_0
    dequeue_event_0 (e_pc s) (d_pc s) (p_pc s) (wgs s).
Definition set_e_pc (e_pc0 : enqueue_pc) (s : wgi) : wgi :=
  mkWgi (csr_ s) (dispatch_fifo_ s) (dequeue_fifo_ s) (process_pending_ s) (enqueue_event_ s)
    (dequeue_event_ s) e_pc0 (d_pc s) (p_pc s) (wgs s).
Definition set_d_pc (d_pc0 : dequeue_pc) (s : wgi) : wgi :=
  mkWgi (csr_ s) (dispatch_fifo_ s) (dequeue_fifo_ s) (process_pending_ s) (enqueue_event_ s)
    (dequeue_event_ s) (e_pc s) d_pc0 (p_pc s) (wgs s).
Definition set_p_pc (p_pc0 : process_pc) (s : wgi) : wgi :=
  mkWgi (csr_ s) (dispatch_fifo_ s) (dequeue_fifo_ s) (process_pending_ s) (enqueue_event_ s)
    (dequeue_event_ s) (e_pc s) (d_pc s) p_pc0 (wgs s).
Definition set_wgs (wgs0 : processing) (s : wgi) : wgi :=
  mkWgi (csr_ s) (dispatch_fifo_ s) (dequeue_fifo_ s) (process_pending_ s) (enqueue_event_ s)
    (dequeue_event_ s) (e_pc s) (d_pc s) (p_pc s) wgs0.

(** ** One pass of [ProcessThread] *)

Definition wg_at (p : processing) (g : nat) : ProcessingWGInfo := nth g (processing_wg_info_ p) vacant_wg.
Definition update_wg (f : ProcessingWGInfo -> ProcessingWGInfo) (g : nat) (p : processing) : processing :=
  set_infos (alter f g (processing_wg_info_ p)) p.
Definition owner (p : processing) (i : nat) : option nat := nth i (processing_wg_ids_ p) None.
Definition owned_by (p : processing) (g i : nat) : bool := bool_decide (owner p i = Some g).
Definition pending (p : processing) (i : nat) : bool := nth i (pending_termination_mask_ p) false.
Definition in_state (st : warp_state) (p : processing) (i : nat) : bool :=
  bool_decide (w_state (warp_at (core_ p) i) = st).

(** The set bits of a mask over the warps. *)
Definition mask_of (f : nat -> bool) (p : processing) : list nat :=
  List.filter f (seq 0 (length (core_ p))).

(** [exception_mask] of [HandleExceptionWarps]. *)
Definition new_exception (p : processing) (i : nat) : bool :=
  in_state WarpException p i && negb (pending p i).

Definition CheckForErrorException (p : processing) (g : nat) : bool :=
  existsb (fun i => new_exception p i && owned_by p g i && negb (w_mcause (warp_at (core_ p) i) =? 11))
    (seq 0 (length (core_ p))).

(** The loop of [FindFirstExceptionWarp] over the warps [ws]. *)
Fixpoint find_exception (p : processing) (g : nat) (prefer_error : bool) (ws : list nat)
    (first : option nat) : option nat :=
  match ws with
  | [] => first
  | i :: ws =>
      if negb (new_exception p i) || negb (owned_by p g i) then find_exception p g prefer_error ws first else
      let first := match first with None => Some i | Some f => Some f end in
      if prefer_error && negb (w_mcause (warp_at (core_ p) i) =? 11) then Some i
      else find_exception p g prefer_error ws first
  end.
Definition FindFirstExceptionWarp (p : processing) (g : nat) (prefer_error : bool) : option nat :=
  find_exception p g prefer_error (seq 0 (length (core_ p))) None.

(** The constructor of [WGDequeueInfo] takes a 32-bit cause. *)
Definition report (info : ProcessingWGInfo) (status : Z) (w : warp) : WGDequeueInfo :=
  mkDequeueInfo (wg_kernel_pc info) (wg_info_ptr info) status (u32 (w_mcause w)) (w_mepc w) (w_mtval w).

(** The body of the loop of [HandleExceptionWarps]. *)
Definition handle_exception_wg (p : processing) (g : nat) (info : ProcessingWGInfo) : ProcessingWGInfo :=
  if negb (busy info) then info else
  match FindFirstExceptionWarp p g false with
  | None => info
  | Some first =>
      let info :=
        if negb (aborting info) && CheckForErrorException p g then
          let warp := warp_at (core_ p) (default 0%nat (FindFirstExceptionWarp p g true)) in
          let info := set_completion true (report info kWGException warp) info in
          set_counts (warp_count info)
            (completed_warps info + (warp_count info - activated_warps info)) info
        else info in
      if negb (aborting info)
      then set_completion false (report info kWGOkay (warp_at (core_ p) first)) info
      else info
  end.
Definition HandleExceptionWarps (p : processing) : processing :=
  match mask_of (new_exception p) p with
  | [] => p
  | _ => set_infos (imap (handle_exception_wg p) (processing_wg_info_ p)) p
  end.

(** [warp_cmd_->nb_put]; [ok]: the core accepts it. *)
Definition TryWarpCtrlCommand (cmd : WarpCtrlCommand) (ok : bool) (p : processing) : bool * processing :=
  if ok then (true, set_hist (hist p ++ [EvCommand cmd (command_allowed cmd (core_ p))]) (set_core (core_apply cmd (core_ p)) p)) else (false, p).

Definition set_bits (cwm : list nat) (mask : list bool) : list bool :=
  imap (fun i b => bool_decide (i ∈ cwm) || b) mask.

(** A command for the warps of [cwm], unless there are none; they are then pending. *)
Definition terminate (cmd : list nat -> WarpCtrlCommand) (cwm : list nat) (ok : bool) (p : processing) : processing :=
  match cwm with
  | [] => p
  | _ =>
      let '(accepted, p) := TryWarpCtrlCommand (cmd cwm) ok p in
      if accepted then set_pending (set_bits cwm (pending_termination_mask_ p)) p else p
  end.

Definition to_release (p : processing) (i : nat) : bool :=
  match owner p i with
  | None => false
  | Some _ => negb (pending p i) && in_state WarpException p i
  end.
Definition to_abort (p : processing) (i : nat) : bool :=
  match owner p i with
  | None => false
  | Some g => negb (pending p i) && negb (in_state WarpException p i) && aborting (wg_at p g) &&
              (in_state WarpActive p i || in_state WarpBarrier p i)
  end.
(** Both masks are computed before the first command. *)
Definition IssueTerminations (abort_ok release_ok : bool) (p : processing) : processing :=
  let cwm := mask_of (to_abort p) p in
  let release_cwm := mask_of (to_release p) p in
  terminate Release release_cwm release_ok (terminate Abort_ cwm abort_ok p).

(** The warp [i] of slot [g] is idle again: its ownership ends. *)
Definition end_warp (g : nat) (i : nat) (p : processing) : processing :=
  if owned_by p g i && in_state WarpIdle p i && pending p i then
    let p := set_pending (<[i := false]> (pending_termination_mask_ p)) p in
    let p := set_ids (<[i := None]> (processing_wg_ids_ p)) p in
    update_wg (fun info => set_counts (activated_warps info) (completed_warps info + 1) info) g p
  else p.
Definition handle_stopped_wg (g : nat) (st : processing * list (nat * WGDequeueInfo)) :
    processing * list (nat * WGDequeueInfo) :=
  let '(p, retire_infos) := st in
  if negb (busy (wg_at p g)) then (p, retire_infos) else
  let p := for_range (end_warp g) 0 (length (core_ p)) p in
  let info := wg_at p g in
  if completed_warps info =? warp_count info then (p, retire_infos ++ [(g, completion_info info)])
  else (p, retire_infos).
Definition HandleStoppedWarps (p : processing) : processing * list (nat * WGDequeueInfo) :=
  for_range handle_stopped_wg 0 (length (processing_wg_info_ p)) (p, []).

(** [RetireWG] after the write to the dequeue queue. *)
Definition retire_slot (g : nat) (q : WGDequeueInfo) (p : processing) : processing :=
  let p := set_hist (hist p ++ [EvRetire (wg_at p g) q (nth g (cwids_ p) [])]) p in
  let p := update_wg set_vacant g p in
  set_slots_used (processing_wg_count_ p - 1) (List.filter (fun x => negb (x =? g)%nat) (processing_wg_order_ p)) p.

(** The ways a simulation ends. *)
Inductive wg_fatal := BarrierDeadlock (g : nat) | ActivateRefused | TooManyWarps.

Definition barrier_warps (p : processing) (g : nat) : list nat :=
  mask_of (fun i => in_state WarpBarrier p i && owned_by p g i) p.
Definition BarrierPCsDiffer (p : processing) (g : nat) : bool :=
  match barrier_warps p g with
  | [] => false
  | first :: rest =>
      existsb (fun i => negb (w_barrier_pc (warp_at (core_ p) i) =? w_barrier_pc (warp_at (core_ p) first))) rest
  end.

(** The loop of [HandleBarrierWarps] over the slots [gs]; the result is [cwm_]. *)
Fixpoint barrier_loop (gs : list nat) (cwm : list nat) (p : processing) : wg_fatal + list nat * processing :=
  match gs with
  | [] => inr (cwm, p)
  | g :: gs =>
      let info := wg_at p g in
      if negb (busy info) || aborting info then barrier_loop gs cwm p else
      let barrier_count := Z.of_nat (length (barrier_warps p g)) in
      if (0 <? completed_warps info) && (barrier_count + completed_warps info =? warp_count info)
      then inl (BarrierDeadlock g) else
      if negb (barrier_count =? warp_count info) then barrier_loop gs cwm p else
      let p' := if negb (barrier_divergence_reported info) && BarrierPCsDiffer p g
                then update_wg set_divergence g p else p in
      barrier_loop gs (cwm ++ barrier_warps p g) p'
  end.
Definition HandleBarrierWarps (ok : bool) (p : processing) : wg_fatal + processing :=
  match mask_of (in_state WarpBarrier p) p with
  | [] => inr p
  | _ =>
      match barrier_loop (seq 0 (length (processing_wg_info_ p))) [] p with
      | inl e => inl e
      | inr ([], p) => inr p
      | inr (cwm, p) => inr (snd (TryWarpCtrlCommand (Resume cwm) ok p))
      end
  end.

(** Idle warps that no work-group owns. *)
Definition free_warps (p : processing) : list nat :=
  mask_of (fun i => in_state WarpIdle p i && bool_decide (owner p i = None)) p.

(** The slot [g] owns the warps of [cwm]. *)
Definition own_warps (cwm : list nat) (g : nat) (ids : list (option nat)) : list (option nat) :=
  imap (fun i o => if bool_decide (i ∈ cwm) then Some g else o) ids.
(** The history of an Activate: its warps get the numbers from [cwid_base] on. *)
Definition note_cwids (g : nat) (cmd : WarpCtrlCommand) (p : processing) : processing :=
  match cmd with
  | Activate cwm _ _ cwid_base =>
      set_cwids (alter (fun l => l ++ ((fun j => cwid_base + Z.of_nat j) <$> seq 0 (length cwm))) g (cwids_ p)) p
  | _ => p
  end.

Definition DispatchRemainingWarps (ok : bool) (p : processing) : processing :=
  match processing_wg_order_ p, mask_of (in_state WarpIdle p) p with
  | [], _ | _, [] => p
  | _, _ =>
      match List.find (fun g => activated_warps (wg_at p g) <? warp_count (wg_at p g)) (processing_wg_order_ p) with
      | None => p
      | Some g =>
          let info := wg_at p g in
          let remaining_warps := warp_count info - activated_warps info in
          let cwm := take (Z.to_nat remaining_warps) (free_warps p) in
          match cwm with
          | [] => p
          | _ =>
              let cmd := Activate cwm (wg_kernel_pc info) (wg_info_ptr info) (activated_warps info) in
              let '(accepted, p) := TryWarpCtrlCommand cmd ok p in
              if negb accepted then p else
              let p := note_cwids g cmd p in
              let p := update_wg (fun info =>
                set_counts (activated_warps info + Z.of_nat (length cwm)) (completed_warps info) info) g p in
              set_ids (own_warps cwm g (processing_wg_ids_ p)) p
          end
      end
  end.

Section initializer.
Context (kWgResidentLimit kThreadsPerWarp kWarpsPerCore : Z) (fifo_size : nat).

Definition FindVacantProcessingWG (p : processing) : option nat :=
  find_first (fun g => negb (busy (wg_at p g))) (length (processing_wg_info_ p)).

(** [ok]: [nb_can_put], and then [nb_put], answer true. *)
Definition DispatchNewWG (ok : bool) (fifo : sc_fifo WGDispatchInfo) (p : processing) :
    wg_fatal + sc_fifo WGDispatchInfo * processing :=
  match readable fifo with
  | [] => inr (fifo, p)
  | info :: rest =>
      if negb (processing_wg_count_ p <? kWgResidentLimit) then inr (fifo, p) else
      match free_warps p, FindVacantProcessingWG p with
      | [], _ | _, None => inr (fifo, p)
      | _, Some vacant_entry =>
          if negb ok then inr (fifo, p) else
          let fifo := mkFifo rest (written fifo) in
          let warp_count := u32 (di_group_size info + kThreadsPerWarp - 1) / kThreadsPerWarp in
          if kWarpsPerCore <? warp_count then inl TooManyWarps else
          let cwm := take (Z.to_nat warp_count) (free_warps p) in
          match cwm with
          | [] => inr (fifo, p)
          | _ =>
              let cmd := Activate cwm (di_kernel_pc info) (di_info_ptr info) 0 in
              let '(accepted, p) := TryWarpCtrlCommand cmd ok p in
              if negb accepted then inl ActivateRefused else
              let wg := mkWG true (di_kernel_pc info) (di_info_ptr info) (di_group_size info) warp_count
                          (Z.of_nat (length cwm)) 0 false false no_dequeue_info in
              let p := set_infos (<[vacant_entry := wg]> (processing_wg_info_ p)) p in
              let p := set_cwids (<[vacant_entry := []]> (cwids_ p)) p in
              let p := note_cwids vacant_entry cmd p in
              let p := set_slots_used (processing_wg_count_ p + 1) (processing_wg_order_ p ++ [vacant_entry]) p in
              inr (fifo, set_ids (own_warps cwm vacant_entry (processing_wg_ids_ p)) p)
          end
      end
  end.

(** ** Threads *)

Inductive tlm_cmd := TlmRead | TlmWrite.
(** [ProcessRequest] on the word at [addr]; [None] is a reported error, which ends the
    simulation. The second result is the word read. *)
Definition ProcessRequest (cmd : tlm_cmd) (addr len v : Z) (s : wgi) : option (wgi * option Z) :=
  if (88 <? addr) || negb (addr mod 8 =? 0) then None else
  if negb (len =? 8) then None else
  let i := Z.to_nat (addr / 8) in
  match cmd with
  | TlmRead => Some (s, csr_words (csr_ s) !! i)
  | TlmWrite =>
      if negb (addr <=? 32) then None else
      let old := csr_ s in
      let s := set_csr (csr_write i v old) s in
      let s := if (enq_valid old =? 0) && negb (enq_valid (csr_ s) =? 0)
               then set_events true (dequeue_event_ s) s else s in
      let s := if negb (deq_valid old =? 0) && (deq_valid (csr_ s) =? 0)
               then set_events (enqueue_event_ s) true s else s in
      Some (s, None)
  end.

(** The delta notification reaches [EnqueueWG] if it waits for it. *)
Definition enqueue_notified (s : wgi) : wgi :=
  let s' := set_events false (dequeue_event_ s) s in
  match e_pc s with
  | EnqWait =>
      set_e_pc (EnqWrite (mkDispatchInfo (enq_kernel_pc (csr_ s)) (enq_info_ptr (csr_ s))
                            (u32 (enq_wg_size (csr_ s))))) s'
  | EnqWrite _ => s'
  end.
Definition enqueue_write (info : WGDispatchInfo) (s : wgi) : wgi :=
  set_csr (set_enq_valid 0 (csr_ s)) (set_e_pc EnqWait (set_dispatch (fifo_write info (dispatch_fifo_ s)) s)).

(** The loop of [DequeueWG] starts by clearing [deq_valid]. *)
Definition dequeue_notified (s : wgi) : wgi :=
  let s' := set_events (enqueue_event_ s) false s in
  match d_pc s with
  | DeqWait => set_d_pc DeqRead (set_csr (csr_write 4 0 (csr_ s)) s')
  | DeqRead => s'
  end.

(** The first half of a pass. [drained]: warps that are idle at once after their
    Abort or Release. *)
Definition pass_start (abort_ok release_ok : bool) (drained : list nat) (s : wgi) : wgi :=
  let p := HandleExceptionWarps (wgs s) in
  let p := IssueTerminations abort_ok release_ok p in
  let p := set_core (on_warps drain_warp drained (core_ p)) p in
  let '(p, retire_infos) := HandleStoppedWarps p in
  set_process_pending false (set_p_pc (PassRetire retire_infos) (set_wgs p s)).

(** The second half, once everything is retired. *)
Definition pass_end (resume_ok remaining_ok new_ok : bool) (s : wgi) : wg_fatal + wgi :=
  match HandleBarrierWarps resume_ok (wgs s) with
  | inl e => inl e
  | inr p =>
      match DispatchNewWG new_ok (dispatch_fifo_ s) (DispatchRemainingWarps remaining_ok p) with
      | inl e => inl e
      | inr (fifo, p) => inr (set_p_pc PassWait (set_dispatch fifo (set_wgs p s)))
      end
  end.

Inductive wg_action :=
  | AMmio (cmd : tlm_cmd) (addr v : Z)
  | AEnqNotify | AEnqWrite | ADeqNotify | ADeqRead
  | AUpdate                                    (* both queues *)
  | AStateChange                               (* StateChangeThread *)
  | APassStart (abort_ok release_ok : bool) (drained : list nat)
  | ARetire
  | APassEnd (resume_ok remaining_ok new_ok : bool)
  | ACore (m : core_move).

(** [None]: not possible in this state. *)
Definition wg_exec (a : wg_action) (s : wgi) : option (wg_fatal + wgi) :=
  match a with
  | AMmio cmd addr v => r ← ProcessRequest cmd addr 8 v s; Some (inr (fst r))
  | AEnqNotify => if enqueue_event_ s then Some (inr (enqueue_notified s)) else None
  | AEnqWrite =>
      match e_pc s with
      | EnqWrite info => if fifo_full fifo_size (dispatch_fifo_ s) then None else Some (inr (enqueue_write info s))
      | EnqWait => None
      end
  | ADeqNotify => if dequeue_event_ s then Some (inr (dequeue_notified s)) else None
  | ADeqRead =>
      match d_pc s, readable (dequeue_fifo_ s) with
      | DeqRead, q :: rest =>
          Some (inr (set_d_pc DeqWait (set_csr (csr_post q (csr_ s))
                 (set_dequeue (mkFifo rest (written (dequeue_fifo_ s))) s))))
      | _, _ => None
      end
  | AUpdate => Some (inr (set_dispatch (fifo_update (dispatch_fifo_ s))
                            (set_dequeue (fifo_update (dequeue_fifo_ s)) s)))
  | AStateChange => Some (inr (set_process_pending true s))
  | APassStart abort_ok release_ok drained =>
      match p_pc s with
      | PassWait => if process_pending_ s then Some (inr (pass_start abort_ok release_ok drained s)) else None
      | PassRetire _ => None
      end
  | ARetire =>
      match p_pc s with
      | PassRetire ((g, q) :: l) =>
          if fifo_full fifo_size (dequeue_fifo_ s) then None else
          Some (inr (set_p_pc (PassRetire l) (set_wgs (retire_slot g q (wgs s))
                       (set_dequeue (fifo_write q (dequeue_fifo_ s)) s))))
      | _ => None
      end
  | APassEnd resume_ok remaining_ok new_ok =>
      match p_pc s with
      | PassRetire [] => Some (pass_end resume_ok remaining_ok new_ok s)
      | _ => None
      end
  | ACore m => Some (inr (set_wgs (set_core (core_step m (core_ (wgs s))) (wgs s)) s))
  end.

Fixpoint wg_run (acts : list wg_action) (s : wgi) : option (wg_fatal + wgi) :=
  match acts with
  | [] => Some (inr s)
  | a :: acts =>
      r ← wg_exec a s;
      match r with inl e => Some (inl e) | inr s' => wg_run acts s' end
  end.

(** The constructor. *)
Definition wgi_init : wgi :=
  mkWgi (mkCsr 0 0 0 0 0 0 0 0 0 0 0 kWgResidentLimit) fifo_empty fifo_empty false false false
    EnqWait DeqRead PassWait
    (mkProcessing (replicate (Z.to_nat kWgResidentLimit) vacant_wg) 0
       (replicate (Z.to_nat kWarpsPerCore) None) [] (replicate (Z.to_nat kWarpsPerCore) false)
       (replicate (Z.to_nat kWarpsPerCore) idle_warp) (replicate (Z.to_nat kWgResidentLimit) []) []).

End initializer.
