(* ===== verification/WgInitInv.v ===== *)
(** * Invariant and properties of the work-group initializer (WgInit.v) *)

From S2P Require Import Prelude WgInit.

(** ** Access lemmas *)

Lemma wg_at_update f g p h : wg_at (update_wg f g p) h =
  if bool_decide (h = g /\ (g < length (processing_wg_info_ p))%nat) then f (wg_at p g) else wg_at p h.
Proof.
  unfold wg_at, update_wg. cbn. case_bool_decide as H.
  - destruct H as [-> H]. rewrite !nth_lookup, list_lookup_alter_eq.
    by destruct (lookup_lt_is_Some_2 _ _ H) as [x ->].
  - rewrite !nth_lookup. destruct (decide (h = g)) as [->|Hn].
    + rewrite list_lookup_alter_eq. rewrite (lookup_ge_None_2 _ g); [done|lia].
    + by rewrite list_lookup_alter_ne.
Qed.

Lemma busy_lt p g : busy (wg_at p g) = true -> (g < length (processing_wg_info_ p))%nat.
Proof.
  unfold wg_at. intros H. destruct (decide (g < length (processing_wg_info_ p))%nat); [done|].
  rewrite nth_overflow in H by lia. done.
Qed.

Lemma wg_at_update_busy f g p h : busy (wg_at p g) = true ->
  wg_at (update_wg f g p) h = if bool_decide (h = g) then f (wg_at p g) else wg_at p h.
Proof.
  intros Hb. apply busy_lt in Hb. rewrite wg_at_update.
  destruct (decide (h = g)); [rewrite !bool_decide_true by done; done|rewrite !bool_decide_false by naive_solver; done].
Qed.

Lemma owner_lt p i g : owner p i = Some g -> (i < length (processing_wg_ids_ p))%nat.
Proof.
  unfold owner. intros H. destruct (decide (i < length (processing_wg_ids_ p))%nat); [done|].
  rewrite nth_overflow in H by lia. done.
Qed.
Lemma pending_lt p i : pending p i = true -> (i < length (pending_termination_mask_ p))%nat.
Proof.
  unfold pending. intros H. destruct (decide (i < length (pending_termination_mask_ p))%nat); [done|].
  rewrite nth_overflow in H by lia. done.
Qed.

Lemma warp_at_on f cwm c i : (forall j, j ∈ cwm -> (j < length c)%nat) ->
  warp_at (on_warps f cwm c) i = if bool_decide (i ∈ cwm) then f (warp_at c i) else warp_at c i.
Proof.
  intros Hc. unfold warp_at, on_warps. rewrite !nth_lookup, list_lookup_imap.
  destruct (c !! i) as [w|] eqn:E; cbn; [by case_bool_decide|]. case_bool_decide as Hi; [|done].
  apply Hc, lookup_lt_is_Some_2 in Hi as [w Hw]. congruence.
Qed.
Lemma length_on_warps f cwm c : length (on_warps f cwm c) = length c.
Proof. apply length_imap. Qed.

Lemma elem_mask_of f p i : i ∈ mask_of f p <-> (i < length (core_ p))%nat /\ f i = true.
Proof.
  unfold mask_of. rewrite list_elem_of_In, filter_In, in_seq. split; [intros [[] ?]|intros []]; split; try done; lia.
Qed.
Lemma NoDup_mask_of f p : NoDup (mask_of f p).
Proof. unfold mask_of. apply NoDup_ListNoDup, List.NoDup_filter, seq_NoDup. Qed.

Lemma nth_own_warps cwm g ids i : (forall j, j ∈ cwm -> (j < length ids)%nat) ->
  nth i (own_warps cwm g ids) None = if bool_decide (i ∈ cwm) then Some g else nth i ids None.
Proof.
  intros Hc. unfold own_warps. rewrite !nth_lookup, list_lookup_imap.
  destruct (ids !! i) as [w|] eqn:E; cbn; [by case_bool_decide|]. case_bool_decide as Hi; [|done].
  apply Hc, lookup_lt_is_Some_2 in Hi as [w Hw]. congruence.
Qed.
Lemma nth_set_bits cwm m i : (forall j, j ∈ cwm -> (j < length m)%nat) ->
  nth i (set_bits cwm m) false = bool_decide (i ∈ cwm) || nth i m false.
Proof.
  intros Hc. unfold set_bits. rewrite !nth_lookup, list_lookup_imap.
  destruct (m !! i) as [w|] eqn:E; cbn; [done|]. case_bool_decide as Hi; [|done].
  apply Hc, lookup_lt_is_Some_2 in Hi as [w Hw]. congruence.
Qed.

(** ** Warps a slot owns *)

Definition is_owner (g : nat) (o : option nat) : bool := bool_decide (o = Some g).
Lemma is_owner_None g : is_owner g None = false.
Proof. done. Qed.
Lemma is_owner_Some g h : is_owner g (Some h) = bool_decide (g = h).
Proof. unfold is_owner. apply bool_decide_ext. naive_solver. Qed.
Definition owned (p : processing) (g : nat) : Z := Z.of_nat (countb (is_owner g) (processing_wg_ids_ p)).

Lemma own_warps_cons i cwm g ids : (i < length ids)%nat ->
  own_warps (i :: cwm) g ids = <[i := Some g]> (own_warps cwm g ids).
Proof.
  intros Hi. apply list_eq. intros j. destruct (decide (j = i)) as [->|Hn].
  - rewrite list_lookup_insert_eq by (unfold own_warps; rewrite length_imap; done).
    unfold own_warps. rewrite list_lookup_imap. apply lookup_lt_is_Some_2 in Hi as [x ->]. cbn.
    by rewrite bool_decide_true by left.
  - rewrite list_lookup_insert_ne by done. unfold own_warps. rewrite !list_lookup_imap.
    destruct (ids !! j); cbn; [|done]. f_equal.
    destruct (decide (j ∈ cwm)); [rewrite !bool_decide_true by (try right; done)|rewrite !bool_decide_false by (rewrite ?elem_of_cons; naive_solver)]; done.
Qed.

Lemma countb_own_warps cwm g h ids : NoDup cwm -> (forall i, i ∈ cwm -> ids !! i = Some None) ->
  countb (is_owner h) (own_warps cwm g ids) =
  (countb (is_owner h) ids + if bool_decide (h = g) then length cwm else 0)%nat.
Proof.
  induction 1 as [|i cwm Hi Hd IH]; intros Hn.
  - replace (own_warps [] g ids) with ids; [cbn; case_bool_decide; lia|].
    symmetry. apply list_eq. intros j. unfold own_warps. rewrite list_lookup_imap. by destruct (ids !! j).
  - assert (Hl : (i < length ids)%nat) by (eapply lookup_lt_Some, Hn; by left).
    rewrite own_warps_cons by done.
    assert (Hx : own_warps cwm g ids !! i = Some None).
    { unfold own_warps. rewrite list_lookup_imap, (Hn i) by left. cbn. by rewrite bool_decide_false. }
    pose proof (countb_insert (is_owner h) _ _ _ (Some g) Hx) as Hc. rewrite IH in Hc by (intros; apply Hn; by right).
    unfold is_owner in *. cbn in *. repeat case_bool_decide; cbn in *; simplify_eq; lia.
Qed.

(** ** The invariant *)

Definition state_of (p : processing) (i : nat) : warp_state := w_state (warp_at (core_ p) i).
Definition stopping (p : processing) (i : nat) : bool := w_stopping (warp_at (core_ p) i).

(** The warp numbers 0 to [n] - 1. *)
Definition numbers (n : Z) : list Z := Z.of_nat <$> seq 0 (Z.to_nat n).

(** [completion_info] of a work-group is filled in with [status]. *)
Definition reports (wg : ProcessingWGInfo) (status : Z) : Prop :=
  qi_status (completion_info wg) = status /\ qi_kernel_pc (completion_info wg) = wg_kernel_pc wg /\
  qi_info_ptr (completion_info wg) = wg_info_ptr wg.

(** A warp is idle while no work-group owns it; an owned warp runs until its
    termination is accepted, and then stops. *)
Definition warp_inv (p : processing) (i : nat) : Prop :=
  match owner p i with
  | None => state_of p i = WarpIdle /\ pending p i = false /\ stopping p i = false
  | Some g =>
      busy (wg_at p g) = true /\
      if pending p i then
        (state_of p i = WarpIdle <-> stopping p i = false) /\
        (aborting (wg_at p g) = false ->
         (state_of p i = WarpIdle \/ state_of p i = WarpException) /\ reports (wg_at p g) kWGOkay)
      else state_of p i <> WarpIdle /\ stopping p i = false
  end.

Definition slot_inv (p : processing) (g : nat) : Prop :=
  let wg := wg_at p g in
  busy wg = true ->
  completed_warps wg + owned p g = activated_warps wg /\ activated_warps wg <= warp_count wg /\
  0 <= completed_warps wg /\ 0 < warp_count wg /\
  if aborting wg then
    reports wg kWGException /\ activated_warps wg = warp_count wg /\
    exists k, k <= warp_count wg /\ nth g (cwids_ p) [] = numbers k
  else (0 < completed_warps wg -> reports wg kWGOkay) /\ nth g (cwids_ p) [] = numbers (activated_warps wg).

Definition event_ok (e : wg_event) : Prop :=
  match e with
  | EvCommand _ allowed => allowed = true
  | EvRetire wg q cwids =>
      busy wg = true /\ completed_warps wg = warp_count wg /\ 0 < warp_count wg /\
      qi_kernel_pc q = wg_kernel_pc wg /\ qi_info_ptr q = wg_info_ptr wg /\
      ((aborting wg = false /\ qi_status q = kWGOkay /\ cwids = numbers (warp_count wg)) \/
       (aborting wg = true /\ qi_status q = kWGException /\ exists k, k <= warp_count wg /\ cwids = numbers k))
  end.

Record pinv (p : processing) : Prop := {
  i_ids : length (processing_wg_ids_ p) = length (core_ p);
  i_mask : length (pending_termination_mask_ p) = length (core_ p);
  i_cwids : length (cwids_ p) = length (processing_wg_info_ p);
  i_warp : forall i, warp_inv p i;
  i_slot : forall g, slot_inv p g;
  i_count : processing_wg_count_ p = Z.of_nat (length (processing_wg_order_ p));
  i_order : NoDup (processing_wg_order_ p);
  i_used : forall g, g ∈ processing_wg_order_ p <-> busy (wg_at p g) = true;
  i_hist : Forall event_ok (hist p);
}.

(** ** Exceptions *)

Lemma find_exception_None p g pe ws : find_exception p g pe ws None = None ->
  forall i, i ∈ ws -> new_exception p i = true -> owned_by p g i = true -> False.
Proof.
  assert (Hf : forall ws f, find_exception p g pe ws (Some f) <> None).
  { clear ws. induction ws as [|i ws IH]; intros f; cbn; [done|]. repeat bcase; auto. }
  induction ws as [|j ws IH]; cbn; intros H i Hi He Ho; [by apply not_elem_of_nil in Hi|].
  apply elem_of_cons in Hi as [->|Hi].
  - rewrite He, Ho in H. cbn in H. bcase_in H; [done|]. by eapply Hf.
  - bcase_in H; [by eapply IH|]. bcase_in H; [done|]. by apply Hf in H.
Qed.

(** What one round of [HandleExceptionWarps] can do to a work-group. *)
Lemma handle_exception_cases p g wg :
  handle_exception_wg p g wg = wg \/
  (busy wg = true /\ aborting wg = false /\ exists w,
     handle_exception_wg p g wg =
       set_counts (warp_count wg) (completed_warps wg + (warp_count wg - activated_warps wg))
         (set_completion true (report wg kWGException w) wg)) \/
  (busy wg = true /\ aborting wg = false /\ exists w,
     handle_exception_wg p g wg = set_completion false (report wg kWGOkay w) wg).
Proof.
  unfold handle_exception_wg. destruct (busy wg) eqn:Eb; cbn [negb]; [|by left].
  destruct (FindFirstExceptionWarp p g false); [|by left].
  destruct (aborting wg) eqn:Ea; cbn [negb andb]; [rewrite Ea; by left|].
  destruct (CheckForErrorException p g); cbn [negb aborting set_completion set_counts].
  - right; left. split; [done|split; [done|]]. eexists. reflexivity.
  - right; right. rewrite Ea. split; [done|split; [done|]]. eexists. reflexivity.
Qed.

Lemma handle_exception_reports p g wg i : busy wg = true ->
  (i < length (core_ p))%nat -> owner p i = Some g -> new_exception p i = true ->
  aborting (handle_exception_wg p g wg) = false -> reports (handle_exception_wg p g wg) kWGOkay.
Proof.
  intros Hb Hi Ho He. unfold handle_exception_wg. rewrite Hb. cbn [negb].
  destruct (FindFirstExceptionWarp p g false) as [f|] eqn:Ef.
  2: { exfalso. eapply (find_exception_None _ _ _ _ Ef i); [|done|].
       - apply list_elem_of_In, in_seq. lia. - unfold owned_by. by apply bool_decide_eq_true. }
  destruct (aborting wg) eqn:Ea; cbn [negb andb]; [intros Ha; rewrite Ea in Ha; cbn in Ha; congruence|].
  destruct (CheckForErrorException p g); cbn [negb aborting set_completion set_counts]; [done|].
  rewrite Ea. done.
Qed.

Lemma wg_at_handled p g :
  wg_at (set_infos (imap (handle_exception_wg p) (processing_wg_info_ p)) p) g =
  handle_exception_wg p g (wg_at p g).
Proof.
  unfold wg_at. cbn. rewrite !nth_lookup, list_lookup_imap.
  by destruct (processing_wg_info_ p !! g); cbn.
Qed.

(** Every new exception of a work-group that does not abort is in its report. *)
Definition exceptions_handled (p : processing) : Prop := forall i g,
  owner p i = Some g -> state_of p i = WarpException -> pending p i = false ->
  aborting (wg_at p g) = false -> reports (wg_at p g) kWGOkay.

Lemma mask_of_nil f p : mask_of f p = [] -> forall i, (i < length (core_ p))%nat -> f i = false.
Proof.
  intros H i Hi. destruct (f i) eqn:E; [|done]. exfalso.
  assert (i ∈ mask_of f p) as Hm by (by apply elem_mask_of). rewrite H in Hm. by apply not_elem_of_nil in Hm.
Qed.

Lemma HandleExceptionWarps_inv p : pinv p ->
  pinv (HandleExceptionWarps p) /\ exceptions_handled (HandleExceptionWarps p).
Proof.
  intros I. unfold HandleExceptionWarps. destruct (mask_of (new_exception p) p) eqn:Em.
  { split; [done|]. intros i g Ho Hs Hp. exfalso.
    pose proof (owner_lt _ _ _ Ho) as Hl. rewrite (i_ids _ I) in Hl.
    pose proof (mask_of_nil _ _ Em i Hl) as Hf. unfold new_exception, in_state in Hf.
    rewrite Hp, bool_decide_true in Hf by done. done. }
  set (p' := set_infos _ p). destruct I as [H1 H2 H3 Hw Hs Hc Ho Hu Hh].
  assert (Hat : forall g, wg_at p' g = handle_exception_wg p g (wg_at p g)) by apply wg_at_handled.
  assert (Hbusy : forall g, busy (wg_at p' g) = busy (wg_at p g)).
  { intros g. rewrite Hat. destruct (handle_exception_cases p g (wg_at p g)) as [->|[(? & _ & w & ->)|(? & _ & w & ->)]]; done. }
  split.
  - constructor; try done.
    + unfold p'. cbn. by rewrite length_imap.
    + intros i. specialize (Hw i). unfold warp_inv in *. change (owner p' i) with (owner p i).
      change (pending p' i) with (pending p i). change (state_of p' i) with (state_of p i).
      change (stopping p' i) with (stopping p i). destruct (owner p i) as [g|]; [|done].
      rewrite Hbusy. destruct Hw as [Hb Hw]. split; [done|]. destruct (pending p i); [|done].
      destruct Hw as [Hw1 Hw2]. split; [done|]. intros Ha. rewrite Hat in *.
      destruct (handle_exception_cases p g (wg_at p g)) as [He|[(_ & _ & w & He)|(_ & Ha' & w & He)]];
        rewrite He in *; [by apply Hw2|done|]. destruct (Hw2 Ha') as [? _]. done.
    + intros g. specialize (Hs g). unfold slot_inv in *. cbv zeta in *. rewrite Hbusy. intros Hb.
      specialize (Hs Hb). destruct Hs as (Hs1 & Hs2 & Hs3 & Hs4 & Hs5). change (owned p' g) with (owned p g).
      change (cwids_ p') with (cwids_ p). rewrite Hat.
      destruct (handle_exception_cases p g (wg_at p g)) as [->|[(_ & Ha & w & ->)|(_ & Ha & w & ->)]]; [done|..].
      * cbn. rewrite Ha in Hs5. destruct Hs5 as [_ Hs5]. repeat split; try lia. by exists (activated_warps (wg_at p g)).
      * cbn. rewrite Ha in Hs5. destruct Hs5 as [_ Hs5]. by repeat split.
    + intros g. rewrite Hbusy. apply Hu.
  - intros i g Hi Hst Hp Ha. rewrite Hat in *. change (owner p' i) with (owner p i) in Hi.
    pose proof (Hw i) as Hwi. unfold warp_inv in Hwi. rewrite Hi in Hwi. destruct Hwi as [Hb _].
    eapply handle_exception_reports; try done.
    + apply owner_lt in Hi. by rewrite H1 in Hi.
    + unfold new_exception, in_state. change (pending p' i) with (pending p i) in Hp.
      rewrite Hp, bool_decide_true by done. done.
Qed.

(** ** Commands *)

Lemma allowed_intro (ok : warp_state -> bool) cwm c : cwm <> [] -> NoDup cwm ->
  (forall i, i ∈ cwm -> (i < length c)%nat /\ w_stopping (warp_at c i) = false /\ ok (w_state (warp_at c i)) = true) ->
  negb (bool_decide (cwm = [])) && bool_decide (NoDup cwm) &&
  forallb (fun i => (i <? length c)%nat && negb (w_stopping (warp_at c i)) && ok (w_state (warp_at c i))) cwm = true.
Proof.
  intros Hn Hd Hc. rewrite bool_decide_false, bool_decide_true by done. apply andb_true_iff. split; [done|]. apply forallb_forall.
  intros i Hi. apply list_elem_of_In in Hi. destruct (Hc i Hi) as (Hl & -> & ->).
  rewrite (proj2 (Nat.ltb_lt _ _) Hl). done.
Qed.

Definition is_state (st x : warp_state) : bool := bool_decide (x = st).

(** A warp whose termination may be asked for. *)
Definition stoppable (ok : warp_state -> bool) (p : processing) (i : nat) : Prop :=
  (i < length (core_ p))%nat /\ exists g, owner p i = Some g /\ pending p i = false /\
  ok (state_of p i) = true /\ (aborting (wg_at p g) = true \/ state_of p i = WarpException).

Lemma stoppable_runs ok p i : pinv p -> stoppable ok p i -> stopping p i = false /\ state_of p i <> WarpIdle.
Proof.
  intros I (_ & g & Ho & Hp & _). pose proof (i_warp _ I i) as Hw. unfold warp_inv in Hw.
  rewrite Ho, Hp in Hw. naive_solver.
Qed.

(** The state after an accepted Abort or Release. *)
Definition terminated (e : wg_event) (cwm : list nat) (p : processing) : processing :=
  set_pending (set_bits cwm (pending_termination_mask_ p))
    (set_hist (hist p ++ [e]) (set_core (on_warps stop_warp cwm (core_ p)) p)).

Lemma terminated_warp ok e cwm p i : pinv p -> (forall j, j ∈ cwm -> stoppable ok p j) ->
  state_of (terminated e cwm p) i = state_of p i /\
  stopping (terminated e cwm p) i = bool_decide (i ∈ cwm) || stopping p i /\
  pending (terminated e cwm p) i = bool_decide (i ∈ cwm) || pending p i.
Proof.
  intros I Hc. unfold state_of, stopping, pending.
  change (core_ (terminated e cwm p)) with (on_warps stop_warp cwm (core_ p)).
  change (pending_termination_mask_ (terminated e cwm p)) with (set_bits cwm (pending_termination_mask_ p)).
  rewrite warp_at_on by (intros j Hj; apply (Hc j Hj)).
  rewrite nth_set_bits by (intros j Hj; rewrite (i_mask _ I); apply (Hc j Hj)).
  by case_bool_decide.
Qed.

Lemma terminated_inv ok e cwm p : pinv p -> exceptions_handled p -> event_ok e ->
  (forall i, i ∈ cwm -> stoppable ok p i) ->
  pinv (terminated e cwm p) /\ exceptions_handled (terminated e cwm p).
Proof.
  intros I He Hev Hc. pose proof (fun i => terminated_warp ok e cwm p i I Hc) as Ht. split.
  - constructor; try apply I; cbn.
    + rewrite length_on_warps. apply I.
    + unfold set_bits. rewrite length_imap, length_on_warps. apply I.
    + intros i. destruct (Ht i) as (Hst & Hsp & Hpe). pose proof (i_warp _ I i) as Hw. unfold warp_inv in *.
      change (owner (terminated e cwm p) i) with (owner p i). rewrite Hst, Hsp, Hpe.
      case_bool_decide as Hi; [|done]. cbn [orb].
      destruct (Hc i Hi) as (_ & g & Ho & Hp & _ & Ha). rewrite Ho, Hp in *.
      destruct Hw as (Hb & Hs & _). split; [done|]. split; [by split|]. intros Hna.
      change (wg_at (terminated e cwm p) g) with (wg_at p g) in *. destruct Ha as [Ha|Ha]; [congruence|].
      split; [by right|]. by eapply He.
    + apply Forall_app. split; [apply I|]. by constructor.
  - intros i g Ho Hst Hp. destruct (Ht i) as (Hs & _ & Hpe). rewrite Hs in Hst. rewrite Hpe in Hp.
    apply orb_false_iff in Hp as [_ Hp]. by eapply He.
Qed.

Lemma terminated_stoppable ok ok' e cwm p i : pinv p -> (forall j, j ∈ cwm -> stoppable ok p j) ->
  i ∉ cwm -> stoppable ok' p i -> stoppable ok' (terminated e cwm p) i.
Proof.
  intros I Hc Hi (Hl & g & Ho & Hp & Hs & Ha). destruct (terminated_warp ok e cwm p i I Hc) as (Hst & _ & Hpe).
  split; [unfold terminated; cbn; by rewrite length_on_warps|]. exists g.
  rewrite Hst, Hpe, bool_decide_false by done. done.
Qed.

Lemma terminate_cases cmd cwm ok p :
  terminate cmd cwm ok p = p \/
  (cwm <> [] /\ core_apply (cmd cwm) (core_ p) = on_warps stop_warp cwm (core_ p) ->
   cwm <> [] /\ terminate cmd cwm ok p = terminated (EvCommand (cmd cwm) (command_allowed (cmd cwm) (core_ p))) cwm p).
Proof.
  unfold terminate. destruct cwm as [|i cwm]; [by left|]. destruct ok; cbn [TryWarpCtrlCommand]; [|by left].
  right. intros [_ Ha]. split; [done|]. unfold TryWarpCtrlCommand, terminated. cbn [fst snd]. by rewrite Ha.
Qed.

Lemma IssueTerminations_inv a_ok r_ok p : pinv p -> exceptions_handled p -> pinv (IssueTerminations a_ok r_ok p).
Proof.
  intros I He. unfold IssueTerminations.
  set (ab := fun x => is_state WarpActive x || is_state WarpBarrier x).
  assert (Ha : forall i, i ∈ mask_of (to_abort p) p -> stoppable ab p i /\ state_of p i <> WarpException).
  { intros i [Hl Hi]%elem_mask_of. unfold to_abort in Hi. destruct (owner p i) as [g|] eqn:Eo; [|done]. bprop.
    unfold in_state in *. rewrite bool_decide_eq_false in *. split; [|done].
    split; [done|]. exists g. unfold ab, is_state. auto 6. }
  assert (Hr : forall i, i ∈ mask_of (to_release p) p -> stoppable (is_state WarpException) p i).
  { intros i [Hl Hi]%elem_mask_of. unfold to_release in Hi. destruct (owner p i) as [g|] eqn:Eo; [|done]. bprop.
    unfold in_state in *. split; [done|]. exists g. unfold is_state. rewrite bool_decide_eq_true in *. auto 6. }
  assert (Hdis : forall i, i ∈ mask_of (to_release p) p -> i ∉ mask_of (to_abort p) p).
  { intros i Hi Hj. apply Ha in Hj as [_ Hj]. apply Hr in Hi as (_ & g & _ & _ & Hs & _).
    unfold is_state in Hs. by rewrite bool_decide_eq_true in Hs. }
  pose proof (NoDup_mask_of (to_abort p) p) as Hd1. pose proof (NoDup_mask_of (to_release p) p) as Hd2.
  generalize dependent (mask_of (to_abort p) p). intros cwm Ha Hdis Hd1.
  generalize dependent (mask_of (to_release p) p). intros rel Hr Hdis Hd2.
  assert (Hrel : forall p', pinv p' -> exceptions_handled p' ->
            (forall i, i ∈ rel -> stoppable (is_state WarpException) p' i) -> pinv (terminate Release rel r_ok p')).
  { intros p' I' He' Hr'. destruct (terminate_cases Release rel r_ok p') as [->|Ht]; [done|].
    destruct (decide (rel = [])) as [->|Hn]; [done|]. destruct (Ht (conj Hn eq_refl)) as [_ ->].
    apply (terminated_inv (is_state WarpException)); try done. cbn. apply (allowed_intro (is_state WarpException)); [done..|].
    intros i Hi. destruct (Hr' i Hi) as (? & g & ? & ? & ? & ?). split; [done|]. split; [|done].
    by eapply stoppable_runs, Hr'. }
  destruct (terminate_cases Abort_ cwm a_ok p) as [->|Ht]; [by apply Hrel|].
  destruct (decide (cwm = [])) as [->|Hn]; [by apply Hrel|]. destruct (Ht (conj Hn eq_refl)) as [_ ->].
  assert (Hev : event_ok (EvCommand (Abort_ cwm) (command_allowed (Abort_ cwm) (core_ p)))).
  { cbn. apply (allowed_intro ab); [done..|]. intros i Hi. destruct (Ha i Hi) as [(? & g & ? & ? & ? & ?) _].
    split; [done|]. split; [|done]. eapply stoppable_runs, (proj1 (Ha i Hi)). done. }
  destruct (terminated_inv ab _ cwm p I He Hev (fun i Hi => proj1 (Ha i Hi))) as [I' He'].
  apply Hrel; [done..|]. intros i Hi. eapply (terminated_stoppable ab); auto. intros j Hj. by apply Ha.
Qed.

(** ** Moves of the core *)

(** What may happen to a warp: it drains, or a running one changes its state. *)
Definition warp_move (w w' : warp) : Prop :=
  w' = w \/ (w_stopping w = true /\ w_state w' = WarpIdle /\ w_stopping w' = false) \/
  (w_state w <> WarpIdle /\ w_stopping w = false /\ w_state w' <> WarpIdle /\ w_stopping w' = false).

Lemma core_change_inv p c' : pinv p -> length c' = length (core_ p) ->
  (forall i, warp_move (warp_at (core_ p) i) (warp_at c' i)) -> pinv (set_core c' p).
Proof.
  intros I Hl Hm. constructor; try apply I; cbn; [rewrite Hl; apply I..|].
  intros i. pose proof (i_warp _ I i) as Hw. specialize (Hm i). unfold warp_inv, state_of, stopping in *.
  change (owner (set_core c' p) i) with (owner p i). change (pending (set_core c' p) i) with (pending p i).
  change (core_ (set_core c' p)) with c'. destruct Hm as [->|[(H1 & H2 & H3)|(H1 & H2 & H3 & H4)]]; [done|..].
  - rewrite H2, H3. destruct (owner p i); [|naive_solver congruence]. destruct (pending p i); [|naive_solver congruence].
    destruct Hw as (? & _ & Hr). split; [done|]. split; [done|]. intros Ha. split; [by left|]. by apply Hr.
  - destruct (owner p i); [|naive_solver congruence].
    destruct (pending p i); [|naive_solver congruence]. destruct Hw as (_ & [_ Hw] & _). specialize (Hw H2). congruence.
Qed.

Lemma drain_move w : warp_move w (drain_warp w).
Proof. unfold warp_move, drain_warp. destruct (w_stopping w) eqn:E; [right; left; done|by left]. Qed.

Lemma drain_inv ws p : pinv p -> pinv (set_core (on_warps drain_warp ws (core_ p)) p).
Proof.
  intros I. apply core_change_inv; [done|apply length_on_warps|]. intros i.
  unfold warp_at, on_warps. rewrite !nth_lookup, list_lookup_imap. destruct (core_ p !! i) as [w|]; cbn; [|by left].
  case_bool_decide; [apply drain_move|by left].
Qed.

Lemma core_step_inv m p : pinv p -> pinv (set_core (core_step m (core_ p)) p).
Proof.
  intros I. apply core_change_inv; [done|destruct m; apply length_alter|]. intros i.
  assert (Ha : forall f j, (forall w, warp_move w (f w)) ->
    warp_move (warp_at (core_ p) i) (warp_at (alter f j (core_ p)) i)).
  { intros f j Hf. unfold warp_at. rewrite !nth_lookup. destruct (decide (i = j)) as [->|Hn].
    - rewrite list_lookup_alter_eq. destruct (core_ p !! j); cbn; [apply Hf|by left].
    - rewrite list_lookup_alter_ne by done. by left. }
  destruct m; apply Ha; intros w; [..|apply drain_move]; bcase; try by left.
  all: rewrite bool_decide_eq_true in *; right; right; split; [congruence|done].
Qed.

(** ** Stopped warps *)

(** The state after warp [i] of slot [g] has ended. *)
Definition ended_warp (g i : nat) (p : processing) : processing :=
  update_wg (fun info => set_counts (activated_warps info) (completed_warps info + 1) info) g
    (set_ids (<[i := None]> (processing_wg_ids_ p))
       (set_pending (<[i := false]> (pending_termination_mask_ p)) p)).

Lemma end_warp_cases g i p : end_warp g i p = p \/
  (owner p i = Some g /\ state_of p i = WarpIdle /\ pending p i = true /\ end_warp g i p = ended_warp g i p).
Proof.
  unfold end_warp, owned_by, in_state. bcase; [right|by left]. rewrite !bool_decide_eq_true in *. done.
Qed.

Lemma ended_warp_at g i p h : busy (wg_at p g) = true ->
  wg_at (ended_warp g i p) h = if bool_decide (h = g)
    then set_counts (activated_warps (wg_at p g)) (completed_warps (wg_at p g) + 1) (wg_at p g) else wg_at p h.
Proof. intros Hb. unfold ended_warp. by rewrite wg_at_update_busy. Qed.

Lemma ended_warp_inv g i p : pinv p -> owner p i = Some g -> state_of p i = WarpIdle -> pending p i = true ->
  pinv (ended_warp g i p).
Proof.
  intros I Ho Hs Hpe. pose proof (i_warp _ I i) as Hwi. unfold warp_inv in Hwi. rewrite Ho, Hpe in Hwi.
  destruct Hwi as (Hb & [Hst _] & Hrep). specialize (Hst Hs).
  pose proof (fun h => ended_warp_at g i p h Hb) as Hat.
  pose proof (owner_lt _ _ _ Ho) as Hl1. pose proof (pending_lt _ _ Hpe) as Hl2.
  assert (Hbz : forall h, busy (wg_at (ended_warp g i p) h) = busy (wg_at p h)).
  { intros h. rewrite Hat. case_bool_decide; by subst. }
  constructor; try apply I.
  - cbn. rewrite length_insert. apply I.
  - cbn. rewrite length_insert. apply I.
  - cbn. rewrite length_alter. apply I.
  - intros j. unfold warp_inv. change (state_of (ended_warp g i p) j) with (state_of p j).
    change (stopping (ended_warp g i p) j) with (stopping p j).
    assert (owner (ended_warp g i p) j = if decide (j = i) then None else owner p j) as ->
      by (by apply nth_insert).
    assert (pending (ended_warp g i p) j = if decide (j = i) then false else pending p j) as ->
      by (by apply nth_insert).
    case_decide as Hj; [subst j; done|]. pose proof (i_warp _ I j) as Hw. unfold warp_inv in Hw.
    destruct (owner p j) as [h|]; [|done]. rewrite Hbz, Hat. case_bool_decide as Hh; [subst h|done]. done.
  - intros h. unfold slot_inv. cbv zeta. rewrite Hbz. intros Hbh. pose proof (i_slot _ I h Hbh) as Hsl.
    change (cwids_ (ended_warp g i p)) with (cwids_ p).
    assert (owned (ended_warp g i p) h = owned p h - if decide (h = g) then 1 else 0) as ->.
    { unfold owned. change (processing_wg_ids_ (ended_warp g i p)) with (<[i := None]> (processing_wg_ids_ p)).
      pose proof (nth_lookup_lt _ _ None Hl1) as Hx.
      change (nth i (processing_wg_ids_ p) None) with (owner p i) in Hx. rewrite Ho in Hx.
      pose proof (countb_insert (is_owner h) _ _ _ None Hx) as Hc. rewrite is_owner_None, is_owner_Some in Hc.
      destruct (decide (h = g)) as [->|Hd]; [rewrite bool_decide_true in Hc by done|
        rewrite bool_decide_false in Hc by done]; cbv iota in Hc; lia. }
    rewrite Hat. case_bool_decide as Hh.
    + subst h. rewrite decide_True by done. cbn. destruct Hsl as (? & ? & ? & ? & Hr). repeat split; try lia.
      destruct (aborting (wg_at p g)); [done|]. destruct Hr as [_ Hr]. split; [|done]. intros _. by apply Hrep.
    + rewrite decide_False by done. rewrite Z.sub_0_r. done.
  - intros h. rewrite Hbz. apply I.
Qed.

(** What a slot keeps while the warps of another one end. *)
Definition slots_kept (g : nat) (p p' : processing) : Prop :=
  (forall h, h <> g -> wg_at p' h = wg_at p h) /\ length (processing_wg_info_ p') = length (processing_wg_info_ p) /\
  busy (wg_at p' g) = busy (wg_at p g) /\ length (core_ p') = length (core_ p).

Lemma end_warps_inv g n p : pinv p -> busy (wg_at p g) = true ->
  pinv (for_range (end_warp g) 0 n p) /\ slots_kept g p (for_range (end_warp g) 0 n p).
Proof.
  intros I Hb. apply (for_range_ind (fun _ p' => pinv p' /\ slots_kept g p p')).
  - split; [done|]. by repeat split.
  - intros j p' _ (I' & H1 & H2 & H3 & H4). destruct (end_warp_cases g j p') as [->|(Ho & Hs & Hp & ->)]; [by unfold slots_kept|].
    split; [by apply ended_warp_inv|]. assert (Hb' : busy (wg_at p' g) = true) by congruence.
    repeat split.
    + intros h Hh. rewrite ended_warp_at by done. rewrite bool_decide_false by done. by apply H1.
    + cbn. by rewrite length_alter.
    + rewrite ended_warp_at by done. by rewrite bool_decide_true.
    + done.
Qed.

(** The work-groups of the retire list are complete, and all complete ones are on it. *)
Definition retire_ok (p : processing) (l : list (nat * WGDequeueInfo)) : Prop :=
  NoDup l.*1 /\ forall g q, (g, q) ∈ l ->
    busy (wg_at p g) = true /\ completed_warps (wg_at p g) = warp_count (wg_at p g) /\ q = completion_info (wg_at p g).
Definition retire_all (n : nat) (p : processing) (l : list (nat * WGDequeueInfo)) : Prop :=
  forall g, (g < n)%nat -> busy (wg_at p g) = true -> completed_warps (wg_at p g) = warp_count (wg_at p g) -> g ∈ l.*1.

Lemma HandleStoppedWarps_inv p : pinv p ->
  let '(p', l) := HandleStoppedWarps p in
  pinv p' /\ length (processing_wg_info_ p') = length (processing_wg_info_ p) /\
  retire_ok p' l /\ retire_all (length (processing_wg_info_ p')) p' l.
Proof.
  intros I. unfold HandleStoppedWarps. set (L := length (processing_wg_info_ p)).
  assert (H : let '(p', l) := for_range handle_stopped_wg 0 L (p, []) in
    pinv p' /\ length (processing_wg_info_ p') = L /\ retire_ok p' l /\ retire_all L p' l /\
    forall g q, (g, q) ∈ l -> (g < L)%nat).
  { apply (for_range_ind (fun k st => let '(p', l) := st in
      pinv p' /\ length (processing_wg_info_ p') = L /\ retire_ok p' l /\ retire_all k p' l /\
      forall g q, (g, q) ∈ l -> (g < k)%nat) handle_stopped_wg 0 L (p, [])).
    - split; [done|]. split; [done|]. split; [|split; [intros g Hg; lia|]].
      + split; [constructor|]. intros g q Hg. by apply not_elem_of_nil in Hg.
      + intros g q Hg. by apply not_elem_of_nil in Hg.
    - intros g [p' l] Hg (I' & HL & [Hnd Hok] & Hall & Hlt). unfold handle_stopped_wg.
      destruct (busy (wg_at p' g)) eqn:Hb; cbn [negb].
      2: { split; [done|]. split; [done|]. split; [done|]. split; [|intros h q Hq; apply Hlt in Hq; lia].
           intros h Hh Hbh. destruct (decide (h = g)); [congruence|]. apply Hall; [lia|done]. }
      destruct (end_warps_inv g (length (core_ p')) p' I' Hb) as (I2 & H1 & H2 & H3 & H4).
      set (p2 := for_range _ _ _ _) in *.
      assert (Hkeep : forall h q, (h, q) ∈ l -> busy (wg_at p2 h) = true /\
        completed_warps (wg_at p2 h) = warp_count (wg_at p2 h) /\ q = completion_info (wg_at p2 h)).
      { intros h q Hq. rewrite H1; [by apply Hok|]. apply Hlt in Hq. lia. }
      assert (Hrest : forall h, (h < g)%nat -> busy (wg_at p2 h) = true ->
        completed_warps (wg_at p2 h) = warp_count (wg_at p2 h) -> h ∈ l.*1).
      { intros h Hh. rewrite H1 by lia. by apply Hall. }
      destruct (completed_warps (wg_at p2 g) =? warp_count (wg_at p2 g)) eqn:Ec; bprop;
        (split; [done|]); (split; [lia|]).
      + split; [split|split].
        * rewrite fmap_app. apply NoDup_app. split; [done|]. split; [|apply NoDup_singleton].
          intros h Hh Hh'. apply list_elem_of_singleton in Hh'. cbn in Hh'. subst h.
          apply list_elem_of_fmap in Hh as ([h q] & -> & Hq). apply Hlt in Hq. cbn in *. lia.
        * intros h q Hq. apply elem_of_app in Hq as [Hq|Hq]; [by apply Hkeep|].
          apply list_elem_of_singleton in Hq. simplify_eq. rewrite H3. done.
        * intros h Hh Hbh Hch. rewrite fmap_app. apply elem_of_app. destruct (decide (h = g)) as [->|]; [right; by left|].
          left. apply Hrest; try done. lia.
        * intros h q Hq. apply elem_of_app in Hq as [Hq|Hq]; [apply Hlt in Hq; lia|].
          apply list_elem_of_singleton in Hq. simplify_eq. lia.
      + split; [done|split].
        * intros h Hh Hbh Hch. destruct (decide (h = g)) as [->|]; [congruence|]. apply Hrest; try done. lia.
        * intros h q Hq. apply Hlt in Hq. lia. }
  destruct (for_range handle_stopped_wg 0 L (p, [])) as [p' l]. destruct H as (? & HL & ? & ? & _). by rewrite HL.
Qed.

(** ** Retirement *)

Lemma owned_pos p i g : owner p i = Some g -> 0 < owned p g.
Proof.
  intros Ho. unfold owned. pose proof (owner_lt _ _ _ Ho) as Hl. pose proof (nth_lookup_lt _ _ None Hl) as Hx.
  change (nth i (processing_wg_ids_ p) None) with (owner p i) in Hx. rewrite Ho in Hx.
  pose proof (countb_insert (is_owner g) _ _ _ None Hx) as Hc. rewrite is_owner_None, is_owner_Some in Hc.
  rewrite bool_decide_true in Hc by done. cbv iota in Hc. lia.
Qed.

Lemma complete_owns_nothing p g i : pinv p -> busy (wg_at p g) = true ->
  completed_warps (wg_at p g) = warp_count (wg_at p g) -> owner p i <> Some g.
Proof.
  intros I Hb Hc Ho. apply owned_pos in Ho. destruct (i_slot _ I g Hb) as (? & ? & _). lia.
Qed.

Lemma retire_slot_at g q p h : busy (wg_at p g) = true ->
  wg_at (retire_slot g q p) h = if bool_decide (h = g) then set_vacant (wg_at p g) else wg_at p h.
Proof. intros Hb. transitivity (wg_at (update_wg set_vacant g p) h); [done|]. by apply wg_at_update_busy. Qed.

Lemma elem_of_remove g l h : h ∈ List.filter (fun x => negb (x =? g)%nat) l <-> h ∈ l /\ h <> g.
Proof. rewrite !list_elem_of_In, filter_In. rewrite negb_true_iff, Nat.eqb_neq. done. Qed.

Lemma length_remove g l : NoDup l -> g ∈ l ->
  S (length (List.filter (fun x => negb (x =? g)%nat) l)) = length l.
Proof.
  induction 1 as [|x l Hx Hd IH]; intros Hg; [by apply not_elem_of_nil in Hg|]. cbn.
  destruct (x =? g)%nat eqn:E; bprop; cbn.
  - subst x. f_equal. clear IH Hg Hd. induction l as [|y l IH]; [done|]. cbn.
    apply not_elem_of_cons in Hx as [Hy Hx]. rewrite (proj2 (Nat.eqb_neq y g)) by done. cbn. by rewrite IH.
  - apply elem_of_cons in Hg as [->|Hg]; [done|]. by rewrite IH.
Qed.

Lemma retire_slot_inv g p : pinv p -> busy (wg_at p g) = true ->
  completed_warps (wg_at p g) = warp_count (wg_at p g) ->
  pinv (retire_slot g (completion_info (wg_at p g)) p).
Proof.
  intros I Hb Hc. set (q := completion_info _). pose proof (fun h => retire_slot_at g q p h Hb) as Hat.
  assert (Hno : forall i, owner p i <> Some g) by (intros i; by apply complete_owns_nothing).
  assert (Hbz : forall h, busy (wg_at (retire_slot g q p) h) = negb (bool_decide (h = g)) && busy (wg_at p h)).
  { intros h. rewrite Hat. by case_bool_decide. }
  pose proof (i_slot _ I g Hb) as Hsl. cbv zeta in Hsl.
  constructor; try apply I.
  - cbn. rewrite length_alter. apply I.
  - intros i. pose proof (i_warp _ I i) as Hw. unfold warp_inv in *.
    change (owner (retire_slot g q p) i) with (owner p i). change (pending (retire_slot g q p) i) with (pending p i).
    change (state_of (retire_slot g q p) i) with (state_of p i). change (stopping (retire_slot g q p) i) with (stopping p i).
    destruct (owner p i) as [h|] eqn:Eo; [|done]. assert (h <> g) by (intros ->; by eapply Hno).
    rewrite Hat, bool_decide_false by done. done.
  - intros h. unfold slot_inv. cbv zeta. rewrite Hbz. case_bool_decide as Hh; [done|]. intros Hbh.
    pose proof (i_slot _ I h Hbh) as Hs. rewrite Hat, bool_decide_false by done. done.
  - cbn. rewrite (i_count _ I). pose proof (length_remove g _ (i_order _ I) (proj2 (i_used _ I g) Hb)). lia.
  - cbn. apply NoDup_ListNoDup, List.NoDup_filter, NoDup_ListNoDup, I.
  - intros h. rewrite Hbz. unfold retire_slot. cbn [processing_wg_order_ set_slots_used]. rewrite elem_of_remove.
    change (processing_wg_order_ _) with (processing_wg_order_ p). rewrite (i_used _ I h).
    case_bool_decide; cbn; naive_solver.
  - cbn. apply Forall_app. split; [apply I|]. constructor; [|done]. cbn.
    destruct Hsl as (Ho & Hle & H0 & Hw & Hr). split; [done|]. split; [done|]. split; [done|].
    destruct (aborting (wg_at p g)) eqn:Ea.
    + destruct Hr as ((? & ? & ?) & _ & k & ? & Hk). repeat (split; [done|]). right. repeat (split; [done|]). by exists k.
    + destruct Hr as (Hr & Hk). destruct Hr as (? & ? & ?); [lia|]. repeat (split; [done|]). left.
      repeat (split; [done|]). rewrite Hk. f_equal. unfold owned in Ho. lia.
Qed.

Lemma retire_keeps g q l p : NoDup (((g, q) :: l).*1) -> retire_ok p l -> busy (wg_at p g) = true ->
  retire_ok (retire_slot g q p) l.
Proof.
  intros Hd [_ Hl] Hb. apply NoDup_cons in Hd as [Hg Hd]. split; [done|]. intros h q' Hq.
  assert (h <> g). { intros ->. apply Hg, list_elem_of_fmap. by exists (g, q'). }
  rewrite retire_slot_at by done. rewrite bool_decide_false by done. by apply Hl.
Qed.

(** ** Barriers *)

Lemma set_hist_inv e p : pinv p -> event_ok e -> pinv (set_hist (hist p ++ [e]) p).
Proof. intros I He. constructor; try apply I. apply Forall_app. split; [apply I|by constructor]. Qed.

Lemma divergence_inv g p : pinv p -> pinv (update_wg set_divergence g p).
Proof.
  intros I. assert (Hat : forall h, wg_at (update_wg set_divergence g p) h = wg_at p h \/
    wg_at (update_wg set_divergence g p) h = set_divergence (wg_at p h)).
  { intros h. rewrite wg_at_update. case_bool_decide as H; [|by left]. destruct H as [-> _]. by right. }
  constructor; try apply I.
  - cbn. rewrite length_alter. apply I.
  - intros i. pose proof (i_warp _ I i) as Hw. unfold warp_inv in *.
    change (owner (update_wg set_divergence g p) i) with (owner p i). destruct (owner p i) as [h|]; [|done].
    destruct (Hat h) as [->| ->]; done.
  - intros h. pose proof (i_slot _ I h) as Hs. unfold slot_inv in *. cbv zeta in *. destruct (Hat h) as [->| ->]; done.
  - intros h. pose proof (i_used _ I h) as Hu. destruct (Hat h) as [->| ->]; done.
Qed.

(** A warp that waits at the barrier of a running work-group. *)
Definition at_barrier (p : processing) (g i : nat) : Prop :=
  (i < length (core_ p))%nat /\ state_of p i = WarpBarrier /\ owner p i = Some g.

Lemma elem_barrier_warps p g i : i ∈ barrier_warps p g <-> at_barrier p g i.
Proof.
  unfold barrier_warps, at_barrier. rewrite elem_mask_of. unfold in_state, owned_by, state_of.
  rewrite andb_true_iff, !bool_decide_eq_true. done.
Qed.

Definition resumable (p : processing) (i : nat) : Prop :=
  exists g, at_barrier p g i /\ busy (wg_at p g) = true /\ aborting (wg_at p g) = false /\
  Z.of_nat (length (barrier_warps p g)) = warp_count (wg_at p g).

Lemma divergence_resumable g p i : resumable (update_wg set_divergence g p) i <-> resumable p i.
Proof.
  assert (Hat : forall h, let wg := wg_at (update_wg set_divergence g p) h in
    busy wg = busy (wg_at p h) /\ aborting wg = aborting (wg_at p h) /\ warp_count wg = warp_count (wg_at p h)).
  { intros h. rewrite wg_at_update. case_bool_decide as H; [|done]. by destruct H as [-> _]. }
  unfold resumable. split; intros (h & H1 & H2 & H3 & H4); destruct (Hat h) as (Ha & Hb & Hc); exists h.
  - rewrite Ha in H2. rewrite Hb in H3. rewrite Hc in H4. done.
  - rewrite Ha, Hb, Hc. done.
Qed.

Lemma barrier_loop_inv gs cwm p : pinv p -> NoDup gs -> NoDup cwm ->
  (forall i, i ∈ cwm -> resumable p i /\ forall g, owner p i = Some g -> g ∉ gs) ->
  match barrier_loop gs cwm p with
  | inl e => exists g, e = BarrierDeadlock g /\ busy (wg_at p g) = true /\ aborting (wg_at p g) = false /\
      0 < completed_warps (wg_at p g) /\
      Z.of_nat (length (barrier_warps p g)) + completed_warps (wg_at p g) = warp_count (wg_at p g)
  | inr (cwm', p') => pinv p' /\ NoDup cwm' /\ forall i, i ∈ cwm' -> resumable p' i
  end.
Proof.
  intros I Hgs. revert cwm p I. induction Hgs as [|g gs Hg Hgs IH]; intros cwm p I Hd Hc; cbn.
  { split; [done|]. split; [done|]. intros i Hi. by apply Hc. }
  assert (Hskip : forall i, i ∈ cwm -> resumable p i /\ forall h, owner p i = Some h -> h ∉ gs).
  { intros i Hi. destruct (Hc i Hi) as [? Ho]. split; [done|]. intros h Hh. apply Ho in Hh.
    by apply not_elem_of_cons in Hh as [_ ?]. }
  destruct (negb (busy (wg_at p g)) || aborting (wg_at p g)) eqn:E1; [by apply IH|]. bprop.
  destruct ((0 <? completed_warps (wg_at p g)) && _) eqn:E2; bprop; [by exists g|].
  destruct (negb (_ =? _)) eqn:E3; bprop; [by apply IH|].
  set (p' := if negb (barrier_divergence_reported (wg_at p g)) && BarrierPCsDiffer p g
             then update_wg set_divergence g p else p).
  assert (Hp' : p' = p \/ p' = update_wg set_divergence g p) by (unfold p'; bcase; auto).
  assert (I' : pinv p') by (destruct Hp' as [->| ->]; [done|by apply divergence_inv]).
  assert (Hres : forall i, resumable p' i <-> resumable p i)
    by (intros i; destruct Hp' as [->| ->]; [done|by apply divergence_resumable]).
  assert (Hown : forall i, owner p' i = owner p i) by (intros i; by destruct Hp' as [->| ->]).
  assert (Hat : forall h, busy (wg_at p' h) = busy (wg_at p h) /\ aborting (wg_at p' h) = aborting (wg_at p h) /\
    completed_warps (wg_at p' h) = completed_warps (wg_at p h) /\ warp_count (wg_at p' h) = warp_count (wg_at p h)).
  { intros h. destruct Hp' as [->| ->]; [done|]. rewrite wg_at_update. case_bool_decide as Hh; [|done]. by destruct Hh as [-> _]. }
  assert (Hbw : forall h, barrier_warps p' h = barrier_warps p h) by (intros h; by destruct Hp' as [->| ->]).
  assert (Hnd : NoDup (cwm ++ barrier_warps p g)).
  { apply NoDup_app. split; [done|]. split; [|apply NoDup_mask_of]. intros i Hi Hb.
    apply elem_barrier_warps in Hb as (_ & _ & Hb). destruct (Hc i Hi) as [_ Ho]. apply (Ho _ Hb). by left. }
  specialize (IH (cwm ++ barrier_warps p g) p' I' Hnd).
  destruct (barrier_loop gs (cwm ++ barrier_warps p g) p') as [e|[cwm' p2]].
  1: destruct IH as (h & -> & Hh);
       [|by destruct (Hat h) as (Ha1 & Ha2 & Ha3 & Ha4); rewrite Ha1, Ha2, Ha3, Ha4, Hbw in Hh; exists h].
  2: apply IH.
  all: intros i Hi; rewrite Hres; apply elem_of_app in Hi as [Hi|Hi];
    [destruct (Hskip i Hi); split; [done|]; intros h; rewrite Hown; auto|].
  all: apply elem_barrier_warps in Hi; split; [by exists g|]; intros h; rewrite Hown;
    destruct Hi as (_ & _ & ->); intros [= <-]; done.
Qed.

(** The counts of the work-groups are the same. *)
Definition same_counts (p p' : processing) : Prop := forall h,
  busy (wg_at p' h) = busy (wg_at p h) /\ aborting (wg_at p' h) = aborting (wg_at p h) /\
  completed_warps (wg_at p' h) = completed_warps (wg_at p h) /\ warp_count (wg_at p' h) = warp_count (wg_at p h) /\
  wg_info_ptr (wg_at p' h) = wg_info_ptr (wg_at p h).

Lemma barrier_loop_same gs cwm p cwm' p' : barrier_loop gs cwm p = inr (cwm', p') ->
  same_counts p p' /\ processing_wg_order_ p' = processing_wg_order_ p.
Proof.
  revert cwm p. induction gs as [|g gs IH]; intros cwm p; cbn; [by intros [= <- <-]|].
  repeat (bcase; [first [by apply IH|done]|]). intros Hl. apply IH in Hl as [Hl ->]. split; [|by bcase].
  intros h. destruct (Hl h) as (-> & -> & -> & -> & ->). bcase; [|done]. rewrite wg_at_update.
  case_bool_decide as Hh; [|done]. by destruct Hh as [-> _].
Qed.

Lemma HandleBarrierWarps_inv ok p : pinv p ->
  match HandleBarrierWarps ok p with
  | inl e => exists g, e = BarrierDeadlock g /\ busy (wg_at p g) = true /\ aborting (wg_at p g) = false /\
      0 < completed_warps (wg_at p g) /\
      Z.of_nat (length (barrier_warps p g)) + completed_warps (wg_at p g) = warp_count (wg_at p g)
  | inr p' => pinv p' /\ same_counts p p' /\ processing_wg_order_ p' = processing_wg_order_ p
  end.
Proof.
  intros I. unfold HandleBarrierWarps. destruct (mask_of (in_state WarpBarrier p) p); [by unfold same_counts|].
  pose proof (barrier_loop_inv (seq 0 (length (processing_wg_info_ p))) [] p I) as H.
  pose proof (barrier_loop_same (seq 0 (length (processing_wg_info_ p))) [] p) as Hsame.
  destruct (barrier_loop (seq 0 (length (processing_wg_info_ p))) [] p) as [e|[cwm p1]].
  - apply H; [apply NoDup_seq|constructor|]. intros i Hi. by apply not_elem_of_nil in Hi.
  - destruct H as (I1 & Hd & Hr); [apply NoDup_seq|constructor|intros i Hi; by apply not_elem_of_nil in Hi|].
    destruct (Hsame _ _ eq_refl) as [Hs Ho]. destruct cwm as [|x cwm']; [done|]. set (cwm := x :: cwm') in *.
    destruct ok; [|done]. split; [|done]. cbn [TryWarpCtrlCommand snd]. apply (set_hist_inv _ (set_core _ p1)).
    + assert (Hrw : forall i, i ∈ cwm -> (i < length (core_ p1))%nat /\ state_of p1 i = WarpBarrier /\ stopping p1 i = false).
      { intros i Hi. destruct (Hr i Hi) as (g & (Hl & Hst & Ho') & _ & Ha & _). split; [done|]. split; [done|].
        pose proof (i_warp _ I1 i) as Hw. unfold warp_inv in Hw. rewrite Ho' in Hw. destruct Hw as (_ & Hw).
        destruct (pending p1 i); [|by destruct Hw]. destruct Hw as (_ & Hw). destruct (Hw Ha) as ([|] & _); congruence. }
      apply core_change_inv; [done|apply length_on_warps|]. intros i. cbn [core_apply].
      rewrite warp_at_on by (intros j Hj; by apply Hrw). case_bool_decide as Hi; [|by left].
      destruct (Hrw i Hi) as (_ & Hst & Hsp). right; right. unfold state_of, stopping in *. cbn.
      split; [congruence|done].
    + cbn [event_ok command_allowed]. apply (allowed_intro (is_state WarpBarrier)); [done..|].
      intros i Hi. destruct (Hr i Hi) as (g & (Hl & Hst & Ho') & _ & Ha & _). split; [done|].
      pose proof (i_warp _ I1 i) as Hw. unfold warp_inv in Hw. rewrite Ho' in Hw. destruct Hw as (_ & Hw).
      destruct (pending p1 i).
      * destruct Hw as (_ & Hw). destruct (Hw Ha) as ([|] & _); congruence.
      * destruct Hw as [_ Hsp]. split; [done|]. unfold is_state. by apply bool_decide_eq_true.
Qed.

(** ** Activation *)

Lemma elem_free_warps p i : i ∈ free_warps p ->
  (i < length (core_ p))%nat /\ state_of p i = WarpIdle /\ owner p i = None.
Proof.
  intros [Hl Hi]%elem_mask_of. apply andb_true_iff in Hi as [H1 H2]. unfold in_state in H1.
  rewrite !bool_decide_eq_true in *. done.
Qed.

(** The state after an accepted Activate of the warps [cwm] for slot [g]. *)
Definition activate (g : nat) (cwm : list nat) (pc ptr base : Z) (p : processing) : processing :=
  let cmd := Activate cwm pc ptr base in
  let p := set_hist (hist p ++ [EvCommand cmd (command_allowed cmd (core_ p))]) (set_core (core_apply cmd (core_ p)) p) in
  let p := note_cwids g (Activate cwm pc ptr base) p in
  let p := update_wg (fun info =>
    set_counts (activated_warps info + Z.of_nat (length cwm)) (completed_warps info) info) g p in
  set_ids (own_warps cwm g (processing_wg_ids_ p)) p.

Lemma activate_at g cwm pc ptr base p h : busy (wg_at p g) = true ->
  wg_at (activate g cwm pc ptr base p) h = if bool_decide (h = g)
    then set_counts (activated_warps (wg_at p g) + Z.of_nat (length cwm)) (completed_warps (wg_at p g)) (wg_at p g)
    else wg_at p h.
Proof.
  intros Hb. transitivity (wg_at (update_wg (fun info =>
    set_counts (activated_warps info + Z.of_nat (length cwm)) (completed_warps info) info) g p) h); [done|].
  by rewrite wg_at_update_busy.
Qed.

Lemma numbers_app a n : 0 <= a ->
  numbers a ++ ((fun j => a + Z.of_nat j) <$> seq 0 n) = numbers (a + Z.of_nat n).
Proof.
  intros Ha. unfold numbers. replace (Z.to_nat (a + Z.of_nat n)) with (Z.to_nat a + n)%nat by lia.
  rewrite seq_app, fmap_app. f_equal.
  replace (seq (0 + Z.to_nat a) n) with (Nat.add (Z.to_nat a) <$> seq 0 n) by (rewrite fmap_add_seq; f_equal; lia).
  rewrite <- list_fmap_compose.
  apply list_fmap_ext. intros i x _. cbn. lia.
Qed.

Lemma activate_inv g cwm pc ptr p : pinv p -> busy (wg_at p g) = true -> aborting (wg_at p g) = false ->
  cwm <> [] -> NoDup cwm -> (forall i, i ∈ cwm -> i ∈ free_warps p) ->
  activated_warps (wg_at p g) + Z.of_nat (length cwm) <= warp_count (wg_at p g) ->
  pinv (activate g cwm pc ptr (activated_warps (wg_at p g)) p).
Proof.
  intros I Hb Hna Hne Hd Hf Hle. set (base := activated_warps (wg_at p g)).
  pose proof (fun h => activate_at g cwm pc ptr base p h Hb) as Hat.
  assert (Hbz : forall h, busy (wg_at (activate g cwm pc ptr base p) h) = busy (wg_at p h)).
  { intros h. rewrite Hat. case_bool_decide; by subst. }
  assert (Hfr : forall i, i ∈ cwm -> (i < length (core_ p))%nat /\ state_of p i = WarpIdle /\ owner p i = None)
    by (intros i Hi; by apply elem_free_warps, Hf).
  assert (Hw0 : forall i, i ∈ cwm -> pending p i = false /\ stopping p i = false).
  { intros i Hi. destruct (Hfr i Hi) as (_ & _ & Ho). pose proof (i_warp _ I i) as Hw. unfold warp_inv in Hw.
    rewrite Ho in Hw. naive_solver. }
  assert (Hnone : forall i, i ∈ cwm -> processing_wg_ids_ p !! i = Some None).
  { intros i Hi. destruct (Hfr i Hi) as (Hl & _ & Ho). rewrite <- (i_ids _ I) in Hl.
    rewrite (nth_lookup_lt _ _ None Hl). f_equal. exact Ho. }
  constructor; try apply I.
  - cbn. unfold own_warps. rewrite length_imap, length_on_warps. apply I.
  - cbn. rewrite length_on_warps. apply I.
  - cbn. rewrite !length_alter. apply I.
  - intros i. unfold warp_inv, state_of, stopping.
    change (core_ (activate g cwm pc ptr base p)) with (on_warps (set_w_state WarpActive) cwm (core_ p)).
    rewrite warp_at_on by (intros j Hj; by apply Hfr).
    change (pending (activate g cwm pc ptr base p) i) with (pending p i).
    assert (owner (activate g cwm pc ptr base p) i = if bool_decide (i ∈ cwm) then Some g else owner p i) as ->.
    { unfold owner. change (processing_wg_ids_ (activate g cwm pc ptr base p)) with (own_warps cwm g (processing_wg_ids_ p)).
      apply nth_own_warps. intros j Hj. rewrite (i_ids _ I). by apply Hfr. }
    case_bool_decide as Hi.
    + destruct (Hw0 i Hi) as [-> Hs]. rewrite Hbz. split; [done|]. cbn. split; [done|]. exact Hs.
    + pose proof (i_warp _ I i) as Hw. unfold warp_inv in Hw. destruct (owner p i) as [h|]; [|done].
      rewrite Hbz, Hat. case_bool_decide as Hh; [|done]. subst h. done.
  - intros h. unfold slot_inv. cbv zeta. rewrite Hbz. intros Hbh. pose proof (i_slot _ I h Hbh) as Hs. cbv zeta in Hs.
    assert (owned (activate g cwm pc ptr base p) h =
            owned p h + if bool_decide (h = g) then Z.of_nat (length cwm) else 0) as ->.
    { unfold owned. change (processing_wg_ids_ (activate g cwm pc ptr base p)) with (own_warps cwm g (processing_wg_ids_ p)).
      rewrite countb_own_warps by done. case_bool_decide; lia. }
    change (cwids_ (activate g cwm pc ptr base p)) with
      (alter (fun l => l ++ ((fun j => base + Z.of_nat j) <$> seq 0 (length cwm))) g (cwids_ p)).
    rewrite nth_lookup, Hat. case_bool_decide as Hh.
    + subst h. rewrite list_lookup_alter_eq. cbn. rewrite Hna in Hs |- *. destruct Hs as (H1 & H2 & H3 & H4 & H5 & H6).
      split; [lia|]. split; [lia|]. split; [lia|]. split; [lia|]. split; [exact H5|].
      pose proof (busy_lt _ _ Hb) as Hl. rewrite <- (i_cwids _ I) in Hl.
      rewrite (nth_lookup_lt _ _ [] Hl). cbn. rewrite H6. apply numbers_app.
      pose proof (Zle_0_nat (countb (is_owner g) (processing_wg_ids_ p))). unfold owned in H1. unfold base. lia.
    + rewrite list_lookup_alter_ne by done. rewrite Z.add_0_r, <- nth_lookup. done.
  - intros h. rewrite Hbz. apply I.
  - change (hist (activate g cwm pc ptr base p)) with (hist p ++ [EvCommand (Activate cwm pc ptr base)
      (command_allowed (Activate cwm pc ptr base) (core_ p))]).
    apply Forall_app. split; [apply I|]. constructor; [|done]. cbn [event_ok command_allowed].
    apply (allowed_intro (is_state WarpIdle)); [done..|]. intros i Hi. destruct (Hfr i Hi) as (Hl & Hst & _).
    split; [done|]. split; [by apply Hw0|]. unfold is_state. by apply bool_decide_eq_true.
Qed.

(** No work-group is complete and still in its slot. *)
Definition none_complete (p : processing) : Prop := forall g,
  busy (wg_at p g) = true -> completed_warps (wg_at p g) <> warp_count (wg_at p g).

(** The work-groups in the slots, by their info pointers. *)
Definition resident (p : processing) : list Z := (fun g => wg_info_ptr (wg_at p g)) <$> processing_wg_order_ p.

Lemma resident_same p p' : same_counts p p' -> processing_wg_order_ p' = processing_wg_order_ p ->
  resident p' = resident p.
Proof. intros Hs Ho. unfold resident. rewrite Ho. apply list_fmap_ext. intros i g _. apply Hs. Qed.

Lemma none_complete_same p p' : same_counts p p' -> none_complete p -> none_complete p'.
Proof. intros Hs Hn g. destruct (Hs g) as (-> & _ & -> & -> & _). apply Hn. Qed.

Lemma activate_same g cwm pc ptr base p : busy (wg_at p g) = true -> same_counts p (activate g cwm pc ptr base p).
Proof. intros Hb h. rewrite activate_at by done. case_bool_decide as Hh; [by subst h|done]. Qed.

Lemma take_free n p i : i ∈ take n (free_warps p) -> i ∈ free_warps p.
Proof. intros Hi. rewrite <- (take_drop n (free_warps p)). apply elem_of_app. by left. Qed.
Lemma NoDup_take_free n p : NoDup (take n (free_warps p)).
Proof. pose proof (NoDup_mask_of (fun i => in_state WarpIdle p i && bool_decide (owner p i = None)) p) as H.
  fold (free_warps p) in H. rewrite <- (take_drop n (free_warps p)) in H. by apply NoDup_app in H as [? _]. Qed.

Lemma DispatchRemainingWarps_inv ok p : pinv p ->
  pinv (DispatchRemainingWarps ok p) /\ same_counts p (DispatchRemainingWarps ok p) /\
  processing_wg_order_ (DispatchRemainingWarps ok p) = processing_wg_order_ p.
Proof.
  intros I. unfold DispatchRemainingWarps.
  destruct (processing_wg_order_ p) as [|x order] eqn:Eor; [by unfold same_counts|].
  destruct (mask_of (in_state WarpIdle p) p); [by unfold same_counts|].
  destruct (List.find _ _) as [g|] eqn:Ef; [|by unfold same_counts].
  apply find_some in Ef as [Hg Hlt]. bprop. rewrite <- Eor in Hg. apply list_elem_of_In, (i_used _ I) in Hg.
  set (cwm := take _ (free_warps p)). destruct cwm as [|y cwm'] eqn:Ec; [by unfold same_counts|]. rewrite <- Ec.
  destruct ok; [|by unfold same_counts]. cbn [TryWarpCtrlCommand negb].
  change (set_ids _ _) with (activate g cwm (wg_kernel_pc (wg_at p g)) (wg_info_ptr (wg_at p g)) (activated_warps (wg_at p g)) p).
  split; [|split; [by apply activate_same|done]].
  pose proof (i_slot _ I g Hg) as Hs. cbv zeta in Hs. apply activate_inv; try done.
  - destruct (aborting (wg_at p g)); [|done]. destruct Hs as (_ & _ & _ & _ & _ & Hs & _). lia.
  - by rewrite Ec.
  - apply NoDup_take_free.
  - intros i. apply take_free.
  - unfold cwm. rewrite length_take. lia.
Qed.

Lemma processing_ext p p' :
  processing_wg_info_ p = processing_wg_info_ p' -> processing_wg_count_ p = processing_wg_count_ p' ->
  processing_wg_ids_ p = processing_wg_ids_ p' -> processing_wg_order_ p = processing_wg_order_ p' ->
  pending_termination_mask_ p = pending_termination_mask_ p' -> core_ p = core_ p' ->
  cwids_ p = cwids_ p' -> hist p = hist p' -> p = p'.
Proof. destruct p, p'; cbn. by intros -> -> -> -> -> -> -> ->. Qed.

Lemma alter_insert {A} (f : A -> A) i x (l : list A) : alter f i (<[i := x]> l) = <[i := f x]> l.
Proof.
  apply list_eq. intros j. destruct (decide (j = i)) as [->|Hn].
  - rewrite list_lookup_alter_eq. destruct (decide (i < length l)%nat).
    + by rewrite !list_lookup_insert_eq.
    + by rewrite !lookup_ge_None_2 by (rewrite ?length_insert; lia).
  - by rewrite list_lookup_alter_ne, !list_lookup_insert_ne.
Qed.

Section sizes.
Context (kWgResidentLimit kThreadsPerWarp kWarpsPerCore : Z) (fifo_size : nat).

(** The number of warps of a work-group, and whether there are any. *)
Definition warps_of (info : WGDispatchInfo) : Z := u32 (di_group_size info + kThreadsPerWarp - 1) / kThreadsPerWarp.
Definition has_warps (info : WGDispatchInfo) : Prop := 0 < warps_of info.

(** The slot of a new work-group before its first Activate. *)
Definition open_slot (g : nat) (info : WGDispatchInfo) (p : processing) : processing :=
  set_slots_used (processing_wg_count_ p + 1) (processing_wg_order_ p ++ [g])
    (set_cwids (<[g := []]> (cwids_ p))
       (set_infos (<[g := mkWG true (di_kernel_pc info) (di_info_ptr info) (di_group_size info) (warps_of info)
                            0 0 false false no_dequeue_info]> (processing_wg_info_ p)) p)).

Lemma open_slot_at g info p h : (g < length (processing_wg_info_ p))%nat ->
  wg_at (open_slot g info p) h = if bool_decide (h = g)
    then mkWG true (di_kernel_pc info) (di_info_ptr info) (di_group_size info) (warps_of info) 0 0 false false no_dequeue_info
    else wg_at p h.
Proof.
  intros Hg. unfold wg_at, open_slot. cbn [processing_wg_info_ set_slots_used set_cwids set_infos].
  rewrite nth_insert by done. by repeat case_decide; case_bool_decide.
Qed.

Lemma vacant_owns_nothing p g i : pinv p -> busy (wg_at p g) = false -> owner p i <> Some g.
Proof. intros I Hb Ho. pose proof (i_warp _ I i) as Hw. unfold warp_inv in Hw. rewrite Ho in Hw. naive_solver congruence. Qed.

Lemma vacant_owned p g : pinv p -> busy (wg_at p g) = false -> owned p g = 0.
Proof.
  intros I Hb. unfold owned. replace (countb _ _) with 0%nat; [done|]. symmetry.
  assert (Hn : forall i, owner p i <> Some g) by (intros i; by apply vacant_owns_nothing). unfold owner in Hn.
  clear -Hn. induction (processing_wg_ids_ p) as [|o l IH]; [done|]. rewrite countb_cons.
  rewrite IH by (intros i; apply (Hn (S i))). specialize (Hn 0%nat). cbn in Hn. unfold is_owner.
  by rewrite bool_decide_false.
Qed.

Lemma open_slot_inv g info p : pinv p -> (g < length (processing_wg_info_ p))%nat -> busy (wg_at p g) = false ->
  0 < warps_of info -> pinv (open_slot g info p).
Proof.
  intros I Hg Hb Hw. pose proof (fun h => open_slot_at g info p h Hg) as Hat.
  assert (Hno : forall i, owner p i <> Some g) by (intros i; by apply vacant_owns_nothing).
  assert (Hbz : forall h, busy (wg_at (open_slot g info p) h) = bool_decide (h = g) || busy (wg_at p h)).
  { intros h. rewrite Hat. by case_bool_decide. }
  assert (Hng : g ∉ processing_wg_order_ p) by (rewrite (i_used _ I g); congruence).
  constructor; try apply I.
  - cbn. rewrite !length_insert. apply I.
  - intros i. pose proof (i_warp _ I i) as Hwi. unfold warp_inv in *.
    change (owner (open_slot g info p) i) with (owner p i). destruct (owner p i) as [h|] eqn:Eo; [|done].
    assert (h <> g) by (intros ->; by eapply Hno). rewrite Hat, bool_decide_false by done. done.
  - intros h. unfold slot_inv. cbv zeta. rewrite Hbz. change (owned (open_slot g info p) h) with (owned p h).
    change (cwids_ (open_slot g info p)) with (<[g := []]> (cwids_ p)).
    rewrite nth_insert by (by rewrite (i_cwids _ I)). rewrite Hat. case_bool_decide as Hh.
    + subst h. intros _. rewrite decide_True by done. cbn. rewrite vacant_owned by done. repeat split; try lia.
    + rewrite decide_False by done. apply (i_slot _ I h).
  - cbn. rewrite (i_count _ I), length_app. cbn. lia.
  - cbn. apply NoDup_app. split; [apply I|]. split; [|apply NoDup_singleton].
    intros x Hx Hx'. apply list_elem_of_singleton in Hx'. by subst x.
  - intros h. rewrite Hbz. unfold open_slot. cbn [processing_wg_order_ set_slots_used].
    rewrite elem_of_app, (i_used _ I h), list_elem_of_singleton. case_bool_decide; cbn; naive_solver.
Qed.

(** The work-group at the head of the queue stays there, gets a slot, or is reported as
    one with more warps than the core. *)
Definition dispatch_ok (fifo : sc_fifo WGDispatchInfo) (p : processing)
    (r : wg_fatal + sc_fifo WGDispatchInfo * processing) : Prop :=
  (exists info rest, r = inl TooManyWarps /\ readable fifo = info :: rest /\ kWarpsPerCore < warps_of info) \/
  exists fifo' p', r = inr (fifo', p') /\ pinv p' /\ none_complete p' /\
    ((fifo' = fifo /\ resident p' = resident p) \/
     exists info rest, readable fifo = info :: rest /\ fifo' = mkFifo rest (written fifo) /\
       resident p' = resident p ++ [di_info_ptr info]).

Lemma DispatchNewWG_inv ok fifo p : pinv p -> none_complete p -> Forall has_warps (readable fifo) ->
  dispatch_ok fifo p (DispatchNewWG kWgResidentLimit kThreadsPerWarp kWarpsPerCore ok fifo p).
Proof.
  intros I Hn Hf. unfold DispatchNewWG.
  assert (Hsame : dispatch_ok fifo p (inr (fifo, p))) by (right; exists fifo, p; auto 6).
  destruct (readable fifo) as [|info rest] eqn:Er; [done|].
  apply Forall_cons in Hf as [Hw1 _]. unfold has_warps in Hw1. destruct (negb (processing_wg_count_ p <? kWgResidentLimit)); [done|].
  destruct (free_warps p) as [|y fr] eqn:Efr; [done|]. destruct (FindVacantProcessingWG p) as [g|] eqn:Ev; [|done].
  destruct ok; [|done]. cbn [negb]. fold (warps_of info). rewrite <- Efr in *.
  destruct (Z.ltb_spec kWarpsPerCore (warps_of info)) as [Hw2|Hw2]; [left; by exists info, rest|right].
  set (cwm := take _ (free_warps p)). destruct cwm as [|z cwm'] eqn:Ec.
  { exfalso. unfold cwm in Ec. rewrite Efr in Ec. destruct (Z.to_nat (warps_of info)) eqn:E; [lia|done]. }
  rewrite <- Ec in *. cbn [TryWarpCtrlCommand negb].
  apply find_first_Some in Ev as (Hg & Hb & _). apply negb_true_iff in Hb.
  pose proof (open_slot_inv g info p I Hg Hb Hw1) as I1. pose proof (fun h => open_slot_at g info p h Hg) as Hat.
  assert (Hbg : wg_at (open_slot g info p) g = mkWG true (di_kernel_pc info) (di_info_ptr info) (di_group_size info)
            (warps_of info) 0 0 false false no_dequeue_info) by (by rewrite Hat, bool_decide_true).
  assert (I2 : pinv (activate g cwm (di_kernel_pc info) (di_info_ptr info) 0 (open_slot g info p))).
  { replace 0 with (activated_warps (wg_at (open_slot g info p) g)) by (by rewrite Hbg).
    apply activate_inv; try done; rewrite ?Hbg; try done.
    - by rewrite Ec.
    - apply NoDup_take_free.
    - intros i. apply take_free.
    - cbn. unfold cwm. rewrite length_take. lia. }
  assert (Hsc : same_counts (open_slot g info p) (activate g cwm (di_kernel_pc info) (di_info_ptr info) 0 (open_slot g info p)))
    by (apply activate_same; by rewrite Hbg).
  eexists _, (activate g cwm (di_kernel_pc info) (di_info_ptr info) 0 (open_slot g info p)). split; [|split; [done|split]].
  - do 2 f_equal. apply processing_ext; try reflexivity. symmetry.
    refine (alter_insert (fun wg => set_counts (activated_warps wg + Z.of_nat (length cwm)) (completed_warps wg) wg) g _ _).
  - eapply none_complete_same; [exact Hsc|]. intros h. rewrite Hat. case_bool_decide; [cbn; lia|apply Hn].
  - right. exists info, rest. split; [done|]. split; [done|]. rewrite (resident_same _ _ Hsc) by done.
    unfold resident, open_slot at 2. cbn [processing_wg_order_ set_slots_used]. rewrite fmap_app. cbn [fmap list_fmap].
    rewrite Hbg. f_equal. apply list_fmap_ext. intros i h Hi. rewrite Hat, bool_decide_false; [done|].
    intros ->. apply list_elem_of_lookup_2 in Hi. apply (i_used _ I) in Hi. congruence.
Qed.

End sizes.
