(* ===== verification/WgInitSim.v ===== *)
(** * The work-group initializer implements the SM the firmware is verified against

    The threads of the initializer as a whole: its reachable states under a driver
    that follows the register protocol, what its history shows, and a simulation of
    its registers by the SM of KernelDispatch.v. *)

From S2P Require Import Prelude CommandAbi Platform KernelDispatch KernelInv WgInit WgInitInv.

Section threads.
Context (kWgResidentLimit kThreadsPerWarp kWarpsPerCore : Z) (fifo_size : nat).

Abbreviation has_warps := (has_warps kThreadsPerWarp).
Abbreviation exec := (wg_exec kWgResidentLimit kThreadsPerWarp kWarpsPerCore fifo_size).

(** The work-group on the ENQ registers. *)
Definition enq_info (c : CSR) : WGDispatchInfo :=
  mkDispatchInfo (enq_kernel_pc c) (enq_info_ptr c) (u32 (enq_wg_size c)).

(** The register protocol of the firmware: it writes the ENQ registers while ENQ_VALID
    is clear, sets ENQ_VALID for a work-group with a warp (however many: the
    initializer checks that), and clears DEQ_VALID after it was set. *)
Definition driver_ok (s : wgi) (a : wg_action) : Prop :=
  match a with
  | AMmio TlmWrite addr v =>
      (addr = 0 /\ enq_valid (csr_ s) = 0 /\ v = 1 /\ has_warps (enq_info (csr_ s))) \/
      ((addr = 8 \/ addr = 16 \/ addr = 24) /\ enq_valid (csr_ s) = 0) \/
      (addr = 32 /\ v = 0 /\ deq_valid (csr_ s) <> 0)
  | _ => True
  end.

Record winv (s : wgi) : Prop := {
  v_wgs : pinv (wgs s);
  v_pass : match p_pc s with
           | PassWait => none_complete (wgs s)
           | PassRetire l => retire_ok (wgs s) l /\ retire_all (length (processing_wg_info_ (wgs s))) (wgs s) l
           end;
  v_enq : match e_pc s with
          | EnqWait => enqueue_event_ s = negb (enq_valid (csr_ s) =? 0)
          | EnqWrite info => enqueue_event_ s = false /\ enq_valid (csr_ s) <> 0 /\ info = enq_info (csr_ s)
          end;
  v_some : enq_valid (csr_ s) <> 0 -> has_warps (enq_info (csr_ s));
  v_deq : match d_pc s with
          | DeqRead => deq_valid (csr_ s) = 0 /\ dequeue_event_ s = false
          | DeqWait => dequeue_event_ s = (deq_valid (csr_ s) =? 0)
          end;
  v_fifo : Forall has_warps (fifo_items (dispatch_fifo_ s));
}.

(** The work-groups the initializer holds, from the enqueue to the dequeue registers. *)
Definition held (s : wgi) : list Z :=
  (di_info_ptr <$> fifo_items (dispatch_fifo_ s)) ++ resident (wgs s) ++
  (qi_info_ptr <$> fifo_items (dequeue_fifo_ s)).

Lemma winv_init : 0 <= kWgResidentLimit -> winv (wgi_init kWgResidentLimit kWarpsPerCore).
Proof.
  assert (Hwg : forall n g, nth g (replicate n vacant_wg) vacant_wg = vacant_wg).
  { intros n g. rewrite nth_lookup. destruct (_ !! g) eqn:E; [|done]. by apply lookup_replicate in E as [-> _]. }
  assert (Hid : forall n g, nth g (replicate n (None : option nat)) None = None).
  { intros n g. rewrite nth_lookup. destruct (_ !! g) eqn:E; [|done]. by apply lookup_replicate in E as [-> _]. }
  assert (Hb : forall n g, nth g (replicate n false) false = false).
  { intros n g. rewrite nth_lookup. destruct (_ !! g) eqn:E; [|done]. by apply lookup_replicate in E as [-> _]. }
  assert (Hc : forall n g, nth g (replicate n idle_warp) idle_warp = idle_warp).
  { intros n g. rewrite nth_lookup. destruct (_ !! g) eqn:E; [|done]. by apply lookup_replicate in E as [-> _]. }
  intros Hl. constructor; cbn; try done.
  - constructor; cbn; rewrite ?length_replicate; try done; [..|constructor|].
    + intros i. unfold warp_inv, owner, pending, state_of, stopping, warp_at. cbn. by rewrite Hid, Hb, Hc.
    + intros g. unfold slot_inv, wg_at. cbn. by rewrite Hwg.
    + intros g. unfold wg_at. cbn. rewrite Hwg. split; [|done]. intros Hg. by apply not_elem_of_nil in Hg.
  - intros g. unfold wg_at. cbn. by rewrite Hwg.
Qed.

(** What a fatal report is about: the barrier deadlock of a work-group, or the work-group
    at the head of the queue, which has more warps than the core. *)
Definition fatal_ok (s : wgi) (e : wg_fatal) : Prop :=
  (exists g, e = BarrierDeadlock g /\ busy (wg_at (wgs s) g) = true /\ aborting (wg_at (wgs s) g) = false /\
      0 < completed_warps (wg_at (wgs s) g) /\
      Z.of_nat (length (barrier_warps (wgs s) g)) + completed_warps (wg_at (wgs s) g) = warp_count (wg_at (wgs s) g)) \/
  (e = TooManyWarps /\ exists info rest, readable (dispatch_fifo_ s) = info :: rest /\
      kWarpsPerCore < warps_of kThreadsPerWarp info).

(** ** The two halves of a pass *)

(** The slots hold the same work-groups. *)
Definition same_groups (p p' : processing) : Prop :=
  processing_wg_order_ p' = processing_wg_order_ p /\ forall g, wg_info_ptr (wg_at p' g) = wg_info_ptr (wg_at p g).

#[local] Instance same_groups_po : PreOrder same_groups.
Proof.
  split; [by intros p|]. intros p q r [H1 H2] [H3 H4]. split; [congruence|]. intros g. by rewrite H4, H2.
Qed.

Lemma same_groups_resident p p' : same_groups p p' -> resident p' = resident p.
Proof. intros [Ho Hp]. unfold resident. rewrite Ho. apply list_fmap_ext. intros i g _. apply Hp. Qed.

Lemma update_wg_groups f g p : (forall wg, wg_info_ptr (f wg) = wg_info_ptr wg) -> same_groups p (update_wg f g p).
Proof.
  intros Hf. split; [done|]. intros h. rewrite wg_at_update. case_bool_decide as H; [|done].
  destruct H as [-> _]. apply Hf.
Qed.

Lemma HandleExceptionWarps_groups p : same_groups p (HandleExceptionWarps p).
Proof.
  unfold HandleExceptionWarps. case_match; [done|]. split; [done|]. intros g. rewrite wg_at_handled.
  by destruct (handle_exception_cases p g (wg_at p g)) as [->|[(_ & _ & w & ->)|(_ & _ & w & ->)]].
Qed.

Lemma terminate_groups cmd cwm ok p : same_groups p (terminate cmd cwm ok p).
Proof. unfold terminate. destruct cwm; [done|]. by destruct ok. Qed.

Lemma IssueTerminations_groups a_ok r_ok p : same_groups p (IssueTerminations a_ok r_ok p).
Proof. unfold IssueTerminations. etransitivity; apply terminate_groups. Qed.

Lemma HandleStoppedWarps_groups p : same_groups p (fst (HandleStoppedWarps p)).
Proof.
  unfold HandleStoppedWarps.
  apply (for_range_ind (fun _ st => same_groups p (fst st)) handle_stopped_wg); [done|].
  intros g [p1 l] _ Hp1. cbn in Hp1. unfold handle_stopped_wg. case_match; [done|].
  assert (Hp2 : same_groups p (for_range (end_warp g) 0 (length (core_ p1)) p1)).
  { apply (for_range_ind (fun _ p2 => same_groups p p2) (end_warp g)); [done|]. intros i p2 _ Hp2.
    unfold end_warp. case_match; [|done]. etransitivity; [exact Hp2|].
    etransitivity; [|by apply update_wg_groups]. done. }
  by case_match.
Qed.

Lemma pass_start_inv a_ok r_ok drained s : winv s -> p_pc s = PassWait ->
  winv (pass_start a_ok r_ok drained s) /\ held (pass_start a_ok r_ok drained s) = held s /\
  csr_ (pass_start a_ok r_ok drained s) = csr_ s.
Proof.
  intros [Vp Vpass Ve Vf Vd Vq] Hpc. unfold pass_start.
  destruct (HandleExceptionWarps_inv _ Vp) as [I1 He1].
  pose proof (IssueTerminations_inv a_ok r_ok _ I1 He1) as I2. pose proof (drain_inv drained _ I2) as I3.
  set (p3 := set_core _ _) in *. pose proof (HandleStoppedWarps_inv p3 I3) as H4.
  assert (Hg : same_groups (wgs s) (fst (HandleStoppedWarps p3))).
  { etransitivity; [apply HandleExceptionWarps_groups|].
    etransitivity; [|apply HandleStoppedWarps_groups]. etransitivity; [apply (IssueTerminations_groups a_ok r_ok)|]. done. }
  destruct (HandleStoppedWarps p3) as [p4 l]. destruct H4 as (I4 & _ & Hok & Hall). cbn in Hg.
  split; [|split; [|done]].
  - by constructor.
  - unfold held. cbn. by rewrite (same_groups_resident _ _ Hg).
Qed.

Lemma pass_end_inv r_ok m_ok n_ok s : winv s -> p_pc s = PassRetire [] ->
  match pass_end kWgResidentLimit kThreadsPerWarp kWarpsPerCore r_ok m_ok n_ok s with
  | inl e => fatal_ok s e
  | inr s' => winv s' /\ held s' ≡ₚ held s /\ csr_ s' = csr_ s
  end.
Proof.
  intros [Vp Vpass Ve Vf Vd Vq] Hpc. unfold pass_end. rewrite Hpc in Vpass. destruct Vpass as [_ Hall].
  pose proof (HandleBarrierWarps_inv r_ok _ Vp) as Hb. destruct (HandleBarrierWarps r_ok (wgs s)) as [e|p1]; [by left|].
  destruct Hb as (I1 & Hs1 & Ho1). destruct (DispatchRemainingWarps_inv m_ok p1 I1) as (I2 & Hs2 & Ho2).
  set (p2 := DispatchRemainingWarps m_ok p1) in *.
  assert (Hn : none_complete p2).
  { eapply none_complete_same; [exact Hs2|]. eapply none_complete_same; [exact Hs1|]. intros g Hbg Hc.
    specialize (Hall g (busy_lt _ _ Hbg) Hbg Hc). by apply not_elem_of_nil in Hall. }
  assert (Hr : resident p2 = resident (wgs s)).
  { rewrite (resident_same p1 p2), (resident_same (wgs s) p1); done. }
  unfold fifo_items in Vq. apply Forall_app in Vq as [Vq1 Vq2].
  destruct (DispatchNewWG_inv kWgResidentLimit kThreadsPerWarp kWarpsPerCore n_ok (dispatch_fifo_ s) p2 I2 Hn Vq1)
    as [(info & rest & -> & Er & Hw)|(fifo' & p3 & -> & I3 & Hn3 & Hcase)].
  { right. split; [done|]. by exists info, rest. }
  destruct Hcase as [[-> Hres]|(info & rest & Er & -> & Hres)].
  - split; [|split; [|done]].
    + constructor; try done. cbn. apply Forall_app. done.
    + unfold held. cbn. by rewrite Hres, Hr.
  - split; [|split; [|done]].
    + constructor; try done. cbn. rewrite Er in Vq1. apply Forall_cons in Vq1 as [_ Vq1].
      apply Forall_app. done.
    + unfold held, fifo_items. cbn. rewrite Hres, Hr, Er. cbn. rewrite <- !app_assoc. cbn.
      rewrite (app_assoc (_ <$> _)). symmetry. rewrite (app_assoc (_ <$> _)). apply Permutation_middle.
Qed.

(** ** Every action *)

(** What an action does to the registers and the work-groups held. *)
Definition effect (a : wg_action) (s s' : wgi) : Prop :=
  match a with
  | AEnqWrite => enq_valid (csr_ s) <> 0 /\ csr_ s' = set_enq_valid 0 (csr_ s) /\
      held s' ≡ₚ enq_info_ptr (csr_ s) :: held s
  | ADeqRead => deq_valid (csr_ s) = 0 /\ exists q, csr_ s' = csr_post q (csr_ s) /\
      held s ≡ₚ qi_info_ptr q :: held s'
  | AMmio TlmWrite addr v => csr_ s' = csr_write (Z.to_nat (addr / 8)) v (csr_ s) /\ held s' = held s
  | _ => csr_ s' = csr_ s /\ held s' ≡ₚ held s
  end.

(** A write of word [i]. *)
Definition written_word (i : nat) (v : Z) (s : wgi) : wgi :=
  let c := csr_write i v (csr_ s) in
  set_events (if (enq_valid (csr_ s) =? 0) && negb (enq_valid c =? 0) then true else enqueue_event_ s)
    (if negb (deq_valid (csr_ s) =? 0) && (deq_valid c =? 0) then true else dequeue_event_ s) (set_csr c s).

Lemma write_request i v s : (i <= 4)%nat ->
  exec (AMmio TlmWrite (8 * Z.of_nat i) v) s = Some (inr (written_word i v s)).
Proof.
  intros Hi. unfold wg_exec, ProcessRequest. replace (88 <? 8 * Z.of_nat i) with false by (symmetry; apply Z.ltb_ge; lia).
  rewrite (Z.mul_comm 8), Z.mod_mul, Z.div_mul, Nat2Z.id by lia. cbn [orb negb Z.eqb Pos.eqb].
  replace (Z.of_nat i * 8 <=? 32) with true by (symmetry; apply Z.leb_le; lia). cbn [negb mbind option_bind fst].
  do 2 f_equal. unfold written_word. cbn [csr_ set_csr].
  destruct ((enq_valid (csr_ s) =? 0) && _); cbn [csr_ set_csr set_events];
    by destruct (negb (deq_valid (csr_ s) =? 0) && _).
Qed.

Lemma mmio_write_inv addr v s r : winv s -> driver_ok s (AMmio TlmWrite addr v) ->
  exec (AMmio TlmWrite addr v) s = Some r ->
  exists s', r = inr s' /\ winv s' /\ effect (AMmio TlmWrite addr v) s s'.
Proof.
  intros [Vp Vpass Ve Vf Vd Vq] Hd He.
  assert (Hi : exists i, (i <= 4)%nat /\ addr = 8 * Z.of_nat i).
  { destruct Hd as [(-> & _)|[([->|[->| ->]] & _)|(-> & _)]];
      [exists 0%nat|exists 1%nat|exists 2%nat|exists 3%nat|exists 4%nat]; lia. }
  destruct Hi as (i & Hi & ->). rewrite write_request in He by done. injection He as <-. exists (written_word i v s).
  split; [done|]. split; [|split; [|done]; rewrite Z.mul_comm, Z.div_mul, Nat2Z.id by lia; done].
  destruct Hd as [(Ha & H0 & -> & Hfit)|[[Ha H0]|(Ha & -> & H0)]].
  - assert (i = 0%nat) as -> by lia.
    constructor; try done; cbn [written_word csr_ set_csr set_events e_pc d_pc enqueue_event_ dequeue_event_].
    + rewrite H0. cbn. destruct (e_pc s); [done|]. destruct Ve as (_ & ? & _). congruence.
    + cbn. by rewrite andb_negb_l.
  - assert (Hv : enq_valid (csr_write i v (csr_ s)) = 0 /\ deq_valid (csr_write i v (csr_ s)) = deq_valid (csr_ s)).
    { assert (i = 1 \/ i = 2 \/ i = 3)%nat as [->|[->| ->]] by lia; done. }
    destruct Hv as [Hv1 Hv2].
    constructor; try done; cbn [written_word csr_ set_csr set_events e_pc d_pc enqueue_event_ dequeue_event_];
      rewrite ?Hv1, ?Hv2, ?andb_negb_l; try done.
    rewrite H0 in *. cbn. destruct (e_pc s); [done|]. by destruct Ve as (_ & ? & _).
  - assert (i = 4%nat) as -> by lia.
    constructor; try done; cbn [written_word csr_ set_csr set_events e_pc d_pc enqueue_event_ dequeue_event_].
    + cbn. rewrite andb_negb_r. done.
    + cbn. rewrite (proj2 (Z.eqb_neq _ _) H0). cbn. destruct (d_pc s); [|done]. destruct Vd; congruence.
Qed.

(** A retired work-group goes from its slot to the dequeue queue. *)
Lemma remove_permutation g l : NoDup l -> g ∈ l -> l ≡ₚ g :: List.filter (fun x => negb (x =? g)%nat) l.
Proof.
  intros Hd Hg. apply NoDup_Permutation; [done|..].
  - apply NoDup_cons. split; [rewrite elem_of_remove; naive_solver|].
    apply NoDup_ListNoDup, List.NoDup_filter. by apply NoDup_ListNoDup.
  - intros x. rewrite elem_of_cons, elem_of_remove. destruct (decide (x = g)) as [->|]; naive_solver.
Qed.

Lemma retire_held g q p : pinv p -> busy (wg_at p g) = true -> completed_warps (wg_at p g) = warp_count (wg_at p g) ->
  q = completion_info (wg_at p g) -> resident p ≡ₚ qi_info_ptr q :: resident (retire_slot g q p).
Proof.
  intros I Hb Hc ->. pose proof (i_slot _ I g Hb) as (_ & _ & _ & Hpos & Hr).
  assert (Hptr : qi_info_ptr (completion_info (wg_at p g)) = wg_info_ptr (wg_at p g)).
  { destruct (aborting (wg_at p g)); [apply Hr|]. destruct Hr as [Hr _]. apply Hr. lia. }
  unfold resident at 1. rewrite (remove_permutation g _ (i_order _ I)) by (by apply (i_used _ I)).
  cbn [fmap list_fmap]. rewrite Hptr. apply perm_skip. unfold resident.
  match goal with |- ?a ≡ₚ ?b => enough (a = b) as -> by done end.
  apply list_fmap_ext. intros i h Hi. rewrite retire_slot_at by done. by case_bool_decide; subst.
Qed.

Lemma step_inv a s r : winv s -> driver_ok s a -> exec a s = Some r ->
  match r with
  | inl e => fatal_ok s e
  | inr s' => winv s' /\ effect a s s'
  end.
Proof.
  intros V Hd He. destruct a as [[|] addr v| | | | | | |a_ok r_ok drained| |r_ok m_ok n_ok|m].
  - cbn in He. unfold ProcessRequest in He. bcase_in He; [done|]. by injection He as <-.
  - by destruct (mmio_write_inv _ _ _ _ V Hd He) as (s' & -> & ?).
  - cbn in He. destruct (enqueue_event_ s) eqn:Ee; simplify_eq. unfold enqueue_notified.
    destruct V as [Vp Vpass Ve Vf Vd Vq]. destruct (e_pc s) eqn:Epc; [|by destruct Ve; congruence].
    split; [|done]. constructor; try done. cbn. split; [done|]. split; [|done].
    rewrite Ee in Ve. symmetry in Ve. apply negb_true_iff, Z.eqb_neq in Ve. done.
  - cbn in He. destruct (e_pc s) as [|info] eqn:Epc; [done|]. destruct (fifo_full _ _); simplify_eq.
    destruct V as [Vp Vpass Ve Vf Vd Vq]. rewrite Epc in Ve. destruct Ve as (Hev & Hv & ->). split.
    + constructor; try done. cbn. unfold fifo_items, fifo_write. cbn. rewrite app_assoc.
      apply Forall_app. split; [done|]. constructor; [by apply Vf|done].
    + split; [done|]. split; [done|]. unfold held, fifo_items, fifo_write, enqueue_write. cbn.
      rewrite !fmap_app. cbn. rewrite <- !app_assoc. cbn. rewrite app_assoc. symmetry. rewrite app_assoc.
      apply Permutation_middle.
  - cbn in He. destruct (dequeue_event_ s) eqn:Ee; simplify_eq. unfold dequeue_notified.
    destruct V as [Vp Vpass Ve Vf Vd Vq]. destruct (d_pc s) eqn:Epc; [by destruct Vd; congruence|].
    rewrite Ee in Vd. symmetry in Vd. apply Z.eqb_eq in Vd.
    assert (Hc : csr_write 4 0 (csr_ s) = csr_ s) by (destruct (csr_ s); cbn in *; by subst).
    split; [|cbn [effect csr_ set_d_pc set_csr]; by rewrite Hc].
    constructor; try done; cbn [csr_ set_d_pc set_csr e_pc enqueue_event_ d_pc dequeue_event_ set_events]; by rewrite ?Hc.
  - cbn in He. destruct (d_pc s) eqn:Epc; [|done].
    destruct (readable (dequeue_fifo_ s)) as [|q rest] eqn:Er; simplify_eq.
    destruct V as [Vp Vpass Ve Vf Vd Vq]. rewrite Epc in Vd. destruct Vd as [Hv Hev]. split; [by constructor|].
    split; [done|]. exists q. split; [done|]. unfold held, fifo_items. cbn. rewrite Er. cbn.
    rewrite app_assoc. symmetry. rewrite app_assoc. apply Permutation_middle.
  - cbn in He. simplify_eq. destruct V as [Vp Vpass Ve Vf Vd Vq]. split.
    + constructor; try done. cbn. unfold fifo_items, fifo_update. cbn. by rewrite app_nil_r.
    + split; [done|]. unfold held, fifo_items, fifo_update. cbn. by rewrite !app_nil_r.
  - cbn in He. simplify_eq. by destruct V.
  - cbn in He. destruct (p_pc s) eqn:Epc; [|done]. destruct (process_pending_ s); simplify_eq.
    destruct (pass_start_inv a_ok r_ok drained s V Epc) as (? & Hh & ?). split; [done|]. split; [done|]. by rewrite Hh.
  - cbn in He. destruct (p_pc s) as [|[|[g q] l]] eqn:Epc; try done. destruct (fifo_full _ _); simplify_eq.
    destruct V as [Vp Vpass Ve Vf Vd Vq]. rewrite Epc in Vpass. destruct Vpass as [Hok Hall].
    assert (Hgq : (g, q) ∈ (g, q) :: l) by left. pose proof (proj2 Hok g q Hgq) as (Hb & Hc & ->).
    assert (Hok' : retire_ok (wgs s) l) by (destruct Hok as [Hnd Hl]; split;
      [by apply NoDup_cons in Hnd as [_ ?]|intros h q Hq; apply Hl; by right]).
    split; [|split; [done|]].
    + constructor; try done; [by apply retire_slot_inv|]. cbn. split; [apply retire_keeps; try done; apply Hok|].
      intros h Hh. rewrite retire_slot_at by done. case_bool_decide as Hhg; [done|]. intros Hbh Hch.
      specialize (Hall h (busy_lt _ _ Hbh) Hbh Hch). cbn in Hall. apply elem_of_cons in Hall as [?|?]; done.
    + unfold held, fifo_items, fifo_write. cbn [dispatch_fifo_ dequeue_fifo_ wgs set_p_pc set_wgs set_dequeue].
      cbn [readable written]. rewrite (app_assoc (readable (dequeue_fifo_ _))). apply Permutation_app_head.
      rewrite (retire_held g _ (wgs s) Vp Hb Hc eq_refl). cbn [fmap list_fmap app].
      rewrite (fmap_app _ (_ ++ _)), app_assoc. by rewrite (Permutation_app_comm _ (_ <$> [_])).
  - cbn in He. destruct (p_pc s) as [|[|]] eqn:Epc; try done. injection He as <-.
    pose proof (pass_end_inv r_ok m_ok n_ok s V Epc) as H. by case_match; naive_solver.
  - cbn in He. simplify_eq. destruct V as [Vp Vpass Ve Vf Vd Vq]. split; [|done].
    constructor; try done. by apply core_step_inv.
Qed.

(** ** Reachable states *)

Inductive wg_reach : wgi -> Prop :=
| wr_init : wg_reach (wgi_init kWgResidentLimit kWarpsPerCore)
| wr_step s a s' : wg_reach s -> driver_ok s a -> exec a s = Some (inr s') -> wg_reach s'.

Lemma wg_reach_inv s : 0 <= kWgResidentLimit -> wg_reach s -> winv s.
Proof.
  intros Hl. induction 1 as [|s a s' _ IH Hd He]; [by apply winv_init|]. by destruct (step_inv a s _ IH Hd He).
Qed.

(** A run of actions the driver keeps to. *)
Fixpoint driven (acts : list wg_action) (s : wgi) : Prop :=
  match acts with
  | [] => True
  | a :: acts => driver_ok s a /\ match exec a s with Some (inr s') => driven acts s' | _ => False end
  end.

Lemma driven_reach acts s s' : wg_reach s -> driven acts s ->
  wg_run kWgResidentLimit kThreadsPerWarp kWarpsPerCore fifo_size acts s = Some (inr s') -> wg_reach s'.
Proof.
  revert s. induction acts as [|a acts IH]; intros s Hr Hd He; cbn in *; [by injection He as <-|].
  destruct Hd as [Hd Hds]. destruct (exec a s) as [[e|s1]|] eqn:Ee; [done| |done]. cbn in He.
  eapply IH; [|exact Hds|exact He]. by eapply wr_step.
Qed.

#[global] Instance has_warps_dec info : Decision (has_warps info).
Proof. unfold WgInitInv.has_warps. apply _. Defined.
#[global] Instance driver_ok_dec s a : Decision (driver_ok s a).
Proof. destruct a as [[|]| | | | | | | | | |]; cbn; apply _. Defined.
#[global] Instance driven_dec acts s : Decision (driven acts s).
Proof.
  revert s. induction acts as [|a acts IH]; intros s; cbn; [apply _|].
  apply and_dec; [apply _|]. destruct (exec a s) as [[e|s']|]; apply _.
Defined.

(** ** The SM of the firmware model *)

(** The registers agree, the ENQ and DEQ data while their valid bit is set. *)
Record regs_agree (c : CSR) (r : sm_mmio) : Prop := {
  ra_enq : ENQ_VALID r = enq_valid c;
  ra_enq_data : enq_valid c <> 0 ->
    ENQ_KERNEL_PC r = enq_kernel_pc c /\ ENQ_INFO_PTR r = enq_info_ptr c /\ ENQ_NUM_THREADS r = enq_wg_size c;
  ra_deq : DEQ_VALID r = deq_valid c;
  ra_deq_data : deq_valid c <> 0 ->
    DEQ_STATUS r = deq_status c /\ DEQ_INFO_PTR r = deq_info_ptr c /\ DEQ_MCAUSE r = deq_mcause c /\
    DEQ_MEPC r = deq_mepc c /\ DEQ_MTVAL r = deq_mtval c;
}.

(** SM [i] of the firmware model holds the work-groups the initializer holds. *)
Definition sim (s : wgi) (k : kd_sys) (i : nat) : Prop :=
  regs_agree (csr_ s) (su_regs (unit_at (k_sms k) i)) /\ su_resident (unit_at (k_sms k) i) ≡ₚ held s.

(** A store of the firmware: the ENQ registers count from the store to ENQ_VALID on. *)
Definition fw_store (addr : Z) (c : CSR) (i : nat) (k : kd_sys) : kd_sys :=
  let r := su_regs (unit_at (k_sms k) i) in
  if addr =? 0 then set_sms (set_regs i (set_ENQ (enq_kernel_pc c) (enq_info_ptr c) (enq_wg_size c) r) (k_sms k)) k
  else if addr =? 32 then set_sms (set_regs i (set_DEQ_VALID 0 r) (k_sms k)) k
  else k.

Lemma sim_keep s s' k i : csr_ s' = csr_ s -> held s' ≡ₚ held s -> sim s k i -> sim s' k i.
Proof. intros Hc Hh [Hr Hp]. unfold sim. rewrite Hc. split; [done|]. by rewrite Hh. Qed.

Lemma sim_store s s' addr v k i : (i < length (k_sms k))%nat -> driver_ok s (AMmio TlmWrite addr v) ->
  csr_ s' = csr_write (Z.to_nat (addr / 8)) v (csr_ s) -> held s' = held s -> sim s k i ->
  sim s' (fw_store addr (csr_ s) i k) i.
Proof.
  intros Hi Hd Hc Hh [[R1 R2 R3 R4] Hp]. unfold sim. rewrite Hc, Hh.
  destruct Hd as [(-> & H0 & -> & _)|[([->|[->| ->]] & H0)|(-> & -> & H0)]]; unfold fw_store; cbn [Z.eqb Pos.eqb];
    cbn [k_sms set_sms]; unfold set_regs; rewrite ?unit_at_insert, ?decide_True by done; (split; [|done]); by constructor; cbn.
Qed.

Lemma sim_accept s s' k i : (i < length (k_sms k))%nat -> effect AEnqWrite s s' -> sim s k i ->
  ENQ_VALID (su_regs (unit_at (k_sms k) i)) <> 0 /\ sim s' (sm_accept i k) i.
Proof.
  intros Hi (Hv & Hc & Hh) [[R1 R2 R3 R4] Hp]. split; [congruence|]. unfold sim, sm_accept. cbn [k_sms set_sms].
  rewrite unit_at_insert, decide_True, Hc by done. split; [by constructor; cbn|]. cbn. destruct (R2 Hv) as (_ & -> & _).
  by rewrite Hp, Hh.
Qed.

Lemma sim_post s s' k i : (i < length (k_sms k))%nat -> effect ADeqRead s s' -> sim s k i ->
  DEQ_VALID (su_regs (unit_at (k_sms k) i)) = 0 /\ exists n st ks,
    (n < length (su_resident (unit_at (k_sms k) i)))%nat /\ sim s' (sm_post i n st ks k) i.
Proof.
  intros Hi (Hv & q & Hc & Hh) [[R1 R2 R3 R4] Hp]. split; [congruence|].
  assert (Hin : qi_info_ptr q ∈ su_resident (unit_at (k_sms k) i)) by (rewrite Hp, Hh; left).
  apply list_elem_of_lookup in Hin as [n Hn].
  exists n, (qi_status q), (mkKernelStatus (qi_mcause q) (qi_mepc q) (qi_mtval q)).
  split; [by eapply lookup_lt_Some|]. unfold sim, sm_post. cbn [k_sms set_sms]. rewrite unit_at_insert, decide_True, Hc by done.
  rewrite nth_lookup, Hn. split; [by constructor; cbn|]. cbn [su_resident].
  apply (Permutation_cons_inv (a := qi_info_ptr q)). rewrite <- Hh, <- Hp. symmetry. by apply delete_Permutation.
Qed.

(** ** Properties *)

(** C8. What the initializer promises the core and the firmware, over every run with
    any core behind [WarpCtrl] and a driver that follows the register protocol and
    enqueues no empty work-group ([empty_group_is_lost] shows what becomes of one): every
    command names warps the interface allows it for (Activate idle warps, Resume warps
    at a barrier, Release trapped warps, Abort running or waiting ones, never a warp
    that is already stopping). A work-group is retired only when all its warps have
    ended, under its own kernel and info pointer, as OK with the warp numbers 0 to
    warp_count - 1 each activated exactly once and in order, or as an exception after
    an error trap, with the warp numbers activated a prefix of them. And no work-group
    is forgotten in its slot: between passes none has all its warps ended, and a pass
    about to retire work-groups has every such one on its list. *)
Theorem wg_history s : 0 <= kWgResidentLimit -> wg_reach s ->
  (forall e, e ∈ hist (wgs s) ->
     match e with
     | EvCommand _ allowed => allowed = true
     | EvRetire wg q cwids =>
         completed_warps wg = warp_count wg /\ 0 < warp_count wg /\
         qi_kernel_pc q = wg_kernel_pc wg /\ qi_info_ptr q = wg_info_ptr wg /\
         ((aborting wg = false /\ qi_status q = kWGOkay /\ cwids = numbers (warp_count wg)) \/
          (aborting wg = true /\ qi_status q = kWGException /\ exists k, k <= warp_count wg /\ cwids = numbers k))
     end) /\
  (forall g, busy (wg_at (wgs s) g) = true -> completed_warps (wg_at (wgs s) g) = warp_count (wg_at (wgs s) g) ->
     match p_pc s with PassWait => False | PassRetire l => g ∈ l.*1 end).
Proof.
  intros Hl Hr. pose proof (wg_reach_inv s Hl Hr) as V. split.
  - intros e He. pose proof (i_hist _ (v_wgs _ V)) as Hh.
    rewrite Forall_forall in Hh. specialize (Hh e He). by destruct e; [|destruct Hh].
  - intros g Hb Hc. pose proof (v_pass _ V) as Hp. destruct (p_pc s) as [|l].
    + by apply (Hp g Hb).
    + apply (proj2 Hp g); try done. by apply busy_lt.
Qed.

(** The warps of a work-group, counted on the owner table. *)
Lemma length_owned p g : pinv p -> Z.of_nat (length (mask_of (owned_by p g) p)) = owned p g.
Proof.
  intros I. unfold owned, mask_of, owned_by, owner. rewrite <- (i_ids _ I). f_equal.
  induction (processing_wg_ids_ p) as [|o l IH] using rev_ind; [done|].
  rewrite length_app, Nat.add_1_r, seq_S, List.filter_app, length_app, countb_app, <- IH. f_equal.
  - f_equal. apply List.filter_ext_in. intros x Hx. apply in_seq in Hx. rewrite app_nth1 by lia. done.
  - cbn. rewrite app_nth2, Nat.sub_diag by lia. unfold countb, is_owner. cbn. by bcase.
Qed.

(** All warps of a work-group that has as many warps at the barrier as it owns. *)
Lemma all_at_barrier p g : pinv p -> owned p g <= Z.of_nat (length (barrier_warps p g)) ->
  forall i, owner p i = Some g -> state_of p i = WarpBarrier.
Proof.
  intros I Hle i Ho. destruct (decide (state_of p i = WarpBarrier)) as [|Hn]; [done|]. exfalso.
  assert (Hsub : i :: barrier_warps p g ⊆+ mask_of (owned_by p g) p).
  { apply NoDup_submseteq.
    - apply NoDup_cons. split; [|apply NoDup_mask_of]. rewrite elem_barrier_warps. by intros (_ & ? & _).
    - intros x Hx. apply elem_mask_of. apply elem_of_cons in Hx as [->|Hx].
      + split; [rewrite <- (i_ids _ I); by eapply owner_lt|]. by apply bool_decide_eq_true.
      + apply elem_barrier_warps in Hx as (Hl & _ & Hx). split; [done|]. by apply bool_decide_eq_true. }
  apply submseteq_length in Hsub. cbn in Hsub. pose proof (length_owned p g I). lia.
Qed.

(** C40. Why the initializer ends the simulation, under a driver that follows the
    register protocol and enqueues no empty work-group: never over a refused Activate. The report of too many warps is
    about the work-group at the head of the queue, which has more warps than the core.
    At the report of a barrier deadlock the named work-group is resident and not
    aborting, all its warps were activated, at least one has exited, and every one it
    still owns waits at a barrier. *)
Theorem wg_fatal_reports s a e : 0 <= kWgResidentLimit -> wg_reach s -> driver_ok s a ->
  exec a s = Some (inl e) ->
  match e with
  | ActivateRefused => False
  | TooManyWarps => exists info rest, readable (dispatch_fifo_ s) = info :: rest /\
      kWarpsPerCore < warps_of kThreadsPerWarp info
  | BarrierDeadlock g =>
      let wg := wg_at (wgs s) g in
      busy wg = true /\ aborting wg = false /\ activated_warps wg = warp_count wg /\
      0 < completed_warps wg /\ forall i, owner (wgs s) i = Some g -> state_of (wgs s) i = WarpBarrier
  end.
Proof.
  intros Hl Hr Hd He. pose proof (wg_reach_inv s Hl Hr) as V.
  destruct (step_inv a s _ V Hd He) as [(g & -> & Hb & Ha & Hc & Hsum)|(-> & Hw)]; [|done]. cbv zeta.
  pose proof (i_slot _ (v_wgs _ V) g Hb) as (H1 & H2 & _).
  assert (Hle : Z.of_nat (length (barrier_warps (wgs s) g)) <= owned (wgs s) g).
  { rewrite <- length_owned by apply V. apply inj_le, submseteq_length, NoDup_submseteq; [apply NoDup_mask_of|].
    intros i (Hi & _ & Ho)%elem_barrier_warps. apply elem_mask_of. split; [done|]. by apply bool_decide_eq_true. }
  split_and!; [done..|lia|done|]. apply all_at_barrier; [apply V|lia].
Qed.

(** C6. The initializer implements the SM the firmware is verified against: whenever
    its registers agree with those of SM [i] and it holds the same work-groups, every
    action of its threads or of the core is a stutter, the acceptance or the posting
    of a work-group by that SM, a step of the model, and every store of a driver that
    follows the protocol, and enqueues no empty work-group, is the store of the model;
    the agreement continues. *)
Theorem wgi_simulates_sm hw gen meta k i s a s' : 0 <= kWgResidentLimit -> wg_reach s -> driver_ok s a ->
  (i < sm_count hw)%nat -> (i < length (k_sms k))%nat -> sim s k i -> exec a s = Some (inr s') ->
  match a with
  | AMmio TlmWrite addr _ => sim s' (fw_store addr (csr_ s) i k) i
  | AEnqWrite => kd_step hw gen meta k [] (sm_accept i k) /\ sim s' (sm_accept i k) i
  | ADeqRead => exists n st ks, kd_step hw gen meta k [] (sm_post i n st ks k) /\ sim s' (sm_post i n st ks k) i
  | _ => sim s' k i
  end.
Proof.
  intros Hl Hr Hd Hi Hlen Hsim He. destruct (step_inv a s _ (wg_reach_inv s Hl Hr) Hd He) as [_ Hef].
  destruct a as [[|] addr v| | | | | | | | | |];
    try (destruct Hef as [Hc Hh]; by apply (sim_keep s)).
  - destruct Hef as [Hc Hh]. by eapply sim_store.
  - destruct (sim_accept s s' k i Hlen Hef Hsim) as [Hv ?]. split; [|done]. by constructor.
  - destruct (sim_post s s' k i Hlen Hef Hsim) as (Hv & n & st & ks & Hn & ?). exists n, st, ks.
    split; [|done]. by constructor.
Qed.

End threads.

(** The agreement at boot. *)
Lemma sim_boot kWgResidentLimit kWarpsPerCore hw k i : kd_init hw k -> (i < sm_count hw)%nat ->
  sim (wgi_init kWgResidentLimit kWarpsPerCore) k i.
Proof.
  intros (_ & _ & _ & Hl & Hu & _) Hi. rewrite <- Hl in Hi. apply lookup_lt_is_Some_2 in Hi as [u Hui].
  rewrite Forall_forall in Hu. destruct (Hu u) as (H1 & H2 & H3); [by eapply list_elem_of_lookup_2|].
  unfold sim, unit_at. rewrite nth_lookup, Hui. cbn. rewrite H2. split; [|done]. by constructor; cbn.
Qed.

(** ** A core with two warps of four threads and two slots *)

Abbreviation sample_run acts := (wg_run 2 4 2 16 acts (wgi_init 2 2)).
Abbreviation sample_state acts := (match sample_run acts with Some (inr s) => s | _ => wgi_init 2 2 end).

Definition sample_enqueue (size : Z) : list wg_action :=
  [AMmio TlmWrite 8 0x400; AMmio TlmWrite 16 0x9000; AMmio TlmWrite 24 size; AMmio TlmWrite 0 1;
   AEnqNotify; AEnqWrite; AUpdate].
Definition sample_pass (drained : list nat) (retired : nat) : list wg_action :=
  [AStateChange; APassStart true true drained] ++ replicate retired ARetire ++ [APassEnd true true true].
(** Both warps of a work-group of five threads exit with an ECALL. *)
Definition sample_exit : list wg_action :=
  sample_enqueue 5 ++ sample_pass [] 0 ++
  [ACore (MoveTrap 0 11 0x440 0); ACore (MoveTrap 1 11 0x440 0)] ++ sample_pass [0%nat; 1%nat] 1 ++ [AUpdate].
(** One warp exits, the other waits at a barrier. *)
Definition sample_stuck : list wg_action :=
  sample_enqueue 5 ++ sample_pass [] 0 ++
  [ACore (MoveTrap 0 11 0x440 0); ACore (MoveBarrier 1 0x420)] ++
  [AStateChange; APassStart true true [0%nat]].

Lemma wg_sample_reach acts : bool_decide (driven 2 4 2 16 acts (wgi_init 2 2)) = true ->
  (match sample_run acts with Some (inr _) => true | _ => false end) = true -> wg_reach 2 4 2 16 (sample_state acts).
Proof.
  intros Hd Hr. apply bool_decide_eq_true in Hd. destruct (sample_run acts) as [[e|s]|] eqn:E; try done.
  by eapply driven_reach; [apply wr_init|exact Hd|exact E].
Qed.

Lemma wg_history_witness :
  let e := EvRetire (mkWG true 0x400 0x9000 5 2 2 2 false false (mkDequeueInfo 0x400 0x9000 0 11 0x440 0))
             (mkDequeueInfo 0x400 0x9000 0 11 0x440 0) [0; 1] in
  e ∈ hist (wgs (sample_state sample_exit)) /\ numbers 2 = [0; 1].
Proof.
  intros e. assert (He : e ∈ hist (wgs (sample_state sample_exit))) by (vm_compute; do 2 right; left).
  split; [exact He|]. pose proof (wg_history 2 4 2 16 (sample_state sample_exit)) as H.
  destruct H as [H _]; [lia|apply wg_sample_reach; vm_compute; reflexivity|].
  destruct (H e He) as (_ & _ & _ & _ & [(_ & _ & H')|(H' & _)]); clear H; rename H' into H.
  - symmetry. exact H.
  - discriminate H.
Defined.

(** A work-group of nine threads needs a third warp. *)
Definition sample_large : list wg_action :=
  sample_enqueue 9 ++ [AStateChange; APassStart true true []].

Lemma wg_fatal_reports_witness :
  state_of (wgs (sample_state sample_stuck)) 1 = WarpBarrier /\
  exists info rest, readable (dispatch_fifo_ (sample_state sample_large)) = info :: rest /\ 2 < warps_of 4 info.
Proof.
  split.
  - destruct (wg_fatal_reports 2 4 2 16 (sample_state sample_stuck) (APassEnd true true true) (BarrierDeadlock 0))
      as (_ & _ & _ & _ & H); [lia| |exact I|vm_compute; reflexivity|].
    + apply wg_sample_reach; vm_compute; reflexivity.
    + apply H. vm_compute. reflexivity.
  - refine (wg_fatal_reports 2 4 2 16 (sample_state sample_large) (APassEnd true true true) TooManyWarps _ _ _ _).
    + lia.
    + apply wg_sample_reach; vm_compute; reflexivity.
    + exact I.
    + vm_compute. reflexivity.
Defined.

(** The registers after the work-group is posted. *)
Lemma wgi_simulates_sm_witness :
  let s := sample_state (take 5 (sample_enqueue 5)) in
  let k := fw_store 0 (csr_ s) 0 sample_kd in
  kd_step sample_hw 1 sample_meta k [] (sm_accept 0 k) /\
  su_resident (unit_at (k_sms (sm_accept 0 k)) 0) = [0x9000].
Proof.
  intros s k. split; [|vm_compute; reflexivity].
  refine (proj1 (wgi_simulates_sm 2 4 2 16 sample_hw 1 sample_meta k 0 s AEnqWrite
    (sample_state (take 6 (sample_enqueue 5))) _ _ _ _ _ _ _)).
  - lia.
  - apply wg_sample_reach; vm_compute; reflexivity.
  - exact I.
  - apply Nat.ltb_lt. vm_compute. reflexivity.
  - apply Nat.ltb_lt. vm_compute. reflexivity.
  - split; [constructor; vm_compute; auto|]. vm_compute. constructor.
  - vm_compute. reflexivity.
Defined.

(** A work-group of no threads, or of so many that the rounded count wraps 32 bits,
    is taken from the queue and forgotten: no warp is activated, no slot is used,
    and the initializer holds nothing it could post for it. *)
Theorem empty_group_is_lost :
  let lost n := sample_state (sample_enqueue n ++ sample_pass [] 0) in
  held (lost 5) = [0x9000] /\
  held (lost 0) = [] /\ hist (wgs (lost 0)) = [] /\ deq_valid (csr_ (lost 0)) = 0 /\
  held (lost (2 ^ 32 - 3)) = [] /\ hist (wgs (lost (2 ^ 32 - 3))) = [].
Proof. vm_compute. auto 6. Qed.
