(* ===== verification/CacheCtrl.v ===== *)
(** * The cache controller of an SM (ilha/src/cache_controller.cc)

    The controller is the hardware behind the cache-control registers of Cache.v. A
    store of 1 to START makes it send the command in its registers to every bank of the
    cache; when every bank has answered, START is cleared.

    Its two SystemC methods act on rising clock edges: [HandleMmioReq] serves at most one
    register access, [HandleCommands] works on the started command. An edge is one
    action. When [HandleCommands] waits for the edge, the two run in either order; when
    it waits for [cmd_start_event_], it runs in the same edge right after the access that
    notifies it. Between edges a bank may finish the oldest command it was sent.

    A bank is its request queue, its responses and the history of what it has done. What
    [nb_can_put] and [nb_put] of the banks answer is part of the edge. [started_] and
    [finished_] are histories: the commands in the registers when START was set, and
    those for which it was cleared. Log output is left out. *)

From S2P Require Import Prelude Platform Cache.

(** ** State *)

Record CacheCommand := mkCommand { cmd_addr : Z; cmd_size : Z; cmd_opcode : Z }.
#[global] Instance CacheCommand_eq : EqDecision CacheCommand.
Proof. solve_decision. Defined.

Definition kFlush : Z := 1.
Definition kInvalidate : Z := 2.

Record Csr := mkCsr { start : Z; addr : Z; size : Z; opcode : Z }.

Record bank := mkBank {
  queue : list CacheCommand;
  responses : list bool;
  performed : list CacheCommand;
}.

Inductive trigger := OnStart | OnEdge.

Record CacheController := mkController {
  csr_ : Csr;
  banks_ : list bank;
  bank_commands_ : list (option CacheCommand);
  cmd_prepared_ : bool;
  cmd_dispatched_ : bool;
  next_trigger : trigger;                       (* of HandleCommands *)
  started_ : list CacheCommand;
  finished_ : list CacheCommand;
}.

Definition set_csr (r : Csr) (c : CacheController) : CacheController :=
  mkController r (banks_ c) (bank_commands_ c) (cmd_prepared_ c) (cmd_dispatched_ c) (next_trigger c)
    (started_ c) (finished_ c).
Definition set_banks (b : list bank) (c : CacheController) : CacheController :=
  mkController (csr_ c) b (bank_commands_ c) (cmd_prepared_ c) (cmd_dispatched_ c) (next_trigger c)
    (started_ c) (finished_ c).
Definition set_commands (l : list (option CacheCommand)) (c : CacheController) : CacheController :=
  mkController (csr_ c) (banks_ c) l (cmd_prepared_ c) (cmd_dispatched_ c) (next_trigger c)
    (started_ c) (finished_ c).
Definition set_progress (p d : bool) (t : trigger) (c : CacheController) : CacheController :=
  mkController (csr_ c) (banks_ c) (bank_commands_ c) p d t (started_ c) (finished_ c).
Definition set_started (l : list CacheCommand) (c : CacheController) : CacheController :=
  mkController (csr_ c) (banks_ c) (bank_commands_ c) (cmd_prepared_ c) (cmd_dispatched_ c) (next_trigger c)
    l (finished_ c).
Definition set_finished (l : list CacheCommand) (c : CacheController) : CacheController :=
  mkController (csr_ c) (banks_ c) (bank_commands_ c) (cmd_prepared_ c) (cmd_dispatched_ c) (next_trigger c)
    (started_ c) l.

Definition num_banks_ (c : CacheController) : nat := length (banks_ c).
Definition csr_command (r : Csr) : CacheCommand := mkCommand (addr r) (size r) (opcode r).
Definition set_start (v : Z) (r : Csr) : Csr := mkCsr v (addr r) (size r) (opcode r).

(** The constructor, with [n] banks. *)
Definition controller_init (n : nat) : CacheController :=
  mkController (mkCsr 0 0 0 0) (replicate n (mkBank [] [] [])) (replicate n None) false false OnStart [] [].

(** ** Register accesses *)

Inductive mmio_command := MRead | MWrite | MIgnore.
Record mmio_access := mkAccess { a_cmd : mmio_command; a_addr : Z; a_size : Z; a_data : option Z }.

(** [a_data] is [None] for a null data pointer. *)
Definition IsAllowedCsrAccess (a : mmio_access) : bool :=
  match a_data a with
  | None => false
  | Some _ =>
      let s := a_size a in
      if negb (s =? 1) && negb (s =? 2) && negb (s =? 4) && negb (s =? 8) then false else
      if negb (Z.land (a_addr a) 7 =? 0) then false else
      (a_addr a =? 0x00) || (a_addr a =? 0x08) || (a_addr a =? 0x10) || (a_addr a =? 0x18)
  end.

(** [memcpy] of the low [n] bytes of [v] over a word, on a little-endian host. *)
Definition patch (n v old : Z) : Z := old - old mod 2 ^ (8 * n) + v mod 2 ^ (8 * n).
Definition csr_word (a : Z) (r : Csr) : Z :=
  if a =? 0x00 then start r else if a =? 0x08 then addr r else if a =? 0x10 then size r else opcode r.
Definition csr_patch (a n v : Z) (r : Csr) : Csr :=
  if a =? 0x08 then mkCsr (start r) (patch n v (addr r)) (size r) (opcode r)
  else if a =? 0x10 then mkCsr (start r) (addr r) (patch n v (size r)) (opcode r)
  else mkCsr (start r) (addr r) (size r) (patch n v (opcode r)).

Inductive mmio_response := AddressError | Okay (data : Z).

(** The access served at an edge: the response, whether [cmd_start_event_] is notified,
    and the state. *)
Definition HandleMmioReq (a : mmio_access) (c : CacheController) : mmio_response * bool * CacheController :=
  if negb (IsAllowedCsrAccess a) then (AddressError, false, c) else
  let v := default 0 (a_data a) in
  match a_cmd a with
  | MWrite =>
      if a_addr a =? 0 then
        if (start (csr_ c) =? 0) && (v mod 256 =? 1)
        then (Okay v, true, set_started (started_ c ++ [csr_command (csr_ c)]) (set_csr (set_start 1 (csr_ c)) c))
        else (Okay v, false, c)
      else (Okay v, false, set_csr (csr_patch (a_addr a) (a_size a) v (csr_ c)) c)
  | MRead => (Okay (patch (a_size a) (csr_word (a_addr a) (csr_ c)) v), false, c)
  | MIgnore => (Okay v, false, c)
  end.

(** ** Commands *)

Definition is_maintenance (k : CacheCommand) : bool := (cmd_opcode k =? kFlush) || (cmd_opcode k =? kInvalidate).

Definition PrepareBankCommands (c : CacheController) : CacheController :=
  let n := length (bank_commands_ c) in
  if negb (opcode (csr_ c) =? kFlush) && negb (opcode (csr_ c) =? kInvalidate)
  then set_commands (replicate n None) c
  else set_commands (replicate n (Some (csr_command (csr_ c)))) c.

Inductive controller_fatal := RejectedAvailable | RejectedCommand.

Definition has_command (c : CacheController) (i : nat) : bool := bool_decide (is_Some (nth i (bank_commands_ c) None)).
Definition bank_ids (c : CacheController) : list nat := seq 0 (length (bank_commands_ c)).

Definition put_command (k : option CacheCommand) (b : bank) : bank :=
  match k with
  | Some k => mkBank (queue b ++ [k]) (responses b) (performed b)
  | None => b
  end.
(** [Some false] tells the caller to try again at the next edge. *)
Definition TryDispatchCommands (can_put accepts : nat -> bool) (c : CacheController) :
    controller_fatal + bool * CacheController :=
  if existsb (fun i => has_command c i && negb (can_put i)) (bank_ids c) then inr (false, c) else
  if existsb (fun i => has_command c i && negb (accepts i)) (bank_ids c) then inl RejectedAvailable else
  inr (true, set_banks (zip_with put_command (bank_commands_ c) (banks_ c)) c).

Definition can_get (b : bank) : bool := match responses b with [] => false | _ => true end.
Definition bank_at (c : CacheController) (i : nat) : bank := nth i (banks_ c) (mkBank [] [] []).
Definition get_response (k : option CacheCommand) (b : bank) : bank :=
  match k with
  | Some _ => mkBank (queue b) (tail (responses b)) (performed b)
  | None => b
  end.
Definition TryCollectCommandResponses (c : CacheController) : controller_fatal + bool * CacheController :=
  if existsb (fun i => has_command c i && negb (can_get (bank_at c i))) (bank_ids c) then inr (false, c) else
  if existsb (fun i => has_command c i && negb (default false (head (responses (bank_at c i))))) (bank_ids c)
  then inl RejectedCommand
  else inr (true, set_banks (zip_with get_response (bank_commands_ c) (banks_ c)) c).

(** The end of [HandleCommands]: the command is finished. *)
Definition finish_command (c : CacheController) : CacheController :=
  set_finished (finished_ c ++ option_list (last (started_ c)))
    (set_progress false false OnStart (set_csr (set_start 0 (csr_ c)) c)).

(** [HandleCommands] at a rising edge. *)
Definition HandleCommands (can_put accepts : nat -> bool) (c : CacheController) : controller_fatal + CacheController :=
  if start (csr_ c) =? 0 then inr (set_progress (cmd_prepared_ c) (cmd_dispatched_ c) OnStart c) else
  let c :=
    if cmd_prepared_ c then c else
    let c := if (0 <? num_banks_ c)%nat then PrepareBankCommands c else c in
    set_progress true (cmd_dispatched_ c) (next_trigger c) c in
  let wait c := set_progress (cmd_prepared_ c) (cmd_dispatched_ c) OnEdge c in
  match (if (0 <? num_banks_ c)%nat && negb (cmd_dispatched_ c)
         then TryDispatchCommands can_put accepts c else inr (true, c)) with
  | inl e => inl e
  | inr (false, c) => inr (wait c)
  | inr (true, c) =>
      let c := if (0 <? num_banks_ c)%nat then set_progress (cmd_prepared_ c) true (next_trigger c) c else c in
      match (if (0 <? num_banks_ c)%nat then TryCollectCommandResponses c else inr (true, c)) with
      | inl e => inl e
      | inr (false, c) => inr (wait c)
      | inr (true, c) => inr (finish_command c)
      end
  end.

(** ** Runs *)

Inductive cc_action :=
  | AEdge (commands_first : bool) (req : option mmio_access) (can_put accepts : nat -> bool)
  | ABank (i : nat) (ok : bool).

Definition on_edge (c : CacheController) : bool := match next_trigger c with OnEdge => true | OnStart => false end.

Definition clock_edge (commands_first : bool) (req : option mmio_access) (can_put accepts : nat -> bool)
    (c : CacheController) : controller_fatal + CacheController :=
  match (if on_edge c && commands_first then HandleCommands can_put accepts c else inr c) with
  | inl e => inl e
  | inr c1 =>
      let '(notified, c2) :=
        match req with Some a => let '(_, n, c2) := HandleMmioReq a c1 in (n, c2) | None => (false, c1) end in
      if notified || (on_edge c && negb commands_first) then HandleCommands can_put accepts c2 else inr c2
  end.

Definition bank_done (ok : bool) (b : bank) : bank :=
  match queue b with
  | [] => b
  | k :: q => mkBank q (responses b ++ [ok]) (performed b ++ [k])
  end.

Definition cc_exec (a : cc_action) (c : CacheController) : controller_fatal + CacheController :=
  match a with
  | AEdge f req can_put accepts => clock_edge f req can_put accepts c
  | ABank i ok => inr (set_banks (alter (bank_done ok) i (banks_ c)) c)
  end.

Inductive cc_reach (n : nat) : CacheController -> Prop :=
| cc_start : cc_reach n (controller_init n)
| cc_next c a c' : cc_reach n c -> cc_exec a c = inr c' -> cc_reach n c'.

(** ** Invariant *)

Definition maint (l : list CacheCommand) : list CacheCommand := List.filter is_maintenance l.

(** A bank that has done what is finished, and one that was also sent [k]. *)
Definition idle_bank (F : list CacheCommand) (b : bank) : Prop :=
  queue b = [] /\ responses b = [] /\ performed b = maint F.
Definition sent_bank (F : list CacheCommand) (k : CacheCommand) (b : bank) : Prop :=
  (queue b = [k] /\ responses b = [] /\ performed b = maint F) \/
  (queue b = [] /\ (exists r, responses b = [r]) /\ performed b = maint F ++ [k]).

(** No command is started. *)
Definition resting (c : CacheController) : Prop :=
  start (csr_ c) = 0 /\ cmd_prepared_ c = false /\ cmd_dispatched_ c = false /\ next_trigger c = OnStart /\
  started_ c = finished_ c /\ Forall (idle_bank (finished_ c)) (banks_ c).
(** START was set in this edge, and [HandleCommands] has not run yet. *)
Definition loaded (c : CacheController) : Prop :=
  start (csr_ c) = 1 /\ cmd_prepared_ c = false /\ cmd_dispatched_ c = false /\
  started_ c = finished_ c ++ [csr_command (csr_ c)] /\ Forall (idle_bank (finished_ c)) (banks_ c).
(** The banks are being sent, or work on, [k]. *)
Definition working (c : CacheController) : Prop := exists k,
  start (csr_ c) = 1 /\ cmd_prepared_ c = true /\ next_trigger c = OnEdge /\
  started_ c = finished_ c ++ [k] /\ is_maintenance k = true /\ (0 < num_banks_ c)%nat /\
  bank_commands_ c = replicate (num_banks_ c) (Some k) /\
  Forall (if cmd_dispatched_ c then sent_bank (finished_ c) k else idle_bank (finished_ c)) (banks_ c).

Definition sized (n : nat) (c : CacheController) : Prop :=
  length (banks_ c) = n /\ length (bank_commands_ c) = n.
Definition cinv (n : nat) (c : CacheController) : Prop := sized n c /\ (resting c \/ working c).

(** What [HandleCommands] does to the registers and the histories. *)
Definition waits (c c' : CacheController) : Prop :=
  csr_ c' = csr_ c /\ started_ c' = started_ c /\ finished_ c' = finished_ c.
Definition finishes (c c' : CacheController) : Prop :=
  csr_ c' = set_start 0 (csr_ c) /\ started_ c' = started_ c /\ finished_ c' = started_ c.

Lemma maint_snoc l k : maint (l ++ [k]) = maint l ++ (if is_maintenance k then [k] else []).
Proof. unfold maint. rewrite List.filter_app. cbn. by destruct (is_maintenance k). Qed.

Lemma existsb_seq_false (f : nat -> bool) n : existsb f (seq 0 n) = false -> forall i, (i < n)%nat -> f i = false.
Proof.
  intros H i Hi. destruct (f i) eqn:E; [|done]. rewrite <- H. symmetry. apply existsb_exists. exists i.
  split; [apply in_seq; lia|done].
Qed.

Lemma has_command_all c n k i : bank_commands_ c = replicate n (Some k) -> (i < n)%nat -> has_command c i = true.
Proof.
  intros Hc Hi. unfold has_command. rewrite Hc, nth_lookup, lookup_replicate_2 by done. by apply bool_decide_eq_true.
Qed.

Lemma zip_with_replicate {A B} (f : A -> B -> B) x (l : list B) n : length l = n ->
  zip_with f (replicate n x) l = f x <$> l.
Proof. intros <-. induction l as [|y l IH]; [done|]. cbn. by f_equal. Qed.

Lemma dispatch_spec can_put accepts c k : bank_commands_ c = replicate (num_banks_ c) (Some k) ->
  Forall (idle_bank (finished_ c)) (banks_ c) ->
  match TryDispatchCommands can_put accepts c with
  | inl _ => True
  | inr (false, c') => c' = c
  | inr (true, c') => exists bs, c' = set_banks bs c /\ length bs = num_banks_ c /\ Forall (sent_bank (finished_ c) k) bs
  end.
Proof.
  intros Hc Hb. unfold TryDispatchCommands. bcase; [done|]. bcase; [done|].
  rewrite Hc, zip_with_replicate by done. eexists. split; [done|]. split; [apply length_fmap|].
  apply Forall_fmap. eapply Forall_impl; [exact Hb|]. intros b (Hq & Hr & Hp). left. cbn. by rewrite Hq.
Qed.

Lemma collect_spec c k : bank_commands_ c = replicate (num_banks_ c) (Some k) -> is_maintenance k = true ->
  Forall (sent_bank (finished_ c) k) (banks_ c) ->
  match TryCollectCommandResponses c with
  | inl _ => True
  | inr (false, c') => c' = c
  | inr (true, c') => exists bs, c' = set_banks bs c /\ length bs = num_banks_ c /\
      Forall (idle_bank (finished_ c ++ [k])) bs
  end.
Proof.
  intros Hc Hk Hb. unfold TryCollectCommandResponses. destruct (existsb _ _) eqn:E; [done|]. bcase; [done|].
  rewrite Hc, zip_with_replicate by done. eexists. split; [done|]. split; [apply length_fmap|].
  apply Forall_fmap, Forall_lookup. intros i b Hi. rewrite Forall_lookup in Hb. specialize (Hb i b Hi).
  unfold bank_ids in E. rewrite Hc, length_replicate in E. pose proof (lookup_lt_Some _ _ _ Hi) as Hl.
  pose proof (existsb_seq_false _ _ E i Hl) as Hg. cbn beta in Hg. rewrite (has_command_all c _ k i Hc Hl) in Hg.
  unfold bank_at in Hg. rewrite nth_lookup, Hi in Hg. cbn in Hg. unfold can_get in Hg.
  unfold idle_bank, get_response. cbn. rewrite maint_snoc, Hk.
  destruct Hb as [(_ & Hr & _)|(Hq & [r Hr] & Hp)]; rewrite Hr in *; [done|]. done.
Qed.

(** The part of [HandleCommands] after the commands are prepared. *)
Lemma prepared_spec can_put accepts c k n : sized n c -> (0 < n)%nat -> start (csr_ c) = 1 -> cmd_prepared_ c = true ->
  started_ c = finished_ c ++ [k] -> is_maintenance k = true ->
  bank_commands_ c = replicate (num_banks_ c) (Some k) ->
  Forall (if cmd_dispatched_ c then sent_bank (finished_ c) k else idle_bank (finished_ c)) (banks_ c) ->
  match HandleCommands can_put accepts c with
  | inl _ => True
  | inr c' => cinv n c' /\ (working c' /\ waits c c' \/ resting c' /\ finishes c c')
  end.
Proof.
  intros [Hn1 Hn2] Hn Hs Hp Hst Hk Hc Hb. unfold HandleCommands. rewrite Hs, Hp. cbn [Z.eqb].
  assert (Hpos : (0 <? num_banks_ c)%nat = true) by (unfold num_banks_; rewrite Hn1; by apply Nat.ltb_lt).
  rewrite Hpos. cbn [andb].
  set (d := if negb (cmd_dispatched_ c) then TryDispatchCommands can_put accepts c else inr (true, c)).
  assert (Hd : match d with
    | inl _ => True
    | inr (false, c') => c' = c /\ cmd_dispatched_ c = false
    | inr (true, c') => exists bs, c' = set_banks bs c /\ length bs = num_banks_ c /\ Forall (sent_bank (finished_ c) k) bs
    end).
  { unfold d. destruct (cmd_dispatched_ c) eqn:E; cbn [negb].
    - exists (banks_ c). split; [by destruct c|]. done.
    - pose proof (dispatch_spec can_put accepts c k Hc Hb) as H.
      destruct (TryDispatchCommands can_put accepts c) as [e|[[|] c']]; done. }
  destruct d as [e|[[|] c1]]; [done| |].
  - destruct Hd as (bs & -> & Hl & Hbs). change (num_banks_ (set_banks bs c)) with (length bs).
    rewrite Hl, Hpos. set (c2 := set_progress _ true _ _).
    assert (H2 : num_banks_ c2 = num_banks_ c) by done. rewrite H2, Hpos.
    pose proof (collect_spec c2 k) as H. destruct (TryCollectCommandResponses c2) as [e|[[|] c3]]; [done| |].
    + destruct H as (bs' & -> & Hl' & Hbs'); [by rewrite H2|done|done|].
      assert (Hfin : finished_ c ++ option_list (last (started_ c)) = started_ c).
      { rewrite Hst, last_snoc. done. }
      assert (Hrest : resting (finish_command (set_banks bs' c2))).
      { unfold resting. cbn. rewrite Hfin. rewrite Hst. repeat (split; [done|]). done. }
      split; [split; [split; cbn; [by rewrite Hl', H2|done]|by left]|right; split; [done|]].
      split; [done|]. split; [done|]. exact Hfin.
    + rewrite H by (by rewrite ?H2).
      assert (Hw : working (set_progress (cmd_prepared_ c2) (cmd_dispatched_ c2) OnEdge c2)).
      { exists k. cbn. rewrite Hp. repeat (split; [done|]). split; [unfold num_banks_ in *; cbn in *; lia|]. by rewrite Hc, Hl. }
      split; [split; [split; cbn; [by rewrite Hl|done]|by right]|left; by split].
  - destruct Hd as [-> E].
    assert (Hw : working (set_progress (cmd_prepared_ c) (cmd_dispatched_ c) OnEdge c)).
    { exists k. cbn. rewrite Hp. rewrite E in *. repeat (split; [done|]). split; [unfold num_banks_; lia|]. done. }
    split; [split; [done|by right]|left; by split].
Qed.

Definition prepare (c : CacheController) : CacheController :=
  let c := if (0 <? num_banks_ c)%nat then PrepareBankCommands c else c in
  set_progress true (cmd_dispatched_ c) (next_trigger c) c.

Lemma HandleCommands_prepare can_put accepts c : start (csr_ c) = 1 -> cmd_prepared_ c = false ->
  HandleCommands can_put accepts c = HandleCommands can_put accepts (prepare c).
Proof.
  intros Hs Hp. unfold HandleCommands.
  assert (start (csr_ (prepare c)) = 1) as ->.
  { unfold prepare, PrepareBankCommands. repeat bcase; done. }
  rewrite Hs, Hp. done.
Qed.

(** Without a command for any bank, dispatching and collecting succeed at once. *)
Lemma no_commands can_put accepts c n : bank_commands_ c = replicate n None -> length (banks_ c) = n ->
  TryDispatchCommands can_put accepts c = inr (true, c) /\ TryCollectCommandResponses c = inr (true, c).
Proof.
  intros Hc Hl.
  assert (Hno : forall f, existsb (fun i => has_command c i && f i) (bank_ids c) = false).
  { intros f. apply not_true_is_false. intros H. apply existsb_exists in H as (i & _ & Hi).
    apply andb_true_iff in Hi as [Hi _]. unfold has_command in Hi. apply bool_decide_eq_true in Hi as [k Hk].
    rewrite Hc, nth_lookup in Hk. destruct (replicate n None !! i) as [x|] eqn:E; [|done].
    apply lookup_replicate in E as [-> _]. done. }
  unfold TryDispatchCommands, TryCollectCommandResponses. rewrite !Hno, Hc, !zip_with_replicate by done.
  assert (Hid : forall f : bank -> bank, (forall b, f b = b) -> f <$> banks_ c = banks_ c).
  { intros f Hf. rewrite <- (list_fmap_id (banks_ c)) at 2. apply list_fmap_ext. intros i b _. apply Hf. }
  rewrite !Hid by done. by destruct c.
Qed.

Lemma no_banks can_put accepts c : (0 <? num_banks_ c)%nat = false -> start (csr_ c) = 1 -> cmd_prepared_ c = true ->
  HandleCommands can_put accepts c = inr (finish_command c).
Proof. intros E0 Hs Hp. unfold HandleCommands. rewrite Hs, Hp. cbn [Z.eqb]. rewrite E0. cbn [andb]. by rewrite !E0. Qed.

Lemma loaded_spec can_put accepts c n : sized n c -> loaded c ->
  match HandleCommands can_put accepts c with
  | inl _ => True
  | inr c' => cinv n c' /\ (working c' /\ waits c c' \/ resting c' /\ finishes c c')
  end.
Proof.
  intros [Hn1 Hn2] (Hs & Hp & Hd & Hst & Hb). rewrite HandleCommands_prepare by done.
  set (k := csr_command (csr_ c)) in *.
  destruct (decide (0 < n)%nat) as [Hn|Hn].
  2: { assert (E0 : (0 <? num_banks_ c)%nat = false) by (unfold num_banks_; rewrite Hn1; apply Nat.ltb_ge; lia).
       unfold prepare. rewrite E0, no_banks by done.
       assert (Hfin : finished_ c ++ option_list (last (started_ c)) = started_ c) by (by rewrite Hst, last_snoc).
       assert (Hrest : resting (finish_command (set_progress true (cmd_dispatched_ c) (next_trigger c) c))).
       { unfold resting. cbn. rewrite Hfin. repeat (split; [done|]).
         destruct (banks_ c); [done|cbn in Hn1; lia]. }
       split; [split; [done|by left]|right; by split]. }
  assert (Hpos : (0 <? num_banks_ c)%nat = true) by (unfold num_banks_; rewrite Hn1; by apply Nat.ltb_lt).
  assert (Hprep : prepare c = set_progress true false (next_trigger c)
     (set_commands (replicate (num_banks_ c) (if is_maintenance k then Some k else None)) c)).
  { unfold prepare. rewrite Hpos. unfold PrepareBankCommands. rewrite Hn2, <- Hn1. fold (num_banks_ c).
    unfold is_maintenance, k, csr_command. cbn [cmd_opcode].
    destruct (opcode (csr_ c) =? kFlush), (opcode (csr_ c) =? kInvalidate); cbn; by rewrite Hd. }
  rewrite Hprep. destruct (is_maintenance k) eqn:Ek.
  - set (c1 := set_progress _ _ _ _). pose proof (prepared_spec can_put accepts c1 k n) as H.
    apply H; try done. split; [done|]. cbn. by rewrite length_replicate.
  - set (c1 := set_progress _ _ _ _). unfold HandleCommands. change (csr_ c1) with (csr_ c). rewrite Hs.
    cbn [Z.eqb]. change (cmd_prepared_ c1) with true. cbn [negb]. change (num_banks_ c1) with (num_banks_ c). rewrite Hpos.
    change (cmd_dispatched_ c1) with false. cbn [andb negb].
    rewrite (proj1 (no_commands can_put accepts c1 (num_banks_ c) eq_refl eq_refl)).
    change (num_banks_ c1) with (num_banks_ c). rewrite Hpos. set (c2 := set_progress _ true _ c1).
    change (num_banks_ c2) with (num_banks_ c). rewrite Hpos.
    rewrite (proj2 (no_commands can_put accepts c2 (num_banks_ c) eq_refl eq_refl)).
    assert (Hfin : finished_ c ++ option_list (last (started_ c)) = started_ c) by (by rewrite Hst, last_snoc).
    assert (Hrest : resting (finish_command c2)).
    { unfold resting. cbn. rewrite Hfin. repeat (split; [done|]). eapply Forall_impl; [exact Hb|].
      intros b (? & ? & Hm). unfold idle_bank. by rewrite Hst, maint_snoc, Ek, app_nil_r. }
    split; [split; [split; [done|cbn; by rewrite length_replicate]|by left]|right; by split].
Qed.

Lemma commands_spec can_put accepts c n : sized n c -> working c ->
  match HandleCommands can_put accepts c with
  | inl _ => True
  | inr c' => cinv n c' /\ (working c' /\ waits c c' \/ resting c' /\ finishes c c')
  end.
Proof.
  intros Hn (k & Hs & Hp & Ht & Hst & Hk & Hpos & Hc & Hb). apply (prepared_spec _ _ _ k); try done.
  destruct Hn as [<- _]. done.
Qed.

(** What an access does to a resting and to a working controller. *)
Lemma mmio_cases a c r n c' : HandleMmioReq a c = (r, n, c') ->
  (n = false /\ c' = c) \/
  (n = false /\ exists x, start x = start (csr_ c) /\ c' = set_csr x c) \/
  (n = true /\ start (csr_ c) = 0 /\
     c' = set_started (started_ c ++ [csr_command (csr_ c)]) (set_csr (set_start 1 (csr_ c)) c)).
Proof.
  unfold HandleMmioReq. bcase; [intros [= <- <- <-]; by left|].
  destruct (a_cmd a); [intros [= <- <- <-]; by left| |intros [= <- <- <-]; by left].
  destruct (a_addr a =? 0) eqn:Ea.
  - destruct (start (csr_ c) =? 0) eqn:Es; cbn [andb]; [|intros [= <- <- <-]; by left].
    bcase; [|intros [= <- <- <-]; by left]. intros [= <- <- <-]. bprop. right; right. done.
  - intros [= <- <- <-]. right; left. split; [done|]. eexists. split; [|done].
    unfold csr_patch. by repeat bcase.
Qed.

Lemma resting_store c x : start x = start (csr_ c) -> resting c -> resting (set_csr x c).
Proof. intros Hx (Hs & H). unfold resting. cbn. by rewrite Hx. Qed.
Lemma working_store c x : start x = start (csr_ c) -> working c -> working (set_csr x c).
Proof. intros Hx (k & Hs & H). exists k. cbn. by rewrite Hx. Qed.
Lemma resting_loaded c : resting c ->
  loaded (set_started (started_ c ++ [csr_command (csr_ c)]) (set_csr (set_start 1 (csr_ c)) c)).
Proof. intros (Hs & Hp & Hd & Ht & Hst & Hb). unfold loaded. cbn. by rewrite Hst. Qed.

Lemma edge_inv n f req can_put accepts c c' : cinv n c -> clock_edge f req can_put accepts c = inr c' -> cinv n c'.
Proof.
  intros [Hn Hc] He. unfold clock_edge in He.
  set (first := if on_edge c && f then _ else _) in He.
  assert (Hfirst : match first with inl _ => True | inr c1 => cinv n c1 /\ (on_edge c && negb f = true -> working c1) end).
  { unfold first. destruct (on_edge c) eqn:Eo; cbn [andb].
    - assert (working c) as Hw.
      { destruct Hc as [(_ & _ & _ & Ht & _)|Hw]; [|done]. unfold on_edge in Eo. by rewrite Ht in Eo. }
      destruct f; [|by split; [split; [done|right]|]].
      pose proof (commands_spec can_put accepts c n Hn Hw) as H.
      destruct (HandleCommands can_put accepts c); [done|]. by destruct H.
    - by split. }
  destruct first as [e|c1]; [done|]. destruct Hfirst as [[Hn1 Hc1] Hw1].
  destruct (match req with Some a => _ | None => _ end) as [notified c2] eqn:Er.
  assert (H2 : sized n c2 /\ (if notified then loaded c2 else (resting c2 \/ working c2) /\
             (on_edge c && negb f = true -> working c2))).
  { destruct req as [a|]; [|by injection Er as <- <-].
    destruct (HandleMmioReq a c1) as [[r m] c3] eqn:Em. injection Er as <- <-.
    apply mmio_cases in Em as [(-> & ->)|[(-> & x & Hx & ->)|(-> & H0 & ->)]]; [done| |].
    - split; [done|]. split; [|intros Ho; by apply working_store, Hw1].
      destruct Hc1; [left; by apply resting_store|right; by apply working_store].
    - split; [done|]. apply resting_loaded. destruct Hc1 as [|(k & Hs & _)]; [done|congruence]. }
  destruct H2 as [Hn2 H2]. destruct notified; cbn [orb] in He.
  - pose proof (loaded_spec can_put accepts c2 n Hn2 H2) as H. rewrite He in H. by destruct H.
  - destruct H2 as [H2 Hw2]. destruct (on_edge c && negb f).
    + pose proof (commands_spec can_put accepts c2 n Hn2 (Hw2 eq_refl)) as H. rewrite He in H. by destruct H.
    + injection He as <-. done.
Qed.

Lemma bank_inv n i ok c : cinv n c -> cinv n (set_banks (alter (bank_done ok) i (banks_ c)) c).
Proof.
  intros [[Hn1 Hn2] Hc]. split; [split; cbn; [by rewrite length_alter|done]|].
  assert (Hidle : forall F, Forall (idle_bank F) (banks_ c) -> Forall (idle_bank F) (alter (bank_done ok) i (banks_ c))).
  { intros F HF. apply Forall_alter; [done|]. intros b Hb (Hq & Hr & Hp). unfold bank_done. by rewrite Hq. }
  destruct Hc as [(Hs & Hp & Hd & Ht & Hst & Hb)|(k & Hs & Hp & Ht & Hst & Hk & Hpos & Hc & Hb)].
  - left. unfold resting. cbn. repeat (split; [done|]). by apply Hidle.
  - right. exists k. unfold num_banks_ in *. cbn. rewrite length_alter. repeat (split; [done|]).
    destruct (cmd_dispatched_ c); [|auto]. apply Forall_alter; [done|]. intros b _ Hsent. unfold bank_done.
    destruct Hsent as [(Hq & Hr & Hpf)|(Hq & Hr & Hpf)]; rewrite Hq; [|right; done].
    right. cbn. rewrite Hr, Hpf. split; [done|]. split; [by eexists|done].
Qed.

Lemma cc_reach_inv n c : cc_reach n c -> cinv n c.
Proof.
  induction 1 as [|c a c' _ IH He].
  - split; [split; cbn; apply length_replicate|]. left. repeat (split; [done|]). cbn. by apply Forall_replicate.
  - destruct a as [f req can_put accepts|i ok]; cbn in He; [by eapply edge_inv|]. injection He as <-. by apply bank_inv.
Qed.

(** ** The controller behind Cache.v *)

Definition cmd_args (k : CacheCommand) : Z * Z * Z := (cmd_addr k, cmd_size k, cmd_opcode k).

(** The registers of cache [k] of SM [i] and what it has run, as the firmware model has
    them. The registers of a started command have not changed since. *)
Record agree (c : CacheController) (s : cache_sys) (i : nat) (k : cache_id) : Prop := {
  ag_regs : get_cc (banks s) i k =
    mkCacheControl (start (csr_ c)) (addr (csr_ c)) (size (csr_ c)) (opcode (csr_ c));
  ag_ran : ran s i k = cmd_args <$> finished_ c;
  ag_started : start (csr_ c) <> 0 -> started_ c = finished_ c ++ [csr_command (csr_ c)];
  ag_fits : fits 64 (addr (csr_ c)) /\ fits 64 (size (csr_ c)) /\ fits 64 (opcode (csr_ c));
}.

(** The stores of [start_on_every_sm] (cp_cache.c). *)
Definition fw_access (op : cache_op) (st : cc_store) : mmio_access :=
  let '(a, v) := match st with
                 | StAddr => (0x08, cop_addr op)
                 | StSize => (0x10, cop_size op)
                 | StMode => (0x18, CacheOpMode_code (cop_mode op))
                 | StStart => (0x00, 1)
                 end in
  mkAccess MWrite a 8 (Some v).

(** An access that changes nothing: anything but a write. *)
Definition quiet (req : option mmio_access) : Prop :=
  match req with Some a => a_cmd a <> MWrite | None => True end.
(** The store the starting task is at, to this controller. *)
Definition fw_store (s : cache_sys) (i : nat) (k : cache_id) (req : option mmio_access) : Prop :=
  exists op st, req = Some (fw_access op st) /\ spc s = SStore op i k st /\ targeted (cop_targets op) k = true /\
    fits 64 (cop_addr op) /\ fits 64 (cop_size op).

Lemma patch_word v old : fits 64 v -> fits 64 old -> patch 8 v old = v.
Proof. unfold patch, fits. intros Hv Ho. rewrite !Z.mod_small by done. lia. Qed.

Lemma agree_waits c c' s i k : waits c c' -> agree c s i k -> agree c' s i k.
Proof. intros (Hc & Hs & Hf) [A1 A2 A3 A4]. constructor; by rewrite ?Hc, ?Hs, ?Hf. Qed.

Lemma agree_finishes c c' s i k : (i < length (banks s))%nat -> start (csr_ c) <> 0 -> finishes c c' -> agree c s i k ->
  agree c' (hw_finish i k s) i k.
Proof.
  intros Hi H0 (Hc & Hs & Hf) [A1 A2 A3 A4]. constructor; rewrite ?Hc, ?Hs, ?Hf; try done.
  - unfold hw_finish. cbn [banks]. rewrite get_set_cc, decide_True, A1 by done. done.
  - unfold hw_finish, fupd_ran. cbn [ran]. rewrite decide_True, A1, A2, (A3 H0) by done. by rewrite fmap_app.
Qed.

Lemma mmio_quiet a c : a_cmd a <> MWrite -> exists r, HandleMmioReq a c = (r, false, c).
Proof. intros Ha. unfold HandleMmioReq. bcase; [by eexists|]. destruct (a_cmd a); [by eexists|done|by eexists]. Qed.

(** A store of the starting task, as the controller sees it. *)
Lemma mmio_fw_store num_sm c s i k op st : (i < length (banks s))%nat ->
  spc s = SStore op i k st -> targeted (cop_targets op) k = true -> fits 64 (cop_addr op) -> fits 64 (cop_size op) ->
  start (csr_ c) = 0 -> started_ c = finished_ c -> agree c s i k ->
  exists r n c', HandleMmioReq (fw_access op st) c = (r, n, c') /\ agree c' (starter_step num_sm s) i k /\
    (n = false -> c' = set_csr (csr_ c') c) /\
    (n = true -> c' = set_started (started_ c ++ [csr_command (csr_ c)]) (set_csr (set_start 1 (csr_ c)) c)).
Proof.
  intros Hi Hpc Ht Hfa Hfs H0 Hst [A1 A2 A3 (F1 & F2 & F3)].
  assert (Hm : fits 64 (CacheOpMode_code (cop_mode op))) by (unfold fits; destruct (cop_mode op); cbn; lia).
  assert (Hb : get_cc (banks (starter_step num_sm s)) i k = store_cc op st (get_cc (banks s) i k)).
  { unfold starter_step. rewrite Hpc, Ht. cbn [banks]. by rewrite get_set_cc, decide_True. }
  assert (Hr : ran (starter_step num_sm s) = ran s) by (unfold starter_step; by rewrite Hpc, Ht).
  destruct st; unfold HandleMmioReq, fw_access; cbn; rewrite ?H0; cbn; eexists _, _, _;
    (split; [reflexivity|]; split; [|split; [done|done]]);
    constructor; cbn; rewrite ?Hb, ?Hr, ?A1, ?A2, ?patch_word, ?H0, ?Hst by done; cbn; rewrite ?H0; done.
Qed.

(** A cache the starting task is storing to is idle. *)
Lemma storing_idle num_sm gen s0 s op i k st : (0 < num_sm)%nat -> cache_init num_sm s0 -> cache_reach num_sm gen s0 s ->
  (i < num_sm)%nat -> spc s = SStore op i k st -> CONTROL_START (get_cc (banks s) i k) = 0.
Proof.
  intros Hn H0 Hr Hi Hpc. destruct (cache_reach_inv _ _ _ _ Hn H0 Hr) as [_ Hc].
  destruct (cur s) as [o|]; [|destruct Hc as (_ & Hcl & _); by rewrite Hpc in Hcl].
  destruct Hc as (_ & _ & _ & _ & _ & Hall). specialize (Hall i k Hi). unfold cc_inv in Hall. rewrite Hpc in Hall.
  cbn [issued] in Hall. rewrite Nat.ltb_irrefl, Nat.eqb_refl, bool_decide_false, andb_false_r in Hall.
  - apply Hall.
  - intros [-> ?]. done.
Qed.

Lemma edge_quiet_resting f req can_put accepts c : resting c -> quiet req ->
  clock_edge f req can_put accepts c = inr c.
Proof.
  intros (_ & _ & _ & Ht & _) Hq. unfold clock_edge, on_edge. rewrite Ht. cbn [andb].
  destruct req as [a|]; [|done]. by destruct (mmio_quiet a c Hq) as [r ->].
Qed.
Lemma edge_quiet_working f req can_put accepts c : working c -> quiet req ->
  clock_edge f req can_put accepts c = HandleCommands can_put accepts c.
Proof.
  intros (k & _ & _ & Ht & _) Hq. unfold clock_edge, on_edge. rewrite Ht. cbn [andb].
  destruct f; cbn [negb].
  - destruct (HandleCommands can_put accepts c) as [e|c1]; [done|]. destruct req as [a|]; [|done].
    by destruct (mmio_quiet a c1 Hq) as [r ->].
  - destruct req as [a|]; [|done]. by destruct (mmio_quiet a c Hq) as [r ->].
Qed.

(** ** Properties *)

(** C7. The controller implements the cache controllers the firmware is verified
    against: with the firmware of Cache.v in any reachable state at one of its stores to
    this controller, or not accessing it, a clock edge in any order of the two methods,
    or a bank's progress, leaves the registers and the operations run as the model has
    them, after the firmware's store and at most one step in which the model's
    controller finishes. *)
Theorem cache_controller_refines n num_sm gen s0 s i k c a c' :
  (0 < num_sm)%nat -> cache_init num_sm s0 -> cache_reach num_sm gen s0 s -> (i < num_sm)%nat ->
  cc_reach n c -> agree c s i k -> cc_exec a c = inr c' ->
  let quiet_step := match a with AEdge _ req _ _ => quiet req | ABank _ _ => True end in
  let store_step := match a with AEdge _ req _ _ => fw_store s i k req | ABank _ _ => False end in
  let ends s1 := agree c' s1 i k \/
    cache_step num_sm gen s1 (hw_finish i k s1) /\ agree c' (hw_finish i k s1) i k in
  (quiet_step -> ends s) /\ (store_step -> ends (starter_step num_sm s)).
Proof.
  intros Hnum Hinit Hr Hi Hc Ha He. pose proof (cc_reach_inv n c Hc) as [Hn Hinv].
  assert (Hlen : (i < length (banks s))%nat).
  { destruct (cache_reach_inv _ _ _ _ Hnum Hinit Hr) as [? _]. lia. }
  destruct a as [f req can_put accepts|j ok]; cbv zeta beta.
  2: { cbn in He. injection He as <-. split; [|done]. intros _. left. by apply (agree_waits c). }
  cbn in He. split.
  - intros Hq. destruct Hinv as [Hrest|Hwork].
    + rewrite edge_quiet_resting in He by done. injection He as <-. by left.
    + rewrite edge_quiet_working in He by done. pose proof (commands_spec can_put accepts c n Hn Hwork) as H.
      rewrite He in H. destruct Hwork as (x & Hs & _). destruct H as [_ [[_ Hw]|[_ Hf]]]; [left; by eapply agree_waits|].
      right. split; [|eapply agree_finishes; [done| |exact Hf|done]; lia]. constructor; [done|].
      rewrite (ag_regs _ _ _ _ Ha). cbn. lia.
  - intros (op & st & -> & Hpc & Ht & Hf1 & Hf2).
    assert (H0 : start (csr_ c) = 0).
    { pose proof (storing_idle _ _ _ _ _ _ _ _ Hnum Hinit Hr Hi Hpc) as H. by rewrite (ag_regs _ _ _ _ Ha) in H. }
    destruct Hinv as [Hrest|(x & Hs & _)]; [|congruence].
    destruct (mmio_fw_store num_sm c s i k op st) as (r & m & c2 & Hm & Ha2 & Hm1 & Hm2); try done; [by apply Hrest|].
    assert (Hlen2 : (i < length (banks (starter_step num_sm s)))%nat).
    { unfold starter_step. rewrite Hpc, Ht. cbn. unfold set_cc. by rewrite length_insert. }
    unfold clock_edge, on_edge in He. pose proof Hrest as (_ & _ & _ & Hot & _).
    rewrite Hot in He. cbn [andb] in He. rewrite Hm in He. destruct m; cbn [orb] in He; [|injection He as <-; by left].
    assert (Hload : loaded c2) by (rewrite Hm2 by done; by apply resting_loaded).
    assert (Hn2 : sized n c2) by (rewrite Hm2 by done; exact Hn).
    pose proof (loaded_spec can_put accepts c2 n Hn2 Hload) as H. rewrite He in H. destruct Hload as (Hs2 & _).
    destruct H as [_ [[_ Hw]|[_ Hf]]]; [left; by eapply agree_waits|].
    right. split; [|eapply agree_finishes; [done| |exact Hf|done]; lia]. constructor; [done|].
    rewrite (ag_regs _ _ _ _ Ha2). cbn. lia.
Qed.

(** A finished command was done by every bank: after any sequence of accesses and
    bank answers, each bank has performed the flushes and invalidates finished so far,
    each once and in the order in which they were started, and at most the started one
    besides; while START is clear, everything started is finished. *)
Theorem every_bank_performs n c b : cc_reach n c -> b ∈ banks_ c ->
  (start (csr_ c) = 0 -> finished_ c = started_ c /\ performed b = maint (started_ c)) /\
  exists rest, performed b = maint (finished_ c) ++ rest /\
    (rest = [] \/ exists k, rest = [k] /\ started_ c = finished_ c ++ [k]).
Proof.
  intros Hr Hb. destruct (cc_reach_inv n c Hr) as [_ [(Hs & _ & _ & _ & Hst & Hall)|(k & Hs & _ & _ & Hst & _ & _ & _ & Hall)]];
    rewrite Forall_forall in Hall; specialize (Hall b Hb).
  - destruct Hall as (_ & _ & Hp). rewrite <- Hst in Hp |- *. split; [done|]. exists []. rewrite app_nil_r. auto.
  - split; [intros; lia|]. destruct (cmd_dispatched_ c).
    + destruct Hall as [(_ & _ & Hp)|(_ & _ & Hp)]; [exists []; rewrite app_nil_r; auto|]. exists [k]. eauto.
    + destruct Hall as (_ & _ & Hp). exists []. rewrite app_nil_r. auto.
Qed.

(** A started command ends: at an edge at which every bank can take it, all banks
    are sent the command; and at the first edge with all answers there, and all of them
    positive, START is cleared. *)
Theorem started_command_ends n c f req can_put accepts : cc_reach n c -> start (csr_ c) <> 0 -> quiet req ->
  (cmd_dispatched_ c = false -> (forall i, can_put i = true /\ accepts i = true) ->
   exists c' k, clock_edge f req can_put accepts c = inr c' /\ last (started_ c) = Some k /\
     cmd_dispatched_ c' = true /\ Forall (fun b => queue b = [k]) (banks_ c')) /\
  (cmd_dispatched_ c = true -> Forall (fun b => responses b = [true]) (banks_ c) ->
   exists c', clock_edge f req can_put accepts c = inr c' /\ start (csr_ c') = 0 /\ finished_ c' = started_ c).
Proof.
  intros Hr H0 Hq. destruct (cc_reach_inv n c Hr) as [Hn [(Hs & _)|Hw]]; [done|].
  rewrite !(edge_quiet_working _ _ _ _ _ Hw Hq). pose proof Hw as (k & Hs & Hp & Ht & Hst & Hk & Hpos & Hc & Hb).
  assert (Hz : (0 <? num_banks_ c)%nat = true) by (by apply Nat.ltb_lt).
  assert (Hids : forall g, (forall i, (i < num_banks_ c)%nat -> g i = false) ->
    existsb (fun i => has_command c i && g i) (bank_ids c) = false).
  { intros g Hg. apply not_true_is_false. intros H. apply existsb_exists in H as (i & Hi & Hgi).
    unfold bank_ids in Hi. rewrite Hc, length_replicate in Hi. apply in_seq in Hi.
    rewrite Hg, andb_false_r in Hgi by lia. done. }
  split.
  - intros Hd Hall. rewrite Hd in Hb. unfold HandleCommands. rewrite Hs, Hp, Hz, Hd. cbn [Z.eqb andb negb].
    unfold TryDispatchCommands. rewrite !Hids by (intros i _; by destruct (Hall i) as [Hp1 Hp2]; rewrite ?Hp1, ?Hp2).
    rewrite Hc, zip_with_replicate by done. set (c1 := set_banks _ c).
    assert (Hz1 : (0 <? num_banks_ c1)%nat = true) by (unfold num_banks_, c1; cbn; by rewrite length_fmap).
    rewrite Hz1. set (c2 := set_progress _ true _ c1). change (num_banks_ c2) with (num_banks_ c1). rewrite Hz1.
    assert (Hb2 : banks_ c2 = put_command (Some k) <$> banks_ c) by done.
    assert (E : existsb (fun i => has_command c2 i && negb (can_get (bank_at c2 i))) (bank_ids c2) = true).
    { apply existsb_exists. exists 0%nat. unfold bank_ids. change (bank_commands_ c2) with (bank_commands_ c). split.
      - apply in_seq. rewrite Hc, length_replicate. lia.
      - change (has_command c2 0) with (has_command c 0). rewrite (has_command_all c _ k 0 Hc Hpos).
        unfold bank_at. rewrite Hb2, nth_lookup, list_lookup_fmap. unfold num_banks_ in Hpos.
        apply lookup_lt_is_Some_2 in Hpos as [b Hb0]. rewrite Hb0. cbn. rewrite Forall_lookup in Hb.
        destruct (Hb 0%nat b Hb0) as (_ & Hr0 & _). unfold can_get. cbn. by rewrite Hr0. }
    unfold TryCollectCommandResponses. rewrite E. exists (set_progress true true OnEdge c2), k.
    split; [cbn; by rewrite Hp|]. split; [by rewrite Hst, last_snoc|]. split; [done|]. cbn [banks_ set_progress].
    rewrite Hb2. apply Forall_fmap. eapply Forall_impl; [exact Hb|]. intros b (Hq0 & _). cbn. by rewrite Hq0.
  - intros Hd Hall. pose proof (commands_spec can_put accepts c n Hn Hw) as H. revert H.
    unfold HandleCommands. rewrite Hs, Hp, Hz, Hd. cbn [Z.eqb andb negb]. rewrite Hz.
    set (c2 := set_progress _ true _ c). change (num_banks_ c2) with (num_banks_ c). rewrite Hz.
    unfold TryCollectCommandResponses. change (has_command c2) with (has_command c). change (bank_ids c2) with (bank_ids c).
    assert (Hresp : forall i, (i < num_banks_ c)%nat -> responses (bank_at c2 i) = [true]).
    { intros i Hi. unfold bank_at. change (banks_ c2) with (banks_ c). rewrite nth_lookup.
      apply lookup_lt_is_Some_2 in Hi as [b Hi]. rewrite Hi. rewrite Forall_lookup in Hall. by apply (Hall i). }
    rewrite !Hids by (intros i Hi; unfold can_get; by rewrite Hresp).
    intros _. eexists. split; [reflexivity|]. cbn. by rewrite Hst, last_snoc.
Qed.

(** ** Two banks and an invalidate *)

Fixpoint cc_run (acts : list cc_action) (c : CacheController) : option CacheController :=
  match acts with
  | [] => Some c
  | a :: acts => match cc_exec a c with inl _ => None | inr c' => cc_run acts c' end
  end.
Lemma cc_run_reach n acts c c' : cc_reach n c -> cc_run acts c = Some c' -> cc_reach n c'.
Proof.
  revert c. induction acts as [|a acts IH]; intros c Hr He; cbn in He; [by injection He as <-|].
  destruct (cc_exec a c) eqn:E; [done|]. eapply IH; [|exact He]. by eapply cc_next.
Qed.

Definition sample_edge (req : option mmio_access) : cc_action := AEdge true req (fun _ => true) (fun _ => true).
Definition sample_started : list cc_action :=
  (fun st => sample_edge (Some (fw_access sample_cop st))) <$> [StAddr; StSize; StMode; StStart].
Definition sample_done : list cc_action := sample_started ++ [ABank 1 true; sample_edge None; ABank 0 true; sample_edge None].
Definition sample_ctl (acts : list cc_action) : CacheController := default (controller_init 2) (cc_run acts (controller_init 2)).

Lemma sample_ctl_reach acts : bool_decide (is_Some (cc_run acts (controller_init 2))) = true -> cc_reach 2 (sample_ctl acts).
Proof.
  intros H. apply bool_decide_eq_true in H as [c Hc]. unfold sample_ctl. rewrite Hc.
  eapply cc_run_reach; [constructor|exact Hc].
Qed.

Definition sample_storing : cache_sys := cache_run 2 1 (ASubmit sample_cop :: replicate 5 AStarter) sample_sys.

Lemma cache_controller_refines_witness :
  let c' := sample_ctl (take 1 sample_started) in
  let s1 := starter_step 2 sample_storing in
  CONTROL_ADDR (get_cc (banks s1) 0 ICache) = 4096 /\
  (agree c' s1 0 ICache \/ cache_step 2 1 s1 (hw_finish 0 ICache s1) /\ agree c' (hw_finish 0 ICache s1) 0 ICache).
Proof.
  split; [vm_compute; reflexivity|].
  refine (proj2 (cache_controller_refines 2 2 1 sample_sys sample_storing 0 ICache (controller_init 2)
    (sample_edge (Some (fw_access sample_cop StAddr))) (sample_ctl (take 1 sample_started)) _ _ _ _ _ _ _) _).
  - lia.
  - exact sample_sys_init.
  - apply cache_run_reach. constructor.
  - lia.
  - constructor.
  - constructor; [vm_compute; reflexivity..| |].
    + intros H. destruct (H eq_refl).
    + unfold fits. cbn. lia.
  - vm_compute. reflexivity.
  - exists sample_cop, StAddr. unfold fits. cbn. repeat split; try reflexivity; lia.
Defined.

Lemma every_bank_performs_witness :
  performed (bank_at (sample_ctl sample_done) 1) = [mkCommand 4096 64 2] /\
  start (csr_ (sample_ctl sample_done)) = 0 /\
  performed (bank_at (sample_ctl sample_done) 1) = maint (started_ (sample_ctl sample_done)).
Proof.
  assert (H0 : start (csr_ (sample_ctl sample_done)) = 0) by (vm_compute; reflexivity).
  split; [vm_compute; reflexivity|]. split; [exact H0|].
  refine (proj2 (proj1 (every_bank_performs 2 (sample_ctl sample_done) (bank_at (sample_ctl sample_done) 1) _ _) H0)).
  - apply sample_ctl_reach. vm_compute. reflexivity.
  - vm_compute. right. left.
Defined.

Lemma started_command_ends_witness : exists c',
  clock_edge true None (fun _ => true) (fun _ => true) (sample_ctl (take 7 sample_done)) = inr c' /\
  start (csr_ c') = 0 /\ finished_ c' = [mkCommand 4096 64 2].
Proof.
  destruct (proj2 (started_command_ends 2 (sample_ctl (take 7 sample_done)) true None (fun _ => true) (fun _ => true)
    ltac:(apply sample_ctl_reach; vm_compute; reflexivity) ltac:(vm_compute; discriminate) I))
    as (c' & H1 & H2 & H3); [vm_compute; reflexivity|vm_compute; repeat constructor|].
  exists c'. split; [exact H1|]. split; [exact H2|]. rewrite H3. vm_compute. reflexivity.
Defined.
