(* ===== verification/BitSolve.v ===== *)
(** * Equality of bit-field expressions by reflection

    The instruction decoder takes words apart and puts them together with masks,
    shifts and conversions between widths. Two such expressions over the same
    variables are equal when every bit of both is the same constant or the same bit of
    the same variable, and [bit_solve] decides that: it reads the two sides as
    [bexp]s, computes their bits symbolically up to a width past which they no longer
    change, and compares. *)

From S2P Require Import Prelude.

Lemma testbit_wrap w x n : 0 <= w -> 0 <= n -> Z.testbit (wrap w x) n = (n <? w) && Z.testbit x n.
Proof.
  intros Hw Hn. unfold wrap. destruct (n <? w) eqn:E; bprop; cbn [andb].
  - apply Z.mod_pow2_bits_low. lia.
  - apply Z.mod_pow2_bits_high. lia.
Qed.

Lemma testbit_swrap w x n : 0 < w -> 0 <= n ->
  Z.testbit (swrap w x) n = Z.testbit x (if n <? w then n else w - 1).
Proof.
  intros Hw Hn. unfold swrap. cbv zeta. set (y := x mod 2 ^ w).
  assert (Hy : 0 <= y < 2 ^ w) by (apply Z.mod_pos_bound; lia).
  assert (Hp : 2 ^ w = 2 * 2 ^ (w - 1)) by (rewrite <- Z.pow_succ_r by lia; f_equal; lia).
  assert (Hbit : forall m, 0 <= m < w -> Z.testbit y m = Z.testbit x m)
    by (intros m Hm; apply Z.mod_pow2_bits_low; lia).
  assert (Hsign : Z.testbit y (w - 1) = negb (y <? 2 ^ (w - 1))).
  { rewrite Z.testbit_eqb by lia. destruct (y <? 2 ^ (w - 1)) eqn:E; bprop; cbn.
    - rewrite Z.div_small by lia. done.
    - replace (y / 2 ^ (w - 1)) with 1; [done|]. apply Z.div_unique with (r := y - 2 ^ (w - 1)); lia. }
  destruct (n <? w) eqn:E; bprop.
  - rewrite <- Hbit by lia. destruct (y <? 2 ^ (w - 1)); [done|].
    rewrite <- (Z.mod_pow2_bits_low (y - 2 ^ w) w) by lia. rewrite <- (Z.mod_pow2_bits_low y w) by lia. f_equal.
    rewrite <- (Z.mod_add (y - 2 ^ w) 1 (2 ^ w)) by lia. f_equal. lia.
  - rewrite <- Hbit by lia. rewrite Hsign. destruct (y <? 2 ^ (w - 1)) eqn:Ey; bprop; cbn.
    + rewrite <- (Z.mod_small y (2 ^ w)) by lia. apply Z.mod_pow2_bits_high. lia.
    + replace (y - 2 ^ w) with (Z.lnot (2 ^ w - 1 - y)) by (unfold Z.lnot; lia). rewrite Z.lnot_spec by lia.
      rewrite <- (Z.mod_small (2 ^ w - 1 - y) (2 ^ w)) by lia. rewrite Z.mod_pow2_bits_high by lia. done.
Qed.

(** The bits of a constant no longer change past its size. *)
Lemma testbit_tail c N n : 0 <= N -> - 2 ^ N <= c < 2 ^ N -> N <= n -> Z.testbit c n = Z.testbit c N.
Proof.
  intros HN Hc Hn. assert (Hcase : forall m, N <= m -> Z.testbit c m = (c <? 0)).
  { intros m Hm. destruct (c <? 0) eqn:E; bprop.
    - replace c with (Z.lnot (- c - 1)) by (unfold Z.lnot; lia). rewrite Z.lnot_spec by lia.
      rewrite <- (Z.mod_small (- c - 1) (2 ^ N)) by lia. by rewrite Z.mod_pow2_bits_high by lia.
    - rewrite <- (Z.mod_small c (2 ^ N)) by lia. by rewrite Z.mod_pow2_bits_high by lia. }
  by rewrite !Hcase by lia.
Qed.

(** ** Expressions *)

Inductive bexp :=
  | BVar (v : nat)
  | BConst (c : Z)
  | BAnd (a b : bexp)
  | BOr (a b : bexp)
  | BXor (a b : bexp)
  | BShl (a : bexp) (k : Z)
  | BShr (a : bexp) (k : Z)
  | BWrap (w : Z) (a : bexp)
  | BSwrap (w : Z) (a : bexp).

Fixpoint bden (env : list Z) (e : bexp) : Z :=
  match e with
  | BVar v => nth v env 0
  | BConst c => c
  | BAnd a b => Z.land (bden env a) (bden env b)
  | BOr a b => Z.lor (bden env a) (bden env b)
  | BXor a b => Z.lxor (bden env a) (bden env b)
  | BShl a k => Z.shiftl (bden env a) k
  | BShr a k => Z.shiftr (bden env a) k
  | BWrap w a => wrap w (bden env a)
  | BSwrap w a => swrap w (bden env a)
  end.

(** A bit: a constant, a bit of a variable, or a combination of bits. *)
Inductive sbit := SFalse | STrue | SBit (v : nat) (k : Z) | SAnd (a b : sbit) | SOr (a b : sbit)
  | SXor (a b : sbit).

#[global] Instance sbit_eq_dec : EqDecision sbit.
Proof. solve_decision. Defined.

Fixpoint sden (env : list Z) (s : sbit) : bool :=
  match s with
  | SFalse => false
  | STrue => true
  | SBit v k => Z.testbit (nth v env 0) k
  | SAnd a b => sden env a && sden env b
  | SOr a b => sden env a || sden env b
  | SXor a b => xorb (sden env a) (sden env b)
  end.

Definition sand (a b : sbit) : sbit :=
  match a, b with
  | SFalse, _ | _, SFalse => SFalse
  | STrue, s | s, STrue => s
  | _, _ => SAnd a b
  end.
Definition sor (a b : sbit) : sbit :=
  match a, b with
  | STrue, _ | _, STrue => STrue
  | SFalse, s | s, SFalse => s
  | _, _ => SOr a b
  end.

Fixpoint bit (e : bexp) (n : Z) : sbit :=
  if n <? 0 then SFalse else
  match e with
  | BVar v => SBit v n
  | BConst c => if Z.testbit c n then STrue else SFalse
  | BAnd a b => sand (bit a n) (bit b n)
  | BOr a b => sor (bit a n) (bit b n)
  | BXor a b => SXor (bit a n) (bit b n)
  | BShl a k => bit a (n - k)
  | BShr a k => bit a (n + k)
  | BWrap w a => if n <? w then bit a n else SFalse
  | BSwrap w a => bit a (if n <? w then n else w - 1)
  end.

(** The widths and shift counts of an expression make sense. *)
Fixpoint bok (e : bexp) : bool :=
  match e with
  | BVar _ | BConst _ => true
  | BAnd a b | BOr a b | BXor a b => bok a && bok b
  | BShl a k | BShr a k => (0 <=? k) && bok a
  | BWrap w a | BSwrap w a => (0 <? w) && bok a
  end.

(** The bits of an expression no longer change from [N] on. *)
Fixpoint stable (e : bexp) (N : Z) : bool :=
  (0 <=? N) &&
  match e with
  | BVar _ => false
  | BConst c => (- 2 ^ N <=? c) && (c <? 2 ^ N)
  | BAnd a b =>
      (stable a N && stable b N)
      || match b with BConst c => (0 <=? c) && (c <? 2 ^ N) | _ => false end
  | BOr a b | BXor a b => stable a N && stable b N
  | BShl a k => stable a (N - k)
  | BShr a k => stable a (N + k)
  | BWrap w a => w <=? N
  | BSwrap w a => w <=? N + 1
  end.

Definition bits_agree (a b : bexp) (N : Z) : bool :=
  bok a && bok b && stable a N && stable b N
  && forallb (fun n => bool_decide (bit a n = bit b n)) (seqZ 0 (N + 1)).

(** ** Correctness *)

Lemma sand_den env a b : sden env (sand a b) = sden env a && sden env b.
Proof. destruct a, b; cbn; rewrite ?andb_false_r, ?andb_true_r; reflexivity. Qed.
Lemma sor_den env a b : sden env (sor a b) = sden env a || sden env b.
Proof. destruct a, b; cbn; rewrite ?orb_false_r, ?orb_true_r; reflexivity. Qed.

Lemma bit_neg e n : n < 0 -> bit e n = SFalse.
Proof. intros H. destruct e; cbn [bit]; by rewrite (proj2 (Z.ltb_lt n 0) H). Qed.

Lemma bit_den env e : bok e = true -> forall n, sden env (bit e n) = Z.testbit (bden env e) n.
Proof.
  induction e as [v|c|a IHa b IHb|a IHa b IHb|a IHa b IHb|a IHa k|a IHa k|w a IHa|w a IHa]; intros Hok n.
  all: destruct (decide (n < 0)) as [Hn|Hn]; [by rewrite bit_neg, Z.testbit_neg_r by done|].
  all: cbn [bit bden bok] in *; rewrite (proj2 (Z.ltb_ge n 0)) by lia; bprop.
  - done.
  - by destruct (Z.testbit c n).
  - rewrite sand_den, Z.land_spec. by rewrite IHa, IHb.
  - rewrite sor_den, Z.lor_spec. by rewrite IHa, IHb.
  - cbn [sden]. rewrite Z.lxor_spec. by rewrite IHa, IHb.
  - rewrite Z.shiftl_spec by lia. by apply IHa.
  - rewrite Z.shiftr_spec by lia. by apply IHa.
  - rewrite testbit_wrap by lia. destruct (n <? w); [by apply IHa|done].
  - rewrite testbit_swrap by lia. by apply IHa.
Qed.

Lemma stable_den env e : bok e = true -> forall N, stable e N = true -> forall n, N <= n ->
  Z.testbit (bden env e) n = Z.testbit (bden env e) N.
Proof.
  induction e as [v|c|a IHa b IHb|a IHa b IHb|a IHa b IHb|a IHa k|a IHa k|w a IHa|w a IHa]; intros Hok N HN n Hn.
  all: cbn [stable bden bok] in *; bprop; try done.
  - by apply testbit_tail.
  - rewrite !Z.land_spec. apply orb_true_iff in H0 as [Hab|Hc]; bprop.
    + rewrite (IHa ltac:(done) N) by done. by rewrite (IHb ltac:(done) N) by done.
    + destruct b; try done. bprop. cbn.
      assert (Hz : forall m, N <= m -> Z.testbit c m = false)
        by (intros m Hm; rewrite <- (Z.mod_small c (2 ^ N)) by lia; apply Z.mod_pow2_bits_high; lia).
      by rewrite !Hz, !andb_false_r by lia.
  - rewrite !Z.lor_spec. rewrite (IHa ltac:(done) N) by done. by rewrite (IHb ltac:(done) N) by done.
  - rewrite !Z.lxor_spec. rewrite (IHa ltac:(done) N) by done. by rewrite (IHb ltac:(done) N) by done.
  - rewrite !Z.shiftl_spec by lia. apply IHa; [done|done|lia].
  - rewrite !Z.shiftr_spec by lia. apply IHa; [done|done|lia].
  - rewrite !testbit_wrap by lia. rewrite !(proj2 (Z.ltb_ge _ _)) by lia. done.
  - rewrite !testbit_swrap by lia. f_equal.
    destruct (Z.ltb_spec n w), (Z.ltb_spec N w); lia.
Qed.

Lemma bits_agree_den env a b N : bits_agree a b N = true -> bden env a = bden env b.
Proof.
  unfold bits_agree. intros H. bprop. apply Z.bits_inj'. intros n Hn.
  assert (Heq : forall m, 0 <= m <= N -> Z.testbit (bden env a) m = Z.testbit (bden env b) m).
  { intros m Hm. rewrite <- !bit_den by done.
    match goal with H : forallb _ _ = true |- _ => rewrite forallb_forall in H; specialize (H m) end.
    f_equal. eapply bool_decide_eq_true_1, H0, list_elem_of_In, elem_of_seqZ. lia. }
  destruct (decide (n <= N)) as [Hle|Hgt]; [by apply Heq|].
  assert (0 <= N). { destruct a; cbn [stable] in *; bprop; done. }
  rewrite (stable_den env a ltac:(done) N) by (done || lia). rewrite (stable_den env b ltac:(done) N) by (done || lia).
  apply Heq. lia.
Qed.

(** ** Reading expressions *)

(** [bden] is unfolded before the operations it yields. *)
Strategy expand [bden].

Ltac bs_index l x :=
  lazymatch l with
  | x :: _ => constr:(0%nat)
  | _ :: ?t => let n := bs_index t x in constr:(S n)
  end.
Ltac bs_insert l x :=
  lazymatch l with
  | [] => constr:([x])
  | x :: _ => l
  | ?y :: ?t => let t' := bs_insert t x in constr:(y :: t')
  end.
Ltac bs_const x :=
  lazymatch x with
  | Z0 => idtac
  | Zpos _ => idtac
  | Zneg _ => idtac
  | Z.shiftl ?a ?b => bs_const a; bs_const b
  | swrap ?a ?b => bs_const a; bs_const b
  | ?a - ?b => bs_const a; bs_const b
  | ?a + ?b => bs_const a; bs_const b
  | ?a ^ ?b => bs_const a; bs_const b
  end.
(** The variables of an expression, then the expression. *)
Ltac bs_vars l e :=
  match e with
  | _ => let _ := match goal with _ => bs_const e end in l
  | Z.land ?a ?b => let l := bs_vars l a in bs_vars l b
  | Z.lor ?a ?b => let l := bs_vars l a in bs_vars l b
  | Z.lxor ?a ?b => let l := bs_vars l a in bs_vars l b
  | Z.shiftl ?a _ => bs_vars l a
  | Z.shiftr ?a _ => bs_vars l a
  | wrap _ ?a => bs_vars l a
  | swrap _ ?a => bs_vars l a
  | _ => bs_insert l e
  end.
Ltac bs_reify l e :=
  match e with
  | _ => let _ := match goal with _ => bs_const e end in constr:(BConst e)
  | Z.land ?a ?b => let a := bs_reify l a in let b := bs_reify l b in constr:(BAnd a b)
  | Z.lor ?a ?b => let a := bs_reify l a in let b := bs_reify l b in constr:(BOr a b)
  | Z.lxor ?a ?b => let a := bs_reify l a in let b := bs_reify l b in constr:(BXor a b)
  | Z.shiftl ?a ?k => let a := bs_reify l a in constr:(BShl a k)
  | Z.shiftr ?a ?k => let a := bs_reify l a in constr:(BShr a k)
  | wrap ?w ?a => let a := bs_reify l a in constr:(BWrap w a)
  | swrap ?w ?a => let a := bs_reify l a in constr:(BSwrap w a)
  | _ => let n := bs_index l e in constr:(BVar n)
  end.

(** Proves an equality of bit-field expressions whose definitions have been unfolded. *)
Ltac bit_solve :=
  lazymatch goal with
  | |- ?x = ?y =>
      let l := bs_vars (@nil Z) x in let l := bs_vars l y in
      let a := bs_reify l x in let b := bs_reify l y in
      apply (bits_agree_den l a b 64); vm_compute; reflexivity
  end.
