(* ===== verification/Rv64Const.v ===== *)
(** * Instruction encodings of the command processor (lv/src/lv/bindings/cp/rv64/riscv.h and instr.cc)

    The instructions the decoder knows, the values of the encoding fields it switches
    over, and for each instruction the bits that are fixed ([*_MASK]) and their values
    ([*_ENCODING]). *)

From S2P Require Import Prelude.

Module Opcode.

(** ** Instructions *)

Inductive Mapping :=
   | UNDEF | LUI | AUIPC | JAL | JALR | BEQ | BNE | BLT | BGE | BLTU | BGEU | LB | LH | LW | LBU | LHU | SB
   | SH | SW | ADDI | SLTI | SLTIU | XORI | ORI | ANDI | SLLI | SRLI | SRAI | ADD | SUB | SLL | SLT | SLTU
   | XOR | SRL | SRA | OR | AND | FENCE | ECALL | EBREAK | FENCE_I | CSRRW | CSRRS | CSRRC | CSRRWI | CSRRSI
   | CSRRCI | MUL | MULH | MULHSU | MULHU | DIV | DIVU | REM | REMU | LR_W | SC_W | AMOSWAP_W | AMOADD_W
   | AMOXOR_W | AMOAND_W | AMOOR_W | AMOMIN_W | AMOMAX_W | AMOMINU_W | AMOMAXU_W | LWU | LD | SD | ADDIW
   | SLLIW | SRLIW | SRAIW | ADDW | SUBW | SLLW | SRLW | SRAW | MULW | DIVW | DIVUW | REMW | REMUW | LR_D
   | SC_D | AMOSWAP_D | AMOADD_D | AMOXOR_D | AMOAND_D | AMOOR_D | AMOMIN_D | AMOMAX_D | AMOMINU_D
   | AMOMAXU_D | FLW | FSW | FMADD_S | FMSUB_S | FNMADD_S | FNMSUB_S | FADD_S | FSUB_S | FMUL_S | FDIV_S
   | FSQRT_S | FSGNJ_S | FSGNJN_S | FSGNJX_S | FMIN_S | FMAX_S | FCVT_W_S | FCVT_WU_S | FMV_X_W | FEQ_S
   | FLT_S | FLE_S | FCLASS_S | FCVT_S_W | FCVT_S_WU | FMV_W_X | FCVT_L_S | FCVT_LU_S | FCVT_S_L | FCVT_S_LU
   | FLD | FSD | FMADD_D | FMSUB_D | FNMSUB_D | FNMADD_D | FADD_D | FSUB_D | FMUL_D | FDIV_D | FSQRT_D
   | FSGNJ_D | FSGNJN_D | FSGNJX_D | FMIN_D | FMAX_D | FCVT_S_D | FCVT_D_S | FEQ_D | FLT_D | FLE_D
   | FCLASS_D | FCVT_W_D | FCVT_WU_D | FCVT_D_W | FCVT_D_WU | FCVT_L_D | FCVT_LU_D | FMV_X_D | FCVT_D_L
   | FCVT_D_LU | FMV_D_X | URET | SRET | MRET | WFI | SFENCE_VMA.

(** The format of an instruction. *)
Inductive Type_ := T_UNKNOWN | T_R | T_I | T_S | T_B | T_U | T_J | T_R4.

(** ** Fields *)

Definition OP_LUI : Z := 0x37.
Definition OP_AUIPC : Z := 0x17.
Definition OP_JAL : Z := 0x6f.
Definition OP_JALR : Z := 0x67.
Definition F3_JALR : Z := 0x0.
Definition OP_LB : Z := 0x3.
Definition F3_LB : Z := 0x0.
Definition F3_LH : Z := 0x1.
Definition F3_LW : Z := 0x2.
Definition F3_LBU : Z := 0x4.
Definition F3_LHU : Z := 0x5.
Definition F3_LWU : Z := 0x6.
Definition F3_LD : Z := 0x3.
Definition OP_SB : Z := 0x23.
Definition F3_SB : Z := 0x0.
Definition F3_SH : Z := 0x1.
Definition F3_SW : Z := 0x2.
Definition F3_SD : Z := 0x3.
Definition OP_BEQ : Z := 0x63.
Definition F3_BEQ : Z := 0x0.
Definition F3_BNE : Z := 0x1.
Definition F3_BLT : Z := 0x4.
Definition F3_BGE : Z := 0x5.
Definition F3_BLTU : Z := 0x6.
Definition F3_BGEU : Z := 0x7.
Definition OP_ADDI : Z := 0x13.
Definition F3_ADDI : Z := 0x0.
Definition F3_SLTI : Z := 0x2.
Definition F3_SLTIU : Z := 0x3.
Definition F3_XORI : Z := 0x4.
Definition F3_ORI : Z := 0x6.
Definition F3_ANDI : Z := 0x7.
Definition F3_SLLI : Z := 0x1.
Definition F3_SRLI : Z := 0x5.
Definition F7_SRLI : Z := 0x0.
Definition F7_SRAI : Z := 0x20.
Definition F6_SRLI : Z := 0x0.
Definition F6_SRAI : Z := 0x10.
Definition OP_ADD : Z := 0x33.
Definition F3_ADD : Z := 0x0.
Definition F7_ADD : Z := 0x0.
Definition F3_SUB : Z := 0x0.
Definition F7_SUB : Z := 0x20.
Definition F3_SLL : Z := 0x1.
Definition F3_SLT : Z := 0x2.
Definition F3_SLTU : Z := 0x3.
Definition F3_XOR : Z := 0x4.
Definition F3_SRL : Z := 0x5.
Definition F3_SRA : Z := 0x5.
Definition F3_OR : Z := 0x6.
Definition F3_AND : Z := 0x7.
Definition F3_MUL : Z := 0x0.
Definition F7_MUL : Z := 0x1.
Definition F3_MULH : Z := 0x1.
Definition F3_MULHSU : Z := 0x2.
Definition F3_MULHU : Z := 0x3.
Definition F3_DIV : Z := 0x4.
Definition F3_DIVU : Z := 0x5.
Definition F3_REM : Z := 0x6.
Definition F3_REMU : Z := 0x7.
Definition OP_FENCE : Z := 0xf.
Definition F3_FENCE : Z := 0x0.
Definition F3_FENCE_I : Z := 0x1.
Definition OP_ECALL : Z := 0x73.
Definition F3_SYS : Z := 0x0.
Definition F12_ECALL : Z := 0x0.
Definition F12_EBREAK : Z := 0x1.
Definition F12_URET : Z := 0x2.
Definition F12_SRET : Z := 0x102.
Definition F12_MRET : Z := 0x302.
Definition F12_WFI : Z := 0x105.
Definition F7_SFENCE_VMA : Z := 0x9.
Definition F3_CSRRW : Z := 0x1.
Definition F3_CSRRS : Z := 0x2.
Definition F3_CSRRC : Z := 0x3.
Definition F3_CSRRWI : Z := 0x5.
Definition F3_CSRRSI : Z := 0x6.
Definition F3_CSRRCI : Z := 0x7.
Definition OP_AMO : Z := 0x2f.
Definition F5_LR_W : Z := 0x2.
Definition F5_SC_W : Z := 0x3.
Definition F5_AMOSWAP_W : Z := 0x1.
Definition F5_AMOADD_W : Z := 0x0.
Definition F5_AMOXOR_W : Z := 0x4.
Definition F5_AMOAND_W : Z := 0xc.
Definition F5_AMOOR_W : Z := 0x8.
Definition F5_AMOMIN_W : Z := 0x10.
Definition F5_AMOMAX_W : Z := 0x14.
Definition F5_AMOMINU_W : Z := 0x18.
Definition F5_AMOMAXU_W : Z := 0x1c.
Definition F3_AMO_W : Z := 0x2.
Definition F3_AMO_D : Z := 0x3.
Definition OP_ADDIW : Z := 0x1b.
Definition F3_ADDIW : Z := 0x0.
Definition F3_SLLIW : Z := 0x1.
Definition F3_SRLIW : Z := 0x5.
Definition F7_SRLIW : Z := 0x0.
Definition F7_SRAIW : Z := 0x20.
Definition OP_ADDW : Z := 0x3b.
Definition F3_ADDW : Z := 0x0.
Definition F7_ADDW : Z := 0x0.
Definition F3_SUBW : Z := 0x0.
Definition F7_SUBW : Z := 0x20.
Definition F3_SLLW : Z := 0x1.
Definition F3_SRLW : Z := 0x5.
Definition F7_SRLW : Z := 0x0.
Definition F3_SRAW : Z := 0x5.
Definition F7_SRAW : Z := 0x20.
Definition F7_MULW : Z := 0x1.
Definition F3_MULW : Z := 0x0.
Definition F3_DIVW : Z := 0x4.
Definition F3_DIVUW : Z := 0x5.
Definition F3_REMW : Z := 0x6.
Definition F3_REMUW : Z := 0x7.
Definition OP_FMADD_S : Z := 0x43.
Definition F2_FMADD_S : Z := 0x0.
Definition F2_FMADD_D : Z := 0x1.
Definition OP_FADD_S : Z := 0x53.
Definition F7_FADD_S : Z := 0x0.
Definition F7_FADD_D : Z := 0x1.
Definition F7_FSUB_S : Z := 0x4.
Definition F7_FSUB_D : Z := 0x5.
Definition F7_FCVT_D_S : Z := 0x21.
Definition F7_FMUL_S : Z := 0x8.
Definition F7_FMUL_D : Z := 0x9.
Definition F7_FDIV_S : Z := 0xc.
Definition F7_FDIV_D : Z := 0xd.
Definition F7_FLE_S : Z := 0x50.
Definition F3_FLE_S : Z := 0x0.
Definition F3_FLT_S : Z := 0x1.
Definition F3_FEQ_S : Z := 0x2.
Definition F7_FSGNJ_D : Z := 0x11.
Definition F3_FSGNJ_D : Z := 0x0.
Definition F3_FSGNJN_D : Z := 0x1.
Definition F3_FSGNJX_D : Z := 0x2.
Definition F7_FMIN_S : Z := 0x14.
Definition F3_FMIN_S : Z := 0x0.
Definition F3_FMAX_S : Z := 0x1.
Definition F7_FMIN_D : Z := 0x15.
Definition F3_FMIN_D : Z := 0x0.
Definition F3_FMAX_D : Z := 0x1.
Definition F7_FCVT_S_D : Z := 0x20.
Definition F7_FSGNJ_S : Z := 0x10.
Definition F3_FSGNJ_S : Z := 0x0.
Definition F3_FSGNJN_S : Z := 0x1.
Definition F3_FSGNJX_S : Z := 0x2.
Definition F7_FLE_D : Z := 0x51.
Definition F3_FLE_D : Z := 0x0.
Definition F3_FLT_D : Z := 0x1.
Definition F3_FEQ_D : Z := 0x2.
Definition F7_FCVT_S_W : Z := 0x68.
Definition RS2_FCVT_S_W : Z := 0x0.
Definition RS2_FCVT_S_WU : Z := 0x1.
Definition RS2_FCVT_S_L : Z := 0x2.
Definition RS2_FCVT_S_LU : Z := 0x3.
Definition F7_FCVT_D_W : Z := 0x69.
Definition RS2_FCVT_D_W : Z := 0x0.
Definition RS2_FCVT_D_WU : Z := 0x1.
Definition RS2_FCVT_D_L : Z := 0x2.
Definition RS2_FCVT_D_LU : Z := 0x3.
Definition F7_FCVT_W_D : Z := 0x61.
Definition RS2_FCVT_W_D : Z := 0x0.
Definition RS2_FCVT_WU_D : Z := 0x1.
Definition RS2_FCVT_L_D : Z := 0x2.
Definition RS2_FCVT_LU_D : Z := 0x3.
Definition F7_FSQRT_S : Z := 0x2c.
Definition F7_FSQRT_D : Z := 0x2d.
Definition F7_FCVT_W_S : Z := 0x60.
Definition RS2_FCVT_W_S : Z := 0x0.
Definition RS2_FCVT_WU_S : Z := 0x1.
Definition RS2_FCVT_L_S : Z := 0x2.
Definition RS2_FCVT_LU_S : Z := 0x3.
Definition F7_FMV_X_W : Z := 0x70.
Definition F3_FMV_X_W : Z := 0x0.
Definition F3_FCLASS_S : Z := 0x1.
Definition F7_FMV_X_D : Z := 0x71.
Definition F3_FMV_X_D : Z := 0x0.
Definition F3_FCLASS_D : Z := 0x1.
Definition F7_FMV_W_X : Z := 0x78.
Definition F7_FMV_D_X : Z := 0x79.
Definition OP_FLW : Z := 0x7.
Definition F3_FLW : Z := 0x2.
Definition F3_FLD : Z := 0x3.
Definition OP_FSW : Z := 0x27.
Definition F3_FSW : Z := 0x2.
Definition F3_FSD : Z := 0x3.
Definition OP_FMSUB_S : Z := 0x47.
Definition F2_FMSUB_S : Z := 0x0.
Definition F2_FMSUB_D : Z := 0x1.
Definition OP_FNMSUB_S : Z := 0x4b.
Definition F2_FNMSUB_S : Z := 0x0.
Definition F2_FNMSUB_D : Z := 0x1.
Definition OP_FNMADD_S : Z := 0x4f.
Definition F2_FNMADD_S : Z := 0x0.
Definition F2_FNMADD_D : Z := 0x1.
Definition OP_CUST1 : Z := 0x2b.
Definition OP_CUST0 : Z := 0xb.

(** ** Masks and encodings *)

Definition LUI_MASK : Z := 0x7f.
Definition LUI_ENCODING : Z := 0x37.
Definition AUIPC_MASK : Z := 0x7f.
Definition AUIPC_ENCODING : Z := 0x17.
Definition JAL_MASK : Z := 0x7f.
Definition JAL_ENCODING : Z := 0x6f.
Definition JALR_MASK : Z := 0x707f.
Definition JALR_ENCODING : Z := 0x67.
Definition BEQ_MASK : Z := 0x707f.
Definition BEQ_ENCODING : Z := 0x63.
Definition BNE_MASK : Z := 0x707f.
Definition BNE_ENCODING : Z := 0x1063.
Definition BLT_MASK : Z := 0x707f.
Definition BLT_ENCODING : Z := 0x4063.
Definition BGE_MASK : Z := 0x707f.
Definition BGE_ENCODING : Z := 0x5063.
Definition BLTU_MASK : Z := 0x707f.
Definition BLTU_ENCODING : Z := 0x6063.
Definition BGEU_MASK : Z := 0x707f.
Definition BGEU_ENCODING : Z := 0x7063.
Definition LB_MASK : Z := 0x707f.
Definition LB_ENCODING : Z := 0x3.
Definition LH_MASK : Z := 0x707f.
Definition LH_ENCODING : Z := 0x1003.
Definition LW_MASK : Z := 0x707f.
Definition LW_ENCODING : Z := 0x2003.
Definition LBU_MASK : Z := 0x707f.
Definition LBU_ENCODING : Z := 0x4003.
Definition LHU_MASK : Z := 0x707f.
Definition LHU_ENCODING : Z := 0x5003.
Definition SB_MASK : Z := 0x707f.
Definition SB_ENCODING : Z := 0x23.
Definition SH_MASK : Z := 0x707f.
Definition SH_ENCODING : Z := 0x1023.
Definition SW_MASK : Z := 0x707f.
Definition SW_ENCODING : Z := 0x2023.
Definition ADDI_MASK : Z := 0x707f.
Definition ADDI_ENCODING : Z := 0x13.
Definition SLTI_MASK : Z := 0x707f.
Definition SLTI_ENCODING : Z := 0x2013.
Definition SLTIU_MASK : Z := 0x707f.
Definition SLTIU_ENCODING : Z := 0x3013.
Definition XORI_MASK : Z := 0x707f.
Definition XORI_ENCODING : Z := 0x4013.
Definition ORI_MASK : Z := 0x707f.
Definition ORI_ENCODING : Z := 0x6013.
Definition ANDI_MASK : Z := 0x707f.
Definition ANDI_ENCODING : Z := 0x7013.
Definition SLLI_MASK : Z := 0xfc00707f.
Definition SLLI_ENCODING : Z := 0x1013.
Definition SRLI_MASK : Z := 0xfc00707f.
Definition SRLI_ENCODING : Z := 0x5013.
Definition SRAI_MASK : Z := 0xfc00707f.
Definition SRAI_ENCODING : Z := 0x40005013.
Definition ADD_MASK : Z := 0xfe00707f.
Definition ADD_ENCODING : Z := 0x33.
Definition SUB_MASK : Z := 0xfe00707f.
Definition SUB_ENCODING : Z := 0x40000033.
Definition SLL_MASK : Z := 0xfe00707f.
Definition SLL_ENCODING : Z := 0x1033.
Definition SLT_MASK : Z := 0xfe00707f.
Definition SLT_ENCODING : Z := 0x2033.
Definition SLTU_MASK : Z := 0xfe00707f.
Definition SLTU_ENCODING : Z := 0x3033.
Definition XOR_MASK : Z := 0xfe00707f.
Definition XOR_ENCODING : Z := 0x4033.
Definition SRL_MASK : Z := 0xfe00707f.
Definition SRL_ENCODING : Z := 0x5033.
Definition SRA_MASK : Z := 0xfe00707f.
Definition SRA_ENCODING : Z := 0x40005033.
Definition OR_MASK : Z := 0xfe00707f.
Definition OR_ENCODING : Z := 0x6033.
Definition AND_MASK : Z := 0xfe00707f.
Definition AND_ENCODING : Z := 0x7033.
Definition FENCE_MASK : Z := 0x707f.
Definition FENCE_ENCODING : Z := 0xf.
Definition FENCE_I_MASK : Z := 0x707f.
Definition FENCE_I_ENCODING : Z := 0x100f.
Definition ECALL_MASK : Z := 0xffffffff.
Definition ECALL_ENCODING : Z := 0x73.
Definition EBREAK_MASK : Z := 0xffffffff.
Definition EBREAK_ENCODING : Z := 0x100073.
Definition CSRRW_MASK : Z := 0x707f.
Definition CSRRW_ENCODING : Z := 0x1073.
Definition CSRRS_MASK : Z := 0x707f.
Definition CSRRS_ENCODING : Z := 0x2073.
Definition CSRRC_MASK : Z := 0x707f.
Definition CSRRC_ENCODING : Z := 0x3073.
Definition CSRRWI_MASK : Z := 0x707f.
Definition CSRRWI_ENCODING : Z := 0x5073.
Definition CSRRSI_MASK : Z := 0x707f.
Definition CSRRSI_ENCODING : Z := 0x6073.
Definition CSRRCI_MASK : Z := 0x707f.
Definition CSRRCI_ENCODING : Z := 0x7073.
Definition MUL_MASK : Z := 0xfe00707f.
Definition MUL_ENCODING : Z := 0x2000033.
Definition MULH_MASK : Z := 0xfe00707f.
Definition MULH_ENCODING : Z := 0x2001033.
Definition MULHSU_MASK : Z := 0xfe00707f.
Definition MULHSU_ENCODING : Z := 0x2002033.
Definition MULHU_MASK : Z := 0xfe00707f.
Definition MULHU_ENCODING : Z := 0x2003033.
Definition DIV_MASK : Z := 0xfe00707f.
Definition DIV_ENCODING : Z := 0x2004033.
Definition DIVU_MASK : Z := 0xfe00707f.
Definition DIVU_ENCODING : Z := 0x2005033.
Definition REM_MASK : Z := 0xfe00707f.
Definition REM_ENCODING : Z := 0x2006033.
Definition REMU_MASK : Z := 0xfe00707f.
Definition REMU_ENCODING : Z := 0x2007033.
Definition LR_W_MASK : Z := 0xf9f0707f.
Definition LR_W_ENCODING : Z := 0x1000202f.
Definition SC_W_MASK : Z := 0xf800707f.
Definition SC_W_ENCODING : Z := 0x1800202f.
Definition AMOSWAP_W_MASK : Z := 0xf800707f.
Definition AMOSWAP_W_ENCODING : Z := 0x800202f.
Definition AMOADD_W_MASK : Z := 0xf800707f.
Definition AMOADD_W_ENCODING : Z := 0x202f.
Definition AMOXOR_W_MASK : Z := 0xf800707f.
Definition AMOXOR_W_ENCODING : Z := 0x2000202f.
Definition AMOAND_W_MASK : Z := 0xf800707f.
Definition AMOAND_W_ENCODING : Z := 0x6000202f.
Definition AMOOR_W_MASK : Z := 0xf800707f.
Definition AMOOR_W_ENCODING : Z := 0x4000202f.
Definition AMOMIN_W_MASK : Z := 0xf800707f.
Definition AMOMIN_W_ENCODING : Z := 0x8000202f.
Definition AMOMAX_W_MASK : Z := 0xf800707f.
Definition AMOMAX_W_ENCODING : Z := 0xa000202f.
Definition AMOMINU_W_MASK : Z := 0xf800707f.
Definition AMOMINU_W_ENCODING : Z := 0xc000202f.
Definition AMOMAXU_W_MASK : Z := 0xf800707f.
Definition AMOMAXU_W_ENCODING : Z := 0xe000202f.
Definition URET_MASK : Z := 0xffffffff.
Definition URET_ENCODING : Z := 0x200073.
Definition SRET_MASK : Z := 0xffffffff.
Definition SRET_ENCODING : Z := 0x10200073.
Definition MRET_MASK : Z := 0xffffffff.
Definition MRET_ENCODING : Z := 0x30200073.
Definition WFI_MASK : Z := 0xffffffff.
Definition WFI_ENCODING : Z := 0x10500073.
Definition SFENCE_VMA_MASK : Z := 0xfe007fff.
Definition SFENCE_VMA_ENCODING : Z := 0x12000073.
Definition LWU_MASK : Z := 0x707f.
Definition LWU_ENCODING : Z := 0x6003.
Definition LD_MASK : Z := 0x707f.
Definition LD_ENCODING : Z := 0x3003.
Definition SD_MASK : Z := 0x707f.
Definition SD_ENCODING : Z := 0x3023.
Definition ADDIW_MASK : Z := 0x707f.
Definition ADDIW_ENCODING : Z := 0x1b.
Definition SLLIW_MASK : Z := 0xfe00707f.
Definition SLLIW_ENCODING : Z := 0x101b.
Definition SRLIW_MASK : Z := 0xfe00707f.
Definition SRLIW_ENCODING : Z := 0x501b.
Definition SRAIW_MASK : Z := 0xfe00707f.
Definition SRAIW_ENCODING : Z := 0x4000501b.
Definition ADDW_MASK : Z := 0xfe00707f.
Definition ADDW_ENCODING : Z := 0x3b.
Definition SUBW_MASK : Z := 0xfe00707f.
Definition SUBW_ENCODING : Z := 0x4000003b.
Definition SLLW_MASK : Z := 0xfe00707f.
Definition SLLW_ENCODING : Z := 0x103b.
Definition SRLW_MASK : Z := 0xfe00707f.
Definition SRLW_ENCODING : Z := 0x503b.
Definition SRAW_MASK : Z := 0xfe00707f.
Definition SRAW_ENCODING : Z := 0x4000503b.
Definition MULW_MASK : Z := 0xfe00707f.
Definition MULW_ENCODING : Z := 0x200003b.
Definition DIVW_MASK : Z := 0xfe00707f.
Definition DIVW_ENCODING : Z := 0x200403b.
Definition DIVUW_MASK : Z := 0xfe00707f.
Definition DIVUW_ENCODING : Z := 0x200503b.
Definition REMW_MASK : Z := 0xfe00707f.
Definition REMW_ENCODING : Z := 0x200603b.
Definition REMUW_MASK : Z := 0xfe00707f.
Definition REMUW_ENCODING : Z := 0x200703b.
Definition LR_D_MASK : Z := 0xf9f0707f.
Definition LR_D_ENCODING : Z := 0x1000302f.
Definition SC_D_MASK : Z := 0xf800707f.
Definition SC_D_ENCODING : Z := 0x1800302f.
Definition AMOSWAP_D_MASK : Z := 0xf800707f.
Definition AMOSWAP_D_ENCODING : Z := 0x800302f.
Definition AMOADD_D_MASK : Z := 0xf800707f.
Definition AMOADD_D_ENCODING : Z := 0x302f.
Definition AMOXOR_D_MASK : Z := 0xf800707f.
Definition AMOXOR_D_ENCODING : Z := 0x2000302f.
Definition AMOAND_D_MASK : Z := 0xf800707f.
Definition AMOAND_D_ENCODING : Z := 0x6000302f.
Definition AMOOR_D_MASK : Z := 0xf800707f.
Definition AMOOR_D_ENCODING : Z := 0x4000302f.
Definition AMOMIN_D_MASK : Z := 0xf800707f.
Definition AMOMIN_D_ENCODING : Z := 0x8000302f.
Definition AMOMAX_D_MASK : Z := 0xf800707f.
Definition AMOMAX_D_ENCODING : Z := 0xa000302f.
Definition AMOMINU_D_MASK : Z := 0xf800707f.
Definition AMOMINU_D_ENCODING : Z := 0xc000302f.
Definition AMOMAXU_D_MASK : Z := 0xf800707f.
Definition AMOMAXU_D_ENCODING : Z := 0xe000302f.
Definition FLW_MASK : Z := 0x707f.
Definition FLW_ENCODING : Z := 0x2007.
Definition FSW_MASK : Z := 0x707f.
Definition FSW_ENCODING : Z := 0x2027.
Definition FMADD_S_MASK : Z := 0x600007f.
Definition FMADD_S_ENCODING : Z := 0x43.
Definition FMSUB_S_MASK : Z := 0x600007f.
Definition FMSUB_S_ENCODING : Z := 0x47.
Definition FNMADD_S_MASK : Z := 0x600007f.
Definition FNMADD_S_ENCODING : Z := 0x4f.
Definition FNMSUB_S_MASK : Z := 0x600007f.
Definition FNMSUB_S_ENCODING : Z := 0x4b.
Definition FADD_S_MASK : Z := 0xfe00007f.
Definition FADD_S_ENCODING : Z := 0x53.
Definition FSUB_S_MASK : Z := 0xfe00007f.
Definition FSUB_S_ENCODING : Z := 0x8000053.
Definition FMUL_S_MASK : Z := 0xfe00007f.
Definition FMUL_S_ENCODING : Z := 0x10000053.
Definition FDIV_S_MASK : Z := 0xfe00007f.
Definition FDIV_S_ENCODING : Z := 0x18000053.
Definition FSQRT_S_MASK : Z := 0xfff0007f.
Definition FSQRT_S_ENCODING : Z := 0x58000053.
Definition FSGNJ_S_MASK : Z := 0xfe00707f.
Definition FSGNJ_S_ENCODING : Z := 0x20000053.
Definition FSGNJN_S_MASK : Z := 0xfe00707f.
Definition FSGNJN_S_ENCODING : Z := 0x20001053.
Definition FSGNJX_S_MASK : Z := 0xfe00707f.
Definition FSGNJX_S_ENCODING : Z := 0x20002053.
Definition FMIN_S_MASK : Z := 0xfe00707f.
Definition FMIN_S_ENCODING : Z := 0x28000053.
Definition FMAX_S_MASK : Z := 0xfe00707f.
Definition FMAX_S_ENCODING : Z := 0x28001053.
Definition FCVT_W_S_MASK : Z := 0xfff0007f.
Definition FCVT_W_S_ENCODING : Z := 0xc0000053.
Definition FCVT_WU_S_MASK : Z := 0xfff0007f.
Definition FCVT_WU_S_ENCODING : Z := 0xc0100053.
Definition FMV_X_W_MASK : Z := 0xfff0707f.
Definition FMV_X_W_ENCODING : Z := 0xe0000053.
Definition FEQ_S_MASK : Z := 0xfe00707f.
Definition FEQ_S_ENCODING : Z := 0xa0002053.
Definition FLT_S_MASK : Z := 0xfe00707f.
Definition FLT_S_ENCODING : Z := 0xa0001053.
Definition FLE_S_MASK : Z := 0xfe00707f.
Definition FLE_S_ENCODING : Z := 0xa0000053.
Definition FCLASS_S_MASK : Z := 0xfff0707f.
Definition FCLASS_S_ENCODING : Z := 0xe0001053.
Definition FCVT_S_W_MASK : Z := 0xfff0007f.
Definition FCVT_S_W_ENCODING : Z := 0xd0000053.
Definition FCVT_S_WU_MASK : Z := 0xfff0007f.
Definition FCVT_S_WU_ENCODING : Z := 0xd0100053.
Definition FMV_W_X_MASK : Z := 0xfff0707f.
Definition FMV_W_X_ENCODING : Z := 0xf0000053.
Definition FCVT_L_S_MASK : Z := 0xfff0007f.
Definition FCVT_L_S_ENCODING : Z := 0xc0200053.
Definition FCVT_LU_S_MASK : Z := 0xfff0007f.
Definition FCVT_LU_S_ENCODING : Z := 0xc0300053.
Definition FCVT_S_L_MASK : Z := 0xfff0007f.
Definition FCVT_S_L_ENCODING : Z := 0xd0200053.
Definition FCVT_S_LU_MASK : Z := 0xfff0007f.
Definition FCVT_S_LU_ENCODING : Z := 0xd0300053.
Definition FLD_MASK : Z := 0x707f.
Definition FLD_ENCODING : Z := 0x3007.
Definition FSD_MASK : Z := 0x707f.
Definition FSD_ENCODING : Z := 0x3027.
Definition FMADD_D_MASK : Z := 0x600007f.
Definition FMADD_D_ENCODING : Z := 0x2000043.
Definition FMSUB_D_MASK : Z := 0x600007f.
Definition FMSUB_D_ENCODING : Z := 0x2000047.
Definition FNMSUB_D_MASK : Z := 0x600007f.
Definition FNMSUB_D_ENCODING : Z := 0x200004b.
Definition FNMADD_D_MASK : Z := 0x600007f.
Definition FNMADD_D_ENCODING : Z := 0x200004f.
Definition FADD_D_MASK : Z := 0xfe00007f.
Definition FADD_D_ENCODING : Z := 0x2000053.
Definition FSUB_D_MASK : Z := 0xfe00007f.
Definition FSUB_D_ENCODING : Z := 0xa000053.
Definition FMUL_D_MASK : Z := 0xfe00007f.
Definition FMUL_D_ENCODING : Z := 0x12000053.
Definition FDIV_D_MASK : Z := 0xfe00007f.
Definition FDIV_D_ENCODING : Z := 0x1a000053.
Definition FSQRT_D_MASK : Z := 0xfff0007f.
Definition FSQRT_D_ENCODING : Z := 0x5a000053.
Definition FSGNJ_D_MASK : Z := 0xfe00707f.
Definition FSGNJ_D_ENCODING : Z := 0x22000053.
Definition FSGNJN_D_MASK : Z := 0xfe00707f.
Definition FSGNJN_D_ENCODING : Z := 0x22001053.
Definition FSGNJX_D_MASK : Z := 0xfe00707f.
Definition FSGNJX_D_ENCODING : Z := 0x22002053.
Definition FMIN_D_MASK : Z := 0xfe00707f.
Definition FMIN_D_ENCODING : Z := 0x2a000053.
Definition FMAX_D_MASK : Z := 0xfe00707f.
Definition FMAX_D_ENCODING : Z := 0x2a001053.
Definition FCVT_S_D_MASK : Z := 0xfff0007f.
Definition FCVT_S_D_ENCODING : Z := 0x40100053.
Definition FCVT_D_S_MASK : Z := 0xfff0007f.
Definition FCVT_D_S_ENCODING : Z := 0x42000053.
Definition FEQ_D_MASK : Z := 0xfe00707f.
Definition FEQ_D_ENCODING : Z := 0xa2002053.
Definition FLT_D_MASK : Z := 0xfe00707f.
Definition FLT_D_ENCODING : Z := 0xa2001053.
Definition FLE_D_MASK : Z := 0xfe00707f.
Definition FLE_D_ENCODING : Z := 0xa2000053.
Definition FCLASS_D_MASK : Z := 0xfff0707f.
Definition FCLASS_D_ENCODING : Z := 0xe2001053.
Definition FCVT_W_D_MASK : Z := 0xfff0007f.
Definition FCVT_W_D_ENCODING : Z := 0xc2000053.
Definition FCVT_WU_D_MASK : Z := 0xfff0007f.
Definition FCVT_WU_D_ENCODING : Z := 0xc2100053.
Definition FCVT_D_W_MASK : Z := 0xfff0007f.
Definition FCVT_D_W_ENCODING : Z := 0xd2000053.
Definition FCVT_D_WU_MASK : Z := 0xfff0007f.
Definition FCVT_D_WU_ENCODING : Z := 0xd2100053.
Definition FCVT_L_D_MASK : Z := 0xfff0007f.
Definition FCVT_L_D_ENCODING : Z := 0xc2200053.
Definition FCVT_LU_D_MASK : Z := 0xfff0007f.
Definition FCVT_LU_D_ENCODING : Z := 0xc2300053.
Definition FMV_X_D_MASK : Z := 0xfff0707f.
Definition FMV_X_D_ENCODING : Z := 0xe2000053.
Definition FCVT_D_L_MASK : Z := 0xfff0007f.
Definition FCVT_D_L_ENCODING : Z := 0xd2200053.
Definition FCVT_D_LU_MASK : Z := 0xfff0007f.
Definition FCVT_D_LU_ENCODING : Z := 0xd2300053.
Definition FMV_D_X_MASK : Z := 0xfff0707f.
Definition FMV_D_X_ENCODING : Z := 0xf2000053.

End Opcode.

Module Compressed.

Inductive Opcode :=
   | C_Illegal | C_Reserved | C_ADDI4SPN | C_FLD | C_LQ | C_LW | C_FLW | C_LD | C_FSD | C_SQ | C_SW | C_FSW
   | C_SD | C_NOP | C_ADDI | C_JAL | C_ADDIW | C_LI | C_ADDI16SP | C_LUI | C_SRLI | C_SRAI | C_ANDI | C_SUB
   | C_XOR | C_OR | C_AND | C_SUBW | C_ADDW | C_J | C_BEQZ | C_BNEZ | C_SLLI | C_FLDSP | C_LQSP | C_LWSP
   | C_FLWSP | C_LDSP | C_JR | C_MV | C_EBREAK | C_JALR | C_ADD | C_FSDSP | C_SQSP | C_SWSP | C_FSWSP
   | C_SDSP.

End Compressed.
