(* ===== verification/Rv64Instr.v ===== *)
(** * The instruction decoder of the command processor
      (lv/src/lv/bindings/cp/rv64/instr.h, instr.cc and util.h)

    An [Instruction] holds the 32-bit word as a signed number, so that the immediates
    come out sign-extended; [Z.land], [Z.shiftr] and the other operations on [Z] are
    the operations of C on two's-complement numbers, with [s32] where an [int] wraps.
    [decode] maps a word to its operation and, for a compressed instruction, replaces
    the word by the 32-bit instruction it abbreviates. A thrown exception is [None]. *)

From S2P Require Import Prelude Rv64Const.
Import Opcode.

(** ** Bit fields (util.h) *)

Definition BIT_RANGE (instr upper lower : Z) : Z :=
  Z.land instr (s32 (Z.shiftl (Z.shiftl 1 (upper - lower + 1) - 1) lower)).
Definition BIT_SLICE (instr upper lower : Z) : Z := Z.shiftr (BIT_RANGE instr upper lower) lower.
Definition BIT_SINGLE (instr pos : Z) : Z := Z.land instr (s32 (Z.shiftl 1 pos)).
Definition BIT_SINGLE_P1 (instr pos : Z) : Z := Z.shiftr (BIT_SINGLE instr pos) pos.
Definition BIT_SINGLE_PN (instr pos new_pos : Z) : Z := Z.shiftl (Z.shiftr (BIT_SINGLE instr pos) pos) new_pos.
Definition EXTRACT_SIGN_BIT (instr pos new_pos : Z) : Z :=
  Z.shiftr (s32 (Z.shiftl (BIT_SINGLE_P1 instr pos) 31)) (31 - new_pos).

(** ** Fields of an instruction *)

Abbreviation Instruction := Z.
Definition mkInstruction (w : Z) : Instruction := s32 w.

Definition data (instr : Instruction) : Z := u32 instr.
Definition quadrant (instr : Instruction) : Z := Z.land instr 0x3.
Definition is_compressed (instr : Instruction) : bool := quadrant instr <? 3.

Definition rd (instr : Instruction) : Z := Z.shiftr (BIT_RANGE instr 11 7) 7.
Definition rs1 (instr : Instruction) : Z := Z.shiftr (BIT_RANGE instr 19 15) 15.
Definition rs2 (instr : Instruction) : Z := Z.shiftr (BIT_RANGE instr 24 20) 20.
Definition rs3 (instr : Instruction) : Z := Z.shiftr (BIT_RANGE (u32 instr) 31 27) 27.

Definition c_format (instr : Instruction) : Z := Z.land instr 0xffff.
Definition c_opcode (instr : Instruction) : Z := BIT_SLICE instr 15 13.
Definition c_b12 (instr : Instruction) : Z := BIT_SINGLE_P1 instr 12.
Definition c_rd (instr : Instruction) : Z := rd instr.
Definition c_rd_small (instr : Instruction) : Z := Z.lor (BIT_SLICE instr 9 7) 8.
Definition c_rs2_small (instr : Instruction) : Z := Z.lor (BIT_SLICE instr 4 2) 8.
Definition c_rs2 (instr : Instruction) : Z := BIT_SLICE instr 6 2.
Definition c_imm (instr : Instruction) : Z := u32 (Z.lor (BIT_SLICE instr 6 2) (EXTRACT_SIGN_BIT instr 12 5)).
Definition c_uimm (instr : Instruction) : Z := Z.lor (BIT_SLICE instr 6 2) (Z.shiftl (BIT_SINGLE_P1 instr 12) 5).
Definition c_f2_high (instr : Instruction) : Z := BIT_SLICE instr 11 10.
Definition c_f2_low (instr : Instruction) : Z := BIT_SLICE instr 6 5.

Definition csr (instr : Instruction) : Z := Z.shiftr (BIT_RANGE (u32 instr) 31 20) 20.
Definition zimm (instr : Instruction) : Z := Z.shiftr (BIT_RANGE instr 19 15) 15.
Definition shamt (instr : Instruction) : Z := Z.shiftr (BIT_RANGE instr 25 20) 20.
Definition shamt_w (instr : Instruction) : Z := Z.shiftr (BIT_RANGE instr 24 20) 20.
Definition funct2 (instr : Instruction) : Z := Z.shiftr (BIT_RANGE instr 26 25) 25.
Definition funct3 (instr : Instruction) : Z := Z.shiftr (BIT_RANGE instr 14 12) 12.
Definition funct12 (instr : Instruction) : Z := Z.shiftr (BIT_RANGE (u32 instr) 31 20) 20.
Definition funct7 (instr : Instruction) : Z := Z.shiftr (BIT_RANGE (u32 instr) 31 25) 25.
Definition funct6 (instr : Instruction) : Z := Z.shiftr (BIT_RANGE (u32 instr) 31 26) 26.
Definition funct5 (instr : Instruction) : Z := Z.shiftr (BIT_RANGE (u32 instr) 31 27) 27.
Definition opcode (instr : Instruction) : Z := BIT_RANGE instr 6 0.

Definition J_imm (instr : Instruction) : Z :=
  Z.lor (Z.lor (Z.lor (Z.shiftr (BIT_SINGLE instr 31) 11) (BIT_RANGE instr 19 12))
    (Z.shiftr (BIT_SINGLE instr 20) 9)) (Z.shiftr (BIT_RANGE instr 30 21) 20).
Definition I_imm (instr : Instruction) : Z := Z.shiftr (BIT_RANGE instr 31 20) 20.
Definition S_imm (instr : Instruction) : Z :=
  Z.lor (Z.shiftr (BIT_RANGE instr 31 25) 20) (Z.shiftr (BIT_RANGE instr 11 7) 7).
Definition B_imm (instr : Instruction) : Z :=
  Z.lor (Z.lor (Z.lor (Z.shiftr (BIT_SINGLE instr 31) 19) (Z.shiftl (BIT_SINGLE instr 7) 4))
    (Z.shiftr (BIT_RANGE instr 30 25) 20)) (Z.shiftr (BIT_RANGE instr 11 8) 7).
Definition U_imm (instr : Instruction) : Z := BIT_RANGE instr 31 12.

(** ** Uncompressed instructions *)

Definition MATCH_AND_RETURN_INSTR (mask encoding : Z) (m : Mapping) (instr : Instruction) : Mapping :=
  if negb (Z.land (data instr) mask =? encoding) then UNDEF else m.

Definition getType (mapping : Mapping) : Type_ :=
  match mapping with
   | SLLI | SRLI | SRAI | ADD | SUB | SLL | SLT | SLTU | XOR | SRL | SRA | OR | AND | MUL | MULH | MULHSU
   | MULHU | DIV | DIVU | REM | REMU | ADDW | SUBW | SLLW | SRLW | SRAW | MULW | DIVW | DIVUW | REMW | REMUW
   | LR_W | SC_W | AMOSWAP_W | AMOADD_W | AMOXOR_W | AMOAND_W | AMOOR_W | AMOMIN_W | AMOMAX_W | AMOMINU_W
   | AMOMAXU_W | LR_D | SC_D | AMOSWAP_D | AMOADD_D | AMOXOR_D | AMOAND_D | AMOOR_D | AMOMIN_D | AMOMAX_D
   | AMOMINU_D | AMOMAXU_D | FADD_S | FSUB_S | FMUL_S | FDIV_S | FSQRT_S | FSGNJ_S | FSGNJN_S | FSGNJX_S
   | FMIN_S | FMAX_S | FCVT_W_S | FCVT_WU_S | FMV_X_W | FEQ_S | FLT_S | FLE_S | FCLASS_S | FCVT_S_W
   | FCVT_S_WU | FMV_W_X | FCVT_L_S | FCVT_LU_S | FCVT_S_L | FCVT_S_LU | FADD_D | FSUB_D | FMUL_D | FDIV_D
   | FSQRT_D | FSGNJ_D | FSGNJN_D | FSGNJX_D | FMIN_D | FMAX_D | FCVT_S_D | FCVT_D_S | FEQ_D | FLT_D | FLE_D
   | FCLASS_D | FCVT_W_D | FCVT_WU_D | FCVT_D_W | FCVT_D_WU | FCVT_L_D | FCVT_LU_D | FMV_X_D | FCVT_D_L
   | FCVT_D_LU | FMV_D_X => T_R
   | JALR | LB | LH | LW | LD | LBU | LHU | LWU | ADDI | SLTI | SLTIU | XORI | ORI | ANDI | ADDIW | SLLIW
   | SRLIW | SRAIW | FLW | FLD => T_I
   | SB | SH | SW | SD | FSW | FSD => T_S
   | BEQ | BNE | BLT | BGE | BLTU | BGEU => T_B
   | LUI | AUIPC => T_U
   | JAL => T_J
   | FMADD_S | FMSUB_S | FNMSUB_S | FNMADD_S | FMADD_D | FMSUB_D | FNMSUB_D | FNMADD_D => T_R4
  | _ => T_UNKNOWN
  end.

Definition decode_OP_BEQ (instr : Instruction) : Mapping :=
  if funct3 instr =? F3_BEQ then MATCH_AND_RETURN_INSTR BEQ_MASK BEQ_ENCODING BEQ instr else
  if funct3 instr =? F3_BNE then MATCH_AND_RETURN_INSTR BNE_MASK BNE_ENCODING BNE instr else
  if funct3 instr =? F3_BLT then MATCH_AND_RETURN_INSTR BLT_MASK BLT_ENCODING BLT instr else
  if funct3 instr =? F3_BGE then MATCH_AND_RETURN_INSTR BGE_MASK BGE_ENCODING BGE instr else
  if funct3 instr =? F3_BLTU then MATCH_AND_RETURN_INSTR BLTU_MASK BLTU_ENCODING BLTU instr else
  if funct3 instr =? F3_BGEU then MATCH_AND_RETURN_INSTR BGEU_MASK BGEU_ENCODING BGEU instr else
  UNDEF.
Definition decode_OP_LB (instr : Instruction) : Mapping :=
  if funct3 instr =? F3_LB then MATCH_AND_RETURN_INSTR LB_MASK LB_ENCODING LB instr else
  if funct3 instr =? F3_LH then MATCH_AND_RETURN_INSTR LH_MASK LH_ENCODING LH instr else
  if funct3 instr =? F3_LW then MATCH_AND_RETURN_INSTR LW_MASK LW_ENCODING LW instr else
  if funct3 instr =? F3_LBU then MATCH_AND_RETURN_INSTR LBU_MASK LBU_ENCODING LBU instr else
  if funct3 instr =? F3_LHU then MATCH_AND_RETURN_INSTR LHU_MASK LHU_ENCODING LHU instr else
  if funct3 instr =? F3_LWU then MATCH_AND_RETURN_INSTR LWU_MASK LWU_ENCODING LWU instr else
  if funct3 instr =? F3_LD then MATCH_AND_RETURN_INSTR LD_MASK LD_ENCODING LD instr else
  UNDEF.
Definition decode_OP_SB (instr : Instruction) : Mapping :=
  if funct3 instr =? F3_SB then MATCH_AND_RETURN_INSTR SB_MASK SB_ENCODING SB instr else
  if funct3 instr =? F3_SH then MATCH_AND_RETURN_INSTR SH_MASK SH_ENCODING SH instr else
  if funct3 instr =? F3_SW then MATCH_AND_RETURN_INSTR SW_MASK SW_ENCODING SW instr else
  if funct3 instr =? F3_SD then MATCH_AND_RETURN_INSTR SD_MASK SD_ENCODING SD instr else
  UNDEF.
Definition decode_OP_ADDI (instr : Instruction) : Mapping :=
  if funct3 instr =? F3_ADDI then MATCH_AND_RETURN_INSTR ADDI_MASK ADDI_ENCODING ADDI instr else
  if funct3 instr =? F3_SLTI then MATCH_AND_RETURN_INSTR SLTI_MASK SLTI_ENCODING SLTI instr else
  if funct3 instr =? F3_SLTIU then MATCH_AND_RETURN_INSTR SLTIU_MASK SLTIU_ENCODING SLTIU instr else
  if funct3 instr =? F3_XORI then MATCH_AND_RETURN_INSTR XORI_MASK XORI_ENCODING XORI instr else
  if funct3 instr =? F3_ORI then MATCH_AND_RETURN_INSTR ORI_MASK ORI_ENCODING ORI instr else
  if funct3 instr =? F3_ANDI then MATCH_AND_RETURN_INSTR ANDI_MASK ANDI_ENCODING ANDI instr else
  if funct3 instr =? F3_SLLI then MATCH_AND_RETURN_INSTR SLLI_MASK SLLI_ENCODING SLLI instr else
  if funct3 instr =? F3_SRLI then
    (if funct6 instr =? F6_SRLI then MATCH_AND_RETURN_INSTR SRLI_MASK SRLI_ENCODING SRLI instr else
    if funct6 instr =? F6_SRAI then MATCH_AND_RETURN_INSTR SRAI_MASK SRAI_ENCODING SRAI instr else
    UNDEF) else
  UNDEF.
Definition decode_OP_ADDIW (instr : Instruction) : Mapping :=
  if funct3 instr =? F3_ADDIW then MATCH_AND_RETURN_INSTR ADDIW_MASK ADDIW_ENCODING ADDIW instr else
  if funct3 instr =? F3_SLLIW then MATCH_AND_RETURN_INSTR SLLIW_MASK SLLIW_ENCODING SLLIW instr else
  if funct3 instr =? F3_SRLIW then
    (if funct7 instr =? F7_SRLIW then MATCH_AND_RETURN_INSTR SRLIW_MASK SRLIW_ENCODING SRLIW instr else
    if funct7 instr =? F7_SRAIW then MATCH_AND_RETURN_INSTR SRAIW_MASK SRAIW_ENCODING SRAIW instr else
    UNDEF) else
  UNDEF.
Definition decode_OP_ADD (instr : Instruction) : Mapping :=
  if funct7 instr =? F7_ADD then
    (if funct3 instr =? F3_ADD then MATCH_AND_RETURN_INSTR ADD_MASK ADD_ENCODING ADD instr else
    if funct3 instr =? F3_SLL then MATCH_AND_RETURN_INSTR SLL_MASK SLL_ENCODING SLL instr else
    if funct3 instr =? F3_SLT then MATCH_AND_RETURN_INSTR SLT_MASK SLT_ENCODING SLT instr else
    if funct3 instr =? F3_SLTU then MATCH_AND_RETURN_INSTR SLTU_MASK SLTU_ENCODING SLTU instr else
    if funct3 instr =? F3_XOR then MATCH_AND_RETURN_INSTR XOR_MASK XOR_ENCODING XOR instr else
    if funct3 instr =? F3_SRL then MATCH_AND_RETURN_INSTR SRL_MASK SRL_ENCODING SRL instr else
    if funct3 instr =? F3_OR then MATCH_AND_RETURN_INSTR OR_MASK OR_ENCODING OR instr else
    if funct3 instr =? F3_AND then MATCH_AND_RETURN_INSTR AND_MASK AND_ENCODING AND instr else
    UNDEF) else
  if funct7 instr =? F7_SUB then
    (if funct3 instr =? F3_SUB then MATCH_AND_RETURN_INSTR SUB_MASK SUB_ENCODING SUB instr else
    if funct3 instr =? F3_SRA then MATCH_AND_RETURN_INSTR SRA_MASK SRA_ENCODING SRA instr else
    UNDEF) else
  if funct7 instr =? F7_MUL then
    (if funct3 instr =? F3_MUL then MATCH_AND_RETURN_INSTR MUL_MASK MUL_ENCODING MUL instr else
    if funct3 instr =? F3_MULH then MATCH_AND_RETURN_INSTR MULH_MASK MULH_ENCODING MULH instr else
    if funct3 instr =? F3_MULHSU then MATCH_AND_RETURN_INSTR MULHSU_MASK MULHSU_ENCODING MULHSU instr else
    if funct3 instr =? F3_MULHU then MATCH_AND_RETURN_INSTR MULHU_MASK MULHU_ENCODING MULHU instr else
    if funct3 instr =? F3_DIV then MATCH_AND_RETURN_INSTR DIV_MASK DIV_ENCODING DIV instr else
    if funct3 instr =? F3_DIVU then MATCH_AND_RETURN_INSTR DIVU_MASK DIVU_ENCODING DIVU instr else
    if funct3 instr =? F3_REM then MATCH_AND_RETURN_INSTR REM_MASK REM_ENCODING REM instr else
    if funct3 instr =? F3_REMU then MATCH_AND_RETURN_INSTR REMU_MASK REMU_ENCODING REMU instr else
    UNDEF) else
  UNDEF.
Definition decode_OP_ADDW (instr : Instruction) : Mapping :=
  if funct7 instr =? F7_ADDW then
    (if funct3 instr =? F3_ADDW then MATCH_AND_RETURN_INSTR ADDW_MASK ADDW_ENCODING ADDW instr else
    if funct3 instr =? F3_SLLW then MATCH_AND_RETURN_INSTR SLLW_MASK SLLW_ENCODING SLLW instr else
    if funct3 instr =? F3_SRLW then MATCH_AND_RETURN_INSTR SRLW_MASK SRLW_ENCODING SRLW instr else
    UNDEF) else
  if funct7 instr =? F7_SUBW then
    (if funct3 instr =? F3_SUBW then MATCH_AND_RETURN_INSTR SUBW_MASK SUBW_ENCODING SUBW instr else
    if funct3 instr =? F3_SRAW then MATCH_AND_RETURN_INSTR SRAW_MASK SRAW_ENCODING SRAW instr else
    UNDEF) else
  if funct7 instr =? F7_MULW then
    (if funct3 instr =? F3_MULW then MATCH_AND_RETURN_INSTR MULW_MASK MULW_ENCODING MULW instr else
    if funct3 instr =? F3_DIVW then MATCH_AND_RETURN_INSTR DIVW_MASK DIVW_ENCODING DIVW instr else
    if funct3 instr =? F3_DIVUW then MATCH_AND_RETURN_INSTR DIVUW_MASK DIVUW_ENCODING DIVUW instr else
    if funct3 instr =? F3_REMW then MATCH_AND_RETURN_INSTR REMW_MASK REMW_ENCODING REMW instr else
    if funct3 instr =? F3_REMUW then MATCH_AND_RETURN_INSTR REMUW_MASK REMUW_ENCODING REMUW instr else
    UNDEF) else
  UNDEF.
Definition decode_OP_FENCE (instr : Instruction) : Mapping :=
  if funct3 instr =? F3_FENCE then MATCH_AND_RETURN_INSTR FENCE_MASK FENCE_ENCODING FENCE instr else
  if funct3 instr =? F3_FENCE_I then MATCH_AND_RETURN_INSTR FENCE_I_MASK FENCE_I_ENCODING FENCE_I instr else
  UNDEF.
Definition decode_OP_ECALL (instr : Instruction) : Mapping :=
  if funct3 instr =? F3_SYS then
    (if funct12 instr =? F12_ECALL then MATCH_AND_RETURN_INSTR ECALL_MASK ECALL_ENCODING ECALL instr else
    if funct12 instr =? F12_EBREAK then MATCH_AND_RETURN_INSTR EBREAK_MASK EBREAK_ENCODING EBREAK instr else
    if funct12 instr =? F12_URET then MATCH_AND_RETURN_INSTR URET_MASK URET_ENCODING URET instr else
    if funct12 instr =? F12_SRET then MATCH_AND_RETURN_INSTR SRET_MASK SRET_ENCODING SRET instr else
    if funct12 instr =? F12_MRET then MATCH_AND_RETURN_INSTR MRET_MASK MRET_ENCODING MRET instr else
    if funct12 instr =? F12_WFI then MATCH_AND_RETURN_INSTR WFI_MASK WFI_ENCODING WFI instr else
    MATCH_AND_RETURN_INSTR SFENCE_VMA_MASK SFENCE_VMA_ENCODING SFENCE_VMA instr) else
  if funct3 instr =? F3_CSRRW then MATCH_AND_RETURN_INSTR CSRRW_MASK CSRRW_ENCODING CSRRW instr else
  if funct3 instr =? F3_CSRRS then MATCH_AND_RETURN_INSTR CSRRS_MASK CSRRS_ENCODING CSRRS instr else
  if funct3 instr =? F3_CSRRC then MATCH_AND_RETURN_INSTR CSRRC_MASK CSRRC_ENCODING CSRRC instr else
  if funct3 instr =? F3_CSRRWI then MATCH_AND_RETURN_INSTR CSRRWI_MASK CSRRWI_ENCODING CSRRWI instr else
  if funct3 instr =? F3_CSRRSI then MATCH_AND_RETURN_INSTR CSRRSI_MASK CSRRSI_ENCODING CSRRSI instr else
  if funct3 instr =? F3_CSRRCI then MATCH_AND_RETURN_INSTR CSRRCI_MASK CSRRCI_ENCODING CSRRCI instr else
  UNDEF.
Definition decode_OP_AMO (instr : Instruction) : Mapping :=
  if funct5 instr =? F5_LR_W then
    (if funct3 instr =? F3_AMO_D then MATCH_AND_RETURN_INSTR LR_D_MASK LR_D_ENCODING LR_D instr else
    MATCH_AND_RETURN_INSTR LR_W_MASK LR_W_ENCODING LR_W instr) else
  if funct5 instr =? F5_SC_W then
    (if funct3 instr =? F3_AMO_D then MATCH_AND_RETURN_INSTR SC_D_MASK SC_D_ENCODING SC_D instr else
    MATCH_AND_RETURN_INSTR SC_W_MASK SC_W_ENCODING SC_W instr) else
  if funct5 instr =? F5_AMOSWAP_W then
    (if funct3 instr =? F3_AMO_D then MATCH_AND_RETURN_INSTR AMOSWAP_D_MASK AMOSWAP_D_ENCODING AMOSWAP_D instr else
    MATCH_AND_RETURN_INSTR AMOSWAP_W_MASK AMOSWAP_W_ENCODING AMOSWAP_W instr) else
  if funct5 instr =? F5_AMOADD_W then
    (if funct3 instr =? F3_AMO_D then MATCH_AND_RETURN_INSTR AMOADD_D_MASK AMOADD_D_ENCODING AMOADD_D instr else
    MATCH_AND_RETURN_INSTR AMOADD_W_MASK AMOADD_W_ENCODING AMOADD_W instr) else
  if funct5 instr =? F5_AMOXOR_W then
    (if funct3 instr =? F3_AMO_D then MATCH_AND_RETURN_INSTR AMOXOR_D_MASK AMOXOR_D_ENCODING AMOXOR_D instr else
    MATCH_AND_RETURN_INSTR AMOXOR_W_MASK AMOXOR_W_ENCODING AMOXOR_W instr) else
  if funct5 instr =? F5_AMOAND_W then
    (if funct3 instr =? F3_AMO_D then MATCH_AND_RETURN_INSTR AMOAND_D_MASK AMOAND_D_ENCODING AMOAND_D instr else
    MATCH_AND_RETURN_INSTR AMOAND_W_MASK AMOAND_W_ENCODING AMOAND_W instr) else
  if funct5 instr =? F5_AMOOR_W then
    (if funct3 instr =? F3_AMO_D then MATCH_AND_RETURN_INSTR AMOOR_D_MASK AMOOR_D_ENCODING AMOOR_D instr else
    MATCH_AND_RETURN_INSTR AMOOR_W_MASK AMOOR_W_ENCODING AMOOR_W instr) else
  if funct5 instr =? F5_AMOMIN_W then
    (if funct3 instr =? F3_AMO_D then MATCH_AND_RETURN_INSTR AMOMIN_D_MASK AMOMIN_D_ENCODING AMOMIN_D instr else
    MATCH_AND_RETURN_INSTR AMOMIN_W_MASK AMOMIN_W_ENCODING AMOMIN_W instr) else
  if funct5 instr =? F5_AMOMAX_W then
    (if funct3 instr =? F3_AMO_D then MATCH_AND_RETURN_INSTR AMOMAX_D_MASK AMOMAX_D_ENCODING AMOMAX_D instr else
    MATCH_AND_RETURN_INSTR AMOMAX_W_MASK AMOMAX_W_ENCODING AMOMAX_W instr) else
  if funct5 instr =? F5_AMOMINU_W then
    (if funct3 instr =? F3_AMO_D then MATCH_AND_RETURN_INSTR AMOMINU_D_MASK AMOMINU_D_ENCODING AMOMINU_D instr else
    MATCH_AND_RETURN_INSTR AMOMINU_W_MASK AMOMINU_W_ENCODING AMOMINU_W instr) else
  if funct5 instr =? F5_AMOMAXU_W then
    (if funct3 instr =? F3_AMO_D then MATCH_AND_RETURN_INSTR AMOMAXU_D_MASK AMOMAXU_D_ENCODING AMOMAXU_D instr else
    MATCH_AND_RETURN_INSTR AMOMAXU_W_MASK AMOMAXU_W_ENCODING AMOMAXU_W instr) else
  UNDEF.
Definition decode_OP_FMADD_S (instr : Instruction) : Mapping :=
  if funct2 instr =? F2_FMADD_S then MATCH_AND_RETURN_INSTR FMADD_S_MASK FMADD_S_ENCODING FMADD_S instr else
  if funct2 instr =? F2_FMADD_D then MATCH_AND_RETURN_INSTR FMADD_D_MASK FMADD_D_ENCODING FMADD_D instr else
  UNDEF.
Definition decode_OP_FADD_S (instr : Instruction) : Mapping :=
  if funct7 instr =? F7_FADD_S then MATCH_AND_RETURN_INSTR FADD_S_MASK FADD_S_ENCODING FADD_S instr else
  if funct7 instr =? F7_FADD_D then MATCH_AND_RETURN_INSTR FADD_D_MASK FADD_D_ENCODING FADD_D instr else
  if funct7 instr =? F7_FSUB_S then MATCH_AND_RETURN_INSTR FSUB_S_MASK FSUB_S_ENCODING FSUB_S instr else
  if funct7 instr =? F7_FSUB_D then MATCH_AND_RETURN_INSTR FSUB_D_MASK FSUB_D_ENCODING FSUB_D instr else
  if funct7 instr =? F7_FCVT_D_S then MATCH_AND_RETURN_INSTR FCVT_D_S_MASK FCVT_D_S_ENCODING FCVT_D_S instr else
  if funct7 instr =? F7_FMUL_S then MATCH_AND_RETURN_INSTR FMUL_S_MASK FMUL_S_ENCODING FMUL_S instr else
  if funct7 instr =? F7_FMUL_D then MATCH_AND_RETURN_INSTR FMUL_D_MASK FMUL_D_ENCODING FMUL_D instr else
  if funct7 instr =? F7_FDIV_S then MATCH_AND_RETURN_INSTR FDIV_S_MASK FDIV_S_ENCODING FDIV_S instr else
  if funct7 instr =? F7_FDIV_D then MATCH_AND_RETURN_INSTR FDIV_D_MASK FDIV_D_ENCODING FDIV_D instr else
  if funct7 instr =? F7_FLE_S then
    (if funct3 instr =? F3_FLE_S then MATCH_AND_RETURN_INSTR FLE_S_MASK FLE_S_ENCODING FLE_S instr else
    if funct3 instr =? F3_FLT_S then MATCH_AND_RETURN_INSTR FLT_S_MASK FLT_S_ENCODING FLT_S instr else
    if funct3 instr =? F3_FEQ_S then MATCH_AND_RETURN_INSTR FEQ_S_MASK FEQ_S_ENCODING FEQ_S instr else
    UNDEF) else
  if funct7 instr =? F7_FSGNJ_D then
    (if funct3 instr =? F3_FSGNJ_D then MATCH_AND_RETURN_INSTR FSGNJ_D_MASK FSGNJ_D_ENCODING FSGNJ_D instr else
    if funct3 instr =? F3_FSGNJN_D then MATCH_AND_RETURN_INSTR FSGNJN_D_MASK FSGNJN_D_ENCODING FSGNJN_D instr else
    if funct3 instr =? F3_FSGNJX_D then MATCH_AND_RETURN_INSTR FSGNJX_D_MASK FSGNJX_D_ENCODING FSGNJX_D instr else
    UNDEF) else
  if funct7 instr =? F7_FMIN_S then
    (if funct3 instr =? F3_FMIN_S then MATCH_AND_RETURN_INSTR FMIN_S_MASK FMIN_S_ENCODING FMIN_S instr else
    if funct3 instr =? F3_FMAX_S then MATCH_AND_RETURN_INSTR FMAX_S_MASK FMAX_S_ENCODING FMAX_S instr else
    UNDEF) else
  if funct7 instr =? F7_FMIN_D then
    (if funct3 instr =? F3_FMIN_D then MATCH_AND_RETURN_INSTR FMIN_D_MASK FMIN_D_ENCODING FMIN_D instr else
    if funct3 instr =? F3_FMAX_D then MATCH_AND_RETURN_INSTR FMAX_D_MASK FMAX_D_ENCODING FMAX_D instr else
    UNDEF) else
  if funct7 instr =? F7_FCVT_S_D then MATCH_AND_RETURN_INSTR FCVT_S_D_MASK FCVT_S_D_ENCODING FCVT_S_D instr else
  if funct7 instr =? F7_FSGNJ_S then
    (if funct3 instr =? F3_FSGNJ_S then MATCH_AND_RETURN_INSTR FSGNJ_S_MASK FSGNJ_S_ENCODING FSGNJ_S instr else
    if funct3 instr =? F3_FSGNJN_S then MATCH_AND_RETURN_INSTR FSGNJN_S_MASK FSGNJN_S_ENCODING FSGNJN_S instr else
    if funct3 instr =? F3_FSGNJX_S then MATCH_AND_RETURN_INSTR FSGNJX_S_MASK FSGNJX_S_ENCODING FSGNJX_S instr else
    UNDEF) else
  if funct7 instr =? F7_FLE_D then
    (if funct3 instr =? F3_FLE_D then MATCH_AND_RETURN_INSTR FLE_D_MASK FLE_D_ENCODING FLE_D instr else
    if funct3 instr =? F3_FLT_D then MATCH_AND_RETURN_INSTR FLT_D_MASK FLT_D_ENCODING FLT_D instr else
    if funct3 instr =? F3_FEQ_D then MATCH_AND_RETURN_INSTR FEQ_D_MASK FEQ_D_ENCODING FEQ_D instr else
    UNDEF) else
  if funct7 instr =? F7_FCVT_S_W then
    (if rs2 instr =? RS2_FCVT_S_W then MATCH_AND_RETURN_INSTR FCVT_S_W_MASK FCVT_S_W_ENCODING FCVT_S_W instr else
    if rs2 instr =? RS2_FCVT_S_WU then MATCH_AND_RETURN_INSTR FCVT_S_WU_MASK FCVT_S_WU_ENCODING FCVT_S_WU instr else
    if rs2 instr =? RS2_FCVT_S_L then MATCH_AND_RETURN_INSTR FCVT_S_L_MASK FCVT_S_L_ENCODING FCVT_S_L instr else
    if rs2 instr =? RS2_FCVT_S_LU then MATCH_AND_RETURN_INSTR FCVT_S_LU_MASK FCVT_S_LU_ENCODING FCVT_S_LU instr else
    UNDEF) else
  if funct7 instr =? F7_FCVT_D_W then
    (if rs2 instr =? RS2_FCVT_D_W then MATCH_AND_RETURN_INSTR FCVT_D_W_MASK FCVT_D_W_ENCODING FCVT_D_W instr else
    if rs2 instr =? RS2_FCVT_D_WU then MATCH_AND_RETURN_INSTR FCVT_D_WU_MASK FCVT_D_WU_ENCODING FCVT_D_WU instr else
    if rs2 instr =? RS2_FCVT_D_L then MATCH_AND_RETURN_INSTR FCVT_D_L_MASK FCVT_D_L_ENCODING FCVT_D_L instr else
    if rs2 instr =? RS2_FCVT_D_LU then MATCH_AND_RETURN_INSTR FCVT_D_LU_MASK FCVT_D_LU_ENCODING FCVT_D_LU instr else
    UNDEF) else
  if funct7 instr =? F7_FCVT_W_D then
    (if rs2 instr =? RS2_FCVT_W_D then MATCH_AND_RETURN_INSTR FCVT_W_D_MASK FCVT_W_D_ENCODING FCVT_W_D instr else
    if rs2 instr =? RS2_FCVT_WU_D then MATCH_AND_RETURN_INSTR FCVT_WU_D_MASK FCVT_WU_D_ENCODING FCVT_WU_D instr else
    if rs2 instr =? RS2_FCVT_L_D then MATCH_AND_RETURN_INSTR FCVT_L_D_MASK FCVT_L_D_ENCODING FCVT_L_D instr else
    if rs2 instr =? RS2_FCVT_LU_D then MATCH_AND_RETURN_INSTR FCVT_LU_D_MASK FCVT_LU_D_ENCODING FCVT_LU_D instr else
    UNDEF) else
  if funct7 instr =? F7_FSQRT_S then MATCH_AND_RETURN_INSTR FSQRT_S_MASK FSQRT_S_ENCODING FSQRT_S instr else
  if funct7 instr =? F7_FSQRT_D then MATCH_AND_RETURN_INSTR FSQRT_D_MASK FSQRT_D_ENCODING FSQRT_D instr else
  if funct7 instr =? F7_FCVT_W_S then
    (if rs2 instr =? RS2_FCVT_W_S then MATCH_AND_RETURN_INSTR FCVT_W_S_MASK FCVT_W_S_ENCODING FCVT_W_S instr else
    if rs2 instr =? RS2_FCVT_WU_S then MATCH_AND_RETURN_INSTR FCVT_WU_S_MASK FCVT_WU_S_ENCODING FCVT_WU_S instr else
    if rs2 instr =? RS2_FCVT_L_S then MATCH_AND_RETURN_INSTR FCVT_L_S_MASK FCVT_L_S_ENCODING FCVT_L_S instr else
    if rs2 instr =? RS2_FCVT_LU_S then MATCH_AND_RETURN_INSTR FCVT_LU_S_MASK FCVT_LU_S_ENCODING FCVT_LU_S instr else
    UNDEF) else
  if funct7 instr =? F7_FMV_X_W then
    (if funct3 instr =? F3_FMV_X_W then MATCH_AND_RETURN_INSTR FMV_X_W_MASK FMV_X_W_ENCODING FMV_X_W instr else
    if funct3 instr =? F3_FCLASS_S then MATCH_AND_RETURN_INSTR FCLASS_S_MASK FCLASS_S_ENCODING FCLASS_S instr else
    UNDEF) else
  if funct7 instr =? F7_FMV_X_D then
    (if funct3 instr =? F3_FMV_X_D then MATCH_AND_RETURN_INSTR FMV_X_D_MASK FMV_X_D_ENCODING FMV_X_D instr else
    if funct3 instr =? F3_FCLASS_D then MATCH_AND_RETURN_INSTR FCLASS_D_MASK FCLASS_D_ENCODING FCLASS_D instr else
    UNDEF) else
  if funct7 instr =? F7_FMV_W_X then MATCH_AND_RETURN_INSTR FMV_W_X_MASK FMV_W_X_ENCODING FMV_W_X instr else
  if funct7 instr =? F7_FMV_D_X then MATCH_AND_RETURN_INSTR FMV_D_X_MASK FMV_D_X_ENCODING FMV_D_X instr else
  UNDEF.
Definition decode_OP_FLW (instr : Instruction) : Mapping :=
  if funct3 instr =? F3_FLW then MATCH_AND_RETURN_INSTR FLW_MASK FLW_ENCODING FLW instr else
  if funct3 instr =? F3_FLD then MATCH_AND_RETURN_INSTR FLD_MASK FLD_ENCODING FLD instr else
  UNDEF.
Definition decode_OP_FSW (instr : Instruction) : Mapping :=
  if funct3 instr =? F3_FSW then MATCH_AND_RETURN_INSTR FSW_MASK FSW_ENCODING FSW instr else
  if funct3 instr =? F3_FSD then MATCH_AND_RETURN_INSTR FSD_MASK FSD_ENCODING FSD instr else
  UNDEF.
Definition decode_OP_FMSUB_S (instr : Instruction) : Mapping :=
  if funct2 instr =? F2_FMSUB_S then MATCH_AND_RETURN_INSTR FMSUB_S_MASK FMSUB_S_ENCODING FMSUB_S instr else
  if funct2 instr =? F2_FMSUB_D then MATCH_AND_RETURN_INSTR FMSUB_D_MASK FMSUB_D_ENCODING FMSUB_D instr else
  UNDEF.
Definition decode_OP_FNMSUB_S (instr : Instruction) : Mapping :=
  if funct2 instr =? F2_FNMSUB_S then MATCH_AND_RETURN_INSTR FNMSUB_S_MASK FNMSUB_S_ENCODING FNMSUB_S instr else
  if funct2 instr =? F2_FNMSUB_D then MATCH_AND_RETURN_INSTR FNMSUB_D_MASK FNMSUB_D_ENCODING FNMSUB_D instr else
  UNDEF.
Definition decode_OP_FNMADD_S (instr : Instruction) : Mapping :=
  if funct2 instr =? F2_FNMADD_S then MATCH_AND_RETURN_INSTR FNMADD_S_MASK FNMADD_S_ENCODING FNMADD_S instr else
  if funct2 instr =? F2_FNMADD_D then MATCH_AND_RETURN_INSTR FNMADD_D_MASK FNMADD_D_ENCODING FNMADD_D instr else
  UNDEF.

Definition decode_32 (instr : Instruction) : Mapping :=
  if opcode instr =? OP_LUI then MATCH_AND_RETURN_INSTR LUI_MASK LUI_ENCODING LUI instr else
  if opcode instr =? OP_AUIPC then MATCH_AND_RETURN_INSTR AUIPC_MASK AUIPC_ENCODING AUIPC instr else
  if opcode instr =? OP_JAL then MATCH_AND_RETURN_INSTR JAL_MASK JAL_ENCODING JAL instr else
  if opcode instr =? OP_JALR then MATCH_AND_RETURN_INSTR JALR_MASK JALR_ENCODING JALR instr else
  if opcode instr =? OP_BEQ then decode_OP_BEQ instr else
  if opcode instr =? OP_LB then decode_OP_LB instr else
  if opcode instr =? OP_SB then decode_OP_SB instr else
  if opcode instr =? OP_ADDI then decode_OP_ADDI instr else
  if opcode instr =? OP_ADDIW then decode_OP_ADDIW instr else
  if opcode instr =? OP_ADD then decode_OP_ADD instr else
  if opcode instr =? OP_ADDW then decode_OP_ADDW instr else
  if opcode instr =? OP_FENCE then decode_OP_FENCE instr else
  if opcode instr =? OP_ECALL then decode_OP_ECALL instr else
  if opcode instr =? OP_AMO then decode_OP_AMO instr else
  if opcode instr =? OP_FMADD_S then decode_OP_FMADD_S instr else
  if opcode instr =? OP_FADD_S then decode_OP_FADD_S instr else
  if opcode instr =? OP_FLW then decode_OP_FLW instr else
  if opcode instr =? OP_FSW then decode_OP_FSW instr else
  if opcode instr =? OP_FMSUB_S then decode_OP_FMSUB_S instr else
  if opcode instr =? OP_FNMSUB_S then decode_OP_FNMSUB_S instr else
  if opcode instr =? OP_FNMADD_S then decode_OP_FNMADD_S instr else
  UNDEF.


(** ** Immediates of compressed instructions *)

Definition C_ADDI4SPN_NZUIMM (n : Z) : Z :=
  Z.lor (Z.lor (Z.lor (Z.shiftl (BIT_SLICE n 12 11) 4) (Z.shiftl (BIT_SLICE n 10 7) 6))
    (Z.shiftl (BIT_SINGLE_P1 n 6) 2)) (Z.shiftl (BIT_SINGLE_P1 n 5) 3).
Definition C_LW_UIMM (n : Z) : Z :=
  Z.lor (Z.lor (Z.shiftl (BIT_SLICE n 12 10) 3) (Z.shiftl (BIT_SINGLE_P1 n 6) 2)) (Z.shiftl (BIT_SINGLE_P1 n 5) 6).
Definition C_LD_UIMM (n : Z) : Z := Z.lor (Z.shiftl (BIT_SLICE n 12 10) 3) (Z.shiftl (BIT_SLICE n 6 5) 6).
Definition C_SW_UIMM (n : Z) : Z := C_LW_UIMM n.
Definition C_SD_UIMM (n : Z) : Z := C_LD_UIMM n.
(** The parameter is an [int32_t]. *)
Definition C_JAL_IMM (n : Z) : Z :=
  let n := s32 n in
  Z.lor (Z.lor (Z.lor (Z.lor (Z.lor (Z.lor (Z.lor
    (EXTRACT_SIGN_BIT n 12 11) (BIT_SINGLE_PN n 11 4)) (Z.shiftl (BIT_SLICE n 10 9) 8)) (BIT_SINGLE_PN n 8 10))
    (BIT_SINGLE_PN n 7 6)) (BIT_SINGLE_PN n 6 7)) (Z.shiftl (BIT_SLICE n 5 3) 1)) (BIT_SINGLE_PN n 2 5).
Definition C_ADDI16SP_NZIMM (n : Z) : Z :=
  let n := s32 n in
  Z.lor (Z.lor (Z.lor (Z.lor (EXTRACT_SIGN_BIT n 12 9) (BIT_SINGLE_PN n 6 4)) (BIT_SINGLE_PN n 5 6))
    (Z.shiftl (BIT_SLICE n 4 3) 7)) (BIT_SINGLE_PN n 2 5).
Definition C_LUI_NZIMM (n : Z) : Z :=
  let n := s32 n in Z.lor (EXTRACT_SIGN_BIT n 12 17) (Z.shiftl (BIT_SLICE n 6 2) 12).
Definition C_J_IMM (n : Z) : Z := C_JAL_IMM n.
Definition C_BRANCH_IMM (n : Z) : Z :=
  let n := s32 n in
  Z.lor (Z.lor (Z.lor (Z.lor (EXTRACT_SIGN_BIT n 12 8) (Z.shiftl (BIT_SLICE n 11 10) 3))
    (Z.shiftl (BIT_SLICE n 6 5) 6)) (Z.shiftl (BIT_SLICE n 4 3) 1)) (BIT_SINGLE_PN n 2 5).
Definition C_LWSP_UIMM (n : Z) : Z :=
  Z.lor (Z.lor (BIT_SINGLE_PN n 12 5) (Z.shiftl (BIT_SLICE n 6 4) 2)) (Z.shiftl (BIT_SLICE n 3 2) 6).
Definition C_SWSP_UIMM (n : Z) : Z := Z.lor (Z.shiftl (BIT_SLICE n 12 9) 2) (Z.shiftl (BIT_SLICE n 8 7) 6).
Definition C_LDSP_UIMM (n : Z) : Z :=
  Z.lor (Z.lor (BIT_SINGLE_PN n 12 5) (Z.shiftl (BIT_SLICE n 6 5) 3)) (Z.shiftl (BIT_SLICE n 4 2) 6).
Definition C_SDSP_UIMM (n : Z) : Z := Z.lor (Z.shiftl (BIT_SLICE n 12 10) 3) (Z.shiftl (BIT_SLICE n 9 7) 6).

(** ** Building instructions *)

Module InstructionFactory.

Definition T (w : Z) : Instruction := mkInstruction w.
Definition reg (r pos : Z) : Z := Z.shiftl (Z.land r 0x1f) pos.
(** [a | b | ...] *)
Definition bits (l : list Z) : Instruction := T (foldr Z.lor 0 l).

Definition ADD (rd rs1 rs2 : Z) : Instruction :=
  bits [reg rd 7; reg rs1 15; reg rs2 20; 51; Z.shiftl 0 12; Z.shiftl 0 25].
Definition AND (rd rs1 rs2 : Z) : Instruction :=
  bits [reg rd 7; reg rs1 15; reg rs2 20; 51; Z.shiftl 7 12; Z.shiftl 0 25].
Definition OR (rd rs1 rs2 : Z) : Instruction :=
  bits [reg rd 7; reg rs1 15; reg rs2 20; 51; Z.shiftl 6 12; Z.shiftl 0 25].
Definition XOR (rd rs1 rs2 : Z) : Instruction :=
  bits [reg rd 7; reg rs1 15; reg rs2 20; 51; Z.shiftl 4 12; Z.shiftl 0 25].
Definition SUB (rd rs1 rs2 : Z) : Instruction :=
  bits [reg rd 7; reg rs1 15; reg rs2 20; 51; Z.shiftl 0 12; Z.shiftl 32 25].

Definition i_type (op f3 rd rs1 I_imm : Z) : Instruction :=
  bits [Z.shiftl (Z.land I_imm 4095) 20; reg rd 7; reg rs1 15; op; Z.shiftl f3 12].
Definition LW (rd rs1 I_imm : Z) : Instruction := i_type 3 2 rd rs1 I_imm.
Definition LD (rd rs1 I_imm : Z) : Instruction := i_type 3 3 rd rs1 I_imm.
Definition FLW (rd rs1 I_imm : Z) : Instruction := i_type 7 2 rd rs1 I_imm.
Definition FLD (rd rs1 I_imm : Z) : Instruction := i_type 7 3 rd rs1 I_imm.
Definition ADDI (rd rs1 I_imm : Z) : Instruction := i_type 19 0 rd rs1 I_imm.
Definition ANDI (rd rs1 I_imm : Z) : Instruction := i_type 19 7 rd rs1 I_imm.
Definition JALR (rd rs1 I_imm : Z) : Instruction := i_type 103 0 rd rs1 I_imm.
Definition ADDIW (rd rs1 I_imm : Z) : Instruction := bits [Z.shiftl (Z.land I_imm 4095) 20; reg rd 7; reg rs1 15; 0x1b].

Definition s_type (op f3 rs1 rs2 S_imm : Z) : Instruction :=
  bits [Z.shiftl (Z.land S_imm 0x1f) 7; Z.shiftl (Z.land S_imm (Z.shiftl 0x7f 5)) 20; reg rs1 15; reg rs2 20; op;
        Z.shiftl f3 12].
Definition SW (rs1 rs2 S_imm : Z) : Instruction := s_type 35 2 rs1 rs2 S_imm.
Definition SD (rs1 rs2 S_imm : Z) : Instruction := s_type 35 3 rs1 rs2 S_imm.
Definition FSW (rs1 rs2 S_imm : Z) : Instruction := s_type 39 2 rs1 rs2 S_imm.
Definition FSD (rs1 rs2 S_imm : Z) : Instruction := s_type 39 3 rs1 rs2 S_imm.

Definition LUI (rd U_imm : Z) : Instruction := bits [Z.land U_imm (s32 (Z.shiftl 1048575 12)); reg rd 7; 55].

Definition SRLI (rd rs1 shamt : Z) : Instruction :=
  bits [reg rd 7; reg rs1 15; Z.shiftl (Z.land shamt 63) 20; 19; Z.shiftl 5 12; Z.shiftl 0 25].
Definition SRAI (rd rs1 shamt : Z) : Instruction :=
  bits [reg rd 7; reg rs1 15; Z.shiftl (Z.land shamt 63) 20; 19; Z.shiftl 5 12; Z.shiftl 32 25].
Definition SLLI (rd rs1 shamt : Z) : Instruction :=
  bits [reg rd 7; reg rs1 15; Z.shiftl (Z.land shamt 63) 20; 19; Z.shiftl 1 12; Z.shiftl 0 25].

Definition JAL (rd J_imm : Z) : Instruction :=
  bits [111; reg rd 7; Z.land J_imm (Z.shiftl 0xff 12); Z.shiftl (Z.land J_imm (Z.shiftl 1 11)) 9;
        Z.shiftl (Z.land J_imm 0x7fe) 20; Z.shiftl (Z.land J_imm (Z.shiftl 1 20)) 11].
Definition b_type (f3 rs1 rs2 B_imm : Z) : Instruction :=
  bits [Z.shiftl (Z.land B_imm 0x1e) 7; Z.shiftr (Z.land B_imm (Z.shiftl 1 11)) 4;
        Z.shiftl (Z.land B_imm (Z.shiftl 0x3f 5)) 20; Z.shiftl (Z.land B_imm (Z.shiftl 1 12)) 19;
        reg rs1 15; reg rs2 20; 99; Z.shiftl f3 12].
Definition BEQ (rs1 rs2 B_imm : Z) : Instruction := b_type 0 rs1 rs2 B_imm.
Definition BNE (rs1 rs2 B_imm : Z) : Instruction := b_type 1 rs1 rs2 B_imm.
Definition EBREAK : Instruction := T 1048691.
Definition ADDW (rd rs1 rs2 : Z) : Instruction := bits [reg rd 7; reg rs1 15; reg rs2 20; 0x3b].
Definition SUBW (rd rs1 rs2 : Z) : Instruction := bits [reg rd 7; reg rs1 15; reg rs2 20; 0x3b; 0x40000000].

End InstructionFactory.

(** ** Compressed instructions *)

Import Compressed.

Definition decode_quadrant_0 (instr : Instruction) : Compressed.Opcode :=
  match c_opcode instr with
  | 0 => if c_format instr =? 0 then C_Illegal else C_ADDI4SPN
  | 1 => C_FLD
  | 2 => C_LW
  | 3 => C_LD
  | 4 => C_Reserved
  | 5 => C_FSD
  | 6 => C_SW
  | 7 => C_SD
  | _ => C_Illegal
  end.
Definition decode_quadrant_1 (instr : Instruction) : Compressed.Opcode :=
  match c_opcode instr with
  | 0 => if c_format instr =? 1 then C_NOP else C_ADDI
  | 1 => C_ADDIW
  | 2 => C_LI
  | 3 => if c_rd instr =? 2 then C_ADDI16SP else C_LUI
  | 4 =>
      match c_f2_high instr with
      | 0 => C_SRLI
      | 1 => C_SRAI
      | 2 => C_ANDI
      | 3 =>
          if negb (c_b12 instr =? 0) then
            match c_f2_low instr with 0 => C_SUBW | 1 => C_ADDW | _ => C_Reserved end
          else
            match c_f2_low instr with 0 => C_SUB | 1 => C_XOR | 2 => C_OR | 3 => C_AND | _ => C_Illegal end
      | _ => C_Illegal
      end
  | 5 => C_J
  | 6 => C_BEQZ
  | 7 => C_BNEZ
  | _ => C_Illegal
  end.
Definition decode_quadrant_2 (instr : Instruction) : Compressed.Opcode :=
  match c_opcode instr with
  | 0 => C_SLLI
  | 1 => C_FLDSP
  | 2 => C_LWSP
  | 3 => C_LDSP
  | 4 =>
      if negb (c_b12 instr =? 0) then
        if negb (c_rd instr =? 0) then
          if negb (c_rs2 instr =? 0) then C_ADD else C_JALR
        else C_EBREAK
      else
        if negb (c_rs2 instr =? 0) then C_MV else C_JR
  | 5 => C_FSDSP
  | 6 => C_SWSP
  | 7 => C_SDSP
  | _ => C_Illegal
  end.
Definition decode_16 (instr : Instruction) : option Compressed.Opcode :=
  match quadrant instr with
  | 0 => Some (decode_quadrant_0 instr)
  | 1 => Some (decode_quadrant_1 instr)
  | 2 => Some (decode_quadrant_2 instr)
  | 3 => None
  | _ => Some C_Illegal
  end.

(** The operation and the instruction word it leaves. *)
Definition expand_16 (instr : Instruction) (op : Compressed.Opcode) : Mapping * Instruction :=
  let rd := c_rd instr in
  let rds := c_rd_small instr in
  let rs2s := c_rs2_small instr in
  let rs2 := c_rs2 instr in
  let n := data instr in
  match op with
  | C_Illegal => (UNDEF, instr)
  | C_LQ | C_LQSP | C_SQ | C_SQSP => (UNDEF, instr)
  | C_Reserved => (UNDEF, instr)
  | C_NOP => (ADD, InstructionFactory.ADD 0 0 0)
  | C_ADD => (ADD, InstructionFactory.ADD rd rd rs2)
  | C_MV => (ADD, InstructionFactory.ADD rd 0 rs2)
  | C_AND => (AND, InstructionFactory.AND rds rds rs2s)
  | C_OR => (OR, InstructionFactory.OR rds rds rs2s)
  | C_XOR => (XOR, InstructionFactory.XOR rds rds rs2s)
  | C_SUB => (SUB, InstructionFactory.SUB rds rds rs2s)
  | C_ADDW => (ADDW, InstructionFactory.ADDW rds rds rs2s)
  | C_SUBW => (SUBW, InstructionFactory.SUBW rds rds rs2s)
  | C_LW => (LW, InstructionFactory.LW rs2s rds (C_LW_UIMM n))
  | C_LD => (LD, InstructionFactory.LD rs2s rds (C_LD_UIMM n))
  | C_FLW => (FLW, InstructionFactory.FLW rs2s rds (C_LW_UIMM n))
  | C_FLD => (FLD, InstructionFactory.FLD rs2s rds (C_LD_UIMM n))
  | C_SW => (SW, InstructionFactory.SW rds rs2s (C_SW_UIMM n))
  | C_SD => (SD, InstructionFactory.SD rds rs2s (C_SD_UIMM n))
  | C_FSW => (FSW, InstructionFactory.FSW rds rs2s (C_SW_UIMM n))
  | C_FSD => (FSD, InstructionFactory.FSD rds rs2s (C_SD_UIMM n))
  | C_ADDI4SPN => if C_ADDI4SPN_NZUIMM n =? 0 then (UNDEF, instr)
      else (ADDI, InstructionFactory.ADDI rs2s 2 (C_ADDI4SPN_NZUIMM n))
  | C_ADDI => (ADDI, InstructionFactory.ADDI rd rd (c_imm instr))
  | C_JAL => (JAL, InstructionFactory.JAL 1 (C_JAL_IMM n))
  | C_ADDIW => if rd =? 0 then (UNDEF, instr) else (ADDIW, InstructionFactory.ADDI rd rd (c_imm instr))
  | C_LI => (ADDI, InstructionFactory.ADDI rd 0 (c_imm instr))
  | C_ADDI16SP => if C_ADDI16SP_NZIMM n =? 0 then (UNDEF, instr)
      else (ADDI, InstructionFactory.ADDI 2 2 (C_ADDI16SP_NZIMM n))
  | C_LUI => if C_LUI_NZIMM n =? 0 then (UNDEF, instr) else (LUI, InstructionFactory.LUI rd (C_LUI_NZIMM n))
  | C_SLLI => (SLLI, InstructionFactory.SLLI rd rd (c_uimm instr))
  | C_SRLI => (SRLI, InstructionFactory.SRLI rds rds (c_uimm instr))
  | C_SRAI => (SRAI, InstructionFactory.SRAI rds rds (c_uimm instr))
  | C_ANDI => (ANDI, InstructionFactory.ANDI rds rds (c_imm instr))
  | C_J => (JAL, InstructionFactory.JAL 0 (C_J_IMM n))
  | C_BEQZ => (BEQ, InstructionFactory.BEQ rds 0 (C_BRANCH_IMM n))
  | C_BNEZ => (BNE, InstructionFactory.BNE rds 0 (C_BRANCH_IMM n))
  | C_LWSP => if rd =? 0 then (UNDEF, instr) else (LW, InstructionFactory.LW rd 2 (C_LWSP_UIMM n))
  | C_LDSP => if rd =? 0 then (UNDEF, instr) else (LD, InstructionFactory.LD rd 2 (C_LDSP_UIMM n))
  | C_FLWSP => (FLW, InstructionFactory.FLW rd 2 (C_LWSP_UIMM n))
  | C_FLDSP => (FLD, InstructionFactory.FLD rd 2 (C_LDSP_UIMM n))
  | C_SWSP => (SW, InstructionFactory.SW 2 rs2 (C_SWSP_UIMM n))
  | C_SDSP => (SD, InstructionFactory.SD 2 rs2 (C_SDSP_UIMM n))
  | C_FSWSP => (FSW, InstructionFactory.FSW 2 rs2 (C_SWSP_UIMM n))
  | C_FSDSP => (FSD, InstructionFactory.FSD 2 rs2 (C_SDSP_UIMM n))
  | C_EBREAK => (EBREAK, InstructionFactory.EBREAK)
  | C_JR => if rd =? 0 then (UNDEF, instr) else (JALR, InstructionFactory.JALR 0 rd 0)
  | C_JALR => (JALR, InstructionFactory.JALR 1 rd 0)
  end.

Definition decode (instr : Instruction) : option (Mapping * Instruction) :=
  if is_compressed instr then c_op ← decode_16 instr; Some (expand_16 instr c_op)
  else Some (decode_32 instr, instr).
