(* ===== verification/Rv64Decode.v ===== *)
(** * What the decoder of the command processor accepts

    Theorems about Rv64Instr.v: the nested switch of [decode_32] returns exactly the
    instruction whose fixed bits the word has.

    The switch is also given as a tree ([tree_32]), so that both directions of the
    first theorem are checked by computation on the tree. *)

From S2P Require Import Prelude BitSolve Rv64Const Rv64Instr.
Import Opcode.

(** ** The switch as a tree *)

Inductive field := F_opcode | F_funct2 | F_funct3 | F_funct5 | F_funct6 | F_funct7 | F_funct12 | F_rs2.

Definition field_of (f : field) (i : Instruction) : Z :=
  match f with
  | F_opcode => opcode i | F_funct2 => funct2 i | F_funct3 => funct3 i | F_funct5 => funct5 i
  | F_funct6 => funct6 i | F_funct7 => funct7 i | F_funct12 => funct12 i | F_rs2 => rs2 i
  end.
(** Where a field is: its lowest bit and its bits in place. *)
Definition field_low (f : field) : Z :=
  match f with
  | F_opcode => 0 | F_funct2 => 25 | F_funct3 => 12 | F_funct5 => 27
  | F_funct6 => 26 | F_funct7 => 25 | F_funct12 => 20 | F_rs2 => 20
  end.
Definition field_mask (f : field) : Z :=
  match f with
  | F_opcode => 0x7f | F_funct2 => 0x6000000 | F_funct3 => 0x7000 | F_funct5 => 0xf8000000
  | F_funct6 => 0xfc000000 | F_funct7 => 0xfe000000 | F_funct12 => 0xfff00000 | F_rs2 => 0x1f00000
  end.

Inductive dtree :=
  | DUndef
  | DLeaf (e : Mapping * Z * Z)
  | DNode (f : field) (cases : list (Z * dtree)) (otherwise : dtree).

Fixpoint walk (t : dtree) (i : Instruction) : Mapping :=
  match t with
  | DUndef => UNDEF
  | DLeaf (m, mask, encoding) => MATCH_AND_RETURN_INSTR mask encoding m i
  | DNode f cases otherwise =>
      (fix go (l : list (Z * dtree)) : Mapping :=
         match l with
         | [] => walk otherwise i
         | (v, t) :: l => if field_of f i =? v then walk t i else go l
         end) cases
  end.

Definition tree_OP_BEQ : dtree :=
  DNode F_funct3 [(F3_BEQ, DLeaf (BEQ, BEQ_MASK, BEQ_ENCODING)); (F3_BNE, DLeaf (BNE, BNE_MASK,
    BNE_ENCODING)); (F3_BLT, DLeaf (BLT, BLT_MASK, BLT_ENCODING)); (F3_BGE, DLeaf (BGE, BGE_MASK,
    BGE_ENCODING)); (F3_BLTU, DLeaf (BLTU, BLTU_MASK, BLTU_ENCODING)); (F3_BGEU, DLeaf (BGEU, BGEU_MASK,
    BGEU_ENCODING))] (DUndef).
Definition tree_OP_LB : dtree :=
  DNode F_funct3 [(F3_LB, DLeaf (LB, LB_MASK, LB_ENCODING)); (F3_LH, DLeaf (LH, LH_MASK, LH_ENCODING));
    (F3_LW, DLeaf (LW, LW_MASK, LW_ENCODING)); (F3_LBU, DLeaf (LBU, LBU_MASK, LBU_ENCODING)); (F3_LHU, DLeaf
    (LHU, LHU_MASK, LHU_ENCODING)); (F3_LWU, DLeaf (LWU, LWU_MASK, LWU_ENCODING)); (F3_LD, DLeaf (LD, LD_MASK,
    LD_ENCODING))] (DUndef).
Definition tree_OP_SB : dtree :=
  DNode F_funct3 [(F3_SB, DLeaf (SB, SB_MASK, SB_ENCODING)); (F3_SH, DLeaf (SH, SH_MASK, SH_ENCODING));
    (F3_SW, DLeaf (SW, SW_MASK, SW_ENCODING)); (F3_SD, DLeaf (SD, SD_MASK, SD_ENCODING))] (DUndef).
Definition tree_OP_ADDI : dtree :=
  DNode F_funct3 [(F3_ADDI, DLeaf (ADDI, ADDI_MASK, ADDI_ENCODING)); (F3_SLTI, DLeaf (SLTI, SLTI_MASK,
    SLTI_ENCODING)); (F3_SLTIU, DLeaf (SLTIU, SLTIU_MASK, SLTIU_ENCODING)); (F3_XORI, DLeaf (XORI, XORI_MASK,
    XORI_ENCODING)); (F3_ORI, DLeaf (ORI, ORI_MASK, ORI_ENCODING)); (F3_ANDI, DLeaf (ANDI, ANDI_MASK,
    ANDI_ENCODING)); (F3_SLLI, DLeaf (SLLI, SLLI_MASK, SLLI_ENCODING)); (F3_SRLI, DNode F_funct6 [(F6_SRLI,
    DLeaf (SRLI, SRLI_MASK, SRLI_ENCODING)); (F6_SRAI, DLeaf (SRAI, SRAI_MASK, SRAI_ENCODING))] (DUndef))]
    (DUndef).
Definition tree_OP_ADDIW : dtree :=
  DNode F_funct3 [(F3_ADDIW, DLeaf (ADDIW, ADDIW_MASK, ADDIW_ENCODING)); (F3_SLLIW, DLeaf (SLLIW, SLLIW_MASK,
    SLLIW_ENCODING)); (F3_SRLIW, DNode F_funct7 [(F7_SRLIW, DLeaf (SRLIW, SRLIW_MASK, SRLIW_ENCODING));
    (F7_SRAIW, DLeaf (SRAIW, SRAIW_MASK, SRAIW_ENCODING))] (DUndef))] (DUndef).
Definition tree_OP_ADD : dtree :=
  DNode F_funct7 [(F7_ADD, DNode F_funct3 [(F3_ADD, DLeaf (ADD, ADD_MASK, ADD_ENCODING)); (F3_SLL, DLeaf (SLL,
    SLL_MASK, SLL_ENCODING)); (F3_SLT, DLeaf (SLT, SLT_MASK, SLT_ENCODING)); (F3_SLTU, DLeaf (SLTU, SLTU_MASK,
    SLTU_ENCODING)); (F3_XOR, DLeaf (XOR, XOR_MASK, XOR_ENCODING)); (F3_SRL, DLeaf (SRL, SRL_MASK,
    SRL_ENCODING)); (F3_OR, DLeaf (OR, OR_MASK, OR_ENCODING)); (F3_AND, DLeaf (AND, AND_MASK, AND_ENCODING))]
    (DUndef)); (F7_SUB, DNode F_funct3 [(F3_SUB, DLeaf (SUB, SUB_MASK, SUB_ENCODING)); (F3_SRA, DLeaf (SRA,
    SRA_MASK, SRA_ENCODING))] (DUndef)); (F7_MUL, DNode F_funct3 [(F3_MUL, DLeaf (MUL, MUL_MASK, MUL_ENCODING));
    (F3_MULH, DLeaf (MULH, MULH_MASK, MULH_ENCODING)); (F3_MULHSU, DLeaf (MULHSU, MULHSU_MASK,
    MULHSU_ENCODING)); (F3_MULHU, DLeaf (MULHU, MULHU_MASK, MULHU_ENCODING)); (F3_DIV, DLeaf (DIV, DIV_MASK,
    DIV_ENCODING)); (F3_DIVU, DLeaf (DIVU, DIVU_MASK, DIVU_ENCODING)); (F3_REM, DLeaf (REM, REM_MASK,
    REM_ENCODING)); (F3_REMU, DLeaf (REMU, REMU_MASK, REMU_ENCODING))] (DUndef))] (DUndef).
Definition tree_OP_ADDW : dtree :=
  DNode F_funct7 [(F7_ADDW, DNode F_funct3 [(F3_ADDW, DLeaf (ADDW, ADDW_MASK, ADDW_ENCODING)); (F3_SLLW, DLeaf
    (SLLW, SLLW_MASK, SLLW_ENCODING)); (F3_SRLW, DLeaf (SRLW, SRLW_MASK, SRLW_ENCODING))] (DUndef)); (F7_SUBW,
    DNode F_funct3 [(F3_SUBW, DLeaf (SUBW, SUBW_MASK, SUBW_ENCODING)); (F3_SRAW, DLeaf (SRAW, SRAW_MASK,
    SRAW_ENCODING))] (DUndef)); (F7_MULW, DNode F_funct3 [(F3_MULW, DLeaf (MULW, MULW_MASK, MULW_ENCODING));
    (F3_DIVW, DLeaf (DIVW, DIVW_MASK, DIVW_ENCODING)); (F3_DIVUW, DLeaf (DIVUW, DIVUW_MASK, DIVUW_ENCODING));
    (F3_REMW, DLeaf (REMW, REMW_MASK, REMW_ENCODING)); (F3_REMUW, DLeaf (REMUW, REMUW_MASK, REMUW_ENCODING))]
    (DUndef))] (DUndef).
Definition tree_OP_FENCE : dtree :=
  DNode F_funct3 [(F3_FENCE, DLeaf (FENCE, FENCE_MASK, FENCE_ENCODING)); (F3_FENCE_I, DLeaf (FENCE_I,
    FENCE_I_MASK, FENCE_I_ENCODING))] (DUndef).
Definition tree_OP_ECALL : dtree :=
  DNode F_funct3 [(F3_SYS, DNode F_funct12 [(F12_ECALL, DLeaf (ECALL, ECALL_MASK, ECALL_ENCODING));
    (F12_EBREAK, DLeaf (EBREAK, EBREAK_MASK, EBREAK_ENCODING)); (F12_URET, DLeaf (URET, URET_MASK,
    URET_ENCODING)); (F12_SRET, DLeaf (SRET, SRET_MASK, SRET_ENCODING)); (F12_MRET, DLeaf (MRET, MRET_MASK,
    MRET_ENCODING)); (F12_WFI, DLeaf (WFI, WFI_MASK, WFI_ENCODING))] (DLeaf (SFENCE_VMA, SFENCE_VMA_MASK,
    SFENCE_VMA_ENCODING))); (F3_CSRRW, DLeaf (CSRRW, CSRRW_MASK, CSRRW_ENCODING)); (F3_CSRRS, DLeaf (CSRRS,
    CSRRS_MASK, CSRRS_ENCODING)); (F3_CSRRC, DLeaf (CSRRC, CSRRC_MASK, CSRRC_ENCODING)); (F3_CSRRWI, DLeaf
    (CSRRWI, CSRRWI_MASK, CSRRWI_ENCODING)); (F3_CSRRSI, DLeaf (CSRRSI, CSRRSI_MASK, CSRRSI_ENCODING));
    (F3_CSRRCI, DLeaf (CSRRCI, CSRRCI_MASK, CSRRCI_ENCODING))] (DUndef).
Definition tree_OP_AMO : dtree :=
  DNode F_funct5 [(F5_LR_W, DNode F_funct3 [(F3_AMO_D, DLeaf (LR_D, LR_D_MASK, LR_D_ENCODING))] (DLeaf (LR_W,
    LR_W_MASK, LR_W_ENCODING))); (F5_SC_W, DNode F_funct3 [(F3_AMO_D, DLeaf (SC_D, SC_D_MASK, SC_D_ENCODING))]
    (DLeaf (SC_W, SC_W_MASK, SC_W_ENCODING))); (F5_AMOSWAP_W, DNode F_funct3 [(F3_AMO_D, DLeaf (AMOSWAP_D,
    AMOSWAP_D_MASK, AMOSWAP_D_ENCODING))] (DLeaf (AMOSWAP_W, AMOSWAP_W_MASK, AMOSWAP_W_ENCODING)));
    (F5_AMOADD_W, DNode F_funct3 [(F3_AMO_D, DLeaf (AMOADD_D, AMOADD_D_MASK, AMOADD_D_ENCODING))] (DLeaf
    (AMOADD_W, AMOADD_W_MASK, AMOADD_W_ENCODING))); (F5_AMOXOR_W, DNode F_funct3 [(F3_AMO_D, DLeaf (AMOXOR_D,
    AMOXOR_D_MASK, AMOXOR_D_ENCODING))] (DLeaf (AMOXOR_W, AMOXOR_W_MASK, AMOXOR_W_ENCODING))); (F5_AMOAND_W,
    DNode F_funct3 [(F3_AMO_D, DLeaf (AMOAND_D, AMOAND_D_MASK, AMOAND_D_ENCODING))] (DLeaf (AMOAND_W,
    AMOAND_W_MASK, AMOAND_W_ENCODING))); (F5_AMOOR_W, DNode F_funct3 [(F3_AMO_D, DLeaf (AMOOR_D, AMOOR_D_MASK,
    AMOOR_D_ENCODING))] (DLeaf (AMOOR_W, AMOOR_W_MASK, AMOOR_W_ENCODING))); (F5_AMOMIN_W, DNode F_funct3
    [(F3_AMO_D, DLeaf (AMOMIN_D, AMOMIN_D_MASK, AMOMIN_D_ENCODING))] (DLeaf (AMOMIN_W, AMOMIN_W_MASK,
    AMOMIN_W_ENCODING))); (F5_AMOMAX_W, DNode F_funct3 [(F3_AMO_D, DLeaf (AMOMAX_D, AMOMAX_D_MASK,
    AMOMAX_D_ENCODING))] (DLeaf (AMOMAX_W, AMOMAX_W_MASK, AMOMAX_W_ENCODING))); (F5_AMOMINU_W, DNode F_funct3
    [(F3_AMO_D, DLeaf (AMOMINU_D, AMOMINU_D_MASK, AMOMINU_D_ENCODING))] (DLeaf (AMOMINU_W, AMOMINU_W_MASK,
    AMOMINU_W_ENCODING))); (F5_AMOMAXU_W, DNode F_funct3 [(F3_AMO_D, DLeaf (AMOMAXU_D, AMOMAXU_D_MASK,
    AMOMAXU_D_ENCODING))] (DLeaf (AMOMAXU_W, AMOMAXU_W_MASK, AMOMAXU_W_ENCODING)))] (DUndef).
Definition tree_OP_FMADD_S : dtree :=
  DNode F_funct2 [(F2_FMADD_S, DLeaf (FMADD_S, FMADD_S_MASK, FMADD_S_ENCODING)); (F2_FMADD_D, DLeaf (FMADD_D,
    FMADD_D_MASK, FMADD_D_ENCODING))] (DUndef).
Definition tree_OP_FADD_S : dtree :=
  DNode F_funct7 [(F7_FADD_S, DLeaf (FADD_S, FADD_S_MASK, FADD_S_ENCODING)); (F7_FADD_D, DLeaf (FADD_D,
    FADD_D_MASK, FADD_D_ENCODING)); (F7_FSUB_S, DLeaf (FSUB_S, FSUB_S_MASK, FSUB_S_ENCODING)); (F7_FSUB_D, DLeaf
    (FSUB_D, FSUB_D_MASK, FSUB_D_ENCODING)); (F7_FCVT_D_S, DLeaf (FCVT_D_S, FCVT_D_S_MASK, FCVT_D_S_ENCODING));
    (F7_FMUL_S, DLeaf (FMUL_S, FMUL_S_MASK, FMUL_S_ENCODING)); (F7_FMUL_D, DLeaf (FMUL_D, FMUL_D_MASK,
    FMUL_D_ENCODING)); (F7_FDIV_S, DLeaf (FDIV_S, FDIV_S_MASK, FDIV_S_ENCODING)); (F7_FDIV_D, DLeaf (FDIV_D,
    FDIV_D_MASK, FDIV_D_ENCODING)); (F7_FLE_S, DNode F_funct3 [(F3_FLE_S, DLeaf (FLE_S, FLE_S_MASK,
    FLE_S_ENCODING)); (F3_FLT_S, DLeaf (FLT_S, FLT_S_MASK, FLT_S_ENCODING)); (F3_FEQ_S, DLeaf (FEQ_S,
    FEQ_S_MASK, FEQ_S_ENCODING))] (DUndef)); (F7_FSGNJ_D, DNode F_funct3 [(F3_FSGNJ_D, DLeaf (FSGNJ_D,
    FSGNJ_D_MASK, FSGNJ_D_ENCODING)); (F3_FSGNJN_D, DLeaf (FSGNJN_D, FSGNJN_D_MASK, FSGNJN_D_ENCODING));
    (F3_FSGNJX_D, DLeaf (FSGNJX_D, FSGNJX_D_MASK, FSGNJX_D_ENCODING))] (DUndef)); (F7_FMIN_S, DNode F_funct3
    [(F3_FMIN_S, DLeaf (FMIN_S, FMIN_S_MASK, FMIN_S_ENCODING)); (F3_FMAX_S, DLeaf (FMAX_S, FMAX_S_MASK,
    FMAX_S_ENCODING))] (DUndef)); (F7_FMIN_D, DNode F_funct3 [(F3_FMIN_D, DLeaf (FMIN_D, FMIN_D_MASK,
    FMIN_D_ENCODING)); (F3_FMAX_D, DLeaf (FMAX_D, FMAX_D_MASK, FMAX_D_ENCODING))] (DUndef)); (F7_FCVT_S_D, DLeaf
    (FCVT_S_D, FCVT_S_D_MASK, FCVT_S_D_ENCODING)); (F7_FSGNJ_S, DNode F_funct3 [(F3_FSGNJ_S, DLeaf (FSGNJ_S,
    FSGNJ_S_MASK, FSGNJ_S_ENCODING)); (F3_FSGNJN_S, DLeaf (FSGNJN_S, FSGNJN_S_MASK, FSGNJN_S_ENCODING));
    (F3_FSGNJX_S, DLeaf (FSGNJX_S, FSGNJX_S_MASK, FSGNJX_S_ENCODING))] (DUndef)); (F7_FLE_D, DNode F_funct3
    [(F3_FLE_D, DLeaf (FLE_D, FLE_D_MASK, FLE_D_ENCODING)); (F3_FLT_D, DLeaf (FLT_D, FLT_D_MASK,
    FLT_D_ENCODING)); (F3_FEQ_D, DLeaf (FEQ_D, FEQ_D_MASK, FEQ_D_ENCODING))] (DUndef)); (F7_FCVT_S_W, DNode
    F_rs2 [(RS2_FCVT_S_W, DLeaf (FCVT_S_W, FCVT_S_W_MASK, FCVT_S_W_ENCODING)); (RS2_FCVT_S_WU, DLeaf (FCVT_S_WU,
    FCVT_S_WU_MASK, FCVT_S_WU_ENCODING)); (RS2_FCVT_S_L, DLeaf (FCVT_S_L, FCVT_S_L_MASK, FCVT_S_L_ENCODING));
    (RS2_FCVT_S_LU, DLeaf (FCVT_S_LU, FCVT_S_LU_MASK, FCVT_S_LU_ENCODING))] (DUndef)); (F7_FCVT_D_W, DNode F_rs2
    [(RS2_FCVT_D_W, DLeaf (FCVT_D_W, FCVT_D_W_MASK, FCVT_D_W_ENCODING)); (RS2_FCVT_D_WU, DLeaf (FCVT_D_WU,
    FCVT_D_WU_MASK, FCVT_D_WU_ENCODING)); (RS2_FCVT_D_L, DLeaf (FCVT_D_L, FCVT_D_L_MASK, FCVT_D_L_ENCODING));
    (RS2_FCVT_D_LU, DLeaf (FCVT_D_LU, FCVT_D_LU_MASK, FCVT_D_LU_ENCODING))] (DUndef)); (F7_FCVT_W_D, DNode F_rs2
    [(RS2_FCVT_W_D, DLeaf (FCVT_W_D, FCVT_W_D_MASK, FCVT_W_D_ENCODING)); (RS2_FCVT_WU_D, DLeaf (FCVT_WU_D,
    FCVT_WU_D_MASK, FCVT_WU_D_ENCODING)); (RS2_FCVT_L_D, DLeaf (FCVT_L_D, FCVT_L_D_MASK, FCVT_L_D_ENCODING));
    (RS2_FCVT_LU_D, DLeaf (FCVT_LU_D, FCVT_LU_D_MASK, FCVT_LU_D_ENCODING))] (DUndef)); (F7_FSQRT_S, DLeaf
    (FSQRT_S, FSQRT_S_MASK, FSQRT_S_ENCODING)); (F7_FSQRT_D, DLeaf (FSQRT_D, FSQRT_D_MASK, FSQRT_D_ENCODING));
    (F7_FCVT_W_S, DNode F_rs2 [(RS2_FCVT_W_S, DLeaf (FCVT_W_S, FCVT_W_S_MASK, FCVT_W_S_ENCODING));
    (RS2_FCVT_WU_S, DLeaf (FCVT_WU_S, FCVT_WU_S_MASK, FCVT_WU_S_ENCODING)); (RS2_FCVT_L_S, DLeaf (FCVT_L_S,
    FCVT_L_S_MASK, FCVT_L_S_ENCODING)); (RS2_FCVT_LU_S, DLeaf (FCVT_LU_S, FCVT_LU_S_MASK, FCVT_LU_S_ENCODING))]
    (DUndef)); (F7_FMV_X_W, DNode F_funct3 [(F3_FMV_X_W, DLeaf (FMV_X_W, FMV_X_W_MASK, FMV_X_W_ENCODING));
    (F3_FCLASS_S, DLeaf (FCLASS_S, FCLASS_S_MASK, FCLASS_S_ENCODING))] (DUndef)); (F7_FMV_X_D, DNode F_funct3
    [(F3_FMV_X_D, DLeaf (FMV_X_D, FMV_X_D_MASK, FMV_X_D_ENCODING)); (F3_FCLASS_D, DLeaf (FCLASS_D,
    FCLASS_D_MASK, FCLASS_D_ENCODING))] (DUndef)); (F7_FMV_W_X, DLeaf (FMV_W_X, FMV_W_X_MASK,
    FMV_W_X_ENCODING)); (F7_FMV_D_X, DLeaf (FMV_D_X, FMV_D_X_MASK, FMV_D_X_ENCODING))] (DUndef).
Definition tree_OP_FLW : dtree :=
  DNode F_funct3 [(F3_FLW, DLeaf (FLW, FLW_MASK, FLW_ENCODING)); (F3_FLD, DLeaf (FLD, FLD_MASK,
    FLD_ENCODING))] (DUndef).
Definition tree_OP_FSW : dtree :=
  DNode F_funct3 [(F3_FSW, DLeaf (FSW, FSW_MASK, FSW_ENCODING)); (F3_FSD, DLeaf (FSD, FSD_MASK,
    FSD_ENCODING))] (DUndef).
Definition tree_OP_FMSUB_S : dtree :=
  DNode F_funct2 [(F2_FMSUB_S, DLeaf (FMSUB_S, FMSUB_S_MASK, FMSUB_S_ENCODING)); (F2_FMSUB_D, DLeaf (FMSUB_D,
    FMSUB_D_MASK, FMSUB_D_ENCODING))] (DUndef).
Definition tree_OP_FNMSUB_S : dtree :=
  DNode F_funct2 [(F2_FNMSUB_S, DLeaf (FNMSUB_S, FNMSUB_S_MASK, FNMSUB_S_ENCODING)); (F2_FNMSUB_D, DLeaf
    (FNMSUB_D, FNMSUB_D_MASK, FNMSUB_D_ENCODING))] (DUndef).
Definition tree_OP_FNMADD_S : dtree :=
  DNode F_funct2 [(F2_FNMADD_S, DLeaf (FNMADD_S, FNMADD_S_MASK, FNMADD_S_ENCODING)); (F2_FNMADD_D, DLeaf
    (FNMADD_D, FNMADD_D_MASK, FNMADD_D_ENCODING))] (DUndef).
Definition tree_32 : dtree :=
  DNode F_opcode [(OP_LUI, DLeaf (LUI, LUI_MASK, LUI_ENCODING)); (OP_AUIPC, DLeaf (AUIPC, AUIPC_MASK,
    AUIPC_ENCODING)); (OP_JAL, DLeaf (JAL, JAL_MASK, JAL_ENCODING)); (OP_JALR, DLeaf (JALR, JALR_MASK,
    JALR_ENCODING)); (OP_BEQ, tree_OP_BEQ); (OP_LB, tree_OP_LB); (OP_SB, tree_OP_SB); (OP_ADDI, tree_OP_ADDI);
    (OP_ADDIW, tree_OP_ADDIW); (OP_ADD, tree_OP_ADD); (OP_ADDW, tree_OP_ADDW); (OP_FENCE, tree_OP_FENCE);
    (OP_ECALL, tree_OP_ECALL); (OP_AMO, tree_OP_AMO); (OP_FMADD_S, tree_OP_FMADD_S); (OP_FADD_S,
    tree_OP_FADD_S); (OP_FLW, tree_OP_FLW); (OP_FSW, tree_OP_FSW); (OP_FMSUB_S, tree_OP_FMSUB_S); (OP_FNMSUB_S,
    tree_OP_FNMSUB_S); (OP_FNMADD_S, tree_OP_FNMADD_S)] DUndef.

(** The bits an instruction fixes, and their values. *)
Definition encoding_of (m : Mapping) : Z * Z :=
  match m with
  | UNDEF => (0, 1)
  | LUI => (LUI_MASK, LUI_ENCODING)
  | AUIPC => (AUIPC_MASK, AUIPC_ENCODING)
  | JAL => (JAL_MASK, JAL_ENCODING)
  | JALR => (JALR_MASK, JALR_ENCODING)
  | BEQ => (BEQ_MASK, BEQ_ENCODING)
  | BNE => (BNE_MASK, BNE_ENCODING)
  | BLT => (BLT_MASK, BLT_ENCODING)
  | BGE => (BGE_MASK, BGE_ENCODING)
  | BLTU => (BLTU_MASK, BLTU_ENCODING)
  | BGEU => (BGEU_MASK, BGEU_ENCODING)
  | LB => (LB_MASK, LB_ENCODING)
  | LH => (LH_MASK, LH_ENCODING)
  | LW => (LW_MASK, LW_ENCODING)
  | LBU => (LBU_MASK, LBU_ENCODING)
  | LHU => (LHU_MASK, LHU_ENCODING)
  | SB => (SB_MASK, SB_ENCODING)
  | SH => (SH_MASK, SH_ENCODING)
  | SW => (SW_MASK, SW_ENCODING)
  | ADDI => (ADDI_MASK, ADDI_ENCODING)
  | SLTI => (SLTI_MASK, SLTI_ENCODING)
  | SLTIU => (SLTIU_MASK, SLTIU_ENCODING)
  | XORI => (XORI_MASK, XORI_ENCODING)
  | ORI => (ORI_MASK, ORI_ENCODING)
  | ANDI => (ANDI_MASK, ANDI_ENCODING)
  | SLLI => (SLLI_MASK, SLLI_ENCODING)
  | SRLI => (SRLI_MASK, SRLI_ENCODING)
  | SRAI => (SRAI_MASK, SRAI_ENCODING)
  | ADD => (ADD_MASK, ADD_ENCODING)
  | SUB => (SUB_MASK, SUB_ENCODING)
  | SLL => (SLL_MASK, SLL_ENCODING)
  | SLT => (SLT_MASK, SLT_ENCODING)
  | SLTU => (SLTU_MASK, SLTU_ENCODING)
  | XOR => (XOR_MASK, XOR_ENCODING)
  | SRL => (SRL_MASK, SRL_ENCODING)
  | SRA => (SRA_MASK, SRA_ENCODING)
  | OR => (OR_MASK, OR_ENCODING)
  | AND => (AND_MASK, AND_ENCODING)
  | FENCE => (FENCE_MASK, FENCE_ENCODING)
  | ECALL => (ECALL_MASK, ECALL_ENCODING)
  | EBREAK => (EBREAK_MASK, EBREAK_ENCODING)
  | FENCE_I => (FENCE_I_MASK, FENCE_I_ENCODING)
  | CSRRW => (CSRRW_MASK, CSRRW_ENCODING)
  | CSRRS => (CSRRS_MASK, CSRRS_ENCODING)
  | CSRRC => (CSRRC_MASK, CSRRC_ENCODING)
  | CSRRWI => (CSRRWI_MASK, CSRRWI_ENCODING)
  | CSRRSI => (CSRRSI_MASK, CSRRSI_ENCODING)
  | CSRRCI => (CSRRCI_MASK, CSRRCI_ENCODING)
  | MUL => (MUL_MASK, MUL_ENCODING)
  | MULH => (MULH_MASK, MULH_ENCODING)
  | MULHSU => (MULHSU_MASK, MULHSU_ENCODING)
  | MULHU => (MULHU_MASK, MULHU_ENCODING)
  | DIV => (DIV_MASK, DIV_ENCODING)
  | DIVU => (DIVU_MASK, DIVU_ENCODING)
  | REM => (REM_MASK, REM_ENCODING)
  | REMU => (REMU_MASK, REMU_ENCODING)
  | LR_W => (LR_W_MASK, LR_W_ENCODING)
  | SC_W => (SC_W_MASK, SC_W_ENCODING)
  | AMOSWAP_W => (AMOSWAP_W_MASK, AMOSWAP_W_ENCODING)
  | AMOADD_W => (AMOADD_W_MASK, AMOADD_W_ENCODING)
  | AMOXOR_W => (AMOXOR_W_MASK, AMOXOR_W_ENCODING)
  | AMOAND_W => (AMOAND_W_MASK, AMOAND_W_ENCODING)
  | AMOOR_W => (AMOOR_W_MASK, AMOOR_W_ENCODING)
  | AMOMIN_W => (AMOMIN_W_MASK, AMOMIN_W_ENCODING)
  | AMOMAX_W => (AMOMAX_W_MASK, AMOMAX_W_ENCODING)
  | AMOMINU_W => (AMOMINU_W_MASK, AMOMINU_W_ENCODING)
  | AMOMAXU_W => (AMOMAXU_W_MASK, AMOMAXU_W_ENCODING)
  | LWU => (LWU_MASK, LWU_ENCODING)
  | LD => (LD_MASK, LD_ENCODING)
  | SD => (SD_MASK, SD_ENCODING)
  | ADDIW => (ADDIW_MASK, ADDIW_ENCODING)
  | SLLIW => (SLLIW_MASK, SLLIW_ENCODING)
  | SRLIW => (SRLIW_MASK, SRLIW_ENCODING)
  | SRAIW => (SRAIW_MASK, SRAIW_ENCODING)
  | ADDW => (ADDW_MASK, ADDW_ENCODING)
  | SUBW => (SUBW_MASK, SUBW_ENCODING)
  | SLLW => (SLLW_MASK, SLLW_ENCODING)
  | SRLW => (SRLW_MASK, SRLW_ENCODING)
  | SRAW => (SRAW_MASK, SRAW_ENCODING)
  | MULW => (MULW_MASK, MULW_ENCODING)
  | DIVW => (DIVW_MASK, DIVW_ENCODING)
  | DIVUW => (DIVUW_MASK, DIVUW_ENCODING)
  | REMW => (REMW_MASK, REMW_ENCODING)
  | REMUW => (REMUW_MASK, REMUW_ENCODING)
  | LR_D => (LR_D_MASK, LR_D_ENCODING)
  | SC_D => (SC_D_MASK, SC_D_ENCODING)
  | AMOSWAP_D => (AMOSWAP_D_MASK, AMOSWAP_D_ENCODING)
  | AMOADD_D => (AMOADD_D_MASK, AMOADD_D_ENCODING)
  | AMOXOR_D => (AMOXOR_D_MASK, AMOXOR_D_ENCODING)
  | AMOAND_D => (AMOAND_D_MASK, AMOAND_D_ENCODING)
  | AMOOR_D => (AMOOR_D_MASK, AMOOR_D_ENCODING)
  | AMOMIN_D => (AMOMIN_D_MASK, AMOMIN_D_ENCODING)
  | AMOMAX_D => (AMOMAX_D_MASK, AMOMAX_D_ENCODING)
  | AMOMINU_D => (AMOMINU_D_MASK, AMOMINU_D_ENCODING)
  | AMOMAXU_D => (AMOMAXU_D_MASK, AMOMAXU_D_ENCODING)
  | FLW => (FLW_MASK, FLW_ENCODING)
  | FSW => (FSW_MASK, FSW_ENCODING)
  | FMADD_S => (FMADD_S_MASK, FMADD_S_ENCODING)
  | FMSUB_S => (FMSUB_S_MASK, FMSUB_S_ENCODING)
  | FNMADD_S => (FNMADD_S_MASK, FNMADD_S_ENCODING)
  | FNMSUB_S => (FNMSUB_S_MASK, FNMSUB_S_ENCODING)
  | FADD_S => (FADD_S_MASK, FADD_S_ENCODING)
  | FSUB_S => (FSUB_S_MASK, FSUB_S_ENCODING)
  | FMUL_S => (FMUL_S_MASK, FMUL_S_ENCODING)
  | FDIV_S => (FDIV_S_MASK, FDIV_S_ENCODING)
  | FSQRT_S => (FSQRT_S_MASK, FSQRT_S_ENCODING)
  | FSGNJ_S => (FSGNJ_S_MASK, FSGNJ_S_ENCODING)
  | FSGNJN_S => (FSGNJN_S_MASK, FSGNJN_S_ENCODING)
  | FSGNJX_S => (FSGNJX_S_MASK, FSGNJX_S_ENCODING)
  | FMIN_S => (FMIN_S_MASK, FMIN_S_ENCODING)
  | FMAX_S => (FMAX_S_MASK, FMAX_S_ENCODING)
  | FCVT_W_S => (FCVT_W_S_MASK, FCVT_W_S_ENCODING)
  | FCVT_WU_S => (FCVT_WU_S_MASK, FCVT_WU_S_ENCODING)
  | FMV_X_W => (FMV_X_W_MASK, FMV_X_W_ENCODING)
  | FEQ_S => (FEQ_S_MASK, FEQ_S_ENCODING)
  | FLT_S => (FLT_S_MASK, FLT_S_ENCODING)
  | FLE_S => (FLE_S_MASK, FLE_S_ENCODING)
  | FCLASS_S => (FCLASS_S_MASK, FCLASS_S_ENCODING)
  | FCVT_S_W => (FCVT_S_W_MASK, FCVT_S_W_ENCODING)
  | FCVT_S_WU => (FCVT_S_WU_MASK, FCVT_S_WU_ENCODING)
  | FMV_W_X => (FMV_W_X_MASK, FMV_W_X_ENCODING)
  | FCVT_L_S => (FCVT_L_S_MASK, FCVT_L_S_ENCODING)
  | FCVT_LU_S => (FCVT_LU_S_MASK, FCVT_LU_S_ENCODING)
  | FCVT_S_L => (FCVT_S_L_MASK, FCVT_S_L_ENCODING)
  | FCVT_S_LU => (FCVT_S_LU_MASK, FCVT_S_LU_ENCODING)
  | FLD => (FLD_MASK, FLD_ENCODING)
  | FSD => (FSD_MASK, FSD_ENCODING)
  | FMADD_D => (FMADD_D_MASK, FMADD_D_ENCODING)
  | FMSUB_D => (FMSUB_D_MASK, FMSUB_D_ENCODING)
  | FNMSUB_D => (FNMSUB_D_MASK, FNMSUB_D_ENCODING)
  | FNMADD_D => (FNMADD_D_MASK, FNMADD_D_ENCODING)
  | FADD_D => (FADD_D_MASK, FADD_D_ENCODING)
  | FSUB_D => (FSUB_D_MASK, FSUB_D_ENCODING)
  | FMUL_D => (FMUL_D_MASK, FMUL_D_ENCODING)
  | FDIV_D => (FDIV_D_MASK, FDIV_D_ENCODING)
  | FSQRT_D => (FSQRT_D_MASK, FSQRT_D_ENCODING)
  | FSGNJ_D => (FSGNJ_D_MASK, FSGNJ_D_ENCODING)
  | FSGNJN_D => (FSGNJN_D_MASK, FSGNJN_D_ENCODING)
  | FSGNJX_D => (FSGNJX_D_MASK, FSGNJX_D_ENCODING)
  | FMIN_D => (FMIN_D_MASK, FMIN_D_ENCODING)
  | FMAX_D => (FMAX_D_MASK, FMAX_D_ENCODING)
  | FCVT_S_D => (FCVT_S_D_MASK, FCVT_S_D_ENCODING)
  | FCVT_D_S => (FCVT_D_S_MASK, FCVT_D_S_ENCODING)
  | FEQ_D => (FEQ_D_MASK, FEQ_D_ENCODING)
  | FLT_D => (FLT_D_MASK, FLT_D_ENCODING)
  | FLE_D => (FLE_D_MASK, FLE_D_ENCODING)
  | FCLASS_D => (FCLASS_D_MASK, FCLASS_D_ENCODING)
  | FCVT_W_D => (FCVT_W_D_MASK, FCVT_W_D_ENCODING)
  | FCVT_WU_D => (FCVT_WU_D_MASK, FCVT_WU_D_ENCODING)
  | FCVT_D_W => (FCVT_D_W_MASK, FCVT_D_W_ENCODING)
  | FCVT_D_WU => (FCVT_D_WU_MASK, FCVT_D_WU_ENCODING)
  | FCVT_L_D => (FCVT_L_D_MASK, FCVT_L_D_ENCODING)
  | FCVT_LU_D => (FCVT_LU_D_MASK, FCVT_LU_D_ENCODING)
  | FMV_X_D => (FMV_X_D_MASK, FMV_X_D_ENCODING)
  | FCVT_D_L => (FCVT_D_L_MASK, FCVT_D_L_ENCODING)
  | FCVT_D_LU => (FCVT_D_LU_MASK, FCVT_D_LU_ENCODING)
  | FMV_D_X => (FMV_D_X_MASK, FMV_D_X_ENCODING)
  | URET => (URET_MASK, URET_ENCODING)
  | SRET => (SRET_MASK, SRET_ENCODING)
  | MRET => (MRET_MASK, MRET_ENCODING)
  | WFI => (WFI_MASK, WFI_ENCODING)
  | SFENCE_VMA => (SFENCE_VMA_MASK, SFENCE_VMA_ENCODING)
  end.

Lemma decode_32_walk i : decode_32 i = walk tree_32 i.
Proof. reflexivity. Qed.

(** The leaf a word with the fixed bits [mask], [encoding] is led to. *)
Fixpoint reach (mask encoding : Z) (t : dtree) : option (Mapping * Z * Z) :=
  match t with
  | DUndef => None
  | DLeaf e => Some e
  | DNode f cases otherwise =>
      (fix go (l : list (Z * dtree)) : option (Mapping * Z * Z) :=
         match l with
         | [] => reach mask encoding otherwise
         | (v, t) :: l =>
             if negb (Z.land (Z.shiftl v (field_low f)) mask =? Z.land encoding (field_mask f)) then go l
             else if (Z.land (field_mask f) mask =? field_mask f) &&
                     (Z.shiftl v (field_low f) =? Z.land encoding (field_mask f)) then reach mask encoding t
             else None
         end) cases
  end.

Fixpoint leaves (t : dtree) : list (Mapping * Z * Z) :=
  match t with
  | DUndef => []
  | DLeaf e => [e]
  | DNode f cases otherwise =>
      (fix go (l : list (Z * dtree)) : list (Mapping * Z * Z) :=
         match l with [] => leaves otherwise | (v, t) :: l => leaves t ++ go l end) cases
  end.

Lemma land_signed i m : 0 <= m < 2 ^ 32 -> Z.land i m = Z.land (data i) m.
Proof.
  intros Hm. apply Z.bits_inj'. intros n Hn. rewrite !Z.land_spec. unfold data. rewrite testbit_wrap by lia.
  destruct (n <? 32) eqn:E; bprop; [done|]. cbn [andb].
  rewrite <- (Z.mod_small m (2 ^ 32)) by lia. rewrite Z.mod_pow2_bits_high by lia. by rewrite !andb_false_r.
Qed.

Lemma field_value f i : field_of f i = Z.shiftr (Z.land (data i) (field_mask f)) (field_low f).
Proof.
  assert (Hm : 0 <= field_mask f < 2 ^ 32) by (destruct f; cbn; lia).
  rewrite <- (land_signed i) by done. unfold field_of.
  assert (Hu : Z.land (u32 i) (field_mask f) = Z.land i (field_mask f)) by (symmetry; by apply land_signed).
  destruct f; cbn [field_mask field_low] in *; rewrite ?Z.shiftr_0_r; try reflexivity.
  all: unfold funct5, funct6, funct7, funct12, BIT_RANGE; f_equal; rewrite <- Hu; clear Hu Hm.
  all: apply Z.bits_inj'; intros n Hn; rewrite !Z.land_spec, !testbit_wrap by lia.
  all: destruct (n <? 32) eqn:E; bprop; [|reflexivity].
  all: rewrite (testbit_swrap 32 _ n) by lia; rewrite (proj2 (Z.ltb_lt n 32) E); reflexivity.
Qed.

Lemma dtree_nested_ind (P : dtree -> Prop) :
  P DUndef -> (forall e, P (DLeaf e)) ->
  (forall f cases o, Forall (fun c => P c.2) cases -> P o -> P (DNode f cases o)) -> forall t, P t.
Proof.
  intros HU HL HN. fix IH 1. intros [|e|f cases o]; [done|apply HL|]. apply HN; [|apply IH].
  induction cases as [|[v t] l IHl]; constructor; [apply IH|exact IHl].
Qed.

(** A field has the value [v] when its bits in place are those of [v]. *)
Lemma field_is f i v : field_of f i = v <-> Z.land (data i) (field_mask f) = Z.shiftl v (field_low f).
Proof.
  rewrite field_value. split; intros H.
  - rewrite <- H. apply Z.bits_inj'. intros n Hn. rewrite Z.land_spec, Z.shiftl_spec by done.
    destruct (decide (n < field_low f)) as [Hlt|Hge].
    + rewrite (Z.testbit_neg_r (Z.shiftr _ _)) by lia.
      replace (field_mask f) with (Z.shiftl (Z.shiftr (field_mask f) (field_low f)) (field_low f))
        by (destruct f; reflexivity).
      rewrite Z.shiftl_spec_low by done. apply andb_false_r.
    + rewrite Z.shiftr_spec by lia. rewrite Z.sub_add. by rewrite Z.land_spec.
  - rewrite H. rewrite Z.shiftr_shiftl_l by (destruct f; cbn; lia). rewrite Z.sub_diag. apply Z.shiftl_0_r.
Qed.

Lemma land_swap x m n : Z.land (Z.land x m) n = Z.land (Z.land x n) m.
Proof. rewrite <- !Z.land_assoc. f_equal. apply Z.land_comm. Qed.

(** A word with the fixed bits of an instruction is led to the leaf [reach] finds. *)
Lemma reach_sound mask encoding i : Z.land (data i) mask = encoding -> forall t e,
  reach mask encoding t = Some e -> walk t i = walk (DLeaf e) i.
Proof.
  intros Henc. induction t as [|e0|f cases o Hcases Ho] using dtree_nested_ind; intros e; [done|cbn; by intros [= ->]|].
  induction Hcases as [|[v t] l Ht _ IHl]; [exact (Ho e)|]. cbn -[Z.land Z.shiftl field_of].
  destruct (Z.eqb_spec (field_of f i) v) as [Hv|Hv]; rewrite field_is in Hv.
  - rewrite <- Hv, land_swap, Henc, Z.eqb_refl. cbn [negb].
    destruct (_ && _); [apply Ht|done].
  - destruct (negb _); [exact IHl|]. destruct (_ && _) eqn:E; [|done]. exfalso. bprop. apply Hv.
    match goal with H : Z.shiftl v _ = _ |- _ => rewrite H end. rewrite <- Henc. rewrite <- Z.land_assoc, (Z.land_comm mask).
    match goal with H : Z.land (field_mask f) mask = _ |- _ => by rewrite H end.
Qed.

(** What the switch returns comes from a leaf whose fixed bits the word has. *)
Lemma walk_leaf i : forall t m, walk t i = m -> m <> UNDEF ->
  Exists (fun e => e.1.1 = m /\ Z.land (data i) e.1.2 = e.2) (leaves t).
Proof.
  induction t as [|[[m0 k] e0]|f cases o Hcases Ho] using dtree_nested_ind; intros m Hw Hm; [cbn in Hw; congruence| |].
  - cbn in *. unfold MATCH_AND_RETURN_INSTR in Hw. destruct (negb _) eqn:E in Hw; [congruence|].
    apply negb_false_iff in E. bprop. constructor. done.
  - induction Hcases as [|[v t] l Ht _ IHl]; [exact (Ho m Hw Hm)|]. cbn -[field_of] in *. apply Exists_app.
    destruct (_ =? _); [left; by apply Ht|right; by apply IHl].
Qed.

Lemma leaves_encoding : Forall (fun e => encoding_of e.1.1 = (e.1.2, e.2)) (leaves tree_32).
Proof. repeat constructor. Qed.

Lemma reach_all m : m <> UNDEF ->
  reach (encoding_of m).1 (encoding_of m).2 tree_32 = Some (m, (encoding_of m).1, (encoding_of m).2).
Proof. destruct m; intros H; try reflexivity; congruence. Qed.

(** C9. The nested switch over the fields of a 32-bit instruction returns an operation
    exactly for the words that have the fixed bits of that operation: each of the 161
    operations is reached from every one of its words, no word is taken for another
    operation, and the order of the cases does not matter. *)
Theorem decode_32_iff i m : m <> UNDEF ->
  (decode_32 i = m <-> Z.land (data i) (encoding_of m).1 = (encoding_of m).2).
Proof.
  intros Hm. rewrite decode_32_walk. split; intros H.
  - destruct (proj1 (Exists_exists _ _) (walk_leaf i _ m H Hm)) as [[[m' k] e] [Hin [Hm' He]]]. cbn in *. subst m'.
    pose proof (proj1 (Forall_forall _ _) leaves_encoding _ Hin) as Henc. cbn in Henc. by rewrite Henc.
  - rewrite (reach_sound _ _ _ H _ _ (reach_all m Hm)). cbn. unfold MATCH_AND_RETURN_INSTR. by rewrite H, Z.eqb_refl.
Qed.

Lemma decode_32_iff_witness : DIVUW <> UNDEF /\ decode_32 0x02c5d53b = DIVUW.
Proof. split; [discriminate|]. apply (decode_32_iff 0x02c5d53b DIVUW); [discriminate|reflexivity]. Defined.
