(* ===== verification/Rv64Compressed.v ===== *)
(** * What a compressed instruction stands for

    The compressed instructions as the RISC-V manual tabulates them: the fixed bits of
    each ([c_word]) and the operation, registers and immediate it stands for ([rvc]),
    each immediate given by where its bits are. The theorems compare [decode] of
    Rv64Instr.v with the table. *)

From S2P Require Import Prelude BitSolve Rv64Const Rv64Instr Rv64Decode.
Import Opcode Compressed.

(** ** Operands of an instruction word *)

Inductive operands :=
  | O_R (rd rs1 rs2 : Z)
  | O_I (rd rs1 imm : Z)
  | O_shift (rd rs1 shamt : Z)
  | O_S (rs1 rs2 imm : Z)
  | O_B (rs1 rs2 imm : Z)
  | O_U (rd imm : Z)
  | O_J (rd imm : Z)
  | O_none.

(** What the execution of [m] reads from the word [i]. *)
Definition operands_of (m : Mapping) (i : Instruction) : operands :=
  match m with
  | SLLI | SRLI | SRAI => O_shift (rd i) (rs1 i) (shamt i)
  | _ =>
    match getType m with
    | T_R => O_R (rd i) (rs1 i) (rs2 i)
    | T_I => O_I (rd i) (rs1 i) (I_imm i)
    | T_S => O_S (rs1 i) (rs2 i) (S_imm i)
    | T_B => O_B (rs1 i) (rs2 i) (B_imm i)
    | T_U => O_U (rd i) (U_imm i)
    | T_J => O_J (rd i) (J_imm i)
    | T_R4 | T_UNKNOWN => O_none
    end
  end.

(** ** The manual's table *)

(** Bits [hi:lo] of a word. *)
Definition slice (i hi lo : Z) : Z := Z.land (Z.shiftr i lo) (2 ^ (hi - lo + 1) - 1).
(** An immediate: which bits [hi:lo] of the word go to which place. *)
Definition uimm (i : Z) (parts : list (Z * Z * Z)) : Z :=
  foldr (fun '(hi, lo, dst) acc => Z.lor (Z.shiftl (slice i hi lo) dst) acc) 0 parts.
Definition imm (w i : Z) (parts : list (Z * Z * Z)) : Z := swrap w (uimm i parts).

(** Where the immediates are. *)
Definition ADDI4SPN_bits := [(12, 11, 4); (10, 7, 6); (6, 6, 2); (5, 5, 3)].
Definition W_bits := [(12, 10, 3); (6, 6, 2); (5, 5, 6)].
Definition D_bits := [(12, 10, 3); (6, 5, 6)].
Definition CI_bits := [(12, 12, 5); (6, 2, 0)].
Definition ADDI16SP_bits := [(12, 12, 9); (6, 6, 4); (5, 5, 6); (4, 3, 7); (2, 2, 5)].
Definition LUI_bits := [(12, 12, 17); (6, 2, 12)].
Definition CJ_bits :=
  [(12, 12, 11); (11, 11, 4); (10, 9, 8); (8, 8, 10); (7, 7, 6); (6, 6, 7); (5, 3, 1); (2, 2, 5)].
Definition CB_bits := [(12, 12, 8); (11, 10, 3); (6, 5, 6); (4, 3, 1); (2, 2, 5)].
Definition LWSP_bits := [(12, 12, 5); (6, 4, 2); (3, 2, 6)].
Definition LDSP_bits := [(12, 12, 5); (6, 5, 3); (4, 2, 6)].
Definition SWSP_bits := [(12, 9, 2); (8, 7, 6)].
Definition SDSP_bits := [(12, 10, 3); (9, 7, 6)].

(** The operation and operands of a compressed instruction; [None] is reserved or
    illegal. C.NOP is given as the code expands it, with the same effect as the
    manual's ADDI x0, x0, 0. *)
Definition rvc (op : Compressed.Opcode) (i : Z) : option (Mapping * operands) :=
  let rd := slice i 11 7 in
  let rs2 := slice i 6 2 in
  let rd' := 8 + slice i 9 7 in
  let rs2' := 8 + slice i 4 2 in
  let nonzero (x : Z) (r : Mapping * operands) := if x =? 0 then None else Some r in
  match op with
  | C_ADDI4SPN => nonzero (uimm i ADDI4SPN_bits) (ADDI, O_I rs2' 2 (uimm i ADDI4SPN_bits))
  | C_FLD => Some (FLD, O_I rs2' rd' (uimm i D_bits))
  | C_LW => Some (LW, O_I rs2' rd' (uimm i W_bits))
  | C_LD => Some (LD, O_I rs2' rd' (uimm i D_bits))
  | C_FSD => Some (FSD, O_S rd' rs2' (uimm i D_bits))
  | C_SW => Some (SW, O_S rd' rs2' (uimm i W_bits))
  | C_SD => Some (SD, O_S rd' rs2' (uimm i D_bits))
  | C_NOP => Some (ADD, O_R 0 0 0)
  | C_ADDI => Some (ADDI, O_I rd rd (imm 6 i CI_bits))
  | C_ADDIW => nonzero rd (ADDIW, O_I rd rd (imm 6 i CI_bits))
  | C_LI => Some (ADDI, O_I rd 0 (imm 6 i CI_bits))
  | C_ADDI16SP => nonzero (imm 10 i ADDI16SP_bits) (ADDI, O_I 2 2 (imm 10 i ADDI16SP_bits))
  | C_LUI => nonzero (imm 18 i LUI_bits) (LUI, O_U rd (imm 18 i LUI_bits))
  | C_SRLI => Some (SRLI, O_shift rd' rd' (uimm i CI_bits))
  | C_SRAI => Some (SRAI, O_shift rd' rd' (uimm i CI_bits))
  | C_ANDI => Some (ANDI, O_I rd' rd' (imm 6 i CI_bits))
  | C_SUB => Some (SUB, O_R rd' rd' rs2')
  | C_XOR => Some (XOR, O_R rd' rd' rs2')
  | C_OR => Some (OR, O_R rd' rd' rs2')
  | C_AND => Some (AND, O_R rd' rd' rs2')
  | C_SUBW => Some (SUBW, O_R rd' rd' rs2')
  | C_ADDW => Some (ADDW, O_R rd' rd' rs2')
  | C_J => Some (JAL, O_J 0 (imm 12 i CJ_bits))
  | C_BEQZ => Some (BEQ, O_B rd' 0 (imm 9 i CB_bits))
  | C_BNEZ => Some (BNE, O_B rd' 0 (imm 9 i CB_bits))
  | C_SLLI => Some (SLLI, O_shift rd rd (uimm i CI_bits))
  | C_FLDSP => Some (FLD, O_I rd 2 (uimm i LDSP_bits))
  | C_LWSP => nonzero rd (LW, O_I rd 2 (uimm i LWSP_bits))
  | C_LDSP => nonzero rd (LD, O_I rd 2 (uimm i LDSP_bits))
  | C_JR => nonzero rd (JALR, O_I 0 rd 0)
  | C_MV => Some (ADD, O_R rd 0 rs2)
  | C_EBREAK => Some (EBREAK, O_none)
  | C_JALR => Some (JALR, O_I 1 rd 0)
  | C_ADD => Some (ADD, O_R rd rd rs2)
  | C_FSDSP => Some (FSD, O_S 2 rs2 (uimm i SDSP_bits))
  | C_SWSP => Some (SW, O_S 2 rs2 (uimm i SWSP_bits))
  | C_SDSP => Some (SD, O_S 2 rs2 (uimm i SDSP_bits))
  | _ => None
  end.

(** ** Proofs *)

Ltac unfold_fields :=
  unfold operands_of, imm, uimm, slice, ADDI4SPN_bits, W_bits, D_bits, CI_bits, ADDI16SP_bits, LUI_bits, CJ_bits,
    CB_bits, LWSP_bits, LDSP_bits, SWSP_bits, SDSP_bits, c_rd, c_rd_small, c_rs2_small, c_rs2, c_imm, c_uimm, c_format,
    C_J_IMM, C_SW_UIMM, C_SD_UIMM, C_ADDI4SPN_NZUIMM, C_LW_UIMM, C_LD_UIMM, C_JAL_IMM, C_ADDI16SP_NZIMM, C_LUI_NZIMM,
    C_BRANCH_IMM, C_LWSP_UIMM, C_SWSP_UIMM, C_LDSP_UIMM, C_SDSP_UIMM,
    InstructionFactory.ADD, InstructionFactory.AND, InstructionFactory.OR, InstructionFactory.XOR, InstructionFactory.SUB,
    InstructionFactory.LW, InstructionFactory.LD, InstructionFactory.FLW, InstructionFactory.FLD, InstructionFactory.ADDI,
    InstructionFactory.ANDI, InstructionFactory.JALR, InstructionFactory.SW, InstructionFactory.SD,
    InstructionFactory.FSW, InstructionFactory.FSD, InstructionFactory.LUI, InstructionFactory.SRLI,
    InstructionFactory.SRAI, InstructionFactory.SLLI, InstructionFactory.JAL, InstructionFactory.BEQ,
    InstructionFactory.BNE, InstructionFactory.EBREAK, InstructionFactory.ADDW, InstructionFactory.SUBW,
    InstructionFactory.i_type, InstructionFactory.s_type, InstructionFactory.b_type,
    InstructionFactory.bits, InstructionFactory.reg, InstructionFactory.T, mkInstruction,
    rd, rs1, rs2, shamt, I_imm, S_imm, B_imm, U_imm, J_imm, data,
    EXTRACT_SIGN_BIT, BIT_SINGLE_PN, BIT_SINGLE_P1, BIT_SINGLE, BIT_SLICE, BIT_RANGE;
  cbn [foldr getType].
Ltac field_solve := unfold_fields; bit_solve.

(** One row of the table: the operation and then each operand. *)
Ltac table_row :=
  lazymatch goal with
  | |- None = _ => reflexivity
  | |- Some (?m, _) = Some (?m, _) =>
      apply (f_equal (fun o => Some (m, o))); unfold operands_of; cbn [getType];
      lazymatch goal with
      | |- O_none = _ => reflexivity
      | |- ?f _ _ _ = ?f _ _ _ => apply (f_equal3 f); field_solve
      | |- ?f _ _ = ?f _ _ => apply (f_equal2 f); field_solve
      end
  end.

Lemma small_reg i hi lo : hi = lo + 2 -> 8 + slice i hi lo = Z.lor (slice i hi lo) 8.
Proof.
  intros ->. unfold slice. replace (lo + 2 - lo + 1) with 3 by lia. change (2 ^ 3 - 1) with 7.
  assert (H0 : Z.land (Z.land (Z.shiftr i lo) 7) 8 = 0) by (rewrite <- Z.land_assoc; apply Z.land_0_r).
  rewrite Z.add_comm, Z.add_nocarry_lxor, Z.lxor_lor by done. done.
Qed.

(** The instructions of RV64: the other ones are of RV32 or RV128. *)
Definition c_rv64 (op : Compressed.Opcode) : bool :=
  match op with
  | C_LQ | C_FLW | C_SQ | C_FSW | C_JAL | C_LQSP | C_FLWSP | C_SQSP | C_FSWSP => false
  | _ => true
  end.

Lemma expand_16_table op i : c_rv64 op = true ->
  let '(m, i') := expand_16 i op in
  rvc op i = match m with UNDEF => None | _ => Some (m, operands_of m i') end.
Proof.
  assert (H1 : C_ADDI4SPN_NZUIMM (data i) = uimm i ADDI4SPN_bits) by field_solve.
  assert (H2 : C_ADDI16SP_NZIMM (data i) = imm 10 i ADDI16SP_bits) by field_solve.
  assert (H3 : C_LUI_NZIMM (data i) = imm 18 i LUI_bits) by field_solve.
  assert (H4 : c_rd i = slice i 11 7) by field_solve.
  intros Hop. destruct op; try discriminate Hop; unfold rvc, expand_16; cbv zeta.
  all: rewrite ?small_reg by reflexivity.
  all: rewrite ?H1, ?H2, ?H3, ?H4; try match goal with |- context [?x =? 0] => destruct (x =? 0) eqn:? end.
  all: cbv beta iota; table_row.
Qed.

(** ** Which words are which instruction *)

(** The word is one of the instruction [op] by the manual's table. *)
Definition c_word (op : Compressed.Opcode) (i : Z) : bool :=
  let has (mask v : Z) := Z.land i mask =? v in
  match op with
  | C_Illegal => has 0xffff 0
  | C_Reserved => has 0xe003 0x8000 || has 0xfc43 0x9c41
  | C_ADDI4SPN => has 0xe003 0 && negb (has 0xffff 0)
  | C_FLD => has 0xe003 0x2000
  | C_LW => has 0xe003 0x4000
  | C_LD => has 0xe003 0x6000
  | C_FSD => has 0xe003 0xa000
  | C_SW => has 0xe003 0xc000
  | C_SD => has 0xe003 0xe000
  | C_NOP => has 0xffff 1
  | C_ADDI => has 0xe003 1 && negb (has 0xffff 1)
  | C_ADDIW => has 0xe003 0x2001
  | C_LI => has 0xe003 0x4001
  | C_ADDI16SP => has 0xef83 0x6101
  | C_LUI => has 0xe003 0x6001 && negb (has 0xef83 0x6101)
  | C_SRLI => has 0xec03 0x8001
  | C_SRAI => has 0xec03 0x8401
  | C_ANDI => has 0xec03 0x8801
  | C_SUB => has 0xfc63 0x8c01
  | C_XOR => has 0xfc63 0x8c21
  | C_OR => has 0xfc63 0x8c41
  | C_AND => has 0xfc63 0x8c61
  | C_SUBW => has 0xfc63 0x9c01
  | C_ADDW => has 0xfc63 0x9c21
  | C_J => has 0xe003 0xa001
  | C_BEQZ => has 0xe003 0xc001
  | C_BNEZ => has 0xe003 0xe001
  | C_SLLI => has 0xe003 0x0002
  | C_FLDSP => has 0xe003 0x2002
  | C_LWSP => has 0xe003 0x4002
  | C_LDSP => has 0xe003 0x6002
  | C_JR => has 0xf07f 0x8002
  | C_MV => has 0xf003 0x8002 && negb (has 0x7c 0)
  | C_EBREAK => has 0xffff 0x9002
  | C_JALR => has 0xf07f 0x9002 && negb (has 0xf80 0)
  | C_ADD => has 0xf003 0x9002 && negb (has 0x7c 0)
  | C_FSDSP => has 0xe003 0xa002
  | C_SWSP => has 0xe003 0xc002
  | C_SDSP => has 0xe003 0xe002
  | _ => false
  end.

(** C.ADD with the destination x0, a hint by the manual. *)
Definition c_add_hint (i : Z) : bool :=
  (Z.land i 0xff83 =? 0x9002) && negb (Z.land i 0x7c =? 0).

Ltac c_unfold := unfold c_opcode, c_f2_high, c_f2_low, c_b12, c_format, quadrant; unfold_fields.
Ltac c_solve := c_unfold; bit_solve.

Lemma land_ones_range x k : 0 <= k -> 0 <= Z.land x (2 ^ k - 1) < 2 ^ k.
Proof.
  intros Hk. replace (2 ^ k - 1) with (Z.ones k) by (rewrite Z.ones_equiv; lia). rewrite Z.land_ones by done.
  apply Z.mod_pos_bound. lia.
Qed.

Lemma c_fields_range i : 0 <= quadrant i < 4 /\ 0 <= c_opcode i < 8 /\ 0 <= c_f2_high i < 4 /\ 0 <= c_f2_low i < 4
  /\ 0 <= c_b12 i < 2.
Proof.
  replace (quadrant i) with (Z.land i (2 ^ 2 - 1)) by c_solve.
  replace (c_opcode i) with (Z.land (Z.shiftr i 13) (2 ^ 3 - 1)) by c_solve.
  replace (c_f2_high i) with (Z.land (Z.shiftr i 10) (2 ^ 2 - 1)) by c_solve.
  replace (c_f2_low i) with (Z.land (Z.shiftr i 5) (2 ^ 2 - 1)) by c_solve.
  replace (c_b12 i) with (Z.land (Z.shiftr i 12) (2 ^ 1 - 1)) by c_solve.
  repeat split; apply land_ones_range; lia.
Qed.

(** The bits the table fixes, from the fields the switches read. *)
Lemma c_fixed_bits i :
  Z.land i 0xe003 = Z.lor (quadrant i) (Z.shiftl (c_opcode i) 13)
  /\ Z.land i 0xec03 = Z.lor (Z.land i 0xe003) (Z.shiftl (c_f2_high i) 10)
  /\ Z.land i 0xf003 = Z.lor (Z.land i 0xe003) (Z.shiftl (c_b12 i) 12)
  /\ Z.land i 0xfc63 = Z.lor (Z.land i 0xec03) (Z.lor (Z.shiftl (c_b12 i) 12) (Z.shiftl (c_f2_low i) 5))
  /\ Z.land i 0xfc43 = Z.land (Z.land i 0xfc63) 0xfc43
  /\ Z.land i 0xef83 = Z.lor (Z.land i 0xe003) (Z.shiftl (c_rd i) 7)
  /\ Z.land i 0xf07f = Z.lor (Z.land i 0xf003) (Z.shiftl (c_rs2 i) 2)
  /\ Z.land i 0xff83 = Z.lor (Z.land i 0xf003) (Z.shiftl (c_rd i) 7)
  /\ Z.land i 0xffff = Z.lor (Z.land i 0xff83) (Z.shiftl (c_rs2 i) 2).
Proof. repeat split; c_solve. Qed.

Lemma c_rd_zero i : (Z.land i 0xf80 =? 0) = (c_rd i =? 0).
Proof.
  assert (H1 : Z.land i 0xf80 = Z.shiftl (c_rd i) 7) by c_solve.
  assert (H2 : c_rd i = Z.shiftr (Z.land i 0xf80) 7) by c_solve.
  apply Bool.eq_iff_eq_true. rewrite !Z.eqb_eq. split; intros H; [by rewrite H2, H|by rewrite H1, H].
Qed.
Lemma c_rs2_zero i : (Z.land i 0x7c =? 0) = (c_rs2 i =? 0).
Proof.
  assert (H1 : Z.land i 0x7c = Z.shiftl (c_rs2 i) 2) by c_solve.
  assert (H2 : c_rs2 i = Z.shiftr (Z.land i 0x7c) 2) by c_solve.
  apply Bool.eq_iff_eq_true. rewrite !Z.eqb_eq. split; intros H; [by rewrite H2, H|by rewrite H1, H].
Qed.
Lemma c_rd_sp i : Z.land i 0xe003 = 0x6001 -> (Z.land i 0xef83 =? 0x6101) = (c_rd i =? 2).
Proof.
  intros H0. destruct (c_fixed_bits i) as (_ & _ & _ & _ & _ & H1 & _).
  assert (H2 : c_rd i = Z.shiftr (Z.land (Z.land i 0xef83) 0xf80) 7) by c_solve.
  apply Bool.eq_iff_eq_true. rewrite !Z.eqb_eq. split; intros H; [by rewrite H2, H|by rewrite H1, H0, H].
Qed.

(** Splits on the value of a field with a known range. *)
Ltac field_cases x :=
  let E := fresh "E" in
  first
    [ assert (E : x = 0 \/ x = 1) by lia; destruct E as [E|E]
    | assert (E : x = 0 \/ x = 1 \/ x = 2) by lia; destruct E as [E|[E|E]]
    | assert (E : x = 0 \/ x = 1 \/ x = 2 \/ x = 3) by lia; destruct E as [E|[E|[E|E]]]
    | assert (E : x = 0 \/ x = 1 \/ x = 2 \/ x = 3 \/ x = 4 \/ x = 5 \/ x = 6 \/ x = 7) by lia;
      destruct E as [E|[E|[E|[E|[E|[E|[E|E]]]]]]] ];
  rewrite E; cbv iota.

Lemma decode_quadrant_0_bits i op : quadrant i = 0 -> decode_quadrant_0 i = op -> c_rv64 op = true /\ c_word op i = true.
Proof.
  intros Hq. destruct (c_fields_range i) as (_ & Ho & _). destruct (c_fixed_bits i) as (H1 & _).
  unfold decode_quadrant_0, c_format. rewrite Hq in H1. field_cases (c_opcode i); rewrite E in H1; cbn in H1.
  all: try (intros <-; split; [reflexivity|]; unfold c_word; rewrite H1; reflexivity).
  destruct (Z.land i 65535 =? 0) eqn:Ef; intros <-; (split; [reflexivity|]); unfold c_word; by rewrite ?H1, Ef.
Qed.

Lemma decode_quadrant_1_bits i op : quadrant i = 1 -> decode_quadrant_1 i = op -> c_rv64 op = true /\ c_word op i = true.
Proof.
  intros Hq. destruct (c_fields_range i) as (_ & Ho & Hh & Hl & Hb).
  destruct (c_fixed_bits i) as (H1 & H2 & _ & H4 & H5 & _).
  unfold decode_quadrant_1, c_format. rewrite Hq in H1. field_cases (c_opcode i); rewrite E in H1; cbn in H1.
  all: try (intros <-; split; [reflexivity|]; unfold c_word; rewrite H1; reflexivity).
  - destruct (Z.land i 65535 =? 1) eqn:Ef; intros <-; (split; [reflexivity|]); unfold c_word; by rewrite ?H1, Ef.
  - rewrite <- c_rd_sp by done.
    destruct (Z.land i 61315 =? 24833) eqn:Ef; intros <-; (split; [reflexivity|]); unfold c_word; by rewrite ?H1, Ef.
  - rewrite H1 in H2. field_cases (c_f2_high i); rewrite E0 in H2; cbn in H2.
    all: try (intros <-; split; [reflexivity|]; unfold c_word; rewrite H2; reflexivity).
    rewrite H2 in H4. field_cases (c_b12 i); rewrite E1 in H4; field_cases (c_f2_low i); rewrite E2 in H4; cbn in H4.
    all: intros <-; split; [reflexivity|]; unfold c_word; by rewrite ?H5, H4, ?orb_true_r.
Qed.

Lemma decode_quadrant_2_bits i op : quadrant i = 2 -> c_add_hint i = false -> decode_quadrant_2 i = op ->
  c_rv64 op = true /\ c_word op i = true.
Proof.
  intros Hq Hhint. destruct (c_fields_range i) as (_ & Ho & _ & _ & Hb).
  destruct (c_fixed_bits i) as (H1 & _ & H3 & _ & _ & _ & H7 & H8 & H9).
  unfold c_add_hint in Hhint. rewrite c_rs2_zero in Hhint.
  unfold decode_quadrant_2. rewrite Hq in H1. field_cases (c_opcode i); rewrite E in H1; cbn in H1.
  all: try (intros <-; split; [reflexivity|]; unfold c_word; rewrite H1; reflexivity).
  rewrite H1 in H3. field_cases (c_b12 i); rewrite E0 in H3; cbn in H3.
  all: rewrite H3 in H7, H8; destruct (c_rd i =? 0) eqn:Er; destruct (c_rs2 i =? 0) eqn:Es; intros <-; cbn [negb].
  all: split; [reflexivity|]; unfold c_word; rewrite ?c_rd_zero, ?c_rs2_zero, ?Er, ?Es, ?H3, ?H7; cbn [negb andb] in *.
  all: bprop; rewrite ?H9, ?H8, ?Er, ?Es in *; try reflexivity; discriminate.
Qed.

(** The hints take the branch of C.EBREAK. *)
Lemma decode_16_hint i : c_add_hint i = true -> decode_16 i = Some C_EBREAK.
Proof.
  unfold c_add_hint. intros H. bprop.
  assert (H1 : quadrant i = Z.land (Z.land i 0xff83) 3) by c_solve.
  assert (H2 : c_opcode i = Z.shiftr (Z.land (Z.land i 0xff83) 0xe000) 13) by c_solve.
  assert (H3 : c_b12 i = Z.shiftr (Z.land (Z.land i 0xff83) 0x1000) 12) by c_solve.
  assert (H4 : c_rd i = Z.shiftr (Z.land (Z.land i 0xff83) 0xf80) 7) by c_solve.
  match goal with E : Z.land i _ = 0x9002 |- _ => rewrite E in * end.
  unfold decode_16, decode_quadrant_2. by rewrite H1, H2, H3, H4.
Qed.

Lemma decode_16_bits i op : is_compressed i = true -> c_add_hint i = false -> decode_16 i = Some op ->
  c_rv64 op = true /\ c_word op i = true.
Proof.
  intros Hc Hhint. destruct (c_fields_range i) as (Hq & _). unfold is_compressed in Hc. bprop. unfold decode_16.
  assert (E : quadrant i = 0 \/ quadrant i = 1 \/ quadrant i = 2) by lia.
  destruct E as [E|[E|E]]; rewrite E; intros [= Hop].
  - by apply decode_quadrant_0_bits.
  - by apply decode_quadrant_1_bits.
  - by apply decode_quadrant_2_bits.
Qed.

(** Every instruction decodes: the exception of [decode_16] is never thrown. *)
Lemma decode_total i : is_Some (decode i).
Proof.
  unfold decode. destruct (is_compressed i) eqn:Hc; [|by eexists]. unfold is_compressed in Hc. bprop.
  destruct (c_fields_range i) as (Hq & _). unfold decode_16.
  assert (E : quadrant i = 0 \/ quadrant i = 1 \/ quadrant i = 2) by lia.
  destruct E as [E|[E|E]]; rewrite E; by eexists.
Qed.

(** C10. What a compressed word decodes to. But for the hints below it decodes to the
    operation the manual's table gives for its bits, and the word [decode] leaves holds
    the registers and the immediate of the table, sign-extended where the table says so;
    a reserved or illegal word decodes to UNDEF. A word of C.ADD with the destination
    x0, which the manual makes a hint, decodes to EBREAK. *)
Theorem compressed_decodes i : is_compressed i = true ->
  exists m i', decode i = Some (m, i') /\
  if c_add_hint i then (m, i') = (EBREAK, InstructionFactory.EBREAK)
  else exists op, c_word op i = true /\ rvc op i = match m with UNDEF => None | _ => Some (m, operands_of m i') end.
Proof.
  intros Hc. destruct (decode_total i) as [[m i'] He]. exists m, i'. split; [done|].
  unfold decode in He. rewrite Hc in He. destruct (c_add_hint i) eqn:Hhint.
  { rewrite decode_16_hint in He by done. by injection He as <- <-. }
  destruct (decode_16 i) as [op|] eqn:Hop; [|done]. injection He as He.
  destruct (decode_16_bits i op Hc Hhint Hop) as [Hrv Hw]. exists op. split; [done|].
  pose proof (expand_16_table op i Hrv) as Ht. by rewrite He in Ht.
Qed.

(** The fixed bits of the word an instruction is expanded to. *)
Ltac word_decodes :=
  lazymatch goal with
  | |- decode_32 ?i = ?m =>
      apply decode_32_iff; [discriminate|];
      let k := eval vm_compute in (encoding_of m).1 in
      let e := eval vm_compute in (encoding_of m).2 in
      change (Z.land (data i) k = e); field_solve
  end.

(** The word left by [decode] is the 32-bit instruction of the same operation, except
    for C.ADDIW, whose word is that of ADDI. *)
Theorem expanded_word_decodes i op : decode_16 i = Some op ->
  let '(m, i') := expand_16 i op in
  m <> UNDEF -> decode_32 i' = match op with C_ADDIW => ADDI | _ => m end.
Proof.
  intros _. destruct op; unfold expand_16; cbv zeta.
  all: try match goal with |- context [?x =? 0] => destruct (x =? 0) end; intros Hm; try congruence.
  all: word_decodes.
Qed.

(** C.ADD x0, x1 is a hint by the manual and a breakpoint here. *)
Example c_add_hint_breaks : c_add_hint 0x9006 = true /\ decode 0x9006 = Some (EBREAK, InstructionFactory.EBREAK).
Proof. split; reflexivity. Qed.

Lemma compressed_decodes_witness :
  (exists op, c_word op 0x4108 = true /\ rvc op 0x4108 = Some (LW, O_I 10 10 0)) /\
  decode 0x9006 = Some (EBREAK, InstructionFactory.EBREAK).
Proof.
  split.
  - destruct (compressed_decodes 0x4108 eq_refl) as (m & i' & E & op & H1 & H2). exists op. split; [exact H1|].
    injection E as <- <-. exact H2.
  - destruct (compressed_decodes 0x9006 eq_refl) as (m & i' & -> & [= -> ->]). reflexivity.
Defined.
