(* ===== verification/Rv64Csr.v ===== *)
(** * Control and status registers of the command processor
      (lv/src/lv/bindings/cp/rv64/csr.h)

    A register is a 64-bit number; the fields of the unions are bit ranges of it,
    lowest bit first. [csr_table] maps the members of the struct to their values, and
    [register_mapping] is the map from CSR numbers to the members, so that two numbers
    mapped to one member are two names of one value. The array [pmpcfg] has two
    elements and the constructor maps four: [R_pmpcfg 2] and [R_pmpcfg 3] are the
    addresses past its end, and an access through them is undefined ([None]). *)

From S2P Require Import Prelude BitSolve Rv64Instr.

(** ** Bit fields *)

(** Bits [lo + width - 1 : lo] of a register, read and assigned. *)
Definition get_field (lo width reg : Z) : Z := Z.land (Z.shiftr reg lo) (Z.ones width).
Definition set_field (lo width v reg : Z) : Z :=
  Z.lor (Z.ldiff reg (Z.shiftl (Z.ones width) lo)) (Z.shiftl (Z.land v (Z.ones width)) lo).

(** [x.reg = (x.reg & ~mask) | (val & mask)] *)
Definition masked_write (mask v reg : Z) : Z := Z.lor (Z.ldiff reg mask) (Z.land v mask).

Record bitfield := Bits { bf_lo : Z; bf_width : Z }.
Definition fget (f : bitfield) (reg : Z) : Z := get_field (bf_lo f) (bf_width f) reg.
Definition fset (f : bitfield) (v reg : Z) : Z := set_field (bf_lo f) (bf_width f) v reg.

Module csr_misa.
Definition extensions := Bits 0 26.
Definition mxl := Bits 62 2.
Definition A := 1.
Definition C := Z.shiftl 1 2.
Definition D := Z.shiftl 1 3.
Definition E := Z.shiftl 1 4.
Definition F := Z.shiftl 1 5.
Definition I := Z.shiftl 1 8.
Definition M := Z.shiftl 1 12.
Definition N := Z.shiftl 1 13.
Definition S := Z.shiftl 1 18.
Definition U := Z.shiftl 1 20.
Definition has_C_extension (reg : Z) : bool := negb (Z.land (fget extensions reg) C =? 0).
Definition has_user_mode_extension (reg : Z) : bool := negb (Z.land (fget extensions reg) U =? 0).
Definition has_supervisor_mode_extension (reg : Z) : bool := negb (Z.land (fget extensions reg) S =? 0).
Definition init (reg : Z) : Z :=
  fset mxl 2 (fset extensions (foldr Z.lor 0 [I; M; A; F; D; C; N; U; S]) reg).
End csr_misa.

Module csr_mstatus.
Definition uie := Bits 0 1.
Definition sie := Bits 1 1.
Definition mie := Bits 3 1.
Definition upie := Bits 4 1.
Definition spie := Bits 5 1.
Definition mpie := Bits 7 1.
Definition spp := Bits 8 1.
Definition mpp := Bits 11 2.
Definition fs := Bits 13 2.
Definition xs := Bits 15 2.
Definition mprv := Bits 17 1.
Definition sum := Bits 18 1.
Definition mxr := Bits 19 1.
Definition tvm := Bits 20 1.
Definition tw := Bits 21 1.
Definition tsr := Bits 22 1.
Definition uxl := Bits 32 2.
Definition sxl := Bits 34 2.
Definition sd := Bits 63 1.
Definition init (reg : Z) : Z := fset uxl 2 (fset sxl 2 reg).
End csr_mstatus.

Module csr_mtvec.
Definition mode := Bits 0 2.
Definition base := Bits 2 62.
Definition Direct := 0.
Definition Vectored := 1.
Definition get_base_address (reg : Z) : Z := u64 (Z.shiftl (fget base reg) 2).
End csr_mtvec.

Module csr_mip.
Definition usip := Bits 0 1.
Definition ssip := Bits 1 1.
Definition msip := Bits 3 1.
Definition utip := Bits 4 1.
Definition stip := Bits 5 1.
Definition mtip := Bits 7 1.
Definition ueip := Bits 8 1.
Definition seip := Bits 9 1.
Definition meip := Bits 11 1.
End csr_mip.

Module csr_mcause.
Definition exception_code := Bits 0 63.
Definition interrupt := Bits 63 1.
End csr_mcause.

Module csr_mcountinhibit.
Definition CY := Bits 0 1.
Definition IR := Bits 2 1.
End csr_mcountinhibit.

Module csr_satp.
Definition ppn := Bits 0 44.
Definition asid := Bits 44 16.
Definition mode := Bits 60 4.
End csr_satp.

Module csr_fcsr.
Definition fflags := Bits 0 5.
Definition frm := Bits 5 3.
End csr_fcsr.

(** [csr.reg & (1 << bitpos)], with [1 << bitpos] an [int] *)
Definition is_bitset (reg bitpos : Z) : bool := negb (Z.land reg (u64 (s32 (Z.shiftl 1 bitpos))) =? 0).

(** ** Masks *)

Definition MIE_MASK := 0xbbb.
Definition SIE_MASK := 0x333.
Definition UIE_MASK := 0x111.
Definition MIP_WRITE_MASK := 0x333.
Definition MIP_READ_MASK := MIE_MASK.
Definition SIP_MASK := 0x3.
Definition UIP_MASK := 0x1.
Definition MEDELEG_MASK := 0xbbff.
Definition MIDELEG_MASK := MIE_MASK.
Definition MTVEC_MASK := u64 (Z.lnot 2).
Definition MCOUNTEREN_MASK := 0x7.
Definition MCOUNTINHIBIT_MASK := 0x5.
Definition SEDELEG_MASK := 0xb1ff.
Definition SIDELEG_MASK := MIDELEG_MASK.
Definition MSTATUS_WRITE_MASK := 0x80000000007ff9bb.
Definition MSTATUS_READ_MASK := 0x8000000f007ff9bb.
Definition SSTATUS_WRITE_MASK := 0x80000000000de133.
Definition SSTATUS_READ_MASK := 0x80000003000de133.
Definition USTATUS_MASK := 0x11.
Definition SATP_MASK := 0xf0000fffffffffff.
Definition FCSR_MASK := 0xff.

(** ** CSR numbers *)

Definition CYCLE_ADDR := 0xc00.
Definition TIME_ADDR := 0xc01.
Definition INSTRET_ADDR := 0xc02.
Definition MCYCLE_ADDR := 0xb00.
Definition MTIME_ADDR := 0xb01.
Definition MINSTRET_ADDR := 0xb02.
Definition MVENDORID_ADDR := 0xf11.
Definition MARCHID_ADDR := 0xf12.
Definition MIMPID_ADDR := 0xf13.
Definition MHARTID_ADDR := 0xf14.
Definition MSTATUS_ADDR := 0x300.
Definition MISA_ADDR := 0x301.
Definition MEDELEG_ADDR := 0x302.
Definition MIDELEG_ADDR := 0x303.
Definition MIE_ADDR := 0x304.
Definition MTVEC_ADDR := 0x305.
Definition MCOUNTEREN_ADDR := 0x306.
Definition MCOUNTINHIBIT_ADDR := 0x320.
Definition MSCRATCH_ADDR := 0x340.
Definition MEPC_ADDR := 0x341.
Definition MCAUSE_ADDR := 0x342.
Definition MTVAL_ADDR := 0x343.
Definition MIP_ADDR := 0x344.
Definition PMPCFG0_ADDR := 0x3a0.
Definition PMPADDR0_ADDR := 0x3b0.
Definition SSTATUS_ADDR := 0x100.
Definition SEDELEG_ADDR := 0x102.
Definition SIDELEG_ADDR := 0x103.
Definition SIE_ADDR := 0x104.
Definition STVEC_ADDR := 0x105.
Definition SCOUNTEREN_ADDR := 0x106.
Definition SSCRATCH_ADDR := 0x140.
Definition SEPC_ADDR := 0x141.
Definition SCAUSE_ADDR := 0x142.
Definition STVAL_ADDR := 0x143.
Definition SIP_ADDR := 0x144.
Definition SATP_ADDR := 0x180.
Definition USTATUS_ADDR := 0x000.
Definition UIE_ADDR := 0x004.
Definition UTVEC_ADDR := 0x005.
Definition USCRATCH_ADDR := 0x040.
Definition UEPC_ADDR := 0x041.
Definition UCAUSE_ADDR := 0x042.
Definition UTVAL_ADDR := 0x043.
Definition UIP_ADDR := 0x044.
Definition FFLAGS_ADDR := 0x001.
Definition FRM_ADDR := 0x002.
Definition FCSR_ADDR := 0x003.
(** [HPMCOUNTER3_ADDR] to [HPMCOUNTER31_ADDR] *)
Definition HPMCOUNTER_ADDRS := seqZ 0xc03 29.
(** [MHPMCOUNTER3_ADDR] to [MHPMCOUNTER31_ADDR] *)
Definition MHPMCOUNTER_ADDRS := seqZ 0xb03 29.
(** [MHPMEVENT3_ADDR] to [MHPMEVENT31_ADDR] *)
Definition MHPMEVENT_ADDRS := seqZ 0x323 29.
(** [SWITCH_CASE_MATCH_ANY_HPMCOUNTER_RV64] *)
Definition match_any_hpmcounter (addr : Z) : bool :=
  existsb (Z.eqb addr) (HPMCOUNTER_ADDRS ++ MHPMCOUNTER_ADDRS ++ MHPMEVENT_ADDRS).

(** ** The registers *)

Inductive csr_reg :=
  | R_cycle | R_time | R_instret | R_mvendorid | R_marchid | R_mimpid | R_mhartid | R_mstatus
  | R_misa | R_medeleg | R_mideleg | R_mie | R_mtvec | R_mcounteren | R_mcountinhibit
  | R_mscratch | R_mepc | R_mcause | R_mtval | R_mip | R_sedeleg | R_sideleg | R_stvec
  | R_scounteren | R_sscratch | R_sepc | R_scause | R_stval | R_satp | R_utvec | R_uscratch
  | R_uepc | R_ucause | R_utval | R_fcsr
  | R_pmpaddr (i : Z) | R_pmpcfg (i : Z).

#[global] Instance csr_reg_eq_dec : EqDecision csr_reg.
Proof. solve_decision. Defined.

Abbreviation csr_table := (csr_reg -> Z).
Definition upd (r : csr_reg) (v : Z) (t : csr_table) : csr_table := fun r' => if decide (r' = r) then v else t r'.

(** The constructors of the members. *)
Definition csr_table_init : csr_table := fun r =>
  match r with R_misa => csr_misa.init 0 | R_mstatus => csr_mstatus.init 0 | _ => 0 end.

Definition named_registers : list (Z * csr_reg) :=
  [(CYCLE_ADDR, R_cycle); (TIME_ADDR, R_time); (INSTRET_ADDR, R_instret); (MCYCLE_ADDR, R_cycle);
   (MTIME_ADDR, R_time); (MINSTRET_ADDR, R_instret); (MVENDORID_ADDR, R_mvendorid);
   (MARCHID_ADDR, R_marchid); (MIMPID_ADDR, R_mimpid); (MHARTID_ADDR, R_mhartid);
   (MSTATUS_ADDR, R_mstatus); (MISA_ADDR, R_misa); (MEDELEG_ADDR, R_medeleg);
   (MIDELEG_ADDR, R_mideleg); (MIE_ADDR, R_mie); (MTVEC_ADDR, R_mtvec);
   (MCOUNTEREN_ADDR, R_mcounteren); (MCOUNTINHIBIT_ADDR, R_mcountinhibit);
   (MSCRATCH_ADDR, R_mscratch); (MEPC_ADDR, R_mepc); (MCAUSE_ADDR, R_mcause); (MTVAL_ADDR, R_mtval);
   (MIP_ADDR, R_mip); (SEDELEG_ADDR, R_sedeleg); (SIDELEG_ADDR, R_sideleg); (STVEC_ADDR, R_stvec);
   (SCOUNTEREN_ADDR, R_scounteren); (SSCRATCH_ADDR, R_sscratch); (SEPC_ADDR, R_sepc);
   (SCAUSE_ADDR, R_scause); (STVAL_ADDR, R_stval); (SATP_ADDR, R_satp); (UTVEC_ADDR, R_utvec);
   (USCRATCH_ADDR, R_uscratch); (UEPC_ADDR, R_uepc); (UCAUSE_ADDR, R_ucause); (UTVAL_ADDR, R_utval);
   (FCSR_ADDR, R_fcsr)].
(** [register_mapping] as the constructor builds it. *)
Definition register_mapping (addr : Z) : option csr_reg :=
  if (PMPADDR0_ADDR <=? addr) && (addr <? PMPADDR0_ADDR + 16) then Some (R_pmpaddr (addr - PMPADDR0_ADDR))
  else if (PMPCFG0_ADDR <=? addr) && (addr <? PMPCFG0_ADDR + 4) then Some (R_pmpcfg (addr - PMPCFG0_ADDR))
  else snd <$> List.find (fun p => p.1 =? addr) named_registers.

(** The pointer points to a member. *)
Definition in_table (r : csr_reg) : bool :=
  match r with R_pmpaddr i => (0 <=? i) && (i <? 16) | R_pmpcfg i => (0 <=? i) && (i <? 2) | _ => true end.

Definition is_valid_csr64_addr (addr : Z) : bool := bool_decide (is_Some (register_mapping addr)).
Definition default_write64 (addr v : Z) (t : csr_table) : option csr_table :=
  r ← register_mapping addr; if in_table r then Some (upd r v t) else None.
Definition default_read64 (addr : Z) (t : csr_table) : option Z :=
  r ← register_mapping addr; if in_table r then Some (t r) else None.
