(* ===== verification/Rv64Core.v ===== *)
(** * The core of the command processor
      (lv/src/lv/bindings/cp/rv64/rv64.cc, rv64.h, Regfile.cc, trap.h, mem_if.h and the
      memory interface of cp/command_processor.cc)

    Registers are [int64_t] values; signed arithmetic wraps around, as the compilers
    the simulator is built with compile it. A thrown [SimulationTrap] is the outcome
    [Trap], with the state it leaves; a thrown [std::runtime_error], a failed assertion
    and an undefined operation are [Fail]. The memory behind the bus is a parameter. *)

From S2P Require Import Prelude BitSolve Rv64Const Rv64Instr Rv64Csr.
Import Opcode.

(** ** Constants (riscv.h, trap.h) *)

Definition MachineMode := 3.
Definition HypervisorMode := 2.
Definition SupervisorMode := 1.
Definition UserMode := 0.
Definition NoneMode := 0xffffffff.

Inductive CoreExecStatus := Runnable | HitBreakpoint | Terminated.

Definition SATP_MODE_BARE := 0.
Definition SATP_MODE_SV39 := 8.
Definition SATP_MODE_SV48 := 9.

Definition EXC_U_SOFTWARE_INTERRUPT := 0.
Definition EXC_S_SOFTWARE_INTERRUPT := 1.
Definition EXC_M_SOFTWARE_INTERRUPT := 3.
Definition EXC_U_TIMER_INTERRUPT := 4.
Definition EXC_S_TIMER_INTERRUPT := 5.
Definition EXC_M_TIMER_INTERRUPT := 7.
Definition EXC_U_EXTERNAL_INTERRUPT := 8.
Definition EXC_S_EXTERNAL_INTERRUPT := 9.
Definition EXC_M_EXTERNAL_INTERRUPT := 11.

Definition EXC_INSTR_ADDR_MISALIGNED := 0.
Definition EXC_ILLEGAL_INSTR := 2.
Definition EXC_LOAD_ADDR_MISALIGNED := 4.
Definition EXC_STORE_AMO_ADDR_MISALIGNED := 6.
Definition EXC_ECALL_U_MODE := 8.
Definition EXC_ECALL_S_MODE := 9.
Definition EXC_ECALL_M_MODE := 11.

(** What ends the simulation. *)
Inductive failure := UnknownOpcode | UnknownPrivilege | NoInterruptPending | BadRegisterPointer | BadShift | AssertionFailed.

(** ** The bus

    The target the memory port is bound to: reads deliver bytes and may change the
    state of a device. *)
Class Bus (Mem : Type) := {
  bus_read : Z -> nat -> Mem -> list Z * Mem;
  bus_write : Z -> list Z -> Mem -> Mem
}.

Section Core.
Context {Mem : Type} `{Bus Mem}.

Record Core := mkCore {
  co_regs : list Z;
  co_csr : csr_table;
  co_mem : Mem;
  co_debug_mode : bool;
  co_shall_exit : bool;
  co_pc : Z;
  co_last_pc : Z;
  co_prv : Z;
  co_instr : Instruction;
  co_op : Mapping;
  co_status : CoreExecStatus;
  co_breakpoints : list Z;
  co_single_step : bool
}.

Definition with_regs (v : list Z) (c : Core) : Core :=
  mkCore v (co_csr c) (co_mem c) (co_debug_mode c) (co_shall_exit c) (co_pc c) (co_last_pc c) (co_prv
    c) (co_instr c) (co_op c) (co_status c) (co_breakpoints c) (co_single_step c).
Definition with_csr (v : csr_table) (c : Core) : Core :=
  mkCore (co_regs c) v (co_mem c) (co_debug_mode c) (co_shall_exit c) (co_pc c) (co_last_pc c) (co_prv
    c) (co_instr c) (co_op c) (co_status c) (co_breakpoints c) (co_single_step c).
Definition with_mem (v : Mem) (c : Core) : Core :=
  mkCore (co_regs c) (co_csr c) v (co_debug_mode c) (co_shall_exit c) (co_pc c) (co_last_pc c) (co_prv
    c) (co_instr c) (co_op c) (co_status c) (co_breakpoints c) (co_single_step c).
Definition with_debug_mode (v : bool) (c : Core) : Core :=
  mkCore (co_regs c) (co_csr c) (co_mem c) v (co_shall_exit c) (co_pc c) (co_last_pc c) (co_prv c)
    (co_instr c) (co_op c) (co_status c) (co_breakpoints c) (co_single_step c).
Definition with_pc (v : Z) (c : Core) : Core :=
  mkCore (co_regs c) (co_csr c) (co_mem c) (co_debug_mode c) (co_shall_exit c) v (co_last_pc c)
    (co_prv c) (co_instr c) (co_op c) (co_status c) (co_breakpoints c) (co_single_step c).
Definition with_last_pc (v : Z) (c : Core) : Core :=
  mkCore (co_regs c) (co_csr c) (co_mem c) (co_debug_mode c) (co_shall_exit c) (co_pc c) v (co_prv c)
    (co_instr c) (co_op c) (co_status c) (co_breakpoints c) (co_single_step c).
Definition with_prv (v : Z) (c : Core) : Core :=
  mkCore (co_regs c) (co_csr c) (co_mem c) (co_debug_mode c) (co_shall_exit c) (co_pc c) (co_last_pc
    c) v (co_instr c) (co_op c) (co_status c) (co_breakpoints c) (co_single_step c).
Definition with_instr (v : Instruction) (c : Core) : Core :=
  mkCore (co_regs c) (co_csr c) (co_mem c) (co_debug_mode c) (co_shall_exit c) (co_pc c) (co_last_pc
    c) (co_prv c) v (co_op c) (co_status c) (co_breakpoints c) (co_single_step c).
Definition with_op (v : Mapping) (c : Core) : Core :=
  mkCore (co_regs c) (co_csr c) (co_mem c) (co_debug_mode c) (co_shall_exit c) (co_pc c) (co_last_pc
    c) (co_prv c) (co_instr c) v (co_status c) (co_breakpoints c) (co_single_step c).
Definition with_status (v : CoreExecStatus) (c : Core) : Core :=
  mkCore (co_regs c) (co_csr c) (co_mem c) (co_debug_mode c) (co_shall_exit c) (co_pc c) (co_last_pc
    c) (co_prv c) (co_instr c) (co_op c) v (co_breakpoints c) (co_single_step c).
Definition with_breakpoints (v : list Z) (c : Core) : Core :=
  mkCore (co_regs c) (co_csr c) (co_mem c) (co_debug_mode c) (co_shall_exit c) (co_pc c) (co_last_pc
    c) (co_prv c) (co_instr c) (co_op c) (co_status c) v (co_single_step c).
Definition with_single_step (v : bool) (c : Core) : Core :=
  mkCore (co_regs c) (co_csr c) (co_mem c) (co_debug_mode c) (co_shall_exit c) (co_pc c) (co_last_pc
    c) (co_prv c) (co_instr c) (co_op c) (co_status c) (co_breakpoints c) v.

(** ** Operations with traps and failures *)

Inductive outcome (A : Type) :=
  | Ret (a : A) (c : Core)
  | Trap (reason mtval : Z) (c : Core)
  | Fail (f : failure).
#[global] Arguments Ret {A} a c.
#[global] Arguments Trap {A} reason mtval c.
#[global] Arguments Fail {A} f.

Definition act (A : Type) : Type := Core -> outcome A.
Definition ret {A} (a : A) : act A := fun c => Ret a c.
Definition bind {A B} (m : act A) (k : A -> act B) : act B := fun c =>
  match m c with Ret a c => k a c | Trap r v c => Trap r v c | Fail f => Fail f end.
Local Notation "x <- m ; k" := (bind m (fun x => k)) (at level 20, m at level 100, k at level 200, right associativity).
Local Notation "m ;; k" := (bind m (fun _ => k)) (at level 100, k at level 200, right associativity).

Definition gets {A} (f : Core -> A) : act A := fun c => Ret (f c) c.
Definition modify (f : Core -> Core) : act unit := fun c => Ret tt (f c).
Definition raise_trap {A} (reason mtval : Z) : act A := fun c => Trap reason mtval c.
Definition fail {A} (f : failure) : act A := fun _ => Fail f.
Definition assert (b : bool) : act unit := if b then ret tt else fail AssertionFailed.
Definition RAISE_ILLEGAL_INSTRUCTION {A} : act A := i <- gets co_instr; raise_trap EXC_ILLEGAL_INSTR (data i).

(** ** Registers (Regfile.cc) *)

(** The index is a five-bit field, so the assertions hold. *)
Definition regfile_read (index : Z) (c : Core) : Z := nth (Z.to_nat index) (co_regs c) 0.
Definition regfile_write (index value : Z) (c : Core) : Core :=
  with_regs (<[Z.to_nat index := s64 value]> (co_regs c)) c.
Definition reg (index : Z) : act Z := gets (regfile_read index).
Definition setreg (index value : Z) : act unit := modify (regfile_write index value).
Definition regfile_shamt (v : Z) : Z := BIT_RANGE v 5 0.
Definition regfile_shamt_w (v : Z) : Z := BIT_RANGE v 5 0.

(** A register of the table. *)
Definition csr_get (r : csr_reg) : act Z := gets (fun c => co_csr c r).
Definition csr_set (r : csr_reg) (v : Z) : act unit := modify (fun c => with_csr (upd r v (co_csr c)) c).
Definition csr_fget (r : csr_reg) (f : bitfield) : act Z := gets (fun c => fget f (co_csr c r)).
Definition csr_fset (r : csr_reg) (f : bitfield) (v : Z) : act unit :=
  modify (fun c => with_csr (upd r (fset f v (co_csr c r)) (co_csr c)) c).
Definition or_bad_pointer {A} (o : option A) : act A := match o with Some a => ret a | None => fail BadRegisterPointer end.

(** ** Memory (command_processor.cc)

    [load_] ignores the response status of the bus, so no access raises a trap. *)
Definition load_ (len : nat) (addr : Z) : act Z := fun c =>
  let '(bytes, m) := bus_read addr len (co_mem c) in Ret (le_val bytes) (with_mem m c).
Definition store_ (len : nat) (addr value : Z) : act unit :=
  modify (fun c => with_mem (bus_write addr (le_bytes len value) (co_mem c)) c).
Definition load_instr (pc : Z) : act Z := v <- load_ 4 pc; ret (u32 v).
Definition load_double (addr : Z) : act Z := v <- load_ 8 addr; ret (s64 v).
Definition load_word (addr : Z) : act Z := v <- load_ 4 addr; ret (s32 v).
Definition load_half (addr : Z) : act Z := v <- load_ 2 addr; ret (swrap 16 v).
Definition load_byte (addr : Z) : act Z := v <- load_ 1 addr; ret (swrap 8 v).
Definition load_uword (addr : Z) : act Z := v <- load_ 4 addr; ret (u32 v).
Definition load_uhalf (addr : Z) : act Z := v <- load_ 2 addr; ret (u16 v).
Definition load_ubyte (addr : Z) : act Z := v <- load_ 1 addr; ret (u8 v).
Definition store_double (addr value : Z) : act unit := store_ 8 addr (u64 value).
Definition store_word (addr value : Z) : act unit := store_ 4 addr (u32 value).
Definition store_half (addr value : Z) : act unit := store_ 2 addr (u16 value).
Definition store_byte (addr value : Z) : act unit := store_ 1 addr (u8 value).

(** ** Checks *)

Definition trap_check_pc_alignment : act unit :=
  pc <- gets co_pc;
  assert (Z.land pc 1 =? 0);;
  misa <- csr_get R_misa;
  if negb (Z.land pc 3 =? 0) && negb (csr_misa.has_C_extension misa)
  then raise_trap EXC_INSTR_ADDR_MISALIGNED pc else ret tt.

Definition trap_check_addr_alignment (alignment : Z) (isLoad : bool) (addr : Z) : act unit :=
  if negb (addr mod alignment =? 0)
  then raise_trap (if isLoad then EXC_LOAD_ADDR_MISALIGNED else EXC_STORE_AMO_ADDR_MISALIGNED) addr else ret tt.

Definition is_invalid_csr_access (prv csr_addr : Z) (is_write : bool) : bool :=
  let csr_prv := Z.shiftr (Z.land 0x300 csr_addr) 8 in
  let csr_readonly := Z.shiftr (Z.land 0xC00 csr_addr) 10 =? 3 in
  (is_write && csr_readonly) || (prv <? csr_prv).

Definition validate_csr_counter_read_access_rights (addr : Z) : act unit :=
  if (0xC00 <=? addr) && (addr <=? 0xC1F) then
    let cnt := Z.land addr 0x1F in
    prv <- gets co_prv;
    m <- csr_get R_mcounteren;
    s <- csr_get R_scounteren;
    (if (prv =? SupervisorMode) && negb (is_bitset m cnt) then RAISE_ILLEGAL_INSTRUCTION else ret tt);;
    if (prv =? UserMode) && (negb (is_bitset m cnt) || negb (is_bitset s cnt)) then RAISE_ILLEGAL_INSTRUCTION else ret tt
  else ret tt.

(** ** CSR access *)

Definition read (r : csr_reg) (mask : Z) : act Z := x <- csr_get r; ret (Z.land x mask).

Definition get_csr_value (addr : Z) : act Z :=
  validate_csr_counter_read_access_rights addr;;
  if (addr =? TIME_ADDR) || (addr =? MTIME_ADDR) then csr_get R_time
  else if addr =? MCYCLE_ADDR then csr_get R_cycle
  else if addr =? MINSTRET_ADDR then csr_get R_instret
  else if match_any_hpmcounter addr then ret 0
  else if addr =? MSTATUS_ADDR then read R_mstatus MSTATUS_READ_MASK
  else if addr =? SSTATUS_ADDR then read R_mstatus SSTATUS_READ_MASK
  else if addr =? USTATUS_ADDR then read R_mstatus USTATUS_MASK
  else if addr =? MIP_ADDR then read R_mip MIP_READ_MASK
  else if addr =? SIP_ADDR then read R_mip SIP_MASK
  else if addr =? UIP_ADDR then read R_mip UIP_MASK
  else if addr =? MIE_ADDR then read R_mie MIE_MASK
  else if addr =? SIE_ADDR then read R_mie SIE_MASK
  else if addr =? UIE_ADDR then read R_mie UIE_MASK
  else if addr =? FCSR_ADDR then read R_fcsr FCSR_MASK
  else if addr =? FFLAGS_ADDR then csr_fget R_fcsr csr_fcsr.fflags
  else if addr =? FRM_ADDR then csr_fget R_fcsr csr_fcsr.frm
  else if addr =? MHARTID_ADDR then ret 0
  else
    (if addr =? SATP_ADDR then
       tvm <- csr_fget R_mstatus csr_mstatus.tvm;
       if negb (tvm =? 0) then RAISE_ILLEGAL_INSTRUCTION else ret tt
     else ret tt);;
    (if negb (is_valid_csr64_addr addr) then RAISE_ILLEGAL_INSTRUCTION else ret tt);;
    t <- gets co_csr;
    or_bad_pointer (default_read64 addr t).

Definition pc_alignment_mask : act Z :=
  misa <- csr_get R_misa;
  ret (if csr_misa.has_C_extension misa then u64 (Z.lnot 0x1) else u64 (Z.lnot 0x3)).

(** The registers whose write only replaces the bits of a mask. *)
Definition write_mask (addr : Z) : option (csr_reg * Z) :=
  snd <$> List.find (fun p => p.1 =? addr)
    [(MTVEC_ADDR, (R_mtvec, MTVEC_MASK)); (STVEC_ADDR, (R_stvec, MTVEC_MASK)); (UTVEC_ADDR, (R_utvec, MTVEC_MASK));
     (MSTATUS_ADDR, (R_mstatus, MSTATUS_WRITE_MASK)); (SSTATUS_ADDR, (R_mstatus, SSTATUS_WRITE_MASK));
     (USTATUS_ADDR, (R_mstatus, USTATUS_MASK));
     (MIP_ADDR, (R_mip, MIP_WRITE_MASK)); (SIP_ADDR, (R_mip, SIP_MASK)); (UIP_ADDR, (R_mip, UIP_MASK));
     (MIE_ADDR, (R_mie, MIE_MASK)); (SIE_ADDR, (R_mie, SIE_MASK)); (UIE_ADDR, (R_mie, UIE_MASK));
     (MIDELEG_ADDR, (R_mideleg, MIDELEG_MASK)); (MEDELEG_ADDR, (R_medeleg, MEDELEG_MASK));
     (SIDELEG_ADDR, (R_sideleg, SIDELEG_MASK)); (SEDELEG_ADDR, (R_sedeleg, SEDELEG_MASK));
     (MCOUNTEREN_ADDR, (R_mcounteren, MCOUNTEREN_MASK)); (SCOUNTEREN_ADDR, (R_scounteren, MCOUNTEREN_MASK));
     (MCOUNTINHIBIT_ADDR, (R_mcountinhibit, MCOUNTINHIBIT_MASK)); (FCSR_ADDR, (R_fcsr, FCSR_MASK))].

Definition write (r : csr_reg) (mask v : Z) : act unit := x <- csr_get r; csr_set r (masked_write mask v x).

Definition set_csr_value (addr v : Z) : act unit :=
  if (addr =? MISA_ADDR) || match_any_hpmcounter addr then ret tt
  else if addr =? SATP_ADDR then
    tvm <- csr_fget R_mstatus csr_mstatus.tvm;
    (if negb (tvm =? 0) then RAISE_ILLEGAL_INSTRUCTION else ret tt);;
    mode <- csr_fget R_satp csr_satp.mode;
    write R_satp SATP_MASK v;;
    mode' <- csr_fget R_satp csr_satp.mode;
    if negb (mode' =? SATP_MODE_BARE) && negb (mode' =? SATP_MODE_SV39) && negb (mode' =? SATP_MODE_SV48)
    then csr_fset R_satp csr_satp.mode mode else ret tt
  else if addr =? MEPC_ADDR then mask <- pc_alignment_mask; write R_mepc mask v
  else if addr =? SEPC_ADDR then mask <- pc_alignment_mask; write R_sepc mask v
  else if addr =? UEPC_ADDR then mask <- pc_alignment_mask; write R_uepc mask v
  else if addr =? FFLAGS_ADDR then csr_fset R_fcsr csr_fcsr.fflags v
  else if addr =? FRM_ADDR then csr_fset R_fcsr csr_fcsr.frm v
  else match write_mask addr with
  | Some (r, mask) => write r mask v
  | None =>
      (if negb (is_valid_csr64_addr addr) then RAISE_ILLEGAL_INSTRUCTION else ret tt);;
      t <- gets co_csr;
      t' <- or_bad_pointer (default_write64 addr v t);
      modify (with_csr t')
  end.

(** ** Trap handlers *)

Definition return_from_trap_handler (return_mode : Z) : act unit :=
  misa <- csr_get R_misa;
  if return_mode =? MachineMode then
    mpp <- csr_fget R_mstatus csr_mstatus.mpp;
    modify (with_prv mpp);;
    mpie <- csr_fget R_mstatus csr_mstatus.mpie;
    csr_fset R_mstatus csr_mstatus.mie mpie;;
    csr_fset R_mstatus csr_mstatus.mpie 1;;
    mepc <- csr_get R_mepc;
    modify (with_pc mepc);;
    csr_fset R_mstatus csr_mstatus.mpp (if csr_misa.has_user_mode_extension misa then UserMode else MachineMode)
  else if return_mode =? SupervisorMode then
    spp <- csr_fget R_mstatus csr_mstatus.spp;
    modify (with_prv spp);;
    spie <- csr_fget R_mstatus csr_mstatus.spie;
    csr_fset R_mstatus csr_mstatus.sie spie;;
    csr_fset R_mstatus csr_mstatus.spie 1;;
    sepc <- csr_get R_sepc;
    modify (with_pc sepc);;
    csr_fset R_mstatus csr_mstatus.spp (if csr_misa.has_user_mode_extension misa then UserMode else SupervisorMode)
  else if return_mode =? UserMode then
    modify (with_prv UserMode);;
    upie <- csr_fget R_mstatus csr_mstatus.upie;
    csr_fset R_mstatus csr_mstatus.uie upie;;
    csr_fset R_mstatus csr_mstatus.upie 1;;
    uepc <- csr_get R_uepc;
    modify (with_pc uepc)
  else fail UnknownPrivilege.

(** The vector: the base address, or the entry of the interrupt. *)
Definition trap_vector (tvec cause : Z) : Z :=
  let base := csr_mtvec.get_base_address tvec in
  if negb (fget csr_mcause.interrupt cause =? 0) && (fget csr_mtvec.mode tvec =? csr_mtvec.Vectored)
  then base +% (4 *% fget csr_mcause.exception_code cause) else base.

Definition switch_to_trap_handler (target_mode : Z) : act unit :=
  pp <- gets co_prv;
  modify (with_prv target_mode);;
  pc <- gets co_pc;
  if target_mode =? MachineMode then
    csr_set R_mepc pc;;
    mie <- csr_fget R_mstatus csr_mstatus.mie;
    csr_fset R_mstatus csr_mstatus.mpie mie;;
    csr_fset R_mstatus csr_mstatus.mie 0;;
    csr_fset R_mstatus csr_mstatus.mpp pp;;
    tvec <- csr_get R_mtvec;
    cause <- csr_get R_mcause;
    modify (with_pc (trap_vector tvec cause))
  else if target_mode =? SupervisorMode then
    assert ((target_mode =? SupervisorMode) || (target_mode =? UserMode));;
    csr_set R_sepc pc;;
    sie <- csr_fget R_mstatus csr_mstatus.sie;
    csr_fset R_mstatus csr_mstatus.spie sie;;
    csr_fset R_mstatus csr_mstatus.sie 0;;
    csr_fset R_mstatus csr_mstatus.spp pp;;
    tvec <- csr_get R_stvec;
    cause <- csr_get R_scause;
    modify (with_pc (trap_vector tvec cause))
  else if target_mode =? UserMode then
    assert (target_mode =? UserMode);;
    csr_set R_uepc pc;;
    uie <- csr_fget R_mstatus csr_mstatus.uie;
    csr_fset R_mstatus csr_mstatus.upie uie;;
    csr_fset R_mstatus csr_mstatus.uie 0;;
    tvec <- csr_get R_utvec;
    cause <- csr_get R_ucause;
    modify (with_pc (trap_vector tvec cause))
  else fail UnknownPrivilege.

(** ** Instructions *)

Definition b2z (b : bool) : Z := if b then 1 else 0.

(** Register-register, register-immediate and upper-immediate instructions. *)
Definition exec_alu (op : Mapping) (i : Instruction) : act unit :=
  a <- reg (rs1 i);
  b <- reg (rs2 i);
  last_pc <- gets co_last_pc;
  match op with
  | ADDI => setreg (rd i) (a + I_imm i)
  | SLTI => setreg (rd i) (b2z (a <? I_imm i))
  | SLTIU => setreg (rd i) (b2z (u64 a <? u64 (I_imm i)))
  | XORI => setreg (rd i) (Z.lxor a (I_imm i))
  | ORI => setreg (rd i) (Z.lor a (I_imm i))
  | ANDI => setreg (rd i) (Z.land a (I_imm i))
  | ADD => setreg (rd i) (a + b)
  | SUB => setreg (rd i) (a - b)
  | SLL => setreg (rd i) (Z.shiftl a (regfile_shamt b))
  | SLT => setreg (rd i) (b2z (a <? b))
  | SLTU => setreg (rd i) (b2z (u64 a <? u64 b))
  | SRL => setreg (rd i) (Z.shiftr (u64 a) (regfile_shamt b))
  | SRA => setreg (rd i) (Z.shiftr a (regfile_shamt b))
  | XOR => setreg (rd i) (Z.lxor a b)
  | OR => setreg (rd i) (Z.lor a b)
  | AND => setreg (rd i) (Z.land a b)
  | SLLI => setreg (rd i) (Z.shiftl a (shamt i))
  | SRLI => setreg (rd i) (Z.shiftr (u64 a) (shamt i))
  | SRAI => setreg (rd i) (Z.shiftr a (shamt i))
  | LUI => setreg (rd i) (U_imm i)
  | AUIPC => setreg (rd i) (last_pc +% U_imm i)
  | _ => fail UnknownOpcode
  end.

(** The 32-bit instructions; a shift count of 32 or more is undefined. *)
Definition exec_alu_w (op : Mapping) (i : Instruction) : act unit :=
  a <- reg (rs1 i);
  b <- reg (rs2 i);
  let checked (n : Z) (m : act unit) := if n <? 32 then m else fail BadShift in
  match op with
  | ADDIW => setreg (rd i) (s32 (s32 a + s32 (I_imm i)))
  | SLLIW => setreg (rd i) (s32 (u32 (Z.shiftl (u32 a) (shamt_w i))))
  | SRLIW => setreg (rd i) (s32 (Z.shiftr (u32 a) (shamt_w i)))
  | SRAIW => setreg (rd i) (s32 (Z.shiftr (s32 a) (shamt_w i)))
  | ADDW => setreg (rd i) (s32 (s32 a + s32 b))
  | SUBW => setreg (rd i) (s32 (s32 a - s32 b))
  | SLLW => checked (regfile_shamt_w b) (setreg (rd i) (s32 (u32 (Z.shiftl (u32 a) (regfile_shamt_w b)))))
  | SRLW => checked (regfile_shamt_w b) (setreg (rd i) (s32 (Z.shiftr (u32 a) (regfile_shamt_w b))))
  | SRAW => checked (regfile_shamt_w b) (setreg (rd i) (s32 (Z.shiftr (s32 a) (regfile_shamt_w b))))
  | _ => fail UnknownOpcode
  end.

Definition exec_jump (op : Mapping) (i : Instruction) : act unit :=
  link <- gets co_pc;
  last_pc <- gets co_last_pc;
  match op with
  | JAL =>
      modify (with_pc (last_pc +% J_imm i));;
      trap_check_pc_alignment;;
      setreg (rd i) link
  | JALR =>
      a <- reg (rs1 i);
      modify (with_pc (u64 (Z.land (a + I_imm i) (Z.lnot 1))));;
      trap_check_pc_alignment;;
      setreg (rd i) link
  | _ => fail UnknownOpcode
  end.

Definition branch_taken (op : Mapping) (a b : Z) : bool :=
  match op with
  | BEQ => a =? b
  | BNE => negb (a =? b)
  | BLT => a <? b
  | BGE => b <=? a
  | BLTU => u64 a <? u64 b
  | BGEU => u64 b <=? u64 a
  | _ => false
  end.
Definition exec_branch (op : Mapping) (i : Instruction) : act unit :=
  a <- reg (rs1 i);
  b <- reg (rs2 i);
  if branch_taken op a b then
    last_pc <- gets co_last_pc;
    modify (with_pc (last_pc +% B_imm i));;
    trap_check_pc_alignment
  else ret tt.

Definition exec_store (op : Mapping) (i : Instruction) : act unit :=
  a <- reg (rs1 i);
  v <- reg (rs2 i);
  let addr := u64 (a + S_imm i) in
  match op with
  | SB => store_byte addr v
  | SH => trap_check_addr_alignment 2 false addr;; store_half addr v
  | SW => trap_check_addr_alignment 4 false addr;; store_word addr v
  | SD => trap_check_addr_alignment 8 false addr;; store_double addr v
  | _ => fail UnknownOpcode
  end.

Definition exec_load (op : Mapping) (i : Instruction) : act unit :=
  a <- reg (rs1 i);
  let addr := u64 (a + I_imm i) in
  let load (alignment : Z) (m : act Z) :=
    (if 1 <? alignment then trap_check_addr_alignment alignment true addr else ret tt);;
    v <- m; setreg (rd i) v in
  match op with
  | LB => load 1 (load_byte addr)
  | LH => load 2 (load_half addr)
  | LW => load 4 (load_word addr)
  | LD => load 8 (load_double addr)
  | LBU => load 1 (load_ubyte addr)
  | LHU => load 2 (load_uhalf addr)
  | LWU => load 4 (load_uword addr)
  | _ => fail UnknownOpcode
  end.

Definition INT64_MIN := - 2 ^ 63.
Definition INT32_MIN := - 2 ^ 31.
Definition exec_muldiv (op : Mapping) (i : Instruction) : act unit :=
  a <- reg (rs1 i);
  b <- reg (rs2 i);
  match op with
  | MUL => setreg (rd i) (a * b)
  | MULH => setreg (rd i) (Z.shiftr (a * b) 64)
  | MULHU => setreg (rd i) (Z.shiftr (swrap 128 (u64 a * u64 b)) 64)
  | MULHSU => setreg (rd i) (Z.shiftr (swrap 128 (wrap 128 a * u64 b)) 64)
  | DIV => setreg (rd i) (if b =? 0 then -1 else if (a =? INT64_MIN) && (b =? -1) then a else Z.quot a b)
  | DIVU => setreg (rd i) (if b =? 0 then -1 else u64 a / u64 b)
  | REM => setreg (rd i) (if b =? 0 then a else if (a =? INT64_MIN) && (b =? -1) then 0 else Z.rem a b)
  | REMU => setreg (rd i) (if b =? 0 then a else u64 a mod u64 b)
  | MULW => setreg (rd i) (s32 (s64 (a * b)))
  | DIVW =>
      let a := s32 a in let b := s32 b in
      setreg (rd i) (if b =? 0 then -1 else if (a =? INT32_MIN) && (b =? -1) then a else Z.quot a b)
  | DIVUW =>
      let a := s32 a in let b := s32 b in
      setreg (rd i) (if b =? 0 then -1 else s32 (u32 a / u32 b))
  | REMW =>
      let a := s32 a in let b := s32 b in
      setreg (rd i) (if b =? 0 then a else if (a =? INT32_MIN) && (b =? -1) then 0 else Z.rem a b)
  | REMUW =>
      let a := s32 a in let b := s32 b in
      setreg (rd i) (if b =? 0 then a else s32 (u32 a mod u32 b))
  | _ => fail UnknownOpcode
  end.

Definition when (b : bool) (m : act unit) : act unit := if b then m else ret tt.

(** The CSR instructions: the operand is a register or the immediate [zimm]. The
    complement of [zimm], a [uint32_t], is extended with zeros. *)
Definition exec_csr (op : Mapping) (i : Instruction) : act unit :=
  let addr := csr i in
  prv <- gets co_prv;
  let guarded (write : bool) (m : act unit) :=
    if is_invalid_csr_access prv addr write then raise_trap EXC_ILLEGAL_INSTR (data i) else m in
  let set_rd (v : Z) := when (negb (rd i =? 0)) (setreg (rd i) v) in
  match op with
  | CSRRW => guarded true (
      rs1_val <- reg (rs1 i);
      when (negb (rd i =? 0)) (v <- get_csr_value addr; setreg (rd i) v);;
      set_csr_value addr (u64 rs1_val))
  | CSRRS =>
      let write := negb (rs1 i =? 0) in
      guarded write (
        rs1_val <- reg (rs1 i);
        csr_val <- get_csr_value addr;
        set_rd csr_val;;
        when write (set_csr_value addr (Z.lor csr_val (u64 rs1_val))))
  | CSRRC =>
      let write := negb (rs1 i =? 0) in
      guarded write (
        rs1_val <- reg (rs1 i);
        csr_val <- get_csr_value addr;
        set_rd csr_val;;
        when write (set_csr_value addr (Z.land csr_val (u64 (Z.lnot rs1_val)))))
  | CSRRWI => guarded true (
      when (negb (rd i =? 0)) (v <- get_csr_value addr; setreg (rd i) v);;
      set_csr_value addr (zimm i))
  | CSRRSI =>
      let write := negb (zimm i =? 0) in
      guarded write (
        csr_val <- get_csr_value addr;
        set_rd csr_val;;
        when write (set_csr_value addr (Z.lor csr_val (zimm i))))
  | CSRRCI =>
      let write := negb (zimm i =? 0) in
      guarded write (
        csr_val <- get_csr_value addr;
        set_rd csr_val;;
        when write (set_csr_value addr (Z.land csr_val (u32 (Z.lnot (zimm i))))))
  | _ => fail UnknownOpcode
  end.

Definition exec_system (op : Mapping) (i : Instruction) : act unit :=
  prv <- gets co_prv;
  last_pc <- gets co_last_pc;
  misa <- csr_get R_misa;
  let illegal : act unit := raise_trap EXC_ILLEGAL_INSTR (data i) in
  match op with
  | FENCE | FENCE_I => ret tt
  | ECALL =>
      if prv =? MachineMode then raise_trap EXC_ECALL_M_MODE last_pc
      else if prv =? SupervisorMode then raise_trap EXC_ECALL_S_MODE last_pc
      else if prv =? UserMode then raise_trap EXC_ECALL_U_MODE last_pc
      else fail UnknownPrivilege
  | EBREAK => modify (with_status HitBreakpoint)
  | WFI =>
      tw <- csr_fget R_mstatus csr_mstatus.tw;
      when ((prv =? SupervisorMode) && negb (tw =? 0)) illegal;;
      when ((prv =? UserMode) && csr_misa.has_supervisor_mode_extension misa) illegal
  | SFENCE_VMA =>
      tvm <- csr_fget R_mstatus csr_mstatus.tvm;
      when ((prv =? SupervisorMode) && negb (tvm =? 0)) illegal
  | URET =>
      when (negb (csr_misa.has_user_mode_extension misa)) illegal;;
      return_from_trap_handler UserMode
  | SRET =>
      tsr <- csr_fget R_mstatus csr_mstatus.tsr;
      when (negb (csr_misa.has_supervisor_mode_extension misa) || (prv =? SupervisorMode) && negb (tsr =? 0)) illegal;;
      return_from_trap_handler SupervisorMode
  | MRET => return_from_trap_handler MachineMode
  | _ => fail UnknownOpcode
  end.

(** The switch over the operation. *)
Definition exec_op (op : Mapping) (i : Instruction) : act unit :=
  match op with
  | UNDEF => raise_trap EXC_ILLEGAL_INSTR (data i)
  | ADDI | SLTI | SLTIU | XORI | ORI | ANDI | ADD | SUB | SLL | SLT | SLTU | SRL | SRA | XOR | OR | AND | SLLI
  | SRLI | SRAI | LUI | AUIPC => exec_alu op i
  | JAL | JALR => exec_jump op i
  | SB | SH | SW | SD => exec_store op i
  | LB | LH | LW | LD | LBU | LHU | LWU => exec_load op i
  | BEQ | BNE | BLT | BGE | BLTU | BGEU => exec_branch op i
  | ADDIW | SLLIW | SRLIW | SRAIW | ADDW | SUBW | SLLW | SRLW | SRAW => exec_alu_w op i
  | CSRRW | CSRRS | CSRRC | CSRRWI | CSRRSI | CSRRCI => exec_csr op i
  | MUL | MULH | MULHU | MULHSU | DIV | DIVU | REM | REMU | MULW | DIVW | DIVUW | REMW | REMUW => exec_muldiv op i
  | FENCE | FENCE_I | ECALL | EBREAK | WFI | SFENCE_VMA | URET | SRET | MRET => exec_system op i
  | _ => fail UnknownOpcode
  end.

Definition exec_step : act unit :=
  pc <- gets co_pc;
  mem_word <- load_instr pc;
  let fetched := mkInstruction mem_word in
  modify (with_pc (if is_compressed fetched then pc +% 2 else pc +% 4));;
  match decode fetched with
  | None => fail UnknownOpcode
  | Some (op, i) =>
      modify (with_instr i);;
      modify (with_op op);;
      exec_op op i
  end.

(** ** Interrupts *)

Record PendingInterrupts := mkPending { target_mode : Z; pending : Z }.

Definition compute_pending_interrupts (c : Core) : PendingInterrupts :=
  let t := co_csr c in
  let prv := co_prv c in
  let enabled (f : bitfield) := negb (fget f (t R_mstatus) =? 0) in
  let p := Z.land (t R_mie) (t R_mip) in
  if p =? 0 then mkPending NoneMode 0 else
  let m_pending := Z.ldiff p (t R_mideleg) in
  if negb (m_pending =? 0) && ((prv <? MachineMode) || (prv =? MachineMode) && enabled csr_mstatus.mie)
  then mkPending MachineMode m_pending else
  let p := Z.land p (t R_mideleg) in
  let s_pending := Z.ldiff p (t R_sideleg) in
  if negb (s_pending =? 0) && ((prv <? SupervisorMode) || (prv =? SupervisorMode) && enabled csr_mstatus.sie)
  then mkPending SupervisorMode s_pending else
  let u_pending := Z.land p (t R_sideleg) in
  if negb (u_pending =? 0) && ((prv =? UserMode) && enabled csr_mstatus.uie)
  then mkPending UserMode u_pending else mkPending NoneMode 0.

(** The interrupts in the order they are taken. *)
Definition interrupt_order : list (bitfield * Z) :=
  [(csr_mip.meip, EXC_M_EXTERNAL_INTERRUPT); (csr_mip.msip, EXC_M_SOFTWARE_INTERRUPT);
   (csr_mip.mtip, EXC_M_TIMER_INTERRUPT); (csr_mip.seip, EXC_S_EXTERNAL_INTERRUPT);
   (csr_mip.ssip, EXC_S_SOFTWARE_INTERRUPT); (csr_mip.stip, EXC_S_TIMER_INTERRUPT);
   (csr_mip.ueip, EXC_U_EXTERNAL_INTERRUPT); (csr_mip.usip, EXC_U_SOFTWARE_INTERRUPT);
   (csr_mip.utip, EXC_U_TIMER_INTERRUPT)].
Definition cause_of (mode : Z) : option csr_reg :=
  if mode =? MachineMode then Some R_mcause else if mode =? SupervisorMode then Some R_scause
  else if mode =? UserMode then Some R_ucause else None.
Definition prepare_interrupt (e : PendingInterrupts) : act unit :=
  match List.find (fun x => negb (fget x.1 (pending e) =? 0)) interrupt_order with
  | None => fail NoInterruptPending
  | Some (_, exc) =>
      match cause_of (target_mode e) with
      | None => fail UnknownPrivilege
      | Some cause =>
          csr_fset cause csr_mcause.exception_code exc;;
          csr_fset cause csr_mcause.interrupt 1
      end
  end.

Definition set_cause (cause tval : csr_reg) (reason mtval : Z) : act unit :=
  csr_fset cause csr_mcause.interrupt 0;;
  csr_fset cause csr_mcause.exception_code reason;;
  csr_set tval mtval.
Definition prepare_trap (reason mtval : Z) : act Z :=
  last_pc <- gets co_last_pc;
  modify (with_pc last_pc);;
  let exc_bit := u32 (Z.shiftl 1 reason) in
  prv <- gets co_prv;
  medeleg <- csr_get R_medeleg;
  sedeleg <- csr_get R_sedeleg;
  let delegated (reg : Z) := negb (Z.land exc_bit reg =? 0) in
  if (prv =? MachineMode) || negb (delegated medeleg) then
    set_cause R_mcause R_mtval reason mtval;; ret MachineMode
  else if (prv =? SupervisorMode) || negb (delegated sedeleg) then
    set_cause R_scause R_stval reason mtval;; ret SupervisorMode
  else
    assert ((prv =? UserMode) && delegated medeleg && delegated sedeleg);;
    set_cause R_ucause R_utval reason mtval;; ret UserMode.

(** ** Steps *)

Definition counter_update : act unit :=
  ir <- csr_fget R_mcountinhibit csr_mcountinhibit.IR;
  when (ir =? 0) (v <- csr_get R_instret; csr_set R_instret (v +% 1)).

Definition take_interrupt : act unit :=
  x <- gets compute_pending_interrupts;
  when (negb (target_mode x =? NoneMode)) (prepare_interrupt x;; switch_to_trap_handler (target_mode x)).

(** [try { m } catch (SimulationTrap &e) { ... }] *)
Definition catch_trap (m : act unit) : act unit := fun c =>
  match m c with
  | Trap reason mtval c => (t <- prepare_trap reason mtval; switch_to_trap_handler t) c
  | o => o
  end.

Definition run_step : act unit :=
  c0 <- gets id;
  assert (regfile_read 0 c0 =? 0);;
  if co_debug_mode c0 && existsb (Z.eqb (co_pc c0)) (co_breakpoints c0) then modify (with_status HitBreakpoint)
  else
    modify (with_last_pc (co_pc c0));;
    catch_trap (exec_step;; take_interrupt);;
    modify (regfile_write 0 0);;
    (exit <- gets co_shall_exit; when exit (modify (with_status Terminated)));;
    counter_update;;
    single <- gets co_single_step;
    when single (modify (with_status HitBreakpoint);; modify (with_single_step false)).

(** [run]: the steps of the loop, at most [fuel] of them; the flag says whether it
    ended. *)
Fixpoint run (fuel : nat) : act bool :=
  match fuel with
  | O => ret false
  | S fuel =>
      run_step;;
      status <- gets co_status;
      match status with Runnable => run fuel | _ => ret true end
  end.

(** ** Interrupt pins and the debugger's interface *)

Definition ext_interrupt (b : bool) : act unit := csr_fset R_mip csr_mip.meip (b2z b).
Definition sw_interrupt (b : bool) : act unit := csr_fset R_mip csr_mip.msip (b2z b).
Definition timer_interrupt (b : bool) : act unit := csr_fset R_mip csr_mip.mtip (b2z b).

Definition set_pc (pc : Z) (c : Core) : Core := with_last_pc pc (with_pc pc c).
Definition enable_debug (c : Core) : Core := with_debug_mode true c.
Definition disable_debug (c : Core) : Core := with_debug_mode false c.
Definition set_single_step (c : Core) : Core := with_single_step true c.
Definition set_status (s : CoreExecStatus) (c : Core) : Core := with_status s c.
Definition insert_breakpoint (pc : Z) (c : Core) : Core := with_breakpoints (pc :: co_breakpoints c) c.
Definition remove_breakpoint (pc : Z) (c : Core) : Core :=
  with_breakpoints (List.filter (fun x => negb (x =? pc)) (co_breakpoints c)) c.
Definition read_register (addr : Z) (c : Core) : Z := u64 (regfile_read addr c).
Definition write_register (addr v : Z) (c : Core) : Core := regfile_write addr v c.

(** [Core(hart_id, trace)] over a memory *)
Definition core_init (hart_id : Z) (m : Mem) : Core :=
  mkCore (replicate 32 0) (upd R_mhartid hart_id csr_table_init) m false false 0 0 MachineMode 0 UNDEF Runnable [] false.
End Core.
#[global] Arguments Core Mem : clear implicits.
