(* ===== verification/Rv64Inv.v ===== *)
(** * What the core of the command processor keeps

    The invariant of the core between two instructions, and what a step can do: it
    keeps the invariant or ends the simulation for one of four named causes. *)

From S2P Require Import Prelude BitSolve Rv64Const Rv64Instr Rv64Csr Rv64Decode Rv64Compressed Rv64Core.
Import Opcode.

(** ** Numbers *)

Lemma even_testbit x : Z.even x = negb (Z.testbit x 0).
Proof. by rewrite Z.bit0_odd, Z.negb_odd. Qed.
Lemma even_wrap w x : 0 < w -> Z.even (wrap w x) = Z.even x.
Proof. intros Hw. rewrite !even_testbit, testbit_wrap by lia. by rewrite (proj2 (Z.ltb_lt 0 w) Hw). Qed.
Lemma even_land_1 x : (Z.land x 1 =? 0) = Z.even x.
Proof.
  rewrite even_testbit, Z.bit0_odd. change 1 with (Z.ones 1). rewrite Z.land_ones by lia. rewrite Zmod_odd.
  by destruct (Z.odd x).
Qed.

Lemma swrap_range w x : 0 < w -> - 2 ^ (w - 1) <= swrap w x < 2 ^ (w - 1).
Proof.
  intros Hw. unfold swrap. cbv zeta. assert (Hy : 0 <= x mod 2 ^ w < 2 ^ w) by (apply Z.mod_pos_bound; lia).
  assert (Hp : 2 ^ w = 2 * 2 ^ (w - 1)) by (rewrite <- Z.pow_succ_r by lia; f_equal; lia).
  destruct (Z.ltb_spec (x mod 2 ^ w) (2 ^ (w - 1))); lia.
Qed.

Lemma fits_bits w x : 0 <= w -> (fits w x <-> 0 <= x /\ forall n, w <= n -> Z.testbit x n = false).
Proof.
  intros Hw. unfold fits. split.
  - intros [H0 H1]. split; [done|]. intros n Hn. rewrite <- (Z.mod_small x (2 ^ w)) by lia. apply Z.mod_pow2_bits_high. lia.
  - intros [H0 H1]. split; [done|]. destruct (Z.eq_dec x 0) as [->|Hx]; [lia|]. apply Z.log2_lt_pow2; [lia|].
    destruct (Z.lt_ge_cases (Z.log2 x) w) as [?|Hge]; [done|]. specialize (H1 _ Hge). rewrite Z.bit_log2 in H1 by lia. done.
Qed.

Lemma fits_land w x y : 0 <= w -> fits w x -> fits w (Z.land x y).
Proof.
  intros Hw Hx. apply fits_bits in Hx as [H0 H1]; [|done]. apply fits_bits; [done|]. split.
  - apply Z.land_nonneg. by left.
  - intros n Hn. by rewrite Z.land_spec, H1.
Qed.
Lemma fits_land_r w x y : 0 <= w -> fits w y -> fits w (Z.land x y).
Proof. rewrite Z.land_comm. apply fits_land. Qed.
Lemma fits_lor w x y : 0 <= w -> fits w x -> fits w y -> fits w (Z.lor x y).
Proof.
  intros Hw Hx Hy. apply fits_bits in Hx as [H0 H1], Hy as [H2 H3]; [|done..]. apply fits_bits; [done|]. split.
  - by apply Z.lor_nonneg.
  - intros n Hn. by rewrite Z.lor_spec, H1, H3.
Qed.
Lemma fits_ldiff w x y : 0 <= w -> fits w x -> fits w (Z.ldiff x y).
Proof.
  intros Hw Hx. apply fits_bits in Hx as [H0 H1]; [|done]. apply fits_bits; [done|]. split.
  - apply Z.ldiff_nonneg. by left.
  - intros n Hn. by rewrite Z.ldiff_spec, H1.
Qed.

Lemma fget_range f reg : 0 <= bf_width f -> 0 <= fget f reg < 2 ^ bf_width f.
Proof. intros Hw. unfold fget, get_field. rewrite Z.land_ones by done. apply Z.mod_pos_bound. lia. Qed.

Lemma fset_fits f v reg : 0 <= bf_lo f -> 0 <= bf_width f -> bf_lo f + bf_width f <= 64 -> fits 64 reg ->
  fits 64 (fset f v reg).
Proof.
  intros Hl Hw Hs Hr. unfold fset, set_field. apply fits_lor; [lia|by apply fits_ldiff|].
  apply fits_bits; [lia|]. split.
  - apply Z.shiftl_nonneg, Z.land_nonneg. right. rewrite Z.ones_equiv. lia.
  - intros n Hn. rewrite Z.shiftl_spec by lia. rewrite Z.land_spec, Z.ones_spec_high by lia. apply andb_false_r.
Qed.

Lemma masked_write_fits mask v reg : fits 64 mask -> fits 64 reg -> fits 64 (masked_write mask v reg).
Proof. intros Hm Hr. apply fits_lor; [lia|by apply fits_ldiff|by apply fits_land_r]. Qed.

(** ** The invariant *)

Definition reg_ok (r : csr_reg) (v : Z) : Prop :=
  fits 64 v /\
  match r with
  | R_misa => v = csr_misa.init 0
  | R_mepc | R_sepc | R_uepc => Z.even v = true
  | R_mie => Z.land v MIE_MASK = v
  | _ => True
  end.
Definition csr_ok (t : csr_table) : Prop := forall r, reg_ok r (t r).

Lemma upd_ok t r v : csr_ok t -> reg_ok r v -> csr_ok (upd r v t).
Proof. intros Ht Hv r'. unfold upd. case_decide; subst; auto. Qed.

Section Inv.
Context {Mem : Type} `{Bus Mem}.

Record core_inv (c : Core Mem) : Prop := {
  inv_length : length (co_regs c) = 32%nat;
  inv_range : Forall (fun v => - 2 ^ 63 <= v < 2 ^ 63) (co_regs c);
  inv_csr : csr_ok (co_csr c);
  inv_pc : Z.even (co_pc c) = true /\ fits 64 (co_pc c);
  inv_last_pc : Z.even (co_last_pc c) = true /\ fits 64 (co_last_pc c);
  inv_prv : 0 <= co_prv c <= 3
}.

(** What holds of the state after an operation: on return, on a trap, on a failure. *)
Definition wp {A} (m : act A) (Q : A -> Core Mem -> Prop) (T : Z -> Z -> Core Mem -> Prop) (F : failure -> Prop)
    (c : Core Mem) : Prop :=
  match m c with Ret a c => Q a c | Trap r v c => T r v c | Fail f => F f end.

Lemma wp_bind {A B} (m : act A) (k : A -> act B) Q T F c :
  wp m (fun a => wp (k a) Q T F) T F c -> wp (bind m k) Q T F c.
Proof. unfold wp, bind. by destruct (m c). Qed.
Lemma wp_mono {A} (m : act A) (Q Q' : A -> Core Mem -> Prop) (T T' : Z -> Z -> Core Mem -> Prop) F F' c :
  wp m Q T F c -> (forall a c', Q a c' -> Q' a c') -> (forall r v c', T r v c' -> T' r v c') -> (forall f, F f -> F' f) ->
  wp m Q' T' F' c.
Proof. unfold wp. destruct (m c); auto. Qed.

Lemma wp_ret {A} (a : A) Q T F c : Q a c -> wp (ret a) Q T F c.
Proof. done. Qed.
Lemma wp_gets {A} (f : Core Mem -> A) (Q : A -> Core Mem -> Prop) T F c : Q (f c) c -> wp (gets f) Q T F c.
Proof. done. Qed.
Lemma wp_modify (f : Core Mem -> Core Mem) (Q : unit -> Core Mem -> Prop) T F c : Q tt (f c) -> wp (modify f) Q T F c.
Proof. done. Qed.
Lemma wp_trap {A} r v (Q : A -> Core Mem -> Prop) (T : Z -> Z -> Core Mem -> Prop) F c : T r v c -> wp (raise_trap r v) Q T F c.
Proof. done. Qed.
Lemma wp_fail {A} f (Q : A -> Core Mem -> Prop) T (F : failure -> Prop) c : F f -> wp (fail f) Q T F c.
Proof. done. Qed.
Lemma wp_if {A} (b : bool) (m n : act A) Q T F c :
  (b = true -> wp m Q T F c) -> (b = false -> wp n Q T F c) -> wp (if b then m else n) Q T F c.
Proof. destruct b; auto. Qed.
Lemma wp_when b (m : act unit) (Q : unit -> Core Mem -> Prop) T F c :
  (b = true -> wp m Q T F c) -> (b = false -> Q tt c) -> wp (when b m) Q T F c.
Proof. unfold when. destruct b; [auto|intros _ HQ; apply wp_ret; auto]. Qed.
Lemma wp_assert b (Q : unit -> Core Mem -> Prop) T (F : failure -> Prop) c :
  (b = true -> Q tt c) -> (b = false -> F AssertionFailed) -> wp (assert b) Q T F c.
Proof. destruct b; cbn; auto. Qed.

(** An operation that keeps the invariant, on return and on a trap. *)
Definition keeps {A} (F : failure -> Prop) (m : act A) : Prop :=
  forall c : Core Mem, core_inv c -> wp m (fun _ c' => core_inv c') (fun _ _ c' => core_inv c') F c.

Lemma keeps_bind {A B} F (m : act A) (k : A -> act B) : keeps F m -> (forall a, keeps F (k a)) -> keeps F (bind m k).
Proof. intros Hm Hk c Hc. apply wp_bind. eapply wp_mono; [by apply Hm|intros a c' Hc'; by apply Hk|done..]. Qed.
Lemma keeps_gets {A B} F (f : Core Mem -> A) (k : A -> act B) :
  (forall c, core_inv c -> wp (k (f c)) (fun _ c' => core_inv c') (fun _ _ c' => core_inv c') F c) -> keeps F (bind (gets f) k).
Proof. intros Hk c Hc. apply wp_bind, wp_gets. by apply Hk. Qed.

(** ** Changes of one part of the state *)

Lemma inv_regfile_write index v c : core_inv c -> core_inv (regfile_write index v c).
Proof.
  intros []. constructor; try done; cbn.
  - by rewrite length_insert.
  - by apply Forall_insert; [|apply (swrap_range 64)].
Qed.
Lemma inv_with_csr t c : core_inv c -> csr_ok t -> core_inv (with_csr t c).
Proof. intros [] ?. by constructor. Qed.
Lemma inv_with_pc v c : core_inv c -> Z.even v = true -> fits 64 v -> core_inv (with_pc v c).
Proof. intros [] ??. by constructor. Qed.
Lemma inv_with_prv v c : core_inv c -> 0 <= v <= 3 -> core_inv (with_prv v c).
Proof. intros [] ?. by constructor. Qed.
Lemma inv_csr_set r v c : core_inv c -> reg_ok r v -> core_inv (with_csr (upd r v (co_csr c)) c).
Proof. intros Hc Hv. apply inv_with_csr; [done|]. apply upd_ok; [apply Hc|done]. Qed.

(** The fields that are assigned: of registers without a restriction. *)
Definition plain (r : csr_reg) : bool :=
  match r with R_misa | R_mepc | R_sepc | R_uepc | R_mie => false | _ => true end.
Definition field_fits (f : bitfield) : bool := (0 <=? bf_lo f) && (0 <=? bf_width f) && (bf_lo f + bf_width f <=? 64).
Lemma plain_ok r v : plain r = true -> fits 64 v -> reg_ok r v.
Proof. intros Hr Hv. split; [done|]. by destruct r. Qed.
Lemma csr_fits c r : core_inv c -> fits 64 (co_csr c r).
Proof. intros Hc. apply Hc. Qed.

Lemma keeps_setreg F index v : keeps F (setreg index v).
Proof. intros c Hc. by apply inv_regfile_write. Qed.
Lemma inv_csr_fset r f v c : plain r = true -> field_fits f = true -> core_inv c ->
  core_inv (with_csr (upd r (fset f v (co_csr c r)) (co_csr c)) c).
Proof.
  intros Hr Hf Hc. unfold field_fits in Hf. bprop. apply inv_csr_set; [done|]. apply plain_ok; [done|].
  by apply fset_fits; [..|apply csr_fits].
Qed.
Lemma keeps_csr_fset F r f v : plain r = true -> field_fits f = true -> keeps F (csr_fset r f v).
Proof. intros Hr Hf c Hc. by apply inv_csr_fset. Qed.

Lemma keeps_load F len addr : keeps F (load_ len addr).
Proof.
  intros c Hc. unfold wp, load_. destruct (bus_read addr len (co_mem c)) as [bs m]. destruct Hc. by constructor.
Qed.
Lemma keeps_store F len addr v : keeps F (store_ len addr v).
Proof. intros c []. by constructor. Qed.
End Inv.

Create HintDb core_keeps.
#[export] Hint Resolve keeps_setreg keeps_load keeps_store : core_keeps.

Ltac wp_step :=
  lazymatch goal with
  | |- wp (bind _ _) _ _ _ _ => apply wp_bind
  | |- wp (ret _) _ _ _ _ => apply wp_ret
  | |- wp (gets _) _ _ _ _ => apply wp_gets
  | |- wp (csr_get _) _ _ _ _ => apply wp_gets
  | |- wp (csr_fget _ _) _ _ _ _ => apply wp_gets
  | |- wp (reg _) _ _ _ _ => apply wp_gets
  | |- wp (modify _) _ _ _ _ => apply wp_modify
  | |- wp (csr_set _ _) _ _ _ _ => apply wp_modify
  | |- wp (csr_fset _ _ _) _ _ _ _ => apply wp_modify
  | |- wp (setreg _ _) _ _ _ _ => apply wp_modify
  | |- wp (raise_trap _ _) _ _ _ _ => apply wp_trap
  | |- wp RAISE_ILLEGAL_INSTRUCTION _ _ _ _ => unfold RAISE_ILLEGAL_INSTRUCTION
  | |- wp (if _ then _ else _) _ _ _ _ => apply wp_if; intros ?
  | |- wp (when _ _) _ _ _ _ => apply wp_when; intros ?
  | |- wp (assert _) _ _ _ _ => apply wp_assert; intros ?
  end.
Ltac wp_steps := repeat (wp_step; cbv beta).

(** ** CSR access *)

Definition bad_pmpcfg (addr : Z) : bool := (addr =? 0x3A2) || (addr =? 0x3A3).

(** The numbers that are mapped to a register with a restriction, or past the end of
    [pmpcfg]. *)
Lemma register_mapping_special addr r : register_mapping addr = Some r ->
  (in_table r = false -> bad_pmpcfg addr = true) /\
  match r with
  | R_misa => addr = MISA_ADDR
  | R_mepc => addr = MEPC_ADDR
  | R_sepc => addr = SEPC_ADDR
  | R_uepc => addr = UEPC_ADDR
  | R_mie => addr = MIE_ADDR
  | _ => True
  end.
Proof.
  unfold register_mapping. destruct ((PMPADDR0_ADDR <=? addr) && _) eqn:E1; [|destruct ((PMPCFG0_ADDR <=? addr) && _) eqn:E2].
  - intros Hr. injection Hr as <-. split; [|done]. cbn. unfold PMPADDR0_ADDR in *. bprop. intros Hn. exfalso.
    apply andb_false_iff in Hn. bprop. destruct Hn; bprop; lia.
  - intros Hr. injection Hr as <-. split; [|done]. cbn. unfold PMPCFG0_ADDR, bad_pmpcfg in *. bprop. intros Hn.
    apply andb_false_iff in Hn. apply orb_true_iff. rewrite !Z.eqb_eq. destruct Hn; bprop; lia.
  - destruct (List.find _ _) as [[a r']|] eqn:Hf; [|done]. cbn [fmap option_fmap option_map snd]. intros Hr. injection Hr as <-. apply find_some in Hf as [Hin Ha].
    cbn in Ha. bprop. subst a. unfold named_registers in Hin.
    repeat (destruct Hin as [Hin|Hin]; [injection Hin as <- <-; done|]). done.
Qed.

Section InvCsr.
Context {Mem : Type} `{Bus Mem}.
Implicit Types c : Core Mem.

Lemma get_csr_spec (F : failure -> Prop) addr c : core_inv c -> (bad_pmpcfg addr = true -> F BadRegisterPointer) ->
  wp (get_csr_value addr) (fun v c' => c' = c /\ fits 64 v)
    (fun r x c' => c' = c /\ r = EXC_ILLEGAL_INSTR /\ x = data (co_instr c)) F c.
Proof.
  intros Hc HF. pose proof (fun r => csr_fits c r Hc) as Hfits.
  unfold get_csr_value, validate_csr_counter_read_access_rights, read. cbv zeta. wp_steps; try done.
  all: try (split; [done|]; first [done | by apply Hfits | by apply fits_land; [lia|apply Hfits] | unfold fits; lia |
    by eapply fits_mono; [|apply fget_range; cbn]]).
  all: unfold default_read64, is_valid_csr64_addr in *; destruct (register_mapping addr) as [r|] eqn:Er; [|done].
  all: cbn [mbind option_bind]; destruct (in_table r) eqn:Et; cbn [or_bad_pointer].
  all: try (apply wp_ret; split; [done|apply Hfits]).
  all: apply wp_fail, HF; by apply (register_mapping_special addr r).
Qed.

Lemma fits_eval x : (0 <=? x) && (x <? 2 ^ 64) = true -> fits 64 x.
Proof. intros Hx. bprop. by split. Qed.

Lemma masked_write_even mask v x : Z.testbit mask 0 = false -> Z.even x = true -> Z.even (masked_write mask v x) = true.
Proof.
  intros Hm Hx. rewrite even_testbit in *. unfold masked_write. rewrite Z.lor_spec, Z.ldiff_spec, Z.land_spec, Hm.
  by destruct (Z.testbit x 0), (Z.testbit v 0).
Qed.

Lemma masked_write_sub mask mask' v x : Z.land mask mask' = mask -> Z.land x mask' = x ->
  Z.land (masked_write mask v x) mask' = masked_write mask v x.
Proof.
  intros Hm Hx. unfold masked_write. apply Z.bits_inj'. intros n Hn.
  rewrite <- Hx, <- Hm. rewrite !Z.land_spec, !Z.lor_spec, !Z.ldiff_spec, !Z.land_spec.
  by destruct (Z.testbit x n), (Z.testbit mask n), (Z.testbit mask' n), (Z.testbit v n).
Qed.

(** The registers of [write_mask] and their masks. *)
Lemma write_mask_ok addr r mask v x : write_mask addr = Some (r, mask) -> reg_ok r x -> reg_ok r (masked_write mask v x).
Proof.
  unfold write_mask. destruct (List.find _ _) as [[a [r' mask']]|] eqn:Hf; [|done].
  cbn [fmap option_fmap option_map snd]. intros Hr. injection Hr as <- <-. apply find_some in Hf as [Hin _].
  intros [Hfit Hx]. assert (Hm : fits 64 mask').
  { repeat (destruct Hin as [Hin|Hin]; [injection Hin as <- <- <-; by apply fits_eval|]). done. }
  split; [by apply masked_write_fits|].
  repeat (destruct Hin as [Hin|Hin]; [injection Hin as <- <- <-; first [done|by apply masked_write_sub]|]). done.
Qed.

Lemma write_pc_ok mask v x r : r = R_mepc \/ r = R_sepc \/ r = R_uepc -> mask = u64 (Z.lnot 1) \/ mask = u64 (Z.lnot 3) ->
  reg_ok r x -> reg_ok r (masked_write mask v x).
Proof.
  intros Hr Hmask [Hfit Hx]. split.
  - apply masked_write_fits; [|done]. by destruct Hmask as [->| ->]; apply wrap_fits.
  - destruct Hr as [->|[->| ->]]; (apply masked_write_even; [|done]); by destruct Hmask as [->| ->].
Qed.

Lemma keeps_write (F : failure -> Prop) r mask v :
  (forall x, reg_ok r x -> reg_ok r (masked_write mask v x)) -> keeps F (write (Mem := Mem) r mask v).
Proof. intros Hw c Hc. unfold write. wp_steps. apply inv_csr_set; [done|]. apply Hw, Hc. Qed.

Lemma set_csr_keeps (F : failure -> Prop) addr v : fits 64 v -> (bad_pmpcfg addr = true -> F BadRegisterPointer) ->
  keeps F (set_csr_value (Mem := Mem) addr v).
Proof.
  intros Hv HF c Hc. unfold set_csr_value, pc_alignment_mask. wp_steps; [exact Hc|exact Hc|..].
  - eapply wp_mono; [apply keeps_write; [|exact Hc]|intros [] c' Hc'|done..].
    + intros x [Hx _]. split; [|done]. by apply masked_write_fits; [apply fits_eval|].
    + wp_steps; [by apply inv_csr_fset|done].
  - eapply keeps_write; [|exact Hc]. intros x. apply write_pc_ok; [tauto|destruct (csr_misa.has_C_extension _); tauto].
  - eapply keeps_write; [|exact Hc]. intros x. apply write_pc_ok; [tauto|destruct (csr_misa.has_C_extension _); tauto].
  - eapply keeps_write; [|exact Hc]. intros x. apply write_pc_ok; [tauto|destruct (csr_misa.has_C_extension _); tauto].
  - by apply inv_csr_fset.
  - by apply inv_csr_fset.
  - destruct (write_mask addr) as [[r mask]|] eqn:Hw; [apply keeps_write; [intros x; by eapply write_mask_ok|done]|].
    wp_steps; [done|]. unfold default_write64, is_valid_csr64_addr in *.
    destruct (register_mapping addr) as [r|] eqn:Er; [|done]. cbn [mbind option_bind].
    destruct (register_mapping_special addr r Er) as [Hb Hs].
    destruct (in_table r) eqn:Et; [|by apply wp_fail, HF, Hb]. cbn [or_bad_pointer]. wp_steps.
    apply inv_csr_set; [done|]. split; [done|].
    destruct r; try done; subst addr; by bprop.
Qed.

(** A CSR number no instruction may use now: unknown, or [satp] under [mstatus.tvm]. *)
Definition csr_denied (addr : Z) (t : csr_table) : bool :=
  if addr =? SATP_ADDR then negb (fget csr_mstatus.tvm (t R_mstatus) =? 0)
  else negb (is_valid_csr64_addr addr || match_any_hpmcounter addr || (addr =? FFLAGS_ADDR) || (addr =? FRM_ADDR)
             || bool_decide (is_Some (write_mask addr))).

(** A read that returns is of a number a write does not trap on. *)
Lemma get_csr_not_denied addr c :
  wp (get_csr_value addr) (fun _ _ => csr_denied addr (co_csr c) = false) (fun _ _ _ => True) (fun _ => True) c.
Proof.
  assert (Hend : csr_denied addr (co_csr c) = false -> wp (or_bad_pointer (default_read64 addr (co_csr c)))
    (fun _ _ => csr_denied addr (co_csr c) = false) (fun _ _ _ => True) (fun _ => True) c)
    by (intros ?; by destruct (default_read64 _ _)).
  unfold get_csr_value, validate_csr_counter_read_access_rights, read. cbv zeta. wp_steps; try exact I.
  all: try apply Hend; clear Hend.
  all: repeat match goal with E : _ || _ = true |- _ => apply orb_true_iff in E as [E|E] end.
  all: try match goal with E : (?a =? _) = true |- csr_denied ?a _ = _ => rewrite (proj1 (Z.eqb_eq _ _) E) end; try reflexivity.
  all: unfold csr_denied; try (rewrite Z.eqb_refl; assumption).
  all: destruct (addr =? SATP_ADDR) eqn:Es; [rewrite (proj1 (Z.eqb_eq _ _) Es) in *; discriminate|].
  all: try match goal with E : match_any_hpmcounter _ = true |- _ => rewrite E, orb_true_r; reflexivity end.
  all: match goal with E : negb (is_valid_csr64_addr _) = false |- _ => apply negb_false_iff in E; by rewrite E end.
Qed.

Lemma set_csr_traps addr v c (F : failure -> Prop) : (bad_pmpcfg addr = true -> F BadRegisterPointer) ->
  wp (set_csr_value addr v) (fun _ c' => co_prv c' = co_prv c)
    (fun r x c' => c' = c /\ r = EXC_ILLEGAL_INSTR /\ x = data (co_instr c) /\ csr_denied addr (co_csr c) = true) F c.
Proof.
  intros HF. unfold set_csr_value, write, pc_alignment_mask. wp_steps; try reflexivity.
  - split_and!; try done. unfold csr_denied. by match goal with E : (addr =? SATP_ADDR) = true |- _ => rewrite E end.
  - destruct (write_mask addr) as [[r mask]|] eqn:Hw; [by wp_steps|]. wp_steps.
    + split_and!; try done. unfold csr_denied.
      repeat match goal with
      | E : _ || _ = false |- _ => apply orb_false_iff in E as [? E]
      | E : negb (is_valid_csr64_addr addr) = true |- _ => apply negb_true_iff in E
      | E : _ = false |- _ => rewrite E; clear E
      end. by rewrite Hw.
    + unfold default_write64, is_valid_csr64_addr in *.
      destruct (register_mapping addr) as [r|] eqn:Er; [|done]. cbn [mbind option_bind].
      destruct (register_mapping_special addr r Er) as [Hb _].
      destruct (in_table r) eqn:Et; [done|]. by apply HF, Hb.
Qed.

(** What a read returns, or traps with. *)
Lemma get_csr_full addr c : core_inv c ->
  wp (get_csr_value addr) (fun v c' => c' = c /\ fits 64 v /\ csr_denied addr (co_csr c) = false)
    (fun r x c' => c' = c /\ r = EXC_ILLEGAL_INSTR /\ x = data (co_instr c)) (fun _ => True) c.
Proof.
  intros Hc. pose proof (get_csr_spec (fun _ => True) addr c Hc (fun _ => I)) as H1.
  pose proof (get_csr_not_denied addr c) as H2. unfold wp in *. destruct (get_csr_value addr c); naive_solver.
Qed.
End InvCsr.

(** ** The initial state, and a memory for the examples *)

Lemma csr_table_init_ok : csr_ok csr_table_init.
Proof. intros r. unfold reg_ok. destruct r; vm_compute; intuition discriminate. Qed.

Lemma core_init_inv {Mem : Type} (hart_id : Z) (m : Mem) : fits 64 hart_id -> core_inv (core_init hart_id m).
Proof.
  intros Hh. constructor; try done.
  - by repeat constructor.
  - apply upd_ok; [apply csr_table_init_ok|done].
Qed.

(** Bytes behind a bus without devices. *)
Module FlatBus.
Definition flat : Type := Z -> Z.
#[global] Instance flat_bus : Bus flat := {
  bus_read addr len m := (map (fun k => m (addr + Z.of_nat k)) (seq 0 len), m);
  bus_write addr bytes m := fun a => if (addr <=? a) && (a <? addr + Z.of_nat (length bytes))
                                     then nth (Z.to_nat (a - addr)) bytes 0 else m a
}.
(** A memory that holds the same word everywhere. *)
Definition filled (w : Z) : flat := fun a => Z.land (Z.shiftr w (8 * (a mod 4))) 0xff.
End FlatBus.
