(* ===== verification/Rv64Safe.v ===== *)
(** * Steps of the core of the command processor

    A step from a state with the invariant keeps it or ends the simulation for a named
    cause; a trap leaves registers and memory as they were before the instruction. *)

From S2P Require Import Prelude BitSolve Rv64Const Rv64Instr Rv64Csr Rv64Decode Rv64Compressed Rv64Core Rv64Inv.
Import Opcode.

(** Bits of the immediates. *)
Lemma J_imm_even i : Z.even (J_imm i) = true.
Proof.
  rewrite even_testbit. unfold J_imm, BIT_SINGLE, BIT_RANGE.
  rewrite !Z.lor_spec, !Z.shiftr_spec, !Z.land_spec by lia. cbn. by rewrite !andb_false_r.
Qed.
Lemma B_imm_even i : Z.even (B_imm i) = true.
Proof.
  rewrite even_testbit. unfold B_imm, BIT_SINGLE, BIT_RANGE.
  rewrite !Z.lor_spec, Z.shiftl_spec, !Z.shiftr_spec, !Z.land_spec by lia. cbn. by rewrite !andb_false_r.
Qed.
Lemma field_range_zimm i : 0 <= zimm i < 32.
Proof.
  replace (zimm i) with (Z.land (Z.shiftr i 15) (2 ^ 5 - 1)); [apply (land_ones_range _ 5); lia|].
  unfold zimm, BIT_RANGE. bit_solve.
Qed.

Section Safe.
Context {Mem : Type} `{Bus Mem}.
Implicit Types c : Core Mem.

(** ** Trap handlers *)

Lemma even_add4 x y : Z.even x = true -> Z.even (x + 4 * y) = true.
Proof. intros Hx. rewrite Z.even_add, Z.even_mul, Hx. done. Qed.

Lemma trap_vector_ok tvec cause : Z.even (trap_vector tvec cause) = true /\ fits 64 (trap_vector tvec cause).
Proof.
  assert (Hb : Z.even (csr_mtvec.get_base_address tvec) = true).
  { unfold csr_mtvec.get_base_address. rewrite even_wrap by lia. by rewrite even_testbit, Z.shiftl_spec_low. }
  unfold trap_vector. destruct (_ && _); split; try (by apply wrap_fits); [|exact Hb].
  rewrite even_wrap, Z.even_add, Hb, even_wrap, Z.even_mul by lia. done.
Qed.

(** Rules for operations that keep the invariant. *)
Lemma keeps_ret {A} F (a : A) : keeps (Mem := Mem) F (ret a).
Proof. intros c Hc. exact Hc. Qed.
Lemma keeps_fail {A} (F : failure -> Prop) f : F f -> keeps (Mem := Mem) F (fail (A := A) f).
Proof. intros HF c Hc. exact HF. Qed.
Lemma keeps_trap {A} F r v : keeps (Mem := Mem) F (raise_trap (A := A) r v).
Proof. intros c Hc. exact Hc. Qed.
Lemma keeps_if {A} F (b : bool) (m n : act A) : (b = true -> keeps (Mem := Mem) F m) -> (b = false -> keeps F n) ->
  keeps F (if b then m else n).
Proof. destruct b; auto. Qed.
Lemma keeps_when F (b : bool) (m : act unit) : (b = true -> keeps (Mem := Mem) F m) -> keeps F (when b m).
Proof. intros Hm. unfold when. apply keeps_if; [done|intros _; apply keeps_ret]. Qed.
Lemma keeps_gets_any {A B} F (f : Core Mem -> A) (k : A -> act B) : (forall a, keeps F (k a)) -> keeps F (bind (gets f) k).
Proof. intros Hk. apply keeps_gets. intros c Hc. by apply Hk. Qed.
Lemma keeps_csr_get {A} F r (k : Z -> act A) : (forall v, reg_ok r v -> keeps (Mem := Mem) F (k v)) ->
  keeps F (bind (csr_get r) k).
Proof. intros Hk. apply keeps_gets. intros c Hc. apply Hk; [apply Hc|done]. Qed.
Lemma keeps_csr_fget {A} F r f (k : Z -> act A) : field_fits f = true ->
  (forall v, 0 <= v < 2 ^ bf_width f -> keeps (Mem := Mem) F (k v)) -> keeps F (bind (csr_fget r f) k).
Proof. intros Hf Hk. unfold field_fits in Hf. bprop. apply keeps_gets. intros c Hc. by apply Hk; [apply fget_range|]. Qed.
Lemma keeps_with_pc F v : Z.even v = true -> fits 64 v -> keeps (Mem := Mem) F (modify (with_pc v)).
Proof. intros Hv Hf c Hc. by apply inv_with_pc. Qed.
Lemma keeps_with_prv F v : 0 <= v <= 3 -> keeps (Mem := Mem) F (modify (with_prv v)).
Proof. intros Hv c Hc. by apply inv_with_prv. Qed.
Lemma keeps_csr_set F r v : reg_ok r v -> keeps (Mem := Mem) F (csr_set r v).
Proof. intros Hv c Hc. by apply inv_csr_set. Qed.
Lemma keeps_get_pc {A} F (k : Z -> act A) : (forall v, Z.even v = true -> fits 64 v -> keeps (Mem := Mem) F (k v)) ->
  keeps F (bind (gets co_pc) k).
Proof. intros Hk. apply keeps_gets. intros c Hc. apply Hk; [apply Hc..|done]. Qed.
Lemma keeps_get_last_pc {A} F (k : Z -> act A) : (forall v, Z.even v = true -> fits 64 v -> keeps (Mem := Mem) F (k v)) ->
  keeps F (bind (gets co_last_pc) k).
Proof. intros Hk. apply keeps_gets. intros c Hc. apply Hk; [apply Hc..|done]. Qed.
Lemma keeps_get_prv {A} F (k : Z -> act A) : (forall v, 0 <= v <= 3 -> keeps (Mem := Mem) F (k v)) ->
  keeps F (bind (gets co_prv) k).
Proof. intros Hk. apply keeps_gets. intros c Hc. apply Hk; [apply Hc..|done]. Qed.
Lemma keeps_assert (F : failure -> Prop) b : (b = false -> F AssertionFailed) -> keeps (Mem := Mem) F (assert b).
Proof. intros HF c Hc. unfold assert. destruct b; [done|by apply HF]. Qed.
Lemma keeps_modify_frame F (f : Core Mem -> Core Mem) : (forall c, core_inv c -> core_inv (f c)) -> keeps F (modify f).
Proof. intros Hf c Hc. by apply Hf. Qed.

Ltac keeps_step :=
  lazymatch goal with
  | |- keeps _ (bind (csr_get _) _) => apply keeps_csr_get; intros ? ?
  | |- keeps _ (bind (csr_fget _ _) _) => apply keeps_csr_fget; [reflexivity|intros ? ?]
  | |- keeps _ (bind (gets co_pc) _) => apply keeps_get_pc; intros ? ? ?
  | |- keeps _ (bind (gets co_last_pc) _) => apply keeps_get_last_pc; intros ? ? ?
  | |- keeps _ (bind (gets co_prv) _) => apply keeps_get_prv; intros ? ?
  | |- keeps _ (bind (gets _) _) => apply keeps_gets_any; intros ?
  | |- keeps _ (bind (reg _) _) => apply keeps_gets_any; intros ?
  | |- keeps _ (bind _ _) => apply keeps_bind; [|intros ?]
  | |- keeps _ (ret _) => apply keeps_ret
  | |- keeps _ (raise_trap _ _) => apply keeps_trap
  | |- keeps _ RAISE_ILLEGAL_INSTRUCTION => unfold RAISE_ILLEGAL_INSTRUCTION
  | |- keeps _ (if _ then _ else _) => apply keeps_if; intros ?
  | |- keeps _ (when _ _) => apply keeps_when; intros ?
  | |- keeps _ (setreg _ _) => apply keeps_setreg
  | |- keeps _ (csr_fset _ _ _) => apply keeps_csr_fset; [reflexivity|reflexivity]
  | |- keeps _ (load_ _ _) => apply keeps_load
  | |- keeps _ (store_ _ _ _) => apply keeps_store
  | |- keeps _ (modify (with_pc _)) => apply keeps_with_pc
  | |- keeps _ (modify (with_prv _)) => apply keeps_with_prv
  | |- keeps _ (csr_set _ _) => apply keeps_csr_set
  | |- keeps _ (assert _) => apply keeps_assert; intros ?
  end.
Ltac keeps_steps := repeat (keeps_step; cbv beta).

Lemma return_keeps (F : failure -> Prop) mode : 0 <= mode <= 3 -> mode <> HypervisorMode ->
  keeps F (return_from_trap_handler (Mem := Mem) mode).
Proof.
  intros Hm Hh. unfold return_from_trap_handler. keeps_steps.
  all: try match goal with Hr : reg_ok _ ?v |- Z.even ?v = true => apply Hr | Hr : reg_ok _ ?v |- fits 64 ?v => apply Hr end.
  all: try (cbn in *; lia); try (unfold UserMode; lia).
  apply keeps_fail. exfalso. unfold MachineMode, SupervisorMode, UserMode, HypervisorMode in *. bprop. lia.
Qed.

Lemma switch_keeps (F : failure -> Prop) mode : 0 <= mode <= 3 -> mode <> HypervisorMode ->
  keeps F (switch_to_trap_handler (Mem := Mem) mode).
Proof.
  intros Hm Hh. unfold switch_to_trap_handler. keeps_steps; try done.
  all: try apply trap_vector_ok.
  - by match goal with E : (mode =? SupervisorMode) = true, E' : _ || _ = false |- _ => rewrite E in E' end.
  - congruence.
  - apply keeps_fail. exfalso. unfold MachineMode, SupervisorMode, UserMode, HypervisorMode in *. bprop. lia.
Qed.

(** ** Instructions *)

(** The operations the switch of [exec_step] has no case for. *)
Definition unimplemented (op : Mapping) : bool :=
  match op with
  | LR_W | SC_W | AMOSWAP_W | AMOADD_W | AMOXOR_W | AMOAND_W | AMOOR_W | AMOMIN_W | AMOMAX_W | AMOMINU_W | AMOMAXU_W
  | LR_D | SC_D | AMOSWAP_D | AMOADD_D | AMOXOR_D | AMOAND_D | AMOOR_D | AMOMIN_D | AMOMAX_D | AMOMINU_D | AMOMAXU_D => true
  | FLW | FSW | FLD | FSD => true
  | _ => match getType op with T_R4 => true | _ =>
      match encoding_of op with (_, enc) => Z.land enc 0x7f =? OP_FADD_S end end
  end.
Definition csr_op (op : Mapping) : bool :=
  match op with CSRRW | CSRRS | CSRRC | CSRRWI | CSRRSI | CSRRCI => true | _ => false end.
Definition shift_w_op (op : Mapping) : bool := match op with SLLW | SRLW | SRAW => true | _ => false end.

(** What can end the simulation in the execution of [op]. *)
Definition failure_cause (op : Mapping) (i : Instruction) (c : Core Mem) (f : failure) : Prop :=
  match f with
  | UnknownOpcode => unimplemented op = true
  | UnknownPrivilege => op = ECALL /\ co_prv c = HypervisorMode
  | BadRegisterPointer => csr_op op = true /\ bad_pmpcfg (csr i) = true
  | BadShift => shift_w_op op = true /\ Z.testbit (regfile_read (rs2 i) c) 5 = true
  | NoInterruptPending | AssertionFailed => False
  end.

Lemma land_63_small x : Z.testbit x 5 = false -> regfile_shamt_w x < 32.
Proof.
  intros Hx. replace (regfile_shamt_w x) with (Z.land x (2 ^ 5 - 1)); [apply land_ones_range; lia|].
  unfold regfile_shamt_w, BIT_RANGE. cbn [Z.sub Z.add]. change (s32 _) with 63. change (2 ^ 5 - 1) with 31.
  apply Z.bits_inj'. intros n Hn. rewrite !Z.land_spec. destruct (decide (n = 5)) as [->|H5].
  - by rewrite Hx.
  - f_equal. change 31 with (Z.ones 5). change 63 with (Z.ones 6). rewrite !Z.testbit_ones_nonneg by lia.
    destruct (Z.ltb_spec n 5), (Z.ltb_spec n 6); try done; lia.
Qed.

Lemma check_pc_keeps (F : failure -> Prop) : keeps F (trap_check_pc_alignment (Mem := Mem)).
Proof.
  unfold trap_check_pc_alignment. keeps_steps.
  rewrite even_land_1 in *. congruence.
Qed.
Lemma check_addr_keeps (F : failure -> Prop) n isLoad addr : keeps F (trap_check_addr_alignment (Mem := Mem) n isLoad addr).
Proof. unfold trap_check_addr_alignment. keeps_steps. Qed.

Lemma exec_csr_keeps (F : failure -> Prop) op i : csr_op op = true -> (bad_pmpcfg (csr i) = true -> F BadRegisterPointer) ->
  keeps F (exec_csr (Mem := Mem) op i).
Proof.
  intros Hop HF.
  assert (Hget : forall k, (forall v, fits 64 v -> keeps F (k v)) -> keeps (Mem := Mem) F (bind (get_csr_value (csr i)) (A := Z) (B := unit) k)).
  { intros k Hk c Hc. apply wp_bind. eapply wp_mono; [by apply (get_csr_spec F)|..]; cbv beta.
    - intros v c' [-> Hv]. by apply Hk.
    - by intros r v c' [-> _].
    - done. }
  assert (Hset : forall v, fits 64 v -> keeps F (set_csr_value (Mem := Mem) (csr i) v)) by (intros; by apply set_csr_keeps).
  assert (Hz : fits 64 (zimm i)) by (pose proof (field_range_zimm i); unfold fits; lia).
  destruct op; try discriminate Hop; unfold exec_csr; cbv zeta.
  all: repeat first [ lazymatch goal with |- keeps _ (bind (get_csr_value _) _) => apply Hget; intros ? ? end | keeps_step; cbv beta ].
  all: apply Hset; first [by apply wrap_fits | exact Hz | by apply fits_lor; [..|apply wrap_fits] | by apply fits_lor | by apply fits_land].
Qed.

Lemma even_jump pc x : Z.even pc = true -> Z.even x = true -> Z.even (pc +% x) = true.
Proof. intros Hp Hx. rewrite even_wrap, Z.even_add, Hp, Hx by lia. done. Qed.

Lemma exec_jump_keeps (F : failure -> Prop) op i : op = JAL \/ op = JALR -> keeps F (exec_jump (Mem := Mem) op i).
Proof.
  intros [->| ->]; unfold exec_jump; keeps_steps; try apply check_pc_keeps; try (by apply wrap_fits).
  - by apply even_jump; [|apply J_imm_even].
  - rewrite even_wrap by lia. rewrite even_testbit, Z.land_spec. by rewrite andb_false_r.
Qed.

Lemma exec_branch_keeps (F : failure -> Prop) op i : keeps F (exec_branch (Mem := Mem) op i).
Proof.
  unfold exec_branch. keeps_steps; [by apply even_jump; [|apply B_imm_even]|by apply wrap_fits|apply check_pc_keeps].
Qed.

Lemma exec_shift_w_keeps op i c : shift_w_op op = true -> core_inv c ->
  wp (exec_alu_w op i) (fun _ c' => core_inv c') (fun _ _ c' => core_inv c') (failure_cause op i c) c.
Proof.
  intros Hop Hc. destruct op; try discriminate Hop; unfold exec_alu_w; cbv zeta; wp_steps; try by apply inv_regfile_write.
  all: apply wp_fail; split; [reflexivity|].
  all: destruct (Z.testbit (regfile_read (rs2 i) c) 5) eqn:E; [reflexivity|]; apply land_63_small in E; bprop; lia.
Qed.

Lemma exec_ecall_keeps i c : core_inv c ->
  wp (exec_system ECALL i) (fun _ c' => core_inv c') (fun _ _ c' => core_inv c') (failure_cause ECALL i c) c.
Proof.
  intros Hc. unfold exec_system. wp_steps; try exact Hc. apply wp_fail. split; [reflexivity|].
  pose proof (inv_prv c Hc). unfold MachineMode, SupervisorMode, UserMode, HypervisorMode in *. bprop. lia.
Qed.

Lemma exec_op_keeps op i c : core_inv c ->
  wp (exec_op op i) (fun _ c' => core_inv c') (fun _ _ c' => core_inv c') (failure_cause op i c) c.
Proof.
  intros Hc.
  assert (Hk : forall m, keeps (failure_cause op i c) m -> wp (A := unit) m (fun _ c' => core_inv c') (fun _ _ c' => core_inv c') (failure_cause op i c) c)
    by (intros m Hm; by apply Hm).
  destruct op; cbn [exec_op]; try (apply wp_fail; reflexivity).
  all: lazymatch goal with
    | |- wp (exec_csr _ _) _ _ _ _ => apply Hk, exec_csr_keeps; [reflexivity|by split]
    | |- wp (exec_jump _ _) _ _ _ _ => apply Hk, exec_jump_keeps; tauto
    | |- wp (exec_branch _ _) _ _ _ _ => apply Hk, exec_branch_keeps
    | |- wp (exec_alu _ _) _ _ _ _ => apply Hk; unfold exec_alu; keeps_steps
    | |- wp (exec_muldiv _ _) _ _ _ _ => apply Hk; unfold exec_muldiv; keeps_steps
    | |- wp (exec_alu_w ?op _) _ _ _ _ =>
        lazymatch op with
        | SLLW => apply exec_shift_w_keeps; [reflexivity|exact Hc]
        | SRLW => apply exec_shift_w_keeps; [reflexivity|exact Hc]
        | SRAW => apply exec_shift_w_keeps; [reflexivity|exact Hc]
        | _ => apply Hk; unfold exec_alu_w; cbv zeta; keeps_steps
        end
    | |- wp (exec_store _ _) _ _ _ _ =>
        apply Hk; unfold exec_store, store_byte, store_half, store_word, store_double; cbv zeta; keeps_steps;
        apply check_addr_keeps
    | |- wp (exec_load _ _) _ _ _ _ =>
        apply Hk; unfold exec_load, load_byte, load_half, load_word, load_double, load_ubyte, load_uhalf, load_uword;
        cbv zeta; keeps_steps; apply check_addr_keeps
    | |- wp (exec_system ECALL _) _ _ _ _ => by apply exec_ecall_keeps
    | |- wp (exec_system _ _) _ _ _ _ => apply Hk; unfold exec_system; keeps_steps; try (by apply return_keeps)
    | |- wp (raise_trap _ _) _ _ _ _ => exact Hc
    end.
  apply keeps_modify_frame. intros c' []. by constructor.
Qed.

(** ** Traps are precise *)

(** A trap leaves registers, memory, privilege and control registers as they were, and its cause and
    value fit the registers they are stored in. *)
Definition trap_clean (c : Core Mem) (r x : Z) (c' : Core Mem) : Prop :=
  co_regs c' = co_regs c /\ co_mem c' = co_mem c /\ co_prv c' = co_prv c /\ co_csr c' = co_csr c
  /\ co_last_pc c' = co_last_pc c /\ 0 <= r < 16 /\ fits 64 x.

Lemma data_fits i : fits 64 (data i).
Proof. by apply (fits_mono 32); [|apply wrap_fits]. Qed.

Lemma clean_illegal c i : trap_clean c EXC_ILLEGAL_INSTR (data i) c.
Proof. unfold EXC_ILLEGAL_INSTR. split_and!; try done; apply data_fits. Qed.

Lemma clean_read {A} addr (k : Z -> act A) c (Q : A -> Core Mem -> Prop) : core_inv c ->
  (forall v, csr_denied addr (co_csr c) = false -> wp (k v) Q (trap_clean c) (fun _ => True) c) ->
  wp (bind (get_csr_value addr) k) Q (trap_clean c) (fun _ => True) c.
Proof.
  intros Hc Hk. apply wp_bind. eapply wp_mono; [by apply get_csr_full|..]; cbv beta.
  - intros v c' (-> & _ & Hd). by apply Hk.
  - intros r x c' (-> & -> & ->). apply clean_illegal.
  - done.
Qed.

(** A write does not trap after the read of the same register. *)
Lemma clean_write addr v c c' : co_csr c' = co_csr c -> csr_denied addr (co_csr c) = false ->
  wp (set_csr_value addr v) (fun _ _ => True) (trap_clean c) (fun _ => True) c'.
Proof.
  intros He Hd. eapply wp_mono; [by apply (set_csr_traps addr v c' (fun _ => True))|..]; cbv beta; [done| |done].
  intros r x c'' (_ & _ & _ & Hd'). rewrite He in Hd'. congruence.
Qed.

Lemma exec_csr_clean op i c : core_inv c -> csr_op op = true ->
  wp (exec_csr op i) (fun _ _ => True) (trap_clean c) (fun _ => True) c.
Proof.
  intros Hc Hop.
  assert (Hset : forall v, wp (set_csr_value (csr i) v) (fun _ _ => True) (trap_clean c) (fun _ => True) c).
  { intros v. eapply wp_mono; [by apply (set_csr_traps _ v c (fun _ => True))|done| |done].
    intros r x c' (-> & -> & -> & _). apply clean_illegal. }
  destruct op; try discriminate Hop; unfold exec_csr; cbv zeta.
  all: repeat first [ lazymatch goal with
    | |- wp (bind (get_csr_value _) _) _ _ _ _ => apply clean_read; [exact Hc|intros ? ?]
    end | wp_step; cbv beta ].
  all: lazymatch goal with
    | |- True => exact I
    | |- trap_clean _ _ _ _ => apply clean_illegal
    | |- wp (set_csr_value _ _) _ _ _ _ => first [ eapply clean_write; [reflexivity|eassumption] | apply Hset ]
    end.
Qed.

(** Closes the goals of a walk through an instruction that has no effect before a trap. *)
Ltac clean_leaf :=
  lazymatch goal with
  | |- True => exact I
  | |- wp (fail _) _ _ _ _ => exact I
  | |- wp (store_ _ _ _) _ _ _ _ => exact I
  | |- trap_clean _ EXC_ILLEGAL_INSTR _ _ => apply clean_illegal
  | |- trap_clean _ _ _ _ => split_and!; try reflexivity; try (by apply wrap_fits); try lia
  end.

Lemma check_pc_clean c0 c : core_inv c -> co_regs c = co_regs c0 -> co_mem c = co_mem c0 -> co_prv c = co_prv c0 ->
  co_csr c = co_csr c0 -> co_last_pc c = co_last_pc c0 -> wp trap_check_pc_alignment (fun _ _ => True) (trap_clean c0) (fun _ => True) c.
Proof.
  intros Hc H1 H2 H3 H4 H5. unfold trap_check_pc_alignment. wp_steps; lazymatch goal with |- True => exact I | |- _ => idtac end.
  split_and!; try assumption; try (unfold EXC_INSTR_ADDR_MISALIGNED; lia); apply Hc.
Qed.

Lemma check_addr_clean n isLoad addr c (Q : unit -> Core Mem -> Prop) : fits 64 addr -> Q tt c ->
  wp (trap_check_addr_alignment n isLoad addr) Q (trap_clean c) (fun _ => True) c.
Proof.
  intros Ha HQ. unfold trap_check_addr_alignment. wp_steps; [|exact HQ].
  split_and!; try reflexivity; try apply Ha; by destruct isLoad.
Qed.

Lemma exec_store_clean op i c : wp (exec_store op i) (fun _ _ => True) (trap_clean c) (fun _ => True) c.
Proof.
  unfold exec_store. cbv zeta. apply wp_bind, wp_gets, wp_bind, wp_gets.
  assert (Ha : fits 64 (u64 (regfile_read (rs1 i) c + S_imm i))) by (by apply wrap_fits).
  destruct op; try exact I; apply wp_bind, check_addr_clean; try exact Ha; exact I.
Qed.

Lemma load_then_set len addr (g : Z -> Z) r c :
  wp (bind (bind (load_ len addr) (fun v => ret (g v))) (setreg r)) (fun _ _ => True) (trap_clean c) (fun _ => True) c.
Proof. unfold wp, bind, load_. by destruct (bus_read addr len (co_mem c)). Qed.

Lemma exec_load_clean op i c : wp (exec_load op i) (fun _ _ => True) (trap_clean c) (fun _ => True) c.
Proof.
  unfold exec_load. cbv zeta. apply wp_bind, wp_gets.
  assert (Ha : fits 64 (u64 (regfile_read (rs1 i) c + I_imm i))) by (by apply wrap_fits).
  destruct op; try exact I.
  all: apply wp_bind; apply wp_if; intros ?; [apply check_addr_clean; [exact Ha|]|apply wp_ret].
  all: first [discriminate | apply load_then_set].
Qed.

Lemma exec_jump_clean op i c : op = JAL \/ op = JALR -> core_inv c ->
  wp (exec_jump op i) (fun _ _ => True) (trap_clean c) (fun _ => True) c.
Proof.
  intros Hop Hc.
  assert (Hpc : forall v k, Z.even v = true -> fits 64 v ->
    wp (bind trap_check_pc_alignment (fun _ => modify k)) (fun _ _ => True) (trap_clean c) (fun _ => True) (with_pc v c)).
  { intros v k Hv Hf. apply wp_bind. eapply wp_mono; [by apply check_pc_clean; [apply inv_with_pc|..]|done..]. }
  destruct Hop as [->| ->]; unfold exec_jump; apply wp_bind, wp_gets, wp_bind, wp_gets.
  - apply wp_bind, wp_modify, Hpc; [|by apply wrap_fits]. apply even_jump; [apply Hc|apply J_imm_even].
  - apply wp_bind, wp_gets, wp_bind, wp_modify, Hpc; [|by apply wrap_fits].
    rewrite even_wrap by lia. rewrite even_testbit, Z.land_spec. by rewrite andb_false_r.
Qed.

Lemma exec_branch_clean op i c : core_inv c -> wp (exec_branch op i) (fun _ _ => True) (trap_clean c) (fun _ => True) c.
Proof.
  intros Hc. unfold exec_branch. apply wp_bind, wp_gets, wp_bind, wp_gets. apply wp_if; intros _; [|exact I].
  apply wp_bind, wp_gets, wp_bind, wp_modify. apply check_pc_clean; try done. apply inv_with_pc; [done| |by apply wrap_fits].
  apply even_jump; [apply Hc|apply B_imm_even].
Qed.

Lemma return_clean mode c : wp (return_from_trap_handler mode) (fun _ _ => True) (trap_clean c) (fun _ => True) c.
Proof.
  unfold return_from_trap_handler. apply wp_bind, wp_gets.
  repeat (apply wp_if; intros _); exact I.
Qed.

Lemma exec_system_clean op i c : core_inv c -> wp (exec_system op i) (fun _ _ => True) (trap_clean c) (fun _ => True) c.
Proof.
  intros Hc. unfold exec_system. cbv zeta. apply wp_bind, wp_gets, wp_bind, wp_gets, wp_bind, wp_gets.
  destruct op; try exact I.
  - repeat (apply wp_if; intros _); try exact I; (split_and!; try reflexivity; try apply Hc; done).
  - apply wp_bind, wp_when; intros _; [apply clean_illegal|apply return_clean].
  - apply wp_bind, wp_gets, wp_bind, wp_when; intros _; [apply clean_illegal|apply return_clean].
  - apply wp_bind, wp_gets, wp_bind, wp_when; intros _; [apply clean_illegal|].
    apply wp_when; intros _; [apply clean_illegal|exact I].
  - apply wp_bind, wp_gets, wp_when; intros _; [apply clean_illegal|exact I].
Qed.

Lemma exec_op_clean op i c : core_inv c -> wp (exec_op op i) (fun _ _ => True) (trap_clean c) (fun _ => True) c.
Proof.
  intros Hc. destruct op; cbn [exec_op].
  all: lazymatch goal with
    | |- wp (exec_csr _ _) _ _ _ _ => apply exec_csr_clean; [exact Hc|reflexivity]
    | |- wp (exec_branch _ _) _ _ _ _ => apply exec_branch_clean, Hc
    | |- wp (exec_jump _ _) _ _ _ _ => apply exec_jump_clean; [tauto|exact Hc]
    | |- wp (exec_system _ _) _ _ _ _ => apply exec_system_clean, Hc
    | |- wp (exec_store _ _) _ _ _ _ => apply exec_store_clean
    | |- wp (exec_load _ _) _ _ _ _ => apply exec_load_clean
    | |- wp (raise_trap _ _) _ _ _ _ => apply clean_illegal
    | |- wp (exec_alu_w _ _) _ _ _ _ => unfold exec_alu_w; cbv zeta; wp_steps; exact I
    | |- _ => exact I
    end.
Qed.

(** ** Interrupts *)

Lemma pending_bits p : Z.land p MIE_MASK = p -> p <> 0 ->
  exists f exc, List.find (fun x => negb (fget x.1 p =? 0)) interrupt_order = Some (f, exc) /\ 0 <= exc < 16.
Proof.
  intros Hp Hnz. destruct (List.find _ interrupt_order) as [[f exc]|] eqn:Hf.
  - exists f, exc. split; [done|]. apply find_some in Hf as [Hin _].
    repeat (destruct Hin as [Hin|Hin]; [injection Hin as <- <-; by split|]). done.
  - exfalso. apply Hnz.
    assert (Hbit : forall n x, In (Bits n 1, x) interrupt_order -> 0 <= n -> Z.testbit p n = false).
    { intros n x Hin Hn. pose proof (find_none _ _ Hf _ Hin) as Hz. cbn [fst] in Hz. apply negb_false_iff in Hz. bprop.
      unfold fget, get_field in Hz. cbn [bf_lo bf_width] in Hz. rewrite <- (Z.add_0_l n), <- Z.shiftr_spec by lia.
      change (Z.ones 1) with 1 in Hz. rewrite Z.bit0_odd. rewrite <- Z.negb_even, <- even_land_1, Hz. done. }
    clear Hf. apply Z.bits_inj'. intros n Hn. rewrite Z.bits_0.
    destruct (Z.ltb_spec n 12) as [Hlt|Hge].
    + assert (E : In n (seqZ 0 12)) by (apply list_elem_of_In, elem_of_seqZ; lia). cbn in E.
      repeat (destruct E as [<-|E]); [..|done].
      all: first [ eapply Hbit; [cbn; tauto|lia] | rewrite <- Hp, Z.land_spec; apply andb_false_r ].
    + rewrite <- Hp, Z.land_spec. rewrite (proj2 (proj1 (fits_bits 12 MIE_MASK ltac:(lia)) ltac:(unfold fits, MIE_MASK; lia)) n) by lia.
      apply andb_false_r.
Qed.

Lemma land_sub p q m : Z.land p m = p -> Z.land (Z.land p q) m = Z.land p q.
Proof. intros Hp. by rewrite land_swap, Hp. Qed.
Lemma ldiff_sub p q m : Z.land p m = p -> Z.land (Z.ldiff p q) m = Z.ldiff p q.
Proof.
  intros Hp. rewrite !Z.ldiff_land. rewrite land_swap. by rewrite Hp.
Qed.

(** The interrupt that is taken: enabled, of a mode with a handler. *)
Lemma compute_pending_ok c : core_inv c -> let x := compute_pending_interrupts c in
  target_mode x = NoneMode \/
  ((target_mode x = MachineMode \/ target_mode x = SupervisorMode \/ target_mode x = UserMode)
   /\ Z.land (pending x) MIE_MASK = pending x /\ pending x <> 0).
Proof.
  intros Hc. cbv zeta. unfold compute_pending_interrupts. cbv zeta.
  assert (Hp : Z.land (Z.land (co_csr c R_mie) (co_csr c R_mip)) MIE_MASK = Z.land (co_csr c R_mie) (co_csr c R_mip))
    by apply land_sub, (inv_csr c Hc R_mie).
  set (p := Z.land (co_csr c R_mie) (co_csr c R_mip)) in *. clearbody p.
  destruct (p =? 0); [by left|].
  destruct (Z.ldiff p _ =? 0) eqn:E1; cbn [negb andb].
  2: destruct (_ || _); [right; split_and!; [by left|by apply ldiff_sub|by bprop]|].
  all: destruct (Z.ldiff (Z.land p _) _ =? 0) eqn:E2; cbn [negb andb].
  all: try (destruct (_ || _); [right; split_and!; [by right; left|by apply ldiff_sub, land_sub|by bprop]|]).
  all: destruct (Z.land (Z.land p _) _ =? 0) eqn:E3; cbn [negb andb]; [by left|].
  all: destruct (_ && _); [right; split_and!; [by right; right|by apply land_sub, land_sub|by bprop]|by left].
Qed.

Lemma take_interrupt_keeps (F : failure -> Prop) : keeps F (take_interrupt (Mem := Mem)).
Proof.
  unfold take_interrupt. apply keeps_gets. intros c Hc. destruct (compute_pending_ok c Hc) as [Hn|(Hm & Hp & Hz)].
  - rewrite Hn. exact Hc.
  - set (x := compute_pending_interrupts c) in *. clearbody x. destruct (pending_bits _ Hp Hz) as (f & exc & Hf & He).
    assert (Hk : keeps (Mem := Mem) F (bind (prepare_interrupt x) (fun _ => switch_to_trap_handler (target_mode x)))).
    { apply keeps_bind; [|intros _; apply switch_keeps; [|by destruct Hm as [->|[->| ->]]]; unfold MachineMode, SupervisorMode, UserMode in *; lia].
      unfold prepare_interrupt. rewrite Hf. destruct Hm as [->|[->| ->]]; cbv [cause_of MachineMode SupervisorMode UserMode Z.eqb Pos.eqb]; keeps_steps. }
    apply (keeps_when F _ _ (fun _ => Hk) c Hc).
Qed.

(** ** A step *)

Lemma prepare_trap_ok reason mtval c : core_inv c -> 0 <= reason < 16 -> fits 64 mtval ->
  wp (prepare_trap reason mtval) (fun t c' => core_inv c' /\ 0 <= t <= 3 /\ t <> HypervisorMode) (fun _ _ _ => False)
    (fun f => f = AssertionFailed /\ co_prv c = HypervisorMode) c.
Proof.
  intros Hc Hr Hv.
  assert (Hset : forall cause tval t (c' : Core Mem), core_inv c' -> plain cause = true -> plain tval = true -> t = MachineMode \/ t = SupervisorMode \/ t = UserMode ->
    wp (bind (set_cause cause tval reason mtval) (fun _ => ret t)) (fun t c' => core_inv c' /\ 0 <= t <= 3 /\ t <> HypervisorMode)
      (fun _ _ _ => False) (fun f => f = AssertionFailed /\ co_prv c = HypervisorMode) c').
  { intros cause tval t c' Hc' H1 H2 Ht. unfold set_cause. wp_steps. split.
    - apply inv_csr_set; [|by apply plain_ok]. apply inv_csr_fset; [done|done|]. by apply inv_csr_fset.
    - unfold MachineMode, SupervisorMode, UserMode, HypervisorMode in *. lia. }
  assert (Hpc : core_inv (with_pc (co_last_pc c) c)) by (apply inv_with_pc; [done|apply Hc..]).
  unfold prepare_trap. apply wp_bind, wp_gets, wp_bind, wp_modify, wp_bind, wp_gets, wp_bind, wp_gets, wp_bind, wp_gets. cbv zeta.
  apply wp_if; intros E1; [apply Hset; tauto|]. apply wp_if; intros E2; [apply Hset; tauto|].
  apply wp_bind, wp_assert; intros E3; [apply Hset; tauto|]. split; [done|].
  cbn [co_prv with_pc co_csr] in *. apply orb_false_iff in E1 as [E1 E1'], E2 as [E2 E2'].
  apply negb_false_iff in E1', E2'. rewrite E1', E2', !andb_true_r in E3.
  pose proof (inv_prv c Hc). unfold MachineMode, SupervisorMode, UserMode, HypervisorMode in *. bprop. lia.
Qed.

(** The instruction the program counter points to. *)
Definition next_instruction (c : Core Mem) : option (Mapping * Instruction) :=
  decode (mkInstruction (u32 (le_val (bus_read (co_pc c) 4 (co_mem c)).1))).

Definition core_ok (c : Core Mem) : Prop := core_inv c /\ regfile_read 0 c = 0.

(** What can end the simulation in a step from [c]. *)
Definition step_failure (c : Core Mem) (f : failure) : Prop :=
  exists op i, next_instruction c = Some (op, i) /\
    (failure_cause op i c f \/ f = AssertionFailed /\ co_prv c = HypervisorMode).

Lemma exec_step_ok c : core_inv c ->
  wp exec_step (fun _ c' => core_inv c')
    (fun r x c' => core_inv c' /\ co_regs c' = co_regs c /\ co_mem c' = (bus_read (co_pc c) 4 (co_mem c)).2
                   /\ co_prv c' = co_prv c /\ co_csr c' = co_csr c /\ co_last_pc c' = co_last_pc c
                   /\ 0 <= r < 16 /\ fits 64 x)
    (fun f => exists op i, next_instruction c = Some (op, i) /\ failure_cause op i c f) c.
Proof.
  intros Hc. unfold exec_step, load_instr. apply wp_bind, wp_gets, wp_bind, wp_bind.
  unfold wp at 1. unfold load_. unfold next_instruction.
  destruct (bus_read (co_pc c) 4 (co_mem c)) as [bs m] eqn:Eb. cbn [fst snd].
  apply wp_ret, wp_bind, wp_modify.
  destruct (decode_total (mkInstruction (u32 (le_val bs)))) as [[op i] Hd]. rewrite Hd.
  apply wp_bind, wp_modify, wp_bind, wp_modify. destruct Hc as [H1 H2 H3 [H4 H5] H6 H7].
  set (c1 := with_op op _). assert (Hc1 : core_inv c1).
  { constructor; cbn; try done. destruct (is_compressed _); (split; [rewrite even_wrap, Z.even_add, H4 by lia; done|by apply wrap_fits]). }
  pose proof (exec_op_keeps op i c1 Hc1) as Hk. pose proof (exec_op_clean op i c1 Hc1) as Hcl.
  unfold wp in *. destruct (exec_op op i c1) as [a c'|r x c'|f]; [exact Hk| |by exists op, i].
  destruct Hcl as (E1 & E2 & E3 & E4 & E5 & E6 & E7). split_and!; try done; apply E6.
Qed.

Lemma wp_catch m (Q : unit -> Core Mem -> Prop) T F c :
  wp m Q (fun r x c' => wp (bind (prepare_trap r x) switch_to_trap_handler) Q T F c') F c -> wp (catch_trap m) Q T F c.
Proof. unfold wp, catch_trap. by destruct (m c). Qed.

Lemma exec_step_total c : exists op i, next_instruction c = Some (op, i).
Proof. unfold next_instruction. destruct (decode_total (mkInstruction (u32 (le_val (bus_read (co_pc c) 4 (co_mem c)).1)))) as [[op i] Hd]. by exists op, i. Qed.

(** The handlers themselves do not trap. *)
Lemma switch_no_trap t c : wp (switch_to_trap_handler t) (fun _ _ => True) (fun _ _ _ => False) (fun _ => True) c.
Proof.
  unfold switch_to_trap_handler. apply wp_bind, wp_gets, wp_bind, wp_modify, wp_bind, wp_gets.
  apply wp_if; intros _; [exact I|].
  apply wp_if; intros _; [apply wp_bind, wp_assert; intros _; exact I|].
  apply wp_if; intros _; [apply wp_bind, wp_assert; intros _; exact I|exact I].
Qed.
Lemma take_interrupt_no_trap c : wp take_interrupt (fun _ _ => True) (fun _ _ _ => False) (fun _ => True) c.
Proof.
  unfold take_interrupt. apply wp_bind, wp_gets, wp_when; intros _; [|exact I]. apply wp_bind. unfold prepare_interrupt.
  destruct (List.find _ _) as [[f exc]|]; [|exact I]. destruct (cause_of _); [|exact I]. wp_steps. apply switch_no_trap.
Qed.

Lemma handled_step_ok c : core_inv c ->
  wp (catch_trap (bind exec_step (fun _ => take_interrupt))) (fun _ c' => core_inv c') (fun _ _ _ => False) (step_failure c) c.
Proof.
  intros Hc. destruct (exec_step_total c) as (op & i & Hn).
  apply wp_catch, wp_bind. eapply wp_mono; [by apply exec_step_ok|..]; cbv beta.
  - intros _ c' Hc'. pose proof (take_interrupt_keeps (fun _ => False) c' Hc') as Hk.
    pose proof (take_interrupt_no_trap c') as Ht. unfold wp in *. destruct (take_interrupt c'); [done|done|done].
  - intros r x c' (Hc' & _ & _ & Hprv & _ & _ & Hr & Hx). apply wp_bind.
    eapply wp_mono; [by apply prepare_trap_ok|..]; cbv beta; [|done|].
    + intros t c'' (Hc'' & Ht & Hh). pose proof (switch_keeps (fun _ => False) t Ht Hh c'' Hc'') as Hk.
      pose proof (switch_no_trap t c'') as Hnt. unfold wp in *. destruct (switch_to_trap_handler t c''); done.
    + intros f [-> Hp]. exists op, i. split; [done|]. right. by rewrite Hprv in Hp.
  - intros f (op' & i' & Hd & Hf). exists op', i'. auto.
Qed.

(** C11. A step of the core from a state with its invariant: registers in the range of
    [int64_t] with x0 zero, the program counter and the exception program counters even,
    control registers in 64 bits. The step handles every trap itself and keeps the
    invariant, or it ends the simulation, and then for one of these causes: the
    instruction is an atomic or floating-point one; it accesses one of the CSRs 0x3A2
    and 0x3A3, which point past an array; it is a 32-bit shift by a register whose
    bit 5 is set; the core is in the reserved privilege level 2. No other assertion or
    exception of the code is reachable. *)
Theorem run_step_safe c : core_ok c ->
  match run_step c with
  | Ret _ c' => core_ok c'
  | Trap _ _ _ => False
  | Fail f => step_failure c f
  end.
Proof.
  intros [Hc H0].
  change (wp run_step (fun _ c' => core_ok c') (fun _ _ _ => False) (step_failure c) c).
  unfold run_step. apply wp_bind, wp_gets, wp_bind. unfold id. rewrite H0. apply wp_ret.
  apply wp_if; intros _; [split; [destruct Hc; by constructor|done]|].
  apply wp_bind, wp_modify, wp_bind.
  assert (Hc1 : core_inv (with_last_pc (co_pc c) c)) by (destruct Hc; by constructor).
  eapply wp_mono; [by apply handled_step_ok|..]; cbv beta; [|done|done].
  intros _ c' Hc'. apply wp_bind, wp_modify, wp_bind, wp_bind, wp_gets.
  pose proof (inv_regfile_write 0 0 c' Hc') as Hw.
  assert (Hz : regfile_read 0 (regfile_write 0 0 c') = 0).
  { unfold regfile_read, regfile_write. cbn. destruct Hc' as [Hl]. by destruct (co_regs c'). }
  set (c2 := regfile_write 0 0 c') in *. clearbody c2.
  assert (Hst : forall s c3, core_ok c3 -> core_ok (with_status s c3)) by (intros s c3 [[] ?]; split; [by constructor|done]).
  assert (Hss : forall c3, core_inv c3 -> core_inv (with_single_step false (with_status HitBreakpoint c3)))
    by (intros c3 []; by constructor).
  assert (Hcnt : forall c3, core_ok c3 -> wp (bind counter_update (fun _ => bind (gets co_single_step) (fun single =>
      when single (bind (modify (with_status HitBreakpoint)) (fun _ => modify (with_single_step false))))))
    (fun _ c' => core_ok c') (fun _ _ _ => False) (step_failure c) c3).
  { intros c3 [H3 H3']. apply wp_bind. unfold counter_update. wp_steps.
    all: split; [|exact H3'].
    all: assert (Hi : core_inv (with_csr (upd R_instret (co_csr c3 R_instret +% 1) (co_csr c3)) c3))
      by (apply inv_csr_set; [done|]; apply plain_ok; [done|]; by apply wrap_fits).
    all: first [ exact Hi | exact H3 | apply Hss, Hi | apply Hss, H3 ]. }
  apply wp_when; intros _; [apply wp_modify|]; apply Hcnt; [apply Hst|]; by split.
Qed.
End Safe.

(** At reset, on a memory of [addi x1, x1, 1] instructions. *)
Lemma run_step_safe_witness :
  core_ok (core_init 0 (FlatBus.filled 0x00108093)) /\
  match run_step (core_init 0 (FlatBus.filled 0x00108093)) with
  | Ret _ c' => core_ok c'
  | Trap _ _ _ => False
  | Fail f => step_failure (core_init 0 (FlatBus.filled 0x00108093)) f
  end.
Proof.
  assert (Hi : core_ok (core_init 0 (FlatBus.filled 0x00108093))) by (split; [by apply core_init_inv|done]).
  split; [exact Hi|]. exact (run_step_safe _ Hi).
Defined.
