(* ===== verification/Rv64Isa.v ===== *)
(** * Values of the integer instructions

    The integer instructions as the RISC-V manual defines them, on 64-bit words, and
    the values the core writes. *)

From S2P Require Import Prelude BitSolve Rv64Const Rv64Instr Rv64Csr Rv64Decode Rv64Compressed Rv64Core Rv64Inv Rv64Safe.
Import Opcode.

(** ** The manual *)

Definition sext32 (v : Z) : Z := u64 (s32 v).

(** The word written to [rd], from the words of [rs1] and [rs2], the address of the
    instruction, its immediate and its shift amount. *)
Definition isa_value (op : Mapping) (pc imm sh x y : Z) : option Z :=
  match op with
  | ADDI => Some (u64 (x + imm))
  | SLTI => Some (if s64 x <? imm then 1 else 0)
  | SLTIU => Some (if x <? u64 imm then 1 else 0)
  | XORI => Some (Z.lxor x (u64 imm))
  | ORI => Some (Z.lor x (u64 imm))
  | ANDI => Some (Z.land x (u64 imm))
  | ADD => Some (u64 (x + y))
  | SUB => Some (u64 (x - y))
  | SLL => Some (u64 (x * 2 ^ (y mod 64)))
  | SLT => Some (if s64 x <? s64 y then 1 else 0)
  | SLTU => Some (if x <? y then 1 else 0)
  | SRL => Some (x / 2 ^ (y mod 64))
  | SRA => Some (u64 (s64 x / 2 ^ (y mod 64)))
  | XOR => Some (Z.lxor x y)
  | OR => Some (Z.lor x y)
  | AND => Some (Z.land x y)
  | SLLI => Some (u64 (x * 2 ^ sh))
  | SRLI => Some (x / 2 ^ sh)
  | SRAI => Some (u64 (s64 x / 2 ^ sh))
  | LUI => Some (u64 imm)
  | AUIPC => Some (u64 (pc + imm))
  | ADDIW => Some (sext32 (x + imm))
  | SLLIW => Some (sext32 (x * 2 ^ (sh mod 32)))
  | SRLIW => Some (sext32 (u32 x / 2 ^ (sh mod 32)))
  | SRAIW => Some (sext32 (s32 x / 2 ^ (sh mod 32)))
  | ADDW => Some (sext32 (x + y))
  | SUBW => Some (sext32 (x - y))
  | SLLW => Some (sext32 (x * 2 ^ (y mod 32)))
  | SRLW => Some (sext32 (u32 x / 2 ^ (y mod 32)))
  | SRAW => Some (sext32 (s32 x / 2 ^ (y mod 32)))
  | MUL => Some (u64 (x * y))
  | MULH => Some (u64 (s64 x * s64 y / 2 ^ 64))
  | MULHU => Some (x * y / 2 ^ 64)
  | MULHSU => Some (u64 (s64 x * y / 2 ^ 64))
  | DIV => Some (if y =? 0 then 2 ^ 64 - 1 else u64 (Z.quot (s64 x) (s64 y)))
  | DIVU => Some (if y =? 0 then 2 ^ 64 - 1 else x / y)
  | REM => Some (if y =? 0 then x else u64 (Z.rem (s64 x) (s64 y)))
  | REMU => Some (if y =? 0 then x else x mod y)
  | MULW => Some (sext32 (x * y))
  | DIVW => Some (if u32 y =? 0 then 2 ^ 64 - 1 else sext32 (Z.quot (s32 x) (s32 y)))
  | DIVUW => Some (if u32 y =? 0 then 2 ^ 64 - 1 else sext32 (u32 x / u32 y))
  | REMW => Some (if u32 y =? 0 then sext32 x else sext32 (Z.rem (s32 x) (s32 y)))
  | REMUW => Some (if u32 y =? 0 then sext32 x else sext32 (u32 x mod u32 y))
  | _ => None
  end.

(** The immediate of the instruction format. *)
Definition imm_of (op : Mapping) (i : Instruction) : Z := match op with LUI | AUIPC => U_imm i | _ => I_imm i end.

(** ** Words and their signed readings *)

Lemma swrap_cong w a b : a mod 2 ^ w = b mod 2 ^ w -> swrap w a = swrap w b.
Proof. intros He. unfold swrap. by rewrite He. Qed.
Lemma swrap_wrap w a : 0 <= w -> swrap w (wrap w a) = swrap w a.
Proof. intros Hw. apply swrap_cong. unfold wrap. apply Z.mod_mod. lia. Qed.
Lemma wrap_swrap w a : 0 < w -> wrap w (swrap w a) = wrap w a.
Proof.
  intros Hw. apply Z.bits_inj'. intros n Hn. rewrite !testbit_wrap, testbit_swrap by lia.
  by destruct (n <? w).
Qed.
Lemma swrap_small w a : 0 < w -> - 2 ^ (w - 1) <= a < 2 ^ (w - 1) -> swrap w a = a.
Proof.
  intros Hw Ha. assert (Hp : 2 ^ w = 2 * 2 ^ (w - 1)) by (rewrite <- Z.pow_succ_r by lia; f_equal; lia).
  unfold swrap. cbv zeta. destruct (Z.lt_ge_cases a 0) as [Hn|Hn].
  - replace (a mod 2 ^ w) with (a + 2 ^ w) by (apply Z.mod_unique with (q := -1); lia).
    destruct (Z.ltb_spec (a + 2 ^ w) (2 ^ (w - 1))); lia.
  - rewrite Z.mod_small by lia. destruct (Z.ltb_spec a (2 ^ (w - 1))); lia.
Qed.
Lemma wrap_wrap_le v w a : 0 <= v <= w -> wrap v (wrap w a) = wrap v a.
Proof.
  intros Hv. apply Z.bits_inj'. intros n Hn. rewrite !testbit_wrap by lia.
  destruct (Z.ltb_spec n v); [|done]. by rewrite (proj2 (Z.ltb_lt n w)) by lia.
Qed.
Lemma swrap_wrap_le v w a : 0 < v <= w -> swrap v (wrap w a) = swrap v a.
Proof. intros Hv. rewrite <- swrap_wrap, wrap_wrap_le, swrap_wrap by lia. done. Qed.

Lemma swrap_add w a b : 0 <= w -> swrap w (wrap w a + b) = swrap w (a + b).
Proof. intros Hw. apply swrap_cong. unfold wrap. apply Z.add_mod_idemp_l. lia. Qed.
Lemma swrap_mul w a b : 0 <= w -> swrap w (wrap w a * b) = swrap w (a * b).
Proof. intros Hw. apply swrap_cong. unfold wrap. apply Z.mul_mod_idemp_l. lia. Qed.
Lemma swrap_mul_r w a b : 0 <= w -> swrap w (a * wrap w b) = swrap w (a * b).
Proof. intros Hw. rewrite Z.mul_comm, swrap_mul by done. by rewrite Z.mul_comm. Qed.
Lemma swrap_add_r w a b : 0 <= w -> swrap w (a + wrap w b) = swrap w (a + b).
Proof. intros Hw. rewrite Z.add_comm, swrap_add by done. by rewrite Z.add_comm. Qed.
Lemma swrap_sub w a b : 0 <= w -> swrap w (wrap w a - wrap w b) = swrap w (a - b).
Proof. intros Hw. apply swrap_cong. unfold wrap. by rewrite <- Zminus_mod. Qed.

Lemma swrap_add_s w a b : 0 < w -> swrap w (swrap w a + swrap w b) = swrap w (a + b).
Proof.
  intros Hw. rewrite <- (swrap_add w (swrap w a)), <- (swrap_add_r w _ (swrap w b)) by lia.
  rewrite !wrap_swrap, swrap_add, swrap_add_r by lia. done.
Qed.
Lemma swrap_sub_s w a b : 0 < w -> swrap w (swrap w a - swrap w b) = swrap w (a - b).
Proof. intros Hw. rewrite <- swrap_sub, !wrap_swrap, swrap_sub by lia. done. Qed.
Lemma swrap_low v w a b : 0 < v <= w -> swrap w a = swrap w b -> swrap v a = swrap v b.
Proof.
  intros Hv He. apply swrap_cong. change (wrap v a = wrap v b).
  rewrite <- (wrap_wrap_le v w a), <- (wrap_wrap_le v w b) by lia. by rewrite <- (wrap_swrap w a), <- (wrap_swrap w b), He by lia.
Qed.

Lemma wrap_zero w a : 0 < w -> - 2 ^ (w - 1) <= a < 2 ^ (w - 1) -> (wrap w a =? 0) = (a =? 0).
Proof.
  intros Hw Ha. apply Bool.eq_iff_eq_true. rewrite !Z.eqb_eq. split; [|intros ->; by apply Z.mod_0_l; lia].
  intros Hz. rewrite <- (swrap_small w a), <- swrap_wrap, Hz by lia. rewrite swrap_small by lia. done.
Qed.

(** Quotient and remainder of signed numbers are in range but for one quotient. *)
Lemma quot_range m a b : 0 < m -> - m <= a < m -> b <> 0 -> ~ (a = - m /\ b = -1) -> - m <= Z.quot a b < m.
Proof.
  intros Hm Ha Hb Ho. assert (Habs : Z.abs (Z.quot a b) <= Z.abs a).
  { rewrite <- Z.quot_abs by done. apply Z.quot_le_upper_bound; [lia|]. nia. }
  destruct (Z.eq_dec a (- m)) as [->|Hne]; [|lia]. split; [lia|].
  destruct (Z.eq_dec b 1) as [->|H1]; [rewrite Z.quot_1_r; lia|].
  assert (2 <= Z.abs b) by (destruct (Z.eq_dec b (-1)); lia).
  assert (Z.abs (Z.quot (- m) b) < m); [|lia]. rewrite <- Z.quot_abs by done. apply Z.quot_lt_upper_bound; lia || nia.
Qed.
Lemma rem_range m a b : - m <= a < m -> b <> 0 -> - m <= Z.rem a b < m.
Proof.
  intros Ha Hb. destruct (Z.lt_ge_cases a 0) as [Hn|Hn].
  - pose proof (Z.rem_nonpos a b Hb ltac:(lia)). pose proof (Z.rem_bound_abs a b Hb).
    assert (a <= Z.rem a b); [|lia]. rewrite <- (Z.opp_involutive a). rewrite Z.rem_opp_l by done.
    assert (Z.rem (- a) b <= - a); [|lia]. rewrite <- (Z.rem_abs_r (- a) b) by done. apply Z.rem_le; lia.
  - pose proof (Z.rem_nonneg a b Hb ltac:(lia)). assert (Z.rem a b <= a); [|lia].
    rewrite <- (Z.rem_abs_r a b) by done. apply Z.rem_le; lia.
Qed.

Lemma shamt_mod b : regfile_shamt b = u64 b mod 64.
Proof.
  unfold regfile_shamt, BIT_RANGE. change (s32 _) with (Z.ones 6). rewrite Z.land_ones by lia.
  change (2 ^ 6) with 64. change 64 with (2 ^ 6). symmetry. apply (wrap_wrap_le 6 64). lia.
Qed.
Lemma shamt_w_mod b : Z.testbit b 5 = false -> regfile_shamt_w b = u64 b mod 32.
Proof.
  intros Hb. change (regfile_shamt_w b) with (regfile_shamt b). rewrite shamt_mod.
  change 64 with (2 ^ 6). change 32 with (2 ^ 5). apply Z.bits_inj'. intros n Hn.
  change (Z.testbit (wrap 6 (wrap 64 b)) n = Z.testbit (wrap 5 (wrap 64 b)) n). rewrite !testbit_wrap by lia.
  destruct (decide (n = 5)) as [->|H5]; [by rewrite Hb|].
  destruct (Z.ltb_spec n 6), (Z.ltb_spec n 5); try done; lia.
Qed.
Lemma land_63_large b : Z.testbit b 5 = true -> regfile_shamt_w b <? 32 = false.
Proof.
  intros Hb. apply Z.ltb_ge. change (regfile_shamt_w b) with (regfile_shamt b). rewrite shamt_mod.
  change 64 with (2 ^ 6). change (u64 b mod 2 ^ 6) with (wrap 6 (wrap 64 b)).
  destruct (Z.le_gt_cases 32 (wrap 6 (wrap 64 b))) as [|Hlt]; [done|].
  assert (Ht : Z.testbit (wrap 6 (wrap 64 b)) 5 = true) by (by rewrite !testbit_wrap by lia).
  assert (H0 : 0 <= wrap 6 (wrap 64 b)) by (apply Z.mod_pos_bound; lia).
  rewrite <- (wrap_small 5 (wrap 6 (wrap 64 b))), testbit_wrap in Ht by lia. done.
Qed.
Lemma instr_shamt_w i : shamt_w i = shamt i mod 32.
Proof.
  replace (shamt i mod 32) with (Z.land (shamt i) 31) by (change 31 with (Z.ones 5); by rewrite Z.land_ones).
  unfold shamt_w, shamt, BIT_RANGE. bit_solve.
Qed.
Lemma instr_shamt_range i : 0 <= shamt i < 64.
Proof.
  replace (shamt i) with (Z.land (Z.shiftr i 20) (2 ^ 6 - 1)); [apply (land_ones_range _ 6); lia|].
  unfold shamt, BIT_RANGE. bit_solve.
Qed.

(** ** Values *)

Section Values.
Context {Mem : Type} `{Bus Mem}.

Lemma write_cong r x y (c : Core Mem) : s64 x = s64 y -> Ret tt (regfile_write r x c) = Ret tt (regfile_write r y c).
Proof. intros He. unfold regfile_write. by rewrite He. Qed.

Lemma read_range index (c : Core Mem) : core_inv c -> - 2 ^ 63 <= regfile_read index c < 2 ^ 63.
Proof.
  intros Hc. unfold regfile_read. destruct (nth_in_or_default (Z.to_nat index) (co_regs c) 0) as [Hin| ->]; [|lia].
  apply list_elem_of_In in Hin. exact (proj1 (Forall_forall _ _) (inv_range c Hc) _ Hin).
Qed.

Lemma shift_nonneg b : 0 <= u64 b mod 64.
Proof. apply Z.mod_pos_bound. lia. Qed.
Lemma shift_w_nonneg x : 0 <= x mod 32.
Proof. apply Z.mod_pos_bound. lia. Qed.

(** Reduces the instruction [op] of the group [grp] to the equation of its values. *)
Ltac value_step a b grp :=
  unfold grp;
  cbn -[regfile_write swrap wrap Z.pow Z.shiftl Z.shiftr Z.lxor Z.lor Z.land Z.add Z.sub Z.mul Z.div Z.modulo Z.quot
        Z.rem isa_value regfile_shamt regfile_shamt_w sext32];
  fold a; fold b.

(** The instructions of the base set. *)
Definition alu_op (op : Mapping) : bool :=
  match op with
  | ADDI | SLTI | SLTIU | XORI | ORI | ANDI | ADD | SUB | SLL | SLT | SLTU | SRL | SRA | XOR | OR | AND | SLLI
  | SRLI | SRAI | LUI | AUIPC => true
  | _ => false
  end.

Section Value.
Variables (i : Instruction) (c : Core Mem) (op : Mapping) (v : Z).
Let a := regfile_read (rs1 i) c.
Let b := regfile_read (rs2 i) c.
Hypothesis Hc : core_inv c.
Hypothesis Hv : isa_value op (co_last_pc c) (imm_of op i) (shamt i) (u64 a) (u64 b) = Some v.

Lemma alu_value : alu_op op = true -> exec_alu op i c = Ret tt (regfile_write (rd i) v c).
Proof.
  intros Hop. pose proof (read_range (rs1 i) c Hc) as Ha. pose proof (read_range (rs2 i) c Hc) as Hb.
  fold a in Ha. fold b in Hb. assert (Ea : s64 a = a) by (by apply swrap_small).
  assert (Eb : s64 b = b) by (by apply swrap_small).
  pose proof (instr_shamt_range i) as Hs. pose proof (shift_nonneg b) as Hsb.
  destruct op; try discriminate Hop; cbn [isa_value imm_of] in Hv; injection Hv as <-.
  all: value_step a b (@exec_alu); apply write_cong; rewrite ?swrap_wrap by lia.
  all: rewrite ?shamt_mod, ?Ea, ?Eb, ?Z.shiftl_mul_pow2, ?Z.shiftr_div_pow2, ?swrap_add, ?swrap_add_r, ?swrap_sub, ?swrap_mul by lia.
  all: first [ reflexivity | bit_solve ].
Qed.

Lemma swrap_sext32 x : s64 (sext32 x) = s32 x.
Proof.
  unfold sext32. rewrite swrap_wrap by lia. pose proof (swrap_range 32 x ltac:(lia)). apply swrap_small; lia.
Qed.
Lemma s64_s32 x : s64 (s32 x) = s32 x.
Proof. pose proof (swrap_range 32 x ltac:(lia)). apply swrap_small; lia. Qed.

Definition alu_w_op (op : Mapping) : bool :=
  match op with ADDIW | SLLIW | SRLIW | SRAIW | ADDW | SUBW | SLLW | SRLW | SRAW => true | _ => false end.

Lemma alu_w_value : alu_w_op op = true -> (shift_w_op op = true -> Z.testbit b 5 = false) ->
  exec_alu_w op i c = Ret tt (regfile_write (rd i) v c).
Proof.
  intros Hop H5. pose proof (shift_w_nonneg (u64 b)) as Hsb. pose proof (shift_w_nonneg (shamt i)) as Hsi.
  assert (Hlt : shift_w_op op = true -> regfile_shamt_w b <? 32 = true)
    by (intros Ho; apply Z.ltb_lt, land_63_small, H5, Ho).
  destruct op; try discriminate Hop; cbn [isa_value imm_of] in Hv; injection Hv as <-.
  all: value_step a b (@exec_alu_w); rewrite ?Hlt by reflexivity; apply write_cong; rewrite swrap_sext32, s64_s32.
  all: rewrite ?instr_shamt_w; try rewrite shamt_w_mod by (apply H5; reflexivity).
  all: rewrite ?swrap_wrap, ?Z.shiftl_mul_pow2, ?Z.shiftr_div_pow2, ?swrap_add_s, ?swrap_sub_s, ?swrap_mul, ?wrap_wrap_le, ?swrap_wrap_le by lia.
  all: try reflexivity.
  all: symmetry; apply (swrap_low 32 64); [lia|]; rewrite ?swrap_sub, ?swrap_add, ?swrap_add_r, ?swrap_mul by lia; reflexivity.
Qed.

Definition muldiv_op (op : Mapping) : bool :=
  match op with
  | MUL | MULH | MULHU | MULHSU | DIV | DIVU | REM | REMU | MULW | DIVW | DIVUW | REMW | REMUW => true
  | _ => false
  end.

Lemma high_half p : s64 (Z.shiftr (swrap 128 p) 64) = s64 (Z.shiftr p 64).
Proof. bit_solve. Qed.

Lemma muldiv_value : muldiv_op op = true -> exec_muldiv op i c = Ret tt (regfile_write (rd i) v c).
Proof.
  intros Hop. pose proof (read_range (rs1 i) c Hc) as Ha. pose proof (read_range (rs2 i) c Hc) as Hb.
  fold a in Ha. fold b in Hb. assert (Ea : s64 a = a) by (by apply swrap_small).
  assert (Eb : s64 b = b) by (by apply swrap_small).
  assert (Zb : (u64 b =? 0) = (b =? 0)) by (by apply wrap_zero).
  assert (Zw : (u32 (u64 b) =? 0) = (s32 b =? 0)).
  { rewrite wrap_wrap_le, <- wrap_swrap by lia. apply wrap_zero; [lia|]. apply swrap_range. lia. }
  pose proof (swrap_range 32 a ltac:(lia)) as Hwa. pose proof (swrap_range 32 b ltac:(lia)) as Hwb.
  destruct op; try discriminate Hop; cbn [isa_value imm_of] in Hv; injection Hv as <-.
  all: value_step a b (@exec_muldiv); apply write_cong.
  all: rewrite ?Zb, ?Zw, ?swrap_wrap, ?(swrap_mul 128), ?high_half, ?Ea, ?Eb, ?Z.shiftr_div_pow2 by lia; try reflexivity.
  - by rewrite swrap_mul, swrap_mul_r by lia.
  - destruct (b =? 0) eqn:E0; [reflexivity|]. rewrite swrap_wrap by lia. destruct (_ && _) eqn:Eo; [|reflexivity].
    unfold INT64_MIN in Eo. bprop. by replace a with (- 2 ^ 63); replace b with (-1).
  - by destruct (b =? 0).
  - destruct (b =? 0) eqn:E0; rewrite swrap_wrap by lia; [reflexivity|]. destruct (_ && _) eqn:Eo; [|reflexivity].
    unfold INT64_MIN in Eo. bprop. by replace a with (- 2 ^ 63); replace b with (-1).
  - destruct (b =? 0); [by rewrite swrap_wrap by lia|reflexivity].
  - rewrite s64_s32, swrap_sext32. apply (swrap_low 32 64); [lia|]. rewrite <- (swrap_wrap 64 (swrap 64 _)), wrap_swrap by lia.
    by rewrite swrap_wrap, swrap_mul, swrap_mul_r by lia.
  - destruct (s32 b =? 0) eqn:E0; [reflexivity|]. rewrite swrap_sext32, !swrap_wrap_le by lia.
    unfold INT32_MIN in *. destruct (_ && _) eqn:Eo; bprop.
    + rewrite s64_s32. by replace (s32 a) with (- 2 ^ 31); replace (s32 b) with (-1).
    + assert (Hq : - 2 ^ 31 <= Z.quot (s32 a) (s32 b) < 2 ^ 31).
      { apply quot_range; [lia|exact Hwa|done|]. apply andb_false_iff in Eo. intros [? ?]. destruct Eo; bprop; lia. }
      by rewrite (swrap_small 64 (Z.quot _ _)), (swrap_small 32 (Z.quot _ _)) by lia.
  - destruct (s32 b =? 0); [reflexivity|]. by rewrite swrap_sext32, s64_s32, !wrap_swrap, !wrap_wrap_le by lia.
  - destruct (s32 b =? 0) eqn:E0; [by rewrite swrap_sext32, s64_s32, swrap_wrap_le by lia|].
    rewrite swrap_sext32, !swrap_wrap_le by lia. unfold INT32_MIN in *. destruct (_ && _) eqn:Eo; bprop.
    + by replace (s32 a) with (- 2 ^ 31); replace (s32 b) with (-1).
    + assert (Hr : - 2 ^ 31 <= Z.rem (s32 a) (s32 b) < 2 ^ 31) by (by apply rem_range).
      by rewrite (swrap_small 64 (Z.rem _ _)), (swrap_small 32 (Z.rem _ _)) by lia.
  - destruct (s32 b =? 0); rewrite swrap_sext32, s64_s32, ?swrap_wrap_le by lia; [reflexivity|].
    by rewrite !wrap_swrap, !wrap_wrap_le by lia.
Qed.

(** C14. What every integer instruction (base set, 32-bit forms, multiplication and
    division) does, for all operands. It writes to its destination register the value the
    RISC-V manual defines: with the wrap-around of additions and products, the shift
    amounts, the upper halves of signed, unsigned and mixed products, and the results of
    divisions by zero and of the one quotient that overflows. There is one exception:
    SLLW, SRLW and SRAW take the amount from six bits of the register, where the manual
    takes five, and when bit 5 is set they shift a 32-bit value by 32 or more, which C++
    leaves undefined; here that is the failure [BadShift]. *)
Theorem isa_values :
  exec_op op i c = if shift_w_op op && Z.testbit b 5 then Fail BadShift else Ret tt (regfile_write (rd i) v c).
Proof.
  pose proof alu_value as H1. pose proof alu_w_value as H2. pose proof muldiv_value as H3.
  destruct (shift_w_op op && Z.testbit b 5) eqn:H5.
  - apply andb_prop in H5 as [Ho H5]. destruct op; try discriminate Ho; cbn [exec_op]; unfold exec_alu_w; cbn -[regfile_shamt_w]; fold b;
      by rewrite land_63_large.
  - assert (Hs : shift_w_op op = true -> Z.testbit b 5 = false) by (intros Ho; by rewrite Ho in H5).
    destruct op; try discriminate Hv; cbn [exec_op]; first [by apply H1 | by apply H2 | by apply H3].
Qed.
End Value.
End Values.

(** [mulhsu x3, x1, x2] of -2 and 2^64 - 1, after a reset. *)
Definition mulhsu_state : Core FlatBus.flat :=
  regfile_write 1 (-2) (regfile_write 2 (-1) (core_init 0 (FlatBus.filled 0))).
Lemma isa_values_witness :
  exec_op MULHSU 0x0220a1b3 mulhsu_state = Ret tt (regfile_write 3 (2 ^ 64 - 2) mulhsu_state).
Proof.
  apply (isa_values 0x0220a1b3 mulhsu_state MULHSU (2 ^ 64 - 2)); [|reflexivity].
  unfold mulhsu_state. by apply inv_regfile_write, inv_regfile_write, core_init_inv.
Defined.
