(* ===== verification/Rv64Priv.v ===== *)
(** * Privilege levels, traps and their return

    What a trap stores and where it goes, what the return from a handler restores, and
    what instructions in user mode can change. The levels are handled alike, with the
    registers and fields of a level named by functions of the level. *)

From S2P Require Import Prelude BitSolve Rv64Const Rv64Instr Rv64Csr Rv64Decode Rv64Compressed Rv64Core Rv64Inv Rv64Safe.
Import Opcode.

(** ** Bit fields *)

Lemma testbit_fget f reg n : 0 <= bf_lo f -> 0 <= bf_width f -> 0 <= n ->
  Z.testbit (fget f reg) n = (n <? bf_width f) && Z.testbit reg (n + bf_lo f).
Proof.
  intros Hl Hw Hn. unfold fget, get_field. rewrite Z.land_spec, Z.shiftr_spec, Z.testbit_ones_nonneg by done. apply andb_comm.
Qed.
Lemma testbit_fset f v reg n : 0 <= bf_lo f -> 0 <= bf_width f -> 0 <= n ->
  Z.testbit (fset f v reg) n =
  if (bf_lo f <=? n) && (n <? bf_lo f + bf_width f) then Z.testbit v (n - bf_lo f) else Z.testbit reg n.
Proof.
  intros Hl Hw Hn. unfold fset, set_field. rewrite Z.lor_spec, Z.ldiff_spec, !Z.shiftl_spec, Z.land_spec by done.
  destruct (Z.leb_spec (bf_lo f) n) as [Hle|Hgt]; cbn [andb].
  - rewrite Z.testbit_ones_nonneg by lia. destruct (Z.ltb_spec n (bf_lo f + bf_width f)), (Z.ltb_spec (n - bf_lo f) (bf_width f)); try lia.
    + by rewrite andb_false_r, andb_true_r.
    + by rewrite andb_false_r, andb_true_r, orb_false_r.
  - rewrite !(Z.testbit_neg_r _ (n - _)) by lia. by rewrite andb_false_l, andb_true_r, orb_false_r.
Qed.

Definition disjoint (f g : bitfield) : bool := (bf_lo f + bf_width f <=? bf_lo g) || (bf_lo g + bf_width g <=? bf_lo f).

Lemma fget_fset f v reg : field_fits f = true -> 0 <= v < 2 ^ bf_width f -> fget f (fset f v reg) = v.
Proof.
  unfold field_fits. intros Hf Hv. bprop. apply Z.bits_inj'. intros n Hn.
  rewrite testbit_fget, testbit_fset by lia. destruct (Z.ltb_spec n (bf_width f)) as [Hlt|Hge]; cbn [andb].
  - rewrite (proj2 (Z.leb_le _ _)), (proj2 (Z.ltb_lt _ _)) by lia. cbn [andb]. f_equal. lia.
  - symmetry. by apply (proj1 (fits_bits (bf_width f) v ltac:(lia)) Hv).
Qed.
Lemma fget_fset_other f g v reg : field_fits f = true -> field_fits g = true -> disjoint f g = true ->
  fget f (fset g v reg) = fget f reg.
Proof.
  unfold field_fits, disjoint. intros Hf Hg Hd. bprop. apply orb_true_iff in Hd. apply Z.bits_inj'. intros n Hn.
  rewrite !testbit_fget, testbit_fset by lia. destruct (Z.ltb_spec n (bf_width f)); cbn [andb]; [|done].
  destruct (Z.leb_spec (bf_lo g) (n + bf_lo f)), (Z.ltb_spec (n + bf_lo f) (bf_lo g + bf_width g)); cbn [andb]; try done.
  exfalso. destruct Hd; bprop; lia.
Qed.
Lemma fget_bound f reg : field_fits f = true -> 0 <= fget f reg < 2 ^ bf_width f.
Proof. unfold field_fits. intros Hf. bprop. by apply fget_range. Qed.

(** The bits of a register outside a mask are not changed by the assignment of a field
    inside it, nor by a masked write. *)
Definition field_mask (f : bitfield) : Z := Z.shiftl (Z.ones (bf_width f)) (bf_lo f).
Lemma ldiff_fset f v reg b : field_fits f = true -> Z.ldiff (field_mask f) b = 0 ->
  Z.ldiff (fset f v reg) b = Z.ldiff reg b.
Proof.
  unfold field_fits. intros Hf Hb. bprop. apply Z.bits_inj'. intros n Hn. rewrite !Z.ldiff_spec, testbit_fset by lia.
  destruct (Z.leb_spec (bf_lo f) n), (Z.ltb_spec n (bf_lo f + bf_width f)); cbn [andb]; try done.
  assert (Hbn : Z.testbit (Z.ldiff (field_mask f) b) n = false) by (rewrite Hb; apply Z.bits_0).
  unfold field_mask in Hbn. rewrite Z.ldiff_spec, Z.shiftl_spec, Z.testbit_ones_nonneg in Hbn by lia.
  rewrite (proj2 (Z.ltb_lt _ _)) in Hbn by lia. apply negb_false_iff in Hbn. by rewrite Hbn, !andb_false_r.
Qed.
Lemma ldiff_masked_write mask v reg b : Z.ldiff mask b = 0 -> Z.ldiff (masked_write mask v reg) b = Z.ldiff reg b.
Proof.
  intros Hb. apply Z.bits_inj'. intros n Hn. unfold masked_write. rewrite !Z.ldiff_spec, Z.lor_spec, Z.ldiff_spec, Z.land_spec.
  assert (Hbn : Z.testbit (Z.ldiff mask b) n = false) by (rewrite Hb; apply Z.bits_0). rewrite Z.ldiff_spec in Hbn.
  by destruct (Z.testbit mask n), (Z.testbit b n), (Z.testbit reg n), (Z.testbit v n).
Qed.
Lemma ldiff_weaken x y a b : Z.ldiff x a = Z.ldiff y a -> Z.ldiff x (Z.lor a b) = Z.ldiff y (Z.lor a b).
Proof. intros He. by rewrite <- !Z.ldiff_ldiff_l, He. Qed.

(** ** The registers and fields of a level *)

Definition handled (t : Z) : Prop := t = MachineMode \/ t = SupervisorMode \/ t = UserMode.
Definition pick {A} (m s u : A) (t : Z) : A := if t =? MachineMode then m else if t =? SupervisorMode then s else u.
Definition tvec_of := pick R_mtvec R_stvec R_utvec.
Definition epc_of := pick R_mepc R_sepc R_uepc.
Definition cause_reg := pick R_mcause R_scause R_ucause.
Definition tval_of := pick R_mtval R_stval R_utval.
Definition ie_of := pick csr_mstatus.mie csr_mstatus.sie csr_mstatus.uie.
Definition pie_of := pick csr_mstatus.mpie csr_mstatus.spie csr_mstatus.upie.
(** The level before the trap; there is no such field for a trap to user mode. *)
Definition previous (t ms : Z) : Z := pick (fget csr_mstatus.mpp ms) (fget csr_mstatus.spp ms) UserMode t.
Definition set_previous (t v ms : Z) : Z := pick (fset csr_mstatus.mpp v ms) (fset csr_mstatus.spp v ms) ms t.

(** [mstatus] after a trap to [t] from level [pp], and after the return. *)
Definition trap_mstatus (t pp ms : Z) : Z :=
  set_previous t pp (fset (ie_of t) 0 (fset (pie_of t) (fget (ie_of t) ms) ms)).
Definition return_mstatus (t ms : Z) : Z :=
  set_previous t UserMode (fset (pie_of t) 1 (fset (ie_of t) (fget (pie_of t) ms) ms)).

Lemma handled_cases (P : Z -> Prop) : P MachineMode -> P SupervisorMode -> P UserMode -> forall t, handled t -> P t.
Proof. by intros ??? t [->|[->| ->]]. Qed.

Lemma upd_same r v t : upd r v t r = v.
Proof. unfold upd. by rewrite decide_True. Qed.
Lemma upd_other r r' v t : r' <> r -> upd r v t r' = t r'.
Proof. intros Hr. unfold upd. by rewrite decide_False. Qed.

Section Priv.
Context {Mem : Type} `{Bus Mem}.
Implicit Types c : Core Mem.

(** Everything but the level, the program counter and the control registers. *)
Definition same_rest c c' : Prop :=
  c' = with_prv (co_prv c') (with_pc (co_pc c') (with_csr (co_csr c') c)).

(** What a trap to level [t] does. *)
Lemma switch_spec t c : handled t -> exists c', switch_to_trap_handler t c = Ret tt c' /\ same_rest c c' /\
  co_prv c' = t /\ co_pc c' = trap_vector (co_csr c (tvec_of t)) (co_csr c (cause_reg t)) /\
  co_csr c' R_mstatus = trap_mstatus t (co_prv c) (co_csr c R_mstatus) /\ co_csr c' (epc_of t) = co_pc c /\
  (forall r, r <> R_mstatus -> r <> epc_of t -> co_csr c' r = co_csr c r).
Proof.
  intros Ht. pattern t. revert t Ht. apply handled_cases; eexists; (split; [reflexivity|]).
  all: split_and!; try reflexivity; intros r H1 H2; cbn; by rewrite !upd_other.
Qed.

(** What the return from level [t] does. *)
Lemma return_spec t c : handled t -> core_inv c -> exists c', return_from_trap_handler t c = Ret tt c' /\ same_rest c c' /\
  co_prv c' = previous t (co_csr c R_mstatus) /\ co_pc c' = co_csr c (epc_of t) /\
  co_csr c' R_mstatus = return_mstatus t (co_csr c R_mstatus) /\
  (forall r, r <> R_mstatus -> co_csr c' r = co_csr c r).
Proof.
  intros Ht Hc. destruct (inv_csr c Hc R_misa) as [_ Hmisa]. unfold return_from_trap_handler, csr_get, bind, gets. rewrite Hmisa.
  pattern t. revert t Ht. apply handled_cases; eexists; (split; [reflexivity|]).
  all: split_and!; try reflexivity; intros r H1; cbn; by rewrite !upd_other.
Qed.

Ltac field_bound :=
  lazymatch goal with |- 0 <= fget ?f ?r < _ => exact (fget_bound f r eq_refl) | |- _ => cbn; lia end.
Ltac fields := repeat first [ rewrite fget_fset; [|reflexivity|field_bound] | rewrite fget_fset_other by reflexivity ].

(** The bits of [mstatus] that a trap to [t] and its return change. *)
Definition trap_bits : Z -> Z := pick 0x1888 0x122 0x11.

Lemma trap_mstatus_fields t pp ms : handled t -> 0 <= pp <= t -> let ms' := trap_mstatus t pp ms in
  fget (ie_of t) ms' = 0 /\ fget (pie_of t) ms' = fget (ie_of t) ms /\ previous t ms' = pp.
Proof.
  intros Ht. pattern t. revert t Ht. apply handled_cases; intros Hpp; cbv [trap_mstatus set_previous previous ie_of pie_of pick];
    cbn [MachineMode SupervisorMode UserMode Z.eqb Pos.eqb]; unfold MachineMode, SupervisorMode, UserMode in *.
  all: fields.
  all: split_and!; try reflexivity; lia.
Qed.
Lemma return_mstatus_ie t ms : handled t -> fget (ie_of t) (return_mstatus t ms) = fget (pie_of t) ms.
Proof.
  intros Ht. pattern t. revert t Ht. apply handled_cases; cbv [return_mstatus set_previous ie_of pie_of pick];
    cbn [MachineMode SupervisorMode UserMode Z.eqb Pos.eqb].
  all: fields.
  all: reflexivity.
Qed.
Lemma trap_mstatus_outside t pp ms : handled t -> Z.ldiff (trap_mstatus t pp ms) (trap_bits t) = Z.ldiff ms (trap_bits t).
Proof.
  intros Ht. pattern t. revert t Ht. apply handled_cases; cbv [trap_mstatus set_previous ie_of pie_of pick trap_bits];
    cbn [MachineMode SupervisorMode UserMode Z.eqb Pos.eqb]; by rewrite !ldiff_fset.
Qed.
Lemma return_mstatus_outside t ms : handled t -> Z.ldiff (return_mstatus t ms) (trap_bits t) = Z.ldiff ms (trap_bits t).
Proof.
  intros Ht. pattern t. revert t Ht. apply handled_cases; cbv [return_mstatus set_previous ie_of pie_of pick trap_bits];
    cbn [MachineMode SupervisorMode UserMode Z.eqb Pos.eqb]; by rewrite !ldiff_fset.
Qed.

(** A trap to a level that is at least the current one enters it with its interrupts
    disabled. A handler that ends with [mstatus] and the exception program counter as it
    found them, whatever else it changes, returns to the instruction, the level and the
    interrupt enable of before the trap, with its own registers and memory kept and the
    rest of [mstatus] unchanged. *)
Theorem trap_returns t c : handled t -> core_inv c -> co_prv c <= t ->
  exists c1, switch_to_trap_handler t c = Ret tt c1 /\ co_prv c1 = t /\ fget (ie_of t) (co_csr c1 R_mstatus) = 0 /\
  forall c2, core_inv c2 -> co_csr c2 R_mstatus = co_csr c1 R_mstatus -> co_csr c2 (epc_of t) = co_csr c1 (epc_of t) ->
  exists c3, return_from_trap_handler t c2 = Ret tt c3 /\ same_rest c2 c3 /\
    co_pc c3 = co_pc c /\ co_prv c3 = co_prv c /\
    fget (ie_of t) (co_csr c3 R_mstatus) = fget (ie_of t) (co_csr c R_mstatus) /\
    Z.ldiff (co_csr c3 R_mstatus) (trap_bits t) = Z.ldiff (co_csr c R_mstatus) (trap_bits t) /\
    (forall r, r <> R_mstatus -> co_csr c3 r = co_csr c2 r).
Proof.
  intros Ht Hc Hp. assert (Hpp : 0 <= co_prv c <= t) by (pose proof (inv_prv c Hc); lia).
  destruct (switch_spec t c Ht) as (c1 & E1 & _ & Hp1 & _ & Hms1 & Hepc1 & _).
  destruct (trap_mstatus_fields t (co_prv c) (co_csr c R_mstatus) Ht Hpp) as (Hie & Hpie & Hprev).
  exists c1. rewrite Hms1. split_and!; [done..|]. intros c2 Hc2 Hms2 Hepc2.
  destruct (return_spec t c2 Ht Hc2) as (c3 & E3 & Hs3 & Hp3 & Hpc3 & Hms3 & Hr3).
  exists c3. rewrite Hp3, Hpc3, Hms3, Hms2, Hepc2, Hepc1. split_and!; try done.
  - by rewrite return_mstatus_ie.
  - by rewrite return_mstatus_outside, trap_mstatus_outside.
Qed.

(** ** The delivery of a trap *)

(** The level a trap of code [r] in level [prv] is delegated to. *)
Definition trap_target (prv medeleg sedeleg r : Z) : Z :=
  if (prv =? MachineMode) || negb (Z.testbit medeleg r) then MachineMode
  else if (prv =? SupervisorMode) || negb (Z.testbit sedeleg r) then SupervisorMode else UserMode.
Lemma trap_target_handled prv m s r : handled (trap_target prv m s r).
Proof. unfold trap_target, handled. destruct (_ || _); [tauto|]. destruct (_ || _); tauto. Qed.

Lemma delegated_bit r x : 0 <= r < 16 -> (Z.land (u32 (Z.shiftl 1 r)) x =? 0) = negb (Z.testbit x r).
Proof.
  intros Hr. assert (E : u32 (Z.shiftl 1 r) = 2 ^ r).
  { rewrite Z.shiftl_1_l. apply Z.mod_small. split; [lia|]. apply Z.pow_lt_mono_r; lia. }
  rewrite E. destruct (Z.testbit x r) eqn:Ex; cbn [negb]; [apply Z.eqb_neq|apply Z.eqb_eq].
  - intros Hz. assert (Hb : Z.testbit (Z.land (2 ^ r) x) r = false) by (rewrite Hz; apply Z.bits_0).
    by rewrite Z.land_spec, Z.pow2_bits_true, Ex in Hb by lia.
  - apply Z.bits_inj'. intros n Hn. rewrite Z.land_spec, Z.bits_0, Z.pow2_bits_eqb by lia.
    by destruct (Z.eqb_spec r n) as [->|].
Qed.

Lemma set_cause_spec t r x c : handled t -> 0 <= r < 16 -> exists c', set_cause (cause_reg t) (tval_of t) r x c = Ret tt c' /\
  same_rest c c' /\ co_prv c' = co_prv c /\ co_pc c' = co_pc c /\
  fget csr_mcause.interrupt (co_csr c' (cause_reg t)) = 0 /\ fget csr_mcause.exception_code (co_csr c' (cause_reg t)) = r /\
  co_csr c' (tval_of t) = x /\ (forall q, q <> cause_reg t -> q <> tval_of t -> co_csr c' q = co_csr c q).
Proof.
  intros Ht Hr. pattern t. revert t Ht. apply handled_cases; eexists; (split; [reflexivity|]).
  all: split_and!; try reflexivity; [cbn -[upd fget fset]; repeat first [rewrite upd_same | rewrite upd_other by discriminate]; fields; reflexivity..|].
  all: intros q H1 H2; cbn; by rewrite !upd_other.
Qed.

Lemma prepare_trap_spec r x c : 0 <= r < 16 -> co_prv c <> HypervisorMode -> 0 <= co_prv c <= 3 ->
  let t := trap_target (co_prv c) (co_csr c R_medeleg) (co_csr c R_sedeleg) r in
  prepare_trap r x c = bind (set_cause (cause_reg t) (tval_of t) r x) (fun _ => ret t) (with_pc (co_last_pc c) c).
Proof.
  intros Hr Hh Hp. cbv zeta. unfold prepare_trap, trap_target, bind at 1 2 3 4 5, csr_get, gets, modify.
  cbv beta zeta. cbn [co_last_pc co_prv co_csr with_pc]. rewrite !delegated_bit, !negb_involutive by done.
  destruct (co_prv c =? MachineMode) eqn:EM; cbn [orb]; [done|].
  destruct (Z.testbit (co_csr c R_medeleg) r); cbn [negb]; [|done].
  destruct (co_prv c =? SupervisorMode) eqn:ES; cbn [orb]; [done|].
  destruct (Z.testbit (co_csr c R_sedeleg) r); cbn [negb]; [|done].
  replace (co_prv c =? UserMode) with true; [done|].
  unfold MachineMode, HypervisorMode, SupervisorMode, UserMode in *. symmetry. bprop. lia.
Qed.

(** What a step does once its instruction and a trap or interrupt are handled. *)
Definition after_step : act (Mem := Mem) unit :=
  bind (modify (regfile_write 0 0)) (fun _ =>
  bind (bind (gets co_shall_exit) (fun exit => when exit (modify (with_status Terminated)))) (fun _ =>
  bind counter_update (fun _ =>
  bind (gets co_single_step) (fun single =>
  when single (bind (modify (with_status HitBreakpoint)) (fun _ => modify (with_single_step false))))))).
Definition stopped c : bool := co_debug_mode c && existsb (Z.eqb (co_pc c)) (co_breakpoints c).
Lemma run_step_eq c : core_ok c -> stopped c = false ->
  run_step c = bind (catch_trap (bind exec_step (fun _ => take_interrupt))) (fun _ => after_step) (with_last_pc (co_pc c) c).
Proof. intros [_ H0] Hs. unfold stopped in Hs. unfold run_step, bind at 1 2, gets, id. by rewrite H0, Hs. Qed.

Lemma after_step_spec c : exists c', after_step c = Ret tt c' /\ co_regs c' = <[0%nat := 0]> (co_regs c) /\
  co_mem c' = co_mem c /\ co_prv c' = co_prv c /\ co_pc c' = co_pc c /\
  (forall q, q <> R_instret -> co_csr c' q = co_csr c q).
Proof.
  assert (Hw : wp after_step (fun _ c' => co_regs c' = <[0%nat := 0]> (co_regs c) /\ co_mem c' = co_mem c /\ co_prv c' = co_prv c
    /\ co_pc c' = co_pc c /\ (forall q, q <> R_instret -> co_csr c' q = co_csr c q)) (fun _ _ _ => False) (fun _ => False) c).
  { unfold after_step, counter_update. wp_steps; (split_and!; try reflexivity); intros q Hq; by apply upd_other. }
  unfold wp in Hw. destruct (after_step c) as [[] c'| |]; [|done..]. by exists c'.
Qed.

Lemma regs_zero c : core_ok c -> <[0%nat := 0]> (co_regs c) = co_regs c.
Proof.
  intros [Hc H0]. pose proof (inv_length c Hc) as Hl. unfold regfile_read in H0. destruct (co_regs c) as [|z l]; [done|]. change (nth (Z.to_nat 0) (z :: l) 0) with z in H0. by rewrite H0.
Qed.

Lemma same_rest_view c c' : same_rest c c' -> co_regs c' = co_regs c /\ co_mem c' = co_mem c.
Proof. intros Hs. split; [exact (f_equal co_regs Hs)|exact (f_equal co_mem Hs)]. Qed.

Lemma level_registers t : handled t -> forall q, In q [epc_of t; cause_reg t; tval_of t; tvec_of t] ->
  q <> R_mstatus /\ q <> R_instret.
Proof. intros Ht. pattern t. revert t Ht. apply handled_cases; cbn; intuition congruence. Qed.
Lemma level_registers_distinct t : handled t ->
  cause_reg t <> epc_of t /\ tval_of t <> epc_of t /\ tvec_of t <> epc_of t /\ tvec_of t <> cause_reg t /\
  tvec_of t <> tval_of t /\ R_mstatus <> cause_reg t /\ R_mstatus <> tval_of t.
Proof. intros Ht. pattern t. revert t Ht. apply handled_cases; cbn; intuition congruence. Qed.

(** C13. The delivery of a trap, as the privileged architecture defines it. The level is
    machine mode unless the trap is delegated; there the exception program counter is the
    address of the instruction, cause and value are those of the trap, [mstatus] keeps
    the level and interrupt enable of before, and execution goes on at the base of the
    vector. Registers, the other control registers but the counter, and memory are as
    they were before the instruction. *)
Theorem trap_delivery c r x c1 : core_ok c -> stopped c = false -> co_prv c <> HypervisorMode ->
  exec_step (with_last_pc (co_pc c) c) = Trap r x c1 ->
  let t := trap_target (co_prv c) (co_csr c R_medeleg) (co_csr c R_sedeleg) r in
  exists c', run_step c = Ret tt c' /\ co_prv c' = t /\
    co_pc c' = csr_mtvec.get_base_address (co_csr c (tvec_of t)) /\
    co_csr c' (epc_of t) = co_pc c /\
    fget csr_mcause.interrupt (co_csr c' (cause_reg t)) = 0 /\ fget csr_mcause.exception_code (co_csr c' (cause_reg t)) = r /\
    co_csr c' (tval_of t) = x /\
    co_csr c' R_mstatus = trap_mstatus t (co_prv c) (co_csr c R_mstatus) /\
    co_regs c' = co_regs c /\ co_mem c' = (bus_read (co_pc c) 4 (co_mem c)).2 /\
    (forall q, ~ In q [R_mstatus; epc_of t; cause_reg t; tval_of t; R_instret] -> co_csr c' q = co_csr c q).
Proof.
  intros Hok Hs Hh He t. pose proof (proj1 Hok) as Hc.
  assert (Hc0 : core_inv (with_last_pc (co_pc c) c)) by (destruct Hc; by constructor).
  pose proof (exec_step_ok _ Hc0) as Hx. unfold wp in Hx. rewrite He in Hx.
  destruct Hx as (Hc1 & Hregs & Hmem & Hprv & Hcsr & Hlast & Hr & _). cbn [co_regs co_mem co_prv co_csr co_last_pc co_pc with_last_pc] in *.
  assert (Ht : handled t) by apply trap_target_handled.
  destruct (set_cause_spec t r x (with_pc (co_last_pc c1) c1) Ht Hr) as (c2 & E2 & S2 & P2 & PC2 & I2 & C2 & T2 & O2).
  destruct (switch_spec t c2 Ht) as (c3 & E3 & S3 & P3 & PC3 & M3 & EP3 & O3).
  destruct (after_step_spec c3) as (c4 & E4 & R4 & M4 & P4 & PC4 & O4).
  exists c4. split.
  { rewrite run_step_eq by done. unfold bind at 1, catch_trap, bind at 1. rewrite He. unfold bind at 1.
    rewrite prepare_trap_spec; [|done|by rewrite Hprv|apply Hc1]. rewrite Hprv, Hcsr. fold t. unfold bind at 1. rewrite E2.
    unfold ret. by rewrite E3. }
  pose proof (same_rest_view _ _ S2) as [Rr2 Rm2]. pose proof (same_rest_view _ _ S3) as [Rr3 Rm3].
  destruct (level_registers_distinct t Ht) as (D1 & D2 & D3 & D4 & D5 & D6 & D7).
  assert (Hkeep : forall q, q <> R_mstatus -> q <> R_instret -> q <> epc_of t -> co_csr c4 q = co_csr c2 q)
    by (intros; by rewrite O4, O3).
  assert (Htv : co_csr c2 (tvec_of t) = co_csr c (tvec_of t)) by (rewrite O2 by done; by rewrite <- Hcsr).
  assert (Hlev := level_registers t Ht). split_and!.
  - by rewrite P4.
  - rewrite PC4, PC3, Htv. unfold trap_vector. by rewrite I2.
  - rewrite O4 by (apply Hlev; cbn; tauto). rewrite EP3, PC2. exact Hlast.
  - by rewrite Hkeep by (apply Hlev || done; cbn; tauto).
  - by rewrite Hkeep by (apply Hlev || done; cbn; tauto).
  - by rewrite Hkeep by (apply Hlev || done; cbn; tauto).
  - rewrite O4, M3, P2, O2 by done. cbn [co_prv co_csr with_pc]. by rewrite Hprv, Hcsr.
  - rewrite R4, Rr3, Rr2. cbn [co_regs with_pc]. rewrite Hregs. by apply regs_zero.
  - by rewrite M4, Rm3, Rm2.
  - intros q Hq. cbn in Hq. rewrite Hkeep, O2 by (intros ->; apply Hq; tauto). cbn [co_csr with_pc]. by rewrite Hcsr.
Qed.
End Priv.

(** A trap of user mode to machine mode. *)
Definition user_state : Core FlatBus.flat := with_prv UserMode (core_init 0 (FlatBus.filled 0x00000073)).
Lemma user_state_ok : core_ok user_state.
Proof. split; [|done]. by apply inv_with_prv; [apply core_init_inv|]. Qed.

Lemma trap_returns_witness : exists c1, switch_to_trap_handler MachineMode user_state = Ret tt c1 /\ co_prv c1 = MachineMode /\
  exists c3, return_from_trap_handler MachineMode c1 = Ret tt c3 /\ co_prv c3 = UserMode.
Proof.
  destruct (trap_returns MachineMode user_state) as (c1 & E1 & Hp1 & _ & Hret); [by left|apply user_state_ok|done|].
  exists c1. split_and!; [done..|]. destruct (Hret c1) as (c3 & E3 & _ & _ & Hp3 & _); [|done..|by exists c3].
  pose proof (switch_keeps (fun _ => False) MachineMode ltac:(done) ltac:(done) user_state (proj1 user_state_ok)) as Hk.
  unfold wp in Hk. by rewrite E1 in Hk.
Defined.

(** [ecall] in user mode, not delegated. *)
Lemma trap_delivery_witness : exists c', run_step user_state = Ret tt c' /\ co_prv c' = MachineMode /\ co_csr c' R_mepc = 0.
Proof.
  pose proof (trap_delivery user_state EXC_ECALL_U_MODE 0 _ user_state_ok eq_refl ltac:(discriminate) eq_refl) as Ht.
  destruct Ht as (c' & E & Hp & _ & He & _). exists c'. split_and!; [exact E|exact Hp|exact He].
Defined.
