(* ===== verification/Rv64User.v ===== *)
(** * What user mode can do

    The instructions of user mode change no level and no control register of the levels
    above, but for MRET and SRET, whose privilege the core does not test. *)

From S2P Require Import Prelude BitSolve Rv64Const Rv64Instr Rv64Csr Rv64Decode Rv64Compressed Rv64Core Rv64Inv Rv64Safe Rv64Priv.
Import Opcode.

(** The bits of a control register that belong to user mode. *)
Definition user_bits (r : csr_reg) : Z :=
  match r with
  | R_fcsr | R_utvec | R_uscratch | R_uepc | R_ucause | R_utval => -1
  | R_mstatus => USTATUS_MASK
  | R_mip => UIP_MASK
  | R_mie => UIE_MASK
  | _ => 0
  end.
(** Equal but for the bits of a mask per register. *)
Definition same_outside (m : csr_reg -> Z) (t t' : csr_table) : Prop := forall r, Z.ldiff (t' r) (m r) = Z.ldiff (t r) (m r).

Lemma same_outside_refl m t : same_outside m t t.
Proof. done. Qed.
Lemma same_outside_trans m t t' t'' : same_outside m t t' -> same_outside m t' t'' -> same_outside m t t''.
Proof. intros H1 H2 r. by rewrite H2. Qed.
#[global] Instance same_outside_preorder m : PreOrder (same_outside m).
Proof. split; [by intros t|intros t t' t''; apply same_outside_trans]. Qed.
Lemma same_outside_upd m r v t : Z.ldiff v (m r) = Z.ldiff (t r) (m r) -> same_outside m t (upd r v t).
Proof. intros Hv q. unfold upd. case_decide; [by subst|done]. Qed.
Lemma same_outside_weaken m m' t t' : same_outside m t t' -> same_outside (fun r => Z.lor (m r) (m' r)) t t'.
Proof. intros Hs r. apply ldiff_weaken, Hs. Qed.
(** A register without such bits is equal. *)
Lemma same_outside_eq m t t' r : same_outside m t t' -> m r = 0 -> t' r = t r.
Proof. intros Hs Hr. specialize (Hs r). by rewrite Hr, !Z.ldiff_0_r in Hs. Qed.

Section User.
Context {Mem : Type} `{Bus Mem}.
Implicit Types c : Core Mem.

Definition confined c c' : Prop := co_prv c' = co_prv c /\ same_outside user_bits (co_csr c) (co_csr c').

(** An operation that, started in user mode, is confined on return and on a trap. *)
Definition confines {A} (m : act A) : Prop :=
  forall c, co_prv c = UserMode -> wp m (fun _ c' => confined c c') (fun _ _ c' => confined c c') (fun _ => True) c.

Lemma confined_refl c : confined c c.
Proof. by split. Qed.
Lemma confined_trans c c' c'' : confined c c' -> confined c' c'' -> confined c c''.
Proof. intros [H1 H2] [H3 H4]. split; [congruence|by etrans]. Qed.

Lemma confines_bind {A B} (m : act A) (k : A -> act B) : confines m -> (forall a, confines (k a)) -> confines (bind m k).
Proof.
  intros Hm Hk c Hc. apply wp_bind. eapply wp_mono; [by apply Hm| |done..]. cbv beta. intros a c' Hc'.
  eapply wp_mono; [apply Hk; by rewrite (proj1 Hc')|..]; cbv beta; [|intros r v c''|done]; intros; by eapply confined_trans.
Qed.
Lemma confines_gets {A} (f : Core Mem -> A) : confines (gets f).
Proof. intros c _. apply confined_refl. Qed.
Lemma confines_get_prv {A} (k : Z -> act A) : confines (k UserMode) -> confines (bind (gets co_prv) k).
Proof. intros Hk c Hc. apply wp_bind, wp_gets. rewrite Hc. by apply Hk. Qed.
Lemma confines_ret {A} (a : A) : confines (ret a).
Proof. intros c _. apply confined_refl. Qed.
Lemma confines_fail {A} f : confines (fail (A := A) f).
Proof. done. Qed.
Lemma confines_trap {A} r v : confines (raise_trap (A := A) r v).
Proof. intros c _. apply confined_refl. Qed.
Lemma confines_modify (f : Core Mem -> Core Mem) : (forall c, co_prv (f c) = co_prv c /\ co_csr (f c) = co_csr c) -> confines (modify f).
Proof. intros Hf c _. destruct (Hf c) as [H1 H2]. split; [exact H1|]. rewrite H2. apply same_outside_refl. Qed.
Lemma confines_if {A} (b : bool) (m n : act A) : (b = true -> confines m) -> (b = false -> confines n) -> confines (if b then m else n).
Proof. destruct b; auto. Qed.
Lemma confines_when (b : bool) (m : act unit) : (b = true -> confines m) -> confines (when b m).
Proof. intros Hm. unfold when. apply confines_if; [done|intros _; apply confines_ret]. Qed.
Lemma confines_assert b : confines (assert b).
Proof. unfold assert. destruct b; [apply confines_ret|apply confines_fail]. Qed.
Lemma confines_load len addr : confines (load_ len addr).
Proof. intros c _. unfold wp, load_. by destruct (bus_read addr len (co_mem c)). Qed.
Lemma confines_csr_fset r f v : field_fits f = true -> Z.ldiff (field_mask f) (user_bits r) = 0 -> confines (csr_fset r f v).
Proof. intros Hf Hm c _. split; [done|]. by apply same_outside_upd, ldiff_fset. Qed.
Lemma confines_write r mask v : Z.ldiff mask (user_bits r) = 0 -> confines (write r mask v).
Proof. intros Hm c _. split; [done|]. by apply same_outside_upd, ldiff_masked_write. Qed.

Ltac confines_step :=
  lazymatch goal with
  | |- confines (bind (gets co_prv) _) => apply confines_get_prv
  | |- confines (bind _ _) => apply confines_bind; [|intros ?]
  | |- confines (ret _) => apply confines_ret
  | |- confines (fail _) => apply confines_fail
  | |- confines (raise_trap _ _) => apply confines_trap
  | |- confines RAISE_ILLEGAL_INSTRUCTION => unfold RAISE_ILLEGAL_INSTRUCTION
  | |- confines (gets _) => apply confines_gets
  | |- confines (csr_get _) => apply confines_gets
  | |- confines (csr_fget _ _) => apply confines_gets
  | |- confines (reg _) => apply confines_gets
  | |- confines (setreg _ _) => apply confines_modify; by split
  | |- confines (modify _) => apply confines_modify; by split
  | |- confines (store_ _ _ _) => apply confines_modify; by split
  | |- confines (load_ _ _) => apply confines_load
  | |- confines (if _ then _ else _) => apply confines_if; intros ?
  | |- confines (when _ _) => apply confines_when; intros ?
  | |- confines (assert _) => apply confines_assert
  end.
Ltac confines_steps := repeat (confines_step; cbv beta).

(** ** Control registers *)

Lemma get_csr_confines addr : confines (get_csr_value addr).
Proof.
  unfold get_csr_value, validate_csr_counter_read_access_rights, read. cbv zeta. confines_steps.
  destruct (default_read64 _ _); [apply confines_ret|apply confines_fail].
Qed.

(** The registers a user may write by their number. *)
Lemma user_mapping addr r : is_invalid_csr_access UserMode addr true = false -> register_mapping addr = Some r ->
  write_mask addr = None -> user_bits r = -1.
Proof.
  intros Hv Hr Hw. unfold register_mapping in Hr.
  destruct ((PMPADDR0_ADDR <=? addr) && _) eqn:E1; [|destruct ((PMPCFG0_ADDR <=? addr) && _) eqn:E2].
  1-2: exfalso; revert Hv; unfold PMPADDR0_ADDR, PMPCFG0_ADDR in *; bprop.
  - assert (Hin : In addr (seqZ 0x3b0 16)) by (apply list_elem_of_In, elem_of_seqZ; lia). cbn in Hin.
    repeat (destruct Hin as [<-|Hin]; [done|]). done.
  - assert (Hin : In addr (seqZ 0x3a0 4)) by (apply list_elem_of_In, elem_of_seqZ; lia). cbn in Hin.
    repeat (destruct Hin as [<-|Hin]; [done|]). done.
  - destruct (List.find _ _) as [[a r']|] eqn:Hf; [|done]. cbn [fmap option_fmap option_map snd] in Hr. injection Hr as <-.
    apply find_some in Hf as [Hin Ha]. cbn in Ha. bprop. subst a. unfold named_registers in Hin.
    repeat (destruct Hin as [Hin|Hin]; [injection Hin as <- <-; first [discriminate Hv | discriminate Hw | reflexivity]|]). done.
Qed.

Lemma user_write_mask addr r mask : is_invalid_csr_access UserMode addr true = false -> write_mask addr = Some (r, mask) ->
  Z.ldiff mask (user_bits r) = 0.
Proof.
  unfold write_mask. intros Hv. destruct (List.find _ _) as [[a [r' mask']]|] eqn:Hf; [|done].
  cbn [fmap option_fmap option_map snd]. intros Hr. injection Hr as <- <-. apply find_some in Hf as [Hin Ha]. cbn in Ha. bprop. subst a.
  repeat (destruct Hin as [Hin|Hin]; [injection Hin as <- <- <-; first [discriminate Hv | reflexivity]|]). done.
Qed.

(** The number in a comparison is not one of user mode. *)
Ltac not_user_csr Hv :=
  match goal with E : (?a =? _) = true |- _ => apply Z.eqb_eq in E; rewrite E in Hv; discriminate Hv end.

Lemma set_csr_confines addr v : is_invalid_csr_access UserMode addr true = false -> confines (set_csr_value addr v).
Proof.
  intros Hv. unfold set_csr_value, pc_alignment_mask.
  repeat first [ lazymatch goal with
    | |- confines (write R_uepc _ _) => apply confines_write, Z.ldiff_m1_r
    | |- confines (write _ _ _) => exfalso; not_user_csr Hv
    | |- confines (csr_fset R_satp _ _) => exfalso; not_user_csr Hv
    | |- confines (csr_fset _ _ _) => apply confines_csr_fset; reflexivity
    end | confines_step; cbv beta ].
  destruct (write_mask addr) as [[r mask]|] eqn:Hw; [by apply confines_write; eapply user_write_mask|].
  apply confines_bind; [confines_steps|]. intros _ c Hc. apply wp_bind, wp_gets, wp_bind. unfold default_write64.
  destruct (register_mapping addr) as [r|] eqn:Er; [|done]. cbn [mbind option_bind]. destruct (in_table r); [|done].
  split; [done|]. apply same_outside_upd. by rewrite (user_mapping addr r), !Z.ldiff_m1_r.
Qed.

Lemma exec_csr_confines op i : csr_op op = true -> confines (exec_csr op i).
Proof.
  intros Hop. destruct op; try discriminate Hop; unfold exec_csr; cbv zeta.
  all: repeat first [ lazymatch goal with
    | |- confines (get_csr_value _) => apply get_csr_confines
    | |- confines (set_csr_value _ _) => apply set_csr_confines; congruence
    end | confines_step; cbv beta ].
Qed.

(** ** Instructions *)

Lemma check_pc_confines : confines trap_check_pc_alignment.
Proof. unfold trap_check_pc_alignment. confines_steps. Qed.
Lemma check_addr_confines n isLoad addr : confines (trap_check_addr_alignment n isLoad addr).
Proof. unfold trap_check_addr_alignment. confines_steps. Qed.

Lemma uret_confines : confines (return_from_trap_handler UserMode).
Proof.
  unfold return_from_trap_handler. cbn [UserMode MachineMode SupervisorMode Z.eqb Pos.eqb].
  apply confines_bind; [apply confines_gets|]. intros misa c Hc. apply wp_bind, wp_modify.
  assert (Hc' : confined c (with_prv UserMode c)) by (split; [by rewrite Hc|done]).
  eapply wp_mono.
  - refine ((_ : confines (bind (csr_fget R_mstatus csr_mstatus.upie) _)) (with_prv UserMode c) eq_refl).
    confines_steps; apply confines_csr_fset; reflexivity.
  - cbv beta. intros _ c2. by apply confined_trans.
  - cbv beta. intros r v c2. by apply confined_trans.
  - done.
Qed.

Definition returns_above (op : Mapping) : bool := match op with MRET | SRET => true | _ => false end.

Lemma exec_op_confines op i : returns_above op = false -> confines (exec_op op i).
Proof.
  intros Hop. destruct op; try discriminate Hop; cbn [exec_op].
  all: lazymatch goal with
    | |- confines (exec_csr _ _) => apply exec_csr_confines; reflexivity
    | |- confines (exec_branch _ _) => unfold exec_branch
    | |- confines (exec_jump _ _) => unfold exec_jump
    | |- confines (exec_system _ _) => unfold exec_system; cbv zeta
    | |- confines (exec_store _ _) => unfold exec_store, store_byte, store_half, store_word, store_double; cbv zeta
    | |- confines (exec_load _ _) => unfold exec_load, load_byte, load_half, load_word, load_double, load_ubyte, load_uhalf, load_uword; cbv zeta
    | |- confines (exec_alu _ _) => unfold exec_alu
    | |- confines (exec_muldiv _ _) => unfold exec_muldiv
    | |- confines (exec_alu_w _ _) => unfold exec_alu_w; cbv zeta
    | |- _ => idtac
    end.
  all: repeat first [ lazymatch goal with
    | |- confines trap_check_pc_alignment => apply check_pc_confines
    | |- confines (trap_check_addr_alignment _ _ _) => apply check_addr_confines
    | |- confines (return_from_trap_handler UserMode) => apply uret_confines
    end | confines_step; cbv beta ].
Qed.

(** ** A step *)

Lemma exec_step_confines c op i : co_prv c = UserMode -> next_instruction c = Some (op, i) -> returns_above op = false ->
  wp exec_step (fun _ c' => confined c c') (fun _ _ c' => confined c c') (fun _ => True) c.
Proof.
  intros Hc Hn Hop. unfold exec_step, load_instr. apply wp_bind, wp_gets, wp_bind, wp_bind.
  unfold wp at 1, load_. unfold next_instruction in Hn. destruct (bus_read (co_pc c) 4 (co_mem c)) as [bs m]. cbn [fst] in Hn.
  apply wp_ret, wp_bind, wp_modify. rewrite Hn. apply wp_bind, wp_modify, wp_bind, wp_modify.
  match goal with |- wp _ _ _ _ ?c1 => pose proof (exec_op_confines op i Hop c1 Hc) as Hk end. exact Hk.
Qed.

(** The bits that the entry of a handler of level [t] changes. *)
Definition entry_bits (t : Z) (r : csr_reg) : Z :=
  if bool_decide (r = R_mstatus) then trap_bits t
  else if bool_decide (In r [epc_of t; cause_reg t; tval_of t]) then -1 else 0.
Definition with_entry (m : csr_reg -> Z) (t : Z) (r : csr_reg) : Z := Z.lor (m r) (entry_bits t r).

Lemma user_entry r : with_entry user_bits UserMode r = user_bits r.
Proof. unfold with_entry, entry_bits. by destruct r. Qed.

Lemma entry_registers t r : handled t -> In r [epc_of t; cause_reg t; tval_of t] -> entry_bits t r = -1.
Proof.
  intros Ht Hr. unfold entry_bits. rewrite bool_decide_false, bool_decide_true; [done|done|].
  destruct (level_registers t Ht r); [|done]. cbn in *. tauto.
Qed.

(** The state at the entry of a handler of level [t]. *)
Definition entered (m : csr_reg -> Z) (t : Z) c c' : Prop :=
  co_prv c' = t /\ co_pc c' = trap_vector (co_csr c (tvec_of t)) (co_csr c' (cause_reg t)) /\
  previous t (co_csr c' R_mstatus) = UserMode /\ same_outside (with_entry m t) (co_csr c) (co_csr c').
Definition user_outcome (m : csr_reg -> Z) c c' : Prop :=
  co_prv c' = UserMode /\ same_outside m (co_csr c) (co_csr c') \/
  exists t, (t = MachineMode \/ t = SupervisorMode) /\ entered m t c c'.

(** The entry, after the cause has been stored. *)
Lemma switch_outcome t c c1 c2 : handled t -> co_prv c = UserMode -> confined c c1 -> co_prv c2 = UserMode ->
  (forall q, q <> cause_reg t -> q <> tval_of t -> co_csr c2 q = co_csr c1 q) ->
  wp (switch_to_trap_handler t) (fun _ c' => user_outcome user_bits c c') (fun _ _ _ => False) (fun _ => False) c2.
Proof.
  intros Ht Hc [Hp1 Hs1] Hp2 H2. destruct (switch_spec t c2 Ht) as (c3 & E & _ & Hp3 & Hpc3 & Hms3 & Hepc3 & Hr3).
  unfold wp. rewrite E. destruct (level_registers_distinct t Ht) as (D1 & D2 & D3 & D4 & D5 & D6 & D7).
  assert (Hs : same_outside (with_entry user_bits t) (co_csr c) (co_csr c3)).
  { intros r. destruct (decide (In r [epc_of t; cause_reg t; tval_of t])) as [Hin|Hin].
    - unfold with_entry. by rewrite (entry_registers t r Ht Hin), Z.lor_m1_r, !Z.ldiff_m1_r.
    - destruct (decide (r = R_mstatus)) as [->|Hr].
      + rewrite Hms3, H2 by done. unfold with_entry. rewrite Z.lor_comm, <- Z.ldiff_ldiff_l.
        change (entry_bits t R_mstatus) with (trap_bits t). rewrite trap_mstatus_outside, Z.ldiff_ldiff_l, Z.lor_comm by done.
        by apply ldiff_weaken.
      + cbn in Hin. rewrite Hr3, H2 by (done || (intros ->; tauto)). by apply ldiff_weaken. }
  assert (Ht0 : 0 <= UserMode <= t) by (destruct Ht as [->|[->| ->]]; unfold UserMode, MachineMode, SupervisorMode; lia).
  destruct (decide (t = UserMode)) as [->|Hne].
  - left. split; [done|]. intros r. rewrite <- user_entry. apply Hs.
  - right. exists t. split; [destruct Ht as [?|[?|?]]; [by left|by right|done]|]. split_and!; [done| | |done].
    + rewrite Hpc3, (Hr3 (cause_reg t)) by done. f_equal. rewrite H2 by done. eapply same_outside_eq; [exact Hs1|].
      clear - Ht Hne. destruct Ht as [->|[->| ->]]; done.
    + rewrite Hms3, Hp2. by apply trap_mstatus_fields.
Qed.

Lemma take_interrupt_outcome c c1 : co_prv c = UserMode -> confined c c1 -> core_inv c1 ->
  wp take_interrupt (fun _ c' => user_outcome user_bits c c') (fun _ _ _ => False) (fun _ => False) c1.
Proof.
  intros Hc Hc1 Hi. unfold take_interrupt. apply wp_bind, wp_gets.
  destruct (compute_pending_ok c1 Hi) as [Hn|(Ht & Hp & Hz)].
  - rewrite Hn. left. destruct Hc1 as [H1 H2]. by rewrite H1.
  - set (x := compute_pending_interrupts c1) in *. clearbody x. apply wp_when; intros Hx.
    2: { exfalso. apply negb_false_iff in Hx. bprop. rewrite Hx in Ht. by destruct Ht as [?|[?|?]]. }
    destruct (pending_bits _ Hp Hz) as (f & exc & Hf & _). apply wp_bind. unfold prepare_interrupt. rewrite Hf.
    assert (Hcause : cause_of (target_mode x) = Some (cause_reg (target_mode x))) by (by destruct Ht as [->|[->| ->]]).
    rewrite Hcause. wp_steps. eapply switch_outcome; [exact Ht|exact Hc|exact Hc1|by rewrite <- Hc; apply Hc1|].
    intros q Hq _. cbn. by rewrite !upd_other.
Qed.

Lemma trap_outcome c c1 r x : co_prv c = UserMode -> confined c c1 -> core_inv c1 -> 0 <= r < 16 ->
  wp (bind (prepare_trap r x) switch_to_trap_handler) (fun _ c' => user_outcome user_bits c c') (fun _ _ _ => False) (fun _ => False) c1.
Proof.
  intros Hc Hc1 Hi Hr. assert (Hp : co_prv c1 = UserMode) by (by rewrite <- Hc; apply Hc1).
  apply wp_bind. unfold wp at 1. rewrite prepare_trap_spec by (done || rewrite Hp; done).
  set (t := trap_target _ _ _ r). assert (Ht : handled t) by apply trap_target_handled.
  destruct (set_cause_spec t r x (with_pc (co_last_pc c1) c1) Ht Hr) as (c2 & E2 & S2 & P2 & _ & _ & _ & _ & O2).
  unfold bind. rewrite E2. cbn [ret]. eapply switch_outcome; [exact Ht|exact Hc|exact Hc1|by rewrite P2|exact O2].
Qed.

Definition user_step_bits (r : csr_reg) : Z := match r with R_instret => -1 | _ => user_bits r end.

Lemma outcome_after c c2 c3 : user_outcome user_bits c c2 -> co_prv c3 = co_prv c2 -> co_pc c3 = co_pc c2 ->
  (forall q, q <> R_instret -> co_csr c3 q = co_csr c2 q) -> user_outcome user_step_bits c c3.
Proof.
  intros [[Hp Hs]|(t & Ht & He)] Hp3 Hpc3 Hr3.
  - left. split; [congruence|]. intros r. destruct (decide (r = R_instret)) as [->|Hr]; [by rewrite !Z.ldiff_m1_r|].
    rewrite Hr3 by done. specialize (Hs r). by destruct r.
  - right. exists t. split; [done|]. destruct He as (E1 & E2 & E3 & E4).
    assert (Hh : handled t) by (unfold handled; tauto). destruct (level_registers t Hh (cause_reg t)) as [_ Hci]; [cbn; tauto|].
    split_and!; [congruence|by rewrite Hpc3, (Hr3 (cause_reg t))|by rewrite Hr3|].
    intros r. destruct (decide (r = R_instret)) as [->|Hr]; [unfold with_entry; cbn [user_step_bits]; by rewrite Z.lor_m1_l, !Z.ldiff_m1_r|].
    rewrite Hr3 by done. specialize (E4 r). unfold with_entry in *. by destruct r.
Qed.

(** C12. Isolation of user mode. A step in user mode, of any instruction but MRET and
    SRET, with whatever interrupt follows it, either stays in user mode and changes only
    the user bits of the control registers and the instruction counter; or it enters
    machine or supervisor mode, and then only at the vector that this level has set up,
    with the level of before stored, and with the trap registers of the level as the only
    others that change. *)
Theorem user_step_confined c op i c' : core_ok c -> co_prv c = UserMode -> next_instruction c = Some (op, i) ->
  returns_above op = false -> stopped c = false -> run_step c = Ret tt c' -> user_outcome user_step_bits c c'.
Proof.
  intros Hok Hc Hn Hop Hs He. rewrite run_step_eq in He by done. destruct Hok as [Hi _].
  set (c0 := with_last_pc (co_pc c) c) in *.
  assert (Hi0 : core_inv c0) by (destruct Hi; by constructor).
  assert (Hw : wp (catch_trap (bind exec_step (fun _ => take_interrupt))) (fun _ c2 => user_outcome user_bits c0 c2)
    (fun _ _ _ => False) (fun _ => True) c0).
  { apply wp_catch, wp_bind. pose proof (exec_step_confines c0 op i Hc Hn Hop) as H1. pose proof (exec_step_ok c0 Hi0) as H2.
    unfold wp in H1, H2. unfold wp at 1. destruct (exec_step c0) as [[] c1|r x c1|f]; [| |done].
    - eapply wp_mono; [by apply (take_interrupt_outcome c0 c1)|done..].
    - eapply wp_mono; [apply (trap_outcome c0 c1); [done|done|apply H2|apply H2]|done..]. }
  unfold wp in Hw. unfold bind at 1 in He. destruct (catch_trap _ c0) as [[] c2| |]; [|done..].
  destruct (after_step_spec c2) as (c3 & E3 & _ & _ & Hp & Hpc & Hr). rewrite E3 in He. injection He as <-.
  by apply (outcome_after c0 c2).
Qed.

(** MRET does not look at the level it is executed in. *)
Lemma mret_ignores_privilege i c : core_inv c -> exists c', exec_op MRET i c = Ret tt c' /\
  co_prv c' = fget csr_mstatus.mpp (co_csr c R_mstatus) /\ co_pc c' = co_csr c R_mepc.
Proof.
  intros Hc. destruct (return_spec MachineMode c) as (c' & E & _ & Hp & Hpc & _); [by left|done|].
  exists c'. split_and!; [|exact Hp|exact Hpc]. unfold exec_op, exec_system, bind, gets, csr_get. exact E.
Qed.
End User.

(** [csrrw x0, mtvec, x0] in user mode. *)
Definition user_csr_state : Core FlatBus.flat := with_prv UserMode (core_init 0 (FlatBus.filled 0x30501073)).
Lemma user_step_confined_witness : next_instruction user_csr_state = Some (CSRRW, 0x30501073) /\
  exists c', run_step user_csr_state = Ret tt c' /\ user_outcome user_step_bits user_csr_state c'.
Proof.
  split; [reflexivity|]. assert (Hok : core_ok user_csr_state) by (split; [by apply inv_with_prv; [apply core_init_inv|]|done]).
  pose proof (run_step_safe user_csr_state Hok) as Hs.
  destruct (run_step user_csr_state) as [[] c'| |f] eqn:E; [|done|].
  - exists c'. split; [done|].
    exact (user_step_confined user_csr_state CSRRW 0x30501073 c' Hok eq_refl eq_refl eq_refl eq_refl E).
  - exfalso. destruct Hs as (op & i & Hn & Hf). injection Hn as <- <-. by destruct f, Hf as [[]|[]].
Defined.
