(* ===== verification/Gdb.v ===== *)
(** * The debugger stub of the command processor
      (lv/src/lv/bindings/cp/gdbstub.cc and the thread of cp/command_processor.cc)

    A connection is what arrives at the socket, in the pieces the calls of [recv] may
    see, and the bytes that were sent. Packets are lists of character codes. An
    exception no caller catches ends the simulation ([Throw]); a call of [recv] with
    nothing to deliver waits ([Blocked]), and one on a closed connection returns no
    bytes for ever ([Forever]). *)

From Stdlib Require Import Ascii String.
From S2P Require Import Prelude BitSolve Rv64Const Rv64Instr Rv64Csr Rv64Core.

(** ** Strings *)

Definition str (s : string) : list Z := List.map (fun a => Z.of_nat (nat_of_ascii a)) (list_ascii_of_string s).
Arguments str s%_string_scope.
Definition chr (s : string) : Z := hd 0 (str s).
Arguments chr s%_string_scope.

Inductive exn := ConnectFailed | SendFailed | RecvFailed | AckFailed | BadAck | InvalidArgument | OutOfRange | UncaughtTrap.

Definition npos := 2 ^ 64 - 1.
(** [s\[i\]]: the position [size()] holds a null character. *)
Definition at_pos (i : nat) (s : list Z) : Z := nth i s 0.
Definition substr (pos len : Z) (s : list Z) : exn + list Z :=
  if Z.of_nat (length s) <? pos then inl OutOfRange
  else inr (if len <? Z.of_nat (length s) then take (Z.to_nat len) (drop (Z.to_nat pos) s) else drop (Z.to_nat pos) s).
Fixpoint find_char_from (c : Z) (pos : Z) (s : list Z) : Z :=
  match s with [] => npos | x :: s => if x =? c then pos else find_char_from c (pos + 1) s end.
Definition find_char (c : Z) (pos : nat) (s : list Z) : Z := find_char_from c (Z.of_nat pos) (drop pos s).
Fixpoint starts_with (p s : list Z) : bool :=
  match p, s with
  | [], _ => true
  | x :: p, y :: s => (x =? y) && starts_with p s
  | _, [] => false
  end.

(** [std::stoull] and [std::stoul] *)
Definition is_space (c : Z) : bool := (c =? 32) || ((9 <=? c) && (c <=? 13)).
Definition digit_value (c : Z) : Z :=
  if (48 <=? c) && (c <=? 57) then c - 48
  else if (97 <=? c) && (c <=? 122) then c - 87
  else if (65 <=? c) && (c <=? 90) then c - 55 else 99.
Fixpoint skip_spaces (s : list Z) : list Z :=
  match s with c :: s' => if is_space c then skip_spaces s' else s | [] => [] end.
Definition skip_sign (s : list Z) : bool * list Z :=
  match s with c :: s' => if c =? chr "-" then (true, s') else if c =? chr "+" then (false, s') else (false, s) | [] => (false, []) end.
Definition skip_prefix (base : Z) (s : list Z) : list Z :=
  match s with
  | z :: x :: d :: s' =>
      if (base =? 16) && (z =? chr "0") && ((x =? chr "x") || (x =? chr "X")) && (digit_value d <? 16) then d :: s' else s
  | _ => s
  end.
Fixpoint digits (base acc : Z) (s : list Z) : Z :=
  match s with c :: s' => if digit_value c <? base then digits base (acc * base + digit_value c) s' else acc | [] => acc end.
Definition stoull (base : Z) (s : list Z) : exn + Z :=
  let '(negative, s) := skip_sign (skip_spaces s) in
  let s := skip_prefix base s in
  if match s with c :: _ => digit_value c <? base | [] => false end then
    let v := digits base 0 s in
    if 2 ^ 64 <=? v then inl OutOfRange else inr (if negative then u64 (- v) else v)
  else inl InvalidArgument.

(** ** Packets *)

Definition hex_digit (v : Z) : Z := if v <? 10 then 48 + v else 87 + v.
Definition serialize_byte (v : Z) : list Z := [hex_digit (v / 16); hex_digit (v mod 16)].
(** Eight bytes of a register, the lowest first. *)
Fixpoint serialize_word (n : nat) (temp : Z) : list Z :=
  match n with O => [] | S n => serialize_byte (Z.land temp 0xff) ++ serialize_word n (Z.shiftr temp 8) end.
Definition serialize_regs (reg : list Z) (pc : Z) : list Z :=
  List.concat (List.map (fun r => serialize_word 8 (u64 r)) reg) ++ serialize_word 8 pc.

Definition bind_e {A B} (x : exn + A) (k : A -> exn + B) : exn + B := match x with inl e => inl e | inr a => k a end.
Fixpoint deserialize_word (data : list Z) (pos : Z) (n : nat) (temp : Z) : exn + Z :=
  match n with
  | O => inr temp
  | S n => bind_e (substr pos 2 data) (fun s => bind_e (stoull 10 s) (fun v =>
      deserialize_word data (pos + 2) n (s64 (Z.shiftl (s64 (Z.lor (u64 temp) v)) 8))))
  end.
Fixpoint deserialize_from (data : list Z) (i : Z) (n : nat) : exn + list Z :=
  match n with
  | O => inr []
  | S n => bind_e (deserialize_word data (i * 16) 8 0) (fun r => bind_e (deserialize_from data (i + 1) n) (fun rs => inr (r :: rs)))
  end.
Definition deserialize_regs (data : list Z) : exn + list Z :=
  bind_e (deserialize_from data 1 31) (fun rs => inr (0 :: rs)).

Definition parse_mem_req (packet : list Z) : exn + (Z * Z) :=
  let comma_pos := find_char (chr ",") 0 packet in
  let colon_pos := find_char (chr ":") 0 packet in
  if comma_pos =? npos then inl InvalidArgument else
  bind_e (bind_e (substr 1 (comma_pos -% 1) packet) (stoull 16)) (fun addr =>
  bind_e (bind_e (substr (comma_pos + 1) colon_pos packet) (stoull 16)) (fun size => inr (addr, size))).

(** ** The connection *)

(** Bytes that arrived together, the end of the connection, an error. *)
Inductive recv_event := Arrived (bytes : list Z) | Closed | Broken.
Inductive recv_result := Bytes (bytes : list Z) | Eof | Error.
Fixpoint recv (n : nat) (inp : list recv_event) : option (recv_result * list recv_event) :=
  match inp with
  | [] => None
  | Closed :: _ => Some (Eof, inp)
  | Broken :: inp => Some (Error, inp)
  | Arrived [] :: inp => recv n inp
  | Arrived bs :: inp => Some (Bytes (take n bs), match drop n bs with [] => inp | bs' => Arrived bs' :: inp end)
  end.

Section Stub.
Context {Mem : Type} `{Bus Mem}.

(** [sb_sends] is what the next calls of [send] do: pass on so many bytes, or fail;
    after its end they send everything. *)
Record GDBStub := mkStub {
  sb_in : list recv_event;
  sb_sends : list (option nat);
  sb_out : list Z;
  sb_accepts : bool;
  sb_port_connected : bool;
  sb_need_resp : bool;
  sb_debug : Core Mem
}.
Definition with_in (v : list recv_event) (s : GDBStub) : GDBStub :=
  mkStub v (sb_sends s) (sb_out s) (sb_accepts s) (sb_port_connected s) (sb_need_resp s) (sb_debug s).
Definition with_sends (v : list (option nat)) (s : GDBStub) : GDBStub :=
  mkStub (sb_in s) v (sb_out s) (sb_accepts s) (sb_port_connected s) (sb_need_resp s) (sb_debug s).
Definition with_out (v : list Z) (s : GDBStub) : GDBStub :=
  mkStub (sb_in s) (sb_sends s) v (sb_accepts s) (sb_port_connected s) (sb_need_resp s) (sb_debug s).
Definition with_port_connected (v : bool) (s : GDBStub) : GDBStub :=
  mkStub (sb_in s) (sb_sends s) (sb_out s) (sb_accepts s) v (sb_need_resp s) (sb_debug s).
Definition with_need_resp (v : bool) (s : GDBStub) : GDBStub :=
  mkStub (sb_in s) (sb_sends s) (sb_out s) (sb_accepts s) (sb_port_connected s) v (sb_debug s).
Definition with_debug (v : Core Mem) (s : GDBStub) : GDBStub :=
  mkStub (sb_in s) (sb_sends s) (sb_out s) (sb_accepts s) (sb_port_connected s) (sb_need_resp s) v.

Inductive result (A : Type) :=
  | Done (a : A) (s : GDBStub)
  | Throw (e : exn)
  | CoreFailed (f : failure)
  | Blocked (s : GDBStub)
  | Forever
  | UndefinedAck
  | NoFuel.
#[global] Arguments Done {A} a s.
#[global] Arguments Throw {A} e.
#[global] Arguments CoreFailed {A} f.
#[global] Arguments Blocked {A} s.
#[global] Arguments Forever {A}.
#[global] Arguments UndefinedAck {A}.
#[global] Arguments NoFuel {A}.

Definition op (A : Type) : Type := GDBStub -> result A.
Definition sret {A} (a : A) : op A := fun s => Done a s.
Definition sbind {A B} (m : op A) (k : A -> op B) : op B := fun s =>
  match m s with
  | Done a s => k a s
  | Throw e => Throw e | CoreFailed f => CoreFailed f | Blocked s => Blocked s
  | Forever => Forever | UndefinedAck => UndefinedAck | NoFuel => NoFuel
  end.
Local Notation "x <- m ; k" := (sbind m (fun x => k)) (at level 20, m at level 100, k at level 200, right associativity).
Local Notation "m ;; k" := (sbind m (fun _ => k)) (at level 100, k at level 200, right associativity).
Definition throw {A} (e : exn) : op A := fun _ => Throw e.
Definition lift {A} (x : exn + A) : op A := match x with inl e => throw e | inr a => sret a end.
Definition debug (f : Core Mem -> Core Mem) : op unit := fun s => Done tt (with_debug (f (sb_debug s)) s).
Definition debug_act {A} (m : act A) : op A := fun s =>
  match m (sb_debug s) with
  | Ret a c => Done a (with_debug c s)
  | Trap _ _ _ => Throw UncaughtTrap
  | Fail f => CoreFailed f
  end.

(** [Core::load_byte] and [Core::store_byte] *)
Definition core_load_byte (addr : Z) : act Z := bind (load_ubyte addr) (fun v => ret (u8 v)).
Definition core_store_byte (addr value : Z) : act unit := Rv64Core.store_byte addr value.
Definition get_registers (c : Core Mem) : list Z := co_regs c.
Definition get_program_counter (c : Core Mem) : Z := co_pc c.

(** [connect]; the calls that open the socket succeed or one of them fails. *)
Definition connect : op unit := fun s =>
  if sb_accepts s then Done tt (with_port_connected true s) else Throw ConnectFailed.

Definition send (bytes : list Z) : op (option nat) := fun s =>
  match sb_sends s with
  | [] => Done (Some (length bytes)) (with_out (sb_out s ++ bytes) s)
  | Some n :: r => Done (Some (min n (length bytes))) (with_sends r (with_out (sb_out s ++ take n bytes) s))
  | None :: r => Done None (with_sends r s)
  end.
(** A short count is not looked at. *)
Definition send_or (bytes : list Z) : op unit :=
  res <- send bytes; match res with None => throw SendFailed | Some _ => sret tt end.
Definition send_ack : op unit := send_or (str "+").

(** The size of the result of [recv] is unsigned, so a failed call goes on with an
    [ack] that was never written. *)
Definition wait_ack : op unit := fun s =>
  match recv 1 (sb_in s) with
  | None => Blocked s
  | Some (Eof, _) => Throw AckFailed
  | Some (Error, _) => UndefinedAck
  | Some (Bytes bs, inp) => if at_pos 0 bs =? chr "+" then Done tt (with_in inp s) else Throw BadAck
  end.

Definition checksum (packet : list Z) : Z := foldl (fun sum c => u8 (sum + c)) 0 packet.
Definition frame (packet : list Z) : list Z := str "$" ++ packet ++ str "#" ++ serialize_byte (Z.land (checksum packet) 0xff).
Definition send_packet (packet : list Z) : op unit := send_or (frame packet);; wait_ack.

(** The characters of one buffer: a packet ends at [#], and what follows in the buffer
    is dropped. *)
Fixpoint scan (buffer : list Z) (found_start : bool) (packet : list Z) : list Z + bool * list Z :=
  match buffer with
  | [] => inr (found_start, packet)
  | c :: buffer =>
      if negb found_start && (c =? chr "$") then scan buffer true []
      else if c =? chr "#" then inl packet
      else scan buffer found_start (packet ++ [c])
  end.
Fixpoint receive_loop (fuel : nat) (found_start : bool) (packet : list Z) : op (list Z) := fun s =>
  match fuel with
  | O => NoFuel
  | S fuel =>
      match recv 4096 (sb_in s) with
      | None => Blocked s
      | Some (Eof, _) => Forever
      | Some (Error, _) => Throw RecvFailed
      | Some (Bytes bs, inp) =>
          match scan bs found_start packet with
          | inl packet => (send_ack;; sret packet) (with_in inp s)
          | inr (found_start, packet) => receive_loop fuel found_start packet (with_in inp s)
          end
      end
  end.
(** Every call of [recv] that delivers something makes the input smaller. *)
Definition event_size (e : recv_event) : nat := match e with Arrived bs => S (length bs) | _ => 1%nat end.
Definition input_size (inp : list recv_event) : nat := sum_list_with event_size inp.
Definition receive_packet : op (list Z) := fun s => receive_loop (S (input_size (sb_in s))) false [] s.

Definition CMD_NOT_SUPPORTED : op unit := send_packet [].

(** The bytes of an [m] packet, one load after the other. *)
Fixpoint read_memory (addr : Z) (n : nat) : op (list Z) :=
  match n with
  | O => sret []
  | S n => b <- debug_act (core_load_byte (u64 addr)); rest <- read_memory (addr + 1) n; sret (serialize_byte b ++ rest)
  end.
(** The bytes of an [M] packet, all stored at the first address. *)
Fixpoint write_memory (addr : Z) (data_str : list Z) (pos : Z) (n : nat) : op unit :=
  match n with
  | O => sret tt
  | S n =>
      v <- lift (bind_e (substr pos 2 data_str) (stoull 16));
      debug_act (core_store_byte addr (u8 v));; write_memory addr data_str (pos + 2) n
  end.
Fixpoint write_registers (i : Z) (vals : list Z) : op unit :=
  match vals with [] => sret tt | v :: vals => debug (write_register i v);; write_registers (i + 1) vals end.

Definition breakpoint_packet (packet : list Z) (change : Z -> Core Mem -> Core Mem) : op bool :=
  if (at_pos 1 packet =? chr "0") || (at_pos 1 packet =? chr "1") then
    addr <- lift (bind_e (substr 3 (find_char (chr ",") 3 packet) packet) (stoull 16));
    debug (change addr);; send_packet (str "OK");; sret false
  else CMD_NOT_SUPPORTED;; sret false.

Definition handle_packet (packet : list Z) : op bool :=
  let c := at_pos 0 packet in
  if c =? chr "?" then send_packet (str "S05");; sret false
  else if c =? chr "g" then fun s =>
    (send_packet (serialize_regs (get_registers (sb_debug s)) (get_program_counter (sb_debug s)));; sret false) s
  else if c =? chr "Z" then breakpoint_packet packet insert_breakpoint
  else if c =? chr "z" then breakpoint_packet packet remove_breakpoint
  else if c =? chr "q" then
    (if starts_with (str "qSupported") packet then send_packet (str "PacketSize=4096")
     else if starts_with (str "qOffsets") packet then send_packet (str "Text=0;Data=0;Bss=0")
     else CMD_NOT_SUPPORTED);; sret false
  else if c =? chr "G" then
    write_val <- lift (bind_e (substr 1 npos packet) deserialize_regs);
    write_registers 1 (tl write_val);; send_packet (str "OK");; sret false
  else if c =? chr "m" then
    req <- lift (parse_mem_req packet);
    res <- read_memory req.1 (Z.to_nat req.2); send_packet res;; sret false
  else if c =? chr "M" then
    req <- lift (parse_mem_req packet);
    data_str <- lift (substr (find_char (chr ":") 0 packet +% 1) npos packet);
    write_memory req.1 data_str 0 (Z.to_nat req.2);; sret false
  else if c =? chr "s" then
    debug set_single_step;; debug (set_status Runnable);; (fun s => Done true (with_need_resp true s))
  else if c =? chr "c" then
    debug (set_status Runnable);; (fun s => Done true (with_need_resp true s))
  else CMD_NOT_SUPPORTED;; sret false.

Fixpoint packet_loop (fuel : nat) : op unit :=
  match fuel with
  | O => fun _ => NoFuel
  | S fuel => packet <- receive_packet; stop <- handle_packet packet; if (stop : bool) then sret tt else packet_loop fuel
  end.
Definition gdb_main : op unit := fun s =>
  ((if sb_need_resp s then send_packet (str "S05");; (fun s => Done tt (with_need_resp false s)) else sret tt);;
   (fun s => packet_loop (S (input_size (sb_in s))) s)) s.

(** A turn of [CommandProcessor::thread_proc]. *)
Definition thread_proc (debug_mode : bool) : op unit := fun s =>
  match debug_mode, co_status (sb_debug s) with
  | true, HitBreakpoint => ((if sb_port_connected s then sret tt else connect);; gdb_main) s
  | _, _ => debug_act run_step s
  end.
End Stub.
#[global] Arguments GDBStub Mem : clear implicits.
