(* ===== verification/GdbSession.v ===== *)
(** * Sessions of the debugger stub

    Packets arrive whole however the connection cuts them, replies are frames of the
    remote protocol, the stub's loops end, and a breakpoint stops the core. *)

From Stdlib Require Import Ascii String.
From S2P Require Import Prelude BitSolve Rv64Const Rv64Instr Rv64Csr Rv64Core Rv64Inv Gdb.

(** ** The calls of [recv] *)

Lemma input_size_cons e inp : input_size (e :: inp) = (event_size e + input_size inp)%nat.
Proof. done. Qed.

Lemma recv_shrinks n inp r inp' : (0 < n)%nat -> recv n inp = Some (r, inp') ->
  match r with Eof => inp' = inp \/ (input_size inp' <= input_size inp)%nat | _ => (input_size inp' < input_size inp)%nat end.
Proof.
  intros Hn. revert r inp'. induction inp as [|[[|b bs]| |] inp IH]; cbn [recv]; intros r inp' Hr.
  - done.
  - specialize (IH _ _ Hr). rewrite input_size_cons. cbn [event_size length]. destruct r; [lia|destruct IH; [right; subst|]; lia|lia].
  - injection Hr as <- <-. destruct n as [|n]; [lia|]. cbn [drop]. rewrite input_size_cons. cbn [event_size length].
    destruct (drop n bs) as [|b' bs'] eqn:E; [lia|]. rewrite input_size_cons. cbn [event_size].
    assert (Hl : (length (drop n bs) <= length bs)%nat) by (rewrite length_drop; lia). rewrite E in Hl. cbn [length] in *. lia.
  - injection Hr as <- <-. by left.
  - injection Hr as <- <-. rewrite input_size_cons. cbn [event_size]. lia.
Qed.

(** A connection that is neither closed nor broken. *)
Definition is_open (inp : list recv_event) : Prop := Forall (fun e => match e with Arrived _ => True | _ => False end) inp.
Lemma recv_open n inp r inp' : is_open inp -> recv n inp = Some (r, inp') -> (exists bs, r = Bytes bs) /\ is_open inp'.
Proof.
  unfold is_open. intros Ho. induction Ho as [|[[|b bs]| |] inp He Ho IH]; cbn [recv]; intros Hr; try done; [by apply IH|].
  injection Hr as <- <-. split; [by eexists|]. destruct (drop n (b :: bs)); [done|by constructor].
Qed.

Lemma recv_arrived n chunks : (0 < n)%nat -> List.concat chunks <> [] -> exists bs chunks',
  recv n (List.map Arrived chunks) = Some (Bytes bs, List.map Arrived chunks') /\ List.concat chunks = bs ++ List.concat chunks'.
Proof.
  intros Hn. induction chunks as [|[|b bs] chunks IH]; cbn [List.map List.concat recv app]; intros Hne; [done|by apply IH|].
  exists (take n (b :: bs)). pose proof (take_drop n (b :: bs)) as Ht. destruct (drop n (b :: bs)) as [|b' bs'] eqn:E.
  - exists chunks. split; [done|]. rewrite app_nil_r in Ht. by rewrite Ht.
  - exists ((b' :: bs') :: chunks). split; [done|]. cbn [List.concat]. by rewrite app_assoc, Ht.
Qed.

(** ** Packets in the stream *)

Lemma scan_app xs ys found packet : scan (xs ++ ys) found packet =
  match scan xs found packet with inl p => inl p | inr (f, p) => scan ys f p end.
Proof.
  revert found packet. induction xs as [|x xs IH]; intros found packet; cbn [app scan]; [done|].
  destruct (negb found && _); [apply IH|]. by destruct (x =? chr "#"); [|apply IH].
Qed.

(** A packet ends at the first [#]. *)
Lemma scan_end bs found packet :
  match scan bs found packet with
  | inl _ => exists pre post, bs = pre ++ 35 :: post /\ 35 ∉ pre
  | inr _ => 35 ∉ bs
  end.
Proof.
  revert found packet. induction bs as [|b bs IH]; intros found packet; cbn [scan]; [by apply not_elem_of_nil|].
  change (chr "#") with 35. change (chr "$") with 36.
  assert (Hstep : forall f p, b <> 35 -> match scan bs f p with
    | inl _ => exists pre post, b :: bs = pre ++ 35 :: post /\ 35 ∉ pre | inr _ => 35 ∉ b :: bs end).
  { intros f p Hb. specialize (IH f p). destruct (scan bs f p).
    - destruct IH as (pre & post & -> & Hpre). exists (b :: pre), post. split; [done|]. rewrite not_elem_of_cons. split; [congruence|done].
    - rewrite not_elem_of_cons. split; [congruence|done]. }
  destruct (negb found && (b =? 36)) eqn:E1; [apply Hstep; bprop; lia|].
  destruct (Z.eqb_spec b 35) as [->|Hb]; [|by apply Hstep].
  exists [], bs. split; [done|apply not_elem_of_nil].
Qed.

Lemma first_unique (c : Z) pre post pre' post' : pre ++ c :: post = pre' ++ c :: post' -> c ∉ pre -> c ∉ pre' -> pre = pre' /\ post = post'.
Proof.
  revert pre'. induction pre as [|x pre IH]; intros [|y pre'] He Hp Hp'; cbn in He; injection He.
  - by intros ->.
  - intros _ ->. exfalso. apply Hp'. left.
  - intros _ ->. exfalso. apply Hp. left.
  - intros He' ->. rewrite not_elem_of_cons in Hp, Hp'. destruct (IH pre' He') as [-> ->]; [tauto|tauto|done].
Qed.

Lemma scan_body body found packet : 35 ∉ body -> 36 ∉ body \/ found = true -> scan body found packet = inr (found, packet ++ body).
Proof.
  revert packet. induction body as [|b body IH]; intros packet Hb Hs; cbn [scan]; [by rewrite app_nil_r|].
  change (chr "#") with 35. change (chr "$") with 36. rewrite !not_elem_of_cons in *.
  replace (negb found && (b =? 36)) with false.
  2: { symmetry. destruct Hs as [Hs| ->]; [|done]. apply andb_false_iff. right. apply Z.eqb_neq. intros ->. tauto. }
  replace (b =? 35) with false by (symmetry; apply Z.eqb_neq; intros ->; tauto).
  rewrite IH; [|tauto|tauto]. by rewrite <- app_assoc.
Qed.
Lemma scan_packet junk body rest : 35 ∉ junk -> 36 ∉ junk -> 35 ∉ body ->
  scan (junk ++ 36 :: body ++ 35 :: rest) false [] = inl body.
Proof.
  intros H1 H2 H3. rewrite scan_app, scan_body by tauto. cbn [scan negb andb]. change (36 =? chr "$") with true. cbn [andb].
  rewrite scan_app, scan_body by tauto. done.
Qed.

(** ** The remote protocol *)

(** The text of a packet, if marks and checksum are right. *)
Fixpoint split_hash (l : list Z) : option (list Z * list Z) :=
  match l with [] => None | c :: l => if c =? 35 then Some ([], l) else
    match split_hash l with Some (a, b) => Some (c :: a, b) | None => None end end.
Definition unhex_pair (h l : Z) : option Z :=
  if (digit_value h <? 16) && (digit_value l <? 16) then Some (16 * digit_value h + digit_value l) else None.
Definition rsp_decode (l : list Z) : option (list Z) :=
  match l with
  | 36 :: l =>
      match split_hash l with
      | Some (body, [h; k]) => if bool_decide (unhex_pair h k = Some (foldr Z.add 0 body mod 256)) then Some body else None
      | _ => None
      end
  | _ => None
  end.
Fixpoint unhex (l : list Z) : option (list Z) :=
  match l with
  | [] => Some []
  | h :: k :: l => match unhex_pair h k, unhex l with Some b, Some bs => Some (b :: bs) | _, _ => None end
  | _ => None
  end.
(** [n] words of eight bytes, the lowest first. *)
Fixpoint words (n : nat) (l : list Z) : list Z :=
  match n with O => [] | S n => le_val (take 8 l) :: words n (drop 8 l) end.

Definition hex_text (bytes : list Z) : list Z := List.concat (List.map serialize_byte bytes).
Definition is_byte (b : Z) : Prop := 0 <= b < 256.

Lemma hex_text_app a b : hex_text (a ++ b) = hex_text a ++ hex_text b.
Proof. unfold hex_text. by rewrite List.map_app, List.concat_app. Qed.
Lemma hex_digit_value v : 0 <= v < 16 -> digit_value (hex_digit v) = v /\ 48 <= hex_digit v < 103.
Proof.
  intros Hv. assert (Hin : In v (seqZ 0 16)) by (apply list_elem_of_In, elem_of_seqZ; lia). cbn in Hin.
  repeat (destruct Hin as [<-|Hin]; [done|]). done.
Qed.
Lemma byte_digits b : is_byte b -> 0 <= b / 16 < 16 /\ 0 <= b mod 16 < 16.
Proof. unfold is_byte. intros Hb. split; [split; [apply Z.div_pos; lia|apply Z.div_lt_upper_bound; lia]|apply Z.mod_pos_bound; lia]. Qed.
Lemma unhex_byte b : is_byte b -> unhex_pair (hex_digit (b / 16)) (hex_digit (b mod 16)) = Some b.
Proof.
  intros Hb. destruct (byte_digits b Hb) as [H1 H2]. unfold unhex_pair.
  destruct (hex_digit_value _ H1) as [-> _], (hex_digit_value _ H2) as [-> _].
  rewrite (proj2 (Z.ltb_lt _ _)), (proj2 (Z.ltb_lt _ _)) by lia. cbn [andb]. f_equal. pose proof (Z.div_mod b 16). lia.
Qed.
Lemma unhex_text bytes : Forall is_byte bytes -> unhex (hex_text bytes) = Some bytes.
Proof.
  induction 1 as [|b bytes Hb _ IH]; [done|]. change (hex_text (b :: bytes)) with (serialize_byte b ++ hex_text bytes).
  cbn [serialize_byte app unhex]. by rewrite unhex_byte, IH.
Qed.
(** Characters of hexadecimal text are neither marks nor negative. *)
Definition plain_text (l : list Z) : Prop := Forall (fun c => 48 <= c < 103) l.
Lemma hex_text_plain bytes : Forall is_byte bytes -> plain_text (hex_text bytes).
Proof.
  induction 1 as [|b bytes Hb _ IH]; [constructor|]. destruct (byte_digits b Hb) as [H1 H2].
  constructor; [apply hex_digit_value, H1|constructor; [apply hex_digit_value, H2|exact IH]].
Qed.

Lemma split_hash_plain body rest : plain_text body -> split_hash (body ++ 35 :: rest) = Some (body, rest).
Proof.
  induction 1 as [|c body Hc _ IH]; [done|]. cbn [app split_hash]. rewrite (proj2 (Z.eqb_neq c 35)) by lia. by rewrite IH.
Qed.
Lemma checksum_sum body acc : 0 <= acc < 256 -> foldl (fun sum c => u8 (sum + c)) acc body = (acc + foldr Z.add 0 body) mod 256.
Proof.
  revert acc. induction body as [|c body IH]; intros acc Ha; cbn [foldl foldr]; [by rewrite Z.add_0_r, Z.mod_small|].
  rewrite IH by apply Z.mod_pos_bound, eq_refl. unfold wrap. change (2 ^ 8) with 256. rewrite Z.add_mod_idemp_l by lia. f_equal. lia.
Qed.
Lemma land_byte x : Z.land x 0xff = x mod 256.
Proof. exact (Z.land_ones x 8 ltac:(lia)). Qed.
Lemma frame_decodes body : plain_text body -> rsp_decode (frame body) = Some body.
Proof.
  intros Hb. unfold rsp_decode, frame. change (str "$") with [36]. change (str "#") with [35]. cbn [app].
  rewrite split_hash_plain by done. unfold serialize_byte, checksum. rewrite checksum_sum by lia. rewrite Z.add_0_l.
  assert (Hm : is_byte (foldr Z.add 0 body mod 256)) by (apply Z.mod_pos_bound; lia).
  rewrite land_byte, Z.mod_mod by lia. by rewrite unhex_byte, bool_decide_true.
Qed.

Lemma serialize_word_text n t : serialize_word n t = hex_text (le_bytes n t).
Proof.
  revert t. induction n as [|n IH]; intros t; [done|]. cbn [serialize_word le_bytes].
  rewrite IH. change (hex_text (?b :: ?l)) with (serialize_byte b ++ hex_text l).
  rewrite land_byte, Z.shiftr_div_pow2 by lia. done.
Qed.
Lemma words_range ws : Forall is_byte (List.concat (List.map (le_bytes 8) ws)).
Proof. induction ws as [|w ws IH]; [constructor|]. cbn [List.map List.concat]. apply Forall_app. split; [apply le_bytes_range|exact IH]. Qed.
Lemma words_concat n ws : length ws = n -> Forall (fits 64) ws -> words n (List.concat (List.map (le_bytes 8) ws)) = ws.
Proof.
  intros <-. induction 1 as [|w ws Hw _ IH]; [done|]. cbn [length words List.map List.concat].
  rewrite take_app_le, drop_app_ge by (rewrite length_le_bytes; lia). rewrite length_le_bytes, Nat.sub_diag, drop_0, IH.
  rewrite take_ge by (rewrite length_le_bytes; lia). f_equal. rewrite le_val_bytes. by apply Z.mod_small.
Qed.

(** Hexadecimal numbers in the text of a packet end at a comma. *)
Definition hex_digits (text : list Z) : Prop := Forall (fun c => digit_value c < 16) text.
Definition hex_value (text : list Z) : Z := foldl (fun v c => v * 16 + digit_value c) 0 text.

Lemma hex_char c : digit_value c < 16 -> 48 <= c <= 57 \/ 97 <= c <= 102 \/ 65 <= c <= 70.
Proof.
  unfold digit_value. destruct ((48 <=? c) && (c <=? 57)) eqn:E1; [bprop; lia|].
  destruct ((97 <=? c) && (c <=? 122)) eqn:E2; [bprop; lia|]. destruct ((65 <=? c) && (c <=? 90)) eqn:E3; [bprop; lia|lia].
Qed.
Lemma digits_comma text acc r : hex_digits text -> digits 16 acc (text ++ 44 :: r) = foldl (fun v c => v * 16 + digit_value c) acc text.
Proof.
  intros Ht. revert acc. induction Ht as [|c text Hc _ IH]; intros acc; [done|]. cbn [app digits foldl].
  rewrite (proj2 (Z.ltb_lt _ _)) by done. apply IH.
Qed.
Lemma skip_prefix_hex text r : hex_digits text -> skip_prefix 16 (text ++ 44 :: r) = text ++ 44 :: r.
Proof.
  intros Ht. assert (Hx : forall x, In x (text ++ [44]) -> (x =? chr "x") || (x =? chr "X") = false).
  { intros x Hx. apply in_app_iff in Hx. change (chr "x") with 120. change (chr "X") with 88. apply orb_false_iff. rewrite !Z.eqb_neq.
    destruct Hx as [Hx|[<-|[]]]; [|lia]. unfold hex_digits in Ht. rewrite Forall_forall in Ht. apply list_elem_of_In in Hx. apply Ht in Hx. apply hex_char in Hx. lia. }
  destruct text as [|z [|x text]]; cbn [app skip_prefix]; [destruct r as [|? [|??]]|destruct r|destruct (text ++ 44 :: r)]; try done.
  - rewrite (Hx 44), andb_false_r by (cbn; tauto). done.
  - rewrite (Hx x), andb_false_r by (cbn; tauto). done.
Qed.
Lemma stoull_hex text r : text <> [] -> hex_digits text -> hex_value text < 2 ^ 64 -> stoull 16 (text ++ 44 :: r) = inr (hex_value text).
Proof.
  intros Hne Ht Hv. destruct text as [|c text]; [done|]. pose proof (Forall_inv Ht) as Hc. cbv beta in Hc. pose proof (hex_char c Hc) as Hr.
  unfold stoull. cbn [app skip_spaces]. replace (is_space c) with false.
  2: { symmetry. unfold is_space. apply orb_false_iff. rewrite Z.eqb_neq, andb_false_iff, !Z.leb_gt. lia. }
  cbn [skip_sign]. change (chr "-") with 45. change (chr "+") with 43.
  rewrite (proj2 (Z.eqb_neq c 45)), (proj2 (Z.eqb_neq c 43)) by lia.
  change (c :: text ++ 44 :: r) with ((c :: text) ++ 44 :: r). rewrite skip_prefix_hex by done. cbn [app].
  rewrite (proj2 (Z.ltb_lt _ _)) by done. change (c :: text ++ 44 :: r) with ((c :: text) ++ 44 :: r).
  rewrite digits_comma by done. fold (hex_value (c :: text)). by rewrite (proj2 (Z.leb_gt _ _)).
Qed.
Lemma find_comma text pos r : hex_digits text -> find_char_from 44 pos (text ++ 44 :: r) = pos + Z.of_nat (length text).
Proof.
  intros Ht. revert pos. induction Ht as [|c text Hc _ IH]; intros pos; cbn [app find_char_from length]; [by rewrite Z.add_0_r|].
  apply hex_char in Hc. rewrite (proj2 (Z.eqb_neq c 44)), IH by lia. lia.
Qed.

Section Session.
Context {Mem : Type} `{Bus Mem}.
Implicit Types s : GDBStub Mem.

Lemma receive_loop_arrived fuel found packet s chunks body : sb_in s = List.map Arrived chunks -> sb_sends s = [] ->
  (input_size (sb_in s) < fuel)%nat -> scan (List.concat chunks) found packet = inl body ->
  exists pre dropped chunks', List.concat chunks = pre ++ 35 :: dropped ++ List.concat chunks' /\ 35 ∉ pre /\
    receive_loop fuel found packet s = Done body (with_out (sb_out s ++ [43]) (with_in (List.map Arrived chunks') s)).
Proof.
  revert found packet s chunks. induction fuel as [|fuel IH]; intros found packet s chunks Hin Hsends Hfuel Hscan; [lia|].
  assert (Hne : List.concat chunks <> []) by (intros E; by rewrite E in Hscan).
  destruct (recv_arrived 4096 chunks ltac:(lia) Hne) as (bs & chunks1 & Hr & Hc).
  pose proof (recv_shrinks 4096 _ _ _ ltac:(lia) Hr) as Hsmall. cbv beta iota in Hsmall. cbn [receive_loop]. rewrite Hin, Hr.
  rewrite Hc, scan_app in Hscan. pose proof (scan_end bs found packet) as Hend.
  destruct (scan bs found packet) as [p|[f p]].
  - injection Hscan as ->. destruct Hend as (pre & post & -> & Hpre). exists pre, post, chunks1.
    split_and!; [by rewrite Hc, <- app_assoc|done|]. unfold send_ack, send_or, send, sbind. cbn [sb_sends with_in]. by rewrite Hsends.
  - destruct (IH f p (with_in (List.map Arrived chunks1) s) chunks1) as (pre & dropped & chunks' & He & Hpre & Hd);
      [done|done|cbn [sb_in with_in]; rewrite Hin in Hfuel; lia|done|].
    exists (bs ++ pre), dropped, chunks'. split_and!; [by rewrite Hc, He, <- app_assoc|by rewrite elem_of_app; tauto|exact Hd].
Qed.

(** C15. A packet of the remote protocol is received as it was sent, wherever the
    connection cuts the stream, and after whatever stray characters: acknowledgements and
    the checksum of the packet before. One acknowledgement is sent, and the input that
    stays is the chunks from some point after the packet on: what may be dropped of the
    rest of the stream is a first part of it. *)
Theorem packet_received s chunks junk body rest : sb_in s = List.map Arrived chunks -> sb_sends s = [] ->
  List.concat chunks = junk ++ 36 :: body ++ 35 :: rest -> 35 ∉ junk -> 36 ∉ junk -> 35 ∉ body ->
  exists dropped chunks', rest = dropped ++ List.concat chunks' /\
    receive_packet s = Done body (with_out (sb_out s ++ [43]) (with_in (List.map Arrived chunks') s)).
Proof.
  intros Hin Hsends Hc H1 H2 H3.
  destruct (receive_loop_arrived (S (input_size (sb_in s))) false [] s chunks body Hin Hsends ltac:(lia)) as (pre & dropped & chunks' & He & Hpre & Hd).
  { rewrite Hc. by apply scan_packet. }
  exists dropped, chunks'. split; [|exact Hd]. rewrite Hc in He.
  change (junk ++ 36 :: body ++ 35 :: rest) with (junk ++ (36 :: body) ++ 35 :: rest) in He. rewrite app_assoc in He.
  apply first_unique in He as [_ ->]; [done| |done].
  rewrite elem_of_app, elem_of_cons. intuition congruence.
Qed.

(** ** The loops of the stub end *)

(** An operation that returns has not made input, on an open connection; it does not
    spin, and has enough fuel. *)
Definition turn_ok {A} (bound : nat -> Prop) (r : result (Mem := Mem) A) : Prop :=
  match r with
  | Done _ s' => bound (input_size (sb_in s')) /\ is_open (sb_in s')
  | NoFuel | Forever | UndefinedAck => False
  | _ => True
  end.
Definition shrinks {A} (m : op (Mem := Mem) A) : Prop :=
  forall s, is_open (sb_in s) -> turn_ok (fun n => (n <= input_size (sb_in s))%nat) (m s).
Lemma turn_ok_mono {A} (P Q : nat -> Prop) (x : result A) : turn_ok P x -> (forall n, P n -> Q n) -> turn_ok Q x.
Proof. destruct x; cbn; try done. intros [H1 H2] Hi. split; auto. Qed.
Lemma turn_ok_bind {A B} (m : op A) (k : A -> op B) P Q s : turn_ok P (m s) ->
  (forall a s', P (input_size (sb_in s')) -> is_open (sb_in s') -> turn_ok Q (k a s')) -> turn_ok Q (sbind m k s).
Proof. unfold sbind. destruct (m s); cbn; try done. intros [H1 H2] Hk. by apply Hk. Qed.

Lemma shrinks_bind {A B} (m : op A) (k : A -> op B) : shrinks m -> (forall a, shrinks (k a)) -> shrinks (sbind m k).
Proof.
  intros Hm Hk s Ho. eapply turn_ok_bind; [by apply Hm|]. cbv beta. intros a s' Hle Ho'.
  eapply turn_ok_mono; [by apply Hk|]. cbv beta. lia.
Qed.
Lemma shrinks_sret {A} (a : A) : shrinks (sret a).
Proof. intros s Ho. by split. Qed.
Lemma shrinks_lift {A} (x : exn + A) : shrinks (lift x).
Proof. destruct x; [intros s _; exact I|apply shrinks_sret]. Qed.
Lemma shrinks_debug f : shrinks (debug f).
Proof. intros s Ho. by split. Qed.
Lemma shrinks_debug_act {A} (m : act A) : shrinks (debug_act m).
Proof. intros s Ho. unfold debug_act. by destruct (m (sb_debug s)); [split|..]. Qed.
Lemma shrinks_resp {A} (a : A) b : shrinks (fun s => Done a (with_need_resp b s)).
Proof. intros s Ho. by split. Qed.
Lemma shrinks_wait_ack : shrinks wait_ack.
Proof.
  intros s Ho. unfold wait_ack. destruct (recv 1 (sb_in s)) as [[r inp]|] eqn:E; [|done].
  destruct (recv_open _ _ _ _ Ho E) as [[bs ->] Ho']. pose proof (recv_shrinks 1 _ _ _ ltac:(lia) E) as Hs. cbv beta iota in Hs.
  destruct (_ =? _); [|done]. split; [|exact Ho']. cbn [sb_in with_in]. lia.
Qed.
Lemma shrinks_send_or bytes : shrinks (send_or bytes).
Proof. intros s Ho. unfold send_or, sbind, send. by destruct (sb_sends s) as [|[n|] r]; [split|split|]. Qed.
Lemma shrinks_send_packet packet : shrinks (send_packet packet).
Proof. apply shrinks_bind; [apply shrinks_send_or|intros _; apply shrinks_wait_ack]. Qed.
Lemma shrinks_if {A} (b : bool) (m n : op A) : shrinks m -> shrinks n -> shrinks (if b then m else n).
Proof. by destruct b. Qed.
Lemma shrinks_read_memory addr n : shrinks (read_memory addr n).
Proof.
  revert addr. induction n as [|n IH]; intros addr; [apply shrinks_sret|].
  apply shrinks_bind; [apply shrinks_debug_act|intros b]. apply shrinks_bind; [apply IH|intros r; apply shrinks_sret].
Qed.
Lemma shrinks_write_memory addr data pos n : shrinks (write_memory addr data pos n).
Proof.
  revert pos. induction n as [|n IH]; intros pos; [apply shrinks_sret|].
  apply shrinks_bind; [apply shrinks_lift|intros v]. apply shrinks_bind; [apply shrinks_debug_act|intros _; apply IH].
Qed.
Lemma shrinks_write_registers i vals : shrinks (write_registers i vals).
Proof.
  revert i. induction vals as [|v vals IH]; intros i; [apply shrinks_sret|]. apply shrinks_bind; [apply shrinks_debug|intros _; apply IH].
Qed.

Ltac shrinks_step :=
  lazymatch goal with
  | |- shrinks (sbind _ _) => apply shrinks_bind; [|intros ?]
  | |- shrinks (if _ then _ else _) => apply shrinks_if
  | |- shrinks (sret _) => apply shrinks_sret
  | |- shrinks (lift _) => apply shrinks_lift
  | |- shrinks (debug _) => apply shrinks_debug
  | |- shrinks (send_packet _) => apply shrinks_send_packet
  | |- shrinks CMD_NOT_SUPPORTED => apply shrinks_send_packet
  | |- shrinks (read_memory _ _) => apply shrinks_read_memory
  | |- shrinks (write_memory _ _ _ _) => apply shrinks_write_memory
  | |- shrinks (write_registers _ _) => apply shrinks_write_registers
  | |- shrinks (fun s => Done _ (with_need_resp _ s)) => apply shrinks_resp
  end.
Lemma shrinks_handle_packet packet : shrinks (handle_packet packet).
Proof.
  unfold handle_packet, breakpoint_packet. cbv zeta. repeat shrinks_step.
  intros s Ho. by apply (shrinks_bind _ _ (shrinks_send_packet _) (fun _ => shrinks_sret false) s).
Qed.

Lemma receive_loop_shrinks fuel found packet s : is_open (sb_in s) -> (input_size (sb_in s) < fuel)%nat ->
  turn_ok (fun n => (n < input_size (sb_in s))%nat) (receive_loop fuel found packet s).
Proof.
  revert found packet s. induction fuel as [|fuel IH]; intros found packet s Ho Hf; [lia|]. cbn [receive_loop].
  destruct (recv 4096 (sb_in s)) as [[r inp]|] eqn:E; [|done].
  destruct (recv_open _ _ _ _ Ho E) as [[bs ->] Ho']. pose proof (recv_shrinks 4096 _ _ _ ltac:(lia) E) as Hs. cbv beta iota in Hs.
  destruct (scan bs found packet) as [p|[f p]].
  - assert (Hk : shrinks (sbind send_ack (fun _ => sret p))) by (apply shrinks_bind; [apply shrinks_send_or|intros _; apply shrinks_sret]).
    eapply turn_ok_mono; [by apply Hk|]. cbn [sb_in with_in]. lia.
  - eapply turn_ok_mono; [apply IH; [done|]|]; cbn [sb_in with_in]; lia.
Qed.

Lemma packet_loop_shrinks fuel s : is_open (sb_in s) -> (input_size (sb_in s) < fuel)%nat ->
  turn_ok (fun _ => True) (packet_loop fuel s).
Proof.
  revert s. induction fuel as [|fuel IH]; intros s Ho Hf; [lia|]. cbn [packet_loop].
  eapply turn_ok_bind; [apply receive_loop_shrinks; [done|lia]|]. cbv beta. intros p s1 H1 Ho1.
  eapply turn_ok_bind; [by apply shrinks_handle_packet|]. cbv beta. intros stop s2 H2 Ho2.
  destruct stop; [by split|]. apply IH; [done|lia].
Qed.

(** On a connection that stays open every turn of the command processor's thread
    ends: the stub answers the packets that have arrived until one of them resumes the
    core, or waits for the next one, or an exception ends the simulation. It does not
    spin, uses no acknowledgement it did not receive, and the fuel of its loops is never
    used up. *)
Theorem thread_turn_ends debug_mode s : is_open (sb_in s) ->
  match thread_proc debug_mode s with Done _ _ | Blocked _ | Throw _ | CoreFailed _ => True | Forever | UndefinedAck | NoFuel => False end.
Proof.
  intros Ho. assert (Hm : forall s, is_open (sb_in s) -> turn_ok (fun _ => True) (gdb_main s)).
  { clear. intros s Ho. unfold gdb_main. eapply turn_ok_bind with (P := fun n => (n <= input_size (sb_in s))%nat).
    - destruct (sb_need_resp s); [|by apply shrinks_sret].
      apply shrinks_bind; [apply shrinks_send_packet|intros _; apply shrinks_resp|done].
    - intros _ s1 _ Ho1. apply packet_loop_shrinks; [done|lia]. }
  assert (Ht : turn_ok (fun _ => True) (thread_proc debug_mode s)); [|by destruct (thread_proc debug_mode s)].
  unfold thread_proc. destruct debug_mode, (co_status (sb_debug s)).
  all: try (eapply turn_ok_mono; [by apply shrinks_debug_act|done]).
  eapply turn_ok_bind with (P := fun _ => True); [|intros _ s1 _ Ho1; by apply Hm].
  destruct (sb_port_connected s); [by split|]. unfold connect. by destruct (sb_accepts s); [split|].
Qed.

(** ** Replies *)

Lemma reply_sent s packet ack inp : sb_sends s = [] -> sb_in s = Arrived (43 :: ack) :: inp ->
  exists inp', send_packet packet s = Done tt (with_in inp' (with_out (sb_out s ++ frame packet) s)).
Proof.
  intros Hs Hin. unfold send_packet, send_or, send, sbind. rewrite Hs. unfold wait_ack. cbn [sb_in with_out sret]. rewrite Hin.
  by destruct ack; eexists.
Qed.

(** The reply to [g] is a frame of the remote protocol that a debugger decodes to
    the 32 registers and the program counter: marks and checksum are right, and the text
    is the bytes of the words in hexadecimal, the lowest first. *)
Theorem registers_reply s ack inp : sb_sends s = [] -> sb_in s = Arrived (43 :: ack) :: inp -> core_inv (sb_debug s) ->
  exists s' reply body bytes, handle_packet (str "g") s = Done false s' /\ sb_debug s' = sb_debug s /\
    sb_out s' = sb_out s ++ reply /\ rsp_decode reply = Some body /\ unhex body = Some bytes /\
    words 33 bytes = List.map u64 (co_regs (sb_debug s)) ++ [co_pc (sb_debug s)].
Proof.
  intros Hs Hin Hc. set (body := serialize_regs (get_registers (sb_debug s)) (get_program_counter (sb_debug s))).
  destruct (reply_sent s body ack inp Hs Hin) as [inp' E].
  exists (with_in inp' (with_out (sb_out s ++ frame body) s)), (frame body), body,
    (List.concat (List.map (le_bytes 8) (List.map u64 (co_regs (sb_debug s)) ++ [co_pc (sb_debug s)]))).
  assert (Hbody : body = hex_text (List.concat (List.map (le_bytes 8) (List.map u64 (co_regs (sb_debug s)) ++ [co_pc (sb_debug s)])))).
  { unfold body, serialize_regs, get_registers, get_program_counter. rewrite List.map_app, List.concat_app, hex_text_app. f_equal.
    - induction (co_regs (sb_debug s)) as [|r rs IH]; [done|]. cbn [List.map List.concat]. by rewrite hex_text_app, <- IH, serialize_word_text.
    - cbn [List.map List.concat]. by rewrite app_nil_r, serialize_word_text. }
  split_and!; [|done|done| | |].
  - transitivity (sbind (send_packet body) (fun _ => sret false) s); [done|]. unfold sbind. by rewrite E.
  - rewrite Hbody. apply frame_decodes, hex_text_plain, words_range.
  - rewrite Hbody. apply unhex_text, words_range.
  - apply words_concat; [by rewrite length_app, List.length_map, (inv_length _ Hc)|]. apply Forall_app. split.
    + apply Forall_forall. intros x Hx. apply list_elem_of_fmap in Hx as (y & -> & _). by apply wrap_fits.
    + constructor; [apply Hc|done].
Qed.

(** The address of a breakpoint packet. *)
Lemma breakpoint_address a b text kind : text <> [] -> hex_digits text -> hex_value text < 2 ^ 64 ->
  let packet := a :: b :: 44 :: text ++ 44 :: kind in
  bind_e (substr 3 (find_char (chr ",") 3 packet) packet) (stoull 16) = inr (hex_value text).
Proof.
  intros Hne Ht Hv. cbv zeta. unfold find_char. change (chr ",") with 44.
  change (drop 3 (a :: b :: 44 :: text ++ 44 :: kind)) with (text ++ 44 :: kind). rewrite find_comma by done. unfold substr.
  set (packet := a :: b :: 44 :: text ++ 44 :: kind).
  assert (Hl : length packet = (4 + length text + length kind)%nat) by (unfold packet; cbn [length]; rewrite length_app; cbn [length]; lia).
  rewrite (proj2 (Z.ltb_ge _ _)), (proj2 (Z.ltb_lt _ _)) by lia. cbn [bind_e].
  change (drop (Z.to_nat 3) packet) with (text ++ 44 :: kind).
  rewrite take_app_ge by lia. replace (Z.to_nat _ - length text)%nat with 3%nat by lia. cbn [take]. by apply stoull_hex.
Qed.

(** The debugger's commands for breakpoints: the packet is acknowledged with [OK],
    and from then on a core in debug mode whose program counter is at the address stops
    there before the instruction, with nothing changed but its status. *)
Theorem breakpoint_stops s text kind ack inp : sb_sends s = [] -> sb_in s = Arrived (43 :: ack) :: inp ->
  text <> [] -> hex_digits text -> hex_value text < 2 ^ 64 ->
  exists s', handle_packet (str "Z0," ++ text ++ 44 :: kind) s = Done false s' /\ sb_out s' = sb_out s ++ frame (str "OK") /\
    sb_debug s' = insert_breakpoint (hex_value text) (sb_debug s) /\
    forall c, co_breakpoints c = co_breakpoints (sb_debug s') -> co_debug_mode c = true -> co_pc c = hex_value text ->
      regfile_read 0 c = 0 -> run_step c = Ret tt (with_status HitBreakpoint c).
Proof.
  intros Hs Hin Hne Ht Hv.
  set (s1 := with_debug (insert_breakpoint (hex_value text) (sb_debug s)) s).
  destruct (reply_sent s1 (str "OK") ack inp Hs Hin) as [inp' E].
  exists (with_in inp' (with_out (sb_out s1 ++ frame (str "OK")) s1)). split_and!; [|done|done|].
  - change (str "Z0," ++ text ++ 44 :: kind) with (90 :: 48 :: 44 :: text ++ 44 :: kind).
    transitivity (breakpoint_packet (90 :: 48 :: 44 :: text ++ 44 :: kind) insert_breakpoint s); [done|].
    unfold breakpoint_packet. change (at_pos 1 _ =? chr "0") with true. cbn [orb].
    rewrite breakpoint_address by done. unfold sbind. cbn [lift sret]. unfold debug. fold s1. by rewrite E.
  - intros c Hb Hd Hpc H0. cbn [sb_debug with_in with_out s1 with_debug co_breakpoints insert_breakpoint with_breakpoints] in Hb.
    unfold run_step, bind, gets, id. rewrite H0, Hd, Hb, Hpc. cbn [Z.eqb assert ret existsb]. by rewrite Z.eqb_refl.
Qed.
End Session.

(** ** Examples *)

(** A connection to a core at reset. *)
Definition stub_of (inp : list recv_event) : GDBStub FlatBus.flat := mkStub inp [] [] true true false (core_init 0 (FlatBus.filled 0)).

Lemma packet_received_witness : exists s', receive_packet (stub_of [Arrived (str "+$qOff"); Arrived (str "sets#4b")]) = Done (str "qOffsets") s'.
Proof.
  destruct (packet_received (stub_of [Arrived (str "+$qOff"); Arrived (str "sets#4b")]) [str "+$qOff"; str "sets#4b"] (str "+") (str "qOffsets") (str "4b"))
    as (dropped & chunks' & _ & E); [reflexivity|reflexivity|reflexivity|..|by eexists; exact E].
  all: apply (bool_decide_unpack _); vm_compute; exact I.
Defined.

Lemma thread_turn_ends_witness : is_open (sb_in (stub_of [Arrived (str "$?#3f")])) /\
  match thread_proc true (stub_of [Arrived (str "$?#3f")]) with Done _ _ | Blocked _ | Throw _ | CoreFailed _ => True | _ => False end.
Proof.
  assert (Ho : is_open (sb_in (stub_of [Arrived (str "$?#3f")]))) by (by repeat constructor).
  split; [exact Ho|]. exact (thread_turn_ends true _ Ho).
Defined.

Lemma registers_reply_witness : exists s', handle_packet (str "g") (stub_of [Arrived (str "+")]) = Done false s' /\ sb_out s' <> [].
Proof.
  destruct (registers_reply (stub_of [Arrived (str "+")]) [] []) as (s' & reply & body & bytes & E & _ & Ho & Hd & _);
    [done|done|by apply core_init_inv|]. exists s'. split; [exact E|]. rewrite Ho. by destruct reply.
Defined.

Lemma breakpoint_stops_witness : exists s', handle_packet (str "Z0,80001fC4,4") (stub_of [Arrived (str "+")]) = Done false s' /\
  co_breakpoints (sb_debug s') = [0x80001fc4].
Proof.
  destruct (breakpoint_stops (stub_of [Arrived (str "+")]) (str "80001fC4") (str "4") [] []) as (s' & E & _ & Hd & _);
    [done|done|done|by repeat constructor|done|]. exists s'. split; [exact E|]. by rewrite Hd.
Defined.

(** The packet [G] that writes back what [g] has read ends the simulation: its numbers
    are read as decimal ones. *)
Example write_back_throws : handle_packet (str "G" ++ serialize_regs (replicate 32 255) 0) (stub_of [Arrived (str "+")]) = Throw InvalidArgument.
Proof. reflexivity. Qed.
(** Two bytes written at 0x10: the first address gets the second byte, the second
    none, and there is no reply. *)
Example write_memory_misplaced : exists s', handle_packet (str "M10,2:abcd") (stub_of []) = Done false s' /\ sb_out s' = [] /\
  co_mem (sb_debug s') 0x10 = 0xcd /\ co_mem (sb_debug s') 0x11 = 0.
Proof. eexists. by split_and!. Qed.
(** A closed connection: the stub waits for a packet for ever. *)
Example closed_connection_spins : thread_proc true (with_debug (with_status HitBreakpoint (core_init 0 (FlatBus.filled 0))) (stub_of [Closed])) = Forever.
Proof. reflexivity. Qed.
