(* ===== verification/Heap.v ===== *)
(** * The heap of the firmware's C library (fw/nanolibc/c/malloc.c)

    [malloc], [free], [calloc] and [realloc] over the allocator of the runtime, of which
    the library relies on an interface only ([Runtime], [RuntimeLaws]). A block of the C
    library lies in a larger one of the runtime, aligned to 16 bytes behind a header with
    the runtime's pointer and the size. Memory is that of CMem.v; the runtime may change
    every byte outside the blocks it has handed out.

    A client's view is a list of blocks with their contents; the main theorem is that
    every call refines an allocator over such lists. *)

From S2P Require Import Prelude CMem.

(** ** The runtime *)

Class Runtime (H : Type) := {
  rt_malloc : Z -> mem * H -> Z * (mem * H);
  rt_free : Z -> mem * H -> mem * H;
  (** The blocks handed out: address and size. *)
  rt_live : H -> list (Z * Z)
}.

Definition in_block (a : Z) (b : Z * Z) : Prop := b.1 <= a < b.1 + b.2.
Definition apart (b b' : Z * Z) : Prop := b.1 + b.2 <= b'.1 \/ b'.1 + b'.2 <= b.1.
Definition same_in (bs : list (Z * Z)) (m m' : mem) : Prop := forall b a, b ∈ bs -> in_block a b -> m' a = m a.
(** What is known of the heap of the runtime between calls. *)
Record rt_ok (H : Type) `{Runtime H} (s : mem * H) : Prop := {
  rt_mem : mem_ok s.1;
  rt_placed : forall b, b ∈ rt_live s.2 -> 0 < b.1 /\ 0 < b.2 /\ b.1 + b.2 <= 2 ^ 63;
  rt_apart : forall b b', b ∈ rt_live s.2 -> b' ∈ rt_live s.2 -> b = b' \/ apart b b'
}.
Class RuntimeLaws (H : Type) `{Runtime H} := {
  rt_malloc_ok n s p s' : rt_ok H s -> 0 < n -> rt_malloc n s = (p, s') ->
    rt_ok H s' /\ same_in (rt_live s.2) s.1 s'.1 /\
    ((p = 0 /\ rt_live s'.2 = rt_live s.2) \/
     (rt_live s'.2 = (p, n) :: rt_live s.2 /\ forall b, b ∈ rt_live s.2 -> apart (p, n) b));
  rt_free_ok p n s : rt_ok H s -> (p, n) ∈ rt_live s.2 ->
    rt_ok H (rt_free p s) /\ (forall b, b ∈ rt_live (rt_free p s).2 <-> b ∈ rt_live s.2 /\ b <> (p, n)) /\
    same_in (rt_live (rt_free p s).2) s.1 (rt_free p s).1;
  (** The client's stores do not disturb the runtime. *)
  rt_store_ok m m' h : rt_ok H (m, h) -> mem_ok m' -> rt_ok H (m', h)
}.

(** ** The library *)

Definition NNLC_MALLOC_ALIGNMENT : Z := 16.
Definition NNLC_ALIGNMENT_MASK : Z := NNLC_MALLOC_ALIGNMENT - 1.
(** [sizeof(struct malloc_block)] *)
Definition sizeof_malloc_block : Z := 16.

Definition pad_for_alignment (requested_size : Z) : Z := s64 (requested_size + NNLC_MALLOC_ALIGNMENT - 1).
Definition align_after (mem reserved_space : Z) : Z :=
  u64 (Z.land (pad_for_alignment (s64 (mem +% reserved_space))) (Z.lnot NNLC_ALIGNMENT_MASK)).
Definition get_malloc_block (p : Z) : Z := p - sizeof_malloc_block.
(** The members [mem] and [nbytes]. *)
Definition block_mem (m : mem) (p : Z) : Z := load_word m (get_malloc_block p).
Definition block_nbytes (m : mem) (p : Z) : Z := load_word m (get_malloc_block p + 8).

Section Heap.
Context {H : Type} `{Runtime H}.

Definition state : Type := mem * H.

Definition malloc (size : Z) (s : state) : Z * state :=
  let mem_size := pad_for_alignment (s64 size) +% sizeof_malloc_block in
  if size <=? 0 then (0, s) else
  let '(mem, s) := rt_malloc mem_size s in
  if mem =? 0 then (0, s) else
  let p := align_after mem sizeof_malloc_block in
  let m := store_word s.1 (get_malloc_block p) mem in
  let m := store_word m (get_malloc_block p + 8) size in
  (p, (m, s.2)).

Definition free (ptr : Z) (s : state) : state :=
  if ptr =? 0 then s else rt_free (block_mem s.1 ptr) s.

(** [None]: a null pointer is passed to [memset]. *)
Definition calloc (num size : Z) (s : state) : option (Z * state) :=
  let len := num *% size in
  if (size =? 0) || negb (num =? len / size) then Some (0, s) else
  let '(buf, s) := malloc len s in
  if (buf =? 0) && negb (len =? 0) then None else
  r ← memset s.1 buf 0 len;
  Some (buf, (r.1, s.2)).

Definition realloc (ptr size : Z) (s : state) : option (Z * state) :=
  if ptr =? 0 then Some (malloc size s)
  else if size <=? 0 then Some (0, free ptr s)
  else
    let prev_size := block_nbytes s.1 ptr in
    if size <=? prev_size then Some (ptr, s) else
    let '(new_ptr, s) := malloc size s in
    m ← (if negb (new_ptr =? 0) then r ← memcpy s.1 new_ptr ptr prev_size; Some r.1 else Some s.1);
    Some (new_ptr, free ptr (m, s.2)).

(** ** Addresses *)

(** Sizes for which the size asked of the runtime does not wrap around. *)
Definition size_ok (size : Z) : Prop := 0 < size < 2 ^ 63 - 31.

Lemma swrap_id x : - 2 ^ 63 <= x < 2 ^ 63 -> s64 x = x.
Proof.
  intros Hx. unfold swrap. cbv zeta. destruct (Z.lt_ge_cases x 0) as [Hn|Hn].
  - replace (x mod 2 ^ 64) with (x + 2 ^ 64) by (apply Z.mod_unique with (q := -1); lia).
    rewrite (proj2 (Z.ltb_ge _ _)) by lia. lia.
  - rewrite Z.mod_small by lia. by rewrite (proj2 (Z.ltb_lt _ _)) by lia.
Qed.
Lemma mem_size_ok size : size_ok size -> pad_for_alignment (s64 size) +% sizeof_malloc_block = size + 31.
Proof.
  unfold size_ok, pad_for_alignment, sizeof_malloc_block, NNLC_MALLOC_ALIGNMENT. intros Hs.
  rewrite (swrap_id size), swrap_id by lia. unfold wrap. rewrite Z.mod_small by lia. lia.
Qed.

(** The block lies behind a header inside the runtime's block. *)
Lemma align_after_ok mem size : 0 < mem -> 0 < size -> mem + (size + 31) <= 2 ^ 63 ->
  let p := align_after mem sizeof_malloc_block in
  p mod 16 = 0 /\ mem <= get_malloc_block p /\ p + size <= mem + (size + 31).
Proof.
  intros Hm Hs Hb.
  assert (E : align_after mem sizeof_malloc_block = (mem + 31) / 16 * 16).
  { unfold align_after, pad_for_alignment, sizeof_malloc_block, NNLC_ALIGNMENT_MASK, NNLC_MALLOC_ALIGNMENT.
    replace (mem +% 16) with (mem + 16) by (symmetry; apply Z.mod_small; lia). rewrite (swrap_id (mem + 16)), swrap_id by lia.
    replace (mem + 16 + 16 - 1) with (mem + 31) by lia. change (16 - 1) with (Z.ones 4).
    rewrite <- Z.ldiff_land, Z.ldiff_ones_r, Z.shiftl_mul_pow2, Z.shiftr_div_pow2 by lia.
    pose proof (Z.div_mod (mem + 31) 16). pose proof (Z.mod_pos_bound (mem + 31) 16). apply Z.mod_small. lia. }
  cbv zeta. rewrite E. unfold get_malloc_block, sizeof_malloc_block.
  pose proof (Z.div_mod (mem + 31) 16). pose proof (Z.mod_pos_bound (mem + 31) 16). split; [apply Z.mod_mul; lia|lia].
Qed.

(** ** Memory *)

Lemma bytes_ext m m' p n : (forall a, p <= a < p + Z.of_nat n -> m' a = m a) -> bytes m' p n = bytes m p n.
Proof.
  intros Ha. unfold bytes. apply list_fmap_ext. intros i x Hx. apply lookup_seq in Hx as [-> Hi]. apply Ha. lia.
Qed.
Lemma store_bytes_ok m p l : mem_ok m -> Forall (fun b => 0 <= b < 256) l -> mem_ok (store_bytes m p l).
Proof.
  intros Hm Hl a. unfold store_bytes. bcase; [|apply Hm].
  destruct (nth_in_or_default (Z.to_nat (a - p)) l 0) as [Hin| ->]; [|lia].
  rewrite Forall_forall in Hl. by apply Hl, list_elem_of_In.
Qed.
Lemma store_word_ok m p w : mem_ok m -> mem_ok (store_word m p w).
Proof. intros Hm. apply store_bytes_ok; [done|apply le_bytes_range]. Qed.
Lemma store_word_out m p w a : ~ p <= a < p + 8 -> store_word m p w a = m a.
Proof. intros Ha. unfold store_word. apply store_bytes_out. by rewrite length_le_bytes. Qed.
Lemma bytes_store m p l : bytes (store_bytes m p l) p (length l) = l.
Proof.
  apply (nth_ext _ _ 0 0); [by rewrite length_bytes|]. intros i Hi. rewrite length_bytes in Hi.
  rewrite bytes_nth, store_bytes_at by lia. f_equal. lia.
Qed.
Lemma load_store_word m p w : fits 64 w -> load_word (store_word m p w) p = w.
Proof.
  intros Hw. unfold load_word, store_word. replace 8%nat with (length (le_bytes 8 w)) at 2 by apply length_le_bytes.
  rewrite bytes_store, le_val_bytes. by apply Z.mod_small.
Qed.
Lemma load_word_ext m m' p : (forall a, p <= a < p + 8 -> m' a = m a) -> load_word m' p = load_word m p.
Proof. intros Ha. unfold load_word. by rewrite (bytes_ext m m'). Qed.

(** ** The client's view *)

Record block := mkBlock { b_ptr : Z; b_data : list Z }.
Definition b_size (b : block) : Z := Z.of_nat (length (b_data b)).
Definition b_span (b : block) : Z * Z := (b_ptr b, b_size b).
(** The block of the runtime behind [b]. *)
Definition extent (m : mem) (b : block) : Z * Z := (block_mem m (b_ptr b), b_size b + 31).

Record block_ok (s : state) (b : block) : Prop := {
  bk_size : size_ok (b_size b);
  bk_aligned : b_ptr b mod 16 = 0;
  bk_live : extent s.1 b ∈ rt_live s.2;
  bk_nbytes : block_nbytes s.1 (b_ptr b) = b_size b;
  bk_low : (extent s.1 b).1 <= get_malloc_block (b_ptr b);
  bk_high : b_ptr b + b_size b <= (extent s.1 b).1 + (extent s.1 b).2;
  bk_data : bytes s.1 (b_ptr b) (length (b_data b)) = b_data b
}.
Record heap_ok (bs : list block) (s : state) : Prop := {
  ho_rt : rt_ok H s;
  ho_blocks : forall b, b ∈ bs -> block_ok s b;
  ho_distinct : NoDup bs /\ forall b b', b ∈ bs -> b' ∈ bs -> block_mem s.1 (b_ptr b) = block_mem s.1 (b_ptr b') -> b = b'
}.

(** A block does not change when its extent does not. *)
Lemma block_frame (s s' : state) b : block_ok s b -> (forall a, in_block a (extent s.1 b) -> s'.1 a = s.1 a) ->
  extent s.1 b ∈ rt_live s'.2 -> block_ok s' b /\ block_mem s'.1 (b_ptr b) = block_mem s.1 (b_ptr b).
Proof.
  intros [H1 H2 H3 H4 H5 H6 H7] Hm Hl. unfold in_block in Hm. unfold get_malloc_block, sizeof_malloc_block, size_ok in *.
  assert (E : block_mem s'.1 (b_ptr b) = block_mem s.1 (b_ptr b)).
  { apply load_word_ext. intros a Ha. apply Hm. unfold get_malloc_block, sizeof_malloc_block in *. lia. }
  split; [|exact E]. assert (Ee : extent s'.1 b = extent s.1 b) by (unfold extent; by rewrite E).
  constructor; rewrite ?Ee; try done.
  - rewrite <- H4. apply load_word_ext. intros a Ha. apply Hm. unfold get_malloc_block, sizeof_malloc_block in *. lia.
  - rewrite <- H7 at 2. apply bytes_ext. intros a Ha. apply Hm. unfold b_size in *. lia.
Qed.

Lemma extents_apart bs s b b' : heap_ok bs s -> b ∈ bs -> b' ∈ bs -> b = b' \/ apart (extent s.1 b) (extent s.1 b').
Proof.
  intros Hh Hb Hb'. destruct (rt_apart H s (ho_rt _ _ Hh) (extent s.1 b) (extent s.1 b')) as [E|Ha].
  - apply (ho_blocks _ _ Hh b Hb).
  - apply (ho_blocks _ _ Hh b' Hb').
  - left. injection E as E _. by apply (ho_distinct _ _ Hh).
  - by right.
Qed.
(** Different blocks of the client do not overlap. *)
Lemma blocks_apart bs s b b' : heap_ok bs s -> b ∈ bs -> b' ∈ bs -> b = b' \/ apart (b_span b) (b_span b').
Proof.
  intros Hh Hb Hb'. destruct (extents_apart bs s b b' Hh Hb Hb') as [->|Ha]; [by left|right].
  pose proof (ho_blocks _ _ Hh b Hb) as [H1 _ _ _ H2 H3 _]. pose proof (ho_blocks _ _ Hh b' Hb') as [H4 _ _ _ H5 H6 _].
  unfold apart, b_span, extent, get_malloc_block, sizeof_malloc_block in *. cbn [fst snd] in *. lia.
Qed.

Context {laws : RuntimeLaws H}.

(** Blocks in the runtime's blocks are kept by whatever leaves those alone. *)
Lemma heap_frame bs (s s' : state) : heap_ok bs s -> rt_ok H s' -> (forall b, b ∈ bs -> extent s.1 b ∈ rt_live s'.2) ->
  (forall b a, b ∈ bs -> in_block a (extent s.1 b) -> s'.1 a = s.1 a) ->
  heap_ok bs s' /\ forall b, b ∈ bs -> block_mem s'.1 (b_ptr b) = block_mem s.1 (b_ptr b).
Proof.
  intros Hh Hrt Hl Hm.
  assert (Hb : forall b, b ∈ bs -> block_ok s' b /\ block_mem s'.1 (b_ptr b) = block_mem s.1 (b_ptr b)).
  { intros b Hb. apply (block_frame s); [by apply Hh|intros a Ha; by eapply Hm|by apply Hl]. }
  split; [|intros b Hin; by apply Hb]. destruct Hh as [_ _ [Hnd Hd]]. constructor; [done|intros b Hin; by apply Hb|].
  split; [done|]. intros b b' H1 H2. destruct (Hb b H1) as [_ ->], (Hb b' H2) as [_ ->]. by apply Hd.
Qed.

Lemma heap_sub bs bs' s : heap_ok bs s -> (forall b, b ∈ bs' -> b ∈ bs) -> NoDup bs' -> heap_ok bs' s.
Proof. intros [H1 H2 [_ H3]] Hs Hnd. constructor; [done|auto|split; auto]. Qed.

Lemma store_keeps bs s m' : heap_ok bs s -> mem_ok m' ->
  (forall b a, b ∈ bs -> in_block a (extent s.1 b) -> m' a = s.1 a) -> heap_ok bs (m', s.2).
Proof.
  intros Hh Hm Ha. destruct s as [m h]. apply (heap_frame bs (m, h)); [done|exact (rt_store_ok m m' h (ho_rt _ _ Hh) Hm)| |done].
  intros b Hb. by apply Hh.
Qed.

Definition fresh (bs : list block) (p n : Z) : Prop := forall b, b ∈ bs -> apart (p, n) (b_span b).

(** The header of a new block, in a block of the runtime no other block lies in. *)
Definition place (mem size : Z) (m : CMem.mem) : CMem.mem :=
  let p := align_after mem sizeof_malloc_block in
  store_word (store_word m (get_malloc_block p) mem) (get_malloc_block p + 8) size.

Lemma place_ok bs (s : state) mem size : heap_ok bs s -> size_ok size -> (mem, size + 31) ∈ rt_live s.2 ->
  (forall b, b ∈ bs -> apart (mem, size + 31) (extent s.1 b)) ->
  let p := align_after mem sizeof_malloc_block in let b1 := mkBlock p (bytes (place mem size s.1) p (Z.to_nat size)) in
  b_size b1 = size /\ 0 < p /\ heap_ok (b1 :: bs) (place mem size s.1, s.2) /\ fresh bs p size /\
  forall b, b ∈ bs -> block_mem (place mem size s.1) (b_ptr b) = block_mem s.1 (b_ptr b).
Proof.
  intros Hh Hs Hl Hap. unfold size_ok in Hs. destruct (rt_placed H s (ho_rt _ _ Hh) _ Hl) as (Hm0 & _ & Hm1). cbn [fst snd] in *.
  destruct (align_after_ok mem size) as (Hal & Hlow & Hhigh); [lia..|]. cbv zeta. unfold place. cbv zeta.
  set (p := align_after mem sizeof_malloc_block) in *. unfold get_malloc_block, sizeof_malloc_block in *.
  set (m2 := store_word (store_word s.1 (p - 16) mem) (p - 16 + 8) size). set (b1 := mkBlock p _).
  assert (Hm2 : mem_ok m2) by (by apply store_word_ok, store_word_ok, Hh).
  assert (Hout : forall b a, b ∈ bs -> in_block a (extent s.1 b) -> m2 a = s.1 a).
  { intros b a Hb Ha. specialize (Hap b Hb). unfold in_block, apart in *. cbn [fst snd] in *. unfold m2. by rewrite !store_word_out by lia. }
  destruct (heap_frame bs s (m2, s.2)) as [Hh2 Hk];
    [done|destruct s as [m h]; exact (rt_store_ok m m2 h (ho_rt _ _ Hh) Hm2)|intros b Hb; by apply Hh|exact Hout|].
  assert (Hsize : b_size b1 = size) by (unfold b_size; cbn [b1 b_data]; rewrite length_bytes; lia).
  assert (Hbm : block_mem m2 p = mem).
  { unfold block_mem, get_malloc_block, sizeof_malloc_block, m2. rewrite (load_word_ext (store_word s.1 (p - 16) mem)).
    - apply load_store_word. unfold fits. lia.
    - intros a Ha. apply store_word_out. lia. }
  assert (Hnew : block_ok (m2, s.2) b1).
  { constructor; unfold extent; rewrite ?Hsize; cbn [fst snd b1 b_ptr b_data]; rewrite ?Hbm; unfold get_malloc_block, sizeof_malloc_block; try lia; try done.
    - unfold block_nbytes, get_malloc_block, sizeof_malloc_block, m2. apply load_store_word. unfold fits. lia.
    - by rewrite length_bytes. }
  assert (Hne : forall b, b ∈ bs -> block_mem m2 (b_ptr b) <> block_mem m2 p).
  { intros b Hb He. cbn [fst] in Hk. rewrite Hk, Hbm in He by done. specialize (Hap b Hb). pose proof (bk_size _ _ (ho_blocks _ _ Hh b Hb)) as Hsz.
    unfold apart, extent, size_ok in *. cbn [fst snd] in *. lia. }
  split_and!; [exact Hsize|lia| | |exact Hk].
  - constructor; [apply Hh2|intros b Hb; apply elem_of_cons in Hb as [->|Hb]; [exact Hnew|by apply Hh2]|]. split.
    + constructor; [|apply Hh2]. intros Hin. by apply (Hne b1 Hin).
    + intros b b' Hb Hb' He. apply elem_of_cons in Hb as [->|Hb], Hb' as [->|Hb']; [done|by destruct (Hne b')|by destruct (Hne b)|by apply Hh2].
  - intros b Hb. specialize (Hap b Hb). pose proof (ho_blocks _ _ Hh b Hb) as [_ _ _ _ H5 H6 _].
    unfold apart, b_span, extent, get_malloc_block, sizeof_malloc_block in *. cbn [fst snd] in *. lia.
Qed.

(** The runtime has no room for a block of [size] bytes with its header and padding. *)
Definition full (s : state) (size : Z) : Prop := (rt_malloc (size + 31) s).1 = 0.

Lemma malloc_ok bs s size : heap_ok bs s -> size_ok size ->
  let '(p, s') := malloc size s in
  (p = 0 /\ full s size /\ heap_ok bs s') \/
  exists data, b_size (mkBlock p data) = size /\ p <> 0 /\ heap_ok (mkBlock p data :: bs) s' /\ fresh bs p size.
Proof.
  intros Hh Hs. unfold malloc. rewrite mem_size_ok by done. pose proof Hs as Hs'. unfold size_ok in Hs'. rewrite (proj2 (Z.leb_gt size 0)) by lia.
  destruct (rt_malloc (size + 31) s) as [mem s1] eqn:Em.
  destruct (rt_malloc_ok (size + 31) s mem s1 (ho_rt _ _ Hh) ltac:(lia) Em) as (Hrt & Hsame & Hcase).
  destruct (heap_frame bs s s1) as [Hh1 Hk1]; [done|done| | |].
  { intros b Hb. pose proof (bk_live _ _ (ho_blocks _ _ Hh b Hb)). destruct Hcase as [[_ ->]|[-> _]]; [done|by right]. }
  { intros b a Hb Ha. eapply Hsame; [|exact Ha]. by apply Hh. }
  destruct Hcase as [[-> Hl]|[Hl Hap]]; [left; unfold full; by rewrite Em|].
  assert (Hin : (mem, size + 31) ∈ rt_live s1.2) by (rewrite Hl; left).
  destruct (place_ok bs s1 mem size Hh1 Hs Hin) as (H1 & H2 & H3 & H4 & _).
  { intros b Hb. unfold extent. rewrite Hk1 by done. by apply Hap, Hh. }
  destruct (rt_placed H s1 Hrt _ Hin) as (Hm0 & _). cbn [fst] in Hm0. rewrite (proj2 (Z.eqb_neq mem 0)) by lia.
  right. eexists. split_and!; [exact H1|lia|exact H3|exact H4].
Qed.

(** The blocks but [b]. *)
#[global] Instance block_eq_dec : EqDecision block.
Proof. solve_decision. Defined.
Definition list_remove_block (b : block) (bs : list block) : list block := filter (fun b' => b' <> b) bs.

Lemma free_ok bs s b : heap_ok bs s -> b ∈ bs -> heap_ok (list_remove_block b bs) (free (b_ptr b) s).
Proof.
  intros Hh Hb. pose proof (ho_blocks _ _ Hh b Hb) as Hok. unfold free.
  assert (Hp : b_ptr b <> 0).
  { destruct (rt_placed H s (ho_rt _ _ Hh) _ (bk_live _ _ Hok)) as (H1 & _). pose proof (bk_low _ _ Hok).
    unfold get_malloc_block, sizeof_malloc_block in *. lia. }
  rewrite (proj2 (Z.eqb_neq _ _)) by done.
  destruct (rt_free_ok (block_mem s.1 (b_ptr b)) (b_size b + 31) s (ho_rt _ _ Hh) (bk_live _ _ Hok)) as (Hrt & Hl & Hsame).
  assert (Hrest : forall b', b' ∈ list_remove_block b bs -> b' ∈ bs /\ b' <> b) by (intros b' Hb'; by apply list_elem_of_filter in Hb' as [? ?]).
  assert (Hlive : forall b', b' ∈ list_remove_block b bs -> extent s.1 b' ∈ rt_live (rt_free (block_mem s.1 (b_ptr b)) s).2).
  { intros b' Hb'. destruct (Hrest b' Hb') as [Hin Hne]. apply Hl. split; [by apply Hh|].
    intros He. injection He as He _. by apply Hne, (ho_distinct _ _ Hh). }
  apply (heap_frame _ s); [|done|exact Hlive|].
  - eapply heap_sub; [exact Hh|intros b' Hb'; by apply Hrest|apply NoDup_filter, Hh].
  - intros b' a Hb' Ha. eapply Hsame; [by apply Hlive|exact Ha].
Qed.

(** What a store inside the data of a block changes. *)
Lemma client_write bs s b m' : heap_ok bs s -> b ∈ bs -> mem_ok m' -> (forall a, ~ in_block a (b_span b) -> m' a = s.1 a) ->
  heap_ok (mkBlock (b_ptr b) (bytes m' (b_ptr b) (length (b_data b))) :: list_remove_block b bs) (m', s.2).
Proof.
  intros Hh Hb Hm Ha. pose proof (ho_blocks _ _ Hh b Hb) as Hok.
  assert (Hrest : forall b', b' ∈ list_remove_block b bs -> b' ∈ bs /\ b' <> b) by (intros b' Hb'; by apply list_elem_of_filter in Hb' as [? ?]).
  assert (Hspan : forall a, in_block a (b_span b) -> in_block a (extent s.1 b) /\ b_ptr b <= a).
  { intros a. destruct Hok as [_ _ _ _ H5 H6 _]. unfold in_block, b_span, get_malloc_block, sizeof_malloc_block in *. cbn [fst snd] in *. lia. }
  assert (Hframe : forall b' a, b' ∈ list_remove_block b bs -> in_block a (extent s.1 b') -> m' a = s.1 a).
  { intros b' a Hb' Hin. apply Ha. intros Hsp. destruct (Hrest b' Hb') as [Hb1 Hne].
    destruct (extents_apart bs s b b' Hh Hb Hb1) as [He|Hap]; [by subst|]. destruct (Hspan a Hsp) as [He _].
    unfold in_block, apart in *. lia. }
  assert (Hhead : forall q, b_ptr b - 16 <= q -> q + 8 <= b_ptr b -> load_word m' q = load_word s.1 q).
  { intros q H1 H2. apply load_word_ext. intros a Hq. apply Ha. intros Hsp. apply Hspan in Hsp. lia. }
  assert (Hrm : heap_ok (list_remove_block b bs) s) by (eapply heap_sub; [exact Hh|intros b' Hb'; by apply Hrest|apply NoDup_filter, Hh]).
  destruct (heap_frame (list_remove_block b bs) s (m', s.2)) as [Hh' Hbm]; [done| |intros b' Hb'; by apply Hrm|done|].
  { destruct s as [m h]. exact (rt_store_ok m m' h (ho_rt _ _ Hh) Hm). }
  set (b1 := mkBlock _ _). assert (Hsz : b_size b1 = b_size b) by (unfold b_size; cbn; by rewrite length_bytes).
  assert (Hb1 : block_mem m' (b_ptr b1) = block_mem s.1 (b_ptr b)) by (apply Hhead; unfold get_malloc_block, sizeof_malloc_block; cbn; lia).
  assert (Hext : extent m' b1 = extent s.1 b) by (unfold extent; by rewrite Hb1, Hsz).
  assert (Hne : forall b', b' ∈ list_remove_block b bs -> block_mem m' (b_ptr b1) <> block_mem m' (b_ptr b')).
  { intros b' Hb' He. destruct (Hrest b' Hb') as [Hin Hd]. rewrite Hb1, Hbm in He by done. by apply Hd, (ho_distinct _ _ Hh). }
  constructor; [apply Hh'|intros b' Hb'; apply elem_of_cons in Hb' as [->|Hb']; [|by apply Hh']|split].
  - destruct Hok as [H1 H2 H3 H4 H5 H6 _]. constructor; cbn [fst snd]; rewrite ?Hext, ?Hsz; try done.
    + rewrite <- H4. apply Hhead; unfold get_malloc_block, sizeof_malloc_block; cbn [b1 b_ptr]; lia.
    + cbn [b1 b_data b_ptr]. by rewrite length_bytes.
  - constructor; [|apply Hh']. intros Hin. by apply (Hne b1).
  - intros x y Hx Hy. apply elem_of_cons in Hx as [->|Hx], Hy as [->|Hy]; [done| | |by apply Hh'].
    + intros He. by destruct (Hne y).
    + intros He. by destruct (Hne x).
Qed.

Lemma remove_head b bs : b ∉ bs -> list_remove_block b (b :: bs) = bs.
Proof.
  intros Hb. unfold list_remove_block. rewrite filter_cons_False by tauto. induction bs as [|x bs IH]; [done|].
  rewrite not_elem_of_cons in Hb. rewrite filter_cons_True by (intros ->; tauto). by rewrite IH by tauto.
Qed.

Lemma head_fresh b bs s : heap_ok (b :: bs) s -> b ∉ bs.
Proof. intros Hh. by destruct (proj1 (NoDup_cons _ _) (proj1 (ho_distinct _ _ Hh))). Qed.

(** ** The allocator a client sees *)

(** Calls, and stores of the client to its blocks. *)
Inductive call := Malloc (size : Z) | Free (p : Z) | Calloc (num size : Z) | Realloc (p size : Z) | Store (p : Z) (off : nat) (l : list Z).

Definition exec (c : call) (s : state) : option (Z * state) :=
  match c with
  | Malloc size => Some (malloc size s)
  | Free p => Some (0, free p s)
  | Calloc num size => calloc num size s
  | Realloc p size => realloc p size s
  | Store p off l => Some (0, (store_bytes s.1 (p + Z.of_nat off) l, s.2))
  end.

Definition request_ok (n : Z) : Prop := 0 <= n < 2 ^ 63 - 31.
Definition valid (bs : list block) (c : call) : Prop :=
  match c with
  | Malloc size => request_ok size
  | Free p => p = 0 \/ exists b, b ∈ bs /\ p = b_ptr b
  | Calloc num size => fits 64 num /\ fits 64 size /\ (num * size < 2 ^ 64 -> request_ok (num * size))
  | Realloc p size => request_ok size /\ (p = 0 \/ exists b, b ∈ bs /\ p = b_ptr b)
  | Store p off l => Forall (fun x => 0 <= x < 256) l /\ exists b, b ∈ bs /\ p = b_ptr b /\ (off + length l <= length (b_data b))%nat
  end.

(** What a call answers and makes of the blocks, where [no_room] tells the sizes the
    runtime refuses. *)
Inductive answers (no_room : Z -> Prop) (bs : list block) : call -> Z -> list block -> Prop :=
  | a_malloc_null n : n = 0 \/ no_room n -> answers no_room bs (Malloc n) 0 bs
  | a_calloc_null num size : num * size = 0 \/ 2 ^ 64 <= num * size -> answers no_room bs (Calloc num size) 0 bs
  | a_realloc_null n : n = 0 \/ no_room n -> answers no_room bs (Realloc 0 n) 0 bs
  | a_malloc n b : b_size b = n -> b_ptr b mod 16 = 0 -> fresh bs (b_ptr b) n -> answers no_room bs (Malloc n) (b_ptr b) (b :: bs)
  | a_free_null : answers no_room bs (Free 0) 0 bs
  | a_free b : b ∈ bs -> answers no_room bs (Free (b_ptr b)) 0 (list_remove_block b bs)
  | a_calloc num size b : b_data b = replicate (Z.to_nat (num * size)) 0 -> b_ptr b mod 16 = 0 -> fresh bs (b_ptr b) (num * size) ->
      answers no_room bs (Calloc num size) (b_ptr b) (b :: bs)
  | a_realloc_new n b : b_size b = n -> b_ptr b mod 16 = 0 -> fresh bs (b_ptr b) n -> answers no_room bs (Realloc 0 n) (b_ptr b) (b :: bs)
  | a_realloc_free b : b ∈ bs -> answers no_room bs (Realloc (b_ptr b) 0) 0 (list_remove_block b bs)
  | a_realloc_keep b n : b ∈ bs -> 0 < n <= b_size b -> answers no_room bs (Realloc (b_ptr b) n) (b_ptr b) bs
  | a_realloc_move b n q tail : b ∈ bs -> b_size b < n -> b_size (mkBlock q (b_data b ++ tail)) = n -> q mod 16 = 0 -> fresh bs q n ->
      answers no_room bs (Realloc (b_ptr b) n) q (list_remove_block b (mkBlock q (b_data b ++ tail) :: bs))
  | a_realloc_lost b n : b ∈ bs -> b_size b < n -> no_room n -> answers no_room bs (Realloc (b_ptr b) n) 0 (list_remove_block b bs)
  | a_store b off l : b ∈ bs -> answers no_room bs (Store (b_ptr b) off l) 0
      (mkBlock (b_ptr b) (list_inserts off l (b_data b)) :: list_remove_block b bs).

Lemma bytes_lookup m p n i : (i < n)%nat -> bytes m p n !! i = Some (m (p + Z.of_nat i)).
Proof. intros Hi. unfold bytes. by rewrite list_lookup_fmap, lookup_seq_lt. Qed.
Lemma bytes_store_inside m p n off l : (off + length l <= n)%nat ->
  bytes (store_bytes m (p + Z.of_nat off) l) p n = list_inserts off l (bytes m p n).
Proof.
  intros Ho. apply list_eq. intros i. destruct (decide (i < n)%nat) as [Hi|Hi].
  2: { rewrite !lookup_ge_None_2; [done|rewrite length_inserts|]; rewrite length_bytes; lia. }
  rewrite bytes_lookup by done. destruct (decide (off <= i < off + length l)%nat) as [Hin|Hout].
  - rewrite list_lookup_inserts by (rewrite ?length_bytes; lia). rewrite store_bytes_at by lia.
    replace (Z.to_nat (p + Z.of_nat i - (p + Z.of_nat off))) with (i - off)%nat by lia. symmetry. apply nth_lookup_lt. lia.
  - rewrite store_bytes_out by lia. rewrite <- (bytes_lookup m p n i) by done. symmetry.
    destruct (decide (i < off)%nat); [by apply list_lookup_inserts_lt|apply list_lookup_inserts_ge; lia].
Qed.

Lemma block_of bs s b : heap_ok bs s -> b ∈ bs -> block_ok s b /\ 0 < b_ptr b /\ b_ptr b + b_size b <= 2 ^ 63.
Proof.
  intros Hh Hb. pose proof (ho_blocks _ _ Hh b Hb) as Hok. split; [done|].
  destruct (rt_placed H s (ho_rt _ _ Hh) _ (bk_live _ _ Hok)) as (H1 & _ & H2). destruct Hok as [_ _ _ _ H5 H6 _].
  unfold get_malloc_block, sizeof_malloc_block in *. lia.
Qed.

(** A call in state [s] refines the client's view. *)
Definition refines (bs : list block) (s : state) (c : call) (x : option (Z * state)) : Prop :=
  match x with
  | Some (r, s') => exists bs', answers (full s) bs c r bs' /\ heap_ok bs' s'
  | None => exists num size, c = Calloc num size /\ 0 < num * size < 2 ^ 64 /\ full s (num * size)
  end.

Lemma heap_malloc_refines bs s n (c : call) : heap_ok bs s -> request_ok n ->
  (n = 0 \/ full s n -> answers (full s) bs c 0 bs) ->
  (forall b, b_size b = n -> b_ptr b mod 16 = 0 -> fresh bs (b_ptr b) n -> answers (full s) bs c (b_ptr b) (b :: bs)) ->
  refines bs s c (Some (malloc n s)).
Proof.
  intros Hh Hn Hnull Hblock. destruct (decide (n = 0)) as [->|Hz]; [exists bs; split; [apply Hnull; by left|done]|].
  pose proof (malloc_ok bs s n Hh ltac:(unfold size_ok, request_ok in *; lia)) as Hm.
  destruct (malloc n s) as [p s']. destruct Hm as [(-> & Hfull & Hh')|(data & Hsz & Hp & Hh' & Hf)];
    [exists bs; split; [apply Hnull; by right|done]|].
  exists (mkBlock p data :: bs). split; [|done]. apply (Hblock (mkBlock p data)); [done| |done].
  apply (bk_aligned s'), Hh'. left.
Qed.

Lemma heap_free_refines bs s p : heap_ok bs s -> valid bs (Free p) -> refines bs s (Free p) (Some (0, free p s)).
Proof.
  intros Hh [->|(b & Hb & ->)]; [exists bs; split; [constructor|done]|].
  exists (list_remove_block b bs). split; [by constructor|by apply free_ok].
Qed.

Lemma heap_calloc_refines bs s num size : heap_ok bs s -> valid bs (Calloc num size) -> refines bs s (Calloc num size) (calloc num size s).
Proof.
  intros Hh (Hnum & Hsize & Hreq). unfold calloc. destruct (Z.eqb_spec size 0) as [->|Hs]; [exists bs; split; [constructor; lia|done]|].
  cbn [orb]. destruct (Z.eqb_spec num (num *% size / size)) as [He|He]; cbn [negb].
  2: { exists bs. split; [|done]. constructor. right. destruct (Z.le_gt_cases (2 ^ 64) (num * size)) as [|Hlt]; [done|].
    exfalso. apply He. unfold fits in *. unfold wrap. rewrite Z.mod_small by nia. by rewrite Z.div_mul. }
  assert (Hlen : num *% size = num * size).
  { apply Z.mod_small. unfold fits in *. split; [nia|]. pose proof (Z.mul_div_le (num *% size) size ltac:(lia)) as Hle.
    rewrite <- He in Hle. pose proof (Z.mod_pos_bound (num * size) (2 ^ 64) eq_refl). unfold wrap in Hle. lia. }
  rewrite Hlen. assert (Hr : request_ok (num * size)) by (apply Hreq; rewrite <- Hlen; apply Z.mod_pos_bound; lia).
  destruct (decide (num * size = 0)) as [Hz|Hz].
  { rewrite Hz. exists bs. split; [constructor; lia|]. cbn. by destruct s. }
  pose proof (malloc_ok bs s (num * size) Hh ltac:(unfold size_ok, request_ok in *; lia)) as Hm.
  destruct (malloc (num * size) s) as [p s']. destruct Hm as [(-> & Hfull & Hh')|(data & Hsz & Hp & Hh' & Hf)].
  { rewrite (proj2 (Z.eqb_neq (num * size) 0)) by done. exists num, size. split; [done|]. split; [|done].
    rewrite <- Hlen. pose proof (Z.mod_pos_bound (num * size) (2 ^ 64) eq_refl). unfold wrap in *. lia. }
  rewrite (proj2 (Z.eqb_neq p 0)) by done. cbn [andb].
  destruct (memset_fills s'.1 p 0 (num * size)) as (m' & -> & Hm'); [apply Hr|]. cbn [mbind option_bind fst].
  set (b := mkBlock p data) in *. assert (Hin : b ∈ b :: bs) by left.
  assert (Hspan : forall a, ~ in_block a (b_span b) -> m' a = s'.1 a).
  { intros a Ha. rewrite Hm'. unfold in_block, b_span in Ha. cbn [fst snd] in Ha. rewrite Hsz in Ha. cbn [b b_ptr] in Ha. bcase; [lia|done]. }
  assert (Hok : mem_ok m') by (intros a; rewrite Hm'; bcase; [by split|apply Hh']).
  pose proof (client_write _ _ _ _ Hh' Hin Hok Hspan) as Hw. rewrite remove_head in Hw by (by eapply head_fresh).
  eexists. split; [|exact Hw]. apply (a_calloc (full s) bs num size (mkBlock _ _)); cbn [b_data b_ptr b].
  - apply list_eq. intros i. unfold b_size in Hsz. cbn [b b_data] in Hsz.
    destruct (decide (i < length data)%nat) as [Hi|Hi].
    + rewrite bytes_lookup by done. rewrite lookup_replicate_2 by lia. rewrite Hm'. bcase; [done|lia].
    + rewrite !lookup_ge_None_2; [done|rewrite length_replicate; lia|rewrite length_bytes; lia].
  - apply (bk_aligned s' b), Hh', Hin.
  - exact Hf.
Qed.

Lemma heap_store_refines bs s p off l : heap_ok bs s -> valid bs (Store p off l) -> refines bs s (Store p off l) (exec (Store p off l) s).
Proof.
  intros Hh (Hl & b & Hb & -> & Ho). pose proof (ho_blocks _ _ Hh b Hb) as Hok.
  assert (Hm : mem_ok (store_bytes s.1 (b_ptr b + Z.of_nat off) l)) by (apply store_bytes_ok; [apply Hh|done]).
  pose proof (client_write bs s b _ Hh Hb Hm) as Hw. rewrite bytes_store_inside, (bk_data _ _ Hok) in Hw by done.
  eexists. split; [by apply a_store|]. apply Hw. intros a Ha. apply store_bytes_out. unfold in_block, b_span, b_size in Ha. cbn [fst snd] in Ha. lia.
Qed.

Lemma heap_realloc_refines bs s p n : heap_ok bs s -> valid bs (Realloc p n) -> refines bs s (Realloc p n) (realloc p n s).
Proof.
  intros Hh (Hn & Hp). unfold realloc. destruct Hp as [->|(b & Hb & ->)].
  { cbn. apply heap_malloc_refines; [done|done|by constructor|intros b; apply (a_realloc_new (full s))]. }
  destruct (block_of bs s b Hh Hb) as (Hok & Hpos & _). rewrite (proj2 (Z.eqb_neq (b_ptr b) 0)) by lia.
  destruct (Z.leb_spec n 0) as [Hle|Hgt].
  { replace n with 0 by (unfold request_ok in Hn; lia). eexists. split; [by apply a_realloc_free|by apply free_ok]. }
  rewrite (bk_nbytes _ _ Hok). destruct (Z.leb_spec n (b_size b)) as [Hle|Hlt].
  { exists bs. split; [by apply a_realloc_keep|done]. }
  pose proof (malloc_ok bs s n Hh ltac:(unfold size_ok, request_ok in *; lia)) as Hm.
  destruct (malloc n s) as [q s']. destruct Hm as [(-> & Hfull & Hh')|(data & Hsz & Hq & Hh' & Hf)].
  { cbn [negb Z.eqb mbind option_bind]. eexists. split; [by apply a_realloc_lost|]. destruct s' as [m' h']. by apply free_ok. }
  rewrite (proj2 (Z.eqb_neq q 0)) by done. cbn [negb].
  set (b1 := mkBlock q data) in *. assert (Hin1 : b1 ∈ b1 :: bs) by left. assert (Hinb : b ∈ b1 :: bs) by (by right).
  assert (Hap : apart (q, n) (b_span b)) by (by apply Hf). unfold apart, b_span in Hap. cbn [fst snd] in Hap.
  assert (Hb0 : 0 <= b_size b) by (unfold b_size; lia).
  destruct (memcpy_copies s'.1 q (b_ptr b) (b_size b)) as (m' & -> & Hm'); [apply Hh'|done|lia|]. cbn [mbind option_bind fst].
  assert (Hspan : forall a, ~ in_block a (b_span b1) -> m' a = s'.1 a).
  { intros a Ha. rewrite Hm'. unfold in_block, b_span in Ha. cbn [fst snd] in Ha. rewrite Hsz in Ha. cbn [b1 b_ptr] in Ha. bcase; [lia|done]. }
  assert (Hmok : mem_ok m') by (intros a; rewrite Hm'; bcase; apply Hh').
  pose proof (client_write _ _ _ _ Hh' Hin1 Hmok Hspan) as Hw. rewrite remove_head in Hw by (by eapply head_fresh). cbn [b1 b_ptr b_data] in Hw.
  unfold b_size in Hsz. cbn [b1 b_data] in Hsz.
  assert (Hbytes : bytes m' q (length data) = b_data b ++ bytes m' (q + b_size b) (length data - length (b_data b))).
  { replace (length data) with (length (b_data b) + (length data - length (b_data b)))%nat at 1 by (unfold b_size in *; lia).
    rewrite bytes_app. f_equal. rewrite <- (bk_data s' b) at 2 by apply Hh', Hinb.
    apply list_eq. intros i. destruct (decide (i < length (b_data b))%nat) as [Hi|Hi].
    - rewrite !bytes_lookup by done. f_equal. rewrite Hm'. unfold b_size in *. bcase; [f_equal; lia|lia].
    - rewrite !lookup_ge_None_2; [done|rewrite length_bytes; lia..]. }
  rewrite Hbytes in Hw. set (tail := bytes m' (q + b_size b) _) in *.
  exists (list_remove_block b (mkBlock q (b_data b ++ tail) :: bs)). split.
  - apply a_realloc_move; [done|done| |apply (bk_aligned s' b1), Hh', Hin1|done].
    unfold tail, b_size in *. cbn [b_data]. rewrite length_app, length_bytes. lia.
  - apply (free_ok _ (m', s'.2) b Hw). by right.
Qed.

(** C35. The heap of the C library is an allocator of aligned blocks. Every call a client
    may make, for sizes that do not wrap around with the header and padding ([valid]:
    below 2^63 - 31), from a heap that holds its blocks, answers as the allocator it
    sees, and the heap holds its blocks again: an allocated block is aligned to 16 bytes
    and apart from every other; null is answered for an empty request, for a [calloc]
    whose product overflows, and when the runtime has no room; only stores of the client
    change contents; a moved block keeps its contents, and so do the blocks of all other
    clients; [calloc] clears. The one call that may end in undefined behaviour is a
    [calloc] that the runtime has no room for. *)
Theorem heap_refines bs s c : heap_ok bs s -> valid bs c ->
  refines bs s c (exec c s) /\ forall b b', b ∈ bs -> b' ∈ bs -> b = b' \/ apart (b_span b) (b_span b').
Proof.
  intros Hh Hv. split; [|intros b b'; by apply blocks_apart with (s := s)]. destruct c as [n|p|num size|p n|p off l].
  - apply heap_malloc_refines; [done|done|by constructor|intros b; apply (a_malloc (full s))].
  - by apply heap_free_refines.
  - by apply heap_calloc_refines.
  - by apply heap_realloc_refines.
  - by apply heap_store_refines.
Qed.
End Heap.

(** ** A runtime for the examples: blocks are put behind the last one. *)
Module Bump.
Definition bump : Type := list (Z * Z).
Definition top (h : bump) : Z := foldr (fun b t => Z.max (b.1 + b.2) t) 16 h.
#[global] Arguments top : simpl never.
#[global] Instance bump_runtime : Runtime bump := {
  rt_malloc n s := if top s.2 + n <=? 2 ^ 63 then (top s.2, (s.1, (top s.2, n) :: s.2)) else (0, s);
  rt_free p s := (s.1, filter (fun b => b.1 <> p) s.2);
  rt_live h := h
}.
Lemma top_above (h : bump) b : b ∈ h -> b.1 + b.2 <= top h.
Proof. induction h as [|b' h IH]; intros Hb; [by apply elem_of_nil in Hb|].
  change (top (b' :: h)) with (Z.max (b'.1 + b'.2) (top h)). apply elem_of_cons in Hb as [->|Hb]; [lia|specialize (IH Hb); lia].
Qed.
Lemma top_positive (h : bump) : 16 <= top h.
Proof. induction h as [|b h IH]; [done|]. change (top (b :: h)) with (Z.max (b.1 + b.2) (top h)). lia. Qed.

#[global] Instance bump_laws : RuntimeLaws bump.
Proof.
  constructor.
  - intros n [m h] p s' [H1 H2 H3] Hn He. cbn in *. pose proof (top_positive h) as Ht.
    assert (Hap : forall b, b ∈ h -> apart (top h, n) b) by (intros b Hb; apply top_above in Hb; right; cbn; lia).
    destruct (_ <=? _) eqn:Hle in He; injection He as <- <-; cbn; [apply Z.leb_le in Hle|split_and!; [done|done|by left]].
    split_and!; [|done|by right]. constructor; cbn; [done| |].
    + intros b Hb. apply elem_of_cons in Hb as [->|Hb]; [cbn; lia|by apply H2].
    + intros b b' Hb Hb'. apply elem_of_cons in Hb as [->|Hb], Hb' as [->|Hb']; [by left|right; by apply Hap| |by apply H3].
      right. destruct (Hap b Hb); [by right|by left].
  - intros p n [m h] [H1 H2 H3] Hin. cbn in *.
    assert (Hf : forall b, b ∈ filter (fun b : Z * Z => b.1 <> p) h <-> b ∈ h /\ b <> (p, n)).
    { intros b. rewrite list_elem_of_filter. split.
      - intros [Hx Hy]. split; [done|]. intros ->. by apply Hx.
      - intros [Hx Hy]. split; [|done]. intros He. apply Hy. destruct (H3 b (p, n) Hx Hin) as [E|Hap]; [done|].
        destruct (H2 _ Hx) as (_ & ? & _), (H2 _ Hin) as (_ & ? & _). unfold apart in Hap. cbn in *. lia. }
    split_and!; [|exact Hf|done]. constructor; cbn; [done| |].
    + intros b Hb. apply H2. by apply Hf.
    + intros b b' Hb Hb'. apply H3; by apply Hf.
  - intros m m' h [H1 H2 H3] Hm. by constructor.
Qed.
End Bump.

Definition empty_heap : state (H := Bump.bump) := (fun _ => 0, []).
Lemma empty_heap_ok : heap_ok [] empty_heap.
Proof.
  constructor; [|intros b Hb; by apply elem_of_nil in Hb|split; [constructor|intros b b' Hb; by apply elem_of_nil in Hb]].
  constructor; cbn; [done|intros b Hb; by apply elem_of_nil in Hb|intros b b' Hb; by apply elem_of_nil in Hb].
Qed.

(** [calloc(3, 8)] in an empty heap. *)
Lemma heap_refines_witness : valid [] (Calloc 3 8) /\ refines [] empty_heap (Calloc 3 8) (exec (Calloc 3 8) empty_heap).
Proof.
  assert (Hv : valid [] (Calloc 3 8)) by (unfold valid, fits, request_ok; lia).
  split; [exact Hv|]. exact (proj1 (heap_refines [] empty_heap (Calloc 3 8) empty_heap_ok Hv)).
Defined.

(** A size close to 2^64 wraps around: the runtime is asked for no bytes. *)
Example malloc_size_wraps : pad_for_alignment (s64 (2 ^ 64 - 31)) +% sizeof_malloc_block = 0.
Proof. reflexivity. Qed.
