(* ===== verification/SimFifo.v ===== *)
(** * Queues between the stages of the SM simulator (SystemC's tlm_fifo)

    The stages of the simulated cache talk through [tlm::tlm_fifo] channels
    (third-party/systemc, tlm_fifo.h, tlm_fifo_put_get.h, tlm_fifo_peek.h). What is put
    during a delta cycle becomes readable, and the room of what is taken becomes usable,
    only when the channel is updated at its end. The circular buffer of the channel is
    the list of its elements.

    The file also has the errors of the simulator: a failed assertion, a call of
    [lv::Fatal], a SystemC error report (which throws), and the exception of [at()]. *)

From S2P Require Import Prelude.

(** ** Errors *)

Inductive fault := Assertion | FatalError | ReportError | OutOfRange.
Inductive res (A : Type) := Ok (a : A) | Err (f : fault).
Arguments Ok {A} a.
Arguments Err {A} f.
#[global] Instance fault_eq : EqDecision fault.
Proof. solve_decision. Defined.

#[global] Instance res_ret : MRet res := @Ok.
#[global] Instance res_bind : MBind res := fun A B f m => match m with Ok a => f a | Err e => Err e end.

(** [assert(b)] *)
Definition massert (b : bool) : res unit := if b then Ok tt else Err Assertion.

Lemma res_bind_ok {A B} (f : A -> res B) (m : res A) r :
  m ≫= f = Ok r -> exists a, m = Ok a /\ f a = Ok r.
Proof. destruct m; simpl; [eauto|done]. Qed.
Lemma massert_ok b r : massert b = Ok r -> b = true.
Proof. by destruct b. Qed.

(** Take a successful computation apart into its steps. *)
Ltac res_inv :=
  repeat match goal with
  | H : Err _ = Ok _ |- _ => discriminate H
  | H : Ok _ = Err _ |- _ => discriminate H
  | H : mret _ = Ok _ |- _ => unfold mret, res_ret in H
  | H : Ok _ = Ok _ |- _ => injection H; clear H; intros; subst
  | H : massert _ = Ok _ |- _ => apply massert_ok in H
  | H : (_ ≫= _) = Ok _ |- _ => apply res_bind_ok in H as (? & ? & H)
  end.

(** ** The channel *)

Record tlm_fifo (A : Type) := mkFifo {
  buffer : list A;
  m_size : nat;
  m_num_readable : nat;
  m_num_read : nat;
  m_num_written : nat;
}.
Arguments mkFifo {A}.
Arguments buffer {A}.
Arguments m_size {A}.
Arguments m_num_readable {A}.
Arguments m_num_read {A}.
Arguments m_num_written {A}.

Section fifo.
Context {A : Type}.
Implicit Types (f : tlm_fifo A) (x : A).

Definition fifo_init (size : nat) : tlm_fifo A := mkFifo [] size 0 0 0.
Definition used f : nat := m_num_readable f - m_num_read f.
Definition is_empty f : bool := (used f =? 0)%nat.
Definition is_full f : bool := (m_size f <=? m_num_readable f + m_num_written f)%nat.
Definition nb_can_get f : bool := negb (is_empty f).
Definition nb_can_peek f : bool := negb (is_empty f).
Definition nb_can_put f : bool := negb (is_full f).
Definition nb_get f : option (A * tlm_fifo A) :=
  if is_empty f then None
  else match buffer f with
       | x :: b => Some (x, mkFifo b (m_size f) (m_num_readable f) (S (m_num_read f)) (m_num_written f))
       | [] => None
       end.
Definition nb_peek f : option A := if (used f <? 1)%nat then None else head (buffer f).
Definition nb_put x f : option (tlm_fifo A) :=
  if is_full f then None
  else Some (mkFifo (buffer f ++ [x]) (m_size f) (m_num_readable f) (m_num_read f) (S (m_num_written f))).
(** [update], in the update phase of a delta cycle. *)
Definition fifo_update f : tlm_fifo A := mkFifo (buffer f) (m_size f) (length (buffer f)) 0 0.

(** ** Its invariant *)

Record fifo_ok f : Prop := {
  fifo_len : length (buffer f) = (m_num_readable f - m_num_read f + m_num_written f)%nat;
  fifo_reads : (m_num_read f <= m_num_readable f)%nat;
  fifo_bound : (m_num_readable f + m_num_written f <= m_size f)%nat
}.
(** Between delta cycles everything is readable. *)
Definition settled f : Prop :=
  m_num_readable f = length (buffer f) /\ m_num_read f = 0%nat /\ m_num_written f = 0%nat.

Lemma fifo_init_ok n : fifo_ok (fifo_init n) /\ settled (fifo_init n).
Proof. split; [split; simpl; lia|done]. Qed.
Lemma fifo_update_ok f : fifo_ok f -> fifo_ok (fifo_update f) /\ settled (fifo_update f).
Proof. intros [H1 H2 H3]. split; [split; simpl; lia|done]. Qed.

Lemma nb_get_spec f : fifo_ok f -> nb_can_get f = true ->
  exists x b, buffer f = x :: b /\ nb_peek f = Some x /\
    nb_get f = Some (x, mkFifo b (m_size f) (m_num_readable f) (S (m_num_read f)) (m_num_written f)).
Proof.
  intros [Hl Hr Hb] Hc. unfold nb_can_get, nb_get, nb_peek in *. apply negb_true_iff in Hc as He.
  rewrite He. unfold is_empty, used in *. bprop. rewrite (proj2 (Nat.ltb_ge _ _)) by lia.
  destruct (buffer f) as [|x b] eqn:E; simpl in *; [lia|]. by exists x, b.
Qed.
Lemma nb_can_get_false f : nb_can_get f = false -> nb_get f = None /\ nb_peek f = None.
Proof.
  unfold nb_can_get, nb_get, nb_peek, is_empty. intros H. apply negb_false_iff in H. rewrite H. bprop.
  by rewrite (proj2 (Nat.ltb_lt _ _)) by lia.
Qed.
Lemma nb_get_ok f x f' : fifo_ok f -> nb_get f = Some (x, f') ->
  fifo_ok f' /\ buffer f = x :: buffer f' /\ nb_can_get f = true.
Proof.
  intros [Hl Hr Hb]. unfold nb_get, nb_can_get. destruct (is_empty f) eqn:E; [done|].
  destruct (buffer f) as [|y b] eqn:Eb; [done|]. intros [= <- <-]. unfold is_empty, used in E. bprop.
  split; [|done]. split; simpl in *; lia.
Qed.
Lemma nb_get_size f x f' : nb_get f = Some (x, f') ->
  m_size f' = m_size f /\ m_num_readable f' = m_num_readable f /\ m_num_written f' = m_num_written f.
Proof. unfold nb_get. destruct (is_empty f); [done|]. destruct (buffer f); [done|]. by intros [= _ <-]. Qed.
Lemma nb_put_ok f x f' : fifo_ok f -> nb_put x f = Some f' ->
  fifo_ok f' /\ buffer f' = buffer f ++ [x] /\ nb_can_put f = true.
Proof.
  intros [Hl Hr Hb]. unfold nb_put, nb_can_put. destruct (is_full f) eqn:E; [done|].
  intros [= <-]. unfold is_full in E. bprop. split; [|done].
  split; simpl; rewrite ?length_app; simpl; lia.
Qed.
Lemma nb_put_size f x f' : nb_put x f = Some f' ->
  m_size f' = m_size f /\ m_num_readable f' = m_num_readable f /\ m_num_written f' = S (m_num_written f).
Proof. unfold nb_put. destruct (is_full f); [done|]. by intros [= <-]. Qed.
Lemma nb_put_read f x f' : nb_put x f = Some f' -> m_num_read f' = m_num_read f.
Proof. unfold nb_put. destruct (is_full f); [done|]. by intros [= <-]. Qed.
Lemma nb_put_can f x : nb_can_put f = true ->
  nb_put x f = Some (mkFifo (buffer f ++ [x]) (m_size f) (m_num_readable f) (m_num_read f) (S (m_num_written f))).
Proof. unfold nb_can_put, nb_put. by destruct (is_full f). Qed.
Lemma nb_peek_head f x : nb_peek f = Some x -> exists b, buffer f = x :: b.
Proof. unfold nb_peek. destruct (_ <? _)%nat; [done|]. destruct (buffer f); [done|]. intros [= ->]. eauto. Qed.
End fifo.
