(* ===== verification/SimPacket.v ===== *)
(** * Parameters, transactions and packets of the simulated cache
    (simtix/src/cache/param.h, policies.h, packet.h, mem_payload.h)

    A transaction ([Gp]) is the part of a [tlm_generic_payload] that the cache uses. Its
    data and byte-enable pointers are [None] for null and otherwise the bytes they point
    to. A payload that the cache owns is such a transaction as well: its buffers are
    reachable only through the two pointers once [InitRead], [InitLineWrite] or
    [InitLineWriteFrom] has set them. Streaming width, the DMI hint and the memory
    manager are never read and left out.

    Packets refer to their transaction by a pointer ([gp_ptr]); the controller
    (SimCache.v) holds the transactions. *)

From stdpp Require Import gmap.
From S2P Require Import Prelude SimFifo.

(** ** Parameters *)

Inductive ReplacementPolicy := kLRU | kFIFO | kRandom.
Inductive WriteHitPolicy := kWriteBack | kWriteThrough.
Inductive WriteMissPolicy := kWriteAllocate | kWriteNoAllocate.
#[global] Instance ReplacementPolicy_eq : EqDecision ReplacementPolicy.
Proof. solve_decision. Defined.
#[global] Instance WriteHitPolicy_eq : EqDecision WriteHitPolicy.
Proof. solve_decision. Defined.
#[global] Instance WriteMissPolicy_eq : EqDecision WriteMissPolicy.
Proof. solve_decision. Defined.

Record NonCacheableEntry := mkRegion { region_addr : Z; region_size : Z }.
Record Param := mkParam {
  replacement_policy : ReplacementPolicy;
  write_hit_policy : WriteHitPolicy;
  write_miss_policy : WriteMissPolicy;
  cache_size_bytes : Z;
  block_size_bytes : Z;
  ways : nat;
  mshr_entries : nat;
  mshr_subentries : nat;
  write_buffer_entries : nat;
  victim_buffer_entries : nat;
  pipeline_queue_size : nat;
  non_cacheable_regions : list NonCacheableEntry;
  atomic_linearization : bool;
  set_index_shift : Z;
}.

Definition GetNumSets (p : Param) : res nat :=
  if block_size_bytes p =? 0 then Err FatalError
  else if (ways p =? 0)%nat then Err FatalError
  else
    let sets := cache_size_bytes p / (block_size_bytes p *% Z.of_nat (ways p)) in
    if negb ((sets *% Z.of_nat (ways p)) *% block_size_bytes p =? cache_size_bytes p) then Err FatalError
    else Ok (Z.to_nat sets).

(** A geometry for which the index computations are defined: the code divides by the
    number of sets and shifts by [set_index_shift]. *)
Record param_ok (p : Param) : Prop := {
  param_block : 0 < block_size_bytes p < 2 ^ 32;
  param_ways : (0 < ways p)%nat;
  param_shift : 0 <= set_index_shift p < 64;
  param_fits : cache_size_bytes p < 2 ^ 64;
  param_size : exists n : nat, (0 < n)%nat /\
    cache_size_bytes p = Z.of_nat n * Z.of_nat (ways p) * block_size_bytes p
}.

Lemma num_sets_ok p : param_ok p -> exists n, GetNumSets p = Ok n /\ (0 < n)%nat /\
  cache_size_bytes p = Z.of_nat n * Z.of_nat (ways p) * block_size_bytes p.
Proof.
  intros [Hb Hw Hs Hf (n & Hn & Hc)]. exists n. split_and!; [|done|done]. unfold GetNumSets.
  rewrite (proj2 (Z.eqb_neq _ _)), (proj2 (Nat.eqb_neq _ _)) by lia.
  assert (Hm : Z.of_nat (ways p) * block_size_bytes p <= cache_size_bytes p) by nia.
  assert (Hm' : Z.of_nat n * Z.of_nat (ways p) <= cache_size_bytes p) by nia.
  rewrite (wrap_small 64 (block_size_bytes p * _)) by nia.
  replace (cache_size_bytes p / _) with (Z.of_nat n) by (rewrite Hc; apply Z.div_unique_exact; nia).
  rewrite (wrap_small 64 (Z.of_nat n * _)), (wrap_small 64 (_ * block_size_bytes p)) by nia.
  rewrite Hc, Z.eqb_refl. simpl. by rewrite Nat2Z.id.
Qed.

(** ** Transactions *)

Inductive tlm_command := TLM_READ_COMMAND | TLM_WRITE_COMMAND | TLM_IGNORE_COMMAND.
Inductive tlm_response_status :=
  | TLM_OK_RESPONSE | TLM_INCOMPLETE_RESPONSE | TLM_GENERIC_ERROR_RESPONSE | TLM_ADDRESS_ERROR_RESPONSE
  | TLM_COMMAND_ERROR_RESPONSE | TLM_BURST_ERROR_RESPONSE | TLM_BYTE_ENABLE_ERROR_RESPONSE.
#[global] Instance tlm_command_eq : EqDecision tlm_command.
Proof. solve_decision. Defined.
#[global] Instance tlm_response_status_eq : EqDecision tlm_response_status.
Proof. solve_decision. Defined.

Definition TLM_BYTE_DISABLED : Z := 0.
Definition TLM_BYTE_ENABLED : Z := 255.

Inductive AtomicOp := kSwap | kAdd | kXor | kAnd | kOr | kMin | kMax | kMinU | kMaxU | kCompareSwap.
Record AtomicExtension := mkAtomic { op : AtomicOp; compare_value : Z }.

Record Gp := mkGp {
  gp_command : tlm_command;
  gp_address : Z;
  gp_data : option (list Z);
  gp_data_length : nat;
  gp_byte_enable : option (list Z);
  gp_byte_enable_length : nat;
  gp_status : tlm_response_status;
  gp_atomic : option AtomicExtension;
}.
Definition set_data (d : option (list Z)) (g : Gp) : Gp :=
  mkGp (gp_command g) (gp_address g) d (gp_data_length g) (gp_byte_enable g) (gp_byte_enable_length g)
    (gp_status g) (gp_atomic g).
Definition set_status (r : tlm_response_status) (g : Gp) : Gp :=
  mkGp (gp_command g) (gp_address g) (gp_data g) (gp_data_length g) (gp_byte_enable g)
    (gp_byte_enable_length g) r (gp_atomic g).
Definition gp_is_write (g : Gp) : bool := bool_decide (gp_command g = TLM_WRITE_COMMAND).
Definition gp_is_read (g : Gp) : bool := bool_decide (gp_command g = TLM_READ_COMMAND).
(** Whether byte [i] takes part in the access, as the loops of the code test it. *)
Definition byte_enabled (g : Gp) (i : nat) : bool :=
  match gp_byte_enable g with
  | Some be =>
      if (0 <? gp_byte_enable_length g)%nat
      then nth (i mod gp_byte_enable_length g) be 0 =? TLM_BYTE_ENABLED else true
  | None => true
  end.

(** ** Copies between byte arrays

    [for (i = 0; i < n; i++) if (en(i)) dst[doff + i] = src[soff + i];] *)
Definition copy_bytes (en : nat -> bool) (n : nat) (dst : list Z) (doff : nat) (src : list Z) (soff : nat)
    : list Z :=
  for_range (fun i d => if en i then <[(doff + i)%nat := nth (soff + i) src 0]> d else d) 0 n dst.
Definition memcpy (n : nat) (dst : list Z) (doff : nat) (src : list Z) (soff : nat) : list Z :=
  copy_bytes (fun _ => true) n dst doff src soff.

Lemma copy_bytes_spec en n dst doff src soff :
  (doff + n <= length dst)%nat ->
  let r := copy_bytes en n dst doff src soff in
  length r = length dst /\
  forall j, nth j r 0 =
    if decide (doff <= j < doff + n)%nat
    then (if en (j - doff)%nat then nth (soff + (j - doff)) src 0 else nth j dst 0)
    else nth j dst 0.
Proof.
  intros Hn. pose (P := fun (i : nat) (r : list Z) => length r = length dst /\
    forall j, nth j r 0 = if decide (doff <= j < doff + i)%nat
      then (if en (j - doff)%nat then nth (soff + (j - doff)) src 0 else nth j dst 0) else nth j dst 0).
  change (P (0 + n)%nat (copy_bytes en n dst doff src soff)). unfold copy_bytes. apply for_range_ind.
  - split; [done|]. intros j. by rewrite decide_False by lia.
  - intros i r Hi [Hlen Hr]. destruct (en i) eqn:E.
    + split; [by rewrite length_insert|]. intros j. rewrite nth_insert by lia. rewrite Hr.
      destruct (decide (j = doff + i)%nat) as [->|].
      * rewrite decide_True by lia. replace (doff + i - doff)%nat with i by lia. by rewrite E.
      * repeat case_decide; try lia; done.
    + split; [done|]. intros j. rewrite Hr. destruct (decide (j = doff + i)%nat) as [->|].
      * rewrite decide_False, decide_True by lia. replace (doff + i - doff)%nat with i by lia. by rewrite E.
      * repeat case_decide; try lia; done.
Qed.
Lemma copy_bytes_ext en en' n dst doff src soff : (forall i, en i = en' i) ->
  copy_bytes en n dst doff src soff = copy_bytes en' n dst doff src soff.
Proof.
  intros He. unfold copy_bytes. generalize 0%nat as i. revert dst.
  induction n as [|n IH]; intros dst i; simpl; [done|]. by rewrite He, IH.
Qed.
Lemma length_copy_bytes en n dst doff src soff :
  (doff + n <= length dst)%nat -> length (copy_bytes en n dst doff src soff) = length dst.
Proof. intros H. by apply (copy_bytes_spec en n dst doff src soff) in H as [? _]. Qed.
Lemma nth_copy_bytes en n dst doff src soff j :
  (doff + n <= length dst)%nat ->
  nth j (copy_bytes en n dst doff src soff) 0 =
    if decide (doff <= j < doff + n)%nat
    then (if en (j - doff)%nat then nth (soff + (j - doff)) src 0 else nth j dst 0)
    else nth j dst 0.
Proof. intros H. by apply (copy_bytes_spec en n dst doff src soff) in H as [_ ?]. Qed.

(** ** Payloads owned by the cache *)

(** [MemPayload::Reset]; [InitStorage] ends in the same state. *)
Definition payload_reset : Gp := mkGp TLM_IGNORE_COMMAND 0 None 0 None 0 TLM_INCOMPLETE_RESPONSE None.
Definition InitRead (address : Z) (payload_size : nat) : Gp :=
  mkGp TLM_READ_COMMAND address (Some (replicate payload_size 0)) payload_size None 0
    TLM_INCOMPLETE_RESPONSE None.
Definition InitLineWrite (address : Z) (payload_size : nat) : res Gp :=
  massert (address mod Z.of_nat payload_size =? 0);;
  Ok (mkGp TLM_WRITE_COMMAND address (Some (replicate payload_size 0)) payload_size
        (Some (replicate payload_size TLM_BYTE_ENABLED)) payload_size TLM_INCOMPLETE_RESPONSE None).
Definition InitLineWriteFrom (src : Gp) (payload_size : nat) : res Gp :=
  massert (gp_is_write src);;
  let address := gp_address src in
  let block_offset := Z.to_nat (address mod Z.of_nat payload_size) in
  let data_length := gp_data_length src in
  massert (bool_decide (is_Some (gp_data src)) || (data_length =? 0)%nat);;
  massert (block_offset <=? payload_size)%nat;;
  massert (data_length <=? payload_size - block_offset)%nat;;
  let buf := memcpy data_length (replicate payload_size 0) block_offset (default [] (gp_data src)) 0 in
  massert (bool_decide (is_Some (gp_byte_enable src)) || (gp_byte_enable_length src =? 0)%nat);;
  massert (bool_decide (gp_byte_enable src = None) || negb (gp_byte_enable_length src =? 0)%nat);;
  let be := for_range (fun i be =>
      <[(block_offset + i)%nat := if byte_enabled src i then TLM_BYTE_ENABLED else TLM_BYTE_DISABLED]> be)
      0 data_length (replicate payload_size TLM_BYTE_DISABLED) in
  Ok (mkGp TLM_WRITE_COMMAND (address - Z.of_nat block_offset) (Some buf) payload_size (Some be) payload_size
        TLM_INCOMPLETE_RESPONSE None).
Definition PrepareRefillWrite (g : Gp) : res Gp :=
  massert (gp_is_read g);;
  massert (bool_decide (is_Some (gp_data g)));;
  massert (gp_data_length g =? length (default [] (gp_data g)))%nat;;
  Ok (mkGp TLM_WRITE_COMMAND (gp_address g) (gp_data g) (gp_data_length g) (gp_byte_enable g)
        (gp_byte_enable_length g) (gp_status g) (gp_atomic g)).

(** ** Packets *)

Record Location := mkLocation { loc_set : nat; loc_way : nat }.
#[global] Instance Location_eq : EqDecision Location.
Proof. solve_decision. Defined.
Record MshrId := mkMshrId { mshr_index : nat; mshr_generation : Z }.
#[global] Instance MshrId_eq : EqDecision MshrId.
Proof. solve_decision. Defined.

Inductive PacketType :=
  | kUnused | kBypassCoreReq | kBypassCoreResp | kCoreReq | kRefill | kReplay | kMshrReadReq
  | kVictimWriteReq | kVictimWriteResp | kMemWriteReq | kMemWriteResp.
#[global] Instance PacketType_eq : EqDecision PacketType.
Proof. solve_decision. Defined.

Inductive gp_ptr := CoreGp (n : nat) | OwnedGp (n : nat).
#[global] Instance gp_ptr_eq : EqDecision gp_ptr.
Proof. solve_decision. Defined.
#[global] Instance gp_ptr_countable : Countable gp_ptr.
Proof.
  refine (inj_countable' (fun p => match p with CoreGp n => inl n | OwnedGp n => inr n end)
            (fun x => match x with inl n => CoreGp n | inr n => OwnedGp n end) _).
  by intros [].
Defined.

Record Packet := mkPacket {
  unique_id : nat;
  trace_parent_id : option nat;
  type_ : PacketType;
  is_atomic : bool;
  is_non_cacheable : bool;
  is_hit : bool;
  has_victim : bool;
  is_victim_dirty : bool;
  victim_address : Z;
  location : Location;
  mshr_id : option MshrId;
  is_last_replay : bool;
  payload_ : option gp_ptr;
}.
(** [Packet::Reset] *)
Definition packet_reset : Packet :=
  mkPacket 0 None kUnused false false false false false 0 (mkLocation 0 0) None false None.
Definition set_type (t : PacketType) (p : Packet) : Packet :=
  mkPacket (unique_id p) (trace_parent_id p) t (is_atomic p) (is_non_cacheable p) (is_hit p) (has_victim p)
    (is_victim_dirty p) (victim_address p) (location p) (mshr_id p) (is_last_replay p) (payload_ p).
Definition set_is_hit (b : bool) (p : Packet) : Packet :=
  mkPacket (unique_id p) (trace_parent_id p) (type_ p) (is_atomic p) (is_non_cacheable p) b (has_victim p)
    (is_victim_dirty p) (victim_address p) (location p) (mshr_id p) (is_last_replay p) (payload_ p).
Definition set_location (l : Location) (p : Packet) : Packet :=
  mkPacket (unique_id p) (trace_parent_id p) (type_ p) (is_atomic p) (is_non_cacheable p) (is_hit p)
    (has_victim p) (is_victim_dirty p) (victim_address p) l (mshr_id p) (is_last_replay p) (payload_ p).
Definition set_victim (h d : bool) (a : Z) (p : Packet) : Packet :=
  mkPacket (unique_id p) (trace_parent_id p) (type_ p) (is_atomic p) (is_non_cacheable p) (is_hit p)
    h d a (location p) (mshr_id p) (is_last_replay p) (payload_ p).
Definition set_last_replay (b : bool) (p : Packet) : Packet :=
  mkPacket (unique_id p) (trace_parent_id p) (type_ p) (is_atomic p) (is_non_cacheable p) (is_hit p)
    (has_victim p) (is_victim_dirty p) (victim_address p) (location p) (mshr_id p) b (payload_ p).

(** ** Packets behind their pointers *)

(** [GetTlmGp] of the packet behind a pointer. *)
Definition gp_of (pkts : gmap nat Packet) (p : nat) : res gp_ptr :=
  match pkts !! p with
  | Some pkt => match payload_ pkt with Some g => Ok g | None => Err Assertion end
  | None => Err Assertion
  end.
Definition type_is (pkts : gmap nat Packet) (p : nat) (t : PacketType) : bool :=
  match pkts !! p with Some pkt => bool_decide (type_ pkt = t) | None => false end.
