(* ===== verification/SimTag.v ===== *)
(** * The tag array of the simulated cache (simtix/src/cache/tag_array.{h,cc})

    Which lines are present, where, and in which state: dirty, locked by an atomic
    operation, or installed with replays still to come. [line_at] is the view the rest of
    the cache has of it, a partial map from lines to entries; the theorems give every
    operation as an operation on that map, for each replacement policy.

    [std::uniform_int_distribution] over the engine is a type class: the standard does
    not fix its algorithm. *)

From S2P Require Import Prelude SimFifo SimPacket.

(** [draw n e] is [uniform_int_distribution(0, n - 1)(e)]. *)
Class RandomEngine (E : Type) := { seeded : Z -> E; draw : nat -> E -> nat * E }.
Class RandomLaws (E : Type) `{RandomEngine E} := draw_lt n e : (0 < n)%nat -> ((draw n e).1 < n)%nat.

(** A linear congruential generator, for the examples. *)
#[global] Instance lcg : RandomEngine Z := {
  seeded z := z mod 2 ^ 64;
  draw n e := let e' := (e * 6364136223846793005 + 1442695040888963407) mod 2 ^ 64 in
              (Z.to_nat ((e' / 2 ^ 33) mod Z.of_nat n), e')
}.
#[global] Instance lcg_laws : RandomLaws Z.
Proof. intros n e Hn. simpl. pose proof (Z.mod_pos_bound ((e * 6364136223846793005 + 1442695040888963407) mod 2 ^ 64 / 2 ^ 33) (Z.of_nat n)). lia. Qed.

(** ** State *)

Record TagEntry := mkEntry {
  valid : bool;
  dirty : bool;
  locked : bool;
  pending_replay : bool;
  tag : Z;
  access_timestamp : Z;
}.
#[global] Instance TagEntry_eq : EqDecision TagEntry.
Proof. solve_decision. Defined.
Definition entry0 : TagEntry := mkEntry false false false false 0 0.
Definition CanBeEvicted (e : TagEntry) : bool := negb (locked e) && negb (pending_replay e).
Definition set_flags (v d l : bool) (e : TagEntry) : TagEntry :=
  mkEntry v d l (pending_replay e) (tag e) (access_timestamp e).
Definition set_pending (b : bool) (e : TagEntry) : TagEntry :=
  mkEntry (valid e) (dirty e) (locked e) b (tag e) (access_timestamp e).
Definition UpdateTimestamp (now : Z) (e : TagEntry) : TagEntry :=
  mkEntry (valid e) (dirty e) (locked e) (pending_replay e) (tag e) now.

Inductive AccessStatus := StHit | StMiss | StNoVictim | StPendingReplay.
#[global] Instance AccessStatus_eq : EqDecision AccessStatus.
Proof. solve_decision. Defined.
Record DirtyLine := mkDirtyLine { dl_location : Location; dl_address : Z }.

Record TagArray (E : Type) := mkTags {
  num_sets_ : nat;
  tag_array_ : list TagEntry;
  pending_replay_lines_ : nat;
  random_engine_ : E;
}.
Arguments mkTags {E}.
Arguments num_sets_ {E}.
Arguments tag_array_ {E}.
Arguments pending_replay_lines_ {E}.
Arguments random_engine_ {E}.

Section tags.
Context {E : Type} `{RandomEngine E} (config_ : Param).
Implicit Types (t : TagArray E) (p : Packet) (e : TagEntry).

Definition set_entries (l : list TagEntry) t : TagArray E :=
  mkTags (num_sets_ t) l (pending_replay_lines_ t) (random_engine_ t).
Definition set_engine (r : E) t : TagArray E :=
  mkTags (num_sets_ t) (tag_array_ t) (pending_replay_lines_ t) r.
Definition set_pending_lines (n : nat) t : TagArray E :=
  mkTags (num_sets_ t) (tag_array_ t) n (random_engine_ t).

(** The constructor. *)
Definition TagArray_init (random_seed : Z) : res (TagArray E) :=
  n ← GetNumSets config_;
  Ok (mkTags n (replicate (n * ways config_) entry0) 0 (seeded random_seed)).

Definition EntryCount t : nat := length (tag_array_ t).
Definition HasPendingReplayLine t : bool := negb (pending_replay_lines_ t =? 0)%nat.
Definition ToLineAddress (address : Z) : Z := address / block_size_bytes config_.
Definition line_set t (line : Z) : nat :=
  Z.to_nat (Z.shiftr line (set_index_shift config_) mod Z.of_nat (num_sets_ t)).
Definition ToSetIndex t (address : Z) : nat := line_set t (ToLineAddress address).
(** The index of the first entry of the set. *)
Definition GetSet t (address : Z) : nat := (ToSetIndex t address * ways config_)%nat.
Definition entry_at t (i : nat) : TagEntry := nth i (tag_array_ t) entry0.
Definition put_entry (i : nat) e t : TagArray E := set_entries (<[i := e]> (tag_array_ t)) t.

Definition GetEntry (loc : Location) t : res nat :=
  massert (loc_set loc <? num_sets_ t)%nat;;
  massert (loc_way loc <? ways config_)%nat;;
  Ok (loc_set loc * ways config_ + loc_way loc)%nat.
Definition FindTagEntry t (address : Z) : option nat :=
  find_first (fun way => let e := entry_at t (GetSet t address + way) in
    valid e && (tag e =? ToLineAddress address)) (ways config_).
Definition FindInvalidEntry t (set : nat) : option nat :=
  find_first (fun way => negb (valid (entry_at t (set + way)))) (ways config_).

(** ** Operations on one entry *)

Definition LockEntry (loc : Location) t : res (TagArray E) :=
  i ← GetEntry loc t;
  let e := entry_at t i in
  massert (valid e);; massert (negb (locked e));;
  Ok (put_entry i (set_flags (valid e) (dirty e) true e) t).
Definition UnlockEntry (loc : Location) t : res (TagArray E) :=
  i ← GetEntry loc t;
  let e := entry_at t i in
  massert (valid e);; massert (locked e);;
  Ok (put_entry i (set_flags (valid e) (dirty e) false e) t).
Definition MarkDirty (loc : Location) t : res (TagArray E) :=
  i ← GetEntry loc t;
  let e := entry_at t i in
  massert (valid e);;
  Ok (put_entry i (set_flags (valid e) true (locked e) e) t).

(** [if (config_.replacement_policy == ReplacementPolicy::kLRU) entry.UpdateTimestamp();] *)
Definition touch_lru (now : Z) e : TagEntry :=
  if bool_decide (replacement_policy config_ = kLRU) then UpdateTimestamp now e else e.

Definition clean_entry (now : Z) (i : nat) (loc : Location) t : res (option DirtyLine * TagArray E) :=
  let e := entry_at t i in
  massert (negb (locked e));; massert (negb (pending_replay e));;
  Ok (Some (mkDirtyLine loc (tag e *% block_size_bytes config_)),
      put_entry i (touch_lru now (set_flags (valid e) false (locked e) e)) t).
Definition ProbeDirtyEntry (now : Z) (index : nat) t : res (option DirtyLine * TagArray E) :=
  if (EntryCount t <=? index)%nat then Ok (None, t)
  else let e := entry_at t index in
       if negb (valid e) || negb (dirty e) then Ok (None, t)
       else clean_entry now index (mkLocation (index / ways config_) (index mod ways config_)) t.
Definition ProbeDirtyLine (now address : Z) t : res (option DirtyLine * TagArray E) :=
  match FindTagEntry t address with
  | None => Ok (None, t)
  | Some way =>
      let i := (GetSet t address + way)%nat in
      if negb (dirty (entry_at t i)) then Ok (None, t)
      else clean_entry now i (mkLocation (ToSetIndex t address) way) t
  end.

Definition drop_entry (now : Z) (i : nat) t : res (TagArray E) :=
  let e := entry_at t i in
  massert (negb (locked e));; massert (negb (pending_replay e));;
  Ok (put_entry i (touch_lru now (set_flags false false false e)) t).
Definition InvalidateEntry (now : Z) (index : nat) t : res (TagArray E) :=
  if (EntryCount t <=? index)%nat then Ok t
  else if negb (valid (entry_at t index)) then Ok t else drop_entry now index t.
Definition InvalidateLine (now address : Z) t : res (TagArray E) :=
  match FindTagEntry t address with
  | None => Ok t
  | Some way => drop_entry now (GetSet t address + way) t
  end.

(** ** Packets *)

Definition Probe (now : Z) p (address : Z) (is_write : bool) t : res (AccessStatus * Packet * TagArray E) :=
  match FindTagEntry t address with
  | None =>
      massert (negb (bool_decide (type_ p = kReplay)));;
      Ok (StMiss, set_is_hit false p, t)
  | Some way =>
      let i := (GetSet t address + way)%nat in
      let e := entry_at t i in
      if bool_decide (type_ p = kCoreReq) && pending_replay e then Ok (StPendingReplay, p, t)
      else
        '(e, n) ←
          (if is_last_replay p then
             massert (bool_decide (type_ p = kReplay));;
             massert (pending_replay e);;
             massert (0 <? pending_replay_lines_ t)%nat;;
             Ok (set_pending false e, (pending_replay_lines_ t - 1)%nat)
           else Ok (e, pending_replay_lines_ t));
        let e := touch_lru now e in
        let e := set_flags (valid e)
          (dirty e || (is_write && bool_decide (write_hit_policy config_ = kWriteBack))) (locked e) e in
        Ok (StHit, set_location (mkLocation (ToSetIndex t address) way) (set_is_hit true p),
            set_pending_lines n (put_entry i e t))
  end.

Definition FillTagEntry (now : Z) (i : nat) (address : Z) t : TagArray E :=
  set_pending_lines (S (pending_replay_lines_ t))
    (put_entry i (mkEntry true false false true (ToLineAddress address) now) t).

(** The scan for the least recent evictable way, with the smallest timestamp so far. *)
Definition victim_scan t (set : nat) : option (nat * Z) :=
  for_range (fun way best =>
    let e := entry_at t (set + way) in
    if negb (CanBeEvicted e) then best
    else match best with
         | Some (_, m) => if access_timestamp e <? m then Some (way, access_timestamp e) else best
         | None => Some (way, access_timestamp e)
         end) 0 (ways config_) None.
Definition SelectVictim t (set : nat) : res (option nat * E) :=
  massert (forallb (fun way => valid (entry_at t (set + way))) (seq 0 (ways config_)));;
  match replacement_policy config_ with
  | kRandom =>
      let candidate_ways := List.filter (fun way => CanBeEvicted (entry_at t (set + way))) (seq 0 (ways config_)) in
      match candidate_ways with
      | [] => Ok (None, random_engine_ t)
      | _ =>
          let '(k, r) := draw (length candidate_ways) (random_engine_ t) in
          Ok (Some (nth k candidate_ways 0%nat), r)
      end
  | _ => Ok (fst <$> victim_scan t set, random_engine_ t)
  end.

Definition Refill (now : Z) p (address : Z) t : res (AccessStatus * Packet * TagArray E) :=
  let set := ToSetIndex t address in
  let set_entries := GetSet t address in
  massert (bool_decide (FindTagEntry t address = None));;
  match FindInvalidEntry t set_entries with
  | Some way =>
      Ok (StHit, set_victim false false 0 (set_is_hit true (set_location (mkLocation set way) p)),
          FillTagEntry now (set_entries + way) address t)
  | None =>
      '(victim, r) ← SelectVictim t set_entries;
      let t := set_engine r t in
      match victim with
      | None => Ok (StNoVictim, set_is_hit false p, t)
      | Some way =>
          let e := entry_at t (set_entries + way) in
          Ok (StHit,
              set_victim true (dirty e) (tag e *% block_size_bytes config_)
                (set_is_hit true (set_location (mkLocation set way) p)),
              FillTagEntry now (set_entries + way) address t)
      end
  end.

Definition Process (now : Z) p (address : Z) (is_write : bool) t : res (AccessStatus * Packet * TagArray E) :=
  match type_ p with
  | kCoreReq | kReplay => Probe now p address is_write t
  | kRefill => Refill now p address t
  | _ => Err ReportError
  end.
End tags.

(** ** The view of the rest of the cache *)

Section view.
Context {E : Type} `{RandomEngine E} (config_ : Param).
Implicit Types (t : TagArray E) (p : Packet) (e : TagEntry) (l a now : Z).

(** The entry that holds line [l], with its index. *)
Definition holds l e : bool := valid e && (tag e =? l).
Definition line_at t l : option (nat * TagEntry) :=
  i ← find_first (fun i => holds l (entry_at t i)) (EntryCount t); Some (i, entry_at t i).

(** A line is stored once, in its set; flags are those of present lines, and the counter
    of pending lines is exact. *)
Record tag_ok t : Prop := {
  tag_sets : (0 < num_sets_ t)%nat;
  tag_len : length (tag_array_ t) = (num_sets_ t * ways config_)%nat;
  tag_home : forall i, valid (entry_at t i) = true -> line_set config_ t (tag (entry_at t i)) = (i / ways config_)%nat;
  tag_unique : forall i j, valid (entry_at t i) = true -> valid (entry_at t j) = true ->
    tag (entry_at t i) = tag (entry_at t j) -> i = j;
  tag_flags : forall i, valid (entry_at t i) = false ->
    dirty (entry_at t i) = false /\ locked (entry_at t i) = false /\ pending_replay (entry_at t i) = false;
  tag_range : forall i, valid (entry_at t i) = true -> 0 <= tag (entry_at t i) * block_size_bytes config_ < 2 ^ 64;
  tag_count : pending_replay_lines_ t = countb pending_replay (tag_array_ t)
}.

Lemma entry_lookup t i : (i < EntryCount t)%nat -> tag_array_ t !! i = Some (entry_at t i).
Proof. apply nth_lookup_lt. Qed.
Lemma entry_out t i : (EntryCount t <= i)%nat -> entry_at t i = entry0.
Proof. intros. unfold entry_at. by apply nth_overflow. Qed.
Lemma valid_in t i : valid (entry_at t i) = true -> (i < EntryCount t)%nat.
Proof.
  intros Hv. destruct (decide (i < EntryCount t)%nat); [done|]. rewrite entry_out in Hv by lia. done.
Qed.
Lemma line_at_None t l : line_at t l = None <-> forall i, holds l (entry_at t i) = false.
Proof.
  unfold line_at. destruct (find_first _ _) as [i|] eqn:Ef; simpl.
  - apply find_first_Some in Ef as (_ & Hi & _). split; [done|]. intros Hn. by rewrite Hn in Hi.
  - rewrite find_first_None in Ef. split; [|done]. intros _ i.
    destruct (decide (i < EntryCount t)%nat); [by apply Ef|]. by rewrite entry_out by lia.
Qed.
Lemma holds_true l e : holds l e = true <-> valid e = true /\ tag e = l.
Proof. unfold holds. rewrite andb_true_iff, Z.eqb_eq. done. Qed.
Lemma line_at_Some t l i e :
  tag_ok t -> line_at t l = Some (i, e) <-> e = entry_at t i /\ valid e = true /\ tag e = l.
Proof.
  intros Ht. split.
  - unfold line_at. destruct (find_first _ _) as [j|] eqn:Ef; [|done]. simpl. intros [= <- <-].
    apply find_first_Some in Ef as (_ & Hh & _). apply holds_true in Hh. naive_solver.
  - intros (-> & Hv & Htag). unfold line_at. rewrite (find_first_eq _ _ i); [done|by apply valid_in| |].
    + by apply holds_true.
    + intros j Hj. destruct (holds l (entry_at t j)) eqn:Eh; [|done].
      apply holds_true in Eh as [Hvj Htj]. assert (i = j) by (apply (tag_unique t Ht); congruence). lia.
Qed.

Lemma way_split t i : tag_ok t -> (i < EntryCount t)%nat ->
  (0 < ways config_)%nat /\ (i / ways config_ < num_sets_ t)%nat /\ (i mod ways config_ < ways config_)%nat /\
  i = (i / ways config_ * ways config_ + i mod ways config_)%nat.
Proof.
  intros Ht Hi. unfold EntryCount in Hi. rewrite (tag_len t Ht) in Hi.
  assert (0 < ways config_)%nat by (destruct (ways config_); lia).
  split_and!; [done| |apply Nat.mod_upper_bound; lia|].
  - apply Nat.Div0.div_lt_upper_bound. lia.
  - rewrite Nat.mul_comm. apply Nat.div_mod. lia.
Qed.
Lemma set_way_div (s w n : nat) : (w < n)%nat -> ((s * n + w) / n)%nat = s /\ ((s * n + w) mod n)%nat = w.
Proof.
  intros Hw. split.
  - rewrite Nat.div_add_l by lia. rewrite Nat.div_small by lia. lia.
  - rewrite Nat.add_comm, Nat.Div0.mod_add. by apply Nat.mod_small.
Qed.
Lemma line_set_lt t l : (0 < num_sets_ t)%nat -> (line_set config_ t l < num_sets_ t)%nat.
Proof.
  intros Hn. unfold line_set.
  pose proof (Z.mod_pos_bound (Z.shiftr l (set_index_shift config_)) (Z.of_nat (num_sets_ t))). lia.
Qed.
Lemma set_way_in t a w : tag_ok t -> (w < ways config_)%nat -> (GetSet config_ t a + w < EntryCount t)%nat.
Proof.
  intros Ht Hw. unfold EntryCount. rewrite (tag_len t Ht). unfold GetSet, ToSetIndex.
  pose proof (line_set_lt t (ToLineAddress config_ a) (tag_sets t Ht)). nia.
Qed.

(** The search of a set finds exactly the entry that holds the line. *)
Lemma FindTagEntry_Some t a w : tag_ok t ->
  FindTagEntry config_ t a = Some w <->
  (w < ways config_)%nat /\
  line_at t (ToLineAddress config_ a) = Some ((GetSet config_ t a + w)%nat, entry_at t (GetSet config_ t a + w)).
Proof.
  intros Ht. rewrite line_at_Some by done. split.
  - intros Hf. apply find_first_Some in Hf as (Hw & Hh & _). apply holds_true in Hh. naive_solver.
  - intros (Hw & _ & Hv & Htag). apply find_first_eq; [done|by apply holds_true|]. intros j Hj.
    destruct (_ && _)%bool eqn:Eh; [|done]. apply holds_true in Eh as [Hvj Htj].
    assert (GetSet config_ t a + w = GetSet config_ t a + j)%nat by (apply (tag_unique t Ht); congruence). lia.
Qed.
Lemma line_at_place t l i e : tag_ok t -> line_at t l = Some (i, e) ->
  (i < EntryCount t)%nat /\ (i / ways config_)%nat = line_set config_ t l.
Proof.
  intros Ht Hl. apply line_at_Some in Hl as (-> & Hv & <-); [|done]. split; [by apply valid_in|].
  symmetry. by apply (tag_home t Ht).
Qed.
Lemma FindTagEntry_line t a i e : tag_ok t -> line_at t (ToLineAddress config_ a) = Some (i, e) ->
  FindTagEntry config_ t a = Some (i mod ways config_)%nat /\
  (GetSet config_ t a + i mod ways config_)%nat = i /\ (i mod ways config_ < ways config_)%nat /\ entry_at t i = e.
Proof.
  intros Ht Hl. destruct (line_at_place _ _ _ _ Ht Hl) as [Hi Hs].
  destruct (way_split t i Ht Hi) as (Hw & _ & Hm & Hsplit).
  assert (Hg : (GetSet config_ t a + i mod ways config_)%nat = i).
  { unfold GetSet, ToSetIndex. rewrite <- Hs. lia. }
  apply line_at_Some in Hl as He; [|done]. destruct He as (He & _).
  split_and!; [|done|done|done]. rewrite FindTagEntry_Some, Hg by done. split; [done|]. by rewrite Hl, He.
Qed.
Lemma FindTagEntry_None t a : tag_ok t ->
  FindTagEntry config_ t a = None <-> line_at t (ToLineAddress config_ a) = None.
Proof.
  intros Ht. split; intros Hn.
  - destruct (line_at t (ToLineAddress config_ a)) as [[i e]|] eqn:El; [|done].
    destruct (FindTagEntry_line _ _ _ _ Ht El). congruence.
  - destruct (FindTagEntry config_ t a) as [w|] eqn:Ef; [|done].
    apply FindTagEntry_Some in Ef as [_ Ef]; [|done]. congruence.
Qed.

(** ** Rewriting one entry *)

Lemma entry_put i j e t : (i < EntryCount t)%nat ->
  entry_at (put_entry i e t) j = if decide (j = i) then e else entry_at t j.
Proof. intros. unfold entry_at, put_entry, set_entries. simpl. by apply nth_insert. Qed.
Lemma EntryCount_put i e t : EntryCount (put_entry i e t) = EntryCount t.
Proof. unfold EntryCount, put_entry. simpl. apply length_insert. Qed.

(** What the map becomes when entry [i] becomes [e]. *)
Definition with_entry (i : nat) e t (l : Z) : option (nat * TagEntry) :=
  if holds l e then Some (i, e) else if holds l (entry_at t i) then None else line_at t l.

Lemma put_ok t i e n :
  tag_ok t -> (i < EntryCount t)%nat ->
  (valid e = true -> line_set config_ t (tag e) = (i / ways config_)%nat /\
     0 <= tag e * block_size_bytes config_ < 2 ^ 64 /\
     forall j, j <> i -> valid (entry_at t j) = true -> tag (entry_at t j) <> tag e) ->
  (valid e = false -> dirty e = false /\ locked e = false /\ pending_replay e = false) ->
  (n + (if pending_replay (entry_at t i) then 1 else 0) =
     pending_replay_lines_ t + (if pending_replay e then 1 else 0))%nat ->
  let t' := set_pending_lines n (put_entry i e t) in
  tag_ok t' /\ forall l, line_at t' l = with_entry i e t l.
Proof.
  intros Ht Hi Hv Hf Hn t'.
  assert (He : forall j, entry_at t' j = if decide (j = i) then e else entry_at t j) by (intros; by apply entry_put).
  assert (Ht' : tag_ok t').
  { split.
    - apply (tag_sets t Ht).
    - unfold t', put_entry. simpl. rewrite length_insert. apply (tag_len t Ht).
    - intros j. rewrite He. case_decide as Ej; [subst j; intros Hj; by apply Hv|apply (tag_home t Ht)].
    - intros j k. rewrite !He. repeat case_decide; subst; intros Hj Hk Htag; try done.
      + exfalso. by apply (proj2 (proj2 (Hv Hj)) k).
      + exfalso. by apply (proj2 (proj2 (Hv Hk)) j).
      + by apply (tag_unique t Ht).
    - intros j. rewrite He. case_decide; [apply Hf|apply (tag_flags t Ht)].
    - intros j. rewrite He. case_decide; [intros Hj; by apply Hv|apply (tag_range t Ht)].
    - unfold t', put_entry. simpl. pose proof (tag_count t Ht) as Hc.
      pose proof (countb_insert pending_replay _ i _ e (entry_lookup t i Hi)). lia. }
  split; [done|]. intros l. unfold with_entry. destruct (holds l e) eqn:Ehe.
  - apply holds_true in Ehe as [? ?]. apply line_at_Some; [done|]. by rewrite He, decide_True.
  - destruct (line_at t l) as [[j ej]|] eqn:El.
    + apply line_at_Some in El as (-> & Hvj & Htj); [|done].
      destruct (decide (j = i)) as [->|Hne].
      * assert (holds l (entry_at t i) = true) as -> by by apply holds_true.
        apply line_at_None. intros k. rewrite He. case_decide as Ek; [done|].
        destruct (holds l (entry_at t k)) eqn:Eh; [|done]. apply holds_true in Eh as [? ?].
        exfalso. apply Ek. apply (tag_unique t Ht); congruence.
      * destruct (holds l (entry_at t i)) eqn:Eh.
        { apply holds_true in Eh as [? ?]. exfalso. apply Hne. apply (tag_unique t Ht); congruence. }
        apply line_at_Some; [done|]. by rewrite He, decide_False.
    + rewrite line_at_None in El. rewrite El. apply line_at_None. intros k. rewrite He. case_decide; [done|apply El].
Qed.

(** The three uses: a present entry changes its state, an entry becomes invalid, a line
    is installed over an entry. *)
Definition same_line e e' : Prop := valid e' = valid e /\ tag e' = tag e.
Lemma change_ok t i e n :
  tag_ok t -> valid (entry_at t i) = true -> same_line (entry_at t i) e ->
  (n + (if pending_replay (entry_at t i) then 1 else 0) =
     pending_replay_lines_ t + (if pending_replay e then 1 else 0))%nat ->
  let t' := set_pending_lines n (put_entry i e t) in
  tag_ok t' /\ forall l, line_at t' l = if l =? tag e then Some (i, e) else line_at t l.
Proof.
  intros Ht Hvi (Hv & Htag) Hn. destruct (put_ok t i e n) as [Ht' Hl]; [done|by apply valid_in| | |done|].
  - intros _. rewrite Htag. split_and!; [by apply (tag_home t Ht)|by apply (tag_range t Ht)..|].
    intros j Hj Hvj Htj. apply Hj. by apply (tag_unique t Ht).
  - congruence.
  - split; [done|]. intros l. rewrite Hl. unfold with_entry, holds. rewrite Hv, Htag, Hvi.
    simpl. rewrite (Z.eqb_sym l). by destruct (tag (entry_at t i) =? l).
Qed.
Lemma drop_ok t i e :
  tag_ok t -> valid (entry_at t i) = true -> pending_replay (entry_at t i) = false ->
  valid e = false -> dirty e = false -> locked e = false -> pending_replay e = false ->
  tag_ok (put_entry i e t) /\
  forall l, line_at (put_entry i e t) l = if l =? tag (entry_at t i) then None else line_at t l.
Proof.
  intros Ht Hvi Hp Hv Hd Hl0 Hpe.
  destruct (put_ok t i e (pending_replay_lines_ t)) as [Ht' Hl]; [done|by apply valid_in|congruence|done| |].
  - rewrite Hp, Hpe. lia.
  - split; [done|]. intros l. etransitivity; [apply Hl|]. unfold with_entry, holds. rewrite Hv, Hvi. simpl.
    by rewrite (Z.eqb_sym l).
Qed.
Lemma install_ok t i a now :
  tag_ok t -> (i < EntryCount t)%nat -> 0 < block_size_bytes config_ -> fits 64 a ->
  line_at t (ToLineAddress config_ a) = None -> pending_replay (entry_at t i) = false ->
  (i / ways config_)%nat = ToSetIndex config_ t a ->
  let e := mkEntry true false false true (ToLineAddress config_ a) now in
  tag_ok (FillTagEntry config_ now i a t) /\
  forall l, line_at (FillTagEntry config_ now i a t) l =
    if l =? ToLineAddress config_ a then Some (i, e)
    else if holds l (entry_at t i) then None else line_at t l.
Proof.
  intros Ht Hi Hb Ha Hnone Hp Hs e.
  destruct (put_ok t i e (S (pending_replay_lines_ t))) as [Ht' Hl]; [done|done| |done| |].
  - intros _. split_and!; [by rewrite Hs| | |].
    + simpl. unfold ToLineAddress, fits in *. apply Z.mul_nonneg_nonneg; [|lia]. apply Z.div_pos; lia.
    + simpl. unfold ToLineAddress, fits in *. pose proof (Z.mul_div_le a (block_size_bytes config_)). lia.
    + intros j Hj Hvj Htj. rewrite line_at_None in Hnone. specialize (Hnone j). unfold holds in Hnone.
      rewrite Hvj, Htj in Hnone. simpl in Hnone. by rewrite Z.eqb_refl in Hnone.
  - rewrite Hp. simpl. lia.
  - split; [done|]. intros l. etransitivity; [apply Hl|]. unfold with_entry, holds at 1. simpl.
    by rewrite (Z.eqb_sym l).
Qed.
End view.

(** ** The victim of a refill *)

Section victims.
Context {E : Type} `{RandomLaws E} (config_ : Param).
Implicit Types (t : TagArray E) (p : Packet) (e : TagEntry) (l a now : Z).

Definition evictable t (set way : nat) : Prop :=
  (way < ways config_)%nat /\ CanBeEvicted (entry_at t (set + way)) = true.
Definition stamp t (set way : nat) : Z := access_timestamp (entry_at t (set + way)).
(** The evictable way with the smallest timestamp, the first one among equals. *)
Definition least_recent t (set way : nat) : Prop :=
  evictable t set way /\
  (forall w, evictable t set w -> stamp t set way <= stamp t set w) /\
  (forall w, evictable t set w -> (w < way)%nat -> stamp t set way < stamp t set w).

Lemma victim_scan_spec t set :
  match victim_scan config_ t set with
  | Some (w, m) => m = stamp t set w /\ least_recent t set w
  | None => forall w, ~ evictable t set w
  end.
Proof.
  pose (P := fun (n : nat) (best : option (nat * Z)) =>
    match best with
    | Some (w, m) => m = stamp t set w /\ (w < n)%nat /\ CanBeEvicted (entry_at t (set + w)) = true /\
        (forall w', (w' < n)%nat -> CanBeEvicted (entry_at t (set + w')) = true -> m <= stamp t set w') /\
        (forall w', (w' < w)%nat -> CanBeEvicted (entry_at t (set + w')) = true -> m < stamp t set w')
    | None => forall w', (w' < n)%nat -> CanBeEvicted (entry_at t (set + w')) = false
    end).
  assert (HP : P (0 + ways config_)%nat (victim_scan config_ t set)).
  { unfold victim_scan. apply for_range_ind; [intros w' Hw'; lia|]. intros j [[w m]|] Hj; unfold P.
    - intros (-> & Hw & Hc & Hmin & Hfst). fold (stamp t set j).
      destruct (CanBeEvicted (entry_at t (set + j))) eqn:Ec; simpl; [bcase|]; split_and!; try done; try lia.
      + intros w' Hw' Hc'. destruct (decide (w' = j)) as [->|]; [lia|]. specialize (Hmin w' ltac:(lia) Hc'). lia.
      + intros w' Hw' Hc'. specialize (Hmin w' Hw' Hc'). lia.
      + intros w' Hw' Hc'. destruct (decide (w' = j)) as [->|]; [lia|]. apply Hmin; [lia|done].
      + intros w' Hw' Hc'. destruct (decide (w' = j)) as [->|]; [congruence|]. apply Hmin; [lia|done].
    - intros Hno. destruct (CanBeEvicted (entry_at t (set + j))) eqn:Ec; simpl.
      + split_and!; [done|lia|done| |].
        * intros w' Hw' Hc'. destruct (decide (w' = j)) as [->|]; [unfold stamp; lia|].
          rewrite Hno in Hc' by lia. done.
        * intros w' Hw' Hc'. rewrite Hno in Hc' by lia. done.
      + intros w' Hw'. destruct (decide (w' = j)) as [->|]; [done|]. apply Hno. lia. }
  unfold P in HP. destruct (victim_scan config_ t set) as [[w m]|].
  - destruct HP as (Hm & Hw & Hc & Hmin & Hfst). subst m. split; [done|]. unfold least_recent, evictable.
    split_and!; [lia|done|intros w' []; by apply Hmin|intros w' [] ?; by apply Hfst].
  - intros w [Hw Hc]. rewrite HP in Hc by lia. done.
Qed.

Lemma FindInvalidEntry_None t set :
  FindInvalidEntry config_ t set = None -> forall w, (w < ways config_)%nat -> valid (entry_at t (set + w)) = true.
Proof.
  unfold FindInvalidEntry. rewrite find_first_None. intros Hf w Hw. specialize (Hf w Hw). by apply negb_false_iff.
Qed.

(** In a full set a victim is an evictable way, the least recent one unless the policy
    is random; there is none exactly when no way is evictable. *)
Lemma SelectVictim_spec t set :
  (forall w, (w < ways config_)%nat -> valid (entry_at t (set + w)) = true) ->
  exists v r, SelectVictim config_ t set = Ok (v, r) /\
    match v with
    | Some w => evictable t set w /\ (replacement_policy config_ <> kRandom -> least_recent t set w)
    | None => forall w, ~ evictable t set w
    end.
Proof.
  intros Hv. unfold SelectVictim.
  replace (forallb _ _) with true.
  2: { symmetry. apply forallb_forall. intros w Hw%in_seq. apply Hv. lia. }
  simpl. pose proof (victim_scan_spec t set) as Hs.
  assert (Hscan : exists v r, Ok (fst <$> victim_scan config_ t set, random_engine_ t) = Ok (v, r) /\
    match v with Some w => least_recent t set w | None => forall w, ~ evictable t set w end).
  { eexists _, _. split; [done|]. destruct (victim_scan config_ t set) as [[w m]|]; simpl; [by destruct Hs|done]. }
  destruct (replacement_policy config_) eqn:Ep.
  1,2: destruct Hscan as (v & r & Heq & Hv'); exists v, r; split; [done|]; destruct v; [|done];
    split; [apply Hv'|done].
  pose proof (draw_lt (length (List.filter (fun way => CanBeEvicted (entry_at t (set + way))) (seq 0 (ways config_))))
    (random_engine_ t)) as Hd.
  assert (Hin : forall w, List.In w (List.filter (fun way => CanBeEvicted (entry_at t (set + way))) (seq 0 (ways config_)))
    <-> evictable t set w).
  { intros w. rewrite filter_In, in_seq. unfold evictable. intuition lia. }
  destruct (List.filter _ _) as [|c cs] eqn:Ef.
  - eexists None, _. split; [done|]. intros w Hw. by apply Hin in Hw.
  - destruct (draw (length (c :: cs)) (random_engine_ t)) as [k r]. eexists (Some _), r. split; [done|]. split; [|done].
    apply Hin. apply nth_In. simpl in *. lia.
Qed.
End victims.

(** ** The operations on the map of lines *)

Section specs.
Context {E : Type} `{RandomLaws E} (config_ : Param).
Implicit Types (t : TagArray E) (p : Packet) (e : TagEntry) (l a now : Z).

Definition loc_of (i : nat) : Location := mkLocation (i / ways config_) (i mod ways config_).
(** [t'] is [t] with entry [e] for line [l], at the same place. *)
Definition line_becomes t l (i : nat) e t' : Prop :=
  tag_ok config_ t' /\ num_sets_ t' = num_sets_ t /\ tag e = l /\
  forall l', line_at t' l' = if l' =? l then Some (i, e) else line_at t l'.
Definition line_gone t l t' : Prop :=
  tag_ok config_ t' /\ num_sets_ t' = num_sets_ t /\
  forall l', line_at t' l' = if l' =? l then None else line_at t l'.

Lemma line_becomes_change t l i e e' n :
  tag_ok config_ t -> line_at t l = Some (i, e) -> same_line e e' ->
  (n + (if pending_replay e then 1 else 0) = pending_replay_lines_ t + (if pending_replay e' then 1 else 0))%nat ->
  line_becomes t l i e' (set_pending_lines n (put_entry i e' t)).
Proof.
  intros Ht Hl Hs Hn. apply (line_at_Some config_) in Hl as (-> & Hv & <-); [|done].
  destruct (change_ok config_ t i e' n) as [Ht' Hl']; [done..|]. destruct Hs as [_ Htag].
  split_and!; [done..|]. by rewrite <- Htag.
Qed.

Lemma line_becomes_trans t t1 t2 l i e e' :
  line_becomes t l i e t1 -> line_becomes t1 l i e' t2 -> line_becomes t l i e' t2.
Proof.
  intros (_ & Hn & _ & Hl) (Ht' & Hn' & Htag & Hl'). split_and!; [done|congruence|done|].
  intros l'. rewrite Hl', Hl. by destruct (l' =? l).
Qed.
Lemma line_becomes_at t l i e t' : line_becomes t l i e t' -> line_at t' l = Some (i, e).
Proof. intros (_ & _ & _ & Hl). by rewrite Hl, Z.eqb_refl. Qed.

Lemma touch_lru_same now e :
  valid (touch_lru config_ now e) = valid e /\ dirty (touch_lru config_ now e) = dirty e /\
  locked (touch_lru config_ now e) = locked e /\ pending_replay (touch_lru config_ now e) = pending_replay e /\
  tag (touch_lru config_ now e) = tag e.
Proof. unfold touch_lru. by case_bool_decide. Qed.

Lemma loc_of_line t a i e : tag_ok config_ t -> line_at t (ToLineAddress config_ a) = Some (i, e) ->
  mkLocation (ToSetIndex config_ t a) (i mod ways config_) = loc_of i.
Proof.
  intros Ht Hl. destruct (line_at_place _ _ _ _ _ Ht Hl) as [_ Hs]. unfold loc_of. by rewrite Hs.
Qed.
Lemma GetEntry_loc t i : tag_ok config_ t -> (i < EntryCount t)%nat -> GetEntry config_ (loc_of i) t = Ok i.
Proof.
  intros Ht Hi. destruct (way_split config_ t i Ht Hi) as (_ & Hs & Hm & Heq). unfold GetEntry, loc_of. simpl.
  rewrite (proj2 (Nat.ltb_lt _ _) Hs), (proj2 (Nat.ltb_lt _ _) Hm). simpl. by f_equal.
Qed.

(** A lookup by a core request or a replay. *)
Lemma Probe_spec now p a wr t st p' t' :
  tag_ok config_ t -> Probe config_ now p a wr t = Ok (st, p', t') ->
  match line_at t (ToLineAddress config_ a) with
  | None => type_ p <> kReplay /\ st = StMiss /\ p' = set_is_hit false p /\ t' = t
  | Some (i, e) =>
      if bool_decide (type_ p = kCoreReq) && pending_replay e then st = StPendingReplay /\ p' = p /\ t' = t
      else st = StHit /\ p' = set_location (loc_of i) (set_is_hit true p) /\
        (is_last_replay p = true -> pending_replay e = true) /\
        exists e', line_becomes t (ToLineAddress config_ a) i e' t' /\
          dirty e' = dirty e || (wr && bool_decide (write_hit_policy config_ = kWriteBack)) /\
          locked e' = locked e /\ pending_replay e' = pending_replay e && negb (is_last_replay p)
  end.
Proof.
  intros Ht. unfold Probe. destruct (line_at t (ToLineAddress config_ a)) as [[i e]|] eqn:El.
  - destruct (FindTagEntry_line _ _ _ _ _ Ht El) as (-> & -> & Hw & ->).
    destruct (_ && _)%bool; [by intros [= <- <- <-]|]. intros Hr. res_inv.
    destruct x as [e1 n]. res_inv. rewrite (loc_of_line t a i e Ht El). split_and!; [done..| |].
    { intros Hlast. rewrite Hlast in *. by res_inv. }
    eexists. split; [apply (line_becomes_change t _ i e); [done|done| |]|].
    all: destruct (is_last_replay p); res_inv; simpl;
      match goal with |- context [touch_lru _ _ ?x] => pose proof (touch_lru_same now x) as (Ht1 & Ht2 & Ht3 & Ht4 & Ht5) end;
      simpl in *; unfold same_line; simpl; rewrite ?Ht1, ?Ht2, ?Ht3, ?Ht4, ?Ht5; try done; bprop.
    + repeat match goal with H : pending_replay _ = true |- _ => rewrite H end. lia.
    + split_and!; [done..|]. by rewrite andb_false_r.
    + split_and!; [done..|]. by rewrite andb_true_r.
  - apply FindTagEntry_None in El as ->; [|done]. intros Hr. res_inv. by case_bool_decide.
Qed.
(** When a lookup does not fail. *)
Lemma Probe_total now p a wr t :
  tag_ok config_ t -> (type_ p = kReplay -> line_at t (ToLineAddress config_ a) <> None) ->
  (is_last_replay p = true -> type_ p = kReplay /\
     forall i e, line_at t (ToLineAddress config_ a) = Some (i, e) -> pending_replay e = true) ->
  exists st p' t', Probe config_ now p a wr t = Ok (st, p', t').
Proof.
  intros Ht Hrep Hlast. unfold Probe. destruct (line_at t (ToLineAddress config_ a)) as [[i e]|] eqn:El.
  - destruct (FindTagEntry_line _ _ _ _ _ Ht El) as (-> & -> & Hw & ->).
    destruct (_ && _)%bool; [eauto|]. destruct (is_last_replay p) eqn:Ep; [|eauto].
    destruct (Hlast eq_refl) as [-> Hpe]. specialize (Hpe _ _ eq_refl). rewrite Hpe.
    rewrite (bool_decide_eq_true_2 (kReplay = kReplay)) by done. simpl.
    assert (0 < pending_replay_lines_ t)%nat as Hp.
    { rewrite (tag_count config_ t Ht). apply (line_at_Some config_) in El as (-> & Hv & _); [|done].
      pose proof (countb_insert pending_replay _ i _ entry0 (entry_lookup t i (valid_in t i Hv))) as Hc.
      rewrite Hpe in Hc. simpl in Hc. lia. }
    rewrite (proj2 (Nat.ltb_lt _ _) Hp). simpl. eauto.
  - apply FindTagEntry_None in El as Hf; [|done]. rewrite Hf. rewrite bool_decide_eq_false_2; [simpl; eauto|].
    intros Ht'. by apply Hrep.
Qed.

(** A refill never fails. It installs the line in an invalid entry of its set if there
    is one, and otherwise over a victim that is neither locked nor waited for. *)
Lemma Refill_spec now p a t :
  tag_ok config_ t -> 0 < block_size_bytes config_ -> fits 64 a -> line_at t (ToLineAddress config_ a) = None ->
  exists st p' t', Refill config_ now p a t = Ok (st, p', t') /\
  let set := GetSet config_ t a in
  (st = StNoVictim /\ p' = set_is_hit false p /\ (exists r, t' = set_engine r t) /\
     (forall w, (w < ways config_)%nat -> valid (entry_at t (set + w)) = true /\ ~ evictable config_ t set w)) \/
  (st = StHit /\ tag_ok config_ t' /\ num_sets_ t' = num_sets_ t /\ exists w, (w < ways config_)%nat /\
     let i := (set + w)%nat in let e := entry_at t i in
     (i < EntryCount t)%nat /\
     (forall l, line_at t' l = if l =? ToLineAddress config_ a
        then Some (i, mkEntry true false false true (ToLineAddress config_ a) now)
        else if holds l e then None else line_at t l) /\
     ((valid e = false /\ p' = set_victim false false 0 (set_is_hit true (set_location (loc_of i) p))) \/
      (valid e = true /\ evictable config_ t set w /\
       (replacement_policy config_ <> kRandom -> least_recent config_ t set w) /\
       p' = set_victim true (dirty e) (tag e * block_size_bytes config_) (set_is_hit true (set_location (loc_of i) p))))).
Proof.
  intros Ht Hb Ha Hnone. unfold Refill. apply FindTagEntry_None in Hnone as Hf; [|done].
  rewrite bool_decide_eq_true_2 by done. simpl.
  assert (Hloc : forall w, (w < ways config_)%nat -> loc_of (GetSet config_ t a + w) = mkLocation (ToSetIndex config_ t a) w).
  { intros w Hw. unfold loc_of, GetSet. destruct (set_way_div (ToSetIndex config_ t a) w _ Hw) as [-> ->]. done. }
  assert (Hdiv : forall w, (w < ways config_)%nat -> ((GetSet config_ t a + w) / ways config_)%nat = ToSetIndex config_ t a).
  { intros w Hw. by apply (set_way_div (ToSetIndex config_ t a) w _ Hw). }
  destruct (FindInvalidEntry config_ t (GetSet config_ t a)) as [w|] eqn:Ei.
  - eexists _, _, _. split; [done|]. right. apply find_first_Some in Ei as (Hw & Hv & _). bprop.
    destruct (install_ok config_ t (GetSet config_ t a + w) a now) as [Ht' Hl];
      [done|by apply set_way_in|done|done|done|by apply (tag_flags config_ t Ht)|by apply Hdiv|].
    split_and!; [done..|]. exists w. split_and!; [done|by apply set_way_in|done|]. left. by rewrite Hloc by done.
  - destruct (SelectVictim_spec config_ t (GetSet config_ t a)) as (v & r & -> & Hv); [by apply FindInvalidEntry_None|].
    simpl. pose proof (FindInvalidEntry_None _ _ _ Ei) as Hall. destruct v as [w|].
    + destruct Hv as [Hev Hlr]. pose proof Hev as [Hw Hcan]. unfold CanBeEvicted in Hcan. bprop.
      eexists _, _, _. split; [done|]. right.
      destruct (install_ok config_ (set_engine r t) (GetSet config_ t a + w) a now) as [Ht' Hl];
        [by destruct Ht; split|by apply (set_way_in config_ t)|done|done|done|done|by apply Hdiv|].
      split_and!; [done..|]. exists w. split_and!; [done|by apply set_way_in|done|]. right.
      rewrite Hloc by done. split_and!; [by apply Hall|done|done|]. unfold set_engine, entry_at. simpl.
      fold (entry_at t (GetSet config_ t a + w)).
      rewrite wrap_small; [done|]. apply (tag_range config_ t Ht). by apply Hall.
    + eexists _, _, _. split; [done|]. left. split_and!; [done|done|by eexists|]. intros w Hw. auto.
Qed.

(** The constructor: an empty map. *)
Lemma TagArray_init_ok seed : param_ok config_ ->
  exists t, TagArray_init config_ seed = Ok t /\ tag_ok config_ t /\ (forall l, line_at t l = None) /\
    cache_size_bytes config_ = Z.of_nat (num_sets_ t) * Z.of_nat (ways config_) * block_size_bytes config_.
Proof.
  intros Hp. destruct (num_sets_ok _ Hp) as (n & Hn & Hpos & Hsize). unfold TagArray_init. rewrite Hn. simpl.
  eexists. split; [done|].
  assert (He : forall i, entry_at (mkTags n (replicate (n * ways config_) entry0) 0 (seeded seed)) i = entry0).
  { intros i. unfold entry_at. simpl. destruct (decide (i < n * ways config_)%nat).
    - apply nth_lookup_Some. by apply lookup_replicate_2.
    - apply nth_overflow. rewrite length_replicate. lia. }
  split_and!; [split| |done]; simpl; try done.
  - by rewrite length_replicate.
  - intros i. by rewrite He.
  - intros i j. by rewrite He.
  - intros i. by rewrite He.
  - intros i. by rewrite He.
  - unfold countb. generalize (n * ways config_)%nat as k. induction k; simpl; auto.
  - intros l. apply line_at_None. intros i. by rewrite He.
Qed.

(** Setting and clearing the flags of a present line. *)
Lemma LockEntry_spec t l i e : tag_ok config_ t -> line_at t l = Some (i, e) -> locked e = false ->
  exists t', LockEntry config_ (loc_of i) t = Ok t' /\
    line_becomes t l i (set_flags (valid e) (dirty e) true e) t'.
Proof.
  intros Ht Hl Hk. pose proof Hl as (-> & Hv & _)%(line_at_Some config_); [|done].
  unfold LockEntry. rewrite GetEntry_loc by (done || by apply valid_in). simpl. rewrite Hv, Hk. simpl.
  eexists. split; [done|]. replace (put_entry _ _ t) with
    (set_pending_lines (pending_replay_lines_ t) (put_entry i (set_flags true (dirty (entry_at t i)) true (entry_at t i)) t)) by done.
  apply line_becomes_change with (entry_at t i); [done..| |by simpl]. by split.
Qed.
Lemma UnlockEntry_spec t l i e : tag_ok config_ t -> line_at t l = Some (i, e) -> locked e = true ->
  exists t', UnlockEntry config_ (loc_of i) t = Ok t' /\
    line_becomes t l i (set_flags (valid e) (dirty e) false e) t'.
Proof.
  intros Ht Hl Hk. pose proof Hl as (-> & Hv & _)%(line_at_Some config_); [|done].
  unfold UnlockEntry. rewrite GetEntry_loc by (done || by apply valid_in). simpl. rewrite Hv, Hk. simpl.
  eexists. split; [done|]. replace (put_entry _ _ t) with
    (set_pending_lines (pending_replay_lines_ t) (put_entry i (set_flags true (dirty (entry_at t i)) false (entry_at t i)) t)) by done.
  apply line_becomes_change with (entry_at t i); [done..| |by simpl]. by split.
Qed.
Lemma MarkDirty_spec t l i e : tag_ok config_ t -> line_at t l = Some (i, e) ->
  exists t', MarkDirty config_ (loc_of i) t = Ok t' /\
    line_becomes t l i (set_flags (valid e) true (locked e) e) t'.
Proof.
  intros Ht Hl. pose proof Hl as (-> & Hv & _)%(line_at_Some config_); [|done].
  unfold MarkDirty. rewrite GetEntry_loc by (done || by apply valid_in). simpl. rewrite Hv. simpl.
  eexists. split; [done|]. replace (put_entry _ _ t) with
    (set_pending_lines (pending_replay_lines_ t) (put_entry i (set_flags true true (locked (entry_at t i)) (entry_at t i)) t)) by done.
  apply line_becomes_change with (entry_at t i); [done..| |by simpl]. by split.
Qed.

(** Taking a dirty line out for a write-back leaves it clean. *)
Lemma clean_entry_spec now t l i e : tag_ok config_ t -> line_at t l = Some (i, e) ->
  locked e = false -> pending_replay e = false ->
  exists e' t', clean_entry config_ now i (loc_of i) t =
      Ok (Some (mkDirtyLine (loc_of i) (l * block_size_bytes config_)), t') /\
    line_becomes t l i e' t' /\ dirty e' = false /\ locked e' = false /\ pending_replay e' = false.
Proof.
  intros Ht Hl Hk Hp. pose proof Hl as (-> & Hv & <-)%(line_at_Some config_); [|done].
  unfold clean_entry. rewrite Hk, Hp. simpl. rewrite wrap_small by by apply (tag_range config_ t Ht).
  pose proof (touch_lru_same now (set_flags (valid (entry_at t i)) false false (entry_at t i))) as (H1 & H2 & H3 & H4 & H5).
  simpl in H1, H2, H3, H4, H5.
  eexists (touch_lru config_ now (set_flags _ false false _)), _. split; [done|].
  split_and!; [|done|done|by rewrite H4, Hp].
  apply (line_becomes_change t _ i (entry_at t i) _ (pending_replay_lines_ t)); [done|done| |by rewrite H4, Hp].
  split; by rewrite ?H1, ?H5.
Qed.
Lemma ProbeDirtyLine_spec now a t : tag_ok config_ t ->
  match line_at t (ToLineAddress config_ a) with
  | Some (i, e) =>
      locked e = false -> pending_replay e = false -> dirty e = true ->
      exists e' t', ProbeDirtyLine config_ now a t =
          Ok (Some (mkDirtyLine (loc_of i) (ToLineAddress config_ a * block_size_bytes config_)), t') /\
        line_becomes t (ToLineAddress config_ a) i e' t' /\
        dirty e' = false /\ locked e' = false /\ pending_replay e' = false
  | None => ProbeDirtyLine config_ now a t = Ok (None, t)
  end.
Proof.
  intros Ht. unfold ProbeDirtyLine. destruct (line_at t (ToLineAddress config_ a)) as [[i e]|] eqn:El.
  - intros Hk Hp Hd. rewrite (loc_of_line t a i e Ht El) || idtac.
    destruct (FindTagEntry_line _ _ _ _ _ Ht El) as (-> & -> & Hw & ->). rewrite Hd. simpl.
    rewrite (loc_of_line t a i e Ht El). by apply clean_entry_spec with e.
  - by apply FindTagEntry_None in El as ->.
Qed.
Lemma ProbeDirtyLine_clean now a t : tag_ok config_ t ->
  (forall i e, line_at t (ToLineAddress config_ a) = Some (i, e) -> dirty e = false) ->
  ProbeDirtyLine config_ now a t = Ok (None, t).
Proof.
  intros Ht Hd. unfold ProbeDirtyLine. destruct (line_at t (ToLineAddress config_ a)) as [[i e]|] eqn:El.
  - destruct (FindTagEntry_line _ _ _ _ _ Ht El) as (-> & -> & Hw & ->). by rewrite (Hd _ _ eq_refl).
  - by apply FindTagEntry_None in El as ->.
Qed.
Lemma drop_entry_spec now t l i e : tag_ok config_ t -> line_at t l = Some (i, e) ->
  locked e = false -> pending_replay e = false ->
  exists t', drop_entry config_ now i t = Ok t' /\ line_gone t l t'.
Proof.
  intros Ht Hl Hk Hp. pose proof Hl as (-> & Hv & <-)%(line_at_Some config_); [|done].
  unfold drop_entry. rewrite Hk, Hp. simpl.
  pose proof (touch_lru_same now (set_flags false false false (entry_at t i))) as (H1 & H2 & H3 & H4 & H5).
  simpl in H1, H2, H3, H4, H5.
  eexists. split; [done|]. destruct (drop_ok config_ t i (touch_lru config_ now (set_flags false false false (entry_at t i))))
    as [Ht' Hl']; [done|done|done|by rewrite H1|by rewrite H2|by rewrite H3|by rewrite H4|]. by split_and!.
Qed.
Lemma InvalidateLine_spec now a t : tag_ok config_ t ->
  (forall i e, line_at t (ToLineAddress config_ a) = Some (i, e) -> locked e = false /\ pending_replay e = false) ->
  exists t', InvalidateLine config_ now a t = Ok t' /\ line_gone t (ToLineAddress config_ a) t'.
Proof.
  intros Ht Hf. unfold InvalidateLine. destruct (line_at t (ToLineAddress config_ a)) as [[i e]|] eqn:El.
  - destruct (FindTagEntry_line _ _ _ _ _ Ht El) as (-> & -> & Hw & _). destruct (Hf _ _ eq_refl).
    by apply drop_entry_spec with e.
  - apply FindTagEntry_None in El as Hn; [|done]. rewrite Hn. exists t. split; [done|]. split_and!; [done..|]. intros l'.
    destruct (l' =? _) eqn:E'; [bprop; by subst|done].
Qed.

(** The same by index, for the scan of the whole cache. *)
Lemma line_at_index t i : tag_ok config_ t -> valid (entry_at t i) = true ->
  line_at t (tag (entry_at t i)) = Some (i, entry_at t i).
Proof. intros Ht Hv. by apply (line_at_Some config_). Qed.
Lemma ProbeDirtyEntry_spec now i t : tag_ok config_ t -> (i < EntryCount t)%nat ->
  let e := entry_at t i in
  if valid e && dirty e then
    locked e = false -> pending_replay e = false ->
    exists e' t', ProbeDirtyEntry config_ now i t =
        Ok (Some (mkDirtyLine (loc_of i) (tag e * block_size_bytes config_)), t') /\
      line_becomes t (tag e) i e' t' /\ dirty e' = false /\ locked e' = false /\ pending_replay e' = false
  else ProbeDirtyEntry config_ now i t = Ok (None, t).
Proof.
  intros Ht Hi e. unfold ProbeDirtyEntry. rewrite (proj2 (Nat.leb_gt _ _)) by done.
  subst e. destruct (valid (entry_at t i)) eqn:Hv, (dirty (entry_at t i)); simpl; try done. intros Hk Hp.
  apply clean_entry_spec with (entry_at t i); [done|by apply line_at_index|done..].
Qed.
Lemma InvalidateEntry_spec now i t : tag_ok config_ t -> (i < EntryCount t)%nat ->
  let e := entry_at t i in
  locked e = false -> pending_replay e = false ->
  exists t', InvalidateEntry config_ now i t = Ok t' /\ if valid e then line_gone t (tag e) t' else t' = t.
Proof.
  intros Ht Hi e Hk Hp. unfold InvalidateEntry. rewrite (proj2 (Nat.leb_gt _ _)) by done. subst e.
  destruct (valid (entry_at t i)) eqn:Hv; simpl; [|eauto].
  apply drop_entry_spec with (entry_at t i); [done|by apply line_at_index|done..].
Qed.
End specs.
