(* ===== verification/SimData.v ===== *)
(** * The data array of the simulated cache (simtix/src/cache/data_array.{h,cc})

    Bytes of the lines, by set and way. An access that does not fit in a block or names
    no block is reported as a SystemC error, which throws unless the simulation changes
    the action for errors ([error_throws]); then the access fails and the transaction
    carries an error status. *)

From S2P Require Import Prelude SimFifo SimPacket.

Record DataArray := mkData { d_num_sets : nat; data_array_ : list Z }.
(** The block that a refill displaces: its address and bytes, in memory of the caller. *)
Record VictimBlock := mkVictim { vb_address : Z; vb_data : list Z }.
Record ProcessResult := mkResult { ok : bool; victim_generated : bool }.

Section data.
Context (config_ : Param) (error_throws : bool).
Implicit Types (d : DataArray) (p : Packet) (g : Gp).

Definition bs : nat := Z.to_nat (block_size_bytes config_).
Definition DataArray_init : res DataArray :=
  n ← GetNumSets config_; Ok (mkData n (replicate (n * ways config_ * bs) 0)).
Definition GetBlockData (loc : Location) : nat := ((loc_set loc * ways config_ + loc_way loc) * bs)%nat.
Definition block_offset (address : Z) : nat := Z.to_nat (address mod block_size_bytes config_).

Definition ReportInvalidAccess (g : Gp) : res (bool * Gp) :=
  if error_throws then Err ReportError else Ok (false, set_status TLM_GENERIC_ERROR_RESPONSE g).
Definition ValidatePayloadAccess g (offset : nat) : res (bool * Gp) :=
  let n := gp_data_length g in
  if negb (n =? 0)%nat && bool_decide (gp_data g = None) then ReportInvalidAccess g
  else if negb ((n <=? bs)%nat && (offset <=? bs - n)%nat) then ReportInvalidAccess g
  else Ok (true, g).
Definition ValidateLocation d (loc : Location) g : res (bool * Gp) :=
  if (d_num_sets d <=? loc_set loc)%nat || (ways config_ <=? loc_way loc)%nat then ReportInvalidAccess g
  else Ok (true, g).
(** [a || b] of two validations: the second one runs when the first one passes. *)
Definition and_then (v : res (bool * Gp)) (w : Gp -> res (bool * Gp)) : res (bool * Gp) :=
  '(b, g) ← v; if (b : bool) then w g else Ok (false, g).
Definition ValidateDirtyVictimRefill p g (offset : nat) : res (bool * Gp) :=
  if bool_decide (type_ p = kRefill) && (gp_data_length g =? bs)%nat && (offset =? 0)%nat then Ok (true, g)
  else ReportInvalidAccess g.

(** [Load] copies a block, from byte [at_] of the array on, into the transaction. *)
Definition Load (arr : list Z) (at_ : nat) g : Gp :=
  set_data (Some (copy_bytes (byte_enabled g) (gp_data_length g) (default [] (gp_data g)) 0 arr at_)) g.
Definition Store (arr : list Z) (at_ : nat) g : list Z :=
  copy_bytes (byte_enabled g) (gp_data_length g) arr at_ (default [] (gp_data g)) 0.

Definition Write p g (vb : option VictimBlock) d : res (ProcessResult * Gp * option VictimBlock * DataArray) :=
  let offset := block_offset (gp_address g) in
  '(valid, g) ← and_then (ValidatePayloadAccess g offset) (ValidateLocation d (location p));
  if negb (valid : bool) then Ok (mkResult false false, g, vb, d)
  else
    let block_data := (GetBlockData (location p) + offset)%nat in
    '(valid, g, vb) ←
      (if is_victim_dirty p then
         '(v, g) ← ValidateDirtyVictimRefill p g offset;
         if negb (v : bool) then Ok (false, g, vb)
         else match vb with
              | None => Err Assertion
              | Some b =>
                  massert (length (vb_data b) =? bs)%nat;;
                  Ok (true, g, Some (mkVictim (victim_address p) (memcpy bs (vb_data b) 0 (data_array_ d) block_data)))
              end
       else Ok (true, g, vb));
    if negb (valid : bool) then Ok (mkResult false false, g, vb, d)
    else Ok (mkResult true (is_victim_dirty p), g, vb, mkData (d_num_sets d) (Store (data_array_ d) block_data g)).
Definition Read p g d : res (bool * Gp) :=
  let offset := block_offset (gp_address g) in
  '(valid, g) ← and_then (ValidatePayloadAccess g offset) (ValidateLocation d (location p));
  if negb (valid : bool) then Ok (false, g)
  else Ok (true, Load (data_array_ d) (GetBlockData (location p) + offset) g).
Definition Data_Process p g (vb : option VictimBlock) d
    : res (ProcessResult * Gp * option VictimBlock * DataArray) :=
  massert (bool_decide (type_ p = kCoreReq \/ type_ p = kRefill \/ type_ p = kReplay));;
  massert (is_hit p);;
  if gp_is_write g then Write p g vb d
  else '(r, g) ← Read p g d; Ok (mkResult r false, g, vb, d).

(** The atomic sequencer reads and writes words, the write-back of a line whole blocks. *)
Definition fits_in_block (offset size : nat) : bool := (size <=? bs)%nat && (offset <=? bs - size)%nat.
Definition ReadBytes p g (dst : list Z) (size : nat) d : res (bool * Gp * list Z) :=
  massert (is_hit p);;
  let offset := block_offset (gp_address g) in
  '(valid, g) ← and_then (if negb (fits_in_block offset size) then ReportInvalidAccess g else Ok (true, g))
                  (ValidateLocation d (location p));
  if negb (valid : bool) then Ok (false, g, dst)
  else Ok (true, g, memcpy size dst 0 (data_array_ d) (GetBlockData (location p) + offset)).
Definition WriteBytes p g (src : list Z) (size : nat) d : res (bool * Gp * DataArray) :=
  massert (is_hit p);;
  let offset := block_offset (gp_address g) in
  '(valid, g) ← and_then (if negb (fits_in_block offset size) then ReportInvalidAccess g else Ok (true, g))
                  (ValidateLocation d (location p));
  if negb (valid : bool) then Ok (false, g, d)
  else Ok (true, g, mkData (d_num_sets d) (memcpy size (data_array_ d) (GetBlockData (location p) + offset) src 0)).
Definition ReadBlock (loc : Location) (dst : list Z) (size : nat) d : res (bool * list Z) :=
  let invalid := if error_throws then Err ReportError else Ok (false, dst) in
  if negb (size =? bs)%nat then invalid
  else if (d_num_sets d <=? loc_set loc)%nat || (ways config_ <=? loc_way loc)%nat then invalid
  else Ok (true, memcpy size dst 0 (data_array_ d) (GetBlockData loc)).

(** ** Blocks *)

Definition data_ok d : Prop := length (data_array_ d) = (d_num_sets d * ways config_ * bs)%nat.
(** Byte [k] of the block with index [i]. *)
Definition block_byte d (i k : nat) : Z := nth (i * bs + k) (data_array_ d) 0.
Definition in_array d (loc : Location) : Prop := (loc_set loc < d_num_sets d)%nat /\ (loc_way loc < ways config_)%nat.
Definition block_index (loc : Location) : nat := (loc_set loc * ways config_ + loc_way loc)%nat.
(** A transaction that stays inside its block. *)
Definition gp_fits g : Prop :=
  (block_offset (gp_address g) + gp_data_length g <= bs)%nat /\
  exists bytes, gp_data g = Some bytes /\ (gp_data_length g <= length bytes)%nat.

Lemma block_in d loc : data_ok d -> in_array d loc -> ((block_index loc + 1) * bs <= length (data_array_ d))%nat.
Proof. intros Hd [Hs Hw]. rewrite Hd. unfold block_index. apply Nat.mul_le_mono_r. nia. Qed.
Lemma block_byte_other (i j k k' : nat) : (k < bs)%nat -> (k' < bs)%nat ->
  (i * bs + k = j * bs + k' <-> i = j /\ k = k')%nat.
Proof.
  intros Hk Hk'. split; [|by intros [-> ->]]. intros Heq.
  assert (i = j) as ->; [|lia]. destruct (decide (i < j)%nat); [nia|]. destruct (decide (j < i)%nat); [nia|lia].
Qed.

Lemma validate_fits d p g : gp_fits g -> in_array d (location p) ->
  and_then (ValidatePayloadAccess g (block_offset (gp_address g))) (ValidateLocation d (location p)) = Ok (true, g).
Proof.
  intros [Hf (b & Hb & Hl)] [Hs Hw]. unfold ValidatePayloadAccess, ValidateLocation.
  rewrite (bool_decide_eq_false_2 (gp_data g = None)) by by rewrite Hb. rewrite andb_false_r.
  rewrite (proj2 (Nat.leb_le _ _)), (proj2 (Nat.leb_le (block_offset _) _)) by lia. simpl.
  rewrite (proj2 (Nat.leb_gt _ _)), (proj2 (Nat.leb_gt _ _)) by lia. done.
Qed.

(** The bytes of a block after a transaction is stored into it, and of a transaction
    after a block is loaded into it. *)
Lemma Store_block d loc g : data_ok d -> in_array d loc -> gp_fits g ->
  let off := block_offset (gp_address g) in
  let d' := mkData (d_num_sets d) (Store (data_array_ d) (GetBlockData loc + off) g) in
  data_ok d' /\ forall i k, (k < bs)%nat -> block_byte d' i k =
    if decide (i = block_index loc /\ (off <= k < off + gp_data_length g)%nat)
    then (if byte_enabled g (k - off) then nth (k - off) (default [] (gp_data g)) 0 else block_byte d i k)
    else block_byte d i k.
Proof.
  intros Hd Hloc [Hf _] off d'. pose proof (block_in d loc Hd Hloc) as Hin.
  change (GetBlockData loc) with (block_index loc * bs)%nat in *. split.
  - unfold data_ok, d', Store. simpl. rewrite length_copy_bytes; [done|]. fold off in Hf. lia.
  - intros i k Hk. unfold block_byte, d', Store. simpl. fold off in Hf. rewrite nth_copy_bytes by lia.
    destruct (decide (i = block_index loc)) as [->|Hne].
    + repeat case_decide; try (exfalso; lia); [|done]. by replace (block_index loc * bs + k - (block_index loc * bs + off))%nat with (k - off)%nat by lia.
    + rewrite (decide_False (P := i = block_index loc /\ _)) by (by intros [? _]).
      case_decide as Hr; [|done]. exfalso. apply Hne.
      assert (i * bs + k = block_index loc * bs + (i * bs + k - block_index loc * bs))%nat as Heq by lia.
      apply block_byte_other in Heq; [tauto|done|lia].
Qed.
Lemma Load_block d loc g : gp_fits g ->
  let off := block_offset (gp_address g) in
  let g' := Load (data_array_ d) (GetBlockData loc + off) g in
  exists b', gp_data g' = Some b' /\ length b' = length (default [] (gp_data g)) /\
    forall k, nth k b' 0 = if decide (k < gp_data_length g)%nat
      then (if byte_enabled g k then block_byte d (block_index loc) (off + k) else nth k (default [] (gp_data g)) 0)
      else nth k (default [] (gp_data g)) 0.
Proof.
  intros [Hf (b & Hb & Hl)] off g'. unfold g', Load. simpl. eexists. split; [done|]. rewrite Hb. simpl.
  split; [by rewrite length_copy_bytes by lia|]. intros k. rewrite nth_copy_bytes by lia.
  rewrite Nat.sub_0_r. simpl. destruct (decide (k < gp_data_length g)%nat).
  - rewrite decide_True by lia. unfold block_byte. change (GetBlockData loc) with (block_index loc * bs)%nat.
    by rewrite Nat.add_assoc.
  - by rewrite decide_False by lia.
Qed.

(** Reading a whole block. *)
Lemma ReadBlock_ok d loc dst : data_ok d -> in_array d loc -> length dst = bs ->
  exists buf, ReadBlock loc dst bs d = Ok (true, buf) /\ length buf = bs /\
    forall k, (k < bs)%nat -> nth k buf 0 = block_byte d (block_index loc) k.
Proof.
  intros Hd Hloc Hdst. pose proof (block_in d loc Hd Hloc) as Hin. destruct Hloc as [Hs Hw].
  unfold ReadBlock. rewrite Nat.eqb_refl, (proj2 (Nat.leb_gt _ _) Hs), (proj2 (Nat.leb_gt _ _) Hw). simpl.
  eexists. split; [done|]. unfold memcpy. split; [rewrite length_copy_bytes; lia|]. intros k Hk.
  rewrite nth_copy_bytes by lia. rewrite decide_True by lia. by rewrite Nat.sub_0_r.
Qed.
End data.
