(* ===== verification/SimStore.v ===== *)
(** * The storage of the simulated cache: tags, data and memory

    Composes the tag array and the data array with a byte-addressed memory as the
    pipeline stages of simtix/src/cache/cache.cc and the maintenance of
    cache_command.cc do, one operation at a time: a core access that hits, a miss that
    writes around the cache, a refill with the write-back of its victim, the write-back
    and the invalidation of a line, and the two halves of an atomic operation.

    The view of the cores is a flat memory: a present line is what its block holds, any
    other byte is the memory's. Every operation acts on it as on plain memory, whatever
    the geometry and the policies. *)

From S2P Require Import Prelude SimFifo SimPacket SimTag SimData.

Record Storage (E : Type) := mkStore { st_tags : TagArray E; st_data : DataArray; st_mem : Z -> Z }.
Arguments mkStore {E}.
Arguments st_tags {E}.
Arguments st_data {E}.
Arguments st_mem {E}.

(** The memory after a write transaction. *)
Definition mem_write (m : Z -> Z) (g : Gp) : Z -> Z := fun a =>
  let k := Z.to_nat (a - gp_address g) in
  if (gp_address g <=? a) && (k <? gp_data_length g)%nat && byte_enabled g k
  then nth k (default [] (gp_data g)) 0 else m a.
Definition mem_line (m : Z -> Z) (a : Z) (n : nat) : list Z := map (fun k => m (a + Z.of_nat k)) (seq 0 n).
(** The bytes a read transaction ends with. *)
Definition read_from (m : Z -> Z) (g : Gp) (k : nat) : Z :=
  if (k <? gp_data_length g)%nat && byte_enabled g k then m (gp_address g + Z.of_nat k)
  else nth k (default [] (gp_data g)) 0.

Section store.
Context {E : Type} `{RandomLaws E} (config_ : Param) (error_throws : bool).
Notation bs := (bs config_).
Notation B := (block_size_bytes config_).
Implicit Types (s : Storage E) (p : Packet) (g : Gp) (a l now : Z).

Definition access now p g s : res (AccessStatus * Gp * Storage E) :=
  '(st, p, t) ← Process config_ now p (gp_address g) (gp_is_write g) (st_tags s);
  match (st : AccessStatus) with
  | StHit =>
      '(r, g', _, d) ← Data_Process config_ error_throws p g None (st_data s);
      massert (ok r);;
      m ← (if gp_is_write g && bool_decide (write_hit_policy config_ = kWriteThrough)
           then w ← InitLineWriteFrom g bs; Ok (mem_write (st_mem s) w) else Ok (st_mem s));
      Ok (StHit, g', mkStore t d m)
  | StMiss =>
      m ← (if gp_is_write g && bool_decide (write_miss_policy config_ = kWriteNoAllocate)
           then w ← InitLineWriteFrom g bs; Ok (mem_write (st_mem s) w) else Ok (st_mem s));
      Ok (StMiss, g, mkStore t (st_data s) m)
  | _ => Ok (st, g, mkStore t (st_data s) (st_mem s))
  end.

(** The refill of the line of address [a] with what memory holds. *)
Definition refill now p a s : res (AccessStatus * Storage E) :=
  g ← PrepareRefillWrite (set_data (Some (mem_line (st_mem s) a bs)) (InitRead a bs));
  '(st, p, t) ← Process config_ now p a (gp_is_write g) (st_tags s);
  match (st : AccessStatus) with
  | StHit =>
      '(r, _, vb, d) ← Data_Process config_ error_throws p g
         (if is_victim_dirty p then Some (mkVictim 0 (replicate bs 0)) else None) (st_data s);
      massert (ok r);;
      m ← match vb with
          | Some b => w ← InitLineWrite (vb_address b) bs; Ok (mem_write (st_mem s) (set_data (Some (vb_data b)) w))
          | None => Ok (st_mem s)
          end;
      Ok (StHit, mkStore t d m)
  | _ => Ok (st, mkStore t (st_data s) (st_mem s))
  end.

Definition write_back now a s : res (Storage E) :=
  '(dl, t) ← ProbeDirtyLine config_ now a (st_tags s);
  match (dl : option DirtyLine) with
  | None => Ok (mkStore t (st_data s) (st_mem s))
  | Some line =>
      w ← InitLineWrite (dl_address line) bs;
      '(read_ok, buf) ← ReadBlock config_ error_throws (dl_location line) (default [] (gp_data w)) bs (st_data s);
      massert read_ok;;
      Ok (mkStore t (st_data s) (mem_write (st_mem s) (set_data (Some buf) w)))
  end.
Definition invalidate now a s : res (Storage E) :=
  t ← InvalidateLine config_ now a (st_tags s); Ok (mkStore t (st_data s) (st_mem s)).

(** ** The view *)

Definition view s (a : Z) : Z :=
  match line_at (st_tags s) (ToLineAddress config_ a) with
  | Some (i, _) => block_byte config_ (st_data s) i (block_offset config_ a)
  | None => st_mem s a
  end.

Record store_ok s : Prop := {
  store_tags : tag_ok config_ (st_tags s);
  store_data : data_ok config_ (st_data s);
  store_sets : d_num_sets (st_data s) = num_sets_ (st_tags s);
  store_clean : forall l i e k, line_at (st_tags s) l = Some (i, e) -> dirty e = false -> (k < bs)%nat ->
    block_byte config_ (st_data s) i k = st_mem s (l * B + Z.of_nat k)
}.
Context (Hblock : 0 < B).
Lemma store_eta s : mkStore (st_tags s) (st_data s) (st_mem s) = s.
Proof. by destruct s. Qed.

Lemma bs_B : Z.of_nat bs = B.
Proof. unfold SimData.bs. lia. Qed.
Lemma offset_lt a : (block_offset config_ a < bs)%nat.
Proof. unfold block_offset, SimData.bs. pose proof (Z.mod_pos_bound a B). lia. Qed.
Lemma address_split a : a = ToLineAddress config_ a * B + Z.of_nat (block_offset config_ a).
Proof.
  unfold ToLineAddress, block_offset. pose proof (Z.mod_pos_bound a B). pose proof (Z.div_mod a B). lia.
Qed.
Lemma line_split l k : (k < bs)%nat ->
  ToLineAddress config_ (l * B + Z.of_nat k) = l /\ block_offset config_ (l * B + Z.of_nat k) = k.
Proof.
  intros Hk. pose proof bs_B. unfold ToLineAddress, block_offset. split.
  - rewrite Z.div_add_l by lia. rewrite Z.div_small by lia. lia.
  - rewrite Z.add_comm, Z.mod_add by lia. rewrite Z.mod_small by lia. lia.
Qed.
Lemma line_near a k : (block_offset config_ a + k < bs)%nat ->
  ToLineAddress config_ (a + Z.of_nat k) = ToLineAddress config_ a /\
  block_offset config_ (a + Z.of_nat k) = (block_offset config_ a + k)%nat.
Proof.
  intros Hk. rewrite (address_split a) at 1 3.
  replace (ToLineAddress config_ a * B + Z.of_nat (block_offset config_ a) + Z.of_nat k)
    with (ToLineAddress config_ a * B + Z.of_nat (block_offset config_ a + k)) by lia.
  by apply line_split.
Qed.
(** Bytes of one line. *)
Lemma in_line a b : ToLineAddress config_ a = ToLineAddress config_ b ->
  a - b = Z.of_nat (block_offset config_ a) - Z.of_nat (block_offset config_ b).
Proof. intros Heq. pose proof (address_split a). pose proof (address_split b). rewrite Heq in *. lia. Qed.

Lemma loc_of_index (t : TagArray E) i : tag_ok config_ t -> (i < EntryCount t)%nat ->
  block_index config_ (loc_of config_ i) = i /\
  (forall d, d_num_sets d = num_sets_ t -> in_array config_ d (loc_of config_ i)).
Proof.
  intros Ht Hi. destruct (way_split config_ t i Ht Hi) as (_ & Hs & Hw & Heq). split.
  - unfold block_index, loc_of. simpl. lia.
  - intros d Hd. unfold in_array, loc_of. simpl. rewrite Hd. done.
Qed.

(** ** Transactions inside a line *)

Record gp_ok g : Prop := {
  gp_inside : gp_fits config_ g;
  gp_range : fits 64 (gp_address g);
  gp_enables : gp_byte_enable g = None <-> gp_byte_enable_length g = 0%nat
}.

Lemma mem_write_at m g a : gp_fits config_ g ->
  let k := (block_offset config_ a - block_offset config_ (gp_address g))%nat in
  mem_write m g a =
    if decide (ToLineAddress config_ a = ToLineAddress config_ (gp_address g) /\
               (block_offset config_ (gp_address g) <= block_offset config_ a
                < block_offset config_ (gp_address g) + gp_data_length g)%nat)
    then (if byte_enabled g k then nth k (default [] (gp_data g)) 0 else m a) else m a.
Proof.
  intros [Hf _] k. unfold mem_write. case_decide as Hc.
  - destruct Hc as [Hl Hr]. pose proof (in_line _ _ Hl) as Heq.
    assert (Hk : Z.to_nat (a - gp_address g) = k) by (unfold k; lia). rewrite Hk.
    rewrite (proj2 (Z.leb_le _ _)), (proj2 (Nat.ltb_lt _ _)) by (unfold k; lia). done.
  - destruct (_ && _ && _)%bool eqn:Eb; [|done]. bprop. exfalso. apply Hc.
    pose proof (line_near (gp_address g) (Z.to_nat (a - gp_address g))) as Hn.
    replace (gp_address g + Z.of_nat (Z.to_nat (a - gp_address g))) with a in Hn by lia.
    destruct Hn as [-> ->]; [lia|]. split; [done|lia].
Qed.

(** The line-sized copy that the cache makes of a write has the same effect: its
    enables are those of the write, shifted to its place in the line. *)
Definition line_enables g : list Z :=
  for_range (fun i be =>
    <[(block_offset config_ (gp_address g) + i)%nat :=
        if byte_enabled g i then TLM_BYTE_ENABLED else TLM_BYTE_DISABLED]> be)
    0 (gp_data_length g) (replicate bs TLM_BYTE_DISABLED).
Lemma line_enables_at g k : gp_fits config_ g -> (k < bs)%nat ->
  let off := block_offset config_ (gp_address g) in
  (nth k (line_enables g) 0 =? TLM_BYTE_ENABLED) =
    bool_decide (off <= k < off + gp_data_length g)%nat && byte_enabled g (k - off).
Proof.
  intros [Hf _] Hk off.
  pose (P := fun (i : nat) (r : list Z) => length r = bs /\ forall j, (j < bs)%nat -> nth j r 0 =
    if decide (off <= j < off + i)%nat then (if byte_enabled g (j - off) then 255 else 0) else 0).
  assert (HP : P (0 + gp_data_length g)%nat (line_enables g)).
  { unfold line_enables. apply for_range_ind.
    - split; [apply length_replicate|]. intros j Hj. rewrite decide_False by lia.
      apply nth_lookup_Some. by apply lookup_replicate_2.
    - intros i r Hi [Hlr Hnr]. split; [by rewrite length_insert|]. intros j Hj. fold off in Hf |- *.
      rewrite nth_insert by lia. destruct (decide (j = off + i)%nat) as [->|Hji].
      + rewrite decide_True by lia. by replace (off + i - off)%nat with i by lia.
      + rewrite Hnr by done. repeat case_decide; try lia; done. }
  destruct HP as [_ ->]; [|done]. simpl. case_decide as Hc.
  - rewrite bool_decide_eq_true_2 by lia. by destruct (byte_enabled g _).
  - rewrite bool_decide_eq_false_2 by lia. done.
Qed.

Definition line_copy g : Gp :=
  let off := block_offset config_ (gp_address g) in
  mkGp TLM_WRITE_COMMAND (gp_address g - Z.of_nat off)
    (Some (memcpy (gp_data_length g) (replicate bs 0) off (default [] (gp_data g)) 0)) bs
    (Some (line_enables g)) bs TLM_INCOMPLETE_RESPONSE None.
Lemma InitLineWriteFrom_line g : gp_ok g -> gp_is_write g = true -> InitLineWriteFrom g bs = Ok (line_copy g).
Proof.
  intros [[Hf (b & Hb & Hl)] Hr He] Hw.
  assert (Hoff : Z.to_nat (gp_address g mod Z.of_nat bs) = block_offset config_ (gp_address g))
    by (unfold block_offset; by rewrite bs_B).
  unfold InitLineWriteFrom. rewrite Hw, Hoff, Hb. simpl.
  rewrite (proj2 (Nat.leb_le (block_offset config_ (gp_address g)) _)), (proj2 (Nat.leb_le (gp_data_length g) _)) by lia.
  simpl. assert (bool_decide (is_Some (gp_byte_enable g)) || (gp_byte_enable_length g =? 0)%nat = true) as ->.
  { destruct (gp_byte_enable g); [done|]. simpl. apply Nat.eqb_eq. by apply He. }
  assert (bool_decide (gp_byte_enable g = None) || negb (gp_byte_enable_length g =? 0)%nat = true) as ->.
  { destruct (gp_byte_enable g) as [e|] eqn:Ee; [|done]. simpl. apply negb_true_iff, Nat.eqb_neq. intros H0'.
    apply He in H0'. done. }
  simpl. unfold line_copy. by rewrite Hb.
Qed.
Lemma line_copy_place g :
  ToLineAddress config_ (gp_address (line_copy g)) = ToLineAddress config_ (gp_address g) /\
  block_offset config_ (gp_address (line_copy g)) = 0%nat.
Proof.
  assert (Hbs : (0 < bs)%nat) by (pose proof bs_B; lia).
  pose proof (line_split (ToLineAddress config_ (gp_address g)) 0 Hbs) as Hs. pose proof (address_split (gp_address g)).
  unfold line_copy. simpl. by replace (gp_address g - Z.of_nat (block_offset config_ (gp_address g)))
    with (ToLineAddress config_ (gp_address g) * B + Z.of_nat 0) by lia.
Qed.
Lemma line_copy_write m g a : gp_ok g -> mem_write m (line_copy g) a = mem_write m g a.
Proof.
  intros [Hfit Hr He]. pose proof Hfit as [Hf (b & Hb & Hl)]. destruct (line_copy_place g) as [Hl1 Hl2].
  pose proof (offset_lt a) as Ho. assert (Hwfit : gp_fits config_ (line_copy g)).
  { split; [rewrite Hl2; simpl; lia|]. unfold line_copy. simpl. eexists. split; [done|].
    unfold memcpy. by rewrite length_copy_bytes; rewrite length_replicate; [|lia]. }
  rewrite !mem_write_at by done. rewrite Hl1, Hl2. simpl gp_data_length.
  destruct (decide (ToLineAddress config_ a = ToLineAddress config_ (gp_address g))) as [Heq|Hne].
  2: { rewrite !decide_False by tauto. done. }
  rewrite decide_True by (split; [done|lia]). rewrite Nat.sub_0_r.
  unfold byte_enabled at 1. simpl. rewrite (proj2 (Nat.ltb_lt 0 bs)), Nat.mod_small by lia.
  rewrite line_enables_at by done.
  match goal with |- _ = (if decide ?P then _ else _) => destruct (decide P) as [[_ Hc]|Hc] end.
  - rewrite bool_decide_eq_true_2 by done. simpl. destruct (byte_enabled g _); [|done].
    unfold memcpy. rewrite nth_copy_bytes by (rewrite length_replicate; lia). rewrite decide_True by done. by rewrite Hb.
  - rewrite bool_decide_eq_false_2 by tauto. done.
Qed.

(** ** A line changes, a line moves in or out *)

Lemma view_hit s l i e a : line_at (st_tags s) l = Some (i, e) -> ToLineAddress config_ a = l ->
  view s a = block_byte config_ (st_data s) i (block_offset config_ a).
Proof. intros Hl <-. unfold view. by rewrite Hl. Qed.
Lemma view_miss s a : line_at (st_tags s) (ToLineAddress config_ a) = None -> view s a = st_mem s a.
Proof. intros Hl. unfold view. by rewrite Hl. Qed.

(** Two lines never share a block. *)
Lemma line_block_inj (t : TagArray E) l l' i e e' : tag_ok config_ t ->
  line_at t l = Some (i, e) -> line_at t l' = Some (i, e') -> l = l'.
Proof.
  intros Ht H1 H2. apply (line_at_Some config_) in H1 as (-> & _ & <-); [|done].
  apply (line_at_Some config_) in H2 as (-> & _ & <-); done.
Qed.

Lemma write_hit_ok s g i e e' t' (m' : Z -> Z) d' :
  store_ok s -> gp_ok g -> line_at (st_tags s) (ToLineAddress config_ (gp_address g)) = Some (i, e) ->
  line_becomes config_ (st_tags s) (ToLineAddress config_ (gp_address g)) i e' t' ->
  d' = mkData (d_num_sets (st_data s))
         (Store (data_array_ (st_data s)) (GetBlockData config_ (loc_of config_ i) + block_offset config_ (gp_address g)) g) ->
  (dirty e' = false -> dirty e = false /\ forall a, m' a = mem_write (st_mem s) g a) ->
  (forall a, ToLineAddress config_ a <> ToLineAddress config_ (gp_address g) -> m' a = st_mem s a) ->
  store_ok (mkStore t' d' m') /\ forall a, view (mkStore t' d' m') a = mem_write (view s) g a.
Proof.
  intros [Ht Hd Hs Hc] [Hfit _ _] Hl (Ht' & Hn' & Htag & Hl') -> Hm Hother.
  destruct (line_at_place _ _ _ _ _ Ht Hl) as [Hi _].
  destruct (loc_of_index _ i Ht Hi) as [Hidx Hin]. specialize (Hin _ Hs).
  destruct (Store_block config_ _ _ g Hd Hin Hfit) as [Hd' Hb]. rewrite Hidx in Hb. split.
  - split; simpl; [done|done|congruence|]. intros l j ej k. rewrite Hl'. destruct (l =? _) eqn:El; bprop.
    + intros [= <- <-] Hcl Hk. destruct (Hm Hcl) as [Hcl0 Hmw]. rewrite Hmw, Hb by done. subst l.
      destruct (line_split (ToLineAddress config_ (gp_address g)) k Hk) as [Hk1 Hk2].
      rewrite mem_write_at by done. rewrite Hk1, Hk2. rewrite (Hc _ _ _ _ Hl Hcl0 Hk).
      repeat case_decide; try done; try tauto.
    + intros Hlj Hcl Hk. assert (j <> i).
      { intros ->. exact (El (line_block_inj _ _ _ _ _ _ Ht Hlj Hl)). }
      rewrite Hb, decide_False by (done || tauto). rewrite Hother by by rewrite (proj1 (line_split l k Hk)).
      by apply (Hc _ _ _ _ Hlj).
  - intros a. rewrite mem_write_at by done. pose proof (offset_lt a) as Ho.
    destruct (decide (ToLineAddress config_ a = ToLineAddress config_ (gp_address g))) as [Heq|Hne].
    + unfold view. simpl. rewrite Hl', Heq, Z.eqb_refl, Hl, Hb by done. repeat case_decide; try done; tauto.
    + rewrite decide_False by tauto. unfold view. simpl. rewrite Hl'. rewrite (proj2 (Z.eqb_neq _ _)) by done.
      destruct (line_at (st_tags s) (ToLineAddress config_ a)) as [[j ej]|] eqn:Ej; [|by apply Hother].
      assert (j <> i). { intros ->. exact (Hne (line_block_inj _ _ _ _ _ _ Ht Ej Hl)). }
      rewrite Hb, decide_False by (done || tauto). done.
Qed.

(** A present line changes its state, with its block and the other lines of memory
    untouched. *)
Lemma state_change_ok s l i e e' t' (m' : Z -> Z) :
  store_ok s -> line_at (st_tags s) l = Some (i, e) -> line_becomes config_ (st_tags s) l i e' t' ->
  (dirty e' = false -> forall k, (k < bs)%nat ->
     block_byte config_ (st_data s) i k = m' (l * B + Z.of_nat k)) ->
  (forall a, ToLineAddress config_ a <> l -> m' a = st_mem s a) ->
  store_ok (mkStore t' (st_data s) m') /\ forall a, view (mkStore t' (st_data s) m') a = view s a.
Proof.
  intros [Ht Hd Hs Hc] Hl (Ht' & Hn' & Htag & Hl') Hm Hother. split.
  - split; simpl; [done|done|congruence|]. intros l1 j ej k. rewrite Hl'. destruct (l1 =? l) eqn:El; bprop.
    + intros [= <- <-] Hcl Hk. subst l1. by apply Hm.
    + intros Hlj Hcl Hk. rewrite Hother by by rewrite (proj1 (line_split l1 k Hk)). by apply (Hc _ _ _ _ Hlj).
  - intros a. unfold view. simpl. rewrite Hl'. destruct (_ =? l) eqn:El; bprop.
    + by rewrite El, Hl.
    + destruct (line_at (st_tags s) (ToLineAddress config_ a)) as [[j ej]|]; [done|by apply Hother].
Qed.
Lemma touch_ok s l i e e' t' :
  store_ok s -> line_at (st_tags s) l = Some (i, e) -> line_becomes config_ (st_tags s) l i e' t' ->
  (dirty e' = false -> dirty e = false) ->
  store_ok (mkStore t' (st_data s) (st_mem s)) /\
  forall a, view (mkStore t' (st_data s) (st_mem s)) a = view s a.
Proof.
  intros Hok Hl Hb Hdd. apply (state_change_ok s l i e e'); [done..| |done].
  intros Hd' k Hk. by apply (store_clean s Hok l i e k); [|apply Hdd|].
Qed.

Lemma drop_line_ok s l t' :
  store_ok s -> line_gone config_ (st_tags s) l t' ->
  store_ok (mkStore t' (st_data s) (st_mem s)) /\
  forall a, view (mkStore t' (st_data s) (st_mem s)) a =
    if decide (ToLineAddress config_ a = l) then st_mem s a else view s a.
Proof.
  intros [Ht Hd Hs Hc] (Ht' & Hn' & Hl'). split.
  - split; simpl; [done|done|congruence|]. intros l1 j ej k. rewrite Hl'. destruct (l1 =? l); [done|]. apply Hc.
  - intros a. unfold view. simpl. rewrite Hl'. destruct (_ =? l) eqn:El; bprop.
    + by rewrite decide_True.
    + by rewrite decide_False.
Qed.

(** A whole line moves into a free block; the memory keeps its bytes, and gets those of
    the block if they belonged to a dirty line. *)
Lemma install_line_ok s l i e t' d' (m' : Z -> Z) :
  store_ok s -> (i < EntryCount (st_tags s))%nat ->
  tag_ok config_ t' -> num_sets_ t' = num_sets_ (st_tags s) -> data_ok config_ d' ->
  d_num_sets d' = d_num_sets (st_data s) -> line_at (st_tags s) l = None ->
  (forall l', line_at t' l' = if l' =? l then Some (i, e)
     else if holds l' (entry_at (st_tags s) i) then None else line_at (st_tags s) l') ->
  (forall j k, (k < bs)%nat -> block_byte config_ d' j k =
     if decide (j = i) then st_mem s (l * B + Z.of_nat k) else block_byte config_ (st_data s) j k) ->
  (forall a, m' a = if holds (ToLineAddress config_ a) (entry_at (st_tags s) i) then view s a else st_mem s a) ->
  store_ok (mkStore t' d' m') /\ forall a, view (mkStore t' d' m') a = view s a.
Proof.
  intros Hok Hi Ht' Hn' Hd' Hnd Hnone Hl' Hb Hm. pose proof Hok as [Ht Hd Hs Hc].
  assert (Hold : forall l' j e0, line_at (st_tags s) l' = Some (j, e0) -> holds l' (entry_at (st_tags s) i) = false -> j <> i).
  { intros l' j e0 Hlj Hh ->. apply (line_at_Some config_) in Hlj as (-> & Hv & Htg); [|done].
    assert (holds l' (entry_at (st_tags s) i) = true) by by apply holds_true. congruence. }
  assert (Hnh : holds l (entry_at (st_tags s) i) = false) by by apply line_at_None.
  split.
  - split; simpl; [done|done|congruence|]. intros l1 j ej k. rewrite Hl'. destruct (l1 =? l) eqn:El; bprop.
    + intros [= <- <-] _ Hk. subst l1. rewrite Hb, decide_True by done. rewrite Hm.
      rewrite (proj1 (line_split l k Hk)). by rewrite Hnh.
    + destruct (holds l1 _) eqn:Eh; [done|]. intros Hlj Hcl Hk.
      rewrite Hb, decide_False by (done || by eapply Hold). rewrite Hm.
      rewrite (proj1 (line_split l1 k Hk)), Eh. by apply (Hc _ _ _ _ Hlj).
  - intros a. pose proof (offset_lt a) as Ho. unfold view at 1. simpl. rewrite Hl'.
    destruct (_ =? l) eqn:El; bprop.
    + rewrite Hb, decide_True by done. rewrite view_miss by by rewrite El. f_equal.
      pose proof (address_split a). rewrite El in *. lia.
    + destruct (holds (ToLineAddress config_ a) (entry_at (st_tags s) i)) eqn:Eh; [by rewrite Hm, Eh|].
      destruct (line_at (st_tags s) (ToLineAddress config_ a)) as [[j ej]|] eqn:Ej.
      * rewrite Hb, decide_False by (done || by eapply Hold). by rewrite (view_hit s _ j ej a Ej).
      * rewrite Hm, Eh. by rewrite view_miss.
Qed.

(** ** The operations *)

(** The data stage on a hit: the transaction fits its block, so the access succeeds. *)
Lemma data_hit p g vb s i : gp_ok g -> store_ok s -> (i < EntryCount (st_tags s))%nat ->
  type_ p = kCoreReq \/ type_ p = kReplay -> is_hit p = true -> is_victim_dirty p = false ->
  location p = loc_of config_ i ->
  Data_Process config_ error_throws p g vb (st_data s) =
    let at_ := (GetBlockData config_ (loc_of config_ i) + block_offset config_ (gp_address g))%nat in
    if gp_is_write g
    then Ok (mkResult true false, g, vb, mkData (d_num_sets (st_data s)) (Store (data_array_ (st_data s)) at_ g))
    else Ok (mkResult true false, Load (data_array_ (st_data s)) at_ g, vb, st_data s).
Proof.
  intros Hg [Ht Hd Hs _] Hi Hty Hh Hv Hloc. destruct (loc_of_index _ i Ht Hi) as [_ Hin]. specialize (Hin _ Hs).
  unfold Data_Process. rewrite bool_decide_eq_true_2 by tauto. rewrite Hh. simpl.
  destruct (gp_is_write g).
  - unfold Write. rewrite validate_fits by (apply Hg || by rewrite Hloc). simpl. by rewrite Hv, Hloc.
  - unfold Read. rewrite validate_fits by (apply Hg || by rewrite Hloc). simpl. by rewrite Hloc.
Qed.

(** What a core sees of an access that completes. *)
Definition access_effect g s g' s' : Prop :=
  if gp_is_write g then g' = g /\ forall a, view s' a = mem_write (view s) g a
  else (exists bytes, g' = set_data (Some bytes) g /\ forall k, nth k bytes 0 = read_from (view s) g k) /\
       forall a, view s' a = view s a.

Lemma read_hit_bytes s g i e : gp_ok g -> store_ok s ->
  line_at (st_tags s) (ToLineAddress config_ (gp_address g)) = Some (i, e) ->
  exists bytes, Load (data_array_ (st_data s))
      (GetBlockData config_ (loc_of config_ i) + block_offset config_ (gp_address g)) g = set_data (Some bytes) g /\
    forall k, nth k bytes 0 = read_from (view s) g k.
Proof.
  intros [Hfit _ _] [Ht Hd Hs _] Hl. destruct (line_at_place _ _ _ _ _ Ht Hl) as [Hi _].
  destruct (loc_of_index _ i Ht Hi) as [Hidx _].
  destruct (Load_block config_ (st_data s) (loc_of config_ i) g Hfit) as (b' & Hb' & _ & Hn). rewrite Hidx in Hn.
  exists b'. split.
  - rewrite <- Hb'. by destruct g.
  - intros k. rewrite Hn. unfold read_from. destruct (decide (k < gp_data_length g)%nat) as [Hk|Hk].
    + rewrite (proj2 (Nat.ltb_lt _ _) Hk). simpl. destruct (byte_enabled g k); [|done].
      destruct (line_near (gp_address g) k) as [Hl1 Hl2]; [destruct Hfit; lia|].
      rewrite (view_hit s _ i e _ Hl Hl1). by rewrite Hl2.
    + by rewrite (proj2 (Nat.ltb_ge _ _)) by lia.
Qed.

Lemma access_hit_ok now p g s i e :
  store_ok s -> gp_ok g -> type_ p = kCoreReq \/ type_ p = kReplay -> is_victim_dirty p = false ->
  (is_last_replay p = true -> type_ p = kReplay /\ pending_replay e = true) ->
  line_at (st_tags s) (ToLineAddress config_ (gp_address g)) = Some (i, e) ->
  bool_decide (type_ p = kCoreReq) && pending_replay e = false ->
  exists g' s', access now p g s = Ok (StHit, g', s') /\ store_ok s' /\ access_effect g s g' s'.
Proof.
  intros Hok Hg Hty Hv Hlast Hl Hnp. pose proof Hok as [Ht Hd Hs Hc].
  destruct (line_at_place _ _ _ _ _ Ht Hl) as [Hi _].
  assert (Hproc : forall w, Process config_ now p (gp_address g) w (st_tags s) = Probe config_ now p (gp_address g) w (st_tags s))
    by (intros w; unfold Process; destruct Hty as [-> | ->]; done).
  destruct (Probe_total config_ now p (gp_address g) (gp_is_write g) (st_tags s)) as (st & p' & t' & Hp); [done|congruence| |].
  { intros Hla. destruct (Hlast Hla). split; [done|]. rewrite Hl. by intros ? ? [= <- <-]. }
  pose proof (Probe_spec config_ _ _ _ _ _ _ _ _ Ht Hp) as Hsp. rewrite Hl, Hnp in Hsp.
  destruct Hsp as (-> & -> & _ & e' & Hb & Hde & _ & _).
  unfold access. rewrite Hproc, Hp. simpl.
  rewrite (data_hit _ g None s i) by done. unfold access_effect. simpl.
  destruct (gp_is_write g) eqn:Ew; simpl.
  - assert (Hm : exists m', (if bool_decide (write_hit_policy config_ = kWriteThrough)
        then w ← InitLineWriteFrom g bs; Ok (mem_write (st_mem s) w) else Ok (st_mem s)) = Ok m' /\
      (dirty e' = false -> dirty e = false /\ forall a, m' a = mem_write (st_mem s) g a) /\
      (forall a, ToLineAddress config_ a <> ToLineAddress config_ (gp_address g) -> m' a = st_mem s a)).
    { rewrite Hde. destruct (write_hit_policy config_) eqn:Ep; simpl.
      - eexists. split; [done|]. split; [|done]. by rewrite orb_true_r.
      - rewrite InitLineWriteFrom_line by done. eexists. split; [done|]. split.
        + rewrite orb_false_r. intros ->. split; [done|]. intros a. by apply line_copy_write.
        + intros a Ha. rewrite line_copy_write, mem_write_at by apply Hg || done. by rewrite decide_False by tauto. }
    destruct Hm as (m' & -> & Hm1 & Hm2). simpl. eexists _, _. split; [done|].
    destruct (write_hit_ok s g i e e' t' m' _ Hok Hg Hl Hb eq_refl Hm1 Hm2) as [Hok' Hview]. done.
  - destruct (read_hit_bytes s g i e Hg Hok Hl) as (bytes & -> & Hbytes). eexists _, _. split; [done|].
    destruct (touch_ok s _ i e e' t' Hok Hl Hb) as [Hok' Hview]; [by rewrite Hde, orb_false_r|].
    split_and!; [done|by exists bytes|done].
Qed.

(** A core request that finds no line leaves the storage alone, and a write may go around
    the cache; one that finds a line with replays to come waits. *)
Lemma access_miss_ok now p g s :
  store_ok s -> gp_ok g -> type_ p = kCoreReq -> is_last_replay p = false ->
  line_at (st_tags s) (ToLineAddress config_ (gp_address g)) = None ->
  exists s', access now p g s = Ok (StMiss, g, s') /\ store_ok s' /\ forall a, view s' a =
    if gp_is_write g && bool_decide (write_miss_policy config_ = kWriteNoAllocate)
    then mem_write (view s) g a else view s a.
Proof.
  intros Hok Hg Hty Hla Hl. pose proof Hok as [Ht Hd Hs Hc]. unfold access, Process. rewrite Hty.
  destruct (Probe_total config_ now p (gp_address g) (gp_is_write g) (st_tags s)) as (st & p' & t' & Hp);
    [done|congruence|congruence|].
  pose proof (Probe_spec config_ _ _ _ _ _ _ _ _ Ht Hp) as Hsp. rewrite Hl in Hsp.
  destruct Hsp as (_ & -> & -> & ->). rewrite Hp. simpl.
  destruct (gp_is_write g && _) eqn:Ew; simpl.
  - bprop. rewrite InitLineWriteFrom_line by done. simpl. eexists. split; [done|]. split.
    + split; simpl; [done..|]. intros l i e k Hli Hcl Hk. rewrite line_copy_write, mem_write_at by apply Hg || done.
      rewrite (proj1 (line_split l k Hk)), decide_False; [by apply (Hc _ _ _ _ Hli)|]. intros [-> _]. congruence.
    + intros a. unfold view at 1. simpl. rewrite line_copy_write, !mem_write_at by apply Hg || done.
      destruct (line_at (st_tags s) (ToLineAddress config_ a)) as [[i e]|] eqn:Ea.
      * rewrite decide_False by (intros [Heq _]; congruence). by rewrite (view_hit s _ i e a Ea).
      * by rewrite view_miss.
  - eexists. split; [done|]. by destruct s.
Qed.
Lemma access_waits now p g s i e :
  type_ p = kCoreReq -> pending_replay e = true -> store_ok s ->
  line_at (st_tags s) (ToLineAddress config_ (gp_address g)) = Some (i, e) ->
  access now p g s = Ok (StPendingReplay, g, s).
Proof.
  intros Hty Hp [Ht _ _ _] Hl. unfold access, Process, Probe. rewrite Hty.
  destruct (FindTagEntry_line _ _ _ _ _ Ht Hl) as (-> & -> & _ & ->). rewrite Hp. simpl. by destruct s.
Qed.

(** ** Refills *)

(** The transaction that a refill writes: the line as memory has it. *)
Definition refill_gp (m : Z -> Z) a : Gp :=
  mkGp TLM_WRITE_COMMAND a (Some (mem_line m a bs)) bs None 0 TLM_INCOMPLETE_RESPONSE None.
Lemma length_mem_line m a n : length (mem_line m a n) = n.
Proof. unfold mem_line. by rewrite length_map, length_seq. Qed.
Lemma nth_mem_line m a n k : (k < n)%nat -> nth k (mem_line m a n) 0 = m (a + Z.of_nat k).
Proof.
  intros Hk. apply nth_lookup_Some. unfold mem_line. rewrite list_lookup_fmap, lookup_seq_lt by done. done.
Qed.
Lemma refill_gp_fits m a : block_offset config_ a = 0%nat -> gp_fits config_ (refill_gp m a).
Proof.
  intros Ha. unfold gp_fits. simpl. rewrite Ha. split; [lia|]. eexists. split; [done|]. by rewrite length_mem_line.
Qed.

(** The data stage of a refill: the block gets the line, and the victim's bytes leave. *)
Lemma data_refill p m a vb s i : store_ok s -> (i < EntryCount (st_tags s))%nat ->
  block_offset config_ a = 0%nat -> type_ p = kRefill -> is_hit p = true -> location p = loc_of config_ i ->
  (is_victim_dirty p = true -> exists b, vb = Some b /\ length (vb_data b) = bs) ->
  exists vb' d', Data_Process config_ error_throws p (refill_gp m a) vb (st_data s) =
      Ok (mkResult true (is_victim_dirty p), refill_gp m a, vb', d') /\
    data_ok config_ d' /\ d_num_sets d' = d_num_sets (st_data s) /\
    (forall j k, (k < bs)%nat -> block_byte config_ d' j k =
       if decide (j = i) then m (a + Z.of_nat k) else block_byte config_ (st_data s) j k) /\
    (if is_victim_dirty p then exists b, vb' = Some b /\ vb_address b = victim_address p /\
       length (vb_data b) = bs /\ forall k, (k < bs)%nat -> nth k (vb_data b) 0 = block_byte config_ (st_data s) i k
     else vb' = vb).
Proof.
  intros [Ht Hd Hs _] Hi Ha Hty Hh Hloc Hv. destruct (loc_of_index _ i Ht Hi) as [Hidx Hin]. specialize (Hin _ Hs).
  pose proof (block_in config_ _ _ Hd Hin) as Hin'. rewrite Hidx in Hin'.
  assert (Hw : gp_is_write (refill_gp m a) = true) by done.
  unfold Data_Process. rewrite bool_decide_eq_true_2 by tauto. rewrite Hh, Hw. simpl. unfold Write.
  rewrite validate_fits by (by apply refill_gp_fits || by rewrite Hloc). simpl. rewrite Ha, Nat.add_0_r, Hloc.
  assert (Hst : forall j k, (k < bs)%nat -> block_byte config_
      (mkData (d_num_sets (st_data s)) (Store (data_array_ (st_data s)) (GetBlockData config_ (loc_of config_ i)) (refill_gp m a))) j k =
    if decide (j = i) then m (a + Z.of_nat k) else block_byte config_ (st_data s) j k).
  { intros j k Hk. destruct (Store_block config_ _ _ _ Hd Hin (refill_gp_fits m a Ha)) as [_ Hb]. simpl in Hb.
    rewrite Ha, Nat.add_0_r in Hb. rewrite Hb, Hidx by done. destruct (decide (j = i)).
    - rewrite decide_True by (split; [done|lia]). rewrite Nat.sub_0_r. by apply nth_mem_line.
    - by rewrite decide_False by tauto. }
  destruct (Store_block config_ _ _ _ Hd Hin (refill_gp_fits m a Ha)) as [Hd' _]. simpl in Hd'. rewrite Ha, Nat.add_0_r in Hd'.
  destruct (is_victim_dirty p).
  - destruct (Hv eq_refl) as (b & -> & Hlen). unfold ValidateDirtyVictimRefill. rewrite (bool_decide_eq_true_2 (type_ p = kRefill)) by done.
    simpl. rewrite Nat.eqb_refl. simpl. rewrite Hlen, Nat.eqb_refl. simpl. eexists _, _. split; [done|].
    split_and!; [done|done|done|]. eexists. split; [done|]. simpl. unfold memcpy.
    split_and!; [done|rewrite length_copy_bytes; lia|]. intros k Hk. rewrite nth_copy_bytes by lia.
    rewrite decide_True by lia. rewrite Nat.sub_0_r. unfold block_byte.
    change (GetBlockData config_ (loc_of config_ i)) with (block_index config_ (loc_of config_ i) * bs)%nat.
    by rewrite Hidx.
  - simpl. eexists _, _. split; [done|]. split_and!; done.
Qed.

(** The write transaction for a whole line. *)
Lemma InitLineWrite_ok l (bytes : list Z) m : length bytes = bs ->
  exists w, InitLineWrite (l * B) bs = Ok w /\ gp_data w = Some (replicate bs 0) /\
    forall a, mem_write m (set_data (Some bytes) w) a =
      if decide (ToLineAddress config_ a = l) then nth (block_offset config_ a) bytes 0 else m a.
Proof.
  intros Hlen. pose proof bs_B. unfold InitLineWrite. rewrite H1, Z.mod_mul by lia. simpl. eexists. split; [done|].
  split; [done|]. intros a. set (w := set_data _ _). assert (Hbs : (0 < bs)%nat) by lia.
  destruct (line_split l 0 Hbs) as [Hl Ho]. replace (l * B + Z.of_nat 0) with (gp_address w) in Hl, Ho by (simpl; lia).
  pose proof (offset_lt a) as Hoff. rewrite mem_write_at.
  2: { split; [rewrite Ho; simpl; lia|]. simpl. eexists. split; [done|lia]. }
  rewrite Hl, Ho, Nat.sub_0_r. simpl gp_data_length.
  destruct (decide (ToLineAddress config_ a = l)).
  - rewrite decide_True by (split; [done|lia]). unfold byte_enabled. simpl.
    rewrite (proj2 (Nat.ltb_lt _ _)), Nat.mod_small by lia.
    replace (nth _ (replicate bs TLM_BYTE_ENABLED) 0) with TLM_BYTE_ENABLED; [done|].
    symmetry. apply nth_lookup_Some. by apply lookup_replicate_2.
  - by rewrite decide_False by tauto.
Qed.

Lemma refill_ok now p a s :
  store_ok s -> type_ p = kRefill -> fits 64 a -> block_offset config_ a = 0%nat ->
  line_at (st_tags s) (ToLineAddress config_ a) = None ->
  exists st s', refill now p a s = Ok (st, s') /\ store_ok s' /\ (forall b, view s' b = view s b) /\
    ((st = StHit /\ exists i e, line_at (st_tags s') (ToLineAddress config_ a) = Some (i, e)) \/
     (st = StNoVictim /\ forall l, line_at (st_tags s') l = line_at (st_tags s) l)).
Proof.
  intros Hok Hty Ha Ho Hnone. pose proof Hok as [Ht Hd Hs Hc]. unfold refill.
  assert (PrepareRefillWrite (set_data (Some (mem_line (st_mem s) a bs)) (InitRead a bs)) = Ok (refill_gp (st_mem s) a)) as ->.
  { unfold PrepareRefillWrite. simpl. rewrite length_mem_line, Nat.eqb_refl. done. }
  simpl. unfold Process. rewrite Hty.
  destruct (Refill_spec config_ now p a (st_tags s) Ht Hblock Ha Hnone) as (st & p' & t' & -> & Hr). simpl.
  destruct Hr as [(-> & -> & [r ->] & _)|(-> & Ht' & Hn' & w & Hw & Hi & Hl' & Hp')].
  { eexists _, _. split; [done|]. split_and!; [|done|by right]. split; simpl; [|done..]. by destruct Ht; split. }
  set (i := (GetSet config_ (st_tags s) a + w)%nat) in *. set (e := entry_at (st_tags s) i) in *.
  assert (Hpk : type_ p' = kRefill /\ is_hit p' = true /\ location p' = loc_of config_ i /\
    (is_victim_dirty p' = true -> valid e = true /\ victim_address p' = tag e * B) /\
    (valid e = true -> is_victim_dirty p' = dirty e)).
  { destruct Hp' as [[Hv ->]|(Hv & _ & _ & ->)]; simpl; split_and!; congruence || done. }
  clear Hp'. destruct Hpk as (Hty' & Hhit & Hloc & Hvd & Hvd').
  destruct (data_refill p' (st_mem s) a (if is_victim_dirty p' then Some (mkVictim 0 (replicate bs 0)) else None) s i)
    as (vb' & d' & -> & Hd' & Hnd & Hb & Hvb); try done.
  { intros ->. eexists. split; [done|]. apply length_replicate. }
  simpl. assert (Hm : exists m', match vb' with
      | Some b => w0 ← InitLineWrite (vb_address b) bs; Ok (mem_write (st_mem s) (set_data (Some (vb_data b)) w0))
      | None => Ok (st_mem s) end = Ok m' /\
    forall b, m' b = if holds (ToLineAddress config_ b) e then view s b else st_mem s b).
  { assert (Hold : valid e = true -> line_at (st_tags s) (tag e) = Some (i, e)) by (intros; by apply (line_at_index config_)).
    destruct (is_victim_dirty p') eqn:Ed.
    - destruct Hvb as (b & -> & -> & Hlen & Hbytes). destruct (Hvd eq_refl) as [Hv ->].
      destruct (InitLineWrite_ok (tag e) (vb_data b) (st_mem s) Hlen) as (wr & -> & _ & Hwr). simpl.
      eexists. split; [done|]. intros x. rewrite Hwr. unfold holds. rewrite Hv. simpl.
      destruct (tag e =? ToLineAddress config_ x) eqn:Et; bprop.
      + rewrite decide_True by done. rewrite (view_hit s (tag e) i e x) by auto. apply Hbytes. apply offset_lt.
      + by rewrite decide_False by congruence.
    - rewrite Hvb. eexists. split; [done|]. intros x. destruct (holds (ToLineAddress config_ x) e) eqn:Eh; [|done].
      apply holds_true in Eh as [Hv Htg]. rewrite (view_hit s (tag e) i e x) by auto.
      rewrite (Hc (tag e) i e) by (auto || by rewrite <- Hvd' || apply offset_lt). f_equal. rewrite Htg. apply address_split. }
  destruct Hm as (m' & -> & Hm). simpl. eexists _, _. split; [done|].
  assert (Hae : a = ToLineAddress config_ a * B) by (rewrite (address_split a) at 1; rewrite Ho; lia).
  destruct (install_line_ok s (ToLineAddress config_ a) i _ t' d' m' Hok Hi Ht' Hn' Hd' Hnd Hnone Hl') as [Hok' Hview];
    [by rewrite <- Hae|done|].
  split_and!; [done..|]. left. split; [done|]. simpl. rewrite Hl', Z.eqb_refl. eauto.
Qed.

(** ** Maintenance *)

Lemma write_back_ok now a s : store_ok s ->
  (forall i e, line_at (st_tags s) (ToLineAddress config_ a) = Some (i, e) -> locked e = false /\ pending_replay e = false) ->
  exists s', write_back now a s = Ok s' /\ store_ok s' /\ (forall b, view s' b = view s b) /\
    (forall i e, line_at (st_tags s') (ToLineAddress config_ a) = Some (i, e) -> dirty e = false) /\
    (forall b, ToLineAddress config_ b = ToLineAddress config_ a -> st_mem s' b = view s b).
Proof.
  intros Hok Hfree. pose proof Hok as [Ht Hd Hs Hc]. unfold write_back.
  pose proof (ProbeDirtyLine_spec config_ now a (st_tags s) Ht) as Hsp.
  destruct (line_at (st_tags s) (ToLineAddress config_ a)) as [[i e]|] eqn:El.
  2: { rewrite Hsp. simpl. rewrite store_eta. exists s. split_and!; try done; [by rewrite El|].
       intros b Hb. symmetry. apply view_miss. by rewrite Hb. }
  destruct (Hfree _ _ eq_refl) as [Hk Hp]. destruct (dirty e) eqn:Ed.
  - destruct (Hsp Hk Hp eq_refl) as (e' & t' & -> & Hb & Hd0 & _ & _). simpl.
    destruct (line_at_place _ _ _ _ _ Ht El) as [Hi _]. destruct (loc_of_index _ i Ht Hi) as [Hidx Hin].
    destruct (ReadBlock_ok config_ error_throws _ _ (replicate bs 0) Hd (Hin _ Hs)) as (buf & Hread & Hbuf & Hbytes);
      [apply length_replicate|]. rewrite Hidx in Hbytes.
    destruct (InitLineWrite_ok (ToLineAddress config_ a) buf (st_mem s) Hbuf) as (w & -> & Hw & Hmw). simpl.
    rewrite Hw. simpl default. rewrite Hread. simpl.
    eexists. split; [done|].
    destruct (state_change_ok s _ i e e' t' (mem_write (st_mem s) (set_data (Some buf) w)) Hok El Hb) as [Hok' Hview].
    + intros _ k Hk'. rewrite Hmw. destruct (line_split (ToLineAddress config_ a) k Hk') as [H1' H2'].
      rewrite H1', H2', decide_True by done. symmetry. by apply Hbytes.
    + intros x Hx. by rewrite Hmw, decide_False.
    + destruct Hb as (_ & _ & _ & Hl'). split_and!; [done..| |].
      * intros j ej. simpl. rewrite Hl', Z.eqb_refl. by intros [= <- <-].
      * intros x Hx. simpl. rewrite Hmw, decide_True by done. rewrite Hbytes by apply offset_lt. symmetry. by apply (view_hit s _ i e x El).
  - rewrite ProbeDirtyLine_clean by (done || (rewrite El; by intros ? ? [= <- <-])). simpl.
    rewrite store_eta. exists s. split_and!; try done.
    + rewrite El. by intros ? ? [= <- <-].
    + intros b Hb. rewrite (view_hit _ _ i e b El Hb).
      rewrite (Hc _ _ _ _ El Ed (offset_lt b)). f_equal. rewrite <- Hb. apply address_split.
Qed.

Lemma invalidate_ok now a s : store_ok s ->
  (forall i e, line_at (st_tags s) (ToLineAddress config_ a) = Some (i, e) -> locked e = false /\ pending_replay e = false) ->
  exists s', invalidate now a s = Ok s' /\ store_ok s' /\ st_mem s' = st_mem s /\
    line_at (st_tags s') (ToLineAddress config_ a) = None /\
    forall b, view s' b = if decide (ToLineAddress config_ b = ToLineAddress config_ a) then st_mem s b else view s b.
Proof.
  intros Hok Hfree. unfold invalidate.
  destruct (InvalidateLine_spec config_ now a (st_tags s) (store_tags s Hok) Hfree) as (t' & -> & Hg). simpl.
  eexists. split; [done|]. destruct (drop_line_ok s _ t' Hok Hg) as [Hok' Hview]. split_and!; [done..| |done].
  destruct Hg as (_ & _ & Hl'). simpl. by rewrite Hl', Z.eqb_refl.
Qed.
End store.
