(* ===== verification/SimMemory.v ===== *)
(** * The simulated cache is transparent

    Atomic operations (the anonymous functions at the top of simtix/src/cache/cache.cc
    and the data-stage half of the atomic sequencer), and the theorem about the storage:
    every sequence of accesses, refills, atomic operations and maintenance acts on the
    view of SimStore.v as on a flat memory. Only an invalidation of a dirty line shows
    through: it gives the line back to memory. *)

From S2P Require Import Prelude SimFifo SimPacket SimTag SimData SimStore.

(** ** Atomic operations *)

Definition LoadU (n : nat) (bytes : list Z) : Z := le_val (take n bytes).
Definition StoreU (n : nat) (value : Z) (bytes : list Z) : list Z := le_bytes n value ++ drop n bytes.
Definition ApplyAtomicOp (w : Z) (o : AtomicOp) (old_value operand compare : Z) : Z :=
  match o with
  | kSwap => operand
  | kAdd => wrap w (old_value + operand)
  | kXor => Z.lxor old_value operand
  | kAnd => Z.land old_value operand
  | kOr => Z.lor old_value operand
  | kMin => wrap w (Z.min (swrap w old_value) (swrap w operand))
  | kMax => wrap w (Z.max (swrap w old_value) (swrap w operand))
  | kMinU => Z.min old_value operand
  | kMaxU => Z.max old_value operand
  | kCompareSwap => if old_value =? wrap w compare then operand else old_value
  end.
Definition ApplyAtomicOp32 := ApplyAtomicOp 32.
Definition ApplyAtomicOp64 := ApplyAtomicOp 64.
(** The eight bytes of [new_value] after the operation on a word of [size] bytes. *)
Definition atomic_new (ext : AtomicExtension) (size : nat) (old operand new : list Z) : res (list Z) :=
  if (size =? 4)%nat
  then Ok (StoreU 4 (ApplyAtomicOp32 (op ext) (LoadU 4 old) (LoadU 4 operand) (compare_value ext)) new)
  else
    massert (size =? 8)%nat;;
    Ok (StoreU 8 (ApplyAtomicOp64 (op ext) (LoadU 8 old) (LoadU 8 operand) (compare_value ext)) new).

Lemma bytes_bound w x y f : 0 <= w -> fits w x -> fits w y ->
  (forall i, w <= i -> f (Z.testbit x i) (Z.testbit y i) = false) -> forall z, 0 <= z ->
  (forall i, 0 <= i -> Z.testbit z i = f (Z.testbit x i) (Z.testbit y i)) -> fits w z.
Proof.
  intros Hw Hx Hy Hf z Hz Ht. split; [done|]. destruct (decide (z = 0)) as [->|]; [apply Z.pow_pos_nonneg; lia|].
  apply Z.log2_lt_pow2; [lia|]. destruct (decide (Z.log2 z < w)); [done|exfalso].
  pose proof (Z.bit_log2 z) as Hb. rewrite Ht, Hf in Hb by lia. assert (false = true) by (apply Hb; lia). done.
Qed.
(** The result is a word of the operation's width. *)
Lemma ApplyAtomicOp_fits w o x y c : 0 <= w -> fits w x -> fits w y -> fits w (ApplyAtomicOp w o x y c).
Proof.
  intros Hw Hx Hy. assert (Hhi : forall i, w <= i -> Z.testbit x i = false /\ Z.testbit y i = false)
    by (intros; split; by apply (testbit_high _ w)).
  destruct o; simpl; try (by apply wrap_fits); try done.
  - apply (bytes_bound w x y xorb); try done; [intros i Hi; by destruct (Hhi i Hi) as [-> ->]| |intros; apply Z.lxor_spec].
    apply Z.lxor_nonneg. split; intros; [apply Hy|apply Hx].
  - apply (bytes_bound w x y andb); try done; [intros i Hi; by destruct (Hhi i Hi) as [-> ->]| |intros; apply Z.land_spec].
    apply Z.land_nonneg. left. apply Hx.
  - apply (bytes_bound w x y orb); try done; [intros i Hi; by destruct (Hhi i Hi) as [-> ->]| |intros; apply Z.lor_spec].
    apply Z.lor_nonneg. split; [apply Hx|apply Hy].
  - unfold fits in *. lia.
  - unfold fits in *. lia.
  - by destruct (x =? _).
Qed.

(** ** The data stage of an atomic operation *)

Section memory.
Context {E : Type} `{RandomLaws E} (config_ : Param) (error_throws : bool).
Notation bs := (bs config_).
Notation B := (block_size_bytes config_).
Notation view := (view config_).
Implicit Types (s : Storage E) (p : Packet) (g : Gp) (a now : Z).

(** [kReadOld], then [kWriteNewRespond]: the old value goes to the core, the new one to
    the line, which becomes dirty and is unlocked. *)
Definition atomic_read p g s : res (list Z * list Z) :=
  '(read_ok, g, old) ← ReadBytes config_ error_throws p g (replicate 8 0) (gp_data_length g) (st_data s);
  massert (read_ok : bool);;
  match gp_atomic g with
  | Some ext => new ← atomic_new ext (gp_data_length g) old (default [] (gp_data g)) (replicate 8 0); Ok (old, new)
  | None => Err Assertion
  end.
Definition atomic_write p g (old new : list Z) s : res (Gp * Storage E) :=
  '(write_ok, g, d) ← WriteBytes config_ error_throws p g new (gp_data_length g) (st_data s);
  massert (write_ok : bool);;
  t ← MarkDirty config_ (location p) (st_tags s);
  let g := set_data (Some (memcpy (gp_data_length g) (default [] (gp_data g)) 0 old 0)) g in
  t ← UnlockEntry config_ (location p) t;
  Ok (g, mkStore t d (st_mem s)).
(** The tag stage before them finds the line and locks it. *)
Definition atomic_lock now p g s : res (Packet * Storage E) :=
  '(st, p, t) ← Process config_ now p (gp_address g) (gp_is_write g) (st_tags s);
  massert (bool_decide (st = StHit));;
  t ← LockEntry config_ (location p) t;
  Ok (p, mkStore t (st_data s) (st_mem s)).
Definition atomic now p g s : res (Gp * Storage E) :=
  '(p, s) ← atomic_lock now p g s;
  '(old, new) ← atomic_read p g s;
  atomic_write p g old new s.

Context (Hblock : 0 < B).

(** An atomic word: four or eight bytes in one line, an operand, an operation. *)
Record atomic_ok g (ext : AtomicExtension) : Prop := {
  atomic_gp : gp_ok config_ g;
  atomic_cmd : gp_is_write g = false;
  atomic_size : gp_data_length g = 4%nat \/ gp_data_length g = 8%nat;
  atomic_enables : gp_byte_enable g = None;
  atomic_ext : gp_atomic g = Some ext
}.
(** The word in memory before and after. *)
Definition word_at (m : Z -> Z) a (n : nat) : Z := le_val (mem_line m a n).
Definition atomic_value g ext (m : Z -> Z) : Z :=
  ApplyAtomicOp (8 * Z.of_nat (gp_data_length g)) (op ext) (word_at m (gp_address g) (gp_data_length g))
    (le_val (take (gp_data_length g) (default [] (gp_data g)))) (compare_value ext).
Definition atomic_memory g ext (m : Z -> Z) : Z -> Z :=
  mem_write m (set_data (Some (le_bytes (gp_data_length g) (atomic_value g ext m))) g).

Lemma atomic_new_ok g ext old new : atomic_ok g ext -> length old = 8%nat -> length new = 8%nat ->
  exists new', atomic_new ext (gp_data_length g) old (default [] (gp_data g)) new = Ok new' /\ length new' = 8%nat /\
    forall k, (k < gp_data_length g)%nat -> nth k new' 0 =
      nth k (le_bytes (gp_data_length g) (ApplyAtomicOp (8 * Z.of_nat (gp_data_length g)) (op ext)
        (le_val (take (gp_data_length g) old)) (le_val (take (gp_data_length g) (default [] (gp_data g))))
        (compare_value ext))) 0.
Proof.
  intros [_ _ Hsz _ _] Ho Hn. unfold atomic_new.
  destruct Hsz as [-> | ->]; simpl Nat.eqb; cbv iota; simpl massert; eexists; (split; [done|]); unfold StoreU;
    (split; [rewrite length_app, length_le_bytes, length_drop; lia|]); intros k Hk;
    rewrite app_nth1 by (rewrite length_le_bytes; lia); done.
Qed.

(** The two accesses of the sequencer to the data array. *)
Lemma atomic_bytes p g ext s i : atomic_ok g ext -> store_ok config_ s -> (i < EntryCount (st_tags s))%nat ->
  is_hit p = true -> location p = loc_of config_ i ->
  let at_ := (GetBlockData config_ (loc_of config_ i) + block_offset config_ (gp_address g))%nat in
  (forall dst, ReadBytes config_ error_throws p g dst (gp_data_length g) (st_data s) =
     Ok (true, g, memcpy (gp_data_length g) dst 0 (data_array_ (st_data s)) at_)) /\
  (forall src, WriteBytes config_ error_throws p g src (gp_data_length g) (st_data s) =
     Ok (true, g, mkData (d_num_sets (st_data s)) (Store (data_array_ (st_data s)) at_ (set_data (Some src) g)))).
Proof.
  intros [[[Hf _] _ _] _ _ Hbe _] [Ht Hd Hs _] Hi Hh Hloc at_.
  destruct (loc_of_index config_ _ i Ht Hi) as [_ Hin]. destruct (Hin _ Hs) as [Hin1 Hin2].
  assert (Hval : and_then (if negb (fits_in_block config_ (block_offset config_ (gp_address g)) (gp_data_length g))
      then ReportInvalidAccess error_throws g else Ok (true, g))
    (ValidateLocation config_ error_throws (st_data s) (location p)) = Ok (true, g)).
  { unfold fits_in_block. rewrite (proj2 (Nat.leb_le (gp_data_length g) _)), (proj2 (Nat.leb_le (block_offset _ _) _)) by lia.
    simpl. unfold ValidateLocation. rewrite Hloc, (proj2 (Nat.leb_gt _ _) Hin1), (proj2 (Nat.leb_gt _ _) Hin2). done. }
  split; intros x.
  - unfold ReadBytes. rewrite Hh. simpl. by rewrite Hval, Hloc.
  - unfold WriteBytes. rewrite Hh. simpl. rewrite Hval, Hloc. simpl. unfold memcpy, Store.
    erewrite copy_bytes_ext; [done|]. intros k. unfold byte_enabled. simpl. by rewrite Hbe.
Qed.

Lemma atomic_old s p g ext i e dst : atomic_ok g ext -> store_ok config_ s -> length dst = 8%nat ->
  line_at (st_tags s) (ToLineAddress config_ (gp_address g)) = Some (i, e) ->
  let old := memcpy (gp_data_length g) dst 0 (data_array_ (st_data s))
               (GetBlockData config_ (loc_of config_ i) + block_offset config_ (gp_address g)) in
  length old = 8%nat /\ take (gp_data_length g) old = mem_line (view s) (gp_address g) (gp_data_length g).
Proof.
  intros [[[Hf _] _ _] _ Hsz _ _] [Ht Hd Hs _] Hdst Hl old.
  destruct (line_at_place _ _ _ _ _ Ht Hl) as [Hi _]. destruct (loc_of_index config_ _ i Ht Hi) as [Hidx _].
  assert (Hlen : length old = 8%nat) by (unfold old, memcpy; rewrite length_copy_bytes; lia). split; [done|].
  apply (list_eq_same_length _ _ (gp_data_length g)); [|by rewrite length_take, Hlen; lia|].
  { by rewrite length_mem_line. }
  intros k x y Hk Hx Hy. rewrite lookup_take in Hx. case_decide; [|done].
  apply (nth_lookup_Some _ _ 0) in Hx as <-. apply (nth_lookup_Some _ _ 0) in Hy as <-.
  rewrite nth_mem_line by done. unfold old, memcpy. rewrite nth_copy_bytes by lia. rewrite decide_True by lia.
  destruct (line_near config_ Hblock (gp_address g) k) as [Hl1 Hl2]; [lia|].
  rewrite (view_hit config_ s _ i e _ Hl Hl1), Hl2, Nat.sub_0_r. unfold block_byte.
  change (GetBlockData config_ (loc_of config_ i)) with (block_index config_ (loc_of config_ i) * bs)%nat.
  rewrite Hidx. f_equal. lia.
Qed.

Lemma atomic_lock_ok now p g s i e :
  store_ok config_ s -> gp_is_write g = false -> type_ p = kCoreReq \/ type_ p = kReplay ->
  (is_last_replay p = true -> type_ p = kReplay /\ pending_replay e = true) ->
  line_at (st_tags s) (ToLineAddress config_ (gp_address g)) = Some (i, e) -> locked e = false ->
  bool_decide (type_ p = kCoreReq) && pending_replay e = false ->
  exists e' t', atomic_lock now p g s =
      Ok (set_location (loc_of config_ i) (set_is_hit true p), mkStore t' (st_data s) (st_mem s)) /\
    line_becomes config_ (st_tags s) (ToLineAddress config_ (gp_address g)) i e' t' /\
    dirty e' = dirty e /\ locked e' = true.
Proof.
  intros Hok Hw Hty Hlast Hl Hk Hnp. pose proof (store_tags config_ s Hok) as Ht. unfold atomic_lock.
  assert (Process config_ now p (gp_address g) (gp_is_write g) (st_tags s) =
          Probe config_ now p (gp_address g) (gp_is_write g) (st_tags s)) as ->
    by (unfold Process; destruct Hty as [-> | ->]; done).
  destruct (Probe_total config_ now p (gp_address g) (gp_is_write g) (st_tags s)) as (st & p' & t' & Hp); [done|congruence| |].
  { intros Hla. destruct (Hlast Hla). split; [done|]. rewrite Hl. by intros ? ? [= <- <-]. }
  pose proof (Probe_spec config_ _ _ _ _ _ _ _ _ Ht Hp) as Hsp. rewrite Hl, Hnp in Hsp.
  destruct Hsp as (-> & -> & _ & e1 & Hb1 & Hd1 & Hk1 & _). rewrite Hp. simpl.
  destruct (LockEntry_spec config_ t' _ i e1 (proj1 Hb1) (line_becomes_at config_ _ _ _ _ _ Hb1)) as (t2 & -> & Hb2); [congruence|].
  simpl. eexists _, t2. split; [done|]. split; [by eapply line_becomes_trans|]. simpl. split; [|done].
  by rewrite Hd1, Hw, orb_false_r.
Qed.

Lemma atomic_hit_ok now p g ext s i e :
  store_ok config_ s -> atomic_ok g ext -> type_ p = kCoreReq \/ type_ p = kReplay ->
  (is_last_replay p = true -> type_ p = kReplay /\ pending_replay e = true) ->
  line_at (st_tags s) (ToLineAddress config_ (gp_address g)) = Some (i, e) -> locked e = false ->
  bool_decide (type_ p = kCoreReq) && pending_replay e = false ->
  exists bytes s', atomic now p g s = Ok (set_data (Some bytes) g, s') /\ store_ok config_ s' /\
    take (gp_data_length g) bytes = mem_line (view s) (gp_address g) (gp_data_length g) /\
    forall a, view s' a = atomic_memory g ext (view s) a.
Proof.
  intros Hok Hat Hty Hlast Hl Hk Hnp. pose proof Hat as [Hg Hw Hsz Hbe Hext]. unfold atomic.
  destruct (atomic_lock_ok now p g s i e Hok Hw Hty Hlast Hl Hk Hnp) as (e1 & t1 & -> & Hb1 & Hd1 & Hk1). simpl.
  destruct (line_at_place _ _ _ _ _ (store_tags config_ s Hok) Hl) as [Hi _].
  pose proof (line_becomes_at config_ _ _ _ _ _ Hb1) as Hl1.
  destruct (line_at_place _ _ _ _ _ (proj1 Hb1) Hl1) as [Hi1 _].
  destruct (touch_ok config_ Hblock s _ i e e1 t1 Hok Hl Hb1) as [Hok1 Hview1]; [congruence|].
  set (p1 := set_location _ _). set (s1 := mkStore t1 (st_data s) (st_mem s)) in *.
  destruct (atomic_bytes p1 g ext s1 i Hat Hok1 Hi1) as [Hread Hwrite]; [done|done|].
  unfold atomic_read. set (z8 := replicate 8 0). rewrite Hread. simpl. rewrite Hext.
  destruct (atomic_old s p1 g ext i e z8 Hat Hok) as [Hlen Hold]; [done|done|].
  set (old := memcpy _ z8 _ _ _) in *.
  destruct (atomic_new_ok g ext old z8 Hat Hlen eq_refl) as (new & Hnew & Hnlen & Hbytes).
  rewrite Hnew. simpl. unfold atomic_write. rewrite Hwrite. simpl.
  destruct (MarkDirty_spec config_ t1 _ i e1 (proj1 Hb1) Hl1) as (t2 & -> & Hb2). simpl.
  destruct (UnlockEntry_spec config_ t2 _ i _ (proj1 Hb2) (line_becomes_at config_ _ _ _ _ _ Hb2)) as (t3 & -> & Hb3); [done|].
  simpl. eexists _, _. split; [done|].
  assert (Hgw : gp_ok config_ (set_data (Some new) g)).
  { destruct Hg as [[Hf _] Hr He]. split; simpl; [|done|done]. split; simpl; [done|]. eexists. split; [done|lia]. }
  assert (Hb : line_becomes config_ (st_tags s) (ToLineAddress config_ (gp_address g)) i (set_flags true true false e1) t3).
  { pose proof (proj1 (line_at_Some config_ _ _ _ _ (proj1 Hb1)) Hl1) as (_ & Hv1 & _). rewrite Hv1 in Hb2, Hb3.
    eapply line_becomes_trans; [exact Hb1|]. eapply line_becomes_trans; [exact Hb2|]. exact Hb3. }
  destruct (write_hit_ok config_ Hblock s (set_data (Some new) g) i e _ t3 (st_mem s) _ Hok Hgw Hl Hb eq_refl)
    as [Hok' Hview]; [done|done|].
  split_and!; [done| |].
  - destruct Hg as [[Hf (b & Hgb & Hbl)] _ _]. rewrite Hgb. simpl. unfold memcpy.
    apply (list_eq_same_length _ _ (gp_data_length g)); [by rewrite length_mem_line| |].
    { rewrite length_take, length_copy_bytes; lia. }
    intros k x y Hk' Hx Hy. rewrite lookup_take in Hx. case_decide; [|done].
    apply (nth_lookup_Some _ _ 0) in Hx as <-. rewrite nth_copy_bytes by lia. rewrite decide_True by lia. simpl.
    rewrite Nat.sub_0_r. rewrite <- Hold in Hy. rewrite lookup_take in Hy. case_decide; [|done].
    by apply (nth_lookup_Some _ _ 0) in Hy.
  - intros a. rewrite Hview. unfold atomic_memory, mem_write, byte_enabled. simpl. rewrite Hbe.
    bcase; [|done]. rewrite Hbytes by done. unfold atomic_value, word_at. by rewrite Hold.
Qed.

(** ** Sequences of operations *)

Inductive mem_op :=
  | OpAccess (p : Packet) (g : Gp)
  | OpAtomic (p : Packet) (g : Gp) (ext : AtomicExtension)
  | OpRefill (p : Packet) (a : Z)
  | OpWriteBack (a : Z)
  | OpInvalidate (a : Z).
Definition perform now (o : mem_op) s : res (AccessStatus * option Gp * Storage E) :=
  match o with
  | OpAccess p g => '(st, g, s) ← access config_ error_throws now p g s; Ok (st, Some g, s)
  | OpAtomic p g _ => '(g, s) ← atomic now p g s; Ok (StHit, Some g, s)
  | OpRefill p a => '(st, s) ← refill config_ error_throws now p a s; Ok (st, None, s)
  | OpWriteBack a => s ← write_back config_ error_throws now a s; Ok (StHit, None, s)
  | OpInvalidate a => s ← invalidate config_ now a s; Ok (StHit, None, s)
  end.

(** What the pipeline guarantees of an operation. Core requests carry no flags; a replay
    finds its line, the last one while the line still waits for it; a line is refilled
    when it is absent; maintenance and atomics meet no locked line, and maintenance none
    that waits for replays. *)
Definition present s a (P : TagEntry -> Prop) : Prop :=
  exists i e, line_at (st_tags s) (ToLineAddress config_ a) = Some (i, e) /\ P e.
Definition request_ok p g s (P : TagEntry -> Prop) : Prop :=
  is_victim_dirty p = false /\
  ((type_ p = kCoreReq /\ is_last_replay p = false /\
      forall i e, line_at (st_tags s) (ToLineAddress config_ (gp_address g)) = Some (i, e) -> P e) \/
   (type_ p = kReplay /\ present s (gp_address g) (fun e => (is_last_replay p = true -> pending_replay e = true) /\ P e))).
Definition undisturbed s a : Prop :=
  forall i e, line_at (st_tags s) (ToLineAddress config_ a) = Some (i, e) -> locked e = false /\ pending_replay e = false.
Definition op_ok (o : mem_op) s : Prop :=
  match o with
  | OpAccess p g => gp_ok config_ g /\ request_ok p g s (fun _ => True)
  | OpAtomic p g ext => atomic_ok g ext /\
      request_ok p g s (fun e => locked e = false /\ (type_ p = kCoreReq -> pending_replay e = false)) /\
      present s (gp_address g) (fun _ => True)
  | OpRefill p a => type_ p = kRefill /\ fits 64 a /\ block_offset config_ a = 0%nat /\
      line_at (st_tags s) (ToLineAddress config_ a) = None
  | OpWriteBack a | OpInvalidate a => undisturbed s a
  end.

(** The same operations on a flat memory [m]: the memory after an operation that ended
    with [st], and what the core is answered. [backing] is the memory behind the cache. *)
Definition flat_memory (o : mem_op) (st : AccessStatus) (backing m : Z -> Z) : Z -> Z :=
  match o with
  | OpAccess _ g =>
      match st with
      | StHit => if gp_is_write g then mem_write m g else m
      | StMiss => if gp_is_write g && bool_decide (write_miss_policy config_ = kWriteNoAllocate)
                  then mem_write m g else m
      | _ => m
      end
  | OpAtomic _ g ext => atomic_memory g ext m
  | OpInvalidate a => fun b => if decide (ToLineAddress config_ b = ToLineAddress config_ a) then backing b else m b
  | _ => m
  end.
Definition flat_answer (o : mem_op) (st : AccessStatus) (m : Z -> Z) (g' : option Gp) : Prop :=
  match o with
  | OpAccess _ g =>
      if bool_decide (st = StHit) && negb (gp_is_write g)
      then exists bytes, g' = Some (set_data (Some bytes) g) /\ forall k, nth k bytes 0 = read_from m g k
      else g' = Some g
  | OpAtomic _ g _ => exists bytes, g' = Some (set_data (Some bytes) g) /\
      take (gp_data_length g) bytes = mem_line m (gp_address g) (gp_data_length g)
  | _ => g' = None
  end.

(** A cache and the flat memory that its cores see. *)
Inductive cached : Storage E -> (Z -> Z) -> Prop :=
  | cached_start seed t d m : TagArray_init config_ seed = Ok t -> DataArray_init config_ = Ok d ->
      cached (mkStore t d m) m
  | cached_op now o s m st (g' : option Gp) s' : cached s m -> op_ok o s -> perform now o s = Ok (st, g', s') ->
      cached s' (flat_memory o st (st_mem s) m).

Lemma request_cases p g s P : request_ok p g s P ->
  (exists i e, line_at (st_tags s) (ToLineAddress config_ (gp_address g)) = Some (i, e) /\ P e /\
     (type_ p = kCoreReq \/ type_ p = kReplay) /\
     (is_last_replay p = true -> type_ p = kReplay /\ pending_replay e = true)) \/
  (line_at (st_tags s) (ToLineAddress config_ (gp_address g)) = None /\ type_ p = kCoreReq /\ is_last_replay p = false).
Proof.
  intros (_ & [(Hty & Hla & HP)|(Hty & i & e & Hl & Hpe & HP)]).
  - destruct (line_at _ _) as [[i e]|] eqn:El; [left|by right]. exists i, e.
    split_and!; [done|by apply (HP i)|by left|intros; congruence].
  - left. exists i, e. split_and!; [done|done|by right|auto].
Qed.

Lemma access_transparent now p g s : store_ok config_ s -> gp_ok config_ g -> request_ok p g s (fun _ => True) ->
  exists st (g' : option Gp) s', perform now (OpAccess p g) s = Ok (st, g', s') /\ store_ok config_ s' /\
    flat_answer (OpAccess p g) st (view s) g' /\
    forall a, view s' a = flat_memory (OpAccess p g) st (st_mem s) (view s) a.
Proof.
  intros Hok Hg Hr. pose proof (proj1 Hr) as Hv. simpl.
  destruct (request_cases p g s _ Hr) as [(i & e & Hl & _ & Hty & Hla)|(Hl & Hty & Hla)].
  - destruct (bool_decide (type_ p = kCoreReq) && pending_replay e) eqn:Ep.
    + bprop. apply bool_decide_eq_true in H1. rewrite (access_waits config_ error_throws now p g s i e) by done. simpl.
      eexists _, _, _. split; [done|]. by split_and!.
    + destruct (access_hit_ok config_ error_throws Hblock now p g s i e) as (g' & s' & -> & Hok' & Heff); try done. simpl.
      eexists _, _, _. split; [done|]. unfold access_effect in Heff. destruct (gp_is_write g); simpl.
      * destruct Heff as [-> Hview]. by split_and!.
      * destruct Heff as [(bytes & -> & Hb) Hview]. split_and!; [done|by exists bytes|done].
  - destruct (access_miss_ok config_ error_throws Hblock now p g s) as (s' & -> & Hok' & Hview); try done. simpl.
    eexists _, _, _. split; [done|]. split_and!; [done|done|]. intros a. rewrite Hview. by destruct (_ && _).
Qed.

Lemma op_transparent now o s : store_ok config_ s -> op_ok o s ->
  exists st (g' : option Gp) s', perform now o s = Ok (st, g', s') /\ store_ok config_ s' /\ flat_answer o st (view s) g' /\
    forall a, view s' a = flat_memory o st (st_mem s) (view s) a.
Proof.
  intros Hok Ho. destruct o as [p g|p g ext|p a|a|a].
  - destruct Ho. by apply access_transparent.
  - destruct Ho as (Hat & Hr & i' & e' & Hl' & _).
    destruct (request_cases p g s _ Hr) as [(i & e & Hl & [Hk Hp] & Hty & Hla)|(Hl & _)]; [|congruence].
    destruct (atomic_hit_ok now p g ext s i e) as (bytes & s' & Hrun & Hok' & Hb & Hview); try done.
    { case_bool_decide; [by rewrite Hp|done]. }
    simpl. rewrite Hrun. simpl. eexists _, _, _. split; [done|]. split_and!; [done|by exists bytes|done].
  - destruct Ho as (Hty & Ha & Hoff & Hl).
    destruct (refill_ok config_ error_throws Hblock now p a s) as (st & s' & Hrun & Hok' & Hview & _); try done.
    simpl. rewrite Hrun. simpl. eexists _, _, _. split; [done|]. by split_and!.
  - destruct (write_back_ok config_ error_throws Hblock now a s Hok Ho) as (s' & Hrun & Hok' & Hview & _).
    simpl. rewrite Hrun. simpl. eexists _, _, _. split; [done|]. by split_and!.
  - destruct (invalidate_ok config_ now a s Hok Ho) as (s' & Hrun & Hok' & _ & _ & Hview).
    simpl. rewrite Hrun. simpl. eexists _, _, _. split; [done|]. by split_and!.
Qed.

(** Memories are compared byte by byte. *)
Lemma mem_line_ext (m m' : Z -> Z) a n : (forall b, m b = m' b) -> mem_line m a n = mem_line m' a n.
Proof. intros Hm. unfold mem_line. apply map_ext. intros k. apply Hm. Qed.
Lemma mem_write_ext (m m' : Z -> Z) g a : (forall b, m b = m' b) -> mem_write m g a = mem_write m' g a.
Proof. intros Hm. unfold mem_write. by rewrite Hm. Qed.
Lemma flat_memory_ext o st backing (m m' : Z -> Z) a : (forall b, m b = m' b) ->
  flat_memory o st backing m a = flat_memory o st backing m' a.
Proof.
  intros Hm. destruct o; simpl; [|unfold atomic_memory, atomic_value, word_at|auto|auto|by rewrite Hm].
  - destruct st; try bcase; auto using mem_write_ext.
  - rewrite (mem_line_ext m m') by done. by apply mem_write_ext.
Qed.
Lemma flat_answer_ext o st (m m' : Z -> Z) (g' : option Gp) : (forall b, m b = m' b) -> flat_answer o st m g' -> flat_answer o st m' g'.
Proof.
  intros Hm. destruct o; simpl; [|intros (b & -> & Hb); exists b; by rewrite <- (mem_line_ext m m')|done..].
  bcase; [|done]. intros (b & -> & Hb). exists b. split; [done|]. intros k. rewrite Hb. unfold read_from. by rewrite Hm.
Qed.

Lemma cached_ok s m : param_ok config_ -> cached s m -> store_ok config_ s /\ forall a, view s a = m a.
Proof.
  intros Hp. induction 1 as [seed t d m Hti Hdi|now o s m st g' s' _ [Hok Hview] Ho Hrun].
  - destruct (TagArray_init_ok config_ seed Hp) as (t' & Hti' & Ht & Hno & Hsize).
    assert (t' = t) as -> by congruence.
    destruct (num_sets_ok _ Hp) as (n & Hn & Hpos & Hsize'). unfold DataArray_init in Hdi. rewrite Hn in Hdi.
    simpl in Hdi. injection Hdi as <-. assert (Hnt : num_sets_ t = n).
    { unfold TagArray_init in Hti. rewrite Hn in Hti. simpl in Hti. by injection Hti as <-. }
    split; [split; simpl|intros a; unfold SimStore.view; simpl; by rewrite Hno].
    + done.
    + unfold data_ok. simpl. by rewrite length_replicate.
    + done.
    + intros l i e k Hl. congruence.
  - destruct (op_transparent now o s Hok Ho) as (st1 & g1 & s1 & Hrun1 & Hok1 & _ & Hview1).
    rewrite Hrun in Hrun1. injection Hrun1 as <- <- <-. split; [done|].
    intros a. rewrite Hview1. by apply flat_memory_ext.
Qed.

End memory.

(** C25. The cache of the SM simulator is transparent. Whatever its geometry and its
    replacement, write-hit and write-miss policies, after any sequence of accesses,
    write-arounds, refills with their evictions, atomic operations, write-backs and
    invalidations, the next operation succeeds, a read or an atomic answers what a flat
    memory holds, and the cores then see that memory after the same operation. *)
Theorem store_transparent {E : Type} `{RandomLaws E} (config_ : Param) (error_throws : bool)
    (now : Z) (o : mem_op) (s : Storage E) (m : Z -> Z) :
  param_ok config_ -> cached config_ error_throws s m -> op_ok config_ o s ->
  exists st (g' : option Gp) s', perform config_ error_throws now o s = Ok (st, g', s') /\
    flat_answer o st m g' /\ forall a, view config_ s' a = flat_memory config_ o st (st_mem s) m a.
Proof.
  intros Hp Hc Ho. pose proof (proj1 (param_block _ Hp)) as Hblock.
  destruct (cached_ok config_ error_throws Hblock s m Hp Hc) as [Hok Hview].
  destruct (op_transparent config_ error_throws Hblock now o s Hok Ho) as (st & g' & s' & Hrun & _ & Ha & Hv).
  exists st, g', s'. split_and!; [done|by eapply flat_answer_ext|].
  intros a. rewrite Hv. by apply flat_memory_ext.
Qed.

(** ** An example: two sets of two ways, lines of eight bytes, write-back

    A line is refilled, replayed for a write of two bytes, and then read. *)

Definition small_cache : Param :=
  mkParam kLRU kWriteBack kWriteAllocate 32 8 2 2 2 2 2 2 [] true 0.
Lemma small_cache_ok : param_ok small_cache.
Proof. split; simpl; try lia. exists 2%nat. lia. Qed.
Definition core_packet (t : PacketType) (last : bool) : Packet :=
  mkPacket 1 None t false false false false false 0 (mkLocation 0 0) None last (Some (CoreGp 0)).
Definition small_gp (c : tlm_command) (a : Z) (bytes : list Z) : Gp :=
  mkGp c a (Some bytes) (length bytes) None 0 TLM_INCOMPLETE_RESPONSE None.
Definition small_memory : Z -> Z := fun a => a.
Definition small_start : Storage Z :=
  mkStore (mkTags 2 (replicate 4 entry0) 0 (seeded 0)) (mkData 2 (replicate 32 0)) small_memory.
Definition small_run (s : Storage Z) : res (Storage Z) :=
  '(_, _, s) ← perform small_cache true 1 (OpRefill (core_packet kRefill false) 40) s;
  '(_, _, s) ← perform small_cache true 2
     (OpAccess (core_packet kReplay true) (small_gp TLM_WRITE_COMMAND 42 [7; 9])) s;
  Ok s.
Lemma small_cached : exists s m, small_run small_start = Ok s /\ cached small_cache true s m.
Proof.
  set (o1 := OpRefill (core_packet kRefill false) 40).
  set (o2 := OpAccess (core_packet kReplay true) (small_gp TLM_WRITE_COMMAND 42 [7; 9])).
  destruct (perform small_cache true 1 o1 small_start) as [[[st1 g1] s1]|] eqn:E1; [|by vm_compute in E1].
  assert (Hc1 : cached small_cache true s1 (flat_memory small_cache o1 st1 small_memory small_memory)).
  { apply (cached_op small_cache true 1 o1 small_start small_memory st1 g1); [by apply (cached_start small_cache true 0)| |done].
    split_and!; [done|unfold fits; lia|done|done]. }
  destruct (perform small_cache true 2 o2 s1) as [[[st2 g2] s2]|] eqn:E2;
    [|vm_compute in E1; injection E1 as <- <- <-; by vm_compute in E2].
  exists s2, (flat_memory small_cache o2 st2 (st_mem s1) (flat_memory small_cache o1 st1 small_memory small_memory)).
  split.
  - unfold small_run. fold o1. fold o2. rewrite E1. cbn [mbind res_bind]. by rewrite E2.
  - apply (cached_op small_cache true 2 o2 s1 _ st2 g2); [done| |done].
    vm_compute in E1. injection E1 as <- <- <-.
    split; [split; [split; [simpl; vm_compute; lia|eexists; split; [done|simpl; lia]]|unfold fits; simpl; lia|done]|].
    split; [done|]. right. split; [done|]. eexists _, _. split; [vm_compute; reflexivity|]. done.
Qed.
Lemma store_transparent_witness : exists s m,
  let o := OpAccess (core_packet kCoreReq false) (small_gp TLM_READ_COMMAND 40 [0; 0; 0; 0]) in
  (param_ok small_cache /\ cached small_cache true s m /\ op_ok small_cache o s) /\
  exists st g' s', perform small_cache true 3 o s = Ok (st, g', s') /\ flat_answer o st m g' /\
    forall a, view small_cache s' a = flat_memory small_cache o st (st_mem s) m a.
Proof.
  destruct small_cached as (s & m & Hs & Hc). exists s, m. intros o.
  assert (Ho : op_ok small_cache o s).
  { split; [split; simpl; [split; [simpl; vm_compute; lia|eexists; split; [done|simpl; lia]]|unfold fits; lia|done]|].
    split; [done|]. left. done. }
  split; [by split_and!; [apply small_cache_ok|done..]|].
  apply (store_transparent small_cache true 3 o s m small_cache_ok Hc Ho).
Defined.
