(* ===== verification/SimMshr.v ===== *)
(** * The miss status holding registers of the simulated cache
    (simtix/src/cache/mshr_file.{h,cc}, class MshrCore)

    An entry collects the requests that wait for one line. When the line has been
    refilled, its requests are replayed in the order in which they missed, entries in
    the order of their refills. The specification is a map of waiting requests and a
    queue of batches to replay; the theorem is that every operation implements it.

    Packets are named by their address in the pool of the cache. The MshrFile around the
    core, a SystemC module, is part of SimCache.v. *)

From S2P Require Import Prelude SimFifo SimPacket.

(** [VictimReservationId], of victim_reservation.h. *)
Record Reservation := mkReservation { res_index : nat; res_generation : Z }.
#[global] Instance Reservation_eq : EqDecision Reservation.
Proof. solve_decision. Defined.

Inductive MshrState := kInvalid | kPendingRefill | kReadyToReplay | kReplaying.
#[global] Instance MshrState_eq : EqDecision MshrState.
Proof. solve_decision. Defined.
Record MshrEntry := mkMshr {
  state : MshrState;
  line_address : Z;
  generation : Z;
  sub_entries : list nat;
  victim_reservation : option Reservation;
}.
Definition mshr0 : MshrEntry := mkMshr kInvalid 0 0 [] None.
Definition set_state (s : MshrState) (e : MshrEntry) : MshrEntry :=
  mkMshr s (line_address e) (generation e) (sub_entries e) (victim_reservation e).
Definition set_subs (l : list nat) (e : MshrEntry) : MshrEntry :=
  mkMshr (state e) (line_address e) (generation e) l (victim_reservation e).
Definition set_reservation (r : option Reservation) (e : MshrEntry) : MshrEntry :=
  mkMshr (state e) (line_address e) (generation e) (sub_entries e) r.
Definition MshrEntry_Reset (e : MshrEntry) : res MshrEntry :=
  massert (bool_decide (victim_reservation e = None));;
  Ok (mkMshr kInvalid 0 (generation e) [] (victim_reservation e)).

Record MshrCore := mkCore {
  mshr_entries_ : list MshrEntry;
  replaying_mshr_index_ : option nat;
  ready_to_replay_ : list nat;
}.
Inductive ProbeStatus :=
  | kAcceptablePrimaryMiss | kAcceptableSecondaryMiss | kMshrFull | kSubentryFull | kStReplaying.
#[global] Instance ProbeStatus_eq : EqDecision ProbeStatus.
Proof. solve_decision. Defined.

Section core.
Context (config_ : Param).
Implicit Types (c : MshrCore) (e : MshrEntry) (l a : Z) (i p : nat).

Definition MshrCore_init : MshrCore := mkCore (replicate (mshr_entries config_) mshr0) None [].
Definition mline (address : Z) : Z := address / block_size_bytes config_.
Definition mshr_at c i : MshrEntry := nth i (mshr_entries_ c) mshr0.
Definition put_mshr i e c : MshrCore := mkCore (<[i := e]> (mshr_entries_ c)) (replaying_mshr_index_ c) (ready_to_replay_ c).
Definition active e : bool := negb (bool_decide (state e = kInvalid)).

Definition FindMshrEntry c l : option nat :=
  find_first (fun i => active (mshr_at c i) && (line_address (mshr_at c i) =? l)) (length (mshr_entries_ c)).
Definition FindFreeMshrEntry c : option nat :=
  find_first (fun i => negb (active (mshr_at c i))) (length (mshr_entries_ c)).
Definition LookupMshrEntry (id : MshrId) c : res nat :=
  if (length (mshr_entries_ c) <=? mshr_index id)%nat then Err OutOfRange
  else
    massert (active (mshr_at c (mshr_index id)));;
    massert (generation (mshr_at c (mshr_index id)) =? mshr_generation id);;
    Ok (mshr_index id).

Definition ProbeMiss (address : Z) c : res (ProbeStatus * option nat) :=
  match FindMshrEntry c (mline address) with
  | Some i =>
      let e := mshr_at c i in
      if bool_decide (state e = kReadyToReplay) || bool_decide (state e = kReplaying) then Ok (kStReplaying, None)
      else
        massert (bool_decide (state e = kPendingRefill));;
        if (mshr_subentries config_ <=? length (sub_entries e))%nat then Ok (kSubentryFull, None)
        else Ok (kAcceptableSecondaryMiss, Some i)
  | None =>
      match FindFreeMshrEntry c with
      | None => Ok (kMshrFull, None)
      | Some i => Ok (kAcceptablePrimaryMiss, Some i)
      end
  end.
(** The address to read, the identity of the entry, and the new state. *)
Definition AllocatePrimaryMiss i p (address : Z) (r : Reservation) c : res (Z * MshrId * MshrCore) :=
  let e := mshr_at c i in
  massert (bool_decide (state e = kInvalid));;
  massert (bool_decide (victim_reservation e = None));;
  let e := mkMshr kPendingRefill (mline address) (generation e +% 1) (sub_entries e ++ [p]) (Some r) in
  Ok (line_address e *% block_size_bytes config_, mkMshrId i (generation e), put_mshr i e c).
Definition AddSecondaryMiss i p (address : Z) c : res MshrCore :=
  let e := mshr_at c i in
  massert (bool_decide (state e = kPendingRefill));;
  massert (line_address e =? mline address);;
  massert (length (sub_entries e) <? mshr_subentries config_)%nat;;
  Ok (put_mshr i (set_subs (sub_entries e ++ [p]) e) c).
Definition NotifyRefill (id : MshrId) c : res MshrCore :=
  i ← LookupMshrEntry id c;
  let e := mshr_at c i in
  massert (bool_decide (state e = kPendingRefill));;
  massert (negb (bool_decide (sub_entries e = [])));;
  massert (bool_decide (victim_reservation e = None));;
  let c := put_mshr i (set_state kReadyToReplay e) c in
  Ok (mkCore (mshr_entries_ c) (replaying_mshr_index_ c) (ready_to_replay_ c ++ [i])).
Definition TakeVictimReservation (id : MshrId) c : res (Reservation * MshrCore) :=
  i ← LookupMshrEntry id c;
  let e := mshr_at c i in
  massert (bool_decide (state e = kPendingRefill));;
  match victim_reservation e with
  | None => Err Assertion
  | Some r => Ok (r, put_mshr i (set_reservation None e) c)
  end.
Definition HasReplayPacket c : bool :=
  bool_decide (is_Some (replaying_mshr_index_ c)) || negb (bool_decide (ready_to_replay_ c = [])).
Definition HasPendingWork c : bool := HasReplayPacket c || existsb active (mshr_entries_ c).
(** [CanAcceptMiss]: the scan stops at the entry of the line. *)
Definition CanAcceptMiss (address : Z) c : res bool :=
  match FindMshrEntry c (mline address) with
  | Some i =>
      let e := mshr_at c i in
      if bool_decide (state e = kPendingRefill) then Ok (length (sub_entries e) <? mshr_subentries config_)%nat
      else massert (bool_decide (state e = kReadyToReplay) || bool_decide (state e = kReplaying));; Ok false
  | None => Ok (existsb (fun e => negb (active e)) (mshr_entries_ c))
  end.

Definition StartNextReplayEntry c : res (bool * MshrCore) :=
  match replaying_mshr_index_ c with
  | Some _ => Ok (true, c)
  | None =>
      match ready_to_replay_ c with
      | [] => Ok (false, c)
      | i :: r =>
          let e := mshr_at c i in
          massert (bool_decide (state e = kReadyToReplay));;
          massert (negb (bool_decide (sub_entries e = [])));;
          Ok (true, mkCore (<[i := set_state kReplaying e]> (mshr_entries_ c)) (Some i) r)
      end
  end.
(** The packet to replay and whether it is the last of its entry. *)
Definition PopReplayPacket c : res (option (nat * bool) * MshrCore) :=
  '(started, c) ← StartNextReplayEntry c;
  if negb (started : bool) then Ok (None, c)
  else
    match replaying_mshr_index_ c with
    | None => Err Assertion
    | Some i =>
        let e := mshr_at c i in
        massert (bool_decide (state e = kReplaying));;
        match sub_entries e with
        | [] => Err Assertion
        | p :: [] =>
            e ← MshrEntry_Reset (set_subs [] e);
            Ok (Some (p, true), mkCore (<[i := e]> (mshr_entries_ c)) None (ready_to_replay_ c))
        | p :: q => Ok (Some (p, false), put_mshr i (set_subs q e) c)
        end
    end.
(** What [PopReplayPacket] does to the packet. *)
Definition replayed (last : bool) (pkt : Packet) : Packet :=
  set_last_replay (is_last_replay pkt || last) (set_type kReplay pkt).

(** ** Its invariant *)

Record mshr_ok c : Prop := {
  mshr_len : length (mshr_entries_ c) = mshr_entries config_;
  mshr_lines : forall i j, active (mshr_at c i) = true -> active (mshr_at c j) = true ->
    line_address (mshr_at c i) = line_address (mshr_at c j) -> i = j;
  mshr_idle : forall i, state (mshr_at c i) = kInvalid ->
    sub_entries (mshr_at c i) = [] /\ victim_reservation (mshr_at c i) = None;
  mshr_busy : forall i, active (mshr_at c i) = true ->
    sub_entries (mshr_at c i) <> [] /\ (length (sub_entries (mshr_at c i)) <= Nat.max 1 (mshr_subentries config_))%nat;
  mshr_resv : forall i, victim_reservation (mshr_at c i) <> None -> state (mshr_at c i) = kPendingRefill;
  mshr_ready : forall i, i ∈ ready_to_replay_ c <-> state (mshr_at c i) = kReadyToReplay;
  mshr_ready_once : NoDup (ready_to_replay_ c);
  mshr_replaying : forall i, replaying_mshr_index_ c = Some i <-> state (mshr_at c i) = kReplaying
}.

(** ** The specification

    Requests that wait for a line, and batches whose line has arrived. *)
Record MshrSpec := mkMSpec { waiting : Z -> option (list nat); batches : list (Z * list nat) }.
Definition abs_waiting c l : option (list nat) :=
  i ← FindMshrEntry c l;
  if bool_decide (state (mshr_at c i) = kPendingRefill) then Some (sub_entries (mshr_at c i)) else None.
Definition replay_order c : list nat := option_list (replaying_mshr_index_ c) ++ ready_to_replay_ c.
Definition batch_of c i : Z * list nat := (line_address (mshr_at c i), sub_entries (mshr_at c i)).
Definition mshr_abs c : MshrSpec := mkMSpec (abs_waiting c) (map (batch_of c) (replay_order c)).
(** Lines that occupy an entry. *)
Definition tracked (s : MshrSpec) l : Prop := waiting s l <> None \/ l ∈ (batches s).*1.

(** ** Reading the entries *)

Lemma active_true e : active e = true <-> state e <> kInvalid.
Proof. unfold active. rewrite negb_true_iff, bool_decide_eq_false. done. Qed.
Lemma active_false e : active e = false <-> state e = kInvalid.
Proof. unfold active. rewrite negb_false_iff, bool_decide_eq_true. done. Qed.
Lemma mshr_out c i : (length (mshr_entries_ c) <= i)%nat -> mshr_at c i = mshr0.
Proof. intros. unfold mshr_at. by apply nth_overflow. Qed.
Lemma active_in c i : active (mshr_at c i) = true -> (i < length (mshr_entries_ c))%nat.
Proof.
  intros Ha. destruct (decide (i < length (mshr_entries_ c))%nat); [done|]. by rewrite mshr_out in Ha by lia.
Qed.
Lemma mshr_put i j e c : (i < length (mshr_entries_ c))%nat ->
  mshr_at (put_mshr i e c) j = if decide (j = i) then e else mshr_at c j.
Proof. intros. unfold mshr_at, put_mshr. simpl. by apply nth_insert. Qed.

Lemma FindMshrEntry_Some c l i : mshr_ok c ->
  FindMshrEntry c l = Some i <-> active (mshr_at c i) = true /\ line_address (mshr_at c i) = l.
Proof.
  intros Hc. split.
  - intros Hf. apply find_first_Some in Hf as (_ & Hh & _). by bprop.
  - intros [Ha Hl]. apply find_first_eq; [by apply active_in|by rewrite Ha, Hl, Z.eqb_refl|].
    intros j Hj. destruct (_ && _) eqn:Eb; [|done]. bprop. assert (i = j); [|lia]. apply (mshr_lines c Hc); congruence.
Qed.
Lemma FindMshrEntry_None c l :
  FindMshrEntry c l = None <-> forall i, active (mshr_at c i) = true -> line_address (mshr_at c i) <> l.
Proof.
  unfold FindMshrEntry. rewrite find_first_None. split.
  - intros Hf i Ha. specialize (Hf i (active_in _ _ Ha)). rewrite Ha in Hf. simpl in Hf. by bprop.
  - intros Hf i _. destruct (active (mshr_at c i)) eqn:Ea; [|done]. simpl. apply Z.eqb_neq. by apply Hf.
Qed.
Lemma abs_waiting_Some c l q : mshr_ok c ->
  abs_waiting c l = Some q <->
  exists i, state (mshr_at c i) = kPendingRefill /\ line_address (mshr_at c i) = l /\ sub_entries (mshr_at c i) = q.
Proof.
  intros Hc. unfold abs_waiting. destruct (FindMshrEntry c l) as [i|] eqn:Ef; simpl.
  - apply FindMshrEntry_Some in Ef as [Ha Hl]; [|done]. case_bool_decide as Hs.
    + split; [intros [= <-]; eauto|]. intros (j & Hj & Hlj & <-). f_equal. f_equal. f_equal.
      apply (mshr_lines c Hc); [done|apply active_true; congruence|congruence].
    + split; [done|]. intros (j & Hj & Hlj & <-). exfalso. apply Hs.
      replace i with j; [done|]. apply (mshr_lines c Hc); [apply active_true; congruence|done|congruence].
  - split; [done|]. intros (j & Hj & Hlj & _). rewrite FindMshrEntry_None in Ef. exfalso.
    apply (Ef j); [apply active_true; congruence|done].
Qed.
Lemma in_replay_order c i : mshr_ok c ->
  i ∈ replay_order c <-> state (mshr_at c i) = kReadyToReplay \/ state (mshr_at c i) = kReplaying.
Proof.
  intros Hc. unfold replay_order. rewrite elem_of_app, (mshr_ready c Hc), <- (mshr_replaying c Hc).
  destruct (replaying_mshr_index_ c) as [j|]; simpl.
  - rewrite list_elem_of_singleton. naive_solver.
  - rewrite elem_of_nil. naive_solver.
Qed.
Lemma replay_order_once c : mshr_ok c -> NoDup (replay_order c).
Proof.
  intros Hc. unfold replay_order. destruct (replaying_mshr_index_ c) as [j|] eqn:Er; simpl.
  - apply NoDup_cons. split; [|by apply (mshr_ready_once c Hc)]. rewrite (mshr_ready c Hc).
    apply (mshr_replaying c Hc) in Er. congruence.
  - by apply (mshr_ready_once c Hc).
Qed.
(** A line is tracked exactly when an entry is active for it. *)
Lemma tracked_active c l : mshr_ok c ->
  tracked (mshr_abs c) l <-> exists i, active (mshr_at c i) = true /\ line_address (mshr_at c i) = l.
Proof.
  intros Hc. unfold tracked. simpl. split.
  - intros [Hw|Hb].
    + destruct (abs_waiting c l) as [q|] eqn:Eq; [|done]. apply abs_waiting_Some in Eq as (i & Hs & Hl & _); [|done].
      exists i. split; [apply active_true; congruence|done].
    + rewrite list_elem_of_fmap in Hb. destruct Hb as ([l' q] & -> & Hb).
      apply list_elem_of_In, in_map_iff in Hb as (i & [= <- <-] & Hi). apply list_elem_of_In in Hi.
      apply in_replay_order in Hi; [|done]. exists i. split; [apply active_true; destruct Hi; congruence|done].
  - intros (i & Ha & Hl). apply active_true in Ha. destruct (state (mshr_at c i)) eqn:Es; [done|left|right..].
    + assert (abs_waiting c l = Some (sub_entries (mshr_at c i))) as -> by (apply abs_waiting_Some; eauto). done.
    + rewrite list_elem_of_fmap. exists (batch_of c i). split; [done|]. apply list_elem_of_In, in_map, list_elem_of_In.
      apply in_replay_order; auto.
    + rewrite list_elem_of_fmap. exists (batch_of c i). split; [done|]. apply list_elem_of_In, in_map, list_elem_of_In.
      apply in_replay_order; auto.
Qed.

(** ** Changing one entry *)

(** An entry that is free or waits for its line is rewritten to one that waits. *)
Lemma put_pending c i e : mshr_ok c -> (i < length (mshr_entries_ c))%nat ->
  state (mshr_at c i) = kInvalid \/ (state (mshr_at c i) = kPendingRefill /\ line_address e = line_address (mshr_at c i)) ->
  state e = kPendingRefill -> sub_entries e <> [] ->
  (length (sub_entries e) <= Nat.max 1 (mshr_subentries config_))%nat ->
  (forall j, j <> i -> active (mshr_at c j) = true -> line_address (mshr_at c j) <> line_address e) ->
  mshr_ok (put_mshr i e c) /\ batches (mshr_abs (put_mshr i e c)) = batches (mshr_abs c) /\
  forall l, abs_waiting (put_mshr i e c) l = if l =? line_address e then Some (sub_entries e) else abs_waiting c l.
Proof.
  intros Hc Hi Hst Hs Hq Hb Hl. set (c' := put_mshr i e c).
  assert (He : forall j, mshr_at c' j = if decide (j = i) then e else mshr_at c j) by (intros; by apply mshr_put).
  assert (Hni : forall j, state (mshr_at c j) = kReadyToReplay \/ state (mshr_at c j) = kReplaying -> j <> i).
  { intros j Hj ->. destruct Hst as [Hst|[Hst _]]; destruct Hj; congruence. }
  assert (Hok : mshr_ok c').
  { destruct Hc as [H1 H2 H3 H4 H5 H6 H7 H8]. split; [unfold c', put_mshr; simpl; by rewrite length_insert|..].
    - intros j k. rewrite !He. repeat case_decide; subst; intros Hj Hk Hjk; [done| | |by apply H2].
      + exfalso. by apply (Hl k).
      + exfalso. by apply (Hl j).
    - intros j. rewrite He. case_decide; [congruence|apply H3].
    - intros j. rewrite He. case_decide; [done|apply H4].
    - intros j. rewrite He. case_decide; [done|apply H5].
    - intros j. rewrite He. unfold c', put_mshr. simpl. rewrite H6. case_decide as Ej; [subst j|done].
      split; [|congruence]. intros Hr. exfalso. by apply (Hni i); [left|].
    - done.
    - intros j. rewrite He. unfold c', put_mshr. simpl. rewrite H8. case_decide as Ej; [subst j|done].
      split; [|congruence]. intros Hr. exfalso. by apply (Hni i); [right|]. }
  split; [done|]. split.
  - simpl. unfold replay_order, c', put_mshr. simpl. apply map_ext_in. intros j Hj. apply list_elem_of_In in Hj.
    unfold batch_of. fold c'. rewrite He, decide_False; [done|]. apply Hni. by apply in_replay_order.
  - intros l. destruct (l =? line_address e) eqn:El; bprop.
    + apply abs_waiting_Some; [done|]. exists i. rewrite He, decide_True by done. done.
    + apply option_eq. intros q. rewrite !abs_waiting_Some by done. split.
      * intros (j & Hj). rewrite He in Hj. case_decide as Ej; [naive_solver|eauto].
      * intros (j & Hj). exists j. rewrite He. case_decide as Ej; [subst j|done].
        destruct Hst as [Hst|[Hst Hle]]; [destruct Hj; congruence|]. exfalso. apply El. destruct Hj as (_ & <- & _). done.
Qed.

(** ** The operations *)

(** What a probe answers, in terms of the specification. *)
Definition probe_meaning c l (st : ProbeStatus) (oi : option nat) : Prop :=
  match st with
  | kAcceptablePrimaryMiss => exists i, oi = Some i /\ state (mshr_at c i) = kInvalid /\
      (i < length (mshr_entries_ c))%nat /\ ~ tracked (mshr_abs c) l
  | kAcceptableSecondaryMiss => exists i, oi = Some i /\ state (mshr_at c i) = kPendingRefill /\
      line_address (mshr_at c i) = l /\ waiting (mshr_abs c) l = Some (sub_entries (mshr_at c i)) /\
      (length (sub_entries (mshr_at c i)) < mshr_subentries config_)%nat
  | kMshrFull => oi = None /\ ~ tracked (mshr_abs c) l /\ forall i, (i < mshr_entries config_)%nat -> active (mshr_at c i) = true
  | kSubentryFull => oi = None /\ exists q, waiting (mshr_abs c) l = Some q /\ (mshr_subentries config_ <= length q)%nat
  | kStReplaying => oi = None /\ l ∈ (batches (mshr_abs c)).*1
  end.
Lemma ProbeMiss_spec c a : mshr_ok c ->
  exists st oi, ProbeMiss a c = Ok (st, oi) /\ probe_meaning c (mline a) st oi.
Proof.
  intros Hc. unfold ProbeMiss. destruct (FindMshrEntry c (mline a)) as [i|] eqn:Ef.
  - apply FindMshrEntry_Some in Ef as [Ha Hl]; [|done]. apply active_true in Ha.
    assert (Hb : state (mshr_at c i) = kReadyToReplay \/ state (mshr_at c i) = kReplaying -> mline a ∈ (batches (mshr_abs c)).*1).
    { intros Hs. rewrite list_elem_of_fmap. exists (batch_of c i). split; [done|].
      apply list_elem_of_In, in_map, list_elem_of_In. by apply in_replay_order. }
    destruct (state (mshr_at c i)) eqn:Es; simpl; [done| |eexists _, _; split; [done|split; auto]..].
    assert (Hw : abs_waiting c (mline a) = Some (sub_entries (mshr_at c i))) by (apply abs_waiting_Some; eauto).
    bcase; eexists _, _; (split; [done|]); simpl; eauto 10.
  - assert (Hnt : ~ tracked (mshr_abs c) (mline a)).
    { rewrite tracked_active by done. intros (i & Ha & Hl). rewrite FindMshrEntry_None in Ef. by apply (Ef i). }
    destruct (FindFreeMshrEntry c) as [i|] eqn:Ei; eexists _, _; (split; [done|]); simpl.
    + apply find_first_Some in Ei as (Hi & Hs & _). bprop. apply active_false in Hs. eauto.
    + split_and!; [done|done|]. intros i Hi. rewrite <- (mshr_len c Hc) in Hi.
      pose proof (proj1 (find_first_None _ _) Ei i Hi) as Hn. by apply negb_false_iff in Hn.
Qed.

Lemma AllocatePrimaryMiss_spec c i p a r : mshr_ok c -> state (mshr_at c i) = kInvalid ->
  (i < length (mshr_entries_ c))%nat -> ~ tracked (mshr_abs c) (mline a) ->
  exists id c', AllocatePrimaryMiss i p a r c = Ok (mline a *% block_size_bytes config_, id, c') /\ mshr_ok c' /\
    mshr_index id = i /\ mshr_generation id = generation (mshr_at c i) +% 1 /\
    (forall j, mshr_at c' j = if decide (j = i) then mkMshr kPendingRefill (mline a) (mshr_generation id) [p] (Some r) else mshr_at c j) /\
    batches (mshr_abs c') = batches (mshr_abs c) /\
    forall l, waiting (mshr_abs c') l = if l =? mline a then Some [p] else waiting (mshr_abs c) l.
Proof.
  intros Hc Hs Hi Hnt. destruct (mshr_idle c Hc i Hs) as [Hq Hr]. unfold AllocatePrimaryMiss.
  rewrite Hs, Hr, Hq. simpl. eexists _, _. split; [done|]. simpl.
  destruct (put_pending c i (mkMshr kPendingRefill (mline a) (generation (mshr_at c i) +% 1) [p] (Some r)))
    as (Hok & Hb & Hw); try done; [by left|simpl; lia| |].
  - intros j Hj Ha Hl. apply Hnt. apply tracked_active; [done|]. by exists j.
  - split_and!; try done. intros j. by apply mshr_put.
Qed.
Lemma AddSecondaryMiss_spec c i p a : mshr_ok c -> state (mshr_at c i) = kPendingRefill ->
  line_address (mshr_at c i) = mline a -> (length (sub_entries (mshr_at c i)) < mshr_subentries config_)%nat ->
  exists c', AddSecondaryMiss i p a c = Ok c' /\ mshr_ok c' /\
    (forall j, mshr_at c' j = if decide (j = i) then set_subs (sub_entries (mshr_at c i) ++ [p]) (mshr_at c i) else mshr_at c j) /\
    batches (mshr_abs c') = batches (mshr_abs c) /\
    forall l, waiting (mshr_abs c') l = if l =? mline a then Some (sub_entries (mshr_at c i) ++ [p]) else waiting (mshr_abs c) l.
Proof.
  intros Hc Hs Hl Hlen. assert (Hact : active (mshr_at c i) = true) by (apply active_true; congruence).
  unfold AddSecondaryMiss. rewrite Hs, Hl, Z.eqb_refl, (proj2 (Nat.ltb_lt _ _) Hlen). simpl. eexists. split; [done|].
  destruct (put_pending c i (set_subs (sub_entries (mshr_at c i) ++ [p]) (mshr_at c i))) as (Hok & Hb & Hw); try done;
    [by apply active_in|by right|simpl; by destruct (sub_entries _)|simpl; rewrite length_app; simpl; lia| |].
  - intros j Hj Ha Hlj. apply Hj. by apply (mshr_lines c Hc).
  - split_and!; try done; [intros j; apply mshr_put; by apply active_in|].
    intros l. rewrite Hw. simpl. by rewrite Hl.
Qed.

(** An identity is live while the entry it was given for is in use. *)
Definition live_id c (id : MshrId) : Prop :=
  active (mshr_at c (mshr_index id)) = true /\ generation (mshr_at c (mshr_index id)) = mshr_generation id.
Lemma LookupMshrEntry_spec c id : LookupMshrEntry id c = Ok (mshr_index id) <-> live_id c id.
Proof.
  unfold LookupMshrEntry, live_id. split.
  - destruct (_ <=? _)%nat; [done|]. intros Hr. res_inv. by bprop.
  - intros [Ha Hg]. rewrite (proj2 (Nat.leb_gt _ _)) by by apply active_in. by rewrite Ha, Hg, Z.eqb_refl.
Qed.

Lemma TakeVictimReservation_spec c id r : mshr_ok c -> live_id c id ->
  state (mshr_at c (mshr_index id)) = kPendingRefill -> victim_reservation (mshr_at c (mshr_index id)) = Some r ->
  exists c', TakeVictimReservation id c = Ok (r, c') /\ mshr_ok c' /\
    (forall j, mshr_at c' j = if decide (j = mshr_index id) then set_reservation None (mshr_at c j) else mshr_at c j) /\
    batches (mshr_abs c') = batches (mshr_abs c) /\ forall l, waiting (mshr_abs c') l = waiting (mshr_abs c) l.
Proof.
  intros Hc Hid Hs Hr. pose proof Hid as [Ha _]. set (i := mshr_index id) in *. unfold TakeVictimReservation.
  rewrite (proj2 (LookupMshrEntry_spec c id) Hid). simpl. fold i. rewrite Hs, Hr. simpl.
  eexists. split; [done|]. destruct (mshr_busy c Hc i Ha) as [Hq Hb].
  destruct (put_pending c i (set_reservation None (mshr_at c i))) as (Hok & Hbt & Hw); try done;
    [by apply active_in|by right| |].
  - intros j Hj Haj Hlj. apply Hj. by apply (mshr_lines c Hc).
  - split_and!; try done.
    + intros j. rewrite mshr_put by by apply active_in. case_decide; [by subst j|done].
    + intros l. rewrite Hw. simpl. destruct (l =? _) eqn:El; [|done]. bprop. symmetry.
      apply abs_waiting_Some; [done|]. eauto.
Qed.

Lemma NotifyRefill_spec c id : mshr_ok c -> live_id c id ->
  state (mshr_at c (mshr_index id)) = kPendingRefill -> victim_reservation (mshr_at c (mshr_index id)) = None ->
  let e := mshr_at c (mshr_index id) in
  exists c', NotifyRefill id c = Ok c' /\ mshr_ok c' /\
    (forall j, mshr_at c' j = if decide (j = mshr_index id) then set_state kReadyToReplay (mshr_at c j) else mshr_at c j) /\
    batches (mshr_abs c') = batches (mshr_abs c) ++ [(line_address e, sub_entries e)] /\
    forall l, waiting (mshr_abs c') l = if l =? line_address e then None else waiting (mshr_abs c) l.
Proof.
  intros Hc Hid Hs Hr e. subst e. pose proof Hid as [Ha _]. set (i := mshr_index id) in *. unfold NotifyRefill.
  rewrite (proj2 (LookupMshrEntry_spec c id) Hid). simpl. fold i. destruct (mshr_busy c Hc i Ha) as [Hq Hb].
  rewrite Hs, Hr, (bool_decide_eq_false_2 (sub_entries (mshr_at c i) = [])) by done. simpl. eexists. split; [done|].
  assert (Hi : (i < length (mshr_entries_ c))%nat) by by apply active_in. set (c' := mkCore _ _ _).
  assert (He : forall j, mshr_at c' j = if decide (j = i) then set_state kReadyToReplay (mshr_at c j) else mshr_at c j).
  { intros j. unfold c', mshr_at. simpl. rewrite nth_insert by done. fold (mshr_at c j). fold (mshr_at c i). case_decide; [by subst j|done]. }
  assert (Hnr : i ∉ ready_to_replay_ c) by (rewrite (mshr_ready c Hc); congruence).
  assert (Hok : mshr_ok c').
  { destruct Hc as [H1 H2 H3 H4 H5 H6 H7 H8].
    assert (Hact : forall j, active (mshr_at c' j) = active (mshr_at c j)).
    { intros j. rewrite He. case_decide as Ej; [|done]. subst j. rewrite Ha. done. }
    assert (Hli : forall j, line_address (mshr_at c' j) = line_address (mshr_at c j) /\
      sub_entries (mshr_at c' j) = sub_entries (mshr_at c j) /\ victim_reservation (mshr_at c' j) = victim_reservation (mshr_at c j))
      by (intros j; rewrite He; by case_decide).
    split; [unfold c'; simpl; by rewrite length_insert|..].
    - intros j k. rewrite !Hact. destruct (Hli j) as [-> _], (Hli k) as [-> _]. apply H2.
    - intros j Hj. destruct (Hli j) as (_ & -> & ->). apply H3. rewrite He in Hj. by case_decide.
    - intros j. rewrite Hact. destruct (Hli j) as (_ & -> & _). apply H4.
    - intros j. destruct (Hli j) as (_ & _ & ->). intros Hj. rewrite He. case_decide; [subst j; congruence|by apply H5].
    - intros j. unfold c' at 1. simpl. rewrite elem_of_app, list_elem_of_singleton, H6, He. case_decide as Ej; [subst j|]; simpl; naive_solver.
    - unfold c'. simpl. apply NoDup_app. split_and!; [done| |apply NoDup_singleton].
      intros x Hx Hx'. apply list_elem_of_singleton in Hx'. congruence.
    - intros j. unfold c' at 1. simpl. rewrite H8, He. case_decide as Ej; [subst j|done]. simpl. naive_solver congruence. }
  split_and!; [done|done| |].
  - simpl. unfold replay_order at 1, c' at 2 3. simpl. rewrite app_assoc, map_app. fold (replay_order c). f_equal.
    + apply map_ext_in. intros j Hj. apply list_elem_of_In in Hj. unfold batch_of. rewrite He, decide_False; [done|].
      intros ->. apply in_replay_order in Hj as [|]; congruence.
    + simpl. unfold batch_of. rewrite He, decide_True by done. done.
  - intros l. simpl. apply option_eq. intros q. rewrite abs_waiting_Some by done. split.
    + intros (j & Hsj & Hlj & Hqj). rewrite He in Hsj, Hlj, Hqj. case_decide as Ej; [done|].
      rewrite (proj2 (Z.eqb_neq _ _)); [apply abs_waiting_Some; eauto|]. intros ->. apply Ej.
      apply (mshr_lines c Hc); [apply active_true; congruence|done|done].
    + destruct (l =? _) eqn:El; [done|]. bprop. intros Hw. apply abs_waiting_Some in Hw as (j & Hsj & Hlj & Hqj); [|done].
      exists j. rewrite He, decide_False by (intros ->; done). done.
Qed.

(** ** Replays *)

Lemma StartNextReplayEntry_spec c : mshr_ok c ->
  exists c', StartNextReplayEntry c = Ok (HasReplayPacket c, c') /\ mshr_ok c' /\
    (forall j, mshr_at c' j = mshr_at c j \/
       (state (mshr_at c j) = kReadyToReplay /\ mshr_at c' j = set_state kReplaying (mshr_at c j))) /\
    batches (mshr_abs c') = batches (mshr_abs c) /\ (forall l, waiting (mshr_abs c') l = waiting (mshr_abs c) l) /\
    (HasReplayPacket c = true -> exists i, replaying_mshr_index_ c' = Some i).
Proof.
  intros Hc. unfold StartNextReplayEntry, HasReplayPacket.
  destruct (replaying_mshr_index_ c) as [i|] eqn:Er; simpl; [exists c; split_and!; eauto|].
  destruct (ready_to_replay_ c) as [|i r] eqn:Erd; simpl; [exists c; split_and!; eauto; done|].
  assert (Hs : state (mshr_at c i) = kReadyToReplay) by (apply (mshr_ready c Hc); rewrite Erd; by left).
  assert (Ha : active (mshr_at c i) = true) by (apply active_true; congruence).
  destruct (mshr_busy c Hc i Ha) as [Hq Hb]. rewrite Hs, bool_decide_eq_false_2 by done. simpl.
  eexists. split; [done|]. set (c' := mkCore _ _ _). pose proof (active_in c i Ha) as Hi.
  assert (He : forall j, mshr_at c' j = if decide (j = i) then set_state kReplaying (mshr_at c j) else mshr_at c j).
  { intros j. unfold c', mshr_at. simpl. rewrite nth_insert by done. fold (mshr_at c j). fold (mshr_at c i). case_decide; [by subst j|done]. }
  assert (Hli : forall j, line_address (mshr_at c' j) = line_address (mshr_at c j) /\
    sub_entries (mshr_at c' j) = sub_entries (mshr_at c j) /\ victim_reservation (mshr_at c' j) = victim_reservation (mshr_at c j))
    by (intros j; rewrite He; by case_decide).
  assert (Hok : mshr_ok c').
  { pose proof Hc as [H1 H2 H3 H4 H5 H6 H7 H8].
    assert (Hact : forall j, active (mshr_at c' j) = active (mshr_at c j)).
    { intros j. rewrite He. case_decide as Ej; [|done]. subst j. by rewrite Ha. }
    assert (Hnr : i ∉ r) by (rewrite Erd in H7; by apply NoDup_cons in H7 as [? _]).
    split; [unfold c'; simpl; by rewrite length_insert|..].
    - intros j k. rewrite !Hact. destruct (Hli j) as [-> _], (Hli k) as [-> _]. apply H2.
    - intros j Hj. destruct (Hli j) as (_ & -> & ->). apply H3. rewrite He in Hj. by case_decide.
    - intros j. rewrite Hact. destruct (Hli j) as (_ & -> & _). apply H4.
    - intros j. destruct (Hli j) as (_ & _ & ->). intros Hj. rewrite He. apply H5 in Hj. case_decide; [subst j; congruence|done].
    - intros j. specialize (H6 j). rewrite Erd, elem_of_cons in H6. rewrite He. unfold c' at 1. simpl.
      case_decide as Ej; [subst j|]; simpl; [|naive_solver]. split; [done|congruence].
    - unfold c'. simpl. rewrite Erd in H7. by apply NoDup_cons in H7 as [_ ?].
    - intros j. unfold c' at 1. simpl. specialize (H8 j). rewrite He. rewrite Er in H8.
      case_decide as Ej; [subst j; done|]. naive_solver. }
  split_and!; [done| | | |].
  - intros j. rewrite He. case_decide; [subst j; by right|by left].
  - change (map (batch_of c') (i :: r) = map (batch_of c) (replay_order c)).
    assert (replay_order c = i :: r) as -> by (unfold replay_order; by rewrite Er, Erd). simpl. f_equal.
    + unfold batch_of. by destruct (Hli i) as (-> & -> & _).
    + apply map_ext. intros j. unfold batch_of. by destruct (Hli j) as (-> & -> & _).
  - intros l. simpl. apply option_eq. intros q. rewrite !abs_waiting_Some by done.
    split; intros (j & Hsj & Hlj & Hqj); exists j; destruct (Hli j) as (E1 & E2 & _); rewrite He in *.
    + case_decide; done.
    + rewrite decide_False by (intros ->; congruence). done.
  - intros _. by exists i.
Qed.

(** The entry being replayed loses its first request, and is free when that was the last
    one. *)
Definition served (q : list nat) e : MshrEntry :=
  if bool_decide (q = []) then mkMshr kInvalid 0 (generation e) [] None else set_subs q e.
Definition serve c i (q : list nat) : MshrCore :=
  mkCore (<[i := served q (mshr_at c i)]> (mshr_entries_ c)) (if bool_decide (q = []) then None else Some i) (ready_to_replay_ c).
Lemma served_free e : state (served [] e) = kInvalid /\ sub_entries (served [] e) = [] /\ victim_reservation (served [] e) = None.
Proof. done. Qed.
Lemma served_kept q e : q <> [] -> state (served q e) = state e /\ sub_entries (served q e) = q /\
  victim_reservation (served q e) = victim_reservation e /\ line_address (served q e) = line_address e.
Proof. intros Hne. unfold served. by rewrite bool_decide_eq_false_2. Qed.
Lemma serve_at c i q j : (i < length (mshr_entries_ c))%nat ->
  mshr_at (serve c i q) j = if decide (j = i) then served q (mshr_at c i) else mshr_at c j.
Proof. intros. unfold serve, mshr_at. simpl. by apply nth_insert. Qed.

Lemma serve_ok c i p q : mshr_ok c -> replaying_mshr_index_ c = Some i -> sub_entries (mshr_at c i) = p :: q ->
  mshr_ok (serve c i q).
Proof.
  intros Hc Hi Eq. pose proof (proj1 (mshr_replaying c Hc i) Hi) as Hs.
  assert (Ha : active (mshr_at c i) = true) by (apply active_true; congruence).
  destruct (mshr_busy c Hc i Ha) as [_ Hbd]. rewrite Eq in Hbd. simpl in Hbd.
  assert (Hres : victim_reservation (mshr_at c i) = None).
  { destruct (victim_reservation (mshr_at c i)) eqn:Ev; [|done].
    assert (state (mshr_at c i) = kPendingRefill) by (apply (mshr_resv c Hc); congruence). congruence. }
  pose proof (fun j => serve_at c i q j (active_in c i Ha)) as He.
  pose proof Hc as [H1 H2 H3 H4 H5 H6 H7 H8].
  destruct (decide (q = [])) as [->|Hq0].
  - split; [unfold serve; simpl; by rewrite length_insert|..].
    + intros j k. rewrite !He. repeat case_decide; subst; intros Hj Hk Hjk; try done. by apply H2.
    + intros j. rewrite He. case_decide; [done|apply H3].
    + intros j. rewrite He. case_decide; [done|apply H4].
    + intros j. rewrite He. case_decide; [done|apply H5].
    + intros j. unfold serve at 1. simpl. rewrite H6, He. case_decide as Ej; [subst j; by rewrite Hs|done].
    + done.
    + intros j. unfold serve at 1. simpl. rewrite He. case_decide as Ej; [done|]. rewrite <- H8, Hi. naive_solver.
  - destruct (served_kept q (mshr_at c i) Hq0) as (Es & Eu & Ev & El).
    assert (Hact : active (served q (mshr_at c i)) = true) by (apply active_true; congruence).
    split; [unfold serve; simpl; by rewrite length_insert|..].
    + intros j k. rewrite !He. repeat case_decide; subst; intros Hj Hk Hjk; [done|apply H2; congruence..].
    + intros j. rewrite He. case_decide; [congruence|apply H3].
    + intros j. rewrite He. case_decide; [|apply H4]. rewrite Eu. intros _. split; [done|lia].
    + intros j. rewrite He. case_decide; [|apply H5]. by rewrite Ev, Hres.
    + intros j. unfold serve at 1. simpl. rewrite H6, He. case_decide as Ej; [subst j; by rewrite Es|done].
    + done.
    + intros j. unfold serve at 1. simpl. rewrite (bool_decide_eq_false_2 (q = [])) by done.
      rewrite He. case_decide as Ej; [subst j; by rewrite Es|]. by rewrite <- H8, Hi.
Qed.
Lemma serve_batches c i p q : mshr_ok c -> replaying_mshr_index_ c = Some i -> sub_entries (mshr_at c i) = p :: q ->
  batches (mshr_abs c) = (line_address (mshr_at c i), p :: q) :: map (batch_of c) (ready_to_replay_ c) /\
  batches (mshr_abs (serve c i q)) =
    (if bool_decide (q = []) then [] else [(line_address (mshr_at c i), q)]) ++ map (batch_of c) (ready_to_replay_ c).
Proof.
  intros Hc Hi Eq. pose proof (proj1 (mshr_replaying c Hc i) Hi) as Hs.
  assert (Ha : active (mshr_at c i) = true) by (apply active_true; congruence).
  assert (Hnin : i ∉ ready_to_replay_ c) by (rewrite (mshr_ready c Hc); congruence).
  pose proof (fun j => serve_at c i q j (active_in c i Ha)) as He. simpl. unfold replay_order. rewrite Hi. simpl. split.
  - unfold batch_of at 1. by rewrite Eq.
  - assert (map (batch_of (serve c i q)) (ready_to_replay_ c) = map (batch_of c) (ready_to_replay_ c)) as Hrest.
    { apply map_ext_in. intros j Hj%list_elem_of_In. unfold batch_of. rewrite He, decide_False; [done|]. by intros ->. }
    case_bool_decide as Hq0; simpl; rewrite Hrest; [done|]. f_equal. unfold batch_of. rewrite He, decide_True by done.
    destruct (served_kept q (mshr_at c i) Hq0) as (_ & -> & _ & ->). done.
Qed.

Lemma PopReplayPacket_spec c : mshr_ok c ->
  exists o c', PopReplayPacket c = Ok (o, c') /\ mshr_ok c' /\
    (forall j, mshr_at c' j = mshr_at c j \/
       (state (mshr_at c j) <> kPendingRefill /\ state (mshr_at c' j) <> kPendingRefill)) /\
    match batches (mshr_abs c) with
    | (l, p :: q) :: b => o = Some (p, bool_decide (q = [])) /\
        batches (mshr_abs c') = (if bool_decide (q = []) then b else (l, q) :: b)
    | (_, []) :: _ => False
    | [] => o = None /\ batches (mshr_abs c') = []
    end.
Proof.
  intros Hc. unfold PopReplayPacket.
  destruct (StartNextReplayEntry_spec c Hc) as (c1 & -> & Hc1 & He1 & Hb1 & _ & Hr1).
  cbn [mbind res_bind]. rewrite <- Hb1. destruct (HasReplayPacket c) eqn:Ehas; cbn [negb].
  2: { eexists _, _. split; [done|]. split_and!; [done| |].
       - intros j. destruct (He1 j) as [?|[Hs ->]]; [by left|right]. by rewrite Hs.
       - revert Hb1 Ehas. unfold HasReplayPacket, mshr_abs, replay_order. simpl.
         destruct (replaying_mshr_index_ c), (ready_to_replay_ c); simpl; try done. intros -> _. done. }
  destruct (Hr1 eq_refl) as [i Hi]. rewrite Hi. pose proof (proj1 (mshr_replaying c1 Hc1 i) Hi) as Hs.
  rewrite Hs. cbn [mbind res_bind massert bool_decide decide decide_rel MshrState_eq].
  assert (Ha : active (mshr_at c1 i) = true) by (apply active_true; congruence).
  destruct (mshr_busy c1 Hc1 i Ha) as [Hq _]. destruct (sub_entries (mshr_at c1 i)) as [|p q] eqn:Eq; [done|].
  exists (Some (p, bool_decide (q = []))), (serve c1 i q). destruct (serve_batches c1 i p q Hc1 Hi Eq) as [-> ->].
  split_and!; [|by apply (serve_ok c1 i p)| |by case_bool_decide|by case_bool_decide].
  - assert (Hres : victim_reservation (mshr_at c1 i) = None).
    { destruct (victim_reservation (mshr_at c1 i)) eqn:Ev; [|done].
      assert (state (mshr_at c1 i) = kPendingRefill) by (apply (mshr_resv c1 Hc1); congruence). congruence. }
    unfold serve, served. destruct q as [|p' q]; [unfold MshrEntry_Reset; simpl; by rewrite Hres|].
    unfold put_mshr. by rewrite Hi.
  - intros j. rewrite serve_at by by apply active_in. case_decide as Ej.
    + right. subst j. split.
      * destruct (He1 i) as [Heq|[Hs1 _]]; congruence.
      * destruct (decide (q = [])) as [->|Hq0]; [done|]. destruct (served_kept q (mshr_at c1 i) Hq0) as (-> & _). congruence.
    + destruct (He1 j) as [?|[Hs1 ->]]; [by left|right]. by rewrite Hs1.
Qed.

(** ** The refinement

    The client sees reads on their way, each with its requests and its reservation, and
    batches to replay. *)

Record Read := mkRead { rd_line : Z; rd_queue : list nat; rd_reservation : option Reservation }.
Record MshrView := mkView { reads : MshrId -> option Read; replays : list (Z * list nat) }.
Definition mshr_view c : MshrView :=
  mkView (fun id =>
      let e := mshr_at c (mshr_index id) in
      if bool_decide (state e = kPendingRefill) && (generation e =? mshr_generation id)
      then Some (mkRead (line_address e) (sub_entries e) (victim_reservation e)) else None)
    (batches (mshr_abs c)).

Inductive mshr_op := OpMiss (p : nat) (address : Z) (r : Reservation) | OpTake (id : MshrId) | OpNotify (id : MshrId) | OpPop.
Inductive mshr_event :=
  | EvPrimary (read_address : Z) (id : MshrId) | EvSecondary | EvRejected (st : ProbeStatus)
  | EvReservation (r : Reservation) | EvNotified | EvPopped (o : option (nat * bool)).
(** One call of the core; a miss is a probe followed by what it allows, as
    [MshrFile::TryAcceptMiss] does it. *)
Definition mshr_call (o : mshr_op) c : res (mshr_event * MshrCore) :=
  match o with
  | OpMiss p a r =>
      '(st, oi) ← ProbeMiss a c;
      match (st : ProbeStatus), (oi : option nat) with
      | kAcceptablePrimaryMiss, Some i => '(addr, id, c) ← AllocatePrimaryMiss i p a r c; Ok (EvPrimary addr id, c)
      | kAcceptableSecondaryMiss, Some i => c ← AddSecondaryMiss i p a c; Ok (EvSecondary, c)
      | _, _ => Ok (EvRejected st, c)
      end
  | OpTake id => '(r, c) ← TakeVictimReservation id c; Ok (EvReservation r, c)
  | OpNotify id => c ← NotifyRefill id c; Ok (EvNotified, c)
  | OpPop => '(o, c) ← PopReplayPacket c; Ok (EvPopped o, c)
  end.

(** The client takes the reservation of a read before it notifies its refill. *)
Definition mshr_allowed (v : MshrView) (o : mshr_op) : Prop :=
  match o with
  | OpTake id => exists l q r, reads v id = Some (mkRead l q (Some r))
  | OpNotify id => exists l q, reads v id = Some (mkRead l q None)
  | _ => True
  end.
Definition untracked (v : MshrView) l : Prop :=
  (forall id rd, reads v id = Some rd -> rd_line rd <> l) /\ l ∉ (replays v).*1.
Definition reads_become (v v' : MshrView) (id : MshrId) (rd : option Read) : Prop :=
  reads v' id = rd /\ forall id', id' <> id -> reads v' id' = reads v id'.
Definition mshr_spec (v : MshrView) (o : mshr_op) (ev : mshr_event) (v' : MshrView) : Prop :=
  match o, ev with
  | OpMiss p a r, EvPrimary addr id =>
      untracked v (mline a) /\ reads v id = None /\ addr = mline a *% block_size_bytes config_ /\
      reads_become v v' id (Some (mkRead (mline a) [p] (Some r))) /\ replays v' = replays v
  | OpMiss p a r, EvSecondary => exists id q r0,
      reads v id = Some (mkRead (mline a) q r0) /\ (length q < mshr_subentries config_)%nat /\
      reads_become v v' id (Some (mkRead (mline a) (q ++ [p]) r0)) /\ replays v' = replays v
  | OpMiss p a r, EvRejected st => v' = v /\
      match st with
      | kMshrFull => untracked v (mline a) /\ exists ids, NoDup ids /\
          (forall id, id ∈ ids -> reads v id <> None) /\ (length ids + length (replays v) = mshr_entries config_)%nat
      | kSubentryFull => exists id q r0, reads v id = Some (mkRead (mline a) q r0) /\ (mshr_subentries config_ <= length q)%nat
      | kStReplaying => mline a ∈ (replays v).*1
      | _ => False
      end
  | OpTake id, EvReservation r => exists l q,
      reads v id = Some (mkRead l q (Some r)) /\ reads_become v v' id (Some (mkRead l q None)) /\ replays v' = replays v
  | OpNotify id, EvNotified => exists l q,
      reads v id = Some (mkRead l q None) /\ reads_become v v' id None /\ replays v' = replays v ++ [(l, q)]
  | OpPop, EvPopped o => (forall id, reads v' id = reads v id) /\
      match replays v with
      | [] => o = None /\ replays v' = []
      | (l, []) :: _ => False
      | (l, [p]) :: b => o = Some (p, true) /\ replays v' = b
      | (l, p :: q) :: b => o = Some (p, false) /\ replays v' = (l, q) :: b
      end
  | _, _ => False
  end.

Lemma reads_Some c id rd : reads (mshr_view c) id = Some rd <->
  live_id c id /\ state (mshr_at c (mshr_index id)) = kPendingRefill /\
  rd = mkRead (line_address (mshr_at c (mshr_index id))) (sub_entries (mshr_at c (mshr_index id)))
         (victim_reservation (mshr_at c (mshr_index id))).
Proof.
  unfold mshr_view, live_id. simpl. case_bool_decide as Hs; simpl; [|naive_solver].
  destruct (_ =? _) eqn:Eg; bprop; [|naive_solver]. rewrite active_true, Hs. naive_solver.
Qed.
Lemma waiting_read c l q : mshr_ok c ->
  waiting (mshr_abs c) l = Some q -> exists id r, reads (mshr_view c) id = Some (mkRead l q r).
Proof.
  intros Hc Hw. apply abs_waiting_Some in Hw as (i & Hs & <- & <-); [|done].
  exists (mkMshrId i (generation (mshr_at c i))). eexists. apply reads_Some. simpl. split_and!; try done.
  split; [apply active_true; simpl; congruence|done].
Qed.
Lemma untracked_view c l : mshr_ok c -> ~ tracked (mshr_abs c) l -> untracked (mshr_view c) l.
Proof.
  intros Hc Hn. split.
  - intros id rd Hr <-. apply reads_Some in Hr as ([Ha _] & _ & ->). apply Hn. apply tracked_active; [done|]. simpl. eauto.
  - intros Hb. apply Hn. by right.
Qed.
(** When every entry is in use, the reads and the batches fill the table. *)
Lemma full_table c : mshr_ok c -> (forall i, (i < mshr_entries config_)%nat -> active (mshr_at c i) = true) ->
  exists ids, NoDup ids /\ (forall id, id ∈ ids -> reads (mshr_view c) id <> None) /\
    (length ids + length (replays (mshr_view c)) = mshr_entries config_)%nat.
Proof.
  intros Hc Hall. set (pend := List.filter (fun i => bool_decide (state (mshr_at c i) = kPendingRefill)) (seq 0 (mshr_entries config_))).
  assert (Hin : forall i, i ∈ pend <-> (i < mshr_entries config_)%nat /\ state (mshr_at c i) = kPendingRefill).
  { intros i. unfold pend. rewrite list_elem_of_In, filter_In, in_seq, bool_decide_eq_true. intuition lia. }
  assert (Hnd : NoDup pend) by (apply NoDup_ListNoDup, List.NoDup_filter, seq_NoDup).
  exists (map (fun i => mkMshrId i (generation (mshr_at c i))) pend). split_and!.
  - apply (NoDup_fmap_2_strong (fun i => mkMshrId i (generation (mshr_at c i)))); [|done]. intros i j _ _ Hij. by injection Hij.
  - intros id Hid. apply list_elem_of_In, in_map_iff in Hid as (i & <- & Hi). apply list_elem_of_In, Hin in Hi as [_ Hs].
    unfold mshr_view. simpl. by rewrite Hs, Z.eqb_refl.
  - unfold mshr_view. simpl. rewrite !length_map, <- length_app.
    assert (Hp : pend ++ replay_order c ≡ₚ seq 0 (mshr_entries config_)).
    { apply NoDup_Permutation; [|apply NoDup_ListNoDup, seq_NoDup|].
      - apply NoDup_app. split_and!; [done| |by apply replay_order_once].
        intros i Hi Hr. apply Hin in Hi as [_ Hi]. apply in_replay_order in Hr as [|]; congruence.
      - intros i. rewrite elem_of_app, Hin, in_replay_order, list_elem_of_In, in_seq by done. split.
        + intros [[? _]|Hs]; [lia|]. rewrite <- (mshr_len c Hc).
          assert (active (mshr_at c i) = true) by (apply active_true; destruct Hs; congruence). pose proof (active_in c i ltac:(done)). lia.
        + intros Hi. assert (Ha : active (mshr_at c i) = true) by (apply Hall; lia). apply active_true in Ha.
          destruct (state (mshr_at c i)); [done|left|right; auto|right; auto]. split; [lia|done]. }
    rewrite Hp. by rewrite length_seq.
Qed.

(** Reads after one entry has changed. *)
Lemma reads_put c c' i e id :
  (forall j, mshr_at c' j = if decide (j = i) then e else mshr_at c j) -> mshr_index id = i ->
  generation e = mshr_generation id ->
  (state (mshr_at c i) = kPendingRefill -> generation (mshr_at c i) = mshr_generation id) ->
  reads_become (mshr_view c) (mshr_view c') id
    (if bool_decide (state e = kPendingRefill) then Some (mkRead (line_address e) (sub_entries e) (victim_reservation e)) else None).
Proof.
  intros He Hi Hg Hold. split.
  - simpl. rewrite He, decide_True, Hg, Z.eqb_refl, andb_true_r by done. done.
  - intros id' Hne. simpl. rewrite He. case_decide as Ei; [|done].
    assert (Hgne : mshr_generation id' <> mshr_generation id) by (destruct id, id'; simpl in *; congruence).
    rewrite Hg, Ei, (proj2 (Z.eqb_neq (mshr_generation id) _)) by done. rewrite andb_false_r.
    case_bool_decide as Hs; [|done]. rewrite (Hold Hs), (proj2 (Z.eqb_neq _ _)) by done. done.
Qed.

Lemma mshr_miss_refines c p a r : mshr_ok c -> exists ev c', mshr_call (OpMiss p a r) c = Ok (ev, c') /\ mshr_ok c' /\
  mshr_spec (mshr_view c) (OpMiss p a r) ev (mshr_view c').
Proof.
  intros Hc. simpl. destruct (ProbeMiss_spec c a Hc) as (st & oi & -> & Hp). simpl. destruct st; simpl in Hp.
  - destruct Hp as (i & -> & Hs & Hi & Hnt).
    destruct (AllocatePrimaryMiss_spec c i p a r Hc Hs Hi Hnt) as (id & c' & -> & Hc' & Hid & Hg & He & Hb & _). simpl.
    eexists _, c'. split; [done|]. split; [done|]. split_and!; [by apply untracked_view| |done| |done].
    + destruct (reads (mshr_view c) id) eqn:Er; [|done]. apply reads_Some in Er as (_ & Hp & _). rewrite Hid in Hp. congruence.
    + apply (reads_put c c' i _ id He); [done|done|]. congruence.
  - destruct Hp as (i & -> & Hs & Hl & Hw & Hlen).
    destruct (AddSecondaryMiss_spec c i p a Hc Hs Hl Hlen) as (c' & -> & Hc' & He & Hb & _). simpl.
    eexists _, c'. split; [done|]. split; [done|].
    exists (mkMshrId i (generation (mshr_at c i))), (sub_entries (mshr_at c i)), (victim_reservation (mshr_at c i)).
    split_and!; [simpl; by rewrite Hs, Z.eqb_refl, Hl|done| |done].
    pose proof (reads_put c c' i _ (mkMshrId i (generation (mshr_at c i))) He eq_refl eq_refl ltac:(done)) as Hr.
    simpl in Hr. by rewrite Hs, Hl in Hr.
  - destruct Hp as (-> & Hnt & Hall). eexists _, c. split; [done|]. split; [done|]. split; [done|].
    split; [by apply untracked_view|by apply full_table].
  - destruct Hp as (-> & q & Hw & Hlen). eexists _, c. split; [done|]. split; [done|]. split; [done|].
    destruct (waiting_read c _ q Hc Hw) as (id & r0 & Hr). by exists id, q, r0.
  - destruct Hp as (-> & Hb). eexists _, c. by split_and!.
Qed.

(** The core implements the specification. *)
Lemma mshr_call_refines c o : mshr_ok c -> mshr_allowed (mshr_view c) o ->
  exists ev c', mshr_call o c = Ok (ev, c') /\ mshr_ok c' /\ mshr_spec (mshr_view c) o ev (mshr_view c').
Proof.
  intros Hc Ha. destruct o as [p a r|id|id|]; [by apply mshr_miss_refines|..].
  - destruct Ha as (l & q & r & Hr). pose proof Hr as Hr0. apply reads_Some in Hr as (Hid & Hs & [= -> -> Hv]). simpl.
    destruct (TakeVictimReservation_spec c id r Hc Hid Hs (eq_sym Hv)) as (c' & -> & Hc' & He & Hb & _). simpl.
    eexists _, c'. split; [done|]. split; [done|]. eexists _, _. split_and!; [exact Hr0| |done].
    pose proof (reads_put c c' (mshr_index id) (set_reservation None (mshr_at c (mshr_index id))) id) as Hrp.
    simpl in Hrp. rewrite Hs in Hrp. apply Hrp; [|done|apply Hid|intros; apply Hid].
    intros j. rewrite He. by destruct (decide (j = mshr_index id)) as [->|].
  - destruct Ha as (l & q & Hr). pose proof Hr as Hr0. apply reads_Some in Hr as (Hid & Hs & [= -> -> Hv]). simpl.
    destruct (NotifyRefill_spec c id Hc Hid Hs (eq_sym Hv)) as (c' & -> & Hc' & He & Hb & _). simpl.
    eexists _, c'. split; [done|]. split; [done|]. eexists _, _. split_and!; [exact Hr0| |done].
    pose proof (reads_put c c' (mshr_index id) (set_state kReadyToReplay (mshr_at c (mshr_index id))) id) as Hrp.
    simpl in Hrp. apply Hrp; [|done|apply Hid|intros; apply Hid].
    intros j. rewrite He. by destruct (decide (j = mshr_index id)) as [->|].
  - simpl. destruct (PopReplayPacket_spec c Hc) as (o & c' & -> & Hc' & He & Hb). simpl.
    eexists _, c'. split; [done|]. split; [done|]. split; [|].
    + intros id. simpl. destruct (He (mshr_index id)) as [He'|[Hs1 Hs2]]; [by rewrite He'|].
      rewrite (bool_decide_eq_false_2 _ Hs1), (bool_decide_eq_false_2 _ Hs2). done.
    + simpl. simpl in Hb. destruct (map (batch_of c) (replay_order c)) as [|[l [|p q]] b]; [done|done|].
      destruct Hb as [-> ->]. by destruct q.
Qed.

Lemma MshrCore_init_ok : mshr_ok MshrCore_init.
Proof.
  assert (He : forall i, mshr_at MshrCore_init i = mshr0).
  { intros i. unfold mshr_at, MshrCore_init. simpl. destruct (decide (i < mshr_entries config_)%nat).
    - apply nth_lookup_Some. by apply lookup_replicate_2.
    - apply nth_overflow. rewrite length_replicate. lia. }
  split; try (intros i; rewrite He; done).
  - simpl. apply length_replicate.
  - intros i. rewrite He. simpl. split; [|done]. intros Hn. by apply elem_of_nil in Hn.
  - by apply NoDup_nil.
Qed.
(** The states that calls of a well-behaved client lead to. *)
Inductive mshr_reach : MshrCore -> Prop :=
  | mshr_start : mshr_reach MshrCore_init
  | mshr_next c o ev c' : mshr_reach c -> mshr_allowed (mshr_view c) o -> mshr_call o c = Ok (ev, c') -> mshr_reach c'.
Lemma mshr_reach_ok c : mshr_reach c -> mshr_ok c.
Proof.
  induction 1 as [|c o ev c' _ IH Ha Hcall]; [apply MshrCore_init_ok|].
  destruct (mshr_call_refines c o IH Ha) as (ev1 & c1 & Hcall1 & Hc1 & _). by rewrite Hcall in Hcall1; injection Hcall1 as -> <-.
Qed.

(** C26. The miss registers implement their specification from the first call on: a miss
    starts a read of an untracked line under a fresh identity with its reservation, joins
    the read of its line, or is refused for the reason given, a full table included; the
    reservation and then the refill of a read are handed over once; the requests of a
    line are replayed in the order of their misses, lines in the order of their refills,
    the last request of a line marked. No assertion fails. *)
Theorem mshr_refines c o : mshr_reach c -> mshr_allowed (mshr_view c) o ->
  exists ev c', mshr_call o c = Ok (ev, c') /\ mshr_spec (mshr_view c) o ev (mshr_view c').
Proof.
  intros Hc Ha. destruct (mshr_call_refines c o (mshr_reach_ok c Hc) Ha) as (ev & c' & Hcall & _ & Hs). eauto.
Qed.
End core.

(** ** An example: two entries of two requests *)

Definition mshr_example : Param := mkParam kLRU kWriteBack kWriteAllocate 32 8 2 2 2 2 2 2 [] true 0.
Fixpoint mshr_calls (os : list mshr_op) (c : MshrCore) : res (list mshr_event * MshrCore) :=
  match os with
  | [] => Ok ([], c)
  | o :: os => '(ev, c) ← mshr_call mshr_example o c; '(evs, c) ← mshr_calls os c; Ok (ev :: evs, c)
  end.
(** Two requests for line 2, one for line 5; line 5 returns first; a third line finds
    the table full; line 5 is replayed. *)
Definition example_calls : list mshr_op :=
  [OpMiss 1 16 (mkReservation 0 1); OpMiss 2 20 (mkReservation 9 9); OpMiss 3 40 (mkReservation 1 1);
   OpMiss 4 64 (mkReservation 9 9); OpTake (mkMshrId 1 1); OpNotify (mkMshrId 1 1);
   OpTake (mkMshrId 0 1); OpNotify (mkMshrId 0 1); OpPop].
Example mshr_example_run : fst <$> (match mshr_calls example_calls (MshrCore_init mshr_example) with Ok r => Some r | _ => None end) =
  Some [EvPrimary 16 (mkMshrId 0 1); EvSecondary; EvPrimary 40 (mkMshrId 1 1); EvRejected kMshrFull;
        EvReservation (mkReservation 1 1); EvNotified; EvReservation (mkReservation 0 1); EvNotified; EvPopped (Some (3%nat, true))].
Proof. vm_compute. reflexivity. Qed.
Definition mshr_one : MshrCore :=
  mkCore [mkMshr kPendingRefill 2 1 [1%nat] (Some (mkReservation 0 1)); mshr0] None [].
Definition mshr_two : MshrCore :=
  mkCore [mkMshr kPendingRefill 2 1 [1%nat; 2%nat] (Some (mkReservation 0 1)); mshr0] None [].
Lemma mshr_refines_witness :
  (mshr_reach mshr_example mshr_two /\ mshr_allowed (mshr_view mshr_two) (OpTake (mkMshrId 0 1))) /\
  exists ev c', mshr_call mshr_example (OpTake (mkMshrId 0 1)) mshr_two = Ok (ev, c') /\
    mshr_spec mshr_example (mshr_view mshr_two) (OpTake (mkMshrId 0 1)) ev (mshr_view c').
Proof.
  assert (Hr : mshr_reach mshr_example mshr_two).
  { apply (mshr_next mshr_example mshr_one (OpMiss 2 20 (mkReservation 9 9)) EvSecondary); [|done|vm_compute; reflexivity].
    apply (mshr_next mshr_example (MshrCore_init mshr_example) (OpMiss 1 16 (mkReservation 0 1)) (EvPrimary 16 (mkMshrId 0 1)));
      [apply mshr_start|done|vm_compute; reflexivity]. }
  assert (Ha : mshr_allowed (mshr_view mshr_two) (OpTake (mkMshrId 0 1))) by (eexists _, _, _; vm_compute; reflexivity).
  split; [exact (conj Hr Ha)|]. exact (mshr_refines mshr_example _ _ Hr Ha).
Defined.
