(* ===== verification/SimVictim.v ===== *)
(** * The victim buffer of the simulated cache (simtix/src/cache/victim_buffer.{h,cc})

    It gives every miss that starts a read a place for the dirty line its refill may
    displace: the place is reserved, then filled with a write or given back. It is a
    SystemC module with a method per clock edge; the queues it is bound to are arguments,
    packets are named by their address, and [pkts] holds their contents. A packet that is
    released to its pool is part of the result. The theorem is that it implements a
    contract stated with the reservations its users hold and the packets they gave it. *)

From stdpp Require Import gmap.
From S2P Require Import Prelude SimFifo SimPacket SimMshr.

(** ** The victim buffer *)

Inductive VictimState := kFree | kReserved | kCommitted | kInflight.
#[global] Instance VictimState_eq : EqDecision VictimState.
Proof. solve_decision. Defined.
Record VictimEntry := mkVEntry { v_state : VictimState; v_generation : Z; v_packet : option nat }.
#[global] Instance VictimEntry_eq : EqDecision VictimEntry.
Proof. solve_decision. Defined.
Record VictimBuffer := mkVBuf { entries_ : list VictimEntry; v_inflight : gmap gp_ptr nat }.
Definition ventry0 : VictimEntry := mkVEntry kFree 0 None.

Section victim.
Context (config_ : Param).
Implicit Types (v : VictimBuffer) (e : VictimEntry) (r : Reservation) (pkts : gmap nat Packet) (i p : nat).

Definition VictimBuffer_init : res VictimBuffer :=
  massert (0 <? victim_buffer_entries config_)%nat;;
  Ok (mkVBuf (replicate (victim_buffer_entries config_) ventry0) ∅).
Definition ventry v i : VictimEntry := nth i (entries_ v) ventry0.
Definition put_ventry i e v : VictimBuffer := mkVBuf (<[i := e]> (entries_ v)) (v_inflight v).
Definition in_state (s : VictimState) e : bool := bool_decide (v_state e = s).

Definition ReservedEntryCount v : nat := countb (in_state kReserved) (entries_ v).
Definition CommittedEntryCount v : nat := countb (in_state kCommitted) (entries_ v).
Definition v_InflightEntryCount v : nat := size (v_inflight v).
Definition v_HasPendingWork v : bool :=
  negb (ReservedEntryCount v + CommittedEntryCount v + v_InflightEntryCount v =? 0)%nat.
Definition entry_consistent e : bool :=
  match v_state e with
  | kReserved => bool_decide (v_packet e = None)
  | kCommitted | kInflight => negb (bool_decide (v_packet e = None))
  | kFree => true
  end.
Definition v_CheckInvariants v : res unit :=
  massert (forallb entry_consistent (entries_ v));;
  massert (countb (fun e => negb (in_state kFree e)) (entries_ v) <=? victim_buffer_entries config_)%nat;;
  massert (countb (in_state kInflight) (entries_ v) =? size (v_inflight v))%nat.

Definition TryReserve v : res (option Reservation * VictimBuffer) :=
  match find_first (fun i => in_state kFree (ventry v i)) (length (entries_ v)) with
  | None => Ok (None, v)
  | Some i =>
      let g := v_generation (ventry v i) +% 1 in
      let v := put_ventry i (mkVEntry kReserved g None) v in
      v_CheckInvariants v;;
      Ok (Some (mkReservation i g), v)
  end.
Definition v_Lookup r v : res nat :=
  if (length (entries_ v) <=? res_index r)%nat then Err OutOfRange
  else massert (v_generation (ventry v (res_index r)) =? res_generation r);; Ok (res_index r).
Definition Commit r p pkts v : res VictimBuffer :=
  massert (type_is pkts p kVictimWriteReq);;
  i ← v_Lookup r v;
  let e := ventry v i in
  massert (in_state kReserved e);; massert (bool_decide (v_packet e = None));;
  let v := put_ventry i (mkVEntry kCommitted (v_generation e) (Some p)) v in
  v_CheckInvariants v;; Ok v.
Definition Cancel r v : res VictimBuffer :=
  i ← v_Lookup r v;
  let e := ventry v i in
  massert (in_state kReserved e);; massert (bool_decide (v_packet e = None));;
  let v := put_ventry i (mkVEntry kFree (v_generation e) (v_packet e)) v in
  v_CheckInvariants v;; Ok v.

Definition v_ProcessMemResp pkts (mem_resp_in : tlm_fifo nat) v
    : res (option nat * tlm_fifo nat * VictimBuffer) :=
  match nb_get mem_resp_in with
  | None => Ok (None, mem_resp_in, v)
  | Some (p, mem_resp_in) =>
      massert (type_is pkts p kVictimWriteResp);;
      g ← gp_of pkts p;
      match v_inflight v !! g with
      | None => Err Assertion
      | Some i =>
          if (length (entries_ v) <=? i)%nat then Err OutOfRange
          else
            let e := ventry v i in
            massert (in_state kInflight e);; massert (bool_decide (v_packet e = Some p));;
            Ok (Some p, mem_resp_in,
                mkVBuf (<[i := mkVEntry kFree (v_generation e) None]> (entries_ v)) (delete g (v_inflight v)))
      end
  end.
Definition v_ProcessMemReq pkts (mem_req_out : tlm_fifo nat) v : res (tlm_fifo nat * VictimBuffer) :=
  if negb (nb_can_put mem_req_out) then Ok (mem_req_out, v)
  else match find_first (fun i => in_state kCommitted (ventry v i)) (length (entries_ v)) with
       | None => Ok (mem_req_out, v)
       | Some i =>
           let e := ventry v i in
           match v_packet e, nb_put (default 0%nat (v_packet e)) mem_req_out with
           | Some p, Some mem_req_out =>
               g ← gp_of pkts p;
               massert (bool_decide (v_inflight v !! g = None));;
               Ok (mem_req_out,
                   mkVBuf (<[i := mkVEntry kInflight (v_generation e) (Some p)]> (entries_ v))
                     (<[g := i]> (v_inflight v)))
           | _, _ => Err Assertion
           end
       end.
(** [Tick]: the released packet, the two queues, the buffer. *)
Definition v_Tick pkts (mem_req_out mem_resp_in : tlm_fifo nat) v
    : res (option nat * tlm_fifo nat * tlm_fifo nat * VictimBuffer) :=
  '(released, mem_resp_in, v) ← v_ProcessMemResp pkts mem_resp_in v;
  '(mem_req_out, v) ← v_ProcessMemReq pkts mem_req_out v;
  v_CheckInvariants v;;
  Ok (released, mem_req_out, mem_resp_in, v).
End victim.
(** ** The victim buffer keeps its promises *)

Section victim_ok.
Context (config_ : Param).
Implicit Types (v : VictimBuffer) (e : VictimEntry) (r : Reservation) (pkts : gmap nat Packet) (i p : nat).

Record vb_ok pkts v : Prop := {
  vb_len : length (entries_ v) = victim_buffer_entries config_;
  vb_entry : forall i, match v_state (ventry v i) with
    | kFree | kReserved => v_packet (ventry v i) = None
    | kCommitted | kInflight => exists p g, v_packet (ventry v i) = Some p /\ gp_of pkts p = Ok g
    end;
  vb_map : forall g i, v_inflight v !! g = Some i <->
    v_state (ventry v i) = kInflight /\ exists p, v_packet (ventry v i) = Some p /\ gp_of pkts p = Ok g;
  vb_apart : forall i j p q, v_packet (ventry v i) = Some p -> v_packet (ventry v j) = Some q ->
    gp_of pkts p = gp_of pkts q -> i = j;
  vb_count : countb (in_state kInflight) (entries_ v) = size (v_inflight v)
}.
(** A reservation is good while its entry is reserved under its generation. *)
Definition reserved v r : Prop :=
  v_state (ventry v (res_index r)) = kReserved /\ v_generation (ventry v (res_index r)) = res_generation r.

Lemma ventry_out v i : (length (entries_ v) <= i)%nat -> ventry v i = ventry0.
Proof. intros. unfold ventry. by apply nth_overflow. Qed.
Lemma ventry_in v i : v_state (ventry v i) <> kFree -> (i < length (entries_ v))%nat.
Proof.
  intros Hs. destruct (decide (i < length (entries_ v))%nat); [done|]. by rewrite ventry_out in Hs by lia.
Qed.
Lemma ventry_put v i j e : (i < length (entries_ v))%nat ->
  ventry (put_ventry i e v) j = if decide (j = i) then e else ventry v j.
Proof. intros. unfold ventry, put_ventry. simpl. by apply nth_insert. Qed.
Lemma ventry_lookup v i : (i < length (entries_ v))%nat -> entries_ v !! i = Some (ventry v i).
Proof. apply nth_lookup_lt. Qed.

Lemma v_check pkts v : vb_ok pkts v -> v_CheckInvariants config_ v = Ok tt.
Proof.
  intros Hv. unfold v_CheckInvariants.
  assert (forallb entry_consistent (entries_ v) = true) as ->.
  { apply forallb_forall. intros e He. apply list_elem_of_In, list_elem_of_lookup in He as [i Hi].
    pose proof (vb_entry pkts v Hv i) as Hent. unfold ventry in Hent. rewrite (nth_lookup_Some _ _ _ _ Hi) in Hent.
    unfold entry_consistent. destruct (v_state e); [done|by rewrite Hent|..]; destruct Hent as (p & g & -> & _); done. }
  pose proof (countb_le (fun e => negb (in_state kFree e)) (entries_ v)) as Hle. rewrite (vb_len pkts v Hv) in Hle.
  simpl. rewrite (proj2 (Nat.leb_le _ _) Hle). simpl. by rewrite (vb_count pkts v Hv), Nat.eqb_refl.
Qed.

(** Entry [i], which is in no flight, moves to another state that is in no flight. *)
Lemma vb_put pkts v i e : vb_ok pkts v -> (i < length (entries_ v))%nat ->
  v_state (ventry v i) <> kInflight -> v_state e <> kInflight ->
  match v_state e with
  | kFree | kReserved => v_packet e = None
  | _ => exists p g, v_packet e = Some p /\ gp_of pkts p = Ok g
  end ->
  (forall j p q, j <> i -> v_packet e = Some p -> v_packet (ventry v j) = Some q -> gp_of pkts p <> gp_of pkts q) ->
  vb_ok pkts (put_ventry i e v).
Proof.
  intros Hv Hi Hs He Hent Hap. pose proof (fun j => ventry_put v i j e Hi) as Hj.
  destruct Hv as [H1 H2 H3 H4 H5]. split.
  - unfold put_ventry. simpl. by rewrite length_insert.
  - intros j. rewrite Hj. case_decide; [by destruct (v_state e)|apply H2].
  - intros g j. rewrite Hj. change (v_inflight (put_ventry i e v)) with (v_inflight v). rewrite H3.
    case_decide as Ej; [subst j|done]. split; intros [? _]; done.
  - intros j k p q. rewrite !Hj. repeat case_decide; subst; intros Hp Hq Heq; [done| | |by apply (H4 j k p q)].
    + exfalso. by apply (Hap k p q).
    + exfalso. by apply (Hap j q p).
  - unfold put_ventry. simpl. rewrite <- H5. pose proof (countb_insert (in_state kInflight) _ i _ e (ventry_lookup v i Hi)) as Hc.
    unfold in_state in Hc at 2 4. rewrite !bool_decide_eq_false_2 in Hc by done. lia.
Qed.

Lemma TryReserve_spec pkts v : vb_ok pkts v -> exists o v', TryReserve config_ v = Ok (o, v') /\ vb_ok pkts v' /\
  match o with
  | Some r => ~ reserved v r /\ v_state (ventry v (res_index r)) = kFree /\ (res_index r < length (entries_ v))%nat /\
      v' = put_ventry (res_index r) (mkVEntry kReserved (res_generation r) None) v
  | None => v' = v /\ forall i, (i < victim_buffer_entries config_)%nat -> v_state (ventry v i) <> kFree
  end.
Proof.
  intros Hv. unfold TryReserve. destruct (find_first _ _) as [i|] eqn:Ef.
  - apply find_first_Some in Ef as (Hi & Hs & _). unfold in_state in Hs. apply bool_decide_eq_true in Hs.
    set (g := v_generation (ventry v i) +% 1). set (e := mkVEntry kReserved g None).
    assert (Hok : vb_ok pkts (put_ventry i e v)) by (apply vb_put; simpl; congruence).
    rewrite (v_check pkts _ Hok). simpl. eexists _, _. split; [done|]. simpl. split_and!; try done.
    unfold reserved. simpl. intros [Hr _]. congruence.
  - exists None, v. split_and!; try done. intros i Hi Hs. rewrite <- (vb_len pkts v Hv) in Hi.
    pose proof (proj1 (find_first_None _ _) Ef i Hi) as Hn. unfold in_state in Hn. by apply bool_decide_eq_false in Hn.
Qed.
Lemma v_Lookup_spec v r : reserved v r -> v_Lookup r v = Ok (res_index r).
Proof.
  intros [Hs Hg]. unfold v_Lookup. rewrite (proj2 (Nat.leb_gt _ _)) by (apply ventry_in; congruence).
  by rewrite Hg, Z.eqb_refl.
Qed.
Lemma Commit_spec pkts v r p g : vb_ok pkts v -> reserved v r -> type_is pkts p kVictimWriteReq = true ->
  gp_of pkts p = Ok g -> (forall j q, v_packet (ventry v j) = Some q -> gp_of pkts q <> Ok g) ->
  Commit config_ r p pkts v = Ok (put_ventry (res_index r) (mkVEntry kCommitted (res_generation r) (Some p)) v) /\
  vb_ok pkts (put_ventry (res_index r) (mkVEntry kCommitted (res_generation r) (Some p)) v).
Proof.
  intros Hv Hr Ht Hg Hap. pose proof Hr as [Hs Hgen]. pose proof (vb_entry pkts v Hv (res_index r)) as Hent. rewrite Hs in Hent.
  unfold Commit. rewrite Ht, v_Lookup_spec by done. simpl. rewrite Hent. unfold in_state. rewrite Hs. simpl. rewrite Hgen.
  assert (Hok : vb_ok pkts (put_ventry (res_index r) (mkVEntry kCommitted (res_generation r) (Some p)) v)).
  { apply vb_put; simpl; try congruence; [apply ventry_in; congruence|eauto|].
    intros j p' q Hj [= <-] Hq Heq. apply (Hap j q Hq). congruence. }
  rewrite (v_check pkts _ Hok). done.
Qed.
Lemma Cancel_spec pkts v r : vb_ok pkts v -> reserved v r ->
  Cancel config_ r v = Ok (put_ventry (res_index r) (mkVEntry kFree (res_generation r) None) v) /\
  vb_ok pkts (put_ventry (res_index r) (mkVEntry kFree (res_generation r) None) v).
Proof.
  intros Hv Hr. pose proof Hr as [Hs Hgen]. pose proof (vb_entry pkts v Hv (res_index r)) as Hent. rewrite Hs in Hent.
  unfold Cancel. rewrite v_Lookup_spec by done. simpl. rewrite Hent. unfold in_state. rewrite Hs. simpl. rewrite Hgen.
  assert (Hok : vb_ok pkts (put_ventry (res_index r) (mkVEntry kFree (res_generation r) None) v)).
  { apply vb_put; simpl; try congruence. apply ventry_in; congruence. }
  rewrite (v_check pkts _ Hok). done.
Qed.

Lemma v_ProcessMemResp_spec pkts (f : tlm_fifo nat) v : vb_ok pkts v -> fifo_ok f ->
  (forall p, nb_peek f = Some p -> type_is pkts p kVictimWriteResp = true /\
     exists i, v_state (ventry v i) = kInflight /\ v_packet (ventry v i) = Some p) ->
  exists f' v', v_ProcessMemResp pkts f v = Ok (nb_peek f, f', v') /\ fifo_ok f' /\ vb_ok pkts v' /\
  match nb_peek f with
  | None => f' = f /\ v' = v
  | Some p => buffer f = p :: buffer f' /\ exists i, v_state (ventry v i) = kInflight /\ v_packet (ventry v i) = Some p /\
      entries_ v' = entries_ (put_ventry i (mkVEntry kFree (v_generation (ventry v i)) None) v)
  end.
Proof.
  intros Hv Hf Hc. unfold v_ProcessMemResp. destruct (nb_can_get f) eqn:Eg.
  2:{ pose proof Eg as Eg'. apply nb_can_get_false in Eg as [-> ->]. by exists f, v. }
  destruct (nb_get_spec f Hf Eg) as (p & b & Hb & Hp & Hget). rewrite Hget, Hp. destruct (Hc p Hp) as (Ht & i & Hs & Hpk).
  rewrite Ht. simpl. pose proof (vb_entry pkts v Hv i) as Hent. rewrite Hs in Hent. destruct Hent as (p' & g & Hp' & Hg).
  rewrite Hpk in Hp'. injection Hp' as <-. rewrite Hg. simpl.
  assert (Hm : v_inflight v !! g = Some i) by (apply (vb_map pkts v Hv); eauto).
  assert (Hi : (i < length (entries_ v))%nat) by (apply ventry_in; congruence).
  rewrite Hm, (proj2 (Nat.leb_gt _ _)) by lia. unfold in_state. rewrite Hs, Hpk, !bool_decide_eq_true_2 by done. simpl.
  eexists _, _. split; [done|]. pose proof (nb_get_ok _ _ _ Hf Hget) as (Hf' & Hb' & _). split; [done|]. split; [|split; [done|by exists i]].
  set (e := mkVEntry kFree (v_generation (ventry v i)) None).
  pose proof (fun j => ventry_put v i j e Hi) as Hj. destruct Hv as [H1 H2 H3 H4 H5].
  assert (Hv' : forall j, ventry (mkVBuf (<[i := e]> (entries_ v)) (delete g (v_inflight v))) j = ventry (put_ventry i e v) j) by done.
  split.
  - simpl. by rewrite length_insert.
  - intros j. rewrite Hv', Hj. case_decide; [done|apply H2].
  - intros g' j. rewrite Hv', Hj. simpl. rewrite lookup_delete_Some, H3. case_decide as Ej; [subst j|].
    + split; [|by intros [[=] _]]. intros [Hne [_ (q & Hq & Hgq)]]. rewrite Hpk in Hq. injection Hq as <-. congruence.
    + split; [by intros [_ ?]|]. intros [Hsj (q & Hq & Hgq)]. split; [|split; [done|by exists q]].
      intros <-. apply Ej. apply (H4 j i q p Hq Hpk). congruence.
  - intros j k p' q. rewrite !Hv', !Hj. repeat case_decide; subst; try done. apply H4.
  - cbn [entries_ v_inflight]. pose proof (countb_insert (in_state kInflight) _ i _ e (ventry_lookup v i Hi)) as Hn.
    assert (in_state kInflight (ventry v i) = true) as E by (unfold in_state; by rewrite Hs).
    rewrite E in Hn. change (in_state kInflight e) with false in Hn.
    assert (size (delete g (v_inflight v)) = pred (size (v_inflight v))) as -> by (apply map_size_delete_Some; eauto).
    rewrite <- H5. cbn iota in Hn. lia.
Qed.

Lemma v_ProcessMemReq_spec pkts (f : tlm_fifo nat) v : vb_ok pkts v -> fifo_ok f ->
  exists f' v', v_ProcessMemReq pkts f v = Ok (f', v') /\ fifo_ok f' /\ vb_ok pkts v' /\
  ((f' = f /\ v' = v /\ (nb_can_put f = false \/ forall i, v_state (ventry v i) <> kCommitted)) \/
   exists i p, v_state (ventry v i) = kCommitted /\ v_packet (ventry v i) = Some p /\ nb_can_put f = true /\
     buffer f' = buffer f ++ [p] /\ entries_ v' = entries_ (put_ventry i (mkVEntry kInflight (v_generation (ventry v i)) (Some p)) v)).
Proof.
  intros Hv Hf. unfold v_ProcessMemReq. destruct (nb_can_put f) eqn:Ec; simpl; [|exists f, v; eauto 10].
  destruct (find_first _ _) as [i|] eqn:Ef.
  2:{ exists f, v. split_and!; try done. left. split_and!; try done. right. intros i Hs.
      pose proof (proj1 (find_first_None _ _) Ef i) as Hn. unfold in_state in Hn. rewrite Hs in Hn.
      discriminate Hn. apply ventry_in. congruence. }
  apply find_first_Some in Ef as (Hi & Hs & _). unfold in_state in Hs. apply bool_decide_eq_true in Hs.
  pose proof (vb_entry pkts v Hv i) as Hent. rewrite Hs in Hent. destruct Hent as (p & g & Hpk & Hg).
  rewrite Hpk. cbn [default option_rect]. simpl. rewrite (nb_put_can f p Ec), Hg. simpl.
  set (e := mkVEntry kInflight (v_generation (ventry v i)) (Some p)).
  pose proof (nb_put_ok f p _ Hf (nb_put_can f p Ec)) as (Hf' & Hb' & _).
  pose proof (fun j => ventry_put v i j e Hi) as Hj. destruct Hv as [H1 H2 H3 H4 H5].
  assert (Hm : v_inflight v !! g = None).
  { destruct (v_inflight v !! g) as [j|] eqn:E; [|done]. apply H3 in E as (Hsj & q & Hq & Hgq).
    assert (i = j) as <- by (apply (H4 i j p q Hpk Hq); congruence). congruence. }
  rewrite Hm. simpl. eexists _, _. split; [done|]. split; [done|]. split; [|right; by exists i, p].
  assert (Hv' : forall j, ventry (mkVBuf (<[i := e]> (entries_ v)) (<[g := i]> (v_inflight v))) j = ventry (put_ventry i e v) j) by done.
  split.
  - simpl. by rewrite length_insert.
  - intros j. rewrite Hv', Hj. case_decide; [by exists p, g|apply H2].
  - intros g' j. rewrite Hv', Hj. cbn [v_inflight]. rewrite lookup_insert_Some, H3. case_decide as Ej; [subst j|].
    + split.
      * intros [[<- _]|[Hne [Hsi _]]]; [by split; [|exists p]|congruence].
      * intros [_ (q & [= <-] & Hgq)]. left. split; congruence.
    + split; [intros [[_ ?]|[_ ?]]; [congruence|done]|]. intros [Hsj (q & Hq & Hgq)]. right. split; [|split; [done|by exists q]].
      intros <-. apply Ej. apply (H4 j i q p Hq Hpk). congruence.
  - intros j k p' q. rewrite !Hv', !Hj. repeat case_decide; subst; try done.
    + intros [= <-] Hq Heq. by apply (H4 i k p q).
    + intros Hq [= <-] Heq. by apply (H4 j i p' p).
    + apply H4.
  - cbn [entries_ v_inflight]. pose proof (countb_insert (in_state kInflight) _ i _ e (ventry_lookup v i Hi)) as Hn.
    assert (in_state kInflight (ventry v i) = false) as E by (unfold in_state; by rewrite Hs).
    rewrite E in Hn. change (in_state kInflight e) with true in Hn.
    rewrite map_size_insert_None by done. rewrite <- H5. cbn iota in Hn. lia.
Qed.

(** ** What the users of the buffer see of it *)

(** The values [h] finds in the entries, in the order of the entries. *)
Definition slots {B} (h : nat -> VictimEntry -> option B) v : list B :=
  omap (fun i => h i (ventry v i)) (seq 0 (length (entries_ v))).
Definition live_of i e : option Reservation :=
  if in_state kReserved e then Some (mkReservation i (v_generation e)) else None.
Definition waiting_of (_ : nat) e : option nat := if in_state kCommitted e then v_packet e else None.
Definition inflight_of (_ : nat) e : option nat := if in_state kInflight e then v_packet e else None.
Definition used_of i e : option nat := if in_state kFree e then None else Some i.

Lemma omap_app_cons {A B} (f : A -> option B) x l : omap f (x :: l) = option_list (f x) ++ omap f l.
Proof. simpl. by destruct (f x). Qed.
Lemma slots_put {B} (h : nat -> VictimEntry -> option B) v v' i e : (i < length (entries_ v))%nat ->
  entries_ v' = entries_ (put_ventry i e v) ->
  option_list (h i (ventry v i)) ++ slots h v' ≡ₚ option_list (h i e) ++ slots h v.
Proof.
  intros Hi Hv'. unfold slots. assert (length (entries_ v') = length (entries_ v)) as ->
    by (rewrite Hv'; unfold put_ventry; simpl; apply length_insert).
  assert (Hx : forall j, ventry v' j = if decide (j = i) then e else ventry v j).
  { intros j. rewrite <- (ventry_put v i j e Hi). unfold ventry. by rewrite Hv'. }
  set (n := length (entries_ v)) in *. assert (Hin : i ∈ seq 0 n) by (apply elem_of_seq; lia).
  pose proof (NoDup_seq 0 n) as Hnd. clearbody n. revert Hin Hnd. generalize (seq 0 n). intros l.
  induction l as [|j l IH]; intros Hin Hnd; [by apply not_elem_of_nil in Hin|].
  apply NoDup_cons in Hnd as [Hj Hnd]. destruct (decide (j = i)) as [->|Hne].
  - assert (omap (fun k => h k (ventry v' k)) l = omap (fun k => h k (ventry v k)) l) as E.
    { apply list_omap_ext, Forall2_same_length_lookup_2; [done|]. intros m x y Hx1 Hx2.
      assert (x = y) as <- by congruence. rewrite Hx, decide_False; [done|]. intros ->. by apply Hj, list_elem_of_lookup_2 with m. }
    rewrite !omap_app_cons, E, Hx, decide_True, !(assoc_L (++)) by done. apply Permutation_app_tail, Permutation_app_comm.
  - apply elem_of_cons in Hin as [->|Hin]; [done|]. specialize (IH Hin Hnd). rewrite !omap_app_cons, Hx, decide_False by done.
    rewrite !(Permutation_app_swap_app _ (option_list (h j _))), IH. done.
Qed.

Lemma elem_of_slots {B} (h : nat -> VictimEntry -> option B) v x :
  x ∈ slots h v <-> exists i, (i < length (entries_ v))%nat /\ h i (ventry v i) = Some x.
Proof.
  unfold slots. rewrite list_elem_of_omap. split; intros (i & Hi & Hx).
  - apply elem_of_seq in Hi. exists i. split; [lia|done].
  - exists i. split; [apply elem_of_seq; lia|done].
Qed.
Lemma live_reserved v r : r ∈ slots live_of v <-> reserved v r.
Proof.
  rewrite elem_of_slots. unfold live_of, in_state, reserved. split.
  - intros (i & _ & Hx). case_bool_decide as Hs; [|done]. by injection Hx as <-.
  - intros [Hs Hg]. exists (res_index r). split; [apply ventry_in; congruence|]. rewrite bool_decide_eq_true_2 by done.
    rewrite Hg. by destruct r.
Qed.
Lemma elem_of_packets s v p : p ∈ slots (fun _ e => if in_state s e then v_packet e else None) v <->
  exists i, (i < length (entries_ v))%nat /\ v_state (ventry v i) = s /\ v_packet (ventry v i) = Some p.
Proof.
  rewrite elem_of_slots. unfold in_state. split.
  - intros (i & Hi & Hx). exists i. case_bool_decide; done.
  - intros (i & Hi & Hs & Hp). exists i. by rewrite bool_decide_eq_true_2.
Qed.

Lemma used_count pkts v : vb_ok pkts v ->
  length (slots used_of v) = (length (slots live_of v) + length (slots waiting_of v) + length (slots inflight_of v))%nat.
Proof.
  intros Hv. unfold slots. generalize (seq 0 (length (entries_ v))). intros l. induction l as [|i l IH]; [done|].
  rewrite !omap_app_cons, !length_app, IH. pose proof (vb_entry pkts v Hv i) as Hent.
  unfold used_of, live_of, waiting_of, inflight_of, in_state. destruct (v_state (ventry v i)) eqn:Hs; simpl; try lia;
    destruct Hent as (p & g & -> & _); simpl; lia.
Qed.
Lemma used_le v : (length (slots used_of v) <= length (entries_ v))%nat.
Proof.
  unfold slots. rewrite <- (length_seq (length (entries_ v)) 0) at 2. generalize (seq 0 (length (entries_ v))).
  intros l. induction l as [|i l IH]; [done|]. rewrite omap_app_cons, length_app. destruct (used_of i (ventry v i)); simpl; lia.
Qed.
Lemma used_full v : (forall i, (i < length (entries_ v))%nat -> v_state (ventry v i) <> kFree) ->
  length (slots used_of v) = length (entries_ v).
Proof.
  intros H. assert (slots used_of v = seq 0 (length (entries_ v))) as ->; [|apply length_seq].
  unfold slots. assert (Hin : forall i, i ∈ seq 0 (length (entries_ v)) -> v_state (ventry v i) <> kFree).
  { intros i Hi. apply elem_of_seq in Hi. apply H. lia. }
  revert Hin. generalize (seq 0 (length (entries_ v))). intros l Hin. induction l as [|i l IH]; [done|].
  rewrite omap_app_cons, IH by (intros; apply Hin; by right). unfold used_of at 1, in_state.
  by rewrite bool_decide_eq_false_2 by (apply Hin; left).
Qed.
End victim_ok.

(** ** The contract of the victim buffer

    What has happened so far: every reservation handed out, those whose holder has not used
    them yet, the packets that wait for memory, and those memory has not answered. *)

Record vhistory := mkHistory { issued : list Reservation; live : list Reservation; waiting : list nat; sent : list nat }.
Inductive vcall :=
  | VReserve | VCommit (r : Reservation) (p : nat) | VCancel (r : Reservation)
  | VTick (mem_req_out mem_resp_in : tlm_fifo nat).
Inductive vanswer :=
  | Reserved (o : option Reservation) | Done | Ticked (released : option nat) (mem_req_out mem_resp_in : tlm_fifo nat).

Section contract.
Context (config_ : Param).
Implicit Types (v : VictimBuffer) (h : vhistory) (r : Reservation) (pkts : gmap nat Packet) (p : nat).

Definition vrun pkts (c : vcall) v : res (vanswer * VictimBuffer) :=
  match c with
  | VReserve => '(o, v) ← TryReserve config_ v; Ok (Reserved o, v)
  | VCommit r p => v ← Commit config_ r p pkts v; Ok (Done, v)
  | VCancel r => v ← Cancel config_ r v; Ok (Done, v)
  | VTick out inp => '(rel, out, inp, v) ← v_Tick config_ pkts out inp v; Ok (Ticked rel out inp, v)
  end.
(** Its users use a reservation they hold, with a write whose payload is not in the buffer; memory
    answers what it was sent. *)
Definition vpermitted pkts h (c : vcall) : Prop :=
  match c with
  | VReserve => True
  | VCommit r p => r ∈ live h /\ type_is pkts p kVictimWriteReq = true /\
      exists g, gp_of pkts p = Ok g /\ forall q, q ∈ waiting h ++ sent h -> gp_of pkts q <> Ok g
  | VCancel r => r ∈ live h
  | VTick out inp => fifo_ok out /\ fifo_ok inp /\
      forall p, nb_peek inp = Some p -> p ∈ sent h /\ type_is pkts p kVictimWriteResp = true
  end.
Definition in_use h : nat := length (live h) + length (waiting h) + length (sent h).
Inductive vspec : vhistory -> vcall -> vanswer -> vhistory -> Prop :=
  | sp_reserve h r : (in_use h < victim_buffer_entries config_)%nat -> r ∉ live h ->
      (Z.of_nat (S (length (issued h))) < 2 ^ 64 -> r ∉ issued h) ->
      vspec h VReserve (Reserved (Some r)) (mkHistory (issued h ++ [r]) (r :: live h) (waiting h) (sent h))
  | sp_full h : in_use h = victim_buffer_entries config_ -> vspec h VReserve (Reserved None) h
  | sp_commit h r p l : live h ≡ₚ r :: l -> vspec h (VCommit r p) Done (mkHistory (issued h) l (p :: waiting h) (sent h))
  | sp_cancel h r l : live h ≡ₚ r :: l -> vspec h (VCancel r) Done (mkHistory (issued h) l (waiting h) (sent h))
  | sp_tick h out inp out' inp' (new : option nat) w s :
      buffer inp = option_list (nb_peek inp) ++ buffer inp' -> sent h ≡ₚ option_list (nb_peek inp) ++ s ->
      buffer out' = buffer out ++ option_list new -> waiting h ≡ₚ option_list new ++ w ->
      (new = None -> nb_can_put out = false \/ waiting h = []) -> fifo_ok out' -> fifo_ok inp' ->
      vspec h (VTick out inp) (Ticked (nb_peek inp) out' inp') (mkHistory (issued h) (live h) w (option_list new ++ s)).

Record vrel pkts v h : Prop := {
  vr_ok : vb_ok config_ pkts v;
  vr_live : live h ≡ₚ slots live_of v;
  vr_waiting : waiting h ≡ₚ slots waiting_of v;
  vr_sent : sent h ≡ₚ slots inflight_of v;
  vr_gen : Z.of_nat (length (issued h)) < 2 ^ 64 -> forall i, 0 <= v_generation (ventry v i) <= Z.of_nat (length (issued h));
  vr_issued : Z.of_nat (length (issued h)) < 2 ^ 64 -> forall r, r ∈ issued h -> res_generation r <= v_generation (ventry v (res_index r))
}.

Lemma vr_in_use pkts v h : vrel pkts v h -> in_use h = length (slots used_of v).
Proof. intros [Hok H1 H2 H3 _ _]. unfold in_use. rewrite H1, H2, H3. symmetry. by eapply used_count. Qed.
Lemma vr_member pkts v h r : vrel pkts v h -> r ∈ live h <-> reserved v r.
Proof. intros Hr. by rewrite (vr_live _ _ _ Hr), live_reserved. Qed.
Lemma vr_held pkts v h q i : vrel pkts v h -> v_packet (ventry v i) = Some q -> q ∈ waiting h ++ sent h.
Proof.
  intros Hr Hq. pose proof (vb_entry _ _ _ (vr_ok _ _ _ Hr) i) as Hent.
  rewrite (vr_waiting _ _ _ Hr), (vr_sent _ _ _ Hr). apply elem_of_app. unfold waiting_of, inflight_of.
  rewrite !elem_of_packets. destruct (v_state (ventry v i)) eqn:Hs; [congruence..| |];
    [left|right]; exists i; (split; [apply ventry_in; congruence|done]).
Qed.

(** Entry [i] moves on under its generation; the three lists follow. *)
Lemma slots_move {B} (f : nat -> VictimEntry -> option B) v v' i e l l' : (i < length (entries_ v))%nat ->
  entries_ v' = entries_ (put_ventry i e v) -> l ≡ₚ slots f v ->
  option_list (f i (ventry v i)) ++ l' ≡ₚ option_list (f i e) ++ l -> l' ≡ₚ slots f v'.
Proof.
  intros Hi Hv' Hl Hll. apply (Permutation_app_inv_l (option_list (f i (ventry v i)))).
  by rewrite Hll, Hl, (slots_put f v v' i e Hi Hv').
Qed.
Lemma vrel_move pkts v v' h h' i e : vrel pkts v h -> v_state (ventry v i) <> kFree ->
  entries_ v' = entries_ (put_ventry i e v) -> vb_ok config_ pkts v' -> v_generation e = v_generation (ventry v i) ->
  issued h' = issued h ->
  option_list (live_of i (ventry v i)) ++ live h' ≡ₚ option_list (live_of i e) ++ live h ->
  option_list (waiting_of i (ventry v i)) ++ waiting h' ≡ₚ option_list (waiting_of i e) ++ waiting h ->
  option_list (inflight_of i (ventry v i)) ++ sent h' ≡ₚ option_list (inflight_of i e) ++ sent h ->
  vrel pkts v' h'.
Proof.
  intros [Hok H1 H2 H3 H4 H5] Hs Hv' Hok' Hg Hi P1 P2 P3. apply ventry_in in Hs as Hlt.
  assert (Hx : forall j, v_generation (ventry v' j) = v_generation (ventry v j)).
  { intros j. assert (ventry v' j = ventry (put_ventry i e v) j) as -> by (unfold ventry; by rewrite Hv').
    rewrite ventry_put by done. case_decide; [by subst|done]. }
  split; [done|by eapply slots_move..| |]; rewrite Hi; intros Hlen.
  - intros j. rewrite Hx. by apply H4.
  - intros r Hr. rewrite Hx. by apply H5.
Qed.

Lemma vrel_env pkts pkts' v h : vrel pkts v h ->
  (forall p, p ∈ waiting h ++ sent h -> gp_of pkts' p = gp_of pkts p) -> vrel pkts' v h.
Proof.
  intros Hr He. assert (Hh : forall i q, v_packet (ventry v i) = Some q -> gp_of pkts' q = gp_of pkts q).
  { intros i q Hq. apply He. eapply vr_held; [exact Hr|exact Hq]. }
  destruct Hr as [[A1 A2 A3 A4 A5] H1 H2 H3 H4 H5]. split; [|done..]. split; [done| | | |done].
  - intros i. specialize (A2 i). destruct (v_state (ventry v i)); [done..| |];
      destruct A2 as (p & g & Hp & Hg); exists p, g; (split; [done|]); by rewrite (Hh i p Hp).
  - intros g i. rewrite A3. split; intros (Hs & p & Hp & Hg); (split; [done|]); exists p; (split; [done|]);
      by rewrite <- Hg, (Hh i p Hp).
  - intros i j p q Hp Hq. rewrite (Hh i p Hp), (Hh j q Hq). by apply A4.
Qed.

Lemma reserve_sim pkts v h : vrel pkts v h ->
  exists a v' h', vrun pkts VReserve v = Ok (a, v') /\ vspec h VReserve a h' /\ vrel pkts v' h'.
Proof.
  intros Hr. pose proof (vr_ok _ _ _ Hr) as Hok. destruct (TryReserve_spec config_ pkts v Hok) as (o & v' & Hrun & Hok' & Ho).
  exists (Reserved o), v'. simpl. rewrite Hrun. simpl. destruct o as [r|].
  - destruct Ho as (Hnr & Hfree & Hi & Hv').
    assert (Hgen : v_generation (ventry v (res_index r)) +% 1 = res_generation r).
    { unfold TryReserve in Hrun. destruct (find_first _ _) as [i|]; [|done].
      apply res_bind_ok in Hrun as ([] & _ & Hrun). simplify_eq. done. }
    set (e := mkVEntry kReserved (res_generation r) None) in *.
    exists (mkHistory (issued h ++ [r]) (r :: live h) (waiting h) (sent h)). split; [done|].
    assert (Hent : entries_ v' = entries_ (put_ventry (res_index r) e v)) by (by rewrite Hv').
    assert (Hold : forall B (f : nat -> VictimEntry -> option B), f (res_index r) (ventry v (res_index r)) = None ->
      slots f v' ≡ₚ option_list (f (res_index r) e) ++ slots f v).
    { intros B f Hf. pose proof (slots_put f v v' _ e Hi Hent) as Hp. by rewrite Hf in Hp. }
    assert (Hnew : live_of (res_index r) e = Some r) by (by destruct r).
    assert (Hwrap : Z.of_nat (S (length (issued h))) < 2 ^ 64 ->
      res_generation r = v_generation (ventry v (res_index r)) + 1).
    { intros Hlen. rewrite <- Hgen. apply wrap_small. pose proof (vr_gen _ _ _ Hr ltac:(lia) (res_index r)). lia. }
    split; [constructor|].
    + rewrite (vr_in_use _ _ _ Hr). pose proof (used_le v') as Hle.
      rewrite (Hold nat used_of) in Hle by (unfold used_of, in_state; by rewrite Hfree).
      simpl in Hle. rewrite (vb_len _ _ _ Hok') in Hle. lia.
    + by rewrite vr_member.
    + intros Hlen Hin. pose proof (vr_issued _ _ _ Hr ltac:(lia) r Hin). rewrite Hwrap in * by done. lia.
    + assert (Hfields : forall j, v_generation (ventry v' j) =
        if decide (j = res_index r) then res_generation r else v_generation (ventry v j)).
      { intros j. rewrite Hv', ventry_put by done. by case_decide. }
      split; simpl; try done.
      * rewrite Hold by (unfold live_of, in_state; by rewrite Hfree). rewrite Hnew. simpl. by rewrite (vr_live _ _ _ Hr).
      * rewrite Hold by (unfold waiting_of, in_state; by rewrite Hfree). apply (vr_waiting _ _ _ Hr).
      * rewrite Hold by (unfold inflight_of, in_state; by rewrite Hfree). apply (vr_sent _ _ _ Hr).
      * rewrite length_app. simpl. intros Hlen j. rewrite Hfields. pose proof (vr_gen _ _ _ Hr ltac:(lia)) as Hg.
        pose proof (Hg j). pose proof (Hg (res_index r)). case_decide; [rewrite Hwrap|]; lia.
      * rewrite length_app. simpl. intros Hlen r'. rewrite elem_of_app, list_elem_of_singleton, Hfields.
        pose proof (vr_issued _ _ _ Hr ltac:(lia) r') as Hg. intros [Hin| ->]; [|by rewrite decide_True].
        specialize (Hg Hin). case_decide as Ei; [|done]. rewrite Ei in Hg. rewrite Hwrap; lia.
  - destruct Ho as [-> Hfull]. exists h. split; [done|]. split; [|done]. constructor.
    rewrite (vr_in_use _ _ _ Hr), <- (vb_len _ _ _ Hok). apply used_full. intros i Hi. apply Hfull. by rewrite <- (vb_len _ _ _ Hok).
Qed.

Lemma use_sim pkts v v' h h' r e : vrel pkts v h -> r ∈ live h -> v' = put_ventry (res_index r) e v ->
  vb_ok config_ pkts v' -> v_generation e = res_generation r -> live_of (res_index r) e = None ->
  inflight_of (res_index r) e = None -> issued h' = issued h -> live h ≡ₚ r :: live h' -> sent h' = sent h ->
  waiting h' = option_list (waiting_of (res_index r) e) ++ waiting h -> vrel pkts v' h'.
Proof.
  intros Hr Hin -> Hok Hg Hl Hf Hi Hlive Hs Hw. apply (vr_member _ _ _ _ Hr) in Hin as [Hst Hgen].
  assert (live_of (res_index r) (ventry v (res_index r)) = Some r) as E1
    by (unfold live_of, in_state; rewrite Hst, Hgen; by destruct r).
  assert (waiting_of (res_index r) (ventry v (res_index r)) = None) as E2 by (unfold waiting_of, in_state; by rewrite Hst).
  assert (inflight_of (res_index r) (ventry v (res_index r)) = None) as E3 by (unfold inflight_of, in_state; by rewrite Hst).
  eapply (vrel_move pkts v); [exact Hr|rewrite Hst; done|done|done|congruence|done|..]; rewrite ?E1, ?E2, ?E3; simpl.
  - rewrite Hl. simpl. by rewrite Hlive.
  - by rewrite Hw.
  - by rewrite Hf, Hs.
Qed.
Lemma commit_sim pkts v h r p : vrel pkts v h -> vpermitted pkts h (VCommit r p) ->
  exists a v' h', vrun pkts (VCommit r p) v = Ok (a, v') /\ vspec h (VCommit r p) a h' /\ vrel pkts v' h'.
Proof.
  intros Hr (Hin & Ht & g & Hg & Hap). pose proof (vr_ok _ _ _ Hr) as Hok.
  destruct (Commit_spec config_ pkts v r p g Hok) as [Hrun Hok']; [by apply (vr_member _ _ _ _ Hr)|done..| |].
  { intros j q Hq. apply Hap. by eapply vr_held. }
  apply elem_of_Permutation in Hin as Hl. destruct Hl as [l Hl].
  simpl. rewrite Hrun. simpl. eexists Done, _, (mkHistory (issued h) l (p :: waiting h) (sent h)). split; [done|].
  split; [by constructor|]. by eapply use_sim.
Qed.
Lemma cancel_sim pkts v h r : vrel pkts v h -> r ∈ live h ->
  exists a v' h', vrun pkts (VCancel r) v = Ok (a, v') /\ vspec h (VCancel r) a h' /\ vrel pkts v' h'.
Proof.
  intros Hr Hin. pose proof (vr_ok _ _ _ Hr) as Hok.
  destruct (Cancel_spec config_ pkts v r Hok) as [Hrun Hok']; [by apply (vr_member _ _ _ _ Hr)|].
  apply elem_of_Permutation in Hin as Hl. destruct Hl as [l Hl].
  simpl. rewrite Hrun. simpl. eexists Done, _, (mkHistory (issued h) l (waiting h) (sent h)). split; [done|].
  split; [by constructor|]. by eapply use_sim.
Qed.
Lemma tick_sim pkts v h out inp : vrel pkts v h -> vpermitted pkts h (VTick out inp) ->
  exists a v' h', vrun pkts (VTick out inp) v = Ok (a, v') /\ vspec h (VTick out inp) a h' /\ vrel pkts v' h'.
Proof.
  intros Hr (Hfo & Hfi & Hc). pose proof (vr_ok _ _ _ Hr) as Hok.
  destruct (v_ProcessMemResp_spec config_ pkts inp v Hok Hfi) as (inp' & v1 & Hrun1 & Hfi' & Hok1 & Hresp).
  { intros p Hp. destruct (Hc p Hp) as [Hin Ht]. split; [done|].
    rewrite (vr_sent _ _ _ Hr) in Hin. apply elem_of_packets in Hin as (i & _ & Hi). by exists i. }
  assert (exists s, sent h ≡ₚ option_list (nb_peek inp) ++ s /\ buffer inp = option_list (nb_peek inp) ++ buffer inp' /\
    vrel pkts v1 (mkHistory (issued h) (live h) (waiting h) s)) as (s & Hs & Hb & Hr1).
  { destruct (nb_peek inp) as [p|] eqn:Ep.
    - destruct (Hc p eq_refl) as [Hin _]. apply elem_of_Permutation in Hin as [s Hs].
      destruct Hresp as (Hb & i & Hst & Hpk & Hent). exists s. split; [done|]. split; [done|].
      eapply (vrel_move pkts v); [exact Hr|rewrite Hst; done|exact Hent|done|done|done|..];
        unfold live_of, waiting_of, inflight_of, in_state; rewrite Hst; simpl; [done|done|].
      rewrite Hpk. simpl. by rewrite Hs.
    - destruct Hresp as [-> ->]. exists (sent h). split; [done|]. split; [done|]. by destruct h. }
  destruct (v_ProcessMemReq_spec config_ pkts out v1 Hok1 Hfo) as (out' & v' & Hrun2 & Hfo' & Hok' & Hreq).
  assert (exists (new : option nat) w, waiting h ≡ₚ option_list new ++ w /\ buffer out' = buffer out ++ option_list new /\
    (new = None -> nb_can_put out = false \/ waiting h = []) /\
    vrel pkts v' (mkHistory (issued h) (live h) w (option_list new ++ s))) as (new & w & Hw & Hbo & Hnew & Hr').
  { destruct Hreq as [(-> & -> & Hn)|(i & p & Hst & Hpk & _ & Hbo & Hent)].
    - exists None, (waiting h). split; [done|]. simpl. rewrite app_nil_r. split_and!; try done. intros _.
      destruct Hn as [Hn|Hn]; [by left|right]. destruct (waiting h) as [|p l] eqn:Ew; [done|]. exfalso.
      assert (Hin : p ∈ slots waiting_of v1) by (rewrite <- (vr_waiting _ _ _ Hr1); left).
      apply elem_of_packets in Hin as (i & _ & Hst & _). by apply (Hn i).
    - assert (Hin : p ∈ waiting h).
      { change (waiting h) with (waiting (mkHistory (issued h) (live h) (waiting h) s)). rewrite (vr_waiting _ _ _ Hr1).
        apply elem_of_packets. exists i. split; [apply ventry_in; congruence|done]. }
      apply elem_of_Permutation in Hin as [w Hw]. exists (Some p), w. split_and!; try done.
      eapply (vrel_move pkts v1); [exact Hr1|rewrite Hst; done|exact Hent|done|done|done|..];
        unfold live_of, waiting_of, inflight_of, in_state; rewrite Hst; simpl; [done| |done].
      rewrite Hpk. simpl. by rewrite Hw. }
  simpl. unfold v_Tick. rewrite Hrun1. simpl. rewrite Hrun2. simpl. rewrite (v_check config_ pkts v' Hok'). simpl.
  exists (Ticked (nb_peek inp) out' inp'), v', (mkHistory (issued h) (live h) w (option_list new ++ s)).
  split; [done|]. split; [by constructor|done].
Qed.

Lemma vrel_init v : VictimBuffer_init config_ = Ok v -> forall pkts, vrel pkts v (mkHistory [] [] [] []).
Proof.
  unfold VictimBuffer_init. intros Hi pkts. res_inv. set (n := victim_buffer_entries config_).
  assert (Hx : forall i, ventry (mkVBuf (replicate n ventry0) ∅) i = ventry0).
  { intros i. unfold ventry. simpl. destruct (decide (i < n)%nat).
    - by apply nth_lookup_Some, lookup_replicate_2.
    - apply nth_overflow. rewrite length_replicate. lia. }
  assert (Hs : forall B (f : nat -> VictimEntry -> option B), (forall i, f i ventry0 = None) ->
    slots f (mkVBuf (replicate n ventry0) ∅) = []).
  { intros B f Hf. unfold slots. generalize (seq 0 (length (entries_ (mkVBuf (replicate n ventry0) ∅)))). intros l.
    induction l as [|i l IH]; [done|]. by rewrite omap_app_cons, IH, Hx, Hf. }
  split; simpl; rewrite ?Hs by done; try done.
  - split; simpl.
    + apply length_replicate.
    + intros i. by rewrite Hx.
    + intros g i. rewrite Hx, lookup_empty. split; [done|by intros [[=] _]].
    + intros i j p q. by rewrite Hx.
    + clear. induction n as [|n IH]; [done|]. simpl. by rewrite countb_cons, IH.
  - intros _ i. by rewrite Hx.
  - intros _ r Hr. by apply not_elem_of_nil in Hr.
Qed.
Lemma slots_countb {B} (f : nat -> VictimEntry -> option B) s v :
  (forall i, f i (ventry v i) = None <-> in_state s (ventry v i) = false) -> countb (in_state s) (entries_ v) = length (slots f v).
Proof.
  intros Hf. assert (entries_ v = ventry v <$> seq 0 (length (entries_ v))) as E.
  { apply list_eq. intros i. rewrite list_lookup_fmap. destruct (decide (i < length (entries_ v))%nat).
    - by rewrite ventry_lookup, lookup_seq_lt.
    - by rewrite !(proj2 (lookup_ge_None _ _)) by (rewrite ?length_seq; lia). }
  unfold slots. rewrite E at 1. generalize (seq 0 (length (entries_ v))). intros l.
  induction l as [|i l IH]; [done|]. rewrite omap_app_cons, fmap_cons, countb_cons, length_app, <- IH. specialize (Hf i).
  destruct (f i (ventry v i)), (in_state s (ventry v i)); simpl; try lia; exfalso; intuition congruence.
Qed.
Lemma v_pending_used pkts v : vb_ok config_ pkts v -> v_HasPendingWork v = negb (length (slots used_of v) =? 0)%nat.
Proof.
  intros Hv. rewrite (used_count _ _ _ Hv). unfold v_HasPendingWork, ReservedEntryCount, CommittedEntryCount, v_InflightEntryCount.
  rewrite <- (vb_count _ _ _ Hv). rewrite (slots_countb live_of kReserved), (slots_countb waiting_of kCommitted),
    (slots_countb inflight_of kInflight); [done|..]; intros i; pose proof (vb_entry _ _ _ Hv i) as Hent;
    unfold live_of, waiting_of, inflight_of, in_state; destruct (v_state (ventry v i)); simpl; try done;
    by destruct Hent as (p & g & -> & _).
Qed.

(** A reservation its holder has used is refused. *)
Lemma used_rejected pkts v h r p : vrel pkts v h -> r ∉ live h ->
  (exists f, Commit config_ r p pkts v = Err f) /\ exists f, Cancel config_ r v = Err f.
Proof.
  intros Hr Hn. rewrite (vr_member _ _ _ _ Hr) in Hn.
  assert (Hl : forall i, v_Lookup r v = Ok i -> in_state kReserved (ventry v i) = true -> reserved v r).
  { unfold v_Lookup, in_state, reserved. intros i Hi Hs. apply bool_decide_eq_true in Hs. case_match; [done|].
    res_inv. bprop. done. }
  split; [destruct (Commit _ _ _ _ _) eqn:E|destruct (Cancel _ _ _) eqn:E]; try eauto; exfalso; apply Hn;
    [unfold Commit in E|unfold Cancel in E]; res_inv; eauto.
Qed.
End contract.

Record victim_contract config_ (R : gmap nat Packet -> VictimBuffer -> vhistory -> Prop) : Prop := {
  vc_start : exists v, VictimBuffer_init config_ = Ok v /\ forall pkts, R pkts v (mkHistory [] [] [] []);
  vc_env : forall pkts pkts' v h, R pkts v h ->
    (forall p, p ∈ waiting h ++ sent h -> gp_of pkts' p = gp_of pkts p) -> R pkts' v h;
  vc_call : forall pkts v h c, R pkts v h -> vpermitted pkts h c ->
    exists a v' h', vrun config_ pkts c v = Ok (a, v') /\ vspec config_ h c a h' /\ R pkts v' h';
  vc_used : forall pkts v h r p, R pkts v h -> r ∉ live h ->
    (exists f, Commit config_ r p pkts v = Err f) /\ exists f, Cancel config_ r v = Err f;
  vc_pending : forall pkts v h, R pkts v h ->
    (in_use h <= victim_buffer_entries config_)%nat /\ v_HasPendingWork v = negb (in_use h =? 0)%nat
}.

(** C27. The victim buffer implements its contract. A reservation is granted exactly while fewer
    entries are in use than the configuration has, is never one that is outstanding and, until 2^64 have been
    granted, never one that was granted before; its holder may commit or cancel it once, and every
    other attempt is refused. No assertion of the buffer fails as long as its users keep to what [vpermitted] says:
    every clock edge takes one response if there is one, releases the packet it answers, and sends one
    committed packet unless there is none or the request queue is full. *)
Theorem victim_buffer_refines config_ : (0 < victim_buffer_entries config_)%nat -> exists R, victim_contract config_ R.
Proof.
  intros Hn. exists (vrel config_). split.
  - assert (Hi : VictimBuffer_init config_ = Ok (mkVBuf (replicate (victim_buffer_entries config_) ventry0) ∅))
      by (unfold VictimBuffer_init; by rewrite (proj2 (Nat.ltb_lt _ _) Hn)).
    eexists. split; [exact Hi|]. by apply vrel_init.
  - apply vrel_env.
  - intros pkts v h [|r p|r|out inp] Hr Hp; [by apply reserve_sim|by apply commit_sim|by apply cancel_sim|by apply tick_sim].
  - intros. by eapply used_rejected.
  - intros pkts v h Hr. rewrite (vr_in_use _ _ _ _ Hr). split.
    + rewrite <- (vb_len _ _ _ (vr_ok _ _ _ _ Hr)). apply used_le.
    + eapply v_pending_used. by apply (vr_ok _ _ _ _ Hr).
Qed.

(** ** An example: two entries, one packet *)

Definition buffer_param : Param := mkParam kLRU kWriteBack kWriteAllocate 32 8 2 2 2 2 2 2 [] true 0.
Definition one_packet (t : PacketType) : gmap nat Packet :=
  {[ 7%nat := mkPacket 1 None t false false false false false 0 (mkLocation 0 0) None false (Some (OwnedGp 3)) ]}.
Definition one_queued : tlm_fifo nat := mkFifo [7%nat] 2 1 0 0.
Definition victim_example : res (vanswer * vanswer * bool) :=
  v ← VictimBuffer_init buffer_param;
  '(a, v) ← vrun buffer_param ∅ VReserve v;
  '(_, v) ← vrun buffer_param (one_packet kVictimWriteReq) (VCommit (mkReservation 0 1) 7) v;
  '(t, v) ← vrun buffer_param (one_packet kVictimWriteReq) (VTick (fifo_init 2) (fifo_init 2)) v;
  '(u, v) ← vrun buffer_param (one_packet kVictimWriteResp) (VTick (fifo_init 2) one_queued) v;
  Ok (a, u, v_HasPendingWork v).
Example victim_example_run : victim_example =
  Ok (Reserved (Some (mkReservation 0 1)), Ticked (Some 7%nat) (fifo_init 2) (mkFifo [] 2 1 1 0), false).
Proof. vm_compute. reflexivity. Qed.
Lemma victim_buffer_refines_witness :
  (0 < victim_buffer_entries buffer_param)%nat /\ exists R, victim_contract buffer_param R.
Proof. split; [simpl; lia|]. apply (victim_buffer_refines buffer_param). simpl. lia. Defined.
