(* ===== verification/SimWrites.v ===== *)
(** * The write buffer of the simulated cache (simtix/src/cache/write_buffer.{h,cc})

    It takes the writes to memory that are no victims and sends them in order. As the victim
    buffer it is a method per clock edge over the queues it is bound to. *)

From stdpp Require Import gmap.
From S2P Require Import Prelude SimFifo SimPacket.

(** ** The write buffer *)

Record WriteBuffer := mkWBuf { pending_entries_ : list nat; w_inflight : gmap gp_ptr nat }.

Section write.
Context (config_ : Param).
Implicit Types (w : WriteBuffer) (pkts : gmap nat Packet) (p : nat).

Definition WriteBuffer_init : WriteBuffer := mkWBuf [] ∅.
Definition PendingEntryCount w : nat := length (pending_entries_ w).
Definition w_InflightEntryCount w : nat := size (w_inflight w).
Definition Occupancy w : nat := (length (pending_entries_ w) + size (w_inflight w))%nat.
Definition w_HasPendingWork w : bool := negb (Occupancy w =? 0)%nat.
Definition HasFreeEntry w : bool := (Occupancy w <? write_buffer_entries config_)%nat.
Definition w_CheckInvariants w : res unit :=
  massert (size (w_inflight w) <=? write_buffer_entries config_)%nat;;
  massert (Occupancy w <=? write_buffer_entries config_)%nat.

Definition ProcessWriteRequest pkts (write_buffer_in : tlm_fifo nat) w : res (tlm_fifo nat * WriteBuffer) :=
  if negb (nb_can_get write_buffer_in) then Ok (write_buffer_in, w)
  else if negb (HasFreeEntry w) then Ok (write_buffer_in, w)
  else match nb_get write_buffer_in with
       | None => Err Assertion
       | Some (p, write_buffer_in) =>
           massert (type_is pkts p kMemWriteReq);;
           Ok (write_buffer_in, mkWBuf (pending_entries_ w ++ [p]) (w_inflight w))
       end.
Definition w_ProcessMemReq pkts (mem_req_out : tlm_fifo nat) w : res (tlm_fifo nat * WriteBuffer) :=
  match pending_entries_ w with
  | [] => Ok (mem_req_out, w)
  | p :: q =>
      if negb (nb_can_put mem_req_out) then Ok (mem_req_out, w)
      else
        g ← gp_of pkts p;
        match nb_put p mem_req_out with
        | None => Err Assertion
        | Some mem_req_out =>
            massert (bool_decide (w_inflight w !! g = None));;
            Ok (mem_req_out, mkWBuf q (<[g := p]> (w_inflight w)))
        end
  end.
Definition w_ProcessMemResp pkts (mem_resp_in : tlm_fifo nat) w : res (option nat * tlm_fifo nat * WriteBuffer) :=
  match nb_get mem_resp_in with
  | None => Ok (None, mem_resp_in, w)
  | Some (p, mem_resp_in) =>
      massert (type_is pkts p kMemWriteResp);;
      g ← gp_of pkts p;
      match w_inflight w !! g with
      | None => Err Assertion
      | Some p' =>
          massert (bool_decide (p = p'));;
          Ok (Some p', mem_resp_in, mkWBuf (pending_entries_ w) (delete g (w_inflight w)))
      end
  end.
Definition w_Tick pkts (write_buffer_in mem_req_out mem_resp_in : tlm_fifo nat) w
    : res (option nat * tlm_fifo nat * tlm_fifo nat * tlm_fifo nat * WriteBuffer) :=
  '(released, mem_resp_in, w) ← w_ProcessMemResp pkts mem_resp_in w;
  '(write_buffer_in, w) ← ProcessWriteRequest pkts write_buffer_in w;
  '(mem_req_out, w) ← w_ProcessMemReq pkts mem_req_out w;
  w_CheckInvariants w;;
  Ok (released, write_buffer_in, mem_req_out, mem_resp_in, w).
End write.
(** ** The contract of the write buffer

    The queue it reads, the two it is bound to on the side of memory, and what a clock edge
    took from the first and added to the second. *)

Definition taken {A} (f f' : tlm_fifo A) : list A := take (length (buffer f) - length (buffer f')) (buffer f).
Definition added {A} (f f' : tlm_fifo A) : list A := drop (length (buffer f)) (buffer f').

Section write_ok.
Context (config_ : Param).
Implicit Types (w : WriteBuffer) (pkts : gmap nat Packet) (p : nat) (win out inp : tlm_fifo nat).

Definition w_held w : list nat := pending_entries_ w ++ (map_to_list (w_inflight w)).*2.
(** The cache sends writes whose payload is not in the buffer; memory answers what it was sent. *)
Record wpermitted pkts w win out inp : Prop := {
  wp_fifos : fifo_ok win /\ fifo_ok out /\ fifo_ok inp;
  wp_request : forall p, nb_peek win = Some p -> type_is pkts p kMemWriteReq = true /\
    exists g, gp_of pkts p = Ok g /\ forall q, q ∈ w_held w -> gp_of pkts q <> Ok g;
  wp_response : forall p, nb_peek inp = Some p -> type_is pkts p kMemWriteResp = true /\ p ∈ (map_to_list (w_inflight w)).*2
}.
(** Runs of the buffer with all it accepted, sent and released so far. *)
Inductive wreach : gmap nat Packet -> WriteBuffer -> list nat -> list nat -> list nat -> Prop :=
  | wr_start pkts : wreach pkts WriteBuffer_init [] [] []
  | wr_env pkts pkts' w acc snt rel : wreach pkts w acc snt rel ->
      (forall p, p ∈ w_held w -> gp_of pkts' p = gp_of pkts p) -> wreach pkts' w acc snt rel
  | wr_tick pkts w acc snt rel win out inp o win' out' inp' w' :
      wreach pkts w acc snt rel -> wpermitted pkts w win out inp ->
      w_Tick config_ pkts win out inp w = Ok (o, win', out', inp', w') ->
      wreach pkts w' (acc ++ taken win win') (snt ++ added out out') (rel ++ option_list o).

Record w_ok pkts w : Prop := {
  wb_map : forall g p, w_inflight w !! g = Some p -> gp_of pkts p = Ok g;
  wb_pending : forall p, p ∈ pending_entries_ w -> exists g, gp_of pkts p = Ok g;
  wb_apart : NoDup (gp_of pkts <$> w_held w);
  wb_bound : (Occupancy w <= write_buffer_entries config_)%nat
}.
Lemma held_map w p : p ∈ (map_to_list (w_inflight w)).*2 <-> exists g, w_inflight w !! g = Some p.
Proof.
  rewrite list_elem_of_fmap. split.
  - intros ([g q] & -> & Hin). apply elem_of_map_to_list in Hin. by exists g.
  - intros [g Hg]. exists (g, p). by rewrite elem_of_map_to_list.
Qed.

Lemma w_resp_spec pkts w win out inp : w_ok pkts w -> wpermitted pkts w win out inp ->
  exists inp' w', w_ProcessMemResp pkts inp w = Ok (nb_peek inp, inp', w') /\ w_ok pkts w' /\ fifo_ok inp' /\
    pending_entries_ w' = pending_entries_ w /\
    (map_to_list (w_inflight w)).*2 ≡ₚ option_list (nb_peek inp) ++ (map_to_list (w_inflight w')).*2 /\
    (Occupancy w' + length (option_list (nb_peek inp)) = Occupancy w)%nat.
Proof.
  intros Hw [(Hf1 & Hf2 & Hf3) _ Hresp]. unfold w_ProcessMemResp. destruct (nb_can_get inp) eqn:Eg.
  2:{ apply nb_can_get_false in Eg as [-> ->]. exists inp, w. split_and!; done. }
  destruct (nb_get_spec inp Hf3 Eg) as (p & b & Hb & Hp & Hget). rewrite Hget, Hp.
  pose proof (nb_get_ok _ _ _ Hf3 Hget) as (Hf3' & _ & _). destruct (Hresp p Hp) as [Ht Hin].
  apply held_map in Hin as [g Hg]. rewrite Ht. simpl. rewrite (wb_map _ _ Hw g p Hg). simpl. rewrite Hg.
  rewrite bool_decide_eq_true_2 by done. simpl. eexists _, _. split; [done|]. cbn [pending_entries_ w_inflight].
  assert (Hperm : (map_to_list (w_inflight w)).*2 ≡ₚ p :: (map_to_list (delete g (w_inflight w))).*2)
    by (by rewrite <- (map_to_list_delete _ _ _ Hg)).
  assert (Hsize : S (size (delete g (w_inflight w))) = size (w_inflight w)).
  { rewrite <- (length_map_to_list (w_inflight w)), <- (length_fmap snd (map_to_list (w_inflight w))), Hperm. simpl.
    rewrite <- (length_map_to_list (delete g _)). by rewrite !length_fmap. }
  destruct Hw as [H1 H2 H3 H4]. unfold Occupancy in *. split_and!; try done; [|simpl; lia].
  split; simpl; [intros g' q Hq; apply lookup_delete_Some in Hq as [_ Hq]; by apply H1|done| |unfold Occupancy; simpl; lia].
  revert H3. unfold w_held. simpl. rewrite Hperm, !fmap_app, fmap_cons, <- Permutation_middle. by intros [_ ?]%NoDup_cons.
Qed.

Lemma w_request_spec pkts w win : w_ok pkts w -> fifo_ok win ->
  (forall p, nb_peek win = Some p -> type_is pkts p kMemWriteReq = true /\
    exists g, gp_of pkts p = Ok g /\ forall q, q ∈ w_held w -> gp_of pkts q <> Ok g) ->
  exists win' w' l, ProcessWriteRequest config_ pkts win w = Ok (win', w') /\ w_ok pkts w' /\ fifo_ok win' /\
    taken win win' = l /\ pending_entries_ w' = pending_entries_ w ++ l /\ w_inflight w' = w_inflight w /\
    (if nb_can_get win && HasFreeEntry config_ w then exists p, nb_peek win = Some p /\ l = [p] else l = []).
Proof.
  intros Hw Hf Hreq. unfold ProcessWriteRequest.
  assert (Hsame : taken win win = []) by (unfold taken; by rewrite Nat.sub_diag).
  destruct (nb_can_get win) eqn:Eg; simpl; [|exists win, w, []; rewrite app_nil_r; done].
  destruct (HasFreeEntry config_ w) eqn:Ee; simpl; [|exists win, w, []; rewrite app_nil_r; done].
  destruct (nb_get_spec win Hf Eg) as (p & b & Hb & Hp & Hget). rewrite Hget.
  pose proof (nb_get_ok _ _ _ Hf Hget) as (Hf' & _ & _). destruct (Hreq p Hp) as (Ht & g & Hg & Hap). rewrite Ht. simpl.
  eexists _, _, [p]. split; [done|]. split; [|split_and!; try done; [unfold taken; rewrite Hb; simpl|by exists p]].
  2:{ by rewrite Nat.sub_succ_l, Nat.sub_diag by done. }
  unfold HasFreeEntry in Ee. bprop. destruct Hw as [H1 H2 H3 H4]. unfold Occupancy in *. split; simpl.
  - done.
  - intros q. rewrite elem_of_app, list_elem_of_singleton. intros [Hq| ->]; [by apply H2|by exists g].
  - unfold w_held in *. simpl in *. rewrite <- (assoc_L (++)). cbn [app]. rewrite fmap_app, fmap_cons, <- Permutation_middle.
    apply NoDup_cons. rewrite <- fmap_app. split; [|done]. rewrite list_elem_of_fmap. intros (q & Hq & Hin). apply (Hap q Hin). by rewrite <- Hq.
  - unfold Occupancy. simpl. rewrite length_app. simpl. lia.
Qed.
Lemma w_send_spec pkts w out : w_ok pkts w -> fifo_ok out ->
  exists out' w' l, w_ProcessMemReq pkts out w = Ok (out', w') /\ w_ok pkts w' /\ fifo_ok out' /\
    added out out' = l /\ pending_entries_ w = l ++ pending_entries_ w' /\
    (map_to_list (w_inflight w')).*2 ≡ₚ l ++ (map_to_list (w_inflight w)).*2 /\
    (if nb_can_put out then l = option_list (head (pending_entries_ w)) else l = []).
Proof.
  intros Hw Hf. unfold w_ProcessMemReq.
  assert (Hsame : added out out = []) by (unfold added; by rewrite drop_all).
  destruct (pending_entries_ w) as [|p q] eqn:Eq; [exists out, w, []; rewrite Eq; by destruct (nb_can_put out)|].
  destruct (nb_can_put out) eqn:Ec; simpl; [|exists out, w, []; by rewrite Eq].
  destruct (wb_pending _ _ Hw p) as [g Hg]; [rewrite Eq; left|]. rewrite Hg. simpl. rewrite (nb_put_can out p Ec).
  pose proof (nb_put_ok out p _ Hf (nb_put_can out p Ec)) as (Hf' & _ & _). destruct Hw as [H1 H2 H3 H4].
  assert (Hm : w_inflight w !! g = None).
  { destruct (w_inflight w !! g) as [p'|] eqn:E; [|done]. exfalso. revert H3. unfold w_held. rewrite Eq. cbn [app].
    rewrite fmap_cons. intros [Hn _]%NoDup_cons. apply Hn, list_elem_of_fmap. exists p'. rewrite Hg, (H1 g p' E).
    split; [done|]. apply elem_of_app. right. apply held_map. by exists g. }
  rewrite Hm. simpl.
  assert (Hperm : (map_to_list (<[g := p]> (w_inflight w))).*2 ≡ₚ p :: (map_to_list (w_inflight w)).*2)
    by (by rewrite (map_to_list_insert _ _ _ Hm)).
  eexists _, _, [p]. split; [done|]. split; [|split_and!; try done; unfold added; simpl; by rewrite drop_app_length].
  split; simpl.
  - intros g' p'. rewrite lookup_insert_Some. intros [[<- <-]|[_ Hl]]; [done|by apply H1].
  - intros p' Hin. apply H2. rewrite Eq. by right.
  - revert H3. unfold w_held. rewrite Eq. simpl. rewrite Hperm, <- Permutation_middle. done.
  - revert H4. unfold Occupancy. simpl. rewrite Eq, map_size_insert_None by done. simpl. lia.
Qed.
Lemma w_check pkts w : w_ok pkts w -> w_CheckInvariants config_ w = Ok tt.
Proof.
  intros [_ _ _ H]. unfold w_CheckInvariants.
  rewrite (proj2 (Nat.leb_le (size _) _)) by (unfold Occupancy in H; lia). simpl. by rewrite (proj2 (Nat.leb_le _ _) H).
Qed.

(** What a clock edge does: [released], [taken] and [added] are exactly what the queues offer and have room for. *)
Record w_edge w win out inp w' win' out' inp' : Prop := {
  we_order : pending_entries_ w ++ taken win win' = added out out' ++ pending_entries_ w';
  we_once : (map_to_list (w_inflight w)).*2 ++ added out out' ≡ₚ option_list (nb_peek inp) ++ (map_to_list (w_inflight w')).*2;
  we_accept : taken win win' = option_list (nb_peek win) \/
    (taken win win' = [] /\ Occupancy w = write_buffer_entries config_ /\ nb_peek inp = None);
  we_send : added out out' = option_list (head (pending_entries_ w ++ taken win win')) \/
    (added out out' = [] /\ nb_can_put out = false);
  we_fifos : fifo_ok win' /\ fifo_ok out' /\ fifo_ok inp'
}.
Lemma w_Tick_spec pkts w win out inp : w_ok pkts w -> wpermitted pkts w win out inp ->
  exists win' out' inp' w', w_Tick config_ pkts win out inp w = Ok (nb_peek inp, win', out', inp', w') /\ w_ok pkts w' /\
    w_edge w win out inp w' win' out' inp'.
Proof.
  intros Hw Hp. pose proof Hp as [(Hf1 & Hf2 & _) Hreq _].
  destruct (w_resp_spec _ _ _ _ _ Hw Hp) as (inp' & w1 & Hrun1 & Hw1 & Hf3' & Hpend1 & Hinf1 & Hocc1).
  destruct (w_request_spec pkts w1 win Hw1 Hf1) as (win' & w2 & l & Hrun2 & Hw2 & Hf1' & Hl & Hpend2 & Hinf2 & Hacc).
  { intros p Hpk. destruct (Hreq p Hpk) as (Ht & g & Hg & Hap). split; [done|]. exists g. split; [done|].
    intros q Hq. apply Hap. revert Hq. unfold w_held. rewrite Hpend1, !elem_of_app, Hinf1, elem_of_app. tauto. }
  destruct (w_send_spec pkts w2 out Hw2 Hf2) as (out' & w' & l' & Hrun3 & Hw' & Hf2' & Hl' & Hpend3 & Hinf3 & Hsend).
  exists win', out', inp', w'. unfold w_Tick. rewrite Hrun1. simpl. rewrite Hrun2. simpl. rewrite Hrun3. simpl.
  rewrite (w_check pkts w' Hw'). split; [done|]. split; [done|]. rewrite Hpend2, Hpend1 in *. split; rewrite ?Hl, ?Hl'.
  - done.
  - rewrite Hinf1, Hinf3, Hinf2. by rewrite <- !(assoc_L (++)), (Permutation_app_comm l').
  - unfold HasFreeEntry in Hacc. pose proof (wb_bound _ _ Hw) as Hb.
    destruct (nb_can_get win) eqn:Eg; simpl in Hacc.
    + destruct (Occupancy w1 <? write_buffer_entries config_)%nat eqn:Ef.
      * destruct Hacc as (p & -> & ->). by left.
      * bprop. right. destruct (nb_peek inp); simpl in Hocc1; split_and!; try done; lia.
    + apply nb_can_get_false in Eg as [_ ->]. by left.
  - destruct (nb_can_put out); [by left|by right].
  - done.
Qed.
Lemma wreach_ok pkts w acc snt rel : wreach pkts w acc snt rel ->
  w_ok pkts w /\ acc = snt ++ pending_entries_ w /\ snt ≡ₚ rel ++ (map_to_list (w_inflight w)).*2.
Proof.
  induction 1 as [pkts|pkts pkts' w acc snt rel _ ([H1 H2 H3 H4] & Hacc & Hsnt) He|
    pkts w acc snt rel win out inp o win' out' inp' w' _ (Hw & Hacc & Hsnt) Hp Hrun].
  - split; [|split; done]. split; simpl.
    + by intros g p.
    + intros p Hp. by apply not_elem_of_nil in Hp.
    + constructor.
    + apply Nat.le_0_l.
  - split; [|done]. assert (Hin : forall g p, w_inflight w !! g = Some p -> p ∈ w_held w).
    { intros g p Hg. apply elem_of_app. right. apply held_map. by exists g. }
    split; [| | |done].
    + intros g p Hg. rewrite (He p (Hin g p Hg)). by apply H1.
    + intros p Hp. rewrite He by (apply elem_of_app; by left). by apply H2.
    + rewrite (list_fmap_ext (gp_of pkts') (gp_of pkts) (w_held w)); [done|]. intros i p Hi. by apply He, list_elem_of_lookup_2 with i.
  - destruct (w_Tick_spec _ _ _ _ _ Hw Hp) as (win1 & out1 & inp1 & w1 & Hrun1 & Hw1 & [Ho Hi _ _ _]).
    rewrite Hrun1 in Hrun. simplify_eq. split; [done|]. split.
    + by rewrite <- !(assoc_L (++)), <- Ho.
    + rewrite Hsnt, <- !(assoc_L (++)), Hi. done.
Qed.
End write_ok.

(** The write buffer is a bounded queue. However long it runs, with users that keep to
    [wpermitted], what it accepted is what it sent followed by what is pending, in order; every write
    it sent is released once, when memory has answered it, or is still in flight; it never holds
    more than the configured number; and no clock edge fails: each takes a request unless the buffer
    was full and nothing was released, and sends the oldest unless the queue to memory is full. *)
Theorem write_buffer_fifo config_ pkts w acc snt rel : wreach config_ pkts w acc snt rel ->
  acc = snt ++ pending_entries_ w /\ snt ≡ₚ rel ++ (map_to_list (w_inflight w)).*2 /\
  (Occupancy w <= write_buffer_entries config_)%nat /\
  forall win out inp, wpermitted pkts w win out inp ->
    exists win' out' inp' w', w_Tick config_ pkts win out inp w = Ok (nb_peek inp, win', out', inp', w') /\
      w_edge config_ w win out inp w' win' out' inp'.
Proof.
  intros Hr. destruct (wreach_ok _ _ _ _ _ _ Hr) as (Hw & Hacc & Hsnt). split; [done|]. split; [done|].
  split; [apply Hw|]. intros win out inp Hp.
  destruct (w_Tick_spec _ _ _ _ _ _ Hw Hp) as (win' & out' & inp' & w' & Hrun & _ & He). eauto 10.
Qed.

(** ** An example: two entries, one packet *)

Definition write_param : Param := mkParam kLRU kWriteBack kWriteAllocate 32 8 2 2 2 2 2 2 [] true 0.
Definition one_write (t : PacketType) : gmap nat Packet :=
  {[ 7%nat := mkPacket 1 None t false false false false false 0 (mkLocation 0 0) None false (Some (OwnedGp 3)) ]}.
Definition one_waiting : tlm_fifo nat := mkFifo [7%nat] 2 1 0 0.
(** The write buffer after one clock edge: the packet was accepted and sent. *)
Definition one_sent : WriteBuffer := mkWBuf [] {[ OwnedGp 3 := 7%nat ]}.
Lemma one_sent_reached : wreach write_param (one_write kMemWriteReq) one_sent [7%nat] [7%nat] [].
Proof.
  apply (wr_tick _ (one_write kMemWriteReq) WriteBuffer_init [] [] [] one_waiting (fifo_init 2) (fifo_init 2) None
    (mkFifo [] 2 1 1 0) (mkFifo [7%nat] 2 0 0 1) (fifo_init 2) one_sent); [apply wr_start| |vm_compute; reflexivity].
  split; [split_and!; split; simpl; lia| |done]. intros p [= <-]. split; [done|]. exists (OwnedGp 3). split; [done|].
  intros q Hq. by apply not_elem_of_nil in Hq.
Qed.
Lemma write_buffer_fifo_witness : wreach write_param (one_write kMemWriteReq) one_sent [7%nat] [7%nat] [] /\
  [7%nat] = [7%nat] ++ pending_entries_ one_sent /\ [7%nat] ≡ₚ [] ++ (map_to_list (w_inflight one_sent)).*2 /\
  (Occupancy one_sent <= write_buffer_entries write_param)%nat /\
  forall win out inp, wpermitted (one_write kMemWriteReq) one_sent win out inp ->
    exists win' out' inp' w', w_Tick write_param (one_write kMemWriteReq) win out inp one_sent =
        Ok (nb_peek inp, win', out', inp', w') /\ w_edge write_param one_sent win out inp w' win' out' inp'.
Proof. split; [apply one_sent_reached|]. apply (write_buffer_fifo _ _ _ _ _ _ one_sent_reached). Defined.
