(* ===== verification/SimCache.v ===== *)
(** * The cache of the SM simulator (simtix/src/cache/cache.{h,cc}, cache_command.cc,
    cache_hazard.cc, and class MshrFile of mshr_file.cc)

    The controller: a clock edge runs the stages of [Cache::Tick] from the output to the
    input, and the methods of the three modules in it, and then updates their channels.
    Packets and transactions live in two pools; a pointer is the index of its object.

    The sockets are arguments: what the core and memory offer at the edge, and what they
    have room for. A computation of the cache may fail ([res]): a failed assertion, a call
    of [lv::Fatal], a SystemC error. Statistics and logging are left out. The
    deadlock watchdog that [Tick] runs last is off unless SIMTIX_CACHE_WATCHDOG is set;
    whether it ends the simulation, which it does if SIMTIX_CACHE_WATCHDOG_FATAL is set
    and it sees no progress, is an input of the edge, as its counters are not modelled
    and influence nothing else. *)

From stdpp Require Import gmap.
From S2P Require Import Prelude SimFifo SimPacket SimTag SimData SimMemory SimMshr SimVictim SimWrites.

(** ** Objects *)

(** [ObjectPool]: the back of [free_list_] is the head of the list. *)
Record ObjectPool := mkPool { free_list_ : list nat; pool_size : nat }.
Definition pool_init (init_size : nat) : ObjectPool := mkPool (rev (seq 0 init_size)) init_size.
Definition Acquire (pl : ObjectPool) : nat * ObjectPool :=
  match free_list_ pl with
  | [] => (pool_size pl, mkPool [] (S (pool_size pl)))
  | x :: l => (x, mkPool l (pool_size pl))
  end.
Definition Release (x : nat) (pl : ObjectPool) : ObjectPool := mkPool (x :: free_list_ pl) (pool_size pl).

Record RefillNotify := mkNotify { n_address : Z; n_trace_id : nat; n_mshr_id : MshrId }.
Record CacheCommand := mkCommand { c_addr : Z; c_size : Z; c_opcode : Z }.

(** The queues of packets. *)
Inductive queue :=
  | core_req_queue_ | core_resp_queue_ | tag_array_resp_queue_ | mshr_file_mem_req_queue_ | mshr_file_replay_queue_
  | write_buffer_mem_req_queue_ | write_buffer_mem_req_out_queue_ | write_buffer_mem_resp_queue_
  | victim_buffer_mem_req_out_queue_ | victim_buffer_mem_resp_queue_ | bypass_req_queue_ | mem_resp_queue_.
#[global] Instance queue_eq : EqDecision queue.
Proof. solve_decision. Defined.

(** ** Sequencers *)

Inductive AtomicPhase :=
  | kAtomicIdle | kWaitReplay | kReadOld | kWriteNewRespond | kWaitBypassDrain | kFlushBypassLine | kWaitBypassWriteback
  | kWaitBypassResponse.
#[global] Instance AtomicPhase_eq : EqDecision AtomicPhase.
Proof. solve_decision. Defined.
Record AtomicSequencer := mkAtomicSeq {
  a_phase : AtomicPhase; a_packet : option nat; old_value : list Z; new_value : list Z }.
Definition atomic_idle : AtomicSequencer := mkAtomicSeq kAtomicIdle None (replicate 8 0) (replicate 8 0).
Definition a_IsBusy (s : AtomicSequencer) : bool := negb (bool_decide (a_phase s = kAtomicIdle)).
Definition a_Start (p : nat) (phase : AtomicPhase) (s : AtomicSequencer) : res AtomicSequencer :=
  massert (negb (a_IsBusy s));; Ok (mkAtomicSeq phase (Some p) (old_value s) (new_value s)).
Definition set_phase (phase : AtomicPhase) (s : AtomicSequencer) : AtomicSequencer :=
  mkAtomicSeq phase (a_packet s) (old_value s) (new_value s).

Inductive CommandOpcode := kNop | kFlush | kInvalidate.
#[global] Instance CommandOpcode_eq : EqDecision CommandOpcode.
Proof. solve_decision. Defined.
Inductive CommandPhase := kIdle | kWaitPipelineDrain | kScan | kWaitWritebackDrain | kComplete.
#[global] Instance CommandPhase_eq : EqDecision CommandPhase.
Proof. solve_decision. Defined.
Record CommandSequencer := mkCommandSeq {
  c_phase : CommandPhase; opcode : CommandOpcode; full_cache : bool;
  scan_address : Z; end_address : Z; scan_index : nat; entry_count : nat }.
Definition command_idle : CommandSequencer := mkCommandSeq kIdle kNop false 0 0 0 0.
Definition c_IsBusy (s : CommandSequencer) : bool := negb (bool_decide (c_phase s = kIdle)).
Definition c_Start (op : CommandOpcode) (address size block_size : Z) (count : nat) (s : CommandSequencer)
    : res CommandSequencer :=
  massert (negb (c_IsBusy s));;
  let phase := if bool_decide (op = kNop) then kComplete else kWaitPipelineDrain in
  if size =? 0 then Ok (mkCommandSeq phase op true 0 0 0 count)
  else
    let end_ := address +% size in
    let rounded := end_ +% ((block_size - end_ mod block_size) mod block_size) in
    Ok (mkCommandSeq phase op false (address - address mod block_size) rounded 0 count).
Definition set_cphase (phase : CommandPhase) (s : CommandSequencer) : CommandSequencer :=
  mkCommandSeq phase (opcode s) (full_cache s) (scan_address s) (end_address s) (scan_index s) (entry_count s).
Definition next_entry (s : CommandSequencer) : CommandSequencer :=
  mkCommandSeq (c_phase s) (opcode s) (full_cache s) (scan_address s) (end_address s) (S (scan_index s)) (entry_count s).
Definition next_line (block_size : Z) (s : CommandSequencer) : CommandSequencer :=
  mkCommandSeq (c_phase s) (opcode s) (full_cache s) (scan_address s +% block_size) (end_address s) (scan_index s)
    (entry_count s).
Record CommandRegs := mkRegs { cmd_active_ : bool; cmd_addr_ : Z; cmd_size_ : Z; cmd_opcode_ : CommandOpcode }.

(** ** State *)

Record Cache (E : Type) := mkCache {
  pkts : gmap nat Packet;
  packet_pool_ : ObjectPool;
  unique_id_counter_ : nat;
  gps : gmap gp_ptr Gp;
  mem_payload_pool_ : ObjectPool;
  queues : queue -> tlm_fifo nat;
  mshr_file_refill_notify_queue_ : tlm_fifo RefillNotify;
  cmd_requests : tlm_fifo CacheCommand;
  cmd_responses : tlm_fifo bool;
  c_tags : TagArray E;
  c_data : DataArray;
  mshr_file_ : MshrCore;
  write_buffer_ : WriteBuffer;
  victim_buffer_ : VictimBuffer;
  mem_inflight_packets_ : gmap gp_ptr nat;
  mem_response_slots_in_use_ : nat;
  atomic_sequencer_ : AtomicSequencer;
  cmd_sequencer_ : CommandSequencer;
  cmd_ : CommandRegs;
  defer_mshr_mem_req_for_write_buffer_ : bool;
  line_escape_hazards_ : gmap Z nat;
}.
Arguments mkCache {E}.
Arguments pkts {E}.
Arguments packet_pool_ {E}.
Arguments unique_id_counter_ {E}.
Arguments gps {E}.
Arguments mem_payload_pool_ {E}.
Arguments queues {E}.
Arguments mshr_file_refill_notify_queue_ {E}.
Arguments cmd_requests {E}.
Arguments cmd_responses {E}.
Arguments c_tags {E}.
Arguments c_data {E}.
Arguments mshr_file_ {E}.
Arguments write_buffer_ {E}.
Arguments victim_buffer_ {E}.
Arguments mem_inflight_packets_ {E}.
Arguments mem_response_slots_in_use_ {E}.
Arguments atomic_sequencer_ {E}.
Arguments cmd_sequencer_ {E}.
Arguments cmd_ {E}.
Arguments defer_mshr_mem_req_for_write_buffer_ {E}.
Arguments line_escape_hazards_ {E}.

(** What core and memory offer at a clock edge: the head of the requests, room for a
    response, room for a request, the head of the responses; whether the watchdog ends the
    simulation; and what the edge did. *)
Record Inputs := mkInputs { in_core_req : option gp_ptr; in_core_room : bool; in_mem_room : bool; in_mem_resp : option gp_ptr;
  in_deadlock : bool }.
Record Outputs := mkOutputs { out_core_req : option gp_ptr; out_core_resp : option gp_ptr; out_mem_req : option gp_ptr; out_mem_resp : option gp_ptr }.

Section cache.
Context {E : Type} `{RandomEngine E} (config_ : Param) (error_throws : bool).
Notation bs := (bs config_).

Definition set_pkts (x : gmap nat Packet) (c : Cache E) : Cache E :=
  mkCache x (packet_pool_ c) (unique_id_counter_ c) (gps c) (mem_payload_pool_ c) (queues c)
    (mshr_file_refill_notify_queue_ c) (cmd_requests c) (cmd_responses c) (c_tags c) (c_data c) (mshr_file_
    c) (write_buffer_ c) (victim_buffer_ c) (mem_inflight_packets_ c) (mem_response_slots_in_use_ c)
    (atomic_sequencer_ c) (cmd_sequencer_ c) (cmd_ c) (defer_mshr_mem_req_for_write_buffer_ c)
    (line_escape_hazards_ c).
Definition set_packet_pool (x : ObjectPool) (c : Cache E) : Cache E :=
  mkCache (pkts c) x (unique_id_counter_ c) (gps c) (mem_payload_pool_ c) (queues c)
    (mshr_file_refill_notify_queue_ c) (cmd_requests c) (cmd_responses c) (c_tags c) (c_data c) (mshr_file_
    c) (write_buffer_ c) (victim_buffer_ c) (mem_inflight_packets_ c) (mem_response_slots_in_use_ c)
    (atomic_sequencer_ c) (cmd_sequencer_ c) (cmd_ c) (defer_mshr_mem_req_for_write_buffer_ c)
    (line_escape_hazards_ c).
Definition set_unique_id (x : nat) (c : Cache E) : Cache E :=
  mkCache (pkts c) (packet_pool_ c) x (gps c) (mem_payload_pool_ c) (queues c)
    (mshr_file_refill_notify_queue_ c) (cmd_requests c) (cmd_responses c) (c_tags c) (c_data c) (mshr_file_
    c) (write_buffer_ c) (victim_buffer_ c) (mem_inflight_packets_ c) (mem_response_slots_in_use_ c)
    (atomic_sequencer_ c) (cmd_sequencer_ c) (cmd_ c) (defer_mshr_mem_req_for_write_buffer_ c)
    (line_escape_hazards_ c).
Definition set_gps (x : gmap gp_ptr Gp) (c : Cache E) : Cache E :=
  mkCache (pkts c) (packet_pool_ c) (unique_id_counter_ c) x (mem_payload_pool_ c) (queues c)
    (mshr_file_refill_notify_queue_ c) (cmd_requests c) (cmd_responses c) (c_tags c) (c_data c) (mshr_file_
    c) (write_buffer_ c) (victim_buffer_ c) (mem_inflight_packets_ c) (mem_response_slots_in_use_ c)
    (atomic_sequencer_ c) (cmd_sequencer_ c) (cmd_ c) (defer_mshr_mem_req_for_write_buffer_ c)
    (line_escape_hazards_ c).
Definition set_payload_pool (x : ObjectPool) (c : Cache E) : Cache E :=
  mkCache (pkts c) (packet_pool_ c) (unique_id_counter_ c) (gps c) x (queues c)
    (mshr_file_refill_notify_queue_ c) (cmd_requests c) (cmd_responses c) (c_tags c) (c_data c) (mshr_file_
    c) (write_buffer_ c) (victim_buffer_ c) (mem_inflight_packets_ c) (mem_response_slots_in_use_ c)
    (atomic_sequencer_ c) (cmd_sequencer_ c) (cmd_ c) (defer_mshr_mem_req_for_write_buffer_ c)
    (line_escape_hazards_ c).
Definition set_queues (x : queue -> tlm_fifo nat) (c : Cache E) : Cache E :=
  mkCache (pkts c) (packet_pool_ c) (unique_id_counter_ c) (gps c) (mem_payload_pool_ c) x
    (mshr_file_refill_notify_queue_ c) (cmd_requests c) (cmd_responses c) (c_tags c) (c_data c) (mshr_file_
    c) (write_buffer_ c) (victim_buffer_ c) (mem_inflight_packets_ c) (mem_response_slots_in_use_ c)
    (atomic_sequencer_ c) (cmd_sequencer_ c) (cmd_ c) (defer_mshr_mem_req_for_write_buffer_ c)
    (line_escape_hazards_ c).
Definition set_notify (x : tlm_fifo RefillNotify) (c : Cache E) : Cache E :=
  mkCache (pkts c) (packet_pool_ c) (unique_id_counter_ c) (gps c) (mem_payload_pool_ c) (queues c) x
    (cmd_requests c) (cmd_responses c) (c_tags c) (c_data c) (mshr_file_ c) (write_buffer_ c)
    (victim_buffer_ c) (mem_inflight_packets_ c) (mem_response_slots_in_use_ c) (atomic_sequencer_ c)
    (cmd_sequencer_ c) (cmd_ c) (defer_mshr_mem_req_for_write_buffer_ c) (line_escape_hazards_ c).
Definition set_requests (x : tlm_fifo CacheCommand) (c : Cache E) : Cache E :=
  mkCache (pkts c) (packet_pool_ c) (unique_id_counter_ c) (gps c) (mem_payload_pool_ c) (queues c)
    (mshr_file_refill_notify_queue_ c) x (cmd_responses c) (c_tags c) (c_data c) (mshr_file_ c)
    (write_buffer_ c) (victim_buffer_ c) (mem_inflight_packets_ c) (mem_response_slots_in_use_ c)
    (atomic_sequencer_ c) (cmd_sequencer_ c) (cmd_ c) (defer_mshr_mem_req_for_write_buffer_ c)
    (line_escape_hazards_ c).
Definition set_responses (x : tlm_fifo bool) (c : Cache E) : Cache E :=
  mkCache (pkts c) (packet_pool_ c) (unique_id_counter_ c) (gps c) (mem_payload_pool_ c) (queues c)
    (mshr_file_refill_notify_queue_ c) (cmd_requests c) x (c_tags c) (c_data c) (mshr_file_ c)
    (write_buffer_ c) (victim_buffer_ c) (mem_inflight_packets_ c) (mem_response_slots_in_use_ c)
    (atomic_sequencer_ c) (cmd_sequencer_ c) (cmd_ c) (defer_mshr_mem_req_for_write_buffer_ c)
    (line_escape_hazards_ c).
Definition set_tags (x : TagArray E) (c : Cache E) : Cache E :=
  mkCache (pkts c) (packet_pool_ c) (unique_id_counter_ c) (gps c) (mem_payload_pool_ c) (queues c)
    (mshr_file_refill_notify_queue_ c) (cmd_requests c) (cmd_responses c) x (c_data c) (mshr_file_ c)
    (write_buffer_ c) (victim_buffer_ c) (mem_inflight_packets_ c) (mem_response_slots_in_use_ c)
    (atomic_sequencer_ c) (cmd_sequencer_ c) (cmd_ c) (defer_mshr_mem_req_for_write_buffer_ c)
    (line_escape_hazards_ c).
Definition set_datas (x : DataArray) (c : Cache E) : Cache E :=
  mkCache (pkts c) (packet_pool_ c) (unique_id_counter_ c) (gps c) (mem_payload_pool_ c) (queues c)
    (mshr_file_refill_notify_queue_ c) (cmd_requests c) (cmd_responses c) (c_tags c) x (mshr_file_ c)
    (write_buffer_ c) (victim_buffer_ c) (mem_inflight_packets_ c) (mem_response_slots_in_use_ c)
    (atomic_sequencer_ c) (cmd_sequencer_ c) (cmd_ c) (defer_mshr_mem_req_for_write_buffer_ c)
    (line_escape_hazards_ c).
Definition set_mshr (x : MshrCore) (c : Cache E) : Cache E :=
  mkCache (pkts c) (packet_pool_ c) (unique_id_counter_ c) (gps c) (mem_payload_pool_ c) (queues c)
    (mshr_file_refill_notify_queue_ c) (cmd_requests c) (cmd_responses c) (c_tags c) (c_data c) x
    (write_buffer_ c) (victim_buffer_ c) (mem_inflight_packets_ c) (mem_response_slots_in_use_ c)
    (atomic_sequencer_ c) (cmd_sequencer_ c) (cmd_ c) (defer_mshr_mem_req_for_write_buffer_ c)
    (line_escape_hazards_ c).
Definition set_wbuf (x : WriteBuffer) (c : Cache E) : Cache E :=
  mkCache (pkts c) (packet_pool_ c) (unique_id_counter_ c) (gps c) (mem_payload_pool_ c) (queues c)
    (mshr_file_refill_notify_queue_ c) (cmd_requests c) (cmd_responses c) (c_tags c) (c_data c) (mshr_file_
    c) x (victim_buffer_ c) (mem_inflight_packets_ c) (mem_response_slots_in_use_ c) (atomic_sequencer_ c)
    (cmd_sequencer_ c) (cmd_ c) (defer_mshr_mem_req_for_write_buffer_ c) (line_escape_hazards_ c).
Definition set_vbuf (x : VictimBuffer) (c : Cache E) : Cache E :=
  mkCache (pkts c) (packet_pool_ c) (unique_id_counter_ c) (gps c) (mem_payload_pool_ c) (queues c)
    (mshr_file_refill_notify_queue_ c) (cmd_requests c) (cmd_responses c) (c_tags c) (c_data c) (mshr_file_
    c) (write_buffer_ c) x (mem_inflight_packets_ c) (mem_response_slots_in_use_ c) (atomic_sequencer_ c)
    (cmd_sequencer_ c) (cmd_ c) (defer_mshr_mem_req_for_write_buffer_ c) (line_escape_hazards_ c).
Definition set_inflight (x : gmap gp_ptr nat) (c : Cache E) : Cache E :=
  mkCache (pkts c) (packet_pool_ c) (unique_id_counter_ c) (gps c) (mem_payload_pool_ c) (queues c)
    (mshr_file_refill_notify_queue_ c) (cmd_requests c) (cmd_responses c) (c_tags c) (c_data c) (mshr_file_
    c) (write_buffer_ c) (victim_buffer_ c) x (mem_response_slots_in_use_ c) (atomic_sequencer_ c)
    (cmd_sequencer_ c) (cmd_ c) (defer_mshr_mem_req_for_write_buffer_ c) (line_escape_hazards_ c).
Definition set_slots (x : nat) (c : Cache E) : Cache E :=
  mkCache (pkts c) (packet_pool_ c) (unique_id_counter_ c) (gps c) (mem_payload_pool_ c) (queues c)
    (mshr_file_refill_notify_queue_ c) (cmd_requests c) (cmd_responses c) (c_tags c) (c_data c) (mshr_file_
    c) (write_buffer_ c) (victim_buffer_ c) (mem_inflight_packets_ c) x (atomic_sequencer_ c)
    (cmd_sequencer_ c) (cmd_ c) (defer_mshr_mem_req_for_write_buffer_ c) (line_escape_hazards_ c).
Definition set_aseq (x : AtomicSequencer) (c : Cache E) : Cache E :=
  mkCache (pkts c) (packet_pool_ c) (unique_id_counter_ c) (gps c) (mem_payload_pool_ c) (queues c)
    (mshr_file_refill_notify_queue_ c) (cmd_requests c) (cmd_responses c) (c_tags c) (c_data c) (mshr_file_
    c) (write_buffer_ c) (victim_buffer_ c) (mem_inflight_packets_ c) (mem_response_slots_in_use_ c) x
    (cmd_sequencer_ c) (cmd_ c) (defer_mshr_mem_req_for_write_buffer_ c) (line_escape_hazards_ c).
Definition set_cseq (x : CommandSequencer) (c : Cache E) : Cache E :=
  mkCache (pkts c) (packet_pool_ c) (unique_id_counter_ c) (gps c) (mem_payload_pool_ c) (queues c)
    (mshr_file_refill_notify_queue_ c) (cmd_requests c) (cmd_responses c) (c_tags c) (c_data c) (mshr_file_
    c) (write_buffer_ c) (victim_buffer_ c) (mem_inflight_packets_ c) (mem_response_slots_in_use_ c)
    (atomic_sequencer_ c) x (cmd_ c) (defer_mshr_mem_req_for_write_buffer_ c) (line_escape_hazards_ c).
Definition set_cmd (x : CommandRegs) (c : Cache E) : Cache E :=
  mkCache (pkts c) (packet_pool_ c) (unique_id_counter_ c) (gps c) (mem_payload_pool_ c) (queues c)
    (mshr_file_refill_notify_queue_ c) (cmd_requests c) (cmd_responses c) (c_tags c) (c_data c) (mshr_file_
    c) (write_buffer_ c) (victim_buffer_ c) (mem_inflight_packets_ c) (mem_response_slots_in_use_ c)
    (atomic_sequencer_ c) (cmd_sequencer_ c) x (defer_mshr_mem_req_for_write_buffer_ c)
    (line_escape_hazards_ c).
Definition set_defer (x : bool) (c : Cache E) : Cache E :=
  mkCache (pkts c) (packet_pool_ c) (unique_id_counter_ c) (gps c) (mem_payload_pool_ c) (queues c)
    (mshr_file_refill_notify_queue_ c) (cmd_requests c) (cmd_responses c) (c_tags c) (c_data c) (mshr_file_
    c) (write_buffer_ c) (victim_buffer_ c) (mem_inflight_packets_ c) (mem_response_slots_in_use_ c)
    (atomic_sequencer_ c) (cmd_sequencer_ c) (cmd_ c) x (line_escape_hazards_ c).
Definition set_hazards (x : gmap Z nat) (c : Cache E) : Cache E :=
  mkCache (pkts c) (packet_pool_ c) (unique_id_counter_ c) (gps c) (mem_payload_pool_ c) (queues c)
    (mshr_file_refill_notify_queue_ c) (cmd_requests c) (cmd_responses c) (c_tags c) (c_data c) (mshr_file_
    c) (write_buffer_ c) (victim_buffer_ c) (mem_inflight_packets_ c) (mem_response_slots_in_use_ c)
    (atomic_sequencer_ c) (cmd_sequencer_ c) (cmd_ c) (defer_mshr_mem_req_for_write_buffer_ c) x.

(** ** Computations of the cache *)

Definition M (A : Type) : Type := Cache E -> res (A * Cache E).
#[global] Instance M_ret : MRet M := fun A a c => Ok (a, c).
#[global] Instance M_bind : MBind M := fun A B f m c =>
  match m c with Ok (a, c') => f a c' | Err e => Err e end.
Definition gets {A} (f : Cache E -> A) : M A := fun c => Ok (f c, c).
Definition modify (f : Cache E -> Cache E) : M unit := fun c => Ok (tt, f c).
Definition lift {A} (r : res A) : M A := fun c => match r with Ok a => Ok (a, c) | Err e => Err e end.
Definition fail {A} (e : fault) : M A := fun _ => Err e.
Definition assert (b : bool) : M unit := if b then mret tt else fail Assertion.
Definition when (b : bool) (m : M unit) : M unit := if b then m else mret tt.

(** Queues: [nb_get] and [nb_put] with the assertion that they succeed. *)
Definition put_queue (q : queue) (f : tlm_fifo nat) (c : Cache E) : Cache E :=
  set_queues (fun q' => if decide (q' = q) then f else queues c q') c.
Definition can_get (q : queue) : M bool := gets (fun c => nb_can_get (queues c q)).
Definition can_put (q : queue) : M bool := gets (fun c => nb_can_put (queues c q)).
Definition getq (q : queue) : M nat :=
  f ← gets (fun c => queues c q);
  match nb_get f with Some (p, f') => modify (put_queue q f');; mret p | None => fail Assertion end.
Definition putq (q : queue) (p : nat) : M unit :=
  f ← gets (fun c => queues c q);
  match nb_put p f with Some f' => modify (put_queue q f') | None => fail Assertion end.
Definition peekq (q : queue) : M nat :=
  f ← gets (fun c => queues c q);
  match nb_peek f with Some p => mret p | None => fail Assertion end.
(** [nb_get] of a packet that was seen at the head before. *)
Definition dequeue (q : queue) (p : nat) : M unit := p' ← getq q; assert (bool_decide (p' = p)).

(** Objects behind pointers. *)
Definition packet (p : nat) : M Packet :=
  c ← gets (fun c => pkts c !! p);
  match c with Some pkt => mret pkt | None => fail FatalError end.
Definition put_packet (p : nat) (pkt : Packet) : M unit := modify (fun c => set_pkts (<[p := pkt]> (pkts c)) c).
Definition deref (a : gp_ptr) : M Gp :=
  g ← gets (fun c => gps c !! a);
  match g with Some g => mret g | None => fail FatalError end.
Definition put_gp (a : gp_ptr) (g : Gp) : M unit := modify (fun c => set_gps (<[a := g]> (gps c)) c).
Definition GetTlmGp (p : nat) : M gp_ptr := ps ← gets pkts; lift (gp_of ps p).
Definition gp (p : nat) : M Gp := a ← GetTlmGp p; deref a.
Definition GetAddress (p : nat) : M Z := g ← gp p; mret (gp_address g).
Definition is_write (p : nat) : M bool := g ← gp p; mret (gp_is_write g).
Definition type_of (p : nat) : M PacketType := pkt ← packet p; mret (type_ pkt).

(** ** Pools *)

Definition AcquirePacket (a : gp_ptr) : M nat :=
  pl ← gets packet_pool_;
  let '(p, pl) := Acquire pl in
  modify (set_packet_pool pl);;
  n ← gets unique_id_counter_;
  modify (set_unique_id (S n));;
  put_packet p (mkPacket n None kUnused false false false false false 0 (mkLocation 0 0) None false (Some a));;
  mret p.
Definition AcquirePayload : M gp_ptr :=
  pl ← gets mem_payload_pool_;
  let '(n, pl) := Acquire pl in
  modify (set_payload_pool pl);;
  put_gp (OwnedGp n) payload_reset;;
  mret (OwnedGp n).
Definition AllocatePacketWithOwnedPayload : M nat := a ← AcquirePayload; AcquirePacket a.
Definition ReleasePacket (p : nat) : M unit :=
  pkt ← packet p;
  match payload_ pkt with
  | Some (CoreGp _) => mret tt
  | Some (OwnedGp n) =>
      put_gp (OwnedGp n) payload_reset;;
      pl ← gets mem_payload_pool_; modify (set_payload_pool (Release n pl))
  | None => fail Assertion
  end;;
  put_packet p packet_reset;;
  pl ← gets packet_pool_; modify (set_packet_pool (Release p pl)).
(** [GetCacheOwnedPayload] *)
Definition owned_payload (p : nat) : M gp_ptr :=
  pkt ← packet p;
  match payload_ pkt with Some (OwnedGp n) => mret (OwnedGp n) | _ => fail Assertion end.
Definition SetTraceParent (child parent : nat) : M unit :=
  c ← packet child; p ← packet parent;
  put_packet child (mkPacket (unique_id c) (Some (unique_id p)) (type_ c) (is_atomic c) (is_non_cacheable c) (is_hit c)
    (has_victim c) (is_victim_dirty c) (victim_address c) (location c) (mshr_id c) (is_last_replay c) (payload_ c)).
Definition set_atomic (b : bool) (p : Packet) : Packet :=
  mkPacket (unique_id p) (trace_parent_id p) (type_ p) b (is_non_cacheable p) (is_hit p) (has_victim p)
    (is_victim_dirty p) (victim_address p) (location p) (mshr_id p) (is_last_replay p) (payload_ p).
Definition set_non_cacheable (b : bool) (p : Packet) : Packet :=
  mkPacket (unique_id p) (trace_parent_id p) (type_ p) (is_atomic p) b (is_hit p) (has_victim p)
    (is_victim_dirty p) (victim_address p) (location p) (mshr_id p) (is_last_replay p) (payload_ p).
Definition set_mshr_id (i : MshrId) (p : Packet) : Packet :=
  mkPacket (unique_id p) (trace_parent_id p) (type_ p) (is_atomic p) (is_non_cacheable p) (is_hit p) (has_victim p)
    (is_victim_dirty p) (victim_address p) (location p) (Some i) (is_last_replay p) (payload_ p).
Definition mod_packet (p : nat) (f : Packet -> Packet) : M unit := pkt ← packet p; put_packet p (f pkt).

(** ** Escape hazards (cache_hazard.cc) *)

Definition HasLineEscapeHazard (line_address : Z) : M bool :=
  gets (fun c => match line_escape_hazards_ c !! line_address with Some n => negb (n =? 0)%nat | None => false end).
Definition ShouldStallForLineEscapeHazard (p : nat) : M bool :=
  a ← GetAddress p; HasLineEscapeHazard (ToLineAddress config_ a).
Definition IncrementLineEscapeHazardForLine (line_address : Z) : M unit :=
  modify (fun c => set_hazards (<[line_address := S (default 0%nat (line_escape_hazards_ c !! line_address))]>
                                  (line_escape_hazards_ c)) c).
Definition IncrementLineEscapeHazard (p : nat) : M unit :=
  a ← GetAddress p; IncrementLineEscapeHazardForLine (ToLineAddress config_ a).
Definition DecrementLineEscapeHazardForLine (line_address : Z) : M unit :=
  h ← gets line_escape_hazards_;
  match h !! line_address with
  | None => fail Assertion
  | Some 0%nat => fail Assertion
  | Some 1%nat => modify (set_hazards (delete line_address h))
  | Some (S n) => modify (set_hazards (<[line_address := n]> h))
  end.
Definition DecrementLineEscapeHazard (p : nat) : M unit :=
  a ← GetAddress p; DecrementLineEscapeHazardForLine (ToLineAddress config_ a).

(** ** Class MshrFile (mshr_file.cc) *)

Inductive AcceptStatus := kRejected | kAcceptedPrimary | kAcceptedSecondary.
#[global] Instance AcceptStatus_eq : EqDecision AcceptStatus.
Proof. solve_decision. Defined.
Definition IsAcceptable (status : ProbeStatus) : bool :=
  match status with kAcceptablePrimaryMiss | kAcceptableSecondaryMiss => true | _ => false end.
Definition HasLineEntry (status : ProbeStatus) : bool :=
  match status with kAcceptableSecondaryMiss | kSubentryFull | kStReplaying => true | _ => false end.
Definition mshr_probe (p : nat) : M (ProbeStatus * option nat) :=
  a ← GetAddress p; m ← gets mshr_file_; lift (ProbeMiss config_ a m).
Definition AllocateMshrReadReqPacket (primary : nat) (read_address : Z) (id : MshrId) : M nat :=
  t ← type_of primary;
  assert (bool_decide (t = kCoreReq));;
  p ← AllocatePacketWithOwnedPayload;
  pkt ← packet primary;
  mod_packet p (fun q => set_mshr_id id (set_atomic (is_atomic pkt) (set_type kMshrReadReq q)));;
  SetTraceParent p primary;;
  a ← owned_payload p;
  put_gp a (InitRead read_address bs);;
  mret p.
Definition MshrFile_TryAcceptMiss (p : nat) (reservation : option Reservation) : M AcceptStatus :=
  t ← type_of p;
  assert (bool_decide (t = kCoreReq));;
  '(status, entry) ← mshr_probe p;
  match status, entry with
  | kAcceptablePrimaryMiss, Some i =>
      match reservation with
      | None => mret kRejected
      | Some r =>
          room ← can_put mshr_file_mem_req_queue_;
          if negb (room : bool) then mret kRejected
          else
            a ← GetAddress p;
            m ← gets mshr_file_;
            '(read_address, id, m) ← lift (AllocatePrimaryMiss config_ i p a r m);
            modify (set_mshr m);;
            q ← AllocateMshrReadReqPacket p read_address id;
            putq mshr_file_mem_req_queue_ q;;
            mret kAcceptedPrimary
      end
  | kAcceptableSecondaryMiss, Some i =>
      assert (bool_decide (reservation = None));;
      a ← GetAddress p;
      m ← gets mshr_file_;
      m ← lift (AddSecondaryMiss config_ i p a m);
      modify (set_mshr m);;
      mret kAcceptedSecondary
  | _, _ => mret kRejected
  end.
Definition MshrFile_TakeVictimReservation (id : MshrId) : M Reservation :=
  m ← gets mshr_file_;
  '(r, m) ← lift (TakeVictimReservation id m);
  modify (set_mshr m);; mret r.
Definition ProcessRefillNotify : M unit :=
  f ← gets mshr_file_refill_notify_queue_;
  match nb_get f with
  | None => mret tt
  | Some (n, f) =>
      modify (set_notify f);;
      m ← gets mshr_file_;
      m ← lift (NotifyRefill (n_mshr_id n) m);
      modify (set_mshr m)
  end.
Definition ProcessReplay : M unit :=
  m ← gets mshr_file_;
  if negb (HasReplayPacket m) then mret tt
  else
    room ← can_put mshr_file_replay_queue_;
    if negb (room : bool) then mret tt
    else
      '(o, m) ← lift (PopReplayPacket m);
      modify (set_mshr m);;
      match o with
      | None => fail Assertion
      | Some (p, last) =>
          mod_packet p (replayed last);;
          putq mshr_file_replay_queue_ p
      end.
Definition MshrFile_Tick : M unit := ProcessRefillNotify;; ProcessReplay.

(** The other two modules: their files have the method of each, over the queues it is bound to. *)
Definition release_some (o : option nat) : M unit := match o with Some p => ReleasePacket p | None => mret tt end.
Definition WriteBuffer_Tick : M unit :=
  c ← gets id;
  '(released, fin, fout, fresp, w) ←
    lift (w_Tick config_ (pkts c) (queues c write_buffer_mem_req_queue_) (queues c write_buffer_mem_req_out_queue_)
            (queues c write_buffer_mem_resp_queue_) (write_buffer_ c));
  modify (put_queue write_buffer_mem_req_queue_ fin);;
  modify (put_queue write_buffer_mem_req_out_queue_ fout);;
  modify (put_queue write_buffer_mem_resp_queue_ fresp);;
  modify (set_wbuf w);;
  release_some released.
Definition VictimBuffer_Tick : M unit :=
  c ← gets id;
  '(released, fout, fresp, v) ←
    lift (v_Tick config_ (pkts c) (queues c victim_buffer_mem_req_out_queue_) (queues c victim_buffer_mem_resp_queue_)
            (victim_buffer_ c));
  modify (put_queue victim_buffer_mem_req_out_queue_ fout);;
  modify (put_queue victim_buffer_mem_resp_queue_ fresp);;
  modify (set_vbuf v);;
  release_some released.

(** ** Pending work (cache_command.cc) *)

Definition busy (c : Cache E) (q : queue) : bool := (0 <? used (queues c q))%nat.
Definition HasPendingDataPathWork (c : Cache E) : bool :=
  HasPendingReplayLine (c_tags c) || busy c tag_array_resp_queue_ || busy c mshr_file_mem_req_queue_ ||
  (0 <? used (mshr_file_refill_notify_queue_ c))%nat || busy c mshr_file_replay_queue_ || HasPendingWork (mshr_file_ c) ||
  busy c write_buffer_mem_req_queue_ || busy c write_buffer_mem_req_out_queue_ || busy c write_buffer_mem_resp_queue_ ||
  w_HasPendingWork (write_buffer_ c) || busy c victim_buffer_mem_req_out_queue_ || busy c victim_buffer_mem_resp_queue_ ||
  v_HasPendingWork (victim_buffer_ c) || busy c bypass_req_queue_ || negb (mem_response_slots_in_use_ c =? 0)%nat ||
  busy c mem_resp_queue_ || negb (bool_decide (mem_inflight_packets_ c = ∅)) ||
  negb (bool_decide (line_escape_hazards_ c = ∅)).
Definition HasPendingPipelineWork (c : Cache E) : bool :=
  busy c core_req_queue_ || a_IsBusy (atomic_sequencer_ c) || HasPendingDataPathWork c.
Definition HasPendingCommandWritebackWork (c : Cache E) : bool :=
  busy c write_buffer_mem_req_queue_ || busy c write_buffer_mem_req_out_queue_ || busy c write_buffer_mem_resp_queue_ ||
  w_HasPendingWork (write_buffer_ c) || busy c victim_buffer_mem_req_out_queue_ || busy c victim_buffer_mem_resp_queue_ ||
  v_HasPendingWork (victim_buffer_ c) || negb (mem_response_slots_in_use_ c =? 0)%nat || busy c mem_resp_queue_ ||
  negb (bool_decide (mem_inflight_packets_ c = ∅)) || negb (bool_decide (line_escape_hazards_ c = ∅)).

(** ** Output stage *)

Definition IsNonCacheableRequest (g : Gp) : bool :=
  existsb (fun r => negb (region_size r =? 0) && (region_addr r <=? gp_address g) && (gp_address g - region_addr r <? region_size r))
    (non_cacheable_regions config_).
Definition IsAtomicRequest (g : Gp) : bool := bool_decide (is_Some (gp_atomic g)).
Definition IsValidAtomicRequest (g : Gp) : bool :=
  gp_is_read g && bool_decide (is_Some (gp_data g)) && bool_decide (gp_byte_enable g = None) &&
  ((gp_data_length g =? 4)%nat || (gp_data_length g =? 8)%nat).

Definition one_of (t : PacketType) (l : list PacketType) : bool := existsb (fun t' => bool_decide (t = t')) l.
Definition SendCoreResponse (room : bool) : M (option gp_ptr) :=
  some ← can_get core_resp_queue_;
  if negb some || negb room then mret None
  else
    p ← getq core_resp_queue_;
    t ← type_of p;
    assert (one_of t [kCoreReq; kBypassCoreResp; kReplay]);;
    a ← GetTlmGp p;
    g ← deref a;
    when (negb (bool_decide (t = kBypassCoreResp)) && bool_decide (gp_status g = TLM_INCOMPLETE_RESPONSE))
      (put_gp a (set_status TLM_OK_RESPONSE g));;
    when (bool_decide (t = kBypassCoreResp))
      (DecrementLineEscapeHazard p;;
       s ← gets atomic_sequencer_;
       when (bool_decide (a_packet s = Some p))
         (assert (bool_decide (a_phase s = kWaitBypassResponse));; modify (set_aseq atomic_idle)));;
    ReleasePacket p;;
    mret (Some a).

Definition WriteBufferInputBackpressured (c : Cache E) : bool :=
  busy c write_buffer_mem_req_queue_ &&
  (write_buffer_entries config_ <=? PendingEntryCount (write_buffer_ c) + w_InflightEntryCount (write_buffer_ c))%nat.
Definition ShouldPrioritizeWriteBufferMemRequest (c : Cache E) : bool :=
  busy c write_buffer_mem_req_out_queue_ && (defer_mshr_mem_req_for_write_buffer_ c || WriteBufferInputBackpressured c).
Definition ShouldDeferMshrMemRequestForWriteBuffer (c : Cache E) : bool :=
  if WriteBufferInputBackpressured c then true
  else defer_mshr_mem_req_for_write_buffer_ c &&
       (busy c write_buffer_mem_req_queue_ || busy c write_buffer_mem_req_out_queue_ || w_HasPendingWork (write_buffer_ c)).

(** The packet the arbitration of [SendMemRequest] takes; [None] when the edge sends nothing. *)
Definition SelectMemRequest (slot : bool) : M (option nat) :=
  bypass ← can_get bypass_req_queue_;
  if slot && bypass then p ← getq bypass_req_queue_; mret (Some p)
  else
    victim ← can_get victim_buffer_mem_req_out_queue_;
    if (victim : bool) then p ← getq victim_buffer_mem_req_out_queue_; mret (Some p)
    else
      prio ← gets ShouldPrioritizeWriteBufferMemRequest;
      if (prio : bool) then p ← getq write_buffer_mem_req_out_queue_; modify (set_defer false);; mret (Some p)
      else
        mshr ← can_get mshr_file_mem_req_queue_;
        if slot && mshr then
          def ← gets ShouldDeferMshrMemRequestForWriteBuffer;
          if (def : bool) then modify (set_defer true);; mret None
          else p ← getq mshr_file_mem_req_queue_; mret (Some p)
        else
          wb ← can_get write_buffer_mem_req_out_queue_;
          if (wb : bool) then p ← getq write_buffer_mem_req_out_queue_; modify (set_defer false);; mret (Some p)
          else mret None.
Definition response_capacity (c : Cache E) : nat := m_size (queues c mem_resp_queue_).
Definition SendMemRequest (room : bool) : M (option gp_ptr) :=
  if negb room then mret None
  else
    n ← gets mem_response_slots_in_use_;
    cap ← gets response_capacity;
    assert (n <=? cap)%nat;;
    let slot := (n <? cap)%nat in
    o ← SelectMemRequest slot;
    match o with
    | None => mret None
    | Some p =>
        t ← type_of p;
        assert (one_of t [kBypassCoreReq; kMshrReadReq; kVictimWriteReq; kMemWriteReq]);;
        a ← GetTlmGp p;
        when (one_of t [kMshrReadReq; kBypassCoreReq]) (assert slot;; modify (set_slots (S n)));;
        i ← gets mem_inflight_packets_;
        assert (bool_decide (i !! a = None));;
        modify (set_inflight (<[a := p]> i));;
        mret (Some a)
    end.

(** ** Data array stage *)

Definition AllocateWriteBufferPacketFrom (source : nat) : M nat :=
  src ← packet source;
  assert (one_of (type_ src) [kCoreReq; kReplay]);;
  w ← is_write source;
  assert w;;
  p ← AllocatePacketWithOwnedPayload;
  mod_packet p (set_atomic (is_atomic src));;
  SetTraceParent p source;;
  a ← owned_payload p;
  g ← gp source;
  l ← lift (InitLineWriteFrom g bs);
  put_gp a l;;
  mod_packet p (set_type kMemWriteReq);;
  mret p.
Definition AllocateVictimPacketFrom (refill : nat) : M nat :=
  r ← packet refill;
  assert (bool_decide (type_ r = kRefill));;
  assert (is_victim_dirty r);;
  assert (victim_address r mod block_size_bytes config_ =? 0);;
  p ← AllocatePacketWithOwnedPayload;
  mod_packet p (set_atomic (is_atomic r));;
  SetTraceParent p refill;;
  a ← owned_payload p;
  l ← lift (InitLineWrite (victim_address r) bs);
  put_gp a l;;
  mod_packet p (set_type kVictimWriteReq);;
  mret p.
(** [tag_array_] and [data_array_] on a packet and its transaction. *)
Definition tag_process (now : Z) (p : nat) : M AccessStatus :=
  pkt ← packet p;
  g ← gp p;
  t ← gets c_tags;
  '(st, pkt, t) ← lift (Process config_ now pkt (gp_address g) (gp_is_write g) t);
  modify (set_tags t);; put_packet p pkt;; mret st.
Definition mod_tags (f : TagArray E -> res (TagArray E)) : M unit := t ← gets c_tags; t ← lift (f t); modify (set_tags t).
Definition data_process (p : nat) (vb : option VictimBlock) : M (ProcessResult * option VictimBlock) :=
  pkt ← packet p;
  a ← GetTlmGp p;
  g ← deref a;
  d ← gets c_data;
  '(r, g, vb, d) ← lift (Data_Process config_ error_throws pkt g vb d);
  put_gp a g;; modify (set_datas d);; mret (r, vb).

(** [TryIssueLineWriteback] (cache_command.cc). *)
Definition TryIssueLineWriteback (line : DirtyLine) : M bool :=
  room ← can_put write_buffer_mem_req_queue_;
  if negb (room : bool) then mret false
  else
    p ← AllocatePacketWithOwnedPayload;
    a ← owned_payload p;
    l ← lift (InitLineWrite (dl_address line) bs);
    d ← gets c_data;
    '(read_ok, bytes) ← lift (ReadBlock config_ error_throws (dl_location line) (default [] (gp_data l)) (length (default [] (gp_data l))) d);
    assert read_ok;;
    put_gp a (set_data (Some bytes) l);;
    mod_packet p (fun q => set_atomic false (set_type kMemWriteReq q));;
    IncrementLineEscapeHazard p;;
    putq write_buffer_mem_req_queue_ p;;
    mret true.

(** The answer: whether the sequencer occupied the data stage. *)
Definition AtomicFlushBypassLine (now : Z) (p : nat) : M bool :=
  c ← gets id;
  assert (negb (HasPendingDataPathWork c));;
  room ← can_put write_buffer_mem_req_queue_;
  if negb (room : bool) then mret true
  else
    a ← GetAddress p;
    t ← gets c_tags;
    '(dirty, t) ← lift (ProbeDirtyLine config_ now a t);
    modify (set_tags t);;
    match (dirty : option DirtyLine) with
    | Some line => queued ← TryIssueLineWriteback line; assert queued
    | None => mret tt
    end;;
    mod_tags (InvalidateLine config_ now a);;
    modify (fun c => set_aseq (set_phase kWaitBypassWriteback (atomic_sequencer_ c)) c);;
    mret true.
Definition AtomicReadOld (p : nat) : M unit :=
  pkt ← packet p;
  a ← GetTlmGp p;
  g ← deref a;
  let size := gp_data_length g in
  s ← gets atomic_sequencer_;
  d ← gets c_data;
  '(read_ok, g', old) ← lift (ReadBytes config_ error_throws pkt g (old_value s) size d);
  assert read_ok;;
  match gp_atomic g' with
  | None => fail Assertion
  | Some ext =>
      new ← lift (atomic_new ext size old (default [] (gp_data g')) (new_value s));
      put_gp a g';;
      modify (set_aseq (mkAtomicSeq kWriteNewRespond (a_packet s) old new))
  end.
Definition AtomicWriteNewRespond (p : nat) : M unit :=
  room ← can_put core_resp_queue_;
  if negb (room : bool) then mret tt
  else
    dequeue tag_array_resp_queue_ p;;
    pkt ← packet p;
    a ← GetTlmGp p;
    g ← deref a;
    s ← gets atomic_sequencer_;
    d ← gets c_data;
    '(write_ok, g, d) ← lift (WriteBytes config_ error_throws pkt g (new_value s) (gp_data_length g) d);
    assert write_ok;;
    modify (set_datas d);;
    mod_tags (MarkDirty config_ (location pkt));;
    put_gp a (set_data (Some (memcpy (gp_data_length g) (default [] (gp_data g)) 0 (old_value s) 0)) g);;
    mod_tags (UnlockEntry config_ (location pkt));;
    putq core_resp_queue_ p;;
    modify (set_aseq atomic_idle).
Definition TryAdvanceAtomicDataStage (now : Z) : M bool :=
  s ← gets atomic_sequencer_;
  if negb (a_IsBusy s) then mret false
  else
    match a_packet s with
    | None => fail Assertion
    | Some p =>
        pkt ← packet p;
        assert (is_atomic pkt);;
        if bool_decide (a_phase s = kFlushBypassLine) then AtomicFlushBypassLine now p
        else if negb (bool_decide (a_phase s = kReadOld)) && negb (bool_decide (a_phase s = kWriteNewRespond)) then mret false
        else
          f ← gets (fun c => queues c tag_array_resp_queue_);
          if negb (bool_decide (nb_peek f = Some p)) then mret false
          else
            (if bool_decide (a_phase s = kReadOld) then AtomicReadOld p else AtomicWriteNewRespond p);;
            mret true
    end.

Definition TryProcessDataArrayMiss (p : nat) : M unit :=
  pkt ← packet p;
  assert (negb (is_hit pkt));;
  w ← is_write p;
  if w && bool_decide (write_miss_policy config_ = kWriteNoAllocate) then
    wroom ← can_put write_buffer_mem_req_queue_;
    croom ← can_put core_resp_queue_;
    if negb wroom || negb croom then mret tt
    else
      q ← AllocateWriteBufferPacketFrom p;
      putq write_buffer_mem_req_queue_ q;;
      dequeue tag_array_resp_queue_ p;;
      putq core_resp_queue_ p
  else fail FatalError.

(** The end of a refill: its reservation is used or given back, and the miss registers are told. *)
Definition notify_refill (p : nat) (pkt : Packet) (victim : option nat) : M unit :=
  match mshr_id pkt with
  | None => fail Assertion
  | Some i =>
      r ← MshrFile_TakeVictimReservation i;
      ps ← gets pkts;
      v ← gets victim_buffer_;
      v ← lift (match victim with Some q => Commit config_ r q ps v | None => Cancel config_ r v end);
      modify (set_vbuf v);;
      a ← GetAddress p;
      f ← gets mshr_file_refill_notify_queue_;
      match nb_put (mkNotify a (unique_id pkt) i) f with
      | None => fail Assertion
      | Some f => modify (set_notify f)
      end;;
      ReleasePacket p
  end.
Definition TryProcessDataArrayHit (p : nat) : M unit :=
  pkt ← packet p;
  assert (is_hit pkt);;
  let is_refill_packet := bool_decide (type_ pkt = kRefill) in
  croom ← can_put core_resp_queue_;
  w ← is_write p;
  let is_write_through_packet := one_of (type_ pkt) [kCoreReq; kReplay] && w && bool_decide (write_hit_policy config_ = kWriteThrough) in
  let need_victim_packet := is_refill_packet && w && is_victim_dirty pkt in
  nroom ← gets (fun c => nb_can_put (mshr_file_refill_notify_queue_ c));
  wroom ← can_put write_buffer_mem_req_queue_;
  if (negb is_refill_packet && negb croom) || (is_refill_packet && negb nroom) || (is_write_through_packet && negb wroom) then mret tt
  else
    dequeue tag_array_resp_queue_ p;;
    victim ← (if need_victim_packet then q ← AllocateVictimPacketFrom p; mret (Some q) else mret None);
    '(result, vb) ← data_process p (if need_victim_packet then Some (mkVictim 0 (replicate bs 0)) else None);
    if negb (ok result) then
      assert (negb (victim_generated result));;
      match (victim : option nat) with Some q => ReleasePacket q | None => mret tt end;;
      when is_write_through_packet (DecrementLineEscapeHazard p);;
      when need_victim_packet (DecrementLineEscapeHazardForLine (ToLineAddress config_ (victim_address pkt)));;
      if is_refill_packet then notify_refill p pkt None else putq core_resp_queue_ p
    else
      assert (bool_decide (need_victim_packet = victim_generated result));;
      when is_write_through_packet (q ← AllocateWriteBufferPacketFrom p; putq write_buffer_mem_req_queue_ q);;
      match victim, (vb : option VictimBlock) with
      | Some q, Some b =>
          assert (vb_address b =? victim_address pkt);;
          a ← owned_payload q;
          g ← deref a;
          put_gp a (set_data (Some (vb_data b)) g)
      | _, _ => mret tt
      end;;
      if is_refill_packet then notify_refill p pkt victim else putq core_resp_queue_ p.
Definition AccessDataArrayStage (now : Z) : M unit :=
  occupied ← TryAdvanceAtomicDataStage now;
  if (occupied : bool) then mret tt
  else
    some ← can_get tag_array_resp_queue_;
    if negb (some : bool) then mret tt
    else
      p ← peekq tag_array_resp_queue_;
      pkt ← packet p;
      assert (one_of (type_ pkt) [kCoreReq; kBypassCoreResp; kRefill; kReplay]);;
      if bool_decide (type_ pkt = kBypassCoreResp) then
        room ← can_put core_resp_queue_;
        if negb (room : bool) then mret tt
        else dequeue tag_array_resp_queue_ p;; putq core_resp_queue_ p
      else if negb (is_hit pkt) then TryProcessDataArrayMiss p
      else TryProcessDataArrayHit p.

(** ** Command sequencer (cache_command.cc) *)

Definition mod_cseq (f : CommandSequencer -> CommandSequencer) : M unit := modify (fun c => set_cseq (f (cmd_sequencer_ c)) c).
(** Write a dirty line back, if there is one; the answer is false when it could not be queued. *)
Definition issue_dirty (probe : TagArray E -> res (option DirtyLine * TagArray E)) : M bool :=
  t ← gets c_tags;
  '(dirty, t) ← lift (probe t);
  modify (set_tags t);;
  match (dirty : option DirtyLine) with Some line => TryIssueLineWriteback line | None => mret true end.
Definition TryAdvanceCommandScan (now : Z) : M bool :=
  s ← gets cmd_sequencer_;
  assert (bool_decide (c_phase s = kScan));;
  room ← can_put write_buffer_mem_req_queue_;
  let flush := bool_decide (opcode s = kFlush) in
  if full_cache s then
    if (entry_count s <=? scan_index s)%nat then mret true
    else if flush && negb room then mret false
    else
      issued ← (if flush then issue_dirty (ProbeDirtyEntry config_ now (scan_index s))
                else assert (bool_decide (opcode s = kInvalidate));; mod_tags (InvalidateEntry config_ now (scan_index s));; mret true);
      when issued (mod_cseq next_entry);; mret false
  else if end_address s <=? scan_address s then mret true
  else if flush && negb room then mret false
  else
    issued ← (if flush then issue_dirty (ProbeDirtyLine config_ now (scan_address s))
              else assert (bool_decide (opcode s = kInvalidate));; mod_tags (InvalidateLine config_ now (scan_address s));; mret true);
    when issued (mod_cseq (next_line (block_size_bytes config_)));; mret false.
Definition AdvanceCommandSequencer (now : Z) : M unit :=
  c ← gets id;
  match c_phase (cmd_sequencer_ c) with
  | kIdle => mret tt
  | kWaitPipelineDrain => when (negb (HasPendingPipelineWork c)) (mod_cseq (set_cphase kScan))
  | kScan => complete ← TryAdvanceCommandScan now; when complete (mod_cseq (set_cphase kWaitWritebackDrain))
  | kWaitWritebackDrain => when (negb (HasPendingCommandWritebackWork c)) (mod_cseq (set_cphase kComplete))
  | kComplete =>
      if negb (nb_can_put (cmd_responses c)) then mret tt
      else
        match nb_put true (cmd_responses c) with
        | None => fail Assertion
        | Some f =>
            modify (set_responses f);;
            modify (set_cmd (mkRegs false (cmd_addr_ (cmd_ c)) (cmd_size_ (cmd_ c)) (cmd_opcode_ (cmd_ c))));;
            modify (set_cseq command_idle)
        end
  end.
Definition StartCommandSequencer : M unit :=
  c ← gets id;
  let r := cmd_ c in
  let active := mkRegs true (cmd_addr_ r) (cmd_size_ r) (cmd_opcode_ r) in
  if c_IsBusy (cmd_sequencer_ c) then modify (set_cmd active)
  else
    let max_address := 2 ^ 64 - 1 in
    let end_ := cmd_addr_ r +% cmd_size_ r in
    let round_up := (block_size_bytes config_ - end_ mod block_size_bytes config_) mod block_size_bytes config_ in
    if negb (cmd_size_ r =? 0) && (max_address - cmd_addr_ r <? cmd_size_ r) then fail FatalError
    else if negb (cmd_size_ r =? 0) && (max_address - end_ <? round_up) then fail FatalError
    else
      modify (set_cmd active);;
      s ← lift (c_Start (cmd_opcode_ r) (cmd_addr_ r) (cmd_size_ r) (block_size_bytes config_) (EntryCount (c_tags c)) (cmd_sequencer_ c));
      modify (set_cseq s).
Definition AcceptCommand : M unit :=
  c ← gets id;
  if c_IsBusy (cmd_sequencer_ c) || negb (nb_can_get (cmd_requests c)) then mret tt
  else
    match nb_get (cmd_requests c) with
    | None => fail Assertion
    | Some (cmd, f) =>
        modify (set_requests f);;
        let op := if c_opcode cmd =? 1 then kFlush else if c_opcode cmd =? 2 then kInvalidate else kNop in
        modify (set_cmd (mkRegs (cmd_active_ (cmd_ c)) (c_addr cmd) (c_size cmd) op));;
        StartCommandSequencer
    end.

(** ** Tag array stage *)

Definition TryAcceptMiss (p : nat) (probe : ProbeStatus) : M AcceptStatus :=
  if negb (IsAcceptable probe) then mret kRejected
  else if bool_decide (probe = kAcceptableSecondaryMiss) then MshrFile_TryAcceptMiss p None
  else
    room ← can_put mshr_file_mem_req_queue_;
    if negb (room : bool) then mret kRejected
    else
      v ← gets victim_buffer_;
      '(reservation, v) ← lift (TryReserve config_ v);
      modify (set_vbuf v);;
      match (reservation : option Reservation) with
      | None => mret kRejected
      | Some r =>
          status ← MshrFile_TryAcceptMiss p (Some r);
          assert (bool_decide (status = kAcceptedPrimary));;
          mret status
      end.
Definition start_atomic (p : nat) (phase : AtomicPhase) : M unit :=
  s ← gets atomic_sequencer_; s ← lift (a_Start p phase s); modify (set_aseq s).
(** The answer: whether the request was rejected or its rejection has to wait. *)
Definition TryRejectInvalidAtomicRequest (p : nat) : M bool :=
  pkt ← packet p;
  assert (one_of (type_ pkt) [kCoreReq; kBypassCoreReq]);;
  assert (is_atomic pkt);;
  a ← GetTlmGp p;
  g ← deref a;
  if IsValidAtomicRequest g then mret false
  else
    room ← can_put core_resp_queue_;
    if negb (room : bool) then mret true
    else
      dequeue core_req_queue_ p;;
      put_gp a (set_status TLM_COMMAND_ERROR_RESPONSE g);;
      mod_packet p (set_type kCoreReq);;
      putq core_resp_queue_ p;;
      mret true.
Definition StartForwardedAtomic (p : nat) : M unit :=
  pkt ← packet p;
  assert (bool_decide (type_ pkt = kBypassCoreReq));;
  assert (is_atomic pkt);;
  s ← gets atomic_sequencer_;
  assert (negb (a_IsBusy s));;
  dequeue core_req_queue_ p;;
  start_atomic p kWaitBypassDrain.
(** The core request at the head, when nothing blocks it. *)
Definition SelectCoreRequest (output : bool) : M (option nat) :=
  p ← peekq core_req_queue_;
  s ← gets atomic_sequencer_;
  if a_IsBusy s then mret None
  else
    pkt ← packet p;
    if bool_decide (type_ pkt = kBypassCoreReq) then
      if is_atomic pkt && negb (is_non_cacheable pkt) then
        rejected ← TryRejectInvalidAtomicRequest p;
        when (negb rejected) (StartForwardedAtomic p);;
        mret None
      else
        stall ← ShouldStallForLineEscapeHazard p;
        room ← can_put bypass_req_queue_;
        if stall || negb room then mret None
        else p ← getq core_req_queue_; mret (Some p)
    else
      assert (bool_decide (type_ pkt = kCoreReq));;
      rejected ← (if is_atomic pkt then TryRejectInvalidAtomicRequest p else mret false);
      if (rejected : bool) then mret None
      else
        stall ← ShouldStallForLineEscapeHazard p;
        if stall || negb output then mret None else mret (Some p).
(** The packet that enters the stage: a replay, a response of memory, a core request. Replays,
    bypass responses and bypass requests are taken out of their queues, the others only seen. *)
Definition SelectTagArrayPacket : M (option nat) :=
  output ← can_put tag_array_resp_queue_;
  replay ← can_get mshr_file_replay_queue_;
  blocked ← (if (replay : bool) then p ← peekq mshr_file_replay_queue_; ShouldStallForLineEscapeHazard p else mret false);
  if replay && negb blocked then
    if negb output then mret None else p ← getq mshr_file_replay_queue_; mret (Some p)
  else
    some ← can_get mem_resp_queue_;
    resp ← (if (some : bool) then
              p ← peekq mem_resp_queue_; t ← type_of p;
              assert (one_of t [kRefill; kBypassCoreResp]);;
              mret (Some (p, t))
            else mret None);
    match (resp : option (nat * PacketType)) with
    | Some (p, kBypassCoreResp) =>
        if negb output then mret None
        else
          dequeue mem_resp_queue_ p;;
          n ← gets mem_response_slots_in_use_;
          assert (0 <? n)%nat;;
          modify (set_slots (n - 1));;
          mret (Some p)
    | _ =>
        if (blocked : bool) then mret None
        else
          match resp with
          | Some (p, _) =>
              room ← gets (fun c => nb_can_put (mshr_file_refill_notify_queue_ c));
              if negb output || negb room then mret None else mret (Some p)
          | None =>
              core ← can_get core_req_queue_;
              if (core : bool) then SelectCoreRequest output else mret None
          end
    end.

(** The answer: whether the sequencer occupied the tag stage. *)
Definition TryAdvanceAtomicTagStage : M bool :=
  c ← gets id;
  let s := atomic_sequencer_ c in
  match a_phase s, a_packet s with
  | kWaitBypassDrain, _ =>
      when (negb (HasPendingDataPathWork c)) (modify (set_aseq (set_phase kFlushBypassLine s)));;
      mret false
  | kWaitBypassWriteback, Some p =>
      stall ← ShouldStallForLineEscapeHazard p;
      room ← can_put bypass_req_queue_;
      if stall || negb room then mret false
      else
        IncrementLineEscapeHazard p;;
        putq bypass_req_queue_ p;;
        modify (set_aseq (set_phase kWaitBypassResponse s));;
        mret true
  | kWaitBypassWriteback, None => fail Assertion
  | _, _ => mret false
  end.

(** The three kinds of packets that reach the tag array; the answer is whether the packet goes on. *)
Definition RefillTag (p : nat) (status : AccessStatus) : M bool :=
  if bool_decide (status = StNoVictim) then mret false
  else
    assert (bool_decide (status = StHit));;
    dequeue mem_resp_queue_ p;;
    n ← gets mem_response_slots_in_use_;
    assert (0 <? n)%nat;;
    modify (set_slots (n - 1));;
    w ← is_write p;
    pkt ← packet p;
    when (w && is_victim_dirty pkt) (IncrementLineEscapeHazardForLine (ToLineAddress config_ (victim_address pkt)));;
    mret true.
Definition CoreReqTag (p : nat) (status : AccessStatus) : M bool :=
  if bool_decide (status = StPendingReplay) then mret false
  else
    assert (bool_decide (status = StHit) || bool_decide (status = StMiss));;
    let miss := bool_decide (status = StMiss) in
    w ← is_write p;
    pkt ← packet p;
    probe ← (if miss then '(st, _) ← mshr_probe p; mret (Some st) else mret None);
    let no_allocate := miss && w && bool_decide (write_miss_policy config_ = kWriteNoAllocate) &&
                       match probe with Some st => negb (HasLineEntry st) | None => false end in
    if miss && negb no_allocate then
      status ← (match probe with Some st => TryAcceptMiss p st | None => fail Assertion end);
      if bool_decide (status = kRejected) then mret false
      else
        dequeue core_req_queue_ p;;
        when (is_atomic pkt) (start_atomic p kWaitReplay);;
        mret false
    else
      let write_through_hit := bool_decide (status = StHit) && w && bool_decide (write_hit_policy config_ = kWriteThrough) in
      when (no_allocate || write_through_hit) (IncrementLineEscapeHazard p);;
      dequeue core_req_queue_ p;;
      when (is_atomic pkt) (start_atomic p kReadOld;; mod_tags (LockEntry config_ (location pkt)));;
      mret true.
Definition ReplayTag (p : nat) (status : AccessStatus) : M bool :=
  pkt ← packet p;
  assert (bool_decide (type_ pkt = kReplay));;
  assert (bool_decide (status = StHit));;
  w ← is_write p;
  when (w && bool_decide (write_hit_policy config_ = kWriteThrough)) (IncrementLineEscapeHazard p);;
  when (is_atomic pkt)
    (s ← gets atomic_sequencer_;
     assert (bool_decide (a_packet s = Some p));;
     assert (bool_decide (a_phase s = kWaitReplay));;
     modify (set_aseq (set_phase kReadOld s));;
     mod_tags (LockEntry config_ (location pkt)));;
  mret true.
Definition AccessTagArrayStage (now : Z) : M unit :=
  occupied ← TryAdvanceAtomicTagStage;
  if (occupied : bool) then mret tt
  else
    o ← SelectTagArrayPacket;
    match (o : option nat) with
    | None => mret tt
    | Some p =>
        t ← type_of p;
        if bool_decide (t = kBypassCoreResp) then putq tag_array_resp_queue_ p
        else if bool_decide (t = kBypassCoreReq) then IncrementLineEscapeHazard p;; putq bypass_req_queue_ p
        else
          status ← tag_process now p;
          go ← (if bool_decide (t = kRefill) then RefillTag p status
                else if bool_decide (t = kCoreReq) then CoreReqTag p status else ReplayTag p status);
          when go (putq tag_array_resp_queue_ p)
    end.

(** ** Input stage *)

Definition AcceptCoreRequest (req : option gp_ptr) : M (option gp_ptr) :=
  s ← gets cmd_sequencer_;
  room ← can_put core_req_queue_;
  match req with
  | None => mret None
  | Some a =>
      if c_IsBusy s || negb room then mret None
      else
        g ← deref a;
        let length := Z.of_nat (gp_data_length g) in
        if (length =? 0) || (block_size_bytes config_ - gp_address g mod block_size_bytes config_ <? length)
           || (2 ^ 64 - 1 - gp_address g <? length - 1)
        then fail FatalError
        else
          p ← AcquirePacket a;
          mod_packet p (fun q =>
            let at_ := IsAtomicRequest g in let nc := IsNonCacheableRequest g in
            set_type (if nc || (at_ && negb (atomic_linearization config_)) then kBypassCoreReq else kCoreReq)
              (set_non_cacheable nc (set_atomic at_ q)));;
          putq core_req_queue_ p;;
          mret (Some a)
  end.
(** [ValidateMemoryResponseOrFatal] *)
Definition response_valid (t : PacketType) (status : tlm_response_status) : bool :=
  if bool_decide (t = kBypassCoreReq) then negb (bool_decide (status = TLM_INCOMPLETE_RESPONSE))
  else bool_decide (status = TLM_OK_RESPONSE).
Definition AcceptMemResponse (resp : option gp_ptr) : M (option gp_ptr) :=
  match resp with
  | None => mret None
  | Some a =>
      i ← gets mem_inflight_packets_;
      match i !! a with
      | None => fail Assertion
      | Some p =>
          t ← type_of p;
          a' ← GetTlmGp p;
          assert (bool_decide (a' = a));;
          g ← deref a;
          if negb (response_valid t (gp_status g)) then fail FatalError
          else
            vroom ← can_put victim_buffer_mem_resp_queue_;
            wroom ← can_put write_buffer_mem_resp_queue_;
            if (bool_decide (t = kVictimWriteReq) && gp_is_write g && negb vroom) ||
               (bool_decide (t = kMemWriteReq) && gp_is_write g && negb wroom) then mret None
            else
              modify (set_inflight (delete a i));;
              if negb (bool_decide (t = kBypassCoreReq)) && gp_is_write g then
                (if bool_decide (t = kVictimWriteReq) then
                   mod_packet p (set_type kVictimWriteResp);; putq victim_buffer_mem_resp_queue_ p
                 else
                   assert (bool_decide (t = kMemWriteReq));;
                   mod_packet p (set_type kMemWriteResp);; putq write_buffer_mem_resp_queue_ p);;
                DecrementLineEscapeHazard p;;
                mret (Some a)
              else
                (if bool_decide (t = kBypassCoreReq) then mod_packet p (set_type kBypassCoreResp)
                 else
                   assert (bool_decide (t = kMshrReadReq));;
                   mod_packet p (set_type kRefill);;
                   b ← owned_payload p;
                   g ← deref b;
                   g ← lift (PrepareRefillWrite g);
                   put_gp b g);;
                n ← gets mem_response_slots_in_use_;
                assert (0 <? n)%nat;;
                putq mem_resp_queue_ p;;
                mret (Some a)
      end
  end.

(** ** A clock edge *)

(** [CheckDeadlockWatchdog], when SIMTIX_CACHE_WATCHDOG and SIMTIX_CACHE_WATCHDOG_FATAL
    are set: [suspect] says that it finds the cache without progress for its threshold
    of cycles. Otherwise it reports at most. *)
Definition CheckDeadlockWatchdog (suspect : bool) : M unit := if suspect then fail FatalError else mret tt.

Definition Tick (now : Z) (i : Inputs) : M Outputs :=
  core_resp ← SendCoreResponse (in_core_room i);
  mem_req ← SendMemRequest (in_mem_room i);
  AccessDataArrayStage now;;
  AdvanceCommandSequencer now;;
  AccessTagArrayStage now;;
  AcceptCommand;;
  core_req ← AcceptCoreRequest (in_core_req i);
  mem_resp ← AcceptMemResponse (in_mem_resp i);
  CheckDeadlockWatchdog (in_deadlock i);;
  mret (mkOutputs core_req core_resp mem_req mem_resp).
(** The update phase of every channel. *)
Definition update_queues (c : Cache E) : Cache E :=
  set_responses (fifo_update (cmd_responses c))
    (set_requests (fifo_update (cmd_requests c))
      (set_notify (fifo_update (mshr_file_refill_notify_queue_ c)) (set_queues (fun q => fifo_update (queues c q)) c))).
(** The four methods sensitive to the clock run in an order the kernel chooses. *)
Inductive method := MCache | MMshrFile | MWriteBuffer | MVictimBuffer.
#[global] Instance method_eq : EqDecision method.
Proof. solve_decision. Defined.
Definition no_outputs : Outputs := mkOutputs None None None None.
Definition run_method (now : Z) (i : Inputs) (m : method) (out : Outputs) : M Outputs :=
  match m with
  | MCache => Tick now i
  | MMshrFile => MshrFile_Tick;; mret out
  | MWriteBuffer => WriteBuffer_Tick;; mret out
  | MVictimBuffer => VictimBuffer_Tick;; mret out
  end.
Fixpoint run_methods (now : Z) (i : Inputs) (ms : list method) (out : Outputs) : M Outputs :=
  match ms with
  | [] => mret out
  | m :: ms => out ← run_method now i m out; run_methods now i ms out
  end.
Definition edge (now : Z) (i : Inputs) (ms : list method) : M Outputs :=
  out ← run_methods now i ms no_outputs; modify update_queues;; mret out.

(** The constructor, after its checks of the configuration. *)
Definition region_ok (r : NonCacheableEntry) : bool :=
  (region_size r =? 0) ||
  ((region_addr r mod block_size_bytes config_ =? 0) && (region_size r mod block_size_bytes config_ =? 0) &&
   (region_size r - 1 <=? 2 ^ 64 - 1 - region_addr r)).
Definition Cache_init (random_seed : Z) : res (Cache E) :=
  massert (0 <? block_size_bytes config_);;
  t ← TagArray_init config_ random_seed;
  d ← DataArray_init config_;
  v ← VictimBuffer_init config_;
  if negb (forallb region_ok (non_cacheable_regions config_)) then Err FatalError
  else if atomic_linearization config_ && (negb (bool_decide (write_hit_policy config_ = kWriteBack)) ||
                                          negb (bool_decide (write_miss_policy config_ = kWriteAllocate))) then Err FatalError
  else
    let n := pipeline_queue_size config_ in
    let objects := 10%nat in
    Ok (mkCache (list_to_map (map (fun p => (p, packet_reset)) (seq 0 objects))) (pool_init objects) 0
          (list_to_map (map (fun k => (OwnedGp k, payload_reset)) (seq 0 objects))) (pool_init objects)
          (fun q => fifo_init (if decide (q = mem_resp_queue_) then mshr_entries config_ + n else n)) (fifo_init n) (fifo_init n) (fifo_init n)
          t d (MshrCore_init config_) WriteBuffer_init v ∅ 0 atomic_idle command_idle (mkRegs false 0 0 kNop) false ∅).
End cache.
