(* ===== verification/SimLedger.v ===== *)
(** * Where the packets of the cache are

    The accounts of SimConserve.v: how often a packet occurs in a list, in the places that
    own packets, and in the maps of the requests that memory has. The equations of the
    accounts are between numbers of occurrences, for every packet, so that each transfer
    is an addition. *)

From stdpp Require Import gmap.
From S2P Require Import Prelude SimFifo SimPacket SimTag SimData SimMemory SimMshr SimVictim SimWrites SimCache.

(** ** Occurrences *)

Definition one (x y : nat) : nat := if (x =? y)%nat then 1 else 0.
Fixpoint occ (x : nat) (l : list nat) : nat := match l with [] => 0 | y :: l => one x y + occ x l end.
Lemma occ_cons x y l : occ x (y :: l) = (one x y + occ x l)%nat.
Proof. done. Qed.
Lemma occ_app x l k : occ x (l ++ k) = (occ x l + occ x k)%nat.
Proof. induction l as [|y l IH]; simpl; [done|]. rewrite IH. lia. Qed.
Lemma one_refl x : one x x = 1%nat.
Proof. unfold one. by rewrite Nat.eqb_refl. Qed.
Lemma one_ne x y : x <> y -> one x y = 0%nat.
Proof. intros Hne. unfold one. by rewrite (proj2 (Nat.eqb_neq _ _)). Qed.
Lemma occ_elem x l : x ∈ l <-> (0 < occ x l)%nat.
Proof.
  induction l as [|y l IH]; simpl; [split; [by intros ?%not_elem_of_nil|lia]|]. rewrite elem_of_cons, IH. unfold one.
  destruct (Nat.eqb_spec x y); split; intros; (lia || intuition lia).
Qed.
Lemma occ_Permutation l k : (forall x, occ x l = occ x k) <-> l ≡ₚ k.
Proof.
  split; [|induction 1; intros x'; simpl; try lia; rewrite ?IHPermutation; try done; by rewrite IHPermutation1].
  revert k. induction l as [|y l IH]; intros k Hk.
  - destruct k as [|z k]; [done|]. specialize (Hk z). simpl in Hk. rewrite one_refl in Hk. lia.
  - assert (y ∈ k) as Hy by (apply occ_elem; rewrite <- Hk; simpl; rewrite one_refl; lia).
    apply elem_of_Permutation in Hy as [k' Hk']. rewrite Hk'. constructor. apply IH. intros x.
    specialize (Hk x). assert (occ x k = occ x (y :: k')) as E by (clear -Hk'; induction Hk'; simpl; lia).
    rewrite E in Hk. simpl in Hk. lia.
Qed.
Lemma occ_perm x l k : l ≡ₚ k -> occ x l = occ x k.
Proof. intros Hp. by apply occ_Permutation. Qed.
Lemma occ_seq x n : occ x (seq 0 n) = if (x <? n)%nat then 1%nat else 0%nat.
Proof.
  induction n as [|n IH]; [done|]. rewrite seq_S, occ_app, IH. simpl. unfold one.
  destruct (Nat.ltb_spec x n), (Nat.eqb_spec x n), (Nat.ltb_spec x (S n)); lia.
Qed.
Lemma occ_filter x f l : occ x (List.filter f l) = if f x then occ x l else 0%nat.
Proof.
  induction l as [|y l IH]; simpl; [by destruct (f x)|]. unfold one. destruct (Nat.eqb_spec x y) as [->|].
  - destruct (f y); simpl; rewrite ?one_refl, IH; done.
  - destruct (f y) eqn:E; simpl; rewrite IH; unfold one; [rewrite (proj2 (Nat.eqb_neq x y)) by done|]; by destruct (f x).
Qed.
Lemma occ_flat_insert {A} (f : A -> list nat) l i e e' x : l !! i = Some e ->
  (occ x (flat_map f (<[i := e']> l)) + occ x (f e) = occ x (flat_map f l) + occ x (f e'))%nat.
Proof.
  revert i. induction l as [|y l IH]; intros [|i] Hl; simpl in *; try done.
  - injection Hl as ->. rewrite !occ_app. lia.
  - specialize (IH i Hl). rewrite !occ_app. lia.
Qed.
Lemma occ_flat_zero {A} (f : A -> list nat) l x : (forall e, e ∈ l -> occ x (f e) = 0%nat) -> occ x (flat_map f l) = 0%nat.
Proof.
  induction l as [|e l IH]; intros Hl; [done|]. simpl. rewrite occ_app, IH, Hl; [done|by left|].
  intros e' He'. apply Hl. by right.
Qed.
Lemma occ_flat_elem {A} (f : A -> list nat) l x : (0 < occ x (flat_map f l))%nat -> exists i e, l !! i = Some e /\ (0 < occ x (f e))%nat.
Proof.
  induction l as [|e l IH]; simpl; [lia|]. rewrite occ_app. intros Hx. destruct (decide (0 < occ x (f e))%nat).
  - by exists 0%nat, e.
  - destruct IH as (i & e' & Hi & He'); [lia|]. by exists (S i), e'.
Qed.

(** The requests a map from transactions to packets names. *)
Definition mvals (m : gmap gp_ptr nat) : list nat := (map_to_list m).*2.
Lemma occ_insert x a p m : m !! a = None -> occ x (mvals (<[a := p]> m)) = (one x p + occ x (mvals m))%nat.
Proof. intros Ha. unfold mvals. by rewrite (occ_perm x _ (p :: (map_to_list m).*2)) by (by rewrite (map_to_list_insert m a p Ha)). Qed.
Lemma occ_delete x a p m : m !! a = Some p -> occ x (mvals m) = (one x p + occ x (mvals (delete a m)))%nat.
Proof.
  intros Ha. unfold mvals. by rewrite (occ_perm x _ (p :: (map_to_list (delete a m)).*2)) by (by rewrite <- (map_to_list_delete m a p Ha)).
Qed.
Lemma mvals_elem m x : x ∈ mvals m <-> exists a, m !! a = Some x.
Proof. apply (held_map (mkWBuf [] m)). Qed.

Ltac occs := rewrite ?occ_app, ?occ_cons in *; simpl occ in *.

(** ** The places *)

Section ledger.
Context {E : Type} `{RandomEngine E} (config_ : Param).
Implicit Types (c : Cache E) (p x : nat).

Definition typed c (l : list PacketType) x : bool :=
  match pkts c !! x with Some pkt => one_of (type_ pkt) l | None => false end.
Definition reads : list PacketType := [kBypassCoreReq; kMshrReadReq].
Definition subs c : list nat := flat_map sub_entries (mshr_entries_ (mshr_file_ c)).
Definition entry_packet (e : VictimEntry) : list nat := option_list (v_packet e).
Definition entry_sent (e : VictimEntry) : list nat := if in_state kInflight e then entry_packet e else [].
Definition winfl c : list nat := mvals (w_inflight (write_buffer_ c)).
Definition infl c : list nat := mvals (mem_inflight_packets_ c).
Definition outstanding c : list nat := List.filter (typed c reads) (infl c).
(** The sequencer alone holds a forwarded atomic until it is queued. *)
Definition held_phase (ph : AtomicPhase) : bool :=
  match ph with kWaitBypassDrain | kFlushBypassLine | kWaitBypassWriteback => true | _ => false end.
Definition aheld c : list nat :=
  if held_phase (a_phase (atomic_sequencer_ c)) then option_list (a_packet (atomic_sequencer_ c)) else [].
Definition owner (q : queue) : bool :=
  match q with
  | write_buffer_mem_req_out_queue_ | write_buffer_mem_resp_queue_ | victim_buffer_mem_req_out_queue_
  | victim_buffer_mem_resp_queue_ => false
  | _ => true
  end.
Definition all_queues : list queue :=
  [core_req_queue_; core_resp_queue_; tag_array_resp_queue_; mshr_file_mem_req_queue_; mshr_file_replay_queue_;
   write_buffer_mem_req_queue_; write_buffer_mem_req_out_queue_; write_buffer_mem_resp_queue_;
   victim_buffer_mem_req_out_queue_; victim_buffer_mem_resp_queue_; bypass_req_queue_; mem_resp_queue_].
Definition in_queue c (q : queue) : list nat := buffer (queues c q).
(** Every place that owns packets. The queues between the write buffers and memory hold packets
    their buffer owns. *)
Definition places c : list nat :=
  flat_map (in_queue c) (List.filter owner all_queues) ++ subs c ++ pending_entries_ (write_buffer_ c) ++ winfl c ++
  flat_map entry_packet (entries_ (victim_buffer_ c)) ++ outstanding c ++ aheld c.

(** What a stage has in its hands: packets of its own, packets of the two buffers on their
    way, and responses that are no longer, or not yet, in their queue. [h_fresh] says that
    no response has left its queue since the last update. *)
Record hands := mkHands { h_own : list nat; h_write : list nat; h_victim : list nat; h_slots : nat; h_fresh : bool }.
Definition empty_hands (fresh : bool) : hands := mkHands [] [] [] 0 fresh.
Definition set_fresh (b : bool) (h : hands) : hands := mkHands (h_own h) (h_write h) (h_victim h) (h_slots h) b.

Definition core_of c x : option gp_ptr :=
  match pkts c !! x with Some pkt => match payload_ pkt with Some (CoreGp n) => Some (CoreGp n) | _ => None end | None => None end.
Definition is_core (t : PacketType) : bool := one_of t [kBypassCoreReq; kBypassCoreResp; kCoreReq; kReplay].
Definition kind_ok (pkt : Packet) : Prop :=
  type_ pkt = kUnused \/
  match payload_ pkt with
  | Some (CoreGp _) => is_core (type_ pkt) = true
  | Some (OwnedGp _) => is_core (type_ pkt) = false
  | None => False
  end.

(** What a packet in a queue has to be. *)
Definition queue_type (q : queue) : list PacketType :=
  match q with
  | write_buffer_mem_req_out_queue_ => [kMemWriteReq]
  | victim_buffer_mem_req_out_queue_ => [kVictimWriteReq]
  | bypass_req_queue_ => [kBypassCoreReq]
  | mshr_file_mem_req_queue_ => [kMshrReadReq]
  | mshr_file_replay_queue_ => [kReplay]
  | _ => []
  end.
(** The queues of which all packets are of that type, whoever owns them. *)
Definition typed_queue (q : queue) : bool :=
  match q with bypass_req_queue_ | mshr_file_mem_req_queue_ | mshr_file_replay_queue_ => true | _ => false end.

Record inv (acc ans : list gp_ptr) (h : hands) c : Prop := {
  i_own : forall x, (occ x (places c) + occ x (h_own h) + occ x (free_list_ (packet_pool_ c)))%nat =
    if (x <? pool_size (packet_pool_ c))%nat then 1%nat else 0%nat;
  i_write : forall x, (occ x (in_queue c write_buffer_mem_req_out_queue_) + occ x (in_queue c write_buffer_mem_resp_queue_) +
    occ x (List.filter (typed c [kMemWriteReq]) (infl c)) + occ x (h_write h))%nat = occ x (winfl c);
  i_victim : forall x, (occ x (in_queue c victim_buffer_mem_req_out_queue_) + occ x (in_queue c victim_buffer_mem_resp_queue_) +
    occ x (List.filter (typed c [kVictimWriteReq]) (infl c)) + occ x (h_victim h))%nat =
    occ x (flat_map entry_sent (entries_ (victim_buffer_ c)));
  i_infl : forall x, x ∈ infl c -> typed c [kBypassCoreReq; kMshrReadReq; kMemWriteReq; kVictimWriteReq] x = true;
  i_wtype : forall x, x ∈ pending_entries_ (write_buffer_ c) \/ x ∈ in_queue c write_buffer_mem_req_out_queue_ ->
    typed c [kMemWriteReq] x = true;
  i_vtype : forall x, (exists i, in_state kCommitted (ventry (victim_buffer_ c) i) = true /\ v_packet (ventry (victim_buffer_ c) i) = Some x) \/
    x ∈ in_queue c victim_buffer_mem_req_out_queue_ -> typed c [kVictimWriteReq] x = true;
  i_qtype : forall q x, typed_queue q = true -> x ∈ in_queue c q -> typed c (queue_type q) x = true;
  i_held : forall x, x ∈ aheld c -> typed c [kBypassCoreReq] x = true;
  i_kind : forall x pkt, pkts c !! x = Some pkt -> kind_ok pkt;
  i_subs : forall x, x ∈ subs c -> is_Some (core_of c x);
  i_mshr : forall i, state (mshr_at (mshr_file_ c) i) = kInvalid -> sub_entries (mshr_at (mshr_file_ c) i) = [];
  i_entries : forall i, in_state kCommitted (ventry (victim_buffer_ c) i) || in_state kInflight (ventry (victim_buffer_ c) i) =
    bool_decide (is_Some (v_packet (ventry (victim_buffer_ c) i)));
  i_fifo : forall q, fifo_ok (queues c q);
  i_notify : fifo_ok (mshr_file_refill_notify_queue_ c);
  i_slots : mem_response_slots_in_use_ c = (length (outstanding c) + length (in_queue c mem_resp_queue_) + h_slots h)%nat;
  i_cap : response_capacity c = (mshr_entries config_ + pipeline_queue_size config_)%nat;
  i_room : (m_num_readable (queues c mem_resp_queue_) + m_num_written (queues c mem_resp_queue_) + length (outstanding c) <= response_capacity c)%nat;
  i_fresh : h_fresh h = true -> m_num_read (queues c mem_resp_queue_) = 0%nat;
  i_core : acc ≡ₚ ans ++ omap (core_of c) (places c ++ h_own h)
}.

(** ** Steps that move no packet *)

Definition vclass (e : VictimEntry) : bool * bool * option nat := (in_state kCommitted e, in_state kInflight e, v_packet e).

Definition tp c x : option (PacketType * option gp_ptr) := (fun pkt => (type_ pkt, payload_ pkt)) <$> pkts c !! x.
Record quiet c c' : Prop := {
  u_queues : forall q, queues c' q = queues c q;
  u_notify : fifo_ok (mshr_file_refill_notify_queue_ c) -> fifo_ok (mshr_file_refill_notify_queue_ c');
  u_pool : packet_pool_ c' = packet_pool_ c;
  u_subs : subs c' = subs c;
  u_mshr : forall i, state (mshr_at (mshr_file_ c') i) = kInvalid -> state (mshr_at (mshr_file_ c) i) = kInvalid /\
    sub_entries (mshr_at (mshr_file_ c') i) = sub_entries (mshr_at (mshr_file_ c) i);
  u_wbuf : write_buffer_ c' = write_buffer_ c;
  u_entries : map vclass (entries_ (victim_buffer_ c')) = map vclass (entries_ (victim_buffer_ c));
  u_infl : mem_inflight_packets_ c' = mem_inflight_packets_ c;
  u_slots : mem_response_slots_in_use_ c' = mem_response_slots_in_use_ c;
  u_seq : atomic_sequencer_ c' = atomic_sequencer_ c;
  u_tp : forall x, tp c' x = tp c x
}.
#[export] Instance quiet_refl : Reflexive quiet.
Proof. intros c. by split. Qed.
#[export] Instance quiet_trans : Transitive quiet.
Proof.
  intros c c' c'' [A1 A2 A3 A4 A5 A6 A7 A8 A9 A10 A11] [B1 B2 B3 B4 B5 B6 B7 B8 B9 B10 B11]. split; [congruence|by auto|congruence|congruence| |congruence..|].
  - intros i Hi. apply B5 in Hi as [Hi ->]. by apply A5.
  - intros x. by rewrite B11.
Qed.

Lemma tp_typed c c' x l : tp c' x = tp c x -> typed c' l x = typed c l x.
Proof. unfold tp, typed. destruct (pkts c' !! x), (pkts c !! x); simpl; try done. by intros [= -> _]. Qed.
Lemma tp_core c c' x : tp c' x = tp c x -> core_of c' x = core_of c x.
Proof. unfold tp, core_of. destruct (pkts c' !! x), (pkts c !! x); simpl; try done. by intros [= _ ->]. Qed.
Lemma tp_kind c c' x pkt : tp c' x = tp c x -> (forall pkt, pkts c !! x = Some pkt -> kind_ok pkt) -> pkts c' !! x = Some pkt -> kind_ok pkt.
Proof.
  unfold tp, kind_ok. intros Ht Hk Hx. rewrite Hx in Ht. simpl in Ht. destruct (pkts c !! x) as [q|] eqn:Eq; [|done].
  injection Ht as -> ->. by apply Hk.
Qed.
Lemma filter_agree (f g : nat -> bool) (l : list nat) : (forall x, f x = g x) -> List.filter f l = List.filter g l.
Proof. intros Hf. induction l as [|y l IH]; simpl; [done|]. by rewrite Hf, IH. Qed.

(** Entries that agree in class and packet agree in what is counted. *)
Lemma entries_agree v v' : map vclass (entries_ v') = map vclass (entries_ v) ->
  flat_map entry_packet (entries_ v') = flat_map entry_packet (entries_ v) /\
  flat_map entry_sent (entries_ v') = flat_map entry_sent (entries_ v) /\
  forall i, vclass (ventry v' i) = vclass (ventry v i).
Proof.
  unfold ventry. generalize (entries_ v) (entries_ v'). clear v v'. intros l l' Hl. split_and!.
  - revert l' Hl. induction l as [|e l IH]; intros [|e' l'] Hl; cbn in *; try done. injection Hl as _ _ Hp Hl.
    unfold entry_packet at 1 3. by rewrite Hp, (IH l' Hl).
  - revert l' Hl. induction l as [|e l IH]; intros [|e' l'] Hl; cbn in *; try done. injection Hl as _ Hs Hp Hl.
    unfold entry_sent at 1 3, entry_packet. by rewrite Hp, Hs, (IH l' Hl).
  - intros i. revert l' i Hl. induction l as [|e l IH]; intros [|e' l'] [|i] Hl; try done; injection Hl as Hs Hp Hv Hl;
      [unfold vclass; simpl; congruence|simpl; by apply IH].
Qed.

Lemma inv_quiet acc ans h c c' : inv acc ans h c -> quiet c c' -> inv acc ans h c'.
Proof.
  intros [I1 I2 I3 I4 I5 I6 I7 I8 I9 I10 I11 I12 I13 I14 I15 I16 I17 I18 I19] [U1 U2 U3 U4 U5 U6 U7 U8 U9 U10 U11].
  destruct (entries_agree _ _ U7) as (V1 & V2 & V3).
  assert (Ht : forall l x, typed c' l x = typed c l x) by (intros; by apply tp_typed).
  assert (Hf : forall l k, List.filter (typed c' l) k = List.filter (typed c l) k) by (intros; by apply filter_agree).
  assert (Hi : infl c' = infl c) by (unfold infl; by rewrite U8).
  assert (Hw : winfl c' = winfl c) by (unfold winfl; by rewrite U6).
  assert (Hq : forall q, in_queue c' q = in_queue c q) by (intros; unfold in_queue; by rewrite U1).
  assert (Ho : outstanding c' = outstanding c) by (unfold outstanding; by rewrite Hf, Hi).
  assert (Hh : aheld c' = aheld c) by (unfold aheld; by rewrite U10).
  assert (Hp : places c' = places c).
  { unfold places. rewrite Hh, Ho, Hw, V1, U4, U6. f_equal. simpl. by rewrite !Hq. }
  assert (Hc : forall x, core_of c' x = core_of c x) by (intros; by apply tp_core).
  assert (Hcap : response_capacity c' = response_capacity c) by (unfold response_capacity; by rewrite U1).
  split; intros; rewrite ?Hp, ?Hq, ?Hf, ?Hi, ?Hw, ?Ho, ?V2, ?U1, ?U3, ?U9, ?Ht, ?Hc, ?Hcap; auto.
  - apply I4. by rewrite <- Hi.
  - apply I5. by rewrite <- U6, <- Hq.
  - apply I6. destruct H0 as [(i & Hs & Hx)|Hx]; [left; exists i|right; by rewrite <- Hq].
    pose proof (V3 i) as Ev. unfold vclass in Ev. injection Ev as E1 _ E2. by rewrite <- E1, <- E2.
  - apply I7; [done|]. by rewrite <- Hq.
  - apply I8. by rewrite <- Hh.
  - eapply tp_kind; [apply U11|apply I9|done].
  - apply I10. by rewrite <- U4.
  - apply U5 in H0 as [Hs ->]. by apply I11.
  - pose proof (V3 i) as Ev. unfold vclass in Ev. injection Ev as -> -> ->. apply I12.
  - by rewrite (list_omap_ext (core_of c') (core_of c) _ (places c ++ h_own h)) by (apply Forall2_same_length_lookup_2; [done|]; intros; congruence).
Qed.

(** ** Moves between queues and hands *)

Definition take_from (q : queue) p (h : hands) : hands :=
  mkHands (if owner q then p :: h_own h else h_own h)
    (match q with write_buffer_mem_req_out_queue_ | write_buffer_mem_resp_queue_ => p :: h_write h | _ => h_write h end)
    (match q with victim_buffer_mem_req_out_queue_ | victim_buffer_mem_resp_queue_ => p :: h_victim h | _ => h_victim h end)
    (match q with mem_resp_queue_ => S (h_slots h) | _ => h_slots h end) (h_fresh h).
(** Taking a response makes its queue stale until the update. *)
Definition stale (q : queue) (h : hands) : hands := match q with mem_resp_queue_ => set_fresh false h | _ => h end.
Lemma in_put q f c q' : in_queue (put_queue q f c) q' = if decide (q' = q) then buffer f else in_queue c q'.
Proof. unfold in_queue, put_queue. simpl. by case_decide. Qed.
Lemma occ_flat_change {A} `{EqDecision A} (g g' : A -> list nat) l a x : NoDup l -> a ∈ l -> (forall b, b <> a -> g' b = g b) ->
  (occ x (flat_map g' l) + occ x (g a) = occ x (flat_map g l) + occ x (g' a))%nat.
Proof.
  induction l as [|b l IH]; intros Hnd Ha Hg; [by apply not_elem_of_nil in Ha|]. simpl. rewrite !occ_app.
  apply NoDup_cons in Hnd as [Hb Hnd]. destruct (decide (b = a)) as [->|Hne].
  - assert (occ x (flat_map g' l) = occ x (flat_map g l)) as ->; [|lia]. clear IH Ha. revert Hb Hg. induction l as [|b l IH]; intros Hb Hg; [done|].
    simpl. rewrite !occ_app. apply NoDup_cons in Hnd as [_ Hnd]. rewrite (IH Hnd) by (set_solver || done). rewrite Hg by set_solver. done.
  - apply elem_of_cons in Ha as [->|Ha]; [done|]. rewrite (Hg b Hne). specialize (IH Hnd Ha Hg). lia.
Qed.
Lemma owner_elem q : q ∈ List.filter owner all_queues <-> owner q = true.
Proof. destruct q; simpl; set_solver. Qed.
Lemma owner_nodup : NoDup (List.filter owner all_queues).
Proof. apply (bool_decide_unpack _). by vm_compute. Qed.
Lemma occ_places_put q f c x :
  (occ x (places (put_queue q f c)) + (if owner q then occ x (in_queue c q) else 0) =
   occ x (places c) + (if owner q then occ x (buffer f) else 0))%nat.
Proof.
  unfold places. rewrite (occ_app _ (flat_map (in_queue (put_queue q f c)) _)), (occ_app _ (flat_map (in_queue c) _)).
  change (subs (put_queue q f c)) with (subs c). change (winfl (put_queue q f c)) with (winfl c).
  change (outstanding (put_queue q f c)) with (outstanding c). change (aheld (put_queue q f c)) with (aheld c). cbn [write_buffer_ victim_buffer_ put_queue set_queues].
  assert (Hg : forall b, b <> q -> in_queue (put_queue q f c) b = in_queue c b) by (intros; rewrite in_put; by rewrite decide_False).
  destruct (owner q) eqn:Eo.
  - pose proof (occ_flat_change (in_queue c) (in_queue (put_queue q f c)) _ q x owner_nodup (proj2 (owner_elem q) Eo) Hg) as Hc.
    rewrite (in_put q f c q), decide_True in Hc by done. lia.
  - assert (occ x (flat_map (in_queue (put_queue q f c)) (List.filter owner all_queues)) =
            occ x (flat_map (in_queue c) (List.filter owner all_queues))) as ->; [|lia].
    f_equal. assert (Hn : q ∉ List.filter owner all_queues) by (rewrite owner_elem; congruence). revert Hn. generalize (List.filter owner all_queues).
    intros l. induction l as [|b l IH]; intros Hn; [done|]. simpl. rewrite IH, Hg by set_solver. done.
Qed.

(** The equations of the accounts after a step that keeps the pool. *)
Lemma core_kept acc ans h h' c c' : inv acc ans h c -> packet_pool_ c' = packet_pool_ c -> (forall x, core_of c' x = core_of c x) ->
  (forall x, (occ x (places c') + occ x (h_own h') + occ x (free_list_ (packet_pool_ c)))%nat =
    if (x <? pool_size (packet_pool_ c))%nat then 1%nat else 0%nat) ->
  acc ≡ₚ ans ++ omap (core_of c') (places c' ++ h_own h').
Proof.
  intros Hi Hp Hc Ho. rewrite (i_core _ _ _ _ Hi). f_equiv.
  rewrite (list_omap_ext (core_of c') (core_of c) (places c' ++ h_own h') _) by (apply Forall2_same_length_lookup_2; [done|]; intros; congruence).
  apply omap_Permutation, occ_Permutation. intros x. rewrite !occ_app. pose proof (Ho x). pose proof (i_own _ _ _ _ Hi x). lia.
Qed.

Lemma inv_get acc ans h c q p f : inv acc ans h c -> nb_get (queues c q) = Some (p, f) -> inv acc ans (take_from q p (stale q h)) (put_queue q f c).
Proof.
  intros Hi Hg. pose proof (nb_get_ok _ _ _ (i_fifo _ _ _ _ Hi q) Hg) as (Hf & Hb & _). change (buffer (queues c q)) with (in_queue c q) in Hb.
  assert (Hown : forall x, (occ x (places (put_queue q f c)) + occ x (h_own (take_from q p (stale q h))) + occ x (free_list_ (packet_pool_ c)))%nat =
    if (x <? pool_size (packet_pool_ c))%nat then 1%nat else 0%nat).
  { intros x. rewrite <- (i_own _ _ _ _ Hi x). pose proof (occ_places_put q f c x) as Hp. rewrite Hb in Hp. simpl in Hp |- *.
    destruct q; simpl in *; lia. }
  split; try done.
  - intros x. refine (eq_trans _ (i_write _ _ _ _ Hi x)). change (infl (put_queue q f c)) with (infl c).
    change (typed (put_queue q f c)) with (typed c). rewrite !in_put. destruct q; simpl; rewrite ?Hb; simpl; lia.
  - intros x. refine (eq_trans _ (i_victim _ _ _ _ Hi x)). change (infl (put_queue q f c)) with (infl c).
    change (typed (put_queue q f c)) with (typed c). rewrite !in_put. destruct q; simpl; rewrite ?Hb; simpl; lia.
  - apply (i_infl _ _ _ _ Hi).
  - intros x Hx. apply (i_wtype _ _ _ _ Hi). destruct Hx as [Hx|Hx]; [by left|right]. rewrite in_put in Hx.
    case_decide as Eq; [subst q; rewrite Hb; by right|done].
  - intros x Hx. apply (i_vtype _ _ _ _ Hi). destruct Hx as [Hx|Hx]; [by left|right]. rewrite in_put in Hx.
    case_decide as Eq; [subst q; rewrite Hb; by right|done].
  - intros q' x Hq Hx. apply (i_qtype _ _ _ _ Hi); [done|]. rewrite in_put in Hx. case_decide as Eq; [subst q'; rewrite Hb; by right|done].
  - apply (i_held _ _ _ _ Hi).
  - apply (i_kind _ _ _ _ Hi).
  - apply (i_subs _ _ _ _ Hi).
  - apply (i_mshr _ _ _ _ Hi).
  - apply (i_entries _ _ _ _ Hi).
  - intros q'. unfold put_queue. simpl. case_decide; [done|apply (i_fifo _ _ _ _ Hi)].
  - apply (i_notify _ _ _ _ Hi).
  - rewrite in_put. change (mem_response_slots_in_use_ (put_queue q f c)) with (mem_response_slots_in_use_ c).
    rewrite (i_slots _ _ _ _ Hi). change (outstanding (put_queue q f c)) with (outstanding c).
    destruct q; simpl; rewrite ?Hb; simpl; lia.
  - unfold response_capacity, put_queue. simpl. pose proof (i_cap _ _ _ _ Hi) as Hc. unfold response_capacity in Hc. rewrite <- Hc.
    case_decide as Eq; [subst q|done]. apply nb_get_size in Hg as (-> & _). done.
  - pose proof (i_room _ _ _ _ Hi) as Hr. unfold response_capacity, put_queue in *. simpl. change (outstanding _) with (outstanding c).
    case_decide as Eq; [subst q|done]. apply nb_get_size in Hg as (-> & -> & ->). done.
  - intros Hfr. unfold put_queue. simpl. destruct q; try done; apply (i_fresh _ _ _ _ Hi Hfr).
  - by apply (core_kept acc ans h _ c).
Qed.

Lemma in_put_new q f c x p q' : buffer f = in_queue c q ++ [p] -> x ∈ in_queue (put_queue q f c) q' ->
  x ∈ in_queue c q' \/ (q' = q /\ x = p).
Proof.
  intros Hb. rewrite in_put. case_decide as Eq; [subst q'|by left]. rewrite Hb, elem_of_app, list_elem_of_singleton. tauto.
Qed.
Lemma inv_put acc ans h c q p f : inv acc ans (take_from q p h) c -> nb_put p (queues c q) = Some f ->
  (queue_type q = [] \/ typed c (queue_type q) p = true) ->
  (q = mem_resp_queue_ -> (m_num_readable (queues c mem_resp_queue_) + m_num_written (queues c mem_resp_queue_) +
     length (outstanding c) < response_capacity c)%nat) ->
  inv acc ans h (put_queue q f c).
Proof.
  intros Hi Hg Hty Hroom. pose proof (nb_put_ok _ _ _ (i_fifo _ _ _ _ Hi q) Hg) as (Hf & Hb & _). change (buffer (queues c q)) with (in_queue c q) in Hb.
  assert (Hown : forall x, (occ x (places (put_queue q f c)) + occ x (h_own h) + occ x (free_list_ (packet_pool_ c)))%nat =
    if (x <? pool_size (packet_pool_ c))%nat then 1%nat else 0%nat).
  { intros x. rewrite <- (i_own _ _ _ _ Hi x). pose proof (occ_places_put q f c x) as Hp. rewrite Hb, occ_app in Hp. simpl in Hp |- *.
    destruct (owner q); simpl; lia. }
  split; try done.
  - intros x. refine (eq_trans _ (i_write _ _ _ _ Hi x)). change (infl (put_queue q f c)) with (infl c).
    change (typed (put_queue q f c)) with (typed c). rewrite !in_put. destruct q; simpl; rewrite ?Hb, ?occ_app; simpl; lia.
  - intros x. refine (eq_trans _ (i_victim _ _ _ _ Hi x)). change (infl (put_queue q f c)) with (infl c).
    change (typed (put_queue q f c)) with (typed c). rewrite !in_put. destruct q; simpl; rewrite ?Hb, ?occ_app; simpl; lia.
  - apply (i_infl _ _ _ _ Hi).
  - intros x [Hx|Hx]; [apply (i_wtype _ _ _ _ Hi); by left|].
    apply (in_put_new _ _ _ _ p) in Hx as [Hx|[<- ->]]; [apply (i_wtype _ _ _ _ Hi); by right| |done]. by destruct Hty.
  - intros x [Hx|Hx]; [apply (i_vtype _ _ _ _ Hi); by left|].
    apply (in_put_new _ _ _ _ p) in Hx as [Hx|[<- ->]]; [apply (i_vtype _ _ _ _ Hi); by right| |done]. by destruct Hty.
  - intros q' x Hq Hx. apply (in_put_new _ _ _ _ p) in Hx as [Hx|[<- ->]]; [by apply (i_qtype _ _ _ _ Hi)| |done]. destruct Hty as [Hty|Hty]; [by destruct q'|done].
  - apply (i_held _ _ _ _ Hi).
  - apply (i_kind _ _ _ _ Hi).
  - apply (i_subs _ _ _ _ Hi).
  - apply (i_mshr _ _ _ _ Hi).
  - apply (i_entries _ _ _ _ Hi).
  - intros q'. unfold put_queue. simpl. case_decide; [done|apply (i_fifo _ _ _ _ Hi)].
  - apply (i_notify _ _ _ _ Hi).
  - rewrite in_put. change (mem_response_slots_in_use_ (put_queue q f c)) with (mem_response_slots_in_use_ c).
    rewrite (i_slots _ _ _ _ Hi). change (outstanding (put_queue q f c)) with (outstanding c).
    destruct q; simpl; rewrite ?Hb, ?length_app; simpl; lia.
  - unfold response_capacity, put_queue. simpl. pose proof (i_cap _ _ _ _ Hi) as Hc. unfold response_capacity in Hc. rewrite <- Hc.
    case_decide as Eq; [subst q|done]. apply nb_put_size in Hg as (-> & _). done.
  - pose proof (i_room _ _ _ _ Hi) as Hr. unfold response_capacity, put_queue in *. simpl. change (outstanding _) with (outstanding c).
    case_decide as Eq; [|done]. specialize (Hroom (eq_sym Eq)). subst q. apply nb_put_size in Hg as (-> & -> & ->). lia.
  - intros Hfr. unfold put_queue. simpl. pose proof (i_fresh _ _ _ _ Hi Hfr) as Hz. case_decide as Eq; [|done].
    rewrite <- Hz, Eq. by eapply nb_put_read.
  - by apply (core_kept acc ans (take_from q p h) _ c).
Qed.

Lemma sent_le v x : (occ x (flat_map entry_sent (entries_ v)) <= occ x (flat_map entry_packet (entries_ v)))%nat.
Proof.
  generalize (entries_ v). intros l. induction l as [|e l IH]; simpl; [done|]. rewrite !occ_app.
  unfold entry_sent at 1. destruct (in_state kInflight e); simpl; lia.
Qed.
Lemma infl_owned acc ans h c x : inv acc ans h c -> x ∈ infl c -> (0 < occ x (places c))%nat.
Proof.
  intros Hi Hin. pose proof (i_infl _ _ _ _ Hi x Hin) as Ht. unfold places. rewrite !occ_app. apply occ_elem in Hin as Hin'.
  unfold typed in Ht. destruct (pkts c !! x) as [pkt|] eqn:Epk; [|done].
  assert (Hty : forall l, typed c l x = one_of (type_ pkt) l) by (intros; unfold typed; by rewrite Epk).
  pose proof (i_write _ _ _ _ Hi x) as Hw. pose proof (i_victim _ _ _ _ Hi x) as Hv. unfold outstanding.
  rewrite occ_filter, Hty in Hw, Hv |- *. pose proof (sent_le (victim_buffer_ c) x).
  destruct (type_ pkt); simpl in *; try done; lia.
Qed.
(** A packet in hand is nowhere else. *)
Lemma inv_hand acc ans h c p : inv acc ans h c -> p ∈ h_own h ->
  occ p (places c) = 0%nat /\ occ p (h_own h) = 1%nat /\ (p < pool_size (packet_pool_ c))%nat /\ p ∉ free_list_ (packet_pool_ c) /\ p ∉ infl c.
Proof.
  intros Hi Hp. apply occ_elem in Hp. pose proof (i_own _ _ _ _ Hi p) as Ho.
  destruct (Nat.ltb_spec p (pool_size (packet_pool_ c))); [|lia].
  split_and!; try lia; [rewrite occ_elem; lia|]. intros Hin. pose proof (infl_owned _ _ _ _ _ Hi Hin). lia.
Qed.

(** ** Packets that are in no place *)

Definition rewrite_packet p (pkt : Packet) (pl : ObjectPool) c : Cache E :=
  set_packet_pool pl (set_pkts (<[p := pkt]> (pkts c)) c).
Lemma typed_other p pkt pl c l x : x <> p -> typed (rewrite_packet p pkt pl c) l x = typed c l x.
Proof. intros Hx. unfold typed, rewrite_packet. simpl. by rewrite lookup_insert_ne. Qed.
Lemma core_other p pkt pl c x : x <> p -> core_of (rewrite_packet p pkt pl c) x = core_of c x.
Proof. intros Hx. unfold core_of, rewrite_packet. simpl. by rewrite lookup_insert_ne. Qed.
Lemma filter_other p pkt pl c l k : p ∉ k -> List.filter (typed (rewrite_packet p pkt pl c) l) k = List.filter (typed c l) k.
Proof.
  intros Hp. induction k as [|x k IH]; [done|]. simpl. rewrite IH, typed_other by set_solver. done.
Qed.
Lemma places_zero p c : occ p (places c) = 0%nat -> p ∉ subs c /\ p ∉ pending_entries_ (write_buffer_ c) /\ p ∉ winfl c /\
  (forall q, owner q = true -> p ∉ in_queue c q) /\ (forall i, v_packet (ventry (victim_buffer_ c) i) <> Some p).
Proof.
  unfold places. rewrite !occ_app, !occ_elem. intros Hz. split_and!; try lia.
  - intros q Hq Hin. apply occ_elem in Hin. assert (0 < occ p (flat_map (in_queue c) (List.filter owner all_queues)))%nat; [|lia].
    apply occ_elem. apply owner_elem in Hq. apply occ_elem in Hin. revert Hq. generalize (List.filter owner all_queues).
    intros l. induction l as [|b l IH]; simpl; intros Hq; [by apply not_elem_of_nil in Hq|].
    apply elem_of_app. apply elem_of_cons in Hq as [<-|Hq]; [by left|right; by apply IH].
  - intros i Hi. assert (0 < occ p (flat_map entry_packet (entries_ (victim_buffer_ c))))%nat; [|lia].
    apply occ_elem. destruct (decide (i < length (entries_ (victim_buffer_ c)))%nat) as [Hl|]; [|by rewrite ventry_out in Hi by lia].
    apply ventry_lookup in Hl. revert Hl Hi. generalize (ventry (victim_buffer_ c) i) as e. generalize (entries_ (victim_buffer_ c)). intros l e.
    revert i. induction l as [|e' l IH]; intros [|i] Hl Hi; simpl in *; try done; apply elem_of_app.
    + injection Hl as ->. left. unfold entry_packet. rewrite Hi. simpl. set_solver.
    + right. by apply (IH i).
Qed.
Lemma tracked_owned acc ans h c x : inv acc ans h c ->
  x ∈ in_queue c write_buffer_mem_req_out_queue_ \/ x ∈ in_queue c victim_buffer_mem_req_out_queue_ -> (0 < occ x (places c))%nat.
Proof.
  intros Hi Hx. unfold places. rewrite !occ_app. pose proof (i_write _ _ _ _ Hi x). pose proof (i_victim _ _ _ _ Hi x).
  pose proof (sent_le (victim_buffer_ c) x).
  destruct Hx as [Hx|Hx]; apply occ_elem in Hx; lia.
Qed.

Lemma inv_rewrite acc ans acc' ans' h h' c p pkt pl : inv acc ans h c -> occ p (places c) = 0%nat -> p ∉ infl c -> kind_ok pkt ->
  h_write h' = h_write h -> h_victim h' = h_victim h -> h_slots h' = h_slots h -> h_fresh h' = h_fresh h ->
  (forall x, (occ x (places c) + occ x (h_own h') + occ x (free_list_ pl))%nat = if (x <? pool_size pl)%nat then 1%nat else 0%nat) ->
  acc' ≡ₚ ans' ++ omap (core_of (rewrite_packet p pkt pl c)) (places c ++ h_own h') ->
  inv acc' ans' h' (rewrite_packet p pkt pl c).
Proof.
  intros Hi Hz Hin Hk E1 E2 E3 E4 Hown Hcore. destruct (places_zero p c Hz) as (N1 & N2 & N3 & N4 & N5).
  assert (Hout : outstanding (rewrite_packet p pkt pl c) = outstanding c) by (unfold outstanding; by apply filter_other).
  assert (Hpl : places (rewrite_packet p pkt pl c) = places c) by (unfold places; by rewrite Hout).
  assert (Hne : forall x (k : list nat), p ∉ k -> x ∈ k -> x <> p) by (intros x k Hn Hx ->; done).
  split; rewrite ?Hpl, ?Hout, ?E1, ?E2, ?E3; try done.
  - intros x. change (infl (rewrite_packet p pkt pl c)) with (infl c). rewrite filter_other by done. apply (i_write _ _ _ _ Hi).
  - intros x. change (infl (rewrite_packet p pkt pl c)) with (infl c). rewrite filter_other by done. apply (i_victim _ _ _ _ Hi).
  - intros x Hx. rewrite typed_other by (by apply (Hne x (infl c))). by apply (i_infl _ _ _ _ Hi).
  - intros x Hx. rewrite typed_other; [by apply (i_wtype _ _ _ _ Hi)|]. destruct Hx as [Hx|Hx]; [by apply (Hne x _ N2)|].
    intros ->. pose proof (tracked_owned _ _ _ _ p Hi (or_introl Hx)). lia.
  - intros x Hx. rewrite typed_other; [by apply (i_vtype _ _ _ _ Hi)|]. destruct Hx as [(i & _ & Hx)|Hx].
    + intros ->. by apply (N5 i).
    + intros ->. pose proof (tracked_owned _ _ _ _ p Hi (or_intror Hx)). lia.
  - intros q x Hq Hx. rewrite typed_other; [by apply (i_qtype _ _ _ _ Hi)|]. apply (Hne x (in_queue c q)); [apply N4; by destruct q|done].
  - intros x Hx. rewrite typed_other; [by apply (i_held _ _ _ _ Hi)|]. intros ->. apply occ_elem in Hx.
    change (aheld (rewrite_packet p pkt pl c)) with (aheld c) in Hx. unfold places in Hz. rewrite !occ_app in Hz. lia.
  - intros x q. unfold rewrite_packet. simpl. rewrite lookup_insert_Some. intros [[<- <-]|[_ Hx]]; [done|by apply (i_kind _ _ _ _ Hi x)].
  - intros x Hx. rewrite core_other by (by apply (Hne x _ N1)). by apply (i_subs _ _ _ _ Hi).
  - apply (i_mshr _ _ _ _ Hi).
  - apply (i_entries _ _ _ _ Hi).
  - apply (i_fifo _ _ _ _ Hi).
  - apply (i_notify _ _ _ _ Hi).
  - apply (i_slots _ _ _ _ Hi).
  - apply (i_cap _ _ _ _ Hi).
  - apply (i_room _ _ _ _ Hi).
  - rewrite E4. apply (i_fresh _ _ _ _ Hi).
Qed.

Lemma omap_other p pkt pl c (l : list nat) : p ∉ l -> omap (core_of (rewrite_packet p pkt pl c)) l = omap (core_of c) l.
Proof.
  intros Hp. induction l as [|x l IH]; [done|]. rewrite !omap_app_cons, IH, core_other by set_solver. done.
Qed.
(** A packet in hand changes its type. *)
Lemma inv_retype acc ans h c p pkt pkt' : inv acc ans h c -> p ∈ h_own h -> pkts c !! p = Some pkt -> payload_ pkt' = payload_ pkt ->
  kind_ok pkt' -> inv acc ans h (set_pkts (<[p := pkt']> (pkts c)) c).
Proof.
  intros Hi Hp Hl Hpay Hk. destruct (inv_hand _ _ _ _ _ Hi Hp) as (Hz & _ & _ & _ & Hin).
  assert (set_pkts (<[p := pkt']> (pkts c)) c = rewrite_packet p pkt' (packet_pool_ c) c) as -> by (by destruct c).
  apply (inv_rewrite acc ans acc ans h h c); try done; [apply (i_own _ _ _ _ Hi)|]. rewrite (i_core _ _ _ _ Hi). f_equiv.
  apply Permutation_refl'. apply list_omap_ext, Forall2_same_length_lookup_2; [done|]. intros i x y H1 H2.
  assert (x = y) as <- by congruence. destruct (decide (x = p)) as [->|]; [|by rewrite core_other].
  unfold core_of, rewrite_packet. simpl. by rewrite lookup_insert_eq, Hl, Hpay.
Qed.

Definition hold p (h : hands) : hands := mkHands (p :: h_own h) (h_write h) (h_victim h) (h_slots h) (h_fresh h).
Definition with_core (a : option gp_ptr) (l : list gp_ptr) : list gp_ptr :=
  match a with Some (CoreGp n) => l ++ [CoreGp n] | _ => l end.
Lemma acquire_fresh (b : nat -> nat) pl p pl' : (forall x, (b x + occ x (free_list_ pl))%nat = if (x <? pool_size pl)%nat then 1%nat else 0%nat) ->
  Acquire pl = (p, pl') -> b p = 0%nat /\ forall x, (one x p + b x + occ x (free_list_ pl'))%nat = if (x <? pool_size pl')%nat then 1%nat else 0%nat.
Proof.
  intros Hb. unfold Acquire. destruct (free_list_ pl) as [|y l] eqn:El; intros [= <- <-].
  - pose proof (Hb (pool_size pl)) as Hp. rewrite Nat.ltb_irrefl in Hp. split; [lia|]. intros x. specialize (Hb x). simpl in *. unfold one.
    destruct (Nat.eqb_spec x (pool_size pl)) as [->|]; [rewrite (proj2 (Nat.ltb_lt _ _)) by lia; lia|].
    destruct (Nat.ltb_spec x (pool_size pl)), (Nat.ltb_spec x (S (pool_size pl))); lia.
  - split; [|intros x; specialize (Hb x); simpl in *; lia]. specialize (Hb y). simpl in Hb. rewrite one_refl in Hb.
    destruct (_ <? _)%nat; lia.
Qed.
Lemma inv_acquire acc ans h c p pkt pl : inv acc ans h c -> Acquire (packet_pool_ c) = (p, pl) -> kind_ok pkt ->
  inv (with_core (payload_ pkt) acc) ans (hold p h) (rewrite_packet p pkt pl c).
Proof.
  intros Hi Ha Hk.
  destruct (acquire_fresh (fun x => occ x (places c) + occ x (h_own h))%nat _ _ _ (i_own _ _ _ _ Hi) Ha) as [Hz Hown].
  simpl in Hz. assert (Hin : p ∉ infl c) by (intros Hin; pose proof (infl_owned _ _ _ _ _ Hi Hin); lia).
  apply (inv_rewrite acc ans _ _ h); try done; [lia| |].
  - intros x. rewrite <- (Hown x). simpl. lia.
  - assert (Hn : p ∉ places c ++ h_own h) by (rewrite occ_elem, occ_app; lia).
    change (h_own (hold p h)) with (p :: h_own h). rewrite <- Permutation_middle, omap_app_cons, omap_other by done.
    unfold core_of at 1, rewrite_packet at 1. simpl. rewrite lookup_insert_eq. pose proof (i_core _ _ _ _ Hi) as Hc.
    destruct (payload_ pkt) as [[n|n]|]; simpl; [|done..]. rewrite Hc, <- (assoc_L (++)). f_equiv.
    apply (Permutation_app_comm _ [CoreGp n]).
Qed.
Lemma inv_release acc ans h c p pkt : inv acc ans (hold p h) c -> pkts c !! p = Some pkt ->
  inv acc (with_core (payload_ pkt) ans) h (rewrite_packet p packet_reset (Release p (packet_pool_ c)) c).
Proof.
  intros Hi Hl. destruct (inv_hand _ _ _ _ p Hi) as (Hz & H1 & Hlt & Hfree & Hin); [left|].
  apply (inv_rewrite acc ans _ _ (hold p h)); try done; [by left| |].
  - intros x. refine (eq_trans _ (i_own _ _ _ _ Hi x)). simpl. lia.
  - simpl in H1. rewrite one_refl in H1. assert (Hn : p ∉ places c ++ h_own h) by (rewrite occ_elem, occ_app; lia).
    rewrite omap_other by done. rewrite (i_core _ _ _ _ Hi). change (h_own (hold p h)) with (p :: h_own h).
    rewrite <- Permutation_middle, omap_app_cons. unfold core_of at 1. rewrite Hl.
    destruct (payload_ pkt) as [[n|n]|]; simpl; [|done..]. by rewrite <- (assoc_L (++)).
Qed.

(** ** Requests to memory *)

(** The queue on the other side of memory's response, which says whose packet it is. *)
Definition via (t : PacketType) : queue :=
  match t with
  | kMemWriteReq => write_buffer_mem_req_out_queue_ | kVictimWriteReq => victim_buffer_mem_req_out_queue_
  | _ => mem_resp_queue_
  end.
Lemma countb_Permutation (f : nat -> bool) l k : l ≡ₚ k -> countb f l = countb f k.
Proof. induction 1; rewrite ?countb_cons; [done|congruence|lia|congruence]. Qed.
Lemma mvals_insert (m : gmap gp_ptr nat) a p : m !! a = None -> mvals (<[a := p]> m) ≡ₚ p :: mvals m.
Proof. intros Ha. unfold mvals. by rewrite (map_to_list_insert m a p Ha). Qed.
Lemma mvals_delete (m : gmap gp_ptr nat) a p : m !! a = Some p -> mvals m ≡ₚ p :: mvals (delete a m).
Proof. intros Ha. unfold mvals. by rewrite <- (map_to_list_delete m a p Ha). Qed.
Lemma one_of_in t l : one_of t l = true <-> t ∈ l.
Proof. unfold one_of. rewrite existsb_exists. split; [intros (x & Hx & Hd)|intros Hx; exists t]; rewrite <- ?list_elem_of_In in *; by repeat case_bool_decide; subst. Qed.

(** Two maps of requests that differ by one packet; [ins] says which of them has it. *)
Lemma infl_change (ins : bool) acc ans h c p t m : let c' := set_inflight m c in
  inv acc ans (if ins then take_from (via t) p h else h) c -> typed c [t] p = true ->
  one_of t [kBypassCoreReq; kMshrReadReq; kMemWriteReq; kVictimWriteReq] = true ->
  (if ins then mvals m ≡ₚ p :: infl c else infl c ≡ₚ p :: mvals m) ->
  (ins = true -> one_of t reads = true -> (m_num_readable (queues c mem_resp_queue_) + m_num_written (queues c mem_resp_queue_) +
     length (outstanding c) < response_capacity c)%nat) ->
  inv acc ans (if ins then h else take_from (via t) p h) c'.
Proof.
  intros c' Hi Hty Ht Hm Hroom. set (h1 := if ins then take_from (via t) p h else h) in *.
  assert (Hp : forall l, typed c l p = one_of t l).
  { intros l. unfold typed in *. destruct (pkts c !! p) as [pkt|]; [|done]. simpl in Hty. rewrite orb_false_r in Hty.
    apply bool_decide_eq_true in Hty. by subst t. }
  assert (Hcnt : forall f, f p = one_of t reads -> (countb f (infl c') + (if ins then 0 else if f p then 1 else 0) =
    countb f (infl c) + (if ins then if f p then 1 else 0 else 0))%nat).
  { intros f _. change (infl c') with (mvals m). destruct ins; rewrite (countb_Permutation f _ _ Hm), countb_cons; destruct (f p); lia. }
  assert (Ho : forall l x, (occ x (List.filter (typed c l) (infl c')) + (if ins then 0 else if one_of t l then one x p else 0) =
    occ x (List.filter (typed c l) (infl c)) + (if ins then if one_of t l then one x p else 0 else 0))%nat).
  { intros l x. rewrite !occ_filter. change (infl c') with (mvals m). unfold one.
    destruct ins; rewrite (occ_perm x _ _ Hm); simpl; unfold one; (destruct (Nat.eqb_spec x p) as [->|];
      [rewrite Hp; destruct (one_of t l); lia|destruct (typed c l x), (one_of t l); lia]). }
  assert (Hout : (length (outstanding c') + (if ins then 0 else if one_of t reads then 1 else 0) =
    length (outstanding c) + (if ins then if one_of t reads then 1 else 0 else 0))%nat).
  { pose proof (Hcnt (typed c reads) (Hp reads)) as Hc. rewrite Hp in Hc. exact Hc. }
  assert (Hown : forall x, (occ x (places c') + occ x (h_own (if ins then h else take_from (via t) p h)) +
    occ x (free_list_ (packet_pool_ c)))%nat = if (x <? pool_size (packet_pool_ c))%nat then 1%nat else 0%nat).
  { intros x. rewrite <- (i_own _ _ _ _ Hi x). unfold places. rewrite !occ_app. pose proof (Ho reads x) as Hor.
    change (List.filter (typed c reads) (infl c')) with (outstanding c') in Hor. change (List.filter (typed c reads) (infl c)) with (outstanding c) in Hor.
    change (flat_map (in_queue c')) with (flat_map (in_queue c)). change (subs c') with (subs c). change (winfl c') with (winfl c).
    change (aheld c') with (aheld c). change (write_buffer_ c') with (write_buffer_ c). change (victim_buffer_ c') with (victim_buffer_ c).
    unfold h1. destruct ins, t; simpl in *; try done; lia. }
  split; try done.
  - intros x. refine (eq_trans _ (eq_trans (i_write _ _ _ _ Hi x) _)); [|done]. change (typed c' [kMemWriteReq]) with (typed c [kMemWriteReq]).
    change (in_queue c') with (in_queue c). pose proof (Ho [kMemWriteReq] x). unfold h1. destruct ins, t; simpl in *; try done; lia.
  - intros x. refine (eq_trans _ (i_victim _ _ _ _ Hi x)). change (typed c' [kVictimWriteReq]) with (typed c [kVictimWriteReq]).
    change (in_queue c') with (in_queue c). pose proof (Ho [kVictimWriteReq] x). unfold h1. destruct ins, t; simpl in *; try done; lia.
  - intros x Hx. change (typed c') with (typed c). change (infl c') with (mvals m) in Hx. destruct ins.
    + rewrite Hm in Hx. apply elem_of_cons in Hx as [->|Hx]; [by rewrite Hp|by apply (i_infl _ _ _ _ Hi)].
    + apply (i_infl _ _ _ _ Hi). rewrite Hm. by right.
  - apply (i_wtype _ _ _ _ Hi).
  - apply (i_vtype _ _ _ _ Hi).
  - apply (i_qtype _ _ _ _ Hi).
  - apply (i_held _ _ _ _ Hi).
  - apply (i_kind _ _ _ _ Hi).
  - apply (i_subs _ _ _ _ Hi).
  - apply (i_mshr _ _ _ _ Hi).
  - apply (i_entries _ _ _ _ Hi).
  - apply (i_fifo _ _ _ _ Hi).
  - apply (i_notify _ _ _ _ Hi).
  - pose proof (i_slots _ _ _ _ Hi) as Hs. change (mem_response_slots_in_use_ c') with (mem_response_slots_in_use_ c). rewrite Hs.
    change (in_queue c') with (in_queue c). unfold h1 in *. destruct ins, t; simpl in *; try done; lia.
  - apply (i_cap _ _ _ _ Hi).
  - pose proof (i_room _ _ _ _ Hi). change (queues c') with (queues c). change (response_capacity c') with (response_capacity c).
    destruct ins; [|lia]. destruct (one_of t reads); [|lia]. specialize (Hroom eq_refl eq_refl). lia.
  - intros Hfr. apply (i_fresh _ _ _ _ Hi). unfold h1. by destruct ins.
  - by apply (core_kept acc ans h1 _ c).
Qed.

(** ** Moves of the two buffers and the miss registers *)

Definition one_of_queue (q : queue) (l : list queue) : bool := existsb (fun q' => bool_decide (q = q')) l.
Definition own_if (q : queue) (l : list nat) : list nat := if owner q then l else [].
Definition not_own (q : queue) (l : list nat) : list nat := if owner q then [] else l.
Definition set_own (l : list nat) (h : hands) : hands := mkHands l (h_write h) (h_victim h) (h_slots h) (h_fresh h).

(** The places, split at one queue. *)
Lemma occ_places_queue q c x : exists k, occ x (places c) = (occ x (own_if q (in_queue c q)) + k)%nat /\
  forall c', (forall q', q' <> q -> in_queue c' q' = in_queue c q') ->
    (occ x (places c') + occ x (subs c ++ pending_entries_ (write_buffer_ c) ++ winfl c ++
       flat_map entry_packet (entries_ (victim_buffer_ c)) ++ outstanding c ++ aheld c) =
     occ x (own_if q (in_queue c' q)) + k + occ x (subs c' ++ pending_entries_ (write_buffer_ c') ++ winfl c' ++
       flat_map entry_packet (entries_ (victim_buffer_ c')) ++ outstanding c' ++ aheld c'))%nat.
Proof.
  pose proof (occ_places_put q (mkFifo [] 0 0 0 0) c x) as Hp. simpl in Hp. unfold own_if.
  exists (occ x (places (put_queue q (mkFifo [] 0 0 0 0) c))). split; [destruct (owner q); simpl; lia|]. intros c' Hq.
  unfold places. rewrite !(occ_app x (flat_map _ _) _).
  change (subs (put_queue q (mkFifo [] 0 0 0 0) c)) with (subs c). change (winfl (put_queue q (mkFifo [] 0 0 0 0) c)) with (winfl c).
  change (outstanding (put_queue q (mkFifo [] 0 0 0 0) c)) with (outstanding c). change (aheld (put_queue q (mkFifo [] 0 0 0 0) c)) with (aheld c).
  cbn [write_buffer_ victim_buffer_ put_queue set_queues].
  assert (Hc : (occ x (flat_map (in_queue c') (List.filter owner all_queues)) =
    occ x (if owner q then in_queue c' q else []) + occ x (flat_map (in_queue (put_queue q (mkFifo [] 0 0 0 0) c)) (List.filter owner all_queues)))%nat); [|lia].
  destruct (owner q) eqn:Eo.
  - pose proof (occ_flat_change (in_queue (put_queue q (mkFifo [] 0 0 0 0) c)) (in_queue c') _ q x owner_nodup (proj2 (owner_elem q) Eo)) as Hf.
    rewrite (in_put q _ c q), decide_True in Hf by done. cbn [buffer occ] in Hf. rewrite Nat.add_0_r in Hf. rewrite Hf; [lia|].
    intros b Hb. rewrite Hq, in_put, decide_False by done. done.
  - change (occ x []) with 0%nat. rewrite Nat.add_0_l. f_equal. assert (Hn : q ∉ List.filter owner all_queues) by (rewrite owner_elem; congruence).
    revert Hn. generalize (List.filter owner all_queues). intros l. induction l as [|b l IH]; intros Hn; [done|]. simpl.
    rewrite IH, in_put, decide_False, Hq by set_solver. done.
Qed.

Lemma inv_write acc ans h c q f w l : inv acc ans h c ->
  one_of_queue q [write_buffer_mem_req_queue_; write_buffer_mem_req_out_queue_; write_buffer_mem_resp_queue_] = true ->
  fifo_ok f ->
  (forall x, (occ x (own_if q (buffer f)) + occ x (pending_entries_ w) + occ x (mvals (w_inflight w)) + occ x l =
     occ x (own_if q (in_queue c q)) + occ x (pending_entries_ (write_buffer_ c)) + occ x (winfl c) + occ x (h_own h))%nat) ->
  (forall x, (occ x (not_own q (buffer f)) + occ x (winfl c) = occ x (not_own q (in_queue c q)) + occ x (mvals (w_inflight w)))%nat) ->
  (forall x, x ∈ pending_entries_ w \/ (q = write_buffer_mem_req_out_queue_ /\ x ∈ buffer f) -> typed c [kMemWriteReq] x = true) ->
  inv acc ans (set_own l h) (set_wbuf w (put_queue q f c)).
Proof.
  intros Hi Hq Hf Ho Hw Hty. set (c' := set_wbuf w (put_queue q f c)).
  assert (Hin : forall q', in_queue c' q' = if decide (q' = q) then buffer f else in_queue c q') by (intros; apply in_put).
  assert (Hown : forall x, (occ x (places c') + occ x (h_own (set_own l h)) + occ x (free_list_ (packet_pool_ c)))%nat =
    if (x <? pool_size (packet_pool_ c))%nat then 1%nat else 0%nat).
  { intros x. rewrite <- (i_own _ _ _ _ Hi x). destruct (occ_places_queue q c x) as (k & Hk & Hc').
    specialize (Hc' c' ltac:(intros; by rewrite Hin, decide_False)). rewrite Hin, decide_True in Hc' by done.
    change (subs c') with (subs c) in Hc'. change (outstanding c') with (outstanding c) in Hc'. change (aheld c') with (aheld c) in Hc'.
    change (winfl c') with (mvals (w_inflight w)) in Hc'. change (write_buffer_ c') with w in Hc'. change (victim_buffer_ c') with (victim_buffer_ c) in Hc'.
    rewrite !occ_app in Hc'. specialize (Ho x). rewrite Hk. simpl. lia. }
  assert (Hqs : q <> victim_buffer_mem_req_out_queue_ /\ q <> victim_buffer_mem_resp_queue_ /\ q <> bypass_req_queue_ /\
    q <> mshr_file_mem_req_queue_ /\ q <> mem_resp_queue_) by (destruct q; done).
  destruct Hqs as (Q1 & Q2 & Q3 & Q4 & Q5).
  split; try done.
  - intros x. change (infl c') with (infl c). change (typed c') with (typed c). change (winfl c') with (mvals (w_inflight w)). rewrite !Hin.
    pose proof (i_write _ _ _ _ Hi x) as Hx. specialize (Hw x). unfold not_own in Hw. destruct q; simpl in *; try done; lia.
  - intros x. refine (eq_trans _ (i_victim _ _ _ _ Hi x)). change (infl c') with (infl c). change (typed c') with (typed c).
    rewrite !Hin, !decide_False by congruence. done.
  - apply (i_infl _ _ _ _ Hi).
  - intros x [Hx|Hx]; [apply Hty; by left|]. rewrite Hin in Hx. case_decide as Eq; [by apply Hty; right|apply (i_wtype _ _ _ _ Hi); by right].
  - intros x Hx. apply (i_vtype _ _ _ _ Hi). by rewrite Hin, decide_False in Hx by congruence.
  - intros q' x Hq' Hx. apply (i_qtype _ _ _ _ Hi); [done|]. rewrite Hin, decide_False in Hx; [done|]. intros ->. by destruct q.
  - apply (i_held _ _ _ _ Hi).
  - apply (i_kind _ _ _ _ Hi).
  - apply (i_subs _ _ _ _ Hi).
  - apply (i_mshr _ _ _ _ Hi).
  - apply (i_entries _ _ _ _ Hi).
  - intros q'. unfold c', put_queue. simpl. case_decide; [done|apply (i_fifo _ _ _ _ Hi)].
  - apply (i_notify _ _ _ _ Hi).
  - rewrite Hin, decide_False by congruence. apply (i_slots _ _ _ _ Hi).
  - pose proof (i_cap _ _ _ _ Hi). unfold c', response_capacity, put_queue in *. simpl. by rewrite decide_False by congruence.
  - pose proof (i_room _ _ _ _ Hi). unfold c', response_capacity, put_queue in *. simpl. by rewrite !decide_False by congruence.
  - pose proof (i_fresh _ _ _ _ Hi). unfold c', put_queue. simpl. by rewrite decide_False by congruence.
  - by apply (core_kept acc ans h _ c).
Qed.

Lemma inv_entries acc ans h c q f v l : inv acc ans h c ->
  one_of_queue q [victim_buffer_mem_req_out_queue_; victim_buffer_mem_resp_queue_] = true -> fifo_ok f ->
  (forall x, (occ x (flat_map entry_packet (entries_ v)) + occ x l =
     occ x (flat_map entry_packet (entries_ (victim_buffer_ c))) + occ x (h_own h))%nat) ->
  (forall x, (occ x (buffer f) + occ x (flat_map entry_sent (entries_ (victim_buffer_ c))) =
     occ x (in_queue c q) + occ x (flat_map entry_sent (entries_ v)))%nat) ->
  (forall x, (exists i, in_state kCommitted (ventry v i) = true /\ v_packet (ventry v i) = Some x) \/
     (q = victim_buffer_mem_req_out_queue_ /\ x ∈ buffer f) -> typed c [kVictimWriteReq] x = true) ->
  (forall i, in_state kCommitted (ventry v i) || in_state kInflight (ventry v i) = bool_decide (is_Some (v_packet (ventry v i)))) ->
  inv acc ans (set_own l h) (set_vbuf v (put_queue q f c)).
Proof.
  intros Hi Hq Hf Ho Hw Hty Hcl. set (c' := set_vbuf v (put_queue q f c)).
  assert (Hin : forall q', in_queue c' q' = if decide (q' = q) then buffer f else in_queue c q') by (intros; apply in_put).
  assert (Hown : forall x, (occ x (places c') + occ x (h_own (set_own l h)) + occ x (free_list_ (packet_pool_ c)))%nat =
    if (x <? pool_size (packet_pool_ c))%nat then 1%nat else 0%nat).
  { intros x. rewrite <- (i_own _ _ _ _ Hi x). destruct (occ_places_queue q c x) as (k & Hk & Hc').
    specialize (Hc' c' ltac:(intros; by rewrite Hin, decide_False)). rewrite Hin, decide_True in Hc' by done.
    change (subs c') with (subs c) in Hc'. change (outstanding c') with (outstanding c) in Hc'. change (aheld c') with (aheld c) in Hc'.
    change (winfl c') with (winfl c) in Hc'. change (write_buffer_ c') with (write_buffer_ c) in Hc'. change (victim_buffer_ c') with v in Hc'.
    rewrite !occ_app in Hc'. specialize (Ho x). rewrite Hk. unfold own_if in *. destruct q; simpl in *; try done; lia. }
  assert (Hqs : q <> write_buffer_mem_req_out_queue_ /\ q <> write_buffer_mem_resp_queue_ /\ q <> bypass_req_queue_ /\
    q <> mshr_file_mem_req_queue_ /\ q <> mem_resp_queue_) by (destruct q; done).
  destruct Hqs as (Q1 & Q2 & Q3 & Q4 & Q5).
  split; try done.
  - intros x. refine (eq_trans _ (i_write _ _ _ _ Hi x)). change (infl c') with (infl c). change (typed c') with (typed c).
    rewrite !Hin, !decide_False by congruence. done.
  - intros x. change (infl c') with (infl c). change (typed c') with (typed c). rewrite !Hin.
    pose proof (i_victim _ _ _ _ Hi x) as Hx. specialize (Hw x). change (victim_buffer_ c') with v. destruct q; simpl in *; try done; lia.
  - apply (i_infl _ _ _ _ Hi).
  - intros x Hx. apply (i_wtype _ _ _ _ Hi). by rewrite Hin, decide_False in Hx by congruence.
  - intros x [Hx|Hx]; [apply Hty; by left|]. rewrite Hin in Hx. case_decide as Eq; [by apply Hty; right|apply (i_vtype _ _ _ _ Hi); by right].
  - intros q' x Hq' Hx. apply (i_qtype _ _ _ _ Hi); [done|]. rewrite Hin, decide_False in Hx; [done|]. intros ->. by destruct q.
  - apply (i_held _ _ _ _ Hi).
  - apply (i_kind _ _ _ _ Hi).
  - apply (i_subs _ _ _ _ Hi).
  - apply (i_mshr _ _ _ _ Hi).
  - intros q'. unfold c', put_queue. simpl. case_decide; [done|apply (i_fifo _ _ _ _ Hi)].
  - apply (i_notify _ _ _ _ Hi).
  - rewrite Hin, decide_False by congruence. apply (i_slots _ _ _ _ Hi).
  - pose proof (i_cap _ _ _ _ Hi). unfold c', response_capacity, put_queue in *. simpl. by rewrite decide_False by congruence.
  - pose proof (i_room _ _ _ _ Hi). unfold c', response_capacity, put_queue in *. simpl. by rewrite !decide_False by congruence.
  - pose proof (i_fresh _ _ _ _ Hi). unfold c', put_queue. simpl. by rewrite decide_False by congruence.
  - by apply (core_kept acc ans h _ c).
Qed.

Lemma inv_subs acc ans h c m l : inv acc ans h c ->
  (forall x, (occ x (flat_map sub_entries (mshr_entries_ m)) + occ x l = occ x (subs c) + occ x (h_own h))%nat) ->
  (forall x, x ∈ flat_map sub_entries (mshr_entries_ m) -> is_Some (core_of c x)) ->
  (forall i, state (mshr_at m i) = kInvalid -> sub_entries (mshr_at m i) = []) ->
  inv acc ans (set_own l h) (set_mshr m c).
Proof.
  intros Hi Ho Hc Hm. set (c' := set_mshr m c).
  assert (Hown : forall x, (occ x (places c') + occ x (h_own (set_own l h)) + occ x (free_list_ (packet_pool_ c)))%nat =
    if (x <? pool_size (packet_pool_ c))%nat then 1%nat else 0%nat).
  { intros x. rewrite <- (i_own _ _ _ _ Hi x). unfold places. rewrite !occ_app.
    change (flat_map (in_queue c')) with (flat_map (in_queue c)). change (subs c') with (flat_map sub_entries (mshr_entries_ m)).
    change (winfl c') with (winfl c). change (aheld c') with (aheld c). change (outstanding c') with (outstanding c).
    change (write_buffer_ c') with (write_buffer_ c). change (victim_buffer_ c') with (victim_buffer_ c). specialize (Ho x). simpl. lia. }
  split; try done; try apply Hi. by apply (core_kept acc ans h _ c).
Qed.

(** ** Packets the buffers have sent *)

Lemma committed_more v x i : in_state kCommitted (ventry v i) = true -> v_packet (ventry v i) = Some x ->
  (occ x (flat_map entry_sent (entries_ v)) < occ x (flat_map entry_packet (entries_ v)))%nat.
Proof.
  intros Hs Hx. assert (Hl : (i < length (entries_ v))%nat).
  { destruct (decide (i < length (entries_ v))%nat); [done|]. by rewrite ventry_out in Hx by lia. }
  pose proof (sent_le (mkVBuf (<[i := mkVEntry kFree 0 None]> (entries_ v)) (v_inflight v)) x) as Hle. simpl in Hle.
  pose proof (occ_flat_insert entry_sent _ _ _ (mkVEntry kFree 0 None) x (ventry_lookup v i Hl)) as H1.
  pose proof (occ_flat_insert entry_packet _ _ _ (mkVEntry kFree 0 None) x (ventry_lookup v i Hl)) as H2.
  unfold in_state in Hs. apply bool_decide_eq_true in Hs.
  assert (entry_sent (ventry v i) = []) as E1 by (unfold entry_sent, in_state; by rewrite Hs).
  assert (entry_packet (ventry v i) = [x]) as E2 by (unfold entry_packet; by rewrite Hx).
  rewrite E1 in H1. rewrite E2 in H2. simpl in H1, H2. rewrite one_refl in H2. lia.
Qed.
(** A packet that memory has answered, on its way to its buffer, changes its type. *)
Lemma inv_retype_sent acc ans h c p pkt pkt' : inv acc ans h c -> p ∈ h_write h ++ h_victim h -> pkts c !! p = Some pkt ->
  payload_ pkt' = payload_ pkt -> kind_ok pkt' -> inv acc ans h (set_pkts (<[p := pkt']> (pkts c)) c).
Proof.
  intros Hi Hp Hl Hpay Hk. set (c' := set_pkts (<[p := pkt']> (pkts c)) c).
  apply occ_elem in Hp. rewrite occ_app in Hp. pose proof (i_own _ _ _ _ Hi p) as Ho. pose proof (i_write _ _ _ _ Hi p) as Hw.
  pose proof (i_victim _ _ _ _ Hi p) as Hv. pose proof (sent_le (victim_buffer_ c) p) as Hle.
  unfold places in Ho. rewrite !occ_app in Ho.
  assert (Hone : (occ p (flat_map (in_queue c) (List.filter owner all_queues)) + occ p (subs c) + occ p (pending_entries_ (write_buffer_ c)) +
    occ p (winfl c) + occ p (flat_map entry_packet (entries_ (victim_buffer_ c))) + occ p (outstanding c) + occ p (aheld c) <= 1)%nat)
    by (destruct (_ <? _)%nat; lia). clear Ho.
  assert (Hin : p ∉ infl c).
  { intros Hin. pose proof (i_infl _ _ _ _ Hi p Hin) as Ht. apply occ_elem in Hin. unfold outstanding in Hone. rewrite !occ_filter in *.
    unfold typed in *. rewrite Hl in *. destruct (type_ pkt); simpl in *; try done; lia. }
  assert (Hq : forall q, owner q = true -> p ∉ in_queue c q).
  { intros q Hq Hinq. apply occ_elem in Hinq. assert (0 < occ p (flat_map (in_queue c) (List.filter owner all_queues)))%nat; [|lia].
    apply occ_elem. apply owner_elem in Hq. apply occ_elem in Hinq. revert Hq. generalize (List.filter owner all_queues).
    intros l. induction l as [|b l IH]; simpl; intros Hq; [by apply not_elem_of_nil in Hq|].
    apply elem_of_app. apply elem_of_cons in Hq as [<-|Hq]; [by left|right; by apply IH]. }
  assert (Hty : forall l x, x <> p -> typed c' l x = typed c l x) by (intros l x Hx; unfold typed, c'; simpl; by rewrite lookup_insert_ne).
  assert (Hcore : forall x, core_of c' x = core_of c x).
  { intros x. destruct (decide (x = p)) as [->|]; unfold core_of, c'; simpl; [by rewrite lookup_insert_eq, Hl, Hpay|by rewrite lookup_insert_ne]. }
  assert (Hf : forall l k, p ∉ k -> List.filter (typed c' l) k = List.filter (typed c l) k).
  { intros l k Hn. induction k as [|x k IH]; [done|]. simpl. rewrite IH, Hty by set_solver. done. }
  assert (Hout : outstanding c' = outstanding c) by (unfold outstanding; by apply Hf).
  assert (Hpl : places c' = places c) by (unfold places; by rewrite Hout).
  assert (Hnot : forall x k, (occ p k = 0)%nat -> x ∈ k -> x <> p) by (intros x k Hz Hx ->; apply occ_elem in Hx; lia).
  split; rewrite ?Hpl, ?Hout; try done; try apply Hi.
  - intros x. change (infl c') with (infl c). rewrite Hf by done. apply (i_write _ _ _ _ Hi).
  - intros x. change (infl c') with (infl c). rewrite Hf by done. apply (i_victim _ _ _ _ Hi).
  - intros x Hx. rewrite Hty by (by intros ->). by apply (i_infl _ _ _ _ Hi).
  - intros x Hx. rewrite Hty; [by apply (i_wtype _ _ _ _ Hi)|]. change (write_buffer_ c') with (write_buffer_ c) in Hx.
    change (in_queue c') with (in_queue c) in Hx. destruct Hx as [Hx|Hx]; [eapply Hnot; [|exact Hx]; lia|]. eapply Hnot; [|exact Hx]. lia.
  - intros x Hx. rewrite Hty; [by apply (i_vtype _ _ _ _ Hi)|]. destruct Hx as [(i & Hs & Hx)|Hx].
    + intros ->. change (victim_buffer_ c') with (victim_buffer_ c) in *. pose proof (committed_more _ _ _ Hs Hx). lia.
    + change (in_queue c') with (in_queue c) in Hx. eapply Hnot; [|exact Hx]. lia.
  - intros q x Hq' Hx. rewrite Hty; [by apply (i_qtype _ _ _ _ Hi)|]. intros ->. apply (Hq q); [by destruct q|done].
  - intros x Hx. rewrite Hty; [by apply (i_held _ _ _ _ Hi)|]. change (aheld c') with (aheld c) in Hx. eapply Hnot; [|exact Hx]. lia.
  - intros x q. unfold c'. simpl. rewrite lookup_insert_Some. intros [[<- <-]|[_ Hx]]; [done|by apply (i_kind _ _ _ _ Hi x)].
  - intros x Hx. rewrite Hcore. by apply (i_subs _ _ _ _ Hi).
  - rewrite (i_core _ _ _ _ Hi). f_equiv. apply Permutation_refl', list_omap_ext, Forall2_same_length_lookup_2; [done|].
    intros i x y H1 H2. rewrite Hcore. congruence.
Qed.

(** ** The counters and the sequencer *)

Definition set_hslots (k : nat) (h : hands) : hands := mkHands (h_own h) (h_write h) (h_victim h) k (h_fresh h).
Lemma inv_hslots acc ans h c n k : inv acc ans h c -> (n + h_slots h)%nat = (mem_response_slots_in_use_ c + k)%nat ->
  inv acc ans (set_hslots k h) (set_slots n c).
Proof.
  intros Hi Hn. split; try done; try apply Hi. pose proof (i_slots _ _ _ _ Hi) as Hs.
  change (n = (length (outstanding c) + length (in_queue c mem_resp_queue_) + k)%nat). lia.
Qed.
Lemma inv_old acc ans h c : inv acc ans h c -> inv acc ans (set_fresh false h) c.
Proof. intros Hi. split; try done; apply Hi. Qed.

Definition held_by (s : AtomicSequencer) : list nat := if held_phase (a_phase s) then option_list (a_packet s) else [].
Lemma inv_aseq acc ans h c s l : inv acc ans h c -> (forall x, x ∈ held_by s -> typed c [kBypassCoreReq] x = true) ->
  (forall x, (occ x (held_by s) + occ x l = occ x (held_by (atomic_sequencer_ c)) + occ x (h_own h))%nat) ->
  inv acc ans (set_own l h) (set_aseq s c).
Proof.
  intros Hi Hty Ho.
  assert (Hown : forall x, (occ x (places (set_aseq s c)) + occ x (h_own (set_own l h)) + occ x (free_list_ (packet_pool_ c)))%nat =
    if (x <? pool_size (packet_pool_ c))%nat then 1%nat else 0%nat).
  { intros x. rewrite <- (i_own _ _ _ _ Hi x). unfold places. rewrite !occ_app. specialize (Ho x).
    change (aheld (set_aseq s c)) with (held_by s). change (aheld c) with (held_by (atomic_sequencer_ c)).
    change (flat_map (in_queue (set_aseq s c))) with (flat_map (in_queue c)). change (subs (set_aseq s c)) with (subs c).
    change (winfl (set_aseq s c)) with (winfl c). change (outstanding (set_aseq s c)) with (outstanding c).
    change (write_buffer_ (set_aseq s c)) with (write_buffer_ c). change (victim_buffer_ (set_aseq s c)) with (victim_buffer_ c).
    simpl. lia. }
  split; try done; try apply Hi. by apply (core_kept acc ans h _ c).
Qed.
Lemma inv_aseq_same acc ans h c s : inv acc ans h c -> held_by s = held_by (atomic_sequencer_ c) -> inv acc ans h (set_aseq s c).
Proof. intros Hi Hs. destruct h as [o w v k f]. apply (inv_aseq _ _ _ _ s o Hi); [rewrite Hs; apply (i_held _ _ _ _ Hi)|]. intros x. by rewrite Hs. Qed.
End ledger.
