(* ===== verification/SimLogic.v ===== *)
(** * A logic for the computations of the cache

    Weakest preconditions for the monad of SimCache.v: [wp m c Q] says that whatever [m]
    returns in [c], unless it fails, satisfies [Q]. Computations that move no packet are
    [Quiet], and most of the controller's work is; the rules for the others carry the
    accounts of SimLedger.v from state to state. *)

From stdpp Require Import gmap.
From S2P Require Import Prelude SimFifo SimPacket SimTag SimData SimMemory SimMshr SimVictim SimWrites SimCache SimLedger.

Section logic.
Context {E : Type} `{RandomEngine E} (config_ : Param) (error_throws : bool).
Implicit Types (c : Cache E) (p x : nat) (q : queue).
Notation M := (@M E).
Notation inv := (inv config_).

Definition wp {A} (m : M A) c (Q : A -> Cache E -> Prop) : Prop := forall a c', m c = Ok (a, c') -> Q a c'.

Lemma cwp_ret {A} (a : A) c (Q : A -> Cache E -> Prop) : Q a c -> wp (mret a) c Q.
Proof. by intros HQ a' c' [= <- <-]. Qed.
Lemma cwp_bind {A B} (m : M A) (f : A -> M B) c (Q : B -> Cache E -> Prop) :
  wp m c (fun a c' => wp (f a) c' Q) -> wp (m ≫= f) c Q.
Proof.
  intros Hm b c' Hb. unfold mbind, M_bind in Hb. destruct (m c) as [[a c1]|] eqn:Em; [|done].
  by apply (Hm a c1 Em).
Qed.
Lemma cwp_gets {A} (f : Cache E -> A) c (Q : A -> Cache E -> Prop) : Q (f c) c -> wp (gets f) c Q.
Proof. by intros HQ a c' [= <- <-]. Qed.
Lemma cwp_modify (f : Cache E -> Cache E) c (Q : unit -> Cache E -> Prop) : Q tt (f c) -> wp (modify f) c Q.
Proof. by intros HQ a c' [= <- <-]. Qed.
Lemma wp_lift {A} (r : res A) c (Q : A -> Cache E -> Prop) : (forall a, r = Ok a -> Q a c) -> wp (lift r) c Q.
Proof. unfold lift. destruct r; intros HQ b c' [= <- <-]. by apply HQ. Qed.
Lemma cwp_fail {A} e c (Q : A -> Cache E -> Prop) : wp (fail e) c Q.
Proof. done. Qed.
Lemma cwp_assert b c (Q : unit -> Cache E -> Prop) : (b = true -> Q tt c) -> wp (assert b) c Q.
Proof. destruct b; [|done]. intros HQ. apply cwp_ret. auto. Qed.
Lemma cwp_when b m c (Q : unit -> Cache E -> Prop) : (b = true -> wp m c Q) -> (b = false -> Q tt c) -> wp (when b m) c Q.
Proof. destruct b; intros H1 H2; simpl; [by apply H1|apply cwp_ret; auto]. Qed.
Lemma cwp_mono {A} (m : M A) c (Q Q' : A -> Cache E -> Prop) : wp m c Q -> (forall a c', Q a c' -> Q' a c') -> wp m c Q'.
Proof. intros Hm HQ a c' Ha. by apply HQ, Hm. Qed.

(** ** Computations that only read *)

Definition Reads {A} (m : M A) (P : Cache E -> A -> Prop) : Prop := forall c, wp m c (fun a c' => c' = c /\ P c a).
Lemma wp_reads {A} (m : M A) P c (Q : A -> Cache E -> Prop) : Reads m P -> (forall a, P c a -> Q a c) -> wp m c Q.
Proof. intros Hm HQ. apply (cwp_mono _ _ _ _ (Hm c)). intros a c' [-> Ha]. by apply HQ. Qed.
Lemma reads_bind {A B} (m : M A) (f : A -> M B) P R : Reads m P ->
  (forall a, Reads (f a) (fun c b => P c a -> R c b)) -> Reads (m ≫= f) R.
Proof.
  intros Hm Hf c. apply cwp_bind, (wp_reads _ _ _ _ Hm). intros a Ha.
  apply (cwp_mono _ _ _ _ (Hf a c)). intros b c' [-> Hb]. auto.
Qed.
Lemma reads_weak {A} (m : M A) (P R : Cache E -> A -> Prop) : Reads m P -> (forall c a, P c a -> R c a) -> Reads m R.
Proof. intros Hm HR c. apply (wp_reads _ _ _ _ Hm). auto. Qed.

Lemma packet_reads p : Reads (packet p) (fun c pkt => pkts c !! p = Some pkt).
Proof.
  intros c. unfold packet. apply cwp_bind, cwp_gets. destruct (pkts c !! p) as [pkt|] eqn:Ep; [by apply cwp_ret|apply cwp_fail].
Qed.
Lemma deref_reads a : Reads (deref a) (fun _ _ => True).
Proof. intros c. unfold deref. apply cwp_bind, cwp_gets. destruct (gps c !! a); [by apply cwp_ret|apply cwp_fail]. Qed.
Lemma GetTlmGp_reads p : Reads (GetTlmGp p) (fun c a => gp_of (pkts c) p = Ok a).
Proof. intros c. unfold GetTlmGp. apply cwp_bind, cwp_gets, wp_lift. done. Qed.
Lemma gp_reads p : Reads (gp p) (fun _ _ => True).
Proof. unfold gp. eapply reads_bind; [apply GetTlmGp_reads|]. intros a. eapply reads_weak; [apply deref_reads|done]. Qed.
Lemma ret_reads {A} (a : A) : Reads (mret a) (fun _ b => b = a).
Proof. intros c. by apply cwp_ret. Qed.
Lemma gets_reads {A} (f : Cache E -> A) : Reads (gets f) (fun c a => a = f c).
Proof. intros c. by apply cwp_gets. Qed.
Lemma GetAddress_reads p : Reads (GetAddress p) (fun _ _ => True).
Proof. unfold GetAddress. eapply reads_bind; [apply gp_reads|]. intros g. eapply reads_weak; [apply ret_reads|done]. Qed.
Lemma is_write_reads p : Reads (is_write p) (fun _ _ => True).
Proof. unfold is_write. eapply reads_bind; [apply gp_reads|]. intros g. eapply reads_weak; [apply ret_reads|done]. Qed.
Lemma type_of_reads p : Reads (type_of p) (fun c t => exists pkt, pkts c !! p = Some pkt /\ type_ pkt = t).
Proof.
  unfold type_of. eapply reads_bind; [apply packet_reads|]. intros pkt. eapply reads_weak; [apply ret_reads|].
  intros c t -> Hp. by exists pkt.
Qed.
Lemma owned_payload_reads p : Reads (owned_payload p) (fun c a => exists n pkt, a = OwnedGp n /\ pkts c !! p = Some pkt /\ payload_ pkt = Some a).
Proof.
  unfold owned_payload. eapply reads_bind; [apply packet_reads|]. intros pkt c.
  destruct (payload_ pkt) as [[n|n]|] eqn:Ea; try apply cwp_fail. apply cwp_ret. split; [done|]. intros Hp. by exists n, pkt.
Qed.
Lemma can_get_reads q : Reads (can_get q) (fun c b => b = nb_can_get (queues c q)).
Proof. apply gets_reads. Qed.
Lemma can_put_reads q : Reads (can_put q) (fun c b => b = nb_can_put (queues c q)).
Proof. apply gets_reads. Qed.
Lemma peekq_reads q : Reads (peekq q) (fun c p => nb_peek (queues c q) = Some p).
Proof.
  intros c. unfold peekq. apply cwp_bind, cwp_gets. destruct (nb_peek (queues c q)) as [p|] eqn:Ep; [by apply cwp_ret|apply cwp_fail].
Qed.
Lemma ShouldStall_reads p : Reads (ShouldStallForLineEscapeHazard config_ p) (fun _ _ => True).
Proof.
  unfold ShouldStallForLineEscapeHazard. eapply reads_bind; [apply GetAddress_reads|]. intros a.
  eapply reads_weak; [apply gets_reads|done].
Qed.
Lemma mshr_probe_reads p : Reads (mshr_probe config_ p) (fun c r => exists a, ProbeMiss config_ a (mshr_file_ c) = Ok r).
Proof.
  unfold mshr_probe. intros c. apply cwp_bind, (wp_reads _ _ _ _ (GetAddress_reads p)). intros a _.
  apply cwp_bind, cwp_gets, wp_lift. intros r Hr. split; [done|]. by exists a.
Qed.

(** ** Quiet computations *)

Definition Quiet {A} (m : M A) : Prop := forall c, wp m c (fun _ c' => quiet c c').
Lemma reads_quiet {A} (m : M A) P : Reads m P -> Quiet m.
Proof. intros Hm c. apply (wp_reads _ _ _ _ Hm). done. Qed.
Lemma quiet_bind {A B} (m : M A) (f : A -> M B) : Quiet m -> (forall a, Quiet (f a)) -> Quiet (m ≫= f).
Proof.
  intros Hm Hf c. apply cwp_bind, (cwp_mono _ _ _ _ (Hm c)). intros a c1 H1. apply (cwp_mono _ _ _ _ (Hf a c1)). intros b c2 H2.
  by etrans.
Qed.
Lemma quiet_ret {A} (a : A) : Quiet (mret a).
Proof. intros c. by apply cwp_ret. Qed.
Lemma quiet_gets {A} (f : Cache E -> A) : Quiet (gets f).
Proof. intros c. by apply cwp_gets. Qed.
Lemma quiet_lift {A} (r : res A) : Quiet (lift r).
Proof. intros c. by apply wp_lift. Qed.
Lemma quiet_fail {A} e : Quiet (@fail E A e).
Proof. intros c. apply cwp_fail. Qed.
Lemma quiet_assert b : Quiet (assert b).
Proof. intros c. by apply cwp_assert. Qed.
Lemma quiet_when b m : Quiet m -> Quiet (when b m).
Proof. intros Hm c. by apply cwp_when. Qed.
Lemma quiet_modify f : (forall c, quiet c (f c)) -> Quiet (modify f).
Proof. intros Hf c. by apply cwp_modify. Qed.
Lemma quiet_with {A} (f : Cache E -> A) {B} (k : A -> M B) : (forall c, wp (k (f c)) c (fun _ c' => quiet c c')) -> Quiet (gets f ≫= k).
Proof. intros Hk c. by apply cwp_bind, cwp_gets. Qed.

Lemma tp_put c p pkt pkt' : pkts c !! p = Some pkt -> type_ pkt' = type_ pkt -> payload_ pkt' = payload_ pkt ->
  quiet c (set_pkts (<[p := pkt']> (pkts c)) c).
Proof.
  intros Hp Ht Ha. split; try done. intros x. unfold tp. simpl. destruct (decide (x = p)) as [->|Hx].
  - rewrite lookup_insert_eq, Hp. simpl. by rewrite Ht, Ha.
  - by rewrite lookup_insert_ne.
Qed.
Lemma mod_packet_quiet p f : (forall pkt, type_ (f pkt) = type_ pkt /\ payload_ (f pkt) = payload_ pkt) -> Quiet (mod_packet p f).
Proof.
  intros Hf c. unfold mod_packet. apply cwp_bind, (wp_reads _ _ _ _ (packet_reads p)). intros pkt Hp.
  apply cwp_modify. destruct (Hf pkt). by eapply tp_put.
Qed.
Lemma SetTraceParent_quiet child parent : Quiet (SetTraceParent child parent).
Proof.
  intros c. unfold SetTraceParent. apply cwp_bind, (wp_reads _ _ _ _ (packet_reads child)). intros pkt Hp.
  apply cwp_bind, (wp_reads _ _ _ _ (packet_reads parent)). intros pkt' _. apply cwp_modify. by eapply tp_put.
Qed.
Lemma Process_same now pkt a w t st pkt' t' : Process config_ now pkt a w t = Ok (st, pkt', t') ->
  type_ pkt' = type_ pkt /\ payload_ pkt' = payload_ pkt.
Proof.
  unfold Process, Probe, Refill. intros Hp. destruct (type_ pkt) eqn:Et; try done;
    repeat first [progress res_inv|progress simplify_eq/=|progress case_match|done].
Qed.
Lemma tag_process_quiet now p : Quiet (tag_process config_ now p).
Proof.
  intros c. unfold tag_process. apply cwp_bind, (wp_reads _ _ _ _ (packet_reads p)). intros pkt Hp.
  apply cwp_bind, (wp_reads _ _ _ _ (gp_reads p)). intros g _. apply cwp_bind, cwp_gets, cwp_bind, wp_lift.
  intros [[st pkt'] t] Hpr. apply Process_same in Hpr as [Ht Ha]. apply cwp_bind, cwp_modify, cwp_bind, cwp_modify, cwp_ret.
  transitivity (set_tags t c); [by split|]. by eapply (tp_put (set_tags t c)).
Qed.

End logic.

(** Solves [Quiet] goals of computations built from quiet ones. *)
Ltac quiet_step :=
  match goal with
  | |- Quiet (_ ≫= _) => apply quiet_bind; [|intros ?]
  | |- Quiet (mret _) => apply quiet_ret
  | |- Quiet (gets _) => apply quiet_gets
  | |- Quiet (lift _) => apply quiet_lift
  | |- Quiet (fail _) => apply quiet_fail
  | |- Quiet (assert _) => apply quiet_assert
  | |- Quiet (when _ _) => apply quiet_when
  | |- Quiet (modify _) => apply quiet_modify; intros ?; by split
  | |- Quiet (packet _) => eapply reads_quiet, packet_reads
  | |- Quiet (deref _) => eapply reads_quiet, deref_reads
  | |- Quiet (GetTlmGp _) => eapply reads_quiet, GetTlmGp_reads
  | |- Quiet (gp _) => eapply reads_quiet, gp_reads
  | |- Quiet (GetAddress _) => eapply reads_quiet, GetAddress_reads
  | |- Quiet (is_write _) => eapply reads_quiet, is_write_reads
  | |- Quiet (type_of _) => eapply reads_quiet, type_of_reads
  | |- Quiet (owned_payload _) => eapply reads_quiet, owned_payload_reads
  | |- Quiet (can_put _) => eapply reads_quiet, can_put_reads
  | |- Quiet (can_get _) => eapply reads_quiet, can_get_reads
  | |- Quiet (SetTraceParent _ _) => apply SetTraceParent_quiet
  | |- Quiet (put_gp _ _) => unfold put_gp
  | |- Quiet (match ?x with _ => _ end) => destruct x
  | |- Quiet (let '(_, _) := ?x in _) => destruct x
  end.
Ltac quiet_auto := repeat first [done|quiet_step].

Section rules.
Context {E : Type} `{RandomEngine E} (config_ : Param) (error_throws : bool).
Implicit Types (c : Cache E) (p x : nat) (q : queue).
Notation M := (@M E).
Notation inv := (inv config_).

Lemma put_gp_quiet a g : Quiet (@put_gp E a g).
Proof. quiet_auto. Qed.
Lemma mod_tags_quiet f : Quiet (E:=E) (mod_tags f).
Proof. unfold mod_tags. quiet_auto. Qed.
Lemma data_process_quiet p vb : Quiet (E:=E) (data_process config_ error_throws p vb).
Proof. unfold data_process. quiet_auto. Qed.
Lemma IncrementForLine_quiet l : Quiet (E:=E) (IncrementLineEscapeHazardForLine l).
Proof. unfold IncrementLineEscapeHazardForLine. quiet_auto. Qed.
Lemma Increment_quiet p : Quiet (E:=E) (IncrementLineEscapeHazard config_ p).
Proof. unfold IncrementLineEscapeHazard, IncrementLineEscapeHazardForLine. quiet_auto. Qed.
Lemma DecrementForLine_quiet l : Quiet (E:=E) (DecrementLineEscapeHazardForLine l).
Proof. unfold DecrementLineEscapeHazardForLine. quiet_auto. Qed.
Lemma Decrement_quiet p : Quiet (E:=E) (DecrementLineEscapeHazard config_ p).
Proof. unfold DecrementLineEscapeHazard. apply quiet_bind; [quiet_auto|]. intros a. apply DecrementForLine_quiet. Qed.

(** ** What a computation keeps

    [l] are the packets that it may change. *)
Record kept (l : list nat) c c' : Prop := {
  k_tp : forall x, x ∉ l -> tp c' x = tp c x;
  k_seq : atomic_sequencer_ c' = atomic_sequencer_ c;
  k_slots : mem_response_slots_in_use_ c' = mem_response_slots_in_use_ c;
  k_infl : mem_inflight_packets_ c' = mem_inflight_packets_ c
}.
Lemma quiet_kept l c c' : quiet c c' -> kept l c c'.
Proof. intros [? ? ? ? ? ? ? ? ? ? Ht]. split; [by intros; apply Ht|done..]. Qed.
Lemma kept_trans l c c' c'' : kept l c c' -> kept l c' c'' -> kept l c c''.
Proof. intros [A1 A2 A3 A4] [B1 B2 B3 B4]. split; [|congruence..]. intros x Hx. by rewrite B1, A1. Qed.
Lemma kept_weak l l' c c' : kept l c c' -> l ⊆ l' -> kept l' c c'.
Proof. intros [A1 A2 A3 A4] Hl. split; [|done..]. intros x Hx. apply A1. set_solver. Qed.
Lemma tp_of c p pkt : pkts c !! p = Some pkt -> tp c p = Some (type_ pkt, payload_ pkt).
Proof. unfold tp. by intros ->. Qed.
Lemma tp_Some c p t a : tp c p = Some (t, a) -> exists pkt, pkts c !! p = Some pkt /\ type_ pkt = t /\ payload_ pkt = a.
Proof. unfold tp. destruct (pkts c !! p) as [pkt|]; simpl; [|done]. intros [= <- <-]. by exists pkt. Qed.
Lemma typed_tp c p t a l : tp c p = Some (t, a) -> typed c l p = one_of t l.
Proof. intros (pkt & Hp & <- & _)%tp_Some. unfold typed. by rewrite Hp. Qed.
Lemma tp_of_typed c p t : typed c [t] p = true -> exists a, tp c p = Some (t, a).
Proof.
  unfold typed, tp. destruct (pkts c !! p) as [pkt|]; [|done]. simpl. rewrite orb_false_r. intros ->%bool_decide_eq_true. by exists (payload_ pkt).
Qed.
Lemma core_tp c p t a : tp c p = Some (t, a) -> core_of c p = match a with Some (CoreGp n) => Some (CoreGp n) | _ => None end.
Proof. intros (pkt & Hp & _ & <-)%tp_Some. unfold core_of. by rewrite Hp. Qed.
Definition kinded (t : PacketType) (a : option gp_ptr) : Prop :=
  t = kUnused \/ match a with Some (CoreGp _) => is_core t = true | Some (OwnedGp _) => is_core t = false | None => False end.
Lemma inv_kinded acc ans h c p t a : inv acc ans h c -> tp c p = Some (t, a) -> kinded t a.
Proof. intros Hi (pkt & Hp & <- & <-)%tp_Some. apply (i_kind _ _ _ _ _ Hi p pkt Hp). Qed.

(** ** Rules that carry the accounts *)

Lemma wp_quiet {A} (m : M A) acc ans h c (Q : A -> Cache E -> Prop) : Quiet m -> inv acc ans h c ->
  (forall a c', quiet c c' -> inv acc ans h c' -> Q a c') -> wp m c Q.
Proof. intros Hm Hi HQ. apply (cwp_mono _ _ _ _ (Hm c)). intros a c' Hq. apply HQ; [done|]. by eapply inv_quiet. Qed.
Lemma wp_getq acc ans h c q (Q : nat -> Cache E -> Prop) : inv acc ans h c ->
  (forall p c', nb_peek (queues c q) = Some p -> kept [] c c' -> inv acc ans (take_from q p (stale q h)) c' -> Q p c') -> wp (getq q) c Q.
Proof.
  intros Hi HQ. unfold getq. apply cwp_bind, cwp_gets. destruct (nb_get (queues c q)) as [[p f]|] eqn:Eg; [|apply cwp_fail].
  apply cwp_bind, cwp_modify, cwp_ret. apply HQ; [|by split|by apply inv_get].
  pose proof (nb_get_ok _ _ _ (i_fifo _ _ _ _ _ Hi q) Eg) as (_ & Hb & Hc).
  destruct (nb_get_spec _ (i_fifo _ _ _ _ _ Hi q) Hc) as (p' & b & Hb' & Hp & _). congruence.
Qed.
Lemma wp_dequeue acc ans h c q p (Q : unit -> Cache E -> Prop) : inv acc ans h c ->
  (forall c', kept [] c c' -> inv acc ans (take_from q p (stale q h)) c' -> Q tt c') -> wp (dequeue q p) c Q.
Proof.
  intros Hi HQ. unfold dequeue. apply cwp_bind, (wp_getq _ _ _ _ _ _ Hi). intros p' c' _ Hk Hi'. apply cwp_assert.
  intros ->%bool_decide_eq_true. by apply HQ.
Qed.
Lemma wp_putq acc ans h c q p (Q : unit -> Cache E -> Prop) : inv acc ans (take_from q p h) c ->
  (queue_type q = [] \/ typed c (queue_type q) p = true) ->
  (q = mem_resp_queue_ -> (m_num_readable (queues c mem_resp_queue_) + m_num_written (queues c mem_resp_queue_) +
     length (outstanding c) < response_capacity c)%nat) ->
  (forall c', kept [] c c' -> inv acc ans h c' -> Q tt c') -> wp (putq q p) c Q.
Proof.
  intros Hi Ht Hr HQ. unfold putq. apply cwp_bind, cwp_gets. destruct (nb_put p (queues c q)) as [f|] eqn:Ef; [|apply cwp_fail].
  apply cwp_modify. apply HQ; [by split|]. by eapply inv_put.
Qed.
Lemma wp_retype acc ans h c p f t t' a (Q : unit -> Cache E -> Prop) : inv acc ans h c -> p ∈ h_own h -> tp c p = Some (t, a) ->
  (forall pkt, type_ (f pkt) = t' /\ payload_ (f pkt) = payload_ pkt) -> kinded t' a ->
  (forall c', kept [p] c c' -> tp c' p = Some (t', a) -> inv acc ans h c' -> Q tt c') -> wp (mod_packet p f) c Q.
Proof.
  intros Hi Hp (pkt & Hl & <- & <-)%tp_Some Hf Hk HQ. unfold mod_packet. apply cwp_bind, (wp_reads _ _ _ _ (packet_reads p)).
  intros pkt' Hl'. assert (pkt' = pkt) as -> by congruence. destruct (Hf pkt) as [Ht Ha]. apply cwp_modify. apply HQ.
  - split; try done. intros x Hx. unfold tp. simpl. by rewrite lookup_insert_ne by set_solver.
  - unfold tp. simpl. rewrite lookup_insert_eq. simpl. by rewrite Ht, Ha.
  - eapply inv_retype; try done. unfold kind_ok. by rewrite Ht, Ha.
Qed.
Lemma wp_AcquirePacket acc ans h c a (Q : nat -> Cache E -> Prop) : inv acc ans h c ->
  (forall p c', kept [p] c c' -> (forall x, x ∈ places c ++ h_own h -> x <> p) -> tp c' p = Some (kUnused, Some a) ->
     inv (with_core (Some a) acc) ans (hold p h) c' -> Q p c') -> wp (AcquirePacket a) c Q.
Proof.
  intros Hi HQ. unfold AcquirePacket. apply cwp_bind, cwp_gets. destruct (Acquire (packet_pool_ c)) as [p pl] eqn:Ea.
  apply cwp_bind, cwp_modify, cwp_bind, cwp_gets, cwp_bind, cwp_modify, cwp_bind, cwp_modify, cwp_ret. apply HQ.
  - split; try done. intros x Hx. unfold tp. simpl. by rewrite lookup_insert_ne by set_solver.
  - destruct (acquire_fresh (fun x => occ x (places c) + occ x (h_own h))%nat _ _ _ (i_own _ _ _ _ _ Hi) Ea) as [Hz _]. simpl in Hz.
    intros x Hx ->. apply occ_elem in Hx. rewrite occ_app in Hx. lia.
  - unfold tp. simpl. by rewrite lookup_insert_eq.
  - eapply inv_quiet; [eapply (inv_acquire _ _ _ _ _ p (mkPacket (unique_id_counter_ c) None kUnused false false false false false 0 (mkLocation 0 0) None false (Some a))); [done..|by left]|by split].
Qed.
Lemma wp_AllocatePacket acc ans h c (Q : nat -> Cache E -> Prop) : inv acc ans h c ->
  (forall p n c', kept [p] c c' -> (forall x, x ∈ places c ++ h_own h -> x <> p) -> tp c' p = Some (kUnused, Some (OwnedGp n)) ->
     inv acc ans (hold p h) c' -> Q p c') -> wp AllocatePacketWithOwnedPayload c Q.
Proof.
  intros Hi HQ. unfold AllocatePacketWithOwnedPayload, AcquirePayload. apply cwp_bind, cwp_bind, cwp_gets.
  destruct (Acquire (mem_payload_pool_ c)) as [n pl]. apply cwp_bind, cwp_modify, cwp_bind, cwp_modify, cwp_ret.
  eapply wp_AcquirePacket; [by eapply inv_quiet; [apply Hi|by split]|]. intros p c' [K1 K2 K3 K4] Hf Ht Hi'. by apply (HQ p n).
Qed.
Lemma wp_ReleasePacket acc ans h c p t a (Q : unit -> Cache E -> Prop) : inv acc ans (hold p h) c -> tp c p = Some (t, a) ->
  (forall c', kept [p] c c' -> inv acc (with_core a ans) h c' -> Q tt c') -> wp (ReleasePacket p) c Q.
Proof.
  intros Hi (pkt & Hp & <- & <-)%tp_Some HQ. unfold ReleasePacket. apply cwp_bind, (wp_reads _ _ _ _ (packet_reads p)).
  intros pkt' Hp'. assert (pkt' = pkt) as -> by congruence. apply cwp_bind.
  apply (cwp_mono _ _ (fun _ c' => quiet c c' /\ pkts c' = pkts c)).
  - destruct (payload_ pkt) as [[n|n]|]; [by apply cwp_ret| |apply cwp_fail].
    apply cwp_bind, cwp_modify, cwp_bind, cwp_gets, cwp_modify. split; [by split|done].
  - intros _ c1 [Hq Ep]. apply cwp_bind, cwp_modify, cwp_bind, cwp_gets, cwp_modify.
    assert (Hi1 : inv acc ans (hold p h) c1) by (by eapply inv_quiet). rewrite <- Ep in Hp. apply HQ.
    + pose proof (quiet_kept [] _ _ Hq) as [K1 K2 K3 K4]. split; try done. intros x Hx. rewrite <- K1 by set_solver.
      unfold tp. simpl. by rewrite lookup_insert_ne by set_solver.
    + exact (inv_release _ _ _ _ c1 p pkt Hi1 Hp).
Qed.
End rules.

(** Move what is known of packets from [c] to [c'], by [K : kept l c c']. *)
Ltac carry K :=
  repeat match type of K with kept ?l ?c ?c' =>
    match goal with Ht : tp c ?x = _ |- _ => rewrite <- (k_tp l c c' K x) in Ht by (set_solver || congruence) end
  end.
