(* ===== verification/SimStages.v ===== *)
(** * The stages of the cache keep the accounts

    One lemma for each stage of [Cache::Tick], and for the methods of the modules, over the
    accounts of SimLedger.v: a stage that holds no packet before it holds none after it,
    whatever it moved, and it adds to the accepted and to the answered transactions what it
    took from the core and what it sent to it. *)

From stdpp Require Import gmap.
From S2P Require Import Prelude SimFifo SimPacket SimTag SimData SimMemory SimMshr SimVictim SimWrites SimCache SimLedger SimLogic.

(** Take a step that only reads. *)
Ltac rd :=
  apply cwp_bind; eapply wp_reads;
  [first [apply packet_reads | apply deref_reads | apply GetTlmGp_reads | apply gp_reads | apply GetAddress_reads
         | apply is_write_reads | apply type_of_reads | apply owned_payload_reads | apply can_get_reads | apply can_put_reads
         | apply peekq_reads | apply ShouldStall_reads | apply mshr_probe_reads | apply gets_reads]
  |cbv beta].
Ltac quiet_step' :=
  first [apply tag_process_quiet | apply mod_tags_quiet | apply data_process_quiet | apply IncrementForLine_quiet
        | apply Increment_quiet | apply DecrementForLine_quiet | apply Decrement_quiet | quiet_step].
(** Take a quiet step of a computation in a state with accounts [Hi]. *)
Ltac qt Hi := apply cwp_bind; eapply wp_quiet; [repeat first [done | quiet_step'] | exact Hi | cbv beta].

Section stages.
Context {E : Type} `{RandomEngine E} (config_ : Param) (error_throws : bool).
Implicit Types (c : Cache E) (p x : nat) (q : queue).
Notation inv := (inv config_).

Lemma gp_of_tp c p t a pkt : pkts c !! p = Some pkt -> type_ pkt = t -> gp_of (pkts c) p = Ok a -> tp c p = Some (t, Some a).
Proof. unfold gp_of. intros Hp <-. rewrite Hp. rewrite (tp_of c p pkt Hp). by destruct (payload_ pkt); intros [= ->]. Qed.
Lemma kinded_core t a : kinded t (Some a) -> is_core t = true -> exists n, a = CoreGp n.
Proof. intros [->|Hk] Ht; [done|]. destruct a as [n|n]; [by exists n|congruence]. Qed.
Lemma kinded_owned t a : kinded t (Some a) -> is_core t = false -> t <> kUnused -> exists n, a = OwnedGp n.
Proof. intros [->|Hk] Ht Hu; [done|]. destruct a as [n|n]; [congruence|by exists n]. Qed.

(** ** Output stage *)

Lemma SendCoreResponse_inv acc ans b c room : inv acc ans (empty_hands b) c ->
  wp (SendCoreResponse config_ room) c (fun o c' => inv acc (ans ++ option_list o) (empty_hands b) c').
Proof.
  intros Hi. unfold SendCoreResponse. rd. intros some _. destruct (negb some || negb room).
  { apply cwp_ret. simpl. by rewrite app_nil_r. }
  apply cwp_bind. eapply wp_getq; [exact Hi|]. intros p c1 _ _ Hi1. change (inv acc ans (hold p (empty_hands b)) c1) in Hi1.
  rd. intros t (pkt & Hp & Ht). apply cwp_bind, cwp_assert. intros Hty. rd. intros a Ha.
  pose proof (gp_of_tp _ _ _ _ _ Hp Ht Ha) as Htp.
  destruct (kinded_core t a) as [n ->]; [by eapply inv_kinded|destruct t; done|].
  rd. intros g _. qt Hi1. intros _ c2 Q2 Hi2. carry (quiet_kept [] _ _ Q2). apply cwp_bind.
  eapply (cwp_mono _ _ (fun _ c' => inv acc ans (hold p (empty_hands b)) c' /\ tp c' p = tp c2 p)).
  - apply cwp_when; [|done]. intros _. qt Hi2. intros _ c3 Q3 Hi3. rd. intros s ->. pose proof (u_tp _ _ Q3 p) as E3.
    apply cwp_when; [|done]. intros _. apply cwp_bind, cwp_assert. intros Hph. apply cwp_modify. split; [|done].
    apply inv_aseq_same; [done|]. unfold held_by. apply bool_decide_eq_true in Hph. by rewrite Hph.
  - intros _ c3 [Hi3 E3]. rewrite <- E3 in Htp. apply cwp_bind. eapply wp_ReleasePacket; [exact Hi3|exact Htp|].
    intros c4 _ Hi4. by apply cwp_ret.
Qed.

Lemma queue_typed acc ans h c q p : inv acc ans h c -> nb_peek (queues c q) = Some p -> queue_type q <> [] ->
  typed c (queue_type q) p = true.
Proof.
  intros Hi (b & Hb)%nb_peek_head Hq. assert (Hin : p ∈ in_queue c q) by (unfold in_queue; rewrite Hb; by left).
  destruct q; try done; [eapply i_qtype|eapply i_qtype|eapply i_wtype|eapply i_vtype|eapply i_qtype]; eauto.
Qed.
(** Where the request that is sent comes from. *)
Definition request_queue q : bool :=
  one_of_queue q [bypass_req_queue_; victim_buffer_mem_req_out_queue_; write_buffer_mem_req_out_queue_; mshr_file_mem_req_queue_].
Definition selected acc ans h (slot : bool) c (o : option nat) c' : Prop :=
  match o with
  | None => inv acc ans h c'
  | Some p => exists q t a, kept [] c c' /\ inv acc ans (take_from q p h) c' /\ tp c' p = Some (t, a) /\ queue_type q = [t] /\
      request_queue q = true /\ (one_of t reads = true -> slot = true)
  end.
Lemma wp_request acc ans h (slot : bool) c q f : inv acc ans h c -> request_queue q = true ->
  (one_of_queue q [bypass_req_queue_; mshr_file_mem_req_queue_] = true -> slot = true) -> (forall c', quiet c' (f c')) ->
  wp (p ← getq q; modify f;; mret (Some p)) c (selected acc ans h slot c).
Proof.
  intros Hi Hq Hs Hf. apply cwp_bind. eapply wp_getq; [exact Hi|]. intros p c1 Hp K1 Hi1. apply cwp_bind, cwp_modify, cwp_ret.
  pose proof (Hf c1) as Qf. assert (Ht : exists t, queue_type q = [t]) by (destruct q; try done; by eexists).
  destruct Ht as [t Ht]. pose proof (queue_typed _ _ _ _ _ _ Hi Hp) as Hty. rewrite Ht in Hty.
  apply tp_of_typed in Hty as [a Ha]; [|done]. carry K1. carry (quiet_kept [] _ _ Qf). exists q, t, a.
  split_and!; try done.
  - by eapply kept_trans, quiet_kept.
  - eapply inv_quiet; [|exact Qf]. destruct q; done.
  - intros Hr. apply Hs. destruct q; try done; injection Ht as <-; done.
Qed.
Lemma wp_request' acc ans h (slot : bool) c q : inv acc ans h c -> request_queue q = true ->
  (one_of_queue q [bypass_req_queue_; mshr_file_mem_req_queue_] = true -> slot = true) ->
  wp (p ← getq q; mret (Some p)) c (selected acc ans h slot c).
Proof.
  intros Hi Hq Hs o c' Hr. apply (wp_request acc ans h slot c q id Hi Hq Hs); [done|]. rewrite <- Hr.
  unfold mbind, M_bind. by destruct (getq q c) as [[p c1]|].
Qed.
Lemma SelectMemRequest_inv acc ans h slot c : inv acc ans h c ->
  wp (SelectMemRequest config_ slot) c (selected acc ans h slot c).
Proof.
  intros Hi. unfold SelectMemRequest. rd. intros bypass _. destruct slot, bypass; simpl;
    try by (apply wp_request'; try done).
  all: rd; intros victim _; destruct victim; [by apply wp_request'|].
  all: rd; intros prio _; destruct prio; [by apply wp_request|].
  all: rd; intros mshr _; try destruct mshr; simpl.
  all: try (rd; intros def _; destruct def; [apply cwp_bind, cwp_modify, cwp_ret; by eapply inv_quiet|by apply wp_request']).
  all: rd; intros wb _; destruct wb; [by apply wp_request|by apply cwp_ret].
Qed.

Lemma SendMemRequest_inv acc ans c room : inv acc ans (empty_hands true) c ->
  wp (SendMemRequest config_ room) c (fun _ c' => inv acc ans (empty_hands true) c').
Proof.
  intros Hi. unfold SendMemRequest. destruct (negb room); [by apply cwp_ret|]. rd. intros n ->. rd. intros cap ->.
  apply cwp_bind, cwp_assert. intros _. set (slot := (_ <? _)%nat). cbv zeta.
  apply cwp_bind. eapply cwp_mono; [by apply (SelectMemRequest_inv acc ans)|]. intros [p|] c1; [|intros Hi1; by apply cwp_ret].
  intros (q & t & a & K1 & Hi1 & Htp & Ht & Hq & Hslot). rd. intros t' (pkt & Hp & Ht'). apply cwp_bind, cwp_assert. intros Hty.
  rd. intros a' Ha. pose proof (gp_of_tp _ _ _ _ _ Hp Ht' Ha) as Htp'. rewrite Htp in Htp'. injection Htp' as -> ->.
  assert (Hreads : one_of t' [kMshrReadReq; kBypassCoreReq] = one_of t' reads) by (by destruct t'). rewrite Hreads.
  apply cwp_bind. eapply (cwp_mono _ _ (fun _ c' => inv acc ans (take_from (via t') p (empty_hands true)) c' /\ tp c' p = tp c1 p /\
    (one_of t' reads = true -> (m_num_readable (queues c' mem_resp_queue_) + m_num_written (queues c' mem_resp_queue_) +
       length (outstanding c') < response_capacity c')%nat))).
  - apply cwp_when; intros Hr.
    + apply cwp_bind, cwp_assert. intros Hs. apply cwp_modify. rewrite <- (k_slots _ _ _ K1).
      assert (Eh : take_from (via t') p (empty_hands true) = set_hslots 1 (take_from q p (empty_hands true))).
      { destruct q; try done; injection Ht as <-; done. }
      rewrite Eh. split; [apply inv_hslots; [done|]; destruct q; try done; simpl; lia|]. split; [done|]. intros _.
      pose proof (i_slots _ _ _ _ _ Hi1) as Es. pose proof (fifo_len _ (i_fifo _ _ _ _ _ Hi1 mem_resp_queue_)) as El.
      assert (Hz : m_num_read (queues c1 mem_resp_queue_) = 0%nat) by (apply (i_fresh _ _ _ _ _ Hi1); by destruct q).
      unfold slot in Hs. apply Nat.ltb_lt in Hs. rewrite (i_cap _ _ _ _ _ Hi), <- (i_cap _ _ _ _ _ Hi1), <- (k_slots _ _ _ K1) in Hs.
      unfold response_capacity in *. cbn [queues set_slots] in *. change (outstanding (set_slots _ c1)) with (outstanding c1).
      unfold in_queue in Es. destruct q; try done; simpl in Es; lia.
    + split; [|split; [done|congruence]]. destruct q; try done; injection Ht as <-; first [exact Hi1|by vm_compute in Hr].
  - intros _ c2 (Hi2 & E2 & Hroom). rewrite <- E2 in Htp. rd. intros i ->. apply cwp_bind, cwp_assert.
    intros Hn%bool_decide_eq_true. apply cwp_bind, cwp_modify, cwp_ret.
    refine (infl_change _ true _ _ (empty_hands true) _ p t' _ Hi2 _ _ _ _).
    + rewrite (typed_tp _ _ _ _ _ Htp). simpl. by rewrite bool_decide_eq_true_2.
    + by destruct t'.
    + by apply mvals_insert.
    + by intros _.
Qed.

(** ** The miss registers and the victim buffer, seen from the stages *)

Lemma flat_insert {A} (f : A -> list nat) l i e e' : l !! i = Some e -> f e' = f e -> flat_map f (<[i := e']> l) = flat_map f l.
Proof.
  revert i. induction l as [|y l IH]; intros [|i] Hl Hf; simpl in *; try done; [injection Hl as ->; by rewrite Hf|by rewrite (IH i)].
Qed.
Lemma mshr_in m i : state (mshr_at m i) <> kInvalid -> (i < length (mshr_entries_ m))%nat.
Proof. intros Hs. apply active_in. by apply active_true. Qed.
Lemma mshr_lookup m i : (i < length (mshr_entries_ m))%nat -> mshr_entries_ m !! i = Some (mshr_at m i).
Proof. apply nth_lookup_lt. Qed.
(** An entry changes in neither its requests nor in being free. *)
Lemma put_mshr_quiet c i e (m : MshrCore) : mshr_entries_ m = <[i := e]> (mshr_entries_ (mshr_file_ c)) ->
  state (mshr_at (mshr_file_ c) i) <> kInvalid -> state e <> kInvalid ->
  sub_entries e = sub_entries (mshr_at (mshr_file_ c) i) -> quiet c (set_mshr m c).
Proof.
  intros Hm Hs He Hq. pose proof (mshr_in _ _ Hs) as Hi. split; try done.
  - unfold subs. simpl. rewrite Hm. eapply flat_insert; [by apply mshr_lookup|done].
  - intros j. simpl. assert (Hat : mshr_at m j = mshr_at (put_mshr i e (mshr_file_ c)) j) by (unfold mshr_at; by rewrite Hm).
    rewrite Hat, mshr_put by done. by case_decide.
Qed.
Lemma Take_quiet id : Quiet (E:=E) (MshrFile_TakeVictimReservation id).
Proof.
  unfold MshrFile_TakeVictimReservation. intros c. apply cwp_bind, cwp_gets, cwp_bind, wp_lift. intros [r m] Hr.
  apply cwp_bind, cwp_modify, cwp_ret. unfold TakeVictimReservation in Hr. res_inv. destruct (victim_reservation _); [|done].
  res_inv. match goal with Hs : bool_decide (state _ = _) = true |- _ => apply bool_decide_eq_true in Hs as Es end.
  eapply put_mshr_quiet; [done|simpl; by rewrite Es|simpl; by rewrite Es|done].
Qed.
Lemma Refill_quiet acc ans h c : inv acc ans h c -> wp ProcessRefillNotify c (fun _ c' => inv acc ans h c').
Proof.
  intros Hi. unfold ProcessRefillNotify. rd. intros f ->.
  destruct (nb_get (mshr_file_refill_notify_queue_ c)) as [[n f]|] eqn:Eg; [|by apply cwp_ret].
  pose proof (nb_get_ok _ _ _ (i_notify _ _ _ _ _ Hi) Eg) as (Hf & _). apply cwp_bind, cwp_modify.
  assert (Hi1 : inv acc ans h (set_notify f c)) by (by eapply inv_quiet; [exact Hi|split]). rd. intros m ->. apply cwp_bind, wp_lift.
  intros m Hm. apply cwp_modify. eapply inv_quiet; [exact Hi1|]. unfold NotifyRefill in Hm. res_inv.
  match goal with Hs : bool_decide (state _ = _) = true |- _ => apply bool_decide_eq_true in Hs as Es end.
  eapply put_mshr_quiet; [done|by rewrite Es|done|done].
Qed.
Lemma set_notify_quiet c n f : nb_put n (mshr_file_refill_notify_queue_ c) = Some f -> quiet c (set_notify f c).
Proof. intros Hp. split; try done. intros Hf. by eapply nb_put_ok. Qed.

Lemma entries_put v i e (v' : VictimBuffer) : (i < length (entries_ v))%nat -> entries_ v' = <[i := e]> (entries_ v) ->
  forall j, ventry v' j = if decide (j = i) then e else ventry v j.
Proof. intros Hi Hv j. unfold ventry at 1. rewrite Hv. by apply nth_insert. Qed.
Lemma vclass_insert v i e : (i < length (entries_ v))%nat -> vclass e = vclass (ventry v i) ->
  map vclass (<[i := e]> (entries_ v)) = map vclass (entries_ v).
Proof.
  intros Hi He. change (map vclass) with (fmap (M:=list) vclass). rewrite list_fmap_insert. apply list_insert_id.
  by rewrite list_lookup_fmap, (ventry_lookup v i Hi), He.
Qed.
Lemma vbuf_quiet c v : map vclass (entries_ v) = map vclass (entries_ (victim_buffer_ c)) -> quiet c (set_vbuf v c).
Proof. by split. Qed.
Lemma TryReserve_quiet acc ans h c o v : inv acc ans h c -> TryReserve config_ (victim_buffer_ c) = Ok (o, v) -> quiet c (set_vbuf v c).
Proof.
  intros Hi Hr. apply vbuf_quiet. unfold TryReserve in Hr. destruct (find_first _ _) as [i|] eqn:Ef; res_inv; [|done].
  apply find_first_Some in Ef as (Hl & Hs & _). apply vclass_insert; [done|]. unfold in_state in Hs. apply bool_decide_eq_true in Hs.
  pose proof (i_entries _ _ _ _ _ Hi i) as He. unfold vclass, in_state in *. rewrite Hs in *. simpl in *.
  by destruct (v_packet _).
Qed.
Lemma Cancel_quiet c r v : Cancel config_ r (victim_buffer_ c) = Ok v -> quiet c (set_vbuf v c).
Proof.
  intros Hr. apply vbuf_quiet. unfold Cancel, v_Lookup in Hr. case_match; res_inv.
  match goal with Hs : in_state kReserved _ = true |- _ => unfold in_state in Hs; apply bool_decide_eq_true in Hs as Es end.
  apply vclass_insert; [by apply Nat.leb_gt|]. unfold vclass, in_state. rewrite Es. done.
Qed.
(** A packet in hand is committed to the victim buffer. *)
Lemma Commit_inv acc ans h c r p ps a v : inv acc ans (hold p h) c -> tp c p = Some (kVictimWriteReq, a) ->
  Commit config_ r p ps (victim_buffer_ c) = Ok v -> inv acc ans h (set_vbuf v c).
Proof.
  intros Hi Ht Hc. unfold Commit, v_Lookup in Hc. res_inv. case_match; res_inv.
  match goal with Hs : in_state kReserved _ = true |- _ => unfold in_state in Hs; apply bool_decide_eq_true in Hs as Es end.
  match goal with Hs : bool_decide (v_packet _ = None) = true |- _ => apply bool_decide_eq_true in Hs as Ep end.
  assert (Hl : (res_index r < length (entries_ (victim_buffer_ c)))%nat) by (by apply Nat.leb_gt).
  set (e := mkVEntry kCommitted _ (Some p)). set (v := put_ventry _ e _).
  pose proof (entries_put (victim_buffer_ c) _ e v Hl eq_refl) as Hat. pose proof (ventry_lookup _ _ Hl) as Hlk.
  set (out := victim_buffer_mem_req_out_queue_).
  assert (Hi' : inv acc ans (set_own (h_own h) (hold p h)) (set_vbuf v (put_queue out (queues c out) c))).
  { apply inv_entries; try done.
    - apply (i_fifo _ _ _ _ _ Hi).
    - intros y. pose proof (occ_flat_insert entry_packet _ _ _ e y Hlk) as Ho. unfold entry_packet in Ho at 2 4.
      rewrite Ep in Ho. simpl in Ho |- *. unfold v. simpl. lia.
    - intros y. unfold v. simpl. rewrite (flat_insert entry_sent _ _ _ _ Hlk); [done|]. unfold entry_sent, in_state. by rewrite Es.
    - intros y [(i & Hs & Hx)|[_ Hx]]; [|eapply (i_vtype _ _ _ _ _ Hi); by right]. rewrite Hat in Hs, Hx. case_decide.
      + injection Hx as <-. by rewrite (typed_tp _ _ _ _ _ Ht).
      + eapply (i_vtype _ _ _ _ _ Hi). left. by exists i.
    - intros i. rewrite Hat. destruct (decide (i = res_index r)); [by rewrite bool_decide_eq_true_2 by (by exists p)|]. apply (i_entries _ _ _ _ _ Hi). }
  eapply inv_quiet; [by destruct h|]. split; try done. intros q'. simpl. unfold put_queue. simpl.
  by destruct (decide (q' = out)) as [->|].
Qed.

(** ** Data array stage *)

Lemma Release_owned acc ans h c p t n : inv acc ans (hold p h) c -> tp c p = Some (t, Some (OwnedGp n)) ->
  wp (ReleasePacket p) c (fun _ c' => kept [p] c c' /\ inv acc ans h c').
Proof. intros Hi Ht. eapply wp_ReleasePacket; [exact Hi|exact Ht|]. by intros c' K Hi'. Qed.
Lemma Release_kind acc ans h c p t a : inv acc ans (hold p h) c -> tp c p = Some (t, a) -> is_core t = false -> t <> kUnused ->
  wp (ReleasePacket p) c (fun _ c' => kept [p] c c' /\ inv acc ans h c').
Proof.
  intros Hi Ht Hc Hu. pose proof (inv_kinded _ _ _ _ _ _ _ _ Hi Ht) as Hk. destruct a as [a|]; [|by destruct Hk].
  destruct (kinded_owned t a Hk Hc Hu) as [n ->]. by eapply Release_owned.
Qed.

(** A packet with a transaction of the cache, allocated for [t]. *)
Definition allocated acc ans h c (t : PacketType) p c' : Prop :=
  kept [p] c c' /\ (forall x, x ∈ places c ++ h_own h -> x <> p) /\ (exists n, tp c' p = Some (t, Some (OwnedGp n))) /\
  inv acc ans (hold p h) c'.
Lemma WriteBufferPacket_inv acc ans h c source : inv acc ans h c ->
  wp (AllocateWriteBufferPacketFrom config_ source) c (allocated acc ans h c kMemWriteReq).
Proof.
  intros Hi. unfold AllocateWriteBufferPacketFrom. rd. intros src _. apply cwp_bind, cwp_assert. intros _. rd. intros w _.
  apply cwp_bind, cwp_assert. intros _. apply cwp_bind. eapply wp_AllocatePacket; [exact Hi|]. intros p n c1 K1 Hf Ht Hi1.
  apply cwp_bind. eapply wp_quiet; [by apply mod_packet_quiet|exact Hi1|]. intros _ c2 Q2 Hi2.
  qt Hi2. intros _ c3 Q3 Hi3. rd. intros a _. rd. intros g _. apply cwp_bind, wp_lift. intros l _. qt Hi3. intros _ c4 Q4 Hi4.
  pose proof (transitivity Q2 (transitivity Q3 Q4)) as Q. carry (quiet_kept [] _ _ Q). apply cwp_bind.
  eapply wp_retype; [exact Hi4|by left|exact Ht|intros ?; split; simpl; reflexivity|by right|]. intros c5 K5 Ht5 Hi5. apply cwp_ret.
  split_and!; [|done|by exists n|done]. eapply kept_trans; [exact K1|]. eapply kept_trans; [by apply quiet_kept|done].
Qed.
Lemma VictimPacket_inv acc ans h c refill : inv acc ans h c ->
  wp (AllocateVictimPacketFrom config_ refill) c (allocated acc ans h c kVictimWriteReq).
Proof.
  intros Hi. unfold AllocateVictimPacketFrom. rd. intros r _. do 3 (apply cwp_bind, cwp_assert; intros _).
  apply cwp_bind. eapply wp_AllocatePacket; [exact Hi|]. intros p n c1 K1 Hf Ht Hi1.
  apply cwp_bind. eapply wp_quiet; [by apply mod_packet_quiet|exact Hi1|]. intros _ c2 Q2 Hi2.
  qt Hi2. intros _ c3 Q3 Hi3. rd. intros a _. apply cwp_bind, wp_lift. intros l _. qt Hi3. intros _ c4 Q4 Hi4.
  pose proof (transitivity Q2 (transitivity Q3 Q4)) as Q. carry (quiet_kept [] _ _ Q). apply cwp_bind.
  eapply wp_retype; [exact Hi4|by left|exact Ht|intros ?; split; simpl; reflexivity|by right|]. intros c5 K5 Ht5 Hi5. apply cwp_ret.
  split_and!; [|done|by exists n|done]. eapply kept_trans; [exact K1|]. eapply kept_trans; [by apply quiet_kept|done].
Qed.

(** What a stage leaves: the accounts, and the atomic sequencer as it was. *)
Definition left_as acc ans h c c' : Prop := inv acc ans h c' /\ atomic_sequencer_ c' = atomic_sequencer_ c.
Lemma Writeback_inv acc ans h c line : inv acc ans h c ->
  wp (TryIssueLineWriteback config_ error_throws line) c (fun _ => left_as acc ans h c).
Proof.
  intros Hi. unfold TryIssueLineWriteback. rd. intros room _. destruct (negb room); [by apply cwp_ret|].
  apply cwp_bind. eapply wp_AllocatePacket; [exact Hi|]. intros p n c1 K1 Hf Ht Hi1. rd. intros a _. apply cwp_bind, wp_lift. intros l _.
  rd. intros d _. apply cwp_bind, wp_lift. intros [ok bytes] _. apply cwp_bind, cwp_assert. intros _. qt Hi1. intros _ c2 Q2 Hi2.
  carry (quiet_kept [] _ _ Q2). apply cwp_bind. eapply wp_retype; [exact Hi2|by left|exact Ht|intros ?; split; simpl; reflexivity|by right|].
  intros c3 K3 Ht3 Hi3. qt Hi3. intros _ c4 Q4 Hi4. apply cwp_bind.
  eapply (wp_putq _ _ _ h); [exact Hi4|by left|done|]. intros c5 K5 Hi5. apply cwp_ret. split; [done|].
  rewrite (k_seq _ _ _ K5), (u_seq _ _ Q4), (k_seq _ _ _ K3), (u_seq _ _ Q2). apply (k_seq _ _ _ K1).
Qed.

Lemma FlushBypassLine_inv acc ans h c now p : inv acc ans h c -> a_phase (atomic_sequencer_ c) = kFlushBypassLine ->
  wp (AtomicFlushBypassLine config_ error_throws now p) c (fun _ c' => inv acc ans h c').
Proof.
  intros Hi Hph. unfold AtomicFlushBypassLine. rd. intros c' ->. apply cwp_bind, cwp_assert. intros _. rd. intros room _.
  destruct (negb room); [by apply cwp_ret|]. rd. intros a _. rd. intros t ->. apply cwp_bind, wp_lift. intros [dirty t] _.
  qt Hi. intros _ c1 Q1 Hi1. apply cwp_bind. eapply (cwp_mono _ _ (fun _ => left_as acc ans h c1)).
  - destruct dirty as [line|]; [|by apply cwp_ret]. apply cwp_bind. eapply cwp_mono; [by apply Writeback_inv|].
    intros ok c2 H2. by apply cwp_assert.
  - intros _ c2 [Hi2 S2]. qt Hi2. intros _ c3 Q3 Hi3. apply cwp_bind, cwp_modify, cwp_ret. apply inv_aseq_same; [done|].
    rewrite (u_seq _ _ Q3), S2, (u_seq _ _ Q1). unfold held_by. simpl. by rewrite Hph.
Qed.
Lemma ReadOld_inv acc ans h c p : inv acc ans h c -> a_phase (atomic_sequencer_ c) = kReadOld ->
  wp (AtomicReadOld config_ error_throws p) c (fun _ c' => inv acc ans h c').
Proof.
  intros Hi Hph. unfold AtomicReadOld. rd. intros pkt _. rd. intros a _. rd. intros g _. rd. intros s ->. rd. intros d _.
  apply cwp_bind, wp_lift. intros [[ok g'] old] _. apply cwp_bind, cwp_assert. intros _. destruct (gp_atomic g'); [|apply cwp_fail].
  apply cwp_bind, wp_lift. intros new _. qt Hi. intros _ c1 Q1 Hi1. apply cwp_modify. apply inv_aseq_same; [done|].
  rewrite (u_seq _ _ Q1). unfold held_by. simpl. by rewrite Hph.
Qed.
Lemma WriteNewRespond_inv acc ans h c p : inv acc ans h c -> a_phase (atomic_sequencer_ c) = kWriteNewRespond ->
  wp (AtomicWriteNewRespond config_ error_throws p) c (fun _ c' => inv acc ans h c').
Proof.
  intros Hi Hph. unfold AtomicWriteNewRespond. rd. intros room _. destruct (negb room); [by apply cwp_ret|].
  apply cwp_bind. eapply wp_dequeue; [exact Hi|]. intros c1 K1 Hi1. rd. intros pkt _. rd. intros a _. rd. intros g _. rd. intros s Es.
  rd. intros d _. apply cwp_bind, wp_lift. intros [[ok g'] d'] _. apply cwp_bind, cwp_assert. intros _. qt Hi1. intros _ c2 Q2 Hi2.
  qt Hi2. intros _ c3 Q3 Hi3. qt Hi3. intros _ c4 Q4 Hi4. qt Hi4. intros _ c5 Q5 Hi5. apply cwp_bind.
  eapply (wp_putq _ _ _ h); [exact Hi5|by left|done|]. intros c6 K6 Hi6. apply cwp_modify. apply inv_aseq_same; [done|].
  rewrite (k_seq _ _ _ K6), (u_seq _ _ Q5), (u_seq _ _ Q4), (u_seq _ _ Q3), (u_seq _ _ Q2), (k_seq _ _ _ K1).
  unfold held_by. by rewrite Hph.
Qed.
Lemma AtomicDataStage_inv acc ans h c now : inv acc ans h c ->
  wp (TryAdvanceAtomicDataStage config_ error_throws now) c (fun _ c' => inv acc ans h c').
Proof.
  intros Hi. unfold TryAdvanceAtomicDataStage. rd. intros s ->. destruct (negb _); [by apply cwp_ret|].
  destruct (a_packet _) as [p|]; [|apply cwp_fail]. rd. intros pkt _. apply cwp_bind, cwp_assert. intros _.
  case_bool_decide as H1; [by apply FlushBypassLine_inv|]. destruct (_ && _) eqn:Eb; [by apply cwp_ret|]. rd. intros f _.
  destruct (bool_decide (nb_peek f = Some p)); [|by apply cwp_ret]. apply cwp_bind. eapply (cwp_mono _ _ (fun _ => inv acc ans h)).
  - destruct (decide (a_phase (atomic_sequencer_ c) = kReadOld)) as [H2|H2];
      [rewrite bool_decide_eq_true_2 by done; by apply ReadOld_inv|]. rewrite bool_decide_eq_false_2 in Eb |- * by done.
    apply negb_false_iff, bool_decide_eq_true in Eb. by apply WriteNewRespond_inv.
  - intros _ c' Hi'. by apply cwp_ret.
Qed.

Lemma DataArrayMiss_inv acc ans h c p : inv acc ans h c -> wp (TryProcessDataArrayMiss config_ p) c (fun _ c' => inv acc ans h c').
Proof.
  intros Hi. unfold TryProcessDataArrayMiss. rd. intros pkt _. apply cwp_bind, cwp_assert. intros _. rd. intros w _.
  destruct (_ && _); [|apply cwp_fail]. rd. intros wroom _. rd. intros croom _. destruct (_ || _); [by apply cwp_ret|].
  apply cwp_bind. eapply cwp_mono; [by apply WriteBufferPacket_inv|]. intros p' c1 (_ & _ & _ & Hi1). apply cwp_bind.
  eapply (wp_putq _ _ _ h); [exact Hi1|by left|done|]. intros c2 _ Hi2. apply cwp_bind. eapply wp_dequeue; [exact Hi2|].
  intros c3 _ Hi3. eapply (wp_putq _ _ _ h); [exact Hi3|by left|done|]. by intros c4 _ Hi4.
Qed.

Definition hold_opt (o : option nat) (h : hands) : hands := match o with Some p => hold p h | None => h end.
Lemma notify_refill_inv acc ans h c p pkt (victim : option nat) a : inv acc ans (hold_opt victim (hold p h)) c ->
  tp c p = Some (kRefill, a) -> (forall p', victim = Some p' -> exists a', tp c p' = Some (kVictimWriteReq, a')) ->
  wp (notify_refill config_ p pkt victim) c (fun _ c' => inv acc ans h c').
Proof.
  intros Hi Ht Hv. unfold notify_refill. destruct (mshr_id pkt) as [i|]; [|apply cwp_fail]. apply cwp_bind.
  eapply wp_quiet; [apply Take_quiet|exact Hi|]. intros r c1 Q1 Hi1. rd. intros ps _. rd. intros v0 Ev. subst v0. apply cwp_bind, wp_lift. intros v Hr.
  apply cwp_bind, cwp_modify. set (c2 := set_vbuf v c1).
  assert (inv acc ans (hold p h) c2 /\ tp c2 p = Some (kRefill, a)) as [Hi2 Ht2].
  { split; [|by rewrite <- (u_tp _ _ Q1 p) in Ht]. destruct victim as [p'|].
    - destruct (Hv p' eq_refl) as [a' Ha']. rewrite <- (u_tp _ _ Q1 p') in Ha'. by eapply Commit_inv.
    - eapply inv_quiet; [exact Hi1|by eapply Cancel_quiet]. }
  rd. intros adr _. rd. intros f Ef. subst f. apply cwp_bind.
  eapply (cwp_mono _ _ (fun _ c3 => inv acc ans (hold p h) c3 /\ tp c3 p = Some (kRefill, a))).
  - destruct (nb_put _ _) as [f|] eqn:En; [|apply cwp_fail]. apply cwp_modify. split; [|exact Ht2].
    eapply inv_quiet; [exact Hi2|by eapply set_notify_quiet].
  - intros _ c3 [Hi3 Ht3]. eapply cwp_mono; [by eapply Release_kind|]. by intros _ c4 [_ Hi4].
Qed.

Lemma DataArrayHit_inv acc ans h c p : inv acc ans h c ->
  wp (TryProcessDataArrayHit config_ error_throws p) c (fun _ c' => inv acc ans h c').
Proof.
  intros Hi. unfold TryProcessDataArrayHit. rd. intros pkt Hp. apply cwp_bind, cwp_assert. intros _. rd. intros croom _. rd. intros w _.
  rd. intros nroom _. rd. intros wroom _. destruct (_ || _ || _); [by apply cwp_ret|]. pose proof (tp_of _ _ _ Hp) as Ht.
  apply cwp_bind. eapply wp_dequeue; [exact Hi|]. intros c1 K1 Hi1. change (inv acc ans (hold p h) c1) in Hi1. carry K1.
  set (refill := bool_decide (type_ pkt = kRefill)). set (need := refill && w && is_victim_dirty pkt).
  set (through := _ && bool_decide (write_hit_policy config_ = kWriteThrough)).
  apply cwp_bind. eapply (cwp_mono _ _ (fun victim c2 => inv acc ans (hold_opt victim (hold p h)) c2 /\ tp c2 p = Some (type_ pkt, payload_ pkt) /\
    (need = false -> victim = None) /\ forall p', victim = Some p' -> exists a, tp c2 p' = Some (kVictimWriteReq, a))).
  { destruct need eqn:En; [|by apply cwp_ret]. apply cwp_bind. eapply cwp_mono; [by apply VictimPacket_inv|].
    intros p' c2 (K2 & Hf & [n Ht'] & Hi2). apply cwp_ret. split_and!; [done| |done|].
    - rewrite (k_tp _ _ _ K2); [done|]. intros ->%list_elem_of_singleton. apply (Hf p'); [|done]. apply elem_of_app. right. by left.
    - intros p'' [= <-]. by eexists. }
  intros victim c2 (Hi2 & Ht2 & Hn & Hv). qt Hi2. intros [result vb] c3 Q3 Hi3.
  rewrite <- (u_tp _ _ Q3 p) in Ht2.
  assert (Hv3 : forall p', victim = Some p' -> exists a, tp c3 p' = Some (kVictimWriteReq, a)).
  { intros p' Hp'. destruct (Hv p' Hp') as [a Ha]. exists a. by rewrite (u_tp _ _ Q3 p'). }
  assert (Href : refill = true -> tp c3 p = Some (kRefill, payload_ pkt)) by (intros Hr%bool_decide_eq_true; by rewrite <- Hr).
  assert (Hno : refill = false -> victim = None) by (intros Hr; apply Hn; unfold need; by rewrite Hr).
  clearbody refill need through. clear Hv Hn Q3 Hi2.
  destruct (negb (ok result)).
  - apply cwp_bind, cwp_assert. intros _. apply cwp_bind.
    eapply (cwp_mono _ _ (fun _ c4 => inv acc ans (hold p h) c4 /\ (refill = true -> tp c4 p = Some (kRefill, payload_ pkt)))).
    { destruct victim as [p'|]; [|by apply cwp_ret]. destruct (Hv3 p' eq_refl) as [a Ha].
      assert (p' <> p) by (intros ->; destruct (inv_hand _ _ _ _ _ p Hi3) as (_ & H1 & _); [by left|]; simpl in H1; rewrite !one_refl in H1; lia).
      eapply cwp_mono; [by eapply Release_kind|]. intros _ c4 [K4 Hi4]. split; [done|]. intros Hr. rewrite (k_tp _ _ _ K4) by set_solver. auto. }
    intros _ c4 [Hi4 Ht4]. qt Hi4. intros _ c5 Q5 Hi5. qt Hi5. intros _ c6 Q6 Hi6. destruct refill.
    + eapply notify_refill_inv; [exact Hi6| |done]. rewrite (u_tp _ _ Q6), (u_tp _ _ Q5). by apply Ht4.
    + eapply (wp_putq _ _ _ h); [exact Hi6|by left|done|]. by intros c7 _ Hi7.
  - apply cwp_bind, cwp_assert. intros _. apply cwp_bind.
    eapply (cwp_mono _ _ (fun _ c4 => inv acc ans (hold_opt victim (hold p h)) c4 /\
      (forall x, x ∈ h_own (hold_opt victim (hold p h)) -> tp c4 x = tp c3 x))).
    { apply cwp_when; [|done]. intros _. apply cwp_bind. eapply cwp_mono; [by apply WriteBufferPacket_inv|].
      intros p' c4 (K4 & Hf & _ & Hi4). eapply (wp_putq _ _ _ (hold_opt victim (hold p h))); [exact Hi4|by left|done|].
      intros c5 K5 Hi5. split; [done|]. intros x Hx. rewrite (k_tp _ _ _ K5) by set_solver.
      apply (k_tp _ _ _ K4). intros ->%list_elem_of_singleton. apply (Hf p'); [|done]. apply elem_of_app. by right. }
    intros _ c4 [Hi4 Ht4]. apply cwp_bind.
    eapply wp_quiet; [|exact Hi4|].
    { destruct victim; [|apply quiet_ret]. destruct vb; [|apply quiet_ret]. quiet_auto. }
    intros _ c5 Q5 Hi5. destruct refill.
    + eapply notify_refill_inv; [exact Hi5| |].
      * rewrite (u_tp _ _ Q5), Ht4; [by apply Href|]. destruct victim; [right; by left|by left].
      * intros p' ->. destruct (Hv3 p' eq_refl) as [a Ha]. exists a. rewrite (u_tp _ _ Q5), Ht4; [done|by left].
    + rewrite (Hno eq_refl) in Hi5. eapply (wp_putq _ _ _ h); [exact Hi5|by left|done|]. by intros c7 _ Hi7.
Qed.
Lemma DataArrayStage_inv acc ans h c now : inv acc ans h c ->
  wp (AccessDataArrayStage config_ error_throws now) c (fun _ c' => inv acc ans h c').
Proof.
  intros Hi. unfold AccessDataArrayStage. apply cwp_bind. eapply cwp_mono; [by apply AtomicDataStage_inv|]. clear c Hi.
  intros occupied c Hi. simpl in Hi. destruct occupied; [by apply cwp_ret|]. rd. intros some _. destruct (negb some); [by apply cwp_ret|].
  rd. intros p _. rd. intros pkt _. apply cwp_bind, cwp_assert. intros _. case_bool_decide.
  - rd. intros room _. destruct (negb room); [by apply cwp_ret|]. apply cwp_bind. eapply wp_dequeue; [exact Hi|]. intros c1 _ Hi1.
    eapply (wp_putq _ _ _ h); [exact Hi1|by left|done|]. by intros c2 _ Hi2.
  - destruct (negb (is_hit pkt)); [by apply DataArrayMiss_inv|by apply DataArrayHit_inv].
Qed.
End stages.
