(* ===== verification/SimInput.v ===== *)
(** * The tag stage, the commands and the input of the cache keep the accounts

    The rest of the stages of SimStages.v: the tag stage, where misses enter the miss
    registers, the sequencer of commands, the two inputs, and the methods of the modules. *)

From stdpp Require Import gmap.
From S2P Require Import Prelude SimFifo SimPacket SimTag SimData SimMemory SimMshr SimVictim SimWrites SimCache SimLedger SimLogic SimStages.

(** ** Computations that do not look at a queue

    The code adds a request to the miss registers before it takes it out of its queue. The
    accounts are of the other order, which has the same result. *)
Section frame.
Context {E : Type} `{RandomEngine E} (config_ : Param) (q0 : queue).
Implicit Types (c : Cache E) (p x : nat) (q : queue) (k : queue -> tlm_fifo nat).
Notation M := (@M E).

Definition off k c : Prop := forall q, q <> q0 -> k q = queues c q.
Definition Frame {A} (m : M A) : Prop := forall c k a c', off k c -> m c = Ok (a, c') ->
  exists k', m (set_queues k c) = Ok (a, set_queues k' c') /\ off k' c' /\ k' q0 = k q0 /\ queues c' q0 = queues c q0.

Lemma frame_ret {A} (a : A) : Frame (mret a).
Proof. intros c k b c' Ho [= <- <-]. by exists k. Qed.
Lemma frame_fail {A} e : Frame (@fail E A e).
Proof. done. Qed.
Lemma frame_bind {A B} (m : M A) (f : A -> M B) : Frame m -> (forall a, Frame (f a)) -> Frame (m ≫= f).
Proof.
  intros Hm Hf c k b c' Ho Hb. unfold mbind, M_bind in *. destruct (m c) as [[a c1]|] eqn:Em; [|done].
  destruct (Hm c k a c1 Ho Em) as (k1 & E1 & O1 & K1 & Q1). destruct (Hf a c1 k1 b c' O1 Hb) as (k2 & E2 & O2 & K2 & Q2).
  rewrite E1. exists k2. split_and!; [done..|congruence|congruence].
Qed.
Lemma frame_gets {A} (f : Cache E -> A) : (forall c k, off k c -> f (set_queues k c) = f c) -> Frame (gets f).
Proof. intros Hf c k a c' Ho [= <- <-]. exists k. unfold gets. by rewrite Hf. Qed.
Lemma frame_modify f : (forall c k, f (set_queues k c) = set_queues k (f c) /\ queues (f c) = queues c) -> Frame (modify f).
Proof.
  intros Hf c k a c' Ho [= <- <-]. exists k. destruct (Hf c k) as [E1 E2]. unfold modify, off. by rewrite E1, E2.
Qed.
Lemma frame_lift {A} (r : res A) : Frame (lift r).
Proof. intros c k a c' Ho. unfold lift. destruct r; [|done]. intros [= <- <-]. by exists k. Qed.
Lemma frame_assert b : Frame (assert b).
Proof. destruct b; [apply frame_ret|apply frame_fail]. Qed.
Lemma frame_putq q p : q <> q0 -> Frame (putq q p).
Proof.
  intros Hq c k a c' Ho. unfold putq, mbind, M_bind. simpl. rewrite (Ho q Hq). destruct (nb_put p (queues c q)) as [f|]; [|done].
  intros [= <- <-]. exists (fun q' => if decide (q' = q) then f else k q'). split_and!; [done| | |].
  - intros q' Hq'. simpl. destruct (decide (q' = q)); [done|]. by apply Ho.
  - by rewrite decide_False.
  - simpl. by rewrite decide_False.
Qed.
End frame.

Ltac frame_step :=
  match goal with
  | |- Frame _ (_ ≫= _) => apply frame_bind; [|intros ?]
  | |- Frame _ (mret _) => apply frame_ret
  | |- Frame _ (gets _) => apply frame_gets; intros ? ? Ho; first [reflexivity | simpl; by rewrite Ho]
  | |- Frame _ (lift _) => apply frame_lift
  | |- Frame _ (fail _) => apply frame_fail
  | |- Frame _ (assert _) => apply frame_assert
  | |- Frame _ (modify _) => apply frame_modify; intros ? ?; split; reflexivity
  | |- Frame _ (putq _ _) => apply frame_putq; discriminate
  | |- Frame _ (match ?x with _ => _ end) => destruct x
  end.

Section input.
Context {E : Type} `{RandomEngine E} (config_ : Param) (error_throws : bool).
Implicit Types (c : Cache E) (p x : nat) (q : queue).
Notation inv := (inv config_).

Lemma TryAcceptMiss_frame p st : Frame core_req_queue_ (@TryAcceptMiss E config_ p st).
Proof.
  unfold TryAcceptMiss, MshrFile_TryAcceptMiss, AllocateMshrReadReqPacket, AllocatePacketWithOwnedPayload, AcquirePayload,
    AcquirePacket, SetTraceParent, mod_packet, owned_payload, mshr_probe, GetAddress, gp, type_of, can_put, GetTlmGp, packet, deref,
    put_packet, put_gp.
  repeat frame_step.
Qed.

(** ** Misses *)

Lemma ReadReq_inv acc ans h c primary a id : inv acc ans h c ->
  wp (AllocateMshrReadReqPacket config_ primary a id) c (allocated config_ acc ans h c kMshrReadReq).
Proof.
  intros Hi. unfold AllocateMshrReadReqPacket. rd. intros t _. apply cwp_bind, cwp_assert. intros _. apply cwp_bind.
  eapply wp_AllocatePacket; [exact Hi|]. intros p n c1 K1 Hf Ht Hi1. rd. intros pkt _. apply cwp_bind.
  eapply (wp_retype _ _ _ _ _ _ _ _ kMshrReadReq); [exact Hi1|by left|exact Ht|by intros|by right|]. intros c2 K2 Ht2 Hi2.
  qt Hi2. intros _ c3 Q3 Hi3. rd. intros b _. qt Hi3. intros _ c4 Q4 Hi4. apply cwp_ret. pose proof (transitivity Q3 Q4) as Q.
  carry (quiet_kept [] _ _ Q). split_and!; [|done|by exists n|done]. eapply kept_trans; [exact K1|].
  eapply kept_trans; [exact K2|by apply quiet_kept].
Qed.
(** A packet in hand joins an entry. *)
Lemma inv_join acc ans h c p i e m : inv acc ans (hold p h) c -> (i < length (mshr_entries_ (mshr_file_ c)))%nat ->
  mshr_entries_ m = <[i := e]> (mshr_entries_ (mshr_file_ c)) -> sub_entries e = sub_entries (mshr_at (mshr_file_ c) i) ++ [p] ->
  state e <> kInvalid -> is_Some (core_of c p) -> inv acc ans h (set_mshr m c).
Proof.
  intros Hi Hl Hm He Hs Hp.
  assert (Hi' : inv acc ans (set_own (h_own h) (hold p h)) (set_mshr m c)); [|by destruct h].
  assert (Ho : forall x, (occ x (flat_map sub_entries (mshr_entries_ m)) = occ x (subs c) + one x p)%nat).
  { intros x. pose proof (occ_flat_insert sub_entries _ _ _ e x (mshr_lookup _ _ Hl)) as Ho. rewrite Hm. unfold subs.
    rewrite He, occ_app in Ho. simpl in Ho. lia. }
  apply inv_subs; [exact Hi|..].
  - intros x. rewrite Ho. simpl. lia.
  - intros x. rewrite occ_elem, Ho. intros Hx. unfold one in Hx. destruct (Nat.eqb_spec x p) as [Exp|]; [by rewrite Exp|].
    apply (i_subs _ _ _ _ _ Hi). apply occ_elem. lia.
  - intros j. assert (Hat : mshr_at m j = mshr_at (put_mshr i e (mshr_file_ c)) j) by (unfold mshr_at; by rewrite Hm).
    rewrite Hat, mshr_put by done. case_decide; [done|]. apply (i_mshr _ _ _ _ _ Hi).
Qed.
Lemma ProbeMiss_in a m st i : ProbeMiss config_ a m = Ok (st, Some i) -> (i < length (mshr_entries_ m))%nat.
Proof.
  unfold ProbeMiss. destruct (FindMshrEntry m _) as [j|] eqn:Ef.
  - destruct (_ || _); [done|]. intros Hp. res_inv. destruct (_ <=? _)%nat; [done|]. injection Hp as _ ->.
    unfold FindMshrEntry in Ef. by apply find_first_Some in Ef as (Hl & _).
  - destruct (FindFreeMshrEntry m) as [j|] eqn:Eg; [|done]. intros [= _ ->]. unfold FindFreeMshrEntry in Eg.
    by apply find_first_Some in Eg as (Hl & _).
Qed.
Lemma core_request acc ans h c p a : inv acc ans h c -> tp c p = Some (kCoreReq, a) -> is_Some (core_of c p).
Proof.
  intros Hi Ht. pose proof (inv_kinded _ _ _ _ _ _ _ _ Hi Ht) as [|Hk]; [done|]. rewrite (core_tp _ _ _ _ Ht).
  destruct a as [[n|n]|]; done.
Qed.
(** A miss that is refused changes nothing. *)
Lemma MshrTry_rejected p r c : wp (MshrFile_TryAcceptMiss config_ p r) c (fun s c' => s = kRejected -> c' = c).
Proof.
  unfold MshrFile_TryAcceptMiss. rd. intros t _. apply cwp_bind, cwp_assert. intros _. rd. intros [st o] _.
  assert (Hno : forall (m : M (E:=E) unit) s0, s0 <> kRejected -> wp (m ;; mret s0) c (fun s c' => s = kRejected -> c' = c)).
  { intros m s0 Hs0. apply cwp_bind. eapply (cwp_mono _ _ (fun _ _ => True)); [done|]. intros [] c' _. by apply cwp_ret. }
  destruct st, o; try (by apply cwp_ret).
  - destruct r; [|by apply cwp_ret]. rd. intros room _. destruct (negb room); [by apply cwp_ret|].
    rd. intros a _. rd. intros m _. apply cwp_bind, wp_lift. intros [[ra id] m'] _. apply cwp_bind, cwp_modify, cwp_bind.
    eapply (cwp_mono _ _ (fun _ _ => True)); [done|]. intros q c1 _. apply cwp_bind. eapply (cwp_mono _ _ (fun _ _ => True)); [done|].
    intros _ c2 _. by apply cwp_ret.
  - apply cwp_bind, cwp_assert. intros _. rd. intros a _. rd. intros m _. apply cwp_bind, wp_lift. intros m' _.
    apply cwp_bind, cwp_modify. by apply cwp_ret.
Qed.
Lemma MshrTry_accepted acc ans h c p r a : inv acc ans (hold p h) c -> tp c p = Some (kCoreReq, a) ->
  wp (MshrFile_TryAcceptMiss config_ p r) c (fun s c' => s <> kRejected -> inv acc ans h c').
Proof.
  intros Hi Ht. pose proof (core_request _ _ _ _ _ _ Hi Ht) as Hcore. unfold MshrFile_TryAcceptMiss. rd. intros t _.
  apply cwp_bind, cwp_assert. intros _. rd. intros [st o] [adr Hp]. destruct st, o as [i|]; try (by apply cwp_ret).
  - destruct r as [r|]; [|by apply cwp_ret]. rd. intros room _. destruct (negb room); [by apply cwp_ret|]. rd. intros adr' _.
    rd. intros m Em. subst m. apply cwp_bind, wp_lift. intros [[ra id] m'] Ha. apply cwp_bind, cwp_modify.
    assert (Hi1 : inv acc ans h (set_mshr m' c)).
    { unfold AllocatePrimaryMiss in Ha. res_inv. by eapply inv_join; [exact Hi|by eapply ProbeMiss_in|..]. }
    apply cwp_bind. eapply cwp_mono; [by apply ReadReq_inv|]. intros p' c2 (_ & _ & [n Ht'] & Hi2). apply cwp_bind.
    eapply (wp_putq _ _ _ h); [exact Hi2|right; by rewrite (typed_tp _ _ _ _ _ Ht')|done|]. intros c3 _ Hi3. by apply cwp_ret.
  - apply cwp_bind, cwp_assert. intros _. rd. intros adr' _. rd. intros m Em. subst m. apply cwp_bind, wp_lift. intros m' Ha.
    apply cwp_bind, cwp_modify, cwp_ret. intros _. unfold AddSecondaryMiss in Ha. res_inv.
    match goal with Hs : bool_decide (state _ = _) = true |- _ => apply bool_decide_eq_true in Hs as Es end.
    eapply inv_join; [exact Hi|by eapply ProbeMiss_in|done|done|simpl; by rewrite Es|done].
Qed.
Lemma AcceptMiss_rejected acc ans h c p st : inv acc ans h c ->
  wp (TryAcceptMiss config_ p st) c (fun s c' => s = kRejected -> inv acc ans h c').
Proof.
  intros Hi. unfold TryAcceptMiss. destruct (negb _); [by apply cwp_ret|]. case_bool_decide.
  - eapply cwp_mono; [by apply MshrTry_rejected|]. intros s c' Hs Hr. by rewrite (Hs Hr).
  - rd. intros room _. destruct (negb room); [by apply cwp_ret|]. rd. intros v Ev. subst v. apply cwp_bind, wp_lift. intros [o v] Hv.
    apply cwp_bind, cwp_modify. pose proof (TryReserve_quiet _ _ _ _ _ _ _ Hi Hv) as Q.
    destruct o as [r|]; [|apply cwp_ret; intros _; by eapply inv_quiet]. apply cwp_bind.
    eapply cwp_mono; [by apply MshrTry_rejected|]. intros s c' _. apply cwp_bind, cwp_assert. intros ->%bool_decide_eq_true. by apply cwp_ret.
Qed.
Lemma AcceptMiss_accepted acc ans h c p st a : inv acc ans (hold p h) c -> tp c p = Some (kCoreReq, a) ->
  wp (TryAcceptMiss config_ p st) c (fun s c' => s <> kRejected -> inv acc ans h c').
Proof.
  intros Hi Ht. unfold TryAcceptMiss. destruct (negb _); [by apply cwp_ret|]. case_bool_decide; [by eapply MshrTry_accepted|].
  rd. intros room _. destruct (negb room); [by apply cwp_ret|]. rd. intros v Ev. subst v. apply cwp_bind, wp_lift. intros [o v] Hv.
  apply cwp_bind, cwp_modify. pose proof (TryReserve_quiet _ _ _ _ _ _ _ Hi Hv) as Q. destruct o as [r|]; [|by apply cwp_ret].
  apply cwp_bind. rewrite <- (u_tp _ _ Q p) in Ht. eapply cwp_mono; [eapply MshrTry_accepted; [by eapply inv_quiet|exact Ht]|].
  intros s c' Hs. apply cwp_bind, cwp_assert. intros _. by apply cwp_ret.
Qed.
(** A miss leaves the queue of the requests. *)
Lemma AcceptMiss_inv acc ans h c p st a s c1 u c2 : inv acc ans h c -> tp c p = Some (kCoreReq, a) ->
  TryAcceptMiss config_ p st c = Ok (s, c1) -> s <> kRejected -> dequeue core_req_queue_ p c1 = Ok (u, c2) -> inv acc ans h c2.
Proof.
  intros Hi Ht Htry Hs Hd. unfold dequeue, getq, mbind, M_bind in Hd. simpl in Hd.
  destruct (nb_get (queues c1 core_req_queue_)) as [[p' f]|] eqn:Eg; [|done]. simpl in Hd.
  destruct (decide (p' = p)) as [->|Hne]; [|by rewrite bool_decide_eq_false_2 in Hd].
  rewrite bool_decide_eq_true_2 in Hd by done. injection Hd as <- <-.
  destruct (TryAcceptMiss_frame p st c (queues c) s c1 ltac:(done)) as (_ & _ & _ & _ & Eq); [by destruct c|].
  rewrite Eq in Eg. set (d := put_queue core_req_queue_ f c).
  destruct (TryAcceptMiss_frame p st c (queues d) s c1) as (k & Ek & Ok' & Kk & _);
    [intros q Hq; unfold d; simpl; by destruct (decide (q = core_req_queue_))|done|].
  change (set_queues (queues d) c) with d in Ek.
  pose proof (AcceptMiss_accepted acc ans h d p st a (inv_get _ _ _ _ _ _ _ _ Hi Eg) Ht s _ Ek Hs) as Hi'.
  eapply inv_quiet; [exact Hi'|]. split; try done. intros q. simpl. unfold put_queue. simpl.
  destruct (decide (q = core_req_queue_)) as [->|]; [|by rewrite Ok']. rewrite Kk. done.
Qed.

(** ** Tag array stage *)

Lemma start_atomic_inv acc ans h c p ph : inv acc ans (if held_phase ph then hold p h else h) c ->
  (held_phase ph = true -> exists a, tp c p = Some (kBypassCoreReq, a)) -> wp (start_atomic p ph) c (fun _ c' => inv acc ans h c').
Proof.
  intros Hi Ht. unfold start_atomic. rd. intros s ->. apply cwp_bind, wp_lift. intros s Hs. apply cwp_modify. unfold a_Start in Hs. res_inv.
  match goal with Hb : negb (a_IsBusy _) = true |- _ => unfold a_IsBusy in Hb; rewrite negb_involutive in Hb; apply bool_decide_eq_true in Hb as Eb end.
  destruct (held_phase ph) eqn:Ep.
  - assert (Hi' : inv acc ans (set_own (h_own h) (hold p h)) (set_aseq (mkAtomicSeq ph (Some p) (old_value (atomic_sequencer_ c)) (new_value (atomic_sequencer_ c))) c));
      [|by destruct h].
    apply inv_aseq; [exact Hi|..]; unfold held_by; simpl; rewrite Ep, ?Eb; simpl.
    + intros y ->%list_elem_of_singleton. destruct (Ht eq_refl) as [a Ha]. by rewrite (typed_tp _ _ _ _ _ Ha).
    + intros y. lia.
  - apply inv_aseq_same; [exact Hi|]. unfold held_by. simpl. by rewrite Ep, Eb.
Qed.
Lemma RejectInvalid_inv acc ans h c p t a : inv acc ans h c -> tp c p = Some (t, a) ->
  wp (TryRejectInvalidAtomicRequest p) c (fun b c' => inv acc ans h c' /\ (b = false -> c' = c)).
Proof.
  intros Hi Ht. unfold TryRejectInvalidAtomicRequest. rd. intros pkt Hp. apply cwp_bind, cwp_assert. intros Hty. apply cwp_bind, cwp_assert.
  intros _. rd. intros adr _. rd. intros g _. destruct (IsValidAtomicRequest g); [by apply cwp_ret|]. rd. intros room _.
  destruct (negb room); [by apply cwp_ret|]. rewrite (tp_of _ _ _ Hp) in Ht. injection Ht as <- <-.
  pose proof (tp_of _ _ _ Hp) as Ht. apply cwp_bind. eapply wp_dequeue; [exact Hi|]. intros c1 K1 Hi1. carry K1.
  qt Hi1. intros _ c2 Q2 Hi2. carry (quiet_kept [] _ _ Q2). apply cwp_bind.
  eapply (wp_retype _ _ _ _ _ _ _ _ kCoreReq); [exact Hi2|by left|exact Ht|by intros| |].
  { pose proof (inv_kinded _ _ _ _ _ _ _ _ Hi2 Ht) as Hk. destruct (payload_ pkt) as [[n|n]|]; [by right| |]; destruct (type_ pkt); by destruct Hk. }
  intros c3 _ _ Hi3. apply cwp_bind. eapply (wp_putq _ _ _ h); [exact Hi3|by left|done|]. intros c4 _ Hi4. by apply cwp_ret.
Qed.
(** What the stage has chosen: a packet it took, or one it saw at the head of its queue. *)
Definition seen (t : PacketType) : bool := one_of t [kRefill; kCoreReq].
Definition chosen acc ans h (o : option nat) c' : Prop :=
  match o with
  | None => inv acc ans h c'
  | Some p => exists t a, tp c' p = Some (t, a) /\ one_of t [kRefill; kCoreReq; kReplay; kBypassCoreReq; kBypassCoreResp] = true /\
      inv acc ans (if seen t then h else hold p h) c'
  end.
Lemma SelectCoreRequest_inv acc ans h c output : inv acc ans h c ->
  wp (SelectCoreRequest config_ output) c (chosen acc ans h).
Proof.
  intros Hi. unfold SelectCoreRequest. rd. intros p Hpeek. rd. intros s _. destruct (a_IsBusy s); [by apply cwp_ret|].
  rd. intros pkt Hp. pose proof (tp_of _ _ _ Hp) as Ht. case_bool_decide as Eb.
  - rewrite Eb in Ht. destruct (_ && _).
    + apply cwp_bind. eapply cwp_mono; [by eapply RejectInvalid_inv|]. intros rejected c1 [Hi1 Hc]. apply cwp_bind.
      apply cwp_when; [|intros _; by apply cwp_ret]. intros Hr%negb_true_iff. rewrite (Hc Hr). unfold StartForwardedAtomic.
      rd. intros pkt' _. do 2 (apply cwp_bind, cwp_assert; intros _). rd. intros s' _. apply cwp_bind, cwp_assert. intros _.
      apply cwp_bind. eapply wp_dequeue; [exact Hi|]. intros c2 K2 Hi2. carry K2.
      eapply cwp_mono; [apply (start_atomic_inv acc ans h); [exact Hi2|by eexists]|]. intros u c3 Hi3. by apply cwp_ret.
    + rd. intros stall _. rd. intros room _. destruct (_ || _); [by apply cwp_ret|]. apply cwp_bind. eapply wp_getq; [exact Hi|].
      intros p' c1 Hpeek' K1 Hi1. assert (p' = p) as -> by congruence. carry K1. apply cwp_ret. by eexists _, _.
  - apply cwp_bind, cwp_assert. intros Ec%bool_decide_eq_true. rewrite Ec in Ht. apply cwp_bind.
    eapply (cwp_mono _ _ (fun b c' => inv acc ans h c' /\ (b = false -> c' = c))).
    { destruct (is_atomic pkt); [by eapply RejectInvalid_inv|by apply cwp_ret]. }
    intros rejected c1 [Hi1 Hc]. destruct rejected; [by apply cwp_ret|]. rewrite (Hc eq_refl). rd. intros stall _.
    destruct (_ || _); apply cwp_ret; [done|]. by eexists _, _.
Qed.

(** Taking a response out of its queue gives its slot back. *)
Lemma wp_response acc ans c p {A} (k : M (E:=E) A) (Q : A -> Cache E -> Prop) : inv acc ans (empty_hands false) c ->
  (forall c', (forall x, tp c' x = tp c x) -> inv acc ans (hold p (empty_hands false)) c' -> wp k c' Q) ->
  wp (dequeue mem_resp_queue_ p;; n ← gets mem_response_slots_in_use_; assert (0 <? n)%nat;; modify (set_slots (n - 1));; k) c Q.
Proof.
  intros Hi HQ. apply cwp_bind. eapply wp_dequeue; [exact Hi|]. intros c1 K1 Hi1. rd. intros n ->. apply cwp_bind, cwp_assert.
  intros Hn%Nat.ltb_lt. apply cwp_bind, cwp_modify. apply HQ.
  - intros x. exact (k_tp _ _ _ K1 x ltac:(set_solver)).
  - apply (inv_hslots _ _ _ _ _ (mem_response_slots_in_use_ c1 - 1) 0) in Hi1; [exact Hi1|]. simpl. lia.
Qed.
Lemma SelectTag_inv acc ans c : inv acc ans (empty_hands false) c ->
  wp (SelectTagArrayPacket config_) c (chosen acc ans (empty_hands false)).
Proof.
  intros Hi. unfold SelectTagArrayPacket. rd. intros output _. rd. intros replay _. apply cwp_bind.
  apply (wp_reads _ (fun _ _ => True)); [destruct replay; [eapply reads_bind; [apply peekq_reads|intros p; eapply reads_weak; [apply ShouldStall_reads|]]|eapply reads_weak; [apply ret_reads|]];
    done|]. intros blocked _. destruct (replay && negb blocked).
  { destruct (negb output); [by apply cwp_ret|]. apply cwp_bind. eapply wp_getq; [exact Hi|]. intros p c1 Hp K1 Hi1. apply cwp_ret.
    pose proof (queue_typed _ _ _ _ _ _ _ Hi Hp ltac:(done)) as Hty. apply tp_of_typed in Hty as [a Ht]. carry K1. by eexists _, _. }
  rd. intros some _. apply cwp_bind.
  eapply (cwp_mono _ _ (fun o c' => c' = c /\ match o with Some (p, t) => nb_peek (queues c mem_resp_queue_) = Some p /\
    (exists a, tp c p = Some (t, a)) /\ one_of t [kRefill; kBypassCoreResp] = true | None => True end)).
  { destruct some; [|by apply cwp_ret]. rd. intros p Hp. rd. intros t (pkt & Hl & <-). apply cwp_bind, cwp_assert. intros Ht. apply cwp_ret.
    split; [done|]. split_and!; [done| |done]. rewrite (tp_of _ _ _ Hl). by eexists. }
  intros resp c' [-> Hresp].
  assert (Hother : wp (if blocked then mret None else match resp with
    | Some (p, _) => room ← gets (fun c => nb_can_put (mshr_file_refill_notify_queue_ c)); if negb output || negb room then mret None else mret (Some p)
    | None => core ← can_get core_req_queue_; if (core : bool) then SelectCoreRequest config_ output else mret None end) c (chosen acc ans (empty_hands false)) \/
    exists p a, resp = Some (p, kBypassCoreResp) /\ tp c p = Some (kBypassCoreResp, a)).
  { destruct resp as [[p t]|].
    - destruct Hresp as (Hp & [a Ha] & Ht). destruct t; try done; [right; by exists p, a|left].
      destruct blocked; [by apply cwp_ret|]. rd. intros room _. destruct (_ || _); apply cwp_ret; [done|]. by eexists _, _.
    - left. destruct blocked; [by apply cwp_ret|]. rd. intros core _. destruct core; [by apply SelectCoreRequest_inv|by apply cwp_ret]. }
  destruct Hother as [Hother|(p & a & -> & Ha)].
  - destruct resp as [[p t]|]; [|exact Hother]. destruct Hresp as (Hp & [a Ha] & Ht). destruct t; try done.
    destruct (negb output); [by apply cwp_ret|]. apply wp_response with (acc := acc) (ans := ans); [exact Hi|]. intros c1 K1 Hi1. apply cwp_ret.
    exists kBypassCoreResp, a. by rewrite K1.
  - destruct (negb output); [by apply cwp_ret|]. apply wp_response with (acc := acc) (ans := ans); [exact Hi|]. intros c1 K1 Hi1. apply cwp_ret.
    exists kBypassCoreResp, a. by rewrite K1.
Qed.

Lemma AtomicTagStage_inv acc ans h c : inv acc ans h c -> wp (TryAdvanceAtomicTagStage config_) c (fun _ c' => inv acc ans h c').
Proof.
  intros Hi. unfold TryAdvanceAtomicTagStage. rd. intros c' ->. unfold id. destruct (a_phase _) eqn:Ep; try (by apply cwp_ret).
  - apply cwp_bind, cwp_when; intros _; [|by apply cwp_ret]. apply cwp_modify, cwp_ret. apply inv_aseq_same; [done|].
    unfold held_by. simpl. by rewrite Ep.
  - destruct (a_packet _) as [p|] eqn:Epk; [|apply cwp_fail]. rd. intros stall _. rd. intros room _. destruct (_ || _); [by apply cwp_ret|].
    qt Hi. intros _ c1 Q1 Hi1. set (s := set_phase kWaitBypassResponse (atomic_sequencer_ c)).
    assert (Hheld : held_by (atomic_sequencer_ c1) = [p]) by (rewrite (u_seq _ _ Q1); unfold held_by; by rewrite Ep, Epk).
    assert (Hi2 : inv acc ans (hold p h) (set_aseq s c1)).
    { apply (inv_aseq _ _ _ _ _ s (p :: h_own h) Hi1).
      - intros x Hx. by apply not_elem_of_nil in Hx.
      - intros x. rewrite Hheld. simpl. lia. }
    assert (Ht : typed c1 [kBypassCoreReq] p = true).
    { apply (i_held _ _ _ _ _ Hi1). change (aheld c1) with (held_by (atomic_sequencer_ c1)). rewrite Hheld. by left. }
    apply cwp_bind. unfold putq. apply cwp_bind, cwp_gets. destruct (nb_put p (queues c1 bypass_req_queue_)) as [f|] eqn:Ef; [|apply cwp_fail].
    apply cwp_modify, cwp_bind, cwp_modify, cwp_ret. eapply (inv_put _ _ _ h (set_aseq s c1)); [exact Hi2|exact Ef|by right|done].
Qed.

(** A packet at the tag array: it goes on, in hand, or it stays. *)
Definition tagged acc ans p (b : bool) c' : Prop := inv acc ans (if b then hold p (empty_hands false) else empty_hands false) c'.
Lemma RefillTag_inv acc ans c p st : inv acc ans (empty_hands false) c -> wp (RefillTag config_ p st) c (tagged acc ans p).
Proof.
  intros Hi. unfold RefillTag. case_bool_decide; [by apply cwp_ret|]. apply cwp_bind, cwp_assert. intros _.
  apply (wp_response acc ans); [exact Hi|]. intros c1 _ Hi1. rd. intros w _. rd. intros pkt _. qt Hi1. intros _ c2 _ Hi2. by apply cwp_ret.
Qed.
Lemma CoreReqTag_inv acc ans c p st a : inv acc ans (empty_hands false) c -> tp c p = Some (kCoreReq, a) ->
  wp (CoreReqTag config_ p st) c (tagged acc ans p).
Proof.
  intros Hi Ht. unfold CoreReqTag. case_bool_decide; [by apply cwp_ret|]. apply cwp_bind, cwp_assert. intros _. rd. intros w _. rd. intros pkt _.
  apply cwp_bind. eapply (wp_reads _ (fun _ _ => True)).
  { case_bool_decide; [eapply reads_bind; [apply mshr_probe_reads|intros []; eapply reads_weak; [apply ret_reads|done]]|eapply reads_weak; [apply ret_reads|done]]. }
  intros probe _. destruct (_ && negb _).
  - assert (Hmiss : forall r, wp (TryAcceptMiss config_ p r) c (fun s c1 => wp (if bool_decide (s = kRejected) then mret false
      else dequeue core_req_queue_ p;; when (is_atomic pkt) (start_atomic p kWaitReplay);; mret false) c1 (tagged acc ans p))).
    { intros r s c1 Htry. case_bool_decide as Es.
      - apply cwp_ret. by apply (AcceptMiss_rejected _ _ _ _ _ _ Hi s c1 Htry).
      - apply cwp_bind. intros u c2 Hd. pose proof (AcceptMiss_inv _ _ _ _ _ _ _ _ _ _ _ Hi Ht Htry Es Hd) as Hi2. apply cwp_bind.
        apply cwp_when; [|intros _; by apply cwp_ret]. intros _. eapply cwp_mono; [by apply (start_atomic_inv acc ans (empty_hands false))|].
        intros u' c3 Hi3. by apply cwp_ret. }
    apply cwp_bind. destruct probe as [r|]; [apply Hmiss|apply cwp_fail].
  - qt Hi. intros _ c1 _ Hi1. apply cwp_bind. eapply wp_dequeue; [exact Hi1|]. intros c2 _ Hi2. apply cwp_bind.
    apply cwp_when; [|intros _; by apply cwp_ret]. intros _. apply cwp_bind.
    eapply cwp_mono; [by apply (start_atomic_inv acc ans (hold p (empty_hands false)))|]. intros u c3 Hi3.
    eapply wp_quiet; [apply mod_tags_quiet|exact Hi3|]. intros u' c4 _ Hi4. by apply cwp_ret.
Qed.
Lemma ReplayTag_inv acc ans c p st : inv acc ans (hold p (empty_hands false)) c -> wp (ReplayTag config_ p st) c (tagged acc ans p).
Proof.
  intros Hi. unfold ReplayTag. rd. intros pkt _. do 2 (apply cwp_bind, cwp_assert; intros _). rd. intros w _. qt Hi. intros _ c1 _ Hi1.
  apply cwp_bind, cwp_when; [|intros _; by apply cwp_ret]. intros _. rd. intros s Es. subst s. apply cwp_bind, cwp_assert. intros _.
  apply cwp_bind, cwp_assert. intros Ep%bool_decide_eq_true. apply cwp_bind, cwp_modify. eapply wp_quiet; [apply mod_tags_quiet| |].
  - apply inv_aseq_same; [exact Hi1|]. unfold held_by. simpl. by rewrite Ep.
  - intros u c2 _ Hi2. by apply cwp_ret.
Qed.
Lemma TagArrayStage_inv acc ans c now : inv acc ans (empty_hands false) c ->
  wp (AccessTagArrayStage config_ now) c (fun _ c' => inv acc ans (empty_hands false) c').
Proof.
  intros Hi. unfold AccessTagArrayStage. apply cwp_bind. eapply cwp_mono; [by apply AtomicTagStage_inv|]. clear c Hi. intros occupied c Hi.
  simpl in Hi. destruct occupied; [by apply cwp_ret|]. apply cwp_bind. eapply cwp_mono; [by apply SelectTag_inv|]. clear c Hi.
  intros [p|] c; [|intros Hi; by apply cwp_ret]. intros (t & a & Ht & Hty & Hi). rd. intros t' (pkt & Hp & <-).
  rewrite (tp_of _ _ _ Hp) in Ht. injection Ht as Et _. pose proof (tp_of _ _ _ Hp) as Ht. rewrite Et in *.
  assert (Hend : forall c (m : M (E:=E) bool), wp m c (tagged acc ans p) ->
    wp (go ← m; when go (putq tag_array_resp_queue_ p)) c (fun _ c' => inv acc ans (empty_hands false) c')).
  { clear. intros c m Hm. apply cwp_bind. eapply cwp_mono; [exact Hm|]. intros b c1 Hb. unfold tagged in Hb.
    apply cwp_when; intros ->; [|done]. eapply (wp_putq _ _ _ (empty_hands false)); [exact Hb|by left|done|]. by intros. }
  destruct t; try done.
  - qt Hi. intros _ c1 Q1 Hi1. rewrite <- (u_tp _ _ Q1) in Ht. eapply (wp_putq _ _ _ (empty_hands false)); [exact Hi1| |done|by intros].
    right. by rewrite (typed_tp _ _ _ _ _ Ht).
  - eapply (wp_putq _ _ _ (empty_hands false)); [exact Hi|by left|done|]. by intros.
  - cbn. apply cwp_bind. eapply wp_quiet; [apply tag_process_quiet|exact Hi|]. intros st c1 Q1 Hi1. rewrite <- (u_tp _ _ Q1) in Ht.
    apply Hend. by eapply CoreReqTag_inv.
  - cbn. apply cwp_bind. eapply wp_quiet; [apply tag_process_quiet|exact Hi|]. intros st c1 Q1 Hi1. apply Hend. by apply RefillTag_inv.
  - cbn. apply cwp_bind. eapply wp_quiet; [apply tag_process_quiet|exact Hi|]. intros st c1 Q1 Hi1. apply Hend. by apply ReplayTag_inv.
Qed.

(** ** Commands *)

Lemma mod_cseq_quiet f : Quiet (E:=E) (mod_cseq f).
Proof. unfold mod_cseq. quiet_auto. Qed.
Lemma issue_dirty_inv acc ans h c probe : inv acc ans h c ->
  wp (issue_dirty config_ error_throws probe) c (fun _ c' => inv acc ans h c').
Proof.
  intros Hi. unfold issue_dirty. rd. intros t _. apply cwp_bind, wp_lift. intros [dirty t'] _. qt Hi. intros _ c1 _ Hi1.
  destruct dirty; [|by apply cwp_ret]. eapply cwp_mono; [by apply Writeback_inv|]. by intros ok c2 [Hi2 _].
Qed.
Lemma CommandScan_inv acc ans h c now : inv acc ans h c ->
  wp (TryAdvanceCommandScan config_ error_throws now) c (fun _ c' => inv acc ans h c').
Proof.
  intros Hi. unfold TryAdvanceCommandScan. rd. intros s _. apply cwp_bind, cwp_assert. intros _. rd. intros room _.
  assert (Hstep : forall m f, wp m c (fun _ c' => inv acc ans h c') ->
    wp (issued ← m; when issued (mod_cseq f);; mret false) c (fun _ c' => inv acc ans h c')).
  { intros m f Hm. apply cwp_bind. eapply cwp_mono; [exact Hm|]. intros b c1 Hi1. apply cwp_bind. eapply wp_quiet; [|exact Hi1|].
    - apply quiet_when, mod_cseq_quiet.
    - intros _ c2 _ Hi2. by apply cwp_ret. }
  assert (Hinv : forall b f, wp (assert b;; mod_tags f;; mret true) c (fun _ c' => inv acc ans h c')).
  { intros b f. apply cwp_bind, cwp_assert. intros _. qt Hi. intros _ c1 _ Hi1. by apply cwp_ret. }
  destruct (full_cache s).
  - destruct (_ <=? _)%nat; [by apply cwp_ret|]. destruct (_ && _); [by apply cwp_ret|]. apply Hstep.
    destruct (bool_decide _); [by apply issue_dirty_inv|apply Hinv].
  - destruct (_ <=? _); [by apply cwp_ret|]. destruct (_ && _); [by apply cwp_ret|]. apply Hstep.
    destruct (bool_decide _); [by apply issue_dirty_inv|apply Hinv].
Qed.
Lemma CommandSequencer_inv acc ans h c now : inv acc ans h c ->
  wp (AdvanceCommandSequencer config_ error_throws now) c (fun _ c' => inv acc ans h c').
Proof.
  intros Hi. unfold AdvanceCommandSequencer. rd. intros c' ->. unfold id.
  assert (Hq : forall A (m : M (E:=E) A), Quiet m -> wp m c (fun _ c' => inv acc ans h c')).
  { intros A m Hm. eapply wp_quiet; [exact Hm|exact Hi|]. by intros. }
  destruct (c_phase _); [by apply cwp_ret|apply Hq, quiet_when, mod_cseq_quiet| |apply Hq, quiet_when, mod_cseq_quiet|].
  - apply cwp_bind. eapply cwp_mono; [by apply CommandScan_inv|]. intros b c1 Hi1. eapply wp_quiet; [|exact Hi1|by intros].
    apply quiet_when, mod_cseq_quiet.
  - destruct (negb _); [by apply cwp_ret|]. destruct (nb_put _ _); [|apply cwp_fail]. apply Hq. quiet_auto.
Qed.
Lemma AcceptCommand_inv acc ans h c : inv acc ans h c -> wp (AcceptCommand config_) c (fun _ c' => inv acc ans h c').
Proof.
  intros Hi. eapply wp_quiet; [|exact Hi|by intros]. unfold AcceptCommand, StartCommandSequencer. quiet_auto.
Qed.

(** ** Inputs *)

Lemma AcceptCoreRequest_inv acc ans h c req : inv acc ans h c -> (forall a, req = Some a -> exists n, a = CoreGp n) ->
  wp (AcceptCoreRequest config_ req) c (fun o c' => inv (acc ++ option_list o) ans h c').
Proof.
  intros Hi Hreq. unfold AcceptCoreRequest. rd. intros s _. rd. intros room _.
  assert (Hnone : wp (mret None) c (fun o c' => inv (acc ++ option_list o) ans h c')) by (apply cwp_ret; simpl; by rewrite app_nil_r).
  destruct req as [a|]; [|done]. destruct (_ || _); [done|]. rd. intros g _. destruct (_ || _ || _); [apply cwp_fail|].
  destruct (Hreq a eq_refl) as [n ->]. apply cwp_bind. eapply wp_AcquirePacket; [exact Hi|]. intros p c1 _ _ Ht Hi1. apply cwp_bind.
  eapply (wp_retype _ _ _ _ _ _ _ _ (if IsNonCacheableRequest config_ g || (IsAtomicRequest g && negb (atomic_linearization config_))
    then kBypassCoreReq else kCoreReq)); [exact Hi1|by left|exact Ht|by intros|right; by destruct (_ || _)|].
  intros c2 _ _ Hi2. apply cwp_bind. eapply (wp_putq _ _ _ h); [exact Hi2|by left|done|]. intros c3 _ Hi3. by apply cwp_ret.
Qed.
(** A response leaves the requests to memory. *)
Lemma inv_answered acc ans h c a p t : inv acc ans h c -> mem_inflight_packets_ c !! a = Some p -> typed c [t] p = true ->
  one_of t [kBypassCoreReq; kMshrReadReq; kMemWriteReq; kVictimWriteReq] = true ->
  inv acc ans (take_from (via t) p h) (set_inflight (delete a (mem_inflight_packets_ c)) c).
Proof.
  intros Hi Ha Ht Hty. refine (infl_change _ false _ _ h _ p t _ Hi Ht Hty _ _); [by apply mvals_delete|done].
Qed.
Lemma outstanding_answered c a p t : mem_inflight_packets_ c !! a = Some p -> typed c [t] p = true -> one_of t reads = true ->
  length (outstanding c) = S (length (outstanding (set_inflight (delete a (mem_inflight_packets_ c)) c))).
Proof.
  intros Ha Ht Hr. unfold outstanding, infl. simpl. change (typed (set_inflight _ c)) with (typed c).
  pose proof (countb_Permutation (typed c reads) _ _ (mvals_delete _ _ _ Ha)) as Hc. rewrite countb_cons in Hc. unfold countb in Hc.
  apply tp_of_typed in Ht as [b Hb]. rewrite (typed_tp _ _ _ _ _ Hb), Hr in Hc. exact Hc.
Qed.
Lemma wp_retype_sent acc ans h c p f t t' a (Q : unit -> Cache E -> Prop) : inv acc ans h c -> p ∈ h_write h ++ h_victim h ->
  tp c p = Some (t, a) -> (forall pkt, type_ (f pkt) = t' /\ payload_ (f pkt) = payload_ pkt) -> kinded t' a ->
  (forall c', inv acc ans h c' -> Q tt c') -> wp (mod_packet p f) c Q.
Proof.
  intros Hi Hp (pkt & Hl & <- & <-)%tp_Some Hf Hk HQ. unfold mod_packet. apply cwp_bind, (wp_reads _ _ _ _ (packet_reads p)).
  intros pkt' Hl'. assert (pkt' = pkt) as -> by congruence. destruct (Hf pkt) as [Ht Ha]. apply cwp_modify, HQ.
  eapply inv_retype_sent; try done. unfold kind_ok. by rewrite Ht, Ha.
Qed.
Lemma kinded_not_core t t' a : kinded t a -> is_core t = false -> t <> kUnused -> is_core t' = false -> kinded t' a.
Proof. intros [->|Hk] Hc Hu Hc'; [done|]. right. destruct a as [[n|n]|]; congruence. Qed.
(** A write that memory has done goes to its buffer. *)
Lemma write_answered acc ans h c p q t t' b : inv acc ans (take_from q p h) c -> tp c p = Some (t, b) ->
  (t = kVictimWriteReq /\ t' = kVictimWriteResp /\ q = victim_buffer_mem_resp_queue_ \/
   t = kMemWriteReq /\ t' = kMemWriteResp /\ q = write_buffer_mem_resp_queue_) ->
  wp (mod_packet p (set_type t');; putq q p) c (fun _ c' => inv acc ans h c').
Proof.
  intros Hi Ht Hcase. pose proof (inv_kinded _ _ _ _ _ _ _ _ Hi Ht) as Hk. apply cwp_bind.
  destruct Hcase as [(-> & -> & ->)|(-> & -> & ->)].
  - eapply (wp_retype_sent _ _ _ _ _ _ _ kVictimWriteResp); [exact Hi| |exact Ht|by intros|by eapply kinded_not_core|].
    { apply elem_of_app. right. by left. }
    intros c1 Hi1. eapply (wp_putq _ _ _ h); [exact Hi1|by left|done|by intros].
  - eapply (wp_retype_sent _ _ _ _ _ _ _ kMemWriteResp); [exact Hi| |exact Ht|by intros|by eapply kinded_not_core|].
    { apply elem_of_app. left. by left. }
    intros c1 Hi1. eapply (wp_putq _ _ _ h); [exact Hi1|by left|done|by intros].
Qed.
(** A read that memory has done is in hand. *)
Definition response_of acc ans h c p c' : Prop :=
  inv acc ans (take_from mem_resp_queue_ p h) c' /\ outstanding c' = outstanding c /\
  queues c' mem_resp_queue_ = queues c mem_resp_queue_ /\ exists t a, tp c' p = Some (t, a).
Lemma read_answered acc ans h c p t t' b : inv acc ans (take_from mem_resp_queue_ p h) c -> tp c p = Some (t, b) -> kinded t' b ->
  wp (mod_packet p (set_type t')) c (fun _ => response_of acc ans h c p).
Proof.
  intros Hi Ht Hk. destruct (inv_hand _ _ _ _ _ p Hi) as (_ & _ & _ & _ & Hn); [by left|].
  eapply (cwp_mono _ _ (fun _ c' => (kept [p] c c' /\ tp c' p = Some (t', b) /\ inv acc ans (take_from mem_resp_queue_ p h) c') /\ queues c' = queues c)).
  - intros u c' Hm. split.
    + revert u c' Hm. eapply (wp_retype _ _ _ _ _ _ _ _ t'); [exact Hi|by left|exact Ht|by intros|exact Hk|by intros].
    + unfold mod_packet, packet, mbind, M_bind in Hm. simpl in Hm. destruct (pkts c !! p); [|done]. by injection Hm as _ <-.
  - intros _ c' [(K & Ht' & Hi') Hq]. split_and!; [done| |by rewrite Hq|by eexists _, _]. unfold outstanding, infl. rewrite (k_infl _ _ _ K).
    change (mvals (mem_inflight_packets_ c)) with (infl c). revert Hn. generalize (infl c). intros l Hn.
    induction l as [|y l IH]; [done|]. simpl. rewrite IH by set_solver.
    rewrite (tp_typed c c' y) by (apply (k_tp _ _ _ K); set_solver). done.
Qed.
Lemma response_quiet acc ans h c p c' c'' : response_of acc ans h c p c' -> quiet c' c'' -> response_of acc ans h c p c''.
Proof.
  intros (Hi & Ho & Hq & Ht) Q. split_and!; [by eapply inv_quiet| | |].
  - rewrite <- Ho. unfold outstanding, infl. rewrite (u_infl _ _ Q). apply filter_agree. intros x. apply tp_typed, (u_tp _ _ Q).
  - by rewrite (u_queues _ _ Q).
  - by rewrite (u_tp _ _ Q).
Qed.
Lemma AcceptMemResponse_inv acc ans b c resp : inv acc ans (empty_hands b) c ->
  wp (AcceptMemResponse config_ resp) c (fun _ c' => inv acc ans (empty_hands b) c').
Proof.
  intros Hi. unfold AcceptMemResponse. destruct resp as [a|]; [|by apply cwp_ret]. rd. intros i ->.
  destruct (mem_inflight_packets_ c !! a) as [p|] eqn:Ea; [|apply cwp_fail]. rd. intros t (pkt & Hp & Et). rd. intros a' Ha'.
  pose proof (gp_of_tp _ _ _ _ _ Hp Et Ha') as Ht. apply cwp_bind, cwp_assert. intros _. rd. intros g _.
  destruct (negb (response_valid _ _)); [apply cwp_fail|]. rd. intros vroom _. rd. intros wroom _. destruct (_ || _); [by apply cwp_ret|].
  assert (Hty : one_of t [kBypassCoreReq; kMshrReadReq; kMemWriteReq; kVictimWriteReq] = true).
  { rewrite <- (typed_tp _ _ _ _ _ Ht). apply (i_infl _ _ _ _ _ Hi). apply mvals_elem. by exists a. }
  assert (Htt : typed c [t] p = true) by (rewrite (typed_tp _ _ _ _ _ Ht); simpl; by rewrite bool_decide_eq_true_2).
  pose proof (inv_answered _ _ _ _ _ _ _ Hi Ea Htt Hty) as Hi1. pose proof (outstanding_answered _ _ _ _ Ea Htt) as Hout.
  pose proof (i_room _ _ _ _ _ Hi) as Hroom. pose proof (inv_kinded _ _ _ _ _ _ _ _ Hi Ht) as Hk.
  apply cwp_bind, cwp_modify. set (c1 := set_inflight _ c) in *. change (tp c1 p = Some (t, Some a')) in Ht.
  destruct (negb (bool_decide (t = kBypassCoreReq)) && gp_is_write g) eqn:Eb.
  - apply cwp_bind. eapply (cwp_mono _ _ (fun _ c2 => inv acc ans (empty_hands b) c2)).
    + destruct (decide (t = kVictimWriteReq)) as [->|Hv].
      * simpl. eapply (write_answered acc ans (empty_hands b) c1 p victim_buffer_mem_resp_queue_ kVictimWriteReq); [exact Hi1|exact Ht|by left].
      * rewrite bool_decide_eq_false_2 by done. apply cwp_bind, cwp_assert. intros ->%bool_decide_eq_true.
        eapply (write_answered acc ans (empty_hands b) c1 p write_buffer_mem_resp_queue_ kMemWriteReq); [exact Hi1|exact Ht|by right].
    + intros _ c2 Hi2. qt Hi2. intros _ c3 _ Hi3. by apply cwp_ret.
  - apply cwp_bind. eapply (cwp_mono _ _ (fun _ c2 => one_of t reads = true /\ response_of acc ans (empty_hands b) c1 p c2)).
    + destruct (decide (t = kBypassCoreReq)) as [->|Hb].
      * simpl. eapply cwp_mono; [eapply (read_answered acc ans (empty_hands b) c1 p _ kBypassCoreResp); [exact Hi1|exact Ht|]|by intros].
        destruct Hk as [|Hk]; [done|]. right. by destruct a'.
      * rewrite bool_decide_eq_false_2 by done. apply cwp_bind, cwp_assert. intros ->%bool_decide_eq_true. apply cwp_bind.
        eapply cwp_mono; [eapply (read_answered acc ans (empty_hands b) c1 p _ kRefill); [exact Hi1|exact Ht|by eapply kinded_not_core]|].
        intros u c2 Hr. rd. intros b' _. rd. intros g' _. apply cwp_bind, wp_lift. intros g'' _. apply cwp_modify. split; [done|].
        eapply response_quiet; [exact Hr|by split].
    + intros _ c2 (Hr & Hi2 & Ho2 & Hq2 & _). rd. intros n _. apply cwp_bind, cwp_assert. intros _. apply cwp_bind.
      eapply (wp_putq _ _ _ (empty_hands b)); [exact Hi2|by left| |intros c3 _ Hi3; by apply cwp_ret].
      intros _. specialize (Hout Hr). rewrite Hq2, Ho2. unfold response_capacity in *. rewrite Hq2. cbn [queues c1 set_inflight]. fold c1 in Hout. lia.
Qed.
End input.
