(* ===== verification/SimConserve.v ===== *)
(** * The cache loses no transaction

    A clock edge keeps the accounts of SimLedger.v, in whatever order the kernel runs the
    methods of the four modules; so they hold in every state that the cache can reach. The
    theorem reads them: every packet object is free or in one place, every transaction that
    was accepted has been answered once or is in one place, and memory's responses always
    find room. *)

From stdpp Require Import gmap.
From S2P Require Import Prelude SimFifo SimPacket SimTag SimData SimMemory SimMshr SimVictim SimWrites SimCache SimLedger SimLogic SimStages SimInput.

Section modules.
Context {E : Type} `{RandomEngine E} (config_ : Param) (error_throws : bool).
Implicit Types (c : Cache E) (p x : nat) (q : queue).
Notation inv := (inv config_).

(** ** The methods of the modules *)

Lemma serve_inv acc ans h c p i e rest m : inv acc ans h c -> (i < length (mshr_entries_ (mshr_file_ c)))%nat ->
  mshr_entries_ m = <[i := e]> (mshr_entries_ (mshr_file_ c)) -> sub_entries (mshr_at (mshr_file_ c) i) = p :: rest ->
  sub_entries e = rest -> (state e = kInvalid -> rest = []) -> inv acc ans (hold p h) (set_mshr m c) /\ is_Some (core_of c p).
Proof.
  intros Hi Hl Hm Hp He Hs.
  assert (Ho : forall x, (occ x (flat_map sub_entries (mshr_entries_ m)) + one x p = occ x (subs c))%nat).
  { intros x. pose proof (occ_flat_insert sub_entries _ _ _ e x (mshr_lookup _ _ Hl)) as Ho. rewrite Hm. unfold subs.
    rewrite Hp, He in Ho. simpl in Ho. lia. }
  split; [|apply (i_subs _ _ _ _ _ Hi), occ_elem; specialize (Ho p); rewrite one_refl in Ho; lia].
  change (hold p h) with (set_own (p :: h_own h) h). apply inv_subs; [exact Hi|..].
  - intros x. specialize (Ho x). simpl. lia.
  - intros x Hx. apply (i_subs _ _ _ _ _ Hi). apply occ_elem in Hx. specialize (Ho x). apply occ_elem. lia.
  - intros j. assert (Hat : mshr_at m j = mshr_at (put_mshr i e (mshr_file_ c)) j) by (unfold mshr_at; by rewrite Hm).
    rewrite Hat, mshr_put by done. case_decide; [|apply (i_mshr _ _ _ _ _ Hi)]. intros Hz. rewrite He. auto.
Qed.
Lemma start_replay (m m' : MshrCore) b : StartNextReplayEntry m = Ok (b, m') ->
  (mshr_entries_ m' = mshr_entries_ m) \/
  exists i, state (mshr_at m i) = kReadyToReplay /\ mshr_entries_ m' = <[i := set_state kReplaying (mshr_at m i)]> (mshr_entries_ m).
Proof.
  unfold StartNextReplayEntry. destruct (replaying_mshr_index_ m); [intros; res_inv; by left|].
  destruct (ready_to_replay_ m) as [|i r]; [intros; res_inv; by left|]. intros Hr. res_inv. right. exists i. split; [|done].
  by match goal with Hb : bool_decide (state _ = _) = true |- _ => apply bool_decide_eq_true in Hb end.
Qed.
Lemma ProcessReplay_inv acc ans h c : inv acc ans h c -> wp ProcessReplay c (fun _ c' => inv acc ans h c').
Proof.
  intros Hi. unfold ProcessReplay. rd. intros m0 Em. subst m0. destruct (negb _); [by apply cwp_ret|]. rd. intros room _.
  destruct (negb room); [by apply cwp_ret|]. apply cwp_bind, wp_lift. intros [o m] Hpop. unfold PopReplayPacket in Hpop.
  apply res_bind_ok in Hpop as ([started m1] & Hst & Hpop).
  assert (Hi1 : inv acc ans h (set_mshr m1 c)).
  { destruct (start_replay _ _ _ Hst) as [He|(i & Hs & He)].
    - eapply inv_quiet; [exact Hi|]. split; try done; [unfold subs; simpl; by rewrite He|]. intros i Hz. simpl in *.
      unfold mshr_at in *. by rewrite He in *.
    - eapply inv_quiet; [exact Hi|]. eapply put_mshr_quiet; [exact He|by rewrite Hs|done|done]. }
  destruct started; [|simpl in Hpop; injection Hpop as <- <-; by apply cwp_bind, cwp_modify, cwp_fail].
  simpl in Hpop. destruct (replaying_mshr_index_ m1) as [i|] eqn:Er; [|done]. res_inv.
  match goal with Hb : bool_decide (state _ = _) = true |- _ => apply bool_decide_eq_true in Hb as Es end.
  assert (Hl : (i < length (mshr_entries_ m1))%nat) by (apply mshr_in; by rewrite Es).
  assert (Hserve : exists p last, o = Some (p, last) /\ inv acc ans (hold p h) (set_mshr m c) /\ is_Some (core_of c p)).
  { destruct (sub_entries (mshr_at m1 i)) as [|p rest] eqn:Eq; [done|]. destruct rest as [|p' rest]; res_inv.
    - match goal with Hr : MshrEntry_Reset _ = Ok _ |- _ => unfold MshrEntry_Reset in Hr; res_inv end.
      eexists p, true. split; [done|].
      set (e := mkMshr kInvalid 0 _ [] _).
      exact (serve_inv acc ans h (set_mshr m1 c) p i e [] (mkCore (<[i := e]> (mshr_entries_ m1)) _ _) Hi1 Hl eq_refl Eq eq_refl (fun _ => eq_refl)).
    - eexists p, false. split; [done|].
      refine (serve_inv acc ans h (set_mshr m1 c) p i (set_subs (p' :: rest) (mshr_at m1 i)) (p' :: rest)
        (put_mshr i _ m1) Hi1 Hl eq_refl Eq eq_refl _). simpl. by rewrite Es. }
  destruct Hserve as (p & last & -> & Hi2 & Hcore). apply cwp_bind, cwp_modify. set (c2 := set_mshr m c) in *.
  assert (Ht : exists t n, tp c2 p = Some (t, Some (CoreGp n))).
  { change (is_Some (core_of c2 p)) in Hcore. unfold core_of, tp in *. destruct (pkts c2 !! p) as [pkt|]; [|by destruct Hcore].
    simpl. destruct (payload_ pkt) as [[n|n]|]; [by eexists _, n|by destruct Hcore..]. }
  destruct Ht as (t & n & Ht). apply cwp_bind.
  eapply (wp_retype _ _ _ _ _ _ _ _ kReplay); [exact Hi2|by left|exact Ht|by intros|by right|]. intros c3 _ Ht3 Hi3.
  eapply (wp_putq _ _ _ h); [exact Hi3|right; by rewrite (typed_tp _ _ _ _ _ Ht3)|done|by intros].
Qed.
Lemma MshrFile_Tick_inv acc ans h c : inv acc ans h c -> wp MshrFile_Tick c (fun _ c' => inv acc ans h c').
Proof.
  intros Hi. unfold MshrFile_Tick. apply cwp_bind. eapply cwp_mono; [by apply Refill_quiet|]. intros u c1 Hi1. by apply ProcessReplay_inv.
Qed.

Lemma wbuf_same q c : quiet c (set_wbuf (write_buffer_ c) (put_queue q (queues c q) c)).
Proof. split; try done. intros q'. unfold put_queue. simpl. by destruct (decide (q' = q)) as [->|]. Qed.
Lemma vbuf_same q c : quiet c (set_vbuf (victim_buffer_ c) (put_queue q (queues c q) c)).
Proof. split; try done. intros q'. unfold put_queue. simpl. by destruct (decide (q' = q)) as [->|]. Qed.
Lemma type_is_tp c p t : type_is (pkts c) p t = true -> exists a, tp c p = Some (t, a).
Proof.
  unfold type_is, tp. destruct (pkts c !! p) as [pkt|]; [|done]. intros <-%bool_decide_eq_true. by exists (payload_ pkt).
Qed.
Definition released_ok (t : PacketType) (o : option nat) c : Prop := forall p, o = Some p -> exists a, tp c p = Some (t, a).

Lemma w_resp_inv acc ans h c o f w : inv acc ans h c ->
  w_ProcessMemResp (pkts c) (queues c write_buffer_mem_resp_queue_) (write_buffer_ c) = Ok (o, f, w) ->
  inv acc ans (hold_opt o h) (set_wbuf w (put_queue write_buffer_mem_resp_queue_ f c)) /\ released_ok kMemWriteResp o c.
Proof.
  intros Hi. unfold w_ProcessMemResp. destruct (nb_get _) as [[p f']|] eqn:Eg.
  2:{ intros [= <- <- <-]. split; [|done]. eapply inv_quiet; [exact Hi|apply wbuf_same]. }
  pose proof (nb_get_ok _ _ _ (i_fifo _ _ _ _ _ Hi _) Eg) as (Hf & Hb & _). intros Hr. res_inv.
  match goal with Ht : type_is _ _ _ = true |- _ => apply type_is_tp in Ht as Htp end. destruct Htp as [a Ha].
  match goal with Hg : match ?m !! ?g with _ => _ end = _ |- _ => destruct (m !! g) as [p'|] eqn:Em end; [|done]. res_inv.
  match goal with Hp : bool_decide (_ = _) = true |- _ => apply bool_decide_eq_true in Hp; subst end.
  split; [|intros p [= <-]; by exists a]. simpl.
  change (hold p' h) with (set_own (p' :: h_own h) h). apply inv_write; try done.
  - intros y. simpl. pose proof (occ_delete y _ _ _ Em). unfold winfl. lia.
  - intros y. unfold not_own. simpl. pose proof (occ_delete y _ _ _ Em). unfold in_queue. rewrite Hb. unfold winfl. simpl. lia.
  - intros y [Hy|[? _]]; [|done]. apply (i_wtype _ _ _ _ _ Hi). by left.
Qed.
Lemma w_request_inv acc ans h c f w : inv acc ans h c ->
  ProcessWriteRequest config_ (pkts c) (queues c write_buffer_mem_req_queue_) (write_buffer_ c) = Ok (f, w) ->
  inv acc ans h (set_wbuf w (put_queue write_buffer_mem_req_queue_ f c)).
Proof.
  intros Hi. unfold ProcessWriteRequest.
  assert (Hsame : inv acc ans h (set_wbuf (write_buffer_ c) (put_queue write_buffer_mem_req_queue_ (queues c write_buffer_mem_req_queue_) c))).
  { eapply inv_quiet; [exact Hi|apply wbuf_same]. }
  destruct (negb (nb_can_get _)); [by intros [= <- <-]|]. destruct (negb (HasFreeEntry _ _)); [by intros [= <- <-]|].
  destruct (nb_get _) as [[p f']|] eqn:Eg; [|done].
  pose proof (nb_get_ok _ _ _ (i_fifo _ _ _ _ _ Hi _) Eg) as (Hf & Hb & _). intros Hr. res_inv.
  match goal with Ht : type_is _ _ _ = true |- _ => apply type_is_tp in Ht as [a Ha] end.
  assert (Hi' : inv acc ans (set_own (h_own h) h) (set_wbuf (mkWBuf (pending_entries_ (write_buffer_ c) ++ [p]) (w_inflight (write_buffer_ c)))
    (put_queue write_buffer_mem_req_queue_ f c))); [|by destruct h].
  apply inv_write; try done.
  - intros y. unfold own_if, in_queue, winfl. simpl. rewrite Hb, occ_app. simpl. lia.
  - intros y [Hy|[? _]]; [|done]. simpl in Hy. apply elem_of_app in Hy as [Hy| ->%list_elem_of_singleton];
      [apply (i_wtype _ _ _ _ _ Hi); by left|]. by rewrite (typed_tp _ _ _ _ _ Ha).
Qed.
Lemma w_send_inv acc ans h c f w : inv acc ans h c ->
  w_ProcessMemReq (pkts c) (queues c write_buffer_mem_req_out_queue_) (write_buffer_ c) = Ok (f, w) ->
  inv acc ans h (set_wbuf w (put_queue write_buffer_mem_req_out_queue_ f c)).
Proof.
  intros Hi. unfold w_ProcessMemReq.
  assert (Hsame : inv acc ans h (set_wbuf (write_buffer_ c) (put_queue write_buffer_mem_req_out_queue_ (queues c write_buffer_mem_req_out_queue_) c))).
  { eapply inv_quiet; [exact Hi|apply wbuf_same]. }
  destruct (pending_entries_ (write_buffer_ c)) as [|p l] eqn:El; [by intros [= <- <-]|].
  destruct (negb (nb_can_put _)); [by intros [= <- <-]|]. intros Hr. apply res_bind_ok in Hr as (g & Hg & Hr).
  destruct (nb_put _ _) as [f'|] eqn:Ep; [|done].
  pose proof (nb_put_ok _ _ _ (i_fifo _ _ _ _ _ Hi _) Ep) as (Hf & Hb & _). res_inv.
  match goal with Hn : bool_decide (_ = None) = true |- _ => apply bool_decide_eq_true in Hn as En end.
  assert (Hi' : inv acc ans (set_own (h_own h) h) (set_wbuf (mkWBuf l (<[g := p]> (w_inflight (write_buffer_ c))))
    (put_queue write_buffer_mem_req_out_queue_ f c))); [|by destruct h].
  apply inv_write; try done.
  - intros y. simpl. pose proof (occ_insert y _ p _ En). unfold winfl. rewrite El. simpl. lia.
  - intros y. unfold not_own, in_queue. simpl. rewrite Hb, occ_app. pose proof (occ_insert y _ p _ En). unfold winfl. simpl. lia.
  - intros y [Hy|[_ Hy]]; apply (i_wtype _ _ _ _ _ Hi); [left; rewrite El; by right|]. rewrite Hb in Hy.
    apply elem_of_app in Hy as [Hy| ->%list_elem_of_singleton]; [by right|left; rewrite El; by left].
Qed.
Lemma release_some_inv acc ans h c o t : inv acc ans (hold_opt o h) c -> released_ok t o c -> is_core t = false -> t <> kUnused ->
  wp (release_some o) c (fun _ c' => inv acc ans h c').
Proof.
  intros Hi Ho Hc Hu. destruct o as [p|]; [|by apply cwp_ret]. destruct (Ho p eq_refl) as [a Ha].
  eapply cwp_mono; [by eapply Release_kind|]. by intros u c' [_ Hi'].
Qed.
Lemma WriteBuffer_Tick_inv acc ans h c : inv acc ans h c -> wp (WriteBuffer_Tick config_) c (fun _ c' => inv acc ans h c').
Proof.
  intros Hi. unfold WriteBuffer_Tick. rd. intros c0 ->. unfold id. apply cwp_bind, wp_lift. intros [[[[o fin] fout] fresp] w] Ht.
  unfold w_Tick in Ht. apply res_bind_ok in Ht as ([[o' f1] w1] & H1 & Ht). apply res_bind_ok in Ht as ([f2 w2] & H2 & Ht).
  apply res_bind_ok in Ht as ([f3 w3] & H3 & Ht). res_inv.
  destruct (w_resp_inv _ _ _ _ _ _ _ Hi H1) as [Hi1 Ho]. set (c1 := set_wbuf w1 _) in Hi1.
  pose proof (w_request_inv _ _ _ c1 _ _ Hi1 H2) as Hi2. set (c2 := set_wbuf w2 _) in Hi2.
  pose proof (w_send_inv _ _ _ c2 _ _ Hi2 H3) as Hi3. do 4 apply cwp_bind, cwp_modify.
  eapply release_some_inv; [eapply inv_quiet; [exact Hi3|]|exact Ho|done|done]. split; try done. by intros [].
Qed.

Lemma v_resp_inv acc ans h c o f v : inv acc ans h c ->
  v_ProcessMemResp (pkts c) (queues c victim_buffer_mem_resp_queue_) (victim_buffer_ c) = Ok (o, f, v) ->
  inv acc ans (hold_opt o h) (set_vbuf v (put_queue victim_buffer_mem_resp_queue_ f c)) /\ released_ok kVictimWriteResp o c.
Proof.
  intros Hi. unfold v_ProcessMemResp. destruct (nb_get _) as [[p f']|] eqn:Eg.
  2:{ intros [= <- <- <-]. split; [|done]. eapply inv_quiet; [exact Hi|apply vbuf_same]. }
  pose proof (nb_get_ok _ _ _ (i_fifo _ _ _ _ _ Hi _) Eg) as (Hf & Hb & _). intros Hr. res_inv.
  match goal with Ht : type_is _ _ _ = true |- _ => apply type_is_tp in Ht as [a Ha] end.
  destruct (v_inflight _ !! _) as [i|]; [|done]. destruct (_ <=? _)%nat eqn:El; [done|]. apply Nat.leb_gt in El. res_inv.
  match goal with Hs : in_state kInflight _ = true |- _ => rename Hs into Es end.
  match goal with Hp : bool_decide (v_packet _ = Some _) = true |- _ => apply bool_decide_eq_true in Hp as Ep end.
  set (e := mkVEntry kFree _ None). set (v := mkVBuf (<[i := e]> _) _).
  pose proof (ventry_lookup _ _ El) as Hlk. pose proof (entries_put (victim_buffer_ c) i e v El eq_refl) as Hat.
  split; [|intros p' [= <-]; by exists a]. change (hold_opt (Some p) h) with (set_own (p :: h_own h) h). apply inv_entries; try done.
  - intros y. pose proof (occ_flat_insert entry_packet _ _ _ e y Hlk) as Ho. unfold entry_packet in Ho at 2 4. rewrite Ep in Ho.
    simpl in Ho |- *. lia.
  - intros y. pose proof (occ_flat_insert entry_sent _ _ _ e y Hlk) as Ho.
    assert (entry_sent (ventry (victim_buffer_ c) i) = [p]) as E1 by (unfold entry_sent, entry_packet; by rewrite Es, Ep).
    rewrite E1 in Ho. change (entry_sent e) with (@nil nat) in Ho. unfold in_queue. rewrite Hb. simpl in Ho |- *. lia.
  - intros y [(j & Hs & Hy)|[? _]]; [|done]. rewrite Hat in Hs, Hy. destruct (decide (j = i)); [done|].
    apply (i_vtype _ _ _ _ _ Hi). left. by exists j.
  - intros j. rewrite Hat. destruct (decide (j = i)); [done|apply (i_entries _ _ _ _ _ Hi)].
Qed.
Lemma v_send_inv acc ans h c f v : inv acc ans h c ->
  v_ProcessMemReq (pkts c) (queues c victim_buffer_mem_req_out_queue_) (victim_buffer_ c) = Ok (f, v) ->
  inv acc ans h (set_vbuf v (put_queue victim_buffer_mem_req_out_queue_ f c)).
Proof.
  intros Hi. unfold v_ProcessMemReq.
  assert (Hsame : inv acc ans h (set_vbuf (victim_buffer_ c) (put_queue victim_buffer_mem_req_out_queue_ (queues c victim_buffer_mem_req_out_queue_) c)))
    by (eapply inv_quiet; [exact Hi|apply vbuf_same]).
  destruct (negb _); [by intros [= <- <-]|]. destruct (find_first _ _) as [i|] eqn:Ef; [|by intros [= <- <-]].
  apply find_first_Some in Ef as (El & Es & _). destruct (v_packet _) as [p|] eqn:Ep; [|done]. simpl.
  destruct (nb_put _ _) as [f'|] eqn:Ef; [|done]. pose proof (nb_put_ok _ _ _ (i_fifo _ _ _ _ _ Hi _) Ef) as (Hf & Hb & _). intros Hr. res_inv.
  set (e := mkVEntry kInflight _ (Some p)). set (v := mkVBuf (<[i := e]> _) _).
  pose proof (ventry_lookup _ _ El) as Hlk. pose proof (entries_put (victim_buffer_ c) i e v El eq_refl) as Hat.
  assert (Hi' : inv acc ans (set_own (h_own h) h) (set_vbuf v (put_queue victim_buffer_mem_req_out_queue_ f c))); [|by destruct h].
  assert (Hni : in_state kInflight (ventry (victim_buffer_ c) i) = false).
  { unfold in_state in *. apply bool_decide_eq_true in Es. by rewrite Es. }
  apply inv_entries; try done.
  - intros y. unfold v. simpl. rewrite (flat_insert entry_packet _ _ _ _ Hlk); [done|]. unfold entry_packet. by rewrite Ep.
  - intros y. pose proof (occ_flat_insert entry_sent _ _ _ e y Hlk) as Ho.
    assert (entry_sent (ventry (victim_buffer_ c) i) = []) as E1 by (unfold entry_sent; by rewrite Hni).
    rewrite E1 in Ho. change (entry_sent e) with [p] in Ho. unfold in_queue. rewrite Hb, occ_app. simpl in Ho |- *. lia.
  - intros y [(j & Hs & Hy)|[_ Hy]]; apply (i_vtype _ _ _ _ _ Hi).
    + rewrite Hat in Hs, Hy. destruct (decide (j = i)); [done|]. left. by exists j.
    + rewrite Hb in Hy. apply elem_of_app in Hy as [Hy| ->%list_elem_of_singleton]; [by right|]. left. by exists i.
  - intros j. rewrite Hat. destruct (decide (j = i)); [|apply (i_entries _ _ _ _ _ Hi)]. by rewrite bool_decide_eq_true_2 by (by exists p).
Qed.
Lemma VictimBuffer_Tick_inv acc ans h c : inv acc ans h c -> wp (VictimBuffer_Tick config_) c (fun _ c' => inv acc ans h c').
Proof.
  intros Hi. unfold VictimBuffer_Tick. rd. intros c0 ->. unfold id. apply cwp_bind, wp_lift. intros [[[o fout] fresp] v] Ht.
  unfold v_Tick in Ht. apply res_bind_ok in Ht as ([[o' f1] v1] & H1 & Ht). apply res_bind_ok in Ht as ([f2 v2] & H2 & Ht). res_inv.
  destruct (v_resp_inv _ _ _ _ _ _ _ Hi H1) as [Hi1 Ho]. set (c1 := set_vbuf v1 _) in Hi1.
  pose proof (v_send_inv _ _ _ c1 _ _ Hi1 H2) as Hi2. do 3 apply cwp_bind, cwp_modify.
  eapply release_some_inv; [eapply inv_quiet; [exact Hi2|]|exact Ho|done|done]. split; try done. by intros [].
Qed.

(** ** A clock edge *)

Lemma Tick_inv acc ans c now (i : Inputs) : inv acc ans (empty_hands true) c ->
  (forall a, in_core_req i = Some a -> exists n, a = CoreGp n) ->
  wp (Tick config_ error_throws now i) c (fun out c' =>
    inv (acc ++ option_list (out_core_req out)) (ans ++ option_list (out_core_resp out)) (empty_hands false) c').
Proof.
  intros Hi Hreq. unfold Tick. apply cwp_bind. eapply cwp_mono; [by apply SendCoreResponse_inv|]. intros o1 c1 H1.
  apply cwp_bind. eapply cwp_mono; [eapply SendMemRequest_inv; exact H1|]. intros o2 c2 H2. apply inv_old in H2.
  apply cwp_bind. eapply cwp_mono; [eapply DataArrayStage_inv; exact H2|]. intros u3 c3 H3.
  apply cwp_bind. eapply cwp_mono; [eapply CommandSequencer_inv; exact H3|]. intros u4 c4 H4.
  apply cwp_bind. eapply cwp_mono; [eapply TagArrayStage_inv; exact H4|]. intros u5 c5 H5.
  apply cwp_bind. eapply cwp_mono; [eapply AcceptCommand_inv; exact H5|]. intros u6 c6 H6.
  apply cwp_bind. eapply cwp_mono; [eapply AcceptCoreRequest_inv; [exact H6|exact Hreq]|]. intros o7 c7 H7.
  apply cwp_bind. eapply cwp_mono; [eapply AcceptMemResponse_inv; exact H7|]. intros o8 c8 H8.
  apply cwp_bind. unfold CheckDeadlockWatchdog. destruct (in_deadlock i); [done|]. by apply cwp_ret, cwp_ret.
Qed.
Lemma methods_inv acc ans now (i : Inputs) ms : (forall a, in_core_req i = Some a -> exists n, a = CoreGp n) -> NoDup ms ->
  forall out c, (MCache ∈ ms -> out = no_outputs) ->
  inv (acc ++ option_list (out_core_req out)) (ans ++ option_list (out_core_resp out)) (empty_hands (bool_decide (MCache ∈ ms))) c ->
  wp (run_methods config_ error_throws now i ms out) c (fun out c' =>
    inv (acc ++ option_list (out_core_req out)) (ans ++ option_list (out_core_resp out)) (empty_hands false) c').
Proof.
  intros Hreq. induction ms as [|m ms IH]; intros Hnd out c Hout Hi; simpl; [by apply cwp_ret|].
  apply NoDup_cons in Hnd as [Hm Hnd]. apply cwp_bind.
  assert (Hother : m <> MCache -> forall f : M (E:=E) unit, (forall acc ans h c, inv acc ans h c -> wp f c (fun _ c' => inv acc ans h c')) ->
    wp (f;; mret out) c (fun a c' => wp (run_methods config_ error_throws now i ms a) c' (fun out c' =>
    inv (acc ++ option_list (out_core_req out)) (ans ++ option_list (out_core_resp out)) (empty_hands false) c'))).
  { intros Hne f Hf. apply cwp_bind. eapply cwp_mono; [by apply Hf|]. intros u c1 H1. apply cwp_ret. apply IH; [done| |].
    - intros Hin. apply Hout. by right.
    - rewrite (bool_decide_ext _ (MCache ∈ m :: ms)); [done|]. set_solver. }
  destruct m; simpl.
  - rewrite bool_decide_eq_true_2, (Hout ltac:(by left)) in Hi by (by left). simpl in Hi. rewrite !app_nil_r in Hi.
    eapply cwp_mono; [by apply Tick_inv|]. intros out' c1 H1. apply IH; [done|done|]. by rewrite bool_decide_eq_false_2.
  - apply Hother; [done|]. intros. by apply MshrFile_Tick_inv.
  - apply Hother; [done|]. intros. by apply WriteBuffer_Tick_inv.
  - apply Hother; [done|]. intros. by apply VictimBuffer_Tick_inv.
Qed.
(** The update phase: everything becomes readable, and no channel is stale. *)
Lemma update_inv acc ans c : inv acc ans (empty_hands false) c -> inv acc ans (empty_hands true) (update_queues c).
Proof.
  intros Hi. split; try apply Hi; simpl.
  - intros q. apply fifo_update_ok, (i_fifo _ _ _ _ _ Hi).
  - apply fifo_update_ok, (i_notify _ _ _ _ _ Hi).
  - pose proof (fifo_len _ (i_fifo _ _ _ _ _ Hi mem_resp_queue_)). pose proof (i_room _ _ _ _ _ Hi) as Hr.
    change (outstanding (update_queues c)) with (outstanding c). change (response_capacity (update_queues c)) with (response_capacity c). lia.
  - done.
Qed.
Lemma cache_edge_inv acc ans c now (i : Inputs) ms : inv acc ans (empty_hands true) c -> ms ≡ₚ [MCache; MMshrFile; MWriteBuffer; MVictimBuffer] ->
  (forall a, in_core_req i = Some a -> exists n, a = CoreGp n) ->
  wp (edge config_ error_throws now i ms) c (fun out c' =>
    inv (acc ++ option_list (out_core_req out)) (ans ++ option_list (out_core_resp out)) (empty_hands true) c' /\ exists c1, c' = update_queues c1 /\ forall q, fifo_ok (queues c1 q)).
Proof.
  intros Hi Hms Hreq. unfold edge. apply cwp_bind. eapply cwp_mono.
  - apply (methods_inv acc ans); [exact Hreq| |done|].
    + rewrite Hms. apply (bool_decide_unpack _). by vm_compute.
    + rewrite bool_decide_eq_true_2 by (rewrite Hms; by left). simpl. by rewrite !app_nil_r.
  - intros out c1 H1. apply cwp_bind, cwp_modify, cwp_ret. split; [by apply update_inv|]. exists c1. split; [done|]. apply H1.
Qed.

(** ** Reachable states *)

Lemma flat_replicate {A} (f : A -> list nat) (e : A) n : f e = [] -> flat_map f (replicate n e) = [].
Proof. intros Hf. induction n as [|n IH]; simpl; [done|]. by rewrite Hf, IH. Qed.
Lemma cache_init_inv seed c : Cache_init config_ seed = Ok c -> inv [] [] (empty_hands true) c /\ forall q, settled (queues c q).
Proof.
  unfold Cache_init. intros Hc. apply res_bind_ok in Hc as ([] & _ & Hc). apply res_bind_ok in Hc as (t & Ht & Hc). apply res_bind_ok in Hc as (d & Hd & Hc).
  apply res_bind_ok in Hc as (v & Hv & Hc). destruct (negb _); [done|]. destruct (_ && _); [done|]. injection Hc as <-.
  unfold VictimBuffer_init in Hv. res_inv. set (c := mkCache _ _ _ _ _ _ _ _ _ _ _ _ _ _ _ _ _ _ _ _ _).
  assert (Hq : forall q, queues c q = fifo_init (if decide (q = mem_resp_queue_) then mshr_entries config_ + pipeline_queue_size config_ else pipeline_queue_size config_)) by done.
  assert (Hsubs : subs c = []) by (by apply flat_replicate).
  assert (Hent : flat_map entry_packet (entries_ (victim_buffer_ c)) = []) by (by apply flat_replicate).
  assert (Hsent : flat_map entry_sent (entries_ (victim_buffer_ c)) = []) by (by apply flat_replicate).
  assert (Hinfl : infl c = []) by (unfold infl, mvals; simpl; by rewrite map_to_list_empty).
  assert (Hw : winfl c = []) by (unfold winfl, mvals; simpl; by rewrite map_to_list_empty).
  assert (Hout : outstanding c = []) by (unfold outstanding; by rewrite Hinfl).
  assert (Hpl : places c = []) by (unfold places; rewrite Hsubs, Hw, Hent, Hout; done).
  assert (Hmshr : forall i, mshr_at (mshr_file_ c) i = mshr0).
  { intros i. unfold mshr_at. simpl. destruct (decide (i < mshr_entries config_)%nat).
    - apply nth_lookup_Some, lookup_replicate. by split.
    - apply nth_overflow. rewrite length_replicate. lia. }
  assert (Hve : forall i, ventry (victim_buffer_ c) i = ventry0).
  { intros i. unfold ventry. simpl. destruct (decide (i < victim_buffer_entries config_)%nat).
    - apply nth_lookup_Some, lookup_replicate. by split.
    - apply nth_overflow. rewrite length_replicate. lia. }
  split; [|intros q; rewrite Hq; apply fifo_init_ok].
  split; rewrite ?Hpl, ?Hinfl, ?Hw, ?Hsent, ?Hsubs, ?Hout; try done.
  - intros z. assert (Hr : occ z (rev (seq 0 10)) = occ z (seq 0 10)) by (apply occ_perm; symmetry; apply Permutation_rev).
    rewrite occ_seq in Hr. exact Hr.
  - intros z Hx. by apply not_elem_of_nil in Hx.
  - intros z [Hx|Hx]; by apply not_elem_of_nil in Hx.
  - intros z [(i & Hs & _)|Hx]; [by rewrite Hve in Hs|by apply not_elem_of_nil in Hx].
  - intros q z _ Hx. unfold in_queue in Hx. rewrite Hq in Hx. by apply not_elem_of_nil in Hx.
  - intros z Hx. by apply not_elem_of_nil in Hx.
  - intros z pkt Hx. unfold c in Hx. cbn [pkts] in Hx.
    repeat (apply lookup_insert_Some in Hx as [[_ <-]|[_ Hx]]; [by left|]). by rewrite lookup_empty in Hx.
  - intros z Hx. by apply not_elem_of_nil in Hx.
  - intros i _. by rewrite Hmshr.
  - intros i. by rewrite Hve.
  - intros q. rewrite Hq. apply fifo_init_ok.
  - apply fifo_init_ok.
  - rewrite !Hq. simpl. lia.
Qed.
End modules.

(** What can happen to the cache: the core and memory write the transactions, the other side
    of the command channel puts commands and takes completions, and clock edges run the four
    methods in some order. [acc] and [ans] are the transactions accepted from the core and
    sent back to it. *)
Section reach.
Context {E : Type} `{RandomEngine E} (config_ : Param) (error_throws : bool).
Implicit Types (c : Cache E) (acc ans : list gp_ptr).

Inductive reach : Cache E -> list gp_ptr -> list gp_ptr -> Prop :=
  | reach_init seed c : Cache_init config_ seed = Ok c -> reach c [] []
  | reach_data c acc ans g : reach c acc ans -> reach (set_gps g c) acc ans
  | reach_command c acc ans req resp : reach c acc ans -> reach (set_responses resp (set_requests req c)) acc ans
  | reach_edge c acc ans now i ms out c' : reach c acc ans -> ms ≡ₚ [MCache; MMshrFile; MWriteBuffer; MVictimBuffer] ->
      (forall a, in_core_req i = Some a -> exists n, a = CoreGp n) -> edge config_ error_throws now i ms c = Ok (out, c') ->
      reach c' (acc ++ option_list (out_core_req out)) (ans ++ option_list (out_core_resp out)).

Lemma simcache_reach_inv c acc ans : reach c acc ans -> inv config_ acc ans (empty_hands true) c /\ forall q, settled (queues c q).
Proof.
  induction 1 as [seed c Hc|c acc ans g _ [Hi Hs]|c acc ans req resp _ [Hi Hs]|c acc ans now i ms out c' _ [Hi Hs] Hms Hreq He].
  - by eapply cache_init_inv.
  - split; [by eapply inv_quiet|done].
  - split; [by eapply inv_quiet|done].
  - destruct (cache_edge_inv config_ error_throws _ _ _ now i ms Hi Hms Hreq _ _ He) as [Hi' (c1 & -> & Hf)].
    split; [done|]. intros q. simpl. apply fifo_update_ok, Hf.
Qed.

(** What is left when nothing is pending. *)
Lemma flat_nil {A} (f : A -> list nat) l : (forall e, e ∈ l -> f e = []) -> flat_map f l = [].
Proof.
  induction l as [|e l IH]; intros Hl; [done|]. simpl. rewrite Hl by (by left). apply IH. intros e' He'. apply Hl. by right.
Qed.
Lemma not_busy c q : settled (queues c q) -> busy c q = false -> in_queue c q = [].
Proof.
  intros (H1 & H2 & _) Hb. unfold busy, used in Hb. apply Nat.ltb_ge in Hb. unfold in_queue. apply nil_length_inv. lia.
Qed.
Lemma idle_subs acc ans h c : inv config_ acc ans h c -> HasPendingWork (mshr_file_ c) = false -> subs c = [].
Proof.
  intros Hi Hw. apply flat_nil. intros e He. unfold HasPendingWork in Hw. apply orb_false_iff in Hw as [_ Hw].
  apply list_elem_of_lookup in He as [i He]. assert (Hat : mshr_at (mshr_file_ c) i = e) by (unfold mshr_at; by apply nth_lookup_Some).
  rewrite <- Hat. apply (i_mshr _ _ _ _ _ Hi). apply active_false. rewrite Hat.
  rewrite <- not_true_iff_false in Hw |- *. intros Ha. apply Hw, existsb_exists. exists e. split; [|done].
  apply list_elem_of_In. by eapply list_elem_of_lookup_2.
Qed.
Lemma idle_write c : w_HasPendingWork (write_buffer_ c) = false -> pending_entries_ (write_buffer_ c) = [] /\ winfl c = [].
Proof.
  unfold w_HasPendingWork, Occupancy. intros Hw%negb_false_iff%Nat.eqb_eq. split; [apply nil_length_inv; lia|].
  unfold winfl, mvals. assert (Hz : size (w_inflight (write_buffer_ c)) = 0%nat) by lia. apply map_size_empty_inv in Hz.
  by rewrite Hz, map_to_list_empty.
Qed.
Lemma idle_victim acc ans c : inv config_ acc ans (empty_hands true) c -> v_HasPendingWork (victim_buffer_ c) = false -> infl c = [] ->
  in_queue c victim_buffer_mem_req_out_queue_ = [] -> in_queue c victim_buffer_mem_resp_queue_ = [] ->
  flat_map entry_packet (entries_ (victim_buffer_ c)) = [].
Proof.
  intros Hi Hv Hin Hout Hresp. apply flat_nil. intros e He. apply list_elem_of_lookup in He as [i He].
  assert (Hat : ventry (victim_buffer_ c) i = e) by (unfold ventry; by apply nth_lookup_Some).
  pose proof (i_entries _ _ _ _ _ Hi i) as Hcl. rewrite Hat in Hcl. unfold entry_packet. destruct (v_packet e) as [p|] eqn:Ep; [|done].
  rewrite bool_decide_eq_true_2 in Hcl by (by exists p). apply orb_true_iff in Hcl as [Hs|Hs].
  - unfold v_HasPendingWork in Hv. apply negb_false_iff, Nat.eqb_eq in Hv.
    assert (Hz : CommittedEntryCount (victim_buffer_ c) = 0%nat) by lia. unfold CommittedEntryCount, countb in Hz. apply nil_length_inv in Hz.
    assert (Hf : e ∈ List.filter (in_state kCommitted) (entries_ (victim_buffer_ c)))
      by (apply list_elem_of_In, filter_In; split; [apply list_elem_of_In; by eapply list_elem_of_lookup_2|done]).
    rewrite Hz in Hf. by apply not_elem_of_nil in Hf.
  - pose proof (i_victim _ _ _ _ _ Hi p) as Hp. rewrite Hout, Hresp, Hin in Hp. simpl in Hp.
    pose proof (occ_flat_insert entry_sent _ _ _ ventry0 p He) as Ho. unfold entry_sent at 2 in Ho. rewrite Hs in Ho.
    unfold entry_packet in Ho. rewrite Ep in Ho. simpl in Ho. rewrite one_refl in Ho. lia.
Qed.
Lemma idle_places c acc ans : inv config_ acc ans (empty_hands true) c -> (forall q, settled (queues c q)) ->
  HasPendingPipelineWork c = false -> places c = in_queue c core_resp_queue_.
Proof.
  intros Hi Hset Hidle. unfold HasPendingPipelineWork, HasPendingDataPathWork in Hidle.
  repeat match goal with Hb : _ || _ = false |- _ => apply orb_false_iff in Hb as [? ?] end.
  assert (Hempty : forall q, busy c q = false -> in_queue c q = []) by (intros; by apply not_busy).
  assert (Hin : infl c = []).
  { match goal with Hm : negb (bool_decide (mem_inflight_packets_ c = ∅)) = false |- _ => apply negb_false_iff, bool_decide_eq_true in Hm as Em end.
    unfold infl, mvals. by rewrite Em, map_to_list_empty. }
  assert (Hheld : aheld c = []).
  { unfold aheld. match goal with Ha : a_IsBusy _ = false |- _ => unfold a_IsBusy in Ha; apply negb_false_iff, bool_decide_eq_true in Ha as Ea end.
    by rewrite Ea. }
  match goal with Hw : w_HasPendingWork _ = false |- _ => destruct (idle_write c Hw) as [Hp Hw'] end.
  unfold places. rewrite Hheld, Hp, Hw', (idle_subs _ _ _ _ Hi), (idle_victim _ _ _ Hi) by auto.
  unfold outstanding. rewrite Hin. simpl.
  rewrite (Hempty core_req_queue_), (Hempty tag_array_resp_queue_), (Hempty mshr_file_mem_req_queue_), (Hempty mshr_file_replay_queue_),
    (Hempty write_buffer_mem_req_queue_), (Hempty bypass_req_queue_), (Hempty mem_resp_queue_) by done. simpl. by rewrite !app_nil_r.
Qed.

(** C24. No transaction is lost or duplicated by the cache. In every state it can reach, from any
    responses and data that memory gives, any commands, and any order of the methods within a
    clock edge, as long as no assertion fails: each packet object is in the free list of its
    pool or in exactly one of the places that own packets; the transactions accepted from the
    core are those answered, once each, and those of the packets in these places; the response
    slots in use are the reads and bypass requests that memory owes and the responses that
    wait, which are at most the capacity of [mem_resp_queue_], so that a response memory owes
    always finds room there (acknowledgements of writes go to other queues); and when [HasPendingPipelineWork] is false, which a command
    waits for, all that is not answered is ready in [core_resp_queue_]. *)
Theorem cache_conserves c acc ans : reach c acc ans ->
  places c ++ free_list_ (packet_pool_ c) ≡ₚ seq 0 (pool_size (packet_pool_ c)) /\
  acc ≡ₚ ans ++ omap (core_of c) (places c) /\
  (mem_response_slots_in_use_ c = length (outstanding c) + length (in_queue c mem_resp_queue_))%nat /\
  (mem_response_slots_in_use_ c <= response_capacity c)%nat /\
  (outstanding c <> [] -> nb_can_put (queues c mem_resp_queue_) = true) /\
  (HasPendingPipelineWork c = false -> acc ≡ₚ ans ++ omap (core_of c) (in_queue c core_resp_queue_)).
Proof.
  intros Hr. destruct (simcache_reach_inv _ _ _ Hr) as [Hi Hset]. pose proof (i_slots _ _ _ _ _ Hi) as Hs. pose proof (i_room _ _ _ _ _ Hi) as Hroom.
  destruct (Hset mem_resp_queue_) as (S1 & S2 & S3). simpl in Hs. rewrite S1, S3 in Hroom.
  pose proof (i_core _ _ _ _ _ Hi) as Hc. simpl in Hc. rewrite app_nil_r in Hc. split_and!; [|exact Hc|..].
  - apply occ_Permutation. intros x. rewrite occ_app, occ_seq. pose proof (i_own _ _ _ _ _ Hi x) as Ho. simpl in Ho. lia.
  - lia.
  - unfold in_queue in Hs. lia.
  - intros Hne. unfold nb_can_put, is_full. rewrite S1, S3. apply negb_true_iff, Nat.leb_gt. unfold response_capacity in Hroom.
    destruct (outstanding c); [done|]. simpl in Hroom. lia.
  - intros Hidle. by rewrite <- (idle_places _ _ _ Hi Hset Hidle).
Qed.
End reach.

(** ** A run

    A core that sends a list of transactions, and a memory that answers each request at
    the next edge with bytes 7. *)
Definition answer (g : Gp) : Gp :=
  set_status TLM_OK_RESPONSE (if gp_is_read g then set_data (Some (replicate (gp_data_length g) 7)) g else g).
Definition all_methods : list method := [MCache; MMshrFile; MWriteBuffer; MVictimBuffer].
Fixpoint drive (cfg : Param) (n : nat) (reqs : list nat) (owed : option gp_ptr) (c : Cache Z) (acc ans : list gp_ptr)
    : res (Cache Z * list gp_ptr * list gp_ptr) :=
  match n with
  | O => Ok (c, acc, ans)
  | S n =>
      let c := set_gps (match owed with Some a => alter answer a (gps c) | None => gps c end) c in
      '(out, c) ← edge cfg false (Z.of_nat n) (mkInputs (CoreGp <$> head reqs) true (bool_decide (owed = None)) owed false) all_methods c;
      drive cfg n (match out_core_req out with Some _ => tail reqs | None => reqs end)
        (match out_mem_resp out with Some _ => None | None => match owed with Some a => Some a | None => out_mem_req out end end)
        c (acc ++ option_list (out_core_req out)) (ans ++ option_list (out_core_resp out))
  end.
Lemma drive_reach cfg n reqs owed c acc ans r : reach cfg false c acc ans ->
  drive cfg n reqs owed c acc ans = Ok r -> reach cfg false (fst (fst r)) (snd (fst r)) (snd r).
Proof.
  revert reqs owed c acc ans. induction n as [|n IH]; intros reqs owed c acc ans Hr Hd; [injection Hd as <-; done|].
  cbn [drive] in Hd. cbv zeta in Hd. apply res_bind_ok in Hd as ([out c'] & He & Hd). eapply IH; [|exact Hd].
  eapply reach_edge; [by eapply reach_data|done| |exact He]. intros a. simpl. destruct (head reqs) as [k|]; [|done].
  intros [= <-]. by exists k.
Qed.
(** A write, reads of three lines of one set, so that the written one is evicted, and an
    atomic addition. *)
Definition request (cmd : tlm_command) (a : Z) (at_ : option AtomicExtension) : Gp :=
  mkGp cmd a (Some [1; 0; 0; 0]) 4 None 0 TLM_INCOMPLETE_RESPONSE at_.
Definition requests : gmap gp_ptr Gp :=
  list_to_map [(CoreGp 0, request TLM_WRITE_COMMAND 68 None); (CoreGp 1, request TLM_READ_COMMAND 80 None);
    (CoreGp 2, request TLM_READ_COMMAND 96 None); (CoreGp 3, request TLM_READ_COMMAND 112 None);
    (CoreGp 4, request TLM_READ_COMMAND 80 (Some (mkAtomic kAdd 0)))].
Definition run_from cfg (seed : Z) (n : nat) (reqs : list nat) (g : gmap gp_ptr Gp) : res (Cache Z * list gp_ptr * list gp_ptr) :=
  c ← Cache_init cfg seed; drive cfg n reqs None (set_gps (g ∪ gps c) c) [] [].
Lemma run_reach cfg seed n reqs g r : run_from cfg seed n reqs g = Ok r -> reach cfg false (fst (fst r)) (snd (fst r)) (snd r).
Proof.
  intros Hr. apply res_bind_ok in Hr as (c & Hc & Hr). eapply drive_reach; [|exact Hr]. by eapply reach_data, reach_init.
Qed.
Notation small_run := (run_from small_cache 0 60 [0; 1; 2; 3; 4]%nat requests).
Lemma small_run_ends : match small_run with
  | Ok (c, acc, _) => bool_decide (acc = map CoreGp (seq 0 5)) && bool_decide (in_queue c core_resp_queue_ = []) && negb (HasPendingPipelineWork c)
  | Err _ => false
  end = true.
Proof. by vm_compute. Qed.
Lemma cache_conserves_witness : exists c acc ans, reach small_cache false c acc ans /\ acc = map CoreGp (seq 0 5) /\ acc ≡ₚ ans.
Proof.
  pose proof small_run_ends as He. destruct small_run as [[[c acc] ans]|] eqn:Er; [|done].
  apply andb_true_iff in He as [He Hi]. apply andb_true_iff in He as [Ha Hq]. apply bool_decide_eq_true in Ha, Hq.
  apply negb_true_iff in Hi. exists c, acc, ans. apply run_reach in Er. cbn [fst snd] in Er. split; [done|]. split; [done|].
  destruct (cache_conserves small_cache false c acc ans Er) as (_ & _ & _ & _ & _ & Hidle).
  specialize (Hidle Hi). rewrite Hq in Hidle. simpl in Hidle. by rewrite app_nil_r in Hidle.
Defined.
