(* ===== verification/SmEncoding.v ===== *)
(** * Encodings of the SM simulator (simtix/src/cores/encoding.h, exec_flag.h, instr_def.h, formosa.h)

    The instructions the streaming multiprocessors decode, the bits that are fixed in
    each one and their values, the fields of an instruction word, the CSR numbers and
    exception causes, and the flags an executed instruction returns to its core. *)

From S2P Require Import Prelude.

(** ** Flags of an executed instruction (exec_flag.h) *)

Module ExecFlag.

Definition NONE : Z := 0.
Definition RD_DATA : Z := Z.shiftl 1 0.
Definition NEXT_PC : Z := Z.shiftl 1 1.
Definition LOAD : Z := Z.shiftl 1 2.
Definition STORE : Z := Z.shiftl 1 3.
Definition CSR : Z := Z.shiftl 1 4.
Definition PRIORITY : Z := Z.shiftl 1 5.
Definition BARRIER : Z := Z.shiftl 1 6.
Definition FP_EXC : Z := Z.shiftl 1 7.
Definition ATOMIC : Z := Z.shiftl 1 8.
Definition ECALL : Z := Z.shiftl 1 9.
Definition ILLEGAL : Z := Z.shiftl 1 10.
Definition INSTR_ADDR_MISALIGNED : Z := Z.shiftl 1 11.
Definition LOAD_ADDR_MISALIGNED : Z := Z.shiftl 1 12.
Definition STORE_ADDR_MISALIGNED : Z := Z.shiftl 1 13.
Definition FENCE : Z := Z.shiftl 1 14.
Definition EXCEPTION_MASK : Z := Z.shiftl 31 9.
Definition WIDTH_1 : Z := Z.shiftl 0 16.
Definition WIDTH_2 : Z := Z.shiftl 1 16.
Definition WIDTH_4 : Z := Z.shiftl 2 16.
Definition WIDTH_8 : Z := Z.shiftl 3 16.
Definition WIDTH_MASK : Z := Z.shiftl 3 16.
Definition SIGNED : Z := Z.shiftl 1 18.
Definition CSRRW : Z := Z.shiftl 1 19.
Definition CSRRS : Z := Z.shiftl 2 19.
Definition CSRRC : Z := Z.shiftl 3 19.
Definition CSR_MASK : Z := Z.shiftl 3 19.
Definition PRI_RESET : Z := Z.shiftl 0 21.
Definition PRI_RAISE : Z := Z.shiftl 1 21.
Definition PRI_LOWER : Z := Z.shiftl 2 21.
Definition PRI_MASK : Z := Z.shiftl 3 21.
Definition AMO_SWAP : Z := Z.shiftl 1 23.
Definition AMO_ADD : Z := Z.shiftl 2 23.
Definition AMO_XOR : Z := Z.shiftl 3 23.
Definition AMO_AND : Z := Z.shiftl 4 23.
Definition AMO_OR : Z := Z.shiftl 5 23.
Definition AMO_MIN : Z := Z.shiftl 6 23.
Definition AMO_MAX : Z := Z.shiftl 7 23.
Definition AMO_MINU : Z := Z.shiftl 8 23.
Definition AMO_MAXU : Z := Z.shiftl 9 23.
Definition AMO_CAS : Z := Z.shiftl 10 23.
Definition AMO_MASK : Z := Z.shiftl 15 23.
Definition MDU : Z := Z.shiftl 1 27.
Definition FPU : Z := Z.shiftl 1 28.

End ExecFlag.
Abbreviation ExecFlag := Z (only parsing).

Definition HasFlag (target test : ExecFlag) : bool := negb (Z.land target test =? 0).
Definition GetException (f : ExecFlag) : ExecFlag := Z.land f ExecFlag.EXCEPTION_MASK.
Definition HasException (f : ExecFlag) : bool := negb (GetException f =? ExecFlag.NONE).
Definition GetMemSize (f : ExecFlag) : Z := Z.shiftl 1 (Z.shiftr (Z.land f ExecFlag.WIDTH_MASK) 16).
Definition IsSigned (f : ExecFlag) : bool := HasFlag f ExecFlag.SIGNED.
Definition GetCsrOp (f : ExecFlag) : ExecFlag := Z.land f ExecFlag.CSR_MASK.
Definition GetPriOp (f : ExecFlag) : ExecFlag := Z.land f ExecFlag.PRI_MASK.
Definition GetAmoOp (f : ExecFlag) : ExecFlag := Z.land f ExecFlag.AMO_MASK.

(** ** Causes and CSR numbers *)

Definition CSR_FFLAGS : Z := 0x1.
Definition CSR_FRM : Z := 0x2.
Definition CSR_FCSR : Z := 0x3.
Definition CSR_CYCLE : Z := 0xc00.
Definition CSR_MSCRATCH : Z := 0x340.
Definition CSR_MEPC : Z := 0x341.
Definition CSR_MCAUSE : Z := 0x342.
Definition CSR_MTVAL : Z := 0x343.
Definition CSR_MCYCLE : Z := 0xb00.
Definition CSR_MINSTRET : Z := 0xb02.
Definition CSR_MHARTID : Z := 0xf14.
Definition CAUSE_MISALIGNED_FETCH : Z := 0x0.
Definition CAUSE_ILLEGAL_INSTRUCTION : Z := 0x2.
Definition CAUSE_MISALIGNED_LOAD : Z := 0x4.
Definition CAUSE_MISALIGNED_STORE : Z := 0x6.
Definition CAUSE_MACHINE_ECALL : Z := 0xb.
Definition INSN_FIELD_RD : Z := 0xf80.
Definition INSN_FIELD_RS1 : Z := 0xf8000.
Definition INSN_FIELD_RS2 : Z := 0x1f00000.
Definition INSN_FIELD_RS3 : Z := 0xf8000000.
Definition INSN_FIELD_FUNCT3 : Z := 0x7000.
Definition INSN_FIELD_IMM20 : Z := 0xfffff000.
Definition INSN_FIELD_CSR : Z := 0xfff00000.
Definition INSN_FIELD_IMM12HI : Z := 0xfe000000.
Definition INSN_FIELD_IMM12LO : Z := 0xf80.
Definition INSN_FIELD_OPCODE : Z := 0x7f.
Definition INSN_FIELD_FUNCT7 : Z := 0xfe000000.
Definition INSN_FIELD_ZIMM5 : Z := 0xf8000.
Definition CSR_XWID : Z := 0xFC0.
Definition CSR_XACTIVEMASK : Z := 0xFC2.
Definition CSR_XLANEID : Z := 0xFD0.
Definition CSR_XLANES : Z := 0xFE0.

Definition DecodeExceptionCause (f : ExecFlag) : Z :=
  let e := GetException f in
  if e =? ExecFlag.ECALL then CAUSE_MACHINE_ECALL else
  if e =? ExecFlag.ILLEGAL then CAUSE_ILLEGAL_INSTRUCTION else
  if e =? ExecFlag.INSTR_ADDR_MISALIGNED then CAUSE_MISALIGNED_FETCH else
  if e =? ExecFlag.LOAD_ADDR_MISALIGNED then CAUSE_MISALIGNED_LOAD else
  if e =? ExecFlag.STORE_ADDR_MISALIGNED then CAUSE_MISALIGNED_STORE else 0.

(** ** Operations of an atomic access (tlm_extensions/atomic_extension.h) *)

Inductive AtomicOp :=
  | kSwap | kAdd | kXor | kAnd | kOr | kMin | kMax | kMinU | kMaxU | kCompareSwap.
#[global] Instance AtomicOp_eq : EqDecision AtomicOp.
Proof. solve_decision. Defined.

Definition DecodeAtomicOp (flag : ExecFlag) : AtomicOp :=
  let op := GetAmoOp flag in
  if op =? ExecFlag.AMO_SWAP then kSwap else
  if op =? ExecFlag.AMO_ADD then kAdd else
  if op =? ExecFlag.AMO_XOR then kXor else
  if op =? ExecFlag.AMO_AND then kAnd else
  if op =? ExecFlag.AMO_OR then kOr else
  if op =? ExecFlag.AMO_MIN then kMin else
  if op =? ExecFlag.AMO_MAX then kMax else
  if op =? ExecFlag.AMO_MINU then kMinU else
  if op =? ExecFlag.AMO_MAXU then kMaxU else
  if op =? ExecFlag.AMO_CAS then kCompareSwap else kAdd.

(** ** Instructions (instr_def.h)

    [Illegal] is the last member of every group and matches every word. *)

Inductive InstrDef :=
  | ADD | SUB | SLL | SLT | SLTU | XOR | SRL | SRA | OR | AND | MUL | MULH | MULHSU | MULHU | DIV |
  DIVU | REM | REMU | CZERO_EQZ | CZERO_NEZ | ADDI | SLTI | SLTIU | XORI | ORI | ANDI | SLLI | SRLI
  | SRAI | ADDW | SUBW | SLLW | SRLW | SRAW | MULW | DIVW | DIVUW | REMW | REMUW | ADDIW | SLLIW |
  SRLIW | SRAIW | BEQ | BNE | BLT | BGE | BLTU | BGEU | LUI | AUIPC | JAL | JALR | LB | LH | LW |
  LBU | LHU | LWU | LD | AMOSWAP_W | AMOADD_W | AMOXOR_W | AMOAND_W | AMOOR_W | AMOMIN_W | AMOMAX_W
  | AMOMINU_W | AMOMAXU_W | AMOSWAP_D | AMOADD_D | AMOXOR_D | AMOAND_D | AMOOR_D | AMOMIN_D |
  AMOMAX_D | AMOMINU_D | AMOMAXU_D | SB | SH | SW | SD | CSRRW | CSRRS | CSRRC | CSRRWI | CSRRSI |
  CSRRCI | ECALL | AMOCAS_W | AMOCAS_D | FSA_PRI_RESET | FSA_PRI_RAISE | FSA_PRI_LOWER | FSA_BAR |
  FADD_S | FADD_D | FSUB_S | FSUB_D | FMUL_S | FMUL_D | FDIV_S | FDIV_D | FSQRT_S | FSQRT_D |
  FSGNJ_S | FSGNJN_S | FSGNJX_S | FSGNJ_D | FSGNJN_D | FSGNJX_D | FMIN_S | FMAX_S | FMIN_D | FMAX_D
  | FCVT_W_S | FCVT_WU_S | FCVT_L_S | FCVT_LU_S | FCVT_S_W | FCVT_S_WU | FCVT_S_L | FCVT_S_LU |
  FEQ_S | FLT_S | FLE_S | FEQ_D | FLT_D | FLE_D | FCLASS_S | FCLASS_D | FCVT_W_D | FCVT_WU_D |
  FCVT_L_D | FCVT_LU_D | FCVT_D_W | FCVT_D_WU | FCVT_D_L | FCVT_D_LU | FCVT_S_D | FCVT_D_S | FMADD_S
  | FMADD_D | FMSUB_S | FMSUB_D | FNMSUB_S | FNMSUB_D | FNMADD_S | FNMADD_D | FENCE | Illegal.

Definition InstrDef_index (d : InstrDef) : nat :=
  match d with
  | ADD => 0 | SUB => 1 | SLL => 2 | SLT => 3 | SLTU => 4 | XOR => 5 | SRL => 6 | SRA => 7 | OR => 8 |
  AND => 9 | MUL => 10 | MULH => 11 | MULHSU => 12 | MULHU => 13 | DIV => 14 | DIVU => 15 | REM => 16 |
  REMU => 17 | CZERO_EQZ => 18 | CZERO_NEZ => 19 | ADDI => 20 | SLTI => 21 | SLTIU => 22 | XORI => 23 |
  ORI => 24 | ANDI => 25 | SLLI => 26 | SRLI => 27 | SRAI => 28 | ADDW => 29 | SUBW => 30 | SLLW => 31 |
  SRLW => 32 | SRAW => 33 | MULW => 34 | DIVW => 35 | DIVUW => 36 | REMW => 37 | REMUW => 38 | ADDIW =>
  39 | SLLIW => 40 | SRLIW => 41 | SRAIW => 42 | BEQ => 43 | BNE => 44 | BLT => 45 | BGE => 46 | BLTU =>
  47 | BGEU => 48 | LUI => 49 | AUIPC => 50 | JAL => 51 | JALR => 52 | LB => 53 | LH => 54 | LW => 55 |
  LBU => 56 | LHU => 57 | LWU => 58 | LD => 59 | AMOSWAP_W => 60 | AMOADD_W => 61 | AMOXOR_W => 62 |
  AMOAND_W => 63 | AMOOR_W => 64 | AMOMIN_W => 65 | AMOMAX_W => 66 | AMOMINU_W => 67 | AMOMAXU_W => 68 |
  AMOSWAP_D => 69 | AMOADD_D => 70 | AMOXOR_D => 71 | AMOAND_D => 72 | AMOOR_D => 73 | AMOMIN_D => 74 |
  AMOMAX_D => 75 | AMOMINU_D => 76 | AMOMAXU_D => 77 | SB => 78 | SH => 79 | SW => 80 | SD => 81 | CSRRW
  => 82 | CSRRS => 83 | CSRRC => 84 | CSRRWI => 85 | CSRRSI => 86 | CSRRCI => 87 | ECALL => 88 |
  AMOCAS_W => 89 | AMOCAS_D => 90 | FSA_PRI_RESET => 91 | FSA_PRI_RAISE => 92 | FSA_PRI_LOWER => 93 |
  FSA_BAR => 94 | FADD_S => 95 | FADD_D => 96 | FSUB_S => 97 | FSUB_D => 98 | FMUL_S => 99 | FMUL_D =>
  100 | FDIV_S => 101 | FDIV_D => 102 | FSQRT_S => 103 | FSQRT_D => 104 | FSGNJ_S => 105 | FSGNJN_S =>
  106 | FSGNJX_S => 107 | FSGNJ_D => 108 | FSGNJN_D => 109 | FSGNJX_D => 110 | FMIN_S => 111 | FMAX_S =>
  112 | FMIN_D => 113 | FMAX_D => 114 | FCVT_W_S => 115 | FCVT_WU_S => 116 | FCVT_L_S => 117 | FCVT_LU_S
  => 118 | FCVT_S_W => 119 | FCVT_S_WU => 120 | FCVT_S_L => 121 | FCVT_S_LU => 122 | FEQ_S => 123 |
  FLT_S => 124 | FLE_S => 125 | FEQ_D => 126 | FLT_D => 127 | FLE_D => 128 | FCLASS_S => 129 | FCLASS_D
  => 130 | FCVT_W_D => 131 | FCVT_WU_D => 132 | FCVT_L_D => 133 | FCVT_LU_D => 134 | FCVT_D_W => 135 |
  FCVT_D_WU => 136 | FCVT_D_L => 137 | FCVT_D_LU => 138 | FCVT_S_D => 139 | FCVT_D_S => 140 | FMADD_S =>
  141 | FMADD_D => 142 | FMSUB_S => 143 | FMSUB_D => 144 | FNMSUB_S => 145 | FNMSUB_D => 146 | FNMADD_S
  => 147 | FNMADD_D => 148 | FENCE => 149 | Illegal => 150
  end%nat.
Definition all_instrs : list InstrDef :=
  [ADD; SUB; SLL; SLT; SLTU; XOR; SRL; SRA; OR; AND; MUL; MULH; MULHSU; MULHU; DIV; DIVU; REM; REMU;
  CZERO_EQZ; CZERO_NEZ; ADDI; SLTI; SLTIU; XORI; ORI; ANDI; SLLI; SRLI; SRAI; ADDW; SUBW; SLLW; SRLW;
  SRAW; MULW; DIVW; DIVUW; REMW; REMUW; ADDIW; SLLIW; SRLIW; SRAIW; BEQ; BNE; BLT; BGE; BLTU; BGEU; LUI;
  AUIPC; JAL; JALR; LB; LH; LW; LBU; LHU; LWU; LD; AMOSWAP_W; AMOADD_W; AMOXOR_W; AMOAND_W; AMOOR_W;
  AMOMIN_W; AMOMAX_W; AMOMINU_W; AMOMAXU_W; AMOSWAP_D; AMOADD_D; AMOXOR_D; AMOAND_D; AMOOR_D; AMOMIN_D;
  AMOMAX_D; AMOMINU_D; AMOMAXU_D; SB; SH; SW; SD; CSRRW; CSRRS; CSRRC; CSRRWI; CSRRSI; CSRRCI; ECALL;
  AMOCAS_W; AMOCAS_D; FSA_PRI_RESET; FSA_PRI_RAISE; FSA_PRI_LOWER; FSA_BAR; FADD_S; FADD_D; FSUB_S;
  FSUB_D; FMUL_S; FMUL_D; FDIV_S; FDIV_D; FSQRT_S; FSQRT_D; FSGNJ_S; FSGNJN_S; FSGNJX_S; FSGNJ_D;
  FSGNJN_D; FSGNJX_D; FMIN_S; FMAX_S; FMIN_D; FMAX_D; FCVT_W_S; FCVT_WU_S; FCVT_L_S; FCVT_LU_S;
  FCVT_S_W; FCVT_S_WU; FCVT_S_L; FCVT_S_LU; FEQ_S; FLT_S; FLE_S; FEQ_D; FLT_D; FLE_D; FCLASS_S;
  FCLASS_D; FCVT_W_D; FCVT_WU_D; FCVT_L_D; FCVT_LU_D; FCVT_D_W; FCVT_D_WU; FCVT_D_L; FCVT_D_LU;
  FCVT_S_D; FCVT_D_S; FMADD_S; FMADD_D; FMSUB_S; FMSUB_D; FNMSUB_S; FNMSUB_D; FNMADD_S; FNMADD_D; FENCE;
  Illegal].
#[global] Instance InstrDef_index_inj : Inj (=) (=) InstrDef_index.
Proof.
  assert (H : forall d, nth (InstrDef_index d) all_instrs Illegal = d) by (by intros []).
  intros a b E. by rewrite <- (H a), <- (H b), E.
Qed.
#[global] Instance InstrDef_eq : EqDecision InstrDef := fun a b =>
  match decide (InstrDef_index a = InstrDef_index b) with
  | left E => left (inj InstrDef_index a b E)
  | right N => right (fun E => N (f_equal InstrDef_index E))
  end.

Record Matches := mkMatches { kMaskVal : Z; kMatchVal : Z }.
Definition Match (m : Matches) (iword : Z) : bool := Z.land iword (kMaskVal m) =? kMatchVal m.

Definition enc_ADD : Matches := mkMatches 0xfe00707f 0x33.
Definition enc_SUB : Matches := mkMatches 0xfe00707f 0x40000033.
Definition enc_SLL : Matches := mkMatches 0xfe00707f 0x1033.
Definition enc_SLT : Matches := mkMatches 0xfe00707f 0x2033.
Definition enc_SLTU : Matches := mkMatches 0xfe00707f 0x3033.
Definition enc_XOR : Matches := mkMatches 0xfe00707f 0x4033.
Definition enc_SRL : Matches := mkMatches 0xfe00707f 0x5033.
Definition enc_SRA : Matches := mkMatches 0xfe00707f 0x40005033.
Definition enc_OR : Matches := mkMatches 0xfe00707f 0x6033.
Definition enc_AND : Matches := mkMatches 0xfe00707f 0x7033.
Definition enc_MUL : Matches := mkMatches 0xfe00707f 0x2000033.
Definition enc_MULH : Matches := mkMatches 0xfe00707f 0x2001033.
Definition enc_MULHSU : Matches := mkMatches 0xfe00707f 0x2002033.
Definition enc_MULHU : Matches := mkMatches 0xfe00707f 0x2003033.
Definition enc_DIV : Matches := mkMatches 0xfe00707f 0x2004033.
Definition enc_DIVU : Matches := mkMatches 0xfe00707f 0x2005033.
Definition enc_REM : Matches := mkMatches 0xfe00707f 0x2006033.
Definition enc_REMU : Matches := mkMatches 0xfe00707f 0x2007033.
Definition enc_CZERO_EQZ : Matches := mkMatches 0xfe00707f 0xe005033.
Definition enc_CZERO_NEZ : Matches := mkMatches 0xfe00707f 0xe007033.
Definition enc_ADDI : Matches := mkMatches 0x707f 0x13.
Definition enc_SLTI : Matches := mkMatches 0x707f 0x2013.
Definition enc_SLTIU : Matches := mkMatches 0x707f 0x3013.
Definition enc_XORI : Matches := mkMatches 0x707f 0x4013.
Definition enc_ORI : Matches := mkMatches 0x707f 0x6013.
Definition enc_ANDI : Matches := mkMatches 0x707f 0x7013.
Definition enc_SLLI : Matches := mkMatches 0xfc00707f 0x1013.
Definition enc_SRLI : Matches := mkMatches 0xfc00707f 0x5013.
Definition enc_SRAI : Matches := mkMatches 0xfc00707f 0x40005013.
Definition enc_ADDW : Matches := mkMatches 0xfe00707f 0x3b.
Definition enc_SUBW : Matches := mkMatches 0xfe00707f 0x4000003b.
Definition enc_SLLW : Matches := mkMatches 0xfe00707f 0x103b.
Definition enc_SRLW : Matches := mkMatches 0xfe00707f 0x503b.
Definition enc_SRAW : Matches := mkMatches 0xfe00707f 0x4000503b.
Definition enc_MULW : Matches := mkMatches 0xfe00707f 0x200003b.
Definition enc_DIVW : Matches := mkMatches 0xfe00707f 0x200403b.
Definition enc_DIVUW : Matches := mkMatches 0xfe00707f 0x200503b.
Definition enc_REMW : Matches := mkMatches 0xfe00707f 0x200603b.
Definition enc_REMUW : Matches := mkMatches 0xfe00707f 0x200703b.
Definition enc_ADDIW : Matches := mkMatches 0x707f 0x1b.
Definition enc_SLLIW : Matches := mkMatches 0xfe00707f 0x101b.
Definition enc_SRLIW : Matches := mkMatches 0xfe00707f 0x501b.
Definition enc_SRAIW : Matches := mkMatches 0xfe00707f 0x4000501b.
Definition enc_BEQ : Matches := mkMatches 0x707f 0x63.
Definition enc_BNE : Matches := mkMatches 0x707f 0x1063.
Definition enc_BLT : Matches := mkMatches 0x707f 0x4063.
Definition enc_BGE : Matches := mkMatches 0x707f 0x5063.
Definition enc_BLTU : Matches := mkMatches 0x707f 0x6063.
Definition enc_BGEU : Matches := mkMatches 0x707f 0x7063.
Definition enc_LUI : Matches := mkMatches 0x7f 0x37.
Definition enc_AUIPC : Matches := mkMatches 0x7f 0x17.
Definition enc_JAL : Matches := mkMatches 0x7f 0x6f.
Definition enc_JALR : Matches := mkMatches 0x707f 0x67.
Definition enc_LB : Matches := mkMatches 0x707f 0x3.
Definition enc_LH : Matches := mkMatches 0x707f 0x1003.
Definition enc_LW : Matches := mkMatches 0x707f 0x2003.
Definition enc_LBU : Matches := mkMatches 0x707f 0x4003.
Definition enc_LHU : Matches := mkMatches 0x707f 0x5003.
Definition enc_LWU : Matches := mkMatches 0x707f 0x6003.
Definition enc_LD : Matches := mkMatches 0x707f 0x3003.
Definition enc_AMOSWAP_W : Matches := mkMatches 0xf800707f 0x800202f.
Definition enc_AMOADD_W : Matches := mkMatches 0xf800707f 0x202f.
Definition enc_AMOXOR_W : Matches := mkMatches 0xf800707f 0x2000202f.
Definition enc_AMOAND_W : Matches := mkMatches 0xf800707f 0x6000202f.
Definition enc_AMOOR_W : Matches := mkMatches 0xf800707f 0x4000202f.
Definition enc_AMOMIN_W : Matches := mkMatches 0xf800707f 0x8000202f.
Definition enc_AMOMAX_W : Matches := mkMatches 0xf800707f 0xa000202f.
Definition enc_AMOMINU_W : Matches := mkMatches 0xf800707f 0xc000202f.
Definition enc_AMOMAXU_W : Matches := mkMatches 0xf800707f 0xe000202f.
Definition enc_AMOSWAP_D : Matches := mkMatches 0xf800707f 0x800302f.
Definition enc_AMOADD_D : Matches := mkMatches 0xf800707f 0x302f.
Definition enc_AMOXOR_D : Matches := mkMatches 0xf800707f 0x2000302f.
Definition enc_AMOAND_D : Matches := mkMatches 0xf800707f 0x6000302f.
Definition enc_AMOOR_D : Matches := mkMatches 0xf800707f 0x4000302f.
Definition enc_AMOMIN_D : Matches := mkMatches 0xf800707f 0x8000302f.
Definition enc_AMOMAX_D : Matches := mkMatches 0xf800707f 0xa000302f.
Definition enc_AMOMINU_D : Matches := mkMatches 0xf800707f 0xc000302f.
Definition enc_AMOMAXU_D : Matches := mkMatches 0xf800707f 0xe000302f.
Definition enc_SB : Matches := mkMatches 0x707f 0x23.
Definition enc_SH : Matches := mkMatches 0x707f 0x1023.
Definition enc_SW : Matches := mkMatches 0x707f 0x2023.
Definition enc_SD : Matches := mkMatches 0x707f 0x3023.
Definition enc_CSRRW : Matches := mkMatches 0x707f 0x1073.
Definition enc_CSRRS : Matches := mkMatches 0x707f 0x2073.
Definition enc_CSRRC : Matches := mkMatches 0x707f 0x3073.
Definition enc_CSRRWI : Matches := mkMatches 0x707f 0x5073.
Definition enc_CSRRSI : Matches := mkMatches 0x707f 0x6073.
Definition enc_CSRRCI : Matches := mkMatches 0x707f 0x7073.
Definition enc_ECALL : Matches := mkMatches 0xffffffff 0x73.
Definition enc_AMOCAS_W : Matches := mkMatches 0xf800707f 0x2800202f.
Definition enc_AMOCAS_D : Matches := mkMatches 0xf800707f 0x2800302f.
Definition enc_FSA_PRI_RESET : Matches := mkMatches 0xffffffff 0x200002b.
Definition enc_FSA_PRI_RAISE : Matches := mkMatches 0xfc0fffff 0x502b.
Definition enc_FSA_PRI_LOWER : Matches := mkMatches 0xfc0fffff 0x302b.
Definition enc_FSA_BAR : Matches := mkMatches 0xffffffff 0x102b.
Definition enc_FADD_S : Matches := mkMatches 0xfe00007f 0x53.
Definition enc_FADD_D : Matches := mkMatches 0xfe00007f 0x2000053.
Definition enc_FSUB_S : Matches := mkMatches 0xfe00007f 0x8000053.
Definition enc_FSUB_D : Matches := mkMatches 0xfe00007f 0xa000053.
Definition enc_FMUL_S : Matches := mkMatches 0xfe00007f 0x10000053.
Definition enc_FMUL_D : Matches := mkMatches 0xfe00007f 0x12000053.
Definition enc_FDIV_S : Matches := mkMatches 0xfe00007f 0x18000053.
Definition enc_FDIV_D : Matches := mkMatches 0xfe00007f 0x1a000053.
Definition enc_FSQRT_S : Matches := mkMatches 0xfff0007f 0x58000053.
Definition enc_FSQRT_D : Matches := mkMatches 0xfff0007f 0x5a000053.
Definition enc_FSGNJ_S : Matches := mkMatches 0xfe00707f 0x20000053.
Definition enc_FSGNJN_S : Matches := mkMatches 0xfe00707f 0x20001053.
Definition enc_FSGNJX_S : Matches := mkMatches 0xfe00707f 0x20002053.
Definition enc_FSGNJ_D : Matches := mkMatches 0xfe00707f 0x22000053.
Definition enc_FSGNJN_D : Matches := mkMatches 0xfe00707f 0x22001053.
Definition enc_FSGNJX_D : Matches := mkMatches 0xfe00707f 0x22002053.
Definition enc_FMIN_S : Matches := mkMatches 0xfe00707f 0x28000053.
Definition enc_FMAX_S : Matches := mkMatches 0xfe00707f 0x28001053.
Definition enc_FMIN_D : Matches := mkMatches 0xfe00707f 0x2a000053.
Definition enc_FMAX_D : Matches := mkMatches 0xfe00707f 0x2a001053.
Definition enc_FCVT_W_S : Matches := mkMatches 0xfff0007f 0xc0000053.
Definition enc_FCVT_WU_S : Matches := mkMatches 0xfff0007f 0xc0100053.
Definition enc_FCVT_L_S : Matches := mkMatches 0xfff0007f 0xc0200053.
Definition enc_FCVT_LU_S : Matches := mkMatches 0xfff0007f 0xc0300053.
Definition enc_FCVT_S_W : Matches := mkMatches 0xfff0007f 0xd0000053.
Definition enc_FCVT_S_WU : Matches := mkMatches 0xfff0007f 0xd0100053.
Definition enc_FCVT_S_L : Matches := mkMatches 0xfff0007f 0xd0200053.
Definition enc_FCVT_S_LU : Matches := mkMatches 0xfff0007f 0xd0300053.
Definition enc_FEQ_S : Matches := mkMatches 0xfe00707f 0xa0002053.
Definition enc_FLT_S : Matches := mkMatches 0xfe00707f 0xa0001053.
Definition enc_FLE_S : Matches := mkMatches 0xfe00707f 0xa0000053.
Definition enc_FEQ_D : Matches := mkMatches 0xfe00707f 0xa2002053.
Definition enc_FLT_D : Matches := mkMatches 0xfe00707f 0xa2001053.
Definition enc_FLE_D : Matches := mkMatches 0xfe00707f 0xa2000053.
Definition enc_FCLASS_S : Matches := mkMatches 0xfff0707f 0xe0001053.
Definition enc_FCLASS_D : Matches := mkMatches 0xfff0707f 0xe2001053.
Definition enc_FCVT_W_D : Matches := mkMatches 0xfff0007f 0xc2000053.
Definition enc_FCVT_WU_D : Matches := mkMatches 0xfff0007f 0xc2100053.
Definition enc_FCVT_L_D : Matches := mkMatches 0xfff0007f 0xc2200053.
Definition enc_FCVT_LU_D : Matches := mkMatches 0xfff0007f 0xc2300053.
Definition enc_FCVT_D_W : Matches := mkMatches 0xfff0007f 0xd2000053.
Definition enc_FCVT_D_WU : Matches := mkMatches 0xfff0007f 0xd2100053.
Definition enc_FCVT_D_L : Matches := mkMatches 0xfff0007f 0xd2200053.
Definition enc_FCVT_D_LU : Matches := mkMatches 0xfff0007f 0xd2300053.
Definition enc_FCVT_S_D : Matches := mkMatches 0xfff0007f 0x40100053.
Definition enc_FCVT_D_S : Matches := mkMatches 0xfff0007f 0x42000053.
Definition enc_FMADD_S : Matches := mkMatches 0x600007f 0x43.
Definition enc_FMADD_D : Matches := mkMatches 0x600007f 0x2000043.
Definition enc_FMSUB_S : Matches := mkMatches 0x600007f 0x47.
Definition enc_FMSUB_D : Matches := mkMatches 0x600007f 0x2000047.
Definition enc_FNMSUB_S : Matches := mkMatches 0x600007f 0x4b.
Definition enc_FNMSUB_D : Matches := mkMatches 0x600007f 0x200004b.
Definition enc_FNMADD_S : Matches := mkMatches 0x600007f 0x4f.
Definition enc_FNMADD_D : Matches := mkMatches 0x600007f 0x200004f.
Definition enc_FENCE : Matches := mkMatches 0x707f 0xf.
Definition enc_Illegal : Matches := mkMatches 0 0.

Definition encoding (d : InstrDef) : Matches :=
  match d with
  | ADD => enc_ADD | SUB => enc_SUB | SLL => enc_SLL | SLT => enc_SLT | SLTU => enc_SLTU | XOR =>
  enc_XOR | SRL => enc_SRL | SRA => enc_SRA | OR => enc_OR | AND => enc_AND | MUL => enc_MUL | MULH =>
  enc_MULH | MULHSU => enc_MULHSU | MULHU => enc_MULHU | DIV => enc_DIV | DIVU => enc_DIVU | REM =>
  enc_REM | REMU => enc_REMU | CZERO_EQZ => enc_CZERO_EQZ | CZERO_NEZ => enc_CZERO_NEZ | ADDI =>
  enc_ADDI | SLTI => enc_SLTI | SLTIU => enc_SLTIU | XORI => enc_XORI | ORI => enc_ORI | ANDI =>
  enc_ANDI | SLLI => enc_SLLI | SRLI => enc_SRLI | SRAI => enc_SRAI | ADDW => enc_ADDW | SUBW =>
  enc_SUBW | SLLW => enc_SLLW | SRLW => enc_SRLW | SRAW => enc_SRAW | MULW => enc_MULW | DIVW =>
  enc_DIVW | DIVUW => enc_DIVUW | REMW => enc_REMW | REMUW => enc_REMUW | ADDIW => enc_ADDIW | SLLIW =>
  enc_SLLIW | SRLIW => enc_SRLIW | SRAIW => enc_SRAIW | BEQ => enc_BEQ | BNE => enc_BNE | BLT => enc_BLT
  | BGE => enc_BGE | BLTU => enc_BLTU | BGEU => enc_BGEU | LUI => enc_LUI | AUIPC => enc_AUIPC | JAL =>
  enc_JAL | JALR => enc_JALR | LB => enc_LB | LH => enc_LH | LW => enc_LW | LBU => enc_LBU | LHU =>
  enc_LHU | LWU => enc_LWU | LD => enc_LD | AMOSWAP_W => enc_AMOSWAP_W | AMOADD_W => enc_AMOADD_W |
  AMOXOR_W => enc_AMOXOR_W | AMOAND_W => enc_AMOAND_W | AMOOR_W => enc_AMOOR_W | AMOMIN_W =>
  enc_AMOMIN_W | AMOMAX_W => enc_AMOMAX_W | AMOMINU_W => enc_AMOMINU_W | AMOMAXU_W => enc_AMOMAXU_W |
  AMOSWAP_D => enc_AMOSWAP_D | AMOADD_D => enc_AMOADD_D | AMOXOR_D => enc_AMOXOR_D | AMOAND_D =>
  enc_AMOAND_D | AMOOR_D => enc_AMOOR_D | AMOMIN_D => enc_AMOMIN_D | AMOMAX_D => enc_AMOMAX_D |
  AMOMINU_D => enc_AMOMINU_D | AMOMAXU_D => enc_AMOMAXU_D | SB => enc_SB | SH => enc_SH | SW => enc_SW |
  SD => enc_SD | CSRRW => enc_CSRRW | CSRRS => enc_CSRRS | CSRRC => enc_CSRRC | CSRRWI => enc_CSRRWI |
  CSRRSI => enc_CSRRSI | CSRRCI => enc_CSRRCI | ECALL => enc_ECALL | AMOCAS_W => enc_AMOCAS_W | AMOCAS_D
  => enc_AMOCAS_D | FSA_PRI_RESET => enc_FSA_PRI_RESET | FSA_PRI_RAISE => enc_FSA_PRI_RAISE |
  FSA_PRI_LOWER => enc_FSA_PRI_LOWER | FSA_BAR => enc_FSA_BAR | FADD_S => enc_FADD_S | FADD_D =>
  enc_FADD_D | FSUB_S => enc_FSUB_S | FSUB_D => enc_FSUB_D | FMUL_S => enc_FMUL_S | FMUL_D => enc_FMUL_D
  | FDIV_S => enc_FDIV_S | FDIV_D => enc_FDIV_D | FSQRT_S => enc_FSQRT_S | FSQRT_D => enc_FSQRT_D |
  FSGNJ_S => enc_FSGNJ_S | FSGNJN_S => enc_FSGNJN_S | FSGNJX_S => enc_FSGNJX_S | FSGNJ_D => enc_FSGNJ_D
  | FSGNJN_D => enc_FSGNJN_D | FSGNJX_D => enc_FSGNJX_D | FMIN_S => enc_FMIN_S | FMAX_S => enc_FMAX_S |
  FMIN_D => enc_FMIN_D | FMAX_D => enc_FMAX_D | FCVT_W_S => enc_FCVT_W_S | FCVT_WU_S => enc_FCVT_WU_S |
  FCVT_L_S => enc_FCVT_L_S | FCVT_LU_S => enc_FCVT_LU_S | FCVT_S_W => enc_FCVT_S_W | FCVT_S_WU =>
  enc_FCVT_S_WU | FCVT_S_L => enc_FCVT_S_L | FCVT_S_LU => enc_FCVT_S_LU | FEQ_S => enc_FEQ_S | FLT_S =>
  enc_FLT_S | FLE_S => enc_FLE_S | FEQ_D => enc_FEQ_D | FLT_D => enc_FLT_D | FLE_D => enc_FLE_D |
  FCLASS_S => enc_FCLASS_S | FCLASS_D => enc_FCLASS_D | FCVT_W_D => enc_FCVT_W_D | FCVT_WU_D =>
  enc_FCVT_WU_D | FCVT_L_D => enc_FCVT_L_D | FCVT_LU_D => enc_FCVT_LU_D | FCVT_D_W => enc_FCVT_D_W |
  FCVT_D_WU => enc_FCVT_D_WU | FCVT_D_L => enc_FCVT_D_L | FCVT_D_LU => enc_FCVT_D_LU | FCVT_S_D =>
  enc_FCVT_S_D | FCVT_D_S => enc_FCVT_D_S | FMADD_S => enc_FMADD_S | FMADD_D => enc_FMADD_D | FMSUB_S =>
  enc_FMSUB_S | FMSUB_D => enc_FMSUB_D | FNMSUB_S => enc_FNMSUB_S | FNMSUB_D => enc_FNMSUB_D | FNMADD_S
  => enc_FNMADD_S | FNMADD_D => enc_FNMADD_D | FENCE => enc_FENCE | Illegal => enc_Illegal
  end.

(** ** Groups: the instructions of an opcode, in the order the decoder tries them *)

Definition InstrOp : list InstrDef := [ADD; SUB; SLL; SLT; SLTU; XOR; SRL; SRA; OR; AND; MUL; MULH;
  MULHSU; MULHU; DIV; DIVU; REM; REMU; CZERO_EQZ; CZERO_NEZ; Illegal].
Definition InstrOpImm : list InstrDef := [ADDI; SLTI; SLTIU; XORI; ORI; ANDI; SLLI; SRLI; SRAI;
  Illegal].
Definition InstrOp32 : list InstrDef := [ADDW; SUBW; SLLW; SRLW; SRAW; MULW; DIVW; DIVUW; REMW;
  REMUW; Illegal].
Definition InstrOpImm32 : list InstrDef := [ADDIW; SLLIW; SRLIW; SRAIW; Illegal].
Definition InstrBranch : list InstrDef := [BEQ; BNE; BLT; BGE; BLTU; BGEU; Illegal].
Definition InstrLui : list InstrDef := [LUI; Illegal].
Definition InstrAuipc : list InstrDef := [AUIPC; Illegal].
Definition InstrJal : list InstrDef := [JAL; Illegal].
Definition InstrJalr : list InstrDef := [JALR; Illegal].
Definition InstrLoad : list InstrDef := [LB; LH; LW; LBU; LHU; LWU; LD; Illegal].
Definition InstrAmo : list InstrDef := [AMOSWAP_W; AMOADD_W; AMOXOR_W; AMOAND_W; AMOOR_W; AMOMIN_W;
  AMOMAX_W; AMOMINU_W; AMOMAXU_W; AMOSWAP_D; AMOADD_D; AMOXOR_D; AMOAND_D; AMOOR_D; AMOMIN_D;
  AMOMAX_D; AMOMINU_D; AMOMAXU_D; AMOCAS_W; AMOCAS_D; Illegal].
Definition InstrStore : list InstrDef := [SB; SH; SW; SD; Illegal].
Definition InstrSystem : list InstrDef := [CSRRW; CSRRS; CSRRC; CSRRWI; CSRRSI; CSRRCI; ECALL;
  Illegal].
Definition InstrFormosa : list InstrDef := [FSA_PRI_RESET; FSA_PRI_RAISE; FSA_PRI_LOWER; FSA_BAR;
  Illegal].
Definition InstrOpFp : list InstrDef := [FADD_S; FADD_D; FSUB_S; FSUB_D; FMUL_S; FMUL_D; FDIV_S;
  FDIV_D; FSQRT_S; FSQRT_D; FSGNJ_S; FSGNJN_S; FSGNJX_S; FSGNJ_D; FSGNJN_D; FSGNJX_D; FMIN_S;
  FMAX_S; FMIN_D; FMAX_D; FCVT_W_S; FCVT_WU_S; FCVT_L_S; FCVT_LU_S; FCVT_S_W; FCVT_S_WU; FCVT_S_L;
  FCVT_S_LU; FEQ_S; FLT_S; FLE_S; FEQ_D; FLT_D; FLE_D; FCLASS_S; FCLASS_D; FCVT_W_D; FCVT_WU_D;
  FCVT_L_D; FCVT_LU_D; FCVT_D_W; FCVT_D_WU; FCVT_D_L; FCVT_D_LU; FCVT_S_D; FCVT_D_S; Illegal].
Definition InstrOpFused : list InstrDef := [FMADD_S; FMADD_D; FMSUB_S; FMSUB_D; FNMSUB_S; FNMSUB_D;
  FNMADD_S; FNMADD_D; Illegal].
Definition InstrFence : list InstrDef := [FENCE; Illegal].
Definition InstrIllegal : list InstrDef := [Illegal].
