(* ===== verification/SmInstr.v ===== *)
(** * Instructions of the SM simulator (simtix/src/cores/instr.h, instr.cc, decode.h, decode.cc)

    [Decode] turns an instruction word into an [Instr]: the operands its format has and
    the definition that executes it. The decoder of a group tries all its instructions
    at once and takes the first that matches; the group ends in [Illegal], which always
    does. [exec_] and [mnemonic_] point to functions of one instruction definition,
    which [def] names. The members of the union in [Instr] are fields of their own: a
    format fills one of them and its instructions read that one. *)

From S2P Require Import Prelude SmEncoding.

(** ** The decoded instruction (instr.h) *)

Definition kNullReg : Z := 0xff.

Record Instr := mkInstr {
  rd : Z;
  rs1 : Z;
  rs2 : Z;
  rs3 : Z;
  imm : Z;                      (* int64_t *)
  csr : Z;
  uimm : Z;
  pri : Z;
  rm : Z;
  instr_flags_ : Z;
  def : InstrDef;
}.
Definition no_instr : Instr := mkInstr kNullReg kNullReg kNullReg kNullReg 0 0 0 0 0 0 Illegal.

Module InstrFlags.
Definition kLoad : Z := Z.shiftl 1 0.
Definition kStore : Z := Z.shiftl 1 1.
Definition kAtomic : Z := Z.shiftl 1 2.
Definition kSerializing : Z := Z.shiftl 1 3.
Definition kCti : Z := Z.shiftl 1 4.
Definition kBranch : Z := Z.shiftl 1 5.
Definition kJump : Z := Z.shiftl 1 6.
Definition kFence : Z := Z.shiftl 1 7.
Definition kMemory : Z := Z.lor (Z.lor (Z.lor kLoad kStore) kAtomic) kFence.
Definition kControl : Z := Z.lor kCti kSerializing.
End InstrFlags.

Definition has_instr_flag (i : Instr) (f : Z) : bool := negb (Z.land (instr_flags_ i) f =? 0).
Definition is_cti (i : Instr) : bool := has_instr_flag i InstrFlags.kCti.
Definition is_branch (i : Instr) : bool := has_instr_flag i InstrFlags.kBranch.
Definition is_jump (i : Instr) : bool := has_instr_flag i InstrFlags.kJump.
Definition is_mem (i : Instr) : bool := has_instr_flag i InstrFlags.kMemory.
Definition is_load (i : Instr) : bool := has_instr_flag i InstrFlags.kLoad.
Definition is_store (i : Instr) : bool := has_instr_flag i InstrFlags.kStore.
Definition is_atomic (i : Instr) : bool := has_instr_flag i InstrFlags.kAtomic.
Definition is_serializing (i : Instr) : bool := has_instr_flag i InstrFlags.kSerializing.
Definition is_control (i : Instr) : bool := has_instr_flag i InstrFlags.kControl.
Definition is_call (i : Instr) : bool :=
  (bool_decide (def i = JAL) || bool_decide (def i = JALR)) && (rd i =? 1).
Definition is_ret (i : Instr) : bool :=
  bool_decide (def i = JALR) && (rd i =? 0) && (rs1 i =? 1) && (imm i =? 0).

(** ** Fields of an instruction word (instr.cc) *)

Definition DecodeOpcode (iword : Z) : Z := u8 (Z.land iword INSN_FIELD_OPCODE).
Definition DecodeRd (iword : Z) : Z := u8 (Z.shiftr (Z.land iword INSN_FIELD_RD) 7).
Definition DecodeRs1 (iword : Z) : Z := u8 (Z.shiftr (Z.land iword INSN_FIELD_RS1) 15).
Definition DecodeRs2 (iword : Z) : Z := u8 (Z.shiftr (Z.land iword INSN_FIELD_RS2) 20).
Definition DecodeRs3 (iword : Z) : Z := u8 (Z.shiftr (Z.land iword INSN_FIELD_RS3) 27).
Definition DecodeFunct3 (iword : Z) : Z := u8 (Z.shiftr (Z.land iword INSN_FIELD_FUNCT3) 12).
Definition DecodeFunct7 (iword : Z) : Z := u8 (Z.shiftr (Z.land iword INSN_FIELD_FUNCT7) 25).

Definition DecodeImmIType (iword : Z) : Z := Z.shiftr (s32 iword) 20.
Definition DecodeImmSType (iword : Z) : Z :=
  Z.shiftr (s32 (Z.land iword INSN_FIELD_IMM12HI)) 20 + Z.shiftr (s32 (Z.land iword INSN_FIELD_IMM12LO)) 7.
Definition DecodeImmBType (iword : Z) : Z :=
  Z.shiftr (s32 (Z.land iword 0x80000000)) 19 + Z.shiftl (s32 (Z.land iword 0x80)) 4 +
  Z.shiftr (s32 (Z.land iword 0x7e000000)) 20 + Z.shiftr (s32 (Z.land iword 0xf00)) 7.
Definition DecodeImmUType (iword : Z) : Z := s32 (Z.land iword INSN_FIELD_IMM20).
Definition DecodeImmJType (iword : Z) : Z :=
  Z.shiftr (s32 (Z.land iword 0x80000000)) 11 + s32 (Z.land iword 0xff000) +
  Z.shiftr (s32 (Z.land iword 0x100000)) 9 + Z.shiftr (s32 (Z.land iword 0x7fe00000)) 20.
Definition DecodeCSR (iword : Z) : Z := u16 (Z.shiftr (Z.land iword INSN_FIELD_CSR) 20).
Definition DecodeUImm (iword : Z) : Z := u8 (Z.shiftr (Z.land iword INSN_FIELD_ZIMM5) 15).

(** ** Formats (instr.h, instr.cc) *)

Inductive Format :=
  NoType | RType | IType | SType | BType | UType | JType | SystemType | AmoCasType | FormosaType | FPType | R4Type.

Definition set_operands (rd' rs1' rs2' rs3' : Z) (i : Instr) : Instr :=
  mkInstr rd' rs1' rs2' rs3' (imm i) (csr i) (uimm i) (pri i) (rm i) (instr_flags_ i) (def i).
Definition set_imm (v : Z) (i : Instr) : Instr :=
  mkInstr (rd i) (rs1 i) (rs2 i) (rs3 i) v (csr i) (uimm i) (pri i) (rm i) (instr_flags_ i) (def i).
Definition set_csr (v : Z) (i : Instr) : Instr :=
  mkInstr (rd i) (rs1 i) (rs2 i) (rs3 i) (imm i) v (uimm i) (pri i) (rm i) (instr_flags_ i) (def i).
Definition set_uimm (v : Z) (i : Instr) : Instr :=
  mkInstr (rd i) (rs1 i) (rs2 i) (rs3 i) (imm i) (csr i) v (pri i) (rm i) (instr_flags_ i) (def i).
Definition set_pri (v : Z) (i : Instr) : Instr :=
  mkInstr (rd i) (rs1 i) (rs2 i) (rs3 i) (imm i) (csr i) (uimm i) v (rm i) (instr_flags_ i) (def i).
Definition set_rm (v : Z) (i : Instr) : Instr :=
  mkInstr (rd i) (rs1 i) (rs2 i) (rs3 i) (imm i) (csr i) (uimm i) (pri i) v (instr_flags_ i) (def i).
Definition set_def (flags : Z) (d : InstrDef) (i : Instr) : Instr :=
  mkInstr (rd i) (rs1 i) (rs2 i) (rs3 i) (imm i) (csr i) (uimm i) (pri i) (rm i) flags d.

Definition Fill_RType (iword : Z) (i : Instr) : Instr :=
  set_operands (DecodeRd iword) (DecodeRs1 iword) (DecodeRs2 iword) (rs3 i) i.
Definition Fill_IType (iword : Z) (i : Instr) : Instr :=
  set_imm (DecodeImmIType iword) (set_operands (DecodeRd iword) (DecodeRs1 iword) (rs2 i) (rs3 i) i).
Definition Fill_SType (iword : Z) (i : Instr) : Instr :=
  set_imm (DecodeImmSType iword) (set_operands (rd i) (DecodeRs1 iword) (DecodeRs2 iword) (rs3 i) i).
Definition Fill_BType (iword : Z) (i : Instr) : Instr :=
  set_imm (DecodeImmBType iword) (set_operands (rd i) (DecodeRs1 iword) (DecodeRs2 iword) (rs3 i) i).
Definition Fill_UType (iword : Z) (i : Instr) : Instr :=
  set_imm (DecodeImmUType iword) (set_operands (DecodeRd iword) (rs1 i) (rs2 i) (rs3 i) i).
Definition Fill_JType (iword : Z) (i : Instr) : Instr :=
  set_imm (DecodeImmJType iword) (set_operands (DecodeRd iword) (rs1 i) (rs2 i) (rs3 i) i).
Definition Fill_SystemType (iword : Z) (i : Instr) : Instr :=
  let funct3 := DecodeFunct3 iword in
  if negb (funct3 =? 0) then
    let i := set_csr (DecodeCSR iword) (set_operands (DecodeRd iword) (rs1 i) (rs2 i) (rs3 i) i) in
    if (funct3 =? 1) || (funct3 =? 2) || (funct3 =? 3)
    then set_operands (rd i) (DecodeRs1 iword) (rs2 i) (rs3 i) i
    else if (funct3 =? 5) || (funct3 =? 6) || (funct3 =? 7) then set_uimm (DecodeUImm iword) i else i
  else i.
Definition Fill_AmoCasType (iword : Z) (i : Instr) : Instr :=
  let i := Fill_RType iword i in set_operands (rd i) (rs1 i) (rs2 i) (rd i) i.
Definition Fill_FormosaType (iword : Z) (i : Instr) : Instr :=
  let funct3 := DecodeFunct3 iword in
  if (funct3 =? 5) || (funct3 =? 3) then set_pri (DecodeRs2 iword) i else i.
Definition Fill_FPType (iword : Z) (i : Instr) : Instr :=
  set_rm (DecodeFunct3 iword) (set_operands (DecodeRd iword) (DecodeRs1 iword) (DecodeRs2 iword) (rs3 i) i).
Definition Fill_R4Type (iword : Z) (i : Instr) : Instr :=
  set_rm (DecodeFunct3 iword)
    (set_operands (DecodeRd iword) (DecodeRs1 iword) (DecodeRs2 iword) (DecodeRs3 iword) i).

Definition Fill (f : Format) (iword : Z) (i : Instr) : Instr :=
  match f with
  | NoType => i
  | RType => Fill_RType iword i
  | IType => Fill_IType iword i
  | SType => Fill_SType iword i
  | BType => Fill_BType iword i
  | UType => Fill_UType iword i
  | JType => Fill_JType iword i
  | SystemType => Fill_SystemType iword i
  | AmoCasType => Fill_AmoCasType iword i
  | FormosaType => Fill_FormosaType iword i
  | FPType => Fill_FPType iword i
  | R4Type => Fill_R4Type iword i
  end.

(** ** Definitions of the instructions (instr_def.h) *)

Definition Fmt (d : InstrDef) : Format :=
  match d with
  | ADD | SUB | SLL | SLT | SLTU | XOR | SRL | SRA | OR | AND | MUL | MULH | MULHSU | MULHU | DIV |
    DIVU | REM | REMU | CZERO_EQZ | CZERO_NEZ | ADDW | SUBW | SLLW | SRLW | SRAW | MULW | DIVW |
    DIVUW | REMW | REMUW | AMOSWAP_W | AMOADD_W | AMOXOR_W | AMOAND_W | AMOOR_W | AMOMIN_W |
    AMOMAX_W | AMOMINU_W | AMOMAXU_W | AMOSWAP_D | AMOADD_D | AMOXOR_D | AMOAND_D | AMOOR_D |
    AMOMIN_D | AMOMAX_D | AMOMINU_D | AMOMAXU_D => RType
  | ADDI | SLTI | SLTIU | XORI | ORI | ANDI | SLLI | SRLI | SRAI | ADDIW | SLLIW | SRLIW | SRAIW |
    JALR | LB | LH | LW | LBU | LHU | LWU | LD => IType
  | BEQ | BNE | BLT | BGE | BLTU | BGEU => BType
  | LUI | AUIPC => UType
  | JAL => JType
  | SB | SH | SW | SD => SType
  | CSRRW | CSRRS | CSRRC | CSRRWI | CSRRSI | CSRRCI | ECALL => SystemType
  | AMOCAS_W | AMOCAS_D => AmoCasType
  | FSA_PRI_RESET | FSA_PRI_RAISE | FSA_PRI_LOWER | FSA_BAR => FormosaType
  | FADD_S | FADD_D | FSUB_S | FSUB_D | FMUL_S | FMUL_D | FDIV_S | FDIV_D | FSQRT_S | FSQRT_D |
    FSGNJ_S | FSGNJN_S | FSGNJX_S | FSGNJ_D | FSGNJN_D | FSGNJX_D | FMIN_S | FMAX_S | FMIN_D |
    FMAX_D | FCVT_W_S | FCVT_WU_S | FCVT_L_S | FCVT_LU_S | FCVT_S_W | FCVT_S_WU | FCVT_S_L |
    FCVT_S_LU | FEQ_S | FLT_S | FLE_S | FEQ_D | FLT_D | FLE_D | FCLASS_S | FCLASS_D | FCVT_W_D |
    FCVT_WU_D | FCVT_L_D | FCVT_LU_D | FCVT_D_W | FCVT_D_WU | FCVT_D_L | FCVT_D_LU | FCVT_S_D |
    FCVT_D_S => FPType
  | FMADD_S | FMADD_D | FMSUB_S | FMSUB_D | FNMSUB_S | FNMSUB_D | FNMADD_S | FNMADD_D => R4Type
  | FENCE | Illegal => NoType
  end.

(** ** The decoder (decode.h, decode.cc) *)

Definition member (d : InstrDef) (group : list InstrDef) : bool := bool_decide (d ∈ group).
Definition flag_if (b : bool) (f : Z) : Z := if b then f else 0.
Definition FlagsFor (d : InstrDef) : Z :=
  if bool_decide (d = Illegal) then 0 else
  fold_left Z.lor
    [flag_if (member d InstrLoad) InstrFlags.kLoad;
     flag_if (member d InstrStore) InstrFlags.kStore;
     flag_if (member d InstrAmo) InstrFlags.kAtomic;
     flag_if (member d InstrFence) InstrFlags.kFence;
     flag_if (member d InstrSystem || member d InstrFormosa || member d InstrFence) InstrFlags.kSerializing;
     flag_if (member d InstrBranch || member d InstrJal || member d InstrJalr || member d InstrFormosa)
       InstrFlags.kCti;
     flag_if (member d InstrBranch) InstrFlags.kBranch;
     flag_if (member d InstrJal || member d InstrJalr) InstrFlags.kJump;
     flag_if (bool_decide (d = ECALL)) InstrFlags.kCti] 0.

(** The matches of a group as a 64-bit word, the first member in bit 0. *)
Definition match_bitmap (group : list InstrDef) (iword : Z) : Z :=
  u64 (foldr Z.lor 0 (imap (fun i d => Z.shiftl (Z.b2z (Match (encoding d) iword)) (Z.of_nat i)) group)).

(** [__builtin_ctzll]; not defined for 0 in C. *)
Fixpoint ctz_pos (p : positive) : nat := match p with xO p => S (ctz_pos p) | _ => 0 end.
Definition ctz (x : Z) : nat := match x with Zpos p => ctz_pos p | _ => 0 end.

Definition Decoder (group : list InstrDef) (iword : Z) : Instr :=
  let d := nth (ctz (match_bitmap group iword)) group Illegal in
  set_def (FlagsFor d) d (Fill (Fmt d) iword no_instr).

(** The opcodes. *)
Module Opcode.
Definition kLoad : Z := 0x03.
Definition kMiscMem : Z := 0x0f.
Definition kFLoad : Z := 0x07.
Definition kAmo : Z := 0x2f.
Definition kStore : Z := 0x23.
Definition kFStore : Z := 0x27.
Definition kBranch : Z := 0x63.
Definition kCustom1 : Z := 0x2b.
Definition kOpImm : Z := 0x13.
Definition kOp : Z := 0x33.
Definition kSystem : Z := 0x73.
Definition kAuipc : Z := 0x17.
Definition kLui : Z := 0x37.
Definition kOpImm32 : Z := 0x1b.
Definition kOp32 : Z := 0x3b.
Definition kFmadd : Z := 0x43.
Definition kFmsub : Z := 0x47.
Definition kFnmsub : Z := 0x4b.
Definition kFnmadd : Z := 0x4f.
Definition kOpFp : Z := 0x53.
Definition kJal : Z := 0x6f.
Definition kJalr : Z := 0x67.
End Opcode.
Import Opcode.

Definition opcode_group (opcode : Z) : list InstrDef :=
  if opcode =? kLoad then InstrLoad else
  if opcode =? kAmo then InstrAmo else
  if opcode =? kMiscMem then InstrFence else
  if opcode =? kStore then InstrStore else
  if opcode =? kBranch then InstrBranch else
  if opcode =? kCustom1 then InstrFormosa else
  if opcode =? kOpImm then InstrOpImm else
  if opcode =? kOp then InstrOp else
  if opcode =? kSystem then InstrSystem else
  if opcode =? kAuipc then InstrAuipc else
  if opcode =? kLui then InstrLui else
  if opcode =? kOpImm32 then InstrOpImm32 else
  if opcode =? kOp32 then InstrOp32 else
  if opcode =? kOpFp then InstrOpFp else
  if (opcode =? kFmadd) || (opcode =? kFmsub) || (opcode =? kFnmsub) || (opcode =? kFnmadd) then InstrOpFused else
  if opcode =? kJal then InstrJal else
  if opcode =? kJalr then InstrJalr else InstrIllegal.
Definition Decode (iword : Z) : Instr := Decoder (opcode_group (Z.land iword INSN_FIELD_OPCODE)) iword.
