(* ===== verification/SmExec.v ===== *)
(** * Execution of the SM instructions
      (simtix/src/cores/exec_context.h, instr_op.cc, instr_op_imm.cc, instr_op32.cc,
      instr_op_imm32.cc, instr_lui.cc, instr_auipc.cc, instr_jal.cc, instr_jalr.cc,
      instr_branch.cc, instr_load.cc, instr_store.cc, instr_amo.cc, instr_system.cc,
      instr_formosa.cc, instr_op_fp.cc, instr_op_fused.cc, softfloat_util.h)

    An instruction reads the operands of every lane of a warp through [ExecContext] and
    leaves what it computed in buffers: the data, the addresses, the floating-point
    flags and one CSR number and priority. The flags it returns tell the core what to do
    with them. Both cores bind [rd_data], [mem.data] and [csr.data] to one buffer, and
    [next_pc] and [mem.addr] to another, so [Sinks] has one list for each. A pointer to
    read-only data is a function of the lane. Signed registers are numbers in
    [-2^63, 2^63); a signed operation of C that overflows is written with its
    two's-complement result. SoftFloat is a parameter: each function takes the rounding
    mode and gives a result and the exception flags it raises. *)

From S2P Require Import Prelude SmEncoding SmInstr.

(** ** Context (exec_context.h) *)

Record ExecContext := mkContext {
  pc : Z;
  tmask : Z;                    (* sc_bv_base, a bit per lane *)
  rs1_data : nat -> Z;
  rs2_data : nat -> Z;
  rs3_data : nat -> Z;
  dynamic_rm : nat -> Z;
  num_lanes : nat;
}.

Record Sinks := mkSinks {
  addr_buf : list Z;            (* uint64_t *)
  data_buf : list Z;            (* int64_t *)
  fflags_buf : list Z;          (* uint8_t *)
  csr_buf : Z;
  pri_buf : Z;
}.
Definition set_addr (i : nat) (v : Z) (s : Sinks) : Sinks :=
  mkSinks (<[i := v]> (addr_buf s)) (data_buf s) (fflags_buf s) (csr_buf s) (pri_buf s).
Definition set_data (i : nat) (v : Z) (s : Sinks) : Sinks :=
  mkSinks (addr_buf s) (<[i := v]> (data_buf s)) (fflags_buf s) (csr_buf s) (pri_buf s).
Definition set_fflags (i : nat) (v : Z) (s : Sinks) : Sinks :=
  mkSinks (addr_buf s) (data_buf s) (<[i := v]> (fflags_buf s)) (csr_buf s) (pri_buf s).
Definition set_csr_buf (v : Z) (s : Sinks) : Sinks :=
  mkSinks (addr_buf s) (data_buf s) (fflags_buf s) v (pri_buf s).
Definition set_pri_buf (v : Z) (s : Sinks) : Sinks :=
  mkSinks (addr_buf s) (data_buf s) (fflags_buf s) (csr_buf s) v.

Definition ExecFunc : Type := ExecContext -> Instr -> Sinks -> ExecFlag * Sinks.

(** [for (i = 0; i < n; ++i) if (mask[i]) ...] *)
Definition for_active {A} (mask : Z) (n : nat) (f : nat -> A -> A) (a : A) : A :=
  for_range (fun i b => if Z.testbit mask (Z.of_nat i) then f i b else b) 0 n a.
Definition for_lanes {A} (ctx : ExecContext) (f : nat -> A -> A) (a : A) : A :=
  for_active (tmask ctx) (num_lanes ctx) f a.

(** An instruction that writes [f i] to the destination of lane [i]. *)
Definition exec_rd (flag : ExecFlag) (ctx : ExecContext) (f : nat -> Z) (s : Sinks) : ExecFlag * Sinks :=
  (flag, for_lanes ctx (fun i => set_data i (f i)) s).
Definition RD : ExecFlag := ExecFlag.RD_DATA.
Definition RD_MDU : ExecFlag := Z.lor ExecFlag.RD_DATA ExecFlag.MDU.

(** ** Register operations (instr_op.cc) *)

Definition exec_ADD : ExecFunc := fun ctx _ s =>
  exec_rd RD ctx (fun i => s64 (rs1_data ctx i + rs2_data ctx i)) s.
Definition exec_SUB : ExecFunc := fun ctx _ s =>
  exec_rd RD ctx (fun i => s64 (rs1_data ctx i - rs2_data ctx i)) s.
Definition exec_SLL : ExecFunc := fun ctx _ s =>
  exec_rd RD ctx (fun i => s64 (Z.shiftl (rs1_data ctx i) (Z.land (rs2_data ctx i) 0x3f))) s.
Definition exec_SLT : ExecFunc := fun ctx _ s =>
  exec_rd RD ctx (fun i => if rs1_data ctx i <? rs2_data ctx i then 1 else 0) s.
Definition exec_SLTU : ExecFunc := fun ctx _ s =>
  exec_rd RD ctx (fun i => if u64 (rs1_data ctx i) <? u64 (rs2_data ctx i) then 1 else 0) s.
Definition exec_XOR : ExecFunc := fun ctx _ s =>
  exec_rd RD ctx (fun i => Z.lxor (rs1_data ctx i) (rs2_data ctx i)) s.
Definition exec_SRL : ExecFunc := fun ctx _ s =>
  exec_rd RD ctx (fun i => s64 (Z.shiftr (u64 (rs1_data ctx i)) (Z.land (rs2_data ctx i) 0x3f))) s.
Definition exec_SRA : ExecFunc := fun ctx _ s =>
  exec_rd RD ctx (fun i => Z.shiftr (rs1_data ctx i) (Z.land (rs2_data ctx i) 0x3f)) s.
Definition exec_OR : ExecFunc := fun ctx _ s =>
  exec_rd RD ctx (fun i => Z.lor (rs1_data ctx i) (rs2_data ctx i)) s.
Definition exec_AND : ExecFunc := fun ctx _ s =>
  exec_rd RD ctx (fun i => Z.land (rs1_data ctx i) (rs2_data ctx i)) s.
Definition exec_MUL : ExecFunc := fun ctx _ s =>
  exec_rd RD_MDU ctx (fun i => s64 (rs1_data ctx i * rs2_data ctx i)) s.
Definition exec_MULH : ExecFunc := fun ctx _ s =>
  exec_rd RD_MDU ctx (fun i => s64 (Z.shiftr (rs1_data ctx i * rs2_data ctx i) 64)) s.
Definition exec_MULHSU : ExecFunc := fun ctx _ s =>
  exec_rd RD_MDU ctx (fun i => s64 (Z.shiftr (rs1_data ctx i * u64 (rs2_data ctx i)) 64)) s.
Definition exec_MULHU : ExecFunc := fun ctx _ s =>
  exec_rd RD_MDU ctx (fun i => s64 (Z.shiftr (u64 (rs1_data ctx i) * u64 (rs2_data ctx i)) 64)) s.
Definition INT64_MIN : Z := - 2 ^ 63.
Definition exec_DIV : ExecFunc := fun ctx _ s =>
  exec_rd RD_MDU ctx (fun i =>
    if rs2_data ctx i =? 0 then -1 else
    if (rs1_data ctx i =? INT64_MIN) && (rs2_data ctx i =? -1) then rs1_data ctx i
    else Z.quot (rs1_data ctx i) (rs2_data ctx i)) s.
Definition exec_DIVU : ExecFunc := fun ctx _ s =>
  exec_rd RD_MDU ctx (fun i =>
    if rs2_data ctx i =? 0 then -1 else s64 (u64 (rs1_data ctx i) / u64 (rs2_data ctx i))) s.
Definition exec_REM : ExecFunc := fun ctx _ s =>
  exec_rd RD_MDU ctx (fun i =>
    if rs2_data ctx i =? 0 then rs1_data ctx i else
    if (rs1_data ctx i =? INT64_MIN) && (rs2_data ctx i =? -1) then 0
    else Z.rem (rs1_data ctx i) (rs2_data ctx i)) s.
Definition exec_REMU : ExecFunc := fun ctx _ s =>
  exec_rd RD_MDU ctx (fun i =>
    if rs2_data ctx i =? 0 then rs1_data ctx i else s64 (u64 (rs1_data ctx i) mod u64 (rs2_data ctx i))) s.
Definition exec_CZERO_EQZ : ExecFunc := fun ctx _ s =>
  exec_rd RD ctx (fun i => if rs2_data ctx i =? 0 then 0 else rs1_data ctx i) s.
Definition exec_CZERO_NEZ : ExecFunc := fun ctx _ s =>
  exec_rd RD ctx (fun i => if negb (rs2_data ctx i =? 0) then 0 else rs1_data ctx i) s.

(** ** Immediate operations (instr_op_imm.cc) *)

Definition exec_ADDI : ExecFunc := fun ctx instr s =>
  exec_rd RD ctx (fun i => s64 (rs1_data ctx i + imm instr)) s.
Definition exec_SLTI : ExecFunc := fun ctx instr s =>
  exec_rd RD ctx (fun i => if rs1_data ctx i <? imm instr then 1 else 0) s.
Definition exec_SLTIU : ExecFunc := fun ctx instr s =>
  exec_rd RD ctx (fun i => if u64 (rs1_data ctx i) <? u64 (imm instr) then 1 else 0) s.
Definition exec_XORI : ExecFunc := fun ctx instr s =>
  exec_rd RD ctx (fun i => Z.lxor (rs1_data ctx i) (imm instr)) s.
Definition exec_ORI : ExecFunc := fun ctx instr s =>
  exec_rd RD ctx (fun i => Z.lor (rs1_data ctx i) (imm instr)) s.
Definition exec_ANDI : ExecFunc := fun ctx instr s =>
  exec_rd RD ctx (fun i => Z.land (rs1_data ctx i) (imm instr)) s.
Definition exec_SLLI : ExecFunc := fun ctx instr s =>
  exec_rd RD ctx (fun i => s64 (Z.shiftl (rs1_data ctx i) (Z.land (imm instr) 0x3f))) s.
Definition exec_SRLI : ExecFunc := fun ctx instr s =>
  exec_rd RD ctx (fun i => s64 (Z.shiftr (u64 (rs1_data ctx i)) (Z.land (imm instr) 0x3f))) s.
Definition exec_SRAI : ExecFunc := fun ctx instr s =>
  exec_rd RD ctx (fun i => Z.shiftr (rs1_data ctx i) (Z.land (imm instr) 0x3f)) s.

(** ** 32-bit operations (instr_op32.cc, instr_op_imm32.cc) *)

Definition exec_ADDW : ExecFunc := fun ctx _ s =>
  exec_rd RD ctx (fun i => s32 (s32 (rs1_data ctx i) + s32 (rs2_data ctx i))) s.
Definition exec_SUBW : ExecFunc := fun ctx _ s =>
  exec_rd RD ctx (fun i => s32 (s32 (rs1_data ctx i) - s32 (rs2_data ctx i))) s.
Definition exec_SLLW : ExecFunc := fun ctx _ s =>
  exec_rd RD ctx (fun i => s32 (Z.shiftl (s32 (rs1_data ctx i)) (Z.land (rs2_data ctx i) 0x1f))) s.
Definition exec_SRLW : ExecFunc := fun ctx _ s =>
  exec_rd RD ctx (fun i => s32 (Z.shiftr (u32 (rs1_data ctx i)) (Z.land (rs2_data ctx i) 0x1f))) s.
Definition exec_SRAW : ExecFunc := fun ctx _ s =>
  exec_rd RD ctx (fun i => Z.shiftr (s32 (rs1_data ctx i)) (Z.land (rs2_data ctx i) 0x1f)) s.
Definition exec_MULW : ExecFunc := fun ctx _ s =>
  exec_rd RD_MDU ctx (fun i => s32 (s32 (rs1_data ctx i) * s32 (rs2_data ctx i))) s.
Definition INT_MIN : Z := - 2 ^ 31.
Definition exec_DIVW : ExecFunc := fun ctx _ s =>
  exec_rd RD_MDU ctx (fun i =>
    let rs1_data_w := s32 (rs1_data ctx i) in let rs2_data_w := s32 (rs2_data ctx i) in
    if rs2_data_w =? 0 then -1 else
    if (rs1_data_w =? INT_MIN) && (rs2_data_w =? -1) then rs1_data_w
    else Z.quot rs1_data_w rs2_data_w) s.
Definition exec_DIVUW : ExecFunc := fun ctx _ s =>
  exec_rd RD_MDU ctx (fun i =>
    let rs1_data_w := u32 (rs1_data ctx i) in let rs2_data_w := u32 (rs2_data ctx i) in
    if rs2_data_w =? 0 then -1 else s32 (rs1_data_w / rs2_data_w)) s.
Definition exec_REMW : ExecFunc := fun ctx _ s =>
  exec_rd RD_MDU ctx (fun i =>
    let rs1_data_w := s32 (rs1_data ctx i) in let rs2_data_w := s32 (rs2_data ctx i) in
    if rs2_data_w =? 0 then rs1_data_w else
    if (rs1_data_w =? INT_MIN) && (rs2_data_w =? -1) then 0
    else Z.rem rs1_data_w rs2_data_w) s.
Definition exec_REMUW : ExecFunc := fun ctx _ s =>
  exec_rd RD_MDU ctx (fun i =>
    let rs1_data_w := u32 (rs1_data ctx i) in let rs2_data_w := u32 (rs2_data ctx i) in
    if rs2_data_w =? 0 then s32 rs1_data_w else s32 (rs1_data_w mod rs2_data_w)) s.
Definition exec_ADDIW : ExecFunc := fun ctx instr s =>
  exec_rd RD ctx (fun i => s32 (s32 (rs1_data ctx i) + s32 (imm instr))) s.
Definition exec_SLLIW : ExecFunc := fun ctx instr s =>
  exec_rd RD ctx (fun i => s32 (Z.shiftl (s32 (rs1_data ctx i)) (Z.land (imm instr) 0x1f))) s.
Definition exec_SRLIW : ExecFunc := fun ctx instr s =>
  exec_rd RD ctx (fun i => s32 (Z.shiftr (u32 (rs1_data ctx i)) (Z.land (imm instr) 0x1f))) s.
Definition exec_SRAIW : ExecFunc := fun ctx instr s =>
  exec_rd RD ctx (fun i => Z.shiftr (s32 (rs1_data ctx i)) (Z.land (imm instr) 0x1f)) s.

(** ** Upper immediates and jumps (instr_lui.cc, instr_auipc.cc, instr_jal.cc, instr_jalr.cc) *)

Definition exec_LUI : ExecFunc := fun ctx instr s =>
  exec_rd RD ctx (fun i => imm instr) s.
Definition exec_AUIPC : ExecFunc := fun ctx instr s =>
  exec_rd RD ctx (fun i => s64 (pc ctx + imm instr)) s.

(** The loops that also collect whether a target or an address is misaligned. *)
Definition checked_lanes (ctx : ExecContext) (misaligned : nat -> bool) (f : nat -> Sinks -> Sinks) (s : Sinks)
  : bool * Sinks :=
  for_lanes ctx (fun i '(bad, s) => (bad || misaligned i, f i s)) (false, s).

Definition exec_jump (ctx : ExecContext) (target : nat -> Z) (s : Sinks) : ExecFlag * Sinks :=
  let '(bad, s) := checked_lanes ctx (fun i => negb (target i mod 4 =? 0))
    (fun i s => set_addr i (target i) (set_data i (s64 (pc ctx + 4)) s)) s in
  (if bad then ExecFlag.INSTR_ADDR_MISALIGNED else Z.lor ExecFlag.RD_DATA ExecFlag.NEXT_PC, s).
Definition exec_JAL : ExecFunc := fun ctx instr s => exec_jump ctx (fun _ => u64 (pc ctx + imm instr)) s.
Definition exec_JALR : ExecFunc := fun ctx instr s =>
  exec_jump ctx (fun i => u64 (Z.land (s64 (rs1_data ctx i + imm instr)) (Z.lnot 1))) s.

(** ** Branches (instr_branch.cc) *)

Definition ExecuteBranch (is_taken : Z -> Z -> bool) : ExecFunc := fun ctx instr s =>
  let taken i := is_taken (rs1_data ctx i) (rs2_data ctx i) in
  let next_pc i := if taken i then u64 (pc ctx + imm instr) else u64 (pc ctx + 4) in
  let '(instr_addr_misaligned, s) :=
    checked_lanes ctx (fun i => taken i && negb (next_pc i mod 4 =? 0)) (fun i => set_addr i (next_pc i)) s in
  (if instr_addr_misaligned then ExecFlag.INSTR_ADDR_MISALIGNED else ExecFlag.NEXT_PC, s).
Definition exec_BEQ : ExecFunc := ExecuteBranch (fun a b => a =? b).
Definition exec_BNE : ExecFunc := ExecuteBranch (fun a b => negb (a =? b)).
Definition exec_BLT : ExecFunc := ExecuteBranch (fun a b => a <? b).
Definition exec_BGE : ExecFunc := ExecuteBranch (fun a b => a >=? b).
Definition exec_BLTU : ExecFunc := ExecuteBranch (fun a b => u64 a <? u64 b).
Definition exec_BGEU : ExecFunc := ExecuteBranch (fun a b => u64 a >=? u64 b).

(** ** Memory accesses (instr_load.cc, instr_store.cc, instr_amo.cc) *)

Definition ExecuteLoad (width_flag signed_flag : ExecFlag) : ExecFunc := fun ctx instr s =>
  let alignment := GetMemSize width_flag in
  let addr i := u64 (rs1_data ctx i + imm instr) in
  let '(load_addr_misaligned, s) :=
    checked_lanes ctx (fun i => negb (addr i mod alignment =? 0)) (fun i => set_addr i (addr i)) s in
  (if load_addr_misaligned then Z.lor ExecFlag.LOAD_ADDR_MISALIGNED width_flag
   else Z.lor (Z.lor ExecFlag.LOAD width_flag) signed_flag, s).
Definition exec_LB : ExecFunc := ExecuteLoad ExecFlag.WIDTH_1 ExecFlag.SIGNED.
Definition exec_LH : ExecFunc := ExecuteLoad ExecFlag.WIDTH_2 ExecFlag.SIGNED.
Definition exec_LW : ExecFunc := ExecuteLoad ExecFlag.WIDTH_4 ExecFlag.SIGNED.
Definition exec_LBU : ExecFunc := ExecuteLoad ExecFlag.WIDTH_1 ExecFlag.NONE.
Definition exec_LHU : ExecFunc := ExecuteLoad ExecFlag.WIDTH_2 ExecFlag.NONE.
Definition exec_LWU : ExecFunc := ExecuteLoad ExecFlag.WIDTH_4 ExecFlag.NONE.
Definition exec_LD : ExecFunc := ExecuteLoad ExecFlag.WIDTH_8 ExecFlag.SIGNED.

Definition ExecuteStore (width_flag : ExecFlag) : ExecFunc := fun ctx instr s =>
  let alignment := GetMemSize width_flag in
  let addr i := u64 (rs1_data ctx i + imm instr) in
  let '(store_addr_misaligned, s) :=
    checked_lanes ctx (fun i => negb (addr i mod alignment =? 0))
      (fun i s => set_data i (rs2_data ctx i) (set_addr i (addr i) s)) s in
  (if store_addr_misaligned then Z.lor ExecFlag.STORE_ADDR_MISALIGNED width_flag
   else Z.lor ExecFlag.STORE width_flag, s).
Definition exec_SB : ExecFunc := ExecuteStore ExecFlag.WIDTH_1.
Definition exec_SH : ExecFunc := ExecuteStore ExecFlag.WIDTH_2.
Definition exec_SW : ExecFunc := ExecuteStore ExecFlag.WIDTH_4.
Definition exec_SD : ExecFunc := ExecuteStore ExecFlag.WIDTH_8.

Definition ExecuteAtomicInstr (op_flag width_flag : ExecFlag) : ExecFunc := fun ctx _ s =>
  let s := for_lanes ctx (fun i s => set_data i (rs2_data ctx i) (set_addr i (u64 (rs1_data ctx i)) s)) s in
  let flags := Z.lor (Z.lor ExecFlag.ATOMIC op_flag) width_flag in
  (if width_flag =? ExecFlag.WIDTH_4 then Z.lor flags ExecFlag.SIGNED else flags, s).
Definition exec_AMOSWAP_W : ExecFunc := ExecuteAtomicInstr ExecFlag.AMO_SWAP ExecFlag.WIDTH_4.
Definition exec_AMOADD_W : ExecFunc := ExecuteAtomicInstr ExecFlag.AMO_ADD ExecFlag.WIDTH_4.
Definition exec_AMOXOR_W : ExecFunc := ExecuteAtomicInstr ExecFlag.AMO_XOR ExecFlag.WIDTH_4.
Definition exec_AMOAND_W : ExecFunc := ExecuteAtomicInstr ExecFlag.AMO_AND ExecFlag.WIDTH_4.
Definition exec_AMOOR_W : ExecFunc := ExecuteAtomicInstr ExecFlag.AMO_OR ExecFlag.WIDTH_4.
Definition exec_AMOMIN_W : ExecFunc := ExecuteAtomicInstr ExecFlag.AMO_MIN ExecFlag.WIDTH_4.
Definition exec_AMOMAX_W : ExecFunc := ExecuteAtomicInstr ExecFlag.AMO_MAX ExecFlag.WIDTH_4.
Definition exec_AMOMINU_W : ExecFunc := ExecuteAtomicInstr ExecFlag.AMO_MINU ExecFlag.WIDTH_4.
Definition exec_AMOMAXU_W : ExecFunc := ExecuteAtomicInstr ExecFlag.AMO_MAXU ExecFlag.WIDTH_4.
Definition exec_AMOSWAP_D : ExecFunc := ExecuteAtomicInstr ExecFlag.AMO_SWAP ExecFlag.WIDTH_8.
Definition exec_AMOADD_D : ExecFunc := ExecuteAtomicInstr ExecFlag.AMO_ADD ExecFlag.WIDTH_8.
Definition exec_AMOXOR_D : ExecFunc := ExecuteAtomicInstr ExecFlag.AMO_XOR ExecFlag.WIDTH_8.
Definition exec_AMOAND_D : ExecFunc := ExecuteAtomicInstr ExecFlag.AMO_AND ExecFlag.WIDTH_8.
Definition exec_AMOOR_D : ExecFunc := ExecuteAtomicInstr ExecFlag.AMO_OR ExecFlag.WIDTH_8.
Definition exec_AMOMIN_D : ExecFunc := ExecuteAtomicInstr ExecFlag.AMO_MIN ExecFlag.WIDTH_8.
Definition exec_AMOMAX_D : ExecFunc := ExecuteAtomicInstr ExecFlag.AMO_MAX ExecFlag.WIDTH_8.
Definition exec_AMOMINU_D : ExecFunc := ExecuteAtomicInstr ExecFlag.AMO_MINU ExecFlag.WIDTH_8.
Definition exec_AMOMAXU_D : ExecFunc := ExecuteAtomicInstr ExecFlag.AMO_MAXU ExecFlag.WIDTH_8.
Definition exec_AMOCAS_W : ExecFunc := ExecuteAtomicInstr ExecFlag.AMO_CAS ExecFlag.WIDTH_4.
Definition exec_AMOCAS_D : ExecFunc := ExecuteAtomicInstr ExecFlag.AMO_CAS ExecFlag.WIDTH_8.

(** ** System and priority instructions (instr_system.cc, instr_formosa.cc, instr_def.h) *)

(** The CSR instructions fill the buffer of every lane, active or not. *)
Definition exec_csr (flag : ExecFlag) (f : ExecContext -> Instr -> nat -> Z) : ExecFunc := fun ctx instr s =>
  let s := for_range (fun i => set_data i (f ctx instr i)) 0 (num_lanes ctx) s in
  (Z.lor ExecFlag.CSR flag, set_csr_buf (csr instr) s).
Definition csr_reg (ctx : ExecContext) (_ : Instr) (i : nat) : Z := rs1_data ctx i.
Definition csr_uimm (_ : ExecContext) (instr : Instr) (_ : nat) : Z := uimm instr.
Definition exec_CSRRW : ExecFunc := exec_csr ExecFlag.CSRRW csr_reg.
Definition exec_CSRRS : ExecFunc := exec_csr ExecFlag.CSRRS csr_reg.
Definition exec_CSRRC : ExecFunc := exec_csr ExecFlag.CSRRC csr_reg.
Definition exec_CSRRWI : ExecFunc := exec_csr ExecFlag.CSRRW csr_uimm.
Definition exec_CSRRSI : ExecFunc := exec_csr ExecFlag.CSRRS csr_uimm.
Definition exec_CSRRCI : ExecFunc := exec_csr ExecFlag.CSRRC csr_uimm.
Definition exec_ECALL : ExecFunc := fun _ _ s => (ExecFlag.ECALL, s).

Definition exec_FSA_PRI_RESET : ExecFunc := fun _ _ s => (Z.lor ExecFlag.PRIORITY ExecFlag.PRI_RESET, s).
Definition exec_FSA_PRI_RAISE : ExecFunc := fun _ instr s =>
  (Z.lor ExecFlag.PRIORITY ExecFlag.PRI_RAISE, set_pri_buf (u8 (pri instr)) s).
Definition exec_FSA_PRI_LOWER : ExecFunc := fun _ instr s =>
  (Z.lor ExecFlag.PRIORITY ExecFlag.PRI_LOWER, set_pri_buf (u8 (pri instr)) s).
Definition exec_FSA_BAR : ExecFunc := fun _ _ s => (ExecFlag.BARRIER, s).

Definition exec_Illegal : ExecFunc := fun _ _ s => (ExecFlag.ILLEGAL, s).
Definition exec_FENCE : ExecFunc := fun _ _ s => (ExecFlag.FENCE, s).

(** ** SoftFloat and the floating-point types (softfloat_util.h) *)

Inductive float := float32_t | float64_t.

(** The functions of SoftFloat the instructions call, by operand type: rounding mode
    and operands to a result and the flags raised. *)
Record SoftFloat := mkSoftFloat {
  sf_add : float -> Z -> Z -> Z -> Z * Z;
  sf_sub : float -> Z -> Z -> Z -> Z * Z;
  sf_mul : float -> Z -> Z -> Z -> Z * Z;
  sf_div : float -> Z -> Z -> Z -> Z * Z;
  sf_mulAdd : float -> Z -> Z -> Z -> Z -> Z * Z;
  sf_sqrt : float -> Z -> Z -> Z * Z;
  sf_eq : float -> Z -> Z -> bool * Z;
  sf_lt : float -> Z -> Z -> bool * Z;
  sf_le : float -> Z -> Z -> bool * Z;
  sf_lt_quiet : float -> Z -> Z -> bool * Z;
  i32_to : float -> Z -> Z -> Z * Z;
  ui32_to : float -> Z -> Z -> Z * Z;
  i64_to : float -> Z -> Z -> Z * Z;
  ui64_to : float -> Z -> Z -> Z * Z;
  to_i32 : float -> Z -> Z -> Z * Z;       (* with [exact] set, as all the calls have it *)
  to_ui32 : float -> Z -> Z -> Z * Z;
  to_i64 : float -> Z -> Z -> Z * Z;
  to_ui64 : float -> Z -> Z -> Z * Z;
  f32_to_f64 : Z -> Z -> Z * Z;
  f64_to_f32 : Z -> Z -> Z * Z;
  softfloat_flag_invalid : Z;
}.

Module fp_traits.
Definition bits_t (t : float) (x : Z) : Z := match t with float32_t => u32 x | float64_t => u64 x end.
Definition sign_mask (t : float) : Z :=
  match t with float32_t => 0x80000000 | float64_t => 0x8000000000000000 end.
Definition default_nan (t : float) : Z :=
  match t with float32_t => 0x7FC00000 | float64_t => 0x7FF8000000000000 end.
Definition is_nan (t : float) (a : Z) : bool :=
  match t with
  | float32_t => (Z.land (Z.lnot a) 0x7F800000 =? 0) && negb (Z.land a 0x007FFFFF =? 0)
  | float64_t => (Z.land (Z.lnot a) 0x7FF0000000000000 =? 0) && negb (Z.land a 0x000FFFFFFFFFFFFF =? 0)
  end.
Definition is_snan (t : float) (a : Z) : bool :=
  match t with
  | float32_t => (Z.land a 0x7FC00000 =? 0x7F800000) && negb (Z.land a 0x003FFFFF =? 0)
  | float64_t => (Z.land a 0x7FF8000000000000 =? 0x7FF0000000000000) && negb (Z.land a 0x0007FFFFFFFFFFFF =? 0)
  end.
Definition frac (t : float) (a : Z) : Z :=
  match t with float32_t => Z.land a 0x007FFFFF | float64_t => Z.land a 0x000FFFFFFFFFFFFF end.
Definition exp (t : float) (a : Z) : Z :=
  match t with float32_t => Z.land (Z.shiftr a 23) 0xFF | float64_t => Z.land (Z.shiftr a 52) 0x7FF end.
Definition sign (t : float) (a : Z) : bool :=
  match t with float32_t => negb (Z.shiftr a 31 =? 0) | float64_t => negb (Z.shiftr a 63 =? 0) end.
End fp_traits.
Import fp_traits.

Definition unbox (t : float) (val : Z) : Z := bits_t t val.
Definition box (t : float) (v : Z) : Z := match t with float32_t => s32 v | float64_t => s64 v end.

Section fp.
Context (sf : SoftFloat).

Definition RD_FP : ExecFlag := Z.lor (Z.lor ExecFlag.RD_DATA ExecFlag.FP_EXC) ExecFlag.FPU.
Definition rounding (ctx : ExecContext) (instr : Instr) (i : nat) : Z :=
  if rm instr =? 7 then dynamic_rm ctx i else rm instr.

(** An instruction whose lanes give data and exception flags. *)
Definition exec_fp (ctx : ExecContext) (f : nat -> Z * Z) (s : Sinks) : ExecFlag * Sinks :=
  (RD_FP, for_lanes ctx (fun i s => set_fflags i (u8 (snd (f i))) (set_data i (fst (f i)) s)) s).

(** ** Floating-point instructions (instr_op_fp.cc) *)

Definition ExecuteFpBinaryOp (t : float) (op : Z -> Z -> Z -> Z * Z) : ExecFunc := fun ctx instr s =>
  exec_fp ctx (fun i =>
    let '(res, flags) := op (rounding ctx instr i) (unbox t (rs1_data ctx i)) (unbox t (rs2_data ctx i)) in
    (box t res, flags)) s.
Definition ExecuteFpUnaryOp (dest src : float) (op : Z -> Z -> Z * Z) : ExecFunc := fun ctx instr s =>
  exec_fp ctx (fun i =>
    let '(res, flags) := op (rounding ctx instr i) (unbox src (rs1_data ctx i)) in (box dest res, flags)) s.

Definition exec_FADD_S : ExecFunc := ExecuteFpBinaryOp float32_t (sf_add sf float32_t).
Definition exec_FADD_D : ExecFunc := ExecuteFpBinaryOp float64_t (sf_add sf float64_t).
Definition exec_FSUB_S : ExecFunc := ExecuteFpBinaryOp float32_t (sf_sub sf float32_t).
Definition exec_FSUB_D : ExecFunc := ExecuteFpBinaryOp float64_t (sf_sub sf float64_t).
Definition exec_FMUL_S : ExecFunc := ExecuteFpBinaryOp float32_t (sf_mul sf float32_t).
Definition exec_FMUL_D : ExecFunc := ExecuteFpBinaryOp float64_t (sf_mul sf float64_t).
Definition exec_FDIV_S : ExecFunc := ExecuteFpBinaryOp float32_t (sf_div sf float32_t).
Definition exec_FDIV_D : ExecFunc := ExecuteFpBinaryOp float64_t (sf_div sf float64_t).
Definition exec_FSQRT_S : ExecFunc := ExecuteFpUnaryOp float32_t float32_t (sf_sqrt sf float32_t).
Definition exec_FSQRT_D : ExecFunc := ExecuteFpUnaryOp float64_t float64_t (sf_sqrt sf float64_t).

Inductive SgnjOp := J | JN | JX.
Definition ExecuteFsgnj (t : float) (op : SgnjOp) : ExecFunc := fun ctx _ s =>
  exec_rd (Z.lor ExecFlag.RD_DATA ExecFlag.FPU) ctx (fun i =>
    let rs1 := bits_t t (rs1_data ctx i) in
    let rs2 := bits_t t (rs2_data ctx i) in
    let sgn := match op with
               | J => Z.land rs2 (sign_mask t)
               | JN => Z.land (Z.lnot rs2) (sign_mask t)
               | JX => Z.land (Z.lxor rs1 rs2) (sign_mask t)
               end in
    box t (Z.lor sgn (Z.land rs1 (Z.lnot (sign_mask t))))) s.
Definition exec_FSGNJ_S : ExecFunc := ExecuteFsgnj float32_t J.
Definition exec_FSGNJN_S : ExecFunc := ExecuteFsgnj float32_t JN.
Definition exec_FSGNJX_S : ExecFunc := ExecuteFsgnj float32_t JX.
Definition exec_FSGNJ_D : ExecFunc := ExecuteFsgnj float64_t J.
Definition exec_FSGNJN_D : ExecFunc := ExecuteFsgnj float64_t JN.
Definition exec_FSGNJX_D : ExecFunc := ExecuteFsgnj float64_t JX.

Definition ExecuteFminmax (t : float) (IsMax : bool) : ExecFunc := fun ctx instr s =>
  exec_fp ctx (fun i =>
    let a_bits := bits_t t (rs1_data ctx i) in
    let b_bits := bits_t t (rs2_data ctx i) in
    let '(lt, flags) := sf_lt_quiet sf t a_bits b_bits in
    let '(less, flags) :=
      if lt then (true, flags)
      else let '(eq, f) := sf_eq sf t a_bits b_bits in
           (eq && negb (Z.land a_bits (sign_mask t) =? 0), Z.lor flags f) in
    let flags := if is_snan t a_bits || is_snan t b_bits then Z.lor flags (softfloat_flag_invalid sf) else flags in
    let res_bits :=
      if is_nan t a_bits && is_nan t b_bits then default_nan t
      else if is_nan t a_bits then b_bits
      else if is_nan t b_bits then a_bits
      else let use_a := if IsMax then negb less else less in if use_a then a_bits else b_bits in
    (box t res_bits, flags)) s.
Definition exec_FMIN_S : ExecFunc := ExecuteFminmax float32_t false.
Definition exec_FMAX_S : ExecFunc := ExecuteFminmax float32_t true.
Definition exec_FMIN_D : ExecFunc := ExecuteFminmax float64_t false.
Definition exec_FMAX_D : ExecFunc := ExecuteFminmax float64_t true.

Definition ExecuteFcmp (t : float) (op : Z -> Z -> bool * Z) : ExecFunc := fun ctx _ s =>
  exec_fp ctx (fun i =>
    let '(res, flags) := op (unbox t (rs1_data ctx i)) (unbox t (rs2_data ctx i)) in
    (if (res : bool) then 1 else 0, flags)) s.
Definition exec_FEQ_S : ExecFunc := ExecuteFcmp float32_t (sf_eq sf float32_t).
Definition exec_FLT_S : ExecFunc := ExecuteFcmp float32_t (sf_lt sf float32_t).
Definition exec_FLE_S : ExecFunc := ExecuteFcmp float32_t (sf_le sf float32_t).
Definition exec_FEQ_D : ExecFunc := ExecuteFcmp float64_t (sf_eq sf float64_t).
Definition exec_FLT_D : ExecFunc := ExecuteFcmp float64_t (sf_lt sf float64_t).
Definition exec_FLE_D : ExecFunc := ExecuteFcmp float64_t (sf_le sf float64_t).

(** Integer to floating point; [cast] is the integer type. *)
Definition ExecuteFcvtFX (t : float) (cast : Z -> Z) (op : Z -> Z -> Z * Z) : ExecFunc := fun ctx instr s =>
  exec_fp ctx (fun i =>
    let '(res, flags) := op (rounding ctx instr i) (cast (rs1_data ctx i)) in (box t res, flags)) s.
Definition exec_FCVT_S_W : ExecFunc := ExecuteFcvtFX float32_t s32 (i32_to sf float32_t).
Definition exec_FCVT_S_WU : ExecFunc := ExecuteFcvtFX float32_t u32 (ui32_to sf float32_t).
Definition exec_FCVT_S_L : ExecFunc := ExecuteFcvtFX float32_t s64 (i64_to sf float32_t).
Definition exec_FCVT_S_LU : ExecFunc := ExecuteFcvtFX float32_t u64 (ui64_to sf float32_t).
Definition exec_FCVT_D_W : ExecFunc := ExecuteFcvtFX float64_t s32 (i32_to sf float64_t).
Definition exec_FCVT_D_WU : ExecFunc := ExecuteFcvtFX float64_t u32 (ui32_to sf float64_t).
Definition exec_FCVT_D_L : ExecFunc := ExecuteFcvtFX float64_t s64 (i64_to sf float64_t).
Definition exec_FCVT_D_LU : ExecFunc := ExecuteFcvtFX float64_t u64 (ui64_to sf float64_t).

Definition SignExtendWord (bits : Z) : Z :=
  if negb (Z.land bits (Z.shiftl 1 31) =? 0) then bits - Z.shiftl 1 32 else bits.
(** [word] when the integer type has 32 bits. *)
Definition extend_int_result (word : bool) (val : Z) : Z := if word then SignExtendWord (u32 val) else s64 val.
Definition ExecuteFcvtXF (t : float) (word : bool) (cast : Z -> Z) (op : Z -> Z -> Z * Z) : ExecFunc :=
  fun ctx instr s =>
  exec_fp ctx (fun i =>
    let '(res, flags) := op (rounding ctx instr i) (unbox t (rs1_data ctx i)) in
    (extend_int_result word (cast res), flags)) s.
Definition exec_FCVT_W_S : ExecFunc := ExecuteFcvtXF float32_t true s32 (to_i32 sf float32_t).
Definition exec_FCVT_WU_S : ExecFunc := ExecuteFcvtXF float32_t true u32 (to_ui32 sf float32_t).
Definition exec_FCVT_L_S : ExecFunc := ExecuteFcvtXF float32_t false s64 (to_i64 sf float32_t).
Definition exec_FCVT_LU_S : ExecFunc := ExecuteFcvtXF float32_t false u64 (to_ui64 sf float32_t).
Definition exec_FCVT_W_D : ExecFunc := ExecuteFcvtXF float64_t true s32 (to_i32 sf float64_t).
Definition exec_FCVT_WU_D : ExecFunc := ExecuteFcvtXF float64_t true u32 (to_ui32 sf float64_t).
Definition exec_FCVT_L_D : ExecFunc := ExecuteFcvtXF float64_t false s64 (to_i64 sf float64_t).
Definition exec_FCVT_LU_D : ExecFunc := ExecuteFcvtXF float64_t false u64 (to_ui64 sf float64_t).

Definition exec_FCVT_S_D : ExecFunc := ExecuteFpUnaryOp float32_t float64_t (f64_to_f32 sf).
Definition exec_FCVT_D_S : ExecFunc := ExecuteFpUnaryOp float64_t float32_t (f32_to_f64 sf).

Definition fclass (t : float) (a : Z) : Z :=
  let inf_or_nan := exp t a =? match t with float32_t => 0xFF | float64_t => 0x7FF end in
  let subnorm_or_zero := exp t a =? 0 in
  let sgn := sign t a in
  let frac_zero := frac t a =? 0 in
  let nan := is_nan t a in
  let snan := is_snan t a in
  let bit (b : bool) (k : Z) := Z.shiftl (Z.b2z b) k in
  fold_left Z.lor
    [bit (sgn && inf_or_nan && frac_zero) 0;
     bit (sgn && negb inf_or_nan && negb subnorm_or_zero) 1;
     bit (sgn && subnorm_or_zero && negb frac_zero) 2;
     bit (sgn && subnorm_or_zero && frac_zero) 3;
     bit (negb sgn && inf_or_nan && frac_zero) 7;
     bit (negb sgn && negb inf_or_nan && negb subnorm_or_zero) 6;
     bit (negb sgn && subnorm_or_zero && negb frac_zero) 5;
     bit (negb sgn && subnorm_or_zero && frac_zero) 4;
     bit (nan && snan) 8;
     bit (nan && negb snan) 9] 0.
Definition ExecuteFclass (t : float) : ExecFunc := fun ctx _ s =>
  exec_rd (Z.lor ExecFlag.RD_DATA ExecFlag.FPU) ctx (fun i => fclass t (bits_t t (rs1_data ctx i))) s.
Definition exec_FCLASS_S : ExecFunc := ExecuteFclass float32_t.
Definition exec_FCLASS_D : ExecFunc := ExecuteFclass float64_t.

(** ** Fused multiply-add (instr_op_fused.cc) *)

Definition ExecuteFpFused (t : float) (NegRS1 NegRS3 : bool) : ExecFunc := fun ctx instr s =>
  exec_fp ctx (fun i =>
    let s1_bits := bits_t t (rs1_data ctx i) in
    let s2_bits := bits_t t (rs2_data ctx i) in
    let s3_bits := bits_t t (rs3_data ctx i) in
    let s1_bits := if NegRS1 then Z.lxor s1_bits (sign_mask t) else s1_bits in
    let s3_bits := if NegRS3 then Z.lxor s3_bits (sign_mask t) else s3_bits in
    let '(res, flags) := sf_mulAdd sf t (rounding ctx instr i) s1_bits s2_bits s3_bits in
    (box t res, flags)) s.
Definition exec_FMADD_S : ExecFunc := ExecuteFpFused float32_t false false.
Definition exec_FMADD_D : ExecFunc := ExecuteFpFused float64_t false false.
Definition exec_FMSUB_S : ExecFunc := ExecuteFpFused float32_t false true.
Definition exec_FMSUB_D : ExecFunc := ExecuteFpFused float64_t false true.
Definition exec_FNMSUB_S : ExecFunc := ExecuteFpFused float32_t true false.
Definition exec_FNMSUB_D : ExecFunc := ExecuteFpFused float64_t true false.
Definition exec_FNMADD_S : ExecFunc := ExecuteFpFused float32_t true true.
Definition exec_FNMADD_D : ExecFunc := ExecuteFpFused float64_t true true.

(** ** [Instr::exec_] *)

Definition exec_of (d : InstrDef) : ExecFunc :=
  match d with
  | ADD => exec_ADD | SUB => exec_SUB | SLL => exec_SLL | SLT => exec_SLT | SLTU => exec_SLTU | XOR =>
  exec_XOR | SRL => exec_SRL | SRA => exec_SRA | OR => exec_OR | AND => exec_AND | MUL => exec_MUL |
  MULH => exec_MULH | MULHSU => exec_MULHSU | MULHU => exec_MULHU | DIV => exec_DIV | DIVU => exec_DIVU
  | REM => exec_REM | REMU => exec_REMU | CZERO_EQZ => exec_CZERO_EQZ | CZERO_NEZ => exec_CZERO_NEZ |
  ADDI => exec_ADDI | SLTI => exec_SLTI | SLTIU => exec_SLTIU | XORI => exec_XORI | ORI => exec_ORI |
  ANDI => exec_ANDI | SLLI => exec_SLLI | SRLI => exec_SRLI | SRAI => exec_SRAI | ADDW => exec_ADDW |
  SUBW => exec_SUBW | SLLW => exec_SLLW | SRLW => exec_SRLW | SRAW => exec_SRAW | MULW => exec_MULW |
  DIVW => exec_DIVW | DIVUW => exec_DIVUW | REMW => exec_REMW | REMUW => exec_REMUW | ADDIW =>
  exec_ADDIW | SLLIW => exec_SLLIW | SRLIW => exec_SRLIW | SRAIW => exec_SRAIW | BEQ => exec_BEQ | BNE
  => exec_BNE | BLT => exec_BLT | BGE => exec_BGE | BLTU => exec_BLTU | BGEU => exec_BGEU | LUI =>
  exec_LUI | AUIPC => exec_AUIPC | JAL => exec_JAL | JALR => exec_JALR | LB => exec_LB | LH => exec_LH |
  LW => exec_LW | LBU => exec_LBU | LHU => exec_LHU | LWU => exec_LWU | LD => exec_LD | AMOSWAP_W =>
  exec_AMOSWAP_W | AMOADD_W => exec_AMOADD_W | AMOXOR_W => exec_AMOXOR_W | AMOAND_W => exec_AMOAND_W |
  AMOOR_W => exec_AMOOR_W | AMOMIN_W => exec_AMOMIN_W | AMOMAX_W => exec_AMOMAX_W | AMOMINU_W =>
  exec_AMOMINU_W | AMOMAXU_W => exec_AMOMAXU_W | AMOSWAP_D => exec_AMOSWAP_D | AMOADD_D => exec_AMOADD_D
  | AMOXOR_D => exec_AMOXOR_D | AMOAND_D => exec_AMOAND_D | AMOOR_D => exec_AMOOR_D | AMOMIN_D =>
  exec_AMOMIN_D | AMOMAX_D => exec_AMOMAX_D | AMOMINU_D => exec_AMOMINU_D | AMOMAXU_D => exec_AMOMAXU_D
  | SB => exec_SB | SH => exec_SH | SW => exec_SW | SD => exec_SD | CSRRW => exec_CSRRW | CSRRS =>
  exec_CSRRS | CSRRC => exec_CSRRC | CSRRWI => exec_CSRRWI | CSRRSI => exec_CSRRSI | CSRRCI =>
  exec_CSRRCI | ECALL => exec_ECALL | AMOCAS_W => exec_AMOCAS_W | AMOCAS_D => exec_AMOCAS_D |
  FSA_PRI_RESET => exec_FSA_PRI_RESET | FSA_PRI_RAISE => exec_FSA_PRI_RAISE | FSA_PRI_LOWER =>
  exec_FSA_PRI_LOWER | FSA_BAR => exec_FSA_BAR | FADD_S => exec_FADD_S | FADD_D => exec_FADD_D | FSUB_S
  => exec_FSUB_S | FSUB_D => exec_FSUB_D | FMUL_S => exec_FMUL_S | FMUL_D => exec_FMUL_D | FDIV_S =>
  exec_FDIV_S | FDIV_D => exec_FDIV_D | FSQRT_S => exec_FSQRT_S | FSQRT_D => exec_FSQRT_D | FSGNJ_S =>
  exec_FSGNJ_S | FSGNJN_S => exec_FSGNJN_S | FSGNJX_S => exec_FSGNJX_S | FSGNJ_D => exec_FSGNJ_D |
  FSGNJN_D => exec_FSGNJN_D | FSGNJX_D => exec_FSGNJX_D | FMIN_S => exec_FMIN_S | FMAX_S => exec_FMAX_S
  | FMIN_D => exec_FMIN_D | FMAX_D => exec_FMAX_D | FCVT_W_S => exec_FCVT_W_S | FCVT_WU_S =>
  exec_FCVT_WU_S | FCVT_L_S => exec_FCVT_L_S | FCVT_LU_S => exec_FCVT_LU_S | FCVT_S_W => exec_FCVT_S_W |
  FCVT_S_WU => exec_FCVT_S_WU | FCVT_S_L => exec_FCVT_S_L | FCVT_S_LU => exec_FCVT_S_LU | FEQ_S =>
  exec_FEQ_S | FLT_S => exec_FLT_S | FLE_S => exec_FLE_S | FEQ_D => exec_FEQ_D | FLT_D => exec_FLT_D |
  FLE_D => exec_FLE_D | FCLASS_S => exec_FCLASS_S | FCLASS_D => exec_FCLASS_D | FCVT_W_D =>
  exec_FCVT_W_D | FCVT_WU_D => exec_FCVT_WU_D | FCVT_L_D => exec_FCVT_L_D | FCVT_LU_D => exec_FCVT_LU_D
  | FCVT_D_W => exec_FCVT_D_W | FCVT_D_WU => exec_FCVT_D_WU | FCVT_D_L => exec_FCVT_D_L | FCVT_D_LU =>
  exec_FCVT_D_LU | FCVT_S_D => exec_FCVT_S_D | FCVT_D_S => exec_FCVT_D_S | FMADD_S => exec_FMADD_S |
  FMADD_D => exec_FMADD_D | FMSUB_S => exec_FMSUB_S | FMSUB_D => exec_FMSUB_D | FNMSUB_S =>
  exec_FNMSUB_S | FNMSUB_D => exec_FNMSUB_D | FNMADD_S => exec_FNMADD_S | FNMADD_D => exec_FNMADD_D |
  FENCE => exec_FENCE | Illegal => exec_Illegal
  end.
Definition Execute (ctx : ExecContext) (instr : Instr) (s : Sinks) : ExecFlag * Sinks :=
  exec_of (def instr) ctx instr s.

End fp.
