(* ===== verification/SmSched.v ===== *)
(** * Warp schedulers of the SM simulator (simtix/src/cores/sched)

    A scheduler picks one of the ready warps. [WarpSched] is the interface of the
    cores to the three implementations, with the law the cores rely on: while the
    scheduler is in good order, what it returns is a ready warp. The index of
    [sched_ok] counts selections, since the clock of [Gto] is a 64-bit counter. *)

From S2P Require Import Prelude.

(** ** The interface (sched.h) *)

Class WarpSched (S : Type) := SelectWarp : S -> Z -> S * Z.

Class SchedLaws (num_warps : nat) (S : Type) `{WarpSched S} (sched_ok : nat -> S -> Prop) := {
  sched_ok_mono : forall n m s, (m <= n)%nat -> sched_ok n s -> sched_ok m s;
  sched_select : forall n s ready, sched_ok (Datatypes.S n) s ->
    (exists w, (w < num_warps)%nat /\ Z.testbit ready (Z.of_nat w) = true) ->
    exists w, snd (SelectWarp s ready) = Z.of_nat w /\ (w < num_warps)%nat /\
      Z.testbit ready (Z.of_nat w) = true /\ sched_ok n (fst (SelectWarp s ready));
}.

(** The value [-1] of the functions that return [uint32_t]. *)
Definition kNoWarp : Z := u32 (-1).

(** ** Loose round robin (lrr.h, lrr.cc) *)

Record Lrr := mkLrr { lrr_num_warps_ : nat; prioritized_ : Z }.
Definition Lrr_init (num_warps : nat) : Lrr := mkLrr num_warps 0.

Definition Lrr_SelectWarp : WarpSched Lrr := fun s ready_warps =>
  let n := Z.of_nat (lrr_num_warps_ s) in
  let wid i := u32 (prioritized_ s + Z.of_nat i) mod n in
  match find_first (fun i => Z.testbit ready_warps (wid i)) (lrr_num_warps_ s) with
  | Some i => (mkLrr (lrr_num_warps_ s) (u32 (wid i + 1) mod n), wid i)
  | None => (s, kNoWarp)
  end.
#[export] Existing Instance Lrr_SelectWarp.

(** ** Greedy, then oldest (gto.h, gto.cc) *)

Record Gto := mkGto {
  gto_num_warps_ : nat;
  last_selected_ : Z;           (* int32_t, -1 for none *)
  current_time_ : Z;            (* uint64_t *)
  last_scheduled_time_ : list Z;
}.
Definition Gto_init (num_warps : nat) : Gto := mkGto num_warps (-1) 0 (replicate num_warps 0).

(** The warp is selected now. *)
Definition gto_stamp (w : nat) (s : Gto) : Gto :=
  let now := u64 (current_time_ s + 1) in
  mkGto (gto_num_warps_ s) (last_selected_ s) now (<[w := now]> (last_scheduled_time_ s)).
Definition set_last_selected (w : Z) (s : Gto) : Gto :=
  mkGto (gto_num_warps_ s) w (current_time_ s) (last_scheduled_time_ s).

(** [oldest_ready] and [oldest_time] after the warps below [n]. *)
Definition gto_oldest (ready_warps : Z) (times : list Z) (n : nat) : Z * Z :=
  for_range (fun i '(ready, time) =>
    if Z.testbit ready_warps (Z.of_nat i) && (nth i times 0 <? time) then (Z.of_nat i, nth i times 0)
    else (ready, time)) 0 n (kNoWarp, UINT64_MAX).

Definition Gto_SelectWarp : WarpSched Gto := fun s ready_warps =>
  if negb (last_selected_ s =? -1) && Z.testbit ready_warps (last_selected_ s)
  then (gto_stamp (Z.to_nat (last_selected_ s)) s, u32 (last_selected_ s))
  else
    let '(oldest_ready, _) := gto_oldest ready_warps (last_scheduled_time_ s) (gto_num_warps_ s) in
    if negb (oldest_ready =? kNoWarp)
    then (gto_stamp (Z.to_nat oldest_ready) (set_last_selected (swrap 32 oldest_ready) s), oldest_ready)
    else (s, kNoWarp).
#[export] Existing Instance Gto_SelectWarp.

(** ** Two-level (two_level.h, two_level.cc) *)

Record TwoLevel := mkTwoLevel {
  tl_num_warps_ : Z;
  group_size_ : Z;
  num_groups_ : Z;
  active_group_ : Z;
  timeout_ : Z;
  active_group_issues_ : Z;
  prioritized_warp_ : list Z;
}.
Definition TwoLevel_init (num_warps group_size timeout : Z) : TwoLevel :=
  let gs := Z.max 1 group_size in
  let ng := u32 (num_warps + gs - 1) / gs in
  mkTwoLevel num_warps gs ng 0 (Z.max 1 timeout) 0 (replicate (Z.to_nat ng) 0).

Definition set_active (g issues : Z) (s : TwoLevel) : TwoLevel :=
  mkTwoLevel (tl_num_warps_ s) (group_size_ s) (num_groups_ s) g (timeout_ s) issues (prioritized_warp_ s).
Definition set_prioritized (g : Z) (v : Z) (s : TwoLevel) : TwoLevel :=
  mkTwoLevel (tl_num_warps_ s) (group_size_ s) (num_groups_ s) (active_group_ s) (timeout_ s)
    (active_group_issues_ s) (<[Z.to_nat g := v]> (prioritized_warp_ s)).

Definition group_start (s : TwoLevel) (group : Z) : Z := u32 (group * group_size_ s).
Definition group_end (s : TwoLevel) (group : Z) : Z :=
  Z.min (u32 (group_start s group + group_size_ s)) (tl_num_warps_ s).

Definition GroupHasReadyWarp (s : TwoLevel) (ready_warps group : Z) : bool :=
  let start := group_start s group in
  match find_first (fun i => Z.testbit ready_warps (start + Z.of_nat i)) (Z.to_nat (group_end s group - start)) with
  | Some _ => true
  | None => false
  end.

Definition SelectReadyWarpInGroup (s : TwoLevel) (ready_warps group : Z) : TwoLevel * Z :=
  let start := group_start s group in
  let group_warps := u32 (group_end s group - start) in
  let offset i := u32 (nth (Z.to_nat group) (prioritized_warp_ s) 0 + Z.of_nat i) mod group_warps in
  match find_first (fun i => Z.testbit ready_warps (u32 (start + offset i))) (Z.to_nat group_warps) with
  | Some i => (set_prioritized group (u32 (offset i + 1) mod group_warps) s, u32 (start + offset i))
  | None => (s, kNoWarp)
  end.

Definition RotateActiveGroup (s : TwoLevel) : TwoLevel :=
  set_active (u32 (active_group_ s + 1) mod num_groups_ s) 0 s.

(** [for (g = 1; g <= n; ++g) { RotateActiveGroup(); if (ready) break; }] *)
Fixpoint rotate_to_ready (n : nat) (ready_warps : Z) (s : TwoLevel) : TwoLevel :=
  match n with
  | O => s
  | S n' =>
      let s := RotateActiveGroup s in
      if GroupHasReadyWarp s ready_warps (active_group_ s) then s else rotate_to_ready n' ready_warps s
  end.

Definition TwoLevel_SelectWarp : WarpSched TwoLevel := fun s ready_warps =>
  let s :=
    if GroupHasReadyWarp s ready_warps (active_group_ s) then
      if timeout_ s <=? active_group_issues_ s then
        let next_group i := u32 (active_group_ s + Z.of_nat (S i)) mod num_groups_ s in
        match find_first (fun i => GroupHasReadyWarp s ready_warps (next_group i)) (Z.to_nat (num_groups_ s) - 1) with
        | Some i => set_active (next_group i) 0 s
        | None => s
        end
      else s
    else rotate_to_ready (Z.to_nat (num_groups_ s)) ready_warps s in
  let '(s, selected) := SelectReadyWarpInGroup s ready_warps (active_group_ s) in
  (set_active (active_group_ s) (u32 (active_group_issues_ s + 1)) s, selected).
#[export] Existing Instance TwoLevel_SelectWarp.

(** ** The law of the interface *)

Section laws.
Context (n : nat) (Hn : (0 < n)%nat) (Hmax : Z.of_nat n < 2 ^ 31).

(** A walk round [m] places from [p] reaches every place. *)
Lemma round_reaches (m p w : Z) : 0 <= p < m -> 0 <= w < m -> m < 2 ^ 31 ->
  exists i, (i < Z.to_nat m)%nat /\ u32 (p + Z.of_nat i) mod m = w.
Proof.
  intros Hp Hw Hm. exists (Z.to_nat ((w - p) mod m)).
  pose proof (Z.mod_pos_bound (w - p) m ltac:(lia)) as B. split; [lia|].
  rewrite Z2Nat.id by lia. rewrite wrap_small by lia.
  rewrite Z.add_mod_idemp_r by lia. replace (p + (w - p)) with w by lia. by apply Z.mod_small.
Qed.

Lemma find_first_reached (p : nat -> bool) m i : (i < m)%nat -> p i = true -> exists k, find_first p m = Some k.
Proof.
  intros Hi Hp. destruct (find_first p m) eqn:E; [eauto|].
  rewrite find_first_None in E. by rewrite E in Hp.
Qed.

Definition Lrr_ok (_ : nat) (s : Lrr) : Prop := lrr_num_warps_ s = n /\ 0 <= prioritized_ s < Z.of_nat n.
#[export] Instance Lrr_laws : SchedLaws n Lrr Lrr_ok.
Proof.
  split; [by intros|]. intros k s ready [En Hp] (w & Hw & Hr). unfold SelectWarp, Lrr_SelectWarp. rewrite En.
  destruct (round_reaches (Z.of_nat n) (prioritized_ s) (Z.of_nat w)) as (i & Hi & Ei); [lia..|].
  rewrite Nat2Z.id in Hi.
  destruct (find_first_reached (fun i => Z.testbit ready (u32 (prioritized_ s + Z.of_nat i) mod Z.of_nat n)) n i)
    as [j Ej]; [done|by rewrite Ei|].
  rewrite Ej. apply find_first_Some in Ej as (Hj & Hb & _). simpl.
  set (x := u32 (prioritized_ s + Z.of_nat j) mod Z.of_nat n) in *.
  assert (Hx : 0 <= x < Z.of_nat n) by (apply Z.mod_pos_bound; lia).
  exists (Z.to_nat x). rewrite !Z2Nat.id by lia. split_and!; [done|lia|done|].
  split; simpl; [done|]. apply Z.mod_pos_bound. lia.
Qed.
Lemma Lrr_init_ok k : Lrr_ok k (Lrr_init n).
Proof. split; simpl; lia. Qed.

Record Gto_ok (k : nat) (s : Gto) : Prop := {
  go_num : gto_num_warps_ s = n;
  go_last : last_selected_ s = -1 \/ 0 <= last_selected_ s < Z.of_nat n;
  go_time : 0 <= current_time_ s /\ current_time_ s + Z.of_nat k < UINT64_MAX;
  go_length : length (last_scheduled_time_ s) = n;
  go_times : Forall (fun t => 0 <= t <= current_time_ s) (last_scheduled_time_ s);
}.

Lemma gto_oldest_spec ready times m : Z.of_nat m < 2 ^ 31 ->
  let r := gto_oldest ready times m in
  (r = (kNoWarp, UINT64_MAX) /\
   forall i, (i < m)%nat -> Z.testbit ready (Z.of_nat i) = true -> UINT64_MAX <= nth i times 0) \/
  exists w, (w < m)%nat /\ r = (Z.of_nat w, nth w times 0) /\ Z.testbit ready (Z.of_nat w) = true /\
    nth w times 0 < UINT64_MAX /\
    forall i, (i < m)%nat -> Z.testbit ready (Z.of_nat i) = true -> nth w times 0 <= nth i times 0.
Proof.
  intros Hm. unfold gto_oldest. cbv zeta.
  apply (for_range_ind (fun m r =>
    (r = (kNoWarp, UINT64_MAX) /\ forall i, (i < m)%nat -> Z.testbit ready (Z.of_nat i) = true -> UINT64_MAX <= nth i times 0) \/
    exists w, (w < m)%nat /\ r = (Z.of_nat w, nth w times 0) /\ Z.testbit ready (Z.of_nat w) = true /\
      nth w times 0 < UINT64_MAX /\
      forall i, (i < m)%nat -> Z.testbit ready (Z.of_nat i) = true -> nth w times 0 <= nth i times 0)).
  - left. split; [done|]. intros; lia.
  - intros j [r t] Hj Hr.
    destruct (Z.testbit ready (Z.of_nat j) && (nth j times 0 <? t)) eqn:E.
    + apply andb_true_iff in E as [Eb Et]. apply Z.ltb_lt in Et. right. exists j.
      destruct Hr as [[[= -> ->] H]|(w & Hw & [= -> ->] & Hb & Hlt & H)].
      * split_and!; [lia|done|done|lia|]. intros i Hi Hbi.
        destruct (decide (i = j)) as [->|]; [lia|]. specialize (H i ltac:(lia) Hbi). lia.
      * split_and!; [lia|done|done|lia|]. intros i Hi Hbi.
        destruct (decide (i = j)) as [->|]; [lia|]. specialize (H i ltac:(lia) Hbi). lia.
    + destruct Hr as [[[= -> ->] H]|(w & Hw & [= -> ->] & Hb & Hlt & H)].
      * left. split; [done|]. intros i Hi Hbi. destruct (decide (i = j)) as [->|]; [|apply H; [lia|done]].
        rewrite Hbi in E. apply Z.ltb_ge in E. lia.
      * right. exists w. split_and!; [lia|done|done|done|]. intros i Hi Hbi.
        destruct (decide (i = j)) as [->|]; [|apply H; [lia|done]]. rewrite Hbi in E. apply Z.ltb_ge in E. lia.
Qed.

Lemma gto_stamp_ok k s w : Gto_ok (S k) s -> (w < n)%nat -> Gto_ok k (gto_stamp w s).
Proof.
  intros [En Hl [Hc Ht] Hle Hf] Hw. unfold gto_stamp.
  rewrite (wrap_small 64 (current_time_ s + 1)) by (unfold UINT64_MAX in Ht; lia).
  split; simpl; [done|done|lia|by rewrite length_insert|].
  apply Forall_insert; [|lia]. eapply Forall_impl; [exact Hf|]. simpl; lia.
Qed.

#[export] Instance Gto_laws : SchedLaws n Gto Gto_ok.
Proof.
  split.
  { intros a b s Hab [? ? [? ?] ? ?]. split; [done|done|lia|done|done]. }
  intros k s ready Hok (w & Hw & Hr). pose proof Hok as [En Hl [Hc Ht] Hle Hf].
  unfold SelectWarp, Gto_SelectWarp. rewrite En.
  destruct (negb (last_selected_ s =? -1) && Z.testbit ready (last_selected_ s)) eqn:E.
  - apply andb_true_iff in E as [E Eb]. bprop. destruct Hl as [|Hl]; [done|]. simpl.
    exists (Z.to_nat (last_selected_ s)). rewrite Z2Nat.id by lia. rewrite wrap_small by lia.
    split_and!; [done|lia|done|]. apply gto_stamp_ok; [done|lia].
  - destruct (gto_oldest_spec ready (last_scheduled_time_ s) n Hmax) as [[-> H]|(v & Hv & -> & Hb & Hlt & H)].
    { specialize (H w Hw Hr). exfalso. assert (nth w (last_scheduled_time_ s) 0 <= current_time_ s); [|lia].
      apply Forall_nth; [|lia]. eapply Forall_impl; [exact Hf|]. simpl; lia. }
    replace (Z.of_nat v =? kNoWarp) with false
      by (symmetry; apply Z.eqb_neq; change kNoWarp with (2 ^ 32 - 1); lia).
    simpl. exists v. rewrite Nat2Z.id. split_and!; [done|done|done|].
    apply gto_stamp_ok; [|done]. split; simpl; [done| |done|done|done].
    right. unfold swrap. rewrite Z.mod_small by lia.
    replace (Z.of_nat v <? 2 ^ (32 - 1)) with true by (symmetry; apply Z.ltb_lt; lia). lia.
Qed.
Lemma Gto_init_ok k : Z.of_nat k < UINT64_MAX -> Gto_ok k (Gto_init n).
Proof.
  split; simpl; [done|by left|lia|by rewrite length_replicate|]. by apply Forall_replicate.
Qed.

(** The groups of the two-level scheduler cut the warps into ranges. *)
Record TwoLevel_ok (k : nat) (s : TwoLevel) : Prop := {
  tl_num : tl_num_warps_ s = Z.of_nat n;
  tl_size : 1 <= group_size_ s /\ Z.of_nat n + group_size_ s <= 2 ^ 32;
  tl_groups : num_groups_ s = (Z.of_nat n + group_size_ s - 1) / group_size_ s;
  tl_active : 0 <= active_group_ s < num_groups_ s;
  tl_length : Z.of_nat (length (prioritized_warp_ s)) = num_groups_ s;
  tl_prio : forall g, 0 <= g < num_groups_ s ->
    0 <= nth (Z.to_nat g) (prioritized_warp_ s) 0 < group_end s g - group_start s g;
}.

Lemma tl_range k s g : TwoLevel_ok k s -> 0 <= g < num_groups_ s ->
  group_start s g = g * group_size_ s /\ g * group_size_ s < Z.of_nat n /\
  group_end s g = Z.min (g * group_size_ s + group_size_ s) (Z.of_nat n).
Proof.
  intros [E1 [H1 H2] Eg _ _ _] Hg.
  assert (Hlt : g * group_size_ s < Z.of_nat n).
  { assert (g <= (Z.of_nat n - 1) / group_size_ s).
    { replace (Z.of_nat n + group_size_ s - 1) with (Z.of_nat n - 1 + 1 * group_size_ s) in Eg by lia.
      rewrite Z.div_add in Eg by lia. lia. }
    pose proof (Z.mul_div_le (Z.of_nat n - 1) (group_size_ s) ltac:(lia)). nia. }
  assert (Hs : group_start s g = g * group_size_ s) by (unfold group_start; apply wrap_small; nia).
  split_and!; [done|done|]. unfold group_end. rewrite Hs, E1, wrap_small; [done|nia].
Qed.

Lemma tl_group_of k s w : TwoLevel_ok k s -> (w < n)%nat ->
  0 <= Z.of_nat w / group_size_ s < num_groups_ s /\
  group_start s (Z.of_nat w / group_size_ s) <= Z.of_nat w < group_end s (Z.of_nat w / group_size_ s).
Proof.
  intros Hok Hw. pose proof Hok as [E1 [H1 H2] Eg _ _ _].
  assert (Hg : 0 <= Z.of_nat w / group_size_ s < num_groups_ s).
  { split; [apply Z.div_pos; lia|]. rewrite Eg.
    replace (Z.of_nat n + group_size_ s - 1) with (Z.of_nat n - 1 + 1 * group_size_ s) by lia.
    rewrite Z.div_add by lia. pose proof (Z.div_le_mono (Z.of_nat w) (Z.of_nat n - 1) (group_size_ s)). lia. }
  split; [done|]. destruct (tl_range k s _ Hok Hg) as (-> & _ & ->).
  pose proof (Z.div_mod (Z.of_nat w) (group_size_ s) ltac:(lia)) as E.
  pose proof (Z.mod_pos_bound (Z.of_nat w) (group_size_ s) ltac:(lia)). nia.
Qed.

Lemma group_has_ready s ready g :
  GroupHasReadyWarp s ready g = true <->
  exists w, group_start s g <= w < group_end s g /\ Z.testbit ready w = true.
Proof.
  unfold GroupHasReadyWarp. split.
  - destruct (find_first _ _) as [i|] eqn:E; [|done]. intros _. apply find_first_Some in E as (Hi & Hb & _).
    exists (group_start s g + Z.of_nat i). split; [lia|done].
  - intros (w & Hw & Hb).
    destruct (find_first_reached (fun i => Z.testbit ready (group_start s g + Z.of_nat i))
      (Z.to_nat (group_end s g - group_start s g)) (Z.to_nat (w - group_start s g))) as [i ->]; [lia| |done].
    cbv beta. by replace (group_start s g + Z.of_nat (Z.to_nat (w - group_start s g))) with w by lia.
Qed.

Lemma set_active_ok k s g i : TwoLevel_ok k s -> 0 <= g < num_groups_ s -> TwoLevel_ok k (set_active g i s).
Proof. intros [] Hg. by split. Qed.

Lemma set_prioritized_ok k s g v : TwoLevel_ok k s -> 0 <= g < num_groups_ s ->
  0 <= v < group_end s g - group_start s g -> TwoLevel_ok k (set_prioritized g v s).
Proof.
  intros [E1 H1 Eg Ha El Hp] Hg Hv. split; simpl; [done|done|done|done|by rewrite length_insert|].
  intros g' Hg'. rewrite nth_insert by lia. case_decide; [|by apply Hp].
  by replace g' with g by lia.
Qed.

Lemma rotate_reaches k m ready s i : TwoLevel_ok k s -> (i < m)%nat -> Z.of_nat m < 2 ^ 31 ->
  num_groups_ s < 2 ^ 31 ->
  GroupHasReadyWarp s ready ((active_group_ s + 1 + Z.of_nat i) mod num_groups_ s) = true ->
  let s' := rotate_to_ready m ready s in
  TwoLevel_ok k s' /\ GroupHasReadyWarp s' ready (active_group_ s') = true.
Proof.
  revert s i. induction m as [|m IH]; intros s i Hok Hi Hm Hg Hr; [lia|]. cbn [rotate_to_ready]; cbv zeta.
  pose proof Hok as [_ _ _ Ha _ _].
  assert (Hok' : TwoLevel_ok k (RotateActiveGroup s)).
  { apply set_active_ok; [done|]. apply Z.mod_pos_bound. lia. }
  set (s1 := RotateActiveGroup s) in *.
  destruct (GroupHasReadyWarp s1 ready (active_group_ s1)) eqn:E; [done|].
  assert (Ea : active_group_ s1 = (active_group_ s + 1) mod num_groups_ s).
  { subst s1. unfold RotateActiveGroup, set_active; cbn [active_group_]. by rewrite wrap_small by lia. }
  destruct i as [|i].
  { rewrite Z.add_0_r, <- Ea in Hr. change (GroupHasReadyWarp s1 ready (active_group_ s1) = true) in Hr. congruence. }
  apply (IH s1 i); [done|lia|lia|done|].
  change (num_groups_ s1) with (num_groups_ s). rewrite Ea.
  replace ((active_group_ s + 1) mod num_groups_ s + 1 + Z.of_nat i)
    with ((active_group_ s + 1) mod num_groups_ s + (1 + Z.of_nat i)) by lia.
  rewrite Z.add_mod_idemp_l by lia.
  by replace (active_group_ s + 1 + (1 + Z.of_nat i)) with (active_group_ s + 1 + Z.of_nat (S i)) by lia.
Qed.

Lemma select_in_group k s ready g : TwoLevel_ok k s -> 0 <= g < num_groups_ s ->
  GroupHasReadyWarp s ready g = true ->
  exists w, snd (SelectReadyWarpInGroup s ready g) = Z.of_nat w /\ (w < n)%nat /\
    Z.testbit ready (Z.of_nat w) = true /\ TwoLevel_ok k (fst (SelectReadyWarpInGroup s ready g)).
Proof.
  intros Hok Hg Hr. apply group_has_ready in Hr as (w & Hw & Hb).
  destruct (tl_range k s g Hok Hg) as (Es & Hs & Ee). pose proof Hok as [_ [Hz _] _ _ _ Hp].
  specialize (Hp g Hg). unfold SelectReadyWarpInGroup.
  set (start := group_start s g) in *. set (stop := group_end s g) in *.
  assert (Hstop : stop <= Z.of_nat n) by lia.
  rewrite (wrap_small 32 (stop - start)) by nia. set (p := nth _ _ 0) in *.
  destruct (round_reaches (stop - start) p (w - start)) as (i & Hi & Ei); [lia..|].
  assert (Hin : forall x, 0 <= x < stop - start -> u32 (start + x) = start + x)
    by (intros; apply wrap_small; nia).
  destruct (find_first_reached
    (fun i => Z.testbit ready (u32 (start + u32 (p + Z.of_nat i) mod (stop - start))))
    (Z.to_nat (stop - start)) i) as [j Ej]; [done| |].
  { rewrite Ei, Hin by lia. by replace (start + (w - start)) with w by lia. }
  rewrite Ej. apply find_first_Some in Ej as (Hj & Hbj & _).
  set (x := u32 (p + Z.of_nat j) mod (stop - start)) in *.
  assert (Hx : 0 <= x < stop - start) by (apply Z.mod_pos_bound; lia).
  rewrite Hin in Hbj by done. cbn [fst snd]. rewrite Hin by done.
  exists (Z.to_nat (start + x)). rewrite Z2Nat.id by nia. split_and!; [done|nia|done|].
  apply set_prioritized_ok; [done|done|]. apply Z.mod_pos_bound. lia.
Qed.

#[export] Instance TwoLevel_laws : SchedLaws n TwoLevel TwoLevel_ok.
Proof.
  split. { intros a b s _ []. by split. }
  intros k s ready Hok (w & Hw & Hr).
  assert (Hok' : TwoLevel_ok k s) by (destruct Hok; by split). clear Hok.
  destruct (tl_group_of k s w Hok' Hw) as (Hg & Hin). set (g := Z.of_nat w / group_size_ s) in *.
  assert (Hready : GroupHasReadyWarp s ready g = true) by (apply group_has_ready; eauto).
  pose proof Hok' as [E1 [H1 H2] Eg Ha _ _].
  assert (Hng : num_groups_ s < 2 ^ 31).
  { rewrite Eg. apply Z.div_lt_upper_bound; nia. }
  unfold SelectWarp, TwoLevel_SelectWarp.
  match goal with |- context [SelectReadyWarpInGroup ?x] => set (s1 := x) end.
  assert (H : TwoLevel_ok k s1 /\ GroupHasReadyWarp s1 ready (active_group_ s1) = true).
  { subst s1. destruct (GroupHasReadyWarp s ready (active_group_ s)) eqn:Ea.
    - destruct (timeout_ s <=? active_group_issues_ s); [|done].
      destruct (find_first _ _) as [i|] eqn:Ef; [|done]. apply find_first_Some in Ef as (_ & Hf & _).
      split; [|exact Hf]. apply set_active_ok; [done|]. apply Z.mod_pos_bound. lia.
    - destruct (round_reaches (num_groups_ s) ((active_group_ s + 1) mod num_groups_ s) g) as (i & Hi & Ei);
        [apply Z.mod_pos_bound; lia|lia|done|].
      pose proof (Z.mod_pos_bound (active_group_ s + 1) (num_groups_ s) ltac:(lia)).
      rewrite wrap_small in Ei by lia. rewrite Z.add_mod_idemp_l in Ei by lia.
      apply (rotate_reaches k _ ready s i); [done|done|lia|done|by rewrite Ei]. }
  destruct H as [Hok1 Hr1]. pose proof Hok1 as [_ _ _ Ha1 _ _].
  destruct (select_in_group k s1 ready (active_group_ s1) Hok1 Ha1 Hr1) as (v & Ev & Hv & Hb & Hok2).
  destruct (SelectReadyWarpInGroup s1 ready (active_group_ s1)) as [s2 sel]. cbn [fst snd] in *.
  exists v. split_and!; [done..|]. apply set_active_ok; [done|]. by destruct Hok2.
Qed.
Lemma TwoLevel_init_ok k size timeout : 1 <= size -> Z.of_nat n + size <= 2 ^ 32 ->
  TwoLevel_ok k (TwoLevel_init (Z.of_nat n) size timeout).
Proof.
  intros H1 H2. unfold TwoLevel_init. rewrite Z.max_r, (wrap_small 32) by lia.
  assert (Hg : 1 <= (Z.of_nat n + size - 1) / size) by (apply Z.div_le_lower_bound; lia).
  assert (Hok : forall p, Z.of_nat (length p) = (Z.of_nat n + size - 1) / size ->
    (forall g, nth (Z.to_nat g) p 0 = 0) ->
    TwoLevel_ok k (mkTwoLevel (Z.of_nat n) size ((Z.of_nat n + size - 1) / size) 0 (Z.max 1 timeout) 0 p)).
  { intros p Hp Hz. split; simpl; [done|lia|done|lia|done|]. intros g Hg'. rewrite Hz.
    assert (g * size < Z.of_nat n).
    { replace (Z.of_nat n + size - 1) with (Z.of_nat n - 1 + 1 * size) in Hg' by lia.
      rewrite Z.div_add in Hg' by lia. pose proof (Z.mul_div_le (Z.of_nat n - 1) size ltac:(lia)). nia. }
    unfold group_end, group_start. simpl. rewrite (wrap_small 32 (g * size)) by nia.
    rewrite wrap_small by nia. lia. }
  apply Hok; [rewrite length_replicate; lia|]. intros g.
  destruct (decide (Z.to_nat g < Z.to_nat ((Z.of_nat n + size - 1) / size))%nat).
  - by rewrite nth_replicate_lt || (rewrite nth_lookup, lookup_replicate_2 by done; done).
  - rewrite nth_overflow; [done|]. rewrite length_replicate. lia.
Qed.

End laws.
