(* ===== verification/SmCore.v ===== *)
(** * The atomic core of the SM simulator
      (simtix/src/cores/base.h, warp_lane_state.h, warp_mask.h, atomic/atomic_core.h, atomic_core.cc)

    A core runs the warps of work-groups: the threads of a warp share an instruction
    when they are at the same PC and of the highest priority. The core executes one
    instruction at a time. Its thread [MainProc] gives up control where it waits for an
    active warp, for the fetch and for the accesses of the lanes; a step is what it does
    between two such points, and the commands of the work-group initializer come in
    between. [step] gives the new state and the requests the core sends to memory, or
    the failed assertion or fatal error. What memory answers is part of the
    event, with the status of each response. A mask is a number with a bit per warp or lane; registers and other state of
    the threads are flat arrays, as in the source. Statistics and log output are left
    out. *)

From S2P Require Import Prelude SimFifo SmEncoding SmInstr SmExec SmSched.

(** ** Bit vectors (sc_bv_base) *)

Definition bv_ones (n : nat) : Z := Z.ones (Z.of_nat n).
Definition bv_not (n : nat) (x : Z) : Z := Z.ldiff (bv_ones n) x.
(** Assignment of an [int]. *)
Definition bv_of_int (n : nat) (x : Z) : Z := Z.land x (bv_ones n).
Definition and_reduce (n : nat) (x : Z) : bool := x =? bv_ones n.
Definition bv_bit (x : Z) (i : nat) : bool := Z.testbit x (Z.of_nat i).

(** ** Lane states (warp_lane_state.h) *)

Inductive LaneState := kRunnable | kBarrier | kExited.
#[global] Instance LaneState_eq : EqDecision LaneState.
Proof. solve_decision. Defined.

Record WarpLaneState := mkLaneState {
  barrier_ : list Z;
  exited_ : list Z;
  states_ : list LaneState;
  first_barrier_pc_ : list Z;
  divergence_reported_ : list bool;
}.
Definition WarpLaneState_init (num_warps : nat) : WarpLaneState :=
  mkLaneState (replicate num_warps 0) (replicate num_warps 0) (replicate num_warps kRunnable)
    (replicate num_warps 0) (replicate num_warps false).

Definition set_barrier (wid : nat) (m : Z) (s : WarpLaneState) : WarpLaneState :=
  mkLaneState (<[wid := m]> (barrier_ s)) (exited_ s) (states_ s) (first_barrier_pc_ s) (divergence_reported_ s).
Definition set_exited (wid : nat) (m : Z) (s : WarpLaneState) : WarpLaneState :=
  mkLaneState (barrier_ s) (<[wid := m]> (exited_ s)) (states_ s) (first_barrier_pc_ s) (divergence_reported_ s).
Definition set_state (wid : nat) (st : LaneState) (s : WarpLaneState) : WarpLaneState :=
  mkLaneState (barrier_ s) (exited_ s) (<[wid := st]> (states_ s)) (first_barrier_pc_ s) (divergence_reported_ s).
Definition set_first_pc (wid : nat) (pc : Z) (s : WarpLaneState) : WarpLaneState :=
  mkLaneState (barrier_ s) (exited_ s) (states_ s) (<[wid := pc]> (first_barrier_pc_ s)) (divergence_reported_ s).
Definition set_reported (wid : nat) (b : bool) (s : WarpLaneState) : WarpLaneState :=
  mkLaneState (barrier_ s) (exited_ s) (states_ s) (first_barrier_pc_ s) (<[wid := b]> (divergence_reported_ s)).

Section lanes.
Context (num_lanes : nat).

Definition lane_state_of (barrier exited : Z) : LaneState :=
  if and_reduce num_lanes exited then kExited
  else if and_reduce num_lanes (Z.lor barrier exited) then kBarrier
  else kRunnable.
Definition UpdateState (wid : nat) (s : WarpLaneState) : WarpLaneState :=
  set_state wid (lane_state_of (nth wid (barrier_ s) 0) (nth wid (exited_ s) 0)) s.

Definition ArriveBarrier (wid : nat) (lanes pc : Z) (s : WarpLaneState) : res (option Z * WarpLaneState) :=
  massert (negb (lanes =? 0));;
  let first := nth wid (first_barrier_pc_ s) 0 in
  let '(divergent_pc, s) :=
    if nth wid (barrier_ s) 0 =? 0 then (None, set_first_pc wid pc s)
    else if negb (first =? pc) && negb (nth wid (divergence_reported_ s) false)
    then (Some first, set_reported wid true s)
    else (None, s) in
  mret (divergent_pc, UpdateState wid (set_barrier wid (Z.lor (nth wid (barrier_ s) 0) lanes) s)).

Definition Exit (wid : nat) (lanes : Z) (s : WarpLaneState) : res WarpLaneState :=
  massert (negb (lanes =? 0));;
  mret (UpdateState wid (set_exited wid (Z.lor (nth wid (exited_ s) 0) lanes) s)).

Definition ClearBarrier (wid : nat) (s : WarpLaneState) : WarpLaneState := UpdateState wid (set_barrier wid 0 s).

Definition Reset (wid : nat) (s : WarpLaneState) : WarpLaneState :=
  set_reported wid false (set_state wid kRunnable (set_exited wid 0 (set_barrier wid 0 s))).

Definition LaneRunnable (s : WarpLaneState) (wid lane : nat) : bool :=
  negb (bv_bit (nth wid (barrier_ s) 0) lane) && negb (bv_bit (nth wid (exited_ s) 0) lane).
Definition HasRunnableLanes (s : WarpLaneState) (wid : nat) : bool :=
  bool_decide (nth wid (states_ s) kRunnable = kRunnable).
Definition AllExited (s : WarpLaneState) (wid : nat) : bool :=
  bool_decide (nth wid (states_ s) kRunnable = kExited).
Definition BarrierReady (s : WarpLaneState) (wid : nat) : bool :=
  bool_decide (nth wid (states_ s) kRunnable = kBarrier).

End lanes.

(** ** State (base.h, atomic_core.h) *)

(** The warps that are idle, active, at a barrier and in an exception. *)
Record WarpMasks := mkMasks { idle_mask_ : Z; active_mask_ : Z; barrier_mask_ : Z; exception_mask_ : Z }.

Record Threads := mkThreads {
  regfile_ : list Z;            (* int64_t, num_lanes of each register of each warp *)
  ptpc_ : list Z;
  ptpri_ : list Z;
  ptfrm_ : list Z;
  ptfflags_ : list Z;
}.
Definition set_regfile (l : list Z) (t : Threads) : Threads :=
  mkThreads l (ptpc_ t) (ptpri_ t) (ptfrm_ t) (ptfflags_ t).
Definition set_ptpc (l : list Z) (t : Threads) : Threads :=
  mkThreads (regfile_ t) l (ptpri_ t) (ptfrm_ t) (ptfflags_ t).
Definition set_ptpri (l : list Z) (t : Threads) : Threads :=
  mkThreads (regfile_ t) (ptpc_ t) l (ptfrm_ t) (ptfflags_ t).
Definition set_ptfrm (l : list Z) (t : Threads) : Threads :=
  mkThreads (regfile_ t) (ptpc_ t) (ptpri_ t) l (ptfflags_ t).
Definition set_ptfflags (l : list Z) (t : Threads) : Threads :=
  mkThreads (regfile_ t) (ptpc_ t) (ptpri_ t) (ptfrm_ t) l.

Record WarpCsrs := mkCsrs {
  cwid_ : list Z;               (* uint32_t *)
  mepc_ : list Z;
  mcause_ : list Z;
  mtval_ : list Z;
  mscratch_ : list Z;
  minstret_ : list Z;
  barrier_pc_ : list Z;
}.
Definition set_cwid (l : list Z) (c : WarpCsrs) : WarpCsrs :=
  mkCsrs l (mepc_ c) (mcause_ c) (mtval_ c) (mscratch_ c) (minstret_ c) (barrier_pc_ c).
Definition set_mepc (l : list Z) (c : WarpCsrs) : WarpCsrs :=
  mkCsrs (cwid_ c) l (mcause_ c) (mtval_ c) (mscratch_ c) (minstret_ c) (barrier_pc_ c).
Definition set_mcause (l : list Z) (c : WarpCsrs) : WarpCsrs :=
  mkCsrs (cwid_ c) (mepc_ c) l (mtval_ c) (mscratch_ c) (minstret_ c) (barrier_pc_ c).
Definition set_mtval (l : list Z) (c : WarpCsrs) : WarpCsrs :=
  mkCsrs (cwid_ c) (mepc_ c) (mcause_ c) l (mscratch_ c) (minstret_ c) (barrier_pc_ c).
Definition set_mscratch (l : list Z) (c : WarpCsrs) : WarpCsrs :=
  mkCsrs (cwid_ c) (mepc_ c) (mcause_ c) (mtval_ c) l (minstret_ c) (barrier_pc_ c).
Definition set_minstret (l : list Z) (c : WarpCsrs) : WarpCsrs :=
  mkCsrs (cwid_ c) (mepc_ c) (mcause_ c) (mtval_ c) (mscratch_ c) l (barrier_pc_ c).
Definition set_barrier_pc (l : list Z) (c : WarpCsrs) : WarpCsrs :=
  mkCsrs (cwid_ c) (mepc_ c) (mcause_ c) (mtval_ c) (mscratch_ c) (minstret_ c) l.

(** What [MainProc] holds on the stack while it waits. *)
Record Executing := mkExecuting { x_wid : nat; x_wpc : Z; x_iword : Z; x_instr : Instr; x_flag : ExecFlag }.
Inductive main_pc :=
  | MainStart
  | MainWait                                  (* for an active warp *)
  | MainFetch (wid : nat) (wpc : Z)           (* for the instruction *)
  | MainLoad (x : Executing)                  (* for the loads of the lanes *)
  | MainAtomic (x : Executing) (lane : nat)   (* for the atomic access of [lane] *)
  | MainStore (x : Executing).                (* for the stores of the lanes *)

(** A request to memory: [q_data] is what the payload's buffer holds, its low
    [q_len] bytes. *)
Record Request := mkRequest {
  q_lane : nat;
  q_write : bool;
  q_addr : Z;
  q_len : Z;
  q_data : Z;
  q_atomic : option (AtomicOp * Z);           (* the operation and [compare_value] *)
  q_ip : Z;
}.

Inductive WarpCtrlCommand :=
  | kActivate (cwm pc wg_info cwid_base : Z)
  | kResume (cwm : Z)
  | kRelease (cwm : Z)
  | kAbort (cwm : Z).

Record AtomicCore (S : Type) := mkCore {
  masks : WarpMasks;
  lane_state_ : WarpLaneState;
  threads : Threads;
  csrs : WarpCsrs;
  mcycle_ : Z;
  cmd_ready_ : bool;
  sched_ : S;
  tmask_ : Z;
  wmask_ : Z;
  executing_mask_ : Z;
  aborting_warps_ : Z;
  current_pc_ : Z;
  sinks : Sinks;
  compare_values : list Z;                    (* of atomic_exts_ *)
  main_ : main_pc;
}.
Arguments mkCore {S}. Arguments masks {S}. Arguments lane_state_ {S}. Arguments threads {S}. Arguments csrs {S}.
Arguments mcycle_ {S}. Arguments cmd_ready_ {S}. Arguments sched_ {S}. Arguments tmask_ {S}. Arguments wmask_ {S}.
Arguments executing_mask_ {S}. Arguments aborting_warps_ {S}. Arguments current_pc_ {S}. Arguments sinks {S}.
Arguments compare_values {S}. Arguments main_ {S}.

Section core.
Context {S : Type} `{WarpSched S} (sf : SoftFloat) (num_lanes_ num_warps_ : nat).
Abbreviation Core := (AtomicCore S).

Definition set_masks (x : WarpMasks) (c : Core) : Core := mkCore x (lane_state_ c) (threads c) (csrs c)
    (mcycle_ c) (cmd_ready_ c) (sched_ c) (tmask_ c) (wmask_ c) (executing_mask_ c) (aborting_warps_ c)
    (current_pc_ c) (sinks c) (compare_values c) (main_ c).
Definition set_lane_state (x : WarpLaneState) (c : Core) : Core := mkCore (masks c) x (threads c) (csrs
    c) (mcycle_ c) (cmd_ready_ c) (sched_ c) (tmask_ c) (wmask_ c) (executing_mask_ c) (aborting_warps_
    c) (current_pc_ c) (sinks c) (compare_values c) (main_ c).
Definition set_threads (x : Threads) (c : Core) : Core := mkCore (masks c) (lane_state_ c) x (csrs c)
    (mcycle_ c) (cmd_ready_ c) (sched_ c) (tmask_ c) (wmask_ c) (executing_mask_ c) (aborting_warps_ c)
    (current_pc_ c) (sinks c) (compare_values c) (main_ c).
Definition set_csrs (x : WarpCsrs) (c : Core) : Core := mkCore (masks c) (lane_state_ c) (threads c) x
    (mcycle_ c) (cmd_ready_ c) (sched_ c) (tmask_ c) (wmask_ c) (executing_mask_ c) (aborting_warps_ c)
    (current_pc_ c) (sinks c) (compare_values c) (main_ c).
Definition set_mcycle (x : Z) (c : Core) : Core := mkCore (masks c) (lane_state_ c) (threads c) (csrs c)
    x (cmd_ready_ c) (sched_ c) (tmask_ c) (wmask_ c) (executing_mask_ c) (aborting_warps_ c)
    (current_pc_ c) (sinks c) (compare_values c) (main_ c).
Definition set_cmd_ready (x : bool) (c : Core) : Core := mkCore (masks c) (lane_state_ c) (threads c)
    (csrs c) (mcycle_ c) x (sched_ c) (tmask_ c) (wmask_ c) (executing_mask_ c) (aborting_warps_ c)
    (current_pc_ c) (sinks c) (compare_values c) (main_ c).
Definition set_sched (x : S) (c : Core) : Core := mkCore (masks c) (lane_state_ c) (threads c) (csrs c)
    (mcycle_ c) (cmd_ready_ c) x (tmask_ c) (wmask_ c) (executing_mask_ c) (aborting_warps_ c)
    (current_pc_ c) (sinks c) (compare_values c) (main_ c).
Definition set_tmask (x : Z) (c : Core) : Core := mkCore (masks c) (lane_state_ c) (threads c) (csrs c)
    (mcycle_ c) (cmd_ready_ c) (sched_ c) x (wmask_ c) (executing_mask_ c) (aborting_warps_ c)
    (current_pc_ c) (sinks c) (compare_values c) (main_ c).
Definition set_wmask (x : Z) (c : Core) : Core := mkCore (masks c) (lane_state_ c) (threads c) (csrs c)
    (mcycle_ c) (cmd_ready_ c) (sched_ c) (tmask_ c) x (executing_mask_ c) (aborting_warps_ c)
    (current_pc_ c) (sinks c) (compare_values c) (main_ c).
Definition set_executing (x : Z) (c : Core) : Core := mkCore (masks c) (lane_state_ c) (threads c) (csrs
    c) (mcycle_ c) (cmd_ready_ c) (sched_ c) (tmask_ c) (wmask_ c) x (aborting_warps_ c) (current_pc_ c)
    (sinks c) (compare_values c) (main_ c).
Definition set_aborting (x : Z) (c : Core) : Core := mkCore (masks c) (lane_state_ c) (threads c) (csrs
    c) (mcycle_ c) (cmd_ready_ c) (sched_ c) (tmask_ c) (wmask_ c) (executing_mask_ c) x (current_pc_ c)
    (sinks c) (compare_values c) (main_ c).
Definition set_current_pc (x : Z) (c : Core) : Core := mkCore (masks c) (lane_state_ c) (threads c)
    (csrs c) (mcycle_ c) (cmd_ready_ c) (sched_ c) (tmask_ c) (wmask_ c) (executing_mask_ c)
    (aborting_warps_ c) x (sinks c) (compare_values c) (main_ c).
Definition set_sinks (x : Sinks) (c : Core) : Core := mkCore (masks c) (lane_state_ c) (threads c) (csrs
    c) (mcycle_ c) (cmd_ready_ c) (sched_ c) (tmask_ c) (wmask_ c) (executing_mask_ c) (aborting_warps_
    c) (current_pc_ c) x (compare_values c) (main_ c).
Definition set_compare (x : list Z) (c : Core) : Core := mkCore (masks c) (lane_state_ c) (threads c)
    (csrs c) (mcycle_ c) (cmd_ready_ c) (sched_ c) (tmask_ c) (wmask_ c) (executing_mask_ c)
    (aborting_warps_ c) (current_pc_ c) (sinks c) x (main_ c).
Definition set_main (x : main_pc) (c : Core) : Core := mkCore (masks c) (lane_state_ c) (threads c)
    (csrs c) (mcycle_ c) (cmd_ready_ c) (sched_ c) (tmask_ c) (wmask_ c) (executing_mask_ c)
    (aborting_warps_ c) (current_pc_ c) (sinks c) (compare_values c) x.

Definition AtomicCore_init (sched : S) : Core :=
  let n := num_lanes_ in
  let threads_n := (num_lanes_ * num_warps_)%nat in
  mkCore (mkMasks (bv_ones num_warps_) 0 0 0) (WarpLaneState_init num_warps_)
    (mkThreads (replicate (threads_n * 32) 0) (replicate threads_n 0) (replicate threads_n 0)
      (replicate threads_n 0) (replicate threads_n 0))
    (mkCsrs (replicate num_warps_ 0) (replicate num_warps_ 0) (replicate num_warps_ 0) (replicate num_warps_ 0)
      (replicate num_warps_ 0) (replicate num_warps_ 0) (replicate num_warps_ 0))
    0 false sched 0 0 0 0 0 (mkSinks (replicate n 0) (replicate n 0) (replicate n 0) 0 0) (replicate n 0) MainStart.

(** ** Warp states (base.h) *)

Inductive mask_name := Idle | Active | Barrier | Exception_.
#[global] Instance mask_name_eq : EqDecision mask_name.
Proof. solve_decision. Defined.
Definition mask_of (m : mask_name) (w : WarpMasks) : Z :=
  match m with
  | Idle => idle_mask_ w
  | Active => active_mask_ w
  | Barrier => barrier_mask_ w
  | Exception_ => exception_mask_ w
  end.
Definition set_mask (m : mask_name) (v : Z) (w : WarpMasks) : WarpMasks :=
  match m with
  | Idle => mkMasks v (active_mask_ w) (barrier_mask_ w) (exception_mask_ w)
  | Active => mkMasks (idle_mask_ w) v (barrier_mask_ w) (exception_mask_ w)
  | Barrier => mkMasks (idle_mask_ w) (active_mask_ w) v (exception_mask_ w)
  | Exception_ => mkMasks (idle_mask_ w) (active_mask_ w) (barrier_mask_ w) v
  end.
Definition mask (m : mask_name) (c : Core) : Z := mask_of m (masks c).

Definition WarpStateTransition (to from : mask_name) (cwm : Z) (c : Core) : res Core :=
  massert (Z.land (mask from c) cwm =? cwm);;
  massert (Z.land (mask to c) cwm =? 0);;
  let w := set_mask from (Z.lxor (mask from c) cwm) (masks c) in
  mret (set_masks (set_mask to (Z.lxor (mask_of to w) cwm) w) c).

Definition ToRegfileIndex (wid reg_id : nat) : nat := num_lanes_ * (wid * 32 + reg_id).
Definition lane_index (wid i : nat) : nat := wid * num_lanes_ + i.
Definition McycleIncrement (c : Core) : Core := set_mcycle (u64 (mcycle_ c + 1)) c.

Definition map_threads (f : Threads -> Threads) (c : Core) : Core := set_threads (f (threads c)) c.
Definition map_csrs (f : WarpCsrs -> WarpCsrs) (c : Core) : Core := set_csrs (f (csrs c)) c.
Definition map_sinks (f : Sinks -> Sinks) (c : Core) : Core := set_sinks (f (sinks c)) c.

(** ** Commands (atomic_core.cc) *)

Definition CompleteAbort (wid : nat) (c : Core) : res Core :=
  massert (bv_bit (aborting_warps_ c) wid);;
  WarpStateTransition Idle Active (wmask_ c)
    (set_executing 0 (set_aborting (Z.clearbit (aborting_warps_ c) (Z.of_nat wid)) c)).

(** The loop over the warps of [Activate], with [active_warp_cnt]. *)
Definition activate_warp (cwm pc wg_info cwid_base : Z) (w : nat) '((c, active_warp_cnt) : Core * Z) : Core * Z :=
  if bv_bit cwm w then
    let c := set_lane_state (Reset w (lane_state_ c)) c in
    let c := map_threads (fun t =>
      for_range (fun l t => set_ptpri (<[lane_index w l := 0]> (ptpri_ t))
        (set_ptpc (<[lane_index w l := pc]> (ptpc_ t)) t)) 0 num_lanes_ t) c in
    let c := map_csrs (fun s => set_mscratch (<[w := wg_info]> (mscratch_ s)) s) c in
    let c := map_csrs (fun s => set_cwid (<[w := u32 (cwid_base + active_warp_cnt)]> (cwid_ s)) s) c in
    (c, u32 (active_warp_cnt + 1))
  else (c, active_warp_cnt).
Definition Activate (cwm pc wg_info cwid_base : Z) (c : Core) : res Core :=
  massert (cmd_ready_ c);;
  WarpStateTransition Active Idle cwm
    (fst (for_range (activate_warp cwm pc wg_info cwid_base) 0 num_warps_ (c, 0))).

Definition Resume (cwm : Z) (c : Core) : res Core :=
  massert (cmd_ready_ c);;
  WarpStateTransition Active Barrier cwm
    (set_lane_state (for_active cwm num_warps_ (ClearBarrier num_lanes_) (lane_state_ c)) c).

Definition Release (cwm : Z) (c : Core) : res Core :=
  massert (cmd_ready_ c);; WarpStateTransition Idle Exception_ cwm c.

Definition Abort (cwm : Z) (c : Core) : res Core :=
  massert (cmd_ready_ c);;
  let aborted := Z.land cwm (Z.lor (mask Active c) (mask Barrier c)) in
  let c := set_aborting (Z.lor (aborting_warps_ c) (Z.land aborted (executing_mask_ c))) c in
  let stopped := Z.land aborted (bv_not num_warps_ (executing_mask_ c)) in
  let w := masks c in
  mret (set_masks (mkMasks (Z.lor (idle_mask_ w) stopped)
    (Z.land (active_mask_ w) (bv_not num_warps_ stopped))
    (Z.land (barrier_mask_ w) (bv_not num_warps_ stopped)) (exception_mask_ w)) c).

Definition ExecuteWarpCtrlCommand (cmd : WarpCtrlCommand) : Core -> res Core :=
  match cmd with
  | kActivate cwm pc wg_info cwid_base => Activate cwm pc wg_info cwid_base
  | kResume cwm => Resume cwm
  | kRelease cwm => Release cwm
  | kAbort cwm => Abort cwm
  end.
(** [nb_put] of BaseCore: what it returns, and the core. *)
Definition nb_put (cmd : WarpCtrlCommand) (c : Core) : res (bool * Core) :=
  if negb (cmd_ready_ c) then mret (false, c)
  else c ← ExecuteWarpCtrlCommand cmd c; mret (true, c).

(** ** Scheduling and fetch *)

(** [found], [lane_id] and [max_pri] of the loop. *)
Definition arbitrate (wid : nat) (c : Core) : bool * nat * Z :=
  for_range (fun i '(found, lane_id, max_pri) =>
    let p := nth (lane_index wid i) (ptpri_ (threads c)) 0 in
    if negb (LaneRunnable (lane_state_ c) wid i) then (found, lane_id, max_pri)
    else if negb found || (max_pri <? p) then (true, i, p)
    else (found, lane_id, max_pri)) 0 num_lanes_ (false, 0%nat, 0).
Definition ArbitratePC (wid : nat) (c : Core) : res Z :=
  let '(found, lane_id, _) := arbitrate wid c in
  massert found;; mret (nth (lane_index wid lane_id) (ptpc_ (threads c)) 0).

Definition UpdateThreadMask (wid : nat) (wpc : Z) (c : Core) : Core :=
  set_tmask (for_range (fun i m =>
    if LaneRunnable (lane_state_ c) wid i && (nth (lane_index wid i) (ptpc_ (threads c)) 0 =? wpc)
    then Z.setbit m (Z.of_nat i) else Z.clearbit m (Z.of_nat i)) 0 num_lanes_ (tmask_ c)) c.

(** The access [SetupTrans] prepares for a lane. *)
Definition SetupTrans (write : bool) (len : Z) (atomic : option (AtomicOp * Z)) (c : Core) (lane_id : nat) : Request :=
  mkRequest lane_id write (nth lane_id (addr_buf (sinks c)) 0) len (u64 (nth lane_id (data_buf (sinks c)) 0))
    atomic (current_pc_ c).
Definition active_lanes (c : Core) : list nat :=
  List.filter (fun i => bv_bit (tmask_ c) i) (seq 0 num_lanes_).

(** The thread of [MainProc] from the top of its loop to its next wait. *)
Definition main_loop (c : Core) : res (Core * list Request) :=
  if mask Active c =? 0 then mret (set_main MainWait c, []) else
  let '(s, w) := SelectWarp (sched_ c) (mask Active c) in
  let wid := Z.to_nat w in
  let c := set_sched s c in
  let c := set_wmask (bv_of_int num_warps_ (s32 (Z.shiftl 1 w))) c in
  let c := set_executing (wmask_ c) c in
  wpc ← ArbitratePC wid c;
  let c := set_current_pc wpc c in
  let c := UpdateThreadMask wid wpc c in
  let c := map_sinks (set_addr 0 wpc) c in
  mret (set_main (MainFetch wid wpc) c, [SetupTrans false 4 None c 0]).

(** ** Registers and data *)

Definition ReadRegfile (wid : nat) (rs : Z) (c : Core) : nat -> Z :=
  if rs =? kNullReg then fun _ => 0
  else fun i => nth (ToRegfileIndex wid (Z.to_nat rs) + i) (regfile_ (threads c)) 0.
Definition WriteRegfile (wid : nat) (rd : Z) (c : Core) : Core :=
  if (rd =? kNullReg) || (rd =? 0) then c else
  map_threads (fun t => set_regfile (for_active (tmask_ c) num_lanes_ (fun i l =>
    <[(ToRegfileIndex wid (Z.to_nat rd) + i)%nat := nth i (data_buf (sinks c)) 0]> l) (regfile_ t)) t) c.

Definition AdvancePC (wid : nat) (c : Core) : Core :=
  map_threads (fun t => set_ptpc (for_active (tmask_ c) num_lanes_ (fun i l =>
    <[lane_index wid i := u64 (nth (lane_index wid i) l 0 + 4)]> l) (ptpc_ t)) t) c.
Definition UpdatePC (wid : nat) (c : Core) : Core :=
  map_threads (fun t => set_ptpc (for_active (tmask_ c) num_lanes_ (fun i l =>
    <[lane_index wid i := nth i (addr_buf (sinks c)) 0]> l) (ptpc_ t)) t) c.
Definition UpdatePri (wid : nat) (op : ExecFlag) (c : Core) : Core :=
  let factor := if negb (op =? ExecFlag.PRI_RESET) then 1 else 0 in
  let sign := if op =? ExecFlag.PRI_RAISE then 1 else -1 in
  map_threads (fun t => set_ptpri (for_active (tmask_ c) num_lanes_ (fun i l =>
    <[lane_index wid i := u8 (factor * (nth (lane_index wid i) l 0 + sign * pri_buf (sinks c)))]> l) (ptpri_ t)) t) c.
Definition UpdateFflags (wid : nat) (c : Core) : Core :=
  map_threads (fun t => set_ptfflags (for_active (tmask_ c) num_lanes_ (fun i l =>
    <[lane_index wid i := Z.lor (nth (lane_index wid i) l 0) (Z.land (nth i (fflags_buf (sinks c)) 0) 0x1f)]> l)
    (ptfflags_ t)) t) c.

(** The low [len] bytes of a buffer entry as memory writes them. *)
Definition overwrite (len v d : Z) : Z :=
  s64 (Z.lor (Z.ldiff (u64 d) (Z.ones (8 * len))) (Z.land v (Z.ones (8 * len)))).
Definition fill (i : nat) (len v : Z) (c : Core) : Core :=
  map_sinks (fun s => set_data i (overwrite len v (nth i (data_buf s) 0)) s) c.

Definition sign_extend (size : Z) (is_signed : bool) (d : Z) : Z :=
  if (size =? 1) || (size =? 2) || (size =? 4) || (size =? 8)
  then (if is_signed then swrap (8 * size) d else s64 (wrap (8 * size) d)) else d.
Definition SignExtension (size : Z) (is_signed : bool) (c : Core) : Core :=
  map_sinks (fun s => for_active (tmask_ c) num_lanes_ (fun i s =>
    set_data i (sign_extend size is_signed (nth i (data_buf s) 0)) s) s) c.

(** ** CSR instructions *)

Definition apply_op (op : ExecFlag) (mask current : Z) : Z :=
  if op =? ExecFlag.CSRRW then mask else
  if op =? ExecFlag.CSRRS then Z.lor current mask else
  if op =? ExecFlag.CSRRC then Z.ldiff current mask else current.

(** The access of one lane: the old value, and the core. *)
Definition csr_access (wid i : nat) (csr : Z) (f : Z -> Z) (c : Core) : res (Z * Core) :=
  let warp (get : WarpCsrs -> list Z) (set : list Z -> WarpCsrs -> WarpCsrs) :=
    let old_val := nth wid (get (csrs c)) 0 in
    mret (old_val, map_csrs (fun s => set (<[wid := f old_val]> (get s)) s) c) in
  let t := threads c in
  let l := lane_index wid i in
  if (csr =? CSR_CYCLE) || (csr =? CSR_MCYCLE) then mret (mcycle_ c, c) else
  if csr =? CSR_MHARTID then mret (u32 (nth wid (cwid_ (csrs c)) 0 * Z.of_nat num_lanes_ + Z.of_nat i), c) else
  if csr =? CSR_MSCRATCH then warp mscratch_ set_mscratch else
  if csr =? CSR_MCAUSE then warp mcause_ set_mcause else
  if csr =? CSR_MEPC then warp mepc_ set_mepc else
  if csr =? CSR_MTVAL then warp mtval_ set_mtval else
  if csr =? CSR_MINSTRET then warp minstret_ set_minstret else
  if csr =? CSR_FFLAGS then
    let old_val := Z.land (nth l (ptfflags_ t) 0) 0x1f in
    mret (old_val, set_threads (set_ptfflags (<[l := Z.land (f old_val) 0x1f]> (ptfflags_ t)) t) c) else
  if csr =? CSR_FRM then
    let old_val := Z.land (nth l (ptfrm_ t) 0) 0x7 in
    mret (old_val, set_threads (set_ptfrm (<[l := Z.land (f old_val) 0x7]> (ptfrm_ t)) t) c) else
  if csr =? CSR_FCSR then
    let old_val := Z.lor (Z.shiftl (nth l (ptfrm_ t) 0) 5) (Z.land (nth l (ptfflags_ t) 0) 0x1f) in
    let new_val := f old_val in
    mret (old_val, set_threads (set_ptfflags (<[l := Z.land new_val 0x1f]> (ptfflags_ t))
      (set_ptfrm (<[l := Z.land (Z.shiftr new_val 5) 0x7]> (ptfrm_ t)) t)) c) else
  if csr =? CSR_XWID then mret (Z.of_nat wid, c) else
  if csr =? CSR_XACTIVEMASK then
    mret (for_range (fun lane v => if bv_bit (tmask_ c) lane then Z.lor v (Z.shiftl 1 (Z.of_nat lane)) else v)
      0 (Nat.min num_lanes_ 64) 0, c) else
  if csr =? CSR_XLANEID then mret (Z.of_nat i, c) else
  if csr =? CSR_XLANES then mret (Z.of_nat num_lanes_, c) else Err FatalError.

Definition ExecuteCsrOp (wid : nat) (op : ExecFlag) (c : Core) : res Core :=
  for_active (tmask_ c) num_lanes_ (fun i r =>
    c ← r;
    '(old_val, c') ← csr_access wid i (csr_buf (sinks c)) (apply_op op (u64 (nth i (data_buf (sinks c)) 0))) c;
    mret (map_sinks (set_data i (s64 old_val)) c')) (mret c).

(** ** The end of an instruction *)

Definition DecodeTrapVal (flag : ExecFlag) (iword tmask : Z) (addr_buf : list Z) : Z :=
  let first_misaligned alignment :=
    match find_first (fun i => bv_bit tmask i && negb (nth i addr_buf 0 mod alignment =? 0)) num_lanes_ with
    | Some i => nth i addr_buf 0
    | None => 0
    end in
  let e := GetException flag in
  if e =? ExecFlag.ECALL then 0 else
  if e =? ExecFlag.ILLEGAL then iword else
  if e =? ExecFlag.INSTR_ADDR_MISALIGNED then first_misaligned 4 else
  if (e =? ExecFlag.LOAD_ADDR_MISALIGNED) || (e =? ExecFlag.STORE_ADDR_MISALIGNED)
  then first_misaligned (GetMemSize flag) else 0.

Definition trap (wid : nat) (cause epc tval : Z) (c : Core) : res Core :=
  WarpStateTransition Exception_ Active (wmask_ c)
    (map_csrs (fun s => set_mtval (<[wid := tval]> (mtval_ s)) (set_mepc (<[wid := epc]> (mepc_ s))
      (set_mcause (<[wid := cause]> (mcause_ s)) s))) c).

(** After the last wait: CSR, floating-point flags, priority, barrier and exit, then
    the state of the warp. *)
Definition resolve (x : Executing) (c : Core) : res Core :=
  let wid := x_wid x in
  let flag := x_flag x in
  if HasException flag && negb (HasFlag flag ExecFlag.ECALL) then
    trap wid (DecodeExceptionCause flag) (x_wpc x)
      (DecodeTrapVal flag (x_iword x) (tmask_ c) (addr_buf (sinks c))) c
  else if AllExited (lane_state_ c) wid then
    trap wid (DecodeExceptionCause ExecFlag.ECALL) (x_wpc x) 0 c
  else if BarrierReady (lane_state_ c) wid then WarpStateTransition Barrier Active (wmask_ c) c
  else mret c.

Definition commit (x : Executing) (c : Core) : res Core :=
  let wid := x_wid x in
  let flag := x_flag x in
  let c := set_executing 0 c in
  c ← (if HasFlag flag ExecFlag.CSR
       then c ← ExecuteCsrOp wid (GetCsrOp flag) c; mret (WriteRegfile wid (rd (x_instr x)) c) else mret c);
  let c := if HasFlag flag ExecFlag.FP_EXC then UpdateFflags wid c else c in
  let c := if HasFlag flag ExecFlag.PRIORITY then UpdatePri wid (GetPriOp flag) c else c in
  c ← (if HasFlag flag ExecFlag.BARRIER
       then '(_, s) ← ArriveBarrier num_lanes_ wid (tmask_ c) (x_wpc x) (lane_state_ c);
            mret (map_csrs (fun r => set_barrier_pc (<[wid := x_wpc x]> (barrier_pc_ r)) r) (set_lane_state s c))
       else mret c);
  c ← (if HasFlag flag ExecFlag.ECALL
       then s ← Exit num_lanes_ wid (tmask_ c) (lane_state_ c); mret (set_lane_state s c) else mret c);
  c ← resolve x c;
  mret (map_csrs (fun s => set_minstret (<[wid := u64 (nth wid (minstret_ s) 0 + 1)]> (minstret_ s)) s) c).
Definition finish (x : Executing) (c : Core) : res (Core * list Request) :=
  c ← commit x c; main_loop c.

(** ** The instruction between its waits *)

(** [CompleteAbort(wid); continue;] *)
Definition abandon (wid : nat) (c : Core) : res (Core * list Request) :=
  c ← CompleteAbort wid c; main_loop c.

Definition at_store (x : Executing) (c : Core) : res (Core * list Request) :=
  if HasFlag (x_flag x) ExecFlag.STORE
  then mret (set_main (MainStore x) c,
             SetupTrans true (GetMemSize (x_flag x)) None c <$> active_lanes c)
  else finish x c.
Definition after_store (x : Executing) (c : Core) : res (Core * list Request) :=
  if bv_bit (aborting_warps_ c) (x_wid x) then abandon (x_wid x) c else finish x c.

(** The next active lane from [lane] on sends its atomic access. *)
Definition atomic_request (x : Executing) (c : Core) (lane : nat) : Request :=
  SetupTrans false (GetMemSize (x_flag x))
    (Some (DecodeAtomicOp (x_flag x), nth lane (compare_values c) 0)) c lane.
Definition after_atomic (x : Executing) (c : Core) : res (Core * list Request) :=
  let c := SignExtension (GetMemSize (x_flag x)) (IsSigned (x_flag x)) c in
  if bv_bit (aborting_warps_ c) (x_wid x) then abandon (x_wid x) c
  else at_store x (WriteRegfile (x_wid x) (rd (x_instr x)) c).
Definition next_atomic (x : Executing) (lane : nat) (c : Core) : res (Core * list Request) :=
  match find_from (fun i => bv_bit (tmask_ c) i) lane (num_lanes_ - lane) with
  | Some i => mret (set_main (MainAtomic x i) c, [atomic_request x c i])
  | None => after_atomic x c
  end.
Definition at_atomic (rs3_data : nat -> Z) (x : Executing) (c : Core) : res (Core * list Request) :=
  if HasFlag (x_flag x) ExecFlag.ATOMIC then
    let c := if GetAmoOp (x_flag x) =? ExecFlag.AMO_CAS
             then set_compare (for_range (fun i l => <[i := u64 (rs3_data i)]> l) 0 num_lanes_ (compare_values c)) c
             else c in
    next_atomic x 0 c
  else at_store x c.

Definition at_load (x : Executing) (c : Core) : res (Core * list Request) :=
  if HasFlag (x_flag x) ExecFlag.LOAD
  then mret (set_main (MainLoad x) c,
             SetupTrans false (GetMemSize (x_flag x)) None c <$> active_lanes c)
  else at_atomic (ReadRegfile (x_wid x) (rs3 (x_instr x)) c) x c.
Definition after_load (x : Executing) (c : Core) : res (Core * list Request) :=
  if bv_bit (aborting_warps_ c) (x_wid x) then abandon (x_wid x) c else
  let c := SignExtension (GetMemSize (x_flag x)) (IsSigned (x_flag x)) c in
  let c := WriteRegfile (x_wid x) (rd (x_instr x)) c in
  at_atomic (ReadRegfile (x_wid x) (rs3 (x_instr x)) c) x c.

Definition exec_context (wid : nat) (wpc : Z) (instr : Instr) (c : Core) : ExecContext :=
  mkContext wpc (tmask_ c) (ReadRegfile wid (rs1 instr) c) (ReadRegfile wid (rs2 instr) c)
    (ReadRegfile wid (rs3 instr) c) (fun i => nth (lane_index wid i) (ptfrm_ (threads c)) 0) num_lanes_.

Definition after_fetch (wid : nat) (wpc : Z) (c : Core) : res (Core * list Request) :=
  let iword := u32 (nth 0 (data_buf (sinks c)) 0) in
  let c := AdvancePC wid c in
  let instr := Decode iword in
  let '(flag, s) := Execute sf (exec_context wid wpc instr c) instr (sinks c) in
  let c := set_sinks s c in
  let x := mkExecuting wid wpc iword instr flag in
  if bv_bit (aborting_warps_ c) wid then abandon wid c else
  let c := if HasFlag flag ExecFlag.RD_DATA then WriteRegfile wid (rd instr) c else c in
  let c := if HasFlag flag ExecFlag.NEXT_PC then UpdatePC wid c else c in
  at_load x c.

(** ** Steps *)

Inductive event :=
  | EvClock
  | EvCommand (cmd : WarpCtrlCommand)
  | EvWake                                    (* MainProc starts, or an active mask changed *)
  | EvFetched (ok : bool) (iword : Z)         (* [is_response_ok] and the data *)
  | EvLoaded (ok : nat -> bool) (data : nat -> Z) (* of each active lane *)
  | EvAtomic (lane : nat) (ok : bool) (data : Z) (* the payload of [lane] comes back *)
  | EvStored (ok : nat -> bool).

(** The responses of the active lanes; one must not be an error. *)
Definition CollectMemResp (ok : nat -> bool) (c : Core) : res unit := massert (forallb ok (active_lanes c)).

(** An event that does not come where [MainProc] waits does not happen. *)
Definition enabled (e : event) (c : Core) : bool :=
  match e, main_ c with
  | EvClock, _ | EvCommand _, _ => true
  | EvWake, (MainStart | MainWait) => true
  | EvFetched _ _, MainFetch _ _ => true
  | EvLoaded _ _, MainLoad _ => true
  | EvAtomic _ _ _, MainAtomic _ _ => true
  | EvStored _, MainStore _ => true
  | _, _ => false
  end.

Definition step (e : event) (c : Core) : res (Core * list Request) :=
  match e, main_ c with
  | EvClock, _ => mret (McycleIncrement c, [])
  | EvCommand cmd, _ => '(_, c) ← nb_put cmd c; mret (c, [])
  | EvWake, MainStart => main_loop (set_cmd_ready true c)
  | EvWake, MainWait => main_loop c
  | EvFetched ok iword, MainFetch wid wpc =>
      massert ok;; after_fetch wid wpc (fill 0 4 iword c)
  | EvLoaded ok data, MainLoad x =>
      CollectMemResp ok c;;
      after_load x (for_active (tmask_ c) num_lanes_ (fun i => fill i (GetMemSize (x_flag x)) (data i)) c)
  | EvAtomic i ok data, MainAtomic x lane =>
      massert (i =? lane)%nat;; massert ok;;
      next_atomic x (lane + 1) (fill lane (GetMemSize (x_flag x)) data c)
  | EvStored ok, MainStore x => CollectMemResp ok c;; after_store x c
  | _, _ => mret (c, [])
  end.

Definition run (es : list event) (c : Core) : res Core :=
  foldl (fun r e => c ← r; '(c, _) ← step e c; mret c) (mret c) es.

End core.
