(* ===== verification/SmInv.v ===== *)
(** * The atomic core implements the warp-control interface

    A simulation of the core of SmCore.v by the general core the work-group initializer
    is verified against (WgInit.v): the four masks always say of each warp exactly one
    state, a command does what [core_apply] says, and what the core does by itself is a
    sequence of its moves. On the way, the assertions of the core hold. *)

From stdpp Require Import relations.
From S2P Require Import Prelude WgInit SimFifo SmEncoding SmInstr SmExec SmSched SmCore.

(** ** Bits *)

Lemma bv_ext x y : (forall i, bv_bit x i = bv_bit y i) -> x = y.
Proof.
  intros H. apply Z.bits_inj'. intros i Hi. specialize (H (Z.to_nat i)). unfold bv_bit in H.
  by rewrite Z2Nat.id in H.
Qed.
Lemma bv_bit_0 i : bv_bit 0 i = false.
Proof. apply Z.bits_0. Qed.
Lemma bv_bit_land x y i : bv_bit (Z.land x y) i = bv_bit x i && bv_bit y i.
Proof. apply Z.land_spec. Qed.
Lemma bv_bit_lor x y i : bv_bit (Z.lor x y) i = bv_bit x i || bv_bit y i.
Proof. apply Z.lor_spec. Qed.
Lemma bv_bit_lxor x y i : bv_bit (Z.lxor x y) i = xorb (bv_bit x i) (bv_bit y i).
Proof. apply Z.lxor_spec. Qed.
Lemma bv_bit_ldiff x y i : bv_bit (Z.ldiff x y) i = bv_bit x i && negb (bv_bit y i).
Proof. apply Z.ldiff_spec. Qed.
Lemma bv_bit_ones n i : bv_bit (bv_ones n) i = bool_decide (i < n)%nat.
Proof.
  unfold bv_bit, bv_ones. case_bool_decide.
  - apply Z.ones_spec_low. lia.
  - apply Z.ones_spec_high. lia.
Qed.
Lemma bv_bit_not n x i : bv_bit (bv_not n x) i = bool_decide (i < n)%nat && negb (bv_bit x i).
Proof. unfold bv_not. by rewrite bv_bit_ldiff, bv_bit_ones. Qed.
Lemma bv_bit_pow2 w i : bv_bit (2 ^ Z.of_nat w) i = bool_decide (i = w).
Proof.
  unfold bv_bit. rewrite Z.pow2_bits_eqb by lia. case_bool_decide; [subst; apply Z.eqb_refl|].
  apply Z.eqb_neq. lia.
Qed.
Lemma bv_bit_clear x w i : bv_bit (Z.clearbit x (Z.of_nat w)) i = bv_bit x i && negb (bool_decide (i = w)).
Proof.
  unfold bv_bit. rewrite Z.clearbit_eqb by lia. f_equal. f_equal.
  case_bool_decide; [subst; apply Z.eqb_refl|]. apply Z.eqb_neq. lia.
Qed.
Lemma bv_bit_set x w i : bv_bit (Z.setbit x (Z.of_nat w)) i = bool_decide (i = w) || bv_bit x i.
Proof.
  unfold bv_bit. rewrite Z.setbit_eqb by lia. f_equal.
  case_bool_decide; [subst; apply Z.eqb_refl|]. apply Z.eqb_neq. lia.
Qed.
#[global] Hint Rewrite bv_bit_0 bv_bit_land bv_bit_lor bv_bit_lxor bv_bit_ldiff bv_bit_ones bv_bit_not bv_bit_pow2
  bv_bit_clear bv_bit_set : bits.

(** ** Computations that fail at most with a fatal error *)

Definition good {A} (Q : A -> Prop) (r : res A) : Prop :=
  match r with Ok a => Q a | Err f => f = FatalError end.
Lemma good_bind {A B} (Q : A -> Prop) (P : B -> Prop) (m : res A) (f : A -> res B) :
  good Q m -> (forall a, Q a -> good P (f a)) -> good P (m ≫= f).
Proof. destruct m; simpl; auto. Qed.
Lemma good_mono {A} (Q P : A -> Prop) (r : res A) : good Q r -> (forall a, Q a -> P a) -> good P r.
Proof. destruct r; simpl; auto. Qed.
Lemma good_massert {A} (P : A -> Prop) b (m : res A) : b = true -> good P m -> good P (massert b;; m).
Proof. by intros ->. Qed.

(** ** The simulation relation *)

Definition state_of (m : mask_name) : warp_state :=
  match m with
  | Idle => WarpIdle
  | Active => WarpActive
  | Barrier => WarpBarrier
  | Exception_ => WarpException
  end.

(** What the general core does by itself. *)
Definition moves : list warp -> list warp -> Prop := rtc (fun a b => exists m, b = core_step m a).

Section inv.
Context {S : Type} `{WarpSched S} (sf : SoftFloat) (num_lanes num_warps : nat).
Context (sched_ok : nat -> S -> Prop) `{!SchedLaws num_warps S sched_ok}.
Context (Hlanes : (0 < num_lanes)%nat) (Hwarps : (num_warps <= 32)%nat).
Abbreviation Core := (AtomicCore S).

Definition in_lanes (x : Z) : Prop := forall l, bv_bit x l = true -> (l < num_lanes)%nat.

(** The cached state of each warp is the state of its masks. *)
Record lanes_ok (s : WarpLaneState) : Prop := {
  l_barrier : length (barrier_ s) = num_warps;
  l_exited : length (exited_ s) = num_warps;
  l_states : length (states_ s) = num_warps;
  l_lanes : forall i, in_lanes (nth i (barrier_ s) 0) /\ in_lanes (nth i (exited_ s) 0);
  l_cached : forall i, (i < num_warps)%nat ->
    nth i (states_ s) kRunnable = lane_state_of num_lanes (nth i (barrier_ s) 0) (nth i (exited_ s) 0);
}.

(** The core shows the warps [ws]. *)
Record shows (c : Core) (ws : list warp) : Prop := {
  s_length : length ws = num_warps;
  s_masks : forall m i,
    bv_bit (mask m c) i = bool_decide ((i < num_warps)%nat /\ w_state (warp_at ws i) = state_of m);
  s_abort : forall i, bv_bit (aborting_warps_ c) i = bool_decide (i < num_warps)%nat && w_stopping (warp_at ws i);
  s_stopping : forall i, w_stopping (warp_at ws i) = true -> w_state (warp_at ws i) = WarpActive;
  s_trap : forall i, (i < num_warps)%nat -> w_state (warp_at ws i) = WarpException ->
    w_mcause (warp_at ws i) = nth i (mcause_ (csrs c)) 0 /\ w_mepc (warp_at ws i) = nth i (mepc_ (csrs c)) 0 /\
    w_mtval (warp_at ws i) = nth i (mtval_ (csrs c)) 0;
  s_barrier_pc : forall i, (i < num_warps)%nat -> w_state (warp_at ws i) = WarpBarrier ->
    w_barrier_pc (warp_at ws i) = nth i (barrier_pc_ (csrs c)) 0;
  s_csrs : length (mcause_ (csrs c)) = num_warps /\ length (mepc_ (csrs c)) = num_warps /\
    length (mtval_ (csrs c)) = num_warps /\ length (barrier_pc_ (csrs c)) = num_warps;
  s_lanes : lanes_ok (lane_state_ c);
  s_tmask : in_lanes (tmask_ c);
}.

(** Active warps have a lane that can run, warps at a barrier have none. *)
Definition settled (c : Core) (ws : list warp) (i : nat) : Prop :=
  (w_state (warp_at ws i) = WarpActive -> nth i (states_ (lane_state_ c)) kRunnable = kRunnable) /\
  (w_state (warp_at ws i) = WarpBarrier -> nth i (states_ (lane_state_ c)) kRunnable = kBarrier).

(** Warp [w] executes. *)
Record executes (w : nat) (c : Core) (ws : list warp) : Prop := {
  e_warp : (w < num_warps)%nat;
  e_active : w_state (warp_at ws w) = WarpActive;
  e_executing : executing_mask_ c = 2 ^ Z.of_nat w;
  e_wmask : wmask_ c = 2 ^ Z.of_nat w;
  e_stopping : forall i, w_stopping (warp_at ws i) = true -> i = w;
  e_tmask : tmask_ c <> 0;
  e_runnable : forall l, bv_bit (tmask_ c) l = true -> LaneRunnable (lane_state_ c) w l = true;
}.
Definition rests (c : Core) (ws : list warp) : Prop :=
  executing_mask_ c = 0 /\ forall i, w_stopping (warp_at ws i) = false.

Definition main_warp (m : main_pc) : option nat :=
  match m with
  | MainStart | MainWait => None
  | MainFetch wid _ => Some wid
  | MainLoad x | MainAtomic x _ | MainStore x => Some (x_wid x)
  end.

(** The invariant at the points where [MainProc] waits; [k] selections are left. *)
Record core_inv (k : nat) (c : Core) (ws : list warp) : Prop := {
  i_shows : shows c ws;
  i_settled : forall i, (i < num_warps)%nat -> settled c ws i;
  i_main : match main_warp (main_ c) with None => rests c ws | Some w => executes w c ws end;
  i_ready : cmd_ready_ c = negb (match main_ c with MainStart => true | _ => false end);
  i_sched : sched_ok k (sched_ c);
}.

(** ** Transitions *)

Definition shape (c : Core) (f : nat -> warp_state) : Prop := forall m i,
  bv_bit (mask m c) i = bool_decide ((i < num_warps)%nat /\ f i = state_of m).

Lemma state_of_inj a b : state_of a = state_of b -> a = b.
Proof. by destruct a, b. Qed.

Lemma transition_ok to from cwm c f : shape c f -> to <> from ->
  (forall i, bv_bit cwm i = true -> (i < num_warps)%nat /\ f i = state_of from) ->
  exists w, WarpStateTransition to from cwm c = Ok (set_masks w c) /\
    shape (set_masks w c) (fun i => if bv_bit cwm i then state_of to else f i).
Proof.
  intros Hs Hne Hc. unfold WarpStateTransition.
  rewrite (proj2 (Z.eqb_eq (Z.land (mask from c) cwm) cwm)); [|apply bv_ext; intros i; rewrite bv_bit_land].
  2: { destruct (bv_bit cwm i) eqn:E; [|apply andb_false_r]. rewrite Hs, bool_decide_true; [done|by apply Hc]. }
  rewrite (proj2 (Z.eqb_eq (Z.land (mask to c) cwm) 0)); [|apply bv_ext; intros i; rewrite bv_bit_land, bv_bit_0].
  2: { destruct (bv_bit cwm i) eqn:E; [|apply andb_false_r]. rewrite Hs, bool_decide_false; [done|].
       intros [_ Ef]. destruct (Hc i E) as [_ Ef']. rewrite Ef in Ef'. by apply state_of_inj in Ef'; subst. }
  eexists. split; [done|]. intros m i.
  match goal with |- context [set_masks ?w c] => assert (Em : bv_bit (mask m (set_masks w c)) i =
    if decide (m = from \/ m = to) then xorb (bv_bit (mask m c) i) (bv_bit cwm i) else bv_bit (mask m c) i) end.
  { unfold mask. destruct m, to, from; simpl; try done; by rewrite ?bv_bit_lxor. }
  rewrite Em, Hs. clear Em. destruct (bv_bit cwm i) eqn:E; [|by case_decide; rewrite ?xorb_false_r].
  destruct (Hc i E) as [Hi ->].
  assert (Hb : forall a b, bool_decide ((i < num_warps)%nat /\ state_of a = state_of b) = bool_decide (a = b)).
  { intros a b. apply bool_decide_ext. split; [by intros [_ ?%state_of_inj]|by intros ->]. }
  rewrite !Hb. clear Hb Hs Hc. case_decide as Hm; [destruct Hm as [-> | ->]|].
  - by rewrite bool_decide_true, bool_decide_false.
  - by rewrite bool_decide_false, bool_decide_true.
  - by rewrite !bool_decide_false by (intros ->; apply Hm; tauto).
Qed.

(** ** Changes that leave the control state alone *)

(** Only the threads, the buffers and the CSRs of warp [w] change. *)
Record frame (w : nat) (c c' : Core) : Prop := {
  f_masks : masks c' = masks c;
  f_lanes : lane_state_ c' = lane_state_ c;
  f_aborting : aborting_warps_ c' = aborting_warps_ c;
  f_executing : executing_mask_ c' = executing_mask_ c;
  f_wmask : wmask_ c' = wmask_ c;
  f_tmask : tmask_ c' = tmask_ c;
  f_ready : cmd_ready_ c' = cmd_ready_ c;
  f_sched : sched_ c' = sched_ c;
  f_main : main_ c' = main_ c;
  f_csrs : forall get, get ∈ [mcause_; mepc_; mtval_; barrier_pc_] ->
    length (get (csrs c')) = length (get (csrs c)) /\
    forall i, i <> w -> nth i (get (csrs c')) 0 = nth i (get (csrs c)) 0;
}.
#[local] Instance frame_preorder w : PreOrder (frame w).
Proof.
  split.
  - intros c. split; try done. 
  - intros a b c [] []. split; try congruence. intros get Hg.
    destruct (f_csrs0 get Hg) as [? Ha], (f_csrs1 get Hg) as [? Hb]. split; [congruence|].
    intros i Hi. rewrite Hb by done. by apply Ha.
Qed.
Lemma frame_threads w t c : frame w c (set_threads t c).
Proof. by split. Qed.
Lemma frame_sinks w s c : frame w c (set_sinks s c).
Proof. by split. Qed.
Lemma frame_csrs w (c : Core) r :
  (forall get, get ∈ [mcause_; mepc_; mtval_; barrier_pc_] ->
    get r = get (csrs c) \/ exists v, get r = <[w := v]> (get (csrs c))) -> frame w c (set_csrs r c).
Proof.
  intros Hr. split; try done. intros get Hg. cbn [csrs set_csrs].
  destruct (Hr get Hg) as [-> |[v ->]]; [done|]. rewrite length_insert. split; [done|].
  intros i Hi. by rewrite !nth_lookup, list_lookup_insert_ne.
Qed.

Lemma frame_WriteRegfile w wid r c : frame w c (WriteRegfile num_lanes wid r c).
Proof. unfold WriteRegfile. case_match; [done|]. apply frame_threads. Qed.
Lemma frame_AdvancePC w wid c : frame w c (AdvancePC num_lanes wid c).
Proof. apply frame_threads. Qed.
Lemma frame_UpdatePC w wid c : frame w c (UpdatePC num_lanes wid c).
Proof. apply frame_threads. Qed.
Lemma frame_UpdatePri w wid op c : frame w c (UpdatePri num_lanes wid op c).
Proof. apply frame_threads. Qed.
Lemma frame_UpdateFflags w wid c : frame w c (UpdateFflags num_lanes wid c).
Proof. apply frame_threads. Qed.
Lemma frame_SignExtension w size b c : frame w c (SignExtension num_lanes size b c).
Proof. apply frame_sinks. Qed.
Lemma frame_fill w i len v c : frame w c (fill i len v c).
Proof. apply frame_sinks. Qed.
Lemma frame_compare w l c : frame w c (set_compare l c).
Proof. by split. Qed.

Lemma frame_for_active w m n (f : nat -> Core -> Core) c :
  (forall i c, frame w c (f i c)) -> frame w c (for_active m n f c).
Proof.
  intros Hf. unfold for_active. apply (for_range_ind (fun _ c' => frame w c c')); [done|].
  intros j b _ Hb. case_match; [|done]. by etrans; [|apply Hf].
Qed.

Lemma frame_csr_access w i csr f c : good (fun '(_, c') => frame w c c') (csr_access num_lanes w i csr f c).
Proof.
  unfold csr_access. repeat case_match; simpl; try done; try apply frame_threads.
  all: apply frame_csrs; intros get Hg; set_unfold in Hg; destruct_or! Hg; subst; simpl; eauto.
Qed.
Lemma frame_ExecuteCsrOp w op c : good (frame w c) (ExecuteCsrOp num_lanes w op c).
Proof.
  unfold ExecuteCsrOp, for_active.
  apply (for_range_ind (fun _ r => good (frame w c) r)); [done|].
  intros j r _ Hr. case_match; [|done]. eapply good_bind; [exact Hr|]. intros c1 H1.
  eapply good_bind; [apply frame_csr_access|]. intros [v c2] H2. simpl.
  etrans; [exact H1|]. etrans; [exact H2|]. apply frame_sinks.
Qed.

Lemma shows_frame w c c' ws : frame w c c' -> w_state (warp_at ws w) = WarpActive -> shows c ws -> shows c' ws.
Proof.
  intros [Em El Ea _ _ Et _ _ _ Ec] Hw [? Hm Hab Hst Htr Hbp (L1 & L2 & L3 & L4) Hl Ht].
  destruct (Ec mcause_) as [Lc Nc]; [set_solver|]. destruct (Ec mepc_) as [Le Ne]; [set_solver|].
  destruct (Ec mtval_) as [Lt Nt]; [set_solver|]. destruct (Ec barrier_pc_) as [Lb Nb]; [set_solver|].
  split; unfold mask; rewrite ?Em, ?Ea, ?El, ?Et; try done.
  - intros i Hi Hs. assert (i <> w) by congruence. rewrite Nc, Ne, Nt by done. by apply Htr.
  - intros i Hi Hs. assert (i <> w) by congruence. rewrite Nb by done. by apply Hbp.
  - split_and!; congruence.
Qed.
Lemma settled_frame w c c' ws i : frame w c c' -> settled c ws i -> settled c' ws i.
Proof. intros [_ El]. unfold settled. by rewrite El. Qed.
Lemma executes_frame w c c' ws : frame w c c' -> executes w c ws -> executes w c' ws.
Proof.
  intros [_ El _ Ee Ew Et] []. split; try congruence; [done|]. intros l. rewrite Et, El. auto.
Qed.

(** ** Selecting a warp *)

Lemma bv_exists n x : (forall i, bv_bit x i = true -> (i < n)%nat) -> x <> 0 -> exists i, bv_bit x i = true.
Proof.
  intros Hb Hx. destruct (find_first (bv_bit x) n) as [i|] eqn:E.
  { apply find_first_Some in E as (_ & Hi & _). eauto. }
  rewrite find_first_None in E. exfalso. apply Hx. apply bv_ext. intros i. rewrite bv_bit_0.
  destruct (bv_bit x i) eqn:Ei; [|done]. by rewrite E in Ei by auto.
Qed.

Lemma runnable_lane s i : lanes_ok s -> (i < num_warps)%nat -> nth i (states_ s) kRunnable = kRunnable ->
  exists l, (l < num_lanes)%nat /\ LaneRunnable s i l = true.
Proof.
  intros [_ _ _ Hl Hc] Hi Hs. rewrite Hc in Hs by done. unfold lane_state_of, and_reduce in Hs.
  set (b := nth i (barrier_ s) 0) in *. set (e := nth i (exited_ s) 0) in *.
  destruct (find_first (LaneRunnable s i) num_lanes) as [l|] eqn:Ef.
  { apply find_first_Some in Ef as (Hln & Hr & _). eauto. }
  rewrite find_first_None in Ef. exfalso.
  assert (E : Z.lor b e = bv_ones num_lanes).
  { apply bv_ext. intros l. rewrite bv_bit_lor, bv_bit_ones. destruct (Hl i) as [Hb He].
    case_bool_decide as Hln.
    - specialize (Ef l Hln). unfold LaneRunnable in Ef. fold b e in Ef.
      by destruct (bv_bit b l), (bv_bit e l).
    - destruct (bv_bit b l) eqn:Eb; [by apply Hb in Eb|]. destruct (bv_bit e l) eqn:Ee; [by apply He in Ee|]. done. }
  rewrite E, Z.eqb_refl in Hs. by destruct (e =? bv_ones num_lanes).
Qed.

(** The lane whose PC the warp takes: the first of the runnable lanes of the highest
    priority. *)
Lemma arbitrate_spec wid (c : Core) :
  let pri i := nth (lane_index num_lanes wid i) (ptpri_ (threads c)) 0 in
  let run i := LaneRunnable (lane_state_ c) wid i = true in
  let '(found, l, p) := arbitrate num_lanes wid c in
  if (found : bool) then (l < num_lanes)%nat /\ run l /\ p = pri l /\
    (forall i, (i < num_lanes)%nat -> run i -> pri i <= pri l) /\
    (forall i, (i < l)%nat -> run i -> pri i < pri l)
  else forall i, (i < num_lanes)%nat -> ~ run i.
Proof.
  intros pri run. unfold arbitrate.
  refine (for_range_ind (fun n '(found, l, p) =>
    if (found : bool) then (l < n)%nat /\ run l /\ p = pri l /\
      (forall i, (i < n)%nat -> run i -> pri i <= pri l) /\ (forall i, (i < l)%nat -> run i -> pri i < pri l)
    else forall i, (i < n)%nat -> ~ run i) _ 0 num_lanes _ _ _); [intros; lia|].
  intros j [[found l] p] Hj Hb. fold (pri j).
  assert (Hcase : forall i, (i < Datatypes.S j)%nat -> (i < j)%nat \/ i = j) by lia.
  destruct (LaneRunnable (lane_state_ c) wid j) eqn:Er; simpl.
  - destruct found; simpl.
    + destruct Hb as (Hl & Hr & -> & Hmax & Hmin). bcase.
      * split_and!; [lia|done|done| |].
        -- intros i Hi Hri. destruct (Hcase i Hi) as [Hi'| ->]; [|lia]. specialize (Hmax i Hi' Hri). lia.
        -- intros i Hi Hri. specialize (Hmax i Hi Hri). lia.
      * split_and!; [lia|done|done| |done].
        intros i Hi Hri. destruct (Hcase i Hi) as [Hi'| ->]; [by apply Hmax|lia].
    + split_and!; [lia|done|done| |].
      * intros i Hi Hri. destruct (Hcase i Hi) as [Hi'| ->]; [by destruct (Hb i Hi')|lia].
      * intros i Hi Hri. by destruct (Hb i Hi).
  - destruct found.
    + destruct Hb as (Hl & Hr & -> & Hmax & Hmin). split_and!; [lia|done|done| |done].
      intros i Hi Hri. destruct (Hcase i Hi) as [Hi'| ->]; [by apply Hmax|]. unfold run in Hri. congruence.
    + intros i Hi. destruct (Hcase i Hi) as [Hi'| ->]; [by apply Hb|]. unfold run. congruence.
Qed.

(** The threads of the instruction: the runnable lanes at the PC. *)
Lemma UpdateThreadMask_bit wid wpc (c : Core) i : in_lanes (tmask_ c) ->
  bv_bit (tmask_ (UpdateThreadMask num_lanes wid wpc c)) i =
  bool_decide (i < num_lanes)%nat && LaneRunnable (lane_state_ c) wid i &&
    (nth (lane_index num_lanes wid i) (ptpc_ (threads c)) 0 =? wpc).
Proof.
  intros Ht. unfold UpdateThreadMask. cbn [tmask_ set_tmask].
  set (on i := LaneRunnable (lane_state_ c) wid i && (nth (lane_index num_lanes wid i) (ptpc_ (threads c)) 0 =? wpc)).
  rewrite <- andb_assoc. fold (on i).
  assert (E : forall m, bv_bit (for_range (fun i m => if on i then Z.setbit m (Z.of_nat i)
      else Z.clearbit m (Z.of_nat i)) 0 num_lanes m) i =
    if bool_decide (i < num_lanes)%nat then on i else bv_bit m i).
  { intros m. refine (for_range_ind (fun n r => bv_bit r i = if bool_decide (i < n)%nat then on i else bv_bit m i)
      _ 0 num_lanes m _ _); [done|].
    intros j b _ Hb. destruct (on j) eqn:Eo; rewrite ?bv_bit_set, ?bv_bit_clear, Hb;
      repeat case_bool_decide; subst; simpl; try lia; rewrite ?andb_true_r, ?andb_false_r, ?Eo; try done. }
  rewrite E. case_bool_decide; [done|]. destruct (bv_bit (tmask_ c) i) eqn:Eb; [by apply Ht in Eb|done].
Qed.

Lemma wmask_pow2 w : (w < num_warps)%nat ->
  bv_of_int num_warps (s32 (Z.shiftl 1 (Z.of_nat w))) = 2 ^ Z.of_nat w.
Proof.
  intros Hw. apply bv_ext. intros i. unfold bv_of_int. rewrite bv_bit_land, bv_bit_ones, bv_bit_pow2.
  rewrite Z.shiftl_1_l. unfold swrap.
  assert (Hp : 2 ^ Z.of_nat w < 2 ^ 32) by (apply Z.pow_lt_mono_r; lia).
  rewrite Z.mod_small by lia. case_match eqn:E.
  - fold (bv_bit (2 ^ Z.of_nat w) i). rewrite bv_bit_pow2. repeat case_bool_decide; simpl; try lia; done.
  - apply Z.ltb_ge in E. assert (w = 31%nat) as ->.
    { assert (~ Z.of_nat w < 31); [|lia]. intros Hlt. apply (Z.pow_lt_mono_r 2) in Hlt; lia. }
    case_bool_decide; [|by rewrite andb_false_r, bool_decide_false by lia].
    rewrite andb_true_r. case_bool_decide; [by subst|].
    change (2 ^ Z.of_nat 31 - 2 ^ 32) with (- 2 ^ 31). unfold bv_bit.
    rewrite Z.bits_opp by lia. rewrite <- Z.ones_equiv || idtac.
    replace (Z.pred (2 ^ 31)) with (Z.ones 31) by done. rewrite Z.ones_spec_low by lia. done.
Qed.

Lemma shows_keep c c' ws : masks c' = masks c -> lane_state_ c' = lane_state_ c ->
  aborting_warps_ c' = aborting_warps_ c -> csrs c' = csrs c -> in_lanes (tmask_ c') -> shows c ws -> shows c' ws.
Proof. intros Em El Ea Ec Ht []. split; unfold mask; rewrite ?Em, ?Ea, ?El, ?Ec; done. Qed.

(** At the top of the loop of [MainProc]. *)
Record at_top (k : nat) (c : Core) (ws : list warp) : Prop := {
  t_shows : shows c ws;
  t_settled : forall i, (i < num_warps)%nat -> settled c ws i;
  t_rests : rests c ws;
  t_ready : cmd_ready_ c = true;
  t_sched : sched_ok k (sched_ c);
}.

Lemma mask_bound m c ws i : shows c ws -> bv_bit (mask m c) i = true -> (i < num_warps)%nat.
Proof. intros Hs Hb. rewrite (s_masks _ _ Hs) in Hb. by apply bool_decide_eq_true in Hb as []. Qed.

Lemma main_loop_good k c ws : at_top (Datatypes.S k) c ws ->
  good (fun '(c', _) => core_inv k c' ws) (main_loop num_lanes num_warps c).
Proof.
  intros [Hs Hset [He Hst] Hr Hk]. unfold main_loop. destruct (mask Active c =? 0) eqn:E0.
  { split; simpl; [by eapply shows_keep; [..|exact (s_tmask _ _ Hs)|exact Hs]|done|done|done|].
    eapply sched_ok_mono; [|exact Hk]. lia. }
  apply Z.eqb_neq in E0.
  destruct (bv_exists num_warps (mask Active c)) as [i Hi]; [by intros i; apply mask_bound with (1 := Hs)|done|].
  destruct (sched_select k (sched_ c) (mask Active c) Hk) as (w & Ew & Hw & Hb & Hk').
  { exists i. split; [by eapply mask_bound|done]. }
  destruct (SelectWarp (sched_ c) (mask Active c)) as [s v]. cbn [fst snd] in *. subst v.
  rewrite Nat2Z.id.
  assert (Hact : w_state (warp_at ws w) = WarpActive).
  { fold (bv_bit (mask Active c) w) in Hb. rewrite (s_masks _ _ Hs) in Hb. by apply bool_decide_eq_true in Hb as []. }
  set (c1 := set_executing _ _).
  destruct (runnable_lane (lane_state_ c) w (s_lanes _ _ Hs) Hw (proj1 (Hset w Hw) Hact)) as (l0 & Hl0 & Hr0).
  pose proof (arbitrate_spec w c1) as Ha. unfold ArbitratePC.
  destruct (arbitrate num_lanes w c1) as [[found l] p]. cbv zeta in Ha.
  destruct found; [|by destruct (Ha l0 Hl0)]. destruct Ha as (Hl & Hrl & _).
  simpl massert. set (wpc := nth _ _ 0).
  assert (Ht : in_lanes (tmask_ (set_current_pc wpc c1))) by apply (s_tmask _ _ Hs).
  cbn [mbind res_bind mret res_ret good].
  pose proof (fun i => UpdateThreadMask_bit w wpc (set_current_pc wpc c1) i Ht) as Hbit.
  set (c2 := UpdateThreadMask _ _ _ _) in *.
  split.
  - eapply shows_keep; [..|exact Hs]; try done. intros j Hj. change (bv_bit (tmask_ c2) j = true) in Hj.
    rewrite Hbit in Hj. repeat apply andb_true_iff in Hj as [Hj ?]. by apply bool_decide_eq_true in Hj.
  - done.
  - simpl. split; simpl; [done|done| | |intros j Hj; by rewrite Hst in Hj| |].
    + by apply wmask_pow2.
    + by apply wmask_pow2.
    + change (tmask_ c2 <> 0). intros E. specialize (Hbit l). rewrite E, bv_bit_0 in Hbit.
      rewrite bool_decide_true in Hbit by done. change (lane_state_ _) with (lane_state_ c1) in Hbit.
      rewrite Hrl in Hbit. change (threads (set_current_pc wpc c1)) with (threads c1) in Hbit.
      subst wpc. by rewrite Z.eqb_refl in Hbit.
    + intros j Hj. change (bv_bit (tmask_ c2) j = true) in Hj. rewrite Hbit in Hj.
      by repeat apply andb_true_iff in Hj as [Hj ?].
  - by rewrite <- Hr.
  - done.
Qed.

(** ** Moves of one warp *)

Lemma warp_at_alter g w (ws : list warp) i : (w < length ws)%nat ->
  warp_at (alter g w ws) i = if decide (i = w) then g (warp_at ws w) else warp_at ws i.
Proof.
  intros Hw. unfold warp_at. rewrite !nth_lookup. case_decide as E.
  - subst. rewrite list_lookup_alter_eq. by destruct (lookup_lt_is_Some_2 ws w Hw) as [x ->].
  - by rewrite list_lookup_alter_ne.
Qed.

(** The CSRs a warp shows are those of the other warps as before. *)
Definition csrs_but (w : nat) (c c' : Core) : Prop := forall get, get ∈ [mcause_; mepc_; mtval_; barrier_pc_] ->
  length (get (csrs c')) = length (get (csrs c)) /\ forall i, i <> w -> nth i (get (csrs c')) 0 = nth i (get (csrs c)) 0.

(** What the registers of warp [i] show of [x]. *)
Definition registers_show (c : Core) (i : nat) (x : warp) : Prop :=
  (w_state x = WarpException -> w_mcause x = nth i (mcause_ (csrs c)) 0 /\ w_mepc x = nth i (mepc_ (csrs c)) 0 /\
    w_mtval x = nth i (mtval_ (csrs c)) 0) /\
  (w_state x = WarpBarrier -> w_barrier_pc x = nth i (barrier_pc_ (csrs c)) 0).

Lemma shows_alter w g c c' ws : shows c ws -> (w < num_warps)%nat ->
  shape c' (fun i => if decide (i = w) then w_state (g (warp_at ws w)) else w_state (warp_at ws i)) ->
  (forall i, bv_bit (aborting_warps_ c') i =
    bool_decide (i < num_warps)%nat && (if decide (i = w) then false else w_stopping (warp_at ws i))) ->
  w_stopping (g (warp_at ws w)) = false -> registers_show c' w (g (warp_at ws w)) -> csrs_but w c c' ->
  lane_state_ c' = lane_state_ c -> tmask_ c' = tmask_ c ->
  shows c' (alter g w ws).
Proof.
  intros [Hlen Hm Hab Hst Htr Hbp (L1 & L2 & L3 & L4) Hl Ht] Hw Hsh Hab' Hst' [Hx Hb] Hc El Et.
  destruct (Hc mcause_) as [Lc Nc]; [set_solver|]. destruct (Hc mepc_) as [Le Ne]; [set_solver|].
  destruct (Hc mtval_) as [Lt Nt]; [set_solver|]. destruct (Hc barrier_pc_) as [Lb Nb]; [set_solver|].
  assert (Hat : forall i, warp_at (alter g w ws) i = if decide (i = w) then g (warp_at ws w) else warp_at ws i)
    by (intros i; apply warp_at_alter; lia).
  split; rewrite ?El, ?Et; try done.
  - by rewrite length_alter.
  - intros m i. rewrite Hsh. rewrite Hat. by case_decide.
  - intros i. rewrite Hab', Hat. by case_decide; [rewrite Hst'|].
  - intros i. rewrite Hat. case_decide; [congruence|auto].
  - intros i Hi. rewrite Hat. case_decide; [by subst|]. rewrite Nc, Ne, Nt by done. by apply Htr.
  - intros i Hi. rewrite Hat. case_decide; [by subst|]. rewrite Nb by done. by apply Hbp.
  - split_and!; congruence.
Qed.

Lemma settled_alter w g c c' ws i : i <> w -> (w < length ws)%nat -> lane_state_ c' = lane_state_ c ->
  settled c ws i -> settled c' (alter g w ws) i.
Proof.
  intros Hi Hw El. unfold settled. rewrite El, warp_at_alter by done. by rewrite decide_False by done.
Qed.

(** The transition of the executing warp out of the active state. *)
Lemma leave_active (to : mask_name) w c ws : shows c ws -> (w < num_warps)%nat ->
  w_state (warp_at ws w) = WarpActive -> to <> Active ->
  exists m, WarpStateTransition to Active (2 ^ Z.of_nat w) c = Ok (set_masks m c) /\
    shape (set_masks m c) (fun i => if decide (i = w) then state_of to else w_state (warp_at ws i)).
Proof.
  intros Hs Hw Ha Hto.
  destruct (transition_ok to Active (2 ^ Z.of_nat w) c (fun i => w_state (warp_at ws i))) as (m & Em & Hsh).
  { exact (s_masks _ _ Hs). }
  { done. }
  { intros i Hi. rewrite bv_bit_pow2 in Hi. apply bool_decide_eq_true in Hi as ->. done. }
  exists m. split; [done|]. intros k i. rewrite Hsh, bv_bit_pow2.
  destruct (decide (i = w)); [by rewrite (bool_decide_true (i = w))|by rewrite (bool_decide_false (i = w))].
Qed.

Lemma move_step m ws : moves ws (core_step m ws).
Proof. apply rtc_once. eauto. Qed.

(** An aborted warp becomes idle. *)
Lemma abandon_good k w c ws : shows c ws -> (forall i, (i < num_warps)%nat -> settled c ws i) ->
  executes w c ws -> cmd_ready_ c = true -> sched_ok (Datatypes.S k) (sched_ c) ->
  bv_bit (aborting_warps_ c) w = true ->
  good (fun '(c', _) => exists ws', moves ws ws' /\ core_inv k c' ws') (abandon num_lanes num_warps w c).
Proof.
  intros Hs Hset Hx Hr Hk Hab. unfold abandon, CompleteAbort. rewrite Hab. simpl massert.
  cbn [mbind res_bind]. set (c0 := set_executing 0 _).
  pose proof (e_warp _ _ _ Hx) as Hw.
  assert (Hs0 : shape c0 (fun i => w_state (warp_at ws i))) by exact (s_masks _ _ Hs).
  rewrite (e_wmask _ _ _ Hx).
  destruct (transition_ok Idle Active (2 ^ Z.of_nat w) c0 _ Hs0) as (m & -> & Hsh); [done| |].
  { intros i Hi. rewrite bv_bit_pow2 in Hi. apply bool_decide_eq_true in Hi as ->. split; [done|apply Hx]. }
  assert (Hstop : w_stopping (warp_at ws w) = true).
  { rewrite (s_abort _ _ Hs) in Hab. by apply andb_true_iff in Hab as []. }
  cbn [mbind res_bind].
  apply (good_mono (fun '(c', _) => core_inv k c' (core_step (MoveStopped w) ws)));
    [|intros [c' q] Hi; eauto using move_step].
  apply main_loop_good. pose proof (s_length _ _ Hs) as Hlen.
  assert (Hd : drain_warp (warp_at ws w) = mkWarp WarpIdle false (w_mcause (warp_at ws w))
    (w_mepc (warp_at ws w)) (w_mtval (warp_at ws w)) (w_barrier_pc (warp_at ws w)))
    by (unfold drain_warp; by rewrite Hstop).
  split; [| | |done|done].
  - apply (shows_alter w drain_warp c); [done|done| | | | | |done|done].
    + intros k' i. rewrite Hsh, Hd, bv_bit_pow2.
      destruct (decide (i = w)); [by rewrite (bool_decide_true (i = w))|by rewrite (bool_decide_false (i = w))].
    + intros i. simpl. rewrite bv_bit_clear, (s_abort _ _ Hs).
      destruct (decide (i = w)); [rewrite (bool_decide_true (i = w)) by done|rewrite (bool_decide_false (i = w)) by done];
        simpl; by rewrite ?andb_true_r, ?andb_false_r.
    + by rewrite Hd.
    + by rewrite Hd.
    + done.
  - intros i Hi. destruct (decide (i = w)) as [->|Hne].
    + unfold settled. simpl. rewrite warp_at_alter by lia. rewrite decide_True by done. by rewrite Hd.
    + apply (settled_alter w drain_warp c); [done|lia|done|by apply Hset].
  - split; [done|]. intros i. simpl. rewrite warp_at_alter by lia. case_decide; [by rewrite Hd|].
    destruct (w_stopping (warp_at ws i)) eqn:E; [|done]. by apply (e_stopping _ _ _ Hx) in E.
Qed.

(** ** Lane states *)

Lemma in_lanes_0 : in_lanes 0.
Proof. intros l. by rewrite bv_bit_0. Qed.
Lemma in_lanes_lor x y : in_lanes x -> in_lanes y -> in_lanes (Z.lor x y).
Proof. intros Hx Hy l. rewrite bv_bit_lor. intros [?|?]%orb_true_iff; auto. Qed.

Lemma lanes_ok_barrier w m s : lanes_ok s -> (w < num_warps)%nat -> in_lanes m ->
  lanes_ok (UpdateState num_lanes w (set_barrier w m s)).
Proof.
  intros [Lb Le Ls Hl Hc] Hw Hm. split; simpl; rewrite ?length_insert; try done.
  - intros i. destruct (Hl i). rewrite nth_insert by lia. by case_decide.
  - intros i Hi. rewrite !nth_insert by lia.
    destruct (decide (i = w)) as [->|]; [by rewrite ?decide_True|by apply Hc].
Qed.
Lemma lanes_ok_exited w m s : lanes_ok s -> (w < num_warps)%nat -> in_lanes m ->
  lanes_ok (UpdateState num_lanes w (set_exited w m s)).
Proof.
  intros [Lb Le Ls Hl Hc] Hw Hm. split; simpl; rewrite ?length_insert; try done.
  - intros i. destruct (Hl i). rewrite nth_insert by lia. by case_decide.
  - intros i Hi. rewrite !nth_insert by lia.
    destruct (decide (i = w)) as [->|]; [by rewrite ?decide_True|by apply Hc].
Qed.
Lemma lanes_ok_first_pc w pc s : lanes_ok s -> lanes_ok (set_first_pc w pc s).
Proof. by intros []. Qed.
Lemma lanes_ok_reported w b s : lanes_ok s -> lanes_ok (set_reported w b s).
Proof. by intros []. Qed.

(** Only the lanes of warp [w] change. *)
Definition lanes_but (w : nat) (s s' : WarpLaneState) : Prop :=
  lanes_ok s' /\ forall i, i <> w -> nth i (states_ s') kRunnable = nth i (states_ s) kRunnable.

Lemma nth_insert_ne {A} (l : list A) w x i d : i <> w -> nth i (<[w := x]> l) d = nth i l d.
Proof. intros Hi. by rewrite !nth_lookup, list_lookup_insert_ne. Qed.

Lemma ArriveBarrier_good w lanes pc s : lanes_ok s -> (w < num_warps)%nat -> in_lanes lanes -> lanes <> 0 ->
  good (fun '(_, s') => lanes_but w s s') (ArriveBarrier num_lanes w lanes pc s).
Proof.
  intros Hs Hw Hl H0. unfold ArriveBarrier. apply good_massert; [by apply negb_true_iff, Z.eqb_neq|].
  set (p := if nth w (barrier_ s) 0 =? 0 then _ else _).
  assert (Hp : lanes_ok (snd p) /\ states_ (snd p) = states_ s).
  { subst p. repeat case_match; simpl; auto using lanes_ok_first_pc, lanes_ok_reported. }
  destruct p as [d s1]. destruct Hp as [H1 E1]. simpl in *. split.
  - apply lanes_ok_barrier; [done|done|]. apply in_lanes_lor; [apply H1|done].
  - intros i Hi. simpl. by rewrite nth_insert_ne, E1.
Qed.
Lemma Exit_good w lanes s : lanes_ok s -> (w < num_warps)%nat -> in_lanes lanes -> lanes <> 0 ->
  good (lanes_but w s) (Exit num_lanes w lanes s).
Proof.
  intros Hs Hw Hl H0. unfold Exit. apply good_massert; [by apply negb_true_iff, Z.eqb_neq|]. simpl. split.
  - apply lanes_ok_exited; [done|done|]. apply in_lanes_lor; [apply Hs|done].
  - intros i Hi. simpl. by rewrite nth_insert_ne.
Qed.

(** ** The end of an instruction *)

(** While the last part of an instruction of warp [w] runs. *)
Record ending (k w : nat) (c : Core) (ws : list warp) : Prop := {
  n_shows : shows c ws;
  n_warp : (w < num_warps)%nat;
  n_active : w_state (warp_at ws w) = WarpActive;
  n_settled : forall i, (i < num_warps)%nat -> i <> w -> settled c ws i;
  n_rests : rests c ws;
  n_wmask : wmask_ c = 2 ^ Z.of_nat w;
  n_tmask : tmask_ c <> 0;
  n_ready : cmd_ready_ c = true;
  n_sched : sched_ok k (sched_ c);
}.

Lemma ending_frame k w c c' ws : frame w c c' -> ending k w c ws -> ending k w c' ws.
Proof.
  intros Hf [Hs Hw Ha Hset [He Hst] Hm Ht Hr Hk]. pose proof Hf as [_ El _ Ee Em Et Er Es].
  split; rewrite ?Em, ?Et, ?Er, ?Es; try done.
  - by eapply shows_frame.
  - intros i Hi Hne. eapply settled_frame; eauto.
  - split; [congruence|done].
Qed.
Lemma ending_lanes k w c s ws : lanes_but w (lane_state_ c) s -> ending k w c ws ->
  ending k w (set_lane_state s c) ws.
Proof.
  intros [Hok Hs'] [Hs Hw Ha Hset Hre Hm Ht Hr Hk]. split; try done.
  - by destruct Hs; split.
  - intros i Hi Hne. unfold settled. simpl. rewrite Hs' by done. by apply Hset.
Qed.

(** Warp [w] moves to another state and the core is at the top of its loop. *)
Lemma ending_leave k w c (to : mask_name) g ws : ending k w c ws -> to <> Active ->
  w_state (g (warp_at ws w)) = state_of to -> w_stopping (g (warp_at ws w)) = false ->
  registers_show c w (g (warp_at ws w)) ->
  (to = Barrier -> nth w (states_ (lane_state_ c)) kRunnable = kBarrier) ->
  good (fun c' => at_top k c' (alter g w ws)) (WarpStateTransition to Active (wmask_ c) c).
Proof.
  intros [Hs Hw Ha Hset [He Hst] Hm Ht Hr Hk] Hto Eg Sg Rg Hb. rewrite Hm.
  destruct (leave_active to w c ws Hs Hw Ha Hto) as (m & -> & Hsh). pose proof (s_length _ _ Hs) as Hlen.
  simpl. split; [| | |done|done].
  - apply (shows_alter w g c); [done|done| | |done|exact Rg|done|done|done].
    + intros k' i. rewrite Hsh. by rewrite Eg.
    + intros i. simpl. rewrite (s_abort _ _ Hs). by case_decide; [rewrite Hst|].
  - intros i Hi. destruct (decide (i = w)) as [->|Hne].
    + unfold settled. simpl. rewrite warp_at_alter by lia. rewrite decide_True by done. rewrite Eg.
      destruct to; simpl; [done..| |done]. split; [done|auto].
    + apply (settled_alter w g c); [done|lia|done|by apply Hset].
  - split; [done|]. intros i. rewrite warp_at_alter by lia. case_decide; [by subst|done].
Qed.

Lemma trap_good k x cause epc tval c ws : ending k (x_wid x) c ws ->
  good (fun c' => at_top k c' (core_step (MoveTrap (x_wid x) cause epc tval) ws)) (trap (x_wid x) cause epc tval c).
Proof.
  intros He. pose proof He as [Hs Hw Ha _ [_ Hst] Hm _ _ _]. destruct (s_csrs _ _ Hs) as (L1 & L2 & L3 & _).
  unfold trap. set (c1 := map_csrs _ c).
  assert (Hf : frame (x_wid x) c c1).
  { apply frame_csrs. intros get Hg. set_unfold in Hg. destruct_or! Hg; subst; simpl; eauto. }
  change (wmask_ c) with (wmask_ c1).
  apply ending_leave; [by eapply ending_frame|done|..]; rewrite ?Ha, ?Hst; simpl; try done.
  split; [|done]. intros _. simpl. rewrite !nth_insert by lia. by rewrite !decide_True.
Qed.

Lemma resolve_good k x c ws : ending k (x_wid x) c ws ->
  good (fun c' => exists ws', moves ws ws' /\ at_top k c' ws') (resolve num_lanes x c).
Proof.
  intros He. pose proof He as [Hs Hw Ha Hset Hre Hm _ Hr Hk]. unfold resolve.
  case_match; [eapply good_mono; [by apply trap_good|intros c' Hc'; eexists; split; [apply move_step|exact Hc']]|].
  destruct (AllExited (lane_state_ c) (x_wid x)) eqn:Ex;
    [eapply good_mono; [by apply trap_good|intros c' Hc'; eexists; split; [apply move_step|exact Hc']]|].
  destruct (BarrierReady (lane_state_ c) (x_wid x)) eqn:Eb.
  - apply bool_decide_eq_true in Eb.
    eapply good_mono; [|intros c' Hc'; exists (core_step (MoveBarrier (x_wid x) (nth (x_wid x) (barrier_pc_ (csrs c)) 0)) ws);
      split; [apply move_step|exact Hc']].
    apply ending_leave; [done|done|..]; rewrite ?Ha, ?(proj2 Hre); simpl; try done.
  - simpl. exists ws. split; [done|]. split; [done| |done|done|done].
    intros i Hi. destruct (decide (i = x_wid x)) as [->|]; [|by apply Hset].
    unfold AllExited, BarrierReady in *. apply bool_decide_eq_false in Ex, Eb.
    unfold settled. rewrite Ha. split; [intros _|done]. by destruct (nth _ _ _).
Qed.

Lemma at_top_minstret k l c ws : at_top k c ws -> at_top k (map_csrs (set_minstret l) c) ws.
Proof. intros [Hs]. split; [|done..]. by destruct Hs; split. Qed.

Lemma good_if {A} (P : A -> Prop) (b : bool) (r : res A) (a : A) :
  (b = true -> good P r) -> P a -> good P (if b then r else mret a).
Proof. destruct b; simpl; auto. Qed.

Lemma commit_good k x c ws : shows c ws -> (forall i, (i < num_warps)%nat -> settled c ws i) ->
  executes (x_wid x) c ws -> bv_bit (aborting_warps_ c) (x_wid x) = false -> cmd_ready_ c = true ->
  sched_ok k (sched_ c) ->
  good (fun c' => exists ws', moves ws ws' /\ at_top k c' ws') (commit num_lanes x c).
Proof.
  intros Hs Hset Hx Hab Hr Hk. pose proof Hx as [Hw Ha _ Hm Hst Ht _]. unfold commit.
  assert (Hno : w_stopping (warp_at ws (x_wid x)) = false).
  { rewrite (s_abort _ _ Hs), bool_decide_true in Hab by done. done. }
  assert (He : ending k (x_wid x) (set_executing 0 c) ws).
  { split; try done; [by destruct Hs; split|intros; by apply Hset|]. split; [done|]. intros i.
    destruct (w_stopping (warp_at ws i)) eqn:E; [|done]. rewrite (Hst i E) in E. congruence. }
  set (c0 := set_executing 0 c) in *. clearbody c0. clear Hs Hset Hx Hab Hr Hk Hm Hst Ht.
  eapply (good_bind (fun c => ending k (x_wid x) c ws)).
  { apply good_if; [intros _|done]. eapply good_bind; [apply (frame_ExecuteCsrOp (x_wid x))|].
    intros c1 H1. simpl. eapply ending_frame; [|exact He]. etrans; [exact H1|apply frame_WriteRegfile]. }
  clear He c0. intros c1 He.
  set (c2 := if HasFlag (x_flag x) ExecFlag.FP_EXC then _ else _).
  assert (He2 : ending k (x_wid x) c2 ws).
  { subst c2. case_match; [|done]. eapply ending_frame; [apply frame_UpdateFflags|done]. }
  set (c3 := if HasFlag (x_flag x) ExecFlag.PRIORITY then _ else _).
  assert (He3 : ending k (x_wid x) c3 ws).
  { subst c3. case_match; [|done]. eapply ending_frame; [apply frame_UpdatePri|done]. }
  clearbody c3. clear He He2 c2 c1.
  eapply (good_bind (fun c => ending k (x_wid x) c ws)).
  { apply good_if; [intros _|done]. eapply good_bind.
    { apply ArriveBarrier_good; [apply He3|apply He3|apply He3|apply He3]. }
    intros [d s] Hl. simpl. eapply ending_frame; [|by apply ending_lanes].
    apply frame_csrs. intros get Hg. set_unfold in Hg. destruct_or! Hg; subst; simpl; eauto. }
  clear He3 c3. intros c4 He.
  eapply (good_bind (fun c => ending k (x_wid x) c ws)).
  { apply good_if; [intros _|done]. eapply good_bind.
    { apply Exit_good; [apply He|apply He|apply He|apply He]. }
    intros s Hl. simpl. by apply ending_lanes. }
  clear He c4. intros c5 He.
  eapply good_bind; [by apply resolve_good|]. intros c6 (ws' & Hmv & Htop). simpl.
  exists ws'. split; [done|]. by apply at_top_minstret.
Qed.

(** ** The instruction between its waits *)

Record running (k w : nat) (c : Core) (ws : list warp) : Prop := {
  u_shows : shows c ws;
  u_settled : forall i, (i < num_warps)%nat -> settled c ws i;
  u_executes : executes w c ws;
  u_ready : cmd_ready_ c = true;
  u_sched : sched_ok (Datatypes.S k) (sched_ c);
}.
Definition reaches (k : nat) (ws : list warp) : Core * list Request -> Prop :=
  fun '(c', _) => exists ws', moves ws ws' /\ core_inv k c' ws'.

Lemma running_frame k w c c' ws : frame w c c' -> running k w c ws -> running k w c' ws.
Proof.
  intros Hf [Hs Hset Hx Hr Hk]. pose proof Hf as [_ _ _ _ _ _ Er Es]. split; rewrite ?Er, ?Es; try done.
  - eapply shows_frame; [done|apply Hx|done].
  - intros i Hi. eapply settled_frame; eauto.
  - by eapply executes_frame.
Qed.
Lemma running_waits k w m c ws qs : main_warp m = Some w -> running k w c ws ->
  reaches k ws (set_main m c, qs).
Proof.
  intros Em [Hs Hset Hx Hr Hk]. exists ws. split; [done|]. split; simpl.
  - by destruct Hs; split.
  - done.
  - rewrite Em. by destruct Hx; split.
  - rewrite Hr. by destruct m.
  - eapply sched_ok_mono; [|exact Hk]. lia.
Qed.

Lemma abandon_reaches k w c ws : running k w c ws -> bv_bit (aborting_warps_ c) w = true ->
  good (reaches k ws) (abandon num_lanes num_warps w c).
Proof. intros []. by apply abandon_good. Qed.

Lemma finish_reaches k x c ws : running k (x_wid x) c ws -> bv_bit (aborting_warps_ c) (x_wid x) = false ->
  good (reaches k ws) (finish num_lanes num_warps x c).
Proof.
  intros [Hs Hset Hx Hr Hk] Hab. unfold finish.
  eapply good_bind; [by eapply commit_good|]. intros c1 (ws1 & Hmv & Htop).
  eapply good_mono; [by apply main_loop_good|]. intros [c2 q] Hi. exists ws1. by split.
Qed.

Lemma at_store_reaches k x c ws : running k (x_wid x) c ws -> bv_bit (aborting_warps_ c) (x_wid x) = false ->
  good (reaches k ws) (at_store num_lanes num_warps x c).
Proof.
  intros Hu Hab. unfold at_store. case_match; [|by apply finish_reaches]. by eapply running_waits.
Qed.
Lemma after_store_reaches k x c ws : running k (x_wid x) c ws ->
  good (reaches k ws) (after_store num_lanes num_warps x c).
Proof.
  intros Hu. unfold after_store. destruct (bv_bit _ _) eqn:E; [by apply abandon_reaches|by apply finish_reaches].
Qed.

(** A frame keeps what the next part needs. *)
Lemma running_next k w c c' ws : frame w c c' -> running k w c ws -> bv_bit (aborting_warps_ c) w = false ->
  running k w c' ws /\ bv_bit (aborting_warps_ c') w = false.
Proof. intros Hf Hu Hab. split; [by eapply running_frame|]. by rewrite (f_aborting _ _ _ Hf). Qed.

Lemma after_atomic_reaches k x c ws : running k (x_wid x) c ws ->
  good (reaches k ws) (after_atomic num_lanes num_warps x c).
Proof.
  intros Hu. unfold after_atomic. set (c1 := SignExtension _ _ _ c).
  assert (Hu1 : running k (x_wid x) c1 ws) by (eapply running_frame; [apply frame_SignExtension|done]).
  destruct (bv_bit (aborting_warps_ c1) (x_wid x)) eqn:E; [by apply abandon_reaches|].
  destruct (running_next _ _ _ _ _ (frame_WriteRegfile (x_wid x) (x_wid x) (rd (x_instr x)) c1) Hu1 E).
  by apply at_store_reaches.
Qed.
Lemma next_atomic_reaches k x lane c ws : running k (x_wid x) c ws ->
  good (reaches k ws) (next_atomic num_lanes num_warps x lane c).
Proof.
  intros Hu. unfold next_atomic. case_match; [by eapply running_waits|by apply after_atomic_reaches].
Qed.
Lemma at_atomic_reaches k rs3 x c ws : running k (x_wid x) c ws -> bv_bit (aborting_warps_ c) (x_wid x) = false ->
  good (reaches k ws) (at_atomic num_lanes num_warps rs3 x c).
Proof.
  intros Hu Hab. unfold at_atomic. case_match; [|by apply at_store_reaches].
  apply next_atomic_reaches. case_match; [|done]. eapply running_frame; [apply frame_compare|done].
Qed.
Lemma at_load_reaches k x c ws : running k (x_wid x) c ws -> bv_bit (aborting_warps_ c) (x_wid x) = false ->
  good (reaches k ws) (at_load num_lanes num_warps x c).
Proof.
  intros Hu Hab. unfold at_load. case_match; [by eapply running_waits|by apply at_atomic_reaches].
Qed.
Lemma after_load_reaches k x c ws : running k (x_wid x) c ws ->
  good (reaches k ws) (after_load num_lanes num_warps x c).
Proof.
  intros Hu. unfold after_load. destruct (bv_bit _ _) eqn:E; [by apply abandon_reaches|].
  set (c1 := WriteRegfile _ _ _ _).
  assert (Hf : frame (x_wid x) c c1)
    by (etrans; [apply (frame_SignExtension _ (GetMemSize (x_flag x)) (IsSigned (x_flag x)))|apply frame_WriteRegfile]).
  destruct (running_next _ _ _ _ _ Hf Hu E). by apply at_atomic_reaches.
Qed.
Lemma after_fetch_reaches k w wpc c ws : running k w c ws ->
  good (reaches k ws) (after_fetch sf num_lanes num_warps w wpc c).
Proof.
  intros Hu. unfold after_fetch. destruct (Execute _ _ _ _) as [flag s].
  set (c1 := set_sinks s _). set (x := mkExecuting _ _ _ _ _).
  assert (Hf : frame w c c1) by (etrans; [apply (frame_AdvancePC w w)|apply frame_sinks]).
  assert (Hu1 : running k w c1 ws) by (eapply running_frame; eauto).
  destruct (bv_bit (aborting_warps_ c1) w) eqn:E; [by apply abandon_reaches|].
  match goal with |- context [at_load _ _ x ?c] => set (c2 := c) end.
  assert (Hf2 : frame w c1 c2).
  { subst c2. etrans; [|case_match; [apply frame_UpdatePC|reflexivity]].
    case_match; [apply frame_WriteRegfile|reflexivity]. }
  destruct (running_next _ _ _ _ _ Hf2 Hu1 E). by apply at_load_reaches.
Qed.

(** ** Commands *)

(** The command of the initializer's model: its mask is the list of its set bits. *)
Definition same_command (cmd : SmCore.WarpCtrlCommand) (cmd' : WgInit.WarpCtrlCommand) : Prop :=
  let same m l := forall i, bv_bit m i = bool_decide (i ∈ l) in
  match cmd, cmd' with
  | kActivate m pc wg_info base, WgInit.Activate l pc' wg_info' base' =>
      same m l /\ pc = pc' /\ wg_info = wg_info' /\ base = base'
  | kResume m, WgInit.Resume l => same m l
  | kRelease m, WgInit.Release l => same m l
  | kAbort m, WgInit.Abort_ l => same m l
  | _, _ => False
  end.

Lemma warp_at_on_warps f l ws i : (forall i, i ∈ l -> (i < length ws)%nat) ->
  warp_at (on_warps f l ws) i = if bool_decide (i ∈ l) then f (warp_at ws i) else warp_at ws i.
Proof.
  intros Hl. unfold on_warps, warp_at. rewrite !nth_lookup, list_lookup_imap.
  case_bool_decide as E.
  - destruct (lookup_lt_is_Some_2 ws i (Hl i E)) as [x Ex]. by rewrite Ex.
  - by destruct (ws !! i).
Qed.
Lemma core_length_on_warps f l ws : length (on_warps f l ws) = length ws.
Proof. apply length_imap. Qed.

(** The warps of [l] that are stopping become idle. *)
Definition drained (l : list nat) (ws : list warp) : list warp :=
  foldr (fun i => core_step (MoveStopped i)) ws l.
Lemma drained_moves l ws : moves ws (drained l ws).
Proof. induction l as [|i l IH]; simpl; [done|]. eapply rtc_r; [exact IH|]. by exists (MoveStopped i). Qed.
Lemma length_drained l ws : length (drained l ws) = length ws.
Proof. induction l as [|i l IH]; simpl; [done|]. rewrite length_alter. exact IH. Qed.
Lemma drain_idemp x : drain_warp (drain_warp x) = drain_warp x.
Proof. unfold drain_warp. destruct (w_stopping x) eqn:E; [done|]. by rewrite E. Qed.
Lemma warp_at_drained l ws i : (forall i, i ∈ l -> (i < length ws)%nat) ->
  warp_at (drained l ws) i = if bool_decide (i ∈ l) then drain_warp (warp_at ws i) else warp_at ws i.
Proof.
  revert i. induction l as [|j l IH]; intros i Hl; [done|].
  change (drained (j :: l) ws) with (alter drain_warp j (drained l ws)).
  rewrite warp_at_alter by (rewrite length_drained; apply Hl; set_solver).
  assert (IH' : forall i, i ∈ l -> (i < length ws)%nat) by (intros; apply Hl; set_solver).
  destruct (decide (i = j)) as [->|].
  - rewrite (bool_decide_true (j ∈ j :: l)) by set_solver.
    replace (warp_at (drained l ws) j) with (if bool_decide (j ∈ l) then drain_warp (warp_at ws j) else warp_at ws j).
    { case_bool_decide; by rewrite ?drain_idemp. }
    symmetry. by apply IH.
  - rewrite IH by done. by rewrite (bool_decide_ext (i ∈ j :: l) (i ∈ l)) by set_solver.
Qed.

(** The state of one warp's lanes. *)
Definition lane_view (s : WarpLaneState) (i : nat) : Z * Z * LaneState :=
  (nth i (barrier_ s) 0, nth i (exited_ s) 0, nth i (states_ s) kRunnable).

(** A command changes the masks, the lanes and threads of the warps it names, and
    which warps are aborting. *)
Record cmd_frame (c c' : Core) : Prop := {
  k_executing : executing_mask_ c' = executing_mask_ c;
  k_wmask : wmask_ c' = wmask_ c;
  k_tmask : tmask_ c' = tmask_ c;
  k_ready : cmd_ready_ c' = cmd_ready_ c;
  k_sched : sched_ c' = sched_ c;
  k_main : main_ c' = main_ c;
  k_csrs : forall get, get ∈ [mcause_; mepc_; mtval_; barrier_pc_] -> get (csrs c') = get (csrs c);
}.

(** The lanes of the warps of [m] change as [f] says. *)
Definition lanes_on (m : Z) (f : Z * Z * LaneState -> Z * Z * LaneState) (s s' : WarpLaneState) : Prop :=
  lanes_ok s' /\ forall i, (i < num_warps)%nat ->
    lane_view s' i = if bv_bit m i then f (lane_view s i) else lane_view s i.

(** What it takes for the invariant to hold after a command. *)
Lemma command_inv k c c' ws ws' m f : core_inv k c ws -> cmd_frame c c' ->
  shape c' (fun i => w_state (warp_at ws' i)) ->
  (forall i, bv_bit (aborting_warps_ c') i = bool_decide (i < num_warps)%nat && w_stopping (warp_at ws' i)) ->
  length ws' = num_warps ->
  lanes_on m f (lane_state_ c) (lane_state_ c') ->
  (forall i, (i < num_warps)%nat -> warp_at ws' i = warp_at ws i \/
    main_warp (main_ c) <> Some i /\ w_stopping (warp_at ws' i) = false /\
      (w_state (warp_at ws' i) = WarpIdle \/
       w_state (warp_at ws' i) = WarpActive /\ bv_bit m i = true /\ (f (lane_view (lane_state_ c) i)).2 = kRunnable) \/
    main_warp (main_ c) = Some i /\ w_state (warp_at ws' i) = WarpActive /\ bv_bit m i = false) ->
  (forall i, (i < num_warps)%nat -> bv_bit m i = true -> w_state (warp_at ws i) <> WarpActive) ->
  (forall i, (i < num_warps)%nat -> bv_bit m i = true -> warp_at ws' i <> warp_at ws i) ->
  core_inv k c' ws'.
Proof.
  intros [Hs Hset Hm Hr Hk] [Ee Ew Et Er Es Em Ec] Hsh Hab Hlen [Hok Hv] Hws Hna Hch.
  assert (Hsame : forall i, (i < num_warps)%nat -> bv_bit m i = false ->
    lane_view (lane_state_ c') i = lane_view (lane_state_ c) i) by (intros i Hi E; by rewrite Hv, E by done).
  split.
  - pose proof Hs as [_ _ _ Hst Htr Hbp (L1 & L2 & L3 & L4) _ Ht].
    rewrite <- (Ec mcause_) in * by set_solver. rewrite <- (Ec mepc_) in * by set_solver.
    rewrite <- (Ec mtval_) in * by set_solver. rewrite <- (Ec barrier_pc_) in * by set_solver.
    assert (Hout : forall i, (num_warps <= i)%nat -> warp_at ws' i = idle_warp).
    { intros i Hi. apply nth_overflow. lia. }
    split; [done|exact Hsh|exact Hab| | | |done|done|by rewrite Et].
    + intros i Hi. destruct (decide (i < num_warps)%nat) as [Hlt|]; [|rewrite Hout in Hi by lia; done].
      destruct (Hws i Hlt) as [E|[(_ & E & _)|(_ & E & _)]]; [rewrite E in *; auto|congruence|done].
    + intros i Hi. destruct (Hws i Hi) as [->|[(_ & _ & [->|[-> _]])|(_ & -> & _)]]; [by apply Htr|done..].
    + intros i Hi. destruct (Hws i Hi) as [->|[(_ & _ & [->|[-> _]])|(_ & -> & _)]]; [by apply Hbp|done..].
  - intros i Hi. unfold settled.
    replace (nth i (states_ (lane_state_ c')) kRunnable) with (lane_view (lane_state_ c') i).2 by done.
    destruct (Hws i Hi) as [E|[(_ & _ & [->|(-> & E & Ef)])|(Hmw & -> & E)]].
    + rewrite E. destruct (bv_bit m i) eqn:Em'; [by destruct (Hch i Hi Em')|]. rewrite Hsame by done.
      by apply Hset.
    + done.
    + rewrite Hv, E by done. done.
    + split; [intros _|done]. rewrite Hsame by done. rewrite Hmw in Hm. apply Hset; [done|apply Hm].
  - rewrite Em. destruct (main_warp (main_ c)) as [w|] eqn:Emw.
    + destruct Hm as [Hw Ha He Hwm Hst Ht0 Hrun].
      assert (Ebm : bv_bit m w = false).
      { destruct (bv_bit m w) eqn:E; [|done]. by destruct (Hna w Hw E). }
      split; rewrite ?Ee, ?Ew, ?Et; try done.
      * destruct (Hws w Hw) as [->|[(Hne & _)|(_ & E & _)]]; done.
      * intros i Hi. destruct (decide (i < num_warps)%nat) as [Hlt|].
        -- destruct (Hws i Hlt) as [E|[(_ & E & _)|(E & _)]]; [rewrite E in Hi; auto|congruence|congruence].
        -- assert (Hi' := Hab i). rewrite Hi, bool_decide_false in Hi' by done.
           unfold warp_at in Hi. rewrite nth_overflow in Hi by lia. done.
      * intros l Hl. specialize (Hsame w Hw Ebm). unfold lane_view in Hsame. injection Hsame as E1 E2 _.
        unfold LaneRunnable. rewrite E1, E2. by apply Hrun.
    + destruct Hm as [He Hst]. split; [congruence|]. intros i.
      destruct (decide (i < num_warps)%nat) as [Hlt|]; [|unfold warp_at; by rewrite nth_overflow by lia].
      destruct (Hws i Hlt) as [->|[(_ & E & _)|(E & _)]]; [done|done|done].
  - by rewrite Er, Em.
  - by rewrite Es.
Qed.

#[local] Instance cmd_frame_preorder : PreOrder cmd_frame.
Proof.
  split; [by split|]. intros a b c [] []. split; try congruence.
  intros get Hg. by rewrite k_csrs1, k_csrs0.
Qed.

Lemma lane_view_Reset w s i : lanes_ok s -> (w < num_warps)%nat ->
  lane_view (Reset w s) i = if decide (i = w) then (0, 0, kRunnable) else lane_view s i.
Proof.
  intros [Lb Le Ls _ _] Hw. unfold lane_view. simpl. rewrite !nth_insert by lia. by case_decide.
Qed.
Lemma lane_view_ClearBarrier w s i : lanes_ok s -> (w < num_warps)%nat ->
  lane_view (ClearBarrier num_lanes w s) i =
  if decide (i = w) then (0, (lane_view s i).1.2, lane_state_of num_lanes 0 (lane_view s i).1.2) else lane_view s i.
Proof.
  intros [Lb Le Ls _ _] Hw. unfold lane_view. simpl. rewrite !nth_insert by lia.
  case_decide; [subst; by rewrite ?decide_True|done].
Qed.
Lemma lanes_ok_Reset w s : lanes_ok s -> (w < num_warps)%nat -> lanes_ok (Reset w s).
Proof.
  intros Hs Hw. pose proof (lane_view_Reset w s) as Hv. pose proof Hs as [Lb Le Ls Hl Hc].
  split; simpl; rewrite ?length_insert; try done.
  - intros i. destruct (Hl i). rewrite !nth_insert by lia. case_decide; auto using in_lanes_0.
  - intros i Hi. specialize (Hv i Hs Hw). unfold lane_view in Hv. simpl in Hv.
    destruct (decide (i = w)) as [->|]; injection Hv as Eb Ee Es; rewrite Eb, Ee, Es; [|by apply Hc].
    unfold lane_state_of, and_reduce. rewrite Z.lor_0_r.
    assert (0 =? bv_ones num_lanes = false) as ->; [|done].
    apply Z.eqb_neq. intros E. assert (bv_bit (bv_ones num_lanes) 0 = true) by (rewrite bv_bit_ones; by apply bool_decide_eq_true).
    by rewrite <- E, bv_bit_0 in *.
Qed.

(** A loop over the warps of a mask that changes their lanes by [g]. *)
Lemma lanes_on_loop (m : Z) (g : nat -> WarpLaneState -> WarpLaneState) f s :
  lanes_ok s ->
  (forall w s, (w < num_warps)%nat -> lanes_ok s -> lanes_ok (g w s) /\
    forall i, lane_view (g w s) i = if decide (i = w) then f (lane_view s i) else lane_view s i) ->
  lanes_on m f s (for_active m num_warps g s).
Proof.
  intros Hs Hg. unfold for_active.
  assert (Hloop : lanes_ok (for_range (fun i b => if Z.testbit m (Z.of_nat i) then g i b else b) 0 num_warps s) /\
    forall i, lane_view (for_range (fun i b => if Z.testbit m (Z.of_nat i) then g i b else b) 0 num_warps s) i =
      if bool_decide (i < num_warps)%nat && bv_bit m i then f (lane_view s i) else lane_view s i).
  { refine (for_range_ind (fun n s' => lanes_ok s' /\ forall i, lane_view s' i =
      if bool_decide (i < n)%nat && bv_bit m i then f (lane_view s i) else lane_view s i) _ 0 num_warps s _ _);
      [by split|].
    intros j s' Hj [Hok Hv]. fold (bv_bit m j). destruct (bv_bit m j) eqn:E.
    - destruct (Hg j s') as [Hok' Hv']; [lia|done|]. split; [done|]. intros i. rewrite Hv', Hv.
      destruct (decide (i = j)) as [->|Hne].
      + rewrite bool_decide_false, bool_decide_true by lia. by rewrite E.
      + by rewrite (bool_decide_ext (i < Datatypes.S j)%nat (i < j)%nat) by lia.
    - split; [done|]. intros i. rewrite Hv. destruct (decide (i = j)) as [->|Hne].
      + by rewrite E, !andb_false_r.
      + by rewrite (bool_decide_ext (i < Datatypes.S j)%nat (i < j)%nat) by lia. }
  destruct Hloop as [Hok Hv]. split; [done|]. intros i Hi. rewrite Hv. by rewrite bool_decide_true.
Qed.

Lemma activate_warps cwm pc wg_info base i n c cnt :
  let c' := fst (for_range (activate_warp num_lanes cwm pc wg_info base) i n (c, cnt)) in
  lane_state_ c' = for_range (fun w s => if Z.testbit cwm (Z.of_nat w) then Reset w s else s) i n (lane_state_ c) /\
  cmd_frame c c' /\ masks c' = masks c /\ aborting_warps_ c' = aborting_warps_ c.
Proof.
  revert i c cnt. induction n as [|n IH]; intros i c cnt; cbv zeta; [by split|]. cbn [for_range].
  set (r := activate_warp num_lanes cwm pc wg_info base i (c, cnt)). unfold activate_warp, bv_bit in r. subst r.
  destruct (Z.testbit cwm (Z.of_nat i)); [|by apply IH].
  match goal with |- context [for_range _ (Datatypes.S i) n (?c1, ?x)] =>
    destruct (IH (Datatypes.S i) c1 x) as (E1 & E2 & E3 & E4) end.
  split_and!; [exact E1| |exact E3|exact E4]. etrans; [|exact E2]. split; try done.
  intros get Hg. set_unfold in Hg. by destruct_or! Hg; subst.
Qed.

Lemma activate_loop cwm pc wg_info base c : lanes_ok (lane_state_ c) ->
  let c' := fst (for_range (activate_warp num_lanes cwm pc wg_info base) 0 num_warps (c, 0)) in
  cmd_frame c c' /\ masks c' = masks c /\ aborting_warps_ c' = aborting_warps_ c /\
  lanes_on cwm (fun _ => (0, 0, kRunnable)) (lane_state_ c) (lane_state_ c').
Proof.
  intros Hs c'. destruct (activate_warps cwm pc wg_info base 0 num_warps c 0) as (El & Hf & Em & Ea).
  split_and!; [done..|]. unfold c'. rewrite El. apply lanes_on_loop; [done|].
  intros w s Hw Hok. split; [by apply lanes_ok_Reset|]. intros i. by apply lane_view_Reset.
Qed.

(** What the interface says of the warps a command names. *)
Lemma allowed_all (l : list nat) (ws : list warp) (ok : warp_state -> bool) :
  negb (bool_decide (l = [])) && bool_decide (NoDup l) &&
    forallb (fun i => (i <? length ws)%nat && negb (w_stopping (warp_at ws i)) && ok (w_state (warp_at ws i))) l = true ->
  forall i, i ∈ l -> (i < length ws)%nat /\ w_stopping (warp_at ws i) = false /\ ok (w_state (warp_at ws i)) = true.
Proof.
  intros E i Hi. apply andb_true_iff in E as [_ E]. rewrite forallb_forall in E.
  specialize (E i). rewrite <- list_elem_of_In in E. specialize (E Hi).
  apply andb_true_iff in E as [[E1 E2]%andb_true_iff E3]. apply Nat.ltb_lt in E1. apply negb_true_iff in E2. done.
Qed.

Definition obeys (k : nat) (cmd' : WgInit.WarpCtrlCommand) (ws : list warp) (c' : Core) : Prop :=
  exists ws', moves (core_apply cmd' ws) ws' /\ core_inv k c' ws'.

Lemma not_main k c ws i : core_inv k c ws -> w_state (warp_at ws i) <> WarpActive -> main_warp (main_ c) <> Some i.
Proof. intros [_ _ Hm _ _] Hs E. rewrite E in Hm. by apply Hs, Hm. Qed.

Lemma Activate_obeys k c ws cwm pc wg_info base l : core_inv k c ws -> cmd_ready_ c = true ->
  (forall i, bv_bit cwm i = bool_decide (i ∈ l)) -> command_allowed (WgInit.Activate l pc wg_info base) ws = true ->
  good (obeys k (WgInit.Activate l pc wg_info base) ws) (Activate num_lanes num_warps cwm pc wg_info base c).
Proof.
  intros Hi Hr Hl Hok. unfold command_allowed in Hok. pose proof (allowed_all l ws (fun x => bool_decide (x = WarpIdle)) Hok) as Ha. clear Hok.
  pose proof (i_shows _ _ _ Hi) as Hs. pose proof (s_length _ _ Hs) as Hlen.
  unfold Activate. rewrite Hr. simpl massert. cbn [mbind res_bind].
  destruct (activate_loop cwm pc wg_info base c (s_lanes _ _ Hs)) as (Hf & Em & Ea & Hv).
  set (c1 := fst _) in *.
  destruct (transition_ok Active Idle cwm c1 (fun i => w_state (warp_at ws i))) as (m & -> & Hsh).
  { unfold shape, mask. rewrite Em. exact (s_masks _ _ Hs). }
  { done. }
  { intros i Hb. rewrite Hl in Hb. apply bool_decide_eq_true in Hb. destruct (Ha i Hb) as (? & _ & Hst).
    apply bool_decide_eq_true in Hst. split; [lia|done]. }
  simpl. exists (on_warps (set_w_state WarpActive) l ws). split; [done|].
  assert (Hat : forall i, warp_at (on_warps (set_w_state WarpActive) l ws) i =
    if bv_bit cwm i then set_w_state WarpActive (warp_at ws i) else warp_at ws i).
  { intros i. rewrite Hl. apply warp_at_on_warps. intros j Hj. by destruct (Ha j Hj). }
  assert (Hb : forall i, bv_bit cwm i = true -> w_stopping (warp_at ws i) = false /\ w_state (warp_at ws i) = WarpIdle).
  { intros i Hb. rewrite Hl in Hb. apply bool_decide_eq_true in Hb. destruct (Ha i Hb) as (_ & ? & Hst).
    by apply bool_decide_eq_true in Hst. }
  apply (command_inv k c (set_masks m c1) ws _ cwm (fun _ => (0, 0, kRunnable))); try done.
  - etrans; [exact Hf|]. by split.
  - intros k' i. rewrite Hsh, Hat. by destruct (bv_bit cwm i).
  - intros i. simpl. rewrite Ea, (s_abort _ _ Hs), Hat. by destruct (bv_bit cwm i).
  - by rewrite core_length_on_warps.
  - intros i Hi'. rewrite Hat. destruct (bv_bit cwm i) eqn:E; [|by left]. right; left.
    destruct (Hb i E) as [H1 H2]. split; [eapply not_main; [done|by rewrite H2]|]. split; [done|]. by right.
  - intros i _ E. destruct (Hb i E) as [_ ->]. done.
  - intros i _ E. rewrite Hat, E. destruct (Hb i E) as [_ H2]. intros Eq. rewrite <- Eq in H2. done.
Qed.

Lemma Resume_obeys k c ws cwm l : core_inv k c ws -> cmd_ready_ c = true ->
  (forall i, bv_bit cwm i = bool_decide (i ∈ l)) -> command_allowed (WgInit.Resume l) ws = true ->
  good (obeys k (WgInit.Resume l) ws) (Resume num_lanes num_warps cwm c).
Proof.
  intros Hi Hr Hl Hok. unfold command_allowed in Hok. pose proof (allowed_all l ws (fun x => bool_decide (x = WarpBarrier)) Hok) as Ha. clear Hok.
  pose proof (i_shows _ _ _ Hi) as Hs. pose proof (s_length _ _ Hs) as Hlen.
  assert (Hb : forall i, bv_bit cwm i = true -> (i < num_warps)%nat /\ w_stopping (warp_at ws i) = false /\
    w_state (warp_at ws i) = WarpBarrier).
  { intros i Hb. rewrite Hl in Hb. apply bool_decide_eq_true in Hb. destruct (Ha i Hb) as (? & ? & Hst).
    apply bool_decide_eq_true in Hst. split; [lia|done]. }
  unfold Resume. rewrite Hr. simpl massert. cbn [mbind res_bind]. set (c1 := set_lane_state _ c).
  destruct (transition_ok Active Barrier cwm c1 (fun i => w_state (warp_at ws i))) as (m & -> & Hsh).
  { exact (s_masks _ _ Hs). }
  { done. }
  { intros i E. destruct (Hb i E) as (? & _ & ?). done. }
  simpl. exists (on_warps (set_w_state WarpActive) l ws). split; [done|].
  assert (Hat : forall i, warp_at (on_warps (set_w_state WarpActive) l ws) i =
    if bv_bit cwm i then set_w_state WarpActive (warp_at ws i) else warp_at ws i).
  { intros i. rewrite Hl. apply warp_at_on_warps. intros j Hj. by destruct (Ha j Hj). }
  set (f := fun v : Z * Z * LaneState => (0, v.1.2, lane_state_of num_lanes 0 v.1.2)).
  apply (command_inv k c (set_masks m c1) ws _ cwm f); try done.
  - intros k' i. rewrite Hsh, Hat. by destruct (bv_bit cwm i).
  - intros i. simpl. rewrite (s_abort _ _ Hs), Hat. by destruct (bv_bit cwm i).
  - by rewrite core_length_on_warps.
  - apply lanes_on_loop; [apply Hs|]. intros w s Hw Hok. split; [by apply lanes_ok_barrier, in_lanes_0|].
    intros i. by apply lane_view_ClearBarrier.
  - intros i Hi'. rewrite Hat. destruct (bv_bit cwm i) eqn:E; [|by left]. right; left.
    destruct (Hb i E) as (_ & H1 & H2). split; [eapply not_main; [done|by rewrite H2]|]. split; [done|]. right.
    split_and!; [done|done|]. unfold f. simpl.
    destruct (i_settled _ _ _ Hi i Hi') as [_ Hset]. specialize (Hset H2).
    rewrite (l_cached _ (s_lanes _ _ Hs)) in Hset by done. unfold lane_state_of, and_reduce in *.
    rewrite Z.lor_0_l. by destruct (nth i (exited_ (lane_state_ c)) 0 =? bv_ones num_lanes).
  - intros i _ E. destruct (Hb i E) as (_ & _ & ->). done.
  - intros i _ E. rewrite Hat, E. destruct (Hb i E) as (_ & _ & H2). intros Eq. rewrite <- Eq in H2. done.
Qed.

(** The lanes stay when warps stop. *)
Lemma lanes_on_none s f : lanes_ok s -> lanes_on 0 f s s.
Proof. intros Hs. split; [done|]. intros i _. by rewrite bv_bit_0. Qed.

Lemma Release_obeys k c ws cwm l : core_inv k c ws -> cmd_ready_ c = true ->
  (forall i, bv_bit cwm i = bool_decide (i ∈ l)) -> command_allowed (WgInit.Release l) ws = true ->
  good (obeys k (WgInit.Release l) ws) (Release cwm c).
Proof.
  intros Hi Hr Hl Hok. unfold command_allowed in Hok. pose proof (allowed_all l ws (fun x => bool_decide (x = WarpException)) Hok) as Ha. clear Hok.
  pose proof (i_shows _ _ _ Hi) as Hs. pose proof (s_length _ _ Hs) as Hlen.
  assert (Hb : forall i, bv_bit cwm i = true -> (i < num_warps)%nat /\ w_stopping (warp_at ws i) = false /\
    w_state (warp_at ws i) = WarpException).
  { intros i Hb. rewrite Hl in Hb. apply bool_decide_eq_true in Hb. destruct (Ha i Hb) as (? & ? & Hst).
    apply bool_decide_eq_true in Hst. split; [lia|done]. }
  unfold Release. rewrite Hr. simpl massert. cbn [mbind res_bind].
  destruct (transition_ok Idle Exception_ cwm c (fun i => w_state (warp_at ws i))) as (m & -> & Hsh).
  { exact (s_masks _ _ Hs). }
  { done. }
  { intros i E. destruct (Hb i E) as (? & _ & ?). done. }
  simpl. exists (drained l (on_warps stop_warp l ws)). split; [apply drained_moves|].
  assert (Hat : forall i, warp_at (drained l (on_warps stop_warp l ws)) i =
    if bv_bit cwm i then drain_warp (stop_warp (warp_at ws i)) else warp_at ws i).
  { intros i. rewrite Hl, warp_at_drained.
    - rewrite warp_at_on_warps; [by case_bool_decide|]. intros j Hj. by destruct (Ha j Hj).
    - intros j Hj. rewrite core_length_on_warps. by destruct (Ha j Hj). }
  apply (command_inv k c (set_masks m c) ws _ 0 id); try done.
  - intros k' i. rewrite Hsh, Hat. by destruct (bv_bit cwm i).
  - intros i. simpl. rewrite (s_abort _ _ Hs), Hat. destruct (bv_bit cwm i) eqn:E; [|done].
    destruct (Hb i E) as (_ & -> & _). done.
  - by rewrite length_drained, core_length_on_warps.
  - apply lanes_on_none, Hs.
  - intros i Hi'. rewrite Hat. destruct (bv_bit cwm i) eqn:E; [|by left]. right; left.
    destruct (Hb i E) as (_ & _ & H2). split; [eapply not_main; [done|by rewrite H2]|]. split; [done|by left].
  - intros i _. by rewrite bv_bit_0.
  - intros i _. by rewrite bv_bit_0.
Qed.

Lemma executing_bit k c ws i : core_inv k c ws ->
  bv_bit (executing_mask_ c) i = bool_decide (main_warp (main_ c) = Some i).
Proof.
  intros [_ _ Hm _ _]. destruct (main_warp (main_ c)) as [w|].
  - rewrite (e_executing _ _ _ Hm), bv_bit_pow2. apply bool_decide_ext. split; [by intros ->|by intros [= ->]].
  - destruct Hm as [-> _]. by rewrite bv_bit_0.
Qed.

Lemma Abort_obeys k c ws cwm l : core_inv k c ws -> cmd_ready_ c = true ->
  (forall i, bv_bit cwm i = bool_decide (i ∈ l)) -> command_allowed (WgInit.Abort_ l) ws = true ->
  good (obeys k (WgInit.Abort_ l) ws) (Abort num_warps cwm c).
Proof.
  intros Hi Hr Hl Hok. unfold command_allowed in Hok.
  pose proof (allowed_all l ws (fun x => bool_decide (x = WarpActive) || bool_decide (x = WarpBarrier)) Hok) as Ha.
  clear Hok. pose proof (i_shows _ _ _ Hi) as Hs. pose proof (s_length _ _ Hs) as Hlen.
  pose proof (fun i => executing_bit k c ws i Hi) as He.
  assert (Hb : forall i, bv_bit cwm i = true -> (i < num_warps)%nat /\ w_stopping (warp_at ws i) = false /\
    (w_state (warp_at ws i) = WarpActive \/ w_state (warp_at ws i) = WarpBarrier)).
  { intros i Hb. rewrite Hl in Hb. apply bool_decide_eq_true in Hb. destruct (Ha i Hb) as (? & ? & Hst).
    apply orb_true_iff in Hst. rewrite !bool_decide_eq_true in Hst. split; [lia|done]. }
  assert (Hmain : forall i, bv_bit (executing_mask_ c) i = true -> w_state (warp_at ws i) = WarpActive).
  { intros i E. rewrite He in E. apply bool_decide_eq_true in E. pose proof (i_main _ _ _ Hi) as Hm.
    rewrite E in Hm. apply Hm. }
  unfold Abort. rewrite Hr. simpl massert. cbn [mbind res_bind mret res_ret good]. cbv zeta.
  set (aborted := Z.land cwm _). set (stopped := Z.land aborted (bv_not _ _)).
  assert (Hab : forall i, bv_bit aborted i = bv_bit cwm i).
  { intros i. subst aborted. rewrite bv_bit_land, bv_bit_lor, !(s_masks _ _ Hs).
    destruct (bv_bit cwm i) eqn:E; [|done]. destruct (Hb i E) as (? & _ & Hst). simpl.
    apply orb_true_iff. rewrite !bool_decide_eq_true. simpl. tauto. }
  assert (Hsp : forall i, bv_bit stopped i = bv_bit cwm i && negb (bv_bit (executing_mask_ c) i)).
  { intros i. subst stopped. rewrite bv_bit_land, bv_bit_not, Hab.
    destruct (bv_bit cwm i) eqn:E; [|done]. destruct (Hb i E) as (? & _). by rewrite bool_decide_true. }
  set (l' := filter (fun i => bv_bit (executing_mask_ c) i = false) l).
  assert (Hat : forall i, warp_at (drained l' (on_warps stop_warp l ws)) i =
    if bv_bit cwm i then (if bv_bit (executing_mask_ c) i then stop_warp (warp_at ws i)
                          else drain_warp (stop_warp (warp_at ws i))) else warp_at ws i).
  { intros i. rewrite Hl, warp_at_drained.
    - rewrite warp_at_on_warps by (intros j Hj; by destruct (Ha j Hj)).
      assert (bool_decide (i ∈ l') = bool_decide (i ∈ l) && negb (bv_bit (executing_mask_ c) i)) as ->.
      { destruct (bv_bit (executing_mask_ c) i) eqn:E; simpl.
        - rewrite andb_false_r. apply bool_decide_eq_false. subst l'. rewrite list_elem_of_filter. intros [? _]. congruence.
        - rewrite andb_true_r. apply bool_decide_ext. subst l'. rewrite list_elem_of_filter. naive_solver. }
      case_bool_decide; [|done]. by destruct (bv_bit (executing_mask_ c) i).
    - intros j Hj. rewrite core_length_on_warps. subst l'. apply list_elem_of_filter in Hj as [_ Hj]. by destruct (Ha j Hj). }
  exists (drained l' (on_warps stop_warp l ws)). split; [apply drained_moves|].
  apply (command_inv k c _ ws _ 0 id); try done.
  - intros k' i. rewrite Hat. pose proof (s_masks _ _ Hs k' i) as Hk. unfold mask in *.
    assert (Hbit : bv_bit (mask_of k' (mkMasks (Z.lor (idle_mask_ (masks c)) stopped)
        (Z.land (active_mask_ (masks c)) (bv_not num_warps stopped))
        (Z.land (barrier_mask_ (masks c)) (bv_not num_warps stopped)) (exception_mask_ (masks c)))) i =
      if bv_bit stopped i then (if decide (k' = Idle) then true
        else if decide (k' = Exception_) then bv_bit (mask_of k' (masks c)) i else false)
      else bv_bit (mask_of k' (masks c)) i).
    { assert (Hlt : forall m, bv_bit (mask_of m (masks c)) i && bool_decide (i < num_warps)%nat = bv_bit (mask_of m (masks c)) i).
      { intros m. rewrite (s_masks _ _ Hs m i : bv_bit (mask_of m (masks c)) i = _). repeat case_bool_decide; try done; tauto. }
      destruct k'; simpl; rewrite ?bv_bit_lor, ?bv_bit_land, ?bv_bit_not; destruct (bv_bit stopped i); simpl;
        rewrite ?orb_true_r, ?orb_false_r, ?andb_false_r, ?andb_true_r; try done; first [exact (Hlt Active)|exact (Hlt Barrier)]. }
    etrans; [exact Hbit|]. rewrite Hk, Hsp. destruct (bv_bit cwm i) eqn:E; [|done]. destruct (Hb i E) as (Hi' & _ & Hst).
    destruct (bv_bit (executing_mask_ c) i); simpl; [done|].
    clear - Hi' Hst. destruct k', Hst as [-> | ->]; simpl; repeat case_bool_decide; try done; intuition congruence.
  - intros i. cbn [aborting_warps_ set_masks set_aborting]. rewrite Hat, bv_bit_lor, bv_bit_land, Hab, (s_abort _ _ Hs).
    destruct (bv_bit cwm i) eqn:E; [|by rewrite orb_false_r]. destruct (Hb i E) as (Hi' & -> & _).
    rewrite bool_decide_true by done. by destruct (bv_bit (executing_mask_ c) i).
  - by rewrite length_drained, core_length_on_warps.
  - apply lanes_on_none, Hs.
  - intros i Hi'. rewrite Hat. destruct (bv_bit cwm i) eqn:E; [|by left]. right.
    destruct (Hb i E) as (_ & _ & H2). destruct (bv_bit (executing_mask_ c) i) eqn:Ee.
    + right. rewrite bv_bit_0. split_and!; [|by apply Hmain|done]. rewrite He in Ee. by apply bool_decide_eq_true in Ee.
    + left. rewrite He in Ee. apply bool_decide_eq_false in Ee. split; [done|]. split; [done|by left].
  - intros i _. by rewrite bv_bit_0.
  - intros i _. by rewrite bv_bit_0.
Qed.

(** ** Steps *)

Definition idle_warps : list warp := replicate num_warps idle_warp.

Lemma init_core_inv k s : sched_ok k s -> core_inv k (AtomicCore_init num_lanes num_warps s) idle_warps.
Proof.
  intros Hk.
  assert (Hat : forall i, warp_at idle_warps i = idle_warp).
  { intros i. unfold warp_at, idle_warps. rewrite nth_lookup. destruct (_ !! i) eqn:E; [|done].
    by apply lookup_replicate in E as [-> _]. }
  assert (Hz : forall n i, nth i (replicate n 0) 0 = 0).
  { intros n i. rewrite nth_lookup. destruct (_ !! i) eqn:E; [|done]. by apply lookup_replicate in E as [-> _]. }
  assert (Hl : lanes_ok (WarpLaneState_init num_warps)).
  { split; simpl; rewrite ?length_replicate; try done.
    - intros i. rewrite Hz. split; apply in_lanes_0.
    - intros i Hi. rewrite !Hz. rewrite nth_lookup, lookup_replicate_2 by done.
      unfold lane_state_of, and_reduce. rewrite Z.lor_0_r.
      assert (0 =? bv_ones num_lanes = false) as ->; [|done]. apply Z.eqb_neq. intros E.
      assert (Hb : bv_bit (bv_ones num_lanes) 0 = true) by (rewrite bv_bit_ones; by apply bool_decide_eq_true).
      by rewrite <- E, bv_bit_0 in Hb. }
  split.
  - split; simpl; rewrite ?length_replicate; try done.
    + apply length_replicate.
    + intros m i. rewrite Hat. unfold mask. destruct m; simpl; rewrite ?bv_bit_ones, ?bv_bit_0;
        repeat case_bool_decide; try done; intuition congruence.
    + intros i. rewrite Hat, bv_bit_0. by rewrite andb_false_r.
    + intros i. by rewrite Hat.
    + intros i _. by rewrite Hat.
    + intros i _. by rewrite Hat.
    + apply in_lanes_0.
  - intros i _. unfold settled. by rewrite Hat.
  - simpl. split; [done|]. intros i. by rewrite Hat.
  - done.
  - done.
Qed.

(** What [core_apply] and the moves of the general core say of a step. *)
Definition spec_step (e : event) (c : Core) (ws ws' : list warp) : Prop :=
  match e with
  | EvCommand cmd =>
      if cmd_ready_ c then exists cmd', same_command cmd cmd' /\ moves (core_apply cmd' ws) ws' else ws' = ws
  | _ => moves ws ws'
  end.
(** The initializer names only warps the interface allows. *)
Definition env_ok (e : event) (ws : list warp) : Prop :=
  match e with
  | EvCommand cmd => exists cmd', same_command cmd cmd' /\ command_allowed cmd' ws = true
  | _ => True
  end.

Lemma command_step k c ws cmd cmd' : core_inv k c ws -> cmd_ready_ c = true -> same_command cmd cmd' ->
  command_allowed cmd' ws = true ->
  good (obeys k cmd' ws) (ExecuteWarpCtrlCommand num_lanes num_warps cmd c).
Proof.
  intros Hi Hr Hsame Hok. destruct cmd, cmd'; try done; simpl in *.
  - destruct Hsame as (Hm & <- & <- & <-). by apply Activate_obeys.
  - by apply Resume_obeys.
  - by apply Release_obeys.
  - by apply Abort_obeys.
Qed.

Lemma core_inv_mono k k' c ws : (k' <= k)%nat -> core_inv k c ws -> core_inv k' c ws.
Proof. intros Hk []. split; try done. by eapply sched_ok_mono. Qed.

Lemma core_inv_running k w c ws : core_inv (Datatypes.S k) c ws -> main_warp (main_ c) = Some w -> running k w c ws.
Proof.
  intros [Hs Hset Hm Hr Hk] E. rewrite E in Hm. split; try done. rewrite Hr. by destruct (main_ c).
Qed.

(** Memory answers without an error, and an atomic access with its own payload. *)
Definition response_ok (e : event) (c : Core) : bool :=
  match e, main_ c with
  | EvFetched ok _, MainFetch _ _ => ok
  | EvLoaded ok _, MainLoad _ => forallb ok (active_lanes num_lanes c)
  | EvAtomic i ok _, MainAtomic _ lane => (i =? lane)%nat && ok
  | EvStored ok, MainStore _ => forallb ok (active_lanes num_lanes c)
  | _, _ => true
  end.
(** The assertions on the response of memory fail otherwise. *)
Lemma bad_response e c : response_ok e c = false -> step sf num_lanes num_warps e c = Err Assertion.
Proof.
  unfold response_ok, step, CollectMemResp. destruct e, (main_ c); try done; try by intros ->.
  intros Hb. destruct (_ =? _)%nat; [|done]. cbn [andb] in Hb. by rewrite Hb.
Qed.

Lemma atomic_step_inv k c ws e : core_inv (Datatypes.S k) c ws -> enabled e c = true -> env_ok e ws ->
  response_ok e c = true ->
  good (fun '(c', _) => exists ws', spec_step e c ws ws' /\ core_inv k c' ws')
    (step sf num_lanes num_warps e c).
Proof.
  intros Hi Hen Henv Hresp.
  assert (Hreach : forall w, main_warp (main_ c) = Some w ->
    forall c', frame w c c' -> running k w c' ws).
  { intros w Hw c' Hf. eapply running_frame; [exact Hf|]. by apply core_inv_running. }
  assert (Hmono : forall r : res (Core * list Request), good (reaches k ws) r ->
    good (fun '(c', _) => exists ws', moves ws ws' /\ core_inv k c' ws') r)
    by (intros r Hr; eapply good_mono; [exact Hr|]; by intros [c' q]).
  unfold step, enabled, response_ok, CollectMemResp in *. destruct e as [|cmd| |ok iword|ok data|i ok data|ok].
  - simpl. exists ws. split; [done|]. apply (core_inv_mono (Datatypes.S k)); [lia|].
    destruct Hi as [Hs ? Hm]. split; try done; [by destruct Hs; split|].
    simpl. destruct (main_warp (main_ c)); [by destruct Hm; split|done].
  - destruct Henv as (cmd' & Hsame & Hok). unfold nb_put. simpl spec_step.
    destruct (cmd_ready_ c) eqn:Er; simpl.
    + pose proof (command_step _ _ _ _ _ Hi Er Hsame Hok) as Hc.
      destruct (ExecuteWarpCtrlCommand _ _ cmd c) as [c1|]; [|done]. destruct Hc as (ws' & Hmv & Hi').
      exists ws'. split; [by exists cmd'|]. eapply core_inv_mono; [|exact Hi']. lia.
    + exists ws. split; [done|]. eapply core_inv_mono; [|exact Hi]. lia.
  - apply Hmono. destruct Hi as [Hs Hset Hm Hr Hk]. destruct (main_ c) eqn:Em; try done.
    + eapply good_mono; [apply (main_loop_good k _ ws)|by intros [c' q] ?; exists ws].
      split; try done. by destruct Hs; split.
    + eapply good_mono; [apply (main_loop_good k _ ws)|by intros [c' q] ?; exists ws].
      by split.
  - apply Hmono. destruct (main_ c) eqn:Em; try done. apply good_massert; [done|]. apply after_fetch_reaches.
    apply Hreach; [done|apply frame_fill].
  - apply Hmono. destruct (main_ c) eqn:Em; try done. apply good_massert; [done|]. apply after_load_reaches.
    apply Hreach; [done|]. apply frame_for_active. intros; apply frame_fill.
  - apply Hmono. destruct (main_ c) eqn:Em; try done. apply andb_true_iff in Hresp as [Hl Hok].
    apply good_massert; [done|]. apply good_massert; [done|]. apply next_atomic_reaches.
    apply Hreach; [done|apply frame_fill].
  - apply Hmono. destruct (main_ c) eqn:Em; try done. apply good_massert; [done|]. apply after_store_reaches.
    apply Hreach; [done|reflexivity].
Qed.

End inv.
