(* ===== verification/SmSafe.v ===== *)
(** * What the atomic core promises to the work-group initializer

    The reachable states of the core under commands the interface allows, as the masks
    show them, and the theorems over them: no assertion fails but over a bad response of
    memory, the masks partition the warps, and the core implements the general core of
    WgInit.v. *)

From stdpp Require Import relations.
From S2P Require Import Prelude WgInit SimFifo SmEncoding SmInstr SmExec SmSched SmCore SmInv.

(** ** Reachable states *)

Section reach.
Context {S : Type} `{WarpSched S} (sf : SoftFloat) (num_lanes num_warps : nat).
Context (sched_ok : nat -> S -> Prop).
Abbreviation Core := (AtomicCore S).

(** A command names at least one warp, and only warps the masks show in a state it
    applies to and that are not aborting. *)
Definition names (cwm : Z) (from : list mask_name) (c : Core) : Prop :=
  cwm <> 0 /\ forall i, bv_bit cwm i = true -> (i < num_warps)%nat /\
    (exists m, m ∈ from /\ bv_bit (mask m c) i = true) /\ bv_bit (aborting_warps_ c) i = false.
Definition event_ok (e : event) (c : Core) : Prop :=
  match e with
  | EvCommand (kActivate cwm _ _ _) => names cwm [Idle] c
  | EvCommand (kResume cwm) => names cwm [Barrier] c
  | EvCommand (kRelease cwm) => names cwm [Exception_] c
  | EvCommand (kAbort cwm) => names cwm [Active; Barrier] c
  | _ => True
  end.

(** [k] selections of the scheduler are left. *)
Inductive core_reach : nat -> Core -> Prop :=
  | reach_init k s : sched_ok k s -> core_reach k (AtomicCore_init num_lanes num_warps s)
  | reach_step k c e c' qs : core_reach (Datatypes.S k) c -> enabled e c = true -> event_ok e c ->
      step sf num_lanes num_warps e c = Ok (c', qs) -> core_reach k c'.

Context `{!SchedLaws num_warps S sched_ok}.
Context (Hlanes : (0 < num_lanes)%nat) (Hwarps : (num_warps <= 32)%nat).
Abbreviation core_inv := (core_inv num_lanes num_warps sched_ok).

(** The list of the warps of a mask is a command the initializer may give. *)
Lemma names_allowed cwm from c ws (ok : warp_state -> bool) : shows num_lanes num_warps c ws -> names cwm from c ->
  (forall m, m ∈ from -> ok (state_of m) = true) ->
  exists l, (forall i, bv_bit cwm i = bool_decide (i ∈ l)) /\
    negb (bool_decide (l = [])) && bool_decide (NoDup l) &&
      forallb (fun i => (i <? length ws)%nat && negb (w_stopping (warp_at ws i)) && ok (w_state (warp_at ws i))) l = true.
Proof.
  intros Hs [H0 Hn] Hok. exists (filter (fun i => bv_bit cwm i = true) (seq 0 num_warps)).
  assert (Hl : forall i, bv_bit cwm i = bool_decide (i ∈ filter (fun i => bv_bit cwm i = true) (seq 0 num_warps))).
  { intros i. destruct (bv_bit cwm i) eqn:E; symmetry.
    - apply bool_decide_eq_true, list_elem_of_filter. split; [done|]. apply elem_of_seq. destruct (Hn i E). lia.
    - apply bool_decide_eq_false. rewrite list_elem_of_filter. intros [? _]. congruence. }
  split; [exact Hl|]. rewrite !andb_true_iff. split_and!.
  - apply negb_true_iff, bool_decide_eq_false. intros E.
    destruct (bv_exists num_warps cwm) as [i Hi]; [intros i Hi; by destruct (Hn i Hi)|done|].
    rewrite Hl, E in Hi. by apply bool_decide_eq_true, not_elem_of_nil in Hi.
  - apply bool_decide_eq_true, NoDup_filter, NoDup_seq.
  - apply forallb_forall. intros i Hi. rewrite <- list_elem_of_In in Hi.
    apply list_elem_of_filter in Hi as [Hi _]. destruct (Hn i Hi) as (Hlt & (m & Hm & Hb) & Ha).
    rewrite (s_masks _ _ _ _ Hs) in Hb. apply bool_decide_eq_true in Hb as [_ ->].
    rewrite (s_abort _ _ _ _ Hs), bool_decide_true in Ha by done. simpl in Ha. rewrite Ha, (s_length _ _ _ _ Hs).
    rewrite (Hok m Hm). rewrite andb_true_r, andb_true_iff. split; [by apply Nat.ltb_lt|done].
Qed.

Lemma event_env k c ws e : core_inv k c ws -> event_ok e c -> env_ok e ws.
Proof.
  intros [Hs _ _ _ _] He. destruct e as [ |cmd| | | | | ]; try done. destruct cmd as [cwm pc wg_info base|cwm|cwm|cwm]; simpl in *.
  - destruct (names_allowed cwm [Idle] c ws (fun x => bool_decide (x = WarpIdle)) Hs He) as (l & Hl & Hok).
    { intros m Hm. set_unfold in Hm. destruct_or! Hm; by subst. }
    by exists (WgInit.Activate l pc wg_info base).
  - destruct (names_allowed cwm [Barrier] c ws (fun x => bool_decide (x = WarpBarrier)) Hs He) as (l & Hl & Hok).
    { intros m Hm. set_unfold in Hm. destruct_or! Hm; by subst. }
    by exists (WgInit.Resume l).
  - destruct (names_allowed cwm [Exception_] c ws (fun x => bool_decide (x = WarpException)) Hs He) as (l & Hl & Hok).
    { intros m Hm. set_unfold in Hm. destruct_or! Hm; by subst. }
    by exists (WgInit.Release l).
  - destruct (names_allowed cwm [Active; Barrier] c ws
      (fun x => bool_decide (x = WarpActive) || bool_decide (x = WarpBarrier)) Hs He) as (l & Hl & Hok).
    { intros m Hm. set_unfold in Hm. destruct_or! Hm; by subst. }
    by exists (WgInit.Abort_ l).
Qed.

Lemma reach_core_inv k c : core_reach k c -> exists ws, core_inv k c ws.
Proof.
  induction 1 as [k s Hk|k c e c' qs _ [ws Hi] Hen He Hstep].
  - exists (idle_warps num_warps). by apply init_core_inv.
  - assert (Hresp : response_ok num_lanes e c = true).
    { destruct (response_ok num_lanes e c) eqn:E; [done|]. by rewrite bad_response in Hstep. }
    pose proof (atomic_step_inv sf num_lanes num_warps sched_ok Hlanes Hwarps k c ws e Hi Hen (event_env _ _ _ _ Hi He)
      Hresp) as Hg.
    rewrite Hstep in Hg. destruct Hg as (ws' & _ & Hi'). eauto.
Qed.

(** Every lane of the warp waits at a barrier or has exited, and some lane waits. *)
Definition at_barrier (c : Core) (i : nat) : Prop :=
  (forall l, (l < num_lanes)%nat -> LaneRunnable (lane_state_ c) i l = false) /\
  exists l, (l < num_lanes)%nat /\ bv_bit (nth i (exited_ (lane_state_ c)) 0) l = false.

Lemma barrier_lanes k c ws i : core_inv k c ws -> (i < num_warps)%nat ->
  bv_bit (mask Barrier c) i = true -> at_barrier c i.
Proof.
  intros [Hs Hset _ _ _] Hi Hb. rewrite (s_masks _ _ _ _ Hs) in Hb. apply bool_decide_eq_true in Hb as [_ Hb].
  destruct (Hset i Hi) as [_ Hst]. specialize (Hst Hb).
  pose proof (s_lanes _ _ _ _ Hs) as Hl. rewrite (l_cached _ _ _ Hl) in Hst by done.
  destruct (l_lanes _ _ _ Hl i) as [Hlb Hle].
  unfold lane_state_of, and_reduce in Hst. set (b := nth i (barrier_ (lane_state_ c)) 0) in *.
  set (e := nth i (exited_ (lane_state_ c)) 0) in *.
  destruct (e =? bv_ones num_lanes) eqn:Ee; [done|].
  destruct (Z.lor b e =? bv_ones num_lanes) eqn:Eo; [|done]. apply Z.eqb_eq in Eo. apply Z.eqb_neq in Ee.
  split.
  - intros l Hln. assert (Hbit : bv_bit (Z.lor b e) l = true) by (rewrite Eo, bv_bit_ones; by apply bool_decide_eq_true).
    rewrite bv_bit_lor in Hbit. unfold LaneRunnable. fold b e. by destruct (bv_bit b l), (bv_bit e l).
  - destruct (find_first (fun l => negb (bv_bit e l)) num_lanes) as [l|] eqn:Ef.
    + apply find_first_Some in Ef as (Hln & Hl' & _). exists l. split; [done|]. by apply negb_true_iff in Hl'.
    + rewrite find_first_None in Ef. exfalso. apply Ee. apply bv_ext. intros l. rewrite bv_bit_ones.
      case_bool_decide as Hln; [by apply negb_false_iff, Ef|]. destruct (bv_bit e l) eqn:E; [|done]. by apply Hle in E.
Qed.

Lemma active_lanes_runnable k c ws i : core_inv k c ws -> (i < num_warps)%nat ->
  bv_bit (mask Active c) i = true -> exists l, (l < num_lanes)%nat /\ LaneRunnable (lane_state_ c) i l = true.
Proof.
  intros [Hs Hset _ _ _] Hi Hb. rewrite (s_masks _ _ _ _ Hs) in Hb. apply bool_decide_eq_true in Hb as [_ Hb].
  apply (runnable_lane num_lanes num_warps); [apply Hs|done|]. by apply Hset.
Qed.

(** C18. Commands that name warps as the interface allows never fail an assertion of the
    core, and memory's answers fail one only when an answer is an error response, or
    that of an atomic access comes back for another lane: then the step ends in that
    assertion, and otherwise only the fatal error of an unsupported CSR keeps it from
    finishing. In every state, each warp is in exactly one of the four masks; a warp in
    the active mask has a lane to run, and a warp in the barrier mask has none, but a
    lane that has not exited. *)
Theorem atomic_core_safe k c e : core_reach (Datatypes.S k) c -> enabled e c = true -> event_ok e c ->
  (forall i, (i < num_warps)%nat -> exists m, forall m', bv_bit (mask m' c) i = bool_decide (m' = m)) /\
  (forall i, bv_bit (mask Active c) i = true ->
    exists l, (l < num_lanes)%nat /\ LaneRunnable (lane_state_ c) i l = true) /\
  (forall i, bv_bit (mask Barrier c) i = true -> at_barrier c i) /\
  match step sf num_lanes num_warps e c with
  | Ok _ => response_ok num_lanes e c = true
  | Err f => f = if response_ok num_lanes e c then FatalError else Assertion
  end.
Proof.
  intros Hc Hen He. destruct (reach_core_inv _ _ Hc) as [ws Hi]. pose proof (i_shows _ _ _ _ _ _ Hi) as Hs.
  assert (Hlt : forall m i, bv_bit (mask m c) i = true -> (i < num_warps)%nat).
  { intros m i Hb. rewrite (s_masks _ _ _ _ Hs) in Hb. by apply bool_decide_eq_true in Hb as []. }
  split_and!.
  - intros i Hlt'. destruct (w_state (warp_at ws i)) eqn:E;
      [exists Idle|exists Active|exists Barrier|exists Exception_];
      intros m; rewrite (s_masks _ _ _ _ Hs), E; destruct m; simpl; repeat case_bool_decide; try done; intuition congruence.
  - intros i Hb. eapply active_lanes_runnable; eauto.
  - intros i Hb. eapply barrier_lanes; eauto.
  - destruct (response_ok num_lanes e c) eqn:E; [|by rewrite bad_response].
    pose proof (atomic_step_inv sf num_lanes num_warps sched_ok Hlanes Hwarps k c ws e Hi Hen (event_env _ _ _ _ Hi He)
      E) as Hg.
    by destruct (step _ _ _ _ _).
Qed.

(** C17. The core implements the general core the work-group initializer is verified
    against: it starts with all warps idle, and a step from a state that shows the warps
    [ws] leads to one that shows what the interface says, the effect of the command or
    moves of the core's own. A core that is not ready refuses a command and does not
    change. A step does not finish only over an unsupported CSR or a bad response. *)
Theorem atomic_core_implements_warp_ctrl k c ws e s :
  sched_ok k s -> core_inv (Datatypes.S k) c ws -> enabled e c = true -> env_ok e ws ->
  core_inv k (AtomicCore_init num_lanes num_warps s) (idle_warps num_warps) /\
  match step sf num_lanes num_warps e c with
  | Ok (c', _) => exists ws', spec_step e c ws ws' /\ core_inv k c' ws'
  | Err f => f = if response_ok num_lanes e c then FatalError else Assertion
  end.
Proof.
  intros Hk Hi Hen He. split; [by apply init_core_inv|].
  destruct (response_ok num_lanes e c) eqn:E; [|by rewrite bad_response].
  exact (atomic_step_inv sf num_lanes num_warps sched_ok Hlanes Hwarps k c ws e Hi Hen He E).
Qed.

End reach.

(** ** A core of two lanes and two warps *)

(** A floating-point library that gives 0, for examples without such instructions. *)
Definition no_float : SoftFloat :=
  let z := (0, 0) in let b := (false, 0) in
  mkSoftFloat (fun _ _ _ _ => z) (fun _ _ _ _ => z) (fun _ _ _ _ => z) (fun _ _ _ _ => z) (fun _ _ _ _ _ => z)
    (fun _ _ _ => z) (fun _ _ _ => b) (fun _ _ _ => b) (fun _ _ _ => b) (fun _ _ _ => b) (fun _ _ _ => z)
    (fun _ _ _ => z) (fun _ _ _ => z) (fun _ _ _ => z) (fun _ _ _ => z) (fun _ _ _ => z) (fun _ _ _ => z)
    (fun _ _ _ => z) (fun _ _ => z) (fun _ _ => z) 16.
#[export] Instance Lrr_laws_two : SchedLaws 2 Lrr (Lrr_ok 2).
Proof. by apply Lrr_laws; lia. Qed.
Definition next_core (e : event) (c : AtomicCore Lrr) : AtomicCore Lrr :=
  match step no_float 2 2 e c with Ok (c', _) => c' | Err _ => c end.
Definition example_command : event := EvCommand (kActivate 3 0x1000 7 4).
Definition example_core : AtomicCore Lrr :=
  next_core EvWake (next_core example_command (next_core EvWake (AtomicCore_init 2 2 (Lrr_init 2)))).

Lemma reach_next k c e : core_reach no_float 2 2 (Lrr_ok 2) (Datatypes.S k) c -> enabled e c = true ->
  event_ok 2 e c -> match step no_float 2 2 e c with Ok _ => true | Err _ => false end = true ->
  core_reach no_float 2 2 (Lrr_ok 2) k (next_core e c).
Proof.
  intros Hc Hen He Hs. unfold next_core. destruct (step no_float 2 2 e c) as [[c' qs]|] eqn:E; [|done].
  by eapply reach_step.
Qed.
Lemma names_two cwm from (c : AtomicCore Lrr) : (cwm =? 0) = false -> Z.shiftr cwm 2 = 0 ->
  forallb (fun i => negb (bv_bit cwm i) || existsb (fun m => bv_bit (mask m c) i) from &&
    negb (bv_bit (aborting_warps_ c) i)) [0%nat; 1%nat] = true ->
  names 2 cwm from c.
Proof.
  intros H0 Hs Hf. split; [by apply Z.eqb_neq|]. intros i Hi.
  assert (Hlt : (i < 2)%nat).
  { destruct (decide (i < 2)%nat) as [|Hge]; [done|]. unfold bv_bit in Hi.
    replace (Z.of_nat i) with (Z.of_nat (i - 2) + 2) in Hi by lia.
    rewrite <- Z.shiftr_spec, Hs, Z.bits_0 in Hi by lia. done. }
  split; [done|]. rewrite forallb_forall in Hf.
  assert (Hin : In i [0%nat; 1%nat]) by (destruct i as [|[|i]]; simpl; auto; lia).
  specialize (Hf i Hin). rewrite Hi in Hf. simpl in Hf. apply andb_true_iff in Hf as [He Ha].
  apply existsb_exists in He as (m & Hm & Hb). rewrite <- list_elem_of_In in Hm. apply negb_true_iff in Ha. eauto.
Qed.

Lemma example_reach k : core_reach no_float 2 2 (Lrr_ok 2) k example_core.
Proof.
  unfold example_core. apply reach_next; [|vm_compute; reflexivity|done|vm_compute; reflexivity].
  apply reach_next; [|vm_compute; reflexivity| |vm_compute; reflexivity].
  - apply reach_next; [|vm_compute; reflexivity|done|vm_compute; reflexivity].
    apply reach_init, Lrr_init_ok; lia.
  - apply names_two; vm_compute; reflexivity.
Qed.

Lemma example_enabled iword : enabled (EvFetched true iword) example_core = true.
Proof. vm_compute. reflexivity. Qed.

Lemma example_response iword : response_ok 2 (EvFetched true iword) example_core = true.
Proof. vm_compute. reflexivity. Qed.

Lemma atomic_core_safe_witness :
  main_ example_core = MainFetch 0 0x1000 /\
  match step no_float 2 2 (EvFetched true 0x13) example_core with Ok _ => True | Err f => f = FatalError end.
Proof.
  split; [vm_compute; reflexivity|].
  pose proof (atomic_core_safe no_float 2 2 (Lrr_ok 2) ltac:(lia) ltac:(lia) 0 example_core (EvFetched true 0x13)
    (example_reach 1) (example_enabled _) I) as (_ & _ & _ & Hs).
  rewrite example_response in Hs. by destruct (step _ _ _ _ _).
Defined.

Lemma atomic_core_implements_warp_ctrl_witness : exists ws,
  core_inv 2 2 (Lrr_ok 2) 1 example_core ws /\
  match step no_float 2 2 (EvFetched true 0x13) example_core with
  | Ok (c', _) => exists ws', spec_step (EvFetched true 0x13) example_core ws ws' /\ core_inv 2 2 (Lrr_ok 2) 0 c' ws'
  | Err f => f = FatalError
  end.
Proof.
  destruct (reach_core_inv no_float 2 2 (Lrr_ok 2) ltac:(lia) ltac:(lia) 1 example_core (example_reach 1)) as [ws Hi].
  exists ws. split; [exact Hi|].
  pose proof (atomic_core_implements_warp_ctrl no_float 2 2 (Lrr_ok 2) ltac:(lia) ltac:(lia) 0 example_core ws
    (EvFetched true 0x13) (Lrr_init 2) (Lrr_init_ok 2 ltac:(lia) 0) Hi (example_enabled _) I) as [_ Hs].
  rewrite example_response in Hs. exact Hs.
Defined.
