(* ===== verification/SmThread.v ===== *)
(** * The threads of the atomic core

    A thread is one lane of one warp. The files' flat arrays seen as threads: an
    operation of the core changes the threads of the executing warp that take part in
    the instruction, and no other. *)

From stdpp Require Import relations.
From S2P Require Import Prelude WgInit SimFifo SmEncoding SmInstr SmExec SmSched SmCore SmInv SmSafe.

(** ** Threads *)

Record thread := mkThread { th_regs : list Z; th_pc : Z; th_pri : Z; th_frm : Z; th_fflags : Z }.
Definition set_reg (r : nat) (v : Z) (t : thread) : thread :=
  mkThread (<[r := v]> (th_regs t)) (th_pc t) (th_pri t) (th_frm t) (th_fflags t).
Definition set_pc (v : Z) (t : thread) : thread := mkThread (th_regs t) v (th_pri t) (th_frm t) (th_fflags t).
Definition set_pri (v : Z) (t : thread) : thread := mkThread (th_regs t) (th_pc t) v (th_frm t) (th_fflags t).
Definition set_flags (v : Z) (t : thread) : thread := mkThread (th_regs t) (th_pc t) (th_pri t) (th_frm t) v.

(** Unfold the function an application is of. *)
Ltac unfold_head e := lazymatch e with ?f _ => unfold_head f | _ => unfold e; cbv beta end.

Section threads.
Context {S : Type} `{WarpSched S} (sf : SoftFloat) (num_lanes num_warps : nat).
Abbreviation Core := (AtomicCore S).

Definition reg_at (t : Threads) (w l r : nat) : Z := nth (ToRegfileIndex num_lanes w r + l) (regfile_ t) 0.
Definition thread_of (t : Threads) (w l : nat) : thread :=
  mkThread (reg_at t w l <$> seq 0 32) (nth (lane_index num_lanes w l) (ptpc_ t) 0)
    (nth (lane_index num_lanes w l) (ptpri_ t) 0) (nth (lane_index num_lanes w l) (ptfrm_ t) 0)
    (nth (lane_index num_lanes w l) (ptfflags_ t) 0).
Definition thread_at (c : Core) (w l : nat) : thread := thread_of (threads c) w l.

Definition sized_threads (t : Threads) : Prop :=
  length (regfile_ t) = (num_lanes * num_warps * 32)%nat /\ length (ptpc_ t) = (num_lanes * num_warps)%nat /\
  length (ptpri_ t) = (num_lanes * num_warps)%nat /\ length (ptfrm_ t) = (num_lanes * num_warps)%nat /\
  length (ptfflags_ t) = (num_lanes * num_warps)%nat.
Definition sized_sinks (s : Sinks) : Prop :=
  length (addr_buf s) = num_lanes /\ length (data_buf s) = num_lanes /\ length (fflags_buf s) = num_lanes.

(** ** Indices *)

Lemma lane_index_lt w l : (w < num_warps)%nat -> (l < num_lanes)%nat ->
  (lane_index num_lanes w l < num_lanes * num_warps)%nat.
Proof. unfold lane_index. nia. Qed.
Lemma lane_index_inj w l w' l' : (l < num_lanes)%nat -> (l' < num_lanes)%nat ->
  lane_index num_lanes w l = lane_index num_lanes w' l' -> w = w' /\ l = l'.
Proof.
  unfold lane_index. intros Hl Hl' E. assert (w = w') as ->; [|lia].
  destruct (Nat.lt_trichotomy w w') as [|[|]]; [nia|done|nia].
Qed.
Lemma reg_index_lt w l r : (w < num_warps)%nat -> (l < num_lanes)%nat -> (r < 32)%nat ->
  (ToRegfileIndex num_lanes w r + l < num_lanes * num_warps * 32)%nat.
Proof. unfold ToRegfileIndex. nia. Qed.
Lemma reg_index_inj w l r w' l' r' : (l < num_lanes)%nat -> (l' < num_lanes)%nat -> (r < 32)%nat -> (r' < 32)%nat ->
  (ToRegfileIndex num_lanes w r + l = ToRegfileIndex num_lanes w' r' + l')%nat -> w = w' /\ r = r' /\ l = l'.
Proof.
  unfold ToRegfileIndex. intros Hl Hl' Hr Hr' E.
  assert (w * 32 + r = w' * 32 + r')%nat as E2.
  { destruct (Nat.lt_trichotomy (w * 32 + r) (w' * 32 + r')) as [|[|]]; [nia|done|nia]. }
  split_and!; [lia|lia|]. rewrite E2 in E. lia.
Qed.

(** A loop over the active lanes of [w] that updates each lane's place in an array. *)
Lemma for_active_array (m : Z) (idx : nat -> nat) (g : nat -> Z -> Z) (a : list Z) :
  (forall i j, (i < num_lanes)%nat -> (j < num_lanes)%nat -> idx i = idx j -> i = j) ->
  (forall i, (i < num_lanes)%nat -> (idx i < length a)%nat) ->
  let a' := for_active m num_lanes (fun i l => <[idx i := g i (nth (idx i) l 0)]> l) a in
  length a' = length a /\
  (forall i, (i < num_lanes)%nat -> nth (idx i) a' 0 = if bv_bit m i then g i (nth (idx i) a 0) else nth (idx i) a 0) /\
  (forall p, (forall i, (i < num_lanes)%nat -> p <> idx i) -> nth p a' 0 = nth p a 0).
Proof.
  intros Hinj Hlt. unfold for_active.
  enough (Hn : forall n, (n <= num_lanes)%nat ->
    let a' := for_range (fun i b => if Z.testbit m (Z.of_nat i) then <[idx i := g i (nth (idx i) b 0)]> b else b) 0 n a in
    length a' = length a /\
    (forall i, (i < num_lanes)%nat -> nth (idx i) a' 0 =
      if bool_decide (i < n)%nat && bv_bit m i then g i (nth (idx i) a 0) else nth (idx i) a 0) /\
    (forall p, (forall i, (i < num_lanes)%nat -> p <> idx i) -> nth p a' 0 = nth p a 0)).
  { destruct (Hn num_lanes) as (H1 & H2 & H3); [done|]. split_and!; [done| |done]. intros i Hi.
    rewrite H2 by done. by rewrite bool_decide_true. }
  induction n as [|n IH]; intros Hle; cbv zeta; [done|]. rewrite for_range_S. simpl Nat.add.
  destruct IH as (H1 & H2 & H3); [lia|]. cbv zeta in *. fold (bv_bit m n).
  set (b := for_range _ 0 n a) in *.
  destruct (bv_bit m n) eqn:E.
  - split_and!; [by rewrite length_insert| |].
    + intros i Hi. rewrite nth_insert by (rewrite H1; apply Hlt; lia). case_decide as Ei.
      * apply Hinj in Ei as ->; [|done|lia]. rewrite H2 by done.
        rewrite bool_decide_false, bool_decide_true by lia. by rewrite E.
      * rewrite H2 by done. destruct (decide (i = n)) as [->|]; [done|].
        by rewrite (bool_decide_ext (i < Datatypes.S n)%nat (i < n)%nat) by lia.
    + intros p Hp. rewrite nth_insert by (rewrite H1; apply Hlt; lia).
      rewrite decide_False; [by apply H3|]. intros ->. by apply (Hp n); [lia|].
  - split_and!; [done| |done]. intros i Hi. rewrite H2 by done.
    destruct (decide (i = n)) as [->|]; [by rewrite E, !andb_false_r|].
    by rewrite (bool_decide_ext (i < Datatypes.S n)%nat (i < n)%nat) by lia.
Qed.

(** ** Updates of the active threads of a warp *)

(** From [t] to [t'] the threads of warp [w] whose lanes are in [m] change by [g]. *)
Definition updates (w : nat) (m : Z) (g : nat -> thread -> thread) (t t' : Threads) : Prop :=
  (sized_threads t -> sized_threads t') /\
  (sized_threads t -> (w < num_warps)%nat -> forall w' l, (w' < num_warps)%nat -> (l < num_lanes)%nat ->
    thread_of t' w' l = if bool_decide (w' = w) && bv_bit m l then g l (thread_of t w' l) else thread_of t w' l).

Lemma updates_refl w m t : updates w m (fun _ x => x) t t.
Proof. split; [done|]. intros. by case_match. Qed.
Lemma updates_trans w m g1 g2 t1 t2 t3 :
  updates w m g1 t1 t2 -> updates w m g2 t2 t3 -> updates w m (fun l x => g2 l (g1 l x)) t1 t3.
Proof.
  intros [H1 H1'] [H2 H2']. split; [auto|]. intros Hs Hw w' l Hw' Hl. rewrite H2', H1' by auto.
  by case_match.
Qed.

Lemma thread_of_ext t t' w l : (forall r, (r < 32)%nat -> reg_at t' w l r = reg_at t w l r) ->
  nth (lane_index num_lanes w l) (ptpc_ t') 0 = nth (lane_index num_lanes w l) (ptpc_ t) 0 ->
  nth (lane_index num_lanes w l) (ptpri_ t') 0 = nth (lane_index num_lanes w l) (ptpri_ t) 0 ->
  nth (lane_index num_lanes w l) (ptfrm_ t') 0 = nth (lane_index num_lanes w l) (ptfrm_ t) 0 ->
  nth (lane_index num_lanes w l) (ptfflags_ t') 0 = nth (lane_index num_lanes w l) (ptfflags_ t) 0 ->
  thread_of t' w l = thread_of t w l.
Proof.
  intros Hr Hp Hq Hf Hg. unfold thread_of. rewrite Hp, Hq, Hf, Hg. f_equal.
  apply list_fmap_ext. intros i r Hi. apply lookup_seq in Hi as [-> Hi]. by apply Hr.
Qed.

(** The arrays of one value per thread. *)
Lemma updates_array w m (get : Threads -> list Z) (set : list Z -> Threads -> Threads)
    (upd : Z -> thread -> thread) (view : thread -> Z) (g : nat -> Z -> Z) t :
  (sized_threads t -> length (get t) = (num_lanes * num_warps)%nat) ->
  (forall a, sized_threads t -> length a = (num_lanes * num_warps)%nat -> sized_threads (set a t)) ->
  (forall w' l, view (thread_of t w' l) = nth (lane_index num_lanes w' l) (get t) 0) ->
  (forall a w' l, thread_of (set a t) w' l = upd (nth (lane_index num_lanes w' l) a 0) (thread_of t w' l)) ->
  (forall x, upd (view x) x = x) ->
  updates w m (fun l x => upd (g l (view x)) x) t
    (set (for_active m num_lanes (fun i a =>
      <[lane_index num_lanes w i := g i (nth (lane_index num_lanes w i) a 0)]> a) (get t)) t).
Proof.
  intros Hlen Hset Hview Hthr Hupd.
  assert (Harr : sized_threads t -> (w < num_warps)%nat -> _) by
    (intros Hs Hw; exact (for_active_array m (lane_index num_lanes w) g (get t)
      (fun i j Hi Hj E => proj2 (lane_index_inj w i w j Hi Hj E))
      (fun i Hi => eq_ind_r (fun n => (_ < n)%nat) (lane_index_lt w i Hw Hi) (Hlen Hs)))).
  split.
  - intros Hs. apply Hset; [done|]. rewrite <- Hlen by done. clear.
    unfold for_active. apply (for_range_ind (fun _ a => length a = length (get t))); [done|].
    intros j a _ Ha. case_match; [by rewrite length_insert|done].
  - intros Hs Hw w' l Hw' Hl. destruct (Harr Hs Hw) as (_ & Hin & Hout). rewrite Hthr.
    case_bool_decide as E; simpl.
    + subst. rewrite Hin by done. rewrite <- Hview. by destruct (bv_bit m l).
    + rewrite Hout; [by rewrite <- Hview|]. intros i Hi Ei. by apply lane_index_inj in Ei as [].
Qed.

Lemma updates_pc w m g t : updates w m (fun l x => set_pc (g l (th_pc x)) x) t
  (set_ptpc (for_active m num_lanes (fun i a =>
    <[lane_index num_lanes w i := g i (nth (lane_index num_lanes w i) a 0)]> a) (ptpc_ t)) t).
Proof.
  apply (updates_array w m ptpc_ set_ptpc set_pc th_pc g t); try done; [by intros (? & ? & ?)| |by intros []].
  intros a (? & ? & ? & ? & ?) Ha. by split_and!.
Qed.
Lemma updates_pri w m g t : updates w m (fun l x => set_pri (g l (th_pri x)) x) t
  (set_ptpri (for_active m num_lanes (fun i a =>
    <[lane_index num_lanes w i := g i (nth (lane_index num_lanes w i) a 0)]> a) (ptpri_ t)) t).
Proof.
  apply (updates_array w m ptpri_ set_ptpri set_pri th_pri g t); try done; [by intros (? & ? & ? & ?)| |by intros []].
  intros a (? & ? & ? & ? & ?) Ha. by split_and!.
Qed.
Lemma updates_fflags w m g t : updates w m (fun l x => set_flags (g l (th_fflags x)) x) t
  (set_ptfflags (for_active m num_lanes (fun i a =>
    <[lane_index num_lanes w i := g i (nth (lane_index num_lanes w i) a 0)]> a) (ptfflags_ t)) t).
Proof.
  apply (updates_array w m ptfflags_ set_ptfflags set_flags th_fflags g t); try done;
    [by intros (? & ? & ? & ? & ?)| |by intros []].
  intros a (? & ? & ? & ? & ?) Ha. by split_and!.
Qed.

Lemma updates_regs w m r v t : (r < 32)%nat -> updates w m (fun l => set_reg r (v l)) t
  (set_regfile (for_active m num_lanes (fun i a =>
    <[(ToRegfileIndex num_lanes w r + i)%nat := v i]> a) (regfile_ t)) t).
Proof.
  intros Hr. split.
  - intros (Hl & ? & ? & ? & ?). split_and!; try done. simpl. rewrite <- Hl. clear.
    unfold for_active. apply (for_range_ind (fun _ a => length a = length (regfile_ t))); [done|].
    intros j a _ Ha. case_match; [by rewrite length_insert|done].
  - intros (Hlen & _) Hw w' l Hw' Hl.
    destruct (for_active_array m (fun i => ToRegfileIndex num_lanes w r + i)%nat (fun i _ => v i) (regfile_ t))
      as (_ & Hin & Hout).
    { intros i j Hi Hj E. lia. }
    { intros i Hi. rewrite Hlen. by apply reg_index_lt. }
    assert (Hreg : forall r', (r' < 32)%nat -> reg_at (set_regfile (for_active m num_lanes (fun i a =>
        <[(ToRegfileIndex num_lanes w r + i)%nat := v i]> a) (regfile_ t)) t) w' l r' =
      if bool_decide (w' = w) && bv_bit m l && bool_decide (r' = r) then v l else reg_at t w' l r').
    { intros r' Hr'. unfold reg_at. cbn [regfile_ set_regfile].
      destruct (decide (w' = w /\ r' = r)) as [[-> ->]|Hne].
      - rewrite Hin by done. rewrite !bool_decide_true by done. by rewrite andb_true_r.
      - rewrite Hout; [|intros i Hi E; apply reg_index_inj in E as (? & ? & ?); tauto].
        repeat case_bool_decide; subst; try tauto; by rewrite ?andb_false_r. }
    case_bool_decide as Ew; simpl in *; [|apply thread_of_ext; try done; intros r' Hr'; by rewrite Hreg by done].
    subst w'. destruct (bv_bit m l) eqn:Eb.
    + unfold thread_of, set_reg. cbn [th_regs th_pc th_pri th_frm th_fflags]. f_equal. apply list_eq. intros k.
      rewrite list_lookup_fmap. destruct (decide (k < 32)%nat) as [Hk|Hk].
      * rewrite lookup_seq_lt by done. cbn [fmap option_fmap option_map]. rewrite Hreg by done. case_bool_decide as Er.
        -- subst. rewrite list_lookup_insert_eq; [done|]. by rewrite length_fmap, length_seq.
        -- rewrite list_lookup_insert_ne by done. rewrite list_lookup_fmap, lookup_seq_lt by done. done.
      * rewrite lookup_seq_ge by lia. symmetry. apply lookup_ge_None_2.
        rewrite length_insert, length_fmap, length_seq. lia.
    + apply thread_of_ext; try done; intros r' Hr'; by rewrite Hreg by done.
Qed.

(** One lane's floating-point state. *)
Lemma updates_one w m (i : nat) (get : Threads -> list Z) (set : list Z -> Threads -> Threads)
    (upd : Z -> thread -> thread) v t :
  bv_bit m i = true -> (i < num_lanes)%nat ->
  (sized_threads t -> length (get t) = (num_lanes * num_warps)%nat) ->
  (forall a, sized_threads t -> length a = (num_lanes * num_warps)%nat -> sized_threads (set a t)) ->
  (forall a w' l, thread_of (set a t) w' l = upd (nth (lane_index num_lanes w' l) a 0) (thread_of t w' l)) ->
  (forall w' l, upd (nth (lane_index num_lanes w' l) (get t) 0) (thread_of t w' l) = thread_of t w' l) ->
  updates w m (fun l x => if decide (l = i) then upd v x else x) t
    (set (<[lane_index num_lanes w i := v]> (get t)) t).
Proof.
  intros Hb Hi Hlen Hset Hthr Hself. split.
  - intros Hs. apply Hset; [done|]. rewrite length_insert. by apply Hlen.
  - intros Hs Hw w' l Hw' Hl. rewrite Hthr.
    rewrite nth_insert by (rewrite Hlen by done; by apply lane_index_lt).
    case_decide as E.
    + apply lane_index_inj in E as [-> ->]; [|done|done]. rewrite bool_decide_true by done. rewrite Hb. simpl.
      by rewrite decide_True.
    + rewrite Hself. case_match eqn:Eb; [|done]. apply andb_true_iff in Eb as [Ew _].
      apply bool_decide_eq_true in Ew. subst w'. rewrite decide_False by congruence. done.
Qed.

Lemma updates_one_fflags w m i v t : bv_bit m i = true -> (i < num_lanes)%nat ->
  updates w m (fun l x => if decide (l = i) then set_flags v x else x) t
    (set_ptfflags (<[lane_index num_lanes w i := v]> (ptfflags_ t)) t).
Proof.
  intros Hb Hi. apply (updates_one w m i ptfflags_ set_ptfflags set_flags); try done; [by intros (? & ? & ? & ? & ?)|].
  intros a (? & ? & ? & ? & ?) Ha. by split_and!.
Qed.
Definition set_frm (v : Z) (t : thread) : thread :=
  mkThread (th_regs t) (th_pc t) (th_pri t) v (th_fflags t).
Lemma updates_one_frm w m i v t : bv_bit m i = true -> (i < num_lanes)%nat ->
  updates w m (fun l x => if decide (l = i) then set_frm v x else x) t
    (set_ptfrm (<[lane_index num_lanes w i := v]> (ptfrm_ t)) t).
Proof.
  intros Hb Hi. apply (updates_one w m i ptfrm_ set_ptfrm set_frm); try done; [by intros (? & ? & ? & ? & ?)|].
  intros a (? & ? & ? & ? & ?) Ha. by split_and!.
Qed.

(** ** The operations of the core *)

Definition sized (c : Core) : Prop := sized_threads (threads c) /\ sized_sinks (sinks c).

(** From [c] to [c'] only the threads of [w] in [m] change, and the buffers keep their
    sizes. *)
Definition iso (w : nat) (m : Z) (c c' : Core) : Prop :=
  (sized_sinks (sinks c) -> sized_sinks (sinks c')) /\ exists g, updates w m g (threads c) (threads c').
(** The same of a part of an instruction, which keeps the lanes of the instruction. *)
Definition part (w : nat) (c c' : Core) : Prop := tmask_ c' = tmask_ c /\ iso w (tmask_ c) c c'.

Lemma iso_refl w m c : iso w m c c.
Proof. split; [done|]. exists (fun _ x => x). apply updates_refl. Qed.
Lemma iso_trans w m c1 c2 c3 : iso w m c1 c2 -> iso w m c2 c3 -> iso w m c1 c3.
Proof.
  intros [H1 [g1 Hg1]] [H2 [g2 Hg2]]. split; [auto|]. exists (fun l x => g2 l (g1 l x)).
  by eapply updates_trans.
Qed.
#[local] Instance part_preorder w : PreOrder (part w).
Proof.
  split; [intros c; split; [done|apply iso_refl]|]. intros c1 c2 c3 [E1 H1] [E2 H2].
  split; [congruence|]. rewrite E1 in H2. by eapply iso_trans.
Qed.
Lemma part_iso w m c1 c2 c3 : part w c1 c2 -> tmask_ c1 = m -> iso w m c2 c3 -> iso w m c1 c3.
Proof. intros [_ H1] <- H2. by eapply iso_trans. Qed.

(** Threads and buffers stay. *)
Lemma part_same w c c' : threads c' = threads c -> sinks c' = sinks c -> tmask_ c' = tmask_ c -> part w c c'.
Proof. intros Et Es Em. split; [done|]. split; rewrite ?Es, ?Et; [done|]. exists (fun _ x => x). apply updates_refl. Qed.
Lemma iso_same w m c c' : threads c' = threads c -> (sized_sinks (sinks c) -> sized_sinks (sinks c')) -> iso w m c c'.
Proof. intros Et Es. split; [done|]. rewrite Et. exists (fun _ x => x). apply updates_refl. Qed.
Lemma part_sinks w c s : (sized_sinks (sinks c) -> sized_sinks s) -> part w c (set_sinks s c).
Proof. intros Hs. split; [done|]. by apply iso_same. Qed.
Lemma part_threads w c t g : updates w (tmask_ c) g (threads c) t -> part w c (set_threads t c).
Proof. intros Hg. split; [done|]. split; [done|eauto]. Qed.

Lemma sized_set_data i v s : sized_sinks s -> sized_sinks (set_data i v s).
Proof. intros (? & ? & ?). split_and!; simpl; rewrite ?length_insert; done. Qed.
Lemma sized_set_addr i v s : sized_sinks s -> sized_sinks (set_addr i v s).
Proof. intros (? & ? & ?). split_and!; simpl; rewrite ?length_insert; done. Qed.
Lemma sized_set_fflags i v s : sized_sinks s -> sized_sinks (set_fflags i v s).
Proof. intros (? & ? & ?). split_and!; simpl; rewrite ?length_insert; done. Qed.
Lemma sized_for_range (f : nat -> Sinks -> Sinks) i n s : (forall i s, sized_sinks s -> sized_sinks (f i s)) ->
  sized_sinks s -> sized_sinks (for_range f i n s).
Proof. intros Hf Hs. apply (for_range_ind (fun _ => sized_sinks)); auto. Qed.
Lemma sized_for_active m n (f : nat -> Sinks -> Sinks) s : (forall i s, sized_sinks s -> sized_sinks (f i s)) ->
  sized_sinks s -> sized_sinks (for_active m n f s).
Proof. intros Hf Hs. apply sized_for_range; [|done]. intros i s' Hs'. case_match; auto. Qed.

Definition rd_ok (r : Z) : Prop := r = kNullReg \/ 0 <= r < 32.

Lemma part_WriteRegfile w r c : rd_ok r -> part w c (WriteRegfile num_lanes w r c).
Proof.
  intros Hr. unfold WriteRegfile. case_match eqn:E; [reflexivity|].
  apply orb_false_iff in E as [E _]. apply Z.eqb_neq in E. destruct Hr as [|Hr]; [done|].
  eapply part_threads. by apply updates_regs; lia.
Qed.
Lemma part_AdvancePC w c : part w c (AdvancePC num_lanes w c).
Proof. eapply part_threads, (updates_pc w _ (fun _ p => u64 (p + 4))). Qed.
Lemma part_UpdatePC w c : part w c (UpdatePC num_lanes w c).
Proof. eapply part_threads, (updates_pc w _ (fun i _ => nth i (addr_buf (sinks c)) 0)). Qed.
Lemma part_UpdatePri w op c : part w c (UpdatePri num_lanes w op c).
Proof. eapply part_threads, (updates_pri w _ (fun _ p => u8 (_ * (p + _ * pri_buf (sinks c))))). Qed.
Lemma part_UpdateFflags w c : part w c (UpdateFflags num_lanes w c).
Proof. eapply part_threads, (updates_fflags w _ (fun i p => Z.lor p (Z.land (nth i (fflags_buf (sinks c)) 0) 0x1f))). Qed.
Lemma part_SignExtension w size b c : part w c (SignExtension num_lanes size b c).
Proof. apply part_sinks. intros Hs. apply sized_for_active; [|done]. intros. by apply sized_set_data. Qed.
Lemma part_fill w i len v c : part w c (fill i len v c).
Proof. apply part_sinks. apply sized_set_data. Qed.
Lemma part_for_active w m n (f : nat -> Core -> Core) c : (forall i c, part w c (f i c)) -> part w c (for_active m n f c).
Proof.
  intros Hf. apply (for_range_ind (fun _ c' => part w c c')); [reflexivity|].
  intros j b _ Hb. case_match; [|done]. by etrans; [|apply Hf].
Qed.

(** The result, if there is one, satisfies [P]. *)
Definition oks {A} (P : A -> Prop) (r : res A) : Prop := match r with Ok a => P a | Err _ => True end.
Lemma oks_bind {A B} (P : A -> Prop) (Q : B -> Prop) (r : res A) (f : A -> res B) :
  oks P r -> (forall a, P a -> oks Q (f a)) -> oks Q (r ≫= f).
Proof. destruct r; simpl; auto. Qed.
Lemma oks_mono {A} (P Q : A -> Prop) (r : res A) : oks P r -> (forall a, P a -> Q a) -> oks Q r.
Proof. destruct r; simpl; auto. Qed.
Lemma oks_massert {A} (P : A -> Prop) b (m : res A) : oks P m -> oks P (massert b;; m).
Proof. by destruct b. Qed.

Lemma part_csr_access w i csr f c : bv_bit (tmask_ c) i = true -> (i < num_lanes)%nat ->
  oks (fun '(_, c') => part w c c') (csr_access num_lanes w i csr f c).
Proof.
  intros Hb Hi. unfold csr_access. repeat case_match; simpl; try reflexivity; try by apply part_same.
  - eapply part_threads. by apply updates_one_fflags.
  - eapply part_threads. by apply updates_one_frm.
  - eapply part_threads. match goal with |- updates _ _ _ _ (set_ptfflags _ (set_ptfrm (<[_ := ?a]> _) _)) =>
      exact (updates_trans _ _ _ _ _ _ _ (updates_one_frm w _ i a (threads c) Hb Hi)
        (updates_one_fflags w _ i _ (set_ptfrm (<[lane_index num_lanes w i := a]> (ptfrm_ (threads c))) (threads c)) Hb Hi)) end.
Qed.
Lemma part_ExecuteCsrOp w op c : oks (part w c) (ExecuteCsrOp num_lanes w op c).
Proof.
  unfold ExecuteCsrOp, for_active.
  apply (for_range_ind (fun _ r => oks (part w c) r)); [simpl; reflexivity|].
  intros j r Hj Hr. case_match eqn:Eb; [|done]. eapply oks_bind; [exact Hr|]. intros c1 H1.
  eapply oks_bind; [apply part_csr_access|].
  - destruct H1 as [-> _]. exact Eb.
  - lia.
  - intros [v c2] H2. simpl. etrans; [exact H1|]. etrans; [exact H2|]. apply part_sinks. apply sized_set_data.
Qed.

(** ** Execution *)

Lemma sized_rd flag ctx f s : sized_sinks s -> sized_sinks (snd (exec_rd flag ctx f s)).
Proof. apply sized_for_active. intros. by apply sized_set_data. Qed.
Lemma sized_fp ctx f s : sized_sinks s -> sized_sinks (snd (exec_fp ctx f s)).
Proof. apply sized_for_active. intros. by apply sized_set_fflags, sized_set_data. Qed.
Lemma sized_csr flag f ctx instr s : sized_sinks s -> sized_sinks (snd (exec_csr flag f ctx instr s)).
Proof.
  intros Hs. unfold exec_csr. apply (sized_for_range (fun i => set_data i (f ctx instr i)) 0
    (SmExec.num_lanes ctx) s) in Hs; [exact Hs|]. intros. by apply sized_set_data.
Qed.
Lemma sized_checked ctx bad f s : (forall i s, sized_sinks s -> sized_sinks (f i s)) -> sized_sinks s ->
  sized_sinks (snd (checked_lanes ctx bad f s)).
Proof.
  intros Hf Hs. unfold checked_lanes, for_lanes, for_active.
  apply (for_range_ind (fun _ r => sized_sinks (snd r))); [done|].
  intros j [b s'] _ Hs'. case_match; [by apply Hf|done].
Qed.
Lemma sized_jump ctx target s : sized_sinks s -> sized_sinks (snd (exec_jump ctx target s)).
Proof.
  intros Hs. unfold exec_jump. destruct (checked_lanes _ _ _ _) as [b s'] eqn:E. simpl.
  change s' with (snd (b, s')). rewrite <- E. apply sized_checked; [|done].
  intros. by apply sized_set_addr, sized_set_data.
Qed.
Lemma sized_branch taken ctx instr s : sized_sinks s -> sized_sinks (snd (ExecuteBranch taken ctx instr s)).
Proof.
  intros Hs. unfold ExecuteBranch. destruct (checked_lanes _ _ _ _) as [b s'] eqn:E. simpl.
  change s' with (snd (b, s')). rewrite <- E. apply sized_checked; [|done]. intros. by apply sized_set_addr.
Qed.
Lemma sized_load w g ctx instr s : sized_sinks s -> sized_sinks (snd (ExecuteLoad w g ctx instr s)).
Proof.
  intros Hs. unfold ExecuteLoad. destruct (checked_lanes _ _ _ _) as [b s'] eqn:E. simpl.
  change s' with (snd (b, s')). rewrite <- E. apply sized_checked; [|done]. intros. by apply sized_set_addr.
Qed.
Lemma sized_store w ctx instr s : sized_sinks s -> sized_sinks (snd (ExecuteStore w ctx instr s)).
Proof.
  intros Hs. unfold ExecuteStore. destruct (checked_lanes _ _ _ _) as [b s'] eqn:E. simpl.
  change s' with (snd (b, s')). rewrite <- E. apply sized_checked; [|done].
  intros. by apply sized_set_data, sized_set_addr.
Qed.
Lemma sized_amo op w ctx instr s : sized_sinks s -> sized_sinks (snd (ExecuteAtomicInstr op w ctx instr s)).
Proof. apply sized_for_active. intros. by apply sized_set_data, sized_set_addr. Qed.

Lemma sized_Execute ctx instr s : sized_sinks s -> sized_sinks (snd (Execute sf ctx instr s)).
Proof.
  intros Hs. unfold Execute. destruct (def instr); cbn [exec_of];
    repeat lazymatch goal with
    | |- sized_sinks s => exact Hs
    | |- sized_sinks (snd (_, s)) => exact Hs
    | |- sized_sinks (snd (_, set_pri_buf _ s)) => exact Hs
    | |- sized_sinks (snd (exec_rd _ _ _ _)) => by apply sized_rd
    | |- sized_sinks (snd (exec_fp _ _ _)) => by apply sized_fp
    | |- sized_sinks (snd (exec_csr _ _ _ _ _)) => by apply sized_csr
    | |- sized_sinks (snd (exec_jump _ _ _)) => by apply sized_jump
    | |- sized_sinks (snd (ExecuteBranch _ _ _ _)) => by apply sized_branch
    | |- sized_sinks (snd (ExecuteLoad _ _ _ _ _)) => by apply sized_load
    | |- sized_sinks (snd (ExecuteStore _ _ _ _)) => by apply sized_store
    | |- sized_sinks (snd (ExecuteAtomicInstr _ _ _ _ _)) => by apply sized_amo
    | |- sized_sinks (snd (?e _ _ _)) => unfold_head e
    end.
Qed.

Lemma DecodeRd_ok w : 0 <= DecodeRd w < 32.
Proof.
  unfold DecodeRd. assert (H' : 0 <= Z.shiftr (Z.land w INSN_FIELD_RD) 7 < 2 ^ 5).
  { change INSN_FIELD_RD with (Z.shiftl (Z.ones 5) 7). rewrite Z.shiftr_land, Z.shiftr_shiftl_l by lia.
    change (Z.shiftl (Z.ones 5) (7 - 7)) with (Z.ones 5). rewrite Z.land_ones by lia. apply Z.mod_pos_bound. lia. }
  rewrite wrap_small; [lia|]. lia.
Qed.
Lemma decode_rd_ok w : rd_ok (rd (Decode w)).
Proof.
  unfold Decode, Decoder. set (d := nth _ _ Illegal). change (rd_ok (rd (Fill (Fmt d) w no_instr))).
  pose proof (DecodeRd_ok w). destruct (Fmt d); try (by left); try (by right); cbn [Fill].
  - unfold Fill_SystemType. repeat case_match; try (by left); by right.
  - unfold Fill_FormosaType. case_match; by left.
Qed.

(** ** The parts of an instruction *)

(** The instruction [MainProc] holds has a register of the file as its destination. *)
Definition main_ok (m : main_pc) : Prop :=
  match m with MainLoad x | MainAtomic x _ | MainStore x => rd_ok (rd (x_instr x)) | _ => True end.
Definition next (w : nat) (m : Z) (c : Core) : Core * list Request -> Prop :=
  fun '(c', _) => iso w m c c' /\ main_ok (main_ c').

Lemma next_part w m c c' r : part w c c' -> tmask_ c = m -> oks (next w m c') r -> oks (next w m c) r.
Proof.
  intros Hp Em Hr. eapply oks_mono; [exact Hr|]. intros [c'' q] [Hi Hm]. split; [|done]. by eapply part_iso.
Qed.

Lemma next_main_loop w m c : oks (next w m c) (main_loop num_lanes num_warps c).
Proof.
  unfold main_loop. case_match; [by split; [apply iso_same|]|]. destruct (SelectWarp _ _) as [s v].
  unfold ArbitratePC. destruct (arbitrate _ _ _) as [[f l] p]. eapply (oks_bind (fun _ => True)); [by apply oks_massert|].
  intros wpc _. split; [|done]. apply iso_same; [done|]. apply sized_set_addr.
Qed.

Lemma part_transition w to from cwm c : oks (part w c) (WarpStateTransition to from cwm c).
Proof. unfold WarpStateTransition. do 2 apply oks_massert. by apply part_same. Qed.
Lemma part_trap w i cause epc tval c : oks (part w c) (trap i cause epc tval c).
Proof.
  unfold trap. match goal with |- context [WarpStateTransition _ _ _ ?c] => set (c1 := c) end.
  assert (H1 : part w c c1) by by apply part_same. clearbody c1.
  eapply oks_mono; [apply (part_transition w)|]. intros c' Hp. by etrans; [exact H1|].
Qed.
Lemma part_resolve w x c : oks (part w c) (resolve num_lanes x c).
Proof.
  unfold resolve. repeat case_match; [apply part_trap|apply part_trap|apply part_transition|simpl; reflexivity].
Qed.

Lemma part_commit w x c : x_wid x = w -> rd_ok (rd (x_instr x)) -> oks (part w c) (commit num_lanes x c).
Proof.
  intros Ew Hrd. unfold commit. rewrite Ew. set (c0 := set_executing 0 c).
  assert (H0 : part w c c0) by by apply part_same.
  eapply (oks_bind (part w c)).
  { case_match; [|exact H0]. eapply oks_bind; [apply (part_ExecuteCsrOp w)|]. intros c1 Hc1. simpl.
    etrans; [exact H0|]. etrans; [exact Hc1|]. by apply part_WriteRegfile. }
  clear H0 c0. intros c1 H1.
  set (c2 := if HasFlag (x_flag x) ExecFlag.FP_EXC then _ else _).
  assert (H2 : part w c c2) by (subst c2; case_match; [|done]; etrans; [exact H1|apply part_UpdateFflags]).
  set (c3 := if HasFlag (x_flag x) ExecFlag.PRIORITY then _ else _).
  assert (H3 : part w c c3) by (subst c3; case_match; [|done]; etrans; [exact H2|apply part_UpdatePri]).
  clearbody c3. clear H1 H2 c2 c1. eapply (oks_bind (part w c)).
  { case_match; [|done]. unfold ArriveBarrier. destruct (massert _) as [u|]; [|done].
    cbn [mbind res_bind]. case_match. simpl. etrans; [exact H3|]. by apply part_same. }
  clear H3 c3. intros c4 H4. eapply (oks_bind (part w c)).
  { case_match; [|done]. unfold Exit. destruct (massert _) as [u|]; [|done].
    simpl. etrans; [exact H4|]. by apply part_same. }
  clear H4 c4. intros c5 H5. eapply oks_bind; [apply (part_resolve w)|]. intros c6 H6. simpl.
  etrans; [exact H5|]. etrans; [exact H6|]. by apply part_same.
Qed.

Section stages.
Context (x : Executing) (Hrd : rd_ok (rd (x_instr x))).
Abbreviation w := (x_wid x).

Lemma next_finish c : oks (next w (tmask_ c) c) (finish num_lanes num_warps x c).
Proof.
  unfold finish. eapply oks_bind; [by apply (part_commit w)|]. intros c1 P1.
  eapply next_part; [exact P1|done|]. apply next_main_loop.
Qed.
Lemma next_abandon wid c : oks (next w (tmask_ c) c) (abandon num_lanes num_warps wid c).
Proof.
  unfold abandon, CompleteAbort. eapply (oks_bind (part w c)).
  { apply oks_massert. eapply oks_mono; [apply (part_transition w)|]. intros c' Hp. etrans; [|exact Hp].
    by apply part_same. }
  intros c1 P1. eapply next_part; [exact P1|done|]. apply next_main_loop.
Qed.
Lemma next_wait m c qs : main_ok m -> next w (tmask_ c) c (set_main m c, qs).
Proof. intros Hm. split; [by apply iso_same|done]. Qed.
Lemma next_at_store c : oks (next w (tmask_ c) c) (at_store num_lanes num_warps x c).
Proof. unfold at_store. case_match; [by apply next_wait|apply next_finish]. Qed.
Lemma next_after_store c : oks (next w (tmask_ c) c) (after_store num_lanes num_warps x c).
Proof. unfold after_store. case_match; [apply next_abandon|apply next_finish]. Qed.
Lemma next_after_atomic c : oks (next w (tmask_ c) c) (after_atomic num_lanes num_warps x c).
Proof.
  unfold after_atomic. set (c1 := SignExtension _ _ _ c).
  assert (P1 : part w c c1) by apply part_SignExtension. pose proof P1 as [E1 _].
  eapply next_part; [exact P1|done|]. rewrite <- E1. case_match; [apply next_abandon|].
  pose proof (part_WriteRegfile w (rd (x_instr x)) c1 Hrd) as P2. pose proof P2 as [E2 _].
  eapply next_part; [exact P2|done|]. rewrite <- E2. apply next_at_store.
Qed.
Lemma next_next_atomic lane c : oks (next w (tmask_ c) c) (next_atomic num_lanes num_warps x lane c).
Proof. unfold next_atomic. case_match; [by apply next_wait|apply next_after_atomic]. Qed.
Lemma next_at_atomic rs3 c : oks (next w (tmask_ c) c) (at_atomic num_lanes num_warps rs3 x c).
Proof.
  unfold at_atomic. case_match; [|apply next_at_store]. case_match; [|apply next_next_atomic].
  match goal with |- context [next_atomic _ _ _ _ ?c1] => set (c1' := c1) end.
  assert (P1 : part w c c1') by by apply part_same.
  eapply next_part; [exact P1|done|]. apply (next_next_atomic 0 c1').
Qed.
Lemma next_at_load c : oks (next w (tmask_ c) c) (at_load num_lanes num_warps x c).
Proof. unfold at_load. case_match; [by apply next_wait|apply next_at_atomic]. Qed.
Lemma next_after_load c : oks (next w (tmask_ c) c) (after_load num_lanes num_warps x c).
Proof.
  unfold after_load. case_match; [apply next_abandon|]. set (c1 := WriteRegfile _ _ _ _).
  assert (P1 : part w c c1) by (etrans; [apply part_SignExtension|by apply part_WriteRegfile]).
  pose proof P1 as [E1 _]. eapply next_part; [exact P1|done|]. rewrite <- E1. apply next_at_atomic.
Qed.

End stages.

Lemma next_after_fetch w wpc c : oks (next w (tmask_ c) c) (after_fetch sf num_lanes num_warps w wpc c).
Proof.
  unfold after_fetch. set (iword := u32 _). pose proof (sized_Execute
    (exec_context num_lanes w wpc (Decode iword) (AdvancePC num_lanes w c)) (Decode iword)
    (sinks (AdvancePC num_lanes w c))) as Hex.
  destruct (Execute _ _ _ _) as [flag s]. simpl in Hex. set (c1 := set_sinks s _).
  set (x := mkExecuting _ _ _ _ _). pose proof (decode_rd_ok iword) as Hrd.
  assert (P1 : part w c c1) by (etrans; [apply part_AdvancePC|by apply part_sinks]).
  pose proof P1 as [E1 _]. eapply next_part; [exact P1|done|]. rewrite <- E1.
  case_match; [apply (next_abandon x)|].
  match goal with |- context [at_load _ _ x ?c] => set (c2 := c) end.
  assert (P2 : part w c1 c2).
  { subst c2. etrans; [|case_match; [apply part_UpdatePC|reflexivity]].
    case_match; [by apply part_WriteRegfile|reflexivity]. }
  pose proof P2 as [E2 _]. eapply next_part; [exact P2|done|]. rewrite <- E2. by apply (next_at_load x).
Qed.

(** ** Steps *)

Lemma next_step w e c : main_warp (main_ c) = Some w -> enabled e c = true -> main_ok (main_ c) ->
  match e with EvClock | EvCommand _ => False | _ => True end ->
  oks (next w (tmask_ c) c) (step sf num_lanes num_warps e c).
Proof.
  unfold enabled, step, CollectMemResp.
  intros Hw Hen Hm He. destruct (main_ c) as [ | |w' wpc|x|x lane|x] eqn:Em; try done;
    destruct e as [ |cmd| |ok iword|ok data|i ok data|ok]; try done; simpl in Hw; injection Hw as <-; simpl in Hm.
  - apply oks_massert. eapply (next_part w' _ c (fill 0 4 iword c)); [apply part_fill|done|].
    exact (next_after_fetch w' wpc (fill 0 4 iword c)).
  - apply oks_massert. match goal with |- oks _ (after_load _ _ _ ?c1) => set (c1' := c1) end.
    assert (Hp : part (x_wid x) c c1') by (apply part_for_active; intros; apply part_fill).
    eapply next_part; [exact Hp|done|]. destruct Hp as [<- _]. by apply next_after_load.
  - do 2 apply oks_massert. eapply (next_part (x_wid x) _ c (fill lane _ data c)); [apply part_fill|done|].
    exact (next_next_atomic x Hm (lane + 1) (fill lane _ data c)).
  - apply oks_massert. by apply next_after_store.
Qed.

(** ** Activation *)

Definition activated (pc : Z) (t : thread) : thread := set_pri 0 (set_pc pc t).

Lemma updates_ext w m g g' t t' : (forall l x, (l < num_lanes)%nat -> g l x = g' l x) ->
  updates w m g t t' -> updates w m g' t t'.
Proof.
  intros Hg [Hs Hu]. split; [done|]. intros. rewrite Hu by done. case_match; [by apply Hg|done].
Qed.
Lemma updates_one_pc w i v t : (i < num_lanes)%nat ->
  updates w (-1) (fun l x => if decide (l = i) then set_pc v x else x) t
    (set_ptpc (<[lane_index num_lanes w i := v]> (ptpc_ t)) t).
Proof.
  intros Hi. apply (updates_one w _ i ptpc_ set_ptpc set_pc); try done.
  - unfold bv_bit. by apply Z.bits_m1, Nat2Z.is_nonneg.
  - by intros (? & ? & ?).
  - intros a (? & ? & ? & ? & ?) Ha. by split_and!.
Qed.
Lemma updates_one_pri w i v t : (i < num_lanes)%nat ->
  updates w (-1) (fun l x => if decide (l = i) then set_pri v x else x) t
    (set_ptpri (<[lane_index num_lanes w i := v]> (ptpri_ t)) t).
Proof.
  intros Hi. apply (updates_one w _ i ptpri_ set_ptpri set_pri); try done.
  - unfold bv_bit. by apply Z.bits_m1, Nat2Z.is_nonneg.
  - by intros (? & ? & ? & ?).
  - intros a (? & ? & ? & ? & ?) Ha. by split_and!.
Qed.

Lemma updates_activate_lanes w pc n t : (n <= num_lanes)%nat ->
  updates w (-1) (fun l x => if decide (l < n)%nat then activated pc x else x) t
    (for_range (fun l t => set_ptpri (<[lane_index num_lanes w l := 0]> (ptpri_ t))
      (set_ptpc (<[lane_index num_lanes w l := pc]> (ptpc_ t)) t)) 0 n t).
Proof.
  induction n as [|n IH]; intros Hn.
  - eapply updates_ext; [|apply updates_refl]. intros. by case_decide; [lia|].
  - rewrite for_range_S. simpl. eapply updates_ext; [|eapply updates_trans; [apply IH; lia|]].
    2:{ eapply (updates_trans w (-1)); [apply (updates_one_pc w n pc); lia|].
        apply (updates_one_pri w n 0 (set_ptpc _ _)). lia. }
    intros l x Hl. simpl. repeat case_decide; try lia; done.
Qed.

Lemma Activate_threads cwm pc wg_info base c : oks (fun c' => (sized c -> sized c') /\ main_ c' = main_ c /\
  (sized c -> forall w l, (w < num_warps)%nat -> (l < num_lanes)%nat ->
    thread_at c' w l = if bv_bit cwm w then activated pc (thread_at c w l) else thread_at c w l))
  (Activate num_lanes num_warps cwm pc wg_info base c).
Proof.
  unfold Activate. apply oks_massert. unfold WarpStateTransition. do 2 apply oks_massert.
  match goal with |- oks _ (mret (set_masks _ ?c1)) => set (c1' := c1) end.
  enough (Hn : forall n, (n <= num_warps)%nat ->
    let c' := fst (for_range (activate_warp num_lanes cwm pc wg_info base) 0 n (c, 0)) in
    (sized c -> sized c') /\ main_ c' = main_ c /\
    (sized c -> forall w l, (w < num_warps)%nat -> (l < num_lanes)%nat ->
      thread_at c' w l = if bool_decide (w < n)%nat && bv_bit cwm w then activated pc (thread_at c w l) else thread_at c w l)).
  { destruct (Hn num_warps (le_n _)) as (P1 & P2 & P3). simpl. split_and!; [exact P1|exact P2|].
    intros Hs w l Hw Hl. change (thread_at (set_masks _ c1') w l) with (thread_at c1' w l).
    subst c1'. rewrite P3 by done. by rewrite bool_decide_true. }
  clear c1'. induction n as [|n IH]; intros Hle; [by split_and!|]. destruct IH as (P1 & P2 & P3); [lia|].
  cbv zeta in *. rewrite for_range_S. simpl Nat.add.
  destruct (for_range _ 0 n (c, 0)) as [c1 cnt]. cbn [fst] in *. unfold activate_warp.
  destruct (bv_bit cwm n) eqn:Eb; cbn [fst].
  - pose proof (updates_activate_lanes n pc num_lanes (threads c1) (le_n _)) as [U1 U2].
    split_and!; [|done|].
    + intros Hs. destruct (P1 Hs) as [? ?]. split; [by apply U1|done].
    + intros Hs w l Hw Hl. unfold thread_at at 1. simpl threads. destruct (P1 Hs) as [Hs1 _].
      etrans; [apply (U2 Hs1); lia|]. rewrite decide_True by done. fold (thread_at c1 w l). rewrite P3 by done.
      assert (Hb : bv_bit (-1) l = true) by (unfold bv_bit; by apply Z.bits_m1, Nat2Z.is_nonneg).
      rewrite Hb. repeat case_bool_decide; subst; simpl; rewrite ?Eb; try lia; done.
  - split_and!; [exact P1|exact P2|]. intros Hs w l Hw Hl. rewrite P3 by done.
    repeat case_bool_decide; try lia; try done. assert (w = n) as -> by lia. by rewrite Eb.
Qed.

Lemma Resume_threads cwm (c : Core) : oks (fun c' : Core => threads c' = threads c /\ sinks c' = sinks c /\ main_ c' = main_ c)
  (Resume num_lanes num_warps cwm c).
Proof. unfold Resume, WarpStateTransition. by repeat apply oks_massert. Qed.
Lemma Release_threads cwm (c : Core) : oks (fun c' : Core => threads c' = threads c /\ sinks c' = sinks c /\ main_ c' = main_ c)
  (Release cwm c).
Proof. unfold Release, WarpStateTransition. by repeat apply oks_massert. Qed.
Lemma Abort_threads cwm (c : Core) : oks (fun c' : Core => threads c' = threads c /\ sinks c' = sinks c /\ main_ c' = main_ c)
  (Abort num_warps cwm c).
Proof. unfold Abort. by apply oks_massert. Qed.

(** ** Reachable states *)

Context (sched_ok : nat -> S -> Prop) `{!SchedLaws num_warps S sched_ok}.
Context (Hlanes : (0 < num_lanes)%nat) (Hwarps : (num_warps <= 32)%nat).
Abbreviation reach := (core_reach sf num_lanes num_warps sched_ok).

(** A command does not touch the threads, but for the warps it activates. *)
Lemma command_threads cmd (c : Core) : oks (fun '((_, c') : bool * Core) => (sized c -> sized c') /\ main_ c' = main_ c /\
  (sized c -> forall w l, (w < num_warps)%nat -> (l < num_lanes)%nat ->
    thread_at c' w l = match cmd with
                       | kActivate cwm pc _ _ =>
                           if cmd_ready_ c && bv_bit cwm w then activated pc (thread_at c w l) else thread_at c w l
                       | _ => thread_at c w l
                       end)) (nb_put num_lanes num_warps cmd c).
Proof.
  unfold nb_put. destruct (cmd_ready_ c); simpl negb; cbv iota; [|by destruct cmd].
  assert (Hsame : forall c', threads c' = threads c /\ sinks c' = sinks c /\ main_ c' = main_ c ->
    (sized c -> sized c') /\ main_ c' = main_ c /\
    (sized c -> forall w l, (w < num_warps)%nat -> (l < num_lanes)%nat -> thread_at c' w l = thread_at c w l)).
  { intros c' (Et & Es & Em). unfold sized, thread_at. by rewrite Et, Es. }
  destruct cmd as [cwm pc wg base|cwm|cwm|cwm]; simpl ExecuteWarpCtrlCommand;
    (eapply oks_bind; [|intros c' Hc'; exact Hc']).
  - eapply oks_mono; [apply Activate_threads|done].
  - eapply oks_mono; [apply Resume_threads|apply Hsame].
  - eapply oks_mono; [apply Release_threads|apply Hsame].
  - eapply oks_mono; [apply Abort_threads|apply Hsame].
Qed.

Lemma init_sized s : sized (AtomicCore_init num_lanes num_warps s).
Proof. by split; split_and!; simpl; rewrite length_replicate. Qed.

(** A step changes the threads of the lanes that execute and no other. *)
Lemma step_threads w (m : bool) e (c : Core) : main_warp (main_ c) = (if m then Some w else None) -> enabled e c = true ->
  main_ok (main_ c) -> match e with EvClock | EvCommand _ => False | _ => True end ->
  oks (next w (if m then tmask_ c else 0) c) (step sf num_lanes num_warps e c).
Proof.
  destruct m; [by apply next_step|]. unfold enabled, step. intros Hw Hen Hm He.
  destruct (main_ c) eqn:Em; try done; destruct e; try done; [|apply next_main_loop].
  eapply oks_mono; [apply (next_main_loop w 0)|]. intros [c' q] [[? ?] ?]. by split.
Qed.

Lemma reach_sized k c : reach k c -> sized c /\ main_ok (main_ c).
Proof.
  induction 1 as [k s Hk|k c e c' qs Hc [Hs Hm] Hen He Hstep]; [split; [apply init_sized|done]|].
  destruct (reach_core_inv sf num_lanes num_warps sched_ok Hlanes Hwarps _ _ Hc) as [ws Hi].
  assert (Hmain : match e with EvClock | EvCommand _ => False | _ => True end -> sized c' /\ main_ok (main_ c')).
  { intros Hev. destruct Hs as [Ht Hsi].
    assert (Hn : exists w m, oks (next w m c) (step sf num_lanes num_warps e c)).
    { destruct (main_warp (main_ c)) as [w|] eqn:Ew;
        [exists w, (tmask_ c); by apply (step_threads w true)|exists 0%nat, 0; by apply (step_threads 0 false)]. }
    destruct Hn as (w & m & Hn). rewrite Hstep in Hn. destruct Hn as [[Hb [g [Hg _]]] Hm']. split; [|done].
    split; auto. }
  destruct e as [ |cmd| | | | | ]; try by apply Hmain.
  - simpl in Hstep. injection Hstep as <- <-. done.
  - pose proof (command_threads cmd c) as Hp. simpl in Hstep. destruct (nb_put _ _ _ _) as [[b c1]|]; [|done].
    injection Hstep as <- <-. destruct Hp as (P1 & P2 & _). rewrite P2. auto.
Qed.

(** The threads an event may change: those of the lanes that execute, or those of the
    warps a command activates. *)
Definition touches (e : event) (c : Core) (w l : nat) : bool :=
  match e with
  | EvClock => false
  | EvCommand (kActivate cwm _ _ _) => cmd_ready_ c && bv_bit cwm w
  | EvCommand _ => false
  | _ => bool_decide (main_warp (main_ c) = Some w) && bv_bit (tmask_ c) l
  end.

(** C19. Threads are isolated: a step of the core, whatever it executes, changes the
    registers, PC, priority and floating-point state of the threads of the executing
    warp that take part in the instruction and of no other thread; a command changes
    those of the warps it activates, which start at the given PC with priority 0. *)
Theorem other_threads_unchanged k c e c' qs w l :
  reach (Datatypes.S k) c -> enabled e c = true -> event_ok num_warps e c ->
  step sf num_lanes num_warps e c = Ok (c', qs) -> (w < num_warps)%nat -> (l < num_lanes)%nat ->
  (touches e c w l = false -> thread_at c' w l = thread_at c w l) /\
  (forall cwm pc wg_info base, e = EvCommand (kActivate cwm pc wg_info base) -> touches e c w l = true ->
    thread_at c' w l = activated pc (thread_at c w l)).
Proof.
  intros Hc Hen He Hstep Hw Hl. destruct (reach_sized _ _ Hc) as [Hs Hm].
  destruct (reach_core_inv sf num_lanes num_warps sched_ok Hlanes Hwarps _ _ Hc) as [ws Hi].
  assert (Hmain : match e with EvClock | EvCommand _ => False | _ => True end ->
    bool_decide (main_warp (main_ c) = Some w) && bv_bit (tmask_ c) l = false -> thread_at c' w l = thread_at c w l).
  { intros Hev Hb. destruct (main_warp (main_ c)) as [x|] eqn:Ew.
    - pose proof (i_main _ _ _ _ _ _ Hi) as Hx. rewrite Ew in Hx.
      pose proof (step_threads x true e c Ew Hen Hm Hev) as Hn. rewrite Hstep in Hn.
      destruct Hn as [[_ [g [_ Hg]]] _]. destruct Hs as [Ht _].
      unfold thread_at. rewrite (Hg Ht (e_warp _ _ _ _ Hx) w l Hw Hl).
      rewrite (bool_decide_ext (w = x) (Some x = Some w)) by (split; congruence). by rewrite Hb.
    - pose proof (step_threads w false e c Ew Hen Hm Hev) as Hn. rewrite Hstep in Hn.
      destruct Hn as [[_ [g [_ Hg]]] _]. destruct Hs as [Ht _].
      unfold thread_at. rewrite (Hg Ht Hw w l Hw Hl). unfold bv_bit. by rewrite Z.bits_0, andb_false_r. }
  destruct e as [ |cmd| | | | | ]; try by split; [apply Hmain|].
  - simpl in Hstep. injection Hstep as <- <-. by split.
  - pose proof (command_threads cmd c) as Hp. simpl in Hstep. destruct (nb_put _ _ _ _) as [[b c1]|]; [|done].
    injection Hstep as <- <-. destruct Hp as (_ & _ & P3). specialize (P3 Hs w l Hw Hl). rewrite P3.
    destruct cmd; simpl touches; split; try done.
    + by intros ->.
    + by intros cwm' pc' wg base [= <- <- <- <-] ->.
Qed.

End threads.

(** An instruction of the first warp leaves the threads of the second as they are. *)
Lemma other_threads_unchanged_witness :
  touches (EvFetched true 0x13) example_core 1 0 = false /\
  thread_at 2 (next_core (EvFetched true 0x13) example_core) 1 0 = thread_at 2 example_core 1 0 /\
  thread_at 2 (next_core (EvFetched true 0x13) example_core) 0 0 <> thread_at 2 example_core 0 0.
Proof.
  split; [vm_compute; reflexivity|]. split.
  - assert (Hstep : exists qs, step no_float 2 2 (EvFetched true 0x13) example_core =
      Ok (next_core (EvFetched true 0x13) example_core, qs)) by (vm_compute; eauto).
    destruct Hstep as [qs Hstep].
    pose proof (other_threads_unchanged no_float 2 2 (Lrr_ok 2) ltac:(lia) ltac:(lia) 0 example_core
      (EvFetched true 0x13) _ qs 1 0 (example_reach 1) (example_enabled _) I Hstep ltac:(lia) ltac:(lia)) as [Hsame _].
    apply Hsame. vm_compute. reflexivity.
  - vm_compute. discriminate.
Defined.
