(* ===== verification/SmDecode.v ===== *)
(** * The decoder of the SM's instructions

    The decoder compares a word with every instruction of its opcode at once, a bit for
    each, and takes the lowest bit set. It finds the one instruction whose fixed bits
    the word has. *)

From S2P Require Import Prelude SmEncoding SmInstr.

(** ** The lowest bit *)

Lemma ctz_spec p : Z.testbit (Zpos p) (Z.of_nat (ctz_pos p)) = true /\
  forall k, (k < ctz_pos p)%nat -> Z.testbit (Zpos p) (Z.of_nat k) = false.
Proof.
  induction p as [p IH|p IH|]; cbn [ctz_pos]; [split; [done|lia]| |split; [done|lia]].
  destruct IH as [IH1 IH2]. change (Zpos p~0) with (2 * Zpos p). split.
  - rewrite Nat2Z.inj_succ, Z.double_bits_succ. exact IH1.
  - intros [|k] Hk; [by rewrite Z.testbit_even_0|]. rewrite Nat2Z.inj_succ, Z.double_bits_succ. apply IH2. lia.
Qed.

(** A bit for every member of the list. *)
Lemma bitmap_spec (f : InstrDef -> bool) group k j :
  Z.testbit (foldr Z.lor 0 (imap (fun i d => Z.shiftl (Z.b2z (f d)) (Z.of_nat (j + i))) group)) (Z.of_nat (j + k)) =
    match group !! k with Some d => f d | None => false end.
Proof.
  revert j k. induction group as [|d group IH]; intros j k; [apply Z.bits_0|].
  cbn [imap foldr]. rewrite Z.lor_spec, Z.shiftl_spec by lia. rewrite Nat.add_0_r.
  assert (E : forall l : list InstrDef, imap ((fun i d => Z.shiftl (Z.b2z (f d)) (Z.of_nat (j + i))) ∘ Datatypes.S) l =
    imap (fun i d => Z.shiftl (Z.b2z (f d)) (Z.of_nat (Datatypes.S j + i))) l).
  { intros l. apply imap_ext. intros i x _. simpl. do 2 f_equal. lia. }
  rewrite E. destruct k as [|k].
  - rewrite Nat.add_0_r, Z.sub_diag, Z.b2z_bit0. cbn [lookup list_lookup].
    assert (Hz : forall m l, (j < m)%nat -> Z.testbit (foldr Z.lor 0 (imap (fun i d =>
      Z.shiftl (Z.b2z (f d)) (Z.of_nat (m + i))) l)) (Z.of_nat j) = false).
    { clear. intros m l. revert m. induction l as [|d l IH]; intros m Hm; [apply Z.bits_0|]. cbn [imap foldr].
      rewrite Z.lor_spec, Z.shiftl_spec_low by lia. simpl orb.
      rewrite (imap_ext _ (fun i d => Z.shiftl (Z.b2z (f d)) (Z.of_nat (Datatypes.S m + i)))); [apply IH; lia|].
      intros i x _. simpl. do 2 f_equal. lia. }
    rewrite Hz by lia. apply orb_false_r.
  - replace (j + Datatypes.S k)%nat with (Datatypes.S j + k)%nat by lia. rewrite IH.
    assert (Hb : Z.testbit (Z.b2z (f d)) (Z.of_nat (Datatypes.S j + k) - Z.of_nat j) = false).
    { destruct (f d); [|apply Z.bits_0]. apply Z.bits_above_log2; simpl; lia. }
    by rewrite Hb.
Qed.

Lemma match_bitmap_spec group iword k : (length group <= 64)%nat ->
  Z.testbit (match_bitmap group iword) (Z.of_nat k) =
    match group !! k with Some d => Match (encoding d) iword | None => false end.
Proof.
  intros Hl. unfold match_bitmap, wrap. rewrite <- Z.land_ones, Z.land_spec by lia.
  rewrite <- (bitmap_spec (fun d => Match (encoding d) iword) group k 0). cbn [Nat.add].
  destruct (decide (k < 64)%nat) as [Hk|Hk].
  - rewrite Z.ones_spec_low by lia. by rewrite andb_true_r.
  - pose proof (bitmap_spec (fun d => Match (encoding d) iword) group k 0) as E. cbn [Nat.add] in E. rewrite E.
    rewrite lookup_ge_None_2 by lia. done.
Qed.

(** The member the decoder takes is the first that matches. *)
Lemma Decoder_first group iword i d : (length group <= 64)%nat -> group !! i = Some d -> Match (encoding d) iword = true ->
  exists j d', (j <= i)%nat /\ group !! j = Some d' /\ Match (encoding d') iword = true /\ def (Decoder group iword) = d'.
Proof.
  intros Hl Hi Hm. pose proof (match_bitmap_spec group iword) as Hs. unfold Decoder. cbn [def set_def].
  destruct (match_bitmap group iword) as [|p|p] eqn:Eb.
  - specialize (Hs i Hl). rewrite Hi, Hm, Z.bits_0 in Hs. done.
  - destruct (ctz_spec p) as [H1 H2]. cbn [ctz]. set (j := ctz_pos p) in *.
    rewrite (Hs j Hl) in H1. destruct (group !! j) as [d'|] eqn:Ej; [|done]. exists j, d'. split_and!; try done.
    + destruct (decide (j <= i)%nat) as [|Hji]; [done|]. specialize (H2 i ltac:(lia)).
      by rewrite (Hs i Hl), Hi, Hm in H2.
    + by rewrite nth_lookup, Ej.
  - exfalso. assert (0 <= Zneg p); [|lia]. rewrite <- Eb. unfold match_bitmap. apply wrap_range. lia.
Qed.

(** ** The table of the instructions *)

(** Some bit is fixed in both encodings and differs. *)
Definition apart (a b : InstrDef) : bool :=
  negb (Z.land (Z.land (kMaskVal (encoding a)) (kMaskVal (encoding b)))
    (Z.lxor (kMatchVal (encoding a)) (kMatchVal (encoding b))) =? 0).
Definition real_instrs : list InstrDef := filter (fun d => d <> Illegal) all_instrs.
(** A group ends with [Illegal], which matches every word, and has it nowhere else. *)
Definition group_ok (g : list InstrDef) : bool :=
  bool_decide (g = removelast g ++ [Illegal]) && negb (member Illegal (removelast g)) && (length g <=? 64)%nat.

Lemma real_instr d : d <> Illegal -> d ∈ real_instrs.
Proof.
  intros Hd. apply list_elem_of_filter. split; [done|].
  assert (H : nth (InstrDef_index d) all_instrs Illegal = d) by (by destruct d).
  rewrite nth_lookup in H. destruct (all_instrs !! InstrDef_index d) as [d'|] eqn:E; [|by simpl in H; subst d].
  simpl in H. subst d'. by eapply list_elem_of_lookup_2.
Qed.
Lemma real_apart : forallb (fun a => forallb (fun b => bool_decide (a = b) || apart a b) real_instrs) real_instrs = true.
Proof. vm_compute. reflexivity. Qed.
Lemma real_opcodes : forallb (fun d => (Z.land (kMaskVal (encoding d)) INSN_FIELD_OPCODE =? INSN_FIELD_OPCODE) &&
  member d (opcode_group (Z.land (kMatchVal (encoding d)) INSN_FIELD_OPCODE))) real_instrs = true.
Proof. vm_compute. reflexivity. Qed.

Lemma apart_match a b w : apart a b = true -> Match (encoding a) w = true -> Match (encoding b) w = true -> False.
Proof.
  unfold apart, Match. rewrite negb_true_iff, Z.eqb_neq, !Z.eqb_eq. intros Hne Ha Hb. apply Hne.
  rewrite <- Ha, <- Hb. apply Z.bits_inj'. intros n Hn. rewrite !Z.land_spec, Z.lxor_spec, !Z.land_spec, Z.bits_0.
  by destruct (Z.testbit w n), (Z.testbit (kMaskVal (encoding a)) n), (Z.testbit (kMaskVal (encoding b)) n).
Qed.
(** A word matches at most one instruction, *)
Lemma match_unique a b w : a <> Illegal -> b <> Illegal ->
  Match (encoding a) w = true -> Match (encoding b) w = true -> a = b.
Proof.
  intros Ha Hb Hma Hmb. pose proof real_apart as Hr. rewrite forallb_forall in Hr.
  specialize (Hr a (proj1 (list_elem_of_In _ _) (real_instr a Ha))). rewrite forallb_forall in Hr.
  specialize (Hr b (proj1 (list_elem_of_In _ _) (real_instr b Hb))). apply orb_true_iff in Hr as [Hr|Hr].
  - by apply bool_decide_eq_true in Hr.
  - by destruct (apart_match a b w).
Qed.
(** which is in the group of the word's opcode. *)
Lemma match_group d w : d <> Illegal -> Match (encoding d) w = true -> d ∈ opcode_group (Z.land w INSN_FIELD_OPCODE).
Proof.
  intros Hd Hm. pose proof real_opcodes as Hr. rewrite forallb_forall in Hr.
  specialize (Hr d (proj1 (list_elem_of_In _ _) (real_instr d Hd))). apply andb_true_iff in Hr as [Hk Hg].
  unfold member in Hg. apply bool_decide_eq_true in Hg. unfold Match in Hm. apply Z.eqb_eq in Hm. apply Z.eqb_eq in Hk.
  rewrite <- Hm, <- Z.land_assoc, Hk in Hg. exact Hg.
Qed.
Lemma opcode_group_ok opcode : group_ok (opcode_group opcode) = true.
Proof. unfold opcode_group. repeat case_match; vm_compute; reflexivity. Qed.

(** C21. The decoder finds the instruction [d] exactly for the words that have the fixed
    bits of [d]; a word that has those of no instruction is illegal. No word has those
    of two. *)
Theorem sm_decode_iff w d :
  def (Decode w) = d <->
    if decide (d = Illegal) then forall d', d' <> Illegal -> Match (encoding d') w = false
    else Match (encoding d) w = true.
Proof.
  set (g := opcode_group (Z.land w INSN_FIELD_OPCODE)).
  pose proof (opcode_group_ok (Z.land w INSN_FIELD_OPCODE)) as Hg. fold g in Hg.
  unfold group_ok in Hg. rewrite !andb_true_iff in Hg. destruct Hg as [[Hlast Hno] Hlen].
  apply bool_decide_eq_true in Hlast. apply Nat.leb_le in Hlen. apply negb_true_iff in Hno.
  unfold member in Hno. apply bool_decide_eq_false in Hno.
  set (h := removelast g) in *. clearbody h.
  assert (Hill : g !! length h = Some Illegal) by (rewrite Hlast; by apply list_lookup_middle).
  assert (Hfound : Match (encoding (def (Decode w))) w = true).
  { destruct (Decoder_first g w _ Illegal Hlen Hill) as (j & d' & _ & _ & Hm & E); [|unfold Decode; fold g; by rewrite E].
    unfold Match. simpl. by rewrite Z.land_0_r. }
  assert (Hreal : forall d, d <> Illegal -> Match (encoding d) w = true -> def (Decode w) = d).
  { intros d0 Hd Hm. pose proof (match_group d0 w Hd Hm) as Hin. fold g in Hin.
    apply list_elem_of_lookup_1 in Hin as [i Hi].
    destruct (Decoder_first g w i d0 Hlen Hi Hm) as (j & d' & Hji & Hj & Hm' & E).
    unfold Decode. fold g. rewrite E. apply (match_unique d' d0 w); try done. intros ->.
    assert (Hi' : (i < length h)%nat).
    { apply lookup_lt_Some in Hi as Hlt. rewrite Hlast, length_app in Hlt. simpl in Hlt.
      destruct (decide (i = length h)) as [->|]; [congruence|lia]. }
    apply Hno. rewrite Hlast, lookup_app_l in Hj by lia. by eapply list_elem_of_lookup_2. }
  case_decide as Hd.
  - subst d. split.
    + intros E d' Hd'. apply not_true_iff_false. intros Hm. apply Hd'. by rewrite <- (Hreal d' Hd' Hm).
    + intros Hall. destruct (decide (def (Decode w) = Illegal)) as [|Hne]; [done|]. by rewrite Hall in Hfound.
  - split; [by intros <-|by apply Hreal].
Qed.
