(* ===== verification/SmLanes.v ===== *)
(** * Lanes as independent threads

    What the execution of an instruction leaves for a lane is what the instruction
    leaves on a machine of one lane with that lane's operands. *)

From stdpp Require Import relations.
From S2P Require Import Prelude SmEncoding SmInstr SmExec SmInv SmSafe.

(** Unfold the function an application is of. *)
Ltac unfold_exec e := lazymatch e with ?f _ => unfold_exec f | _ => unfold e; cbv beta end.

Section lanes.
Context (sf : SoftFloat).

(** Lane [i] alone. *)
Definition lane_ctx (ctx : ExecContext) (i : nat) : ExecContext :=
  mkContext (pc ctx) 1 (fun _ => rs1_data ctx i) (fun _ => rs2_data ctx i) (fun _ => rs3_data ctx i)
    (fun _ => dynamic_rm ctx i) 1.
Definition one_lane : Sinks := mkSinks [0] [0] [0] 0 0.

(** The flags that say which buffers the core reads. *)
Definition uses_addr (flag : ExecFlag) : bool :=
  HasFlag flag ExecFlag.NEXT_PC || HasFlag flag ExecFlag.LOAD || HasFlag flag ExecFlag.STORE ||
    HasFlag flag ExecFlag.ATOMIC.
Definition uses_data (flag : ExecFlag) : bool :=
  HasFlag flag ExecFlag.RD_DATA || HasFlag flag ExecFlag.STORE || HasFlag flag ExecFlag.ATOMIC ||
    HasFlag flag ExecFlag.CSR.
(** What the core reads of [s] for lane [i] is what it reads of [s1] for its only lane. *)
Definition agrees (i : nat) (flag : ExecFlag) (s s1 : Sinks) : Prop :=
  (uses_data flag = true -> nth i (data_buf s) 0 = nth 0 (data_buf s1) 0) /\
  (uses_addr flag = true -> nth i (addr_buf s) 0 = nth 0 (addr_buf s1) 0) /\
  (HasFlag flag ExecFlag.FP_EXC = true -> nth i (fflags_buf s) 0 = nth 0 (fflags_buf s1) 0) /\
  (HasFlag flag ExecFlag.CSR = true -> csr_buf s = csr_buf s1) /\
  (HasFlag flag ExecFlag.PRIORITY && negb (GetPriOp flag =? ExecFlag.PRI_RESET) = true -> pri_buf s = pri_buf s1).

Definition lanes_sized (n : nat) (s : Sinks) : Prop :=
  length (addr_buf s) = n /\ length (data_buf s) = n /\ length (fflags_buf s) = n.
Definition active (ctx : ExecContext) (i : nat) : bool := Z.testbit (tmask ctx) (Z.of_nat i).
(** Some active lane would trap alone. *)
Definition some_trap (e : ExecFunc) (ctx : ExecContext) (instr : Instr) : bool :=
  existsb (fun j => active ctx j && HasException (fst (e (lane_ctx ctx j) instr one_lane))) (seq 0 (num_lanes ctx)).

(** [e] executes every lane as if it were alone; the instruction traps when a lane does. *)
Definition lanewise (e : ExecFunc) : Prop := forall ctx instr s i,
  lanes_sized (num_lanes ctx) s -> (i < num_lanes ctx)%nat -> active ctx i = true ->
  HasException (fst (e ctx instr s)) = some_trap e ctx instr /\
  (HasException (fst (e (lane_ctx ctx i) instr one_lane)) = HasException (fst (e ctx instr s)) ->
    fst (e ctx instr s) = fst (e (lane_ctx ctx i) instr one_lane) /\
    agrees i (fst (e ctx instr s)) (snd (e ctx instr s)) (snd (e (lane_ctx ctx i) instr one_lane))).

(** ** Loops over the lanes *)

Lemma sized_data n i v s : lanes_sized n s -> lanes_sized n (set_data i v s).
Proof. intros (? & ? & ?). split_and!; simpl; rewrite ?length_insert; done. Qed.
Lemma sized_addr n i v s : lanes_sized n s -> lanes_sized n (set_addr i v s).
Proof. intros (? & ? & ?). split_and!; simpl; rewrite ?length_insert; done. Qed.
Lemma sized_fflags n i v s : lanes_sized n s -> lanes_sized n (set_fflags i v s).
Proof. intros (? & ? & ?). split_and!; simpl; rewrite ?length_insert; done. Qed.

(** What the loop leaves for lane [i], when the other lanes do not touch it. *)
Lemma for_lanes_value (view : Sinks -> Z) (x : Z) ctx (f : nat -> Sinks -> Sinks) s i :
  (forall j s, lanes_sized (num_lanes ctx) s -> lanes_sized (num_lanes ctx) (f j s)) ->
  (forall s, lanes_sized (num_lanes ctx) s -> view (f i s) = x) ->
  (forall j s, j <> i -> view (f j s) = view s) ->
  lanes_sized (num_lanes ctx) s -> (i < num_lanes ctx)%nat -> active ctx i = true ->
  view (for_lanes ctx f s) = x.
Proof.
  intros Hf Hi Hother Hs Hlt Hb. unfold for_lanes, for_active.
  refine (proj2 (for_range_ind (fun j b => lanes_sized (num_lanes ctx) b /\ ((i < j)%nat -> view b = x)) _ 0
    (num_lanes ctx) s _ _) Hlt).
  - split; [done|lia].
  - intros j b _ [Hsb Hv]. destruct (Nat.eq_dec j i) as [->|Hne].
    + unfold active in Hb. rewrite Hb. auto.
    + case_match; (split; [by auto|]); intros Hij; [rewrite Hother by done|]; apply Hv; lia.
Qed.

Lemma checked_lanes_spec ctx bad f s : checked_lanes ctx bad f s =
  (existsb (fun j => active ctx j && bad j) (seq 0 (num_lanes ctx)), for_lanes ctx f s).
Proof.
  unfold checked_lanes, for_lanes, for_active, active.
  induction (num_lanes ctx) as [|n IH]; [done|].
  rewrite !for_range_S, seq_S, existsb_app, IH. simpl.
  destruct (Z.testbit (tmask ctx) (Z.of_nat n)); simpl; by rewrite ?orb_false_r.
Qed.
Lemma existsb_active ctx (p : nat -> bool) b i : (i < num_lanes ctx)%nat -> active ctx i = true ->
  (forall j, (j < num_lanes ctx)%nat -> p j = b) ->
  existsb (fun j => active ctx j && p j) (seq 0 (num_lanes ctx)) = b.
Proof.
  intros Hi Ha Hp. destruct b.
  - apply existsb_exists. exists i. split; [apply in_seq; lia|]. by rewrite Ha, Hp.
  - apply not_true_iff_false. intros (j & Hj & Hb)%existsb_exists. apply in_seq in Hj.
    rewrite Hp in Hb by lia. by rewrite andb_false_r in Hb.
Qed.

(** ** The forms of the instructions *)

(** An instruction whose flags are the same for all operands. *)
Lemma lanewise_const flag (g : ExecContext -> Instr -> Sinks -> Sinks) :
  (forall ctx instr s i, lanes_sized (num_lanes ctx) s -> (i < num_lanes ctx)%nat -> active ctx i = true ->
    agrees i flag (g ctx instr s) (g (lane_ctx ctx i) instr one_lane)) ->
  lanewise (fun ctx instr s => (flag, g ctx instr s)).
Proof.
  intros Hg ctx instr s i Hs Hi Ha. simpl. split; [|auto].
  symmetry. by apply (existsb_active ctx _ _ i).
Qed.
(** One that traps when a lane's target or address is misaligned. *)
Lemma lanewise_checked fb fo (bad : ExecContext -> Instr -> nat -> bool)
    (f : ExecContext -> Instr -> nat -> Sinks -> Sinks) :
  HasException fb = true -> HasException fo = false ->
  (forall i s s1, agrees i fb s s1) ->
  (forall ctx instr i, bad (lane_ctx ctx i) instr 0%nat = bad ctx instr i) ->
  (forall ctx instr s i, lanes_sized (num_lanes ctx) s -> (i < num_lanes ctx)%nat -> active ctx i = true ->
    agrees i fo (for_lanes ctx (f ctx instr) s) (f (lane_ctx ctx i) instr 0%nat one_lane)) ->
  lanewise (fun ctx instr s => let '(b, s) := checked_lanes ctx (bad ctx instr) (f ctx instr) s in
    (if b then fb else fo, s)).
Proof.
  intros Hfb Hfo Hab Hbad Hag ctx instr s i Hs Hi Ha. unfold some_trap. rewrite checked_lanes_spec.
  assert (Hone : forall j, checked_lanes (lane_ctx ctx j) (bad (lane_ctx ctx j) instr) (f (lane_ctx ctx j) instr) one_lane =
    (bad ctx instr j, f (lane_ctx ctx j) instr 0%nat one_lane)).
  { intros j. rewrite checked_lanes_spec. simpl. rewrite Hbad. by rewrite orb_false_r. }
  rewrite Hone. cbn [fst snd]. set (b := existsb _ _). assert (Hif : forall b : bool, HasException (if b then fb else fo) = b) by by intros [].
  rewrite !Hif. split.
  - subst b. induction (seq 0 (num_lanes ctx)) as [|j l IH]; [done|]. cbn [existsb]. by rewrite Hone, IH; cbn [fst]; rewrite Hif.
  - intros ->. split; [done|]. destruct b; [apply Hab|by apply Hag].
Qed.
Lemma lanewise_none flag (p : Instr -> Sinks -> Sinks) :
  (forall i instr s, agrees i flag (p instr s) (p instr one_lane)) -> lanewise (fun ctx instr s => (flag, p instr s)).
Proof. intros Hp. apply (lanewise_const flag (fun _ instr => p instr)). auto. Qed.

(** The flags of an instruction are constants: what it does not use is decided. *)
Ltac unused := match goal with H : _ = true |- _ => vm_compute in H; discriminate H end.
Ltac lane_value :=
  match goal with |- nth ?i (?buf _) 0 = _ => apply (for_lanes_value (fun s => nth i (buf s) 0) _ _ _ _ i) end; try assumption;
  [ intros; repeat first [apply sized_data | apply sized_addr | apply sized_fflags]; assumption
  | let H := fresh in intros ? H; destruct H as (? & ? & ?); simpl; rewrite nth_insert by lia;
    rewrite decide_True by done; try done
  | intros; simpl; by rewrite ?nth_insert_ne by congruence ].

Lemma lanewise_rd flag (F : ExecContext -> Instr -> nat -> Z) :
  (forall ctx instr i, F (lane_ctx ctx i) instr 0%nat = F ctx instr i) ->
  uses_addr flag = false -> HasFlag flag ExecFlag.FP_EXC = false -> HasFlag flag ExecFlag.CSR = false ->
  HasFlag flag ExecFlag.PRIORITY = false ->
  lanewise (fun ctx instr s => exec_rd flag ctx (F ctx instr) s).
Proof.
  intros HF Ha Hf Hc Hp. apply lanewise_const. intros ctx instr s i Hs Hi Hact. unfold agrees.
  rewrite Ha, Hf, Hc, Hp. split_and!; try done. intros _. simpl. rewrite HF. lane_value.
Qed.

Lemma lanewise_fp (F : ExecContext -> Instr -> nat -> Z * Z) :
  (forall ctx instr i, F (lane_ctx ctx i) instr 0%nat = F ctx instr i) ->
  lanewise (fun ctx instr s => exec_fp ctx (F ctx instr) s).
Proof.
  intros HF. apply lanewise_const. intros ctx instr s i Hs Hi Hact.
  split_and!; intros Hu; try unused; simpl; rewrite HF; lane_value.
Qed.

Lemma lanewise_jump (T : ExecContext -> Instr -> nat -> Z) :
  (forall ctx instr i, T (lane_ctx ctx i) instr 0%nat = T ctx instr i) ->
  lanewise (fun ctx instr s => exec_jump ctx (T ctx instr) s).
Proof.
  intros HT. unfold exec_jump.
  apply (lanewise_checked ExecFlag.INSTR_ADDR_MISALIGNED (Z.lor ExecFlag.RD_DATA ExecFlag.NEXT_PC)
    (fun ctx instr i => negb (T ctx instr i mod 4 =? 0))
    (fun ctx instr i s => set_addr i (T ctx instr i) (set_data i (s64 (pc ctx + 4)) s))); try done.
  - intros. by rewrite HT.
  - intros ctx instr s i Hs Hi Hact. split_and!; intros Hu; try unused; simpl; rewrite ?HT; lane_value.
Qed.
Lemma lanewise_branch taken : lanewise (ExecuteBranch taken).
Proof.
  apply (lanewise_checked ExecFlag.INSTR_ADDR_MISALIGNED ExecFlag.NEXT_PC
    (fun ctx instr i => taken (rs1_data ctx i) (rs2_data ctx i) &&
      negb ((if taken (rs1_data ctx i) (rs2_data ctx i) then u64 (pc ctx + imm instr) else u64 (pc ctx + 4)) mod 4 =? 0))
    (fun ctx instr i => set_addr i (if taken (rs1_data ctx i) (rs2_data ctx i) then u64 (pc ctx + imm instr)
      else u64 (pc ctx + 4)))); try done.
  - intros ctx instr s i Hs Hi Hact. split_and!; intros Hu; try unused; simpl; lane_value.
Qed.
Lemma lanewise_load width sign : width ∈ [ExecFlag.WIDTH_1; ExecFlag.WIDTH_2; ExecFlag.WIDTH_4; ExecFlag.WIDTH_8] ->
  sign ∈ [ExecFlag.SIGNED; ExecFlag.NONE] -> lanewise (ExecuteLoad width sign).
Proof.
  intros Hw Hg. set_unfold in Hw. set_unfold in Hg.
  apply (lanewise_checked (Z.lor ExecFlag.LOAD_ADDR_MISALIGNED width) (Z.lor (Z.lor ExecFlag.LOAD width) sign)
    (fun ctx instr i => negb (u64 (rs1_data ctx i + imm instr) mod GetMemSize width =? 0))
    (fun ctx instr i => set_addr i (u64 (rs1_data ctx i + imm instr)))); try done.
  - by destruct_or! Hw; subst.
  - by destruct_or! Hw; destruct_or! Hg; subst.
  - intros. destruct_or! Hw; subst; split_and!; intros Hu; unused.
  - intros ctx instr s i Hs Hi Hact.
    destruct_or! Hw; destruct_or! Hg; subst; split_and!; intros Hu; try unused; simpl; lane_value.
Qed.
Lemma lanewise_store width : width ∈ [ExecFlag.WIDTH_1; ExecFlag.WIDTH_2; ExecFlag.WIDTH_4; ExecFlag.WIDTH_8] ->
  lanewise (ExecuteStore width).
Proof.
  intros Hw. set_unfold in Hw.
  apply (lanewise_checked (Z.lor ExecFlag.STORE_ADDR_MISALIGNED width) (Z.lor ExecFlag.STORE width)
    (fun ctx instr i => negb (u64 (rs1_data ctx i + imm instr) mod GetMemSize width =? 0))
    (fun ctx instr i s => set_data i (rs2_data ctx i) (set_addr i (u64 (rs1_data ctx i + imm instr)) s))); try done.
  - by destruct_or! Hw; subst.
  - by destruct_or! Hw; subst.
  - intros. destruct_or! Hw; subst; split_and!; intros Hu; unused.
  - intros ctx instr s i Hs Hi Hact. destruct_or! Hw; subst; split_and!; intros Hu; try unused; simpl; lane_value.
Qed.
Definition amo_ops : list ExecFlag := [ExecFlag.AMO_SWAP; ExecFlag.AMO_ADD; ExecFlag.AMO_XOR; ExecFlag.AMO_AND;
  ExecFlag.AMO_OR; ExecFlag.AMO_MIN; ExecFlag.AMO_MAX; ExecFlag.AMO_MINU; ExecFlag.AMO_MAXU; ExecFlag.AMO_CAS].
Lemma lanewise_amo op width : op ∈ amo_ops -> width ∈ [ExecFlag.WIDTH_4; ExecFlag.WIDTH_8] -> lanewise (ExecuteAtomicInstr op width).
Proof.
  intros Ho Hw. unfold amo_ops in Ho. set_unfold in Ho. set_unfold in Hw.
  apply (lanewise_const _ (fun ctx instr => for_lanes ctx (fun i s =>
    set_data i (rs2_data ctx i) (set_addr i (u64 (rs1_data ctx i)) s)))).
  intros ctx instr s i Hs Hi Hact.
  assert (Hd : nth i (data_buf (for_lanes ctx (fun i s =>
    set_data i (rs2_data ctx i) (set_addr i (u64 (rs1_data ctx i)) s)) s)) 0 = rs2_data ctx i) by lane_value.
  assert (Ha : nth i (addr_buf (for_lanes ctx (fun i s =>
    set_data i (rs2_data ctx i) (set_addr i (u64 (rs1_data ctx i)) s)) s)) 0 = u64 (rs1_data ctx i)) by lane_value.
  destruct_or! Ho; destruct_or! Hw; subst; split_and!; intros Hu; try unused; simpl; first [exact Hd|exact Ha].
Qed.

Lemma lanewise_csr flag (f : ExecContext -> Instr -> nat -> Z) :
  flag ∈ [ExecFlag.CSRRW; ExecFlag.CSRRS; ExecFlag.CSRRC] ->
  (forall ctx instr i, f (lane_ctx ctx i) instr 0%nat = f ctx instr i) -> lanewise (exec_csr flag f).
Proof.
  intros Hf Hl. set_unfold in Hf.
  apply (lanewise_const _ (fun ctx instr s => set_csr_buf (csr instr)
    (for_range (fun i => set_data i (f ctx instr i)) 0 (num_lanes ctx) s))).
  intros ctx instr s i Hs Hi Hact.
  assert (Hd : nth i (data_buf (for_range (fun i => set_data i (f ctx instr i)) 0 (num_lanes ctx) s)) 0 =
    f ctx instr i).
  { refine (proj2 (for_range_ind (fun j b => lanes_sized (num_lanes ctx) b /\
      ((i < j)%nat -> nth i (data_buf b) 0 = f ctx instr i)) _ 0 (num_lanes ctx) s _ _) Hi); [split; [done|lia]|].
    intros j b _ [Hsb Hv]. split; [by apply sized_data|]. intros Hij. destruct Hsb as (_ & Hd & _). simpl.
    destruct (decide (i = j)) as [->|Hne]; [rewrite nth_insert by lia; by rewrite decide_True|].
    rewrite nth_insert_ne by done. apply Hv. lia. }
  destruct_or! Hf; subst; split_and!; intros Hu; try unused; simpl; try done; by rewrite Hl.
Qed.

(** ** All instructions *)

Ltac lanewise_solve :=
  repeat lazymatch goal with
  | |- lanewise (fun ctx instr s => exec_rd _ ctx _ s) => apply lanewise_rd; done
  | |- lanewise (fun ctx instr s => exec_fp ctx _ s) => apply lanewise_fp; done
  | |- lanewise (fun ctx instr s => exec_jump ctx _ s) => apply lanewise_jump; done
  | |- lanewise (ExecuteBranch _) => apply lanewise_branch
  | |- lanewise (ExecuteLoad _ _) => apply lanewise_load; set_solver
  | |- lanewise (ExecuteStore _) => apply lanewise_store; set_solver
  | |- lanewise (ExecuteAtomicInstr _ _) => apply lanewise_amo; unfold amo_ops; set_solver
  | |- lanewise (exec_csr _ _) => apply lanewise_csr; [set_solver|done]
  | |- lanewise (fun _ _ _ => _) => fail
  | |- lanewise ?e => unfold_exec e
  end.

Lemma lanewise_exec d : lanewise (exec_of sf d).
Proof.
  destruct d; cbn [exec_of]; lanewise_solve; apply lanewise_none; intros; split_and!; intros Hu; try unused; done.
Qed.

Lemma lanewise_Execute : lanewise (Execute sf).
Proof. intros ctx instr. apply lanewise_exec. Qed.

(** A warp executes an instruction as its active lanes would each alone: the
    instruction traps exactly when one of them would, and otherwise has the flags, and
    the result, address, floating-point flags, CSR operand and priority in its buffers,
    that the lane has on a machine with one lane. *)
Theorem lanes_independent ctx instr s i :
  lanes_sized (num_lanes ctx) s -> (i < num_lanes ctx)%nat -> active ctx i = true ->
  let '(flag, s') := Execute sf ctx instr s in
  let '(flag1, s1) := Execute sf (lane_ctx ctx i) instr one_lane in
  HasException flag = some_trap (Execute sf) ctx instr /\
  (HasException flag1 = HasException flag -> flag = flag1 /\ agrees i flag s' s1).
Proof.
  intros Hs Hi Ha. pose proof (lanewise_exec (def instr) ctx instr s i Hs Hi Ha) as Hl. unfold Execute.
  destruct (exec_of sf (def instr) ctx instr s) as [flag s'].
  destruct (exec_of sf (def instr) (lane_ctx ctx i) instr one_lane) as [flag1 s1]. exact Hl.
Qed.

End lanes.

(** A branch that one of two lanes takes. *)
Definition example_ctx : ExecContext :=
  mkContext 0x1000 3 (fun i => if decide (i = 0%nat) then 7 else 8) (fun _ => 7) (fun _ => 0) (fun _ => 0) 2.
Definition example_sinks : Sinks := mkSinks [0; 0] [0; 0] [0; 0] 0 0.
Lemma lanes_independent_witness :
  Execute no_float example_ctx (Decode 0x00208463) example_sinks =
    (ExecFlag.NEXT_PC, mkSinks [0x1008; 0x1004] [0; 0] [0; 0] 0 0) /\
  let '(flag1, s1) := Execute no_float (lane_ctx example_ctx 1) (Decode 0x00208463) one_lane in
  ExecFlag.NEXT_PC = flag1 /\ agrees 1 ExecFlag.NEXT_PC (mkSinks [0x1008; 0x1004] [0; 0] [0; 0] 0 0) s1.
Proof.
  assert (Hex : Execute no_float example_ctx (Decode 0x00208463) example_sinks =
    (ExecFlag.NEXT_PC, mkSinks [0x1008; 0x1004] [0; 0] [0; 0] 0 0)) by (vm_compute; reflexivity).
  split; [exact Hex|].
  assert (Hs : lanes_sized (SmExec.num_lanes example_ctx) example_sinks) by (split_and!; reflexivity).
  pose proof (lanes_independent no_float example_ctx (Decode 0x00208463) example_sinks 1 Hs ltac:(simpl; lia)
    ltac:(vm_compute; reflexivity)) as Hl.
  rewrite Hex in Hl. destruct (Execute no_float (lane_ctx example_ctx 1) _ one_lane) as [flag1 s1] eqn:E1.
  destruct Hl as [_ Hl]. apply Hl. vm_compute in E1. injection E1 as <- <-. vm_compute. reflexivity.
Defined.
