(* ===== verification/SmSimt.v ===== *)
(** * A warp as independent threads

    What an instruction that does not reach memory or a CSR does to the threads of a
    warp is what one thread does by itself, for every active thread. *)

From stdpp Require Import relations.
From S2P Require Import Prelude WgInit SimFifo SmEncoding SmInstr SmExec SmSched SmCore SmInv SmSafe SmThread SmLanes.

(** ** One thread *)

Section thread.
Context (sf : SoftFloat).

Definition read_reg (rs : Z) (t : thread) : Z := if rs =? kNullReg then 0 else nth (Z.to_nat rs) (th_regs t) 0.
Definition write_reg (rd v : Z) (t : thread) : thread :=
  if (rd =? kNullReg) || (rd =? 0) then t else set_reg (Z.to_nat rd) v t.
Definition thread_context (wpc : Z) (instr : Instr) (t : thread) : ExecContext :=
  mkContext wpc 1 (fun _ => read_reg (rs1 instr) t) (fun _ => read_reg (rs2 instr) t)
    (fun _ => read_reg (rs3 instr) t) (fun _ => th_frm t) 1.
Definition advance (t : thread) : thread := set_pc (u64 (th_pc t + 4)) t.
(** What a priority instruction makes of a priority. *)
Definition next_pri (op : ExecFlag) (n p : Z) : Z :=
  if op =? ExecFlag.PRI_RESET then 0 else if op =? ExecFlag.PRI_RAISE then u8 (p + n) else u8 (p - n).

Definition thread_flag (wpc iword : Z) (t : thread) : ExecFlag :=
  fst (Execute sf (thread_context wpc (Decode iword) (advance t)) (Decode iword) one_lane).
Definition thread_step (wpc iword : Z) (t : thread) : thread :=
  let instr := Decode iword in
  let t := advance t in
  let '(flag, s) := Execute sf (thread_context wpc instr t) instr one_lane in
  let t := if HasFlag flag ExecFlag.RD_DATA then write_reg (rd instr) (nth 0 (data_buf s) 0) t else t in
  let t := if HasFlag flag ExecFlag.NEXT_PC then set_pc (nth 0 (addr_buf s) 0) t else t in
  let t := if HasFlag flag ExecFlag.FP_EXC
           then set_flags (Z.lor (th_fflags t) (Z.land (nth 0 (fflags_buf s) 0) 0x1f)) t else t in
  if HasFlag flag ExecFlag.PRIORITY then set_pri (next_pri (GetPriOp flag) (pri_buf s) (th_pri t)) t else t.

(** Instructions that wait for memory, and those on CSRs, which a warp shares. *)
Definition local_instr (d : InstrDef) : bool :=
  match d with
  | LB | LH | LW | LBU | LHU | LWU | LD | SB | SH | SW | SD
  | AMOSWAP_W | AMOADD_W | AMOXOR_W | AMOAND_W | AMOOR_W | AMOMIN_W | AMOMAX_W | AMOMINU_W | AMOMAXU_W
  | AMOSWAP_D | AMOADD_D | AMOXOR_D | AMOAND_D | AMOOR_D | AMOMIN_D | AMOMAX_D | AMOMINU_D | AMOMAXU_D
  | AMOCAS_W | AMOCAS_D | CSRRW | CSRRS | CSRRC | CSRRWI | CSRRSI | CSRRCI => false
  | _ => true
  end.

(** ** Flags *)

Definition no_access (f : ExecFlag) : bool :=
  negb (HasFlag f ExecFlag.LOAD) && negb (HasFlag f ExecFlag.STORE) && negb (HasFlag f ExecFlag.ATOMIC) &&
    negb (HasFlag f ExecFlag.CSR).
Definition no_result (f : ExecFlag) : bool :=
  negb (HasFlag f ExecFlag.RD_DATA) && negb (HasFlag f ExecFlag.NEXT_PC) && negb (HasFlag f ExecFlag.FP_EXC) &&
    negb (HasFlag f ExecFlag.PRIORITY).
(** A priority operation is one of the three. *)
Definition pri_known (f : ExecFlag) : bool :=
  (GetPriOp f =? ExecFlag.PRI_RESET) || (GetPriOp f =? ExecFlag.PRI_RAISE) || (GetPriOp f =? ExecFlag.PRI_LOWER).
Definition local_flag (f : ExecFlag) : bool :=
  no_access f && implb (HasException f) (no_result f) && implb (HasFlag f ExecFlag.PRIORITY) (pri_known f).

Lemma local_jump ctx target s : local_flag (fst (exec_jump ctx target s)) = true.
Proof. unfold exec_jump. destruct (checked_lanes _ _ _ _) as [[] ?]; reflexivity. Qed.
Lemma local_branch taken ctx instr s : local_flag (fst (ExecuteBranch taken ctx instr s)) = true.
Proof. unfold ExecuteBranch. destruct (checked_lanes _ _ _ _) as [[] ?]; reflexivity. Qed.
Lemma local_exec d ctx instr s : local_instr d = true -> local_flag (fst (exec_of sf d ctx instr s)) = true.
Proof.
  intros Hd. destruct d; try discriminate Hd; cbn [exec_of];
    repeat lazymatch goal with
    | |- local_flag (fst (?f, _)) = true => reflexivity
    | |- local_flag (fst (exec_rd _ _ _ _)) = true => reflexivity
    | |- local_flag (fst (exec_fp _ _ _)) = true => reflexivity
    | |- local_flag (fst (exec_jump _ _ _)) = true => apply local_jump
    | |- local_flag (fst (ExecuteBranch _ _ _ _)) = true => apply local_branch
    | |- local_flag (fst (?e _ _ _)) = true => unfold_exec e
    end.
Qed.

(** ** Registers *)

Lemma field_ok w f sh : f = Z.shiftl (Z.ones 5) sh -> 0 <= sh -> 0 <= u8 (Z.shiftr (Z.land w f) sh) < 32.
Proof.
  intros -> Hsh. rewrite Z.shiftr_land, Z.shiftr_shiftl_l, Z.sub_diag, Z.shiftl_0_r, Z.land_ones by lia.
  pose proof (Z.mod_pos_bound (Z.shiftr w sh) (2 ^ 5)). rewrite wrap_small; lia.
Qed.
Lemma decode_regs_ok w : let i := Decode w in rd_ok (rd i) /\ rd_ok (rs1 i) /\ rd_ok (rs2 i) /\ rd_ok (rs3 i).
Proof.
  unfold Decode, Decoder. set (d := nth _ _ Illegal). cbv zeta.
  assert (Hrd : rd_ok (DecodeRd w)) by (right; by apply field_ok).
  assert (H1 : rd_ok (DecodeRs1 w)) by (right; by apply field_ok).
  assert (H2 : rd_ok (DecodeRs2 w)) by (right; by apply field_ok).
  assert (H3 : rd_ok (DecodeRs3 w)) by (right; by apply field_ok).
  assert (H0 : rd_ok kNullReg) by by left.
  change (let i := Fill (Fmt d) w no_instr in rd_ok (rd i) /\ rd_ok (rs1 i) /\ rd_ok (rs2 i) /\ rd_ok (rs3 i)).
  destruct (Fmt d); cbn [Fill]; try by split_and!.
  - unfold Fill_SystemType. repeat case_match; by split_and!.
  - unfold Fill_FormosaType. repeat case_match; by split_and!.
Qed.

End thread.

(** A word read into a buffer entry. *)
Lemma overwrite_word v d : u32 (overwrite 4 v d) = u32 v.
Proof.
  unfold overwrite. unfold swrap. set (x := Z.lor _ _). assert (Hx : wrap 32 x = wrap 32 v).
  { subst x. unfold wrap. rewrite <- !Z.land_ones by lia. change (8 * 4) with 32. apply Z.bits_inj'. intros n Hn.
    rewrite Z.land_spec, Z.lor_spec, Z.ldiff_spec, !Z.land_spec.
    destruct (Z.testbit (Z.ones 32) n); cbn [negb];
      rewrite ?andb_false_r, ?andb_true_r; done. }
  rewrite <- Hx. unfold wrap. case_match.
  - rewrite (Z.mod_mod_divide x (2 ^ 64) (2 ^ 32)); [done|]. by exists (2 ^ 32).
  - rewrite Zminus_mod. change (2 ^ 64 mod 2 ^ 32) with 0. rewrite Z.sub_0_r, Z.mod_mod by lia.
    rewrite (Z.mod_mod_divide x (2 ^ 64) (2 ^ 32)); [done|]. by exists (2 ^ 32).
Qed.

(** ** The threads of a warp *)

Section simt.
Context {S : Type} `{WarpSched S} (sf : SoftFloat) (num_lanes num_warps : nat).
Abbreviation Core := (AtomicCore S).
Abbreviation updates := (updates num_lanes num_warps).
Abbreviation thread_of := (thread_of num_lanes).
Abbreviation thread_at := (SmThread.thread_at (S:=S) num_lanes).

Lemma read_thread c w l rs : rd_ok rs -> ReadRegfile num_lanes w rs c l = read_reg rs (thread_at c w l).
Proof.
  unfold ReadRegfile, read_reg. intros [->|Hr]; [done|]. case_match; [done|].
  unfold SmThread.thread_at, SmThread.thread_of. cbn [th_regs]. symmetry.
  rewrite (nth_lookup (_ <$> _)), list_lookup_fmap, lookup_seq_lt by lia. done.
Qed.
(** The operands of a lane are the registers of its thread. *)
Lemma lane_context c w wpc instr l : rd_ok (rs1 instr) -> rd_ok (rs2 instr) -> rd_ok (rs3 instr) ->
  lane_ctx (exec_context num_lanes w wpc instr c) l = thread_context wpc instr (thread_at c w l).
Proof.
  intros H1 H2 H3. unfold lane_ctx, exec_context, thread_context. cbn [pc rs1_data rs2_data rs3_data dynamic_rm].
  by rewrite !read_thread.
Qed.

Lemma updates_WriteRegfile w r (c : Core) : rd_ok r ->
  updates w (tmask_ c) (fun l => write_reg r (nth l (data_buf (sinks c)) 0)) (threads c)
    (threads (WriteRegfile num_lanes w r c)).
Proof.
  intros Hr. unfold WriteRegfile, write_reg. case_match eqn:E; [apply updates_refl|].
  apply orb_false_iff in E as [E _]. apply Z.eqb_neq in E. destruct Hr as [|Hr]; [done|]. apply updates_regs. lia.
Qed.
Lemma updates_UpdatePri w op (c : Core) : op = ExecFlag.PRI_RESET \/ op = ExecFlag.PRI_RAISE \/ op = ExecFlag.PRI_LOWER ->
  updates w (tmask_ c) (fun l x => set_pri (next_pri op (pri_buf (sinks c)) (th_pri x)) x) (threads c)
    (threads (UpdatePri num_lanes w op c)).
Proof.
  intros Hop. eapply updates_ext; [|unfold UpdatePri; apply (updates_pri num_lanes num_warps w _ (fun _ p => u8 (_ * (p + _ * pri_buf (sinks c)))))].
  intros l x Hl. cbv beta. f_equal. destruct Hop as [->|[->| ->]]; unfold next_pri; simpl; f_equal; try lia. 
Qed.

Lemma oks_threads_transition to from cwm (c : Core) :
  oks (fun c' => threads c' = threads c) (WarpStateTransition to from cwm c).
Proof. unfold WarpStateTransition. by do 2 apply oks_massert. Qed.
Lemma resolve_threads x (c : Core) : oks (fun c' => threads c' = threads c) (resolve num_lanes x c).
Proof.
  unfold resolve, trap. repeat case_match; try done; by eapply oks_mono; [apply oks_threads_transition|].
Qed.
Lemma main_loop_threads (c : Core) : oks (fun '(c', _) => threads c' = threads c) (main_loop num_lanes num_warps c).
Proof.
  unfold main_loop. case_match; [done|]. destruct (SelectWarp _ _) as [s v].
  unfold ArbitratePC. destruct (arbitrate _ _ _) as [[f l] p].
  eapply (oks_bind (fun _ => True)); [by apply oks_massert|]. done.
Qed.

(** What the end of an instruction without accesses does to the threads. *)
Definition finished (x : Executing) (c : Core) : Core :=
  let c := if HasFlag (x_flag x) ExecFlag.FP_EXC then UpdateFflags num_lanes (x_wid x) c else c in
  if HasFlag (x_flag x) ExecFlag.PRIORITY then UpdatePri num_lanes (x_wid x) (GetPriOp (x_flag x)) c else c.
Lemma finish_threads x (c : Core) : HasFlag (x_flag x) ExecFlag.CSR = false ->
  oks (fun '(c', _) => threads c' = threads (finished x c)) (finish num_lanes num_warps x c).
Proof.
  intros Hcsr. unfold finish. eapply (oks_bind (fun c' => threads c' = threads (finished x c))).
  - unfold commit. eapply (oks_bind (fun c0 => c0 = set_executing 0 c)); [by rewrite Hcsr|]. intros _ ->.
    set (c1 := if HasFlag (x_flag x) ExecFlag.FP_EXC
               then UpdateFflags num_lanes (x_wid x) (set_executing 0 c) else set_executing 0 c).
    set (c2 := if HasFlag (x_flag x) ExecFlag.PRIORITY
               then UpdatePri num_lanes (x_wid x) (GetPriOp (x_flag x)) c1 else c1).
    assert (E2 : threads c2 = threads (finished x c)).
    { subst c2 c1. unfold finished. by do 2 case_match. }
    rewrite <- E2. clearbody c2. clear E2 c1. eapply (oks_bind (fun c' => threads c' = threads c2)).
    { case_match; [|done]. unfold ArriveBarrier. destruct (massert _) as [u|]; [|done].
      cbn [mbind res_bind]. by case_match. }
    intros c3 E3. rewrite <- E3. clear c2 E3. eapply (oks_bind (fun c' => threads c' = threads c3)).
    { case_match; [|done]. unfold Exit. by destruct (massert _) as [u|]. }
    intros c4 E4. rewrite <- E4. eapply oks_bind; [apply resolve_threads|]. intros c5 E5. simpl. done.
  - intros c1 E1. rewrite <- E1. apply main_loop_threads.
Qed.

Context (sched_ok : nat -> S -> Prop) `{!SchedLaws num_warps S sched_ok}.
Context (Hlanes : (0 < num_lanes)%nat) (Hwarps : (num_warps <= 32)%nat).

(** Some active thread of the warp would trap alone. *)
Definition warp_traps (w : nat) (wpc iword : Z) (c : Core) : bool :=
  existsb (fun j => bv_bit (tmask_ c) j && HasException (thread_flag sf wpc iword (thread_at c w j))) (seq 0 num_lanes).

(** From [c] to [c'] the active threads of [w] change by [g]; the lanes and the buffers stay. *)
Definition acts (w : nat) (g : nat -> thread -> thread) (c c' : Core) : Prop :=
  updates w (tmask_ c) g (threads c) (threads c') /\ tmask_ c' = tmask_ c /\ sinks c' = sinks c.
Lemma acts_trans w g1 g2 (c1 c2 c3 : Core) :
  acts w g1 c1 c2 -> acts w g2 c2 c3 -> acts w (fun l x => g2 l (g1 l x)) c1 c3.
Proof.
  intros (U1 & M1 & S1) (U2 & M2 & S2). rewrite M1 in U2. split_and!; [|congruence|congruence].
  by eapply updates_trans.
Qed.
Lemma acts_if (b : bool) w g (c c' : Core) : (b = true -> acts w g c c') ->
  acts w (fun l x => if b then g l x else x) c (if b then c' else c).
Proof. destruct b; [by auto|]. intros _. split_and!; [apply updates_refl|done|done]. Qed.

(** What the buffers [s] of an instruction with [flag] make of thread [l]. *)
Definition result (flag : ExecFlag) (rd : Z) (s : Sinks) (l : nat) (t : thread) : thread :=
  let t := if HasFlag flag ExecFlag.RD_DATA then write_reg rd (nth l (data_buf s) 0) t else t in
  let t := if HasFlag flag ExecFlag.NEXT_PC then set_pc (nth l (addr_buf s) 0) t else t in
  let t := if HasFlag flag ExecFlag.FP_EXC
           then set_flags (Z.lor (th_fflags t) (Z.land (nth l (fflags_buf s) 0) 0x1f)) t else t in
  if HasFlag flag ExecFlag.PRIORITY then set_pri (next_pri (GetPriOp flag) (pri_buf s) (th_pri t)) t else t.

Definition written (x : Executing) (c : Core) : Core :=
  let c := if HasFlag (x_flag x) ExecFlag.RD_DATA then WriteRegfile num_lanes (x_wid x) (rd (x_instr x)) c else c in
  if HasFlag (x_flag x) ExecFlag.NEXT_PC then UpdatePC num_lanes (x_wid x) c else c.
Lemma finished_acts x (c : Core) : rd_ok (rd (x_instr x)) ->
  (HasFlag (x_flag x) ExecFlag.PRIORITY = true -> pri_known (x_flag x) = true) ->
  acts (x_wid x) (result (x_flag x) (rd (x_instr x)) (sinks c)) c (finished x (written x c)).
Proof.
  intros Hrd Hpri.
  set (ca := if HasFlag (x_flag x) ExecFlag.RD_DATA then WriteRegfile num_lanes (x_wid x) (rd (x_instr x)) c else c).
  set (cb := if HasFlag (x_flag x) ExecFlag.NEXT_PC then UpdatePC num_lanes (x_wid x) ca else ca).
  set (cc := if HasFlag (x_flag x) ExecFlag.FP_EXC then UpdateFflags num_lanes (x_wid x) cb else cb).
  assert (Ha : acts (x_wid x) (fun l t => if HasFlag (x_flag x) ExecFlag.RD_DATA
    then write_reg (rd (x_instr x)) (nth l (data_buf (sinks c)) 0) t else t) c ca).
  { apply acts_if. intros _. split_and!; [by apply updates_WriteRegfile| |]; unfold WriteRegfile; by case_match. }
  assert (Hb : acts (x_wid x) (fun l t => if HasFlag (x_flag x) ExecFlag.NEXT_PC
    then set_pc (nth l (addr_buf (sinks ca)) 0) t else t) ca cb).
  { apply acts_if. intros _. split_and!; [|done|done]. apply (updates_pc _ _ _ _ (fun i _ => nth i (addr_buf (sinks ca)) 0)). }
  assert (Hc : acts (x_wid x) (fun l t => if HasFlag (x_flag x) ExecFlag.FP_EXC
    then set_flags (Z.lor (th_fflags t) (Z.land (nth l (fflags_buf (sinks cb)) 0) 0x1f)) t else t) cb cc).
  { apply acts_if. intros _. split_and!; [|done|done].
    apply (updates_fflags _ _ _ _ (fun i p => Z.lor p (Z.land (nth i (fflags_buf (sinks cb)) 0) 0x1f))). }
  assert (Hd : acts (x_wid x) (fun l t => if HasFlag (x_flag x) ExecFlag.PRIORITY
    then set_pri (next_pri (GetPriOp (x_flag x)) (pri_buf (sinks cc)) (th_pri t)) t else t) cc (finished x (written x c))).
  { apply acts_if. intros Hp. split_and!; [|done|done]. apply updates_UpdatePri.
    specialize (Hpri Hp). unfold pri_known in Hpri. rewrite !orb_true_iff, !Z.eqb_eq in Hpri. tauto. }
  pose proof (proj2 (proj2 Ha)) as Sa. pose proof (proj2 (proj2 Hb)) as Sb. pose proof (proj2 (proj2 Hc)) as Sc.
  rewrite Sc, Sb, Sa in Hd. rewrite Sb, Sa in Hc. rewrite Sa in Hb.
  exact (acts_trans _ _ _ _ _ _ (acts_trans _ _ _ _ _ _ (acts_trans _ _ _ _ _ _ Ha Hb) Hc) Hd).
Qed.

Section fetched.
Context (w : nat) (wpc iword : Z) (c : Core).
Context (Hw : (w < num_warps)%nat) (Hsized : sized num_lanes num_warps c).
Abbreviation instr := (Decode iword).
Definition c1 : Core := AdvancePC num_lanes w c.

Lemma advanced_threads : updates w (tmask_ c) (fun _ => advance) (threads c) (threads c1).
Proof. apply (updates_pc num_lanes num_warps w _ (fun _ p => u64 (p + 4))). Qed.
Lemma advanced_at l : (l < num_lanes)%nat -> bv_bit (tmask_ c) l = true -> thread_at c1 w l = advance (thread_at c w l).
Proof.
  intros Hl Hb. unfold SmThread.thread_at. rewrite (proj2 advanced_threads (proj1 Hsized) Hw w l Hw Hl).
  by rewrite bool_decide_true, Hb.
Qed.
Lemma advanced_context l : (l < num_lanes)%nat -> bv_bit (tmask_ c) l = true ->
  lane_ctx (exec_context num_lanes w wpc instr c1) l = thread_context wpc instr (advance (thread_at c w l)).
Proof.
  intros Hl Hb. destruct (decode_regs_ok iword) as (_ & H1 & H2 & H3). by rewrite lane_context, advanced_at.
Qed.

Lemma warp_traps_spec : some_trap (Execute sf) (exec_context num_lanes w wpc instr c1) instr = warp_traps w wpc iword c.
Proof.
  unfold some_trap, warp_traps. change (SmExec.num_lanes _) with num_lanes.
  assert (Hin : forall j, In j (seq 0 num_lanes) -> (j < num_lanes)%nat) by (intros j Hj; apply in_seq in Hj; lia).
  induction (seq 0 num_lanes) as [|j l IH]; [done|]. cbn [existsb]. rewrite IH by (intros; apply Hin; by right).
  f_equal. change (active _ j) with (bv_bit (tmask_ c) j). destruct (bv_bit (tmask_ c) j) eqn:Eb; [|done].
  rewrite advanced_context by (try done; apply Hin; by left). done.
Qed.


(** The instruction and what it leaves in the buffers. *)
Definition fetched : ExecFlag * Sinks := Execute sf (exec_context num_lanes w wpc instr c1) instr (sinks c1).
Definition executing : Executing := mkExecuting w wpc iword instr (fst fetched).

Lemma after_fetch_threads : u32 (nth 0 (data_buf (sinks c)) 0) = iword -> bv_bit (aborting_warps_ c) w = false ->
  no_access (fst fetched) = true ->
  oks (fun '(c', _) => threads c' = threads (finished executing (written executing (set_sinks (snd fetched) c1))))
    (after_fetch sf num_lanes num_warps w wpc c).
Proof.
  intros Hi Ha Hn. unfold after_fetch. rewrite Hi. fold c1 fetched.
  unfold executing, fetched. fold fetched. rewrite (surjective_pairing fetched).
  change (aborting_warps_ (set_sinks (snd fetched) c1)) with (aborting_warps_ c). rewrite Ha.
  unfold no_access in Hn. rewrite !andb_true_iff, !negb_true_iff in Hn. destruct Hn as [[[Hl Hs] Ht] Hc].
  unfold at_load, at_atomic, at_store. cbn [x_flag fst snd]. rewrite Hl, Ht, Hs.
  apply (finish_threads (mkExecuting w wpc iword instr (fst fetched))). exact Hc.
Qed.

(** The buffers hold what the thread computes alone. *)
Lemma result_step l : (l < num_lanes)%nat -> bv_bit (tmask_ c) l = true -> warp_traps w wpc iword c = false ->
  result (fst fetched) (rd instr) (snd fetched) l (advance (thread_at c w l)) = thread_step sf wpc iword (thread_at c w l).
Proof.
  intros Hl Hb Ht. pose proof (lanewise_Execute sf (exec_context num_lanes w wpc instr c1) instr (sinks c1) l
    (proj2 Hsized) Hl Hb) as Hx. fold fetched in Hx. rewrite advanced_context in Hx by done.
  unfold thread_step, result. destruct fetched as [flag s].
  destruct (Execute sf (thread_context _ _ _) _ one_lane) as [flag1 s1] eqn:E1. cbn [fst snd] in *.
  destruct Hx as [Htr Hag]. rewrite warp_traps_spec, Ht in Htr.
  assert (Hf1 : HasException flag1 = false).
  { unfold warp_traps in Ht. apply not_true_iff_false in Ht. apply not_true_iff_false. intros Hf. apply Ht.
    apply existsb_exists. exists l. split; [apply in_seq; lia|]. rewrite Hb. unfold thread_flag. by rewrite E1. }
  destruct Hag as [-> (Hd & Hadr & Hfl & _ & Hp)]; [congruence|].
  assert (Hdata : HasFlag flag1 ExecFlag.RD_DATA = true -> nth l (data_buf s) 0 = nth 0 (data_buf s1) 0).
  { intros Hf. apply Hd. unfold uses_data. by rewrite Hf. }
  assert (Haddr : HasFlag flag1 ExecFlag.NEXT_PC = true -> nth l (addr_buf s) 0 = nth 0 (addr_buf s1) 0).
  { intros Hf. apply Hadr. unfold uses_addr. by rewrite Hf. }
  assert (Hpri : HasFlag flag1 ExecFlag.PRIORITY = true -> forall p,
    next_pri (GetPriOp flag1) (pri_buf s) p = next_pri (GetPriOp flag1) (pri_buf s1) p).
  { intros Hf p. unfold next_pri. destruct (GetPriOp flag1 =? ExecFlag.PRI_RESET) eqn:Er; [done|].
    rewrite Hp; [done|]. by rewrite Hf. }
  destruct (HasFlag flag1 ExecFlag.RD_DATA); [rewrite Hdata by done|];
    (destruct (HasFlag flag1 ExecFlag.NEXT_PC); [rewrite Haddr by done|]);
    (destruct (HasFlag flag1 ExecFlag.FP_EXC); [rewrite Hfl by done|]);
    (destruct (HasFlag flag1 ExecFlag.PRIORITY); [by rewrite Hpri by done|]); done.
Qed.
(** An instruction that traps leaves the threads past it. *)
Lemma result_trap l t : no_result (fst fetched) = true -> result (fst fetched) (rd instr) (snd fetched) l t = t.
Proof.
  unfold no_result, result. rewrite !andb_true_iff, !negb_true_iff. by intros [[[-> ->] ->] ->].
Qed.

End fetched.

(** C20. A warp executes an instruction that does not reach memory or a CSR as its active
    threads would each execute it alone: when one of them traps, all only move past the
    instruction; otherwise every active thread gets the registers, PC, priority and
    floating-point flags of its own execution. The threads that are not active stay. *)
Theorem warp_executes_threads k w wpc ok iword c c' qs l :
  core_reach sf num_lanes num_warps sched_ok (Datatypes.S k) c -> main_ c = MainFetch w wpc ->
  bv_bit (aborting_warps_ c) w = false -> local_instr (def (Decode (u32 iword))) = true ->
  step sf num_lanes num_warps (EvFetched ok iword) c = Ok (c', qs) -> (l < num_lanes)%nat ->
  thread_at c' w l =
    if bv_bit (tmask_ c) l then
      if warp_traps w wpc (u32 iword) c then advance (thread_at c w l)
      else thread_step sf wpc (u32 iword) (thread_at c w l)
    else thread_at c w l.
Proof.
  intros Hc Hm Ha Hloc Hstep Hl. destruct (reach_sized _ _ _ _ Hlanes Hwarps _ _ Hc) as [Hs _].
  destruct (reach_core_inv sf num_lanes num_warps sched_ok Hlanes Hwarps _ _ Hc) as [ws Hi].
  pose proof (i_main _ _ _ _ _ _ Hi) as Hx. rewrite Hm in Hx. pose proof (e_warp _ _ _ _ Hx) as Hw.
  unfold step in Hstep. rewrite Hm in Hstep. destruct ok; [|done]. cbn [massert mbind res_bind] in Hstep. set (c0 := fill 0 4 iword c) in *.
  assert (Hs0 : sized num_lanes num_warps c0) by (split; [apply Hs|by apply sized_set_data, Hs]).
  assert (Ei : u32 (nth 0 (data_buf (sinks c0)) 0) = u32 iword).
  { destruct Hs as (_ & _ & Hd & _). simpl. rewrite nth_insert by lia. rewrite decide_True by done. apply overwrite_word. }
  pose proof (local_exec sf (def (Decode (u32 iword))) (exec_context num_lanes w wpc (Decode (u32 iword)) (c1 w c0))
    (Decode (u32 iword)) (sinks (c1 w c0)) Hloc) as Hf.
  change (local_flag (fst (fetched w wpc (u32 iword) c0)) = true) in Hf.
  unfold local_flag in Hf. rewrite !andb_true_iff in Hf. destruct Hf as [[Hna Htr] Hpri].
  pose proof (after_fetch_threads w wpc (u32 iword) c0 Ei Ha Hna) as Ht. rewrite Hstep in Ht. simpl in Ht.
  set (x := executing w wpc (u32 iword) c0) in *. set (f := fetched w wpc (u32 iword) c0) in *.
  pose proof (finished_acts x (set_sinks (snd f) (c1 w c0)) (proj1 (decode_regs_ok (u32 iword)))) as [Hu _].
  { intros Hp. change (x_flag x) with (fst f) in *. by rewrite Hp in Hpri. }
  pose proof (updates_trans _ _ _ _ _ _ _ _ _ (advanced_threads w c0) Hu) as [_ Hu'].
  unfold SmThread.thread_at. rewrite Ht, (Hu' (proj1 Hs0) Hw w l Hw Hl), bool_decide_true by done.
  change (tmask_ c0) with (tmask_ c). change (threads c0) with (threads c).
  destruct (bv_bit (tmask_ c) l) eqn:Eb; [|done]. cbn [andb].
  pose proof (result_step w wpc (u32 iword) c0 Hw Hs0 l Hl Eb) as Hstep'.
  pose proof (warp_traps_spec w wpc (u32 iword) c0 Hw Hs0) as Hwt.
  pose proof (lanewise_Execute sf (exec_context num_lanes w wpc (Decode (u32 iword)) (c1 w c0)) (Decode (u32 iword))
    (sinks (c1 w c0)) l (proj2 Hs0) Hl Eb) as Hx'.
  fold (fetched w wpc (u32 iword) c0) in Hx'. fold f in Hx'.
  change (warp_traps w wpc (u32 iword) c0) with (warp_traps w wpc (u32 iword) c) in *.
  destruct (warp_traps w wpc (u32 iword) c); [|by apply Hstep'].
  apply result_trap. fold f. destruct Hx' as [Hx' _]. rewrite Hwt in Hx'. by rewrite Hx' in Htr.
Qed.

End simt.

(** Both lanes of a warp execute [addi x1, x0, 5]. *)
Lemma warp_executes_threads_witness :
  thread_at 2 (next_core (EvFetched true 0x00500093) example_core) 0 1 =
    thread_step no_float 0x1000 0x00500093 (thread_at 2 example_core 0 1) /\
  firstn 3 (th_regs (thread_step no_float 0x1000 0x00500093 (thread_at 2 example_core 0 1))) = [0; 5; 0].
Proof.
  split; [|vm_compute; reflexivity].
  assert (Hstep : exists qs, step no_float 2 2 (EvFetched true 0x00500093) example_core =
    Ok (next_core (EvFetched true 0x00500093) example_core, qs)) by (vm_compute; eauto).
  destruct Hstep as [qs Hstep].
  pose proof (warp_executes_threads no_float 2 2 (Lrr_ok 2) ltac:(lia) ltac:(lia) 0 0 0x1000 true 0x00500093 example_core
    _ qs 1 (example_reach 1) ltac:(vm_compute; reflexivity) ltac:(vm_compute; reflexivity)
    ltac:(vm_compute; reflexivity) Hstep ltac:(lia)) as Ht.
  assert (Hb : bv_bit (tmask_ example_core) 1 = true) by (vm_compute; reflexivity).
  assert (Hn : warp_traps no_float 2 0 0x1000 (u32 0x00500093) example_core = false) by (vm_compute; reflexivity).
  rewrite Hb, Hn in Ht. exact Ht.
Defined.
