(* ===== verification/SmFair.v ===== *)
(** * Fairness

    Round robin passes over no ready warp for ever, and a warp executes the threads of
    its highest priority. *)

From S2P Require Import Prelude SimFifo SmEncoding SmInstr SmExec SmSched SmCore.

(** ** Loose round robin *)

Section round_robin.
Context (n : nat) (Hn : (0 < n)%nat) (Hmax : Z.of_nat n < 2 ^ 31).

(** The selections over successive masks of ready warps. *)
Fixpoint selections (s : Lrr) (masks : list Z) : list Z :=
  match masks with
  | [] => []
  | m :: masks => let '(s', w) := Lrr_SelectWarp s m in w :: selections s' masks
  end.

(** How far [w] is from the warp of the highest priority. *)
Definition distance (s : Lrr) (w : nat) : Z := (Z.of_nat w - prioritized_ s) mod Z.of_nat n.

Lemma select_nearer s m w : Lrr_ok n 0 s -> (w < n)%nat -> Z.testbit m (Z.of_nat w) = true ->
  let '(s', v) := Lrr_SelectWarp s m in
  Lrr_ok n 0 s' /\ (v = Z.of_nat w \/ distance s' w < distance s w).
Proof.
  intros [En Hp] Hw Hb. unfold Lrr_SelectWarp. rewrite En.
  set (d := distance s w). assert (Hd : 0 <= d < Z.of_nat n) by (apply Z.mod_pos_bound; lia).
  assert (Hwid : forall i, (i < n)%nat -> u32 (prioritized_ s + Z.of_nat i) = prioritized_ s + Z.of_nat i).
  { intros i Hi. apply wrap_small. lia. }
  assert (Hdw : (prioritized_ s + d) mod Z.of_nat n = Z.of_nat w).
  { unfold d, distance. rewrite Zplus_mod_idemp_r. rewrite Z.mod_small; [lia|]. lia. }
  destruct (find_first_reached (fun i => Z.testbit m (u32 (prioritized_ s + Z.of_nat i) mod Z.of_nat n)) n (Z.to_nat d))
    as [j Ej]; [lia| |].
  { rewrite Hwid, Z2Nat.id, Hdw by lia. exact Hb. }
  rewrite Ej. apply find_first_Some in Ej as (Hj & Hbj & Hbefore). rewrite !Hwid in * by lia.
  set (v := (prioritized_ s + Z.of_nat j) mod Z.of_nat n) in *.
  assert (Hv : 0 <= v < Z.of_nat n) by (apply Z.mod_pos_bound; lia).
  rewrite wrap_small by lia. split.
  - split; [done|]. simpl. apply Z.mod_pos_bound. lia.
  - assert (Hjd : Z.of_nat j <= d).
    { destruct (decide (Z.of_nat j <= d)) as [|Hlt]; [done|]. specialize (Hbefore (Z.to_nat d)).
      rewrite Hwid, Z2Nat.id, Hdw, Hb in Hbefore by lia. discriminate Hbefore. lia. }
    destruct (decide (Z.of_nat j = d)) as [E|Hne]; [left; subst v; by rewrite E|]. right.
    unfold distance at 1. simpl. rewrite Zminus_mod_idemp_r. subst v.
    replace ((Z.of_nat w - ((prioritized_ s + Z.of_nat j) mod Z.of_nat n + 1)) mod Z.of_nat n)
      with ((Z.of_nat w - prioritized_ s - Z.of_nat j - 1) mod Z.of_nat n).
    + replace ((Z.of_nat w - prioritized_ s - Z.of_nat j - 1) mod Z.of_nat n)
        with ((d - Z.of_nat j - 1) mod Z.of_nat n); [rewrite Z.mod_small; lia|].
      unfold d, distance. set (y := Z.of_nat w - prioritized_ s).
      replace (y mod Z.of_nat n - Z.of_nat j - 1) with (y mod Z.of_nat n - (Z.of_nat j + 1)) by lia.
      rewrite Zminus_mod_idemp_l. f_equal. lia.
    + set (x := prioritized_ s + Z.of_nat j).
      replace (Z.of_nat w - (x mod Z.of_nat n + 1)) with (Z.of_nat w - 1 - x mod Z.of_nat n) by lia.
      rewrite Zminus_mod_idemp_r. f_equal. lia.
Qed.

Lemma selected_within s masks w : Lrr_ok n 0 s -> (w < n)%nat -> distance s w < Z.of_nat (length masks) ->
  (forall m, m ∈ masks -> Z.testbit m (Z.of_nat w) = true) -> Z.of_nat w ∈ selections s masks.
Proof.
  revert s. induction masks as [|m masks IH]; intros s Hs Hw Hd Hm.
  - assert (0 <= distance s w) by (apply Z.mod_pos_bound; lia). simpl in Hd. lia.
  - cbn [selections]. pose proof (select_nearer s m w Hs Hw (Hm m ltac:(left))) as Hsel.
    destruct (Lrr_SelectWarp s m) as [s' v]. destruct Hsel as [Hs' [->|Hlt]]; [left|]. right.
    apply IH; [done|done|simpl in Hd; lia|]. intros m' Hm'. apply Hm. by right.
Qed.

(** C23. The round-robin scheduler (lrr.cc) is fair: a warp that is ready at [n] selections in a row is selected
    in one of them, whatever other warps are ready. *)
Theorem round_robin_fair s masks w : Lrr_ok n 0 s -> (w < n)%nat -> length masks = n ->
  (forall m, m ∈ masks -> Z.testbit m (Z.of_nat w) = true) -> Z.of_nat w ∈ selections s masks.
Proof.
  intros Hs Hw Hl Hm. apply selected_within; try done. rewrite Hl. apply Z.mod_pos_bound. lia.
Qed.

End round_robin.

Lemma round_robin_fair_witness :
  selections (Lrr_init 3) [7; 7; 5] = [0; 1; 2] /\ Z.of_nat 2 ∈ selections (Lrr_init 3) [7; 7; 5].
Proof.
  split; [vm_compute; reflexivity|].
  apply (round_robin_fair 3 ltac:(lia) ltac:(lia) (Lrr_init 3) [7; 7; 5] 2); [apply Lrr_init_ok; lia|lia|done|].
  apply Forall_forall. repeat constructor.
Defined.

(** ** Priority *)

Section priority.
Context {S : Type} `{WarpSched S} (num_lanes num_warps : nat).
Abbreviation Core := (AtomicCore S).

Definition runs (c : Core) (w l : nat) : bool := LaneRunnable (lane_state_ c) w l.
Definition pc_of (c : Core) (w l : nat) : Z := nth (lane_index num_lanes w l) (ptpc_ (threads c)) 0.
Definition pri_of (c : Core) (w l : nat) : Z := nth (lane_index num_lanes w l) (ptpri_ (threads c)) 0.

(** [l] is the first of the lanes below [n] with the highest priority. *)
Definition first_best (c : Core) (w n l : nat) : Prop :=
  (l < n)%nat /\ runs c w l = true /\
  forall j, (j < n)%nat -> runs c w j = true -> pri_of c w j <= pri_of c w l /\ ((j < l)%nat -> pri_of c w j < pri_of c w l).

Lemma arbitrate_best w c :
  let '(found, lane, pri) := arbitrate num_lanes w c in
  if found then first_best c w num_lanes lane /\ pri = pri_of c w lane
  else forall j, (j < num_lanes)%nat -> runs c w j = false.
Proof.
  unfold arbitrate. fold (pri_of c w).
  apply (for_range_ind (fun n '(found, lane, pri) =>
    if found : bool then first_best c w n lane /\ pri = pri_of c w lane
    else forall j, (j < n)%nat -> runs c w j = false)); [lia|].
  intros n [[found lane] pri] _ Hinv. fold (runs c w n) (pri_of c w n).
  destruct (runs c w n) eqn:Er; simpl negb; cbv iota.
  - destruct found; simpl.
    + destruct Hinv as [(Hl & Hrun & Hbest) ->]. destruct (pri_of c w lane <? pri_of c w n) eqn:Ep; (split; [|done]);
        split_and!; try done; try lia; intros j Hj Hrj.
      * destruct (decide (j = n)) as [->|]; [lia|]. destruct (Hbest j ltac:(lia) Hrj). lia.
      * destruct (decide (j = n)) as [->|]; [lia|]. apply Hbest; [lia|done].
    + split; [|done]. split_and!; [lia|done|]. intros j Hj Hrj. destruct (decide (j = n)) as [->|]; [lia|].
      rewrite Hinv in Hrj by lia. done.
  - destruct found.
    + destruct Hinv as [(Hl & Hrun & Hbest) ->]. split; [|done]. split_and!; [lia|done|]. intros j Hj Hrj.
      destruct (decide (j = n)) as [->|]; [congruence|]. apply Hbest; [lia|done].
    + intros j Hj. destruct (decide (j = n)) as [->|]; [done|]. apply Hinv. lia.
Qed.

Lemma thread_mask_spec w wpc (c : Core) i : (i < num_lanes)%nat ->
  bv_bit (tmask_ (UpdateThreadMask num_lanes w wpc c)) i = runs c w i && (pc_of c w i =? wpc).
Proof.
  intros Hi. unfold UpdateThreadMask. simpl.
  refine (for_range_ind (fun n m => (i < n)%nat -> bv_bit m i = runs c w i && (pc_of c w i =? wpc)) _ 0 num_lanes _ _ _ Hi);
    [lia|].
  intros j m Hj Hm Hij. fold (runs c w j) (pc_of c w j).
  destruct (decide (i = j)) as [->|Hne].
  - destruct (runs c w j && (pc_of c w j =? wpc)); unfold bv_bit; [by rewrite Z.setbit_eq by lia|by rewrite Z.clearbit_eq].
  - rewrite <- Hm by lia. case_match; unfold bv_bit; [rewrite Z.setbit_neq by lia|rewrite Z.clearbit_neq by lia]; done.
Qed.

(** C22. The core executes the threads of the highest priority: the warp the scheduler
    selects fetches at the PC of its first runnable lane with the highest priority, and
    the lanes that take part are the runnable ones at that PC. *)
Theorem highest_priority_executes (c c' : Core) qs w wpc :
  main_loop num_lanes num_warps c = Ok (c', qs) -> main_ c' = MainFetch w wpc ->
  Z.of_nat w = Z.max 0 (snd (SelectWarp (sched_ c) (mask Active c))) /\
  (exists l, first_best c w num_lanes l /\ wpc = pc_of c w l /\ bv_bit (tmask_ c') l = true) /\
  forall i, (i < num_lanes)%nat -> bv_bit (tmask_ c') i = runs c' w i && (pc_of c' w i =? wpc).
Proof.
  unfold main_loop. destruct (mask Active c =? 0) eqn:E0; [by intros [= <- <-]|].
  destruct (SelectWarp (sched_ c) (mask Active c)) as [s v] eqn:Es. cbn [snd].
  match goal with |- context [ArbitratePC _ _ ?c0] => set (ca := c0) end.
  unfold ArbitratePC. pose proof (arbitrate_best (Z.to_nat v) ca) as Hb.
  destruct (arbitrate num_lanes (Z.to_nat v) ca) as [[found lane] pri]. destruct found; [|by intros].
  cbn [massert]. simpl mbind. intros [= <- <-] [= <- <-]. destruct Hb as [Hb _].
  pose proof (thread_mask_spec (Z.to_nat v) (pc_of c (Z.to_nat v) lane)
    (set_current_pc (pc_of c (Z.to_nat v) lane) ca)) as Hmask.
  split; [lia|]. split; [|exact Hmask]. exists lane. split; [exact Hb|]. split; [done|].
  destruct Hb as (Hl & Hr & _). etrans; [apply (Hmask lane Hl)|].
  rewrite andb_true_iff, Z.eqb_eq. split; [exact Hr|done].
Qed.

End priority.

(** Two lanes at different PCs: the one of the higher priority runs. *)
Definition example_lanes : AtomicCore Lrr :=
  set_threads (mkThreads (replicate 128 0) [0x100; 0x200; 0; 0] [1; 3; 0; 0] [0; 0; 0; 0] [0; 0; 0; 0])
    (set_masks (mkMasks 2 1 0 0) (AtomicCore_init 2 2 (Lrr_init 2))).
Lemma highest_priority_executes_witness :
  exists c' qs, main_loop 2 2 example_lanes = Ok (c', qs) /\ main_ c' = MainFetch 0 0x200 /\
    bv_bit (tmask_ c') 0 = false /\ bv_bit (tmask_ c') 1 = true.
Proof.
  assert (Hex : exists c' qs, main_loop 2 2 example_lanes = Ok (c', qs) /\ main_ c' = MainFetch 0 0x200 /\
    runs c' 0 0 && (pc_of 2 c' 0 0 =? 0x200) = false /\ runs c' 0 1 && (pc_of 2 c' 0 1 =? 0x200) = true).
  { vm_compute. eauto 10. }
  destruct Hex as (c' & qs & Hm & Hw & H0 & H1). exists c', qs. split_and!; [done|done| |].
  - destruct (highest_priority_executes 2 2 example_lanes c' qs 0 0x200 Hm Hw) as (_ & _ & Ht).
    by rewrite (Ht 0%nat ltac:(lia)).
  - destruct (highest_priority_executes 2 2 example_lanes c' qs 0 0x200 Hm Hw) as (_ & _ & Ht).
    by rewrite (Ht 1%nat ltac:(lia)).
Defined.
